(* ===== verification/_CoqProject ===== *)
-Q . S2P
Prelude.v
JsCollections.v
JsString.v
Paths.v
Json.v
Errors.v
Models.v
Entries.v
ExplorerLogic.v
Explorer.v
BatchRename.v
Host.v
Utf8.v
AgentClient.v
Storage.v
HostStore.v
ListingCache.v
Collections.v
Settings.v
Identity.v
Pairing.v
FetchQueue.v
Csv.v
Search.v
LegacyImport.v
SyncRules.v
Uploads.v
Picker.v
DupFinder.v
Transfers.v
Services.v
Sync.v
PhotoBackup.v
Guards.v
Offline.v
Backup.v
HostScreens.v
Update.v
Features.v
Regex.v
Markdown.v
Preview.v
FileCaches.v
Enqueue.v
FileActions.v
WebIdentity.v
WebClient.v
WebPages.v
DeskPaths.v
DeskServers.v
DeskTransfers.v
Qr.v
QrField.v
QrRead.v
Editor.v
SettingsScreen.v
DeskFolders.v
BinScreens.v
MetaSheet.v
Pager.v
ExplorerScreen.v
TransfersScreen.v
SearchScreen.v
AppsScreen.v
AuditScreen.v
