(* ===== verification/Prelude.v ===== *)
(** * Remote File Explorer: a verification library for the TypeScript clients

    ** The program

    Remote File Explorer lets a phone browse and manage the files of paired
    computers.  An agent on each computer serves an HTTPS API; the phone app
    ([src/mobile], TypeScript on React Native) is its client.  The app pins the
    certificate of every paired agent, identifies itself with an Ed25519 key
    pair, and keeps its state in two stores: plain metadata and a secure
    store for tokens, pins and keys.

    The parts and how they meet:

    - *protocol*: [core/api] builds requests, enforces the certificate pin, picks
      a route (local network, Tailscale, Internet), retries and parses replies;
    - *device state*: [core/storage], [core/security], [core/settings] hold hosts,
      listings, collections, settings, sync rules and the device identity;
    - *pairing*: [features/pairing] turns a QR code or a typed address into a
      committed host, with a commit-and-reveal match code;
    - *explorer*: [features/explorer] is the file browser's state machine, over a
      client; it calls path, sort and visibility rules, the rename planner and
      the undo plans, and feeds the thumbnail queue;
    - *search, preview, transfers, sync, photo backup, offline copies, backup,
      updates, computers' screens*: features on top of a client and the stores;
    - [services.ts] wires them: a client for a host is built from the secure
      store only.

    ** How the code is modelled

    JavaScript strings are lists of UTF-16 code units ([JsString]); [Set] and
    [Map] are duplicate-free lists in insertion order ([JsCollections]);
    [unknown] data is the JSON tree of [Json].  A function that throws or a
    promise that rejects returns a [result]; storage code is state passing over a
    [Disk] whose calls fail as a script says ([Storage]); client code is a
    state-and-error monad over the requests sent ([AgentClient]).  Where the code
    can be interleaved ([await] in a store method, React callbacks, queues) it is
    cut at its suspension points: a pending call is a value of a task type, an
    event resumes it, and theorems quantify over every sequence of events.

    What lies outside [src/] is a parameter: the native transport, the transfer
    engine, the vault, the file system, the media library, the hash and curve
    functions, the JSON text codec, the engine's case mapping and number printing.
    Their laws are the fields of a [Class] or hypotheses of a section, and
    concrete instances show that they can hold.

    ** Files

    Runtime and data.
    - [Prelude], [JsCollections], [JsString], [Json], [Utf8]: tactics, results,
      the runtime's collections, strings, JSON, UTF-8 and UTF-16, percent
      encoding; [Utf8] also holds [textDecode.ts] and [followLogic.ts].
    - [Paths] ([paths.ts], [nameValidation.ts]), [Errors] ([pin.ts] and the error
      classes), [Models] ([core/api/models.ts]), [Host] ([core/models/host.ts]),
      [Entries] ([entryCategory.ts], [visibility.ts], sort orders).

    The client and the device.
    - [AgentClient] ([agentClient.ts], [compat.ts]): construction, the pin rule,
      sending, fallback, every endpoint.
    - [Storage], [HostStore], [ListingCache], [Collections], [Settings],
      [SyncRules], [LegacyImport] ([core/storage], [core/settings], [state]);
      [Identity] ([deviceIdentity.ts]); [Services] ([services.ts]).
    - [Pairing] ([features/pairing]).

    The explorer.
    - [ExplorerLogic] (the pure decisions), [Explorer] ([explorerStore.ts] as a
      step function), [BatchRename] (its two-phase rename over an interface of
      the host), [Picker], [FetchQueue].

    Features.
    - [Search], [Csv], [DupFinder], [Uploads], [Transfers], [Sync],
      [PhotoBackup], [Offline], [Backup], [Update], [HostScreens], [Guards],
      [Features] (hand-off, visibility editing, host settings, apps, sharing,
      recent files, app lock, external links, background pass).
    - [Regex], [Markdown] ([features/preview/markdown.ts]): the engine's backtracking
      matcher and both markdown parsers on top of it.
    - [Preview] ([previewKind.ts], [neighbourPreload.ts], [externalFiles.ts],
      [useFollowText.ts]).
    - [FileCaches] ([previewFile.ts], [thumbnails.ts], [externalFiles.ts],
      [rootsCache.ts]): the preview and thumbnail folders, their eviction and retries.
    - [Enqueue] ([enqueueUploads.ts], [enqueueDownloads.ts]).
    - [FileActions] ([useFileActions.ts], [useConflictPrompt.ts]): the explorer's
      actions, with every question asked and every request sent on a record.

    The web companion the agent serves ([agent/internal/webui/web/src]).
    - [WebIdentity] ([lib/deviceIdentity.ts]), [WebClient] ([lib/api.ts],
      [lib/requests.ts]), [WebPages] (the decisions of [pages] and [lib/auth.tsx]).

    The window of the desktop app ([desktop/ui/engine.js]).
    - [DeskPaths]: paths, names, kinds, the sorted view, addresses, fingerprints.
    - [DeskServers]: one server's connection as a state machine over the requests to
      the core under way, and the dialogs of [fx2.js] that show its fingerprint.
    - [DeskTransfers]: the cards over the transfers of the core, which answers in any
      order.
    - [DeskFolders]: the folder cache, its loads page by page and the operations on
      files, over shared arrays of rows.
    - [Qr] ([desktop/ui/qr.js]): the encoder of the pairing code; [QrField]: its
      multiplication is a field's, so the words of every block have zero syndromes;
      [QrRead]: a reader after the standard, and that it reads every code.

    Screens of the phone with state of their own.
    - [Editor] ([app/edit.tsx]), [SettingsScreen]
      ([features/settings/HostSettingsScreen.tsx]).
    - [BinScreens] ([app/dups.tsx], [app/trash.tsx]); [MetaSheet]
      ([features/explorer/MetaSheet.tsx], [ChmodDialog.tsx]).
    - [Pager] ([app/preview.tsx]); [ExplorerScreen]
      ([features/explorer/ExplorerScreen.tsx]), over the store of [Explorer];
      [TransfersScreen] ([features/transfers/TransfersScreen.tsx]).
    - [SearchScreen] ([features/search/HostSearchScreen.tsx]), over the controller of
      [Search]; [AppsScreen] ([features/apps/AppsScreen.tsx]); [AuditScreen]
      ([app/host/[id]/audit.tsx]), over [auditPaging.ts] in [Features].
    ** What the theorems show

    - *Pins* ([client_requests_obey_pin], [pairing_commits_pinned],
      [requestPairing_commits_first]): every request of a client built for a
      paired computer goes to an HTTPS route with that computer's pin; no pairing
      flow commits a host whose certificate was not pinned; a pairing request
      sends its commitment before its nonce.
    - *Atomicity under failing storage* ([commitPairing_atomic],
      [removeHost_secrets_first], [legacyImport_safe], [import_atomic],
      [identity_permanent]): whatever call fails, the device is left in one of
      the states the code promises.
    - *Refinement* ([host_list_refines], [collections_mirror],
      [syncRule_correct]): the stored encodings implement lists of records, the
      in-memory mirrors equal what was persisted, a sync pass changes only
      files that are missing, of another size or older.
    - *State machines* ([explorer_rows_current], [load_settles],
      [fetchQueue_correct], [search_shows_latest], [crossHost_shows_latest],
      [lease_never_leaks], [ping_learns_only], [lock_holds]): invariants by
      induction over all runs.
    - *Exact functional behaviour* ([batchRename_exact],
      [batchRename_accounts_for_every_file], [planUploads_correct],
      [duplicates_keep_one], [permissions_exact], [routeRows_correct],
      [sortEntries_correct], [resolveRoots_confined],
      [buildPathStackWithinRoot_jail]).
    - *Round trips and equivalences* ([backup_roundtrip],
      [parseCsv_reads], [decodeAsText_exact]; also [query_string_roundtrip]).
    - *Bounds and termination* ([photoBackup_bounded], [offline_budget],
      [put_capped], [wakeThenOpen_ends]) and *errors* ([call_retry_policy],
      [probeAll_isolated], [photoBackup_records_finished],
      [update_installs_announced]).
    - *Previews* ([parseMarkdown_wf], [parseMarkdown_hrefs], with [parseMarkdown_total]
      and the literal and verbatim round trips beside them; [follow_exact]): documents
      are well formed, no link is made up, and a followed file shows exactly what was
      appended.
    - *Actions and caches* ([actions_need_consent], [paste_clipboard],
      [enqueueUploads_correct], [thumbnail_load_bounded], [fetchPreviewFile_correct],
      [evict_bounded]): nothing is deleted and no name found there is replaced without the matching answer,
      a failed paste can be repeated, a failed upload leaves no folder behind, a
      thumbnail is asked for at most four times.
    - *The web companion* ([web_upload_exact], [web_proof_bound],
      [web_identity_permanent], [trash_emptied_only_confirmed], with
      [removal_confirmed], [inside_means_accepted], [web_rows_in_order] beside
      them): an upload sends the file it hashed, a sign-in proves the one key the
      browser keeps, and nothing is emptied unasked.
    - *The desktop window* ([desk_paths_roundtrip], [sign_in_accepted_only], with
      [made_name_is_child], [uniqueName_free], [view_correct],
      [fingerprint_roundtrip] beside them): a path reads back as it was built, and a
      login is sent only to a fingerprint accepted where it was shown, or presented
      while its dialog stood open.
    - *Its transfers* ([transfers_accounted], [poll_tells_end], [suspend_stops],
      [resume_restarts]): no file is transferred without a card that stops it, a card
      ends only with its files, a lost connection stops and its return restarts.
    - *Its folders* ([folder_loads_end], [load_reads_folder], [folder_loads_in_order],
      [remove_takes_out]): no folder stays on loading, a load shows exactly the pages
      the agent sent, loads of one folder land in order unless it is dropped on the
      way, and a removal gives back what it took.
    - *The pairing code* ([qr_reads_back], [qr_capacity], [qr_least_penalty]): every QR
      code reads back as its text, one exists for up to 271 bytes, and its mask is one
      of the least penalty.
    - *Screens* ([editor_replaces_seen], [editor_clean_is_saved], [grants_in_step],
      [switches_in_step], [leaving_in_order]): a save replaces only what was seen or
      chosen, as far as the seconds of modification times tell versions apart, and rows
      that are not busy show what the computer has.
    - *Deleting and details* ([dups_page_keeps_one], [trash_page_confirmed],
      [sheet_asks_agreed], [sheet_offers]): of every content a scan found a file stays,
      the trash is emptied once for each yes, and the sheet of a file offers what is
      granted and asks for what was agreed to.
    - *Browsing* ([selecting_only_selects], [selection_ends_with_last],
      [shown_filtered], [tap_previews_row], [pager_shows_page], [pager_pages_in_step]):
      in selection mode taps only select, and only rows on screen; the mode ends with
      its last item; filters hold in their folder; a tap opens the pager on its row,
      and the pager always has a page and shows those that are left.
    - *Transfers page* ([transfers_page_refines], [transfer_calls_fit]): after a current
      listing the rows are the transfers of the engine and what a clearing that waits or
      failed left behind, and each action asks for what fits its row.
    - *Search and applications pages* ([search_page_in_step], [apps_started_allowed]):
      with no timer pending the page shows the search of its text under its filters; an
      application is started once at a time, and only where the catalogue allows it.
    - *The activity log* ([audit_rows_unbroken]): the rows are an unbroken run of a log
      that grows, unless a refresh lands between.
    ** Fuel and bounds

    Loops that are not structural carry fuel, and the fuel is proved enough where
    it is used: the numbering loop of duplicate names gets one more than the names
    taken (it meets a free name within that many tries); the percent and UTF-8
    decoders get the length of their input (each round consumes a unit); the
    regular-expression matcher and the markdown parsers get the length of their
    text, proved enough ([rmatch_complete], [parseMarkdown_total]); the
    rename planner's collision rounds get the number of items (each round
    refuses at least one); paged listings, folder walks and the pairing poll run
    over the pages and rounds the environment provides and report running out
    as such; the wake poll ends with any fuel above [timeout / interval + 1]
    ([wakeThenOpen_ends]).  JSON numbers, sizes
    and times are integers ([Z]): the program's own counts stay far below [2^53];
    32-bit arithmetic is written out where the code uses it.

    ** Not modelled

    React rendering, hooks without decisions of their own, design tokens and
    translations (a localised text is its key); the screens of the phone that only
    read a store and lay it out, and the parts of the modelled ones that each
    component's note leaves out; the pages of the desktop window ([ui.js],
    [pages.js], [features.js], [fpages.js], [fx2.js] to [fx6.js]), which build the
    DOM from the state of [engine.js] (but for the dialogs of [fx2.js] that show a
    fingerprint, in [DeskServers]), and its development simulator; floating-point
    labels (progress, percentages, speeds); the native modules in Kotlin and Java, the agent in Go
    and the desktop shell in Rust, which are other languages and appear here as
    the peer or the platform behind a parameter.
*)

From Stdlib Require Import ZArith Lia Bool Permutation Sorted RelationClasses.
From Stdlib Require List.
From stdpp Require Export base tactics list numbers strings sets.

#[global] Open Scope Z_scope.

(** ** Tactics *)

(** Split every conjunction in the context. *)
Ltac split_hyps := repeat match goal with H : _ /\ _ |- _ => destruct H end.

(** Introduce the witness of every existential hypothesis. *)
Ltac open_ex :=
  repeat match goal with
         | H : exists x, _ |- _ => let x' := fresh x in destruct H as [x' H]
         end.

(** Turn boolean tests of the code into the propositions they decide. *)
Ltac breflect :=
  repeat match goal with
         | H : _ && _ = true |- _ => apply andb_true_iff in H; destruct H
         | H : _ || _ = false |- _ => apply orb_false_iff in H; destruct H
         | H : negb _ = true |- _ => apply negb_true_iff in H
         | H : negb _ = false |- _ => apply negb_false_iff in H
         | H : bool_decide _ = true |- _ => apply bool_decide_eq_true in H
         | H : bool_decide _ = false |- _ => apply bool_decide_eq_false in H
         | H : Z.eqb _ _ = true |- _ => apply Z.eqb_eq in H
         | H : Z.eqb _ _ = false |- _ => apply Z.eqb_neq in H
         | H : Z.leb _ _ = true |- _ => apply Z.leb_le in H
         | H : Z.leb _ _ = false |- _ => apply Z.leb_gt in H
         | H : Z.ltb _ _ = true |- _ => apply Z.ltb_lt in H
         | H : Z.ltb _ _ = false |- _ => apply Z.ltb_ge in H
         | H : Nat.eqb _ _ = true |- _ => apply Nat.eqb_eq in H
         | H : Nat.eqb _ _ = false |- _ => apply Nat.eqb_neq in H
         | H : Nat.leb _ _ = true |- _ => apply Nat.leb_le in H
         | H : Nat.leb _ _ = false |- _ => apply Nat.leb_gt in H
         | H : Nat.ltb _ _ = true |- _ => apply Nat.ltb_lt in H
         | H : Nat.ltb _ _ = false |- _ => apply Nat.ltb_ge in H
         end.

(** Case analysis on the scrutinee of a conditional or match in the goal. *)
Ltac case_goal :=
  match goal with
  | |- context [match ?x with _ => _ end] =>
      lazymatch x with context [match _ with _ => _ end] => fail | _ => destruct x eqn:? end
  end.

(** ** Results of fallible code *)

Inductive result (E A : Type) : Type :=
| Ok (a : A)
| Err (e : E).
Arguments Ok {E A} a.
Arguments Err {E A} e.

Definition is_ok {E A} (r : result E A) : bool :=
  match r with Ok _ => true | Err _ => false end.

(** ** Stateful, fallible code: state passing with an error value *)

(** [M S E A] is code that may read and write a state of type [S] and either
    returns a value or throws; a throw keeps the effects performed before it,
    as a JavaScript exception does. *)
Definition M (S E A : Type) : Type := S -> S * result E A.

Section Monad.
Context {S E : Type}.

Definition ret {A} (a : A) : M S E A := fun s => (s, Ok a).
Definition throw {A} (e : E) : M S E A := fun s => (s, Err e).
Definition bind {A B} (m : M S E A) (f : A -> M S E B) : M S E B :=
  fun s => let (s', r) := m s in
           match r with Ok a => f a s' | Err e => (s', Err e) end.
Definition catch {A} (m : M S E A) (h : E -> M S E A) : M S E A :=
  fun s => let (s', r) := m s in
           match r with Ok a => (s', Ok a) | Err e => h e s' end.
Definition get_state : M S E S := fun s => (s, Ok s).
Definition put_state (s : S) : M S E unit := fun _ => (s, Ok tt).
Definition modify (f : S -> S) : M S E unit := fun s => (f s, Ok tt).
Definition lift {A} (r : result E A) : M S E A := fun s => (s, r).

(** [try m catch {}]: the failure is swallowed, the effects stay. *)
Definition attempt {A} (m : M S E A) (d : A) : M S E A := catch m (fun _ => ret d).

(** [for (const x of l) await f(x)]. *)
Fixpoint for_each {A} (l : list A) (f : A -> M S E unit) : M S E unit :=
  match l with
  | [] => ret tt
  | x :: r => bind (f x) (fun _ => for_each r f)
  end.

Lemma bind_ok {A B} (m : M S E A) (f : A -> M S E B) s s' a :
  m s = (s', Ok a) -> bind m f s = f a s'.
Proof. unfold bind. by intros ->. Qed.
Lemma bind_err {A B} (m : M S E A) (f : A -> M S E B) s s' e :
  m s = (s', Err e) -> bind m f s = (s', Err e).
Proof. unfold bind. by intros ->. Qed.
Lemma bind_assoc {A B C} (m : M S E A) (f : A -> M S E B) (g : B -> M S E C) s :
  bind (bind m f) g s = bind m (fun a => bind (f a) g) s.
Proof. unfold bind. by destruct (m s) as [s1 [a|e]]. Qed.
Lemma bind_inv {A B} (m : M S E A) (f : A -> M S E B) s s2 b :
  bind m f s = (s2, Ok b) -> exists s1 a, m s = (s1, Ok a) /\ f a s1 = (s2, Ok b).
Proof. unfold bind. destruct (m s) as [s1 [a|e]]; naive_solver. Qed.
End Monad.

(** *** Code that keeps a record

    [logs log m s P]: from [s], [m] adds acts to the record [log], and [P] holds of the acts added
    and of what [m] gives. *)
Section Logged.
Context {S E Act : Type} (log : S -> list Act).
Definition logs {A} (m : M S E A) (s : S) (P : list Act -> result E A -> Prop) : Prop :=
  exists acts, log (m s).1 = log s ++ acts /\ P acts (m s).2.
Lemma logs_ret {A} (a : A) s (P : list Act -> result E A -> Prop) : P [] (Ok a) -> logs (ret a) s P.
Proof. intros H. exists []. by rewrite app_nil_r. Qed.
Lemma logs_modify f s (P : list Act -> result E unit -> Prop) : log (f s) = log s -> P [] (Ok tt) -> logs (modify f) s P.
Proof. intros Hf H. exists []. cbn. by rewrite app_nil_r. Qed.
Lemma logs_bind {A B} (m : M S E A) (k : A -> M S E B) s (P : list Act -> result E B -> Prop) :
  logs m s (fun acts r => match r with Ok a => logs (k a) (m s).1 (fun acts' r' => P (acts ++ acts') r') | Err e => P acts (Err e) end) -> logs (bind m k) s P.
Proof.
  intros (acts & Ea & H). unfold logs, bind in *. destruct (m s) as [s1 [a|e]]; cbn in *; [|by exists acts].
  destruct H as (acts' & E' & H'). exists (acts ++ acts'). split; [|done]. by rewrite E', Ea, (assoc_L (++)).
Qed.
Lemma logs_catch {A} (m : M S E A) (h : E -> M S E A) s (P : list Act -> result E A -> Prop) :
  logs m s (fun acts r => match r with Ok a => P acts (Ok a) | Err e => logs (h e) (m s).1 (fun acts' r' => P (acts ++ acts') r') end) -> logs (catch m h) s P.
Proof.
  intros (acts & Ea & H). unfold logs, catch in *. destruct (m s) as [s1 [a|e]]; cbn in *; [by exists acts|].
  destruct H as (acts' & E' & H'). exists (acts ++ acts'). split; [|done]. by rewrite E', Ea, (assoc_L (++)).
Qed.
Lemma logs_weaken {A} (m : M S E A) s (P Q : list Act -> result E A -> Prop) : logs m s P -> (forall acts r, P acts r -> Q acts r) -> logs m s Q.
Proof. intros (acts & Ea & H) HQ. exists acts. eauto. Qed.
End Logged.

Declare Scope js_scope.
Delimit Scope js_scope with js.
Notation "x <- m ;; k" := (bind m (fun x => k))
  (at level 100, m at next level, right associativity) : js_scope.
Notation "m ;; k" := (bind m (fun _ => k))
  (at level 100, right associativity) : js_scope.
