(* ===== verification/JsCollections.v ===== *)
(** * Ordered collections of the JavaScript runtime

    A JavaScript [Set] or [Map] iterates in insertion order, and the sources
    spread such collections into request bodies, so both are modelled as
    duplicate-free lists; [Array.prototype.sort] is the stable sort that
    ECMAScript 2019 requires. *)

From Stdlib Require Import ZArith Lia Bool Permutation Sorted.
From Stdlib Require List.
From S2P Require Import Prelude.

Create HintDb jscoll.

(** ** [Set] *)

Section JsSet.
Context {A : Type} `{!EqDecision A}.

Definition set_has (x : A) (s : list A) : bool := bool_decide (x ∈ s).
Definition set_add (x : A) (s : list A) : list A :=
  if decide (x ∈ s) then s else s ++ [x].
Definition set_delete (x : A) (s : list A) : list A :=
  List.filter (fun y => negb (bool_decide (y = x))) s.
(** [new Set(l)]. *)
Definition set_of (l : list A) : list A := fold_left (fun s x => set_add x s) l [].

Lemma set_has_spec x s : set_has x s = true <-> x ∈ s.
Proof. apply bool_decide_eq_true. Qed.
Lemma set_has_false x s : set_has x s = false <-> x ∉ s.
Proof. apply bool_decide_eq_false. Qed.

Lemma elem_set_add x y s : x ∈ set_add y s <-> x = y \/ x ∈ s.
Proof. unfold set_add. case_decide; set_solver. Qed.

Lemma elem_snoc (x y : A) l : x ∈ l ++ [y] <-> x ∈ l \/ x = y.
Proof. rewrite elem_of_app, list_elem_of_singleton. done. Qed.
Lemma elem_filter_bool (f : A -> bool) x s : x ∈ List.filter f s <-> x ∈ s /\ f x = true.
Proof. rewrite !list_elem_of_In. apply List.filter_In. Qed.

Lemma elem_set_delete x y s : x ∈ set_delete y s <-> x <> y /\ x ∈ s.
Proof.
  unfold set_delete. rewrite elem_filter_bool, negb_true_iff, bool_decide_eq_false.
  tauto.
Qed.

Lemma NoDup_set_add x s : NoDup s -> NoDup (set_add x s).
Proof.
  intros H. unfold set_add. case_decide; [done|].
  apply NoDup_app; repeat split; try done; [set_solver|].
  apply NoDup_cons; split; [set_solver | apply NoDup_nil_2].
Qed.

Lemma NoDup_filter_bool (f : A -> bool) s : NoDup s -> NoDup (List.filter f s).
Proof. rewrite !NoDup_ListNoDup. apply List.NoDup_filter. Qed.

Lemma NoDup_set_delete x s : NoDup s -> NoDup (set_delete x s).
Proof. apply NoDup_filter_bool. Qed.

Lemma set_of_acc l acc x :
  x ∈ fold_left (fun s y => set_add y s) l acc <-> x ∈ acc \/ x ∈ l.
Proof.
  revert acc; induction l as [|y l IH]; intros acc; simpl; [set_solver|].
  rewrite IH, elem_set_add. set_solver.
Qed.
Lemma elem_set_of x l : x ∈ set_of l <-> x ∈ l.
Proof. unfold set_of. rewrite set_of_acc. set_solver. Qed.

Lemma NoDup_set_of_acc l acc : NoDup acc -> NoDup (fold_left (fun s y => set_add y s) l acc).
Proof. revert acc; induction l; simpl; auto using NoDup_set_add. Qed.
Lemma NoDup_set_of l : NoDup (set_of l).
Proof. apply NoDup_set_of_acc, NoDup_nil_2. Qed.

Lemma set_of_acc_id l acc :
  NoDup (acc ++ l) -> fold_left (fun s y => set_add y s) l acc = acc ++ l.
Proof.
  revert acc; induction l as [|x l IH]; intros acc H; simpl; [by rewrite app_nil_r|].
  assert (x ∉ acc) by (apply NoDup_app in H as (_ & H & _); set_solver).
  unfold set_add at 2. rewrite decide_False by done.
  rewrite IH; by rewrite <- app_assoc.
Qed.
(** A duplicate-free array survives [[...new Set(l)]] unchanged. *)
Lemma set_of_NoDup l : NoDup l -> set_of l = l.
Proof. intros. by apply (set_of_acc_id l []). Qed.
End JsSet.

#[export] Hint Resolve NoDup_set_add NoDup_set_delete NoDup_set_of : jscoll.

(** ** [Map] *)

Section JsMap.
Context {K V : Type} `{!EqDecision K}.
Implicit Types (m : list (K * V)) (k : K) (v : V).

Fixpoint map_get k m : option V :=
  match m with
  | [] => None
  | (k', v) :: r => if decide (k' = k) then Some v else map_get k r
  end.
(** An existing key keeps its position, a new key goes to the end. *)
Fixpoint map_set k v m : list (K * V) :=
  match m with
  | [] => [(k, v)]
  | (k', v') :: r => if decide (k' = k) then (k, v) :: r else (k', v') :: map_set k v r
  end.
Definition map_delete k m : list (K * V) :=
  List.filter (fun p => negb (bool_decide (p.1 = k))) m.
Definition map_has k m : bool :=
  match map_get k m with Some _ => true | None => false end.
Definition keys m : list K := m.*1.

Lemma map_get_set k v m k' :
  map_get k' (map_set k v m) = if decide (k = k') then Some v else map_get k' m.
Proof.
  induction m as [|[k0 v0] m IH]; simpl; [done|].
  repeat (case_decide; simpl); simplify_eq; try done; congruence.
Qed.
Lemma map_get_set_eq k v m : map_get k (map_set k v m) = Some v.
Proof. rewrite map_get_set. by rewrite decide_True. Qed.
Lemma map_get_set_ne k k' v m : k <> k' -> map_get k' (map_set k v m) = map_get k' m.
Proof. intros. rewrite map_get_set. by rewrite decide_False. Qed.

Lemma map_get_delete k m k' :
  map_get k' (map_delete k m) = if decide (k = k') then None else map_get k' m.
Proof.
  induction m as [|[k0 v0] m IH]; simpl; [by case_decide|].
  case_bool_decide; simpl; repeat case_decide; simplify_eq; try done; congruence.
Qed.

Lemma map_get_Some_elem k v m : map_get k m = Some v -> (k, v) ∈ m.
Proof.
  induction m as [|[k' v'] m IH]; simpl; [done|]. case_decide; simplify_eq; [set_solver|].
  intros; right; auto.
Qed.
Lemma map_get_None k m : map_get k m = None <-> k ∉ keys m.
Proof.
  induction m as [|[k' v'] m IH]; simpl; [set_solver|].
  case_decide; simplify_eq; [|rewrite IH]; set_solver.
Qed.
Lemma elem_map_get k v m : NoDup (keys m) -> (k, v) ∈ m -> map_get k m = Some v.
Proof.
  induction m as [|[k' v'] m IH]; simpl; [set_solver|].
  intros [Hn Hd]%NoDup_cons Hin. apply elem_of_cons in Hin as [Heq|Hin].
  - simplify_eq. by rewrite decide_True.
  - rewrite decide_False; [auto|]. intros ->. apply Hn.
    apply (list_elem_of_fmap_2' fst _ (k, v)); done.
Qed.

Lemma elem_keys_set k v m k' : k' ∈ keys (map_set k v m) <-> k' = k \/ k' ∈ keys m.
Proof.
  induction m as [|[k0 v0] m IH]; simpl; [set_solver|].
  case_decide; simplify_eq; simpl; [set_solver|]. rewrite !elem_of_cons, IH. tauto.
Qed.
Lemma NoDup_keys_set k v m : NoDup (keys m) -> NoDup (keys (map_set k v m)).
Proof.
  induction m as [|[k0 v0] m IH]; simpl; intros H.
  - apply NoDup_singleton.
  - apply NoDup_cons in H as [Hn Hd]. case_decide; simplify_eq; simpl.
    + by apply NoDup_cons.
    + apply NoDup_cons; split; [|auto]. rewrite elem_keys_set. naive_solver.
Qed.
Lemma elem_keys_delete k m k' : k' ∈ keys (map_delete k m) <-> k' <> k /\ k' ∈ keys m.
Proof.
  induction m as [|[k0 v0] m IH]; simpl; [set_solver|].
  case_bool_decide; simplify_eq; simpl; rewrite ?elem_of_cons, IH; naive_solver.
Qed.
Lemma NoDup_keys_delete k m : NoDup (keys m) -> NoDup (keys (map_delete k m)).
Proof.
  induction m as [|[k0 v0] m IH]; simpl; [done|].
  intros [Hn Hd]%NoDup_cons. case_bool_decide; simpl; [auto|].
  apply NoDup_cons; split; [|auto]. rewrite elem_keys_delete. tauto.
Qed.
End JsMap.

#[export] Hint Resolve NoDup_keys_set NoDup_keys_delete : jscoll.

(** ** [Array.prototype.sort] *)

Section Sort.
Context {A : Type}.
Implicit Types (cmp : A -> A -> Z) (l : list A).

Fixpoint insert_by cmp (x : A) l : list A :=
  match l with
  | [] => [x]
  | y :: r => if cmp x y <=? 0 then x :: y :: r else y :: insert_by cmp x r
  end.
Definition sort_by cmp l : list A := foldr (insert_by cmp) [] l.

(** What [sort] needs of its comparator to be meaningful. *)
Class Comparator cmp : Prop := {
  cmp_flip : forall x y, Z.sgn (cmp y x) = - Z.sgn (cmp x y);
  cmp_trans : forall x y z, cmp x y <= 0 -> cmp y z <= 0 -> cmp x z <= 0
}.

Lemma cmp_refl cmp `{!Comparator cmp} x : cmp x x = 0.
Proof. pose proof (cmp_flip x x). destruct (cmp x x); simpl in *; lia. Qed.
Lemma cmp_total cmp `{!Comparator cmp} x y : cmp x y <= 0 \/ cmp y x <= 0.
Proof. pose proof (cmp_flip x y). destruct (cmp x y), (cmp y x); simpl in *; lia. Qed.

Lemma insert_by_perm cmp x l : Permutation (insert_by cmp x l) (x :: l).
Proof.
  induction l as [|y l IH]; simpl; [done|]. case_match; [done|].
  rewrite IH. apply Permutation_swap.
Qed.
Lemma sort_by_perm cmp l : Permutation (sort_by cmp l) l.
Proof. induction l as [|x l IH]; simpl; [done|]. by rewrite insert_by_perm, IH. Qed.

Lemma insert_by_sorted cmp `{!Comparator cmp} x l :
  StronglySorted (fun a b => cmp a b <= 0) l ->
  StronglySorted (fun a b => cmp a b <= 0) (insert_by cmp x l).
Proof.
  induction 1 as [|y l Hs IH Hall]; simpl; [repeat constructor|].
  case_match eqn:E; breflect.
  - repeat constructor; auto. eapply Forall_impl; [done|].
    intros z Hz; simpl in *. eauto using cmp_trans.
  - constructor; [done|]. rewrite insert_by_perm. constructor; [|done].
    destruct (cmp_total cmp x y); lia.
Qed.
Lemma sort_by_sorted cmp `{!Comparator cmp} l :
  StronglySorted (fun a b => cmp a b <= 0) (sort_by cmp l).
Proof. induction l; simpl; [constructor | by apply insert_by_sorted]. Qed.

Lemma insert_by_filter cmp `{!Comparator cmp} x y l :
  StronglySorted (fun a b => cmp a b <= 0) l ->
  List.filter (fun z => cmp y z =? 0) (insert_by cmp x l) =
  List.filter (fun z => cmp y z =? 0) (x :: l).
Proof.
  induction 1 as [|z l Hs IH Hall]; simpl; [done|].
  case_match eqn:E; [done|]. simpl. rewrite IH. simpl.
  destruct (cmp y z =? 0) eqn:Ez, (cmp y x =? 0) eqn:Ex; try done.
  exfalso. breflect.
  pose proof (cmp_flip y z). pose proof (cmp_flip y x).
  assert (cmp x z <= 0); [|lia].
  apply cmp_trans with y; [destruct (cmp x y), (cmp y x); simpl in *; lia | lia].
Qed.
(** Stability: elements that compare equal keep their order. *)
Lemma sort_by_stable cmp `{!Comparator cmp} y l :
  List.filter (fun z => cmp y z =? 0) (sort_by cmp l) = List.filter (fun z => cmp y z =? 0) l.
Proof.
  induction l as [|x l IH]; simpl; [done|].
  rewrite insert_by_filter by (apply _ || apply sort_by_sorted, _).
  simpl. by rewrite IH.
Qed.

Lemma insert_by_le cmp x l :
  Forall (fun y => cmp x y <= 0) l -> insert_by cmp x l = x :: l.
Proof. destruct 1 as [|y l Hy]; simpl; [done|]. apply Z.leb_le in Hy. by rewrite Hy. Qed.
(** A list already in order is left alone. *)
Lemma sort_by_id cmp l : StronglySorted (fun a b => cmp a b <= 0) l -> sort_by cmp l = l.
Proof. induction 1 as [|x l Hs IH Hall]; simpl; [done|]. by rewrite IH, insert_by_le. Qed.

Lemma elem_sort_by cmp x l : x ∈ sort_by cmp l <-> x ∈ l.
Proof. by rewrite sort_by_perm. Qed.
End Sort.

(** Comparators built from others: reversing, and mapping through a key. *)

#[export] Instance Comparator_opp {A} (cmp : A -> A -> Z) :
  Comparator cmp -> Comparator (fun x y => - cmp x y).
Proof.
  intros H. split.
  - intros x y. pose proof (cmp_flip x y). rewrite !Z.sgn_opp. lia.
  - intros x y z Hx Hy. pose proof (cmp_flip x y). pose proof (cmp_flip y z).
    pose proof (cmp_flip x z).
    assert (cmp z x <= 0); [|destruct (cmp z x), (cmp x z); simpl in *; lia].
    apply cmp_trans with y; [destruct (cmp z y), (cmp y z) | destruct (cmp x y), (cmp y x)]; simpl in *; lia.
Qed.

#[export] Instance Comparator_key {A B} (f : A -> B) (cmp : B -> B -> Z) :
  Comparator cmp -> Comparator (fun x y => cmp (f x) (f y)).
Proof. intros H. split; intros; [apply cmp_flip | eauto using cmp_trans]. Qed.

#[export] Instance Comparator_sub : Comparator Z.sub.
Proof. split; intros; [destruct (x - y) eqn:?, (y - x) eqn:?; simpl; lia | lia]. Qed.

(** A comparator is determined by its sign. *)
Lemma Comparator_sgn {A} (f g : A -> A -> Z) :
  (forall x y, Z.sgn (f x y) = Z.sgn (g x y)) -> Comparator g -> Comparator f.
Proof.
  intros E H. split.
  - intros x y. rewrite !E. apply cmp_flip.
  - intros x y z Hx Hy. pose proof (E x y). pose proof (E y z). pose proof (E x z).
    assert (g x z <= 0); [|destruct (f x z), (g x z); simpl in *; lia].
    apply cmp_trans with y; [destruct (f x y), (g x y) | destruct (f y z), (g y z)]; simpl in *; lia.
Qed.

(** First by [f], ties by [g]. *)
Definition cmp_then {A} (f g : A -> A -> Z) (x y : A) : Z := if f x y =? 0 then g x y else f x y.

Lemma cmp_zero_trans {A} (f : A -> A -> Z) `{!Comparator f} x y z :
  f x y = 0 -> f y z = 0 -> f x z = 0.
Proof.
  intros H1 H2. pose proof (cmp_flip x y). pose proof (cmp_flip y z). pose proof (cmp_flip x z).
  assert (f x z <= 0) by (apply cmp_trans with y; lia).
  assert (f z x <= 0) by (apply cmp_trans with y; [destruct (f z y), (f y z) | destruct (f x y), (f y x)]; simpl in *; lia).
  destruct (f x z), (f z x); simpl in *; lia.
Qed.

Section Then.
Context {A : Type} (f g : A -> A -> Z) `{!Comparator f}.

Lemma cmp_lt_of_le_lt x y z : f x y <= 0 -> f y z < 0 -> f x z < 0.
Proof.
  intros H1 H2. pose proof (cmp_flip y z). pose proof (cmp_flip x z).
  assert (f x z <= 0) by (apply cmp_trans with y; lia).
  destruct (decide (f x z = 0)) as [E|]; [|lia]. exfalso.
  assert (f z y <= 0); [|destruct (f z y), (f y z); simpl in *; lia].
  apply cmp_trans with x; [destruct (f x z), (f z x); simpl in *; lia | done].
Qed.
Lemma cmp_lt_of_lt_le x y z : f x y < 0 -> f y z <= 0 -> f x z < 0.
Proof.
  intros H1 H2. pose proof (cmp_flip x y). pose proof (cmp_flip x z).
  assert (f x z <= 0) by (apply cmp_trans with y; lia).
  destruct (decide (f x z = 0)) as [E|]; [|lia]. exfalso.
  assert (f y x <= 0); [|destruct (f x y), (f y x); simpl in *; lia].
  apply cmp_trans with z; [done | destruct (f x z), (f z x); simpl in *; lia].
Qed.

#[export] Instance Comparator_then `{!Comparator g} : Comparator (cmp_then f g).
Proof.
  split; unfold cmp_then.
  - intros x y. pose proof (cmp_flip (cmp := f) x y). pose proof (cmp_flip (cmp := g) x y).
    do 2 case_match; breflect; destruct (f x y), (f y x); simpl in *; lia.
  - intros x y z. destruct (f x y =? 0) eqn:E1, (f y z =? 0) eqn:E2; breflect; intros H1 H2.
    + rewrite (cmp_zero_trans f x y z) by done. simpl. by apply cmp_trans with y.
    + assert (f x z < 0) by (apply cmp_lt_of_le_lt with y; lia). case_match; breflect; lia.
    + assert (f x z < 0) by (apply cmp_lt_of_lt_le with y; lia). case_match; breflect; lia.
    + assert (f x z < 0) by (apply cmp_lt_of_lt_le with y; lia). case_match; breflect; lia.
Qed.
End Then.

(** Lexicographic order on lists, a proper prefix first. *)
Fixpoint cmp_lex {A} (f : A -> A -> Z) (x y : list A) : Z :=
  match x, y with
  | [], [] => 0
  | [], _ :: _ => -1
  | _ :: _, [] => 1
  | a :: x', b :: y' => if f a b =? 0 then cmp_lex f x' y' else f a b
  end.
#[export] Instance Comparator_lex {A} (f : A -> A -> Z) : Comparator f -> Comparator (cmp_lex f).
Proof.
  intros Hf. split.
  - intros x. induction x as [|a x IH]; intros [|b y]; simpl; try done.
    pose proof (cmp_flip a b). destruct (f a b =? 0) eqn:E1, (f b a =? 0) eqn:E2; breflect; auto.
    + destruct (f b a); simpl in *; lia.
    + destruct (f a b), (f b a); simpl in *; lia.
  - intros x. induction x as [|a x IH]; intros [|b y] [|c z]; simpl; try lia.
    destruct (f a b =? 0) eqn:E1, (f b c =? 0) eqn:E2; breflect; intros H1 H2.
    + rewrite (cmp_zero_trans f a b c) by done. simpl. eauto.
    + assert (f a c < 0) by (apply cmp_lt_of_le_lt with b; done || lia). case_match; breflect; lia.
    + assert (f a c < 0) by (apply cmp_lt_of_lt_le with b; done || lia). case_match; breflect; lia.
    + assert (f a c < 0) by (apply cmp_lt_of_lt_le with b; done || lia). case_match; breflect; lia.
Qed.
(** Removing one place of a list without repetitions. *)
Lemma elem_delete {A} k (a j : A) l : NoDup l -> l !! k = Some a -> NoDup (delete k l) /\ (j ∈ delete k l <-> j ∈ l /\ j <> a).
Proof.
  intros Hn E. pose proof (delete_Permutation l k a E) as Hp. rewrite Hp in Hn. apply NoDup_cons in Hn as [Ha Hn]. split; [done|].
  assert (Hl : j ∈ l <-> j = a \/ j ∈ delete k l) by (rewrite <- elem_of_cons; apply elem_of_Permutation_proper; exact Hp).
  rewrite Hl. split; [intros Hj; split; [by right | by intros ->] | intros [[?|?] ?]; done].
Qed.
Lemma filter_none {A} (f : A -> bool) l : Forall (fun x => f x = false) l -> List.filter f l = [].
Proof. induction 1 as [|x l Hx _ IH]; simpl; [done|]. by rewrite Hx. Qed.
Lemma filter_every {A} (P : A -> bool) (l : list A) : (forall x, x ∈ l -> P x = true) -> List.filter P l = l.
Proof. induction l as [|x l IH]; intros H; [done|]. cbn. rewrite (H x) by (by left). f_equal. apply IH. intros y Hy. apply H. by right. Qed.
Lemma omap_delete_perm {A B} (f : A -> option B) k (l : list A) x : l !! k = Some x -> Permutation (omap f l) (option_list (f x) ++ omap f (delete k l)).
Proof.
  revert k. induction l as [|u l IH]; intros [|k] H; try done; cbn in *.
  - injection H as ->. by destruct (f x).
  - destruct (f u); [rewrite (IH k H); by rewrite Permutation_middle | by apply IH].
Qed.
Lemma NoDup_fmap_filter {A B} (f : A -> B) (P : A -> bool) (l : list A) : NoDup (f <$> l) -> NoDup (f <$> List.filter P l).
Proof. intros H. eapply sublist_NoDup; [exact H|]. induction l as [|x l IH]; cbn; [done|]. apply NoDup_cons in H as [_ H]. destruct (P x); cbn; constructor; auto. Qed.
Lemma Forall_delete {A} (P : A -> Prop) k l : Forall P l -> Forall P (delete k l).
Proof. intros H. revert k. induction H as [|x l Hx H IH]; intros [|k]; cbn; [constructor.. | done |]. constructor; [done | apply IH]. Qed.
