(* ===== verification/JsString.v ===== *)
(** * JavaScript strings

    A string is its list of UTF-16 code units.  This file holds the operations
    of [String.prototype] and the regular-expression fragments the sources use,
    and the lemmas about splitting, joining and searching that the path, name
    and address components share.  Case mapping depends on the Unicode tables
    of the engine, so it is a class with the laws the sources rely on. *)

From Stdlib Require Import ZArith Lia Bool Ascii String.
From Stdlib Require List.
From S2P Require Import Prelude.

Create HintDb jsstr.

Notation jchar := Z (only parsing).
Notation jstr := (list Z).

(** A string literal of ASCII characters. *)
Definition js (s : string) : jstr :=
  (fun a => Z.of_N (N_of_ascii a)) <$> list_ascii_of_string s.

Arguments js : simpl never.

(** ** Character classes *)

Definition slash : jchar := 47.
Definition backslash : jchar := 92.
Definition dot : jchar := 46.
Definition colon : jchar := 58.
Definition space : jchar := 32.
Definition newline : jchar := 10.
Definition quote : jchar := 34.

Definition is_sep (c : jchar) : bool := (c =? slash) || (c =? backslash).
Definition is_digit (c : jchar) : bool := (48 <=? c) && (c <=? 57).
Definition is_upper (c : jchar) : bool := (65 <=? c) && (c <=? 90).
Definition is_lower (c : jchar) : bool := (97 <=? c) && (c <=? 122).
Definition is_alpha (c : jchar) : bool := is_upper c || is_lower c.
Definition is_alnum (c : jchar) : bool := is_alpha c || is_digit c.
Definition is_hex_lower (c : jchar) : bool := is_digit c || ((97 <=? c) && (c <=? 102)).
Definition is_hex (c : jchar) : bool := is_hex_lower c || ((65 <=? c) && (c <=? 70)).
(** [[\u0000-\u001f]]. *)
Definition is_control (c : jchar) : bool := (0 <=? c) && (c <=? 31).
(** White space and line terminators of ECMAScript: [\s], and what [trim] removes. *)
Definition is_space (c : jchar) : bool :=
  ((9 <=? c) && (c <=? 13)) || (c =? 32) || (c =? 160) || (c =? 5760)
  || ((8192 <=? c) && (c <=? 8202)) || (c =? 8232) || (c =? 8233)
  || (c =? 8239) || (c =? 8287) || (c =? 12288) || (c =? 65279).

(** ** Searching *)

Fixpoint index_of (c : jchar) (s : jstr) : option nat :=
  match s with
  | [] => None
  | x :: r => if x =? c then Some 0%nat else S <$> index_of c r
  end.
Fixpoint last_index_of (c : jchar) (s : jstr) : option nat :=
  match s with
  | [] => None
  | x :: r => match last_index_of c r with
              | Some i => Some (S i)
              | None => if x =? c then Some 0%nat else None
              end
  end.
Definition includes_char (c : jchar) (s : jstr) : bool := List.existsb (Z.eqb c) s.

Fixpoint starts_with (p s : jstr) : bool :=
  match p, s with
  | [], _ => true
  | x :: p', y :: s' => (x =? y) && starts_with p' s'
  | _ :: _, [] => false
  end.
Definition ends_with (p s : jstr) : bool := starts_with (reverse p) (reverse s).
(** [s.indexOf(p)] for a string [p]. *)
Fixpoint index_of_str (p s : jstr) : option nat :=
  if starts_with p s then Some 0%nat
  else match s with [] => None | _ :: r => S <$> index_of_str p r end.
Definition includes (p s : jstr) : bool :=
  match index_of_str p s with Some _ => true | None => false end.

(** ** Splitting, joining, trimming *)

(** [s.split(/[...]/)] on single characters satisfying [P]; never empty. *)
Fixpoint split_on (P : jchar -> bool) (s : jstr) : list jstr :=
  match s with
  | [] => [[]]
  | c :: r =>
      if P c then [] :: split_on P r
      else match split_on P r with [] => [[c]] | w :: ws => (c :: w) :: ws end
  end.
Fixpoint join (sep : jstr) (ws : list jstr) : jstr :=
  match ws with
  | [] => []
  | [w] => w
  | w :: ws' => w ++ sep ++ join sep ws'
  end.
(** [s.split(sep)] for a non-empty string separator; [n] bounds the pieces. *)
Fixpoint split_str_fuel (n : nat) (sep s : jstr) : list jstr :=
  match n with
  | O => [s]
  | S n' => match index_of_str sep s with
            | None => [s]
            | Some i => take i s :: split_str_fuel n' sep (drop (i + length sep) s)
            end
  end.
Definition split_str (sep s : jstr) : list jstr := split_str_fuel (length s) sep s.

Definition nonempty (s : jstr) : bool := match s with [] => false | _ => true end.
(** [.filter(Boolean)] on an array of strings. *)
Definition filter_nonempty (ws : list jstr) : list jstr := List.filter nonempty ws.

Fixpoint drop_while {A} (P : A -> bool) (s : list A) : list A :=
  match s with
  | [] => []
  | c :: r => if P c then drop_while P r else s
  end.
Fixpoint take_while {A} (P : A -> bool) (s : list A) : list A :=
  match s with
  | [] => []
  | c :: r => if P c then c :: take_while P r else []
  end.
Definition drop_while_end {A} (P : A -> bool) (s : list A) : list A :=
  reverse (drop_while P (reverse s)).
Definition trim (s : jstr) : jstr := drop_while_end is_space (drop_while is_space s).

(** [s.replaceAll(c, d)] for single characters. *)
Definition replace_char (c d : jchar) (s : jstr) : jstr :=
  (fun x => if x =? c then d else x) <$> s.
(** [s.replace(/[...]/g, '')]. *)
Definition remove_chars (P : jchar -> bool) (s : jstr) : jstr :=
  List.filter (fun c => negb (P c)) s.
(** [s.padStart(n, c)]. *)
Definition pad_start (n : nat) (c : jchar) (s : jstr) : jstr :=
  replicate (n - length s) c ++ s.
(** [s.slice(-n)] for [n > 0]. *)
Definition slice_last (n : nat) (s : jstr) : jstr := drop (length s - n) s.
(** [a < b] on strings: by code units. *)
Fixpoint str_compare (a b : jstr) : comparison :=
  match a, b with
  | [], [] => Eq
  | [], _ :: _ => Lt
  | _ :: _, [] => Gt
  | x :: a', y :: b' => match x ?= y with Eq => str_compare a' b' | r => r end
  end.
Definition str_lt (a b : jstr) : bool :=
  match str_compare a b with Lt => true | _ => false end.

(** ** Numbers as text *)

(** Digits of [n] in base [b], least significant first; [k] bounds the digits. *)
Fixpoint digits_fuel (k : nat) (b n : Z) : list Z :=
  match k with
  | O => []
  | S k' => if n <? b then [n] else n mod b :: digits_fuel k' b (n / b)
  end.
Definition digit_char (d : Z) : jchar := if d <? 10 then 48 + d else 87 + d.
(** [n.toString(b)] of a natural number. *)
Definition nat_to_string (b n : Z) : jstr :=
  digit_char <$> reverse (digits_fuel (S (Z.to_nat (Z.log2 n))) b n).
(** [String(n)]. *)
Definition string_of_Z (n : Z) : jstr :=
  if n <? 0 then 45 :: nat_to_string 10 (- n) else nat_to_string 10 n.

(** [Number.parseInt(s, 10)] of a string of digits. *)
Definition nat_of_digits (s : jstr) : Z := fold_left (fun n c => 10 * n + (c - 48)) s 0.
(** Value of one hexadecimal digit. *)
Definition hex_value (c : jchar) : Z :=
  if is_digit c then c - 48 else if is_lower c then c - 87 else c - 55.

(** ** Case mapping *)

Definition is_ascii (c : jchar) : bool := (0 <=? c) && (c <=? 127).
Definition ascii_lower (c : jchar) : jchar := if is_upper c then c + 32 else c.
Definition ascii_upper (c : jchar) : jchar := if is_lower c then c - 32 else c.

(** [toLowerCase] and [toUpperCase] of the engine; on ASCII text they are the
    letter-by-letter maps, lowering is stable, and a space ends the context a
    letter is lowered in (Unicode case-mapping rules: the only contextual rule,
    final sigma, looks through no space). *)
Class Unicode := {
  toLowerCase : jstr -> jstr;
  toUpperCase : jstr -> jstr;
  lower_ascii : forall s, Forall (fun c => is_ascii c = true) s -> toLowerCase s = ascii_lower <$> s;
  upper_ascii : forall s, Forall (fun c => is_ascii c = true) s -> toUpperCase s = ascii_upper <$> s;
  lower_idem : forall s, toLowerCase (toLowerCase s) = toLowerCase s;
  lower_app_space : forall s t, toLowerCase (s ++ space :: t) = toLowerCase s ++ toLowerCase (space :: t)
}.

(** The smallest engine: only ASCII letters have case. *)
Program Definition ascii_unicode : Unicode := {|
  toLowerCase := fmap ascii_lower;
  toUpperCase := fmap ascii_upper
|}.
Next Obligation. done. Qed.
Next Obligation. done. Qed.
Next Obligation.
  intros s. rewrite <- list_fmap_compose. apply list_fmap_ext. intros _ c _. simpl.
  unfold ascii_lower. destruct (is_upper c) eqn:E; [|by rewrite E].
  unfold is_upper in *. destruct ((65 <=? c + 32) && (c + 32 <=? 90)) eqn:F; [|done].
  breflect; lia.
Qed.
Next Obligation. intros s t. by rewrite fmap_app. Qed.

(** [Date.parse]: milliseconds since the epoch, [None] for [NaN]. *)
Class DateParse := date_parse : jstr -> option Z.

(** ** Lemmas: prefixes *)

Lemma starts_with_spec p s : starts_with p s = true <-> exists t, s = p ++ t.
Proof.
  revert s; induction p as [|x p IH]; intros s; simpl; [naive_solver|].
  destruct s as [|y s]; [naive_solver|].
  rewrite andb_true_iff, Z.eqb_eq, IH. naive_solver.
Qed.
Lemma starts_with_app p t : starts_with p (p ++ t) = true.
Proof. apply starts_with_spec. eauto. Qed.
Lemma ends_with_spec p s : ends_with p s = true <-> exists t, s = t ++ p.
Proof.
  unfold ends_with. rewrite starts_with_spec. split; intros [t Ht].
  - exists (reverse t). rewrite <- (reverse_involutive s), Ht, reverse_app.
    by rewrite reverse_involutive.
  - subst s. exists (reverse t). by rewrite reverse_app.
Qed.
Lemma ends_with_char_snoc c s d : ends_with [c] (s ++ [d]) = (c =? d).
Proof. unfold ends_with. rewrite reverse_app. simpl. by rewrite andb_true_r. Qed.

Lemma includes_char_spec c s : includes_char c s = true <-> c ∈ s.
Proof.
  unfold includes_char. rewrite List.existsb_exists, list_elem_of_In.
  setoid_rewrite Z.eqb_eq. naive_solver.
Qed.
Lemma includes_char_false c s : includes_char c s = false <-> c ∉ s.
Proof. rewrite <- includes_char_spec. by destruct (includes_char c s). Qed.

(** ** Lemmas: last occurrence *)

Lemma last_index_of_None c s : last_index_of c s = None <-> c ∉ s.
Proof.
  induction s as [|x s IH]; simpl; [set_solver|].
  destruct (last_index_of c s) eqn:E.
  - split; [done|]. intros H; exfalso. apply H. right.
    destruct (decide (c ∈ s)) as [|n0]; [done|]. apply IH in n0. done.
  - destruct (x =? c) eqn:Ex; breflect.
    + subst. split; [done|]. set_solver.
    + split; [|done]. intros _. rewrite not_elem_of_cons. naive_solver.
Qed.
Lemma last_index_of_app c a b : c ∉ b -> last_index_of c (a ++ c :: b) = Some (length a).
Proof.
  intros Hb. induction a as [|x a IH]; simpl.
  - apply last_index_of_None in Hb. rewrite Hb. by rewrite Z.eqb_refl.
  - by rewrite IH.
Qed.
Lemma last_index_of_Some c s i :
  last_index_of c s = Some i ->
  s = take i s ++ c :: drop (S i) s /\ c ∉ drop (S i) s /\ (i < length s)%nat.
Proof.
  revert i; induction s as [|x s IH]; intros i; simpl; [done|].
  destruct (last_index_of c s) as [j|] eqn:E.
  - intros [= <-]. destruct (IH j eq_refl) as (H1 & H2 & H3). simpl.
    split; [by rewrite <- H1|]. split; [done | simpl; lia].
  - destruct (x =? c) eqn:Ex; [|done]. intros [= <-]. breflect; subst. simpl.
    rewrite drop_0. apply last_index_of_None in E. split; [done|]. split; [done | simpl; lia].
Qed.

(** Decompose a string at the last occurrence of [c]. *)
Lemma last_split (c : Z) (s : list Z) : c ∈ s -> exists a b, s = a ++ c :: b /\ c ∉ b.
Proof.
  intros H. destruct (last_index_of c s) as [i|] eqn:E.
  - apply last_index_of_Some in E as (H1 & H2 & _). eauto.
  - by apply last_index_of_None in E.
Qed.

(** ** Lemmas: splitting *)

Lemma split_on_cons P s : exists w ws, split_on P s = w :: ws.
Proof. destruct s as [|c s]; simpl; [eauto|]. destruct (P c); [eauto|]. destruct (split_on P s); eauto. Qed.

Lemma split_on_app P a c b :
  P c = true -> split_on P (a ++ c :: b) = split_on P a ++ split_on P b.
Proof.
  intros Hc. induction a as [|x a IH]; simpl; [by rewrite Hc|].
  destruct (P x); [by rewrite IH|]. rewrite IH.
  destruct (split_on_cons P a) as (w & ws & ->). done.
Qed.
Lemma split_on_none P s : Forall (fun c => P c = false) s -> split_on P s = [s].
Proof. induction 1 as [|c s Hc _ IH]; simpl; [done|]. by rewrite Hc, IH. Qed.
Lemma split_on_pieces P s : Forall (Forall (fun c => P c = false)) (split_on P s).
Proof.
  induction s as [|c s IH]; simpl; [repeat constructor|].
  destruct (P c) eqn:E; [by repeat constructor|].
  destruct (split_on P s); inversion IH; subst; repeat constructor; auto.
Qed.
Lemma split_on_elem P s w c : w ∈ split_on P s -> c ∈ w -> c ∈ s.
Proof.
  revert w; induction s as [|x s IH]; intros w; simpl.
  { intros ->%list_elem_of_singleton. by intros ?%not_elem_of_nil. }
  destruct (P x).
  - intros [->|Hw]%elem_of_cons; [by intros ?%not_elem_of_nil|]. right; eauto.
  - destruct (split_on P s) as [|w' ws] eqn:E.
    + intros ->%list_elem_of_singleton. rewrite list_elem_of_singleton. intros ->. left.
    + intros [->|Hw]%elem_of_cons Hc; [|right; apply (IH w); [by right | done]].
      apply elem_of_cons in Hc as [->|Hc]; [left|]. right. apply (IH w'); [left | done].
Qed.
Lemma join_split_on c s : join [c] (split_on (Z.eqb c) s) = s.
Proof.
  induction s as [|x s IH]; simpl; [done|].
  destruct (split_on_cons (Z.eqb c) s) as (w & ws & E). rewrite E in *.
  destruct (c =? x) eqn:Ex.
  - apply Z.eqb_eq in Ex as ->. change (x :: join [x] (w :: ws) = x :: s). by rewrite IH.
  - destruct ws; simpl in *; by rewrite <- IH.
Qed.
Lemma filter_nonempty_app a b : filter_nonempty (a ++ b) = filter_nonempty a ++ filter_nonempty b.
Proof. apply List.filter_app. Qed.
Lemma filter_nonempty_spec w ws : w ∈ filter_nonempty ws <-> w ∈ ws /\ w <> [].
Proof.
  unfold filter_nonempty. rewrite !list_elem_of_In, List.filter_In.
  destruct w; simpl; naive_solver.
Qed.

Lemma existsb_false_forall {A} (f : A -> bool) l :
  List.existsb f l = false <-> Forall (fun x => f x = false) l.
Proof.
  induction l as [|x l IH]; simpl; [by split|].
  rewrite orb_false_iff, IH. split; [intros []; by constructor | by inversion 1].
Qed.
Lemma forallb_forall_true {A} (f : A -> bool) l :
  List.forallb f l = true <-> Forall (fun x => f x = true) l.
Proof.
  induction l as [|x l IH]; simpl; [by split|].
  rewrite andb_true_iff, IH. split; [intros []; by constructor | by inversion 1].
Qed.

(** ** Lemmas: numerals *)

Lemma digits_fuel_bounds k b n : 2 <= b -> 0 <= n ->
  Forall (fun d => 0 <= d < b) (digits_fuel k b n).
Proof.
  intros Hb. revert n; induction k as [|k IH]; intros n Hn; simpl; [constructor|].
  case_match; breflect; [repeat constructor; lia|].
  constructor; [apply Z.mod_pos_bound; lia | apply IH, Z.div_pos; lia].
Qed.
Lemma digits_fuel_value k b n : 2 <= b -> 0 <= n < b ^ Z.of_nat k ->
  foldr (fun d acc => d + b * acc) 0 (digits_fuel k b n) = n.
Proof.
  intros Hb. revert n; induction k as [|k IH]; intros n Hn; simpl; [simpl in Hn; lia|].
  case_match; breflect; simpl; [lia|].
  rewrite IH; [pose proof (Z.div_mod n b); lia|].
  split; [apply Z.div_pos; lia|].
  apply Z.div_lt_upper_bound; [lia|].
  rewrite Nat2Z.inj_succ, Z.pow_succ_r in Hn; lia.
Qed.
Lemma log2_bound b n : 2 <= b -> 0 <= n -> n < b ^ Z.of_nat (S (Z.to_nat (Z.log2 n))).
Proof.
  intros Hb Hn. rewrite Nat2Z.inj_succ, Z2Nat.id by apply Z.log2_nonneg.
  apply Z.lt_le_trans with (2 ^ Z.succ (Z.log2 n)).
  - destruct (decide (n = 0)) as [->|]; [simpl; lia|]. apply Z.log2_spec; lia.
  - apply Z.pow_le_mono_l. lia.
Qed.

Lemma fold_left_horner b ds :
  fold_left (fun n d => b * n + d) (reverse ds) 0 = foldr (fun d acc => d + b * acc) 0 ds.
Proof.
  induction ds as [|d ds IH]; simpl; [done|].
  rewrite reverse_cons, List.fold_left_app. simpl. rewrite IH. lia.
Qed.
Lemma nat_of_digits_string n : 0 <= n -> nat_of_digits (nat_to_string 10 n) = n.
Proof.
  intros Hn. unfold nat_of_digits, nat_to_string.
  pose proof (digits_fuel_bounds (S (Z.to_nat (Z.log2 n))) 10 n ltac:(lia) Hn) as Hb.
  pose proof (digits_fuel_value _ 10 n ltac:(lia) (conj Hn (log2_bound 10 n ltac:(lia) Hn))) as Hv.
  revert Hb Hv. generalize (digits_fuel (S (Z.to_nat (Z.log2 n))) 10 n). intros ds Hb Hv.
  rewrite <- Hv. rewrite <- (fold_left_horner 10 ds). clear Hv.
  apply Forall_reverse in Hb. revert Hb. generalize (reverse ds). clear ds.
  assert (forall ds a, Forall (fun d => 0 <= d < 10) ds ->
    fold_left (fun n c => 10 * n + (c - 48)) (digit_char <$> ds) a = fold_left (fun n d => 10 * n + d) ds a) as H.
  { intros ds. induction ds as [|d ds IH]; intros a Hb; simpl; [done|].
    inversion Hb; subst. rewrite IH by done. f_equal. unfold digit_char. case_match; breflect; lia. }
  auto.
Qed.
Lemma string_of_Z_inj n m : 0 <= n -> 0 <= m -> string_of_Z n = string_of_Z m -> n = m.
Proof.
  intros Hn Hm. unfold string_of_Z. rewrite !(proj2 (Z.ltb_ge _ _)) by done.
  intros E. rewrite <- (nat_of_digits_string n), <- (nat_of_digits_string m) by done. by rewrite E.
Qed.
Lemma string_of_Z_digits n : 0 <= n -> Forall (fun c => is_digit c = true) (string_of_Z n).
Proof.
  intros Hn. unfold string_of_Z. rewrite (proj2 (Z.ltb_ge _ _)) by done. unfold nat_to_string.
  rewrite Forall_fmap. apply Forall_reverse.
  eapply Forall_impl; [apply (digits_fuel_bounds _ 10 n); lia|].
  intros d Hd. simpl in *. unfold is_digit, digit_char. case_match; breflect; lia.
Qed.
Lemma string_of_Z_nonempty n : string_of_Z n <> [].
Proof.
  unfold string_of_Z, nat_to_string. case_match; [done|]. simpl. case_match; [done|].
  intros E%(f_equal length). rewrite length_fmap, length_reverse in E. simpl in E. lia.
Qed.

(** ** Lemmas: order on strings *)

Lemma str_compare_refl a : str_compare a a = Eq.
Proof. induction a as [|x a IH]; simpl; [done|]. by rewrite Z.compare_refl. Qed.
Lemma str_compare_eq a b : str_compare a b = Eq <-> a = b.
Proof.
  split; [|intros ->; apply str_compare_refl].
  revert b; induction a as [|x a IH]; intros [|y b]; simpl; try done.
  destruct (x ?= y) eqn:E; try done. apply Z.compare_eq in E as ->. intros ->%IH. done.
Qed.
Lemma str_compare_antisym a b : str_compare b a = CompOpp (str_compare a b).
Proof.
  revert b; induction a as [|x a IH]; intros [|y b]; simpl; try done.
  rewrite (Z.compare_antisym x y). destruct (x ?= y); simpl; auto.
Qed.
Lemma str_compare_lt_trans a b c :
  str_compare a b = Lt -> str_compare b c = Lt -> str_compare a c = Lt.
Proof.
  revert b c; induction a as [|x a IH]; intros [|y b] [|z c]; simpl; try done.
  destruct (x ?= y) eqn:E1, (y ?= z) eqn:E2; try done;
    rewrite ?Z.compare_eq_iff, ?Z.compare_lt_iff in *; subst; intros H1 H2.
  - rewrite Z.compare_refl. eauto.
  - by rewrite (proj2 (Z.compare_lt_iff _ _) E2).
  - by rewrite (proj2 (Z.compare_lt_iff _ _) E1).
  - by rewrite (proj2 (Z.compare_lt_iff x z) ltac:(lia)).
Qed.

(** ** Lemmas: trimming *)

Lemma drop_while_suffix {A} (P : A -> bool) s : exists t, s = t ++ drop_while P s.
Proof.
  induction s as [|c s [t IH]]; simpl; [by exists []|].
  destruct (P c); [exists (c :: t); simpl; by f_equal | by exists []].
Qed.
Lemma elem_drop_while {A} (P : A -> bool) x s : x ∈ drop_while P s -> x ∈ s.
Proof. destruct (drop_while_suffix P s) as [t Ht]. intros H. rewrite Ht. set_solver. Qed.
Lemma elem_trim (c : Z) s : c ∈ trim s -> c ∈ s.
Proof.
  unfold trim, drop_while_end. rewrite elem_of_reverse. intros H%elem_drop_while.
  rewrite elem_of_reverse in H. by apply elem_drop_while in H.
Qed.
Lemma drop_while_none {A} (P : A -> bool) s : Forall (fun c => P c = false) s -> drop_while P s = s.
Proof. destruct 1 as [|c s Hc]; simpl; [done|]. by rewrite Hc. Qed.
Lemma trim_no_space s : Forall (fun c => is_space c = false) s -> trim s = s.
Proof.
  intros H. unfold trim, drop_while_end. rewrite (drop_while_none _ s) by done.
  rewrite drop_while_none; [apply reverse_involutive | by apply Forall_reverse].
Qed.
Lemma elem_remove_chars P (c : Z) s : c ∈ remove_chars P s <-> c ∈ s /\ P c = false.
Proof. unfold remove_chars. rewrite !list_elem_of_In, List.filter_In, negb_true_iff. done. Qed.

(** A separator that does not occur before it determines where a string was joined. *)
Lemma sep_inj (c : Z) a b p q : c ∉ a -> c ∉ b -> a ++ c :: p = b ++ c :: q -> a = b /\ p = q.
Proof.
  revert b. induction a as [|x a IH]; intros [|y b] Ha Hb E; simpl in E.
  - by injection E.
  - injection E as -> E2. destruct Hb. left.
  - injection E as -> E2. destruct Ha. left.
  - injection E as -> E2. destruct (IH b) as [-> ->]; [intros ?; apply Ha; by right | intros ?; apply Hb; by right | done | done].
Qed.
