(* ===== verification/Paths.v ===== *)
(** * Remote paths

    [features/explorer/paths.ts] and [nameValidation.ts]: POSIX and Windows paths
    as the app builds, joins, renames and splits them. *)

From Stdlib Require Import ZArith Lia Bool.
From Stdlib Require List.
From S2P Require Import Prelude JsCollections JsString.

(** ** Operations *)

(** The separator of the path in hand: backslash when it holds one. *)
Definition sep_of (path : jstr) : jchar :=
  if includes_char backslash path then backslash else slash.

(** Final path component. *)
Definition basenameOf (path : jstr) : jstr :=
  default [] (last (filter_nonempty (split_on is_sep path))).

(** [/^[A-Za-z]:$/]. *)
Definition is_drive_letter (p : jstr) : bool :=
  match p with [c; d] => is_alpha c && (d =? colon) | _ => false end.
(** [/^[A-Za-z]:\\?$/]. *)
Definition is_drive_root (p : jstr) : bool :=
  match p with
  | [c; d] => is_alpha c && (d =? colon)
  | [c; d; e] => is_alpha c && (d =? colon) && (e =? backslash)
  | _ => false
  end.
(** [/^[A-Za-z]:/]. *)
Definition starts_with_drive (p : jstr) : bool :=
  match p with c :: d :: _ => is_alpha c && (d =? colon) | _ => false end.

(** The stem and the extension with its dot; a leading or trailing dot is in the stem. *)
Definition split_ext (name : jstr) : jstr * jstr :=
  match last_index_of dot name with
  | Some d => if (0 <? d)%nat && (d <? length name - 1)%nat
              then (take d name, drop d name) else (name, [])
  | None => (name, [])
  end.

Definition dedup_candidate (name : jstr) (n : nat) : jstr :=
  let '(base, ext) := split_ext name in
  base ++ js " (" ++ string_of_Z (Z.of_nat n) ++ js ")" ++ ext.
(** The [do ... while (existing.has(candidate))] loop. *)
Fixpoint dedup_loop (fuel n : nat) (name : jstr) (existing : list jstr) : jstr :=
  match fuel with
  | O => dedup_candidate name n
  | S f => if set_has (dedup_candidate name n) existing
           then dedup_loop f (S n) name existing
           else dedup_candidate name n
  end.
(** [name] when free, else [base (n).ext] for the first free [n]. *)
Definition dedupedName (name : jstr) (existing : list jstr) : jstr :=
  if set_has name existing then dedup_loop (length existing) 1 name existing else name.

(** Display name for a folder path. *)
Definition folderLabel (path : jstr) : jstr :=
  if bool_decide (path = [slash]) || is_drive_root path then js "Root"
  else let name := basenameOf path in if bool_decide (name = []) then path else name.

(** Breadcrumb label; [None] where the code would index past the stack and throw. *)
Definition crumbLabel (stack : list jstr) (index : nat) : option jstr :=
  match index with
  | O => Some (match stack with
               | s :: _ => if nonempty s then folderLabel s else [slash]
               | [] => [slash]
               end)
  | S _ => (fun s => default [] (last (split_on is_sep s))) <$> stack !! index
  end.

Definition renameDestination (oldPath newName : jstr) : jstr :=
  let sep := sep_of oldPath in
  let parent := match last_index_of sep oldPath with
                | None | Some O => [sep]
                | Some idx => take idx oldPath
                end in
  if bool_decide (parent = [sep]) then sep :: newName else parent ++ sep :: newName.

(** Parent directory; the root's parent is the root. *)
Definition parentDirOf (path : jstr) : jstr :=
  let sep := sep_of path in
  match last_index_of sep path with
  | None | Some O => [sep]
  | Some idx => let parent := take idx path in
                if is_drive_letter parent then parent ++ [sep] else parent
  end.

Definition joinRemotePath (dir name : jstr) : jstr :=
  let sep := sep_of dir in
  if bool_decide (dir = []) || bool_decide (dir = [sep]) then sep :: name
  else if ends_with [sep] dir then dir ++ name else dir ++ sep :: name.

(** [cur = cur + sep + p; stack.push(cur)] over the components. *)
Fixpoint push_parts (sep : jchar) (cur : jstr) (parts : list jstr) : list jstr :=
  match parts with
  | [] => []
  | p :: r => let cur' := cur ++ sep :: p in cur' :: push_parts sep cur' r
  end.

Definition posix_parts (path : jstr) : list jstr :=
  filter_nonempty (split_on (Z.eqb slash) path).
Definition windows_parts (path : jstr) : list jstr :=
  filter_nonempty (split_on (Z.eqb backslash) (replace_char slash backslash path)).

Definition buildPathStack (path : jstr) : list jstr :=
  if starts_with_drive path then
    match windows_parts path with
    | [] => [js "undefined\"]   (* unreachable: the drive is a component *)
    | d :: ps => (d ++ [backslash]) :: push_parts backslash d ps
    end
  else [slash] :: push_parts slash [] (posix_parts path).

Fixpoint find_index {A} (f : A -> bool) (l : list A) : option nat :=
  match l with
  | [] => None
  | x :: r => if f x then Some 0%nat else S <$> find_index f r
  end.

Section WithUnicode.
Context `{U : Unicode}.

(** Whether crumb [c] is the root: ignoring case on Windows. *)
Definition same_crumb (root c : jstr) : bool :=
  if includes_char backslash root
  then bool_decide (toLowerCase c = toLowerCase root)
  else bool_decide (c = root).

(** Deep-link stack that starts at [rootPath]. *)
Definition buildPathStackWithinRoot (rootPath path : jstr) : list jstr :=
  let pathStack := buildPathStack path in
  let root := default [] (last (buildPathStack rootPath)) in
  match find_index (same_crumb root) pathStack with
  | None => [rootPath]
  | Some idx => rootPath :: drop (S idx) pathStack
  end.
End WithUnicode.

(** Why [name] cannot be the new name of an item, or [None] when it can. *)
Definition invalidNameReason (name : jstr) : option jstr :=
  if bool_decide (trim name = []) then Some (js "A name cannot be empty")
  else if bool_decide (name = js ".") || bool_decide (name = js "..")
  then Some ([quote] ++ name ++ [quote] ++ js " is not a usable name")
  else if List.existsb is_sep name
  then Some (js "A name can't contain / or \ (that would move the item)")
  else if List.existsb is_control name
  then Some (js "A name can't contain control characters")
  else None.

(** ** Names and paths *)

(** A name with no separator: what [invalidNameReason] lets through. *)
Definition plain_name (name : jstr) : Prop :=
  name <> [] /\ Forall (fun c => is_sep c = false) name.

Lemma invalidNameReason_plain name : invalidNameReason name = None -> plain_name name.
Proof.
  unfold invalidNameReason. repeat (case_match; [done|]). intros _. split.
  - intros ->. breflect. by apply H.
  - apply existsb_false_forall. done.
Qed.

Lemma plain_no_sep name c : plain_name name -> is_sep c = true -> c ∉ name.
Proof.
  intros [_ H] Hc Hin. rewrite Forall_forall in H. specialize (H c Hin). congruence.
Qed.

Lemma sep_of_cases p : sep_of p = backslash /\ backslash ∈ p \/ sep_of p = slash /\ backslash ∉ p.
Proof.
  unfold sep_of. destruct (includes_char backslash p) eqn:E.
  - left. by apply includes_char_spec in E.
  - right. by apply includes_char_false in E.
Qed.
Lemma sep_of_is_sep p : is_sep (sep_of p) = true.
Proof. by destruct (sep_of_cases p) as [[-> _]|[-> _]]. Qed.
Lemma sep_of_eq p q : (backslash ∈ p <-> backslash ∈ q) -> sep_of p = sep_of q.
Proof. destruct (sep_of_cases p) as [[-> ?]|[-> ?]], (sep_of_cases q) as [[-> ?]|[-> ?]]; tauto. Qed.
(** Appending the own separator and a plain name keeps the style of a path. *)
Lemma sep_of_extend p q name :
  plain_name name -> (backslash ∈ q -> backslash ∈ p) ->
  (backslash ∈ p -> backslash ∈ q ++ [sep_of p]) ->
  sep_of (q ++ sep_of p :: name) = sep_of p.
Proof.
  intros Hn H1 H2. apply sep_of_eq.
  pose proof (plain_no_sep name backslash Hn eq_refl).
  destruct (sep_of_cases p) as [[E ?]|[E ?]]; rewrite E in *;
    rewrite !elem_of_app, ?elem_of_cons in *; unfold slash, backslash in *; naive_solver lia.
Qed.

(** ** Basenames *)

Lemma basename_app_plain a c name :
  is_sep c = true -> plain_name name -> basenameOf (a ++ c :: name) = name.
Proof.
  intros Hc [Hne Hn]. unfold basenameOf. rewrite split_on_app by done.
  rewrite (split_on_none _ name Hn), filter_nonempty_app. simpl.
  destruct name as [|x name]; [done|]. simpl. by rewrite last_snoc.
Qed.
Lemma basename_plain name : plain_name name -> basenameOf name = name.
Proof.
  intros [Hne Hn]. unfold basenameOf. rewrite split_on_none by done.
  by destruct name.
Qed.

(** ** Joining and parents *)

Lemma parent_of_snoc q name c :
  sep_of (q ++ c :: name) = c -> c ∉ name ->
  parentDirOf (q ++ c :: name) =
    if bool_decide (q = []) then [c] else if is_drive_letter q then q ++ [c] else q.
Proof.
  intros Hs Hc. unfold parentDirOf. rewrite Hs, last_index_of_app by done.
  destruct q as [|x q]; simpl; [done|].
  by rewrite take_app_length.
Qed.

(** A folder path written the way the app writes it: the root, a drive root, or
    a path with no trailing separator that is not a bare drive letter. *)
Definition canonical_dir (d : jstr) : bool :=
  bool_decide (d = [sep_of d])
  || match d with [c; x; e] => is_alpha c && (x =? colon) && (e =? sep_of d) | _ => false end
  || (nonempty d && negb (ends_with [sep_of d] d) && negb (is_drive_letter d)).

Lemma join_cases d :
  { d = [] } + { d = [sep_of d] } + { exists d', d = d' ++ [sep_of d] /\ d' <> [] } +
  { d <> [] /\ d <> [sep_of d] /\ ends_with [sep_of d] d = false }.
Proof.
  destruct (decide (d = [])) as [->|H1]; [by left; left; left|].
  destruct (decide (d = [sep_of d])) as [H2|H2]; [by left; left; right|].
  destruct (ends_with [sep_of d] d) eqn:E; [|by right].
  left; right. apply ends_with_spec in E as [t Ht]. exists t. split; [done|].
  intros ->. apply H2. exact Ht.
Qed.

Lemma joinRemotePath_shape d name :
  exists q, joinRemotePath d name = q ++ sep_of d :: name /\
    (q = [] /\ (d = [] \/ d = [sep_of d]) \/
     q <> [] /\ d = q ++ [sep_of d] \/
     q <> [] /\ d = q /\ d <> [sep_of d] /\ ends_with [sep_of d] d = false).
Proof.
  unfold joinRemotePath.
  destruct (join_cases d) as [[[H|H]|H]|H].
  - exists []. rewrite bool_decide_eq_true_2 by done. subst; naive_solver.
  - exists []. rewrite (bool_decide_eq_true_2 _ H), orb_true_r. naive_solver.
  - destruct H as (d' & H & Hne). exists d'.
    assert (d <> []) by (rewrite H; by destruct d').
    assert (d <> [sep_of d]).
    { intros H'. rewrite H in H' at 1. destruct d'; [done|]. simplify_list_eq. by destruct d'. }
    rewrite !bool_decide_eq_false_2 by done. simpl.
    assert (ends_with [sep_of d] d = true) as -> by (apply ends_with_spec; eauto).
    split; [|naive_solver]. rewrite H at 1. by rewrite <- app_assoc.
  - destruct H as (H1 & H2 & H3). exists d. rewrite !bool_decide_eq_false_2 by done.
    rewrite H3. simpl. naive_solver.
Qed.

Lemma joinRemotePath_sep d name : plain_name name -> sep_of (joinRemotePath d name) = sep_of d.
Proof.
  intros Hn. destruct (joinRemotePath_shape d name) as (q & -> & Hq).
  apply sep_of_extend; [done|..].
  - intros Hb. destruct Hq as [(-> & _)|[(_ & ->)|(_ & -> & _)]]; set_solver.
  - intros Hb. destruct Hq as [(-> & [->|Hd])|[(_ & Hd)|(_ & <- & _)]]; [set_solver|..|set_solver];
      rewrite Hd in Hb; set_solver.
Qed.

(** Joining then taking the last component, or the parent, gives the parts back. *)
Lemma basename_join d name : plain_name name -> basenameOf (joinRemotePath d name) = name.
Proof.
  intros Hn. destruct (joinRemotePath_shape d name) as (q & -> & _).
  apply basename_app_plain; [apply sep_of_is_sep | done].
Qed.
Lemma parent_join d name :
  canonical_dir d = true -> plain_name name -> parentDirOf (joinRemotePath d name) = d.
Proof.
  intros Hd Hn. pose proof (joinRemotePath_sep d name Hn) as Hs.
  destruct (joinRemotePath_shape d name) as (q & E & Hq). rewrite E in *.
  rewrite parent_of_snoc by (done || (eapply plain_no_sep; [done | apply sep_of_is_sep])).
  unfold canonical_dir in Hd.
  destruct Hq as [(-> & [Hd'|Hd'])|[(Hne & Hd')|(Hne & Hd' & Hr & He)]].
  - subst d. done.
  - rewrite bool_decide_eq_true_2 by done. done.
  - rewrite bool_decide_eq_false_2 by done.
    rewrite !orb_true_iff, !andb_true_iff, !negb_true_iff in Hd.
    destruct Hd as [[Hd|Hd]|[[_ Hd] _]].
    + breflect. exfalso. apply (f_equal length) in Hd, Hd'.
      rewrite length_app in Hd'. destruct q; simpl in *; [done | lia].
    + destruct d as [|c [|x [|e [|]]]]; try done.
      destruct q as [|? [|? [|? q]]]; try done; simpl in Hd'; simplify_eq; [|by destruct q].
      simpl. by rewrite (proj1 (andb_prop _ _ Hd)), <- H.
    + exfalso. assert (ends_with [sep_of d] d = true) by (apply ends_with_spec; eauto). congruence.
  - subst q. rewrite bool_decide_eq_false_2 by done. rewrite He in Hd. simpl in Hd.
    destruct (is_drive_letter d) eqn:Edl; [|done]. exfalso.
    rewrite andb_false_r, orb_false_r in Hd. apply orb_true_iff in Hd as [Hd|Hd].
    + by breflect.
    + destruct d as [|? [|? [|? [|]]]]; done.
Qed.

(** ** Renaming in place *)

Lemma sep_in_or_slash p : sep_of p ∈ p \/ sep_of p = slash.
Proof. destruct (sep_of_cases p) as [[-> ?]|[-> ?]]; auto. Qed.

Lemma renameDestination_shape p name :
  exists q, renameDestination p name = q ++ sep_of p :: name /\ q <> [sep_of p] /\
    parentDirOf p = (if bool_decide (q = []) then [sep_of p]
                     else if is_drive_letter q then q ++ [sep_of p] else q) /\
    (q <> [] -> exists b, p = q ++ sep_of p :: b) /\ (q = [] -> backslash ∈ p -> sep_of p = backslash).
Proof.
  assert (backslash ∈ p -> sep_of p = backslash) as Hb.
  { destruct (sep_of_cases p) as [[-> ?]|[-> ?]]; naive_solver. }
  unfold renameDestination, parentDirOf.
  destruct (last_index_of (sep_of p) p) as [[|i]|] eqn:E.
  - exists []. rewrite bool_decide_eq_true_2 by done. naive_solver.
  - apply last_index_of_Some in E as (H1 & H2 & H3).
    case_bool_decide as Hs.
    + exists []. rewrite Hs. simpl. naive_solver.
    + exists (take (S i) p). assert (take (S i) p <> []) by (destruct p; simpl in *; [lia|done]).
      rewrite bool_decide_eq_false_2 by done. naive_solver.
  - exists []. rewrite bool_decide_eq_true_2 by done. naive_solver.
Qed.

(** A rename keeps the item in its folder and gives it exactly the new name. *)
Lemma renameDestination_sibling p name :
  plain_name name ->
  parentDirOf (renameDestination p name) = parentDirOf p /\
  basenameOf (renameDestination p name) = name.
Proof.
  intros Hn. destruct (renameDestination_shape p name) as (q & -> & Hq & Hp & Hex & Hnil).
  split; [|apply basename_app_plain; [apply sep_of_is_sep | done]].
  rewrite parent_of_snoc; [done | | eapply plain_no_sep; [done | apply sep_of_is_sep]].
  apply sep_of_extend; [done|..]; destruct (decide (q = [])) as [->|Hne].
  - set_solver.
  - destruct (Hex Hne) as [b Hb]. intros. rewrite Hb. set_solver.
  - intros. rewrite Hnil by done. set_solver.
  - intros Hin. destruct (sep_of_cases p) as [[-> ?]|[-> ?]]; set_solver.
Qed.

(** ** Free names *)

Lemma dedup_candidate_inj name n m : dedup_candidate name n = dedup_candidate name m -> n = m.
Proof.
  unfold dedup_candidate. destruct (split_ext name) as [base ext].
  intros H. do 2 apply app_inv_head in H. rewrite !app_assoc in H. do 2 apply app_inv_tail in H.
  apply string_of_Z_inj in H; lia.
Qed.

Lemma split_ext_app name : (split_ext name).1 ++ (split_ext name).2 = name.
Proof.
  unfold split_ext. repeat case_match; simpl; rewrite ?app_nil_r; try done. apply take_drop.
Qed.
Lemma dedup_candidate_ne name n : dedup_candidate name n <> name.
Proof.
  unfold dedup_candidate. rewrite <- (split_ext_app name) at 2.
  destruct (split_ext name) as [base ext]. cbn [fst snd]. intros H%(f_equal length).
  rewrite !length_app in H. change (length (js " (")) with 2%nat in H. lia.
Qed.

Lemma dedup_loop_first fuel n name existing :
  exists k, dedup_loop fuel n name existing = dedup_candidate name (n + k) /\ (k <= fuel)%nat /\
    (forall j, (j < k)%nat -> dedup_candidate name (n + j) ∈ existing) /\
    (k < fuel \/ dedup_loop fuel n name existing ∉ existing -> dedup_loop fuel n name existing ∉ existing)%nat.
Proof.
  revert n; induction fuel as [|f IH]; intros n; simpl.
  - exists 0%nat. rewrite Nat.add_0_r. split; [done|]. split; [lia|]. split; [intros; lia|].
    intros [?|?]; [lia | done].
  - case_match eqn:E.
    + destruct (IH (S n)) as (k & H1 & H2 & H3 & H4). exists (S k).
      rewrite Nat.add_succ_r. split; [done|]. split; [lia|]. split.
      * intros [|j] Hj; [rewrite Nat.add_0_r; by apply set_has_spec|].
        rewrite Nat.add_succ_r. apply H3. lia.
      * intros [?|?]; apply H4; [left; lia | by right].
    + exists 0%nat. rewrite Nat.add_0_r. apply set_has_false in E.
      split; [done|]. split; [lia|]. split; [intros; lia | done].
Qed.

(** The loop stops: among [length existing] numbered names one is free. *)
Lemma dedupedName_fresh name existing : dedupedName name existing ∉ existing.
Proof.
  unfold dedupedName. case_match eqn:E; [|by apply set_has_false in E].
  apply set_has_spec in E.
  destruct (dedup_loop_first (length existing) 1 name existing) as (k & H1 & H2 & H3 & H4).
  apply H4. left. apply Nat.le_neq. split; [done|]. intros ->.
  set (l := name :: ((fun j => dedup_candidate name (1 + j)) <$> seq 0 (length existing))).
  assert (length l <= length existing)%nat; [|subst l; simpl in *; rewrite length_fmap, length_seq in *; lia].
  apply List.NoDup_incl_length.
  - apply NoDup_ListNoDup. subst l. apply NoDup_cons. split.
    + rewrite list_elem_of_fmap. intros (j & Hj & _). by apply (dedup_candidate_ne name (1 + j)).
    + apply NoDup_fmap_2_strong; [|apply NoDup_seq].
      intros ? ? _ _ Hj%dedup_candidate_inj. lia.
  - intros x. rewrite <- !list_elem_of_In. subst l. intros [->|Hx]%elem_of_cons; [done|].
    apply list_elem_of_fmap in Hx as (j & -> & Hj). apply H3. apply elem_of_seq in Hj. lia.
Qed.
(** It is the first free name of the sequence. *)
Lemma dedupedName_first name existing :
  name ∈ existing ->
  exists k, (1 <= k)%nat /\ dedupedName name existing = dedup_candidate name k /\
    forall j, (1 <= j < k)%nat -> dedup_candidate name j ∈ existing.
Proof.
  intros Hin. unfold dedupedName. rewrite (proj2 (set_has_spec _ _) Hin).
  destruct (dedup_loop_first (length existing) 1 name existing) as (k & H1 & _ & H3 & _).
  exists (1 + k)%nat. split; [lia|]. split; [done|]. intros [|j] Hj; [lia|]. apply (H3 j). lia.
Qed.

(** ** Crumb stacks *)

(** The text of a list of components, each led by the separator. *)
Definition crumb (sep : jchar) (parts : list jstr) : jstr := mjoin (cons sep <$> parts).

Lemma crumb_snoc sep ps p : crumb sep (ps ++ [p]) = crumb sep ps ++ sep :: p.
Proof. unfold crumb. rewrite fmap_app, join_app. simpl. by rewrite app_nil_r. Qed.

Lemma push_parts_length sep cur ps : length (push_parts sep cur ps) = length ps.
Proof. revert cur; induction ps; intros; simpl; auto. Qed.
Lemma push_parts_lookup sep cur ps i :
  (i < length ps)%nat ->
  push_parts sep cur ps !! i = Some (cur ++ crumb sep (take (S i) ps)).
Proof.
  revert cur i; induction ps as [|p ps IH]; intros cur i Hi; simpl in *; [lia|].
  destruct i as [|i]; simpl.
  - unfold crumb. simpl. by rewrite app_nil_r.
  - rewrite IH by lia. unfold crumb. simpl. by rewrite <- app_assoc.
Qed.
Lemma push_parts_inv sep cur ps i c :
  push_parts sep cur ps !! i = Some c ->
  (i < length ps)%nat /\ c = cur ++ crumb sep (take (S i) ps).
Proof.
  intros H. assert (i < length ps)%nat as Hi.
  { apply lookup_lt_Some in H. by rewrite push_parts_length in H. }
  rewrite push_parts_lookup in H by done. naive_solver.
Qed.

(** [c] is below [base]: [base] followed by whole components. *)
Definition inside (base c : jstr) : Prop :=
  exists rest, c = base ++ rest /\
    ((exists b x, base = b ++ [x] /\ is_sep x = true) \/
     (exists x r, rest = x :: r /\ is_sep x = true)).

Lemma crumb_take_prefix sep ps i j :
  (i < j)%nat -> (i < length ps)%nat ->
  exists p rest, ps !! i = Some p /\ crumb sep (take j ps) = crumb sep (take i ps) ++ sep :: p ++ rest.
Proof.
  intros Hij Hi. destruct (lookup_lt_is_Some_2 ps i Hi) as [p Hp].
  exists p, (crumb sep (take (j - S i) (drop (S i) ps))). split; [done|].
  assert (take j ps = (take i ps ++ [p]) ++ take (j - S i) (drop (S i) ps)) as ->.
  { rewrite <- take_S_r by done. rewrite take_take_drop. f_equal. lia. }
  unfold crumb. rewrite !fmap_app, !join_app. simpl. rewrite app_nil_r. by rewrite <- !app_assoc.
Qed.

Lemma push_parts_inside sep cur ps i j a b :
  is_sep sep = true -> (i < j)%nat ->
  push_parts sep cur ps !! i = Some a -> push_parts sep cur ps !! j = Some b -> inside a b.
Proof.
  intros Hs Hij (Hi & ->)%push_parts_inv (Hj & ->)%push_parts_inv.
  destruct (crumb_take_prefix sep ps (S i) (S j)) as (p & rest & _ & ->); [lia..|].
  eexists. rewrite app_assoc. split; [done|]. right. eauto.
Qed.

Lemma buildPathStack_inside path i j a b :
  (i < j)%nat -> buildPathStack path !! i = Some a -> buildPathStack path !! j = Some b -> inside a b.
Proof.
  unfold buildPathStack. intros Hij.
  assert (forall sep pre cur ps, is_sep sep = true -> (pre = cur ++ [sep]) ->
    (pre :: push_parts sep cur ps) !! i = Some a -> (pre :: push_parts sep cur ps) !! j = Some b -> inside a b) as H.
  { intros sep pre cur ps Hs -> Ha Hb. destruct j as [|j]; [lia|]. destruct i as [|i]; simpl in *.
    - simplify_eq. apply push_parts_inv in Hb as (Hj & ->).
      destruct (crumb_take_prefix sep ps 0 (S j)) as (p & rest & _ & ->); [lia..|]. simpl.
      exists (p ++ rest). rewrite <- app_assoc. split; [done|]. left. eauto.
    - apply (push_parts_inside sep cur ps i j); auto; lia. }
  case_match; [case_match|].
  - destruct i, j; simpl; done || lia.
  - by apply H.
  - by apply (H slash [slash] []).
Qed.

Lemma find_index_Some {A} (f : A -> bool) l i :
  find_index f l = Some i -> exists x, l !! i = Some x /\ f x = true.
Proof.
  revert i; induction l as [|x l IH]; intros i; simpl; [done|]. destruct (f x) eqn:E.
  - intros [= <-]. eauto.
  - destruct (find_index f l) as [j|]; [|done]. intros [= <-]. simpl. eauto.
Qed.
Lemma find_index_None {A} (f : A -> bool) l :
  find_index f l = None <-> Forall (fun x => f x = false) l.
Proof.
  induction l as [|x l IH]; simpl; [by split|]. destruct (f x) eqn:E.
  - split; [done|]. inversion 1; congruence.
  - destruct (find_index f l); simpl; [split; [done|] | split; [|done]].
    + inversion 1; subst. apply IH in H3. done.
    + intros _. constructor; [done|]. by apply IH.
Qed.

Section Jail.
Context `{U : Unicode}.

(** Jail: the stack the app opens for a deep link starts at the shared root,
    and every further crumb lies below a crumb of the requested path that is
    that root (up to case on Windows); when the path has no such crumb the
    stack is the root alone, otherwise it ends where the path ends. *)
Theorem buildPathStackWithinRoot_jail rootPath path :
  let root := default [] (last (buildPathStack rootPath)) in
  let stack := buildPathStackWithinRoot rootPath path in
  exists tl, stack = rootPath :: tl /\
    (forall c, c ∈ tl -> exists base, base ∈ buildPathStack path /\ same_crumb root base = true /\ inside base c) /\
    (Forall (fun c => same_crumb root c = false) (buildPathStack path) -> tl = []) /\
    (tl <> [] -> last stack = last (buildPathStack path)).
Proof.
  simpl. unfold buildPathStackWithinRoot.
  set (root := default [] (last (buildPathStack rootPath))).
  destruct (find_index (same_crumb root) (buildPathStack path)) as [i|] eqn:E.
  - pose proof E as E'. apply find_index_Some in E as (base & Hb & Hs).
    eexists. split; [done|]. split; [|split].
    + intros c Hc. apply list_elem_of_lookup in Hc as [j Hj]. rewrite lookup_drop in Hj.
      exists base. split; [by eapply list_elem_of_lookup_2|]. split; [done|].
      eapply (buildPathStack_inside path i); [|done..]. lia.
    + intros Hf%find_index_None. congruence.
    + intros Hne. rewrite last_cons.
      assert (last (drop (S i) (buildPathStack path)) = last (buildPathStack path)) as ->.
      { rewrite <- (take_drop (S i) (buildPathStack path)) at 2. rewrite last_app.
        destruct (last (drop _ _)) eqn:El; [done|]. apply last_None in El. done. }
      destruct (last (buildPathStack path)) eqn:El; [done|]. apply last_None in El. by rewrite El in Hb.
  - exists []. split; [done|]. split; [set_solver|]. done.
Qed.
End Jail.

(** A path that names its root: POSIX with no backslash, or a drive letter
    followed by a separator or nothing. *)
Definition rooted (path : jstr) : bool :=
  if starts_with_drive path
  then match path with _ :: _ :: c :: _ => is_sep c | _ => true end
  else negb (includes_char backslash path).

Lemma posix_parts_plain path : Forall (fun p => p <> [] /\ slash ∉ p) (posix_parts path).
Proof.
  apply Forall_forall. intros p Hp. apply filter_nonempty_spec in Hp as [Hp Hne]. split; [done|].
  pose proof (split_on_pieces (Z.eqb slash) path) as H. rewrite Forall_forall in H.
  specialize (H p Hp). rewrite Forall_forall in H. intros Hin. by specialize (H _ Hin).
Qed.
Lemma elem_posix_parts path p (c : Z) : p ∈ posix_parts path -> c ∈ p -> c ∈ path.
Proof. intros [Hp _]%filter_nonempty_spec. by eapply split_on_elem. Qed.

Lemma crumb_elem sep ps (c : Z) : c ∈ crumb sep ps -> c = sep \/ exists p, p ∈ ps /\ c ∈ p.
Proof.
  induction ps as [|p ps IH]; [by intros ?%not_elem_of_nil|].
  change (crumb sep (p :: ps)) with (sep :: p ++ crumb sep ps).
  rewrite elem_of_cons, elem_of_app. intros [->|[H|H]]; [by left|..].
  - right. exists p. split; [left | done].
  - destruct (IH H) as [->|(q & ? & ?)]; [by left|]. right. exists q. split; [by right | done].
Qed.

(** Splitting the text of components gives the components back. *)
Lemma split_crumb sep ps :
  Forall (fun p => p <> [] /\ sep ∉ p) ps ->
  filter_nonempty (split_on (Z.eqb sep) (crumb sep ps)) = ps.
Proof.
  induction 1 as [|p ps [Hne Hs] Hps IH]; [done|].
  change (crumb sep (p :: ps)) with ([] ++ sep :: p ++ crumb sep ps).
  rewrite split_on_app by apply Z.eqb_refl. simpl. change (filter_nonempty ([] :: ?x)) with (filter_nonempty x).
  assert (Forall (fun c => (sep =? c) = false) p) as Hp.
  { apply Forall_forall. intros c Hc. apply Z.eqb_neq. by intros ->. }
  destruct ps as [|q ps].
  - rewrite app_nil_r, split_on_none by done. by destruct p.
  - change (crumb sep (q :: ps)) with (sep :: q ++ crumb sep ps) in *.
    rewrite split_on_app by apply Z.eqb_refl. cbn [split_on] in IH. rewrite Z.eqb_refl in IH.
    change (filter_nonempty ([] :: ?x)) with (filter_nonempty x) in IH.
    rewrite split_on_none, filter_nonempty_app by done. rewrite IH. by destruct p.
Qed.

Lemma is_alpha_not_sep c : is_alpha c = true -> c <> slash /\ c <> backslash /\ c <> colon.
Proof.
  unfold is_alpha, is_upper, is_lower, slash, backslash, colon.
  rewrite orb_true_iff, !andb_true_iff, !Z.leb_le. lia.
Qed.
Lemma starts_with_drive_cons p :
  starts_with_drive p = true -> exists c r, p = c :: colon :: r /\ is_alpha c = true.
Proof. destruct p as [|c [|d r]]; simpl; try done. intros. breflect. subst. eauto. Qed.
Lemma starts_with_drive_slash p : starts_with_drive (slash :: p) = false.
Proof. by destruct p. Qed.

Lemma elem_replace_char (c d x : Z) s : x ∈ replace_char c d s -> x <> c \/ c = d.
Proof.
  unfold replace_char. intros (y & -> & _)%list_elem_of_fmap. case_match eqn:E; breflect; [|by left].
  destruct (decide (c = d)); [by right | left; congruence].
Qed.
Lemma replace_char_id (c d : Z) s : c ∉ s -> replace_char c d s = s.
Proof.
  intros H. unfold replace_char. rewrite <- (list_fmap_id s) at 2. apply list_fmap_ext.
  intros i x Hx. case_match eqn:E; [|done]. breflect. subst. by apply list_elem_of_lookup_2 in Hx.
Qed.

Definition drive_parts_ok (ps : list jstr) : Prop :=
  Forall (fun p => p <> [] /\ backslash ∉ p /\ slash ∉ p) ps.

Lemma windows_parts_ok path : drive_parts_ok (windows_parts path).
Proof.
  apply Forall_forall. intros p Hp. apply filter_nonempty_spec in Hp as [Hp Hne].
  pose proof (split_on_pieces (Z.eqb backslash) (replace_char slash backslash path)) as H.
  rewrite Forall_forall in H. specialize (H p Hp). rewrite Forall_forall in H.
  split; [done|]. split; intros Hin; [by specialize (H _ Hin)|].
  apply (split_on_elem _ _ _ _ Hp), elem_replace_char in Hin as [?|?]; done.
Qed.

Lemma windows_parts_rooted path :
  starts_with_drive path = true -> rooted path = true ->
  exists c ps, windows_parts path = [c; colon] :: ps /\ is_alpha c = true /\ drive_parts_ok ps.
Proof.
  intros Hd Hr. pose proof (windows_parts_ok path) as Hok. unfold rooted in Hr. rewrite Hd in Hr.
  apply starts_with_drive_cons in Hd as (c & r & -> & Hc).
  destruct (is_alpha_not_sep c Hc) as (H1 & H2 & H3).
  assert (exists ps, windows_parts (c :: colon :: r) = [c; colon] :: ps) as [ps Hps].
  { unfold windows_parts. destruct r as [|x r].
    - exists []. rewrite replace_char_id, split_on_none; [done|..].
      + repeat constructor; by apply Z.eqb_neq.
      + unfold slash, colon in *. set_solver by lia.
    - exists (windows_parts r). 
      assert (replace_char slash backslash (c :: colon :: x :: r)
              = [c; colon] ++ backslash :: replace_char slash backslash r) as ->.
      { unfold replace_char. simpl. unfold is_sep in Hr. rewrite (proj2 (Z.eqb_neq c slash)) by done.
        apply orb_true_iff in Hr as [->|Hx]; [done|]. apply Z.eqb_eq in Hx as ->. done. }
      rewrite split_on_app, filter_nonempty_app by done. rewrite split_on_none; [done|].
      repeat constructor; by apply Z.eqb_neq. }
  rewrite Hps in *. exists c, ps. split; [done|]. split; [done|]. by inversion Hok.
Qed.

Lemma crumb_last sep cur ps :
  ps <> [] -> last (push_parts sep cur ps) = Some (cur ++ crumb sep ps).
Proof.
  intros Hne. rewrite last_lookup, push_parts_length.
  assert (0 < length ps)%nat by (destruct ps; simpl; [done|lia]).
  rewrite push_parts_lookup by lia. rewrite take_ge by lia. done.
Qed.

Lemma posix_chain ps i a b :
  Forall (fun p => p <> [] /\ slash ∉ p) ps -> Forall (fun p => backslash ∉ p) ps ->
  ([slash] :: push_parts slash [] ps) !! i = Some a ->
  push_parts slash [] ps !! i = Some b -> parentDirOf b = a.
Proof.
  intros Hs Hb Ha (Hi & ->)%push_parts_inv.
  destruct (lookup_lt_is_Some_2 ps i Hi) as [p Hp]. rewrite (take_S_r _ _ p), crumb_snoc by done. simpl.
  assert (backslash ∉ crumb slash (take i ps) ++ slash :: p) as Hnb.
  { rewrite <- crumb_snoc, <- take_S_r by done. intros [?|(q & Hq & ?)]%crumb_elem; [done|].
    rewrite Forall_forall in Hb. apply (Hb q); [|done]. by eapply elem_of_take in Hq as (? & ?%list_elem_of_lookup_2 & _). }
  rewrite parent_of_snoc.
  - destruct i as [|i]; simpl in *; [naive_solver|].
    apply push_parts_inv in Ha as (Hi' & ->). simpl.
    destruct ps as [|p0 ps]; [simpl in *; lia|]. unfold crumb. simpl. by destruct (p0 ++ _) as [|? [|]].
  - unfold sep_of. by rewrite (proj2 (includes_char_false _ _) Hnb).
  - rewrite Forall_forall in Hs. apply (Hs p). by eapply list_elem_of_lookup_2.
Qed.

Lemma windows_chain c ps i a b :
  is_alpha c = true -> drive_parts_ok ps ->
  ([c; colon; backslash] :: push_parts backslash [c; colon] ps) !! i = Some a ->
  push_parts backslash [c; colon] ps !! i = Some b -> parentDirOf b = a.
Proof.
  intros Hc Hok Ha (Hi & ->)%push_parts_inv.
  destruct (lookup_lt_is_Some_2 ps i Hi) as [p Hp]. rewrite (take_S_r _ _ p), crumb_snoc, app_assoc by done.
  rewrite parent_of_snoc.
  - rewrite bool_decide_eq_false_2 by done. destruct i as [|i]; simpl in *.
    + change (crumb backslash []) with (@nil Z). simpl. rewrite Hc. simpl. naive_solver.
    + apply push_parts_inv in Ha as (Hi' & ->).
      destruct ps as [|p0 ps]; [simpl in *; lia|]. done.
  - unfold sep_of. rewrite (proj2 (includes_char_spec _ _)); [done|]. set_solver.
  - unfold drive_parts_ok in Hok. rewrite Forall_forall in Hok. apply (Hok p). by eapply list_elem_of_lookup_2.
Qed.

Lemma windows_stack_last c ps :
  is_alpha c = true -> drive_parts_ok ps ->
  buildPathStack ([c; colon] ++ crumb backslash ps) =
    [c; colon; backslash] :: push_parts backslash [c; colon] ps.
Proof.
  intros Hc Hok. unfold buildPathStack. simpl. rewrite Hc. simpl.
  destruct (is_alpha_not_sep c Hc) as (H1 & H2 & H3).
  assert (windows_parts (c :: colon :: crumb backslash ps) = [c; colon] :: ps) as ->; [|done].
  unfold windows_parts. rewrite replace_char_id.
  - destruct ps as [|p ps].
    + rewrite split_on_none; [done|]. repeat constructor; by apply Z.eqb_neq.
    + change (crumb backslash (p :: ps)) with (backslash :: p ++ crumb backslash ps).
      change (c :: colon :: backslash :: p ++ crumb backslash ps)
        with ([c; colon] ++ backslash :: p ++ crumb backslash ps).
      rewrite split_on_app, filter_nonempty_app by done.
      rewrite split_on_none by (repeat constructor; by apply Z.eqb_neq). simpl. f_equal.
      pose proof (split_crumb backslash (p :: ps)) as H.
      change (crumb backslash (p :: ps)) with (backslash :: p ++ crumb backslash ps) in H.
      apply H. eapply Forall_impl; [done|]. naive_solver.
  - rewrite !not_elem_of_cons. split; [done|]. split; [done|].
    intros [?|(p & Hp & ?)]%crumb_elem; [done|].
    unfold drive_parts_ok in Hok. rewrite Forall_forall in Hok. by apply (Hok p).
Qed.
Lemma drive_root_stack c :
  is_alpha c = true -> buildPathStack [c; colon; backslash] = [[c; colon; backslash]].
Proof.
  intros Hc. destruct (is_alpha_not_sep c Hc) as (H1 & H2 & H3).
  unfold buildPathStack, windows_parts. simpl starts_with_drive. rewrite Hc. simpl andb.
  rewrite replace_char_id by (unfold slash, colon, backslash in *; set_solver by lia).
  change [c; colon; backslash] with ([c; colon] ++ backslash :: []) at 1.
  rewrite split_on_app, split_on_none; [done | | done].
  repeat constructor; by apply Z.eqb_neq.
Qed.
Lemma posix_stack_last ps :
  Forall (fun p => p <> [] /\ slash ∉ p) ps -> ps <> [] ->
  buildPathStack (crumb slash ps) = [slash] :: push_parts slash [] ps.
Proof.
  intros Hps Hne. unfold buildPathStack, posix_parts. rewrite split_crumb by done.
  destruct ps as [|p ps]; [done|].
  change (crumb slash (p :: ps)) with (slash :: p ++ crumb slash ps).
  by rewrite starts_with_drive_slash.
Qed.

(** Crumbs: on a rooted POSIX or Windows path each crumb of the stack is the
    parent folder of the next one, and opening the last crumb rebuilds the very
    same stack. *)
Theorem buildPathStack_crumbs path :
  rooted path = true ->
  (forall i a b, buildPathStack path !! i = Some a -> buildPathStack path !! S i = Some b -> parentDirOf b = a) /\
  buildPathStack (default [] (last (buildPathStack path))) = buildPathStack path.
Proof.
  intros Hr. unfold buildPathStack at 1 2 4 5. destruct (starts_with_drive path) eqn:Hd.
  - destruct (windows_parts_rooted path Hd Hr) as (c & ps & -> & Hc & Hok). simpl. split.
    + intros i a b. by apply windows_chain.
    + destruct ps as [|p ps]; [by apply drive_root_stack|].
      rewrite last_cons, crumb_last by done. by apply windows_stack_last.
  - unfold rooted in Hr. rewrite Hd in Hr. breflect. apply includes_char_false in Hr.
    pose proof (posix_parts_plain path) as Hps.
    assert (Forall (fun p => backslash ∉ p) (posix_parts path)) as Hb.
    { apply Forall_forall. intros p Hp Hin. apply Hr. by eapply elem_posix_parts. }
    split; [intros i a b; by apply posix_chain|].
    destruct (posix_parts path) as [|p ps]; [done|].
    rewrite last_cons, crumb_last by done. by apply posix_stack_last.
Qed.
Lemma buildPathStack_crumbs_witness :
  rooted (js "/home/x") = true /\ parentDirOf (js "/home/x") = js "/home" /\
  buildPathStack (js "/home/x") = [js "/"; js "/home"; js "/home/x"].
Proof.
  split; [vm_compute; reflexivity|].
  split; [exact (proj1 (buildPathStack_crumbs (js "/home/x") eq_refl) 1%nat (js "/home") (js "/home/x") eq_refl eq_refl)|].
  vm_compute; reflexivity.
Defined.

(** Round trip of names: joining a plain name to a folder written canonically,
    then taking parent and basename, gives the folder and the name back; and a
    rename destination keeps the folder and carries exactly the new name, for
    every name the app accepts. *)
Theorem join_rename_roundtrip dir path name :
  canonical_dir dir = true -> invalidNameReason name = None ->
  parentDirOf (joinRemotePath dir name) = dir /\ basenameOf (joinRemotePath dir name) = name /\
  parentDirOf (renameDestination path name) = parentDirOf path /\
  basenameOf (renameDestination path name) = name.
Proof.
  intros Hd Hn%invalidNameReason_plain.
  pose proof (renameDestination_sibling path name Hn).
  auto using parent_join, basename_join.
Qed.
Lemma join_rename_roundtrip_witness :
  joinRemotePath (js "C:\") (js "a.txt") = js "C:\a.txt" /\
  parentDirOf (joinRemotePath (js "C:\") (js "a.txt")) = js "C:\" /\
  renameDestination (js "/x/y") (js "a.txt") = js "/x/a.txt".
Proof.
  split; [vm_compute; reflexivity|]. split; [|vm_compute; reflexivity].
  apply (join_rename_roundtrip (js "C:\") (js "/x/y") (js "a.txt")); vm_compute; reflexivity.
Defined.

(** Free names: the name chosen next to existing ones is never one of them
    (so the numbering loop stops), an unused name is kept, and a used one gets
    the first free number. *)
Theorem dedupedName_correct name existing :
  dedupedName name existing ∉ existing /\
  (name ∉ existing -> dedupedName name existing = name) /\
  (name ∈ existing -> exists k, (1 <= k)%nat /\ dedupedName name existing = dedup_candidate name k /\
     forall j, (1 <= j < k)%nat -> dedup_candidate name j ∈ existing).
Proof.
  split; [apply dedupedName_fresh|]. split; [|apply dedupedName_first].
  intros H. unfold dedupedName. by rewrite (proj2 (set_has_false _ _) H).
Qed.

Lemma buildPathStackWithinRoot_jail_witness :
  buildPathStackWithinRoot (U := ascii_unicode) (js "/a/b") (js "/a/b/c") = [js "/a/b"; js "/a/b/c"] /\
  exists tl, buildPathStackWithinRoot (U := ascii_unicode) (js "/a/b") (js "/etc") = js "/a/b" :: tl /\ tl = [].
Proof.
  split; [vm_compute; reflexivity|].
  destruct (buildPathStackWithinRoot_jail (U := ascii_unicode) (js "/a/b") (js "/etc")) as (tl & H & _ & Hn & _).
  exists tl. split; [exact H|]. apply Hn. apply (bool_decide_unpack _). vm_compute. exact I.
Defined.
