(* ===== verification/Json.v ===== *)
(** * JSON values

    The values [JSON.parse] yields, with the accessors the response parsers and
    the stores use on [unknown] data.  Numbers are integers: every numeric field
    the agent sends or the app stores is an integral count, size, code or time.
    A missing property ([undefined]) is [None].  The text codec itself is a class
    whose law is that parsing what was stringified gives the value back. *)

From Stdlib Require Import ZArith Lia Bool.
From Stdlib Require List.
From S2P Require Import Prelude JsCollections JsString.

Inductive json : Type :=
| JNull
| JBool (b : bool)
| JNum (n : Z)
| JStr (s : jstr)
| JArr (l : list json)
| JObj (fields : list (jstr * json)).

(** Induction through arrays and objects. *)
Section JsonInd.
Variable P : json -> Prop.
Hypothesis Hnull : P JNull.
Hypothesis Hbool : forall b, P (JBool b).
Hypothesis Hnum : forall n, P (JNum n).
Hypothesis Hstr : forall s, P (JStr s).
Hypothesis Harr : forall l, Forall P l -> P (JArr l).
Hypothesis Hobj : forall fs, Forall (fun kv => P kv.2) fs -> P (JObj fs).

Fixpoint json_ind' (j : json) : P j :=
  match j with
  | JNull => Hnull
  | JBool b => Hbool b
  | JNum n => Hnum n
  | JStr s => Hstr s
  | JArr l => Harr l ((fix go l := match l return Forall P l with
                                   | [] => Forall_nil_2 _
                                   | x :: r => Forall_cons_2 _ _ _ (json_ind' x) (go r)
                                   end) l)
  | JObj fs => Hobj fs ((fix go fs := match fs return Forall (fun kv => P kv.2) fs with
                                      | [] => Forall_nil_2 _
                                      | kv :: r => Forall_cons_2 _ _ _ (json_ind' kv.2) (go r)
                                      end) fs)
  end.
End JsonInd.

(** ** Accessors on [unknown] values *)

(** [j[k]] on an object; [undefined] is [None]. *)
Definition field (k : jstr) (fs : list (jstr * json)) : option json := map_get k fs.

(** [typeof v === 'string' ? v : undefined]. *)
Definition as_str (v : option json) : option jstr :=
  match v with Some (JStr s) => Some s | _ => None end.
Definition as_num (v : option json) : option Z :=
  match v with Some (JNum n) => Some n | _ => None end.
Definition as_bool (v : option json) : option bool :=
  match v with Some (JBool b) => Some b | _ => None end.
(** [typeof v === 'boolean' ? v : d]. *)
Definition bool_or (d : bool) (v : option json) : bool := default d (as_bool v).
Definition str_or (d : jstr) (v : option json) : jstr := default d (as_str v).
Definition num_or (d : Z) (v : option json) : Z := default d (as_num v).
(** The string when present and not empty. *)
Definition nonEmpty (v : option json) : option jstr :=
  match as_str v with Some [] => None | o => o end.
(** The elements when the value is an array, else none. *)
Definition as_arr (v : option json) : list json :=
  match v with Some (JArr l) => l | _ => [] end.
Definition is_array (v : json) : bool := match v with JArr _ => true | _ => false end.
(** [typeof v === 'object' && v !== null && !Array.isArray(v) ? v : {}]. *)
Definition obj (v : json) : list (jstr * json) :=
  match v with JObj fs => fs | _ => [] end.
(** The strings of an array, other elements dropped. *)
Fixpoint strings_of (l : list json) : list jstr :=
  match l with
  | [] => []
  | JStr s :: r => s :: strings_of r
  | _ :: r => strings_of r
  end.

Lemma strings_of_map l : strings_of (JStr <$> l) = l.
Proof. induction l as [|x l IH]; [done|]. csimpl. by rewrite IH. Qed.

(** ** The text codec *)

(** An object has each key once; its fields are listed in the order the engine keeps. *)
Fixpoint json_wf (j : json) : bool :=
  match j with
  | JArr l => (fix go l := match l with [] => true | x :: r => json_wf x && go r end) l
  | JObj fs => bool_decide (NoDup (keys fs)) &&
               (fix go fs := match fs with [] => true | kv :: r => json_wf kv.2 && go r end) fs
  | _ => true
  end.

Lemma json_wf_arr l : json_wf (JArr l) = List.forallb json_wf l.
Proof. simpl. induction l; simpl; by f_equal. Qed.
Lemma strings_wf (l : list jstr) : json_wf (JArr (JStr <$> l)) = true.
Proof. rewrite json_wf_arr. by induction l. Qed.
Lemma json_wf_obj fs : json_wf (JObj fs) = bool_decide (NoDup (keys fs)) && List.forallb (fun kv => json_wf kv.2) fs.
Proof. done. Qed.

Class JsonCodec := {
  json_parse : jstr -> option json;      (** [None]: [JSON.parse] throws *)
  json_stringify : json -> jstr;
  json_roundtrip : forall j, json_wf j = true -> json_parse (json_stringify j) = Some j;
  json_parse_empty : json_parse [] = None;  (** an empty text is a syntax error *)
  json_parse_wf : forall s j, json_parse s = Some j -> json_wf j = true   (** a repeated key is kept once *)
}.

Lemma json_stringify_nonempty `{JsonCodec} j : json_wf j = true -> json_stringify j <> [].
Proof. intros Hj E. apply json_roundtrip in Hj. rewrite E, json_parse_empty in Hj. done. Qed.

(** [try { JSON.parse(s) } catch { undefined }]. *)
Definition safeParse `{JsonCodec} (s : jstr) : option json := json_parse s.

(** *** A codec satisfying the law: a tagged prefix code *)

Fixpoint json_size (j : json) : nat :=
  match j with
  | JArr l => S ((fix go l := match l with [] => 0 | x :: r => json_size x + go r end) l)
  | JObj fs => S ((fix go fs := match fs with [] => 0 | kv :: r => json_size kv.2 + go r end) fs)
  | _ => 1
  end%nat.
Definition ser_str (s : jstr) : jstr := Z.of_nat (length s) :: s.
Fixpoint ser (j : json) : jstr :=
  match j with
  | JNull => [0]
  | JBool b => [1; if b then 1 else 0]
  | JNum n => [2; n]
  | JStr s => 3 :: ser_str s
  | JArr l => 4 :: Z.of_nat (length l) :: (fix go l := match l with [] => [] | x :: r => ser x ++ go r end) l
  | JObj fs => 5 :: Z.of_nat (length fs) ::
               (fix go fs := match fs with [] => [] | kv :: r => ser_str kv.1 ++ ser kv.2 ++ go r end) fs
  end.
Definition de_str (t : jstr) : option (jstr * jstr) :=
  match t with n :: r => Some (take (Z.to_nat n) r, drop (Z.to_nat n) r) | [] => None end.
Section Repeat.
Context {A : Type} (p : jstr -> option (A * jstr)).
Fixpoint de_many (n : nat) (t : jstr) : option (list A * jstr) :=
  match n with
  | O => Some ([], t)
  | S m => '(x, t1) ← p t; '(xs, t2) ← de_many m t1; Some (x :: xs, t2)
  end.
End Repeat.
Fixpoint de (k : nat) (t : jstr) : option (json * jstr) :=
  match k with
  | O => None
  | S k' =>
      match t with
      | 0 :: r => Some (JNull, r)
      | 1 :: b :: r => Some (JBool (b =? 1), r)
      | 2 :: n :: r => Some (JNum n, r)
      | 3 :: r => '(s, r') ← de_str r; Some (JStr s, r')
      | 4 :: n :: r => '(l, r') ← de_many (de k') (Z.to_nat n) r; Some (JArr l, r')
      | 5 :: n :: r =>
          '(l, r') ← de_many (fun t => '(s, t1) ← de_str t; '(v, t2) ← de k' t1; Some ((s, v), t2)) (Z.to_nat n) r;
          Some (JObj l, r')
      | _ => None
      end
  end.

Lemma de_str_ser s rest : de_str (ser_str s ++ rest) = Some (s, rest).
Proof. unfold de_str, ser_str. simpl. rewrite Nat2Z.id, take_app_length, drop_app_length. done. Qed.
Lemma de_ser j : forall k rest, (json_size j <= k)%nat -> de k (ser j ++ rest) = Some (j, rest).
Proof.
  induction j as [|b|n|s|l IH|fs IH] using json_ind'; intros k rest Hk; (destruct k as [|k]; [simpl in Hk; lia|]).
  - done.
  - by destruct b.
  - done.
  - cbn [ser app de]. by rewrite de_str_ser.
  - cbn [ser app de]. rewrite Nat2Z.id. cbn [json_size] in Hk. apply le_S_n in Hk.
    match goal with |- context [de_many ?p ?n ?t] => assert (de_many p n t = Some (l, rest)) as -> end; [|done].
    induction IH as [|x r Hx _ IHl]; [done|]. cbn [length de_many].
    rewrite <- app_assoc, Hx by lia. cbn [mbind option_bind]. by rewrite IHl by lia.
  - cbn [ser app de]. rewrite Nat2Z.id. cbn [json_size] in Hk. apply le_S_n in Hk.
    match goal with |- context [de_many ?p ?n ?t] => assert (de_many p n t = Some (fs, rest)) as -> end; [|done].
    induction IH as [|[s x] r Hx _ IHl]; [done|]. cbn [length de_many fst snd] in *.
    rewrite <- !app_assoc, de_str_ser. cbn [mbind option_bind]. rewrite Hx by lia. cbn [mbind option_bind].
    by rewrite IHl by lia.
Qed.
Lemma json_size_ser j : (json_size j <= length (ser j))%nat.
Proof.
  induction j as [|b|n|s|l IH|fs IH] using json_ind'; cbn [json_size ser length]; try lia; apply le_n_S.
  - transitivity (length ((fix go l := match l with [] => [] | x :: r => ser x ++ go r end) l)); [|lia].
    induction IH as [|x r Hx _ IHl]; [done|]. rewrite length_app. lia.
  - transitivity (length ((fix go fs := match fs with [] => [] | kv :: r => ser_str kv.1 ++ ser kv.2 ++ go r end) fs)); [|lia].
    induction IH as [|x r Hx _ IHl]; [done|]. rewrite !length_app. lia.
Qed.
Definition plain_parse (t : jstr) : option json :=
  match de (length t) t with Some (j, []) => if json_wf j then Some j else None | _ => None end.
Lemma plain_roundtrip j : json_wf j = true -> plain_parse (ser j) = Some j.
Proof.
  intros H. unfold plain_parse. rewrite <- (app_nil_r (ser j)) at 2. by rewrite de_ser, H by apply json_size_ser.
Qed.
Lemma plain_parse_wf t j : plain_parse t = Some j -> json_wf j = true.
Proof.
  unfold plain_parse. destruct (de (length t) t) as [[j' [|]]|]; [|done..]. destruct (json_wf j') eqn:E; [|done]. by intros [= <-].
Qed.
Definition plain_codec : JsonCodec :=
  {| json_parse := plain_parse; json_stringify := ser; json_roundtrip := plain_roundtrip; json_parse_empty := eq_refl;
     json_parse_wf := plain_parse_wf |}.
