(* ===== verification/Errors.v ===== *)
(** * Errors and certificate pins

    [core/api/pin.ts] and the error values of [agentClient.ts],
    [deviceIdentity.ts] and [pairingService.ts], as the values a rejected
    promise carries. *)

From Stdlib Require Import ZArith Lia Bool.
From Stdlib Require List.
From S2P Require Import Prelude JsCollections JsString.

(** ** Error values *)

Inductive jserror : Type :=
| CertPinMismatch                       (** the presented certificate is not the pinned one *)
| MissingCertPin                        (** no usable pin: nothing was sent *)
| AgentApiError (statusCode : Z) (code message : jstr) (cause : option jstr)
| NativeError (code message : jstr)     (** a rejection of the native transport *)
| PlainError (message : jstr)           (** [new Error(message)] *)
| AbortError
| PairRejected
| PairExpired
| IdentityCorrupt (message : jstr).

#[export] Instance jserror_eq_dec : EqDecision jserror.
Proof. solve_decision. Defined.

Definition ERR_CERT_PIN_MISMATCH : jstr := js "ERR_CERT_PIN_MISMATCH".
Definition ERR_PIN_POLICY : jstr := js "ERR_PIN_POLICY".
Definition ERR_CONNECTION : jstr := js "ERR_CONNECTION".

(** [errCode(e)]: the [code] property of the value, when it has one. *)
Definition errCode (e : jserror) : option jstr :=
  match e with
  | CertPinMismatch => Some ERR_CERT_PIN_MISMATCH
  | MissingCertPin => Some ERR_PIN_POLICY
  | AgentApiError _ c _ _ => Some c
  | NativeError c _ => Some c
  | _ => None
  end.

(** The [message] property. *)
Definition missingPinMessage : jstr :=
  js "The host certificate fingerprint is missing or invalid. Re-pair the host to restore its secure pin.".
Definition errMessage (e : jserror) : jstr :=
  match e with
  | CertPinMismatch => js "Certificate fingerprint mismatch"
  | MissingCertPin => missingPinMessage
  | AgentApiError _ _ m _ => m
  | NativeError _ m => m
  | PlainError m => m
  | AbortError => js "aborted"
  | PairRejected => js "The computer declined this pairing request."
  | PairExpired => js "The pairing request timed out. Ask again and approve it on the computer."
  | IdentityCorrupt m => m ++ js "; re-pair the device instead of regenerating silently"
  end.

(** ** Fingerprints *)

Section Pins.
Context `{U : Unicode}.

(** [/^[0-9a-f]{64}$/]. *)
Definition is_pin (n : jstr) : bool := (length n =? 64)%nat && List.forallb is_hex_lower n.

(** Canonical lowercase hex SHA-256, or [None]. *)
Definition normalizeFingerprint (fp : option jstr) : option jstr :=
  match fp with
  | None => None
  | Some s => let n := toLowerCase (remove_chars (Z.eqb colon) (trim s)) in
              if is_pin n then Some n else None
  end.

Lemma normalizeFingerprint_pin fp n : normalizeFingerprint fp = Some n -> is_pin n = true.
Proof. destruct fp; simpl; [|done]. case_match eqn:E; naive_solver. Qed.

Lemma is_hex_lower_facts c : is_hex_lower c = true ->
  is_ascii c = true /\ is_space c = false /\ (colon =? c) = false /\ ascii_lower c = c.
Proof.
  unfold is_hex_lower, is_digit, is_ascii, is_space, colon, ascii_lower, is_upper.
  intros H. assert (48 <= c <= 57 \/ 97 <= c <= 102) as Hc.
  { apply orb_true_iff in H as [H|H]; breflect; lia. }
  repeat split; repeat case_match; breflect; try lia;
    rewrite ?andb_true_iff, ?orb_false_iff, ?andb_false_iff, ?Z.leb_le, ?Z.leb_gt, ?Z.eqb_neq; lia.
Qed.

(** A canonical pin is a fixed point. *)
Lemma normalizeFingerprint_id n : is_pin n = true -> normalizeFingerprint (Some n) = Some n.
Proof.
  intros Hp. pose proof Hp as Hp'. unfold is_pin in Hp'. breflect.
  match goal with H : List.forallb _ _ = true |- _ => apply forallb_forall_true in H; rename H into Hf end.
  simpl. rewrite trim_no_space.
  2:{ eapply Forall_impl; [exact Hf|]. intros c Hc. by apply is_hex_lower_facts. }
  assert (remove_chars (Z.eqb colon) n = n) as ->.
  { unfold remove_chars. apply List.forallb_filter_id, forallb_forall_true.
    eapply Forall_impl; [exact Hf|]. intros c Hc. destruct (is_hex_lower_facts c Hc) as (_ & _ & -> & _). done. }
  rewrite lower_ascii.
  2:{ eapply Forall_impl; [exact Hf|]. intros c Hc. by apply is_hex_lower_facts. }
  assert (ascii_lower <$> n = n) as ->; [|by rewrite Hp].
  rewrite <- (list_fmap_id n) at 2. apply Forall_fmap_ext_1.
  eapply Forall_impl; [exact Hf|]. intros c Hc. by apply is_hex_lower_facts.
Qed.
Lemma normalizeFingerprint_idem fp n :
  normalizeFingerprint fp = Some n -> normalizeFingerprint (Some n) = Some n.
Proof. intros H. eapply normalizeFingerprint_id, normalizeFingerprint_pin, H. Qed.
End Pins.
