(* ===== verification/Models.v ===== *)
(** * Response models

    [core/api/models.ts]: the records the agent's JSON is parsed into and their
    parsers.  [total] parsers read any value, [objectOnly] parsers throw on a
    value that is not an object. *)

From Stdlib Require Import ZArith Lia Bool.
From Stdlib Require List.
From S2P Require Import Prelude JsCollections JsString Json Errors.

(** ** Shapes *)

Definition total {T} (f : list (jstr * json) -> T) (v : json) : T := f (obj v).
Definition objectOnly {T} (f : list (jstr * json) -> T) (v : json) : result jserror T :=
  match v with
  | JObj fs => Ok (f fs)
  | _ => Err (PlainError (js "unexpected response shape"))
  end.
(** [arr.map(p)] where [p] may throw: the first failure is the outcome. *)
Fixpoint map_result {A B} (p : A -> result jserror B) (l : list A) : result jserror (list B) :=
  match l with
  | [] => Ok []
  | x :: r => match p x with
              | Err e => Err e
              | Ok y => match map_result p r with Ok ys => Ok (y :: ys) | Err e => Err e end
              end
  end.

(** ** Health *)

Record Health := {
  health_status : jstr;
  health_name : jstr;
  health_version : jstr;
  health_os : jstr;
  health_readOnly : bool;
  health_address : option jstr;
  health_tailscaleAddress : option jstr;
  health_macAddress : option jstr;
  health_apiVersion : Z;
  health_features : list jstr
}.

Definition parseHealth : json -> result jserror Health := objectOnly (fun j =>
  let f k := field (js k) j in
  let api := as_num (f "apiVersion") in
  {| health_status := str_or (js "unknown") (f "status");
     health_name := str_or [] (f "name");
     health_version := str_or [] (f "version");
     health_os := str_or [] (f "os");
     health_readOnly := bool_or false (f "readOnly");
     health_address := nonEmpty (f "address");
     health_tailscaleAddress := nonEmpty (f "tailscaleAddress");
     health_macAddress := nonEmpty (f "macAddress");
     health_apiVersion := match api with Some n => if 1 <=? n then n else 1 | None => 1 end;
     health_features := set_of (filter_nonempty (strings_of (as_arr (f "features")))) |}).

(** ** Pairing response *)

Record PairResponse := {
  pair_deviceToken : jstr;
  pair_deviceId : jstr;
  pair_agentName : jstr;
  pair_certFingerprint : option jstr;
  pair_address : option jstr;
  pair_tailscaleAddress : option jstr
}.
Definition parsePairResponse : json -> PairResponse := total (fun j =>
  let f k := field (js k) j in
  {| pair_deviceToken := str_or [] (f "deviceToken");
     pair_deviceId := str_or [] (f "deviceId");
     pair_agentName := str_or [] (f "agentName");
     pair_certFingerprint := as_str (f "certFingerprint");
     pair_address := nonEmpty (f "address");
     pair_tailscaleAddress := nonEmpty (f "tailscaleAddress") |}).

(** ** Drives, entries, listings *)

Record Drive := {
  drive_path : jstr;
  drive_label : option jstr;
  drive_totalBytes : option Z;
  drive_freeBytes : option Z;
  drive_isOS : bool
}.
Definition parseDrive : json -> Drive := total (fun j =>
  let f k := field (js k) j in
  {| drive_path := str_or [] (f "path");
     drive_label := as_str (f "label");
     drive_totalBytes := as_num (f "totalBytes");
     drive_freeBytes := as_num (f "freeBytes");
     drive_isOS := bool_or false (f "isOS") |}).

Record Entry := {
  entry_name : jstr;
  entry_path : jstr;
  entry_isDir : bool;
  entry_size : option Z;
  entry_mimeType : option jstr;
  entry_mode : option jstr;
  entry_modified : option jstr;
  entry_created : option jstr;
  entry_isSymlink : bool;
  entry_symlinkTarget : option jstr;
  entry_childCount : option Z
}.
#[export] Instance Entry_eq_dec : EqDecision Entry.
Proof. solve_decision. Defined.

Definition parseEntry : json -> result jserror Entry := objectOnly (fun j =>
  let f k := field (js k) j in
  {| entry_name := str_or [] (f "name");
     entry_path := str_or [] (f "path");
     entry_isDir := bool_or false (f "isDir");
     entry_size := as_num (f "size");
     entry_mimeType := as_str (f "mimeType");
     entry_mode := as_str (f "mode");
     entry_modified := as_str (f "modified");
     entry_created := as_str (f "created");
     entry_isSymlink := bool_or false (f "isSymlink");
     entry_symlinkTarget := as_str (f "symlinkTarget");
     entry_childCount := as_num (f "childCount") |}).

Record Listing := {
  listing_path : jstr;
  listing_entries : list Entry;
  listing_nextCursor : option jstr
}.
Definition parseListing (v : json) : result jserror Listing :=
  let j := obj v in
  match map_result parseEntry (as_arr (field (js "entries") j)) with
  | Err e => Err e
  | Ok es => Ok {| listing_path := str_or [] (field (js "path") j);
                   listing_entries := es;
                   listing_nextCursor := as_str (field (js "nextCursor") j) |}
  end.

(** ** Capabilities and status *)

Inductive FileCapability := browse | download | upload | modify_cap | delete_cap | share.
#[export] Instance FileCapability_eq_dec : EqDecision FileCapability.
Proof. solve_decision. Defined.
Definition FILE_CAPABILITIES : list FileCapability :=
  [browse; download; upload; modify_cap; delete_cap; share].
Definition capability_key (c : FileCapability) : jstr :=
  match c with
  | browse => js "browse" | download => js "download" | upload => js "upload"
  | modify_cap => js "modify" | delete_cap => js "delete" | share => js "share"
  end.
(** [Record<FileCapability, boolean>]. *)
Definition Capabilities := FileCapability -> bool.

(** [typeof v !== 'object' || v === null]: an array passes the test and grants nothing. *)
Definition parseFileCapabilities (v : option json) : option Capabilities :=
  match v with
  | Some (JObj fs) => Some (fun c => match field (capability_key c) fs with Some (JBool true) => true | _ => false end)
  | Some (JArr _) => Some (fun _ => false)
  | _ => None
  end.

(** Unknown capabilities never hide an action. *)
Definition can (caps : option Capabilities) (c : FileCapability) : bool :=
  match caps with None => true | Some g => g c end.

Inductive Scope := scope_global | scope_device.
Record AgentStatus := {
  status_agentName : jstr;
  status_roots : list jstr;
  status_readOnly : bool;
  status_allowSharing : bool;
  status_isAdmin : bool;
  status_isAdminKnown : bool;
  status_photoBackupRoot : jstr;
  status_photoBackupConfigured : bool;
  status_photoBackupAvailable : option bool;
  status_fileCapabilities : option Capabilities;
  status_effectiveScope : Scope;
  status_accessDenied : bool
}.
Definition parseStatus : json -> result jserror AgentStatus := objectOnly (fun j =>
  let f k := field (js k) j in
  {| status_agentName := str_or [] (f "agentName");
     status_roots := strings_of (as_arr (f "roots"));
     status_readOnly := bool_or false (f "readOnly");
     status_allowSharing := bool_or false (f "allowSharing");
     status_isAdmin := bool_or false (f "isAdmin");
     status_isAdminKnown := match f "isAdmin" with Some _ => true | None => false end;
     status_photoBackupRoot := str_or [] (f "photoBackupRoot");
     status_photoBackupConfigured := bool_or (nonempty (str_or [] (f "photoBackupRoot"))) (f "photoBackupConfigured");
     status_photoBackupAvailable := as_bool (f "photoBackupAvailable");
     status_fileCapabilities := parseFileCapabilities (f "fileCapabilities");
     status_effectiveScope := match f "effectiveScope" with
                              | Some (JStr s) => if bool_decide (s = js "device") then scope_device else scope_global
                              | _ => scope_global end;
     status_accessDenied := bool_or false (f "accessDenied") |}).

(** Owners manage the host; an older agent that does not say counts as owner. *)
Definition canManageHost (s : AgentStatus) : bool := status_isAdmin s || negb (status_isAdminKnown s).

(** ** Batch results *)

Record BatchItemResult := {
  item_path : jstr;
  item_ok : bool;
  item_errorCode : option jstr;
  item_errorMessage : option jstr
}.
Record BatchResult := {
  batch_results : list BatchItemResult;
  batch_failed : list BatchItemResult
}.
Definition mkBatch (rs : list BatchItemResult) : BatchResult :=
  {| batch_results := rs; batch_failed := List.filter (fun r => negb (item_ok r)) rs |}.
Definition parseBatchItem (r0 : json) : BatchItemResult :=
  let r := obj r0 in
  let err := match field (js "error") r with
             | Some (JObj fs) => Some fs
             | Some (JArr _) => Some []
             | _ => None end in
  {| item_path := str_or [] (field (js "path") r);
     item_ok := match field (js "ok") r with Some (JBool true) => true | _ => false end;
     item_errorCode := match err with Some e => as_str (field (js "code") e) | None => None end;
     item_errorMessage := match err with Some e => as_str (field (js "message") e) | None => None end |}.
Definition parseBatchResult (raw : json) : BatchResult :=
  mkBatch (parseBatchItem <$> as_arr (field (js "results") (obj raw))).

(** ** Trash, archives, search, share links *)

Record TrashEntry := {
  trash_id : jstr; trash_name : jstr; trash_originalPath : jstr;
  trash_deletedAt : option jstr; trash_size : option Z; trash_isDir : bool
}.
Definition parseTrashEntry : json -> TrashEntry := total (fun j =>
  let f k := field (js k) j in
  {| trash_id := str_or [] (f "id");
     trash_name := str_or [] (f "name");
     trash_originalPath := str_or [] (f "originalPath");
     trash_deletedAt := as_str (f "deletedAt");
     trash_size := as_num (f "size");
     trash_isDir := bool_or false (f "isDir") |}).

Record ArchiveEntry := {
  archive_path : jstr; archive_size : Z; archive_modified : option jstr; archive_isDir : bool
}.
Definition parseArchiveEntry : json -> ArchiveEntry := total (fun j =>
  let f k := field (js k) j in
  {| archive_path := str_or [] (f "path");
     archive_size := num_or 0 (f "size");
     archive_modified := as_str (f "modified");
     archive_isDir := bool_or false (f "isDir") |}).

Record SearchResult := {
  search_entries : list Entry; search_truncated : bool; search_timeBudgetHit : bool
}.
Definition flagSet `{Unicode} (headers : list (jstr * jstr)) (name : jstr) : bool :=
  List.existsb (fun kv => bool_decide (toLowerCase kv.1 = name) && bool_decide (trim kv.2 = js "1")) headers.
Definition parseSearchResult `{Unicode} (body : json) (headers : list (jstr * jstr)) : result jserror SearchResult :=
  match map_result parseEntry (as_arr (Some body)) with
  | Err e => Err e
  | Ok es => Ok {| search_entries := es;
                   search_truncated := flagSet headers (js "x-search-truncated");
                   search_timeBudgetHit := flagSet headers (js "x-search-time-budget") |}
  end.

Record ShareLink := {
  link_token : jstr; link_tokenHash : jstr; link_path : jstr; link_expiresAt : Z; link_url : jstr
}.
Definition parseShareLink : json -> ShareLink := total (fun j =>
  let f k := field (js k) j in
  {| link_token := str_or [] (f "token");
     link_tokenHash := str_or [] (f "tokenHash");
     link_path := str_or [] (f "path");
     link_expiresAt := num_or 0 (f "expiresAt");
     link_url := str_or [] (f "url") |}).

(** ** Devices, bandwidth, audit *)

Record Device := {
  device_id : jstr; device_label : jstr;
  device_created : Z; device_lastSeen : Z;
  device_revoked : bool; device_current : bool; device_viaLogin : bool;
  device_lastAddress : jstr; device_lastVersion : jstr; device_jailRoot : jstr;
  device_viewApps : option bool; device_launchApps : option bool;
  device_caps : FileCapability -> option bool
}.
Definition parseDevice : json -> Device := total (fun j =>
  let f k := field (js k) j in
  {| device_id := str_or [] (f "id");
     device_label := str_or [] (f "label");
     device_created := num_or 0 (f "created") * 1000;
     device_lastSeen := num_or 0 (f "lastSeen") * 1000;
     device_revoked := bool_or false (f "revoked");
     device_current := bool_or false (f "current");
     device_viaLogin := bool_or false (f "viaLogin");
     device_lastAddress := str_or [] (f "lastAddress");
     device_lastVersion := str_or [] (f "lastVersion");
     device_jailRoot := str_or [] (f "jailRoot");
     device_viewApps := as_bool (f "viewApps");
     device_launchApps := as_bool (f "launchApps");
     device_caps := fun c => as_bool (field (capability_key c) j) |}).
Definition is_some {A} (o : option A) : bool := match o with Some _ => true | None => false end.
Definition hasAppCapabilities (d : Device) : bool := is_some (device_viewApps d) && is_some (device_launchApps d).
Definition hasFileCapabilities (d : Device) : bool :=
  List.forallb (fun c => is_some (device_caps d c)) FILE_CAPABILITIES.

Record BandwidthSettings := { maxUploadBytesPerSec : Z; maxDownloadBytesPerSec : Z }.
Definition parseBandwidth : json -> BandwidthSettings := total (fun j =>
  {| maxUploadBytesPerSec := num_or 0 (field (js "maxUploadBytesPerSec") j);
     maxDownloadBytesPerSec := num_or 0 (field (js "maxDownloadBytesPerSec") j) |}).

Record AuditEntry := {
  audit_id : Z; audit_at : Z; audit_action : jstr; audit_actor : jstr;
  audit_target : jstr; audit_detail : jstr
}.
Definition parseAuditEntry `{DateParse} : json -> AuditEntry := total (fun j =>
  let f k := field (js k) j in
  {| audit_id := num_or 0 (f "id");
     audit_at := default 0 (date_parse (str_or [] (f "at")));
     audit_action := str_or [] (f "action");
     audit_actor := str_or [] (f "actor");
     audit_target := str_or [] (f "target");
     audit_detail := str_or [] (f "detail") |}).

(** ** App catalog *)

Record HostApp := {
  app_id : jstr; app_name : jstr; app_launchable : bool;
  app_description : option jstr; app_icon : option jstr; app_category : option jstr
}.
Record HostAppCatalog := { catalog_platform : jstr; catalog_apps : list HostApp; catalog_launchAllowed : bool }.
Definition parseHostApp (a0 : json) : result jserror HostApp :=
  let a := obj a0 in
  let f k := field (js k) a in
  match as_str (f "id"), as_str (f "name") with
  | Some id, Some name =>
      if nonempty id && nonempty name && nonempty (trim name)
      then Ok {| app_id := id; app_name := name; app_launchable := bool_or true (f "launchable");
                 app_description := as_str (f "description"); app_icon := as_str (f "icon");
                 app_category := as_str (f "category") |}
      else Err (PlainError (js "Invalid host app catalog entry."))
  | _, _ => Err (PlainError (js "Invalid host app catalog entry."))
  end.
Definition parseHostAppCatalog (raw : json) : result jserror HostAppCatalog :=
  let j := obj raw in
  match field (js "apps") j with
  | Some (JArr l) =>
      match map_result parseHostApp l with
      | Err e => Err e
      | Ok apps => Ok {| catalog_platform := str_or [] (field (js "platform") j);
                         catalog_apps := apps;
                         catalog_launchAllowed := bool_or false (field (js "launchAllowed") j) |}
      end
  | _ => Err (PlainError (js "Invalid host app catalog response."))
  end.

(** ** Lemmas *)

Lemma map_result_ok {A B} (p : A -> result jserror B) l ys :
  map_result p l = Ok ys <-> Forall2 (fun x y => p x = Ok y) l ys.
Proof.
  revert ys; induction l as [|x l IH]; intros ys; simpl.
  - split; [intros [= <-]; constructor | by inversion 1].
  - destruct (p x) as [y|e] eqn:E.
    + destruct (map_result p l) as [ys'|e'].
      * split.
        -- intros [= <-]. constructor; [done|]. by apply IH.
        -- inversion 1; subst. simplify_eq.
           match goal with H : Forall2 _ l _ |- _ => apply IH in H; simplify_eq end. congruence.
      * split; [done|]. inversion 1; subst.
        match goal with H : Forall2 _ _ _ |- _ => apply IH in H end. done.
    + split; [done|]. inversion 1; subst. congruence.
Qed.
Lemma mkBatch_ok rs : batch_failed (mkBatch rs) = [] <-> Forall (fun r => item_ok r = true) rs.
Proof.
  simpl. induction rs as [|r rs IH]; simpl; [by split|].
  destruct (item_ok r) eqn:E; simpl.
  - rewrite IH. split; [by constructor | by inversion 1].
  - split; [done|]. inversion 1; congruence.
Qed.
