(* ===== verification/Entries.v ===== *)
(** * Listings: categories, visibility and order

    [core/entryCategory.ts], [core/visibility.ts], [core/models/sort.ts] and
    [features/explorer/sort.ts]. *)

From Stdlib Require Import ZArith Lia Bool Permutation Sorted.
From Stdlib Require List.
From S2P Require Import Prelude JsCollections JsString Json Errors Models.

(** ** Categories *)

Inductive EntryCategory := cat_folder | cat_image | cat_video | cat_audio | cat_document | cat_archive | cat_other.
#[export] Instance EntryCategory_eq_dec : EqDecision EntryCategory.
Proof. solve_decision. Defined.

Definition imageExtensions : list jstr :=
  [js "png"; js "jpg"; js "jpeg"; js "gif"; js "bmp"; js "webp"; js "heic"; js "heif"; js "svg"; js "tiff"; js "ico"].
Definition videoExtensions : list jstr :=
  [js "mp4"; js "mov"; js "mkv"; js "avi"; js "webm"; js "m4v"; js "3gp"; js "flv"; js "wmv"].
Definition audioExtensions : list jstr :=
  [js "mp3"; js "wav"; js "flac"; js "aac"; js "ogg"; js "m4a"; js "wma"; js "opus"].
Definition archiveExtensions : list jstr :=
  [js "zip"; js "rar"; js "7z"; js "tar"; js "gz"; js "bz2"; js "xz"; js "tgz"].
Definition docExtensions : list jstr :=
  [js "pdf"; js "doc"; js "docx"; js "xls"; js "xlsx"; js "ppt"; js "pptx"; js "odt"; js "ods"; js "odp";
   js "txt"; js "md"; js "rtf"; js "csv"].

Definition categoryOf (e : Entry) : EntryCategory :=
  if entry_isDir e then cat_folder
  else
    let mime := default [] (entry_mimeType e) in
    if starts_with (js "image/") mime then cat_image
    else if starts_with (js "video/") mime then cat_video
    else if starts_with (js "audio/") mime then cat_audio
    else if includes (js "pdf") mime then cat_document
    else if includes (js "zip") mime || includes (js "archive") mime then cat_archive
    else if starts_with (js "text/") mime || includes (js "json") mime then cat_document
    else cat_other.

Inductive IconName := icon_folder | icon_image | icon_video | icon_music | icon_fileArchive | icon_fileText | icon_file.
Record IconKind := { icon_name : IconName; icon_color : option jstr; icon_bg : option jstr }.
Definition iconKindFor (e : Entry) : IconKind :=
  let mk i c b := {| icon_name := i; icon_color := Some (js c); icon_bg := Some (js b) |} in
  let plain i := {| icon_name := i; icon_color := None; icon_bg := None |} in
  let folder i := mk i "#4C8DFF" "rgba(76,141,255,0.14)" in
  let violet i := mk i "#9B87F5" "rgba(155,135,245,0.14)" in
  let red i := mk i "#F1596B" "rgba(241,89,107,0.14)" in
  let amber i := mk i "#F3A73F" "rgba(243,167,63,0.14)" in
  let mime := default [] (entry_mimeType e) in
  match categoryOf e with
  | cat_folder => folder icon_folder
  | cat_image => violet icon_image
  | cat_video => violet icon_video
  | cat_audio => plain icon_music
  | cat_archive => amber icon_fileArchive
  | cat_document =>
      if includes (js "pdf") mime then red icon_fileText
      else if starts_with (js "text/") mime then plain icon_fileText
      else folder icon_fileText
  | cat_other => plain icon_file
  end.

Inductive EntryRole := role_folder | role_doc | role_photo | role_route | role_warn.
Definition roleOf `{Unicode} (e : Entry) : option EntryRole :=
  match categoryOf e with
  | cat_folder => Some role_folder
  | cat_image | cat_video => Some role_photo
  | cat_audio => Some role_route
  | cat_document => Some role_doc
  | cat_archive => Some role_warn
  | cat_other =>
      let ext := toLowerCase (default [] (last (split_on (Z.eqb dot) (entry_name e)))) in
      if set_has ext imageExtensions || set_has ext videoExtensions then Some role_photo
      else if set_has ext audioExtensions then Some role_route
      else if set_has ext docExtensions then Some role_doc
      else if set_has ext archiveExtensions then Some role_warn
      else None
  end.

(** ** Visibility *)

Record VisibilityPrefs := {
  hideDotfiles : bool;
  hiddenExtensions : list jstr;
  hiddenNames : list jstr
}.
Definition defaultVisibility : VisibilityPrefs :=
  {| hideDotfiles := true; hiddenExtensions := []; hiddenNames := [] |}.

Record VisibilityPreset := { preset_label : jstr; preset_extensions : list jstr; preset_names : list jstr }.
Definition preset (label : string) (extensions names : list jstr) : VisibilityPreset :=
  {| preset_label := js label; preset_extensions := set_of extensions; preset_names := set_of names |}.
Definition visibilityPresets : list VisibilityPreset := [
  preset "System junk" [js "tmp"; js "bak"; js "swp"; js "lock"; js "ini"]
    [js ".DS_Store"; js "Thumbs.db"; js "desktop.ini"];
  preset "Logs" [js "log"; js "old"] [];
  preset "Archives" archiveExtensions [];
  preset "Audio" audioExtensions [];
  preset "Images" imageExtensions [];
  preset "Videos" videoExtensions [];
  preset "Docs" docExtensions []
].

Definition isDotfile (name : jstr) : bool := starts_with [dot] name.

Section Visibility.
Context `{U : Unicode}.

(** Lowercase extension without the dot; empty for none, a trailing dot or a dotfile. *)
Definition extensionOf (name : jstr) : jstr :=
  match last_index_of dot name with
  | None | Some O => []
  | Some d => if (d =? length name - 1)%nat then [] else toLowerCase (drop (S d) name)
  end.

Definition isEntryHidden (e : Entry) (p : VisibilityPrefs) : bool :=
  if hideDotfiles p && isDotfile (entry_name e) then true
  else if negb (entry_isDir e) &&
          (let ext := extensionOf (entry_name e) in
           nonempty ext && List.existsb (fun x => bool_decide (toLowerCase x = ext)) (hiddenExtensions p))
  then true
  else let lower := toLowerCase (entry_name e) in
       List.existsb (fun n => bool_decide (toLowerCase n = lower)) (hiddenNames p).
End Visibility.

Definition isEntryHiddenInPicker (e : Entry) (p : VisibilityPrefs) : bool :=
  hideDotfiles p && isDotfile (entry_name e).

(** ** Order *)

Inductive SortField := sort_name | sort_size | sort_date | sort_type.
#[export] Instance SortField_eq_dec : EqDecision SortField.
Proof. solve_decision. Defined.
Record SortOrder := { sort_field : SortField; sort_ascending : bool }.
Definition defaultSort : SortOrder := {| sort_field := sort_name; sort_ascending := true |}.

(** Maximal runs of digits and of non-digits: [match(/\d+|\D+/g)]. *)
Fixpoint runs (s : jstr) : list jstr :=
  match s with
  | [] => []
  | c :: r =>
      match runs r with
      | (d :: w) :: ws => if Bool.eqb (is_digit c) (is_digit d) then (c :: d :: w) :: ws else [c] :: (d :: w) :: ws
      | ws => [c] :: ws
      end
  end.

(** [/^\d/.test(p)]. *)
Definition starts_with_digit (p : jstr) : bool := match p with c :: _ => is_digit c | [] => false end.
(** [p.replace(/^0+(?=\d)/, '')]. *)
Fixpoint strip_zeros (p : jstr) : jstr :=
  match p with
  | c :: r => if (c =? 48) && starts_with_digit r then strip_zeros r else p
  | [] => []
  end.

Definition sgn_of (c : comparison) : Z := match c with Eq => 0 | Lt => -1 | Gt => 1 end.

(** One iteration of the loop of [naturalCompare]; [0] continues. *)
Definition chunk_cmp (p q : jstr) : Z :=
  if decide (p = q) then 0
  else if starts_with_digit p && starts_with_digit q then
    let m := strip_zeros p in
    let n := strip_zeros q in
    if (length m =? length n)%nat then
      if decide (m = n) then 0 else if str_lt m n then -1 else 1
    else if (length m <? length n)%nat then -1 else 1
  else if str_lt p q then -1 else 1.

Fixpoint chunks_cmp (x y : list jstr) : Z :=
  match x, y with
  | p :: x', q :: y' => let r := chunk_cmp p q in if r =? 0 then chunks_cmp x' y' else r
  | [], [] => 0
  | [], _ :: _ => -1
  | _ :: _, [] => 1
  end.

Section Order.
Context `{U : Unicode} `{D : DateParse}.

Definition chunks (s : jstr) : list jstr := runs (toLowerCase s).
Definition naturalCompare (a b : jstr) : Z := chunks_cmp (chunks a) (chunks b).

(** [s ? Date.parse(s) || 0 : 0]. *)
Definition ms (s : option jstr) : Z :=
  match s with Some t => if nonempty t then default 0 (date_parse t) else 0 | None => 0 end.

Definition field_cmp (f : SortField) (a b : Entry) : Z :=
  match f with
  | sort_name => naturalCompare (entry_name a) (entry_name b)
  | sort_size => default 0 (entry_size a) - default 0 (entry_size b)
  | sort_date => ms (entry_modified a) - ms (entry_modified b)
  | sort_type => let x := default [] (entry_mimeType a) in
                 let y := default [] (entry_mimeType b) in
                 if str_lt x y then -1 else if str_lt y x then 1 else 0
  end.
Definition entry_cmp (sort : SortOrder) (a b : Entry) : Z :=
  let r := field_cmp (sort_field sort) a b in
  if sort_ascending sort then r else - r.

Definition sortEntries (entries : list Entry) (sort : SortOrder) : list Entry :=
  sort_by (entry_cmp sort) (List.filter entry_isDir entries) ++
  sort_by (entry_cmp sort) (List.filter (fun e => negb (entry_isDir e)) entries).
End Order.

(** ** The order is an order *)

Definition str_cmp (a b : jstr) : Z := sgn_of (str_compare a b).

Lemma str_lt_cmp a b : str_lt a b = (str_cmp a b <? 0).
Proof. unfold str_lt, str_cmp. by destruct (str_compare a b). Qed.
Lemma str_cmp_zero a b : str_cmp a b = 0 <-> a = b.
Proof. unfold str_cmp. rewrite <- str_compare_eq. by destruct (str_compare a b). Qed.

#[export] Instance Comparator_str : Comparator str_cmp.
Proof.
  unfold str_cmp. split.
  - intros x y. rewrite str_compare_antisym. by destruct (str_compare x y).
  - intros x y z. destruct (str_compare x y) eqn:E1; [|intros _|done].
    + apply str_compare_eq in E1 as ->. done.
    + destruct (str_compare y z) eqn:E2; [apply str_compare_eq in E2 as ->; by rewrite E1| |done].
      by rewrite (str_compare_lt_trans x y z).
Qed.

(** The sort key of one run: non-digits below the digits, digits by value, the rest. *)
Definition run_class (p : jstr) : Z :=
  match p with [] => 0 | c :: _ => if is_digit c then 1 else if c <? 48 then 0 else 2 end.
Definition run_length (p : jstr) : Z := if starts_with_digit p then Z.of_nat (length (strip_zeros p)) else 0.
Definition run_body (p : jstr) : jstr := if starts_with_digit p then strip_zeros p else p.
Definition key_cmp : jstr -> jstr -> Z :=
  cmp_then (fun p q => run_class p - run_class q)
    (cmp_then (fun p q => run_length p - run_length q) (fun p q => str_cmp (run_body p) (run_body q))).
#[export] Instance Comparator_key_cmp : Comparator key_cmp.
Proof. apply Comparator_then; apply _. Qed.

Lemma run_class_digit p : starts_with_digit p = true <-> run_class p = 1.
Proof. destruct p as [|c p]; simpl; [done|]. repeat case_match; naive_solver. Qed.

Lemma str_compare_class p q : run_class p < run_class q -> str_compare p q = Lt.
Proof.
  destruct p as [|c p], q as [|d q]; simpl; try done.
  - repeat case_match; lia.
  - intros H. replace (c ?= d) with Lt; [done|]. symmetry. apply Z.compare_lt_iff.
    unfold is_digit in *. repeat case_match; breflect; try lia;
      rewrite ?andb_false_iff, ?Z.leb_gt in *; lia.
Qed.

Lemma str_cmp_class p q : run_class p <> run_class q ->
  str_cmp p q = Z.sgn (run_class p - run_class q).
Proof.
  intros H. unfold str_cmp. destruct (decide (run_class p < run_class q)) as [L|L].
  - rewrite (str_compare_class p q L). rewrite Z.sgn_neg; [done | lia].
  - rewrite str_compare_antisym, (str_compare_class q p) by lia. rewrite Z.sgn_pos; [done | lia].
Qed.

Lemma chunk_cmp_str p q : p <> q -> starts_with_digit p && starts_with_digit q = false ->
  chunk_cmp p q = str_cmp p q.
Proof.
  intros Hne Hd. unfold chunk_cmp. rewrite decide_False, Hd by done. rewrite str_lt_cmp.
  assert (str_cmp p q <> 0) by (by rewrite str_cmp_zero).
  unfold str_cmp in *. by destruct (str_compare p q).
Qed.

Lemma chunk_cmp_key p q : Z.sgn (chunk_cmp p q) = Z.sgn (key_cmp p q).
Proof.
  unfold key_cmp, cmp_then. destruct (decide (p = q)) as [->|Hne].
  { rewrite !Z.sub_diag. simpl. rewrite (proj2 (str_cmp_zero _ _)) by done.
    unfold chunk_cmp. by rewrite decide_True. }
  destruct (starts_with_digit p && starts_with_digit q) eqn:Hd.
  - apply andb_true_iff in Hd as [Hp Hq]. rewrite !(proj1 (run_class_digit _)) by done. simpl.
    unfold chunk_cmp, run_length, run_body. rewrite decide_False, Hp, Hq by done. simpl.
    destruct (length (strip_zeros p) =? length (strip_zeros q))%nat eqn:El; breflect.
    + rewrite El, Z.sub_diag. simpl. case_decide as Hs; [by rewrite (proj2 (str_cmp_zero _ _))|].
      rewrite <- str_cmp_zero in Hs. rewrite str_lt_cmp. unfold str_cmp in *. by destruct (str_compare _ _).
    + rewrite (proj2 (Z.eqb_neq (Z.of_nat (length (strip_zeros p)) - Z.of_nat (length (strip_zeros q))) 0)) by lia.
      case_match eqn:Hl; breflect; [rewrite Z.sgn_neg | rewrite Z.sgn_pos]; simpl; lia.
  - rewrite chunk_cmp_str by done. destruct (run_class p - run_class q =? 0) eqn:Ec; breflect.
    + assert (starts_with_digit p = false /\ starts_with_digit q = false) as [Hp Hq].
      { pose proof (run_class_digit p). pose proof (run_class_digit q).
        assert (run_class p = run_class q) as Er by lia. rewrite Er in *.
        destruct (starts_with_digit p), (starts_with_digit q); naive_solver. }
      unfold run_length, run_body. by rewrite Hp, Hq.
    + rewrite str_cmp_class by lia. by destruct (run_class p - run_class q).
Qed.

#[export] Instance Comparator_chunk : Comparator chunk_cmp.
Proof. apply (Comparator_sgn _ key_cmp); [apply chunk_cmp_key | apply _]. Qed.

Lemma chunks_cmp_lex x y : chunks_cmp x y = cmp_lex chunk_cmp x y.
Proof. revert y. induction x as [|p x IH]; intros [|q y]; simpl; try done. by rewrite IH. Qed.
#[export] Instance Comparator_chunks : Comparator chunks_cmp.
Proof. apply (Comparator_sgn _ (cmp_lex chunk_cmp)); [intros; by rewrite chunks_cmp_lex | apply _]. Qed.

Section OrderLaws.
Context `{U : Unicode} `{D : DateParse}.

#[export] Instance Comparator_natural : Comparator naturalCompare.
Proof. apply (Comparator_key chunks chunks_cmp), _. Qed.

#[export] Instance Comparator_field f : Comparator (field_cmp f).
Proof.
  destruct f.
  - apply (Comparator_key entry_name naturalCompare), _.
  - apply (Comparator_key (fun e => default 0 (entry_size e)) Z.sub), _.
  - apply (Comparator_key (fun e => ms (entry_modified e)) Z.sub), _.
  - apply (Comparator_sgn _ (fun a b => str_cmp (default [] (entry_mimeType a)) (default [] (entry_mimeType b)))).
    + intros a b. simpl. unfold str_lt, str_cmp. rewrite (str_compare_antisym (default [] (entry_mimeType a))).
      by destruct (str_compare (default [] (entry_mimeType a)) _).
    + apply (Comparator_key (fun e => default [] (entry_mimeType e)) str_cmp), _.
Qed.
#[export] Instance Comparator_entry s : Comparator (entry_cmp s).
Proof.
  unfold entry_cmp. destruct (sort_ascending s); [apply _|]. apply Comparator_opp, _.
Qed.

Lemma filter_app_bool {A} (f : A -> bool) l1 l2 : List.filter f (l1 ++ l2) = List.filter f l1 ++ List.filter f l2.
Proof. apply List.filter_app. Qed.
Lemma filter_split_perm {A} (f : A -> bool) (l : list A) :
  Permutation (List.filter f l ++ List.filter (fun x => negb (f x)) l) l.
Proof.
  induction l as [|x l IH]; simpl; [done|]. destruct (f x); simpl; [by rewrite IH|].
  by rewrite <- Permutation_middle, IH.
Qed.

(** [sortEntries] returns a rearrangement of the listing in which every
    folder precedes every file, each of the two groups is in non-decreasing
    order of the chosen field and direction, and items that compare equal keep
    the order they came in (in each group, for every reference item [y]). *)
Theorem sortEntries_correct (entries : list Entry) (sort : SortOrder) :
  let dirs := List.filter entry_isDir entries in
  let files := List.filter (fun e => negb (entry_isDir e)) entries in
  let sorted := sortEntries entries sort in
  Permutation sorted entries /\
  exists ds fs, sorted = ds ++ fs /\
    Forall (fun e => entry_isDir e = true) ds /\ Forall (fun e => entry_isDir e = false) fs /\
    StronglySorted (fun a b => entry_cmp sort a b <= 0) ds /\
    StronglySorted (fun a b => entry_cmp sort a b <= 0) fs /\
    (forall y, List.filter (fun z => entry_cmp sort y z =? 0) ds = List.filter (fun z => entry_cmp sort y z =? 0) dirs) /\
    (forall y, List.filter (fun z => entry_cmp sort y z =? 0) fs = List.filter (fun z => entry_cmp sort y z =? 0) files).
Proof.
  cbv zeta. split.
  { unfold sortEntries. rewrite !sort_by_perm. apply filter_split_perm. }
  eexists _, _; split; [reflexivity|]. repeat split.
  - apply Forall_forall. intros e. rewrite elem_sort_by, elem_filter_bool. tauto.
  - apply Forall_forall. intros e. rewrite elem_sort_by, elem_filter_bool, negb_true_iff. tauto.
  - apply sort_by_sorted, _.
  - apply sort_by_sorted, _.
  - intros y. apply sort_by_stable, _.
  - intros y. apply sort_by_stable, _.
Qed.
End OrderLaws.

Lemma sortEntries_correct_witness :
  let e n d := {| entry_name := js n; entry_path := js n; entry_isDir := d; entry_size := None; entry_mimeType := None; entry_mode := None;
                  entry_modified := None; entry_created := None; entry_isSymlink := false; entry_symlinkTarget := None; entry_childCount := None |} in
  let l := [e "a10"%string false; e "a9"%string false; e "z"%string true] in
  sortEntries (U := ascii_unicode) (D := fun _ => None) l defaultSort = [e "z"%string true; e "a9"%string false; e "a10"%string false] /\
  Permutation (sortEntries (U := ascii_unicode) (D := fun _ => None) l defaultSort) l.
Proof.
  intros e l. split; [vm_compute; reflexivity|]. exact (proj1 (sortEntries_correct (U := ascii_unicode) (D := fun _ => None) l defaultSort)).
Defined.
