(* ===== verification/ExplorerLogic.v ===== *)
(** * Pure decisions of the explorer

    [features/explorer/rootResolution.ts], [freeSpace.ts], [pasteLogic.ts],
    [selectionLogic.ts], [undoPlan.ts], [batchRename.ts], [metaLogic.ts],
    [reveal.ts], [footerLogic.ts], [compareFiles.ts], [trashRestore.ts],
    [clipboard.ts], [typeFilter.ts], [tagFilter.ts], [rowShape.ts] and
    [paletteLogic.ts]. *)

From Stdlib Require Import ZArith Lia Bool Permutation.
From Stdlib Require List.
From S2P Require Import Prelude JsCollections JsString Json Errors Models Paths Entries.

(** ** The longest match of a loop

    Both [allowedRootForPath] and [driveFor] keep the best candidate so far and
    replace it only by a strictly longer one. *)

Section Longest.
Context {A : Type} (fits : A -> bool) (size : A -> Z).

Definition longest_step (best : option A * Z) (x : A) : option A * Z :=
  if fits x && (best.2 <? size x) then (Some x, size x) else best.
Definition longest (l : list A) : option A := (fold_left longest_step l (None, -1)).1.

Lemma longest_inv l acc :
  (forall x, 0 <= size x) ->
  (match acc.1 with Some x => fits x = true /\ acc.2 = size x | None => acc.2 = -1 end) ->
  let r := fold_left longest_step l acc in
  (match r.1 with Some x => fits x = true /\ r.2 = size x /\ (Some x = acc.1 \/ x ∈ l) | None => acc.1 = None end) /\
  acc.2 <= r.2 /\ (forall y, y ∈ l -> fits y = true -> size y <= r.2).
Proof.
  intros Hs. revert acc. induction l as [|x l IH]; intros [b n] Hacc; simpl in *.
  { split; [|split]; [destruct b; naive_solver | lia | set_solver]. }
  unfold longest_step at 2 4 6 8. simpl. destruct (fits x && (n <? size x)) eqn:E.
  - apply andb_true_iff in E as [Hf Hn]. breflect.
    destruct (IH (Some x, size x)) as (H1 & H2 & H3); [done|]. simpl in *. split; [|split].
    + destruct ((fold_left _ _ _).1) as [z|]; [|done]. split_hyps. repeat split; try done.
      right. set_solver.
    + lia.
    + intros y [->|Hy]%elem_of_cons Hfy; [lia | auto].
  - destruct (IH (b, n)) as (H1 & H2 & H3); [done|]. simpl in *. split; [|split].
    + destruct ((fold_left _ _ _).1) as [z|]; [|done]. split_hyps. repeat split; try done. set_solver.
    + lia.
    + intros y [->|Hy]%elem_of_cons Hfy; [|auto]. rewrite Hfy in E. simpl in E. breflect. lia.
Qed.

Lemma longest_spec l : (forall x, 0 <= size x) ->
  match longest l with
  | Some x => x ∈ l /\ fits x = true /\ forall y, y ∈ l -> fits y = true -> size y <= size x
  | None => forall y, y ∈ l -> fits y = false
  end.
Proof.
  intros Hs. destruct (longest_inv l (None, -1) Hs eq_refl) as (H1 & H2 & H3). unfold longest.
  destruct (fold_left longest_step l (None, -1)) as [[x|] n] eqn:E; simpl in *.
  - destruct H1 as (Hf & -> & [?|Hin]); [done|]. auto.
  - intros y Hy. destruct (fits y) eqn:Hf; [|done]. specialize (H3 y Hy Hf). specialize (Hs y).
    assert (n = -1) as ->; [|lia].
    assert (forall l acc, acc.1 = None -> acc.2 = -1 -> (fold_left longest_step l acc).1 = None ->
              (fold_left longest_step l acc).2 = -1) as Hnone.
    { clear. induction l as [|x l IH]; intros acc H1 H2; simpl; [done|].
      unfold longest_step at 2 4. destruct (fits x && (acc.2 <? size x)); [|auto].
      intros H. exfalso. revert H. generalize (size x) as m. clear. revert x.
      induction l as [|y l IH]; intros x m; simpl; [done|]. unfold longest_step at 2. simpl.
      destruct (_ && _); apply IH. }
    specialize (Hnone l (None, -1) eq_refl eq_refl). rewrite E in Hnone. by apply Hnone.
Qed.
End Longest.

(** ** Shared folders ([rootResolution.ts]) *)

(** [/^[A-Za-z]:\/$/], on the reversed string. *)
Definition is_drive_slash_rev (r : jstr) : bool :=
  match r with [s; c; d] => (s =? slash) && (c =? colon) && is_alpha d | _ => false end.
(** The [while] loop of [normalize], on the reversed string. *)
Fixpoint strip_slashes_rev (r : jstr) : jstr :=
  match r with
  | c :: rest => if (1 <? length r)%nat && (c =? slash) && negb (is_drive_slash_rev r)
                 then strip_slashes_rev rest else r
  | [] => []
  end.

(** [/^[A-Za-z]:[\\/]/]. *)
Definition winPath (p : jstr) : bool :=
  match p with c :: d :: e :: _ => is_alpha c && (d =? colon) && is_sep e | _ => false end.
Definition windowsDriveRoot (p : jstr) : option jstr :=
  match p with
  | c :: d :: e :: _ => if is_alpha c && (d =? colon) && is_sep e then Some [c; d; backslash] else None
  | _ => None
  end.

Inductive RootResolution :=
| denied
| select_root (rootPath : jstr) (initialPath : option jstr)
| roots (rs : list jstr) (unavailablePath : option jstr)
| drives.

Section Roots.
Context `{U : Unicode}.

Definition normalize (windows : bool) (value : jstr) : jstr :=
  let r := reverse (strip_slashes_rev (reverse (replace_char backslash slash value))) in
  if windows then toLowerCase r else r.

(** Whether [path] is [root] or below it. *)
Definition inside_root (windows : bool) (path root : jstr) : bool :=
  let candidate := normalize windows path in
  let nr := normalize windows root in
  let prefix := if ends_with [slash] nr then nr else nr ++ [slash] in
  bool_decide (candidate = nr) ||
  (if bool_decide (nr = [slash]) then starts_with [slash] candidate else starts_with prefix candidate).

Definition allowedRootForPath (rs : list jstr) (path : jstr) (windows : bool) : option jstr :=
  longest (inside_root windows path) (fun root => Z.of_nat (length (normalize windows root))) rs.

Definition resolveRoots (st_roots : list jstr) (accessDenied : bool) (os : option jstr)
    (initialPath : option jstr) : RootResolution :=
  if accessDenied then denied
  else
    let isWindows := bool_decide (default [] (toLowerCase <$> os) = js "windows")
      || match initialPath with Some p => winPath p | None => false end
      || List.existsb winPath st_roots in
    let direct := match initialPath with
      | Some p => match st_roots with
                  | [] => if isWindows then windowsDriveRoot p else Some [slash]
                  | _ => allowedRootForPath st_roots p isWindows
                  end
      | None => None
      end in
    match direct with
    | Some root => select_root root initialPath
    | None => match st_roots with
              | _ :: _ => roots st_roots initialPath
              | [] => if isWindows then drives else select_root [slash] initialPath
              end
    end.
End Roots.

(** ** Free space ([freeSpace.ts]) *)

Section FreeSpace.
Context `{U : Unicode}.

Definition drive_norm (p : jstr) : jstr :=
  toLowerCase (drop_while_end (Z.eqb slash) (replace_char backslash slash p)).
Definition drive_covers (target : jstr) (d : Drive) : bool :=
  let m := drive_norm (drive_path d) in
  bool_decide (m = []) || bool_decide (target = m) || starts_with (m ++ [slash]) target.
Definition driveFor (drives : list Drive) (path : jstr) : option Drive :=
  longest (drive_covers (drive_norm path)) (fun d => Z.of_nat (length (drive_norm (drive_path d)))) drives.

(** [Some (needed, free)] when the files do not fit. *)
Definition uploadSpaceShortfall (drives : list Drive) (destDir : jstr) (neededBytes : Z) : option (Z * Z) :=
  if neededBytes <=? 0 then None
  else
    let drive := driveFor drives destDir in
    match d ← drive; drive_freeBytes d with
    | None => None
    | Some free =>
        let total := default 0 (d ← drive; drive_totalBytes d) in
        if ((free =? 0) && (total =? 0)) || (neededBytes <=? free) then None
        else Some (neededBytes, free)
    end.
End FreeSpace.

(** ** Paste, selection, clipboard *)

Definition pasteSources (paths : list jstr) (dest : jstr) (isCut : bool) : list jstr :=
  if isCut then List.filter (fun p => negb (bool_decide (parentDirOf p = dest))) paths else paths.
Definition path_norm (p : jstr) : jstr := drop_while_end (Z.eqb slash) (replace_char backslash slash p).
(** [true]: a folder would go into itself. *)
Definition destinationProblem (sources : list jstr) (dest : jstr) : bool :=
  let d := path_norm dest in
  List.existsb (fun s => bool_decide (d = path_norm s) || starts_with (path_norm s ++ [slash]) d) sources.
Definition transferFullySucceeded (res : BatchResult) : bool :=
  match batch_failed res with [] => true | _ => false end.

Definition index_in (x : jstr) (l : list jstr) : option nat := find_index (fun y => bool_decide (y = x)) l.
Definition rangePaths (order : list jstr) (anchor : option jstr) (target : jstr) : list jstr :=
  match index_in target order with
  | None => []
  | Some to =>
      match (a ← anchor; index_in a order) with
      | None => [target]
      | Some from => let lo := Nat.min from to in let hi := Nat.max from to in
                     take (S hi - lo) (drop lo order)
      end
  end.
Definition selectedBytes (entries : list Entry) (selected : list jstr) : Z :=
  fold_left (fun sum e => if set_has (entry_path e) selected && negb (entry_isDir e)
                          then sum + default 0 (entry_size e) else sum) entries 0.
Definition pathsText (entries : list Entry) (selected : list jstr) : jstr :=
  join [newline] (entry_path <$> List.filter (fun e => set_has (entry_path e) selected) entries).

Inductive ClipboardMode := clip_copy | clip_cut.
Record FileClipboard := { clip_paths : list jstr; clip_mode : ClipboardMode; clip_hostId : jstr }.
(** The three actions of the in-app clipboard; an empty selection leaves it alone. *)
Inductive ClipAction := do_copy (paths : list jstr) (hostId : jstr) | do_cut (paths : list jstr) (hostId : jstr) | do_clear.
Definition clipboard_step (c : option FileClipboard) (a : ClipAction) : option FileClipboard :=
  match a with
  | do_copy [] _ | do_cut [] _ => c
  | do_copy ps h => Some {| clip_paths := ps; clip_mode := clip_copy; clip_hostId := h |}
  | do_cut ps h => Some {| clip_paths := ps; clip_mode := clip_cut; clip_hostId := h |}
  | do_clear => None
  end.

(** ** Undo ([undoPlan.ts]) *)

Inductive UndoOp :=
| undo_rename (from to : jstr)
| undo_move (groups : list (list jstr * jstr)).   (** paths, destination folder *)

Definition renameUndo (oldPath newPath : jstr) : option UndoOp :=
  if bool_decide (oldPath = newPath) then None else Some (undo_rename newPath oldPath).

Definition undo_groups (moved : list jstr) (destDir : jstr) (sources : list jstr)
    (groups : list (jstr * list jstr)) : list (jstr * list jstr) :=
  fold_left (fun groups src =>
    let from := parentDirOf src in
    if negb (set_has src moved) || bool_decide (from = destDir) then groups
    else map_set from (default [] (map_get from groups) ++ [joinRemotePath destDir (basenameOf src)]) groups)
    sources groups.
Definition moveUndo (sources : list jstr) (destDir : jstr) (results : list BatchItemResult) : option UndoOp :=
  let moved := set_of (item_path <$> List.filter item_ok results) in
  match undo_groups moved destDir sources [] with
  | [] => None
  | groups => Some (undo_move ((fun g => (g.2, g.1)) <$> groups))
  end.

(** ** New names for a multi-selection ([batchRename.ts]) *)

Inductive BatchRenameMode := mode_pattern | mode_findReplace.
Definition NUMBER_PLACEHOLDER : jstr := js "{n}".

Definition splitNameExt (name : jstr) : jstr * jstr :=
  match last_index_of dot name with
  | None | Some O => (name, [])
  | Some d => if (d =? length name - 1)%nat then (name, []) else (take d name, drop d name)
  end.

Definition rename_number (width : nat) (n : Z) : jstr := pad_start width 48 (string_of_Z n).
Definition rename_stem (base number : jstr) : jstr :=
  if includes NUMBER_PLACEHOLDER base then join number (split_str NUMBER_PLACEHOLDER base)
  else (if bool_decide (base = []) then js "file" else base) ++ [space] ++ number.
Definition computeBatchRenames (names : list jstr) (mode : BatchRenameMode) (base : jstr) (startNumber : Z)
    (find replace : jstr) : list jstr :=
  match mode with
  | mode_findReplace => if bool_decide (find = []) then names else (fun n => join replace (split_str find n)) <$> names
  | mode_pattern =>
      let width := length (string_of_Z (startNumber + Z.of_nat (length names) - 1)) in
      imap (fun i name => rename_stem base (rename_number width (startNumber + Z.of_nat i)) ++ (splitNameExt name).2) names
  end.

(** ** Details sheet ([metaLogic.ts]) *)

Definition parseModeBits (mode : option jstr) : list bool :=
  let perms := match mode with
               | Some m => if (10 <=? length m)%nat then take 9 (drop 1 m) else replicate 9 45
               | None => replicate 9 45
               end in
  (fun i => negb (bool_decide (perms !! i = Some 45))) <$> seq 0 9.
Definition bit_at (bits : list bool) (i : nat) : bool := default false (bits !! i).
Definition bitsToOctal (bits : list bool) : jstr :=
  let v := fold_left (fun v i => if bit_at bits i then Z.lor v (Z.shiftl 1 (8 - Z.of_nat i)) else v) (seq 0 9) 0 in
  pad_start 4 48 (nat_to_string 8 v).
Definition bitsToSymbolic (bits : list bool) : jstr :=
  (fun i => if bit_at bits i then default 0 (js "rwxrwxrwx" !! i) else 45) <$> seq 0 9.

(** [archiveName.replace(/\.(tar\.gz|tgz|zip)$/i, '')]. *)
Definition strip_archive_suffix (name : jstr) : jstr :=
  let lower := ascii_lower <$> name in
  if ends_with (js ".tar.gz") lower then take (length name - 7) name
  else if ends_with (js ".tgz") lower || ends_with (js ".zip") lower then take (length name - 4) name
  else name.

Section Meta.
Context `{U : Unicode}.

Definition isExtractableArchive (name : jstr) : bool :=
  let lower := toLowerCase name in
  ends_with (js ".zip") lower || ends_with (js ".tar.gz") lower || ends_with (js ".tgz") lower.

Definition extract_candidate (stem : jstr) (n : nat) : jstr :=
  stem ++ js " (" ++ string_of_Z (Z.of_nat n) ++ js ")".
Fixpoint extract_loop (fuel n : nat) (stem : jstr) (used : list jstr) : jstr :=
  match fuel with
  | O => extract_candidate stem n
  | S f => if set_has (toLowerCase (extract_candidate stem n)) used
           then extract_loop f (S n) stem used else extract_candidate stem n
  end.
Definition extractFolderName (archiveName : jstr) (taken : list jstr) : jstr :=
  let stem0 := trim (strip_archive_suffix archiveName) in
  let stem := if nonempty stem0 then stem0 else js "extracted" in
  let used := set_of (toLowerCase <$> taken) in
  if set_has (toLowerCase stem) used then extract_loop (length used) 1 stem used else stem.

(** [s.replace(/^sha-?256[:=]\s*/i, '')]. *)
Definition strip_hash_prefix (s : jstr) : jstr :=
  let cut k := match drop k s with
               | c :: r => if (c =? colon) || (c =? 61) then Some (drop_while is_space r) else None
               | [] => None
               end in
  let lower := ascii_lower <$> s in
  if starts_with (js "sha256") lower then default s (cut 6%nat)
  else if starts_with (js "sha-256") lower then default s (cut 7%nat) else s.
Definition hashMatches (pasted actual : jstr) : bool :=
  let first := strip_hash_prefix (trim pasted) in
  let candidates := [remove_chars is_space first; take_while (fun c => negb (is_space c)) first] in
  let want := toLowerCase (trim actual) in
  nonempty want && List.existsb (fun c => bool_decide (toLowerCase c = want)) candidates.

(** ** Comparing two files ([compareFiles.ts]) *)

Inductive Verdict := verdict_same | verdict_different | verdict_unknown.
Definition sizeVerdict (a b : Entry) : option Verdict :=
  match entry_size a, entry_size b with
  | Some x, Some y => if x =? y then None else Some verdict_different
  | _, _ => None
  end.
Definition compareVerdict (hashes : list (jstr * jstr)) (pathA pathB : jstr) : Verdict :=
  match toLowerCase <$> map_get pathA hashes, toLowerCase <$> map_get pathB hashes with
  | Some x, Some y => if negb (nonempty x) || negb (nonempty y) then verdict_unknown
                      else if bool_decide (x = y) then verdict_same else verdict_different
  | _, _ => verdict_unknown
  end.
End Meta.

(** ** Reveal, restore, footer, filters *)

Definition parentPathOf (entryPath : jstr) : jstr :=
  let stack := buildPathStack entryPath in
  if (2 <=? length stack)%nat then default [] (stack !! (length stack - 2)%nat) else entryPath.

Inductive RestoreOutcome := restored (name : jstr) (renamed : bool) | restore_failed (error : jstr).
Definition restoreOutcome (itemName : jstr) (r : BatchResult) : RestoreOutcome :=
  match batch_failed r with
  | f :: _ => restore_failed (match item_errorMessage f with
                              | Some m => m
                              | None => default (js "Restore failed") (item_errorCode f) end)
  | [] => match batch_results r with
          | [] => restore_failed (js "Restore failed")
          | d :: _ => let b := basenameOf (item_path d) in
                      let name := if nonempty b then b else itemName in
                      restored name (negb (bool_decide (name = itemName)))
          end
  end.

Inductive FooterKey := key_paste | key_upload | key_new.
Definition footerActions (caps : option Capabilities) (showPaste : bool) : list (FooterKey * bool) :=
  let up := can caps upload in
  let md := can caps modify_cap in
  let paste := showPaste && md in
  let out := if paste then [(key_paste, true)] else if up then [(key_upload, true)] else [] in
  if md then out ++ [(key_new, bool_decide (out = []))] else out.

Definition CATEGORY_ORDER : list EntryCategory :=
  [cat_folder; cat_image; cat_video; cat_audio; cat_document; cat_archive; cat_other].
Definition typeChips (entries : list Entry) : list EntryCategory :=
  let present := set_of (categoryOf <$> entries) in
  if (1 <? length present)%nat then List.filter (fun c => set_has c present) CATEGORY_ORDER else [].
Definition filterByType (entries : list Entry) (category : option EntryCategory) : list Entry :=
  match category with Some c => List.filter (fun e => bool_decide (categoryOf e = c)) entries | None => entries end.
(** A null or empty tag filters nothing. *)
Definition filterByTag (display : list Entry) (activeTag : option jstr) (tagged : list jstr) : list Entry :=
  match activeTag with
  | Some (_ :: _) => List.filter (fun e => set_has (entry_path e) tagged) display
  | _ => display
  end.
(** First and last row of its card. *)
Definition rowShape (entries : list Entry) (i : nat) : bool * bool :=
  match entries !! i with
  | None => (true, true)
  | Some e =>
      if entry_isDir e then (true, true)
      else let edge o := match o with None => true | Some x => entry_isDir x end in
           (edge (match i with O => None | S j => entries !! j end), edge (entries !! S i))
  end.

Section Palette.
Context `{U : Unicode}.
Record PaletteItem := { palette_id : jstr; palette_label : jstr }.
Definition filterPalette (items : list PaletteItem) (query : jstr) : list PaletteItem :=
  let q := toLowerCase (trim query) in
  if bool_decide (q = []) then items
  else List.filter (fun i => includes q (toLowerCase (palette_label i))) items.
Definition normalizeTypedPath (input : jstr) : option jstr :=
  let p := trim input in if bool_decide (p = []) then None else Some p.
End Palette.

(** ** Laws: shared folders *)

Section RootLaws.
Context `{U : Unicode}.

Lemma posix_parts_app a b : posix_parts (a ++ slash :: b) = posix_parts a ++ posix_parts b.
Proof. unfold posix_parts. by rewrite split_on_app, filter_nonempty_app by done. Qed.
Lemma posix_parts_trailing a : posix_parts (a ++ [slash]) = posix_parts a.
Proof. rewrite posix_parts_app. apply app_nil_r. Qed.

(** Containment is by whole components, so [/srv/data2] is not inside [/srv/data]. *)
Lemma inside_root_parts windows path root :
  inside_root windows path root = true ->
  posix_parts (normalize windows root) `prefix_of` posix_parts (normalize windows path).
Proof.
  unfold inside_root. generalize (normalize windows path) as cand, (normalize windows root) as nr.
  intros cand nr [H|H]%orb_true_iff; breflect; [by subst|].
  destruct (decide (nr = [slash])) as [->|Hne]; [apply prefix_nil|].
  rewrite bool_decide_false in H by done.
  apply starts_with_spec in H as [rest ->].
  destruct (ends_with [slash] nr) eqn:E.
  - apply ends_with_spec in E as [a ->]. rewrite <- app_assoc. simpl.
    rewrite posix_parts_trailing, posix_parts_app. by apply prefix_app_r.
  - rewrite <- app_assoc. simpl. rewrite posix_parts_app. by apply prefix_app_r.
Qed.

(** [allowedRootForPath] returns one of the shared folders, the components
    of that folder are a prefix of the components of the path, no shared folder
    that contains the path is deeper, and it returns nothing only when no shared
    folder contains the path. *)
Theorem allowedRootForPath_deepest (rs : list jstr) (path : jstr) (windows : bool) :
  match allowedRootForPath rs path windows with
  | Some root =>
      root ∈ rs /\ inside_root windows path root = true /\
      posix_parts (normalize windows root) `prefix_of` posix_parts (normalize windows path) /\
      forall r, r ∈ rs -> inside_root windows path r = true ->
                (length (normalize windows r) <= length (normalize windows root))%nat
  | None => forall r, r ∈ rs -> inside_root windows path r = false
  end.
Proof.
  pose proof (longest_spec (inside_root windows path)
    (fun root => Z.of_nat (length (normalize windows root))) rs (fun _ => Zle_0_nat _)) as H.
  unfold allowedRootForPath. destruct (longest _ _ rs) as [root|]; [|done].
  destruct H as (H1 & H2 & H3). repeat split; try done; [by apply inside_root_parts|].
  intros r Hr Hin. specialize (H3 r Hr Hin). lia.
Qed.

(** What the Files tab opens: nothing when access is denied; with shared
    folders configured only one of them, and then only for a target path inside
    it; a bare root or the drive list only when no folders are configured. *)
Theorem resolveRoots_confined (st_roots : list jstr) (accessDenied : bool) (os initialPath : option jstr) :
  match resolveRoots st_roots accessDenied os initialPath with
  | denied => accessDenied = true
  | select_root root p =>
      accessDenied = false /\ p = initialPath /\
      (st_roots = [] \/ root ∈ st_roots /\ exists path windows, p = Some path /\ inside_root windows path root = true)
  | roots rs p => accessDenied = false /\ rs = st_roots /\ rs <> [] /\ p = initialPath
  | drives => accessDenied = false /\ st_roots = []
  end.
Proof.
  unfold resolveRoots. destruct accessDenied; [done|].
  set (win := _ || _ || _). destruct initialPath as [p|].
  - destruct st_roots as [|r0 rs]; [destruct win; [destruct (windowsDriveRoot p)|]; naive_solver|].
    pose proof (longest_spec (inside_root win p) (fun root => Z.of_nat (length (normalize win root)))
      (r0 :: rs) (fun _ => Zle_0_nat _)) as H.
    unfold allowedRootForPath. destruct (longest _ _ (r0 :: rs)); naive_solver.
  - destruct st_roots, win; naive_solver.
Qed.
End RootLaws.

(** ** Laws: undo of a move *)

(** A path the explorer builds: a plain name in a canonical folder. *)
Definition item_of (d n : jstr) (p : jstr) : Prop :=
  canonical_dir d = true /\ plain_name n /\ p = joinRemotePath d n.

Definition flat_groups (groups : list (jstr * list jstr)) : list (jstr * jstr) :=
  g ← groups; (fun p => (p, g.1)) <$> g.2.

Lemma flat_groups_set from (q : jstr) (gs : list (jstr * list jstr)) :
  NoDup (keys gs) ->
  Permutation (flat_groups (map_set from (default [] (map_get from gs) ++ [q]) gs)) ((q, from) :: flat_groups gs).
Proof.
  induction gs as [|[k ps] gs IH]; intros Hd; [done|]. simpl in *.
  apply NoDup_cons in Hd as [Hk Hd]. unfold flat_groups in *. case_decide; subst; simpl.
  - rewrite fmap_app. simpl. rewrite <- app_assoc. simpl. by rewrite <- Permutation_middle.
  - rewrite IH by done. by rewrite <- Permutation_middle.
Qed.

Lemma undo_groups_spec moved destDir sources gs :
  NoDup (keys gs) -> Forall (fun g => g.2 <> []) gs ->
  let kept := List.filter (fun s => set_has s moved && negb (bool_decide (parentDirOf s = destDir))) sources in
  let r := undo_groups moved destDir sources gs in
  NoDup (keys r) /\ Forall (fun g => g.2 <> []) r /\
  Permutation (flat_groups r) (((fun s => (joinRemotePath destDir (basenameOf s), parentDirOf s)) <$> kept) ++ flat_groups gs).
Proof.
  revert gs. induction sources as [|s sources IH]; intros gs Hd Hg; simpl; [done|].
  destruct (set_has s moved) eqn:Hm; simpl; [|by apply IH].
  case_bool_decide as Hp; simpl; [by apply IH|].
  destruct (IH (map_set (parentDirOf s) (default [] (map_get (parentDirOf s) gs) ++ [joinRemotePath destDir (basenameOf s)]) gs))
    as (H1 & H2 & H3).
  - by apply NoDup_keys_set.
  - apply Forall_forall. intros [k v] Hin.
    assert (map_get k (map_set (parentDirOf s) (default [] (map_get (parentDirOf s) gs) ++ [joinRemotePath destDir (basenameOf s)]) gs) = Some v) as E
      by (apply elem_map_get; [by apply NoDup_keys_set | done]).
    rewrite map_get_set in E. case_decide; simplify_eq; simpl.
    + by destruct (default [] (map_get (parentDirOf s) gs)).
    + apply map_get_Some_elem in E. rewrite Forall_forall in Hg. by apply (Hg (k, v)).
  - split; [done|]. split; [done|]. etransitivity; [exact H3|].
    rewrite flat_groups_set by done. symmetry. apply Permutation_middle.
Qed.

(** Undoing a move: the plan names each source folder once, its groups are
      not empty, and its steps are exactly one per item that the host reported
      moved out of another folder; running such a step puts the item back under
      the very path it had. *)
Theorem moveUndo_inverts (sources : list jstr) (destDir : jstr) (results : list BatchItemResult)
    (groups : list (list jstr * jstr)) :
  Forall (fun s => exists d n, item_of d n s) sources ->
  moveUndo sources destDir results = Some (undo_move groups) ->
  let moved s := existsb (fun r => item_ok r && bool_decide (item_path r = s)) results in
  let steps := g ← groups; (fun p => (p, g.2)) <$> g.1 in
  NoDup groups.*2 /\ Forall (fun g => g.1 <> []) groups /\
  Permutation steps ((fun s => (joinRemotePath destDir (basenameOf s), parentDirOf s)) <$>
     List.filter (fun s => moved s && negb (bool_decide (parentDirOf s = destDir))) sources) /\
  (forall s, s ∈ sources ->
     joinRemotePath (parentDirOf s) (basenameOf (joinRemotePath destDir (basenameOf s))) = s).
Proof.
  intros Hs. unfold moveUndo. set (mv := set_of _).
  destruct (undo_groups_spec mv destDir sources []) as (H1 & H2 & H3); [apply NoDup_nil_2 | constructor|].
  generalize dependent (undo_groups mv destDir sources []). intros gs H1 H2 H3 Hm.
  assert (groups = (fun g => (g.2, g.1)) <$> gs) as -> by (destruct gs; [done | by injection Hm]).
  rewrite app_nil_r in H3. cbv zeta.
  assert (forall l : list (jstr * list jstr), ((fun g => (g.2, g.1)) <$> l).*2 = keys l) as Hk.
  { intros l. unfold keys. rewrite <- list_fmap_compose. by apply list_fmap_ext. }
  assert (forall l : list (jstr * list jstr),
    (x ← (fun g => (g.2, g.1)) <$> l; (fun p => (p, x.2)) <$> x.1) = flat_groups l) as Hf.
  { clear. intros l. induction l as [|x l IH]; [done|]. csimpl. by rewrite IH. }
  repeat split.
  - by rewrite Hk.
  - rewrite Forall_fmap. eapply Forall_impl; [exact H2|]. done.
  - rewrite Hf, H3. erewrite List.filter_ext; [done|]. intros s. apply (f_equal (fun b => b && _)).
    apply eq_true_iff_eq. rewrite set_has_spec. unfold mv.
    rewrite elem_set_of, list_elem_of_fmap, List.existsb_exists.
    split; [intros (r & -> & Hr) | intros (r & Hr & Ho)].
    + rewrite list_elem_of_In, List.filter_In in Hr. exists r. destruct Hr as [? ->]. by rewrite bool_decide_true.
    + breflect. exists r. rewrite list_elem_of_In, List.filter_In. done.
  - intros s Hin. rewrite Forall_forall in Hs. destruct (Hs s Hin) as (d & n & Hd & Hn & ->).
    rewrite parent_join, (basename_join d n), basename_join by done. done.
Qed.
Lemma moveUndo_inverts_witness :
  let ok p := {| item_path := p; item_ok := true; item_errorCode := None; item_errorMessage := None |} in
  joinRemotePath (js "/a") (basenameOf (joinRemotePath (js "/b") (basenameOf (js "/a/x")))) = js "/a/x" /\
  moveUndo [js "/a/x"] (js "/b") [ok (js "/a/x")] = Some (undo_move [([js "/b/x"], js "/a")]).
Proof.
  intros ok. assert (moveUndo [js "/a/x"] (js "/b") [ok (js "/a/x")] = Some (undo_move [([js "/b/x"], js "/a")])) as E
    by (vm_compute; reflexivity).
  split; [|exact E].
  refine (proj2 (proj2 (proj2 (moveUndo_inverts [js "/a/x"] (js "/b") [ok (js "/a/x")] _ _ E))) (js "/a/x") _).
  - apply Forall_cons; split; [|apply Forall_nil; exact I]. exists (js "/a"), (js "x"). split; [vm_compute; reflexivity|].
    split; [|vm_compute; reflexivity]. apply invalidNameReason_plain. vm_compute. reflexivity.
  - left.
Defined.

(** ** Laws: numbered names *)

Lemma join_inj_sep (n m w w2 : jstr) (ws : list jstr) :
  length n = length m -> forall r1 r2, join n (w :: w2 :: ws) ++ r1 = join m (w :: w2 :: ws) ++ r2 -> n = m.
Proof.
  intros Hl r1 r2 H. change (join n (w :: w2 :: ws)) with (w ++ n ++ join n (w2 :: ws)) in H.
  change (join m (w :: w2 :: ws)) with (w ++ m ++ join m (w2 :: ws)) in H.
  rewrite <- !app_assoc in H. apply app_inv_head in H. by apply app_inj_1 in H as [].
Qed.
Lemma index_of_str_bound p s i : index_of_str p s = Some i -> (i + length p <= length s)%nat.
Proof.
  revert i. induction s as [|c s IH]; intros i; cbn [index_of_str].
  - destruct (starts_with p []) eqn:E; [|done]. intros [= <-].
    apply starts_with_spec in E as [t Ht]. symmetry in Ht. apply app_nil in Ht as [-> _]. simpl. lia.
  - destruct (starts_with p (c :: s)) eqn:E.
    + intros [= <-]. apply starts_with_spec in E as [t ->]. rewrite length_app. lia.
    + destruct (index_of_str p s) as [j|]; [|done]. intros [= <-]. specialize (IH j eq_refl). simpl. lia.
Qed.
Lemma split_str_two sep s : sep <> [] -> includes sep s = true -> exists w w2 ws, split_str sep s = w :: w2 :: ws.
Proof.
  unfold includes, split_str. intros Hs H. destruct (index_of_str sep s) as [i|] eqn:E; [|done].
  pose proof (index_of_str_bound _ _ _ E). destruct sep as [|c sep]; [done|]. destruct s as [|d s]; simpl in *; [lia|].
  cbn [split_str_fuel length]. change (d :: s) with ([d] ++ s). simpl app. rewrite E.
  destruct (split_str_fuel (length s) _ _) eqn:F; [|eauto].
  exfalso. revert F. clear. generalize (length s) as k, (drop (i + length (c :: sep)) (d :: s)) as t.
  intros [|k] t; cbn [split_str_fuel]; [done|]. by case_match.
Qed.

Lemma rename_stem_inj base (n m r1 r2 : jstr) :
  length n = length m -> rename_stem base n ++ r1 = rename_stem base m ++ r2 -> n = m.
Proof.
  intros Hl. unfold rename_stem. destruct (includes NUMBER_PLACEHOLDER base) eqn:E.
  - destruct (split_str_two NUMBER_PLACEHOLDER base ltac:(done) E) as (w & w2 & ws & ->).
    intros H. eapply join_inj_sep; done.
  - rewrite <- !app_assoc. intros H. do 2 apply app_inv_head in H. by apply app_inj_1 in H as [].
Qed.

Lemma nat_of_digits_zeros k s : nat_of_digits (replicate k 48 ++ s) = nat_of_digits s.
Proof. unfold nat_of_digits. rewrite List.fold_left_app. f_equal. induction k as [|k IH]; simpl; [done|]. apply IH. Qed.
Lemma rename_number_inj w n m : 0 <= n -> 0 <= m -> rename_number w n = rename_number w m -> n = m.
Proof.
  unfold rename_number, pad_start. intros Hn Hm H%(f_equal nat_of_digits).
  rewrite !nat_of_digits_zeros in H. unfold string_of_Z in H.
  rewrite !(proj2 (Z.ltb_ge _ _)), !nat_of_digits_string in H by lia. done.
Qed.

(** A shorter decimal numeral is a smaller number. *)
Lemma digits_fuel_length k b n : 2 <= b -> 0 <= n < b ^ Z.of_nat k -> (0 < k)%nat ->
  b ^ (Z.of_nat (length (digits_fuel k b n)) - 1) <= Z.max 1 n < b ^ Z.of_nat (length (digits_fuel k b n)).
Proof.
  intros Hb. revert n. induction k as [|k IH]; intros n Hn Hk; [lia|]. simpl.
  destruct (n <? b) eqn:E; breflect; simpl length; [rewrite Z.sub_diag, Z.pow_0_r, Z.pow_1_r; lia|].
  assert (b ^ Z.of_nat (S k) = b * b ^ Z.of_nat k) as Hp by (rewrite Nat2Z.inj_succ, Z.pow_succ_r; lia).
  assert (0 <= n / b < b ^ Z.of_nat k) as Hd.
  { split; [apply Z.div_pos; lia | apply Z.div_lt_upper_bound; lia]. }
  assert (1 <= n / b) by (apply Z.div_le_lower_bound; lia).
  assert (0 < k)%nat by (destruct k; [simpl in Hd; lia | lia]).
  destruct (IH (n / b) Hd ltac:(lia)) as [H1 H2]. rewrite Z.max_r in H1, H2 by lia.
  set (l := Z.of_nat (length (digits_fuel k b (n / b)))) in *.
  rewrite Nat2Z.inj_succ. fold l. rewrite Z.pow_succ_r by lia. rewrite Z.max_r by lia.
  replace (Z.succ l - 1) with (Z.succ (l - 1)) by lia.
  pose proof (Z.div_mod n b ltac:(lia)) as Hm. pose proof (Z.mod_pos_bound n b ltac:(lia)).
  assert (0 < l) by (unfold l; destruct k; [lia|]; simpl; case_match; simpl; lia).
  rewrite Z.pow_succ_r by lia. nia.
Qed.
Lemma string_of_Z_length_mono n m : 0 <= n <= m -> (length (string_of_Z n) <= length (string_of_Z m))%nat.
Proof.
  intros H. unfold string_of_Z. rewrite !(proj2 (Z.ltb_ge _ _)) by lia.
  unfold nat_to_string. rewrite !length_fmap, !length_reverse.
  pose proof (digits_fuel_length (S (Z.to_nat (Z.log2 n))) 10 n ltac:(lia) (conj (proj1 H) (log2_bound 10 n ltac:(lia) ltac:(lia))) ltac:(lia)) as [A1 A2].
  pose proof (digits_fuel_length (S (Z.to_nat (Z.log2 m))) 10 m ltac:(lia) (conj (Z.le_trans _ _ _ (proj1 H) (proj2 H)) (log2_bound 10 m ltac:(lia) ltac:(lia))) ltac:(lia)) as [B1 B2].
  set (a := length (digits_fuel _ _ n)) in *. set (b := length (digits_fuel _ _ m)) in *.
  destruct (decide (a <= b)%nat); [done|]. exfalso.
  assert (10 ^ Z.of_nat b <= 10 ^ (Z.of_nat a - 1)) by (apply Z.pow_le_mono_r; lia). lia.
Qed.

(** Renaming a selection by pattern gives one new name per item and no two
      items the same name, whatever the base, so the batch never asks the host for
      colliding targets. *)
Theorem computeBatchRenames_distinct (names : list jstr) (base find replace : jstr) (startNumber : Z) :
  0 <= startNumber ->
  let out := computeBatchRenames names mode_pattern base startNumber find replace in
  length out = length names /\ NoDup out.
Proof.
  intros Hs. cbn -[Z.of_nat string_of_Z]. split; [apply length_imap|].
  set (width := length (string_of_Z (startNumber + Z.of_nat (length names) - 1))).
  apply NoDup_alt. intros i j x Hi Hj. rewrite list_lookup_imap in Hi, Hj.
  destruct (names !! i) as [a|] eqn:Ea; [|done]. destruct (names !! j) as [b|] eqn:Eb; [|done].
  simpl in Hi, Hj. injection Hi as <-. injection Hj as Hj.
  apply lookup_lt_Some in Ea, Eb.
  assert (forall k, (k < length names)%nat -> length (rename_number width (startNumber + Z.of_nat k)) = width) as Hw.
  { intros k Hk. unfold rename_number, pad_start. rewrite length_app, length_replicate.
    pose proof (string_of_Z_length_mono (startNumber + Z.of_nat k) (startNumber + Z.of_nat (length names) - 1) ltac:(lia)).
    fold width in H. lia. }
  apply rename_stem_inj in Hj; [|by rewrite !Hw]. apply rename_number_inj in Hj; lia.
Qed.
Lemma computeBatchRenames_distinct_witness :
  let out := computeBatchRenames [js "a.txt"; js "b.txt"] mode_pattern (js "img-{n}") 9 [] [] in
  out = [js "img-09.txt"; js "img-10.txt"] /\ NoDup out.
Proof.
  split; [vm_compute; reflexivity|].
  exact (proj2 (computeBatchRenames_distinct [js "a.txt"; js "b.txt"] (js "img-{n}") [] [] 9 ltac:(lia))).
Defined.

(** ** Laws: permission bits *)

Definition octal_value (s : jstr) : Z := fold_left (fun n c => 8 * n + (c - 48)) s 0.

(** The nine permission flags survive both texts the details sheet shows:
      reading back the symbolic form gives the flags, and the four octal digits
      denote the number whose bits are the flags, owner-read highest. *)
Theorem mode_bits_roundtrip (bits : list bool) (kind : jchar) :
  length bits = 9%nat ->
  parseModeBits (Some (kind :: bitsToSymbolic bits)) = bits /\
  length (bitsToOctal bits) = 4%nat /\
  (forall i, (i < 9)%nat -> Some (Z.testbit (octal_value (bitsToOctal bits)) (8 - Z.of_nat i)) = bits !! i).
Proof.
  intros Hl. do 9 (destruct bits as [|? bits]; [done|]). destruct bits; [|done]. clear Hl.
  split; [|split]; [repeat match goal with b : bool |- _ => destruct b end; reflexivity .. | ].
  intros i Hi. do 9 (destruct i as [|i];
    [repeat match goal with b : bool |- _ => destruct b end; vm_compute; reflexivity|]). lia.
Qed.
Lemma mode_bits_roundtrip_witness :
  let bits := [true; true; true; true; false; true; true; false; false] in
  bitsToOctal bits = js "0754" /\ parseModeBits (Some (js "-rwxr-xr--")) = bits.
Proof.
  intros bits. split; [vm_compute; reflexivity|].
  exact (proj1 (mode_bits_roundtrip bits 45 eq_refl)).
Defined.

(** ** Laws: extracting into a free folder *)

Section ExtractLaws.
Context `{U : Unicode}.

Lemma extract_lower stem n : toLowerCase (extract_candidate stem n) =
  toLowerCase stem ++ js " (" ++ string_of_Z (Z.of_nat n) ++ js ")".
Proof.
  unfold extract_candidate. change (js " (") with (space :: js "("). cbn [app].
  rewrite lower_app_space. f_equal.
  pose proof (string_of_Z_digits (Z.of_nat n) ltac:(lia)) as Hd.
  assert (forall c, is_digit c = true -> is_ascii c = true /\ ascii_lower c = c) as Hc.
  { intros c. unfold is_digit, is_ascii, ascii_lower, is_upper. intros; breflect.
    split; [apply andb_true_iff; rewrite !Z.leb_le; lia|]. case_match; breflect; lia. }
  rewrite lower_ascii.
  - rewrite fmap_cons, !fmap_app. change (ascii_lower space) with space. do 2 f_equal. f_equal.
    rewrite <- (list_fmap_id (string_of_Z _)) at 2. apply Forall_fmap_ext_1.
    eapply Forall_impl; [exact Hd|]. intros c H. by apply Hc.
  - rewrite Forall_cons, !Forall_app. repeat split; [repeat constructor| |repeat constructor].
    eapply Forall_impl; [exact Hd|]. intros c H. by apply Hc.
Qed.
Lemma extract_lower_inj stem n m :
  toLowerCase (extract_candidate stem n) = toLowerCase (extract_candidate stem m) -> n = m.
Proof.
  rewrite !extract_lower. intros H. do 2 apply app_inv_head in H. apply app_inv_tail in H.
  apply string_of_Z_inj in H; lia.
Qed.

Lemma extract_loop_spec fuel n stem used :
  exists k, extract_loop fuel n stem used = extract_candidate stem (n + k) /\ (k <= fuel)%nat /\
    (forall j, (j < k)%nat -> toLowerCase (extract_candidate stem (n + j)) ∈ used) /\
    ((k < fuel)%nat -> toLowerCase (extract_candidate stem (n + k)) ∉ used).
Proof.
  revert n. induction fuel as [|f IH]; intros n; simpl.
  { exists 0%nat. rewrite Nat.add_0_r. repeat split; [lia | intros; lia | lia]. }
  destruct (set_has _ used) eqn:E.
  - apply set_has_spec in E. destruct (IH (S n)) as (k & -> & Hk & H1 & H2). exists (S k).
    rewrite Nat.add_succ_comm in *. repeat split; [lia| |intros; apply H2; lia].
    intros [|j] Hj; [by rewrite Nat.add_0_r|]. rewrite <- Nat.add_succ_comm. apply H1. lia.
  - apply set_has_false in E. exists 0%nat. rewrite Nat.add_0_r. repeat split; [lia | intros; lia | done].
Qed.

Lemma extract_loop_fresh stem used :
  toLowerCase stem ∈ used -> toLowerCase (extract_loop (length used) 1 stem used) ∉ used.
Proof.
  intros Hs. destruct (extract_loop_spec (length used) 1 stem used) as (k & -> & Hk & H1 & H2).
  destruct (decide (k < length used)%nat) as [|Hn]; [auto|]. exfalso.
  assert (k = length used) as -> by lia.
  set (cands := toLowerCase stem :: ((fun j => toLowerCase (extract_candidate stem (1 + j))) <$> seq 0 (length used))).
  assert (NoDup cands) as Hnd.
  { apply NoDup_cons; split.
    - intros (j & Hj & _)%list_elem_of_fmap. rewrite extract_lower in Hj.
      apply (f_equal length) in Hj. rewrite !length_app in Hj. simpl in Hj. lia.
    - apply NoDup_fmap_2_strong; [|apply NoDup_seq]. intros x y _ _ Hxy.
      apply extract_lower_inj in Hxy. lia. }
  assert (cands ⊆ used) as Hsub.
  { intros x [->|Hx]%elem_of_cons; [done|]. apply list_elem_of_fmap in Hx as (j & -> & Hj).
    apply elem_of_seq in Hj. apply H1. lia. }
  apply NoDup_ListNoDup in Hnd.
  pose proof (List.NoDup_incl_length (l := cands) (l' := used) Hnd) as Hlen.
  assert (length cands = S (length used)) by (unfold cands; simpl; by rewrite length_fmap, length_seq).
  enough (length cands <= length used)%nat by lia. apply Hlen.
  intros x Hx%list_elem_of_In. apply list_elem_of_In. by apply Hsub.
Qed.

(** The folder an archive is extracted into is free on a host that ignores
    case: the search for a suffix ends, and the name it ends with differs from
    every name taken in the folder even after lowering both. *)
Theorem extractFolderName_fresh (archiveName : jstr) (taken : list jstr) (n : jstr) :
  n ∈ taken -> toLowerCase (extractFolderName archiveName taken) <> toLowerCase n.
Proof.
  intros Hn. assert (toLowerCase n ∈ set_of (toLowerCase <$> taken)) as Hu.
  { rewrite elem_set_of. by apply list_elem_of_fmap_2. }
  unfold extractFolderName. cbv zeta.
  generalize dependent (set_of (toLowerCase <$> taken)). intros used Hu.
  generalize (if nonempty (trim (strip_archive_suffix archiveName)) then trim (strip_archive_suffix archiveName)
              else js "extracted") as stem. intros stem.
  destruct (set_has (toLowerCase stem) used) eqn:E; intros Heq.
  - apply set_has_spec in E. apply (extract_loop_fresh stem used E). by rewrite Heq.
  - apply set_has_false in E. apply E. by rewrite Heq.
Qed.
End ExtractLaws.
Lemma extractFolderName_fresh_witness :
  @extractFolderName ascii_unicode (js "Photos.tar.gz") [js "photos"; js "PHOTOS (1)"] = js "Photos (2)" /\
  @toLowerCase ascii_unicode (@extractFolderName ascii_unicode (js "Photos.tar.gz") [js "photos"; js "PHOTOS (1)"])
    <> @toLowerCase ascii_unicode (js "photos").
Proof.
  split; [vm_compute; reflexivity|].
  apply (@extractFolderName_fresh ascii_unicode (js "Photos.tar.gz") [js "photos"; js "PHOTOS (1)"]). left.
Defined.

(** ** Laws: range selection *)

Lemma index_in_Some x l i : index_in x l = Some i -> l !! i = Some x.
Proof. intros (y & Hy & E)%find_index_Some. breflect. by subst. Qed.
Lemma index_in_None x l : index_in x l = None <-> x ∉ l.
Proof.
  unfold index_in. rewrite find_index_None, Forall_forall. split.
  - intros H Hin. specialize (H x Hin). by rewrite bool_decide_true in H.
  - intros H y Hy. apply bool_decide_eq_false. by intros ->.
Qed.

(** Shift-selecting picks a contiguous run of the rows on screen: with an
      anchor that is on screen the run has the anchor and the target as its two
      ends, without one it is the target alone, and a target that is not on
      screen selects nothing. *)
Theorem rangePaths_run (order : list jstr) (anchor : option jstr) (target : jstr) :
  let r := rangePaths order anchor target in
  (exists before after, order = before ++ r ++ after) /\
  (target ∉ order -> r = []) /\
  (target ∈ order -> target ∈ r /\
     match anchor with
     | Some a => if decide (a ∈ order)
                 then head r = Some a /\ last r = Some target \/ head r = Some target /\ last r = Some a
                 else r = [target]
     | None => r = [target]
     end).
Proof.
  cbv zeta. unfold rangePaths. destruct (index_in target order) as [to|] eqn:Et.
  2:{ split; [by exists [], order|]. split; [done|]. intros H. by apply index_in_None in Et. }
  apply index_in_Some in Et.
  assert (target ∈ order) as Hin by (by eapply list_elem_of_lookup_2).
  assert (exists before after, order = before ++ [target] ++ after) as Hone.
  { exists (take to order), (drop (S to) order). simpl. symmetry. by apply take_drop_middle. }
  destruct (anchor ≫= fun a => index_in a order) as [from|] eqn:Ea.
  - destruct anchor as [a|]; [|done]. simpl in Ea. apply index_in_Some in Ea.
    assert (a ∈ order) as Hia by (by eapply list_elem_of_lookup_2).
    rewrite decide_True by done. set (lo := Nat.min from to). set (hi := Nat.max from to).
    assert (hi < length order)%nat as Hhi.
    { apply lookup_lt_Some in Et, Ea. unfold hi. lia. }
    assert (forall i, (lo <= i <= hi)%nat -> take (S hi - lo) (drop lo order) !! (i - lo)%nat = order !! i) as Hl.
    { intros i Hi. rewrite lookup_take_lt by lia. rewrite lookup_drop. f_equal. lia. }
    split; [|split; [done|]].
    + exists (take lo order), (drop (S hi) order).
      rewrite <- (take_drop lo order) at 1. f_equal.
      rewrite <- (take_drop (S hi - lo) (drop lo order)) at 1. f_equal. rewrite drop_drop. f_equal. unfold lo, hi. lia.
    + intros _. split.
      { apply (list_elem_of_lookup_2 _ (to - lo)%nat). rewrite Hl by (unfold lo, hi; lia). done. }
      assert (length (take (S hi - lo) (drop lo order)) = S hi - lo)%nat as Hlen
        by (rewrite length_take, length_drop; unfold lo, hi in *; lia).
      assert (head (take (S hi - lo) (drop lo order)) = order !! lo) as Hh.
      { rewrite head_lookup, <- (Hl lo) by (unfold lo, hi; lia). f_equal. lia. }
      assert (last (take (S hi - lo) (drop lo order)) = order !! hi) as Hla.
      { rewrite last_lookup, Hlen, <- (Hl hi) by (unfold lo, hi; lia). f_equal. unfold lo, hi. lia. }
      rewrite Hh, Hla. unfold lo, hi. destruct (decide (from <= to)%nat).
      * left. by rewrite Nat.min_l, Nat.max_r by lia.
      * right. by rewrite Nat.min_r, Nat.max_l by lia.
  - split; [done|]. split; [done|]. intros _. split; [left|].
    destruct anchor as [a|]; [|done]. simpl in Ea. apply index_in_None in Ea. by rewrite decide_False.
Qed.

Lemma resolveRoots_confined_witness :
  resolveRoots (U := ascii_unicode) [js "/home/me"] false (Some (js "linux")) (Some (js "/home/me/docs"))
    = select_root (js "/home/me") (Some (js "/home/me/docs")) /\ js "/home/me" ∈ [js "/home/me"].
Proof.
  pose proof (resolveRoots_confined (U := ascii_unicode) [js "/home/me"] false (Some (js "linux")) (Some (js "/home/me/docs"))) as H.
  destruct (resolveRoots (U := ascii_unicode) [js "/home/me"] false (Some (js "linux")) (Some (js "/home/me/docs"))) eqn:E;
    vm_compute in E; try discriminate E. injection E as <- <-. destruct H as (_ & _ & [H|[H _]]); [discriminate H|]. split; [reflexivity | exact H].
Defined.
