(* ===== verification/Explorer.v ===== *)
(** * The explorer state machine

    [features/explorer/explorerStore.ts].  The store's state is one record; the
    asynchronous methods are cut at their [await]s, so a pending call is a
    [Task] that resumes when the promise it waits for settles.  A user action or
    the settling of one pending task is an [Event]; [step] runs the code from one
    suspension point to the next.  Any interleaving of events is a run, so the
    invariant below speaks about overlapping loads in any order. *)

From Stdlib Require Import ZArith Lia Bool Permutation.
From Stdlib Require List.
From S2P Require Import Prelude JsCollections JsString Json Errors Models Paths Entries ExplorerLogic.

(** ** State *)

Record ExplorerState := {
  pathStack : list jstr;
  entries : list Entry;
  loading : bool;
  loadingMore : bool;
  loadMoreError : option jstr;
  error : option jstr;
  errorCode : option jstr;
  selected : list jstr;
  anchor : option jstr;
  stale : bool;
  offline : bool;
  nextCursor : option jstr;
  showHidden : bool
}.

Definition currentPath (s : ExplorerState) : jstr := default [] (last (pathStack s)).
Definition atRoot (s : ExplorerState) : bool := (length (pathStack s) =? 1)%nat.
Definition multiSelect (s : ExplorerState) : bool := negb (bool_decide (selected s = [])).

Definition initial_state (rootPath : jstr) : ExplorerState := {|
  pathStack := [rootPath]; entries := []; loading := false; loadingMore := false; loadMoreError := None;
  error := None; errorCode := None; selected := []; anchor := None; stale := false; offline := false;
  nextCursor := None; showHidden := false |}.

Section Display.
Context `{U : Unicode} `{D : DateParse}.

Record Display := { d_sorted : list Entry; d_hidden : list jstr; d_display : list Entry; d_hiddenCount : nat }.
Definition deriveDisplay (es : list Entry) (show : bool) (sort : SortOrder) (vis : VisibilityPrefs) : Display :=
  let sorted := sortEntries es sort in
  let hidden := set_of (entry_path <$> List.filter (fun e => isEntryHidden e vis) sorted) in
  {| d_sorted := sorted; d_hidden := hidden;
     d_display := if show then sorted else List.filter (fun e => negb (set_has (entry_path e) hidden)) sorted;
     d_hiddenCount := length hidden |}.
End Display.

(** [set({ pathStack })] and the other partial updates. *)
Definition set_pathStack (ps : list jstr) (s : ExplorerState) : ExplorerState := {|
  pathStack := ps; entries := entries s; loading := loading s; loadingMore := loadingMore s;
  loadMoreError := loadMoreError s; error := error s; errorCode := errorCode s; selected := selected s;
  anchor := anchor s; stale := stale s; offline := offline s; nextCursor := nextCursor s; showHidden := showHidden s |}.
Definition set_selection (sel : list jstr) (a : option jstr) (s : ExplorerState) : ExplorerState := {|
  pathStack := pathStack s; entries := entries s; loading := loading s; loadingMore := loadingMore s;
  loadMoreError := loadMoreError s; error := error s; errorCode := errorCode s; selected := sel;
  anchor := a; stale := stale s; offline := offline s; nextCursor := nextCursor s; showHidden := showHidden s |}.
Definition set_showHidden (b : bool) (s : ExplorerState) : ExplorerState := {|
  pathStack := pathStack s; entries := entries s; loading := loading s; loadingMore := loadingMore s;
  loadMoreError := loadMoreError s; error := error s; errorCode := errorCode s; selected := selected s;
  anchor := anchor s; stale := stale s; offline := offline s; nextCursor := nextCursor s; showHidden := b |}.

(** The [set] calls of [load]: a cached listing is shown first ... *)
Definition show_cached (es : list Entry) (s : ExplorerState) : ExplorerState := {|
  pathStack := pathStack s; entries := es; loading := false; loadingMore := false;
  loadMoreError := None; error := None; errorCode := errorCode s; selected := []; anchor := None;
  stale := true; offline := false; nextCursor := None; showHidden := showHidden s |}.
(** ... or the listing is awaited, without the rows of another folder ... *)
Definition show_waiting (other : bool) (s : ExplorerState) : ExplorerState := {|
  pathStack := pathStack s; entries := if other then [] else entries s; loading := true; loadingMore := false;
  loadMoreError := None; error := None; errorCode := None; selected := []; anchor := None;
  stale := if other then false else stale s; offline := if other then false else offline s;
  nextCursor := None; showHidden := showHidden s |}.
(** ... then the live listing, or its failure. *)
Definition show_listing (l : Listing) (s : ExplorerState) : ExplorerState := {|
  pathStack := pathStack s; entries := listing_entries l; loading := false; loadingMore := loadingMore s;
  loadMoreError := loadMoreError s; error := None; errorCode := None; selected := selected s; anchor := anchor s;
  stale := false; offline := false; nextCursor := listing_nextCursor l; showHidden := showHidden s |}.
Definition show_offline (s : ExplorerState) : ExplorerState := {|
  pathStack := pathStack s; entries := entries s; loading := false; loadingMore := loadingMore s;
  loadMoreError := loadMoreError s; error := error s; errorCode := errorCode s; selected := selected s;
  anchor := anchor s; stale := true; offline := true; nextCursor := nextCursor s; showHidden := showHidden s |}.
Definition show_error (msg : jstr) (code : option jstr) (s : ExplorerState) : ExplorerState := {|
  pathStack := pathStack s; entries := entries s; loading := false; loadingMore := loadingMore s;
  loadMoreError := loadMoreError s; error := Some msg; errorCode := code; selected := selected s;
  anchor := anchor s; stale := stale s; offline := offline s; nextCursor := nextCursor s; showHidden := showHidden s |}.
(** The [set] calls of [loadMore]. *)
Definition more_start (s : ExplorerState) : ExplorerState := {|
  pathStack := pathStack s; entries := entries s; loading := loading s; loadingMore := true;
  loadMoreError := None; error := error s; errorCode := errorCode s; selected := selected s;
  anchor := anchor s; stale := stale s; offline := offline s; nextCursor := nextCursor s; showHidden := showHidden s |}.
Definition more_done (merged : list Entry) (c : option jstr) (s : ExplorerState) : ExplorerState := {|
  pathStack := pathStack s; entries := merged; loading := loading s; loadingMore := false;
  loadMoreError := loadMoreError s; error := error s; errorCode := errorCode s; selected := selected s;
  anchor := anchor s; stale := stale s; offline := offline s; nextCursor := c; showHidden := showHidden s |}.
Definition more_failed (msg : jstr) (s : ExplorerState) : ExplorerState := {|
  pathStack := pathStack s; entries := entries s; loading := loading s; loadingMore := false;
  loadMoreError := Some msg; error := error s; errorCode := errorCode s; selected := selected s;
  anchor := anchor s; stale := stale s; offline := offline s; nextCursor := nextCursor s; showHidden := showHidden s |}.

(** ** Requests, operations, pending tasks *)

Record CollisionOpts := { co_sources : option (list jstr); co_duplicate : bool; co_overwrite : bool }.

(** What is sent to the agent. *)
Inductive Request :=
| R_list (path : jstr) (cursor : option jstr)
| R_createFolder (path : jstr)
| R_createFile (path : jstr)
| R_rename (from to : jstr)
| R_delete (paths : list jstr) (permanent : bool)
| R_move (paths : list jstr) (destDir : jstr) (o : CollisionOpts)
| R_copy (paths : list jstr) (destDir : jstr) (o : CollisionOpts)
| R_compress (paths : list jstr) (dest : jstr)
| R_extract (archive destDir : jstr).
Definition no_opts : CollisionOpts := {| co_sources := None; co_duplicate := false; co_overwrite := false |}.

(** A method suspended in [await deps.getClient()], with what it captured before. *)
Inductive Op :=
| op_createFolder (target : jstr) (open : bool)
| op_createFile (name : jstr)
| op_rename (oldPath newName : jstr)
| op_delete (permanent : bool)
| op_move (destDir : jstr) (o : CollisionOpts)
| op_copy (destDir : jstr) (o : CollisionOpts)
| op_compress (dest : jstr) (sources : option (list jstr))
| op_extract (archive : jstr) (destDir : option jstr)
| op_undo (u : UndoOp).

Inductive Task :=
| LoadCache (gen : nat) (path : jstr)
| LoadClient (gen : nat) (path : jstr) (cached : bool)
| LoadList (gen : nat) (path : jstr) (cached : bool)
| MoreClient (gen : nat) (path cursor : jstr)
| MoreList (gen : nat) (path cursor : jstr)
| PutCache (path : jstr) (es : list Entry)
| OpClient (op : Op)
| OpCall (opens : option jstr)                               (** the single request of an operation *)
| UndoRename
| UndoMoves (rest : list (list jstr * jstr)) (refused : nat).  (** a group in flight, the rest to go *)

(** How the awaited promise settles. *)
Inductive Outcome :=
| O_client                           (** the client is ready *)
| O_cached                           (** the cache was read *)
| O_listing (l : Listing)
| O_done                             (** the request succeeded (or the cache write did) *)
| O_batch (failed : nat)             (** a batch request answered, with that many failures *)
| O_failed (e : jserror).

Record System := {
  st : ExplorerState;
  generation : nat;
  shownPath : option jstr;           (** the folder [entries] belongs to *)
  cache : list (jstr * list Entry);  (** stored listings of this host, by path *)
  tasks : list Task;
  sent : list Request;
  thrown : list jserror              (** rejections the caller of an operation sees *)
}.
Definition initial (rootPath : jstr) (c : list (jstr * list Entry)) : System := {|
  st := initial_state rootPath; generation := 0; shownPath := None; cache := c; tasks := []; sent := []; thrown := [] |}.

Definition upd (s : ExplorerState) (y : System) : System := {|
  st := s; generation := generation y; shownPath := shownPath y; cache := cache y; tasks := tasks y;
  sent := sent y; thrown := thrown y |}.
Definition set_shown (p : jstr) (y : System) : System := {|
  st := st y; generation := generation y; shownPath := Some p; cache := cache y; tasks := tasks y;
  sent := sent y; thrown := thrown y |}.
Definition spawn (t : Task) (y : System) : System := {|
  st := st y; generation := generation y; shownPath := shownPath y; cache := cache y; tasks := tasks y ++ [t];
  sent := sent y; thrown := thrown y |}.
Definition send (r : Request) (y : System) : System := {|
  st := st y; generation := generation y; shownPath := shownPath y; cache := cache y; tasks := tasks y;
  sent := sent y ++ [r]; thrown := thrown y |}.
Definition reject (e : jserror) (y : System) : System := {|
  st := st y; generation := generation y; shownPath := shownPath y; cache := cache y; tasks := tasks y;
  sent := sent y; thrown := thrown y ++ [e] |}.
Definition store (p : jstr) (es : list Entry) (y : System) : System := {|
  st := st y; generation := generation y; shownPath := shownPath y; cache := map_set p es (cache y);
  tasks := tasks y; sent := sent y; thrown := thrown y |}.
Definition bump (y : System) : System := {|
  st := st y; generation := S (generation y); shownPath := shownPath y; cache := cache y; tasks := tasks y;
  sent := sent y; thrown := thrown y |}.
Definition retire (i : nat) (y : System) : System := {|
  st := st y; generation := generation y; shownPath := shownPath y; cache := cache y;
  tasks := take i (tasks y) ++ drop (S i) (tasks y); sent := sent y; thrown := thrown y |}.

(** ** Code between suspension points *)

(** [load()] up to its first [await]. *)
Definition load (y : System) : System :=
  let y' := bump y in spawn (LoadCache (generation y') (currentPath (st y'))) y'.

(** [loadMore(o)] up to its first [await]. *)
Definition loadMore (retry : bool) (y : System) : System :=
  let s := st y in
  match nextCursor s with
  | None => y
  | Some c =>
      if loading s || loadingMore s then y
      else if is_some (loadMoreError s) && negb retry then y
      else let y' := bump y in
           spawn (MoreClient (generation y') (currentPath s) c) (upd (more_start s) y')
  end.

Inductive Action :=
| a_load
| a_loadMore (retry : bool)
| a_navigate (path : jstr)
| a_popDirectory
| a_navigateTo (index : nat)
| a_jumpTo (path : jstr)
| a_toggleShowHidden
| a_toggleSelect (path : jstr)
| a_selectRange (displayed : list Entry) (to : jstr)
| a_clearSelection
| a_selectAll (displayed : list Entry)
| a_invertSelection (displayed : list Entry)
| a_createFolder (name : jstr) (open : bool)
| a_createFile (name : jstr)
| a_rename (oldPath newName : jstr)
| a_deleteSelected (permanent : bool)
| a_moveSelected (destDir : jstr) (o : CollisionOpts)
| a_copySelected (destDir : jstr) (o : CollisionOpts)
| a_duplicateSelected
| a_compressSelected (dest : jstr) (sources : option (list jstr))
| a_extractArchive (archive : jstr) (destDir : option jstr)
| a_undo (u : UndoOp).

Section Machine.
Context `{U : Unicode}.
Context (rootPath : jstr) (humanize : jserror -> jstr).

Definition go_to (ps : list jstr) (y : System) : System := load (upd (set_pathStack ps (st y)) y).

Definition act (a : Action) (y : System) : System :=
  let s := st y in
  match a with
  | a_load => load y
  | a_loadMore retry => loadMore retry y
  | a_navigate path => go_to (pathStack s ++ [path]) y
  | a_popDirectory => if atRoot s then y else go_to (removelast (pathStack s)) y
  | a_navigateTo index => if (length (pathStack s) <=? index)%nat then y else go_to (take (S index) (pathStack s)) y
  | a_jumpTo path => go_to (buildPathStackWithinRoot rootPath path) y
  | a_toggleShowHidden => upd (set_showHidden (negb (showHidden s)) s) y
  | a_toggleSelect path =>
      if set_has path (selected s) then upd (set_selection (set_delete path (selected s)) None s) y
      else upd (set_selection (set_add path (selected s)) (Some path) s) y
  | a_selectRange displayed to =>
      match rangePaths (entry_path <$> displayed) (anchor s) to with
      | [] => y
      | range => upd (set_selection (set_of (selected s ++ range)) (Some to) s) y
      end
  | a_clearSelection => upd (set_selection [] None s) y
  | a_selectAll displayed => upd (set_selection (set_of (entry_path <$> displayed)) None s) y
  | a_invertSelection displayed =>
      let all := set_of (entry_path <$> displayed) in
      upd (set_selection (set_of (List.filter (fun p => negb (set_has p (selected s))) all)) None s) y
  | a_createFolder name open => spawn (OpClient (op_createFolder (joinRemotePath (currentPath s) name) open)) y
  | a_createFile name => spawn (OpClient (op_createFile name)) y
  | a_rename oldPath newName =>
      match invalidNameReason newName with
      | Some bad => reject (PlainError bad) y
      | None => spawn (OpClient (op_rename oldPath newName)) y
      end
  | a_deleteSelected permanent => spawn (OpClient (op_delete permanent)) y
  | a_moveSelected destDir o => spawn (OpClient (op_move destDir o)) y
  | a_copySelected destDir o => spawn (OpClient (op_copy destDir o)) y
  | a_duplicateSelected =>
      spawn (OpClient (op_copy (currentPath s) {| co_sources := None; co_duplicate := true; co_overwrite := false |})) y
  | a_compressSelected dest sources => spawn (OpClient (op_compress dest sources)) y
  | a_extractArchive archive destDir => spawn (OpClient (op_extract archive destDir)) y
  | a_undo u => spawn (OpClient (op_undo u)) y
  end.

(** The message of a partly refused undo. *)
Definition undo_refused (n : nat) : jserror :=
  PlainError (string_of_Z (Z.of_nat n) ++
    js " could not go back: a file with that name already exists there, or it was changed since").

(** The next group of an undone move, or its end: the [finally] reloads either way. *)
Definition undo_next (rest : list (list jstr * jstr)) (refused : nat) (y : System) : System :=
  match rest with
  | (paths, destDir) :: rest' => spawn (UndoMoves rest' refused) (send (R_move paths destDir no_opts) y)
  | [] => load (if (0 <? refused)%nat then reject (undo_refused refused) y else y)
  end.

(** The request of an operation once the client is ready; selection and folder are read now. *)
Definition op_start (op : Op) (y : System) : System :=
  let s := st y in
  let call opens r := spawn (OpCall opens) (send r y) in
  match op with
  | op_createFolder target open => call (if open then Some target else None) (R_createFolder target)
  | op_createFile name => call None (R_createFile (joinRemotePath (currentPath s) name))
  | op_rename oldPath newName => call None (R_rename oldPath (renameDestination oldPath newName))
  | op_delete permanent => call None (R_delete (selected s) permanent)
  | op_move destDir o => call None (R_move (default (selected s) (co_sources o)) destDir o)
  | op_copy destDir o => call None (R_copy (default (selected s) (co_sources o)) destDir o)
  | op_compress dest sources => call None (R_compress (default (selected s) sources) dest)
  | op_extract archive destDir => call None (R_extract archive (default (currentPath s) destDir))
  | op_undo (undo_rename from to) => spawn UndoRename (send (R_rename from to) y)
  | op_undo (undo_move groups) => undo_next groups 0 y
  end.

(** Resume task [t] (already taken off the list) with the outcome it awaited. *)
Definition resume (t : Task) (o : Outcome) (y : System) : option System :=
  let s := st y in
  let stale_gen gen := negb (gen =? generation y)%nat in
  match t, o with
  | LoadCache gen path, (O_cached | O_failed _) =>
      let hit := match o with O_cached => map_get path (cache y) | _ => None end in
      Some (if stale_gen gen then y
            else match hit with
                 | Some es => spawn (LoadClient gen path true) (upd (show_cached es s) (set_shown path y))
                 | None => spawn (LoadClient gen path false)
                             (upd (show_waiting (negb (bool_decide (shownPath y = Some path))) s) y)
                 end)
  | LoadClient gen path cached, O_client =>
      Some (if stale_gen gen then y else spawn (LoadList gen path cached) (send (R_list path None) y))
  | LoadList gen path cached, O_listing l =>
      Some (if stale_gen gen then y
            else spawn (PutCache path (listing_entries l)) (upd (show_listing l s) (set_shown path y)))
  | (LoadClient gen _ cached | LoadList gen _ cached), O_failed e =>
      Some (if stale_gen gen then y
            else upd (if cached then show_offline s else show_error (humanize e) (errCode e) s) y)
  | MoreClient gen path c, O_client =>
      Some (if stale_gen gen then y else spawn (MoreList gen path c) (send (R_list path (Some c)) y))
  | MoreList gen path _, O_listing l =>
      let merged := entries s ++ listing_entries l in
      Some (if stale_gen gen then y
            else spawn (PutCache path merged) (upd (more_done merged (listing_nextCursor l) s) y))
  | (MoreClient gen _ _ | MoreList gen _ _), O_failed e =>
      Some (if stale_gen gen then y else upd (more_failed (humanize e) s) y)
  | PutCache path es, O_done => Some (store path es y)
  | PutCache _ _, O_failed _ => Some y
  | OpClient op, O_client => Some (op_start op y)
  | OpCall opens, (O_done | O_batch _) =>
      Some (match opens with Some target => go_to (pathStack s ++ [target]) y | None => load y end)
  | (OpClient _ | OpCall _), O_failed e => Some (reject e y)
  | UndoRename, O_done => Some (load y)
  | UndoMoves rest refused, O_batch n => Some (undo_next rest (refused + n) y)
  | (UndoRename | UndoMoves _ _), O_failed e => Some (load (reject e y))
  | _, _ => None
  end.

Inductive Event := user (a : Action) | settle (i : nat) (o : Outcome).

Definition step (ev : Event) (y : System) : option System :=
  match ev with
  | user a => Some (act a y)
  | settle i o => t ← tasks y !! i; resume t o (retire i y)
  end.
Definition run (evs : list Event) (y : System) : option System :=
  fold_left (fun m ev => y ← m; step ev y) evs (Some y).
End Machine.

(** ** What the host promises about listings *)

(** [answers p c l]: the host may answer [list(p, { cursor: c })] with [l].
    [rows p es c]: [es] are rows of folder [p] that a request with cursor [c]
    continues ([None]: nothing is claimed about what follows). *)
Class ListingContract := {
  answers : jstr -> option jstr -> Listing -> Prop;
  rows : jstr -> list Entry -> option jstr -> Prop;
  rows_first : forall p l, answers p None l -> rows p (listing_entries l) (listing_nextCursor l);
  rows_next : forall p es c l, rows p es (Some c) -> answers p (Some c) l ->
    rows p (es ++ listing_entries l) (listing_nextCursor l);
  rows_forget : forall p es c, rows p es c -> rows p es None
}.

(** A host whose folder [p] is paged as [pages p]; the cursor of page [k] is [mark k]. *)
Section Paged.
Context (pages : jstr -> list (list Entry)) (mark : nat -> jstr).
Context (mark_inj : forall i j, mark i = mark j -> i = j).

Definition page_answer (p : jstr) (c : option jstr) (l : Listing) : Prop :=
  exists k, (c = None /\ k = 0%nat \/ c = Some (mark k) /\ (0 < k)%nat) /\
    pages p !! k = Some (listing_entries l) /\
    listing_nextCursor l = (if (S k <? length (pages p))%nat then Some (mark (S k)) else None).
(** The first [k] pages, for some [k]; a cursor names the page after them. *)
Definition page_rows (p : jstr) (es : list Entry) (c : option jstr) : Prop :=
  exists k, es = concat (take k (pages p)) /\ (k <= length (pages p))%nat /\ forall m, c = Some m -> m = mark k.

Lemma page_step p k es : pages p !! k = Some es ->
  concat (take k (pages p)) ++ es = concat (take (S k) (pages p)).
Proof. intros H. rewrite (take_S_r _ _ _ H), concat_app. simpl. by rewrite app_nil_r. Qed.

Program Definition paged_contract : ListingContract := {| answers := page_answer; rows := page_rows |}.
Next Obligation.
  intros p l (k & [[_ ->]|[? _]] & Hp & Hc); [|done]. exists 1%nat. split; [|split].
  - by rewrite <- (page_step p 0 _ Hp).
  - apply lookup_lt_Some in Hp. lia.
  - intros m Hm. rewrite Hc in Hm. case_match; naive_solver.
Qed.
Next Obligation.
  intros p es c l (k & -> & Hk & Hc) (j & [[? _]|[Hj _]] & Hp & Hn); [done|]. injection Hj as ->.
  specialize (Hc _ eq_refl). apply mark_inj in Hc as ->. exists (S k). split; [|split].
  - by apply page_step.
  - apply lookup_lt_Some in Hp. lia.
  - intros m Hm. rewrite Hn in Hm. case_match; naive_solver.
Qed.
Next Obligation. intros p es c (k & H1 & H2 & _). by exists k. Qed.
End Paged.

(** ** The invariant *)

Definition task_gen (t : Task) : option nat :=
  match t with
  | LoadCache g _ | LoadClient g _ _ | LoadList g _ _ | MoreClient g _ _ | MoreList g _ _ => Some g
  | _ => None
  end.
Definition task_path (t : Task) : option jstr :=
  match t with
  | LoadCache _ p | LoadClient _ p _ | LoadList _ p _ | MoreClient _ p _ | MoreList _ p _ => Some p
  | _ => None
  end.
Definition task_cursor (t : Task) : option jstr :=
  match t with MoreClient _ _ c | MoreList _ _ c => Some c | _ => None end.

(** No cache lookup of the current load is pending. *)
Definition settled (y : System) : Prop := forall p, LoadCache (generation y) p ∉ tasks y.
Definition no_live (y : System) : Prop := forall t, t ∈ tasks y -> task_gen t <> Some (generation y).

Section Invariant.
Context `{U : Unicode} `{H : ListingContract}.
Context (rootPath : jstr) (humanize : jserror -> jstr).

(** Listings answer what was asked. *)
Definition honest (ev : Event) (y : System) : Prop :=
  match ev with
  | settle i (O_listing l) =>
      match tasks y !! i with
      | Some (LoadList _ p _) => answers p None l
      | Some (MoreList _ p c) => answers p (Some c) l
      | _ => True
      end
  | _ => True
  end.
(** The next page is not asked for while the current load still reads the cache. *)
Definition calm (ev : Event) (y : System) : Prop :=
  match ev with user (a_loadMore _) => settled y | _ => True end.

Inductive reachable : System -> Prop :=
| reach_init c : (forall p es, map_get p c = Some es -> rows p es None) -> reachable (initial rootPath c)
| reach_step y ev y' : reachable y -> calm ev y -> honest ev y -> step rootPath humanize ev y = Some y' -> reachable y'.

Record Base (y : System) : Prop := {
  b_root : exists tl, pathStack (st y) = rootPath :: tl;
  b_gens : forall t g, t ∈ tasks y -> task_gen t = Some g -> (g <= generation y)%nat;
  b_unique : NoDup (omap task_gen (tasks y));
  b_rows : entries (st y) = [] \/ exists p c, shownPath y = Some p /\ rows p (entries (st y)) c;
  b_cache : forall p es, map_get p (cache y) = Some es -> rows p es None;
  b_puts : forall p es, PutCache p es ∈ tasks y -> rows p es None
}.
Record Inv (y : System) : Prop := {
  i_base : Base y;
  i_path : forall t, t ∈ tasks y -> task_gen t = Some (generation y) -> task_path t = Some (currentPath (st y));
  i_here : settled y -> shownPath y = Some (currentPath (st y)) \/ entries (st y) = [];
  i_cursor : settled y -> forall c, nextCursor (st y) = Some c ->
    shownPath y = Some (currentPath (st y)) /\ rows (currentPath (st y)) (entries (st y)) (Some c);
  i_more : forall t c, t ∈ tasks y -> task_gen t = Some (generation y) -> task_cursor t = Some c ->
    nextCursor (st y) = Some c
}.

(** Same rows, cursor and folder, whatever else changes in the state. *)
Lemma Base_upd s y : Base y -> (exists tl, pathStack s = rootPath :: tl) -> entries s = entries (st y) -> Base (upd s y).
Proof. intros [] Hp He. split; simpl; rewrite ?He; auto. Qed.
Lemma Inv_upd s y : Inv y -> pathStack s = pathStack (st y) -> entries s = entries (st y) ->
  nextCursor s = nextCursor (st y) -> Inv (upd s y).
Proof.
  intros [B] Hp He Hc.
  assert (currentPath s = currentPath (st y)) as Hcur by (unfold currentPath; by rewrite Hp).
  split; unfold settled in *; simpl; rewrite ?He, ?Hc, ?Hcur; auto.
  apply Base_upd; [done | rewrite Hp; apply B | done].
Qed.
Lemma Inv_send r y : Inv y -> Inv (send r y).
Proof. intros [[]]. split; [split|..]; done. Qed.
Lemma Inv_reject e y : Inv y -> Inv (reject e y).
Proof. intros [[]]. split; [split|..]; done. Qed.
Lemma Base_reject e y : Base y -> Base (reject e y).
Proof. intros []. split; done. Qed.

Lemma omap_snoc t (l : list Task) : omap task_gen (l ++ [t]) =
  omap task_gen l ++ match task_gen t with Some g => [g] | None => [] end.
Proof. rewrite omap_app. simpl. by destruct (task_gen t). Qed.

(** A task that carries no generation: a cache write, or an operation. *)
Lemma Inv_spawn_other t y : Inv y -> task_gen t = None ->
  (forall p es, t = PutCache p es -> rows p es None) -> Inv (spawn t y).
Proof.
  intros [[] Hpath Hhere Hcur Hmore] Ht Hput.
  assert (settled (spawn t y) -> settled y) as Hset.
  { intros Hs p Hin. apply (Hs p). simpl. set_solver. }
  split; [split|..]; simpl; auto.
  - intros t' g [Hin| ->]%elem_snoc Hg; [eauto | congruence].
  - by rewrite omap_snoc, Ht, app_nil_r.
  - intros p es [Hin|E]%elem_snoc; eauto.
  - intros t' [Hin| ->]%elem_snoc Hg; [auto | congruence].
  - intros t' c [Hin| ->]%elem_snoc Hg; [eauto | congruence].
Qed.

(** Starting a load needs only the base: the new generation silences all others. *)
Lemma Inv_load y : Base y -> Inv (load y).
Proof.
  intros []. assert (forall t, t ∈ tasks y -> task_gen t <> Some (S (generation y))) as Hnew.
  { intros t Hin Hg. specialize (b_gens0 _ _ Hin Hg). lia. }
  split; [split|..]; simpl; auto.
  - intros t g [Hin| ->]%elem_snoc Hg; [specialize (b_gens0 _ _ Hin Hg); lia | naive_solver lia].
  - rewrite omap_snoc. simpl. apply NoDup_app. repeat split; [done| |apply NoDup_singleton].
    intros g Hg ->%list_elem_of_singleton. apply list_elem_of_omap in Hg as (t & Hin & Hg). by apply (Hnew t).
  - intros p es [Hin|E]%elem_snoc; [eauto | done].
  - intros t [Hin| ->]%elem_snoc Hg; [by apply Hnew in Hg | done].
  - intros Hs. exfalso. apply (Hs (currentPath (st y))). apply elem_snoc. by right.
  - intros Hs. exfalso. apply (Hs (currentPath (st y))). apply elem_snoc. by right.
  - intros t c [Hin| ->]%elem_snoc Hg; [by apply Hnew in Hg | done].
Qed.
Lemma Inv_go_to ps y : Base y -> (exists tl, ps = rootPath :: tl) -> Inv (go_to ps y).
Proof. intros HB Hps. apply Inv_load, Base_upd; done. Qed.

(** *** Taking a settled task off the list *)

Lemma elem_retire t i y : t ∈ tasks (retire i y) -> t ∈ tasks y.
Proof.
  simpl. rewrite elem_of_app. intros [Hin|Hin].
  - eapply elem_of_take in Hin as (j & Hj & _). by eapply list_elem_of_lookup_2.
  - apply list_elem_of_lookup in Hin as [j Hj]. rewrite lookup_drop in Hj. by eapply list_elem_of_lookup_2.
Qed.
Lemma retire_split i y t : tasks y !! i = Some t ->
  omap task_gen (tasks y) ≡ₚ match task_gen t with Some g => [g] | None => [] end ++ omap task_gen (tasks (retire i y)).
Proof.
  intros Ht. rewrite <- (take_drop_middle _ _ _ Ht) at 1. simpl. rewrite !omap_app. simpl.
  destruct (task_gen t); simpl; [|done]. by rewrite <- Permutation_middle.
Qed.
Lemma Base_retire i y t : Base y -> tasks y !! i = Some t -> Base (retire i y).
Proof.
  intros [] Ht. split; simpl; eauto using elem_retire.
  - intros t' g Hin. apply b_gens0. by apply (elem_retire _ i).
  - rewrite (retire_split i y t Ht), NoDup_app in b_unique0. apply b_unique0.
  - intros p es Hin. apply b_puts0. by apply (elem_retire _ i).
Qed.
Lemma no_live_retire i y t : Base y -> tasks y !! i = Some t -> task_gen t = Some (generation y) -> no_live (retire i y).
Proof.
  intros [] Ht Hg t' Hin Hg'. rewrite (retire_split i y t Ht), Hg in b_unique0. simpl in *.
  apply NoDup_cons in b_unique0 as [Hn _]. apply Hn, list_elem_of_omap. eauto.
Qed.
Lemma Inv_retire i y t : Inv y -> tasks y !! i = Some t ->
  (forall p, t <> LoadCache (generation y) p) -> Inv (retire i y).
Proof.
  intros [HB Hpath Hhere Hcur Hmore] Ht Hne.
  assert (settled (retire i y) -> settled y) as Hset.
  { intros Hs p Hin. apply (Hs p). simpl. apply list_elem_of_lookup in Hin as [j Hj].
    destruct (decide (j = i)) as [->|Hji]; [rewrite Ht in Hj; injection Hj as ->; by destruct (Hne p)|].
    apply elem_of_app. destruct (decide (j < i)%nat).
    - left. apply (list_elem_of_lookup_2 _ j). by rewrite lookup_take_lt.
    - right. apply (list_elem_of_lookup_2 _ (j - S i)%nat). rewrite lookup_drop. by replace (S i + (j - S i))%nat with j by lia. }
  split; simpl; auto.
  - by eapply Base_retire.
  - intros t' Hin. apply Hpath. by apply (elem_retire _ i).
  - intros t' c Hin. apply Hmore. by apply (elem_retire _ i).
Qed.

(** *** Showing rows when nothing else is live *)

Lemma Inv_quiet y : Base y -> no_live y ->
  (shownPath y = Some (currentPath (st y)) \/ entries (st y) = []) ->
  (forall c, nextCursor (st y) = Some c ->
     shownPath y = Some (currentPath (st y)) /\ rows (currentPath (st y)) (entries (st y)) (Some c)) -> Inv y.
Proof. intros HB Hn Hh Hc. split; auto; intros t; [|intros c]; intros Hin Hg; by destruct (Hn t Hin). Qed.

Lemma Inv_spawn_live t y : Inv y -> no_live y -> task_gen t = Some (generation y) ->
  task_path t = Some (currentPath (st y)) -> (forall p, t <> LoadCache (generation y) p) ->
  (forall c, task_cursor t = Some c -> nextCursor (st y) = Some c) -> Inv (spawn t y).
Proof.
  intros [[] Hpath Hhere Hcur Hmore] Hn Hg Hp Hne Hc.
  assert (settled y) as Hs by (intros p Hin; by apply (Hn _ Hin)).
  split; [split|..]; simpl; auto.
  - intros t' g [Hin| ->]%elem_snoc Hg'; [eauto|]. assert (g = generation y) by congruence. lia.
  - rewrite omap_snoc, Hg. apply NoDup_app. repeat split; [done| |apply NoDup_singleton].
    intros g Hin ->%list_elem_of_singleton. apply list_elem_of_omap in Hin as (t' & Hin & Hg'). by apply (Hn t').
  - intros p es [Hin|E]%elem_snoc; [eauto|]. subst t. done.
  - intros t' [Hin| ->]%elem_snoc; auto.
  - intros t' c [Hin| ->]%elem_snoc; eauto.
Qed.

(** The rows of the current folder are put on screen. *)
Lemma Base_show s p y : Base y -> pathStack s = pathStack (st y) -> (exists c, rows p (entries s) c) ->
  Base (upd s (set_shown p y)).
Proof. intros [] Hp [c Hr]. split; simpl; rewrite ?Hp; eauto. Qed.
Lemma Base_clear s y : Base y -> pathStack s = pathStack (st y) -> entries s = [] -> Base (upd s y).
Proof. intros [] Hp He. split; simpl; rewrite ?Hp; auto. Qed.
Lemma Inv_show s y : Base y -> no_live y -> pathStack s = pathStack (st y) ->
  rows (currentPath (st y)) (entries s) (nextCursor s) -> Inv (upd s (set_shown (currentPath (st y)) y)).
Proof.
  intros HB Hn Hp Hr. assert (currentPath s = currentPath (st y)) as Hc by (unfold currentPath; by rewrite Hp).
  apply Inv_quiet; simpl; rewrite ?Hc; auto; [apply Base_show; eauto|].
  intros c E. rewrite E in Hr. done.
Qed.

(** *** Every step keeps the invariant *)

Lemma root_app (l : list jstr) x : (exists tl, l = rootPath :: tl) -> exists tl, l ++ x = rootPath :: tl.
Proof. intros [tl ->]. by exists (tl ++ x). Qed.

Lemma Inv_loadMore r y : Inv y -> settled y -> Inv (loadMore r y).
Proof.
  intros HI Hs. unfold loadMore. destruct (nextCursor (st y)) as [c|] eqn:E; [|done].
  repeat (case_match; [done|]). destruct HI as [HB Hpath Hhere Hcur Hmore].
  destruct (Hcur Hs c E) as [Hsh Hr].
  assert (no_live (upd (more_start (st y)) (bump y))) as Hn.
  { intros t Hin Hg. simpl in *. destruct HB. specialize (b_gens0 _ _ Hin Hg). lia. }
  apply Inv_spawn_live; try done; [|intros c' [= <-]; done].
  apply Inv_quiet; simpl; auto.
  destruct HB. split; simpl; auto. intros t g Hin Hg. specialize (b_gens0 _ _ Hin Hg). lia.
Qed.

Lemma Inv_act a y : Inv y -> calm (user a) y -> Inv (act rootPath a y).
Proof.
  intros HI Hcalm. pose proof (i_base _ HI) as HB. destruct (b_root _ HB) as [tl Htl]. destruct a; simpl in *.
  - by apply Inv_load.
  - by apply Inv_loadMore.
  - apply Inv_go_to; [done|]. apply root_app. eauto.
  - case_match eqn:E; [done|]. apply Inv_go_to; [done|]. unfold atRoot in E. rewrite Htl in *.
    destruct tl; [done|]. simpl. eauto.
  - case_match; [done|]. apply Inv_go_to; [done|]. rewrite Htl. simpl. eauto.
  - apply Inv_go_to; [done|]. unfold buildPathStackWithinRoot. case_match; eauto.
  - by apply Inv_upd.
  - case_match; by apply Inv_upd.
  - case_match; [done|]. by apply Inv_upd.
  - by apply Inv_upd.
  - by apply Inv_upd.
  - by apply Inv_upd.
  - by apply Inv_spawn_other.
  - by apply Inv_spawn_other.
  - case_match; [by apply Inv_reject | by apply Inv_spawn_other].
  - by apply Inv_spawn_other.
  - by apply Inv_spawn_other.
  - by apply Inv_spawn_other.
  - by apply Inv_spawn_other.
  - by apply Inv_spawn_other.
  - by apply Inv_spawn_other.
  - by apply Inv_spawn_other.
Qed.

Lemma Inv_undo_next rest n y : Inv y -> Inv (undo_next rest n y).
Proof.
  intros HI. destruct rest as [|[paths dest] rest]; simpl.
  - apply Inv_load. case_match; [apply Base_reject|]; apply HI.
  - apply Inv_spawn_other; [by apply Inv_send|done|done].
Qed.
Lemma Inv_op_start op y : Inv y -> Inv (op_start op y).
Proof.
  intros HI. destruct op as [| | | | | | | |[]]; simpl;
    try (apply Inv_spawn_other; [by apply Inv_send|done|done]). by apply Inv_undo_next.
Qed.

(** One lemma per suspension point of [load] and [loadMore]: the task is live. *)
Lemma Inv_cache_hit gen path es y : Base y -> no_live y -> gen = generation y -> path = currentPath (st y) ->
  rows path es None -> Inv (spawn (LoadClient gen path true) (upd (show_cached es (st y)) (set_shown path y))).
Proof.
  intros HB Hn -> -> Hr. apply Inv_spawn_live; try done. by apply Inv_show.
Qed.
Lemma Inv_cache_miss gen path y : Base y -> no_live y -> gen = generation y -> path = currentPath (st y) ->
  Inv (spawn (LoadClient gen path false) (upd (show_waiting (negb (bool_decide (shownPath y = Some path))) (st y)) y)).
Proof.
  intros HB Hn -> ->. apply Inv_spawn_live; try done. case_bool_decide as Hs; simpl.
  - apply Inv_quiet; [|done| |done]; [apply Base_upd; [done|apply HB|done] | by left].
  - apply Inv_quiet; [|done| |done]; [by apply Base_clear | by right].
Qed.
Lemma Inv_listing path l y : Base y -> no_live y -> path = currentPath (st y) -> answers path None l ->
  Inv (spawn (PutCache path (listing_entries l)) (upd (show_listing l (st y)) (set_shown path y))).
Proof.
  intros HB Hn -> Ha%rows_first. apply Inv_spawn_other; [|done|].
  - by apply Inv_show.
  - intros ? ? [= <- <-]. by eapply rows_forget.
Qed.
Lemma Inv_page path c l y : Inv y -> no_live y -> path = currentPath (st y) -> nextCursor (st y) = Some c ->
  answers path (Some c) l ->
  Inv (spawn (PutCache path (entries (st y) ++ listing_entries l))
         (upd (more_done (entries (st y) ++ listing_entries l) (listing_nextCursor l) (st y)) y)).
Proof.
  intros HI Hn -> Hc Ha. destruct (i_cursor _ HI ltac:(intros p Hin; by apply (Hn _ Hin)) c Hc) as [Hs Hr].
  pose proof (rows_next _ _ _ _ Hr Ha) as Hr'.
  apply Inv_spawn_other; [|done|].
  - assert (forall s, upd s y = upd s (set_shown (currentPath (st y)) y)) as ->.
    { intros s. unfold upd, set_shown. simpl. by rewrite Hs. }
    by apply Inv_show; [apply HI|..].
  - intros ? ? [= <- <-]. by eapply rows_forget.
Qed.

Lemma Inv_store p es y : Inv y -> rows p es None -> Inv (store p es y).
Proof.
  intros [[] ? ? ? ?] Hr. split; [split|..]; simpl; auto.
  intros p' es'. rewrite map_get_set. case_decide; naive_solver.
Qed.

Lemma Inv_resume i t o y y' : Inv y -> tasks y !! i = Some t -> honest (settle i o) y ->
  resume humanize t o (retire i y) = Some y' -> Inv y'.
Proof.
  intros HI Ht Hh Hr. pose proof (i_base _ HI) as HB.
  pose proof (Base_retire i y t HB Ht) as HBz. pose proof (no_live_retire i y t HB Ht) as Hlz.
  assert (t ∈ tasks y) as Hin by (by eapply list_elem_of_lookup_2).
  pose proof (i_path _ HI t Hin) as Hp. pose proof (fun c => i_more _ HI t c Hin) as Hm.
  pose proof (Inv_retire i y t HI Ht) as Hz. simpl in Hh. rewrite Ht in Hh.
  assert (forall gen, negb (gen =? generation y)%nat = false -> gen = generation y) as Heq by (intros; breflect; done).
  destruct t; simpl in *.
  - assert (negb (gen =? generation y)%nat = true -> Inv (retire i y)) as Hstale.
    { intros Hg. apply Hz. intros q [= -> ->]. breflect. done. }
    destruct o; try done; destruct (negb (gen =? generation y)%nat) eqn:Eg; injection Hr as <-; auto;
      apply Heq in Eg as ->; specialize (Hp eq_refl); injection Hp as ->.
    + case_match eqn:Em; [apply (Inv_cache_hit _ _ _ (retire i y)); auto; by apply (b_cache _ HB)|].
      by apply (Inv_cache_miss _ _ (retire i y)); auto.
    + by apply (Inv_cache_miss _ _ (retire i y)); auto.
  - specialize (Hz ltac:(done)). destruct o; try done; destruct (negb (gen =? generation y)%nat) eqn:Eg; injection Hr as <-; auto;
      apply Heq in Eg as ->; specialize (Hp eq_refl); injection Hp as ->.
    + apply Inv_spawn_live; auto using Inv_send; done.
    + case_match; by apply Inv_upd.
  - specialize (Hz ltac:(done)). destruct o; try done; destruct (negb (gen =? generation y)%nat) eqn:Eg; injection Hr as <-; auto;
      apply Heq in Eg as ->; specialize (Hp eq_refl); injection Hp as ->.
    + apply (Inv_listing _ _ (retire i y)); auto.
    + case_match; by apply Inv_upd.
  - specialize (Hz ltac:(done)). destruct o; try done; destruct (negb (gen =? generation y)%nat) eqn:Eg; injection Hr as <-; auto;
      apply Heq in Eg as ->; specialize (Hp eq_refl); injection Hp as ->.
    + apply Inv_spawn_live; auto using Inv_send; done.
    + by apply Inv_upd.
  - specialize (Hz ltac:(done)). destruct o; try done; destruct (negb (gen =? generation y)%nat) eqn:Eg; injection Hr as <-; auto;
      apply Heq in Eg as ->; specialize (Hp eq_refl); injection Hp as ->.
    + eapply (Inv_page _ _ _ (retire i y)); eauto.
    + by apply Inv_upd.
  - specialize (Hz ltac:(done)). destruct o; try done; injection Hr as <-; [|done].
    apply Inv_store; [done|]. by apply (b_puts _ HB).
  - specialize (Hz ltac:(done)). destruct o; try done; injection Hr as <-; [by apply Inv_op_start | by apply Inv_reject].
  - specialize (Hz ltac:(done)). destruct o; try done; injection Hr as <-; [..|by apply Inv_reject];
      (case_match; [apply Inv_go_to; [done|]; apply root_app, HB | by apply Inv_load]).
  - specialize (Hz ltac:(done)). destruct o; try done; injection Hr as <-; apply Inv_load; [done | by apply Base_reject].
  - specialize (Hz ltac:(done)). destruct o; try done; injection Hr as <-; [by apply Inv_undo_next|].
    by apply Inv_load, Base_reject.
Qed.

Lemma Inv_initial c : (forall p es, map_get p c = Some es -> rows p es None) -> Inv (initial rootPath c).
Proof.
  intros Hc. split; [split|..]; simpl; try (intros; set_solver).
  apply NoDup_nil_2.
Qed.

Lemma Inv_reachable y : reachable y -> Inv y.
Proof.
  induction 1 as [c Hc|y ev y' _ IH Hcalm Hh Hs]; [by apply Inv_initial|].
  destruct ev as [a|i o]; simpl in Hs; [injection Hs as <-; by apply Inv_act|].
  destruct (tasks y !! i) as [t|] eqn:Et; [|done]. by eapply Inv_resume.
Qed.

(** A sequence of events, each honest and calm where it happens. *)
Fixpoint trace_ok (evs : list Event) (y : System) : Prop :=
  match evs with
  | [] => True
  | ev :: r => calm ev y /\ honest ev y /\
               match step rootPath humanize ev y with Some y' => trace_ok r y' | None => False end
  end.
Lemma trace_cons ev r y y' : step rootPath humanize ev y = Some y' -> calm ev y -> honest ev y ->
  trace_ok r y' -> trace_ok (ev :: r) y.
Proof. intros E. simpl. rewrite E. auto. Qed.

Lemma run_snoc evs ev y : run rootPath humanize (evs ++ [ev]) y = y1 ← run rootPath humanize evs y; step rootPath humanize ev y1.
Proof. unfold run. by rewrite fold_left_app. Qed.
Lemma run_cons ev evs y y' : step rootPath humanize ev y = Some y' -> run rootPath humanize (ev :: evs) y = run rootPath humanize evs y'.
Proof. intros E. unfold run. cbn. by rewrite E. Qed.
(** At every step of a trace the listing answers what was asked, and a page is only asked for
    with no cache lookup of the current load pending. *)
Lemma trace_prefix evs y : trace_ok evs y -> forall pre ev post y1, evs = pre ++ ev :: post -> run rootPath humanize pre y = Some y1 ->
  honest ev y1 /\ (forall retry, ev = user (a_loadMore retry) -> settled y1).
Proof.
  revert y. induction evs as [|e evs IH]; intros y Ht pre ev post y1 E Hr; [by destruct pre|]. destruct Ht as (Hc & Hh & Ht).
  destruct pre as [|e' pre]; cbn in E; injection E as -> E.
  - injection Hr as <-. split; [done|]. by intros retry ->.
  - destruct (step rootPath humanize e' y) as [y2|] eqn:Es; [|done]. rewrite (run_cons _ _ _ _ Es) in Hr. by apply (IH y2 Ht pre ev post).
Qed.
Lemma run_reachable c evs y : (forall p es, map_get p c = Some es -> rows p es None) -> run rootPath humanize evs (initial rootPath c) = Some y ->
  (forall pre ev post y1, evs = pre ++ ev :: post -> run rootPath humanize pre (initial rootPath c) = Some y1 ->
     honest ev y1 /\ (forall retry, ev = user (a_loadMore retry) -> settled y1)) -> reachable y.
Proof.
  intros Hc. revert y. induction evs as [|ev evs IH] using rev_ind; intros y Hr Hok; [injection Hr as <-; by constructor|].
  rewrite run_snoc in Hr. destruct (run rootPath humanize evs (initial rootPath c)) as [y1|] eqn:E; [|done]. cbn in Hr.
  destruct (Hok evs ev [] y1 eq_refl E) as [Hh Hm]. eapply reach_step; [| | exact Hh | exact Hr].
  - apply IH; [done|]. intros pre ev' post y2 -> Hr2. apply (Hok pre ev' (post ++ [ev])); [by rewrite <- app_assoc | done].
  - destruct ev as [[]|]; try done. by eapply Hm.
Qed.


(** A reply to a load that a newer load or page request has overtaken changes
    nothing: not the screen, not the folder shown, not the cache, not the
    requests sent; it only stops being pending. *)
Theorem overtaken_reply_ignored (y y' : System) (i g : nat) (t : Task) (o : Outcome) :
  tasks y !! i = Some t -> task_gen t = Some g -> g <> generation y ->
  step rootPath humanize (settle i o) y = Some y' -> y' = retire i y.
Proof.
  intros Ht Hg Hne Hs. simpl in Hs. rewrite Ht in Hs. simpl in Hs.
  apply Nat.eqb_neq in Hne. destruct t; try done; injection Hg as ->; destruct o; simpl in Hs; try done;
    rewrite Hne in Hs; by injection Hs as <-.
Qed.

Definition set_tasks (l : list Task) (y : System) : System := {|
  st := st y; generation := generation y; shownPath := shownPath y; cache := cache y; tasks := l;
  sent := sent y; thrown := thrown y |}.
(** Settling the last task of the list. *)
Lemma step_last y l t o : tasks y = l ++ [t] ->
  step rootPath humanize (settle (length l) o) y = resume humanize t o (set_tasks l y).
Proof.
  intros E. unfold step, retire. rewrite E, lookup_app_r, Nat.sub_diag by lia. cbn [lookup mbind option_bind list_lookup].
  rewrite take_app_length, drop_ge, app_nil_r; [done|]. rewrite length_app. simpl. lia.
Qed.

(** Events of one load that nothing interrupts, its task being last in the list. *)
Definition load_events (n : nat) (reply : Outcome) : list Event :=
  [user a_load; settle n O_cached; settle n O_client; settle n reply].

(** C31 An uninterrupted load ends, from any state: with the live listing it shows
    exactly that listing, fresh and free of errors, and hands it to the cache;
    when the host fails, a cached listing stays on screen marked offline, and
    without one the error is shown over no rows but the folder's own. *)
Theorem load_settles (y : System) :
  let n := length (tasks y) in
  let path := currentPath (st y) in
  (forall l, exists y', run rootPath humanize (load_events n (O_listing l)) y = Some y' /\
     entries (st y') = listing_entries l /\ nextCursor (st y') = listing_nextCursor l /\
     loading (st y') = false /\ stale (st y') = false /\ offline (st y') = false /\ error (st y') = None /\
     selected (st y') = [] /\ shownPath y' = Some path /\ currentPath (st y') = path /\
     tasks y' = tasks y ++ [PutCache path (listing_entries l)]) /\
  (forall e, exists y', run rootPath humanize (load_events n (O_failed e)) y = Some y' /\
     loading (st y') = false /\ tasks y' = tasks y /\
     match map_get path (cache y) with
     | Some es => entries (st y') = es /\ offline (st y') = true /\ stale (st y') = true /\ error (st y') = None
     | None => error (st y') = Some (humanize e) /\ errorCode (st y') = errCode e /\
               entries (st y') = (if bool_decide (shownPath y = Some path) then entries (st y) else [])
     end).
Proof.
  cbv zeta. unfold run, load_events. cbn [fold_left mbind option_bind].
  change (step rootPath humanize (user a_load) y) with (Some (load y)). cbn [mbind option_bind].
  rewrite (step_last (load y) (tasks y) _ O_cached eq_refl). simpl resume. rewrite Nat.eqb_refl. cbn [negb].
  set (z := set_tasks (tasks y) (load y)).
  destruct (map_get (currentPath (st y)) (cache y)) as [es|] eqn:Ec.
  - set (y1 := spawn (LoadClient _ _ true) _). cbn [mbind option_bind].
    rewrite (step_last y1 (tasks y) _ O_client eq_refl). simpl resume. rewrite Nat.eqb_refl. cbn [negb].
    set (y2 := spawn (LoadList _ _ _) _). cbn [mbind option_bind]. split.
    + intros l. rewrite (step_last y2 (tasks y) _ _ eq_refl). simpl resume. rewrite Nat.eqb_refl. by eexists.
    + intros e. rewrite (step_last y2 (tasks y) _ _ eq_refl). simpl resume. rewrite Nat.eqb_refl. by eexists.
  - set (y1 := spawn (LoadClient _ _ false) _). cbn [mbind option_bind].
    rewrite (step_last y1 (tasks y) _ O_client eq_refl). simpl resume. rewrite Nat.eqb_refl. cbn [negb].
    set (y2 := spawn (LoadList _ _ _) _). cbn [mbind option_bind]. split.
    + intros l. rewrite (step_last y2 (tasks y) _ _ eq_refl). simpl resume. rewrite Nat.eqb_refl. by eexists.
    + intros e. rewrite (step_last y2 (tasks y) _ _ eq_refl). simpl resume. rewrite Nat.eqb_refl.
      eexists. split; [done|]. repeat split. simpl. by case_bool_decide.
Qed.
End Invariant.

(** ** Concrete runs *)

Definition sample_entry (path name : jstr) : Entry := {|
  entry_name := name; entry_path := joinRemotePath path name; entry_isDir := false; entry_size := None;
  entry_mimeType := None; entry_mode := None; entry_modified := None; entry_created := None;
  entry_isSymlink := false; entry_symlinkTarget := None; entry_childCount := None |}.
(** A host with two pages in [/r] and one in any other folder. *)
Definition sample_pages (p : jstr) : list (list Entry) :=
  if bool_decide (p = js "/r") then [[sample_entry p (js "a")]; [sample_entry p (js "b")]]
  else [[sample_entry p (js "x")]].
Definition sample_mark (k : nat) : jstr := replicate k 99.
Lemma sample_mark_inj i j : sample_mark i = sample_mark j -> i = j.
Proof. intros E%(f_equal length). unfold sample_mark in E. by rewrite !length_replicate in E. Qed.
Definition sample_host : ListingContract := paged_contract sample_pages sample_mark sample_mark_inj.
Definition sample_page (p : jstr) (k : nat) : Listing := {|
  listing_path := p; listing_entries := default [] (sample_pages p !! k);
  listing_nextCursor := if (S k <? length (sample_pages p))%nat then Some (sample_mark (S k)) else None |}.
Definition sample_run : list Event := [
  user a_load; settle 0 O_cached; settle 0 O_client; settle 0 (O_listing (sample_page (js "/r") 0)); settle 0 O_done;
  user (a_loadMore false); settle 0 O_client; settle 0 (O_listing (sample_page (js "/r") 1)) ].

Lemma sample_trace : @trace_ok ascii_unicode sample_host (js "/r") errMessage sample_run (initial (js "/r") []).
Proof.
  unfold sample_run.
  do 3 (eapply trace_cons; [vm_compute; reflexivity | exact I | exact I|]).
  eapply trace_cons; [vm_compute; reflexivity | exact I | exists 0%nat; repeat split; by left|].
  eapply trace_cons; [vm_compute; reflexivity | exact I | exact I|].
  eapply trace_cons; [vm_compute; reflexivity | intros p Hin; inversion Hin | exact I|].
  eapply trace_cons; [vm_compute; reflexivity | exact I | exact I|].
  eapply trace_cons; [vm_compute; reflexivity | exact I | | exact I].
  exists 1%nat. repeat split. right. split; [vm_compute; reflexivity | lia].
Qed.

Lemma overtaken_reply_ignored_witness :
  let y := act (U := ascii_unicode) (js "/r") a_load (act (U := ascii_unicode) (js "/r") a_load (initial (js "/r") [])) in
  exists y', @step ascii_unicode (js "/r") errMessage (settle 0 O_cached) y = Some y' /\ y' = retire 0 y.
Proof.
  intros y. destruct (@step ascii_unicode (js "/r") errMessage (settle 0 O_cached) y) as [y'|] eqn:E; [|vm_compute in E; discriminate E].
  exists y'. split; [reflexivity|].
  apply (@overtaken_reply_ignored ascii_unicode (js "/r") errMessage y y' 0 1 (LoadCache 1 (js "/r")) O_cached);
    [reflexivity | reflexivity | vm_compute; discriminate | exact E].
Defined.

(** The exception the invariant's side condition rules out: [loadMore] only
      looks at [loading] and [nextCursor], which still describe the previous folder
      between a navigation and its cache lookup.  A page request in that window
      cancels the navigation's load, and ends with the previous folder's row under
      the new folder's name, on screen with no load pending and in the cache. *)
Theorem loadMore_during_navigation_mixes_folders :
  let page p c n := {| listing_path := p; listing_entries := [sample_entry p n]; listing_nextCursor := c |} in
  exists y, @run ascii_unicode (js "/r") errMessage [
      user a_load; settle 0 O_cached; settle 0 O_client; settle 0 (O_listing (page (js "/r") (Some (js "c1")) (js "a")));
      settle 0 O_done; user (a_navigate (js "/r/sub")); user (a_loadMore false);
      settle 0 O_cached; settle 0 O_client; settle 0 (O_listing (page (js "/r/sub") None (js "x"))); settle 0 O_done ]
    (initial (js "/r") []) = Some y /\
  currentPath (st y) = js "/r/sub" /\ tasks y = [] /\
  map entry_path (entries (st y)) = [js "/r/a"; js "/r/sub/x"] /\
  map_get (js "/r/sub") (cache y) = Some (entries (st y)).
Proof. eexists. split; [vm_compute; reflexivity|]. repeat split. Qed.

Lemma load_settles_witness :
  exists y', @run ascii_unicode (js "/r") errMessage (load_events 0 (O_listing (sample_page (js "/r") 0))) (initial (js "/r") []) = Some y' /\
    entry_name <$> entries (st y') = [js "a"] /\ loading (st y') = false.
Proof.
  destruct (@load_settles ascii_unicode (js "/r") errMessage (initial (js "/r") [])) as [H _].
  destruct (H (sample_page (js "/r") 0)) as (y' & Hrun & He & _ & Hl & _). exists y'. split; [exact Hrun|]. split; [|exact Hl].
  rewrite He. vm_compute. reflexivity.
Defined.
