(* ===== verification/BatchRename.v ===== *)
(** * Renaming a selection in two phases

    [batchRename] and [collidingBasenames] of [features/explorer/explorerStore.ts].
    Every file first moves to a temporary name and then to its final one, so that
    chains and swaps work.  The host is an interface: a rename never replaces a
    file, and a refused rename changes nothing.  The theorems are proved against
    that interface; a host with injected faults implements it. *)

From Stdlib Require Import ZArith Lia Bool Permutation.
From Stdlib Require List.
From S2P Require Import Prelude JsCollections JsString Json Errors Models Paths.

(** ** The host, as far as renaming sees it *)

(** A rename that succeeds moves the file to a free name; one that reports a failure has changed
    nothing (an answer lost after the host renamed is not covered). *)
Class RenameHost (H : Type) := {
  at_path : jstr -> H -> option Z;     (** identity of the file at a path *)
  do_rename : jstr -> jstr -> H -> H * result jserror unit;
  rename_ok : forall from to h h', do_rename from to h = (h', Ok tt) ->
    is_Some (at_path from h) /\ at_path to h = None /\
    forall p, at_path p h' = if decide (p = to) then at_path from h
                             else if decide (p = from) then None else at_path p h;
  rename_err : forall from to h h' e, do_rename from to h = (h', Err e) -> forall p, at_path p h' = at_path p h
}.

(** ** The code *)

Record Rename := { rn_path : jstr; rn_newName : jstr }.
#[export] Instance Rename_eq_dec : EqDecision Rename.
Proof. solve_decision. Defined.

Definition rn_valid (r : Rename) : bool := negb (is_some (invalidNameReason (rn_newName r))).
Definition rn_dst (r : Rename) : jstr := renameDestination (rn_path r) (rn_newName r).
Definition tmp_name (i : nat) (r : Rename) : jstr :=
  js ".rfe-rn-" ++ string_of_Z (Z.of_nat i) ++ js "-" ++ rn_newName r.
Definition rn_tmp (ir : nat * Rename) : jstr := renameDestination (rn_path ir.2) (tmp_name ir.1 ir.2).
Definition indexed (rs : list Rename) : list (nat * Rename) := imap pair rs.

(** How many valid renames aim at each final path. *)
Definition target_counts (rs : list Rename) : list (jstr * Z) :=
  fold_left (fun counts r => if rn_valid r then map_set (rn_dst r) (default 0 (map_get (rn_dst r) counts) + 1) counts
                             else counts) rs [].

(** The replies to the page requests of one folder, until one has no cursor or fails. *)
Fixpoint collect_pages (replies : list (result jserror Listing)) (shown : list jstr) : list jstr :=
  match replies with
  | Ok l :: rest =>
      let shown' := fold_left (fun s e => set_add (entry_path e) s) (listing_entries l) shown in
      match listing_nextCursor l with Some (_ :: _) => collect_pages rest shown' | _ => shown' end
  | _ => shown
  end.

Definition moving (counts : list (jstr * Z)) (r : Rename) : bool :=
  rn_valid r && negb (bool_decide (rn_dst r = rn_path r)) && (default 0 (map_get (rn_dst r) counts) <=? 1).
Definition active (counts : list (jstr * Z)) (blocked : list nat) (ir : nat * Rename) : bool :=
  moving counts ir.2 && negb (set_has ir.1 blocked).
Definition vacated (counts : list (jstr * Z)) (irs : list (nat * Rename)) (blocked : list nat) : list jstr :=
  set_of ((fun ir => rn_path ir.2) <$> List.filter (active counts blocked) irs).
(** One round of the loop: the renames it newly refuses. *)
Definition block_round (counts : list (jstr * Z)) (shown : list jstr) (irs : list (nat * Rename)) (blocked : list nat) : list nat :=
  fst <$> List.filter (fun ir => active counts blocked ir && set_has (rn_dst ir.2) shown
                                 && negb (set_has (rn_dst ir.2) (vacated counts irs blocked))) irs.
Fixpoint block_loop (fuel : nat) (counts : list (jstr * Z)) (shown : list jstr) (irs : list (nat * Rename))
    (blocked : list nat) : list nat :=
  match fuel with
  | O => blocked
  | S f => match block_round counts shown irs blocked with
           | [] => blocked
           | new => block_loop f counts shown irs (blocked ++ new)
           end
  end.

Definition item_result (path : jstr) (ok : bool) (code msg : option jstr) : BatchItemResult :=
  {| item_path := path; item_ok := ok; item_errorCode := code; item_errorMessage := msg |}.
Definition quoted (name : jstr) : jstr := [quote] ++ name ++ [quote].

(** Final path, temporary path, original path. *)
Notation Pending := (list (jstr * (jstr * jstr))).

Section Code.
Context {H : Type} `{!RenameHost H} (humanize : jserror -> jstr).

Definition fail_item (path : jstr) (e : jserror) : BatchItemResult :=
  item_result path false (Some (js "RENAME_FAILED")) (Some (humanize e)).

Definition phase1_item (counts : list (jstr * Z)) (blocked : list nat) (ir : nat * Rename)
    (acc : H * (list BatchItemResult * Pending)) : H * (list BatchItemResult * Pending) :=
  let '(h, (results, pending)) := acc in
  let r := ir.2 in
  let push res := (h, (results ++ [res], pending)) in
  match invalidNameReason (rn_newName r) with
  | Some bad => push (item_result (rn_path r) false (Some (js "INVALID_NAME")) (Some bad))
  | None =>
      let dst := rn_dst r in
      if bool_decide (dst = rn_path r) then push (item_result (rn_path r) true None None)
      else if set_has ir.1 blocked then
        push (item_result (rn_path r) false (Some (js "TARGET_EXISTS"))
                (Some (quoted (rn_newName r) ++ js " already exists in this folder")))
      else if 1 <? default 0 (map_get dst counts) then
        push (item_result (rn_path r) false (Some (js "DUPLICATE_TARGET"))
                (Some (js "Another selected item is also being renamed to " ++ quoted (rn_newName r))))
      else
        match do_rename (rn_path r) (rn_tmp ir) h with
        | (h', Ok _) => (h', (results, map_set dst (rn_tmp ir, rn_path r) pending))
        | (h', Err e) => (h', (results ++ [fail_item (rn_path r) e], pending))
        end
  end.
Definition phase1 (counts : list (jstr * Z)) (blocked : list nat) (irs : list (nat * Rename))
    (acc : H * (list BatchItemResult * Pending)) : H * (list BatchItemResult * Pending) :=
  fold_left (fun acc ir => phase1_item counts blocked ir acc) irs acc.

Definition phase2_item (acc : H * list BatchItemResult) (e : jstr * (jstr * jstr)) : H * list BatchItemResult :=
  let '(h, results) := acc in
  let '(finalPath, (tmp, orig)) := e in
  match do_rename tmp finalPath h with
  | (h', Ok _) => (h', results ++ [item_result finalPath true None None])
  | (h', Err e) =>
      match do_rename tmp orig h' with
      | (h'', Ok _) => (h'', results ++ [fail_item orig e])
      | (h'', Err _) =>
          (h'', results ++ [item_result tmp false (Some (js "RENAME_STRANDED"))
             (Some (js "Could not rename it, and could not restore the name " ++ orig ++ js ": it was left as "
                    ++ tmp ++ js ". " ++ humanize e))])
      end
  end.
Definition phase2 (pending : Pending) (acc : H * list BatchItemResult) : H * list BatchItemResult :=
  fold_left phase2_item pending acc.

(** [onScreen]: the paths of the rows shown; [replies]: what the page requests answered. *)
Definition batchRename (onScreen : list jstr) (replies : list (result jserror Listing)) (rs : list Rename)
    (h : H) : H * BatchResult :=
  let counts := target_counts rs in
  let shown := collect_pages replies (set_of onScreen) in
  let irs := indexed rs in
  let blocked := block_loop (S (length rs)) counts shown irs [] in
  let '(h1, (results, pending)) := phase1 counts blocked irs (h, ([], [])) in
  let '(h2, results') := phase2 pending (h1, results) in
  (h2, mkBatch results').
End Code.

(** Basenames of [sourcePaths] that exist in the destination, from the replies to its page requests. *)
Fixpoint collect_names (replies : list (result jserror Listing)) (names : list jstr) : result jserror (list jstr) :=
  match replies with
  | Ok l :: rest =>
      let names' := fold_left (fun s e => set_add (entry_name e) s) (listing_entries l) names in
      match listing_nextCursor l with Some (_ :: _) => collect_names rest names' | _ => Ok names' end
  | Err e :: _ => Err e
  | [] => Ok names
  end.
Definition collidingBasenames (replies : list (result jserror Listing)) (sourcePaths : list jstr) : result jserror (list jstr) :=
  match collect_names replies [] with
  | Err e => Err e
  | Ok names => Ok (set_of (List.filter (fun n => set_has n names) (basenameOf <$> sourcePaths)))
  end.

(** ** Targets are unique *)

Lemma map_set_absent {K V} `{!EqDecision K} (k : K) (v : V) m : map_get k m = None -> map_set k v m = m ++ [(k, v)].
Proof. induction m as [|[k' v'] m IH]; simpl; [done|]. case_decide; [done|]. intros. by rewrite IH. Qed.

Definition aims (d : jstr) (rs : list Rename) : nat :=
  length (List.filter (fun r => rn_valid r && bool_decide (rn_dst r = d)) rs).
Lemma target_counts_acc rs acc d :
  default 0 (map_get d (fold_left (fun counts r => if rn_valid r
     then map_set (rn_dst r) (default 0 (map_get (rn_dst r) counts) + 1) counts else counts) rs acc)) =
  default 0 (map_get d acc) + Z.of_nat (aims d rs).
Proof.
  revert acc. induction rs as [|r rs IH]; intros acc; simpl; [unfold aims; simpl; lia|]. rewrite IH. unfold aims. simpl.
  destruct (rn_valid r); simpl; [|done]. rewrite map_get_set.
  case_decide; case_bool_decide; simplify_eq; simpl; try done; lia.
Qed.
Lemma target_counts_aims rs d : default 0 (map_get d (target_counts rs)) = Z.of_nat (aims d rs).
Proof. unfold target_counts. by rewrite target_counts_acc. Qed.

Lemma aims_two rs i j r r' :
  rs !! i = Some r -> rs !! j = Some r' -> i <> j -> rn_valid r = true -> rn_valid r' = true ->
  rn_dst r' = rn_dst r -> (2 <= aims (rn_dst r) rs)%nat.
Proof.
  assert (forall rs k x, rs !! k = Some x -> rn_valid x = true -> (1 <= aims (rn_dst x) rs)%nat) as Hone.
  { clear. intros rs. induction rs as [|y rs IH]; intros [|k] x Hx Hv; simpl in *; try done; unfold aims; simpl.
    - injection Hx as ->. rewrite Hv, bool_decide_true by done. simpl. lia.
    - specialize (IH _ _ Hx Hv). unfold aims in IH. case_match; simpl; lia. }
  revert i j. induction rs as [|y rs IH]; intros [|i] [|j] Hi Hj Hne Hv Hv' Hd; simpl in *; try done; unfold aims; simpl.
  - injection Hi as ->. rewrite Hv, bool_decide_true by done. specialize (Hone _ _ _ Hj Hv'). rewrite Hd in Hone.
    unfold aims in Hone. simpl. lia.
  - injection Hj as ->. rewrite Hv', Hd, bool_decide_true by done. specialize (Hone _ _ _ Hi Hv).
    unfold aims in Hone. simpl. lia.
  - specialize (IH i j Hi Hj ltac:(congruence) Hv Hv' Hd). unfold aims in IH. case_match; simpl; lia.
Qed.

Lemma elem_indexed rs i r : (i, r) ∈ indexed rs <-> rs !! i = Some r.
Proof.
  unfold indexed. rewrite elem_of_lookup_imap. split; [intros (k & x & [= -> ->] & ?); done | eauto].
Qed.
Lemma moving_unique rs ir ir' : ir ∈ indexed rs -> ir' ∈ indexed rs ->
  moving (target_counts rs) ir.2 = true -> moving (target_counts rs) ir'.2 = true ->
  rn_dst ir.2 = rn_dst ir'.2 -> ir = ir'.
Proof.
  destruct ir as [i r], ir' as [j r']. rewrite !elem_indexed. simpl. unfold moving. intros Hi Hj Hm Hm' Hd. breflect.
  destruct (decide (i = j)) as [->|Hne]; [congruence|]. exfalso.
  rewrite target_counts_aims in *. pose proof (aims_two rs i j r r' Hi Hj Hne) as Htwo.
  specialize (Htwo ltac:(done) ltac:(done) ltac:(done)). lia.
Qed.

(** ** Where every file ends up, whatever the host refuses *)

Section Located.
Context {H : Type} `{!RenameHost H} (humanize : jserror -> jstr).
Context (rs : list Rename) (fid : nat -> Z) (h0 : H).
(** The sources are distinct files that exist. *)
Context (sources : forall i r, rs !! i = Some r -> at_path (rn_path r) h0 = Some (fid i)).
Context (fid_inj : forall i j, fid i = fid j -> i = j).

Notation irs := (indexed rs).
Notation counts := (target_counts rs).

(** One of the results tells where the item is: at its final path (ok), under its
    own name (refused), or under the temporary name (stranded, and said so). *)
Definition outcome_of (ir : nat * Rename) (res : BatchItemResult) : Prop :=
  item_ok res = true /\ item_path res = rn_dst ir.2 \/
  item_ok res = false /\ item_path res = rn_path ir.2 \/
  item_ok res = false /\ item_path res = rn_tmp ir /\ item_errorCode res = Some (js "RENAME_STRANDED").
Definition reported (ir : nat * Rename) (h : H) (results : list BatchItemResult) : Prop :=
  exists res, res ∈ results /\ outcome_of ir res /\ at_path (item_path res) h = Some (fid ir.1).
Definition in_flight (ir : nat * Rename) (h : H) (e : jstr * (jstr * jstr)) : Prop :=
  e = (rn_dst ir.2, (rn_tmp ir, rn_path ir.2)) /\ moving counts ir.2 = true /\ at_path (rn_tmp ir) h = Some (fid ir.1).
(** Files that are not selected stay where they are. *)
Definition bystanders (h : H) : Prop :=
  forall p f, at_path p h0 = Some f -> (forall i, (i < length rs)%nat -> fid i <> f) -> at_path p h = Some f.

(** A rename of file [f] leaves every other file in place, whether it succeeds or not. *)
Lemma rename_others from to h h' res f : do_rename from to h = (h', res) -> at_path from h = Some f ->
  forall p g, at_path p h = Some g -> g <> f -> at_path p h' = Some g.
Proof.
  intros E Hf p g Hp Hne. destruct res as [[]|e].
  - destruct (rename_ok _ _ _ _ E) as (_ & Ht & Hat). rewrite Hat. repeat case_decide; simplify_eq; done.
  - by rewrite (rename_err _ _ _ _ _ E).
Qed.

Lemma reported_mono ir h h' results results' :
  reported ir h results -> (forall p, at_path p h = Some (fid ir.1) -> at_path p h' = Some (fid ir.1)) ->
  (forall x, x ∈ results -> x ∈ results') -> reported ir h' results'.
Proof. intros (res & Hin & Ho & Ha) Hat Hsub. exists res. auto. Qed.
Lemma in_flight_mono ir h h' e : in_flight ir h e ->
  (forall p, at_path p h = Some (fid ir.1) -> at_path p h' = Some (fid ir.1)) -> in_flight ir h' e.
Proof. intros (-> & Hm & Ha) Hat. repeat split; auto. Qed.

(** *** First phase *)

Record Phase1 (processed rest : list (nat * Rename)) (h : H) (results : list BatchItemResult) (pending : Pending) : Prop := {
  p1_done : Forall (fun ir => reported ir h results \/ exists e, e ∈ pending /\ in_flight ir h e) processed;
  p1_rest : Forall (fun ir => at_path (rn_path ir.2) h = Some (fid ir.1)) rest;
  p1_pending : Forall (fun e => exists ir, ir ∈ processed /\ in_flight ir h e) pending;
  p1_keys : NoDup (keys pending);
  p1_others : bystanders h
}.

Lemma bystanders_rename from to h h' res i : do_rename from to h = (h', res) -> at_path from h = Some (fid i) ->
  (i < length rs)%nat -> bystanders h -> bystanders h'.
Proof.
  intros E Hf Hi Hb p f Hp Hn. eapply rename_others; [exact E | exact Hf | by apply Hb|].
  intros ->. by apply (Hn i Hi).
Qed.

Lemma Phase1_push processed ir rest h results pending res :
  Phase1 processed (ir :: rest) h results pending -> item_path res = rn_path ir.2 ->
  (item_ok res = true -> rn_dst ir.2 = rn_path ir.2) -> Phase1 (processed ++ [ir]) rest h (results ++ [res]) pending.
Proof.
  intros [Hd Hr Hp Hk Hb] Hpath Hok. inversion Hr as [|? ? Hat Hr']; subst. split; auto.
  - apply Forall_app. split.
    + eapply Forall_impl; [exact Hd|]. intros x [Hx|Hx]; [left | by right].
      eapply reported_mono; [exact Hx | done|]. intros. apply elem_snoc. by left.
    + apply Forall_singleton. left. exists res. split; [apply elem_snoc; by right|]. split; [|by rewrite Hpath].
      destruct (item_ok res) eqn:E; [left; rewrite Hok by done; done | right; left; done].
  - eapply Forall_impl; [exact Hp|]. intros e (x & Hx & He). exists x. split; [|done]. apply elem_snoc. by left.
Qed.

Lemma indexed_ne processed ir rest (x : nat * Rename) : processed ++ ir :: rest = irs ->
  x ∈ processed \/ x ∈ rest -> fid x.1 <> fid ir.1.
Proof.
  intros E Hx Heq%fid_inj.
  assert (NoDup (fst <$> irs)) as Hnd.
  { unfold indexed. replace (fst <$> imap pair rs) with (seq 0 (length rs)); [apply NoDup_seq|].
    symmetry. clear. assert (forall k, fst <$> imap (fun n => pair (k + n)%nat) rs = seq k (length rs)) as Hs.
    { induction rs as [|r l IH]; intros k; [done|]. csimpl. rewrite Nat.add_0_r. f_equal.
      rewrite <- (IH (S k)). f_equal. apply imap_ext. intros. simpl. f_equal. lia. }
    apply (Hs 0%nat). }
  rewrite <- E, fmap_app, fmap_cons in Hnd. apply NoDup_app in Hnd as (_ & Hd & Hnd).
  apply NoDup_cons in Hnd as [Hn _]. destruct Hx as [Hx|Hx].
  - apply (Hd x.1); [by apply list_elem_of_fmap_2|]. rewrite Heq. left.
  - apply Hn. rewrite <- Heq. by apply list_elem_of_fmap_2.
Qed.
Lemma indexed_lt ir : ir ∈ irs -> (ir.1 < length rs)%nat.
Proof. destruct ir as [i r]. rewrite elem_indexed. apply lookup_lt_Some. Qed.

Lemma Phase1_rename processed ir rest h results pending h' res :
  processed ++ ir :: rest = irs -> Phase1 processed (ir :: rest) h results pending -> moving counts ir.2 = true ->
  do_rename (rn_path ir.2) (rn_tmp ir) h = (h', res) ->
  Phase1 (processed ++ [ir]) rest h'
    (match res with Ok _ => results | Err e => results ++ [fail_item humanize (rn_path ir.2) e] end)
    (match res with Ok _ => map_set (rn_dst ir.2) (rn_tmp ir, rn_path ir.2) pending | Err _ => pending end).
Proof.
  intros Hirs HP Hm E. pose proof HP as [Hd Hr Hp Hk Hb]. inversion Hr as [|? ? Hat Hr']; subst.
  assert (ir ∈ irs) as Hin by (rewrite <- Hirs; set_solver).
  assert (forall x, x ∈ processed \/ x ∈ rest -> forall p, at_path p h = Some (fid x.1) -> at_path p h' = Some (fid x.1)) as Hkeep.
  { intros x Hx p Hpx. eapply rename_others; [exact E | exact Hat | exact Hpx|]. by eapply indexed_ne. }
  assert (Phase1 processed (ir :: rest) h results pending -> Forall (fun x => at_path (rn_path x.2) h' = Some (fid x.1)) rest) as Hrest.
  { intros _. apply Forall_forall. intros x Hx. rewrite Forall_forall in Hr'. apply Hkeep; auto. }
  assert (bystanders h') as Hb' by (eapply bystanders_rename; eauto using indexed_lt).
  destruct res as [[]|e].
  - destruct (rename_ok _ _ _ _ E) as (_ & _ & Hto).
    assert (in_flight ir h' (rn_dst ir.2, (rn_tmp ir, rn_path ir.2))) as Hfl.
    { repeat split; [done|]. by rewrite Hto, decide_True. }
    assert (map_get (rn_dst ir.2) pending = None) as Hnone.
    { apply map_get_None. intros (e & He & Hine)%list_elem_of_fmap. rewrite Forall_forall in Hp.
      destruct (Hp e Hine) as (x & Hx & -> & Hmx & _). simpl in He.
      assert (x = ir) as -> by (eapply moving_unique; eauto; rewrite <- Hirs; set_solver).
      by apply (indexed_ne _ _ _ ir Hirs (or_introl Hx)). }
    rewrite map_set_absent by done. split; auto.
    + apply Forall_app. split.
      * apply Forall_forall. intros x Hx. rewrite Forall_forall in Hd. destruct (Hd x Hx) as [Hrep|(e & He & Hf)].
        -- left. eapply reported_mono; [exact Hrep | apply Hkeep; auto | done].
        -- right. exists e. split; [apply elem_snoc; by left|]. eapply in_flight_mono; [exact Hf | apply Hkeep; auto].
      * apply Forall_singleton. right. eexists. split; [apply elem_snoc; by right | exact Hfl].
    + apply Forall_app. split.
      * apply Forall_forall. intros e He. rewrite Forall_forall in Hp. destruct (Hp e He) as (x & Hx & Hf).
        exists x. split; [apply elem_snoc; by left|]. eapply in_flight_mono; [exact Hf | apply Hkeep; auto].
      * apply Forall_singleton. exists ir. split; [apply elem_snoc; by right | exact Hfl].
    + unfold keys. rewrite fmap_app. apply NoDup_app. split; [done|]. split; [|apply NoDup_singleton].
      intros k Hkin ->%list_elem_of_singleton. by apply map_get_None in Hnone.
  - apply (Phase1_push processed ir rest h'); [|done|done].
    pose proof (rename_err _ _ _ _ _ E) as Hsame. split; auto.
    + eapply Forall_impl; [exact Hd|]. intros x [Hx|(e' & He & Hf)]; [left | right].
      * eapply reported_mono; [exact Hx | intros p; by rewrite Hsame | done].
      * exists e'. split; [done|]. eapply in_flight_mono; [exact Hf | intros p; by rewrite Hsame].
    + constructor; [by rewrite Hsame | auto].
    + eapply Forall_impl; [exact Hp|]. intros e' (x & Hx & Hf). exists x. split; [done|].
      eapply in_flight_mono; [exact Hf | intros p; by rewrite Hsame].
Qed.

Lemma Phase1_item blocked processed ir rest h results pending :
  processed ++ ir :: rest = irs -> Phase1 processed (ir :: rest) h results pending ->
  let '(h', (results', pending')) := phase1_item humanize counts blocked ir (h, (results, pending)) in
  Phase1 (processed ++ [ir]) rest h' results' pending'.
Proof.
  intros Hirs HP. unfold phase1_item.
  destruct (invalidNameReason (rn_newName ir.2)) as [bad|] eqn:Ev; [by apply Phase1_push|].
  case_bool_decide as Hd; [by apply Phase1_push|].
  destruct (set_has ir.1 blocked); [by apply Phase1_push|].
  destruct (1 <? default 0 (map_get (rn_dst ir.2) counts)) eqn:Ec; [by apply Phase1_push|].
  destruct (do_rename (rn_path ir.2) (rn_tmp ir) h) as [h' res] eqn:E.
  assert (moving counts ir.2 = true) as Hm.
  { unfold moving, rn_valid. rewrite Ev, bool_decide_false by done. breflect. simpl. by apply Z.leb_le. }
  pose proof (Phase1_rename _ _ _ _ _ _ _ _ Hirs HP Hm E) as Hn. by destruct res as [[]|].
Qed.
Lemma Phase1_all blocked rest processed h results pending :
  processed ++ rest = irs -> Phase1 processed rest h results pending ->
  let '(h', (results', pending')) := phase1 humanize counts blocked rest (h, (results, pending)) in
  Phase1 irs [] h' results' pending'.
Proof.
  revert processed h results pending. induction rest as [|ir rest IH]; intros processed h results pending Hirs HP.
  { simpl. rewrite app_nil_r in Hirs. by subst processed. }
  unfold phase1. cbn [fold_left]. pose proof (Phase1_item blocked _ _ _ _ _ _ Hirs HP) as Hn.
  destruct (phase1_item humanize counts blocked ir (h, (results, pending))) as (h' & results' & pending').
  apply (IH (processed ++ [ir])); [by rewrite <- app_assoc | done].
Qed.

(** *** Second phase *)

Record Phase2 (landed waiting : list (nat * Rename)) (todo : Pending) (h : H) (results : list BatchItemResult) : Prop := {
  p2_done : Forall (fun ir => reported ir h results) landed;
  p2_todo : Forall2 (fun ir e => in_flight ir h e) waiting todo;
  p2_distinct : NoDup (fst <$> (landed ++ waiting));
  p2_others : bystanders h
}.

Lemma Phase2_item landed ir waiting e todo h results :
  (ir.1 < length rs)%nat -> Phase2 landed (ir :: waiting) (e :: todo) h results ->
  let '(h', results') := phase2_item humanize (h, results) e in Phase2 (landed ++ [ir]) waiting todo h' results'.
Proof.
  intros Hlt [Hd Ht Hn Hb]. inversion Ht as [|? ? ? ? Hfl Ht']; subst. destruct Hfl as (-> & Hm & Hat). unfold phase2_item.
  assert (forall x, x ∈ landed \/ x ∈ waiting -> fid x.1 <> fid ir.1) as Hne.
  { intros x Hx Heq%fid_inj. rewrite fmap_app, fmap_cons in Hn. apply NoDup_app in Hn as (_ & H1 & H2).
    apply NoDup_cons in H2 as [H2 _]. destruct Hx as [Hx|Hx].
    - apply (H1 x.1); [by apply list_elem_of_fmap_2|]. rewrite Heq. left.
    - apply H2. rewrite <- Heq. by apply list_elem_of_fmap_2. }
  (* whatever happens to this item, the others keep their places *)
  assert (forall h' res, (forall x, x ∈ landed \/ x ∈ waiting -> forall p, at_path p h = Some (fid x.1) -> at_path p h' = Some (fid x.1)) ->
    bystanders h' -> outcome_of ir res -> at_path (item_path res) h' = Some (fid ir.1) ->
    Phase2 (landed ++ [ir]) waiting todo h' (results ++ [res])) as Hland.
  { intros h' res Hkeep Hb' Ho Ha. split; [| | by rewrite <- app_assoc | done].
    - apply Forall_app. split.
      + apply Forall_forall. intros x Hx. rewrite Forall_forall in Hd. eapply reported_mono; [by apply Hd | apply Hkeep; auto|].
        intros. apply elem_snoc. by left.
      + apply Forall_singleton. exists res. split; [apply elem_snoc; by right | done].
    - assert (forall l l', Forall2 (fun ir e => in_flight ir h e) l l' -> (forall x, x ∈ l -> x ∈ waiting) ->
        Forall2 (fun ir e => in_flight ir h' e) l l') as Hmono.
      { induction 1 as [|x e l l' Hx Hl IH]; intros Hsub; constructor.
        - eapply in_flight_mono; [exact Hx | apply Hkeep; right; apply Hsub; left].
        - apply IH. intros y Hy. apply Hsub. by right. }
      by apply Hmono. }
  destruct (do_rename (rn_tmp ir) (rn_dst ir.2) h) as [h1 res1] eqn:E1.
  assert (forall x, x ∈ landed \/ x ∈ waiting -> forall p, at_path p h = Some (fid x.1) -> at_path p h1 = Some (fid x.1)) as Hk1.
  { intros x Hx p Hp. eapply rename_others; [exact E1 | exact Hat | exact Hp | by apply Hne]. }
  assert (bystanders h1) as Hb1 by (eapply bystanders_rename; eauto).
  destruct res1 as [[]|e1].
  { apply Hland; try done; [by left|]. destruct (rename_ok _ _ _ _ E1) as (_ & _ & ->). by rewrite decide_True. }
  assert (at_path (rn_tmp ir) h1 = Some (fid ir.1)) as Hat1 by (by rewrite (rename_err _ _ _ _ _ E1)).
  destruct (do_rename (rn_tmp ir) (rn_path ir.2) h1) as [h2 res2] eqn:E2.
  assert (forall x, x ∈ landed \/ x ∈ waiting -> forall p, at_path p h = Some (fid x.1) -> at_path p h2 = Some (fid x.1)) as Hk2.
  { intros x Hx p Hp. eapply rename_others; [exact E2 | exact Hat1 | by apply Hk1 | by apply Hne]. }
  assert (bystanders h2) as Hb2 by (eapply bystanders_rename; eauto).
  destruct res2 as [[]|e2]; apply Hland; try done.
  - right. by left.
  - destruct (rename_ok _ _ _ _ E2) as (_ & _ & ->). simpl. by rewrite decide_True.
  - right. by right.
  - simpl. by rewrite (rename_err _ _ _ _ _ E2).
Qed.
Lemma Phase2_all todo waiting landed h results :
  Forall (fun ir => ir.1 < length rs)%nat waiting -> Phase2 landed waiting todo h results ->
  let '(h', results') := phase2 humanize todo (h, results) in Phase2 (landed ++ waiting) [] [] h' results'.
Proof.
  revert waiting landed h results. induction todo as [|e todo IH]; intros waiting landed h results Hlt HP.
  { destruct HP as [Hd Ht Hn Hb]. inversion Ht; subst. simpl. by rewrite app_nil_r. }
  pose proof HP as [_ Ht _ _]. inversion Ht as [|ir ? l ? _ _]; subst. inversion Hlt; subst.
  unfold phase2. cbn [fold_left]. pose proof (Phase2_item _ _ _ _ _ _ _ ltac:(eassumption) HP) as Hn.
  destruct (phase2_item humanize (h, results) e) as [h' results'].
  specialize (IH l (landed ++ [ir]) h' results' ltac:(done) Hn). unfold phase2 in IH.
  destruct (fold_left (phase2_item humanize) todo (h', results')). by rewrite <- app_assoc in IH.
Qed.

(** Every item of the first phase is either reported or waiting in [pending]. *)
Lemma phases_meet h results pending : Phase1 irs [] h results pending ->
  exists landed waiting, Phase2 landed waiting pending h results /\
    Forall (fun ir => ir.1 < length rs)%nat waiting /\ forall ir, ir ∈ irs -> ir ∈ landed ++ waiting.
Proof.
  intros [Hd _ Hp Hk Hb].
  assert (exists waiting, Forall2 (fun ir e => in_flight ir h e) waiting pending /\ Forall (fun ir => ir ∈ irs) waiting) as (waiting & Hw & Hwin).
  { clear Hd Hk. induction Hp as [|e pending (ir & Hin & He) _ (w & IH1 & IH2)]; [by exists []|].
    exists (ir :: w). split; constructor; done. }
  exists (List.filter (fun ir => negb (bool_decide (ir ∈ waiting))) irs), waiting. split; [|split].
  - split; [| done | | done].
    + apply Forall_forall. intros ir [Hin Hnw]%elem_filter_bool. breflect. rewrite Forall_forall in Hd.
      destruct (Hd ir Hin) as [|(e & He & Hf)]; [done|]. exfalso. apply Hnw.
      apply list_elem_of_lookup in He as [k Hk']. destruct (Forall2_lookup_r _ _ _ _ _ Hw Hk') as (x & Hx & Hfx).
      assert (x = ir) as ->; [|by eapply list_elem_of_lookup_2].
      assert (x ∈ irs) as Hxin by (rewrite Forall_forall in Hwin; apply Hwin; by eapply list_elem_of_lookup_2).
      destruct Hf as (-> & Hm & _), Hfx as (Heq & Hmx & _). eapply moving_unique; eauto. congruence.
    + assert (NoDup waiting) as Hnw.
      { apply NoDup_alt. intros i j x Hi Hj.
        destruct (Forall2_lookup_l _ _ _ _ _ Hw Hi) as (e1 & He1 & (-> & _)).
        destruct (Forall2_lookup_l _ _ _ _ _ Hw Hj) as (e2 & He2 & (-> & _)).
        apply (NoDup_lookup (keys pending) i j (rn_dst x.2)); [done|..]; unfold keys; rewrite list_lookup_fmap.
        - by rewrite He1. - by rewrite He2. }
      assert (NoDup irs) as Hni.
      { apply NoDup_alt. intros i j x Hi Hj. unfold indexed in *. rewrite list_lookup_imap in Hi, Hj.
        destruct (rs !! i), (rs !! j); simpl in *; naive_solver. }
      apply NoDup_fmap_2_strong.
      * intros [i r] [j r'] Hi Hj Hij. simpl in Hij. subst j.
        assert (forall x, x ∈ List.filter (fun ir => negb (bool_decide (ir ∈ waiting))) irs ++ waiting -> x ∈ irs) as Hall.
        { intros x [[? _]%elem_filter_bool|Hx]%elem_of_app; [done|]. rewrite Forall_forall in Hwin. auto. }
        apply Hall in Hi, Hj. rewrite elem_indexed in Hi, Hj. congruence.
      * apply NoDup_app. split; [by apply NoDup_filter_bool|]. split; [|done].
        intros x [_ Hx]%elem_filter_bool. by breflect.
  - eapply Forall_impl; [exact Hwin|]. intros ir. apply indexed_lt.
  - intros ir Hin. rewrite elem_of_app, elem_filter_bool.
    destruct (decide (ir ∈ waiting)); [by right | left]. by rewrite bool_decide_false.
Qed.

Lemma Phase1_start : Phase1 [] irs h0 [] [].
Proof.
  split; [constructor | | constructor | apply NoDup_nil_2 | intros p f Hp _; exact Hp].
  apply Forall_forall. intros [i r] Hin. rewrite elem_indexed in Hin. by apply sources.
Qed.

Lemma batchRename_reported onScreen replies :
  let '(h', res) := batchRename humanize onScreen replies rs h0 in
  (forall ir, ir ∈ irs -> reported ir h' (batch_results res)) /\ bystanders h'.
Proof.
  unfold batchRename. set (blocked := block_loop _ _ _ _ _).
  pose proof (Phase1_all blocked irs [] h0 [] [] eq_refl Phase1_start) as H1.
  destruct (phase1 humanize counts blocked irs (h0, ([], []))) as (h1 & results & pending).
  destruct (phases_meet _ _ _ H1) as (landed & waiting & H2 & Hlt & Hall).
  pose proof (Phase2_all pending waiting landed h1 results Hlt H2) as H3.
  destruct (phase2 humanize pending (h1, results)) as [h2 results']. destruct H3 as [Hd _ _ Hb].
  split; [|done]. intros ir Hin. simpl. rewrite Forall_forall in Hd. by apply Hd, Hall.
Qed.
End Located.

(** ** The refusal loop reaches its fixed point *)

Section Blocking.
Context (rs : list Rename) (shown : list jstr).
Notation irs := (indexed rs).
Notation counts := (target_counts rs).

Lemma block_round_new blocked i : i ∈ block_round counts shown irs blocked -> i ∉ blocked /\ (i < length rs)%nat.
Proof.
  intros ([j r] & -> & [Hin Hb]%elem_filter_bool)%list_elem_of_fmap. simpl in *. unfold active in Hb. breflect. split.
  - by apply set_has_false.
  - rewrite elem_indexed in Hin. by apply lookup_lt_Some in Hin.
Qed.
Lemma NoDup_indexed_fst : NoDup irs.*1.
Proof.
  apply NoDup_fmap_2_strong.
  - intros [i r] [j r'] Hi Hj Hij. simpl in *. subst. rewrite !elem_indexed in *. congruence.
  - apply NoDup_alt. intros i j x Hi Hj. unfold indexed in *. rewrite list_lookup_imap in Hi, Hj.
    destruct (rs !! i), (rs !! j); simpl in *; naive_solver.
Qed.
Lemma NoDup_filter_fst (f : nat * Rename -> bool) l : NoDup l.*1 -> NoDup (List.filter f l).*1.
Proof.
  induction l as [|x l IH]; csimpl; [done|]. intros [Hn Hd]%NoDup_cons. destruct (f x); csimpl; [|auto].
  apply NoDup_cons. split; [|auto]. intros (y & Hy & [Hin _]%elem_filter_bool)%list_elem_of_fmap.
  apply Hn. rewrite Hy. by apply list_elem_of_fmap_2.
Qed.

(** The loop stops: every round that changes something refuses one more item. *)
Lemma block_loop_stable fuel blocked :
  NoDup blocked -> (forall i, i ∈ blocked -> i < length rs)%nat -> (length rs < length blocked + fuel)%nat ->
  block_round counts shown irs (block_loop fuel counts shown irs blocked) = [].
Proof.
  revert blocked. induction fuel as [|f IH]; intros blocked Hn Hb Hlen.
  - exfalso. assert (length blocked <= length (seq 0 (length rs)))%nat; [|rewrite length_seq in *; lia].
    apply NoDup_ListNoDup in Hn. apply List.NoDup_incl_length; [done|].
    intros i Hi. rewrite <- list_elem_of_In in *. apply elem_of_seq. specialize (Hb i Hi). lia.
  - cbn [block_loop]. destruct (block_round counts shown irs blocked) as [|i new] eqn:E; [done|]. rewrite <- E.
    apply IH.
    + apply NoDup_app. split; [done|]. split.
      * intros j Hj Hj'. by apply block_round_new in Hj' as [].
      * unfold block_round. apply NoDup_filter_fst, NoDup_indexed_fst.
    + intros j [Hj|Hj]%elem_of_app; [auto|]. by apply block_round_new in Hj as [].
    + rewrite length_app, E. simpl. lia.
Qed.

Definition final_blocked : list nat := block_loop (S (length rs)) counts shown irs [].
Definition goes (ir : nat * Rename) : bool := active counts final_blocked ir.

(** A rename that goes ahead aims at a free name or at one the batch vacates. *)
Lemma goes_target ir : ir ∈ irs -> goes ir = true -> rn_dst ir.2 ∈ shown ->
  exists ir', ir' ∈ irs /\ goes ir' = true /\ rn_path ir'.2 = rn_dst ir.2.
Proof.
  intros Hin Hg Hs.
  pose proof (block_loop_stable (S (length rs)) [] (NoDup_nil_2) ltac:(set_solver) ltac:(simpl; lia)) as Hst.
  fold final_blocked in Hst. unfold block_round in Hst. apply fmap_nil_inv in Hst.
  destruct (set_has (rn_dst ir.2) (vacated counts irs final_blocked)) eqn:Ev.
  - apply set_has_spec in Ev. unfold vacated in Ev. rewrite elem_set_of in Ev.
    apply list_elem_of_fmap in Ev as (ir' & Hp & [Hin' Ha]%elem_filter_bool). by exists ir'.
  - exfalso. assert (ir ∈ List.filter (fun ir => active counts final_blocked ir && set_has (rn_dst ir.2) shown
        && negb (set_has (rn_dst ir.2) (vacated counts irs final_blocked))) irs) as Hx.
    { apply elem_filter_bool. split; [done|]. unfold goes in Hg. rewrite Hg, Ev. simpl.
      by rewrite (proj2 (set_has_spec _ _)). }
    rewrite Hst in Hx. by apply not_elem_of_nil in Hx.
Qed.

(** Refusing an item is justified in every later round too: fewer names are vacated. *)
Definition justified (blocked : list nat) : Prop := forall i r, (i, r) ∈ irs -> i ∈ blocked ->
  rn_dst r ∈ shown /\ rn_dst r ∉ vacated counts irs blocked.
Lemma vacated_anti blocked new : forall p, p ∈ vacated counts irs (blocked ++ new) -> p ∈ vacated counts irs blocked.
Proof.
  intros p. unfold vacated. rewrite !elem_set_of. intros (ir & -> & [Hin Ha]%elem_filter_bool)%list_elem_of_fmap.
  apply (list_elem_of_fmap_2 (fun ir => rn_path ir.2)). apply elem_filter_bool. split; [done|].
  unfold active in *. breflect. apply andb_true_iff. split; [done|]. apply negb_true_iff, set_has_false.
  intros Hb. eapply set_has_false; [eassumption|]. apply elem_of_app. by left.
Qed.
Lemma block_loop_justified fuel blocked : justified blocked -> justified (block_loop fuel counts shown irs blocked).
Proof.
  revert blocked. induction fuel as [|f IH]; intros blocked Hj; [done|]. cbn [block_loop].
  destruct (block_round counts shown irs blocked) as [|i0 new] eqn:E; [done|]. rewrite <- E. apply IH.
  intros i r Hin [Hb|Hb]%elem_of_app.
  - destruct (Hj i r Hin Hb) as [Hs Hv]. split; [done|]. intros Hv'%vacated_anti. done.
  - apply list_elem_of_fmap in Hb as ([j r'] & -> & [Hin' Hb]%elem_filter_bool). simpl in *.
    rewrite elem_indexed in Hin, Hin'. assert (r' = r) as -> by congruence. breflect.
    split; [by apply set_has_spec|]. intros Hv%vacated_anti. by eapply set_has_false.
Qed.
Lemma goes_exact ir : ir ∈ irs -> moving counts ir.2 = true ->
  goes ir = true <-> (rn_dst ir.2 ∈ shown -> exists ir', ir' ∈ irs /\ goes ir' = true /\ rn_path ir'.2 = rn_dst ir.2).
Proof.
  intros Hin Hm. split; [by apply goes_target|]. intros Himp. unfold goes, active. rewrite Hm. simpl.
  apply negb_true_iff, set_has_false. intros Hb. destruct ir as [i r].
  destruct (block_loop_justified (S (length rs)) [] ltac:(intros ? ? ? ?%not_elem_of_nil; done) i r Hin Hb) as [Hs Hv].
  destruct (Himp Hs) as (ir' & Hin' & Hg & Hp). apply Hv. unfold vacated. rewrite elem_set_of. simpl in Hp. rewrite <- Hp.
  apply (list_elem_of_fmap_2 (fun ir => rn_path ir.2)). by apply elem_filter_bool.
Qed.
Lemma goes_moving ir : goes ir = true -> moving counts ir.2 = true.
Proof. unfold goes, active. intros. by breflect. Qed.
End Blocking.

(** ** Temporary names differ *)

Lemma tmp_name_plain i r : rn_valid r = true -> plain_name (tmp_name i r).
Proof.
  intros Hv. unfold rn_valid in Hv. destruct (invalidNameReason (rn_newName r)) eqn:E; [done|].
  apply invalidNameReason_plain in E as [_ Hn]. unfold tmp_name. split.
  - intros Hnil. by apply (f_equal length) in Hnil.
  - rewrite !Forall_app. repeat split; [repeat constructor | | repeat constructor | done].
    eapply Forall_impl; [apply string_of_Z_digits; lia|]. intros c Hc. unfold is_digit, is_sep, slash, backslash in *.
    breflect. apply orb_false_iff. rewrite !Z.eqb_neq. lia.
Qed.
Lemma digits_dash_inj (a b x y : jstr) : Forall (fun c => is_digit c = true) a -> Forall (fun c => is_digit c = true) b ->
  a ++ 45 :: x = b ++ 45 :: y -> a = b.
Proof.
  revert b. induction a as [|c a IH]; intros [|d b] Ha Hb E; simpl in *; try done.
  - injection E as <- _. inversion Hb; subst. done.
  - injection E as -> _. inversion Ha; subst. done.
  - injection E as -> E. f_equal. inversion Ha; inversion Hb; subst. eapply IH; eauto.
Qed.
Lemma rn_tmp_inj ir ir' : rn_valid ir.2 = true -> rn_valid ir'.2 = true -> rn_tmp ir = rn_tmp ir' -> ir.1 = ir'.1.
Proof.
  intros Hv Hv' E%(f_equal basenameOf). unfold rn_tmp in E.
  rewrite (proj2 (renameDestination_sibling _ _ (tmp_name_plain ir.1 _ Hv))) in E.
  rewrite (proj2 (renameDestination_sibling _ _ (tmp_name_plain ir'.1 _ Hv'))) in E.
  unfold tmp_name in E. apply app_inv_head in E. apply digits_dash_inj in E; [|apply string_of_Z_digits; lia..].
  apply string_of_Z_inj in E; lia.
Qed.

(** ** A host that only refuses taken names *)

Section Reliable.
Context {H : Type} `{!RenameHost H} (humanize : jserror -> jstr).
Context (rs : list Rename) (fid : nat -> Z) (h0 : H) (onScreen : list jstr) (replies : list (result jserror Listing)).
Context (sources : forall i r, rs !! i = Some r -> at_path (rn_path r) h0 = Some (fid i)).
Context (fid_inj : forall i j, fid i = fid j -> i = j).
Context (reliable : forall from to h, is_Some (at_path from h) -> at_path to h = None -> (do_rename from to h).2 = Ok tt).

Notation irs := (indexed rs).
Notation counts := (target_counts rs).
Notation shown := (collect_pages replies (set_of onScreen)).
Notation go := (goes rs shown).

(** The listing is fresh where it matters, and the temporary names are not in use. *)
Context (fresh : forall r, r ∈ rs -> is_Some (at_path (rn_dst r) h0) -> rn_dst r ∈ shown).
Context (tmp_free : forall ir, ir ∈ irs -> at_path (rn_tmp ir) h0 = None).
Context (tmp_target : forall ir ir', ir ∈ irs -> ir' ∈ irs -> rn_tmp ir <> rn_dst ir'.2).

(** [pos]: where each item is; nothing else is occupied but by files outside the selection. *)
Record Placed (pos : nat * Rename -> jstr) (h : H) : Prop := {
  pl_at : forall ir, ir ∈ irs -> at_path (pos ir) h = Some (fid ir.1);
  pl_only : forall p, is_Some (at_path p h) ->
    (exists ir, ir ∈ irs /\ p = pos ir) \/ is_Some (at_path p h0) /\ forall ir, ir ∈ irs -> p <> rn_path ir.2
}.

Lemma source_at ir : ir ∈ irs -> at_path (rn_path ir.2) h0 = Some (fid ir.1).
Proof. destruct ir as [i r]. rewrite elem_indexed. apply sources. Qed.
Lemma irs_fst_inj ir ir' : ir ∈ irs -> ir' ∈ irs -> ir.1 = ir'.1 -> ir = ir'.
Proof. destruct ir, ir'. rewrite !elem_indexed. simpl. intros ? ? ->. congruence. Qed.
Lemma path_inj ir ir' : ir ∈ irs -> ir' ∈ irs -> rn_path ir.2 = rn_path ir'.2 -> ir = ir'.
Proof.
  intros H1 H2 E. apply irs_fst_inj; try done. apply fid_inj.
  pose proof (source_at _ H1) as E1. pose proof (source_at _ H2) as E2. rewrite E in E1. congruence.
Qed.
Lemma go_valid ir : go ir = true -> rn_valid ir.2 = true.
Proof. intros Hm%goes_moving. unfold moving in Hm. by breflect. Qed.

(** Moving one item to a free place. *)
Lemma Placed_move pos h ir to : Placed pos h -> ir ∈ irs ->
  (forall x, x ∈ irs -> pos x <> to) -> (is_Some (at_path to h0) -> exists x, x ∈ irs /\ to = rn_path x.2) ->
  exists h', do_rename (pos ir) to h = (h', Ok tt) /\ Placed (fun x => if decide (x = ir) then to else pos x) h'.
Proof.
  intros [Ha Ho] Hin Hpos Hfree.
  assert (at_path to h = None) as Hto.
  { destruct (at_path to h) eqn:E; [|done]. destruct (Ho to ltac:(by rewrite E)) as [(x & Hx & ->)|[Hs Hn]].
    - by destruct (Hpos x Hx).
    - destruct (Hfree Hs) as (x & Hx & ->). by destruct (Hn x Hx). }
  pose proof (reliable (pos ir) to h ltac:(by rewrite (Ha ir Hin)) Hto) as Hok.
  destruct (do_rename (pos ir) to h) as [h' res] eqn:E. simpl in Hok. subst res. exists h'. split; [done|].
  destruct (rename_ok _ _ _ _ E) as (_ & _ & Hat). split.
  - intros x Hx. case_decide as Hxi; [subst x; by rewrite Hat, decide_True, Ha|].
    eapply rename_others; [exact E | by apply Ha | by apply Ha|].
    intros Hf%fid_inj. by apply Hxi, irs_fst_inj.
  - intros p. rewrite Hat. case_decide as Hp; [intros _; left; exists ir; by rewrite decide_True|].
    case_decide as Hp'; [by intros []|]. intros Hs. destruct (Ho p Hs) as [(x & Hx & ->)|]; [|by right].
    left. exists x. split; [done|]. rewrite decide_False; [done|]. by intros ->.
Qed.
Lemma Placed_ext pos pos' h : (forall x, x ∈ irs -> pos x = pos' x) -> Placed pos h -> Placed pos' h.
Proof.
  intros E [Ha Ho]. split; [intros x Hx; rewrite <- E by done; auto|].
  intros p Hp. destruct (Ho p Hp) as [(x & Hx & ->)|]; [left; exists x; by rewrite <- E | by right].
Qed.

Definition pos1 (processed : list (nat * Rename)) (x : nat * Rename) : jstr :=
  if go x && bool_decide (x ∈ processed) then rn_tmp x else rn_path x.2.
Definition pos2 (landed : list (nat * Rename)) (x : nat * Rename) : jstr :=
  if go x then if bool_decide (x ∈ landed) then rn_dst x.2 else rn_tmp x else rn_path x.2.
Definition entry_of (x : nat * Rename) : jstr * (jstr * jstr) := (rn_dst x.2, (rn_tmp x, rn_path x.2)).

(** The result of an item that keeps its name: a success only where that is the name asked for. *)
Definition kept (ir : nat * Rename) (res : BatchItemResult) : Prop := item_path res = rn_path ir.2 /\ (item_ok res = true -> rn_dst ir.2 = rn_path ir.2).
Lemma phase1_item_skip ir h results pending : go ir = false ->
  exists res, phase1_item humanize counts (final_blocked rs shown) ir (h, (results, pending)) = (h, (results ++ [res], pending)) /\ kept ir res.
Proof.
  intros Hg. unfold phase1_item. cbn beta iota zeta. unfold goes, active, moving, rn_valid in Hg.
  destruct (invalidNameReason (rn_newName ir.2)); [eexists; split; [reflexivity|]; done|].
  destruct (bool_decide (rn_dst ir.2 = rn_path ir.2)) eqn:Ed; breflect; [eexists; split; [reflexivity|]; done|].
  destruct (set_has ir.1 (final_blocked rs shown)); [eexists; split; [reflexivity|]; done|].
  cbn [is_some negb andb] in Hg. rewrite andb_true_r in Hg. breflect.
  rewrite (proj2 (Z.ltb_lt _ _)) by done. eexists; split; [reflexivity|]; done.
Qed.
Lemma phase1_item_go ir h results pending : go ir = true ->
  phase1_item humanize counts (final_blocked rs shown) ir (h, (results, pending)) =
  match do_rename (rn_path ir.2) (rn_tmp ir) h with
  | (h', Ok _) => (h', (results, map_set (rn_dst ir.2) (rn_tmp ir, rn_path ir.2) pending))
  | (h', Err e) => (h', (results ++ [fail_item humanize (rn_path ir.2) e], pending))
  end.
Proof.
  intros Hg. unfold phase1_item. cbn beta iota zeta. unfold goes, active, moving, rn_valid in Hg. breflect.
  destruct (invalidNameReason (rn_newName ir.2)); [done|].
  rewrite bool_decide_false by done. rewrite (proj2 (Z.ltb_ge _ _)) by done.
  by destruct (set_has ir.1 (final_blocked rs shown)).
Qed.

Lemma filter_snoc {A} (f : A -> bool) l x : List.filter f (l ++ [x]) = List.filter f l ++ (if f x then [x] else []).
Proof. rewrite List.filter_app. simpl. by destruct (f x). Qed.

Lemma bool_decide_snoc (x ir : nat * Rename) l : x <> ir -> bool_decide (x ∈ l ++ [ir]) = bool_decide (x ∈ l).
Proof. intros Hne. apply bool_decide_ext. rewrite elem_snoc. tauto. Qed.

Lemma entry_absent processed ir rest : processed ++ ir :: rest = irs -> go ir = true ->
  map_get (rn_dst ir.2) (entry_of <$> List.filter go processed) = None.
Proof.
  intros E Hg. apply map_get_None. unfold keys. rewrite <- list_fmap_compose.
  intros (x & Hx & [Hin Hgx]%elem_filter_bool)%list_elem_of_fmap. simpl in Hx.
  assert (x = ir) as ->.
  { apply (moving_unique rs); eauto using goes_moving; rewrite <- E; set_solver. }
  pose proof (NoDup_indexed_fst rs) as Hn. rewrite <- E, fmap_app, fmap_cons in Hn.
  apply NoDup_app in Hn as (_ & Hn & _). apply (Hn ir.1); [by apply list_elem_of_fmap_2 | left].
Qed.

Lemma reliable_phase1 rest processed h results :
  processed ++ rest = irs -> Placed (pos1 processed) h ->
  exists h' results', phase1 humanize counts (final_blocked rs shown) rest (h, (results, entry_of <$> List.filter go processed))
    = (h', (results', entry_of <$> List.filter go irs)) /\ Placed (pos1 irs) h' /\
    (forall res, res ∈ results' -> res ∈ results \/ exists ir, ir ∈ irs /\ go ir = false /\ kept ir res) /\
    (forall res, res ∈ results -> res ∈ results') /\
    (forall ir, ir ∈ rest -> go ir = false -> exists res, res ∈ results' /\ kept ir res).
Proof.
  revert processed h results. induction rest as [|ir rest IH]; intros processed h results E HP.
  { rewrite app_nil_r in E. subst processed. exists h, results. split_and!; [done..| by left | done | by intros ir ?%not_elem_of_nil]. }
  assert (ir ∈ irs) as Hin by (rewrite <- E; set_solver).
  assert (ir ∉ processed) as Hnew.
  { pose proof (NoDup_indexed_fst rs) as Hn. rewrite <- E, fmap_app, fmap_cons in Hn.
    apply NoDup_app in Hn as (_ & Hn & _). intros Hp. apply (Hn ir.1); [by apply list_elem_of_fmap_2 | left]. }
  assert (forall x, x ∈ processed ++ [ir] -> x ∈ irs) as Hsub by (intros x; rewrite <- E; set_solver).
  unfold phase1. cbn [fold_left]. destruct (go ir) eqn:Hg.
  - rewrite phase1_item_go by done.
    destruct (Placed_move (pos1 processed) h ir (rn_tmp ir) HP Hin) as (h' & Hren & HP').
    + intros x Hx Heq. unfold pos1 in Heq. destruct (go x && bool_decide (x ∈ processed)) eqn:Ex; breflect.
      * apply rn_tmp_inj in Heq; [|by apply go_valid..]. apply irs_fst_inj in Heq; [|done..]. by subst x.
      * pose proof (source_at x Hx) as Hs. rewrite Heq, tmp_free in Hs by done. done.
    + intros [f Hf]. by rewrite tmp_free in Hf.
    + assert (pos1 processed ir = rn_path ir.2) as Hpos.
      { unfold pos1. rewrite (bool_decide_false (ir ∈ processed)) by done. by rewrite andb_false_r. }
      rewrite Hpos in Hren. rewrite Hren, map_set_absent by (by eapply entry_absent).
      destruct (IH (processed ++ [ir]) h' results) as (h2 & res2 & IH1 & IH2 & IH3 & IH4 & IH5); [by rewrite <- app_assoc| |].
      * eapply Placed_ext; [|exact HP']. intros x Hx. simpl. unfold pos1. case_decide as Hxi.
        -- subst x. rewrite Hg, bool_decide_true; [done|]. apply elem_snoc. by right.
        -- by rewrite bool_decide_snoc.
      * exists h2, res2. split_and!; [|done..|].
        -- unfold phase1 in IH1. rewrite filter_snoc, Hg, fmap_app in IH1. exact IH1.
        -- intros x [->|Hx]%elem_of_cons Hgx; [congruence | by apply IH5].
  - destruct (phase1_item_skip ir h results (entry_of <$> List.filter go processed) Hg) as (res & -> & Hk).
    destruct (IH (processed ++ [ir]) h (results ++ [res])) as (h2 & res2 & IH1 & IH2 & IH3 & IH4 & IH5); [by rewrite <- app_assoc| |].
    + eapply Placed_ext; [|exact HP]. intros x Hx. simpl. unfold pos1. destruct (decide (x = ir)) as [->|Hxi]; [by rewrite Hg|].
      by rewrite bool_decide_snoc.
    + exists h2, res2. unfold phase1 in IH1. rewrite filter_snoc, Hg, app_nil_r in IH1. split_and!; [exact IH1 | done|..].
      * intros x Hx. destruct (IH3 x Hx) as [Hx'|]; [|by right]. apply elem_snoc in Hx' as [Hx'| ->]; [by left|]. right. eauto.
      * intros x Hx. apply IH4, elem_snoc. by left.
      * intros x [->|Hx]%elem_of_cons Hgx; [|by apply IH5]. exists res. split; [apply IH4, elem_snoc; by right | done].
Qed.

Lemma phase2_item_ok ir h h' results : do_rename (rn_tmp ir) (rn_dst ir.2) h = (h', Ok tt) ->
  phase2_item humanize (h, results) (entry_of ir) = (h', results ++ [item_result (rn_dst ir.2) true None None]).
Proof. intros E. unfold phase2_item, entry_of. by rewrite E. Qed.

Lemma reliable_phase2 waiting landed h results :
  landed ++ waiting = List.filter go irs -> Placed (pos2 landed) h ->
  exists h' results', phase2 humanize (entry_of <$> waiting) (h, results) = (h', results') /\
    Placed (pos2 (List.filter go irs)) h' /\
    (forall res, res ∈ results' -> res ∈ results \/ exists ir, ir ∈ irs /\ go ir = true /\ res = item_result (rn_dst ir.2) true None None) /\
    (forall res, res ∈ results -> res ∈ results') /\
    (forall ir, ir ∈ waiting -> item_result (rn_dst ir.2) true None None ∈ results').
Proof.
  revert landed h results. induction waiting as [|ir waiting IH]; intros landed h results E HP.
  { rewrite app_nil_r in E. subst landed. exists h, results. split_and!; [done..| by left | done | by intros ir ?%not_elem_of_nil]. }
  assert (ir ∈ irs /\ go ir = true) as [Hin Hg].
  { apply elem_filter_bool. rewrite <- E. set_solver. }
  assert (NoDup (landed ++ ir :: waiting)) as Hnd.
  { rewrite E. apply NoDup_filter_bool. eapply NoDup_fmap_1, (NoDup_indexed_fst rs). }
  assert (ir ∉ landed) as Hnew.
  { apply NoDup_app in Hnd as (_ & Hnd & _). intros Hl. apply (Hnd ir Hl). left. }
  assert (ir.2 ∈ rs) as Hrs.
  { destruct ir as [i r]. rewrite elem_indexed in Hin. by eapply list_elem_of_lookup_2. }
  unfold phase2. rewrite fmap_cons. cbn [fold_left].
  destruct (Placed_move (pos2 landed) h ir (rn_dst ir.2) HP Hin) as (h' & Hren & HP').
  - intros x Hx Heq. unfold pos2 in Heq. destruct (go x) eqn:Hgx; [case_bool_decide as Hxl|].
    + assert (x = ir) as ->; [|done]. apply (moving_unique rs); eauto using goes_moving.
    + by apply (tmp_target x ir).
    + assert (rn_dst ir.2 ∈ shown) as Hs. { apply fresh; [done|]. rewrite <- Heq, source_at by done. done. }
      destruct (goes_target rs shown ir Hin Hg Hs) as (y & Hy & Hgy & Hpy).
      assert (x = y) as -> by (apply path_inj; congruence). congruence.
  - intros Hs. destruct (goes_target rs shown ir Hin Hg) as (y & Hy & Hgy & Hpy); [by apply fresh|]. eauto.
  - assert (pos2 landed ir = rn_tmp ir) as Hpos by (unfold pos2; by rewrite Hg, bool_decide_false).
    rewrite Hpos in Hren. rewrite (phase2_item_ok _ _ _ _ Hren).
    destruct (IH (landed ++ [ir]) h' (results ++ [item_result (rn_dst ir.2) true None None])) as (h2 & res2 & IH1 & IH2 & IH3 & IH4 & IH5);
      [by rewrite <- app_assoc| |].
    + eapply Placed_ext; [|exact HP']. intros x Hx. simpl. unfold pos2. case_decide as Hxi.
      * subst x. rewrite Hg, bool_decide_true; [done|]. apply elem_snoc. by right.
      * by rewrite bool_decide_snoc.
    + exists h2, res2. split_and!; [exact IH1 | done|..].
      * intros x Hx. destruct (IH3 x Hx) as [Hx'|]; [|by right]. apply elem_snoc in Hx' as [Hx'| ->]; [by left|]. right. eauto.
      * intros x Hx. apply IH4, elem_snoc. by left.
      * intros x [->|Hx]%elem_of_cons; [|by apply IH5]. apply IH4, elem_snoc. by right.
Qed.

Lemma Placed_start : Placed (pos1 []) h0.
Proof.
  split.
  - intros ir Hin. unfold pos1. rewrite bool_decide_false by set_solver. rewrite andb_false_r. by apply source_at.
  - intros p Hp. destruct (decide (Exists (fun ir => p = rn_path ir.2) irs)) as [(ir & Hin & ->)%Exists_exists|Hn].
    + left. exists ir. split; [done|]. unfold pos1. rewrite bool_decide_false by set_solver. by rewrite andb_false_r.
    + right. split; [done|]. intros ir Hin ->. apply Hn, Exists_exists. eauto.
Qed.

Lemma batchRename_placed :
  let '(h', res) := batchRename humanize onScreen replies rs h0 in
  (forall ir, ir ∈ irs -> at_path (if go ir then rn_dst ir.2 else rn_path ir.2) h' = Some (fid ir.1)) /\
  (forall ir, ir ∈ irs -> exists x, x ∈ batch_results res /\ if go ir then x = item_result (rn_dst ir.2) true None None else kept ir x) /\
  (forall x, x ∈ batch_results res -> exists ir, ir ∈ irs /\ if go ir then x = item_result (rn_dst ir.2) true None None else kept ir x).
Proof.
  unfold batchRename. fold (final_blocked rs shown).
  destruct (reliable_phase1 irs [] h0 [] eq_refl Placed_start) as (h1 & results & E1 & HP1 & Hr1 & _ & Hk1).
  simpl fmap in E1. rewrite E1.
  destruct (reliable_phase2 (List.filter go irs) [] h1 results eq_refl) as (h2 & results' & E2 & HP2 & Hr2 & Hm2 & Hk2).
  { eapply Placed_ext; [|exact HP1]. intros x Hx. unfold pos1, pos2.
    rewrite (bool_decide_true (x ∈ irs)) by done. rewrite andb_true_r. destruct (go x); [|done].
    by rewrite bool_decide_false by set_solver. }
  rewrite E2. split_and!.
  - intros ir Hin. pose proof (pl_at _ _ HP2 ir Hin) as Hat. unfold pos2 in Hat.
    destruct (go ir) eqn:Hg; [|done]. rewrite bool_decide_true in Hat; [done|]. by apply elem_filter_bool.
  - simpl. intros ir Hin. destruct (go ir) eqn:Hg.
    + eexists. split; [|reflexivity]. by apply Hk2, elem_filter_bool.
    + destruct (Hk1 ir Hin Hg) as (x & Hx & Hk). exists x. split; [by apply Hm2 | done].
  - simpl. intros x Hx. destruct (Hr2 x Hx) as [Hx1|(ir & Hin & Hg & ->)].
    + destruct (Hr1 x Hx1) as [?%not_elem_of_nil|(ir & Hin & Hg & Hp)]; [done|]. exists ir. by rewrite Hg.
    + exists ir. by rewrite Hg.
Qed.
End Reliable.

(** ** Hosts *)

Definition not_found : jserror := AgentApiError 404 (js "NOT_FOUND") (js "not found") None.
Definition already_exists : jserror := AgentApiError 409 (js "ALREADY_EXISTS") (js "already exists") None.
Definition files_rename (from to : jstr) (fs : list (jstr * Z)) : list (jstr * Z) * result jserror unit :=
  match map_get from fs, map_get to fs with
  | Some f, None => (map_set to f (map_delete from fs), Ok tt)
  | None, _ => (fs, Err not_found)
  | _, Some _ => (fs, Err already_exists)
  end.
Lemma files_rename_ok from to fs fs' : files_rename from to fs = (fs', Ok tt) ->
  is_Some (map_get from fs) /\ map_get to fs = None /\
  forall p, map_get p fs' = if decide (p = to) then map_get from fs else if decide (p = from) then None else map_get p fs.
Proof.
  unfold files_rename. destruct (map_get from fs) eqn:E1, (map_get to fs) eqn:E2; intros [= <-].
  split; [done|]. split; [done|]. intros p. rewrite map_get_set, map_get_delete.
  repeat case_decide; simplify_eq; done.
Qed.
Lemma files_rename_err from to fs fs' e : files_rename from to fs = (fs', Err e) -> forall p, map_get p fs' = map_get p fs.
Proof. unfold files_rename. repeat case_match; by intros [= <-]. Qed.

(** A folder tree that refuses only a missing source or a taken target. *)
#[export] Instance files_host : RenameHost (list (jstr * Z)) := {|
  at_path := map_get; do_rename := files_rename; rename_ok := files_rename_ok; rename_err := files_rename_err |}.

(** The same, where each request may also fail for no reason: [true] fails the next one. *)
Definition faulty_rename (from to : jstr) (h : list (jstr * Z) * list bool) : (list (jstr * Z) * list bool) * result jserror unit :=
  match h.2 with
  | true :: faults => ((h.1, faults), Err (NativeError ERR_CONNECTION (js "down")))
  | faults => let '(fs, r) := files_rename from to h.1 in ((fs, tail faults), r)
  end.
#[export] Program Instance faulty_host : RenameHost (list (jstr * Z) * list bool) := {|
  at_path p h := map_get p h.1; do_rename := faulty_rename |}.
Next Obligation.
  intros from to [fs faults] h'. unfold faulty_rename. simpl.
  destruct (files_rename from to fs) as [fs' r] eqn:E.
  destruct faults as [|[] faults]; intros [=]; subst; by apply (files_rename_ok from to fs fs').
Qed.
Next Obligation.
  intros from to [fs faults] h' e. unfold faulty_rename. simpl.
  destruct (files_rename from to fs) as [fs' r] eqn:E.
  destruct faults as [|[] faults]; intros [=]; subst; simpl; try done; by apply (files_rename_err from to fs fs' e).
Qed.

(** ** The properties *)

(** C2 Whatever the host refuses and in whatever order (a refused rename having
      changed nothing), a batch rename accounts
      for every selected file: for each of them one of the returned results names
      a path at which that file really is, as a success only when that path is the
      one asked for, and as a failure when it kept its own name or (with the code
      RENAME_STRANDED) its temporary one; files that were not selected never move. *)
Theorem batchRename_accounts_for_every_file {H : Type} `{!RenameHost H} (humanize : jserror -> jstr)
    (rs : list Rename) (fid : nat -> Z) (h0 : H) (onScreen : list jstr) (replies : list (result jserror Listing)) :
  (forall i r, rs !! i = Some r -> at_path (rn_path r) h0 = Some (fid i)) ->
  (forall i j, fid i = fid j -> i = j) ->
  let '(h', res) := batchRename humanize onScreen replies rs h0 in
  (forall i r, rs !! i = Some r -> exists item, item ∈ batch_results res /\ outcome_of (i, r) item /\
     at_path (item_path item) h' = Some (fid i)) /\
  (forall p f, at_path p h0 = Some f -> (forall i, (i < length rs)%nat -> fid i <> f) -> at_path p h' = Some f).
Proof.
  intros Hs Hf. pose proof (batchRename_reported humanize rs fid h0 Hs Hf onScreen replies) as Hr.
  destruct (batchRename humanize onScreen replies rs h0) as [h' res]. destruct Hr as [H1 H2].
  split; [|exact H2]. intros i r Hi. apply (H1 (i, r)). by apply elem_indexed.
Qed.

Definition sample_files : list (jstr * Z) := [(js "/d/a", 0); (js "/d/b", 1)].
Definition sample_swap : list Rename :=
  [{| rn_path := js "/d/a"; rn_newName := js "b" |}; {| rn_path := js "/d/b"; rn_newName := js "a" |}].

Lemma batchRename_accounts_for_every_file_witness :
  exists item, item ∈ batch_results (batchRename errMessage [] [] sample_swap (sample_files, [false; false; true; true])).2 /\
    outcome_of (0%nat, {| rn_path := js "/d/a"; rn_newName := js "b" |}) item /\
    at_path (item_path item) (batchRename errMessage [] [] sample_swap (sample_files, [false; false; true; true])).1 = Some 0.
Proof.
  assert (forall i r, sample_swap !! i = Some r -> at_path (rn_path r) (sample_files, [false; false; true; true]) = Some (Z.of_nat i)) as Hs.
  { intros [|[|i]] r E; try (injection E as <-; vm_compute; reflexivity). discriminate E. }
  pose proof (batchRename_accounts_for_every_file errMessage sample_swap Z.of_nat (sample_files, [false; false; true; true])
    [] [] Hs Nat2Z.inj) as Ht.
  destruct (batchRename errMessage [] [] sample_swap (sample_files, [false; false; true; true])) as [h' res].
  exact (proj1 Ht 0%nat _ eq_refl).
Defined.

(** The refusal loop of a batch rename ends in at most one round per item and
      is exact: of the items with a valid, new and unshared target, precisely those
      go ahead whose target is free on screen or is vacated by another item that
      goes ahead. *)
Theorem batchRename_refusals_exact (rs : list Rename) (shown : list jstr) (i : nat) (r : Rename) :
  rs !! i = Some r -> moving (target_counts rs) r = true ->
  block_round (target_counts rs) shown (indexed rs) (final_blocked rs shown) = [] /\
  (goes rs shown (i, r) = true <->
   (rn_dst r ∈ shown -> exists j r', rs !! j = Some r' /\ goes rs shown (j, r') = true /\ rn_path r' = rn_dst r)).
Proof.
  intros Hi Hm. split.
  { apply block_loop_stable; [apply NoDup_nil_2 | set_solver | simpl; lia]. }
  rewrite (goes_exact rs shown (i, r)) by (by rewrite ?elem_indexed). simpl. split; intros Himp Hs.
  - destruct (Himp Hs) as ([j r'] & Hj & Hg & Hp). exists j, r'. by rewrite <- elem_indexed.
  - destruct (Himp Hs) as (j & r' & Hj & Hg & Hp). exists (j, r'). by rewrite elem_indexed.
Qed.
Lemma batchRename_refusals_exact_witness :
  goes sample_swap [js "/d/a"; js "/d/b"] (0%nat, {| rn_path := js "/d/a"; rn_newName := js "b" |}) = true.
Proof.
  apply (proj2 (batchRename_refusals_exact sample_swap [js "/d/a"; js "/d/b"] 0 _ eq_refl eq_refl)).
  intros _. exists 1%nat. eexists. split; [reflexivity|]. split; vm_compute; reflexivity.
Defined.

(** ** Which renames can go ahead *)

(** A name the folder can have, a path that is shown or on a page read before a page failed or was
    the last, and a rename to a usable new name that no other usable rename of the batch asks for. *)
Definition usable_name (n : jstr) : Prop :=
  trim n <> [] /\ n <> js "." /\ n <> js ".." /\ forall c, c ∈ n -> c <> 47 /\ c <> 92 /\ ~ (0 <= c <= 31).
Definition told (onScreen : list jstr) (replies : list (result jserror Listing)) (p : jstr) : Prop :=
  p ∈ onScreen \/ exists k l, replies !! k = Some (Ok l) /\ p ∈ entry_path <$> listing_entries l /\
    forall j, (j < k)%nat -> exists l' c cur, replies !! j = Some (Ok l') /\ listing_nextCursor l' = Some (c :: cur).
Definition movable (rs : list Rename) (i : nat) (r : Rename) : Prop :=
  usable_name (rn_newName r) /\ rn_dst r <> rn_path r /\
  forall j r', rs !! j = Some r' -> j <> i -> usable_name (rn_newName r') -> rn_dst r' <> rn_dst r.
(** The largest set of movable items each of whose targets is free or left by an item of the set. *)
Definition goes_together (taken : jstr -> Prop) (rs : list Rename) (S : nat -> Prop) : Prop :=
  forall i, S i -> exists r, rs !! i = Some r /\ movable rs i r /\
    (taken (rn_dst r) -> exists j r', S j /\ rs !! j = Some r' /\ rn_path r' = rn_dst r).
Definition may_go (taken : jstr -> Prop) (rs : list Rename) (i : nat) : Prop := exists S, goes_together taken rs S /\ S i.

Lemma rn_valid_usable r : rn_valid r = true <-> usable_name (rn_newName r).
Proof.
  unfold rn_valid, invalidNameReason, usable_name. set (n := rn_newName r).
  destruct (bool_decide_reflect (trim n = [])); [cbn; naive_solver|].
  destruct (bool_decide_reflect (n = js ".")); [cbn; naive_solver|]. destruct (bool_decide_reflect (n = js "..")); [cbn; naive_solver|]. cbn [orb].
  destruct (existsb is_sep n) eqn:E1.
  { cbn. apply existsb_exists in E1 as (c & Hc%list_elem_of_In & Hs). unfold is_sep, slash, backslash in Hs. breflect. split; [done|]. intros (_ & _ & _ & Hall). specialize (Hall c Hc). lia. }
  destruct (existsb is_control n) eqn:E2.
  { cbn. apply existsb_exists in E2 as (c & Hc%list_elem_of_In & Hs). unfold is_control in Hs. breflect. split; [done|]. intros (_ & _ & _ & Hall). specialize (Hall c Hc). lia. }
  cbn. split; [|done]. intros _. split_and!; [done..|]. intros c Hc. rewrite existsb_false_forall, Forall_forall in E1, E2. specialize (E1 c Hc). specialize (E2 c Hc).
  unfold is_sep, is_control, slash, backslash in *. breflect. lia.
Qed.
Lemma elem_add_paths (es : list Entry) shown p : p ∈ fold_left (fun s e => set_add (entry_path e) s) es shown <-> p ∈ shown \/ p ∈ entry_path <$> es.
Proof. revert shown. induction es as [|e es IH]; intros shown; cbn; [set_solver|]. rewrite IH, elem_set_add. set_solver. Qed.
Lemma elem_collect_pages replies shown p : p ∈ collect_pages replies shown <-> p ∈ shown \/ told [] replies p.
Proof.
  unfold told. revert shown. induction replies as [|[l|e] replies IH]; intros shown; cbn [collect_pages].
  - split; [by left|]. intros [?|[?%not_elem_of_nil|(k & l & E & _)]]; done.
  - assert (p ∈ fold_left (fun s e => set_add (entry_path e) s) (listing_entries l) shown \/ (exists c cur, listing_nextCursor l = Some (c :: cur)) /\ told [] replies p <->
      p ∈ shown \/ told [] (Ok l :: replies) p) as Hstep.
    { rewrite elem_add_paths. unfold told. split.
      - intros [[?|?]|[(c & cur & Ec) [?%not_elem_of_nil|(k & l' & E & Hp & Hj)]]]; [by left | | done|].
        + right. right. exists 0%nat, l. split_and!; [done..|]. intros j. lia.
        + right. right. exists (S k), l'. split_and!; [done..|]. intros [|j] Hlt; [by exists l, c, cur|]. apply Hj. lia.
      - intros [?|[?%not_elem_of_nil|([|k] & l' & E & Hp & Hj)]]; [by left; left | done| |].
        + injection E as <-. left. by right.
        + right. destruct (Hj 0%nat ltac:(lia)) as (l0 & c & cur & [= <-] & Ec). split; [by exists c, cur|]. right. exists k, l'. split_and!; [done..|].
          intros j Hlt. apply (Hj (S j)). lia. }
    unfold told in Hstep. rewrite <- Hstep. destruct (listing_nextCursor l) as [[|c cur]|]; [split; [by left | intros [?|[(? & ? & ?) _]]; done]| |split; [by left | intros [?|[(? & ? & ?) _]]; done]].
    rewrite IH. naive_solver.
  - split; [by left|]. intros [?|[?%not_elem_of_nil|([|k] & l & E & _ & Hj)]]; [done..|]. by destruct (Hj 0%nat ltac:(lia)) as (? & ? & ? & ? & _).
Qed.
Lemma elem_shown onScreen replies p : p ∈ collect_pages replies (set_of onScreen) <-> told onScreen replies p.
Proof. rewrite elem_collect_pages, elem_set_of. unfold told. set_solver. Qed.

Lemma moving_movable rs i r : rs !! i = Some r -> moving (target_counts rs) r = true <-> movable rs i r.
Proof.
  intros Hi. unfold moving, movable. rewrite !andb_true_iff, negb_true_iff, bool_decide_eq_false, rn_valid_usable, Z.leb_le, target_counts_aims. split.
  - intros [[Hv Hd] Hc]. split_and!; [done..|]. intros j r' Hj Hne Hv' Hdst. rewrite <- rn_valid_usable in Hv, Hv'.
    pose proof (aims_two rs i j r r' Hi Hj ltac:(done) Hv Hv' Hdst). lia.
  - intros (Hv & Hd & Hu). split_and!; [done..|]. enough (aims (rn_dst r) rs <= 1)%nat by lia.
    assert (forall l k, (forall j r', l !! j = Some r' -> usable_name (rn_newName r') -> rn_dst r' = rn_dst r -> j = k) -> (aims (rn_dst r) l <= 1)%nat) as Haux.
    { clear. unfold aims. induction l as [|x l IH]; intros k H; cbn; [lia|]. destruct (rn_valid x && _) eqn:E; cbn.
      - breflect. rewrite filter_none; [cbn; lia|]. apply Forall_forall. intros y [j Hj]%list_elem_of_lookup. apply not_true_iff_false. intros Hy. breflect.
        assert (S j = k) by (eapply H; [exact Hj | by apply rn_valid_usable | done]). assert (0%nat = k) by (eapply (H 0%nat); [reflexivity | by apply rn_valid_usable | done]). lia.
      - apply (IH (pred k)). intros j r' Hj Hv Hd. rewrite <- (H (S j) r' Hj Hv Hd). done. }
    apply (Haux rs i). intros j r' Hj Hv' Hd'. destruct (decide (j = i)); [done|]. by destruct (Hu j r').
Qed.
(** No member of such a set is ever refused. *)
Lemma together_unblocked rs shown S fuel blocked : goes_together (fun p => p ∈ shown) rs S -> (forall i, S i -> i ∉ blocked) ->
  forall i, S i -> i ∉ block_loop fuel (target_counts rs) shown (indexed rs) blocked.
Proof.
  intros HS. revert blocked. induction fuel as [|f IH]; intros blocked Hb; [done|]. cbn [block_loop].
  destruct (block_round (target_counts rs) shown (indexed rs) blocked) as [|n new] eqn:E; [done|]. rewrite <- E. apply IH.
  intros i Hi [?|Hin]%elem_of_app; [by apply (Hb i)|]. apply list_elem_of_fmap in Hin as ([i' r] & -> & [Hir H]%elem_filter_bool). cbn [fst snd] in *. breflect.
  destruct (HS i' Hi) as (r' & Hr' & _ & Ht). rewrite elem_indexed in Hir. assert (r' = r) as -> by congruence.
  destruct Ht as (j & x & Hj & Hx & Hp); [by apply set_has_spec|]. eapply set_has_false; [eassumption|]. unfold vacated. rewrite elem_set_of, <- Hp.
  apply (list_elem_of_fmap_2 (fun ir => rn_path ir.2) _ (j, x)), elem_filter_bool. rewrite elem_indexed. split; [done|]. unfold active. cbn.
  destruct (HS j Hj) as (x' & Hx' & Hm & _). assert (x' = x) as -> by congruence. rewrite (proj2 (moving_movable _ _ _ Hx) Hm). cbn. apply negb_true_iff, set_has_false, Hb, Hj.
Qed.
Lemma goes_may_go rs shown i r : rs !! i = Some r -> goes rs shown (i, r) = true <-> may_go (fun p => p ∈ shown) rs i.
Proof.
  intros Hi. split.
  - intros Hg. exists (fun j => exists x, rs !! j = Some x /\ goes rs shown (j, x) = true). split; [|by exists r].
    intros j (x & Hx & Hgx). exists x. split; [done|]. split; [by apply moving_movable, (goes_moving rs shown (j, x))|].
    intros Ht. destruct (goes_target rs shown (j, x)) as ([k y] & Hy & Hgy & Hp); [by apply elem_indexed | done..|]. rewrite elem_indexed in Hy. exists k, y. split; [by exists y | done].
  - intros (S & HS & HSi). unfold goes, active. destruct (HS i HSi) as (r' & Hr' & Hm & _). assert (r' = r) as -> by congruence. cbn [fst snd].
    rewrite (proj2 (moving_movable _ _ _ Hi) Hm), andb_true_l. apply negb_true_iff, set_has_false. unfold final_blocked. apply (together_unblocked rs shown S); [done | | done]. by intros j _ ?%not_elem_of_nil.
Qed.
Lemma may_go_ext P Q rs i : (forall p, P p <-> Q p) -> may_go P rs i <-> may_go Q rs i.
Proof.
  intros E. assert (forall P Q : jstr -> Prop, (forall p, P p <-> Q p) -> may_go P rs i -> may_go Q rs i) as H; [|split; apply H; [done | by intros p; symmetry]].
  clear. intros P Q E (S & HS & Hi). exists S. split; [|done]. intros j Hj. destruct (HS j Hj) as (r & Hr & Hm & Ht). exists r. split_and!; [done..|]. by rewrite <- E.
Qed.

(** C3 On a host that refuses only taken names, with every file at a target among the rows on
      screen or on the pages read, and the temporary names unused, the batch moves exactly the
      largest set of items that can move together: those with a usable, new name nobody else in
      the batch asks for, whose target is not listed or is left by another item of the set. Each
      of them is at its new name afterwards and reported there as a success; every other item
      keeps its name and is reported there, as a success only if that is the name asked for; no
      other result is returned. So chains and swaps succeed and nothing stays under a temporary
      name. *)
Theorem batchRename_exact {H : Type} `{!RenameHost H} (humanize : jserror -> jstr)
    (rs : list Rename) (fid : nat -> Z) (h0 : H) (onScreen : list jstr) (replies : list (result jserror Listing)) :
  let go := may_go (told onScreen replies) rs in
  (forall i r, rs !! i = Some r -> at_path (rn_path r) h0 = Some (fid i)) ->
  (forall i j, fid i = fid j -> i = j) ->
  (forall from to h, is_Some (at_path from h) -> at_path to h = None -> (do_rename from to h).2 = Ok tt) ->
  (forall r, r ∈ rs -> is_Some (at_path (rn_dst r) h0) -> told onScreen replies (rn_dst r)) ->
  (forall ir, ir ∈ indexed rs -> at_path (rn_tmp ir) h0 = None) ->
  (forall ir ir', ir ∈ indexed rs -> ir' ∈ indexed rs -> rn_tmp ir <> rn_dst ir'.2) ->
  let '(h', res) := batchRename humanize onScreen replies rs h0 in
  let told_of i r item := go i /\ item = item_result (rn_dst r) true None None \/
                          ~ go i /\ item_path item = rn_path r /\ (item_ok item = true -> rn_dst r = rn_path r) in
  (forall i r, rs !! i = Some r ->
     (go i -> at_path (rn_dst r) h' = Some (fid i)) /\ (~ go i -> at_path (rn_path r) h' = Some (fid i)) /\
     exists item, item ∈ batch_results res /\ told_of i r item) /\
  (forall item, item ∈ batch_results res -> exists i r, rs !! i = Some r /\ told_of i r item).
Proof.
  intros go Hs Hf Hrel Hfresh Htmp Htt. set (shown := collect_pages replies (set_of onScreen)).
  assert (forall r, r ∈ rs -> is_Some (at_path (rn_dst r) h0) -> rn_dst r ∈ shown) as Hfr by (intros r Hr Ho; by apply elem_shown, Hfresh).
  pose proof (batchRename_placed humanize rs fid h0 onScreen replies Hs Hf Hrel Hfr Htmp Htt) as Hp.
  assert (forall i r, rs !! i = Some r -> goes rs shown (i, r) = true <-> go i) as Hgo.
  { intros i r Hi. rewrite (goes_may_go rs shown i r Hi). apply may_go_ext. intros p. apply elem_shown. }
  destruct (batchRename humanize onScreen replies rs h0) as [h' res]. destruct Hp as (H1 & H2 & H3). fold shown in H1, H2, H3.
  assert (forall i r x, rs !! i = Some r -> (if goes rs shown (i, r) then x = item_result (rn_dst r) true None None else kept (i, r) x) ->
    go i /\ x = item_result (rn_dst r) true None None \/ ~ go i /\ item_path x = rn_path r /\ (item_ok x = true -> rn_dst r = rn_path r)) as Hx.
  { intros i r x Hi Hk. destruct (goes rs shown (i, r)) eqn:E; [left | right].
    - split; [by apply (Hgo i r) | done].
    - split; [rewrite <- (Hgo i r Hi); congruence | exact Hk]. }
  cbv zeta. split.
  - intros i r Hi. pose proof (H1 (i, r) (proj2 (elem_indexed _ _ _) Hi)) as Hat. destruct (H2 (i, r) (proj2 (elem_indexed _ _ _) Hi)) as (x & Hin & Hk). cbn [fst snd] in Hat, Hk. split_and!.
    + intros Hg. by rewrite (proj2 (Hgo i r Hi) Hg) in Hat.
    + intros Hg. rewrite <- (Hgo i r Hi) in Hg. apply not_true_iff_false in Hg. by rewrite Hg in Hat.
    + exists x. split; [done | by apply Hx].
  - intros x Hin. destruct (H3 x Hin) as ([i r] & Hi & Hk). rewrite elem_indexed in Hi. exists i, r. split; [done | by apply Hx].
Qed.

Lemma batchRename_exact_witness :
  may_go (told [js "/d/a"; js "/d/b"] []) sample_swap 0 /\
  at_path (js "/d/b") (batchRename errMessage [js "/d/a"; js "/d/b"] [] sample_swap sample_files).1 = Some 0.
Proof.
  assert (may_go (told [js "/d/a"; js "/d/b"] []) sample_swap 0) as Hg.
  { apply (may_go_ext (fun p => p ∈ [js "/d/a"; js "/d/b"])).
    - intros p. rewrite <- (elem_shown [js "/d/a"; js "/d/b"] [] p). cbn [collect_pages]. by rewrite elem_set_of.
    - apply (goes_may_go _ _ 0 {| rn_path := js "/d/a"; rn_newName := js "b" |}); [reflexivity | vm_compute; reflexivity]. }
  split; [exact Hg|].
  assert (forall x : nat * Rename, x ∈ indexed sample_swap ->
    x = (0%nat, {| rn_path := js "/d/a"; rn_newName := js "b" |}) \/ x = (1%nat, {| rn_path := js "/d/b"; rn_newName := js "a" |})) as Hcases.
  { intros x Hx. apply elem_of_cons in Hx as [->|Hx]; [by left|]. apply list_elem_of_singleton in Hx as ->. by right. }
  pose proof (batchRename_exact errMessage sample_swap Z.of_nat sample_files [js "/d/a"; js "/d/b"] []) as Ht.
  cbv zeta in Ht. specialize (Ht ltac:(intros [|[|i]] r E; try (injection E as <-; vm_compute; reflexivity); discriminate E) Nat2Z.inj).
  specialize (Ht ltac:(intros from to h [f Hf] Hto; cbn in *; unfold files_rename; rewrite Hf, Hto; reflexivity)).
  specialize (Ht ltac:(intros r Hr _; left; apply elem_of_cons in Hr as [->|Hr];
    [by apply set_has_spec; vm_compute | apply list_elem_of_singleton in Hr as ->; by apply set_has_spec; vm_compute])).
  specialize (Ht ltac:(intros x Hx; destruct (Hcases x Hx) as [->| ->]; vm_compute; reflexivity)).
  specialize (Ht ltac:(intros x y Hx Hy; destruct (Hcases x Hx) as [->| ->], (Hcases y Hy) as [->| ->]; vm_compute; discriminate)).
  destruct (batchRename errMessage [js "/d/a"; js "/d/b"] [] sample_swap sample_files) as [h' res].
  destruct Ht as [Ht _]. exact (proj1 (Ht 0%nat _ eq_refl) Hg).
Defined.
