(* ===== verification/Host.v ===== *)
(** * Paired hosts and their routes

    [core/models/host.ts]: the stored record of a paired computer, the syntax of
    a direct HTTPS authority, and the order in which its addresses are tried. *)

From Stdlib Require Import ZArith Lia Bool.
From Stdlib Require List.
From S2P Require Import Prelude JsCollections JsString Json Errors.

Inductive HostRoute := lan | tailscale | directHttps | custom.
#[export] Instance HostRoute_eq_dec : EqDecision HostRoute.
Proof. solve_decision. Defined.

Record Host := {
  host_id : jstr;
  host_label : jstr;
  host_address : jstr;
  certFingerprint : option jstr;
  tailscaleName : option jstr;
  tailscaleAddress : option jstr;
  internetAddress : option jstr;
  macAddress : option jstr;
  note : option jstr
}.
#[export] Instance Host_eq_dec : EqDecision Host.
Proof. solve_decision. Defined.

(** ** The stored record *)

Definition hostFromJson (v : json) : option Host :=
  match v with
  | JObj j =>
      match as_str (field (js "id") j), as_str (field (js "label") j), as_str (field (js "address") j) with
      | Some id, Some label, Some address => Some {|
          host_id := id; host_label := label; host_address := address;
          certFingerprint := as_str (field (js "certFingerprint") j);
          tailscaleName := as_str (field (js "tailscaleName") j);
          tailscaleAddress := as_str (field (js "tailscaleAddress") j);
          internetAddress := as_str (field (js "internetAddress") j);
          macAddress := as_str (field (js "macAddress") j);
          note := as_str (field (js "note") j) |}
      | _, _, _ => None
      end
  | _ => None   (* an array has none of the three fields *)
  end.

Definition opt_field (k : string) (v : option jstr) : list (jstr * json) :=
  match v with Some s => [(js k, JStr s)] | None => [] end.
Definition hostToJson (h : Host) : json := JObj (
  [(js "id", JStr (host_id h)); (js "label", JStr (host_label h)); (js "address", JStr (host_address h))]
  ++ opt_field "certFingerprint" (certFingerprint h) ++ opt_field "tailscaleName" (tailscaleName h)
  ++ opt_field "tailscaleAddress" (tailscaleAddress h) ++ opt_field "internetAddress" (internetAddress h)
  ++ opt_field "macAddress" (macAddress h) ++ opt_field "note" (note h)).

(** ** Authority syntax *)

Definition all_digits (s : jstr) : bool := nonempty s && List.forallb is_digit s.
Definition validPort (port : option jstr) : bool :=
  match port with
  | None => true
  | Some p => let n := nat_of_digits p in (1 <=? n) && (n <=? 65535) && all_digits p
  end.
Definition valid_octet (o : jstr) : bool :=
  (1 <=? length o)%nat && (length o <=? 3)%nat && all_digits o && (nat_of_digits o <=? 255).
Definition validIpv4 (address : jstr) : bool :=
  let octets := split_on (Z.eqb dot) address in
  (length octets =? 4)%nat && List.forallb valid_octet octets.

Definition double_colon : jstr := [colon; colon].
(** The segments around the first [::], or all of them; [None] for a second [::]. *)
Definition ipv6_segments (address : jstr) : option (bool * list jstr) :=
  match index_of_str double_colon address with
  | Some at_ =>
      if includes double_colon (drop (at_ + 2) address) then None
      else Some (true, (if (0 <? at_)%nat then split_on (Z.eqb colon) (take at_ address) else [])
                       ++ (if (at_ + 2 <? length address)%nat then split_on (Z.eqb colon) (drop (at_ + 2) address) else []))
  | None => Some (false, split_on (Z.eqb colon) address)
  end.
(** 16-bit units of the segments, an IPv4 tail counting two; [None] when one is malformed. *)
Fixpoint ipv6_units (segments : list jstr) : option Z :=
  match segments with
  | [] => Some 0
  | s :: rest =>
      match ipv6_units rest with
      | None => None
      | Some n =>
          if includes_char dot s then
            match rest with [] => if validIpv4 s then Some (n + 2) else None | _ => None end
          else if (length s <=? 4)%nat && nonempty s && List.forallb is_hex s then Some (n + 1) else None
      end
  end.
Definition validIpv6 (address : jstr) : bool :=
  includes_char colon address &&
  match ipv6_segments address with
  | None => false
  | Some (compressed, segments) =>
      negb (List.existsb (fun s => negb (nonempty s)) segments) &&
      match ipv6_units segments with
      | None => false
      | Some units => if compressed then units <? 8 else units =? 8
      end
  end.

(** [(?::([0-9]{1,5}))?$]: nothing, or a colon and one to five digits. *)
Definition parse_port (rest : jstr) : option (option jstr) :=
  match rest with
  | [] => Some None
  | c :: p => if (c =? colon) && (length p <=? 5)%nat && all_digits p then Some (Some p) else None
  end.
(** [[\s\x00-\x1f\x7f]] or one of the characters that end or split an authority. *)
Definition is_blank (c : jchar) : bool := is_space c || is_control c || (c =? 127).
Definition is_url_special (c : jchar) : bool :=
  (c =? slash) || (c =? backslash) || (c =? 63) || (c =? 35) || (c =? 64).
Definition is_v6_char (c : jchar) : bool := is_hex c || (c =? colon) || (c =? dot).
Definition is_host_char (c : jchar) : bool := negb ((c =? colon) || (c =? 91) || (c =? 93)).
(** [/^[A-Za-z0-9](?:[A-Za-z0-9-]*[A-Za-z0-9])?$/], at most 63 characters. *)
Definition valid_label (l : jstr) : bool :=
  (length l <=? 63)%nat && match l with c :: _ => is_alnum c | [] => false end &&
  match last l with Some c => is_alnum c | None => false end &&
  List.forallb (fun c => is_alnum c || (c =? 45)) l.
(** [/^[0-9]+(?:\.[0-9]+){3}$/]. *)
Definition looks_ipv4 (h : jstr) : bool :=
  let w := split_on (Z.eqb dot) h in (length w =? 4)%nat && List.forallb all_digits w.

Definition valid_v6_authority (value : jstr) : option bool :=
  match value with
  | 91 :: r =>
      let inner := take_while is_v6_char r in
      match drop_while is_v6_char r with
      | 93 :: rest => match inner, parse_port rest with
                      | _ :: _, Some port => Some (validIpv6 inner && validPort port)
                      | _, _ => None
                      end
      | _ => None
      end
  | _ => None
  end.
Definition isValidInternetAddress (value : jstr) : bool :=
  if negb (nonempty value) || negb (bool_decide (value = trim value)) then false
  else if List.existsb is_blank value || List.existsb is_url_special value then false
  else match valid_v6_authority value with
       | Some b => b
       | None =>
           let hostname := take_while is_host_char value in
           match hostname, parse_port (drop_while is_host_char value) with
           | _ :: _, Some port =>
               if (253 <? length hostname)%nat then false
               else if looks_ipv4 hostname && negb (validIpv4 hostname) then false
               else if List.existsb (fun l => negb (valid_label l)) (split_on (Z.eqb dot) hostname) then false
               else validPort port
           | _, _ => false
           end
       end.

(** ** Routes *)

Record HostRouteAddress := { route : HostRoute; route_address : jstr }.
(** A present, non-empty optional string ([if (v)]). *)
Definition truthy (v : option jstr) : option jstr := match v with Some [] => None | _ => v end.
Definition route_candidates (h : Host) : list HostRouteAddress :=
  [{| route := lan; route_address := host_address h |}]
  ++ match truthy (tailscaleAddress h) with Some a => [{| route := tailscale; route_address := a |}] | None => [] end
  ++ match truthy (internetAddress h) with
     | Some a => if isValidInternetAddress a then [{| route := directHttps; route_address := a |}] else []
     | None => [] end.
(** The [filter] with its [seen] set. *)
Fixpoint first_seen (seen : list jstr) (cs : list HostRouteAddress) : list HostRouteAddress :=
  match cs with
  | [] => []
  | c :: r => if negb (nonempty (route_address c)) || set_has (route_address c) seen then first_seen seen r
              else c :: first_seen (set_add (route_address c) seen) r
  end.
Definition routeAddresses (h : Host) : list HostRouteAddress := first_seen [] (route_candidates h).
Definition routeForAddress (h : Host) (address : jstr) : HostRoute :=
  match List.find (fun c => bool_decide (route_address c = address)) (routeAddresses h) with
  | Some c => route c
  | None => custom
  end.
Definition baseUrl (address : jstr) : jstr := js "https://" ++ address ++ js "/v1".

(** ** Laws *)

Lemma hostToJson_wf h : json_wf (hostToJson h) = true.
Proof.
  destruct h as [i l a [c|] [tn|] [ta|] [ia|] [m|] [n|]]; unfold hostToJson; rewrite json_wf_obj; vm_compute; reflexivity.
Qed.
Lemma hostFromToJson h : hostFromJson (hostToJson h) = Some h.
Proof.
  destruct h as [i l a [c|] [tn|] [ta|] [ia|] [m|] [n|]]; reflexivity.
Qed.

Lemma first_seen_spec seen cs :
  NoDup (route_address <$> first_seen seen cs) /\
  (forall c, c ∈ first_seen seen cs -> c ∈ cs /\ route_address c <> [] /\ route_address c ∉ seen) /\
  (forall c, c ∈ cs -> route_address c <> [] -> route_address c ∉ seen -> exists c', c' ∈ first_seen seen cs /\ route_address c' = route_address c) /\
  first_seen seen cs `sublist_of` cs.
Proof.
  revert seen. induction cs as [|c cs IH]; intros seen; simpl.
  { repeat split; [apply NoDup_nil_2 | set_solver.. | done]. }
  destruct (nonempty (route_address c)) eqn:En; simpl; [destruct (set_has (route_address c) seen) eqn:Es; simpl|].
  - destruct (IH seen) as (H1 & H2 & H3 & H4). apply set_has_spec in Es. repeat split; [done|..].
    + apply H2 in H as (? & _). set_solver.
    + by apply H2 in H as (_ & ? & _).
    + by apply H2 in H as (_ & _ & ?).
    + intros c' [->|Hc']%elem_of_cons Hne Hs; [done | eauto].
    + by apply sublist_cons.
  - destruct (IH (set_add (route_address c) seen)) as (H1 & H2 & H3 & H4). apply set_has_false in Es. repeat split.
    + csimpl. apply NoDup_cons. split; [|done]. intros (c' & Hc' & Hin)%list_elem_of_fmap.
      apply H2 in Hin as (_ & _ & Hn). apply Hn, elem_set_add. by left.
    + apply elem_of_cons in H as [->|H]; [left|]. right. by apply H2 in H as (? & _).
    + apply elem_of_cons in H as [->|H]; [by destruct (route_address c)|]. by apply H2 in H as (_ & ? & _).
    + apply elem_of_cons in H as [->|H]; [done|]. apply H2 in H as (_ & _ & Hn). rewrite elem_set_add in Hn. tauto.
    + intros c' [->|Hc']%elem_of_cons Hne Hs; [exists c; split; [left|done]|].
      destruct (decide (route_address c' = route_address c)) as [E|E]; [exists c; split; [left|done]|].
      destruct (H3 c' Hc' Hne) as (c2 & Hc2 & E2); [rewrite elem_set_add; tauto|]. exists c2. split; [by right | done].
    + by apply sublist_skip.
  - destruct (IH seen) as (H1 & H2 & H3 & H4). repeat split; [done|..].
    + apply H2 in H as (? & _). set_solver.
    + by apply H2 in H as (_ & ? & _).
    + by apply H2 in H as (_ & _ & ?).
    + intros c' [->|Hc']%elem_of_cons Hne Hs; [by destruct (route_address c) | eauto].
    + by apply sublist_cons.
Qed.

Lemma truthy_Some o a : truthy o = Some a <-> o = Some a /\ a <> [].
Proof. destruct o as [[|c s]|]; simpl; naive_solver. Qed.
Lemma elem_candidates h c : c ∈ route_candidates h <->
  c = {| route := lan; route_address := host_address h |} \/
  (exists a, truthy (tailscaleAddress h) = Some a /\ c = {| route := tailscale; route_address := a |}) \/
  (exists a, truthy (internetAddress h) = Some a /\ isValidInternetAddress a = true /\ c = {| route := directHttps; route_address := a |}).
Proof.
  unfold route_candidates. rewrite !elem_of_app, list_elem_of_singleton.
  assert (c ∈ match truthy (tailscaleAddress h) with Some a => [{| route := tailscale; route_address := a |}] | None => [] end <->
    exists a, truthy (tailscaleAddress h) = Some a /\ c = {| route := tailscale; route_address := a |}) as ->.
  { destruct (truthy (tailscaleAddress h)); rewrite ?list_elem_of_singleton, ?elem_of_nil; split; [eauto| | done|];
      intros (? & ? & ?); by simplify_eq. }
  assert (c ∈ match truthy (internetAddress h) with
     | Some a => if isValidInternetAddress a then [{| route := directHttps; route_address := a |}] else []
     | None => [] end <-> exists a, truthy (internetAddress h) = Some a /\ isValidInternetAddress a = true /\ c = {| route := directHttps; route_address := a |}) as ->.
  { destruct (truthy (internetAddress h)) as [i|]; [destruct (isValidInternetAddress i) eqn:Ei|];
      rewrite ?list_elem_of_singleton, ?elem_of_nil; split; [eauto| |done| |done|];
      intros (? & ? & ? & ?); simplify_eq; congruence. }
  done.
Qed.

(** The addresses a client tries: no address twice, none empty, in the order
      LAN, Tailscale, direct HTTPS; every non-empty configured address is tried,
      except an Internet address that is not a bare valid authority. *)
Theorem routeAddresses_correct (h : Host) :
  let addrs := route_address <$> routeAddresses h in
  NoDup addrs /\ [] ∉ addrs /\
  (route <$> routeAddresses h) `sublist_of` [lan; tailscale; directHttps] /\
  (forall a, a ∈ addrs <-> a <> [] /\ (a = host_address h \/ tailscaleAddress h = Some a \/
                                      internetAddress h = Some a /\ isValidInternetAddress a = true)).
Proof.
  cbv zeta. destruct (first_seen_spec [] (route_candidates h)) as (H1 & H2 & H3 & H4).
  fold (routeAddresses h) in *. split; [done|]. split.
  { intros (c & Hc & Hin)%list_elem_of_fmap. apply H2 in Hin as (_ & ? & _). congruence. }
  split.
  { etransitivity; [apply (fmap_sublist route), H4|]. unfold route_candidates.
    destruct (truthy (tailscaleAddress h)), (truthy (internetAddress h)) as [i|]; simpl;
      try destruct (isValidInternetAddress i); simpl; repeat constructor. }
  intros a. split.
  - intros (c & -> & Hin)%list_elem_of_fmap. apply H2 in Hin as (Hc & Hne & _). split; [done|].
    apply elem_candidates in Hc as [->|[(t & Ht & ->)|(t & Ht & Hv & ->)]]; simpl; [by left|..].
    + right. left. by apply truthy_Some in Ht as [? _].
    + right. right. by apply truthy_Some in Ht as [? _].
  - intros [Hne Ha].
    assert (exists c, c ∈ route_candidates h /\ route_address c = a) as (c & Hc & <-).
    { setoid_rewrite elem_candidates. destruct Ha as [->|[Ht|[Ht Hv]]]; [eauto|..].
      - eexists. split; [right; left; exists a; split; [by apply truthy_Some | done] | done].
      - eexists. split; [right; right; exists a; split; [by apply truthy_Some | done] | done]. }
    destruct (H3 c Hc Hne) as (c' & Hc' & E); [set_solver|].
    rewrite <- E. by apply list_elem_of_fmap_2.
Qed.

(** ** An authority stays an authority *)

(** The authority a URL parser reads after [https://]: up to a path, query, fragment or backslash. *)
Definition ends_authority (c : jchar) : bool := (c =? slash) || (c =? backslash) || (c =? 63) || (c =? 35).
Definition url_authority (url : jstr) : jstr := take_while (fun c => negb (ends_authority c)) (drop 8 url).

Lemma take_while_app {A} (P : A -> bool) a b : Forall (fun c => P c = true) a -> take_while P (a ++ b) = a ++ take_while P b.
Proof. induction 1 as [|c a Hc _ IH]; simpl; [done|]. by rewrite Hc, IH. Qed.

(** A valid Internet address is nothing but an authority: in the request URL
      built from it the host part is exactly that address, so it cannot carry a
      path, a query, credentials or blanks that would send requests elsewhere. *)
Theorem internetAddress_is_authority (a path : jstr) :
  isValidInternetAddress a = true ->
  url_authority (baseUrl a ++ path) = a /\ 64 ∉ a /\ Forall (fun c => is_blank c = false) a.
Proof.
  unfold isValidInternetAddress. destruct (_ || _); [done|].
  destruct (List.existsb is_blank a) eqn:Eb; [done|]. destruct (List.existsb is_url_special a) eqn:Es; [done|]. intros _.
  apply existsb_false_forall in Eb, Es. split; [|split; [|done]].
  - unfold url_authority, baseUrl. rewrite <- app_assoc.
    change (drop 8 (js "https://" ++ (a ++ js "/v1") ++ path)) with ((a ++ js "/v1") ++ path).
    rewrite <- app_assoc, take_while_app; [apply app_nil_r|].
    eapply Forall_impl; [exact Es|]. intros c Hc. unfold is_url_special in Hc. unfold ends_authority.
    apply orb_false_iff in Hc as [Hc _]. by rewrite Hc.
  - intros Hin. rewrite Forall_forall in Es. specialize (Es 64 Hin). done.
Qed.
Lemma internetAddress_is_authority_witness :
  url_authority (baseUrl (js "[2001:db8::1]:8765") ++ js "/health") = js "[2001:db8::1]:8765".
Proof. apply (internetAddress_is_authority (js "[2001:db8::1]:8765") (js "/health")). vm_compute. reflexivity. Defined.
