(* ===== verification/Utf8.v ===== *)
(** * UTF-8 and UTF-16

    The reference encoders of Unicode scalar values, the strict decoder of
    [features/preview/textDecode.ts], [utf8Length], the byte cutting of
    [features/preview/followLogic.ts], and the runtime's [encodeURIComponent] and
    [decodeURIComponent] with their round trip. *)

From Stdlib Require Import ZArith Lia Bool.
From Stdlib Require List.
From S2P Require Import Prelude JsCollections JsString.

(** ** Reference encodings *)

(** A Unicode scalar value: a code point that is not a surrogate. *)
Definition is_scalar (cp : Z) : bool :=
  (0 <=? cp) && (cp <=? 1114111) && negb ((55296 <=? cp) && (cp <=? 57343)).
Definition utf8_of (cp : Z) : list Z :=
  if cp <? 128 then [cp]
  else if cp <? 2048 then [192 + cp / 64; 128 + cp mod 64]
  else if cp <? 65536 then [224 + cp / 4096; 128 + cp / 64 mod 64; 128 + cp mod 64]
  else [240 + cp / 262144; 128 + cp / 4096 mod 64; 128 + cp / 64 mod 64; 128 + cp mod 64].
Definition utf8 (cps : list Z) : list Z := cps ≫= utf8_of.
Definition utf16_of (cp : Z) : jstr :=
  if 65535 <? cp then [55296 + (cp - 65536) / 1024; 56320 + (cp - 65536) mod 1024] else [cp].
Definition utf16 (cps : list Z) : jstr := cps ≫= utf16_of.

(** ** The decoder *)

(** The low six bits of a continuation byte, [None] where the code throws. *)
Definition cont (b : option Z) : option Z :=
  match b with Some b => if Z.land b 192 =? 128 then Some (Z.land b 63) else None | None => None end.

(** [codes.push(...)] of one code point. *)
Definition push_code (cp : Z) (codes : list Z) : list Z :=
  if 65535 <? cp then let c := cp - 65536 in codes ++ [55296 + Z.shiftr c 10; 56320 + Z.land c 1023]
  else codes ++ [cp].
(** [if (codes.length >= 8192) flush()]. *)
Definition flush_full (st : list jstr * list Z) : list jstr * list Z :=
  if (8192 <=? length st.2)%nat then (st.1 ++ [st.2], []) else st.
Definition emit (cp : Z) (st : list jstr * list Z) : list jstr * list Z := flush_full (st.1, push_code cp st.2).

(** One character: its code point and the bytes it takes. *)
Definition decode_one (bytes : list Z) : option (Z * nat) :=
  match bytes with
  | [] => None
  | b :: r =>
      let k n := cont (r !! n) in
      if b <? 128 then Some (b, 1%nat)
      else if (194 <=? b) && (b <=? 223) then
        c1 ← k 0%nat; Some (Z.lor (Z.shiftl (Z.land b 31) 6) c1, 2%nat)
      else if (224 <=? b) && (b <=? 239) then
        c1 ← k 0%nat; c2 ← k 1%nat;
        let cp := Z.lor (Z.lor (Z.shiftl (Z.land b 15) 12) (Z.shiftl c1 6)) c2 in
        if (cp <? 2048) || ((55296 <=? cp) && (cp <=? 57343)) then None else Some (cp, 3%nat)
      else if (240 <=? b) && (b <=? 244) then
        c1 ← k 0%nat; c2 ← k 1%nat; c3 ← k 2%nat;
        let cp := Z.lor (Z.lor (Z.lor (Z.shiftl (Z.land b 7) 18) (Z.shiftl c1 12)) (Z.shiftl c2 6)) c3 in
        if (cp <? 65536) || (1114111 <? cp) then None else Some (cp, 4%nat)
      else None
  end.
(** The [while] loop; every character takes at least one byte, so [length bytes] rounds suffice. *)
Fixpoint decode_loop (fuel : nat) (bytes : list Z) (st : list jstr * list Z) : option (list jstr * list Z) :=
  match bytes, fuel with
  | [], _ => Some st
  | _, O => None
  | _, S f => '(cp, n) ← decode_one bytes; decode_loop f (drop n bytes) (emit cp st)
  end.
Definition bom : list Z := [239; 187; 191].
(** [None]: [NotTextError]. *)
Definition decodeAsText (bytes : list Z) : option jstr :=
  if List.existsb (Z.eqb 0) (take 8192 bytes) then None
  else
    let body := if starts_with bom bytes then drop 3 bytes else bytes in
    st ← decode_loop (length body) body ([], []);
    Some (concat (st.1 ++ [st.2])).

Fixpoint utf8Length (s : jstr) : Z :=
  match s with
  | [] => 0
  | c :: r =>
      if c <? 128 then 1 + utf8Length r
      else if c <? 2048 then 2 + utf8Length r
      else if (55296 <=? c) && (c <=? 56319) then 4 + match r with [] => 0 | _ :: r' => utf8Length r' end
      else 3 + utf8Length r
  end.

(** ** Following a growing file *)

Definition FOLLOW_CHUNK_BYTES : Z := 1024 * 1024.
Inductive FollowStep := follow_idle | follow_append (first last : Z) | follow_truncated.
(** The range is inclusive, as [bytes=first-last]. *)
Definition followStep (known current : Z) : FollowStep :=
  if current <? known then follow_truncated
  else if current =? known then follow_idle
  else follow_append known (Z.min current (known + FOLLOW_CHUNK_BYTES) - 1).
Definition completeLines (bytes : list Z) : nat :=
  match last_index_of 10 bytes with Some i => S i | None => 0%nat end.
Definition is_cont (b : Z) : bool := Z.land b 192 =? 128.
(** Continuation bytes at the end, at most three (on the reversed bytes). *)
Fixpoint trailing_conts (fuel : nat) (rev : list Z) : nat :=
  match fuel, rev with
  | S f, b :: r => if is_cont b then S (trailing_conts f r) else 0%nat
  | _, _ => 0%nat
  end.
Definition utf8_need (lead : Z) : nat :=
  if 240 <=? lead then 4%nat else if 224 <=? lead then 3%nat else if 192 <=? lead then 2%nat else 1%nat.
Definition utf8SafeLength (bytes : list Z) : nat :=
  let back := trailing_conts 3 (reverse bytes) in
  let i := (length bytes - back)%nat in
  match i with
  | O => length bytes
  | S j => let lead := default 0 (bytes !! j) in
           if (back + 1 <? utf8_need lead)%nat then j else length bytes
  end.
Definition followChunk (bytes : list Z) : option (jstr * nat) :=
  let lines := completeLines bytes in
  let consumed := if (lines =? 0)%nat && (FOLLOW_CHUNK_BYTES <=? Z.of_nat (length bytes)) then utf8SafeLength bytes else lines in
  if (consumed =? 0)%nat then Some ([], 0%nat)
  else text ← decodeAsText (take consumed bytes); Some (text, consumed).

(** ** [encodeURIComponent] *)

(** Code points of a UTF-16 string; [None] for a lone surrogate ([URIError]). *)
Fixpoint code_points (s : jstr) : option (list Z) :=
  match s with
  | [] => Some []
  | c :: r =>
      if (55296 <=? c) && (c <=? 56319) then
        match r with
        | d :: r' => if (56320 <=? d) && (d <=? 57343)
                     then cons (65536 + (c - 55296) * 1024 + (d - 56320)) <$> code_points r' else None
        | [] => None
        end
      else if (56320 <=? c) && (c <=? 57343) then None
      else cons c <$> code_points r
  end.
(** [A-Za-z0-9] and [-_.!~*'()]. *)
Definition is_unreserved (c : Z) : bool :=
  is_alnum c || (c =? 45) || (c =? 95) || (c =? 46) || (c =? 33) || (c =? 126) || (c =? 42) || (c =? 39) || (c =? 40) || (c =? 41).
Definition hex_upper (d : Z) : jchar := if d <? 10 then 48 + d else 55 + d.
Definition percent (b : Z) : jstr := [37; hex_upper (b / 16); hex_upper (b mod 16)].
Definition uri_escape (cp : Z) : jstr := if is_unreserved cp then [cp] else utf8_of cp ≫= percent.
Definition encodeURIComponent (s : jstr) : option jstr :=
  cps ← code_points s; Some (cps ≫= uri_escape).

(** ** Lemmas: bits of a byte *)

Lemma byte_forall (P : Z -> bool) :
  List.forallb P (Z.of_nat <$> seq 0 256) = true -> forall b, 0 <= b < 256 -> P b = true.
Proof.
  rewrite forallb_forall_true, Forall_forall. intros H b Hb. apply H.
  apply list_elem_of_fmap. exists (Z.to_nat b). rewrite elem_of_seq. lia.
Qed.
Lemma cont_byte b : 0 <= b < 256 -> cont (Some b) = if (128 <=? b) && (b <? 192) then Some (b - 128) else None.
Proof.
  intros Hb. simpl.
  assert (bool_decide ((if Z.land b 192 =? 128 then Some (Z.land b 63) else None) =
    (if (128 <=? b) && (b <? 192) then Some (b - 128) else None)) = true) as H.
  { revert b Hb. apply byte_forall. vm_compute. reflexivity. }
  by apply bool_decide_eq_true in H.
Qed.
Lemma lor_shift x y n : 0 <= n -> 0 <= x -> 0 <= y < 2 ^ n -> Z.lor (Z.shiftl x n) y = x * 2 ^ n + y.
Proof.
  intros Hn Hx Hy. rewrite Z.shiftl_mul_pow2 by lia.
  pose proof (Z.add_lor_land (x * 2 ^ n) y) as Hadd.
  assert (Z.land (x * 2 ^ n) y = 0) as Hz; [|rewrite Hz in Hadd; lia].
  apply Z.bits_inj'. intros k Hk. rewrite Z.land_spec, Z.bits_0. destruct (decide (k < n)).
  - by rewrite Z.mul_pow2_bits_low.
  - destruct (decide (y = 0)) as [->|]; [by rewrite Z.bits_0, andb_false_r|].
    assert (Z.log2 y < k) as Hlog.
    { apply Z.log2_lt_pow2; [lia|].
      apply Z.lt_le_trans with (2 ^ n); [lia | apply Z.pow_le_mono_r; lia]. }
    rewrite (Z.bits_above_log2 y k) by lia. apply andb_false_r.
Qed.
Lemma land_31 b : Z.land b 31 = b mod 32. Proof. exact (Z.land_ones b 5 ltac:(lia)). Qed.
Lemma land_15 b : Z.land b 15 = b mod 16. Proof. exact (Z.land_ones b 4 ltac:(lia)). Qed.
Lemma land_7 b : Z.land b 7 = b mod 8. Proof. exact (Z.land_ones b 3 ltac:(lia)). Qed.
Lemma mod_low a b k m : 0 <= k < m -> a = b * m + k -> a mod m = k.
Proof. intros Hk ->. rewrite Z.add_comm, Z_mod_plus_full. by apply Z.mod_small. Qed.

(** The value the decoder assembles from two, three or four bytes. *)
Lemma assemble2 a c1 : 0 <= a -> 0 <= c1 < 64 -> Z.lor (Z.shiftl a 6) c1 = a * 64 + c1.
Proof. intros. rewrite lor_shift by lia. lia. Qed.
Lemma assemble3 a c1 c2 : 0 <= a -> 0 <= c1 < 64 -> 0 <= c2 < 64 ->
  Z.lor (Z.lor (Z.shiftl a 12) (Z.shiftl c1 6)) c2 = a * 4096 + c1 * 64 + c2.
Proof.
  intros. replace 12 with (6 + 6) by lia. rewrite <- Z.shiftl_shiftl, <- Z.shiftl_lor by lia.
  rewrite (lor_shift a c1), lor_shift by lia. lia.
Qed.
Lemma assemble4 a c1 c2 c3 : 0 <= a -> 0 <= c1 < 64 -> 0 <= c2 < 64 -> 0 <= c3 < 64 ->
  Z.lor (Z.lor (Z.lor (Z.shiftl a 18) (Z.shiftl c1 12)) (Z.shiftl c2 6)) c3 = a * 262144 + c1 * 4096 + c2 * 64 + c3.
Proof.
  intros. replace 18 with (12 + 6) by lia. replace 12 with (6 + 6) by lia.
  rewrite <- !Z.shiftl_shiftl, <- !Z.shiftl_lor by lia.
  rewrite (lor_shift a c1), (lor_shift _ c2), lor_shift by lia. lia.
Qed.

Definition is_byte (b : Z) : bool := (0 <=? b) && (b <? 256).

(** ** The decoder accepts exactly the encodings of scalar values *)

Ltac case_ltb := repeat match goal with |- context [?a <? ?b] => destruct (Z.ltb_spec a b); try lia end.
Ltac case_leb := repeat match goal with |- context [?a <=? ?b] => destruct (Z.leb_spec a b); try lia end.

Lemma div_mod_facts cp : cp = cp / 64 * 64 + cp mod 64 /\ 0 <= cp mod 64 < 64 /\
  cp / 64 = cp / 64 / 64 * 64 + cp / 64 mod 64 /\ 0 <= cp / 64 mod 64 < 64 /\
  cp / 64 / 64 = cp / 4096 /\ cp / 4096 = cp / 4096 / 64 * 64 + cp / 4096 mod 64 /\ 0 <= cp / 4096 mod 64 < 64 /\
  cp / 4096 / 64 = cp / 262144.
Proof.
  rewrite !Z.div_div by lia. repeat split; try (apply Z.mod_pos_bound; lia).
  - rewrite Z.mul_comm. apply Z.div_mod. lia.
  - pose proof (Z.div_mod (cp / 64) 64 ltac:(lia)) as H. rewrite Z.div_div in H by lia. change (64 * 64) with 4096 in *. lia.
  - pose proof (Z.div_mod (cp / 4096) 64 ltac:(lia)) as H. rewrite Z.div_div in H by lia. change (4096 * 64) with 262144 in *. lia.
Qed.

Lemma decode_one_utf8 cp rest : is_scalar cp = true -> decode_one (utf8_of cp ++ rest) = Some (cp, length (utf8_of cp)).
Proof.
  unfold is_scalar. rewrite !andb_true_iff, negb_true_iff, !Z.leb_le. intros [[H1 H2] H3].
  destruct (div_mod_facts cp) as (E0 & B0 & E1 & B1 & E2 & E3 & B3 & E4).
  unfold utf8_of. destruct (Z.ltb_spec cp 128); [|destruct (Z.ltb_spec cp 2048); [|destruct (Z.ltb_spec cp 65536)]];
    cbn [app length decode_one].
  - case_ltb; done.
  - case_ltb. case_leb. cbn [andb lookup list_lookup]. rewrite cont_byte by lia. case_leb. case_ltb. cbn [andb mbind option_bind].
    rewrite land_31, (mod_low _ 6 (cp / 64)), assemble2 by lia. f_equal. f_equal. lia.
  - case_ltb. case_leb. cbn [andb lookup list_lookup]. rewrite !cont_byte by lia. case_leb. case_ltb. cbn [andb mbind option_bind].
    rewrite land_15, (mod_low _ 14 (cp / 4096)), assemble3 by lia.
    replace (cp / 4096 * 4096 + (128 + cp / 64 mod 64 - 128) * 64 + (128 + cp mod 64 - 128)) with cp by lia.
    rewrite H3. case_ltb; done.
  - case_ltb. case_leb. cbn [andb lookup list_lookup]. rewrite !cont_byte by lia. case_leb. case_ltb. cbn [andb mbind option_bind].
    rewrite land_7, (mod_low _ 30 (cp / 262144)), assemble4 by lia.
    replace (cp / 262144 * 262144 + (128 + cp / 4096 mod 64 - 128) * 4096 + (128 + cp / 64 mod 64 - 128) * 64 + (128 + cp mod 64 - 128)) with cp by lia.
    case_ltb; done.
Qed.

Lemma div_mod_digit a c m : 0 <= c < m -> (a * m + c) / m = a /\ (a * m + c) mod m = c.
Proof.
  intros H. split; [rewrite Z.div_add_l by lia; rewrite Z.div_small by lia; lia|].
  by apply (mod_low _ a).
Qed.

Lemma utf8_two a c1 : 2 <= a < 32 -> 0 <= c1 < 64 -> utf8_of (a * 64 + c1) = [192 + a; 128 + c1].
Proof.
  intros Ha Hc. unfold utf8_of. case_ltb. destruct (div_mod_digit a c1 64 Hc) as [-> ->]. done.
Qed.
Lemma utf8_three a c1 c2 : 0 <= a < 16 -> 0 <= c1 < 64 -> 0 <= c2 < 64 -> 2048 <= a * 4096 + c1 * 64 + c2 ->
  utf8_of (a * 4096 + c1 * 64 + c2) = [224 + a; 128 + c1; 128 + c2].
Proof.
  intros Ha Hc1 Hc2 Hm. unfold utf8_of. case_ltb.
  replace (a * 4096 + c1 * 64 + c2) with ((a * 64 + c1) * 64 + c2) by lia.
  destruct (div_mod_digit (a * 64 + c1) c2 64 Hc2) as [E1 E2]. rewrite E1, E2.
  change 4096 with (64 * 64). rewrite <- Z.div_div, E1 by lia.
  destruct (div_mod_digit a c1 64 Hc1) as [-> ->]. done.
Qed.
Lemma utf8_four a c1 c2 c3 : 0 <= a < 8 -> 0 <= c1 < 64 -> 0 <= c2 < 64 -> 0 <= c3 < 64 ->
  65536 <= a * 262144 + c1 * 4096 + c2 * 64 + c3 ->
  utf8_of (a * 262144 + c1 * 4096 + c2 * 64 + c3) = [240 + a; 128 + c1; 128 + c2; 128 + c3].
Proof.
  intros Ha Hc1 Hc2 Hc3 Hm. unfold utf8_of. case_ltb.
  replace (a * 262144 + c1 * 4096 + c2 * 64 + c3) with (((a * 64 + c1) * 64 + c2) * 64 + c3) by lia.
  destruct (div_mod_digit ((a * 64 + c1) * 64 + c2) c3 64 Hc3) as [E1 E2]. rewrite E1, E2.
  change 262144 with (64 * 64 * 64). change 4096 with (64 * 64). rewrite <- !Z.div_div, E1 by lia.
  destruct (div_mod_digit (a * 64 + c1) c2 64 Hc2) as [-> ->].
  destruct (div_mod_digit a c1 64 Hc1) as [-> ->]. done.
Qed.

Lemma cont_inv (r : list Z) n c : Forall (fun b => is_byte b = true) r -> cont (r !! n) = Some c ->
  exists b, r !! n = Some b /\ b = 128 + c /\ 0 <= c < 64.
Proof.
  intros Hr. destruct (r !! n) as [b|] eqn:E; [|done]. rewrite Forall_forall in Hr.
  specialize (Hr b ltac:(by eapply list_elem_of_lookup_2)). unfold is_byte in Hr. breflect.
  rewrite cont_byte by lia. destruct (_ && _) eqn:F; [|done]. breflect. intros [= <-]. exists b. split; [done | lia].
Qed.

Lemma decode_one_sound bytes cp n : Forall (fun b => is_byte b = true) bytes -> decode_one bytes = Some (cp, n) ->
  is_scalar cp = true /\ n = length (utf8_of cp) /\ bytes = utf8_of cp ++ drop n bytes.
Proof.
  intros Hb. destruct bytes as [|b r]; [done|]. inversion Hb as [|? ? Hb0 Hr]; subst.
  unfold is_byte in Hb0. breflect. cbn [decode_one]. destruct (Z.ltb_spec b 128).
  { intros [= <- <-]. unfold is_scalar, utf8_of. case_leb; case_ltb; done. }
  destruct ((194 <=? b) && (b <=? 223)) eqn:E2; breflect.
  { destruct (cont (r !! 0%nat)) as [c1|] eqn:C1; [|done]. intros [= <- <-].
    destruct (cont_inv r 0 c1 Hr C1) as (x & Hx & -> & ?). destruct r as [|? r]; [done|]. simpl in Hx. injection Hx as ->.
    rewrite land_31, (mod_low b 6 (b - 192)), assemble2 by lia. rewrite utf8_two by lia. split; [|split; [done|]].
    - unfold is_scalar. case_leb; done.
    - simpl. rewrite ?drop_0. f_equal; lia. }
  destruct ((224 <=? b) && (b <=? 239)) eqn:E3; breflect.
  { destruct (cont (r !! 0%nat)) as [c1|] eqn:C1; [|done]. destruct (cont (r !! 1%nat)) as [c2|] eqn:C2; [|done].
    destruct (cont_inv r 0 c1 Hr C1) as (x & Hx & -> & ?). destruct (cont_inv r 1 c2 Hr C2) as (y & Hy & -> & ?).
    destruct r as [|? [|? r]]; try done. simpl in Hx, Hy. injection Hx as ->. injection Hy as ->. simpl.
    rewrite land_15, (mod_low b 14 (b - 224)), assemble3 by lia. destruct (_ || _) eqn:Ef; [done|]. intros [= <- <-].
    apply orb_false_iff in Ef as [Ef1 Ef2]. breflect. rewrite utf8_three by lia. split; [|split; [done|]].
    - unfold is_scalar. rewrite Ef2. case_leb; done.
    - simpl. rewrite ?drop_0. f_equal; lia. }
  destruct ((240 <=? b) && (b <=? 244)) eqn:E4; breflect; [|done].
  destruct (cont (r !! 0%nat)) as [c1|] eqn:C1; [|done]. destruct (cont (r !! 1%nat)) as [c2|] eqn:C2; [|done].
  destruct (cont (r !! 2%nat)) as [c3|] eqn:C3; [|done].
  destruct (cont_inv r 0 c1 Hr C1) as (x & Hx & -> & ?). destruct (cont_inv r 1 c2 Hr C2) as (y & Hy & -> & ?).
  destruct (cont_inv r 2 c3 Hr C3) as (z & Hz & -> & ?).
  destruct r as [|? [|? [|? r]]]; try done. simpl in Hx, Hy, Hz. injection Hx as ->. injection Hy as ->. injection Hz as ->. simpl.
  rewrite land_7, (mod_low b 30 (b - 240)), assemble4 by lia. destruct (_ || _) eqn:Ef; [done|]. intros [= <- <-].
  apply orb_false_iff in Ef as [Ef1 Ef2]. breflect. rewrite utf8_four by lia. split; [|split; [done|]].
  - unfold is_scalar. case_leb; done.
  - simpl. rewrite ?drop_0. f_equal; lia.
Qed.

Definition flat (st : list jstr * list Z) : jstr := concat (st.1 ++ [st.2]).
Lemma flat_emit cp st : 0 <= cp -> flat (emit cp st) = flat st ++ utf16_of cp.
Proof.
  intros H. unfold emit. assert (forall st', flat (flush_full st') = flat st') as ->.
  { intros [ps cs]. unfold flush_full, flat. cbn [fst snd]. destruct (8192 <=? length cs)%nat; cbn [fst snd]; [|done].
    rewrite !concat_app. cbn [concat]. by rewrite !app_nil_r. }
  unfold flat. simpl. rewrite !concat_app. simpl. rewrite !app_nil_r, <- app_assoc. f_equal.
  unfold push_code, utf16_of. destruct (65535 <? cp); [|done].
  rewrite Z.shiftr_div_pow2 by lia. by rewrite (Z.land_ones (cp - 65536) 10 ltac:(lia) : Z.land (cp - 65536) 1023 = _).
Qed.
Lemma utf8_of_length cp : (1 <= length (utf8_of cp) <= 4)%nat.
Proof. unfold utf8_of. repeat case_match; simpl; lia. Qed.

Lemma decode_loop_utf8 cps : Forall (fun c => is_scalar c = true) cps ->
  forall fuel st, (length (utf8 cps) <= fuel)%nat ->
  exists st', decode_loop fuel (utf8 cps) st = Some st' /\ flat st' = flat st ++ utf16 cps.
Proof.
  induction 1 as [|cp cps Hc _ IH]; intros fuel st Hf.
  { exists st. destruct fuel; by rewrite app_nil_r. }
  change (utf8 (cp :: cps)) with (utf8_of cp ++ utf8 cps) in *. pose proof (utf8_of_length cp).
  rewrite length_app in Hf. destruct fuel as [|fuel]; [lia|].
  destruct (IH fuel (emit cp st) ltac:(lia)) as (st' & E & Hflat). exists st'. split.
  - pose proof (decode_one_utf8 cp (utf8 cps) Hc) as Hone.
    destruct (utf8_of cp ++ utf8 cps) as [|b l] eqn:Eb; [destruct (utf8_of cp); simpl in *; [lia | done]|].
    cbn [decode_loop]. rewrite Hone. cbn [mbind option_bind]. rewrite <- Eb, drop_app_length. exact E.
  - rewrite Hflat, flat_emit by (unfold is_scalar in Hc; breflect; done). by rewrite <- app_assoc.
Qed.
Lemma decode_loop_sound fuel bytes st st' : Forall (fun b => is_byte b = true) bytes ->
  decode_loop fuel bytes st = Some st' ->
  exists cps, Forall (fun c => is_scalar c = true) cps /\ bytes = utf8 cps /\ flat st' = flat st ++ utf16 cps.
Proof.
  revert bytes st. induction fuel as [|f IH]; intros bytes st Hb E.
  { destruct bytes; [|done]. injection E as <-. exists []. by rewrite app_nil_r. }
  destruct bytes as [|b l] eqn:Eb; [injection E as <-; exists []; by rewrite app_nil_r|]. rewrite <- Eb in *.
  assert (decode_loop (S f) bytes st = '(cp, n) ← decode_one bytes; decode_loop f (drop n bytes) (emit cp st)) as Hstep by (by rewrite Eb).
  rewrite Hstep in E. clear Hstep Eb. destruct (decode_one bytes) as [[cp n]|] eqn:E1; [|done]. cbn [mbind option_bind] in E.
  destruct (decode_one_sound bytes cp n Hb E1) as (Hs & Hn & Heq).
  destruct (IH (drop n bytes) (emit cp st)) as (cps & H1 & H2 & H3); [by apply Forall_drop | done|].
  exists (cp :: cps). split; [by constructor|]. split.
  - change (utf8 (cp :: cps)) with (utf8_of cp ++ utf8 cps). by rewrite <- H2.
  - rewrite H3, flat_emit by (unfold is_scalar in Hs; breflect; done). by rewrite <- app_assoc.
Qed.

Lemma decodeAsText_iff (bytes : list Z) (s : jstr) :
  Forall (fun b => is_byte b = true) bytes ->
  decodeAsText bytes = Some s <->
  0 ∉ take 8192 bytes /\
  exists cps, Forall (fun c => is_scalar c = true) cps /\ s = utf16 cps /\
    (if starts_with bom bytes then drop 3 bytes else bytes) = utf8 cps.
Proof.
  intros Hb. unfold decodeAsText.
  change (List.existsb (Z.eqb 0) (take 8192 bytes)) with (includes_char 0 (take 8192 bytes)).
  set (body := if starts_with bom bytes then drop 3 bytes else bytes).
  assert (Forall (fun b => is_byte b = true) body) as Hbody by (unfold body; case_match; [by apply Forall_drop | done]).
  destruct (includes_char 0 (take 8192 bytes)) eqn:Ez.
  { apply includes_char_spec in Ez. split; [done|]. by intros [Hn _]. }
  apply includes_char_false in Ez. split.
  - destruct (decode_loop (length body) body ([], [])) as [st|] eqn:E; [|done]. intros [= <-]. split; [done|].
    destruct (decode_loop_sound _ _ _ _ Hbody E) as (cps & H1 & H2 & H3). exists cps. by repeat split.
  - intros [_ (cps & Hs & -> & Hu)]. rewrite Hu.
    destruct (decode_loop_utf8 cps Hs (length (utf8 cps)) ([], []) (le_n _)) as (st & -> & Hf). simpl.
    f_equal. exact Hf.
Qed.

(** C35 The text preview shows a file exactly when it is strict UTF-8 without an
      early NUL: decoding succeeds precisely on the encodings of Unicode scalar
      values (a leading byte order mark dropped), and yields their UTF-16 text. *)
Theorem decodeAsText_exact (bytes : list Z) (s : jstr) :
  Forall (fun b => is_byte b = true) bytes ->
  decodeAsText bytes = Some s <->
  0 ∉ take 8192 bytes /\
  exists cps, Forall (fun c => is_scalar c = true) cps /\ s = utf16 cps /\
    (if starts_with bom bytes then drop 3 bytes else bytes) = utf8 cps.
Proof. apply decodeAsText_iff. Qed.
Lemma decodeAsText_exact_witness : decodeAsText [239; 187; 191; 104; 195; 169; 240; 159; 152; 128] = Some [104; 233; 55357; 56832].
Proof.
  apply decodeAsText_exact; [repeat constructor|]. split.
  - apply includes_char_false. vm_compute. reflexivity.
  - exists [104; 233; 128512]. split; [repeat constructor|]. split; vm_compute; reflexivity.
Defined.

(** ** Sizes and cuts *)

Lemma utf8_app a b : utf8 (a ++ b) = utf8 a ++ utf8 b.
Proof. apply bind_app. Qed.
Lemma utf8_cons c cps : utf8 (c :: cps) = utf8_of c ++ utf8 cps.
Proof. done. Qed.

(** The byte count the editor checks against the upload limit is the exact size
      of the UTF-8 encoding of the text. *)
Theorem utf8Length_exact (cps : list Z) :
  Forall (fun c => is_scalar c = true) cps -> utf8Length (utf16 cps) = Z.of_nat (length (utf8 cps)).
Proof.
  induction 1 as [|cp cps Hc _ IH]; [done|]. rewrite utf8_cons, length_app, Nat2Z.inj_add, <- IH.
  change (utf16 (cp :: cps)) with (utf16_of cp ++ utf16 cps).
  unfold is_scalar in Hc. rewrite !andb_true_iff, negb_true_iff, !Z.leb_le in Hc. destruct Hc as [[H1 H2] H3].
  unfold utf16_of, utf8_of. destruct (Z.ltb_spec 65535 cp).
  - assert (0 <= (cp - 65536) / 1024 < 1024) by (split; [apply Z.div_pos; lia | apply Z.div_lt_upper_bound; lia]).
    cbn [app utf8Length]. case_ltb; case_leb; simpl; lia.
  - cbn [app utf8Length]. rewrite andb_false_iff, !Z.leb_gt in H3. case_ltb; try (case_leb; simpl; lia); simpl; lia.
Qed.
Lemma utf8Length_exact_witness : utf8Length [233; 55357; 56832] = 6.
Proof. apply (utf8Length_exact [233; 128512]). repeat constructor. Defined.

(** The lead byte says how many bytes follow, and they are all continuations. *)
Lemma utf8_of_shape cp : is_scalar cp = true ->
  exists lead tl, utf8_of cp = lead :: tl /\ is_cont lead = false /\ Forall (fun b => is_cont b = true) tl /\
    utf8_need lead = S (length tl) /\ (length tl <= 3)%nat.
Proof.
  unfold is_scalar. rewrite !andb_true_iff, negb_true_iff, !Z.leb_le. intros [[H1 H2] H3].
  destruct (div_mod_facts cp) as (E0 & B0 & E1 & B1 & E2 & E3 & B3 & E4).
  assert (forall k, 0 <= k < 64 -> is_cont (128 + k) = true) as Hcont.
  { intros k Hk. pose proof (cont_byte (128 + k) ltac:(lia)) as Hc. unfold cont in Hc. unfold is_cont.
    revert Hc. case_leb. case_ltb. by destruct (Z.land (128 + k) 192 =? 128). }
  assert (forall b, 0 <= b < 256 -> (b < 128 \/ 192 <= b) -> is_cont b = false) as Hlead.
  { intros b Hb Hl. pose proof (cont_byte b Hb) as Hc. unfold cont in Hc. unfold is_cont.
    destruct (Z.land b 192 =? 128); [|done]. destruct (_ && _) eqn:E in Hc; [breflect; lia | done]. }
  unfold utf8_of, utf8_need. case_ltb; eexists _, _; (split; [reflexivity|]); (split; [apply Hlead; lia|]);
    (split; [repeat constructor; apply Hcont; lia|]); simpl; case_leb; split; done || lia.
Qed.

Lemma trailing_conts_app fuel tl rest : Forall (fun b => is_cont b = true) tl -> (length tl <= fuel)%nat ->
  trailing_conts fuel (tl ++ rest) = (length tl + trailing_conts (fuel - length tl) rest)%nat.
Proof.
  intros H. revert fuel. induction H as [|b tl Hb _ IH]; intros fuel Hf; simpl; [by rewrite Nat.sub_0_r|].
  destruct fuel; simpl in *; [lia|]. rewrite Hb, IH by lia. lia.
Qed.

(** Cutting after [k] bytes of a character. *)
Lemma utf8SafeLength_cut cp pre k : is_scalar cp = true -> (1 <= k <= length (utf8_of cp))%nat ->
  utf8SafeLength (pre ++ take k (utf8_of cp)) =
  (if (k <? length (utf8_of cp))%nat then length pre else length pre + k)%nat.
Proof.
  intros Hs Hk. destruct (utf8_of_shape cp Hs) as (lead & tl & E & Hl & Ht & Hn & Hlen).
  rewrite E in *. simpl in Hk. destruct k as [|k]; [lia|]. cbn [take length].
  assert (length (take k tl) = k) as Htk by (rewrite length_take; lia).
  unfold utf8SafeLength.
  assert (trailing_conts 3 (reverse (pre ++ lead :: take k tl)) = k) as ->.
  { rewrite reverse_app, reverse_cons, <- app_assoc. rewrite trailing_conts_app.
    - rewrite length_reverse, Htk. destruct (3 - k)%nat; simpl; [lia|]. rewrite Hl. lia.
    - apply Forall_reverse. by apply Forall_take.
    - rewrite length_reverse. lia. }
  rewrite length_app. cbn [length]. rewrite Htk.
  replace (length pre + S k - k)%nat with (S (length pre)) by lia. cbn iota beta.
  rewrite lookup_app_r, Nat.sub_diag by lia. simpl default. rewrite Hn. simpl length.
  destruct (Nat.ltb_spec (k + 1) (S (length tl))), (Nat.ltb_spec (S k) (S (length tl))); lia.
Qed.

(** Every prefix of an encoding is whole characters and a proper part of the next. *)
Lemma utf8_prefix cps bytes : Forall (fun c => is_scalar c = true) cps -> bytes `prefix_of` utf8 cps ->
  exists cps1 cps2 k, cps = cps1 ++ cps2 /\
    bytes = utf8 cps1 ++ match cps2 with c :: _ => take k (utf8_of c) | [] => [] end /\
    match cps2 with c :: _ => (k < length (utf8_of c))%nat | [] => True end.
Proof.
  intros Hs. revert bytes. induction Hs as [|c cps Hc Hs IH]; intros bytes Hp.
  { apply prefix_nil_inv in Hp as ->. by exists [], [], 0%nat. }
  rewrite utf8_cons in Hp. destruct (decide (length bytes < length (utf8_of c))%nat) as [Hlt|Hge].
  - exists [], (c :: cps), (length bytes). split; [done|]. split; [|done].
    destruct Hp as [r E]. simpl.
    assert (take (length bytes) (utf8_of c ++ utf8 cps) = bytes) as Ht by (rewrite E; apply take_app_length).
    by rewrite take_app_le in Ht by lia.
  - assert (exists b', bytes = utf8_of c ++ b' /\ b' `prefix_of` utf8 cps) as (b' & -> & Hp').
    { destruct Hp as [r E]. exists (drop (length (utf8_of c)) bytes).
      assert (take (length (utf8_of c)) bytes = utf8_of c) as Ht.
      { rewrite <- (take_app_le bytes r) by lia. by rewrite <- E, take_app_length. }
      split; [by rewrite <- Ht at 1; rewrite take_drop|]. exists r.
      apply (app_inv_head (utf8_of c)). rewrite app_assoc. rewrite <- Ht at 2. by rewrite take_drop. }
    destruct (IH b' Hp') as (c1 & c2 & k & -> & -> & Hk). exists (c :: c1), c2, k.
    split; [done|]. split; [|done]. by rewrite utf8_cons, <- app_assoc.
Qed.
(** A newline byte is a newline character. *)
Lemma utf8_newline cps a b : Forall (fun c => is_scalar c = true) cps -> utf8 cps = a ++ 10 :: b ->
  exists c1 c2, cps = c1 ++ 10 :: c2 /\ a = utf8 c1 /\ b = utf8 c2.
Proof.
  intros Hs. revert a. induction Hs as [|c cps Hc Hs IH]; intros a E; [by destruct a|].
  rewrite utf8_cons in E. destruct (Z.ltb_spec c 128) as [Hlt|Hge].
  - unfold utf8_of in E. rewrite (proj2 (Z.ltb_lt c 128) Hlt) in E. destruct a as [|x a]; simpl in E; injection E as -> E.
    + exists [], cps. by subst b.
    + destruct (IH a E) as (c1 & c2 & -> & -> & ->). exists (x :: c1), c2. split; [done|]. split; [|done].
      rewrite utf8_cons. unfold utf8_of. by rewrite (proj2 (Z.ltb_lt x 128) Hlt).
  - assert (Forall (fun b => 10 < b) (utf8_of c)) as Hbig.
    { unfold is_scalar in Hc. breflect. destruct (div_mod_facts c) as (_ & B0 & _ & B1 & _ & _ & B3 & _).
      assert (0 <= c / 64 /\ 0 <= c / 4096 /\ 0 <= c / 262144) as (? & ? & ?) by (repeat split; apply Z.div_pos; lia).
      unfold utf8_of. case_ltb; repeat constructor; lia. }
    assert (length (utf8_of c) <= length a)%nat as Hlen.
    { destruct (decide (length (utf8_of c) <= length a)%nat); [done|]. exfalso.
      assert ((utf8_of c ++ utf8 cps) !! length a = Some 10) as Hl by (rewrite E, lookup_app_r, Nat.sub_diag by lia; done).
      rewrite lookup_app_l in Hl by lia. rewrite Forall_forall in Hbig.
      specialize (Hbig 10 ltac:(by eapply list_elem_of_lookup_2)). lia. }
    assert (exists a', a = utf8_of c ++ a') as [a' ->].
    { exists (drop (length (utf8_of c)) a). rewrite <- (take_drop (length (utf8_of c)) a) at 1. f_equal.
      rewrite <- (take_app_le a (10 :: b)) by done. by rewrite <- E, take_app_length. }
    rewrite <- app_assoc in E. apply app_inv_head in E. destruct (IH a' E) as (c1 & c2 & -> & -> & ->).
    exists (c :: c1), c2. split; [done|]. split; [|done]. by rewrite utf8_cons.
Qed.

Lemma utf8_bytes cps : Forall (fun c => is_scalar c = true) cps -> Forall (fun b => is_byte b = true) (utf8 cps).
Proof.
  intros Hs. apply Forall_bind. eapply Forall_impl; [exact Hs|]. intros c Hc.
  unfold is_scalar in Hc. breflect. destruct (div_mod_facts c) as (E0 & B0 & E1 & B1 & E2 & E3 & B3 & E4).
  assert (0 <= c / 64 /\ 0 <= c / 4096 /\ 0 <= c / 262144) as (? & ? & ?) by (repeat split; apply Z.div_pos; lia).
  assert (forall b, 0 <= b < 256 -> is_byte b = true) as Hbyte.
  { intros b Hb. unfold is_byte. apply andb_true_iff. rewrite Z.leb_le, Z.ltb_lt. lia. }
  change (Forall (fun b => is_byte b = true) (utf8_of c)). unfold utf8_of. case_ltb; repeat constructor; apply Hbyte; lia.
Qed.
Lemma utf8_no_zero cps : Forall (fun c => is_scalar c = true) cps -> 0 ∉ cps -> 0 ∉ utf8 cps.
Proof.
  intros Hs Hz (c & Hb & Hc)%list_elem_of_bind. rewrite Forall_forall in Hs. specialize (Hs c Hc).
  unfold is_scalar in Hs. breflect. destruct (div_mod_facts c) as (E0 & B0 & E1 & B1 & E2 & E3 & B3 & E4).
  assert (0 <= c / 64 /\ 0 <= c / 4096 /\ 0 <= c / 262144) as (? & ? & ?) by (repeat split; apply Z.div_pos; lia).
  assert (c <> 0) by (by intros ->). revert Hb. unfold utf8_of. case_ltb; rewrite !elem_of_cons, elem_of_nil; intros Hb; lia.
Qed.
Lemma decode_utf8 cps : Forall (fun c => is_scalar c = true) cps -> 0 ∉ cps -> starts_with bom (utf8 cps) = false ->
  decodeAsText (utf8 cps) = Some (utf16 cps).
Proof.
  intros Hs Hz Hb. apply decodeAsText_iff; [by apply utf8_bytes|]. split.
  - intros (i & Hi & _)%elem_of_take. by apply (utf8_no_zero cps Hs Hz), (list_elem_of_lookup_2 _ i).
  - exists cps. by rewrite Hb.
Qed.

(** What one poll takes off a chunk: whole characters. *)
Lemma follow_consumed cps bytes : Forall (fun c => is_scalar c = true) cps -> bytes `prefix_of` utf8 cps ->
  exists cps1 cps2, cps = cps1 ++ cps2 /\ take (utf8SafeLength bytes) bytes = utf8 cps1 /\ utf8SafeLength bytes = length (utf8 cps1).
Proof.
  intros Hs Hp. destruct (utf8_prefix cps bytes Hs Hp) as (c1 & c2 & k & -> & -> & Hk).
  apply Forall_app in Hs as [Hs1 Hs2].
  assert (forall part, (part = [] \/ exists c, c ∈ c2 /\ part = take k (utf8_of c) /\ (1 <= k < length (utf8_of c))%nat) ->
    utf8SafeLength (utf8 c1 ++ part) = length (utf8 c1)) as Hsafe.
  { intros part [->|(c & Hc & -> & Hk')].
    - rewrite app_nil_r. destruct c1 as [|c c1 _] using rev_ind; [done|]. rewrite utf8_app, !utf8_cons. simpl. rewrite app_nil_r.
      apply Forall_app in Hs1 as [_ Hc]. inversion Hc; subst.
      rewrite <- (take_ge (utf8_of c) (length (utf8_of c))) at 1 by lia.
      pose proof (utf8_of_length c). rewrite utf8SafeLength_cut by (done || lia). rewrite Nat.ltb_irrefl, length_app. lia.
    - rewrite Forall_forall in Hs2. rewrite utf8SafeLength_cut by (auto || lia). by rewrite (proj2 (Nat.ltb_lt _ _)) by lia. }
  exists c1, c2. split; [done|]. rewrite Hsafe; [by rewrite take_app_length|].
  destruct c2 as [|c c2]; [by left|]. destruct k as [|k]; [by left|]. right. exists c. split; [left|]. split; [done | lia].
Qed.

Lemma follow_lines cps bytes : Forall (fun c => is_scalar c = true) cps -> bytes `prefix_of` utf8 cps ->
  exists cps1 cps2, cps = cps1 ++ cps2 /\ take (completeLines bytes) bytes = utf8 cps1 /\ completeLines bytes = length (utf8 cps1).
Proof.
  intros Hs [r E]. unfold completeLines. destruct (last_index_of 10 bytes) as [i|] eqn:Ei; [|by exists [], cps].
  apply last_index_of_Some in Ei as (Hb & _ & Hi). rewrite Hb in E. rewrite <- app_assoc in E. simpl in E.
  destruct (utf8_newline cps _ _ Hs E) as (c1 & c2 & -> & E1 & E2).
  assert (utf8 (c1 ++ [10]) = take (S i) bytes) as Ht.
  { rewrite utf8_app, <- E1. change (utf8 [10]) with [10]. rewrite Hb at 2.
    rewrite take_app_ge; rewrite length_take_le by lia; [|lia]. replace (S i - i)%nat with 1%nat by lia. done. }
  exists (c1 ++ [10]), c2. split; [by rewrite <- app_assoc|]. rewrite Ht. split; [done|].
  rewrite length_take. lia.
Qed.

(** Following a growing UTF-8 file never tears a character: of a chunk that may
      end inside one, it shows the text of the whole characters it takes and reports
      exactly their byte count; a chunk with a newline, or a full one, always makes
      progress. *)
Theorem followChunk_whole_characters (cps bytes : list Z) :
  Forall (fun c => is_scalar c = true) cps -> 0 ∉ cps -> bytes `prefix_of` utf8 cps -> starts_with bom bytes = false ->
  exists cps1 cps2, cps = cps1 ++ cps2 /\ followChunk bytes = Some (utf16 cps1, length (utf8 cps1)) /\
    (10 ∈ bytes \/ FOLLOW_CHUNK_BYTES <= Z.of_nat (length bytes) -> cps1 <> []).
Proof.
  intros Hs Hz Hp Hb. unfold followChunk. set (lines := completeLines bytes).
  set (consumed := if (lines =? 0)%nat && _ then _ else _).
  assert (exists cps1 cps2, cps = cps1 ++ cps2 /\ take consumed bytes = utf8 cps1 /\ consumed = length (utf8 cps1)) as (c1 & c2 & -> & Ht & Hc).
  { unfold consumed. case_match; [by apply follow_consumed | by apply follow_lines]. }
  apply Forall_app in Hs as [Hs1 Hs2]. exists c1, c2. split; [done|]. split.
  - destruct (consumed =? 0)%nat eqn:E0; breflect.
    + rewrite E0 in Hc. destruct c1 as [|c c1]; [done|]. rewrite utf8_cons, length_app in Hc. pose proof (utf8_of_length c). lia.
    + rewrite Ht, decode_utf8; [simpl; by rewrite Hc | done | set_solver|]. rewrite <- Ht.
      destruct (starts_with bom (take consumed bytes)) eqn:E; [|done].
      apply starts_with_spec in E as [t E]. rewrite <- (take_drop consumed bytes), E, <- app_assoc, starts_with_app in Hb. done.
  - intros Hor ->. simpl in Hc. unfold consumed in Hc. destruct ((lines =? 0)%nat && _) eqn:El.
    + apply andb_true_iff in El as [El Hfull]. breflect. unfold utf8SafeLength in Hc.
      unfold FOLLOW_CHUNK_BYTES in Hfull.
      assert (forall f l, (trailing_conts f l <= f)%nat) as Htc.
      { clear. induction f as [|f IH]; intros l; simpl; [lia|]. destruct l as [|b l]; [lia|]. destruct (is_cont b); [|lia].
        specialize (IH l). lia. }
      specialize (Htc 3%nat (reverse bytes)).
      destruct (length bytes - trailing_conts 3 (reverse bytes))%nat eqn:Ej; [lia|]. case_match; lia.
    + assert (lines <> 0%nat) as Hl; [|lia]. destruct Hor as [Hnl|Hbig].
      * unfold lines, completeLines. destruct (last_index_of 10 bytes) eqn:En; [done|]. by apply last_index_of_None in En.
      * intros E0. rewrite E0 in El. simpl in El. breflect. lia.
Qed.
Lemma followChunk_whole_characters_witness :
  exists cps1 cps2, [233; 10; 8364] = cps1 ++ cps2 /\ followChunk [195; 169; 10; 226] = Some (utf16 cps1, length (utf8 cps1)).
Proof.
  destruct (followChunk_whole_characters [233; 10; 8364] [195; 169; 10; 226]) as (c1 & c2 & H1 & H2 & _).
  - repeat constructor.
  - apply includes_char_false. vm_compute. reflexivity.
  - exists [130; 172]. vm_compute. reflexivity.
  - vm_compute. reflexivity.
  - exists c1, c2. split; [exact H1 | exact H2].
Defined.

(** ** Percent encoding *)

Definition unhex (c : jchar) : option Z :=
  if is_digit c then Some (c - 48) else if (65 <=? c) && (c <=? 70) then Some (c - 55) else None.
(** The bytes a server reads from a percent-encoded component. *)
Fixpoint percent_decode (s : jstr) : option (list Z) :=
  match s with
  | [] => Some []
  | c :: r =>
      if c =? 37 then
        match r with
        | h :: l :: r' => x ← unhex h; y ← unhex l; cons (x * 16 + y) <$> percent_decode r'
        | _ => None
        end
      else cons c <$> percent_decode r
  end.

Lemma unhex_upper d : 0 <= d < 16 -> unhex (hex_upper d) = Some d.
Proof. intros H. unfold hex_upper, unhex, is_digit. case_ltb; case_leb; simpl; f_equal; lia. Qed.
Lemma percent_decode_percent b rest : 0 <= b < 256 -> percent_decode (percent b ++ rest) = cons b <$> percent_decode rest.
Proof.
  intros Hb. unfold percent. cbn [app percent_decode]. rewrite Z.eqb_refl.
  assert (0 <= b / 16 < 16) by (split; [apply Z.div_pos; lia | apply Z.div_lt_upper_bound; lia]).
  pose proof (Z.mod_pos_bound b 16 ltac:(lia)). rewrite !unhex_upper by lia. cbn [mbind option_bind].
  replace (b / 16 * 16 + b mod 16) with b by (pose proof (Z.div_mod b 16); lia). done.
Qed.
Lemma unreserved_facts c : is_unreserved c = true -> 0 <= c < 128 /\ c <> 37 /\ c <> slash /\ c <> 63 /\ c <> 38 /\ c <> 61 /\ c <> 35.
Proof.
  unfold is_unreserved, is_alnum, is_alpha, is_upper, is_lower, is_digit, slash.
  rewrite !orb_true_iff, !andb_true_iff, !Z.leb_le, !Z.eqb_eq. lia.
Qed.

Lemma percent_decode_bytes bs rest : Forall (fun b => is_byte b = true) bs ->
  percent_decode ((bs ≫= percent) ++ rest) = app bs <$> percent_decode rest.
Proof.
  induction 1 as [|b bs Hb _ IH]; [simpl; by destruct (percent_decode rest)|]. unfold is_byte in Hb. breflect.
  rewrite bind_cons, <- app_assoc, percent_decode_percent by lia. rewrite IH. by destruct (percent_decode rest).
Qed.
Lemma percent_decode_escape cp rest : is_scalar cp = true ->
  percent_decode (uri_escape cp ++ rest) = app (utf8_of cp) <$> percent_decode rest.
Proof.
  intros Hs. unfold uri_escape. destruct (is_unreserved cp) eqn:E.
  - apply unreserved_facts in E as (? & ? & _). simpl. rewrite (proj2 (Z.eqb_neq cp 37)) by done.
    unfold utf8_of. case_ltb. done.
  - apply percent_decode_bytes. pose proof (utf8_bytes [cp] ltac:(by repeat constructor)) as Hb. simpl in Hb.
    rewrite app_nil_r in Hb. exact Hb.
Qed.

Lemma code_points_sound n s cps : (length s <= n)%nat -> Forall (fun c => 0 <= c < 65536) s -> code_points s = Some cps ->
  Forall (fun c => is_scalar c = true) cps /\ utf16 cps = s.
Proof.
  revert s cps. induction n as [|n IH]; intros s cps Hn Hs E.
  { destruct s; [|simpl in Hn; lia]. injection E as <-. by split. }
  destruct s as [|c r]; [injection E as <-; by split|]. inversion Hs as [|? ? Hc Hr]; subst. cbn [code_points] in E.
  simpl in Hn. destruct ((55296 <=? c) && (c <=? 56319)) eqn:Eh; breflect.
  - destruct r as [|d r]; [done|]. destruct ((56320 <=? d) && (d <=? 57343)) eqn:El; [|done]. breflect.
    destruct (code_points r) as [l|] eqn:Er; [|done]. injection E as <-. inversion Hr; subst.
    destruct (IH r l) as [K1 K2]; [simpl in Hn; lia | done | done|]. split.
    + constructor; [|done]. unfold is_scalar. case_leb; done.
    + set (x := 65536 + _ + _). change (utf16 (x :: l)) with (utf16_of x ++ utf16 l). unfold x. rewrite K2. unfold utf16_of. case_ltb.
      replace (65536 + (c - 55296) * 1024 + (d - 56320) - 65536) with ((c - 55296) * 1024 + (d - 56320)) by lia.
      destruct (div_mod_digit (c - 55296) (d - 56320) 1024) as [-> ->]; [lia|]. simpl. f_equal; [lia|]. f_equal. lia.
  - destruct ((56320 <=? c) && (c <=? 57343)) eqn:El; [done|]. destruct (code_points r) as [l|] eqn:Er; [|done].
    injection E as <-. destruct (IH r l) as [K1 K2]; [lia | done | done|]. split.
    + constructor; [|done]. unfold is_scalar. rewrite andb_false_iff, !Z.leb_gt in Eh, El. case_leb; done || lia.
    + change (utf16 (c :: l)) with (utf16_of c ++ utf16 l). rewrite K2. unfold utf16_of. case_ltb; done.
Qed.

(** [encodeURIComponent] is lossless and inert: the server reads back exactly the
      UTF-8 of the text, and the encoded component holds no character that could
      start a path segment, a query, a parameter or a fragment. *)
Lemma encodeURIComponent_inert (s e : jstr) :
  Forall (fun c => 0 <= c < 65536) s -> encodeURIComponent s = Some e ->
  (exists cps, code_points s = Some cps /\ utf16 cps = s /\ percent_decode e = Some (utf8 cps)) /\
  Forall (fun c => is_unreserved c = true \/ c = 37) e /\
  Forall (fun c => c <> slash /\ c <> 63 /\ c <> 38 /\ c <> 61 /\ c <> 35) e.
Proof.
  unfold encodeURIComponent. intros Hs E. destruct (code_points s) as [cps|] eqn:Ec; [|done]. injection E as <-.
  destruct (code_points_sound (length s) s cps (le_n _) Hs Ec) as [Hsc Hu].
  assert (Forall (fun c => is_unreserved c = true \/ c = 37) (cps ≫= uri_escape)) as Hin.
  { apply Forall_bind. eapply Forall_impl; [exact Hsc|]. intros c Hc.
    change (Forall (fun c => is_unreserved c = true \/ c = 37) (uri_escape c)). unfold uri_escape.
    destruct (is_unreserved c) eqn:Eu; [apply Forall_singleton; by left|].
    apply Forall_bind. pose proof (utf8_bytes [c] ltac:(by repeat constructor)) as Hb. simpl in Hb. rewrite app_nil_r in Hb.
    eapply Forall_impl; [exact Hb|]. intros b Hbb. unfold is_byte in Hbb. breflect.
    change (Forall (fun c => is_unreserved c = true \/ c = 37) (percent b)).
    assert (forall d, 0 <= d < 16 -> is_unreserved (hex_upper d) = true) as Hh.
    { intros d Hd. unfold hex_upper, is_unreserved, is_alnum, is_alpha, is_upper, is_lower, is_digit. case_ltb; case_leb; done. }
    assert (0 <= b / 16 < 16) by (split; [apply Z.div_pos; lia | apply Z.div_lt_upper_bound; lia]).
    pose proof (Z.mod_pos_bound b 16 ltac:(lia)). unfold percent.
    constructor; [by right|]. constructor; [left; auto|]. constructor; [left; auto | constructor]. }
  split; [|split; [done|]].
  - exists cps. split; [done|]. split; [done|]. clear Ec Hin Hu. induction Hsc as [|c cps Hc _ IH]; [done|].
    rewrite bind_cons, percent_decode_escape, IH by done. done.
  - eapply Forall_impl; [exact Hin|]. intros c [Hc| ->]; [|unfold slash; lia]. apply unreserved_facts in Hc. tauto.
Qed.

(** ** [decodeURIComponent] *)

Definition hex_digit (c : jchar) : option Z := if is_hex c then Some (hex_value c) else None.
(** The bytes of at most [n] adjacent [%XX] escapes at the front. *)
Fixpoint percent_run (n : nat) (s : jstr) : list Z :=
  match n, s with
  | S n, 37 :: h :: l :: r =>
      match hex_digit h, hex_digit l with
      | Some x, Some y => (x * 16 + y) :: percent_run n r
      | _, _ => []
      end
  | _, _ => []
  end.
(** A plain unit stands for itself; a run of escapes is one UTF-8 character.  [None]: [URIError]. *)
Fixpoint uri_decode (fuel : nat) (s : jstr) : option jstr :=
  match s, fuel with
  | [], _ => Some []
  | _, O => None
  | c :: r, S f =>
      if c =? 37 then
        '(cp, k) ← decode_one (percent_run 4 s); app (utf16_of cp) <$> uri_decode f (drop (3 * k) s)
      else cons c <$> uri_decode f r
  end.
(** Each round takes at least one unit, so the length bounds the rounds. *)
Definition decodeURIComponent (s : jstr) : option jstr := uri_decode (length s) s.

Lemma hex_digit_upper d : 0 <= d < 16 -> hex_digit (hex_upper d) = Some d.
Proof.
  intros H. assert (bool_decide (hex_digit (hex_upper d) = Some d) = true) as E; [|by apply bool_decide_eq_true in E].
  assert (d ∈ Z.of_nat <$> seq 0 16) as Hin by (apply list_elem_of_fmap; exists (Z.to_nat d); rewrite elem_of_seq; lia).
  clear H. revert d Hin. apply Forall_forall. repeat constructor.
Qed.
Lemma percent_run_bytes bs rest n : Forall (fun b => is_byte b = true) bs -> (length bs <= n)%nat ->
  exists more, percent_run n ((bs ≫= percent) ++ rest) = bs ++ more.
Proof.
  intros H. revert n. induction H as [|b bs Hb _ IH]; intros n Hn; [by eexists|]. destruct n as [|n]; [simpl in Hn; lia|].
  unfold is_byte in Hb. breflect. rewrite bind_cons, <- app_assoc. unfold percent at 1. cbn [app percent_run].
  assert (0 <= b / 16 < 16) by (split; [apply Z.div_pos; lia | apply Z.div_lt_upper_bound; lia]).
  pose proof (Z.mod_pos_bound b 16 ltac:(lia)). rewrite !hex_digit_upper by lia.
  replace (b / 16 * 16 + b mod 16) with b by (pose proof (Z.div_mod b 16); lia).
  destruct (IH n) as [more ->]; [simpl in Hn; lia|]. by exists more.
Qed.
Lemma percent_length bs : length (bs ≫= percent) = (3 * length bs)%nat.
Proof. induction bs as [|b bs IH]; [done|]. rewrite bind_cons, length_app, IH. simpl. lia. Qed.
Lemma uri_decode_mono f s t : uri_decode f s = Some t -> forall g, (f <= g)%nat -> uri_decode g s = Some t.
Proof.
  revert s t. induction f as [|f IH]; intros s t E g Hg; destruct s as [|c r]; try done; [by destruct g|by destruct g|].
  destruct g as [|g]; [lia|]. cbn [uri_decode] in E |- *. destruct (c =? 37).
  - destruct (decode_one _) as [[cp k]|]; [|done]. cbn in E |- *. destruct (uri_decode f _) as [u|] eqn:Eu; [|done].
    by rewrite (IH _ _ Eu g) by lia.
  - destruct (uri_decode f r) as [u|] eqn:Eu; [|done]. by rewrite (IH _ _ Eu g) by lia.
Qed.
(** An escaped scalar value in front of a text that decodes. *)
Lemma uri_decode_escape cp rest t : is_scalar cp = true -> decodeURIComponent rest = Some t ->
  decodeURIComponent (uri_escape cp ++ rest) = Some (utf16_of cp ++ t).
Proof.
  intros Hs E. unfold decodeURIComponent in *. unfold uri_escape. destruct (is_unreserved cp) eqn:Eu.
  - apply unreserved_facts in Eu as (Hr & H37 & _). cbn [app length uri_decode].
    rewrite (proj2 (Z.eqb_neq cp 37)), E by done. unfold utf16_of. case_ltb. done.
  - pose proof (utf8_bytes [cp] ltac:(by repeat constructor)) as Hb. unfold utf8 in Hb. rewrite bind_cons, app_nil_r in Hb.
    pose proof (utf8_of_length cp) as Hl. destruct (percent_run_bytes _ rest 4 Hb) as [more Hm]; [lia|].
    pose proof (decode_one_utf8 cp more Hs) as Hd. rewrite <- Hm in Hd. set (whole := (utf8_of cp ≫= percent) ++ rest) in *.
    assert (exists r, whole = 37 :: r) as [r Ew].
    { unfold whole. destruct (utf8_of cp) as [|b bs]; [simpl in Hl; lia|]. rewrite bind_cons. by eexists. }
    rewrite Ew in Hd |- *. cbn [length uri_decode]. rewrite Z.eqb_refl, Hd. cbn [mbind option_bind].
    rewrite <- Ew. replace (drop _ whole) with rest by (unfold whole; by rewrite <- percent_length, drop_app_length).
    rewrite (uri_decode_mono _ _ _ E); [done|].
    assert (length whole = (3 * length (utf8_of cp) + length rest)%nat) as El by (unfold whole; by rewrite length_app, percent_length).
    rewrite Ew in El. simpl in El. lia.
Qed.
Lemma uri_decode_escapes cps rest t : Forall (fun c => is_scalar c = true) cps -> decodeURIComponent rest = Some t ->
  decodeURIComponent ((cps ≫= uri_escape) ++ rest) = Some (utf16 cps ++ t).
Proof.
  intros H E. induction H as [|c cps Hc _ IH]; [done|]. rewrite bind_cons, <- app_assoc, (uri_decode_escape _ _ _ Hc IH).
  unfold utf16 at 2. by rewrite bind_cons, <- app_assoc.
Qed.
(** Encoding a component and decoding it where a decodable text follows. *)
Lemma decode_encode_app s e rest t : Forall (fun c => 0 <= c < 65536) s -> encodeURIComponent s = Some e ->
  decodeURIComponent rest = Some t -> decodeURIComponent (e ++ rest) = Some (s ++ t).
Proof.
  unfold encodeURIComponent. intros Hs E Hr. destruct (code_points s) as [cps|] eqn:Ec; [|done]. injection E as <-.
  destruct (code_points_sound (length s) s cps (le_n _) Hs Ec) as [Hsc <-]. by apply uri_decode_escapes.
Qed.
