(* ===== verification/AgentClient.v ===== *)
(** * The pinned agent client

    [core/api/agentClient.ts] and [core/api/compat.ts].  The native transport is a
    parameter that answers each request, possibly depending on those before it; a
    client call is code in the state-and-error monad over the route in use, the
    remembered route per host, and the log of requests handed to the transport. *)

From Stdlib Require Import ZArith Lia Bool.
From Stdlib Require List.
From S2P Require Import Prelude JsCollections JsString Json Errors Models Host Utf8.

Local Open Scope js_scope.

(** ** Transport *)

Record TransportResponse := { rs_status : Z; rs_headers : list (jstr * jstr); rs_bodyText : jstr }.
Record TransportRequest := {
  rq_url : jstr;
  rq_method : jstr;
  rq_headers : list (jstr * jstr);
  rq_bodyText : option jstr;
  rq_pin : option jstr;
  rq_timeoutMs : option Z
}.
(** The reply to a request, given the requests before it. *)
Definition Transport := list TransportRequest -> TransportRequest -> result jserror TransportResponse.

Definition statusError (status : Z) : jserror :=
  AgentApiError status (if status =? 403 then js "FORBIDDEN" else js "UNKNOWN") (js "HTTP " ++ string_of_Z status) None.
Definition isSafeToRetryOnFallback (m : jstr) : bool := bool_decide (m = js "GET") || bool_decide (m = js "HEAD").
Definition isSafeUnpinnedPreflight (method path : jstr) : bool :=
  (bool_decide (method = js "GET") && bool_decide (path = js "/health")) ||
  (bool_decide (method = js "POST") && bool_decide (path = js "/auth/challenge")).

(** ** The client *)

Record AgentClientOptions := {
  opt_deviceToken : option jstr;
  opt_pinnedFingerprint : option jstr;
  opt_clientVersion : option jstr;
  opt_probeLanFirst : bool;
  opt_timeoutMs : option Z
}.
Record Client := {
  cl_host : Host;
  cl_opts : AgentClientOptions;
  cl_pin : option jstr;
  cl_addresses : list jstr
}.
(** What client calls read and change. *)
Record World := {
  addrIndex : Z;
  lastGoodRoute : list (jstr * Z);
  sent : list TransportRequest
}.

Definition is_truthy (o : option jstr) : bool := match o with Some (_ :: _) => true | _ => false end.

Section Construct.
Context `{U : Unicode}.
(** The constructor: the client and the route it starts from. *)
Definition newAgentClient (host : Host) (opts : AgentClientOptions) (lastGood : list (jstr * Z)) : result jserror (Client * Z) :=
  let pin := normalizeFingerprint (opt_pinnedFingerprint opts) in
  if is_some (opt_pinnedFingerprint opts) && negb (is_some pin) then Err MissingCertPin
  else if is_truthy (opt_deviceToken opts) && negb (is_some pin) then Err MissingCertPin
  else
    let addresses := route_address <$> routeAddresses host in
    let idx := if opt_probeLanFirst opts then 0
               else Z.min (Z.max (default 0 (map_get (host_id host) lastGood)) 0) (Z.of_nat (length addresses) - 1) in
    Ok ({| cl_host := host; cl_opts := opts; cl_pin := pin; cl_addresses := addresses |}, idx).
End Construct.

(** [this.addresses[i]], as it reads inside a template string. *)
Definition address_at (c : Client) (i : Z) : jstr :=
  if i <? 0 then js "undefined" else default (js "undefined") (cl_addresses c !! Z.to_nat i).
Definition activeAddress (c : Client) (w : World) : jstr := address_at c (addrIndex w).
Definition activeRoute (c : Client) (w : World) : HostRoute := routeForAddress (cl_host c) (activeAddress c w).

Inductive QueryValue := qs (s : jstr) | qn (n : Z).
Definition Query := list (jstr * option QueryValue).
Definition query_text (v : QueryValue) : jstr := match v with qs s => s | qn n => string_of_Z n end.
Definition uri_error : jserror := PlainError (js "URI malformed").
(** [k=v&k=v...] of the defined values; [None]: [encodeURIComponent] throws. *)
Fixpoint query_pairs (q : Query) : option (list jstr) :=
  match q with
  | [] => Some []
  | (_, None) :: r => query_pairs r
  | (k, Some v) :: r =>
      k' ← encodeURIComponent k; v' ← encodeURIComponent (query_text v); ps ← query_pairs r;
      Some ((k' ++ [61] ++ v') :: ps)
  end.
Definition query_string (q : option Query) : option jstr :=
  match q with None => Some [] | Some q => join [38] <$> query_pairs q end.

Record CallOpts := { co_query : option Query; co_json : option json; co_text : option jstr }.
Definition no_opts : CallOpts := {| co_query := None; co_json := None; co_text := None |}.
Definition with_query (q : Query) : CallOpts := {| co_query := Some q; co_json := None; co_text := None |}.
Definition with_json (j : json) : CallOpts := {| co_query := None; co_json := Some j; co_text := None |}.

Section Calls.
Context `{U : Unicode} `{J : JsonCodec} `{D : DateParse}.
Context (transport : Transport) (c : Client).

Notation Call := (M World jserror).

Definition client_headers (o : CallOpts) : list (jstr * jstr) :=
  [(js "X-RFE-Client-Version", default (js "rn") (opt_clientVersion (cl_opts c)))]
  ++ match co_json o, co_text o with
     | Some _, _ => [(js "Content-Type", js "application/json")]
     | None, Some _ => [(js "Content-Type", js "application/octet-stream")]
     | None, None => []
     end
  ++ match cl_pin c, opt_deviceToken (cl_opts c) with
     | Some _, Some (t :: ts) => [(js "Authorization", js "Bearer " ++ t :: ts)]
     | _, _ => []
     end.

Definition send (i : Z) (method path : jstr) (o : CallOpts) : Call TransportResponse := fun w =>
  if negb (is_some (cl_pin c)) && negb (isSafeUnpinnedPreflight method path) then (w, Err MissingCertPin)
  else match query_string (co_query o) with
       | None => (w, Err uri_error)
       | Some q =>
           let req := {|
             rq_url := js "https://" ++ address_at c i ++ js "/v1" ++ path ++ (if nonempty q then 63 :: q else []);
             rq_method := method;
             rq_headers := client_headers o;
             rq_bodyText := match co_json o with Some j => Some (json_stringify j) | None => co_text o end;
             rq_pin := cl_pin c;
             rq_timeoutMs := opt_timeoutMs (cl_opts c) |} in
           ({| addrIndex := addrIndex w; lastGoodRoute := lastGoodRoute w; sent := sent w ++ [req] |},
            transport (sent w) req)
       end.

Definition connectionLost : jstr := js "Connection lost " ++ [8212] ++ js " check your network and try again.".
Definition toApiError (e : jserror) : jserror :=
  match e with
  | AgentApiError _ _ _ _ | CertPinMismatch | MissingCertPin => e
  | _ => if bool_decide (errCode e = Some ERR_CONNECTION)
         then AgentApiError 0 (js "CONNECTION") connectionLost (Some (errMessage e))
         else AgentApiError 0 (js "UNKNOWN") (errMessage e) None
  end.

Definition unreadable : jstr := js "The computer sent a reply this app could not read.".
Definition parse (res : TransportResponse) : result jserror json :=
  let parsed := if nonempty (rs_bodyText res) then json_parse (rs_bodyText res) else Some JNull in
  if (200 <=? rs_status res) && (rs_status res <? 300) then
    match parsed with
    | Some body => Ok body
    | None => Err (AgentApiError (rs_status res) (js "BAD_RESPONSE") unreadable None)
    end
  else
    let b := match parsed with Some (JObj fs) => fs | _ => [] end in
    Err (AgentApiError (rs_status res) (default (js "UNKNOWN") (as_str (field (js "code") b)))
           (default (js "HTTP " ++ string_of_Z (rs_status res)) (as_str (field (js "message") b))) None).

(** [this.addrIndex = i; AgentClient.lastGoodRoute.set(this.host.id, i)]. *)
Definition remember_route (i : Z) : Call unit := modify (fun w =>
  {| addrIndex := i; lastGoodRoute := map_set (host_id (cl_host c)) i (lastGoodRoute w); sent := sent w |}).

(** The [for] loop of [fallback] over the routes not tried yet. *)
Fixpoint fallback_loop (routes : list Z) (method path : jstr) (o : CallOpts) (last : jserror) : Call TransportResponse :=
  match routes with
  | [] => throw (toApiError last)
  | i :: rest => fun w =>
      match send i method path o w with
      | (w', Ok res) => (remember_route i ;; ret res) w'
      | (w', Err e) =>
          if bool_decide (errCode e = Some ERR_CERT_PIN_MISMATCH) then (w', Err CertPinMismatch)
          else if negb (bool_decide (errCode e = Some ERR_CONNECTION)) then (w', Err (toApiError e))
          else fallback_loop rest method path o e w'
      end
  end.
Definition other_routes (source : Z) : list Z :=
  List.filter (fun i => negb (i =? source)) (Z.of_nat <$> seq 0 (length (cl_addresses c))).
(** [source] is read when the first request has failed, not when it was made: with
    calls that overlap it need not be the route that failed
    ([overlapping_calls_skip_good_route]). *)
Definition fallback (method path : jstr) (o : CallOpts) (first : jserror) : Call TransportResponse :=
  w <- get_state ;;
  fallback_loop (other_routes (addrIndex w)) method path
    {| co_query := co_query o; co_json := co_json o; co_text := None |} first.

Definition exchange (method path : jstr) (o : CallOpts) : Call TransportResponse :=
  w <- get_state ;;
  catch (send (addrIndex w) method path o) (fun e =>
    if bool_decide (errCode e = Some ERR_CERT_PIN_MISMATCH) then throw CertPinMismatch
    else if bool_decide (errCode e = Some ERR_PIN_POLICY) then throw MissingCertPin
    else if negb (bool_decide (errCode e = Some ERR_CONNECTION)) || negb (isSafeToRetryOnFallback method)
            || (length (cl_addresses c) <? 2)%nat then throw (toApiError e)
    else fallback method path o e).
Definition callFull (method path : jstr) (o : CallOpts) : Call (json * list (jstr * jstr)) :=
  res <- exchange method path o ;;
  body <- lift (parse res) ;;
  ret (body, rs_headers res).
Definition call (method path : jstr) (o : CallOpts) : Call json :=
  r <- callFull method path o ;; ret r.1.
End Calls.

(** ** Conversions of untyped replies *)

(** [d.k] on an untyped value: [null] throws, other non-objects have no such property. *)
Definition prop (d : json) (k : string) : result jserror (option json) :=
  match d with
  | JNull => Err (PlainError (js "Cannot read property '" ++ js k ++ js "' of null"))
  | JObj fs => Ok (field (js k) fs)
  | _ => Ok None
  end.
(** [String(v)]. *)
Fixpoint json_to_string (v : json) : jstr :=
  match v with
  | JNull => js "null"
  | JBool b => if b then js "true" else js "false"
  | JNum n => string_of_Z n
  | JStr s => s
  | JArr l => join [44] ((fix go l := match l with [] => [] | x :: r => match x with JNull => [] | _ => json_to_string x end :: go r end) l)
  | JObj _ => js "[object Object]"
  end.
(** [Number(v)] where the outcome is an integer; [None] stands for every other number. *)
Definition number_of_string (s : jstr) : option Z :=
  match trim s with
  | [] => Some 0
  | 45 :: t => if all_digits t then Some (- nat_of_digits t) else None
  | 43 :: t | t => if all_digits t then Some (nat_of_digits t) else None
  end.
Definition json_to_number (v : json) : option Z :=
  match v with
  | JNull => Some 0
  | JBool b => Some (if b then 1 else 0)
  | JNum n => Some n
  | JStr s => number_of_string s
  | JArr _ => number_of_string (json_to_string v)
  | JObj _ => None
  end.
(** [v ?? d]. *)
Definition nullish (v : option json) : option json := match v with Some JNull => None | _ => v end.

Definition jstrs (l : list jstr) : json := JArr (JStr <$> l).
Definition opt_json (k : string) (v : option json) : list (jstr * json) :=
  match v with Some x => [(js k, x)] | None => [] end.

Inductive PairStatus := pair_pending | pair_rejected | pair_approved (response : PairResponse).

(** The fields of a sign-in or pairing request, a device id only when there is one. *)
Definition with_device_id (fields : list (jstr * json)) (deviceId : option jstr) : json :=
  JObj (fields ++ opt_json "deviceId" (JStr <$> truthy deviceId)).

(** ** Endpoints *)

Section Endpoints.
Context `{U : Unicode} `{J : JsonCodec} `{D : DateParse}.
Context (transport : Transport) (c : Client).

Notation Call := (M World jserror).
Notation call := (call transport c).
Notation callFull := (callFull transport c).

Definition enc (s : jstr) : Call jstr :=
  lift (match encodeURIComponent s with Some e => Ok e | None => Err uri_error end).
Definition badResponse : jserror := AgentApiError 200 (js "BAD_RESPONSE") unreadable None.

(** URL, headers and pin for the native streaming downloader. *)
Definition streamHeaders : list (jstr * jstr) :=
  [(js "X-RFE-Client-Version", default (js "rn") (opt_clientVersion (cl_opts c)))]
  ++ match opt_deviceToken (cl_opts c) with Some (t :: ts) => [(js "Authorization", js "Bearer " ++ t :: ts)] | _ => [] end.
Definition downloadSpec (remotePath : jstr) : Call (jstr * list (jstr * jstr) * jstr) :=
  match cl_pin c with
  | None => throw MissingCertPin
  | Some pin =>
      w <- get_state ;; p <- enc remotePath ;;
      ret (js "https://" ++ activeAddress c w ++ js "/v1/content?path=" ++ p, streamHeaders, pin)
  end.
Definition thumbnailSpec (remotePath : jstr) (size : Z) : Call (jstr * list (jstr * jstr) * jstr) :=
  match cl_pin c with
  | None => throw MissingCertPin
  | Some pin =>
      w <- get_state ;; p <- enc remotePath ;;
      ret (js "https://" ++ activeAddress c w ++ js "/v1/thumb?path=" ++ p ++ js "&size=" ++ string_of_Z size, streamHeaders, pin)
  end.

Definition health : Call Health := d <- call (js "GET") (js "/health") no_opts ;; lift (parseHealth d).
Definition status : Call AgentStatus := d <- call (js "GET") (js "/settings") no_opts ;; lift (parseStatus d).
Definition updateSettings (readOnly : option bool) (agentName : option jstr) (allowSharing : option bool) : Call AgentStatus :=
  d <- call (js "PATCH") (js "/settings") (with_json (JObj (
         opt_json "readOnly" (JBool <$> readOnly) ++ opt_json "agentName" (JStr <$> agentName)
         ++ opt_json "allowSharing" (JBool <$> allowSharing)))) ;;
  lift (parseStatus d).

Definition listDevices : Call (list Device) :=
  d <- call (js "GET") (js "/devices") no_opts ;; ret (parseDevice <$> as_arr (Some d)).
Definition deleteDevice (id : jstr) (purge : bool) : Call unit :=
  e <- enc id ;;
  call (js "DELETE") (js "/devices/" ++ e) (if purge then with_query [(js "purge", Some (qs (js "true")))] else no_opts) ;;
  ret tt.
Definition updateDeviceAppCapabilities (id : jstr) (viewApps launchApps : bool) : Call unit :=
  e <- enc id ;;
  call (js "PATCH") (js "/devices/" ++ e) (with_json (JObj [(js "viewApps", JBool viewApps); (js "launchApps", JBool launchApps)])) ;;
  ret tt.
Definition updateDeviceFileCapabilities (id : jstr) (grants : Capabilities) : Call unit :=
  e <- enc id ;;
  call (js "PATCH") (js "/devices/" ++ e)
    (with_json (JObj ((fun k => (capability_key k, JBool (grants k))) <$> FILE_CAPABILITIES))) ;;
  ret tt.
Definition getBandwidth : Call BandwidthSettings :=
  d <- call (js "GET") (js "/settings/bandwidth") no_opts ;; ret (parseBandwidth d).
Definition setBandwidth (up down : option Z) : Call BandwidthSettings :=
  d <- call (js "PUT") (js "/settings/bandwidth") (with_json (JObj (
         opt_json "maxUploadBytesPerSec" (JNum <$> up) ++ opt_json "maxDownloadBytesPerSec" (JNum <$> down)))) ;;
  ret (parseBandwidth d).
Definition audit (limit before : option Z) : Call (list AuditEntry) :=
  d <- call (js "GET") (js "/audit") (with_query [(js "limit", Some (qn (default 100 limit))); (js "before", qn <$> before)]) ;;
  es <- lift (prop d "entries") ;; ret (parseAuditEntry <$> as_arr es).
Definition listApps : Call HostAppCatalog :=
  d <- call (js "GET") (js "/apps") no_opts ;; lift (parseHostAppCatalog d).
Definition launchApp (id : jstr) : Call unit :=
  e <- enc id ;;
  d <- call (js "POST") (js "/apps/" ++ e ++ js "/launch") no_opts ;;
  match d with
  | JObj fs => if bool_decide (as_str (field (js "status") fs) = Some (js "started")) then ret tt
               else throw (PlainError (js "Unexpected app launch response."))
  | _ => throw (PlainError (js "Unexpected app launch response."))
  end.

Definition agentTooOld : jserror := AgentApiError 0 (js "UNSUPPORTED_BY_AGENT")
  (js "This computer" ++ [8217] ++ js "s agent is too old to sign in from this app. Update the agent on that computer.") None.
Definition challenge : Call jstr :=
  d <- call (js "POST") (js "/auth/challenge") no_opts ;;
  match d with
  | JObj fs =>
      match as_str (field (js "nonce") fs) with
      | Some (n :: ns) => if bool_decide (as_str (field (js "proof") fs) = Some (js "v2")) then ret (n :: ns) else throw agentTooOld
      | _ => throw badResponse
      end
  | _ => throw badResponse
  end.
Definition login (username password deviceLabel devicePublicKey nonce signature : jstr) (deviceId : option jstr) : Call PairResponse :=
  d <- call (js "POST") (js "/login") (with_json (with_device_id
    [(js "username", JStr username); (js "password", JStr password); (js "deviceLabel", JStr deviceLabel);
     (js "devicePublicKey", JStr devicePublicKey); (js "nonce", JStr nonce); (js "signature", JStr signature)] deviceId)) ;;
  ret (parsePairResponse d).
Definition register (pairingCode username password deviceLabel devicePublicKey nonce signature : jstr) (deviceId : option jstr) : Call PairResponse :=
  d <- call (js "POST") (js "/register") (with_json (with_device_id
    [(js "pairingCode", JStr pairingCode); (js "username", JStr username); (js "password", JStr password);
     (js "deviceLabel", JStr deviceLabel); (js "devicePublicKey", JStr devicePublicKey); (js "nonce", JStr nonce);
     (js "signature", JStr signature)] deviceId)) ;;
  ret (parsePairResponse d).
Definition pair (pairingCode deviceLabel devicePublicKey nonce signature : jstr) (deviceId : option jstr) : Call PairResponse :=
  d <- call (js "POST") (js "/pair") (with_json (with_device_id
    [(js "pairingCode", JStr pairingCode); (js "deviceLabel", JStr deviceLabel); (js "devicePublicKey", JStr devicePublicKey);
     (js "nonce", JStr nonce); (js "signature", JStr signature)] deviceId)) ;;
  ret (parsePairResponse d).
(** The request id and its lifetime in seconds ([None]: not an integer). *)
Definition requestPair (deviceLabel devicePublicKey nonce signature clientNonceCommit : jstr) (deviceId : option jstr)
    : Call (jstr * option Z) :=
  d <- call (js "POST") (js "/pair/request") (with_json (with_device_id
    [(js "deviceLabel", JStr deviceLabel); (js "devicePublicKey", JStr devicePublicKey); (js "nonce", JStr nonce);
     (js "signature", JStr signature); (js "clientNonceCommit", JStr clientNonceCommit)] deviceId)) ;;
  id <- lift (prop d "requestId") ;; ex <- lift (prop d "expiresInSeconds") ;;
  ret (default [] (json_to_string <$> nullish id), match nullish ex with Some v => json_to_number v | None => Some 120 end).
Definition revealPair (id clientNonce : jstr) : Call unit :=
  e <- enc id ;;
  call (js "POST") (js "/pair/request/" ++ e ++ js "/reveal") (with_json (JObj [(js "clientNonce", JStr clientNonce)])) ;;
  ret tt.
Definition pairRequestStatus (id clientNonce : jstr) : Call PairStatus :=
  e <- enc id ;;
  d <- call (js "GET") (js "/pair/request/" ++ e) (with_query [(js "nonce", Some (qs clientNonce))]) ;;
  s <- lift (prop d "status") ;;
  ret (if bool_decide (as_str s = Some (js "approved")) then pair_approved (parsePairResponse d)
       else if bool_decide (as_str s = Some (js "rejected")) then pair_rejected else pair_pending).

Definition get_drives : Call (list Drive) :=
  d <- call (js "GET") (js "/system/drives") no_opts ;;
  match d with JArr l => ret (parseDrive <$> l) | _ => throw badResponse end.
Definition list_ (path : jstr) (cursor : option jstr) (limit : option Z) : Call Listing :=
  d <- call (js "GET") (js "/fs") (with_query [(js "path", Some (qs path)); (js "cursor", qs <$> cursor);
                                             (js "limit", Some (qn (default 200 limit)))]) ;;
  lift (parseListing d).
Definition meta (path : jstr) : Call Entry :=
  d <- call (js "GET") (js "/fs/meta") (with_query [(js "path", Some (qs path))]) ;; lift (parseEntry d).
(** The [checksum] property as it came. *)
Definition checksum (path algo : jstr) : Call (option json) :=
  d <- call (js "GET") (js "/fs/checksum") (with_query [(js "path", Some (qs path)); (js "algo", Some (qs algo))]) ;;
  lift (prop d "checksum").
Definition archiveList (path : jstr) (limit : option Z) : Call (list ArchiveEntry) :=
  d <- call (js "GET") (js "/fs/archive") (with_query [(js "path", Some (qs path)); (js "limit", qn <$> limit)]) ;;
  es <- lift (prop d "entries") ;; ret (parseArchiveEntry <$> as_arr es).
(** The usable [path, hash] pairs of the reply; later ones win. *)
Fixpoint checksum_map (items : list json) (out : list (jstr * jstr)) : result jserror (list (jstr * jstr)) :=
  match items with
  | [] => Ok out
  | JNull :: _ => Err (PlainError (js "Cannot read property 'hash' of null"))
  | it :: r => match as_str (field (js "hash") (obj it)), as_str (field (js "path") (obj it)) with
               | Some (h :: hs), Some p => checksum_map r (map_set p (h :: hs) out)
               | _, _ => checksum_map r out
               end
  end.
Definition batchChecksums (paths : list jstr) (algo : jstr) : Call (list (jstr * jstr)) :=
  d <- call (js "POST") (js "/fs/checksums") (with_json (JObj [(js "paths", jstrs paths); (js "algo", JStr algo)])) ;;
  cs <- lift (prop d "checksums") ;; lift (checksum_map (as_arr cs) []).

Definition putContent (path text : jstr) (baseModified : option jstr) : Call Entry :=
  d <- call (js "PUT") (js "/content") {| co_query := Some [(js "path", Some (qs path)); (js "baseModified", qs <$> baseModified)];
                                        co_json := None; co_text := Some text |} ;;
  lift (parseEntry d).
Definition entry (method path : jstr) (j : json) : Call Entry :=
  d <- call method path (with_json j) ;; lift (parseEntry d).
Definition createFolder (path : jstr) : Call Entry := entry (js "POST") (js "/fs/folder") (JObj [(js "path", JStr path)]).
Definition createFile (path : jstr) : Call Entry := entry (js "POST") (js "/fs/file") (JObj [(js "path", JStr path)]).
Definition rename (src dst : jstr) : Call Entry :=
  entry (js "PATCH") (js "/fs/rename") (JObj [(js "src", JStr src); (js "dst", JStr dst)]).
Definition chmod (path mode : jstr) : Call Entry :=
  entry (js "POST") (js "/fs/chmod") (JObj [(js "path", JStr path); (js "mode", JStr mode)]).
Definition transfer_body (sources : list jstr) (destDir : jstr) (duplicate overwrite : option bool) : json :=
  JObj [(js "sources", jstrs sources); (js "destDir", JStr destDir);
        (js "duplicate", JBool (default false duplicate)); (js "overwrite", JBool (default false overwrite))].
Definition copy (sources : list jstr) (destDir : jstr) (duplicate overwrite : option bool) : Call BatchResult :=
  d <- call (js "POST") (js "/fs/copy") (with_json (transfer_body sources destDir duplicate overwrite)) ;; ret (parseBatchResult d).
Definition move (sources : list jstr) (destDir : jstr) (duplicate overwrite : option bool) : Call BatchResult :=
  d <- call (js "POST") (js "/fs/move") (with_json (transfer_body sources destDir duplicate overwrite)) ;; ret (parseBatchResult d).
Definition delete_ (paths : list jstr) (permanent : bool) : Call BatchResult :=
  d <- call (js "DELETE") (js "/fs") {|
         co_query := if permanent then Some [(js "permanent", Some (qs (js "true")))] else None;
         co_json := Some (JObj [(js "paths", jstrs paths)]); co_text := None |} ;;
  ret (parseBatchResult d).
Definition listTrash : Call (list TrashEntry) :=
  d <- call (js "GET") (js "/trash") no_opts ;;
  items <- lift (prop d "items") ;; ret (parseTrashEntry <$> as_arr items).
Definition restoreTrash (ids : list jstr) : Call BatchResult :=
  d <- call (js "POST") (js "/trash/restore") (with_json (JObj [(js "ids", jstrs ids)])) ;; ret (parseBatchResult d).
Definition emptyTrash (ids : option (list jstr)) : Call unit :=
  call (js "DELETE") (js "/trash") {| co_query := None; co_json := (fun l => JObj [(js "ids", jstrs l)]) <$> ids; co_text := None |} ;;
  ret tt.
Definition compress (sources : list jstr) (dest : jstr) : Call Entry :=
  entry (js "POST") (js "/fs/compress") (JObj [(js "sources", jstrs sources); (js "dest", JStr dest)]).
Definition extract (archive destDir : jstr) : Call Entry :=
  entry (js "POST") (js "/fs/extract") (JObj [(js "archive", JStr archive); (js "destDir", JStr destDir)]).

Record SearchArgs := {
  sa_q : jstr; sa_root : option jstr; sa_limit : option Z; sa_types : list jstr; sa_ext : list jstr;
  sa_minSize : option Z; sa_maxSize : option Z;
  sa_modifiedAfter : option jstr; sa_modifiedBefore : option jstr   (** in ISO form *)
}.
Definition comma_list (l : list jstr) : option QueryValue := match l with [] => None | _ => Some (qs (join [44] l)) end.
Definition search (o : SearchArgs) : Call SearchResult :=
  r <- callFull (js "GET") (js "/search") (with_query [
         (js "q", Some (qs (sa_q o))); (js "root", qs <$> sa_root o); (js "limit", Some (qn (default 100 (sa_limit o))));
         (js "types", comma_list (sa_types o)); (js "ext", comma_list (sa_ext o));
         (js "minSize", qn <$> sa_minSize o); (js "maxSize", qn <$> sa_maxSize o);
         (js "modifiedAfter", qs <$> sa_modifiedAfter o); (js "modifiedBefore", qs <$> sa_modifiedBefore o)]) ;;
  lift (parseSearchResult r.1 r.2).
Definition recent (root : option jstr) (limit : option Z) : Call SearchResult :=
  r <- callFull (js "GET") (js "/fs/recent") (with_query [(js "root", qs <$> root); (js "limit", Some (qn (default 100 limit)))]) ;;
  lift (parseSearchResult r.1 r.2).

Definition mintShareLink (path : jstr) (expiresInSeconds : Z) : Call ShareLink :=
  d <- call (js "POST") (js "/share/mint") (with_json (JObj [(js "path", JStr path); (js "expiresInSeconds", JNum expiresInSeconds)])) ;;
  ret (parseShareLink d).
Definition revokeShareLink (tokenHash : jstr) : Call unit :=
  e <- enc tokenHash ;; call (js "DELETE") (js "/share/" ++ e) no_opts ;; ret tt.
Definition listShareLinks : Call (list ShareLink) :=
  d <- call (js "GET") (js "/share") no_opts ;; ret (parseShareLink <$> as_arr (Some d)).
End Endpoints.

(** ** Compatibility ([compat.ts]) *)

Definition UNSUPPORTED_BY_AGENT : jstr := js "UNSUPPORTED_BY_AGENT".
Definition hasFeature (h : option Health) (id : jstr) : bool :=
  match h with None => true | Some h => bool_decide (id ∈ health_features h) end.
Definition FEATURE_LABEL_pairRequest : jstr := js "asking to pair without a code".
Definition unsupportedByAgent (label : jstr) : jserror := AgentApiError 0 UNSUPPORTED_BY_AGENT
  (js "This computer" ++ [8217] ++ js "s agent is too old for " ++ label ++ js ". Update the agent on that computer.") None.
Definition isUnsupportedByAgent (e : jserror) : bool :=
  match e with AgentApiError _ code _ _ => bool_decide (code = UNSUPPORTED_BY_AGENT) | _ => false end.
Definition isMissingRoute (e : jserror) : bool :=
  match e with
  | AgentApiError st code _ _ => (st =? 405) || ((st =? 404) && bool_decide (code = js "UNKNOWN"))
  | _ => false
  end.

(** ** Every request obeys the pin policy *)

(** The whole interface of the client, for theorems about any sequence of calls. *)
Inductive ApiCall :=
| c_health | c_status | c_updateSettings (ro : option bool) (name : option jstr) (sh : option bool)
| c_listDevices | c_deleteDevice (id : jstr) (purge : bool) | c_updateApps (id : jstr) (v l : bool)
| c_updateFiles (id : jstr) (g : Capabilities) | c_getBandwidth | c_setBandwidth (up down : option Z)
| c_audit (limit before : option Z) | c_listApps | c_launchApp (id : jstr) | c_challenge
| c_login (u p l k n s : jstr) (d : option jstr) | c_register (x u p l k n s : jstr) (d : option jstr)
| c_pair (x l k n s : jstr) (d : option jstr) | c_requestPair (l k n s m : jstr) (d : option jstr)
| c_revealPair (id n : jstr) | c_pairRequestStatus (id n : jstr) | c_drives
| c_list (p : jstr) (cur : option jstr) (lim : option Z) | c_meta (p : jstr) | c_checksum (p a : jstr)
| c_archiveList (p : jstr) (lim : option Z) | c_batchChecksums (ps : list jstr) (a : jstr)
| c_putContent (p t : jstr) (b : option jstr) | c_createFolder (p : jstr) | c_createFile (p : jstr)
| c_rename (s d : jstr) | c_chmod (p m : jstr) | c_copy (ss : list jstr) (d : jstr) (dup ow : option bool)
| c_move (ss : list jstr) (d : jstr) (dup ow : option bool) | c_delete (ps : list jstr) (perm : bool) | c_listTrash
| c_restoreTrash (ids : list jstr) | c_emptyTrash (ids : option (list jstr)) | c_compress (ss : list jstr) (d : jstr)
| c_extract (a d : jstr) | c_search (o : SearchArgs) | c_recent (r : option jstr) (lim : option Z)
| c_mintShareLink (p : jstr) (s : Z) | c_revokeShareLink (h : jstr) | c_listShareLinks
| c_downloadSpec (p : jstr) | c_thumbnailSpec (p : jstr) (size : Z).

Create HintDb agent.

Section Policy.
Context `{U : Unicode} `{J : JsonCodec} `{D : DateParse}.
Context (transport : Transport) (c : Client).
Notation Call := (M World jserror).

Definition done {A} (m : Call A) : Call unit := m ;; ret tt.
Definition perform (a : ApiCall) : Call unit :=
  match a with
  | c_health => done (health transport c) | c_status => done (status transport c)
  | c_updateSettings r n s => done (updateSettings transport c r n s)
  | c_listDevices => done (listDevices transport c) | c_deleteDevice i p => deleteDevice transport c i p
  | c_updateApps i v l => updateDeviceAppCapabilities transport c i v l
  | c_updateFiles i g => updateDeviceFileCapabilities transport c i g
  | c_getBandwidth => done (getBandwidth transport c) | c_setBandwidth u d => done (setBandwidth transport c u d)
  | c_audit l b => done (audit transport c l b) | c_listApps => done (listApps transport c)
  | c_launchApp i => launchApp transport c i | c_challenge => done (challenge transport c)
  | c_login u p l k n s d => done (login transport c u p l k n s d)
  | c_register x u p l k n s d => done (register transport c x u p l k n s d)
  | c_pair x l k n s d => done (pair transport c x l k n s d)
  | c_requestPair l k n s m d => done (requestPair transport c l k n s m d)
  | c_revealPair i n => revealPair transport c i n | c_pairRequestStatus i n => done (pairRequestStatus transport c i n)
  | c_drives => done (get_drives transport c) | c_list p cur l => done (list_ transport c p cur l)
  | c_meta p => done (meta transport c p) | c_checksum p a => done (checksum transport c p a)
  | c_archiveList p l => done (archiveList transport c p l) | c_batchChecksums ps a => done (batchChecksums transport c ps a)
  | c_putContent p t b => done (putContent transport c p t b) | c_createFolder p => done (createFolder transport c p)
  | c_createFile p => done (createFile transport c p) | c_rename s d => done (rename transport c s d)
  | c_chmod p m => done (chmod transport c p m) | c_copy ss d x o => done (copy transport c ss d x o)
  | c_move ss d x o => done (move transport c ss d x o) | c_delete ps p => done (delete_ transport c ps p)
  | c_listTrash => done (listTrash transport c) | c_restoreTrash i => done (restoreTrash transport c i)
  | c_emptyTrash i => emptyTrash transport c i | c_compress ss d => done (compress transport c ss d)
  | c_extract a d => done (extract transport c a d) | c_search o => done (search transport c o)
  | c_recent r l => done (recent transport c r l) | c_mintShareLink p s => done (mintShareLink transport c p s)
  | c_revokeShareLink h => revokeShareLink transport c h | c_listShareLinks => done (listShareLinks transport c)
  | c_downloadSpec p => done (downloadSpec c p) | c_thumbnailSpec p s => done (thumbnailSpec c p s)
  end.

(** What a request may be: pinned like its client, credentials only under a pin, and
    without a pin only the two calls that carry no secret. *)
Definition request_policy (q : TransportRequest) : Prop :=
  rq_pin q = cl_pin c /\
  (forall v, (js "Authorization", v) ∈ rq_headers q -> is_Some (rq_pin q)) /\
  (rq_pin q = None -> exists a tail, rq_bodyText q = None /\
     (rq_method q = js "GET" /\ rq_url q = js "https://" ++ a ++ js "/v1/health" ++ tail \/
      rq_method q = js "POST" /\ rq_url q = js "https://" ++ a ++ js "/v1/auth/challenge" ++ tail)).

(** Code that only adds requests satisfying [P]. *)
Definition Sends {A} (P : TransportRequest -> Prop) (m : Call A) : Prop :=
  forall w, exists ns, sent (m w).1 = sent w ++ ns /\ Forall P ns.

Lemma Sends_ret {A} P (a : A) : Sends P (ret a).
Proof. intros w. exists []. by rewrite app_nil_r. Qed.
Lemma Sends_throw {A} P e : Sends P (throw e : Call A).
Proof. intros w. exists []. by rewrite app_nil_r. Qed.
Lemma Sends_lift {A} P (r : result jserror A) : Sends P (lift r).
Proof. intros w. exists []. by rewrite app_nil_r. Qed.
Lemma Sends_get P : Sends P get_state.
Proof. intros w. exists []. by rewrite app_nil_r. Qed.
Lemma Sends_remember P i : Sends P (remember_route c i).
Proof. intros w. exists []. by rewrite app_nil_r. Qed.
Lemma Sends_bind {A B} P (m : Call A) (f : A -> Call B) : Sends P m -> (forall a, Sends P (f a)) -> Sends P (bind m f).
Proof.
  intros Hm Hf w. unfold bind. destruct (Hm w) as (ns & E & H1). destruct (m w) as [w1 [a|e]]; [|by exists ns].
  destruct (Hf a w1) as (ns2 & E2 & H2). exists (ns ++ ns2). simpl in *. rewrite E2, E, app_assoc. split; [done|].
  by apply Forall_app.
Qed.
Lemma Sends_catch {A} P (m : Call A) (h : jserror -> Call A) : Sends P m -> (forall e, Sends P (h e)) -> Sends P (catch m h).
Proof.
  intros Hm Hf w. unfold catch. destruct (Hm w) as (ns & E & H1). destruct (m w) as [w1 [a|e]]; [by exists ns|].
  destruct (Hf e w1) as (ns2 & E2 & H2). exists (ns ++ ns2). simpl in *. rewrite E2, E, app_assoc. split; [done|].
  by apply Forall_app.
Qed.
Lemma Sends_if {A} P (b : bool) (m n : Call A) : Sends P m -> Sends P n -> Sends P (if b then m else n).
Proof. by destruct b. Qed.

(** A preflight call carries no body. *)
Definition quiet (method path : jstr) (o : CallOpts) : Prop :=
  isSafeUnpinnedPreflight method path = true -> co_json o = None /\ co_text o = None.

Lemma headers_authorization o v : (js "Authorization", v) ∈ client_headers c o -> is_Some (cl_pin c).
Proof.
  unfold client_headers. rewrite !elem_of_app, list_elem_of_singleton. intros [H|[H|H]].
  - discriminate H.
  - destruct (co_json o), (co_text o); try (apply list_elem_of_singleton in H; discriminate H). by apply not_elem_of_nil in H.
  - destruct (cl_pin c); [done|]. by apply not_elem_of_nil in H.
Qed.
Lemma Sends_send i method path o : quiet method path o -> Sends request_policy (send transport c i method path o).
Proof.
  intros Hq w. unfold send. destruct (negb (is_some (cl_pin c)) && negb (isSafeUnpinnedPreflight method path)) eqn:E;
    [exists []; by rewrite app_nil_r|].
  destruct (query_string (co_query o)) as [q|]; [|exists []; by rewrite app_nil_r].
  eexists [_]. split; [done|]. apply Forall_singleton. split; [done|]. split; [apply headers_authorization|].
  cbn [rq_pin rq_bodyText rq_method rq_url]. intros Hp. rewrite Hp in E. cbn [is_some negb andb] in E. apply negb_false_iff in E.
  destruct (Hq E) as [Hj Ht]. exists (address_at c i), (if nonempty q then 63 :: q else []). rewrite Hj, Ht. split; [done|].
  unfold isSafeUnpinnedPreflight in E. apply orb_true_iff in E as [E|E]; breflect; subst; [left | right]; done.
Qed.
Lemma Sends_fallback_loop routes method path o last : quiet method path o ->
  Sends request_policy (fallback_loop transport c routes method path o last).
Proof.
  intros Hq. revert last. induction routes as [|i rest IH]; intros last; [apply Sends_throw|]. intros w. cbn [fallback_loop].
  destruct (Sends_send i method path o Hq w) as (ns & E & H1).
  destruct (send transport c i method path o w) as [w1 [res|e]]; [exists ns; by simpl|].
  repeat (case_match; [by exists ns|]).
  destruct (IH e w1) as (ns2 & E2 & H2). exists (ns ++ ns2). simpl in *. rewrite E2, E, app_assoc. split; [done|].
  by apply Forall_app.
Qed.
Lemma Sends_callFull method path o : quiet method path o -> Sends request_policy (callFull transport c method path o).
Proof.
  intros Hq. apply Sends_bind; [|intros; apply Sends_bind; [apply Sends_lift | intros; apply Sends_ret]].
  apply Sends_bind; [apply Sends_get|]. intros w. apply Sends_catch; [by apply Sends_send|]. intros e.
  repeat (apply Sends_if; [apply Sends_throw|]).
  apply Sends_bind; [apply Sends_get|]. intros w2. apply Sends_fallback_loop.
  intros Hs. destruct (Hq Hs) as [? _]. done.
Qed.
Lemma Sends_call method path o : quiet method path o -> Sends request_policy (call transport c method path o).
Proof. intros. apply Sends_bind; [by apply Sends_callFull | intros; apply Sends_ret]. Qed.
Lemma quiet_no_json method path q : quiet method path {| co_query := q; co_json := None; co_text := None |}.
Proof. done. Qed.
Lemma quiet_other method path o : isSafeUnpinnedPreflight method path = false -> quiet method path o.
Proof. intros H. unfold quiet. by rewrite H. Qed.
End Policy.

#[export] Hint Resolve Sends_ret Sends_throw Sends_lift Sends_get Sends_remember Sends_if Sends_call Sends_callFull
  quiet_no_json : agent.

Ltac not_preflight :=
  apply quiet_other; unfold isSafeUnpinnedPreflight;
  rewrite ?orb_false_iff, ?andb_false_iff, ?bool_decide_eq_false;
  split; (left; discriminate) || (right; discriminate).
(** One method of the client: a few calls and pure steps. *)
Ltac sends_auto :=
  lazymatch goal with
  | |- Sends _ (bind _ _) => apply Sends_bind; [sends_auto | intros; sends_auto]
  | |- Sends _ (match ?x with _ => _ end) => destruct x; sends_auto
  | |- Sends _ (call _ _ _ _ _) => apply Sends_call; solve [apply quiet_no_json | not_preflight | done]
  | |- Sends _ (callFull _ _ _ _ _) => apply Sends_callFull; solve [apply quiet_no_json | not_preflight | done]
  | |- _ => solve [eauto with agent]
  end.

Section PolicyAll.
Context `{U : Unicode} `{J : JsonCodec} `{D : DateParse}.
Context (transport : Transport) (c : Client).

Lemma Sends_perform a : Sends (request_policy c) (perform transport c a).
Proof.
  destruct a; unfold perform, done, health, status, updateSettings, listDevices, deleteDevice, updateDeviceAppCapabilities,
    updateDeviceFileCapabilities, getBandwidth, setBandwidth, audit, listApps, launchApp, challenge, login, register, pair,
    requestPair, revealPair, pairRequestStatus, get_drives, list_, meta, checksum, archiveList, batchChecksums, putContent,
    createFolder, createFile, rename, chmod, copy, move, delete_, listTrash, restoreTrash, emptyTrash, compress, extract,
    search, recent, mintShareLink, revokeShareLink, listShareLinks, downloadSpec, thumbnailSpec, entry, enc; sends_auto.
Qed.

(** The log after a sequence of calls, each ignoring how the previous one ended. *)
Fixpoint perform_all (l : list ApiCall) (w : World) : World :=
  match l with [] => w | a :: r => perform_all r (perform transport c a w).1 end.
Lemma perform_all_log l w : exists ns, sent (perform_all l w) = sent w ++ ns /\ Forall (request_policy c) ns.
Proof.
  revert w. induction l as [|a l IH]; intros w; simpl; [exists []; by rewrite app_nil_r|].
  destruct (Sends_perform a w) as (ns & E & H1). destruct (IH (perform transport c a w).1) as (ns2 & E2 & H2).
  exists (ns ++ ns2). rewrite E2, E, app_assoc. split; [done|]. by apply Forall_app.
Qed.
End PolicyAll.

(** C1 Whatever sequence of its methods a client runs and however the transport
      answers, every request carries the client's normalised certificate pin; the
      device token is attached only to pinned requests; and a client without a pin
      sends nothing but the health check and the challenge, with no body. *)
Theorem client_requests_obey_pin `{U : Unicode} `{J : JsonCodec} `{D : DateParse} (transport : Transport)
    (host : Host) (opts : AgentClientOptions) (lastGood : list (jstr * Z)) (c : Client) (idx : Z) (calls : list ApiCall) :
  newAgentClient host opts lastGood = Ok (c, idx) ->
  let w := perform_all transport c calls {| addrIndex := idx; lastGoodRoute := lastGood; sent := [] |} in
  Forall (fun q =>
    rq_pin q = normalizeFingerprint (opt_pinnedFingerprint opts) /\
    ((exists v, (js "Authorization", v) ∈ rq_headers q) -> exists p, rq_pin q = Some p /\ is_pin p = true) /\
    (rq_pin q = None -> opt_pinnedFingerprint opts = None /\ is_truthy (opt_deviceToken opts) = false /\
       rq_bodyText q = None /\ exists a tail,
       rq_method q = js "GET" /\ rq_url q = js "https://" ++ a ++ js "/v1/health" ++ tail \/
       rq_method q = js "POST" /\ rq_url q = js "https://" ++ a ++ js "/v1/auth/challenge" ++ tail)) (sent w).
Proof.
  intros Hc w. destruct (perform_all_log transport c calls {| addrIndex := idx; lastGoodRoute := lastGood; sent := [] |}) as (ns & E & H).
  unfold w. rewrite E. simpl. unfold newAgentClient in Hc.
  destruct (is_some (opt_pinnedFingerprint opts) && negb (is_some (normalizeFingerprint (opt_pinnedFingerprint opts)))) eqn:E1; [done|].
  destruct (is_truthy (opt_deviceToken opts) && negb (is_some (normalizeFingerprint (opt_pinnedFingerprint opts)))) eqn:E2; [done|].
  injection Hc as <- <-. eapply Forall_impl; [exact H|]. intros q (Hp & Ha & Hn). simpl in Hp. split; [done|]. split.
  - intros [v Hv]. destruct (Ha v Hv) as [p Hpp]. exists p. split; [done|].
    eapply normalizeFingerprint_pin. rewrite <- Hp. exact Hpp.
  - intros Hnone. destruct (Hn Hnone) as (a & tl & Hb & Hor). rewrite Hp in Hnone. rewrite Hnone in E1, E2. simpl in E1, E2.
    rewrite andb_true_r in E1, E2. split; [by destruct (opt_pinnedFingerprint opts)|]. split; [done|]. split; [done|]. by exists a, tl.
Qed.

(** ** Retrying on another route *)

Section Retry.
Context `{U : Unicode} `{J : JsonCodec}.
Context (transport : Transport) (c : Client).

Definition is_api_error (e : jserror) : Prop :=
  match e with AgentApiError _ _ _ _ | CertPinMismatch | MissingCertPin => True | _ => False end.

(** The request [q] goes to the route [i]: the [i]-th address of the computer. *)
Definition goes_to (method path : jstr) (i : Z) (q : TransportRequest) : Prop :=
  rq_method q = method /\ exists tail, rq_url q = js "https://" ++ address_at c i ++ js "/v1" ++ path ++ tail.
(** [Attempts method path log tried ns r]: after [log], the requests [ns] go to the
    routes [tried], one each and in turn, and the outcome is [r].  Only a lost
    connection leads to the next one, and only of a [GET] or [HEAD] request. *)
Inductive Attempts (method path : jstr) : list TransportRequest -> list Z -> list TransportRequest -> result jserror TransportResponse -> Prop :=
| att_refused log e : is_api_error e -> Attempts method path log [] [] (Err e)
| att_ok log i q res : goes_to method path i q -> transport log q = Ok res -> Attempts method path log [i] [q] (Ok res)
| att_mismatch log i q e : goes_to method path i q -> transport log q = Err e -> errCode e = Some ERR_CERT_PIN_MISMATCH ->
    Attempts method path log [i] [q] (Err CertPinMismatch)
| att_failed log i q e e' : goes_to method path i q -> transport log q = Err e -> errCode e <> Some ERR_CERT_PIN_MISMATCH ->
    is_api_error e' -> Attempts method path log [i] [q] (Err e')
| att_next log i q e j js' ns r : goes_to method path i q -> transport log q = Err e -> errCode e = Some ERR_CONNECTION ->
    method = js "GET" \/ method = js "HEAD" ->
    Attempts method path (log ++ [q]) (j :: js') ns r -> Attempts method path log (i :: j :: js') (q :: ns) r.
(** Each of the requests [ns] made after [log] lost its connection. *)
Definition all_lost (log ns : list TransportRequest) : Prop :=
  forall before q after, ns = before ++ q :: after -> exists e, transport (log ++ before) q = Err e /\ errCode e = Some ERR_CONNECTION.
Lemma all_lost_cons log q ns : all_lost log (q :: ns) ->
  (exists e, transport log q = Err e /\ errCode e = Some ERR_CONNECTION) /\ all_lost (log ++ [q]) ns.
Proof.
  intros H. split.
  - destruct (H [] q ns eq_refl) as (e & He & Hc). rewrite app_nil_r in He. eauto.
  - intros b q' a ->. destruct (H (q :: b) q' a eq_refl) as (e & He & Hc). exists e. by rewrite <- app_assoc.
Qed.

Lemma toApiError_api e : is_api_error (toApiError e).
Proof. unfold toApiError. destruct e; simpl; try done; repeat case_match; done. Qed.
(** The error a lost connection is reported as: the client's own, or the client error
    with that code the transport itself threw. *)
Definition connection_error (e : jserror) : Prop :=
  (exists cause, e = AgentApiError 0 (js "CONNECTION") (js "Connection lost " ++ [8212] ++ js " check your network and try again.") (Some cause)) \/
  (exists status message cause, e = AgentApiError status (js "ERR_CONNECTION") message cause).
Lemma toApiError_lost e : errCode e = Some ERR_CONNECTION ->
  connection_error (toApiError e).
Proof.
  unfold connection_error, toApiError. destruct e; simpl; try discriminate; intros H.
  - injection H as ->. right. eauto.
  - left. rewrite bool_decide_true by done. eauto.
Qed.

(** Whether a request is handed over at all does not depend on the route. *)
Definition handed_over (method path : jstr) (q : option Query) : Prop :=
  negb (is_some (cl_pin c)) && negb (isSafeUnpinnedPreflight method path) = false /\ is_Some (query_string q).
Lemma send_handed i method path o w : handed_over method path (co_query o) ->
  exists q w', send transport c i method path o w = (w', transport (sent w) q) /\ sent w' = sent w ++ [q] /\
     addrIndex w' = addrIndex w /\ goes_to method path i q.
Proof.
  intros [H [q Hq]]. unfold send. rewrite H, Hq. eexists _, _. split; [done|]. simpl. split; [done|]. split; [done|]. split; [done | by eexists].
Qed.
Lemma send_cases i method path o w :
  (exists e, send transport c i method path o w = (w, Err e) /\ errCode e <> Some ERR_CONNECTION /\ errCode e <> Some ERR_CERT_PIN_MISMATCH) \/
  handed_over method path (co_query o).
Proof.
  unfold send, handed_over. destruct (_ && _); [left; by exists MissingCertPin|].
  destruct (query_string (co_query o)) eqn:E; [right; split; [done | by eexists] | left; by exists uri_error].
Qed.

(** How a run of attempts over [routes] ends, and the route in use afterwards. *)
Definition settled (idx : Z) (log : list TransportRequest) (routes tried : list Z) (ns : list TransportRequest) (w' : World)
    (r : result jserror TransportResponse) : Prop :=
  match r with
  | Ok _ => last tried = Some (addrIndex w')
  | Err e => addrIndex w' = idx /\
      (ns <> [] -> all_lost log ns -> tried = routes /\ connection_error e)
  end.

Lemma fallback_loop_attempts routes method path o lost w : handed_over method path (co_query o) ->
  method = js "GET" \/ method = js "HEAD" -> errCode lost = Some ERR_CONNECTION -> routes <> [] ->
  let '(w', r) := fallback_loop transport c routes method path o lost w in
  exists tried ns, sent w' = sent w ++ ns /\ Attempts method path (sent w) tried ns r /\ tried <> [] /\ tried `prefix_of` routes /\
    settled (addrIndex w) (sent w) routes tried ns w' r.
Proof.
  intros Ho Hg. revert lost w. induction routes as [|i rest IH]; intros lost w Hlost Hne; [done|]. cbn [fallback_loop].
  assert ([i] `prefix_of` i :: rest) as Hp by (exists rest; done).
  destruct (send_handed i method path o w Ho) as (q & w1 & -> & Hs & Hi & Hq).
  destruct (transport (sent w) q) as [res|e] eqn:Et.
  { cbn. exists [i], [q]. split; [done|]. split; [by apply att_ok|]. split; [done|]. split; done. }
  assert (forall e', errCode e <> Some ERR_CONNECTION -> settled (addrIndex w) (sent w) (i :: rest) [i] [q] w1 (Err e')) as Hset.
  { intros e' Hc. split; [done|]. intros _ Hl. destruct (all_lost_cons _ _ _ Hl) as [(e2 & He2 & Hc2) _]. congruence. }
  destruct (bool_decide (errCode e = Some ERR_CERT_PIN_MISMATCH)) eqn:Em; breflect.
  { exists [i], [q]. split; [done|]. split; [by eapply att_mismatch|]. split; [done|]. split; [done|]. apply Hset. rewrite Em. done. }
  destruct (bool_decide (errCode e = Some ERR_CONNECTION)) eqn:Ec; breflect; cbn [negb].
  2:{ exists [i], [q]. split; [done|]. split; [eapply att_failed; eauto using toApiError_api|]. split; [done|]. split; [done|]. by apply Hset. }
  destruct rest as [|j rest].
  { cbn. exists [i], [q]. split; [done|]. split; [eapply att_failed; eauto using toApiError_api|]. split; [done|]. split; [done|].
    split; [done|]. intros _ _. split; [done | by apply toApiError_lost]. }
  specialize (IH e w1 Ec ltac:(done)). destruct (fallback_loop transport c (j :: rest) method path o e w1) as [w2 r].
  destruct IH as (tried & ns & E & Ha & Hn & [k Hk] & Hset'). destruct tried as [|j' tried]; [done|]. rewrite Hs in Ha.
  exists (i :: j' :: tried), (q :: ns). split; [rewrite E, Hs; by rewrite <- app_assoc|]. split; [by eapply att_next|].
  split; [done|]. split; [exists k; by rewrite Hk|]. destruct r as [res|e'']; [done|]. destruct Hset' as [Hi' Hall].
  split; [congruence|]. intros _ Hl. destruct (all_lost_cons _ _ _ Hl) as [_ Hl']. rewrite <- Hs in Hl'.
  destruct (Hall ltac:(inversion Ha; done) Hl') as [-> Hm]. done.
Qed.

Lemma elem_of_other_routes i source : i ∈ other_routes c source <-> i <> source /\ 0 <= i < Z.of_nat (length (cl_addresses c)).
Proof.
  unfold other_routes. rewrite list_elem_of_In, List.filter_In, <- list_elem_of_In, list_elem_of_fmap, negb_true_iff, Z.eqb_neq.
  split.
  - intros [(k & -> & Hk) Hne]. apply elem_of_seq in Hk. split; [done | lia].
  - intros [Hne Hr]. split; [|done]. exists (Z.to_nat i). split; [lia | apply elem_of_seq; lia].
Qed.
Lemma NoDup_other_routes source : NoDup (other_routes c source).
Proof.
  unfold other_routes. apply NoDup_ListNoDup, List.NoDup_filter, NoDup_ListNoDup, NoDup_fmap_2; [intros ???; lia | apply NoDup_seq].
Qed.

(** The routes a call may use: the one in use, and for a [GET] or [HEAD] request the others in their order. *)
Definition may_try (method : jstr) (idx : Z) : list Z :=
  idx :: if (bool_decide (method = js "GET") || bool_decide (method = js "HEAD")) && (1 <? length (cl_addresses c))%nat
         then other_routes c idx else [].
Lemma exchange_attempts method path o w :
  let '(w', r) := exchange transport c method path o w in
  exists tried ns, sent w' = sent w ++ ns /\ Attempts method path (sent w) tried ns r /\ tried `prefix_of` may_try method (addrIndex w) /\
    settled (addrIndex w) (sent w) (may_try method (addrIndex w)) tried ns w' r.
Proof.
  unfold exchange, bind, get_state, catch. cbn iota beta.
  assert ([addrIndex w] `prefix_of` may_try method (addrIndex w)) as Hp by (eexists; done).
  destruct (send_cases (addrIndex w) method path o w) as [(e & -> & Hc & Hm)|Ho].
  { rewrite (bool_decide_false _ Hm), (bool_decide_false _ Hc). cbn [negb orb].
    destruct (bool_decide (errCode e = Some ERR_PIN_POLICY)); cbn; exists [], []; rewrite app_nil_r;
      (split; [done|]); (split; [apply att_refused; done || apply toApiError_api | split; [apply prefix_nil | done]]). }
  destruct (send_handed (addrIndex w) method path o w Ho) as (q & w1 & -> & Hs & Hi & Hq).
  destruct (transport (sent w) q) as [res|e] eqn:Et.
  { exists [addrIndex w], [q]. split; [done|]. split; [by apply att_ok|]. split; [done|]. simpl. by rewrite Hi. }
  assert (forall e', errCode e <> Some ERR_CONNECTION -> settled (addrIndex w) (sent w) (may_try method (addrIndex w)) [addrIndex w] [q] w1 (Err e')) as Hset.
  { intros e' Hc. split; [done|]. intros _ Hl. destruct (all_lost_cons _ _ _ Hl) as [(e2 & He2 & Hc2) _]. congruence. }
  destruct (bool_decide (errCode e = Some ERR_CERT_PIN_MISMATCH)) eqn:Em; breflect.
  { exists [addrIndex w], [q]. split; [done|]. split; [by eapply att_mismatch|]. split; [done|]. apply Hset. by rewrite Em. }
  destruct (bool_decide (errCode e = Some ERR_PIN_POLICY)) eqn:Ep; breflect.
  { exists [addrIndex w], [q]. split; [done|]. split; [by eapply att_failed|]. split; [done|]. apply Hset. by rewrite Ep. }
  destruct (bool_decide (errCode e = Some ERR_CONNECTION)) eqn:Ec; breflect; cbn [negb orb].
  2:{ exists [addrIndex w], [q]. split; [done|]. split; [eapply att_failed; eauto using toApiError_api|]. split; [done|]. by apply Hset. }
  unfold may_try. destruct (isSafeToRetryOnFallback method) eqn:Eg; cbn [negb orb].
  2:{ unfold isSafeToRetryOnFallback in Eg. rewrite Eg. cbn [andb].
      exists [addrIndex w], [q]. split; [done|]. split; [eapply att_failed; eauto using toApiError_api|]. split; [done|].
      split; [done|]. intros _ _. split; [done | by apply toApiError_lost]. }
  unfold isSafeToRetryOnFallback in Eg. rewrite Eg. cbn [andb]. apply orb_true_iff in Eg. rewrite !bool_decide_eq_true in Eg.
  destruct (Nat.ltb_spec (length (cl_addresses c)) 2) as [H2|H2].
  { rewrite (proj2 (Nat.ltb_ge _ _)) by lia.
    exists [addrIndex w], [q]. split; [done|]. split; [eapply att_failed; eauto using toApiError_api|]. split; [done|].
    split; [done|]. intros _ _. split; [done | by apply toApiError_lost]. }
  rewrite (proj2 (Nat.ltb_lt _ _)) by lia. unfold fallback, bind, get_state. cbn iota beta.
  assert (other_routes c (addrIndex w1) <> []) as Hne.
  { intros Hnil. assert (exists i, i ∈ other_routes c (addrIndex w1)) as [i Hin]; [|rewrite Hnil in Hin; by apply not_elem_of_nil in Hin].
    destruct (decide (addrIndex w1 = 0)); [exists 1 | exists 0]; apply elem_of_other_routes; lia. }
  pose proof (fallback_loop_attempts (other_routes c (addrIndex w1)) method path
    {| co_query := co_query o; co_json := co_json o; co_text := None |} e w1 Ho Eg Ec Hne) as Hf.
  destruct (fallback_loop _ _ _ _ _ _ _ w1) as [w2 r]. destruct Hf as ([|j tried] & ns & E & Ha & Hn & [k Hk] & Hst); [done|].
  rewrite Hs in Ha, Hst. rewrite Hi in *.
  exists (addrIndex w :: j :: tried), (q :: ns). split; [rewrite E, Hs; by rewrite <- app_assoc|].
  split; [by eapply att_next|]. split; [exists k; by rewrite Hk|]. destruct r as [res|e']; [done|]. destruct Hst as [Hi' Hall].
  split; [done|]. intros _ Hl. destruct (all_lost_cons _ _ _ Hl) as [_ Hl']. destruct (Hall ltac:(inversion Ha; done) Hl') as [-> Hm]. done.
Qed.
Lemma may_try_nodup method idx : NoDup (may_try method idx).
Proof.
  unfold may_try. apply NoDup_cons. destruct (_ && _); [|split; [apply not_elem_of_nil | apply NoDup_nil_2]].
  split; [|apply NoDup_other_routes]. rewrite elem_of_other_routes. by intros [? _].
Qed.
Lemma prefix_nodup {A} (l k : list A) : l `prefix_of` k -> NoDup k -> NoDup l.
Proof. intros [m ->] H. by apply NoDup_app in H as [H _]. Qed.
End Retry.


(** A reply is believed only when it is one: a 2xx status with readable JSON (or an
      empty body) is the value, a 2xx status with anything else is a BAD_RESPONSE
      error and never an empty value, and every other status is an error that
      carries it. *)
Theorem parse_reply_exact `{J : JsonCodec} (res : TransportResponse) :
  let success := (200 <=? rs_status res) && (rs_status res <? 300) in
  match parse res with
  | Ok v => success = true /\ (rs_bodyText res = [] /\ v = JNull \/ rs_bodyText res <> [] /\ json_parse (rs_bodyText res) = Some v)
  | Err e => exists code msg, e = AgentApiError (rs_status res) code msg None /\
      (success = true -> code = js "BAD_RESPONSE" /\ rs_bodyText res <> [] /\ json_parse (rs_bodyText res) = None)
  end.
Proof.
  cbv zeta. unfold parse. destruct (_ && _) eqn:Es; [|by eexists _, _].
  destruct (rs_bodyText res) as [|x t] eqn:Eb; cbn [nonempty]; [by split; [|left]|].
  destruct (json_parse (x :: t)) as [v|] eqn:Ej; [split; [done | by right] | by eexists _, _].
Qed.

(** ** Reading a query back *)

(** What a server makes of a query: fields at [&], name and value at the first [=], percent-decoded bytes. *)
Definition read_field (f : jstr) : option (list Z * list Z) :=
  match index_of 61 f with
  | Some i => k ← percent_decode (take i f); v ← percent_decode (drop (S i) f); Some (k, v)
  | None => None
  end.
Definition read_query (s : jstr) : list (option (list Z * list Z)) :=
  match s with [] => [] | _ => read_field <$> split_on (Z.eqb 38) s end.
(** The UTF-8 of a text. *)
Definition utf8_text (s : jstr) : list Z := utf8 (default [] (code_points s)).
Definition sent_fields (q : Query) : list (jstr * jstr) := omap (fun kv => v ← kv.2; Some (kv.1, query_text v)) q.
Definition utf16_units (s : jstr) : Prop := Forall (fun c => 0 <= c < 65536) s.

Lemma index_of_first (c : Z) a b : c ∉ a -> index_of c (a ++ c :: b) = Some (length a).
Proof.
  induction a as [|x a IH]; intros Hn; simpl; [by rewrite Z.eqb_refl|]. apply not_elem_of_cons in Hn as [Hx Hn].
  rewrite (proj2 (Z.eqb_neq x c)) by congruence. by rewrite IH.
Qed.
Lemma read_field_encoded k v k' v' : utf16_units k -> utf16_units v -> encodeURIComponent k = Some k' -> encodeURIComponent v = Some v' ->
  read_field (k' ++ 61 :: v') = Some (utf8_text k, utf8_text v) /\ 38 ∉ k' ++ 61 :: v'.
Proof.
  intros Hk Hv Ek Ev. destruct (encodeURIComponent_inert k k' Hk Ek) as ((ck & Ck & _ & Dk) & _ & Fk).
  destruct (encodeURIComponent_inert v v' Hv Ev) as ((cv & Cv & _ & Dv) & _ & Fv). rewrite Forall_forall in Fk, Fv. split.
  - unfold read_field. rewrite index_of_first by (intros H; by apply Fk in H as (_ & _ & _ & H & _)).
    assert (drop (S (length k')) (k' ++ 61 :: v') = v') as -> by (clear; by induction k').
    rewrite take_app_length, Dk. cbn. rewrite Dv. cbn.
    unfold utf8_text. by rewrite Ck, Cv.
  - rewrite elem_of_app, elem_of_cons. intros [H|[H|H]]; [by apply Fk in H as (_ & _ & H & _) | done | by apply Fv in H as (_ & _ & H & _)].
Qed.
Lemma query_pairs_read q ps : Forall (fun kv => utf16_units kv.1 /\ utf16_units kv.2) (sent_fields q) -> query_pairs q = Some ps ->
  read_field <$> ps = (fun kv => Some (utf8_text kv.1, utf8_text kv.2)) <$> sent_fields q /\ Forall (fun p => 38 ∉ p /\ p <> []) ps.
Proof.
  revert ps. induction q as [|[k [v|]] q IH]; intros ps Hq E; cbn [query_pairs] in E.
  - injection E as <-. split; [done | constructor].
  - destruct (encodeURIComponent k) as [k'|] eqn:Ek; [|done]. cbn in E. destruct (encodeURIComponent (query_text v)) as [v'|] eqn:Ev; [|done]. cbn in E.
    destruct (query_pairs q) as [ps'|]; [|done]. cbn in E. injection E as <-.
    change (sent_fields ((k, Some v) :: q)) with ((k, query_text v) :: sent_fields q) in *.
    apply Forall_cons in Hq as [[Hk Hv] Hq]. destruct (IH ps' Hq eq_refl) as [I1 I2].
    destruct (read_field_encoded k (query_text v) k' v' Hk Hv Ek Ev) as [R1 R2]. split.
    + rewrite !fmap_cons. f_equal; [exact R1 | exact I1].
    + constructor; [split; [exact R2 | by destruct k']|done].
  - by apply IH.
Qed.
Lemma split_join ps : Forall (fun p => 38 ∉ p /\ p <> []) ps -> ps <> [] -> split_on (Z.eqb 38) (join [38] ps) = ps /\ join [38] ps <> [].
Proof.
  induction 1 as [|p ps [Hp Hn] Hps IH]; [done|]. intros _.
  assert (Forall (fun c => (38 =? c) = false) p) as Hf.
  { apply Forall_forall. intros c Hc. apply Z.eqb_neq. intros <-. done. }
  destruct ps as [|p2 ps]; [split; [by apply split_on_none | done]|].
  destruct IH as [I1 I2]; [done|]. change (join [38] (p :: p2 :: ps)) with (p ++ 38 :: join [38] (p2 :: ps)). split.
  - rewrite split_on_app by done. rewrite I1, split_on_none by done. done.
  - by destruct p.
Qed.

(** No argument of a call can alter its request: a server reading the query the client sends gets back
    exactly the defined parameters, in order, as the UTF-8 of their names and values, whatever
    separators, percent signs or other characters the values hold. *)
Theorem query_string_roundtrip (q : Query) (s : jstr) :
  Forall (fun kv => utf16_units kv.1 /\ utf16_units kv.2) (sent_fields q) ->
  query_string (Some q) = Some s ->
  read_query s = (fun kv => Some (utf8_text kv.1, utf8_text kv.2)) <$> sent_fields q.
Proof.
  intros Hq E. unfold query_string in E. destruct (query_pairs q) as [ps|] eqn:Ep; [|done]. injection E as <-.
  destruct (query_pairs_read q ps Hq Ep) as [H1 H2]. rewrite <- H1. destruct ps as [|p ps]; [done|].
  destruct (split_join (p :: ps) H2 ltac:(done)) as [H3 H4]. unfold read_query. rewrite H3. by destruct (join [38] (p :: ps)).
Qed.
Lemma query_string_roundtrip_witness :
  let q := [(js "path", Some (qs (js "/a&b=c%"))); (js "cursor", None); (js "limit", Some (qn 100))] in
  exists s, query_string (Some q) = Some s /\ read_query s = [Some (js "path", js "/a&b=c%"); Some (js "limit", js "100")].
Proof.
  intros q. destruct (query_string (Some q)) as [s|] eqn:E; [|vm_compute in E; discriminate E].
  exists s. split; [reflexivity|]. rewrite (query_string_roundtrip q s); [vm_compute; reflexivity | | exact E].
  vm_compute. repeat constructor; discriminate.
Defined.

Definition sample_client_host : Host := {|
  host_id := js "h"; host_label := js "Mac"; host_address := js "10.0.0.2:8765"; certFingerprint := None;
  tailscaleName := None; tailscaleAddress := Some (js "100.64.0.2:8765"); internetAddress := None; macAddress := None; note := None |}.
Definition sample_opts : AgentClientOptions := {|
  opt_deviceToken := Some (js "tok"); opt_pinnedFingerprint := Some (replicate 64 97); opt_clientVersion := None;
  opt_probeLanFirst := true; opt_timeoutMs := None |}.
(** A transport whose first address is down. *)
Definition sample_transport : Transport := fun log q =>
  if starts_with (js "https://10.") (rq_url q) then Err (NativeError ERR_CONNECTION (js "timeout"))
  else Ok {| rs_status := 200; rs_headers := []; rs_bodyText := [] |}.

Lemma client_requests_obey_pin_witness :
  exists c idx, @newAgentClient ascii_unicode sample_client_host sample_opts [] = Ok (c, idx) /\
    length (sent (@perform_all ascii_unicode plain_codec (fun _ => None) sample_transport c [c_listDevices; c_rename (js "/a") (js "/b")]
      {| addrIndex := idx; lastGoodRoute := []; sent := [] |})) = 3%nat /\
    Forall (fun q => rq_pin q = Some (replicate 64 97))
      (sent (@perform_all ascii_unicode plain_codec (fun _ => None) sample_transport c [c_listDevices; c_rename (js "/a") (js "/b")]
        {| addrIndex := idx; lastGoodRoute := []; sent := [] |})).
Proof.
  destruct (@newAgentClient ascii_unicode sample_client_host sample_opts []) as [[c idx]|] eqn:E; [|vm_compute in E; discriminate E].
  exists c, idx. split; [reflexivity|]. split.
  - vm_compute in E. injection E as <- <-. vm_compute. reflexivity.
  - pose proof (@client_requests_obey_pin ascii_unicode plain_codec (fun _ => None) sample_transport sample_client_host sample_opts []
      c idx [c_listDevices; c_rename (js "/a") (js "/b")] E) as H.
    eapply Forall_impl; [exact H|]. intros q (Hq & _). rewrite Hq. vm_compute. reflexivity.
Defined.


(** Two calls that overlap: while the first waits for the address that is down, the
    second finds it down and moves the client on to the address that works.  The
    first then takes the new address for the one that failed, asks the address that
    is down once more, never asks the one that works, and reports a lost connection. *)
Example overlapping_calls_skip_good_route :
  exists c, @newAgentClient ascii_unicode sample_client_host sample_opts [] = Ok (c, 0) /\
    let w0 := {| addrIndex := 0; lastGoodRoute := []; sent := [] |} in
    let '(w1, first) := send (J := plain_codec) sample_transport c 0 (js "GET") (js "/drives") no_opts w0 in
    exists e, first = Err e /\
    let '(w2, second) := exchange (J := plain_codec) sample_transport c (js "GET") (js "/health") no_opts w1 in
    is_ok second = true /\ activeAddress c w2 = js "100.64.0.2:8765" /\
    let '(w3, r) := fallback (J := plain_codec) sample_transport c (js "GET") (js "/drives") no_opts e w2 in
    (exists cause, r = Err (AgentApiError 0 (js "CONNECTION") connectionLost (Some cause))) /\
    rq_url <$> sent w3 = [js "https://10.0.0.2:8765/v1/drives"; js "https://10.0.0.2:8765/v1/health";
                          js "https://100.64.0.2:8765/v1/health"; js "https://10.0.0.2:8765/v1/drives"].
Proof.
  destruct (@newAgentClient ascii_unicode sample_client_host sample_opts []) as [[c idx]|] eqn:E; [|vm_compute in E; discriminate E].
  vm_compute in E. injection E as <- <-. eexists. split; [reflexivity|]. vm_compute. eexists. split; [reflexivity|].
  split; [reflexivity|]. split; [reflexivity|]. split; [by eexists | reflexivity].
Qed.
Lemma parse_reply_exact_witness :
  let res := {| rs_status := 200; rs_headers := []; rs_bodyText := js "<html>" |} in
  exists code msg, parse (J := plain_codec) res = Err (AgentApiError 200 code msg None) /\ code = js "BAD_RESPONSE".
Proof.
  intros res. pose proof (parse_reply_exact (J := plain_codec) res) as H. cbv zeta in H.
  destruct (parse (J := plain_codec) res) as [v|e] eqn:E; [vm_compute in E; discriminate E|].
  destruct H as (code & msg & -> & H). exists code, msg. split; [reflexivity | exact (proj1 (H eq_refl))].
Defined.
