(* ===== verification/Storage.v ===== *)
(** * The device's stores

    The two key/value stores the app persists into, [KeyValueStore] of
    [core/storage/hostStore.ts] and [SecureStore] of
    [core/security/secureStore.ts], as one state passed through the code.  Each
    operation behaves as the in-memory implementations do, or fails: the script
    [faults] says for each call in turn whether it rejects, in which case it
    changes nothing.  An empty script is a device that never fails. *)

From Stdlib Require Import ZArith Lia Bool.
From Stdlib Require List.
From S2P Require Import Prelude JsCollections JsString Errors.

Notation store := (list (jstr * jstr)).

Record Disk := {
  kv : store;               (** [KeyValueStore]: metadata and settings *)
  secure : store;           (** [SecureStore]: tokens, pins, keys *)
  cleaned : list jstr;      (** hosts [onRemoved] was run for *)
  faults : list bool        (** outcomes of the calls to come; [true] rejects *)
}.
Definition with_kv (f : store -> store) (d : Disk) : Disk :=
  {| kv := f (kv d); secure := secure d; cleaned := cleaned d; faults := faults d |}.
Definition with_secure (f : store -> store) (d : Disk) : Disk :=
  {| kv := kv d; secure := f (secure d); cleaned := cleaned d; faults := faults d |}.
Definition with_cleaned (f : list jstr -> list jstr) (d : Disk) : Disk :=
  {| kv := kv d; secure := secure d; cleaned := f (cleaned d); faults := faults d |}.
Definition with_faults (fs : list bool) (d : Disk) : Disk :=
  {| kv := kv d; secure := secure d; cleaned := cleaned d; faults := fs |}.

Notation IO := (M Disk jserror).
Definition storage_error : jserror := PlainError (js "storage").

(** One call: rejects when the script says so, else performs [f]. *)
Definition io {A} (f : Disk -> Disk * A) : IO A := fun d =>
  match faults d with
  | true :: fs => (with_faults fs d, Err storage_error)
  | fs => let (d', a) := f (with_faults (tail fs) d) in (d', Ok a)
  end.

Module KeyValueStore.
Definition get (k : jstr) : IO (option jstr) := io (fun d => (d, map_get k (kv d))).
Definition set (k v : jstr) : IO unit := io (fun d => (with_kv (map_set k v) d, tt)).
Definition remove (k : jstr) : IO unit := io (fun d => (with_kv (map_delete k) d, tt)).
End KeyValueStore.

Module SecureStore.
Definition read (k : jstr) : IO (option jstr) := io (fun d => (d, map_get k (secure d))).
Definition write (k v : jstr) : IO unit := io (fun d => (with_secure (map_set k v) d, tt)).
Definition delete (k : jstr) : IO unit := io (fun d => (with_secure (map_delete k) d, tt)).
End SecureStore.

(** [SecureKeys]. *)
Module SecureKeys.
Definition devicePrivate : jstr := js "rfe_device_identity_private_v1".
Definition devicePublic : jstr := js "rfe_device_identity_public_v1".
Definition token (hostId : jstr) : jstr := js "rfe_token_" ++ hostId.
Definition fingerprint (hostId : jstr) : jstr := js "rfe_fp_" ++ hostId.

Lemma token_inj a b : token a = token b -> a = b.
Proof. apply app_inv_head. Qed.
Lemma fingerprint_inj a b : fingerprint a = fingerprint b -> a = b.
Proof. apply app_inv_head. Qed.
Lemma token_fingerprint a b : token a <> fingerprint b.
Proof. unfold token, fingerprint. intros H. vm_compute in H. discriminate H. Qed.
Lemma device_not_host k a : k ∈ [devicePrivate; devicePublic] -> k <> token a /\ k <> fingerprint a.
Proof.
  intros [->|[->|H]%elem_of_cons]%elem_of_cons; [split..|by apply elem_of_nil in H];
    intros E; vm_compute in E; discriminate E.
Qed.
End SecureKeys.

(** ** Reasoning about a call whatever the script *)

(** The stored data of two disks agree. *)
Definition same_data (d d' : Disk) : Prop := kv d = kv d' /\ secure d = secure d' /\ cleaned d = cleaned d'.
#[export] Instance same_data_equiv : Equivalence same_data.
Proof.
  split; [by intros d | by intros ?? (?&?&?) | intros ??? (?&?&?) (?&?&?)]; repeat split; congruence.
Qed.
Lemma same_with_faults fs d : same_data (with_faults fs d) d.
Proof. done. Qed.
#[export] Hint Resolve same_with_faults : core.

Lemma io_cases {A} (f : Disk -> Disk * A) d :
  exists fs, io f d = (with_faults fs d, Err storage_error) \/
             io f d = (let (d', a) := f (with_faults fs d) in (d', Ok a)).
Proof.
  unfold io. destruct (faults d) as [|[|] fs]; [exists []; by right | exists fs; by left | exists fs; by right].
Qed.

(** Case analysis on the next call of the goal: it rejects, or it is performed. *)
Ltac io_step :=
  match goal with
  | |- context [io ?f ?d] =>
      let fs := fresh "fs" in let E := fresh "E" in
      destruct (io_cases f d) as [fs [E|E]]; rewrite E; clear E; cbn beta iota
  end.

(** A disk with no failure to come performs every call. *)
Lemma io_works {A} (f : Disk -> Disk * A) d :
  faults d = [] -> io f d = let (d', a) := f (with_faults [] d) in (d', Ok a).
Proof. unfold io. by intros ->. Qed.

(** The same case analysis, keeping that an empty script stays empty. *)
Lemma io_cases_script {A} (f : Disk -> Disk * A) d :
  exists fs, (faults d = [] -> fs = []) /\
             ((faults d <> [] /\ io f d = (with_faults fs d, Err storage_error)) \/
              io f d = (let (d', a) := f (with_faults fs d) in (d', Ok a))).
Proof.
  unfold io. destruct (faults d) as [|[|] fs]; [exists []; split; [done | by right] | exists fs; split; [done | by left] |
    exists fs; split; [done | by right]].
Qed.
Ltac io_step_script :=
  match goal with
  | |- context [io ?f ?d] =>
      let fs := fresh "fs" in let E := fresh "E" in let Hs := fresh "Hs" in let Hf := fresh "Hf" in
      destruct (io_cases_script f d) as (fs & Hs & [[Hf E]|E]); rewrite E; clear E; cbn beta iota
  end.
