(* ===== verification/HostStore.v ===== *)
(** * The store of paired hosts

    [core/storage/hostStore.ts]: the host list as one JSON array in the metadata
    store, each host's token and certificate pin in the secure store.  Mutations
    of the list run one at a time (its [serial] queue), so an operation is a
    function of the disk it starts from.  [getLastSeen] only reads and is left
    out: it depends on the whole syntax of [Number]. *)

From Stdlib Require Import ZArith Lia Bool.
From Stdlib Require List.
From S2P Require Import Prelude JsCollections JsString Json Errors Host Storage.
Local Open Scope js_scope.

Definition HOSTS_KEY : jstr := js "rfe_hosts_v1".
Definition lastSeenKey (id : jstr) : jstr := js "rfe_last_seen_" ++ id.
Lemma lastSeen_not_hosts id : lastSeenKey id <> HOSTS_KEY.
Proof. intros H. vm_compute in H. discriminate H. Qed.

(** A [Partial<Omit<Host, 'id'>>]: absent fields are kept, present ones assigned. *)
Record HostPatch := {
  p_label : option jstr; p_address : option jstr;
  p_certFingerprint : option (option jstr); p_tailscaleName : option (option jstr);
  p_tailscaleAddress : option (option jstr); p_internetAddress : option (option jstr);
  p_macAddress : option (option jstr); p_note : option (option jstr)
}.
Definition patched (h : Host) (p : HostPatch) : Host := {|
  host_id := host_id h;
  host_label := default (host_label h) (p_label p);
  host_address := default (host_address h) (p_address p);
  certFingerprint := default (certFingerprint h) (p_certFingerprint p);
  tailscaleName := default (tailscaleName h) (p_tailscaleName p);
  tailscaleAddress := default (tailscaleAddress h) (p_tailscaleAddress p);
  internetAddress := default (internetAddress h) (p_internetAddress p);
  macAddress := default (macAddress h) (p_macAddress p);
  note := default (note h) (p_note p) |}.
Definition with_pin (pin : jstr) (h : Host) : Host := {|
  host_id := host_id h; host_label := host_label h; host_address := host_address h;
  certFingerprint := Some pin; tailscaleName := tailscaleName h; tailscaleAddress := tailscaleAddress h;
  internetAddress := internetAddress h; macAddress := macAddress h; note := note h |}.

Definition has_id (id : jstr) (h : Host) : bool := bool_decide (host_id h = id).
(** [hosts.filter((h) => h.id !== id)]. *)
Definition without (id : jstr) (hosts : list Host) : list Host :=
  List.filter (fun h => negb (has_id id h)) hosts.
(** [findIndex], [-1] as [None]. *)
Fixpoint findIndex {A} (f : A -> bool) (l : list A) : option nat :=
  match l with
  | [] => None
  | x :: r => if f x then Some O else S <$> findIndex f r
  end.

Section HostStore.
Context `{U : Unicode} `{C : JsonCodec}.

(** One stored element: a record, or a string holding one (the Flutter form). *)
Definition parse_record (e : json) : option Host :=
  hostFromJson (match e with JStr s => default JNull (json_parse s) | _ => e end).
Definition parse_hosts (raw : option jstr) : list Host :=
  match truthy raw with
  | None => []
  | Some r => match json_parse r with
              | Some (JArr arr) => omap parse_record arr
              | _ => []
              end
  end.
Definition listHosts : IO (list Host) :=
  raw <- KeyValueStore.get HOSTS_KEY;; ret (parse_hosts raw).
Definition save (hosts : list Host) : IO unit :=
  KeyValueStore.set HOSTS_KEY (json_stringify (JArr (hostToJson <$> hosts))).

Definition addHost (host : Host) : IO unit :=
  hosts <- listHosts;; save (without (host_id host) hosts ++ [host]).
Definition updateHost (host : Host) : IO unit :=
  hosts <- listHosts;;
  match findIndex (has_id (host_id host)) hosts with
  | None => ret tt
  | Some i => save (<[i := host]> hosts)
  end.
Definition patchHost (id : jstr) (patch : HostPatch) : IO bool :=
  hosts <- listHosts;;
  match findIndex (has_id id) hosts with
  | None => ret false
  | Some i => save (alter (fun h => patched h patch) i hosts);; ret true
  end.
Definition touchHost (id : jstr) : IO unit :=
  hosts <- listHosts;;
  match findIndex (has_id id) hosts with
  | None | Some O => ret tt
  | Some i => match hosts !! i with
              | Some h => save (h :: delete i hosts)
              | None => ret tt
              end
  end.
(** [onRemoved], whose failure is swallowed. *)
Definition onRemoved (id : jstr) : IO unit := io (fun d => (with_cleaned (fun l => l ++ [id]) d, tt)).
Definition removeHost (id : jstr) : IO unit :=
  SecureStore.delete (SecureKeys.token id);;
  SecureStore.delete (SecureKeys.fingerprint id);;
  hosts <- listHosts;;
  save (without id hosts);;
  KeyValueStore.remove (lastSeenKey id);;
  attempt (onRemoved id) tt.
Definition setLastSeen (id : jstr) (ms : Z) : IO unit :=
  hosts <- listHosts;;
  if List.existsb (has_id id) hosts then KeyValueStore.set (lastSeenKey id) (string_of_Z ms) else ret tt.
Definition getToken (id : jstr) : IO (option jstr) := SecureStore.read (SecureKeys.token id).
Definition getPin (id : jstr) : IO (option jstr) :=
  raw <- SecureStore.read (SecureKeys.fingerprint id);; ret (normalizeFingerprint raw).

(** *** [commitPairing] *)

(** The [catch] block: each key written so far gets its previous value back. *)
Definition restore (before : list (jstr * option jstr)) (k : jstr) : IO unit :=
  attempt (match default None (map_get k before) with
           | None => SecureStore.delete k
           | Some prev => SecureStore.write k prev
           end) tt.
Definition rollback (before : list (jstr * option jstr)) (done_ : list jstr) (e : jserror) : IO unit :=
  for_each done_ (restore before);; throw e.
Definition read_before (k : jstr) : IO (option jstr) := attempt (SecureStore.read k) None.
Definition commitPairing (host : Host) (token fingerprint : jstr) : IO unit :=
  match normalizeFingerprint (Some fingerprint) with
  | None => throw (PlainError (js "refusing to commit pairing without a valid certificate pin"))
  | Some pin =>
      let fp := SecureKeys.fingerprint (host_id host) in
      let tok := SecureKeys.token (host_id host) in
      b1 <- read_before fp;;
      b2 <- read_before tok;;
      let before := map_set tok b2 (map_set fp b1 []) in
      catch (SecureStore.write fp pin) (rollback before []);;
      catch (SecureStore.write tok token) (rollback before [fp]);;
      catch (addHost (with_pin pin host)) (rollback before [fp; tok])
  end.

(** ** What the store promises *)

(** The listed hosts, and whether a host has its login. *)
Definition hosts_on (d : Disk) : list Host := parse_hosts (map_get HOSTS_KEY (kv d)).
Definition ids (hosts : list Host) : list jstr := host_id <$> hosts.
Definition pin_on (d : Disk) (id : jstr) : option jstr := map_get (SecureKeys.fingerprint id) (secure d).
Definition token_on (d : Disk) (id : jstr) : option jstr := map_get (SecureKeys.token id) (secure d).

Inductive StoreOp :=
| OpAdd (h : Host) | OpUpdate (h : Host) | OpPatch (id : jstr) (p : HostPatch)
| OpTouch (id : jstr) | OpRemove (id : jstr) | OpLastSeen (id : jstr) (ms : Z).
Definition run_op (o : StoreOp) : IO unit :=
  match o with
  | OpAdd h => addHost h
  | OpUpdate h => updateHost h
  | OpPatch id p => patchHost id p;; ret tt
  | OpTouch id => touchHost id
  | OpRemove id => removeHost id
  | OpLastSeen id ms => setLastSeen id ms
  end.
(** The abstract store: what each operation means on a list of distinct hosts. *)
Definition spec_op (o : StoreOp) (hosts : list Host) : list Host :=
  match o with
  | OpAdd h => without (host_id h) hosts ++ [h]
  | OpUpdate h => (fun h' => if has_id (host_id h) h' then h else h') <$> hosts
  | OpPatch id p => (fun h' => if has_id id h' then patched h' p else h') <$> hosts
  | OpTouch id => List.filter (has_id id) hosts ++ without id hosts
  | OpRemove id => without id hosts
  | OpLastSeen _ _ => hosts
  end.
(** The queue: every operation runs, in order, whatever the earlier ones did. *)
Fixpoint run_ops (ops : list StoreOp) (d : Disk) : Disk :=
  match ops with [] => d | o :: r => run_ops r (run_op o d).1 end.

(** ** Lemmas *)

Lemma saved_wf hosts : json_wf (JArr (hostToJson <$> hosts)) = true.
Proof.
  rewrite json_wf_arr. apply forallb_forall_true, Forall_fmap, Forall_forall. intros h _. apply hostToJson_wf.
Qed.
Lemma parse_record_hostToJson h : parse_record (hostToJson h) = Some h.
Proof. apply hostFromToJson. Qed.
(** The list survives being written and read back. *)
Lemma parse_saved hosts : parse_hosts (Some (json_stringify (JArr (hostToJson <$> hosts)))) = hosts.
Proof.
  unfold parse_hosts. pose proof (json_stringify_nonempty _ (saved_wf hosts)) as Hne.
  pose proof (json_roundtrip _ (saved_wf hosts)) as Hr.
  destruct (json_stringify _) as [|c s] eqn:E; [done|]. cbn [truthy]. rewrite Hr.
  induction hosts as [|h hosts IH]; [done|].
  cbn [fmap list_fmap omap list_omap]. rewrite parse_record_hostToJson. f_equal.
  clear. induction hosts as [|h hosts IH]; [done|].
  cbn [fmap list_fmap omap list_omap]. by rewrite parse_record_hostToJson, IH.
Qed.
Lemma hosts_on_saved hosts d :
  hosts_on (with_kv (map_set HOSTS_KEY (json_stringify (JArr (hostToJson <$> hosts)))) d) = hosts.
Proof. unfold hosts_on. simpl. by rewrite map_get_set_eq, parse_saved. Qed.
Lemma hosts_on_faults fs d : hosts_on (with_faults fs d) = hosts_on d.
Proof. done. Qed.

Lemma has_id_spec id h : has_id id h = true <-> host_id h = id.
Proof. apply bool_decide_eq_true. Qed.
Lemma findIndex_None {A} (f : A -> bool) l : findIndex f l = None -> Forall (fun x => f x = false) l.
Proof.
  induction l as [|x l IH]; simpl; [constructor|]. destruct (f x) eqn:E; [done|].
  destruct (findIndex f l); [done|]. constructor; auto.
Qed.
Lemma findIndex_Some {A} (f : A -> bool) l i : findIndex f l = Some i ->
  exists a x b, l = a ++ x :: b /\ length a = i /\ f x = true /\ Forall (fun y => f y = false) a.
Proof.
  revert i. induction l as [|x l IH]; intros i; simpl; [done|]. destruct (f x) eqn:E.
  - intros [= <-]. exists [], x, l. repeat split; auto.
  - destruct (findIndex f l) as [j|]; [|done]. intros [= <-].
    destruct (IH j eq_refl) as (a & y & b & -> & <- & Hy & Ha). exists (x :: a), y, b. repeat split; auto.
Qed.
(** With distinct ids, the host found is the only one with its id. *)
Lemma findIndex_id id hosts i : NoDup (ids hosts) -> findIndex (has_id id) hosts = Some i ->
  exists a h b, hosts = a ++ h :: b /\ length a = i /\ host_id h = id /\
    Forall (fun y => has_id id y = false) a /\ Forall (fun y => has_id id y = false) b.
Proof.
  intros Hnd (a & h & b & -> & Hl & Hh & Ha)%findIndex_Some. apply has_id_spec in Hh. exists a, h, b.
  repeat split; auto. unfold ids in Hnd. rewrite fmap_app in Hnd. apply NoDup_app in Hnd as (_ & _ & Hnd).
  csimpl in Hnd. apply NoDup_cons in Hnd as [Hn _]. apply Forall_forall. intros y Hy.
  apply bool_decide_eq_false. intros E. apply Hn. rewrite Hh, <- E. by apply list_elem_of_fmap_2.
Qed.
Lemma map_if_none {A} (f : A -> bool) (g : A -> A) l :
  Forall (fun x => f x = false) l -> (fun x => if f x then g x else x) <$> l = l.
Proof. induction 1 as [|x l Hx _ IH]; csimpl; [done|]. by rewrite Hx, IH. Qed.
Lemma filter_negb_none {A} (f : A -> bool) l :
  Forall (fun x => f x = false) l -> List.filter (fun x => negb (f x)) l = l.
Proof. induction 1 as [|x l Hx _ IH]; simpl; [done|]. by rewrite Hx, IH. Qed.

Lemma update_found id hosts i (g : Host -> Host) : NoDup (ids hosts) -> findIndex (has_id id) hosts = Some i ->
  alter g i hosts = (fun h' => if has_id id h' then g h' else h') <$> hosts.
Proof.
  intros Hnd (a & h & b & -> & <- & Hh & Ha & Hb)%findIndex_id; [|done].
  rewrite fmap_app. csimpl. apply has_id_spec in Hh. rewrite Hh, !map_if_none by done.
  clear. by induction a as [|x a IH]; csimpl; [|rewrite <- IH].
Qed.
Lemma touch_found id hosts i h : NoDup (ids hosts) -> findIndex (has_id id) hosts = Some i -> hosts !! i = Some h ->
  h :: delete i hosts = List.filter (has_id id) hosts ++ without id hosts.
Proof.
  intros Hnd (a & h' & b & -> & <- & Hh & Ha & Hb)%findIndex_id; [|done].
  rewrite list_lookup_middle by done. intros [= ->]. rewrite delete_middle. unfold without.
  rewrite !List.filter_app. simpl. apply has_id_spec in Hh. rewrite Hh. simpl.
  rewrite !filter_none, !filter_negb_none by done. done.
Qed.

Lemma elem_ids_without id x hosts : x ∈ ids (without id hosts) <-> x ∈ ids hosts /\ x <> id.
Proof.
  unfold ids, without. rewrite !list_elem_of_fmap. setoid_rewrite elem_filter_bool.
  split; [intros (h & -> & Hh & E) | intros [(h & -> & Hh) E]].
  - unfold has_id in E. breflect. split; eauto.
  - exists h. split; [done|]. split; [done|]. unfold has_id. by rewrite bool_decide_eq_false_2.
Qed.
Lemma NoDup_ids_without id hosts : NoDup (ids hosts) -> NoDup (ids (without id hosts)).
Proof.
  unfold ids. induction hosts as [|h r IH]; csimpl; [done|]. intros [Hn Hd]%NoDup_cons.
  destruct (has_id id h); simpl; [auto|]. apply NoDup_cons. split; [|auto].
  intros [Hin _]%elem_ids_without. done.
Qed.
Lemma NoDup_ids_spec o hosts : NoDup (ids hosts) -> NoDup (ids (spec_op o hosts)).
Proof.
  intros Hnd. assert (forall id (g : Host -> Host), (forall h, has_id id h = true -> host_id (g h) = id) ->
    ids ((fun h' => if has_id id h' then g h' else h') <$> hosts) = ids hosts) as Hmap.
  { intros id g Hg. unfold ids. rewrite <- list_fmap_compose. apply list_fmap_ext. intros _ h _. simpl.
    destruct (has_id id h) eqn:E; [|done]. rewrite Hg by done. by apply has_id_spec in E. }
  destruct o as [h|h|id p|id|id|id ms]; simpl.
  - unfold ids. rewrite fmap_app. apply NoDup_app. split; [by apply NoDup_ids_without|]. split; [|apply NoDup_singleton].
    intros x [_ Hx]%elem_ids_without. csimpl. set_solver.
  - by rewrite (Hmap (host_id h) (fun _ => h)).
  - rewrite (Hmap id (fun h' => patched h' p)); [done|]. intros h Hh. by apply has_id_spec in Hh.
  - unfold ids. rewrite fmap_app. apply NoDup_app. split; [|split; [|by apply NoDup_ids_without]].
    + clear Hmap. unfold ids in Hnd. induction hosts as [|h r IH]; csimpl; [constructor|].
      csimpl in Hnd. apply NoDup_cons in Hnd as [Hn Hd]. destruct (has_id id h); csimpl; [|auto].
      apply NoDup_cons. split; [|auto]. intros (y & E & [Hy _]%elem_filter_bool)%list_elem_of_fmap.
      apply Hn. rewrite E. by apply list_elem_of_fmap_2.
    + intros x (h & -> & [_ Hh]%elem_filter_bool)%list_elem_of_fmap [_ Hx]%elem_ids_without.
      by apply has_id_spec in Hh.
  - by apply NoDup_ids_without.
  - done.
Qed.

(** ** Every operation, whatever fails *)

(** The list after an operation: untouched, or exactly the abstract result, and
    the latter whenever the operation reports success. *)
Definition implements (o : StoreOp) (d : Disk) (p : Disk * result jserror unit) : Prop :=
  (hosts_on p.1 = hosts_on d /\ is_ok p.2 = false) \/ hosts_on p.1 = spec_op o (hosts_on d).

Lemma hosts_on_other k v d : k <> HOSTS_KEY -> hosts_on (with_kv (map_set k v) d) = hosts_on d.
Proof. intros H. unfold hosts_on. simpl. by rewrite map_get_set_ne. Qed.
Lemma hosts_on_remove k d : k <> HOSTS_KEY -> hosts_on (with_kv (map_delete k) d) = hosts_on d.
Proof. intros H. unfold hosts_on. simpl. by rewrite map_get_delete, decide_False. Qed.

Ltac unfold_ops := unfold run_op, addHost, updateHost, patchHost, touchHost, removeHost, setLastSeen, onRemoved,
  listHosts, save, KeyValueStore.get, KeyValueStore.set, KeyValueStore.remove, SecureStore.delete, attempt, catch,
  bind, ret, throw.

Lemma run_op_implements o d : NoDup (ids (hosts_on d)) -> implements o d (run_op o d).
Proof.
  intros Hnd. unfold implements. destruct o as [h|h|id p|id|id|id ms]; unfold_ops.
  - io_step; [by left|]. simpl. io_step; [by left|]. right. simpl. by rewrite hosts_on_saved.
  - io_step; [by left|]. simpl. fold (hosts_on d). destruct (findIndex _ _) as [i|] eqn:E.
    + io_step; [by left|]. right. simpl. rewrite hosts_on_saved.
      rewrite <- (update_found _ _ i (fun _ => h)) by done. apply list_insert_alter || done.
    + right. simpl. symmetry. rewrite hosts_on_faults. by apply (map_if_none _ (fun _ => h)), findIndex_None.
  - io_step; [by left|]. simpl. fold (hosts_on d). destruct (findIndex _ _) as [i|] eqn:E.
    + io_step; [by left|]. right. simpl. rewrite hosts_on_saved. by apply update_found.
    + right. simpl. symmetry. rewrite hosts_on_faults. by apply (map_if_none _ (fun h' => patched h' p)), findIndex_None.
  - io_step; [by left|]. simpl. fold (hosts_on d). destruct (findIndex _ _) as [i|] eqn:E.
    + destruct (findIndex_Some _ _ _ E) as (a & h & b & Eq & <- & _ & _).
      assert (hosts_on d !! length a = Some h) as Eh by (rewrite Eq; by apply list_lookup_middle). rewrite Eh. pose proof (touch_found _ _ _ _ Hnd E Eh) as Ht.
      destruct (length a) as [|i].
      * right. simpl. rewrite hosts_on_faults, <- Ht. destruct (hosts_on d); simplify_eq/=; done.
      * io_step; [by left|]. right. rewrite <- Ht. apply (hosts_on_saved (h :: _)).
    + right. simpl. rewrite hosts_on_faults. apply findIndex_None in E. unfold without.
      by rewrite filter_none, filter_negb_none.
  - io_step; [by left|]. simpl. io_step; [by left|]. simpl. io_step; [by left|]. simpl. io_step; [by left|]. simpl.
    io_step; [right; simpl; by rewrite hosts_on_faults, hosts_on_saved|]. simpl.
    io_step; right; simpl; unfold with_cleaned, hosts_on; simpl;
      rewrite map_get_delete, decide_False by apply lastSeen_not_hosts; by rewrite map_get_set_eq, parse_saved.
  - io_step; [by left|]. simpl. fold (hosts_on d). destruct (List.existsb _ _).
    + io_step; [by left|]. right. simpl. rewrite hosts_on_other by apply lastSeen_not_hosts. done.
    + by right.
Qed.

Lemma run_op_works o d : faults d = [] -> faults (run_op o d).1 = [] /\ is_ok (run_op o d).2 = true.
Proof.
  intros Hf. destruct o; unfold_ops; unfold io; rewrite Hf; simpl;
    repeat (case_goal; simpl; simplify_eq/=); try done.
Qed.

(** C8 The host list refines its abstract store: starting from any list of hosts
    with distinct ids, whatever storage calls fail, an operation leaves the list
    as it was (and then reports an error) or makes exactly the abstract change,
    always the latter when it reports success; ids stay distinct, so a whole
    queue of operations ends on a list obtained by performing some of them in
    order, and all of them when nothing fails. *)
Theorem host_list_refines (ops : list StoreOp) (d : Disk) :
  NoDup (ids (hosts_on d)) ->
  (forall o, implements o d (run_op o d)) /\
  NoDup (ids (hosts_on (run_ops ops d))) /\
  (exists done_, done_ `sublist_of` ops /\ hosts_on (run_ops ops d) = fold_left (fun l o => spec_op o l) done_ (hosts_on d)) /\
  (faults d = [] -> hosts_on (run_ops ops d) = fold_left (fun l o => spec_op o l) ops (hosts_on d)).
Proof.
  intros Hnd. split; [intros o; by apply run_op_implements|].
  revert d Hnd. induction ops as [|o ops IH]; intros d Hnd; simpl.
  { split; [done|]. split; [|done]. by exists []. }
  pose proof (run_op_implements o d Hnd) as Hi. pose proof (run_op_works o d) as Hw.
  destruct (run_op o d) as [d' r]. unfold implements in Hi. simpl in *.
  assert (NoDup (ids (hosts_on d'))) as Hnd'.
  { destruct Hi as [[-> _]| ->]; [done | by apply NoDup_ids_spec]. }
  destruct (IH d' Hnd') as (H1 & (l & Hl & E) & H3). split; [done|]. split.
  - destruct Hi as [[Hs _]|Hs]; rewrite Hs in E.
    + exists l. split; [by apply sublist_cons | done].
    + exists (o :: l). split; [by apply sublist_skip | done].
  - intros Hf. destruct (Hw Hf) as [Hf' Hok]. rewrite H3 by done. destruct Hi as [[_ Hr]| ->]; [congruence | done].
Qed.

(** C9 Forgetting a host removes its secrets first: whatever storage calls fail,
    either the host list is untouched or the host's token and pin are already
    gone from the keystore, so no host disappears from the list with its
    credentials left behind; when it reports success the host is unlisted, its
    token, pin and last-seen time are gone, and no other secret changed. *)
Theorem removeHost_secrets_first (id : jstr) (d : Disk) :
  let (d', r) := removeHost id d in
  (hosts_on d' = hosts_on d \/ token_on d' id = None /\ pin_on d' id = None) /\
  (forall k, k <> SecureKeys.token id -> k <> SecureKeys.fingerprint id -> map_get k (secure d') = map_get k (secure d)) /\
  (is_ok r = true -> token_on d' id = None /\ pin_on d' id = None /\ map_get (lastSeenKey id) (kv d') = None /\
                     hosts_on d' = without id (hosts_on d)).
Proof.
  assert (forall s : store, map_get (SecureKeys.token id) (map_delete (SecureKeys.fingerprint id) (map_delete (SecureKeys.token id) s)) = None) as Ht.
  { intros s. rewrite !map_get_delete. by repeat case_decide. }
  assert (forall s : store, map_get (SecureKeys.fingerprint id) (map_delete (SecureKeys.fingerprint id) s) = None) as Hf.
  { intros s. rewrite map_get_delete. by case_decide. }
  assert (forall k (s : store), k <> SecureKeys.token id -> k <> SecureKeys.fingerprint id ->
    map_get k (map_delete (SecureKeys.fingerprint id) (map_delete (SecureKeys.token id) s)) = map_get k s) as Ho.
  { intros k s H1 H2. rewrite !map_get_delete. by repeat case_decide. }
  unfold_ops. unfold token_on, pin_on.
  io_step; [split; [by left|]; split; [done | done]|]. simpl.
  io_step; [split; [by left|]; split; [|done] |]; simpl.
  { intros k H1 H2. rewrite map_get_delete. by case_decide. }
  io_step; [split; [by left|]; split; [intros; by apply Ho|done]|]. simpl.
  io_step; [split; [by left|]; split; [intros; by apply Ho|done]|]. simpl.
  io_step; [split; [right; split; [apply Ht | apply Hf]|]; split; [intros; by apply Ho|done]|]. simpl.
  assert (forall (s : store), map_get (lastSeenKey id) (map_delete (lastSeenKey id) s) = None) as Hl.
  { intros s. rewrite map_get_delete. by case_decide. }
  io_step; (split; [right; split; [apply Ht | apply Hf]|]; split; [by intros; apply Ho|]; intros _;
    split; [apply Ht|]; split; [apply Hf|]; split; [apply Hl|]);
    unfold hosts_on; simpl; rewrite map_get_delete, decide_False by apply lastSeen_not_hosts;
    by rewrite map_get_set_eq, parse_saved.
Qed.

(** *** Committing a pairing *)

(** At most one storage call fails. *)
Definition one_fault (fs : list bool) : Prop := fs = [] \/ exists n, fs = replicate n false ++ [true].

Section Commit.
Variables (fp tok : jstr).
Hypothesis Hne : fp <> tok.

Lemma before_fp (b1 b2 : option jstr) : map_get fp (map_set tok b2 (map_set fp b1 [])) = Some b1.
Proof. rewrite map_get_set_ne by done. apply map_get_set_eq. Qed.
Lemma before_tok (b1 b2 : option jstr) : map_get tok (map_set tok b2 (map_set fp b1 [])) = Some b2.
Proof. apply map_get_set_eq. Qed.

(** Putting one key back. *)
Definition put_back (k : jstr) (prev : option jstr) (s : store) : store :=
  match prev with None => map_delete k s | Some v => map_set k v s end.
Lemma get_put_back k prev s k' : map_get k' (put_back k prev s) = if decide (k = k') then prev else map_get k' s.
Proof. destruct prev; simpl; [apply map_get_set | apply map_get_delete]. Qed.

Lemma undo_pin s v k : map_get k (put_back fp (map_get fp s) (map_set fp v s)) = map_get k s.
Proof. rewrite get_put_back, map_get_set. by repeat case_decide; subst. Qed.
Lemma undo_both s v t k :
  map_get k (put_back tok (map_get tok s) (put_back fp (map_get fp s) (map_set tok t (map_set fp v s)))) = map_get k s.
Proof. rewrite !get_put_back, !map_get_set. by repeat case_decide; subst. Qed.
Lemma restore_works before k K S c fs prev :
  map_get k before = Some prev -> fs = [] ->
  restore before k {| kv := K; secure := S; cleaned := c; faults := fs |} =
  ({| kv := K; secure := put_back k prev S; cleaned := c; faults := [] |}, Ok tt).
Proof. unfold restore. intros -> ->. by destruct prev. Qed.

(** Which calls remain after the two reads, and what they read. *)
Definition read_outcome (S : store) (fs1 : list bool) (b1 b2 : option jstr) : Prop :=
  fs1 = [] \/ b1 = map_get fp S /\ b2 = map_get tok S /\ exists n, fs1 = replicate n false ++ [true].
Lemma commit_reads K S c fs : one_fault fs -> exists fs1 b1 b2,
  (forall A (f : option jstr -> option jstr -> IO A),
    (b1' <- read_before fp;; b2' <- read_before tok;; f b1' b2') {| kv := K; secure := S; cleaned := c; faults := fs |}
    = f b1 b2 {| kv := K; secure := S; cleaned := c; faults := fs1 |}) /\
  (fs = [] -> fs1 = []) /\ read_outcome S fs1 b1 b2.
Proof.
  intros [->|([|[|n]] & ->)].
  - exists [], (map_get fp S), (map_get tok S). split; [done|]. split; [done | by left].
  - exists [], None, (map_get tok S). split; [done|]. split; [done | by left].
  - exists [], (map_get fp S), None. split; [done|]. split; [done | by left].
  - exists (replicate n false ++ [true]), (map_get fp S), (map_get tok S). split; [done|]. split; [done | right; eauto].
Qed.

Definition listed_with (host : Host) (K : store) : store :=
  map_set HOSTS_KEY (json_stringify (JArr (hostToJson <$> (without (host_id host) (parse_hosts (map_get HOSTS_KEY K)) ++ [host])))) K.
Definition commit_tail (before : list (jstr * option jstr)) (pin token : jstr) (host : Host) : IO unit :=
  catch (SecureStore.write fp pin) (rollback before []);;
  catch (SecureStore.write tok token) (rollback before [fp]);;
  catch (addHost (with_pin pin host)) (rollback before [fp; tok]).
Lemma rollback_one b1 b2 e K S c :
  rollback (map_set tok b2 (map_set fp b1 [])) [fp] e {| kv := K; secure := S; cleaned := c; faults := [] |} =
  ({| kv := K; secure := put_back fp b1 S; cleaned := c; faults := [] |}, Err e).
Proof. unfold rollback, for_each, bind. by rewrite (restore_works _ _ _ _ _ _ b1) by (apply before_fp || done). Qed.
Lemma rollback_both b1 b2 e K S c :
  rollback (map_set tok b2 (map_set fp b1 [])) [fp; tok] e {| kv := K; secure := S; cleaned := c; faults := [] |} =
  ({| kv := K; secure := put_back tok b2 (put_back fp b1 S); cleaned := c; faults := [] |}, Err e).
Proof.
  unfold rollback, for_each, bind. rewrite (restore_works _ _ _ _ _ _ b1) by (apply before_fp || done).
  by rewrite (restore_works _ _ _ _ _ _ b2) by (apply before_tok || done).
Qed.
Lemma commit_writes K S c fs1 b1 b2 pin token host : read_outcome S fs1 b1 b2 ->
  let (d', r) := commit_tail (map_set tok b2 (map_set fp b1 [])) pin token host
                   {| kv := K; secure := S; cleaned := c; faults := fs1 |} in
  (r = Ok tt /\ secure d' = map_set tok token (map_set fp pin S) /\ kv d' = listed_with (with_pin pin host) K) \/
  (fs1 <> [] /\ is_ok r = false /\ kv d' = K /\ forall k, map_get k (secure d') = map_get k S).
Proof.
  intros [->|(-> & -> & n & ->)]; [by left|].
  destruct n as [|[|[|[|n]]]]; unfold commit_tail, addHost, listHosts, save, KeyValueStore.get, KeyValueStore.set, SecureStore.write;
    cbv [bind catch ret io faults replicate app with_faults tail with_secure with_kv kv secure cleaned].
  - by right.
  - rewrite rollback_one. right. repeat split; [done|]. intros k. apply undo_pin.
  - rewrite rollback_both. right. repeat split; [done|]. intros k. by apply undo_both.
  - rewrite rollback_both. right. repeat split; [done|]. intros k. by apply undo_both.
  - by left.
Qed.
End Commit.

Lemma restore_keeps before k d : exists d1, restore before k d = (d1, Ok tt) /\ kv d1 = kv d.
Proof.
  unfold restore, attempt, catch, SecureStore.delete, SecureStore.write, ret.
  destruct (default None (map_get k before)); io_step; by eexists.
Qed.
Lemma rollback_keeps before l e d : exists d1, rollback before l e d = (d1, Err e) /\ kv d1 = kv d.
Proof.
  unfold rollback, throw. revert d. induction l as [|k l IH]; intros d; [by eexists|].
  destruct (restore_keeps before k d) as (d1 & E & <-). destruct (IH d1) as (d2 & E2 & <-). exists d2. split; [|done].
  unfold bind in *. cbn [for_each]. unfold bind. by rewrite E.
Qed.
Lemma read_before_keeps k d : exists fs b, read_before k d = (with_faults fs d, Ok b).
Proof. unfold read_before, attempt, catch, SecureStore.read, ret. io_step; eauto. Qed.
Ltac rolled_back :=
  match goal with
  | |- context [rollback ?b ?l ?e ?d0] => let d1 := fresh in destruct (rollback_keeps b l e d0) as (d1 & -> & ->)
  end; done.
Lemma commit_tail_any fp tok before pin token host d : fp <> tok ->
  let (d', r) := commit_tail fp tok before pin token host d in
  match r with
  | Ok _ => map_get fp (secure d') = Some pin /\ map_get tok (secure d') = Some token /\
            hosts_on d' = without (host_id host) (hosts_on d) ++ [with_pin pin host]
  | Err _ => kv d' = kv d
  end.
Proof.
  intros Hne.
  unfold commit_tail, catch, SecureStore.write, addHost, listHosts, save, KeyValueStore.get, KeyValueStore.set, bind, ret.
  io_step; [rolled_back|]. io_step; [rolled_back|]. io_step; [rolled_back|]. io_step; [rolled_back|].
  rewrite hosts_on_saved. split; [|split; [|done]]; simpl; rewrite ?map_get_set_eq; [|done].
  rewrite map_get_set_ne by done. apply map_get_set_eq.
Qed.
(** Whatever fails: success means committed, failure leaves the list alone. *)
Lemma commitPairing_any (host : Host) (token fingerprint : jstr) (d : Disk) :
  let (d', r) := commitPairing host token fingerprint d in
  match r with
  | Ok _ => exists pin, normalizeFingerprint (Some fingerprint) = Some pin /\ pin_on d' (host_id host) = Some pin /\
              token_on d' (host_id host) = Some token /\ hosts_on d' = without (host_id host) (hosts_on d) ++ [with_pin pin host]
  | Err _ => kv d' = kv d
  end.
Proof.
  unfold commitPairing. destruct (normalizeFingerprint (Some fingerprint)) as [pin|] eqn:Ep; [|done].
  unfold pin_on, token_on. pose proof (SecureKeys.token_fingerprint (host_id host) (host_id host)) as Hne.
  set (fp := SecureKeys.fingerprint (host_id host)) in *. set (tok := SecureKeys.token (host_id host)) in *. clearbody fp tok.
  cbv zeta. destruct (read_before_keeps fp d) as (fs1 & b1 & E1). rewrite (bind_ok _ _ _ _ _ E1).
  destruct (read_before_keeps tok (with_faults fs1 d)) as (fs2 & b2 & E2). rewrite (bind_ok _ _ _ _ _ E2).
  pose proof (commit_tail_any fp tok (map_set tok b2 (map_set fp b1 [])) pin token host
    (with_faults fs2 (with_faults fs1 d)) (not_eq_sym Hne)) as H. unfold commit_tail in H.
  match type of H with let (_, _) := ?m in _ => destruct m as [d' [[]|e]] end; [|done]. exists pin. done.
Qed.

(** C5 Committing a pairing is atomic under any single storage failure: it
    succeeds and the host is listed with its canonical pin and its token
    readable, or it fails and the metadata and every secret are what they were,
    the previous pin and token of a host being paired again included; without a
    failure a valid fingerprint always succeeds, an invalid one changes nothing,
    and no other secret is ever touched. *)
Theorem commitPairing_atomic (host : Host) (token fingerprint : jstr) (d : Disk) :
  one_fault (faults d) ->
  let (d', r) := commitPairing host token fingerprint d in
  let norm := normalizeFingerprint (Some fingerprint) in
  match r with
  | Ok _ => exists pin, norm = Some pin /\ pin_on d' (host_id host) = Some pin /\ token_on d' (host_id host) = Some token /\
              hosts_on d' = without (host_id host) (hosts_on d) ++ [with_pin pin host]
  | Err _ => kv d' = kv d /\ forall k, map_get k (secure d') = map_get k (secure d)
  end /\
  (forall k, k <> SecureKeys.token (host_id host) -> k <> SecureKeys.fingerprint (host_id host) ->
     map_get k (secure d') = map_get k (secure d)) /\
  (faults d = [] -> norm <> None -> is_ok r = true).
Proof.
  intros Hf. unfold commitPairing. destruct (normalizeFingerprint (Some fingerprint)) as [pin|] eqn:Ep; [|by repeat split].
  unfold pin_on, token_on. pose proof (SecureKeys.token_fingerprint (host_id host) (host_id host)) as Hne.
  set (fp := SecureKeys.fingerprint (host_id host)) in *. set (tok := SecureKeys.token (host_id host)) in *.
  clearbody fp tok. destruct d as [K S c fs]. simpl in Hf. 
  cbv zeta.
  destruct (commit_reads fp tok K S c fs Hf) as (fs1 & b1 & b2 & E & Hfs & Hfs1). rewrite E. clear E.
  pose proof (commit_writes fp tok (not_eq_sym Hne) K S c fs1 b1 b2 pin token host Hfs1) as H. unfold commit_tail in H.
  match type of H with context [?m {| kv := K; secure := S; cleaned := c; faults := fs1 |}] =>
    destruct (m {| kv := K; secure := S; cleaned := c; faults := fs1 |}) as [d' r] end.
  destruct H as [(-> & -> & HK)|(Hn & Hr & HK & HS)].
  - rewrite map_get_set_eq, map_get_set_ne, map_get_set_eq by done. split; [exists pin; repeat split; auto|].
    + unfold hosts_on. rewrite HK. unfold listed_with. by rewrite map_get_set_eq, parse_saved.
    + split; [|done]. intros k H1 H2. by rewrite !map_get_set_ne by done.
  - destruct r; [done|]. simpl. split; [done|]. split; [done|]. intros Hnil. by rewrite Hfs in Hn.
Qed.
End HostStore.

(** ** Concrete runs *)

Module Sample.
#[export] Instance codec : JsonCodec := plain_codec.
#[export] Instance unicode : Unicode := ascii_unicode.

Definition pin : jstr := replicate 64 97.
Definition host (id : string) : Host := {|
  host_id := js id; host_label := js "PC"; host_address := js "10.0.0.2:8765"; certFingerprint := Some pin;
  tailscaleName := None; tailscaleAddress := None; internetAddress := None; macAddress := None; note := None |}.
(** Two listed hosts, both with a login. *)
Definition disk (fs : list bool) : Disk := {|
  kv := [(HOSTS_KEY, json_stringify (JArr (hostToJson <$> [host "h1"; host "h2"])))];
  secure := [(SecureKeys.fingerprint (js "h1"), pin); (SecureKeys.token (js "h1"), js "tok");
             (SecureKeys.fingerprint (js "h2"), pin); (SecureKeys.token (js "h2"), js "tok2")];
  cleaned := []; faults := fs |}.
Definition newPin : jstr := replicate 64 98.
End Sample.
Import Sample.

Lemma host_list_refines_witness :
  let ops := [OpTouch (js "h2"); OpRemove (js "h1"); OpAdd (host "h3")] in
  NoDup (ids (hosts_on (run_ops ops (disk [])))) /\ ids (hosts_on (run_ops ops (disk []))) = [js "h2"; js "h3"].
Proof.
  destruct (host_list_refines [OpTouch (js "h2"); OpRemove (js "h1"); OpAdd (host "h3")] (disk [])) as (_ & H & _ & E).
  { apply (bool_decide_unpack _). vm_compute. exact I. }
  split; [exact H|]. rewrite E by reflexivity. vm_compute. reflexivity.
Defined.

Lemma commitPairing_atomic_witness :
  let d' := (commitPairing (host "h1") (js "new") newPin (disk [false; false; false; false; true])).1 in
  pin_on d' (js "h1") = Some pin /\ token_on d' (js "h1") = Some (js "tok").
Proof.
  pose proof (commitPairing_atomic (host "h1") (js "new") newPin (disk [false; false; false; false; true])) as H.
  destruct (commitPairing _ _ _ _) as [d' r] eqn:E. vm_compute in E. injection E as <- <-.
  destruct H as [[_ H] _]; [right; by exists 4%nat|]. split; [apply (H (SecureKeys.fingerprint (js "h1"))) | apply (H (SecureKeys.token (js "h1")))].
Defined.

(** Two failures can lose a login: when the read of the previous pin rejects
      (it is taken for "no previous pin") and a later write rejects as well, the
      rollback deletes the pin of a host that stays listed, although the code
      states that a failure at any step can never leave a listed host without its
      pin or token. *)
Theorem commitPairing_failed_read_loses_pin : exists (d : Disk) (h : Host) (token fingerprint : jstr),
  h ∈ hosts_on d /\ pin_on d (host_id h) = certFingerprint h /\ certFingerprint h <> None /\
  let (d', r) := commitPairing h token fingerprint d in
  is_ok r = false /\ h ∈ hosts_on d' /\ pin_on d' (host_id h) = None.
Proof.
  exists (disk [true; false; false; true]), (host "h1"), (js "new"), newPin.
  assert (host "h1" ∈ hosts_on (disk [])) as Hin by (apply (bool_decide_unpack _); vm_compute; exact I).
  split; [exact Hin|]. split; [reflexivity|]. split; [done|].
  destruct (commitPairing _ _ _ _) as [d' r] eqn:E. vm_compute in E. injection E as <- <-.
  split; [reflexivity|]. split; [exact Hin | reflexivity].
Qed.

Lemma removeHost_secrets_first_witness :
  let d' := (removeHost (js "h1") (disk [false; false; false; true])).1 in
  hosts_on d' = hosts_on (disk []) /\ (hosts_on d' = hosts_on (disk []) \/ token_on d' (js "h1") = None /\ pin_on d' (js "h1") = None) /\
  token_on d' (js "h2") = Some (js "tok2").
Proof.
  pose proof (removeHost_secrets_first (js "h1") (disk [false; false; false; true])) as H.
  destruct (removeHost (js "h1") (disk [false; false; false; true])) as [d' r] eqn:E. destruct H as (H1 & H2 & _).
  split; [vm_compute in E; injection E as <- <-; reflexivity|]. split; [exact H1|].
  unfold token_on. cbn [fst]. rewrite H2; [reflexivity | by intros ?%SecureKeys.token_inj | apply SecureKeys.token_fingerprint].
Defined.
