(* ===== verification/ListingCache.v ===== *)
(** * The cache of directory listings

    [core/storage/listingCache.ts]: recent listings per host over an abstract
    backend.  [ListingBackend] states what the cache relies on; the in-memory
    backend of the same file is shown to satisfy it, and the cache's theorems are
    proved against the interface.  Writes are chained per host, so a [put] is a
    function of the state it starts from. *)

From Stdlib Require Import ZArith Lia Bool Permutation Sorted.
From Stdlib Require List.
From S2P Require Import Prelude JsCollections JsString Json Errors Models.

(** A stored row: the JSON text and the time it was fetched. *)
Notation row := (jstr * Z)%type.

Class ListingBackend (B : Type) := {
  b_get : B -> jstr -> jstr -> option row;
  b_put : B -> jstr -> jstr -> jstr -> Z -> B;
  b_list : B -> jstr -> list (jstr * Z);
  b_remove : B -> jstr -> jstr -> B;
  b_removeHost : B -> jstr -> B;
  (** Host ids the backend keeps apart, and its own consistency. *)
  good_host : jstr -> Prop;
  b_inv : B -> Prop;
  inv_put : forall b h p j t, b_inv b -> b_inv (b_put b h p j t);
  inv_remove : forall b h p, b_inv b -> b_inv (b_remove b h p);
  inv_removeHost : forall b h, b_inv b -> b_inv (b_removeHost b h);
  get_put : forall b h p j t h' p', good_host h -> good_host h' ->
    b_get (b_put b h p j t) h' p' = if decide (h = h' /\ p = p') then Some (j, t) else b_get b h' p';
  get_remove : forall b h p h' p', good_host h -> good_host h' ->
    b_get (b_remove b h p) h' p' = if decide (h = h' /\ p = p') then None else b_get b h' p';
  get_removeHost : forall b h h' p', good_host h -> good_host h' ->
    b_get (b_removeHost b h) h' p' = if decide (h = h') then None else b_get b h' p';
  (** Paths for a host with their fetch time, oldest first. *)
  list_sorted : forall b h, StronglySorted (fun x y => x.2 - y.2 <= 0) (b_list b h);
  list_NoDup : forall b h, b_inv b -> NoDup (b_list b h).*1;
  elem_list : forall b h p t, b_inv b -> good_host h -> ((p, t) ∈ b_list b h <-> exists j, b_get b h p = Some (j, t))
}.

(** [JSON.stringify] of an entry: absent fields are dropped. *)
Definition opt_str (k : string) (v : option jstr) : list (jstr * json) :=
  match v with Some s => [(js k, JStr s)] | None => [] end.
Definition opt_num (k : string) (v : option Z) : list (jstr * json) :=
  match v with Some n => [(js k, JNum n)] | None => [] end.
Definition entryToJson (e : Entry) : json := JObj (
  [(js "name", JStr (entry_name e)); (js "path", JStr (entry_path e)); (js "isDir", JBool (entry_isDir e))]
  ++ opt_num "size" (entry_size e) ++ opt_str "mimeType" (entry_mimeType e) ++ opt_str "mode" (entry_mode e)
  ++ opt_str "modified" (entry_modified e) ++ opt_str "created" (entry_created e)
  ++ [(js "isSymlink", JBool (entry_isSymlink e))] ++ opt_str "symlinkTarget" (entry_symlinkTarget e)
  ++ opt_num "childCount" (entry_childCount e)).

Section Cache.
Context {B : Type} `{LB : !ListingBackend B} `{C : JsonCodec}.

Record Cache := { backend : B; pinned : list jstr }.
Record CachedListing := { cached_entries : list json; fetchedAt : Z }.

Definition pin_key (hostId path : jstr) : jstr := hostId ++ colon :: path.
Definition setPinned (key : jstr) (pin : bool) (c : Cache) : Cache :=
  {| backend := backend c; pinned := if pin then set_add key (pinned c) else set_delete key (pinned c) |}.
(** The pinned keys of the other hosts. *)
Definition drop_pins (hostId : jstr) (pins : list jstr) : list jstr :=
  List.filter (fun k => negb (starts_with (hostId ++ [colon]) k)) pins.
Definition resync (hostId : jstr) (paths : list jstr) (pins : list jstr) : list jstr :=
  fold_left (fun s p => set_add (pin_key hostId p) s) paths (drop_pins hostId pins).
Definition syncPinned (hostId : jstr) (paths : list jstr) (c : Cache) : Cache :=
  {| backend := backend c; pinned := resync hostId paths (pinned c) |}.

Definition keep_row (pins : list jstr) (hostId path rowPath : jstr) : bool :=
  set_has (pin_key hostId rowPath) pins || bool_decide (rowPath = path).
(** The eviction loop over the rows, oldest first. *)
Fixpoint evict (pins : list jstr) (hostId path : jstr) (rows : list (jstr * Z)) (toEvict : Z) (b : B) : B :=
  match rows with
  | [] => b
  | r :: rest =>
      if toEvict <=? 0 then b
      else if keep_row pins hostId path r.1 then evict pins hostId path rest toEvict b
      else evict pins hostId path rest (toEvict - 1) (b_remove b hostId r.1)
  end.
Definition putLocked (maxEntries now : Z) (hostId path : jstr) (entries : list Entry) (c : Cache) : Cache :=
  let b1 := b_put (backend c) hostId path (json_stringify (JArr (entryToJson <$> entries))) now in
  let all := b_list b1 hostId in
  {| backend := evict (pinned c) hostId path all (Z.of_nat (length all) - maxEntries) b1; pinned := pinned c |}.
Definition get (hostId path : jstr) (c : Cache) : option CachedListing :=
  match b_get (backend c) hostId path with
  | None => None
  | Some (j, t) => match json_parse j with
                   | Some (JArr es) => Some {| cached_entries := es; fetchedAt := t |}
                   | _ => None
                   end
  end.
Definition count (hostIds : list jstr) (c : Cache) : Z :=
  fold_left (fun n id => n + Z.of_nat (length (b_list (backend c) id))) hostIds 0.
Definition evictHost (hostId : jstr) (c : Cache) : Cache :=
  {| backend := b_removeHost (backend c) hostId; pinned := drop_pins hostId (pinned c) |}.

(** ** Lemmas *)

Lemma elem_resync hostId paths pins p : pin_key hostId p ∈ resync hostId paths pins <-> p ∈ paths.
Proof.
  unfold resync.
  assert (forall acc, pin_key hostId p ∈ fold_left (fun s p => set_add (pin_key hostId p) s) paths acc <-> p ∈ paths \/ pin_key hostId p ∈ acc) as ->.
  { induction paths as [|q paths IH]; intros acc; simpl; [set_solver|]. rewrite IH, elem_set_add, elem_of_cons.
    assert (pin_key hostId p = pin_key hostId q <-> p = q) as ->; [|tauto].
    unfold pin_key. split; [|by intros ->]. intros E. apply app_inv_head in E. congruence. }
  assert (pin_key hostId p ∉ drop_pins hostId pins); [|tauto].
  intros [_ H]%elem_filter_bool. apply negb_true_iff in H.
  assert (starts_with (hostId ++ [colon]) (pin_key hostId p) = true); [|congruence].
  apply starts_with_spec. exists p. unfold pin_key. by rewrite <- app_assoc.
Qed.

(** The loop removes the first [toEvict] rows it may. *)
Definition victims (pins : list jstr) (hostId path : jstr) (rows : list (jstr * Z)) (n : Z) : list (jstr * Z) :=
  take (Z.to_nat n) (List.filter (fun r => negb (keep_row pins hostId path r.1)) rows).
Lemma evict_victims pins h path rows n b :
  evict pins h path rows n b = fold_left (fun b r => b_remove b h r.1) (victims pins h path rows n) b.
Proof.
  unfold victims. revert n b. induction rows as [|r rows IH]; intros n b; simpl; [by rewrite take_nil|].
  destruct (n <=? 0) eqn:E; breflect.
  - by replace (Z.to_nat n) with O by lia.
  - destruct (keep_row pins h path r.1); simpl; [apply IH|].
    replace (Z.to_nat n) with (S (Z.to_nat (n - 1))) by lia. simpl. apply IH.
Qed.

Lemma inv_fold_remove h (rows : list (jstr * Z)) b : b_inv b -> b_inv (fold_left (fun b r => b_remove b h r.1) rows b).
Proof. revert b. induction rows as [|r rows IH]; simpl; auto using inv_remove. Qed.
Lemma get_fold_remove h (rows : list (jstr * Z)) b h' p : good_host h -> good_host h' ->
  b_get (fold_left (fun b r => b_remove b h r.1) rows b) h' p =
  if decide (h = h' /\ p ∈ rows.*1) then None else b_get b h' p.
Proof.
  intros Hh Hh'. revert b. induction rows as [|r rows IH]; intros b; simpl.
  { rewrite decide_False; [done|]. intros [_ H]. by apply elem_of_nil in H. }
  rewrite IH, get_remove by done. csimpl. repeat case_decide; try done; exfalso; set_solver.
Qed.
Lemma list_path b h p : b_inv b -> good_host h -> (p ∈ (b_list b h).*1 <-> exists r, b_get b h p = Some r).
Proof.
  intros Hb Hh. rewrite list_elem_of_fmap. split.
  - intros ([p' t] & -> & (j & E)%elem_list); eauto.
  - intros ([j t] & E). exists (p, t). split; [done|]. apply elem_list; eauto.
Qed.

Lemma sorted_filter {A} (R : A -> A -> Prop) (f : A -> bool) l :
  StronglySorted R l -> StronglySorted R (List.filter f l).
Proof.
  induction 1 as [|x l _ IH Hall]; simpl; [constructor|]. case_match; [|done]. constructor; [done|].
  apply Forall_forall. intros y [Hy _]%elem_filter_bool. rewrite Forall_forall in Hall. auto.
Qed.
Lemma sorted_take_drop {A} (R : A -> A -> Prop) n l x y :
  StronglySorted R l -> x ∈ take n l -> y ∈ drop n l -> R x y.
Proof.
  revert n. induction l as [|z l IH]; intros [|n] Hs Hx Hy; simpl in *; try by apply elem_of_nil in Hx.
  apply StronglySorted_inv in Hs as [Hs Hall]. apply elem_of_cons in Hx as [->|Hx]; [|eauto].
  rewrite Forall_forall in Hall. apply Hall. eapply (subseteq_drop n); eauto.
Qed.

Section Put.
Variables (maxEntries now : Z) (h path : jstr) (entries : list Entry) (c : Cache).
Hypothesis Hinv : b_inv (backend c).
Hypothesis Hh : good_host h.

Definition stored : B := b_put (backend c) h path (json_stringify (JArr (entryToJson <$> entries))) now.
Definition over : Z := Z.of_nat (length (b_list stored h)) - maxEntries.
Definition gone : list (jstr * Z) := victims (pinned c) h path (b_list stored h) over.
Notation after := (putLocked maxEntries now h path entries c).

Lemma stored_inv : b_inv stored.
Proof. by apply inv_put. Qed.
Lemma after_backend : backend after = fold_left (fun b r => b_remove b h r.1) gone stored.
Proof. apply evict_victims. Qed.
Lemma after_inv : b_inv (backend after).
Proof. rewrite after_backend. apply inv_fold_remove, stored_inv. Qed.
Lemma after_get h' p : good_host h' ->
  b_get (backend after) h' p = if decide (h = h' /\ p ∈ gone.*1) then None else b_get stored h' p.
Proof. intros. rewrite after_backend. by apply get_fold_remove. Qed.
Lemma gone_spec r : r ∈ gone -> r ∈ b_list stored h /\ keep_row (pinned c) h path r.1 = false.
Proof.
  intros H. apply (subseteq_take _ _) in H. apply elem_filter_bool in H as [H1 H2]. split; [done|]. by breflect.
Qed.
Lemma gone_kept p : p ∈ gone.*1 -> keep_row (pinned c) h path p = false.
Proof. intros (r & -> & Hr)%list_elem_of_fmap. by apply gone_spec. Qed.
(** What is listed afterwards and what was evicted make up what was listed. *)
Lemma split_list : Permutation (b_list stored h).*1 ((b_list (backend after) h).*1 ++ gone.*1).
Proof.
  assert (NoDup gone.*1) as Hg.
  { eapply sublist_NoDup; [apply (list_NoDup stored h), stored_inv|]. apply fmap_sublist.
    etransitivity; [apply sublist_take|]. generalize (b_list stored h). clear. intros l.
    induction l as [|x l IH]; simpl; [done|]. case_match; by constructor. }
  apply NoDup_Permutation.
  - apply list_NoDup, stored_inv.
  - apply NoDup_app. split; [apply list_NoDup, after_inv|]. split; [|done]. intros p Hp Hp'.
    apply list_path in Hp as [r Hp]; [|apply after_inv|done]. rewrite after_get, decide_True in Hp by done. done.
  - intros p. rewrite elem_of_app, !list_path by (done || apply stored_inv || apply after_inv).
    setoid_rewrite after_get; [|done]. split.
    + intros Hr. case_decide as E; [right; tauto | by left].
    + case_decide as E; [intros [[r ?]|Hp]; [done|] | intros [?|Hp]; [done | tauto]].
      apply list_path; [apply stored_inv | done |]. apply list_elem_of_fmap in Hp as (r & -> & Hr).
      apply list_elem_of_fmap_2. by apply gone_spec in Hr as [? _].
Qed.
Lemma gone_length : length gone = Nat.min (Z.to_nat over) (length (List.filter (fun r => negb (keep_row (pinned c) h path r.1)) (b_list stored h))).
Proof. apply length_take. Qed.
Lemma list_after p t : (p, t) ∈ b_list (backend after) h -> (p, t) ∈ b_list stored h /\ p ∉ gone.*1.
Proof.
  intros (j & E)%elem_list; [|apply after_inv|done]. rewrite after_get in E by done. case_decide as Hn; [done|].
  split; [apply elem_list; eauto using stored_inv | tauto].
Qed.

Lemma after_capped :
  Z.of_nat (length (b_list (backend after) h)) <= maxEntries \/
  forall p, p ∈ (b_list (backend after) h).*1 -> keep_row (pinned c) h path p = true.
Proof.
  pose proof (Permutation_length split_list) as Hl. rewrite length_app, !length_fmap in Hl.
  pose proof gone_length as Hg. unfold over in Hg.
  match type of Hg with _ = Nat.min _ (length ?f) => destruct (decide (Z.to_nat (Z.of_nat (length (b_list stored h)) - maxEntries) <= length f)%nat) as [Hle|Hgt] end.
  - left. lia.
  - right. intros p ([p' t] & -> & [Hin Hn]%list_after)%list_elem_of_fmap. simpl.
    apply not_false_iff_true. intros Hk. apply Hn. unfold gone, victims. rewrite take_ge by (unfold over; lia).
    apply (list_elem_of_fmap_2' fst _ (p', t)); [|done]. apply elem_filter_bool. split; [done|]. simpl. by rewrite Hk.
Qed.
Lemma after_spared : Z.min maxEntries (Z.of_nat (length (b_list stored h))) <= Z.of_nat (length (b_list (backend after) h)).
Proof.
  pose proof (Permutation_length split_list) as Hl. rewrite length_app, !length_fmap in Hl.
  pose proof gone_length as Hg. unfold over in Hg. lia.
Qed.
Lemma after_oldest p t q u :
  (p, t) ∈ b_list stored h -> p ∉ (b_list (backend after) h).*1 -> (q, u) ∈ b_list (backend after) h ->
  keep_row (pinned c) h path q = false -> t <= u.
Proof.
  intros Hp Hn [Hq Hqn]%list_after Hk.
  assert (p ∈ gone.*1) as ([p' t'] & E & Hg)%list_elem_of_fmap.
  { apply (list_elem_of_fmap_2 fst) in Hp. simpl in Hp. rewrite split_list in Hp. apply elem_of_app in Hp as [?|?]; done. }
  simpl in E. subst p'. pose proof (gone_spec _ Hg) as [Hin _].
  assert (t' = t) as ->.
  { apply elem_list in Hin as (j & Ej); [|apply stored_inv|done]. apply elem_list in Hp as (j' & Ej'); [|apply stored_inv|done]. congruence. }
  assert ((q, u) ∈ drop (Z.to_nat over) (List.filter (fun r => negb (keep_row (pinned c) h path r.1)) (b_list stored h))) as Hd.
  { assert ((q, u) ∈ List.filter (fun r => negb (keep_row (pinned c) h path r.1)) (b_list stored h)) as Hf.
    { apply elem_filter_bool. split; [done|]. simpl. by rewrite Hk. }
    rewrite <- (take_drop (Z.to_nat over)) in Hf. apply elem_of_app in Hf as [Hf|Hf]; [|done].
    destruct Hqn. apply (list_elem_of_fmap_2' fst _ (q, u)); done. }
  assert (t - u <= 0); [|lia].
  apply (sorted_take_drop (fun x y : jstr * Z => x.2 - y.2 <= 0) _ _ (p, t) (q, u) (sorted_filter _ _ _ (list_sorted stored h)) Hg Hd).
Qed.
End Put.

Lemma entries_wf es : json_wf (JArr (entryToJson <$> es)) = true.
Proof.
  rewrite json_wf_arr. apply forallb_forall_true, Forall_fmap, Forall_forall.
  intros [n p d [z|] [mt|] [mo|] [m|] [cr|] sy [st|] [cc|]] _; unfold compose, entryToJson; rewrite json_wf_obj; vm_compute; reflexivity.
Qed.

(** Storing a listing keeps the cache capped without losing what matters: the
    listing just stored reads back as written; other hosts' rows and this host's
    pinned rows are untouched; afterwards the host has at most [maxEntries]
    listings, unless all that is left is pinned or the one just stored; rows are
    evicted only when over the cap, and a row is never evicted while an older
    evictable one is kept. *)
Theorem put_capped (maxEntries now : Z) (h path : jstr) (entries : list Entry) (c : Cache) :
  b_inv (backend c) -> good_host h ->
  let c' := putLocked maxEntries now h path entries c in
  let before := b_list (stored now h path entries c) h in
  let listed := b_list (backend c') h in
  b_inv (backend c') /\
  get h path c' = Some {| cached_entries := entryToJson <$> entries; fetchedAt := now |} /\
  (forall h' p, good_host h' -> h' <> h -> b_get (backend c') h' p = b_get (backend c) h' p) /\
  (forall p, p <> path -> pin_key h p ∈ pinned c -> b_get (backend c') h p = b_get (backend c) h p) /\
  (Z.of_nat (length listed) <= maxEntries \/ forall p, p ∈ listed.*1 -> pin_key h p ∈ pinned c \/ p = path) /\
  Z.min maxEntries (Z.of_nat (length before)) <= Z.of_nat (length listed) /\
  (forall p t q u, (p, t) ∈ before -> p ∉ listed.*1 -> (q, u) ∈ listed -> pin_key h q ∉ pinned c -> q <> path -> t <= u).
Proof.
  intros Hinv Hh c' before listed.
  assert (forall p, keep_row (pinned c) h path p = true <-> pin_key h p ∈ pinned c \/ p = path) as Hk.
  { intros p. unfold keep_row. rewrite orb_true_iff, set_has_spec, bool_decide_eq_true. done. }
  assert (forall p, pin_key h p ∈ pinned c \/ p = path -> p ∉ (gone maxEntries now h path entries c).*1) as Hkeep.
  { intros p Hp Hg. apply gone_kept in Hg; [|done..]. apply Hk in Hp. congruence. }
  split; [by apply after_inv|]. split; [|split; [|split; [|split; [|split]]]].
  - unfold get, c'. rewrite after_get, decide_False by (done || (intros [_ Hg]; revert Hg; apply Hkeep; auto)).
    unfold stored. rewrite get_put, decide_True by done. by rewrite json_roundtrip by apply entries_wf.
  - intros h' p Hh' Hne. unfold c'. rewrite after_get, decide_False by (done || naive_solver).
    unfold stored. rewrite get_put, decide_False by (done || naive_solver). done.
  - intros p Hne Hp. unfold c'. rewrite after_get, decide_False by (done || (intros [_ Hg]; revert Hg; apply Hkeep; auto)).
    unfold stored. rewrite get_put, decide_False by (done || naive_solver). done.
  - destruct (after_capped maxEntries now h path entries c Hinv Hh) as [?|H]; [by left|]. right. intros p Hp. by apply Hk, H.
  - by apply after_spared.
  - intros p t q u Hp Hn Hq H1 H2. eapply after_oldest; eauto. apply not_true_iff_false. rewrite Hk. tauto.
Qed.
End Cache.
Arguments Cache B : clear implicits.

(** ** The in-memory backend *)

Module MemoryListingBackend.
Definition rows : Type := list (jstr * row).
(** The key [host + NUL + path]. *)
Definition k (h p : jstr) : jstr := h ++ 0 :: p.
Definition prefix (h : jstr) : jstr := h ++ [0].
Definition get_row (r : rows) (h p : jstr) : option row := map_get (k h p) r.
Definition put (r : rows) (h p json : jstr) (fetchedAt : Z) : rows := map_set (k h p) (json, fetchedAt) r.
Definition list_ (r : rows) (h : jstr) : list (jstr * Z) :=
  sort_by (fun a b => a.2 - b.2)
    ((fun e => (drop (length h + 1) e.1, e.2.2)) <$> List.filter (fun e => starts_with (prefix h) e.1) r).
Definition remove (r : rows) (h p : jstr) : rows := map_delete (k h p) r.
Definition removeHost (r : rows) (h : jstr) : rows :=
  fold_left (fun r' key => if starts_with (prefix h) key then map_delete key r' else r') (keys r) r.

Lemma k_prefix h p : k h p = prefix h ++ p.
Proof. unfold k, prefix. by rewrite <- app_assoc. Qed.
Lemma k_inj_host h p h' p' : 0 ∉ h -> 0 ∉ h' -> k h p = k h' p' -> h = h' /\ p = p'.
Proof. apply sep_inj. Qed.
Lemma prefix_of_k h h' p : 0 ∉ h -> 0 ∉ h' -> starts_with (prefix h) (k h' p) = true <-> h = h'.
Proof.
  intros H1 H2. rewrite starts_with_spec. split.
  - intros [t E]. rewrite <- k_prefix in E. by apply k_inj_host in E as [-> _].
  - intros ->. exists p. apply k_prefix.
Qed.
Lemma k_ne h p h' p' : 0 ∉ h -> 0 ∉ h' -> k h p = k h' p' <-> h = h' /\ p = p'.
Proof. intros. split; [by apply k_inj_host | by intros [-> ->]]. Qed.

Lemma get_fold_delete h ks (r : rows) key :
  map_get key (fold_left (fun r' key => if starts_with (prefix h) key then map_delete key r' else r') ks r) =
  if decide (key ∈ ks /\ starts_with (prefix h) key = true) then None else map_get key r.
Proof.
  revert r. induction ks as [|x ks IH]; intros r; cbn [fold_left].
  { case_decide as H; [|done]. destruct H as [H _]. by apply elem_of_nil in H. }
  rewrite IH. destruct (starts_with (prefix h) x) eqn:E; [rewrite map_get_delete|];
    repeat case_decide; subst; try done; exfalso; rewrite ?elem_of_cons in *; intuition congruence.
Qed.
Lemma inv_fold_delete h ks (r : rows) : NoDup (keys r) ->
  NoDup (keys (fold_left (fun r' key => if starts_with (prefix h) key then map_delete key r' else r') ks r)).
Proof. revert r. induction ks as [|x ks IH]; intros r Hr; simpl; [done|]. apply IH. case_match; auto with jscoll. Qed.

Lemma elem_list_ (r : rows) h p t : NoDup (keys r) -> ((p, t) ∈ list_ r h <-> exists j, get_row r h p = Some (j, t)).
Proof.
  intros Hnd. unfold list_, get_row. rewrite elem_sort_by, list_elem_of_fmap. split.
  - intros ([key [j t']] & E & [Hin Hp]%elem_filter_bool). simplify_eq/=. apply starts_with_spec in Hp as [q ->].
    exists j. apply elem_map_get; [done|]. rewrite k_prefix.
    unfold prefix in *. by rewrite drop_app_length' by (rewrite length_app; simpl; lia).
  - intros (j & E%map_get_Some_elem). exists (k h p, (j, t)). split.
    + simpl. rewrite k_prefix. unfold prefix. by rewrite drop_app_length' by (rewrite length_app; simpl; lia).
    + apply elem_filter_bool. split; [done|]. simpl. rewrite k_prefix. apply starts_with_app.
Qed.
Lemma NoDup_list_ (r : rows) h : NoDup (keys r) -> NoDup (list_ r h).*1.
Proof.
  intros Hnd. unfold list_. rewrite (fmap_Permutation fst _ _ (sort_by_perm _ _)).
  induction r as [|[key v] r IH]; csimpl; [constructor|]. csimpl in Hnd. apply NoDup_cons in Hnd as [Hn Hd].
  destruct (starts_with (prefix h) key) eqn:E; csimpl; [|auto]. apply NoDup_cons. split; [|auto].
  intros ([q t] & Eq & ([key' v'] & E' & [Hin Hp]%elem_filter_bool)%list_elem_of_fmap)%list_elem_of_fmap.
  injection E' as -> ->. simpl in *. apply Hn. apply starts_with_spec in E as [a ->], Hp as [b ->].
  unfold prefix in Eq. rewrite !drop_app_length' in Eq by (rewrite length_app; simpl; lia). subst b.
  by apply (list_elem_of_fmap_2' fst _ (prefix h ++ a, v')).
Qed.

#[global] Instance backend_ok : ListingBackend rows.
Proof.
  refine {| b_get := get_row; b_put := put; b_list := list_; b_remove := remove; b_removeHost := removeHost;
            good_host := fun h => 0 ∉ h; b_inv := fun r => NoDup (keys r) |}.
  - intros. by apply NoDup_keys_set.
  - intros. by apply NoDup_keys_delete.
  - intros. by apply inv_fold_delete.
  - intros r h p j t h' p' H1 H2. unfold get_row, put. rewrite map_get_set.
    pose proof (k_ne h p h' p' H1 H2). repeat case_decide; try done; tauto.
  - intros r h p h' p' H1 H2. unfold get_row, remove. rewrite map_get_delete.
    pose proof (k_ne h p h' p' H1 H2). repeat case_decide; try done; tauto.
  - intros r h h' p' H1 H2. unfold get_row, removeHost. rewrite get_fold_delete. pose proof (prefix_of_k h h' p' H1 H2).
    destruct (decide (k h' p' ∈ keys r)) as [Hin|Hin].
    + repeat case_decide; try done; tauto.
    + rewrite decide_False by tauto. apply map_get_None in Hin. rewrite Hin. by case_decide.
  - intros r h. apply sort_by_sorted. apply (Comparator_key snd Z.sub), _.
  - intros. by apply NoDup_list_.
  - intros. by apply elem_list_.
Defined.
End MemoryListingBackend.

(** ** A concrete cache *)

Lemma put_capped_witness :
  let c : Cache MemoryListingBackend.rows :=
    {| backend := [(js "h" ++ 0 :: js "/a", ([], 1)); (js "h" ++ 0 :: js "/b", ([], 2)); (js "h" ++ 0 :: js "/c", ([], 3))];
       pinned := [js "h:/a"] |} in
  let c' := putLocked (C := plain_codec) 2 9 (js "h") (js "/d") [] c in
  (b_list (backend c') (js "h")).*1 = [js "/a"; js "/d"] /\ b_inv (backend c') /\
  get (C := plain_codec) (js "h") (js "/d") c' = Some {| cached_entries := []; fetchedAt := 9 |}.
Proof.
  cbv zeta. split; [vm_compute; reflexivity|].
  edestruct (put_capped (C := plain_codec) (B := MemoryListingBackend.rows) 2 9 (js "h") (js "/d") []) as (H1 & H2 & _);
    [..|split; [exact H1 | exact H2]].
  - apply (bool_decide_unpack (NoDup (keys _))). vm_compute. exact I.
  - apply (bool_decide_unpack (0 ∉ js "h")). vm_compute. exact I.
Defined.
