(* ===== verification/Collections.v ===== *)
(** * Favorites, bookmarks, pins and searches

    [core/storage/collections.ts]: lists of records persisted under one key each
    in the Flutter string-list encoding, and [state/collections.ts]: the store
    that persists every change first and then mirrors it in memory. *)

From Stdlib Require Import ZArith Lia Bool.
From Stdlib Require List.
From S2P Require Import Prelude JsCollections JsString Json Errors Storage ListingCache Host.
Local Open Scope js_scope.

Record Favorite := { fav_hostId : jstr; fav_path : jstr; fav_label : jstr }.
Record Bookmark := { bm_hostId : jstr; bm_remotePath : jstr; bm_tag : option jstr; bm_color : option Z }.
Record Pin := { pin_hostId : jstr; pin_remotePath : jstr }.
Record SavedSearch := { ss_name : jstr; ss_query : jstr }.
#[export] Instance Pin_eq_dec : EqDecision Pin.
Proof. solve_decision. Defined.

Definition FAVORITES_KEY : jstr := js "rfe_favorites_v1".
Definition BOOKMARKS_KEY : jstr := js "bookmarks_v1".
Definition PINS_KEY : jstr := js "offline_pins_v1".
Definition RECENT_SEARCHES_KEY : jstr := js "rfe_recent_searches_v1".
Definition SAVED_SEARCHES_KEY : jstr := js "rfe_saved_searches_v1".
Definition MAX_RECENT_SEARCHES : nat := 10.

(** ** Parsers and their inverses *)

(** [str(v)] tested for truth: a non-empty string. *)
Definition truthy_str (v : option json) : option jstr := truthy (as_str v).
Definition parseFavorite (v : json) : option Favorite :=
  match v with
  | JObj o => match truthy_str (field (js "hostId") o), truthy_str (field (js "path") o), as_str (field (js "label") o) with
              | Some h, Some p, Some l => Some {| fav_hostId := h; fav_path := p; fav_label := l |}
              | _, _, _ => None
              end
  | _ => None
  end.
Definition parseBookmark (v : json) : option Bookmark :=
  match v with
  | JObj o => match truthy_str (field (js "hostId") o), truthy_str (field (js "remotePath") o) with
              | Some h, Some p => Some {| bm_hostId := h; bm_remotePath := p;
                  bm_tag := truthy_str (field (js "tag") o); bm_color := as_num (field (js "color") o) |}
              | _, _ => None
              end
  | _ => None
  end.
Definition parsePin (v : json) : option Pin :=
  match v with
  | JObj o => match truthy_str (field (js "hostId") o), truthy_str (field (js "remotePath") o) with
              | Some h, Some p => Some {| pin_hostId := h; pin_remotePath := p |}
              | _, _ => None
              end
  | _ => None
  end.
Definition parseSavedSearch (v : json) : option SavedSearch :=
  match v with
  | JObj o => Some {| ss_name := str_or [] (field (js "name") o); ss_query := str_or [] (field (js "query") o) |}
  | _ => None
  end.

(** The objects as [JSON.stringify] sees them. *)
Definition favorite_obj (f : Favorite) : json :=
  JObj [(js "hostId", JStr (fav_hostId f)); (js "path", JStr (fav_path f)); (js "label", JStr (fav_label f))].
Definition bookmark_obj (b : Bookmark) : json :=
  JObj ([(js "hostId", JStr (bm_hostId b)); (js "remotePath", JStr (bm_remotePath b))]
        ++ opt_str "tag" (bm_tag b) ++ opt_num "color" (bm_color b)).
Definition pin_obj (p : Pin) : json :=
  JObj [(js "hostId", JStr (pin_hostId p)); (js "remotePath", JStr (pin_remotePath p))].
Definition saved_obj (s : SavedSearch) : json :=
  JObj [(js "name", JStr (ss_name s)); (js "query", JStr (ss_query s))].

(** ** List operations *)

Definition same_favorite (h p : jstr) (f : Favorite) : bool := bool_decide (fav_hostId f = h) && bool_decide (fav_path f = p).
Definition same_bookmark (h p : jstr) (b : Bookmark) : bool := bool_decide (bm_hostId b = h) && bool_decide (bm_remotePath b = p).
Definition same_pin (h p : jstr) (x : Pin) : bool := bool_decide (pin_hostId x = h) && bool_decide (pin_remotePath x = p).
Definition reject {A} (f : A -> bool) (l : list A) : list A := List.filter (fun x => negb (f x)) l.

Definition toggleFavorite (favs : list Favorite) (fav : Favorite) : list Favorite :=
  if List.existsb (same_favorite (fav_hostId fav) (fav_path fav)) favs
  then reject (same_favorite (fav_hostId fav) (fav_path fav)) favs else favs ++ [fav].
Definition upsertBookmark (items : list Bookmark) (b : Bookmark) : list Bookmark :=
  reject (same_bookmark (bm_hostId b) (bm_remotePath b)) items ++ [b].
Definition removeBookmark (items : list Bookmark) (h p : jstr) : list Bookmark := reject (same_bookmark h p) items.
Definition addPin (pins : list Pin) (p : Pin) : list Pin :=
  if List.existsb (same_pin (pin_hostId p) (pin_remotePath p)) pins then pins else pins ++ [p].
Definition removePin (pins : list Pin) (h p : jstr) : list Pin := reject (same_pin h p) pins.
Definition recordSearch (recent : list jstr) (query : jstr) : list jstr :=
  let q := trim query in
  if nonempty q then take MAX_RECENT_SEARCHES (q :: reject (fun s => bool_decide (s = q)) recent) else recent.
Definition isPinned (pins : list Pin) (h p : jstr) : bool := List.existsb (same_pin h p) pins.

Section Persisted.
Context `{C : JsonCodec}.

(** ** [RecordList] *)

Record RecordList (T : Type) := { rl_key : jstr; rl_parse : json -> option T; rl_serialize : T -> json }.
Arguments rl_key {T}. Arguments rl_parse {T}. Arguments rl_serialize {T}.

(** A string item holds JSON text, or is a plain string. *)
Definition item_value (item : json) : json :=
  match item with JStr s => default item (json_parse s) | _ => item end.
Definition parse_list {T} (rl : RecordList T) (raw : option jstr) : list T :=
  match raw with
  | None => []
  | Some r => match json_parse r with
              | Some (JArr arr) => omap (fun i => rl_parse rl (item_value i)) arr
              | _ => []
              end
  end.
Definition load {T} (rl : RecordList T) : IO (list T) :=
  raw <- KeyValueStore.get (rl_key rl);; ret (parse_list rl raw).
Definition encode_item {T} (rl : RecordList T) (i : T) : json :=
  match rl_serialize rl i with JStr s => JStr s | j => JStr (json_stringify j) end.
Definition save {T} (rl : RecordList T) (items : list T) : IO unit :=
  KeyValueStore.set (rl_key rl) (json_stringify (JArr (encode_item rl <$> items))).

Definition favoritesList : RecordList Favorite := {| rl_key := FAVORITES_KEY; rl_parse := parseFavorite; rl_serialize := favorite_obj |}.
Definition bookmarksList : RecordList Bookmark := {| rl_key := BOOKMARKS_KEY; rl_parse := parseBookmark; rl_serialize := bookmark_obj |}.
Definition pinsList : RecordList Pin := {| rl_key := PINS_KEY; rl_parse := parsePin; rl_serialize := pin_obj |}.
Definition recentSearchesList : RecordList jstr :=
  {| rl_key := RECENT_SEARCHES_KEY; rl_parse := fun v => as_str (Some v); rl_serialize := JStr |}.

(** Saved searches: one JSON list inside a string. *)
Definition parse_saved (raw : option jstr) : list SavedSearch :=
  match raw with
  | None => []
  | Some r =>
      match json_parse r with
      | Some (JStr s) => match json_parse s with Some (JArr l) => omap parseSavedSearch l | _ => [] end
      | Some (JArr l) => omap parseSavedSearch l
      | _ => []
      end
  end.
Definition loadSaved : IO (list SavedSearch) :=
  raw <- KeyValueStore.get SAVED_SEARCHES_KEY;; ret (parse_saved raw).
Definition saveSaved (items : list SavedSearch) : IO unit :=
  KeyValueStore.set SAVED_SEARCHES_KEY (json_stringify (JStr (json_stringify (JArr (saved_obj <$> items))))).

(** ** The store *)

Record CState := {
  c_loaded : bool;
  c_favorites : list Favorite;
  c_bookmarks : list Bookmark;
  c_pins : list Pin;
  c_recentSearches : list jstr;
  c_savedSearches : list SavedSearch;
  c_cachePins : list jstr     (** [listingCache.pinned] *)
}.
Definition set_favorites v s := {| c_loaded := c_loaded s; c_favorites := v; c_bookmarks := c_bookmarks s; c_pins := c_pins s;
  c_recentSearches := c_recentSearches s; c_savedSearches := c_savedSearches s; c_cachePins := c_cachePins s |}.
Definition set_bookmarks v s := {| c_loaded := c_loaded s; c_favorites := c_favorites s; c_bookmarks := v; c_pins := c_pins s;
  c_recentSearches := c_recentSearches s; c_savedSearches := c_savedSearches s; c_cachePins := c_cachePins s |}.
Definition set_pins h v s := {| c_loaded := c_loaded s; c_favorites := c_favorites s; c_bookmarks := c_bookmarks s; c_pins := v;
  c_recentSearches := c_recentSearches s; c_savedSearches := c_savedSearches s;
  c_cachePins := resync h (pin_remotePath <$> List.filter (fun p => bool_decide (pin_hostId p = h)) v) (c_cachePins s) |}.
Definition set_recent v s := {| c_loaded := c_loaded s; c_favorites := c_favorites s; c_bookmarks := c_bookmarks s; c_pins := c_pins s;
  c_recentSearches := v; c_savedSearches := c_savedSearches s; c_cachePins := c_cachePins s |}.
Definition set_saved v s := {| c_loaded := c_loaded s; c_favorites := c_favorites s; c_bookmarks := c_bookmarks s; c_pins := c_pins s;
  c_recentSearches := c_recentSearches s; c_savedSearches := v; c_cachePins := c_cachePins s |}.

(** [await save(next); set(...)]: memory changes only once the write succeeded. *)
Definition persist (write : IO unit) (f : CState -> CState) (sd : CState * Disk) : CState * Disk :=
  let (d', r) := write sd.2 in (if is_ok r then f sd.1 else sd.1, d').

Inductive COp :=
| ToggleFavorite (f : Favorite) | RemoveFavorite (h p : jstr)
| AddBookmark (b : Bookmark) | RemoveBookmark (h p : jstr)
| AddPin (h p : jstr) | RemovePin (h p : jstr)
| RecordSearch (q : jstr) | RemoveRecent (q : jstr) | ClearRecent
| AddSaved (s : SavedSearch) | RemoveSaved (name : jstr).
Definition run_cop (o : COp) (sd : CState * Disk) : CState * Disk :=
  let s := sd.1 in
  match o with
  | ToggleFavorite f => let next := toggleFavorite (c_favorites s) f in persist (save favoritesList next) (set_favorites next) sd
  | RemoveFavorite h p => let next := reject (same_favorite h p) (c_favorites s) in persist (save favoritesList next) (set_favorites next) sd
  | AddBookmark b => let next := upsertBookmark (c_bookmarks s) b in persist (save bookmarksList next) (set_bookmarks next) sd
  | RemoveBookmark h p => let next := removeBookmark (c_bookmarks s) h p in persist (save bookmarksList next) (set_bookmarks next) sd
  | AddPin h p => let next := addPin (c_pins s) {| pin_hostId := h; pin_remotePath := p |} in persist (save pinsList next) (set_pins h next) sd
  | RemovePin h p => let next := removePin (c_pins s) h p in persist (save pinsList next) (set_pins h next) sd
  | RecordSearch q => let next := recordSearch (c_recentSearches s) q in persist (save recentSearchesList next) (set_recent next) sd
  | RemoveRecent q => let next := reject (fun x => bool_decide (x = q)) (c_recentSearches s) in persist (save recentSearchesList next) (set_recent next) sd
  | ClearRecent => persist (save recentSearchesList []) (set_recent []) sd
  | AddSaved x => let next := x :: c_savedSearches s in persist (saveSaved next) (set_saved next) sd
  | RemoveSaved name => let next := reject (fun x => bool_decide (ss_name x = name)) (c_savedSearches s) in persist (saveSaved next) (set_saved next) sd
  end.
(** The queue runs the jobs one after another. *)
Definition run_cops (ops : list COp) (sd : CState * Disk) : CState * Disk := fold_left (fun sd o => run_cop o sd) ops sd.
Definition loadAll : M Disk jserror (CState -> CState) :=
  f <- load favoritesList;; b <- load bookmarksList;; p <- load pinsList;; r <- load recentSearchesList;; x <- loadSaved;;
  ret (fun s => {| c_loaded := true; c_favorites := f; c_bookmarks := b; c_pins := p; c_recentSearches := r;
                   c_savedSearches := x; c_cachePins := c_cachePins s |}).

(** ** Lemmas *)

(** An item the list can hold: it survives being written and read back. *)
Definition roundtrips {T} (rl : RecordList T) (i : T) : Prop := rl_parse rl (item_value (encode_item rl i)) = Some i.

Lemma parse_encoded {T} (rl : RecordList T) items : Forall (roundtrips rl) items ->
  parse_list rl (Some (json_stringify (JArr (encode_item rl <$> items)))) = items.
Proof.
  intros H. unfold parse_list. rewrite json_roundtrip.
  - induction H as [|i items Hi _ IH]; [done|]. cbn [fmap list_fmap omap list_omap]. by rewrite Hi, IH.
  - rewrite json_wf_arr. apply forallb_forall_true, Forall_fmap, Forall_forall. intros i _. unfold compose, encode_item. by case_match.
Qed.
Lemma obj_roundtrips {T} (rl : RecordList T) i fs : rl_serialize rl i = JObj fs -> json_wf (JObj fs) = true ->
  rl_parse rl (JObj fs) = Some i -> roundtrips rl i.
Proof. intros E Hw Hp. unfold roundtrips, encode_item. rewrite E. simpl. by rewrite json_roundtrip. Qed.
Lemma truthy_str_ok s : s <> [] -> truthy_str (Some (JStr s)) = Some s.
Proof. by destruct s. Qed.
Lemma truthy_str_nonempty v s : truthy_str v = Some s -> s <> [].
Proof. unfold truthy_str. by intros [_ ?]%truthy_Some. Qed.

Definition favorite_ok (f : Favorite) : bool := nonempty (fav_hostId f) && nonempty (fav_path f).
Definition bookmark_ok (b : Bookmark) : bool :=
  nonempty (bm_hostId b) && nonempty (bm_remotePath b) && match bm_tag b with Some t => nonempty t | None => true end.
Definition pin_ok (p : Pin) : bool := nonempty (pin_hostId p) && nonempty (pin_remotePath p).
(** Not itself JSON text. *)
Definition plain_text (q : jstr) : bool := match json_parse q with None => true | Some _ => false end.

Lemma nonempty_spec s : nonempty s = true <-> s <> [].
Proof. by destruct s. Qed.
Lemma favorite_roundtrips f : favorite_ok f = true -> roundtrips favoritesList f.
Proof.
  destruct f as [[|h0 h] [|p0 p] l]; try done. intros _. eapply obj_roundtrips; [reflexivity | vm_compute; reflexivity | reflexivity].
Qed.
Lemma bookmark_roundtrips b : bookmark_ok b = true -> roundtrips bookmarksList b.
Proof.
  destruct b as [[|h0 h] [|p0 p] [[|t0 t]|] [c|]]; try done; intros _;
    (eapply obj_roundtrips; [reflexivity | vm_compute; reflexivity | reflexivity]).
Qed.
Lemma pin_roundtrips p : pin_ok p = true -> roundtrips pinsList p.
Proof.
  destruct p as [[|h0 h] [|p0 p]]; try done. intros _. eapply obj_roundtrips; [reflexivity | vm_compute; reflexivity | reflexivity].
Qed.
Lemma recent_roundtrips q : plain_text q = true -> roundtrips recentSearchesList q.
Proof. unfold plain_text, roundtrips. simpl. by destruct (json_parse q). Qed.

(** What a load returns can be written back. *)
Lemma parsed_forall {T} (rl : RecordList T) (P : T -> Prop) raw :
  (forall v i, rl_parse rl v = Some i -> P i) -> Forall P (parse_list rl raw).
Proof.
  intros H. unfold parse_list. destruct raw as [r|]; [|constructor]. destruct (json_parse r) as [[]|]; try constructor.
  induction l as [|v l IH]; simpl; [constructor|]. destruct (rl_parse rl (item_value v)) eqn:E; [constructor; eauto | done].
Qed.
Lemma favorites_parsed raw : Forall (fun f => favorite_ok f = true) (parse_list favoritesList raw).
Proof.
  apply parsed_forall. intros v f. destruct v; try done. simpl. unfold favorite_ok. repeat case_goal; try done. intros [= <-]. simpl.
  rewrite andb_true_iff, !nonempty_spec. eauto using truthy_str_nonempty.
Qed.
Lemma bookmarks_parsed raw : Forall (fun b => bookmark_ok b = true) (parse_list bookmarksList raw).
Proof.
  apply parsed_forall. intros v b. destruct v; try done. simpl. unfold bookmark_ok.
  do 2 (case_goal; [|done]). intros [= <-]. simpl. rewrite !andb_true_iff, !nonempty_spec.
  repeat split; eauto using truthy_str_nonempty. destruct (truthy_str (field (js "tag") fields)) eqn:E; [|done].
  apply nonempty_spec. eauto using truthy_str_nonempty.
Qed.
Lemma pins_parsed raw : Forall (fun p => pin_ok p = true) (parse_list pinsList raw).
Proof.
  apply parsed_forall. intros v p. destruct v; try done. simpl. unfold pin_ok. repeat case_goal; try done. intros [= <-]. simpl.
  rewrite andb_true_iff, !nonempty_spec. eauto using truthy_str_nonempty.
Qed.
Lemma parse_saved_encoded items : parse_saved (Some (json_stringify (JStr (json_stringify (JArr (saved_obj <$> items)))))) = items.
Proof.
  unfold parse_saved. rewrite json_roundtrip by done. rewrite json_roundtrip.
  - induction items as [|[n q] items IH]; [done|]. cbn [fmap list_fmap omap list_omap]. by rewrite IH.
  - rewrite json_wf_arr. apply forallb_forall_true, Forall_fmap, Forall_forall. intros [n q] _. unfold compose, saved_obj.
    rewrite json_wf_obj. vm_compute. reflexivity.
Qed.
Lemma Forall_reject {A} (P : A -> Prop) f (l : list A) : Forall P l -> Forall P (reject f l).
Proof. rewrite !Forall_forall. intros H x [Hx _]%elem_filter_bool. auto. Qed.
Lemma Forall_snoc {A} (P : A -> Prop) (l : list A) x : Forall P l -> P x -> Forall P (l ++ [x]).
Proof. intros. apply Forall_app. auto. Qed.

(** ** Memory mirrors storage *)

Definition Mirror (sd : CState * Disk) : Prop :=
  let s := sd.1 in let stored {T} (rl : RecordList T) := parse_list rl (map_get (rl_key rl) (kv sd.2)) in
  c_favorites s = stored favoritesList /\ c_bookmarks s = stored bookmarksList /\ c_pins s = stored pinsList /\
  (c_recentSearches s = stored recentSearchesList /\ Forall (fun q => plain_text q = true) (c_recentSearches s)) /\
  c_savedSearches s = parse_saved (map_get SAVED_SEARCHES_KEY (kv sd.2)).
(** The pins the listing cache protects for a host are the host's pins. *)
Definition PinsSynced (h : jstr) (s : CState) : Prop :=
  forall p, pin_key h p ∈ c_cachePins s <-> {| pin_hostId := h; pin_remotePath := p |} ∈ c_pins s.

Definition op_ok (o : COp) : bool :=
  match o with
  | ToggleFavorite f => favorite_ok f
  | AddBookmark b => bookmark_ok b
  | AddPin h p => pin_ok {| pin_hostId := h; pin_remotePath := p |} && negb (includes_char colon h)
  | RemovePin h _ => negb (includes_char colon h)
  | RecordSearch q => plain_text (trim q)
  | _ => true
  end.

Lemma persist_set k v f (sd : CState * Disk) : exists fs,
  persist (KeyValueStore.set k v) f sd = (sd.1, with_faults fs sd.2) \/
  persist (KeyValueStore.set k v) f sd = (f sd.1, with_kv (map_set k v) (with_faults fs sd.2)).
Proof.
  unfold persist, KeyValueStore.set. destruct (io_cases (fun d => (with_kv (map_set k v) d, tt)) sd.2) as [fs [E|E]];
    exists fs; rewrite E; [by left | by right].
Qed.
Lemma map_get_other (k k' v : jstr) m : bool_decide (k = k') = false -> map_get k' (map_set k v m) = map_get k' m.
Proof. intros. breflect. by apply map_get_set_ne. Qed.

Ltac other_keys :=
  repeat match goal with
         | |- context [map_get ?k' (map_set ?k _ _)] => rewrite (map_get_other k k') by (vm_compute; reflexivity)
         end.
(** A rejected write changes nothing; after a write the other lists are as before. *)
Ltac mirror_write f sd :=
  unfold save, saveSaved;
  match goal with
  | |- context [persist (KeyValueStore.set ?k ?v) _ _] =>
      let fs := fresh in let E := fresh in
      destruct (persist_set k v f sd) as [fs [E|E]]; rewrite E; [done|];
      unfold Mirror; cbn -[map_get map_set parse_list parse_saved]; other_keys
  end.
Lemma favorites_saved_ok favs f : Forall (fun f => favorite_ok f = true) favs -> favorite_ok f = true ->
  Forall (fun f => favorite_ok f = true) (toggleFavorite favs f).
Proof. unfold toggleFavorite. intros. case_match; auto using Forall_reject, Forall_snoc. Qed.
Lemma pins_saved_ok pins p : Forall (fun f => pin_ok f = true) pins -> pin_ok p = true ->
  Forall (fun f => pin_ok f = true) (addPin pins p).
Proof. unfold addPin. intros. case_match; auto using Forall_snoc. Qed.
Lemma recent_saved_ok rs q : Forall (fun f => plain_text f = true) rs -> plain_text (trim q) = true ->
  Forall (fun f => plain_text f = true) (recordSearch rs q).
Proof. unfold recordSearch. intros. case_match; [|done]. apply Forall_take. constructor; [done|]. by apply Forall_reject. Qed.

(** Writing one list leaves memory and storage in agreement. *)
Lemma mirror_favorites next sd : Mirror sd -> Forall (fun f => favorite_ok f = true) next ->
  Mirror (persist (save favoritesList next) (set_favorites next) sd).
Proof.
  intros (H1 & H2 & H3 & [H4 H4'] & H5) Hn. mirror_write (set_favorites next) sd.
  split; [|done]. rewrite map_get_set_eq, parse_encoded; [done|]. eapply Forall_impl; [exact Hn | apply favorite_roundtrips].
Qed.
Lemma mirror_bookmarks next sd : Mirror sd -> Forall (fun f => bookmark_ok f = true) next ->
  Mirror (persist (save bookmarksList next) (set_bookmarks next) sd).
Proof.
  intros (H1 & H2 & H3 & [H4 H4'] & H5) Hn. mirror_write (set_bookmarks next) sd.
  split; [done|]. split; [|done]. rewrite map_get_set_eq, parse_encoded; [done|]. eapply Forall_impl; [exact Hn | apply bookmark_roundtrips].
Qed.
Lemma mirror_pins h next sd : Mirror sd -> Forall (fun f => pin_ok f = true) next ->
  Mirror (persist (save pinsList next) (set_pins h next) sd).
Proof.
  intros (H1 & H2 & H3 & [H4 H4'] & H5) Hn. mirror_write (set_pins h next) sd.
  split; [done|]. split; [done|]. split; [|done]. rewrite map_get_set_eq, parse_encoded; [done|]. eapply Forall_impl; [exact Hn | apply pin_roundtrips].
Qed.
Lemma mirror_recent next sd : Mirror sd -> Forall (fun f => plain_text f = true) next ->
  Mirror (persist (save recentSearchesList next) (set_recent next) sd).
Proof.
  intros (H1 & H2 & H3 & [H4 H4'] & H5) Hn. mirror_write (set_recent next) sd.
  do 3 (split; [done|]). split; [|done]. split; [|done]. rewrite map_get_set_eq, parse_encoded; [done|]. eapply Forall_impl; [exact Hn | apply recent_roundtrips].
Qed.
Lemma mirror_saved next sd : Mirror sd -> Mirror (persist (saveSaved next) (set_saved next) sd).
Proof.
  intros (H1 & H2 & H3 & [H4 H4'] & H5). mirror_write (set_saved next) sd.
  do 4 (split; [done|]). by rewrite map_get_set_eq, parse_saved_encoded.
Qed.
Lemma run_cop_mirror o sd : Mirror sd -> op_ok o = true -> Mirror (run_cop o sd).
Proof.
  intros HM. pose proof HM as (H1 & H2 & H3 & [H4 H4'] & H5). cbv zeta in *.
  pose proof (favorites_parsed (map_get FAVORITES_KEY (kv sd.2))) as Hf. simpl in H1. rewrite <- H1 in Hf.
  pose proof (bookmarks_parsed (map_get BOOKMARKS_KEY (kv sd.2))) as Hb. simpl in H2. rewrite <- H2 in Hb.
  pose proof (pins_parsed (map_get PINS_KEY (kv sd.2))) as Hp. simpl in H3. rewrite <- H3 in Hp.
  destruct o; simpl; intros Ho; breflect;
    eauto using mirror_favorites, mirror_bookmarks, mirror_pins, mirror_recent, mirror_saved, favorites_saved_ok,
      pins_saved_ok, recent_saved_ok, Forall_reject, Forall_snoc, Forall_nil_2.
Qed.

(** *** Pins and the listing cache *)

Lemma resync_other h h' paths pins p : colon ∉ h -> colon ∉ h' -> h <> h' ->
  pin_key h p ∈ resync h' paths pins <-> pin_key h p ∈ pins.
Proof.
  intros Hc Hc' Hne.
  assert (forall q, pin_key h p = pin_key h' q -> False) as Hinj.
  { intros q E. by apply sep_inj in E as [? _]. }
  unfold resync.
  assert (forall acc, pin_key h p ∈ fold_left (fun s q => set_add (pin_key h' q) s) paths acc <-> pin_key h p ∈ acc) as ->.
  { induction paths as [|q paths IH]; intros acc; simpl; [done|]. rewrite IH, elem_set_add. split; [|by right].
    intros [E|?]; [|done]. by apply Hinj in E. }
  unfold drop_pins. rewrite elem_filter_bool. split; [tauto|]. intros Hin. split; [done|]. apply negb_true_iff, not_true_iff_false.
  intros [t Ht]%starts_with_spec. rewrite <- app_assoc in Ht. by apply (Hinj t).
Qed.
Lemma set_pins_synced h next s : PinsSynced h (set_pins h next s).
Proof.
  intros p. unfold set_pins. cbn [c_cachePins c_pins]. rewrite elem_resync, list_elem_of_fmap. split.
  - intros ([h' p'] & -> & [Hin E]%elem_filter_bool). breflect. simpl in *. by subst.
  - intros Hin. eexists. split; [|apply elem_filter_bool; split; [exact Hin | by apply bool_decide_eq_true]]. done.
Qed.
Lemma set_pins_other h h' next s : colon ∉ h -> colon ∉ h' -> h <> h' ->
  (forall p, {| pin_hostId := h; pin_remotePath := p |} ∈ next <-> {| pin_hostId := h; pin_remotePath := p |} ∈ c_pins s) ->
  PinsSynced h s -> PinsSynced h (set_pins h' next s).
Proof. intros ??? Hn Hs p. unfold set_pins. cbn [c_cachePins c_pins]. by rewrite resync_other, Hn. Qed.
Lemma same_pin_spec h p x : same_pin h p x = true <-> x = {| pin_hostId := h; pin_remotePath := p |}.
Proof. unfold same_pin. rewrite andb_true_iff, !bool_decide_eq_true. destruct x; simpl. naive_solver. Qed.
Lemma elem_addPin pins x y : y ∈ addPin pins x <-> y ∈ pins \/ y = x.
Proof.
  unfold addPin. destruct (List.existsb _ pins) eqn:E; [|by rewrite elem_snoc].
  split; [by left|]. intros [?| ->]; [done|]. apply List.existsb_exists in E as (z & Hz & E). apply same_pin_spec in E.
  apply list_elem_of_In. by destruct x; subst.
Qed.
Lemma elem_removePin pins h p y : y ∈ removePin pins h p <-> y ∈ pins /\ y <> {| pin_hostId := h; pin_remotePath := p |}.
Proof. unfold removePin, reject. by rewrite elem_filter_bool, negb_true_iff, <- not_true_iff_false, same_pin_spec. Qed.

Lemma run_cop_synced o sd h : op_ok o = true -> colon ∉ h -> PinsSynced h sd.1 -> PinsSynced h (run_cop o sd).1.
Proof.
  intros Ho Hc Hs. destruct o as [| | | |h' p'|h' p'| | | | |]; simpl in *; breflect; unfold save, saveSaved;
    match goal with
    | |- context [persist (KeyValueStore.set ?k ?v) ?f sd] => destruct (persist_set k v f sd) as [fs [E|E]]; rewrite E; [done|]; try exact Hs
    end.
  - match goal with H : includes_char _ _ = false |- _ => apply includes_char_false in H end.
    destruct (decide (h = h')) as [<-|Hne]; [apply set_pins_synced|]. apply set_pins_other; auto.
    intros p. rewrite elem_addPin. naive_solver.
  - match goal with H : includes_char _ _ = false |- _ => apply includes_char_false in H end.
    destruct (decide (h = h')) as [<-|Hne]; [apply set_pins_synced|]. apply set_pins_other; auto.
    intros p. rewrite elem_removePin. naive_solver.
Qed.

(** Memory never gets ahead of or behind storage: for any sequence of changes
    to favorites, bookmarks, pins and searches, whatever writes fail, what the
    store holds in memory is exactly what a reload would read; and for a host
    whose pins the listing cache protects, the protected paths stay that host's
    pins.  Items need a host and a path, and a search must not itself be JSON
    text (which the string-list encoding cannot hold). *)
Theorem collections_mirror (ops : list COp) (sd : CState * Disk) :
  Forall (fun o => op_ok o = true) ops -> Mirror sd ->
  Mirror (run_cops ops sd) /\
  forall h, colon ∉ h -> PinsSynced h sd.1 -> PinsSynced h (run_cops ops sd).1.
Proof.
  intros Hops. revert sd. induction Hops as [|o ops Ho _ IH]; intros sd HM; simpl; [done|].
  destruct (IH (run_cop o sd)) as [H1 H2]; [by apply run_cop_mirror|]. split; [done|].
  intros h Hc Hs. apply H2; [done|]. by apply run_cop_synced.
Qed.

(** A recent search that happens to be the text of a JSON number, boolean,
    null, array or object is stored but lost on the next start: a load reads the
    stored list as if the search had not been recorded. *)
Theorem recent_search_json_text_lost (q : jstr) (j : json) (rest : list jstr) :
  json_parse q = Some j -> (forall s, j <> JStr s) ->
  let stored l := Some (json_stringify (JArr (encode_item recentSearchesList <$> l))) in
  parse_list recentSearchesList (stored (q :: rest)) = parse_list recentSearchesList (stored rest).
Proof.
  intros Hq Hj. assert (forall l : list jstr, json_wf (JArr (encode_item recentSearchesList <$> l)) = true) as Hwf.
  { intros l. rewrite json_wf_arr. by induction l. }
  unfold parse_list. rewrite !json_roundtrip by apply Hwf. cbn [fmap list_fmap omap list_omap]. simpl. rewrite Hq. simpl.
  destruct j; try done. by destruct (Hj s).
Qed.
End Persisted.
Arguments rl_key {T}. Arguments rl_parse {T}. Arguments rl_serialize {T}.

(** ** Concrete runs *)

Lemma collections_mirror_witness :
  let s0 := {| c_loaded := true; c_favorites := []; c_bookmarks := []; c_pins := []; c_recentSearches := [];
               c_savedSearches := []; c_cachePins := [] |} in
  let d0 := {| kv := []; secure := []; cleaned := []; faults := [false; true; false] |} in
  let ops := [AddPin (js "h") (js "/a"); RecordSearch (js "cat"); RecordSearch (js "dog")] in
  Mirror (C := plain_codec) (run_cops (C := plain_codec) ops (s0, d0)) /\
  PinsSynced (js "h") (run_cops (C := plain_codec) ops (s0, d0)).1 /\
  c_recentSearches (run_cops (C := plain_codec) ops (s0, d0)).1 = [js "dog"].
Proof.
  cbv zeta.
  edestruct (collections_mirror (C := plain_codec)) as [H1 H2]; [| |split; [exact H1|split; [apply H2|vm_compute; reflexivity]]].
  - repeat constructor.
  - repeat split; constructor.
  - apply (bool_decide_unpack (colon ∉ js "h")). vm_compute. exact I.
  - intros p. simpl. split; intros H; by apply elem_of_nil in H.
Defined.

Lemma recent_search_json_text_lost_witness :
  let q := json_stringify (JsonCodec := plain_codec) (JNum 123) in
  parse_list (C := plain_codec) recentSearchesList
    (Some (json_stringify (JsonCodec := plain_codec) (JArr (encode_item (C := plain_codec) recentSearchesList <$> [q])))) = [].
Proof.
  cbv zeta. rewrite (recent_search_json_text_lost (C := plain_codec) _ (JNum 123) []); [vm_compute; reflexivity|vm_compute; reflexivity|done].
Defined.
