(* ===== verification/Settings.v ===== *)
(** * Settings

    [core/settings/settings.ts]: app defaults stored under one key per field, and
    sparse per-device overrides stored as one JSON object inside a string;
    [state/settings.ts]: their in-memory mirror.  Reads are functions of the
    stored keys; writes are storage calls that may fail.  A field of an override
    that is [undefined] is absent. *)

From Stdlib Require Import ZArith Lia Bool.
From Stdlib Require List.
From S2P Require Import Prelude JsCollections JsString Json Errors Storage Models Entries.
Local Open Scope js_scope.

Inductive EntryDensity := comfortable | compact.
Inductive ThemeMode := theme_system | theme_light | theme_dark.

Record AppDefaults := {
  gridView : bool;
  density : EntryDensity;
  sort : SortOrder;
  visibility : VisibilityPrefs;
  themeMode : ThemeMode;
  dynamicColor : bool;
  notificationsEnabled : bool;
  lowDiskThresholdBytes : Z;
  appLockEnabled : bool;
  amoledDark : bool;
  seedColor : option Z;
  watchedFolders : list jstr;
  compressDownloadsOnCellular : bool;
  preloadPreviewOnCellular : bool;
  weeklyDigestEnabled : bool
}.
Record DeviceOverrides := {
  o_gridView : option bool;
  o_density : option EntryDensity;
  o_sort : option SortOrder;
  o_visibility : option VisibilityPrefs
}.
Record SettingsState := { app : AppDefaults; overrides : list (jstr * DeviceOverrides) }.

Definition defaultAppDefaults : AppDefaults := {|
  gridView := false; density := comfortable; sort := defaultSort; visibility := defaultVisibility;
  themeMode := theme_system; dynamicColor := false; notificationsEnabled := true;
  lowDiskThresholdBytes := 1024 * 1024 * 1024; appLockEnabled := false; amoledDark := false; seedColor := None;
  watchedFolders := []; compressDownloadsOnCellular := true; preloadPreviewOnCellular := false;
  weeklyDigestEnabled := false |}.
Definition noOverrides : DeviceOverrides :=
  {| o_gridView := None; o_density := None; o_sort := None; o_visibility := None |}.

(** ** Keys and names *)

Module K.
Definition gridView : jstr := js "app.gridView".
Definition density : jstr := js "app.density".
Definition sortField : jstr := js "app.sortField".
Definition sortAscending : jstr := js "app.sortAscending".
Definition visHideDotfiles : jstr := js "app.visibility.hideDotfiles".
Definition visHiddenExtensions : jstr := js "app.visibility.hiddenExtensions".
Definition visHiddenNames : jstr := js "app.visibility.hiddenNames".
Definition themeMode : jstr := js "app.themeMode".
Definition dynamicColor : jstr := js "app.dynamicColor".
Definition notifications : jstr := js "app.notificationsEnabled".
Definition lowDiskThreshold : jstr := js "app.lowDiskThresholdBytes".
Definition appLock : jstr := js "app.appLockEnabled".
Definition amoled : jstr := js "app.amoledDark".
Definition seedColor : jstr := js "app.seedColor".
Definition watchedFolders : jstr := js "app.watchedFolders.v1".
Definition compressCellular : jstr := js "app.compressDownloadsOnCellular".
Definition preloadCellular : jstr := js "app.preloadPreviewOnCellular".
Definition weeklyDigest : jstr := js "app.weeklyDigestEnabled".
Definition overrides : jstr := js "settings.deviceOverrides.v1".
End K.

(** The string a value of an enumerated type is, and the allowed values. *)
Definition sort_field_name (f : SortField) : jstr :=
  match f with sort_name => js "name" | sort_size => js "size" | sort_date => js "date" | sort_type => js "type" end.
Definition density_name (d : EntryDensity) : jstr :=
  match d with comfortable => js "comfortable" | compact => js "compact" end.
Definition theme_name (t : ThemeMode) : jstr :=
  match t with theme_system => js "system" | theme_light => js "light" | theme_dark => js "dark" end.
Definition SORT_FIELDS : list SortField := [sort_name; sort_size; sort_date; sort_type].
Definition DENSITIES : list EntryDensity := [comfortable; compact].
Definition THEMES : list ThemeMode := [theme_system; theme_light; theme_dark].
(** [allowed.includes(v)]: the allowed value whose name is [v]. *)
Definition named {T} (name : T -> jstr) (allowed : list T) (v : option json) : option T :=
  match v with
  | Some (JStr s) => List.find (fun t => bool_decide (name t = s)) allowed
  | _ => None
  end.

Section Settings.
Context `{C : JsonCodec}.

(** ** Reading *)

Definition raw (s : store) (key : jstr) : option json :=
  match map_get key s with None => None | Some t => json_parse t end.
Definition read_bool (s : store) (key : jstr) (d : bool) : bool := bool_or d (raw s key).
Definition read_int {A} (s : store) (key : jstr) (f : Z -> A) (d : A) : A :=
  match raw s key with Some (JNum n) => f n | _ => d end.
Definition read_oneOf {T} (s : store) (key : jstr) (name : T -> jstr) (allowed : list T) (d : T) : T :=
  default d (named name allowed (raw s key)).
Definition decodeStringSet (v : option json) : list jstr :=
  match (match v with Some (JStr t) => json_parse t | _ => v end) with
  | Some (JArr arr) => strings_of arr
  | _ => []
  end.
Definition read_stringSet (s : store) (key : jstr) : list jstr := set_of (decodeStringSet (raw s key)).
Definition read_json (s : store) (key : jstr) : option json :=
  match raw s key with Some (JStr t) => json_parse t | v => v end.

Definition visibilityFromJson (m : list (jstr * json)) : VisibilityPrefs := {|
  hideDotfiles := bool_or true (field (js "hideDotfiles") m);
  hiddenExtensions := set_of (decodeStringSet (field (js "hiddenExtensions") m));
  hiddenNames := set_of (decodeStringSet (field (js "hiddenNames") m)) |}.
Definition visibilityToJson (v : VisibilityPrefs) : json := JObj [
  (js "hideDotfiles", JBool (hideDotfiles v));
  (js "hiddenExtensions", JArr (JStr <$> hiddenExtensions v));
  (js "hiddenNames", JArr (JStr <$> hiddenNames v))].

(** The properties of a non-null object; an array has none of those asked for. *)
Definition as_object (v : option json) : option (list (jstr * json)) :=
  match v with Some (JObj fs) => Some fs | Some (JArr _) => Some [] | _ => None end.
Definition is_empty_override (o : DeviceOverrides) : bool :=
  match o_gridView o, o_density o, o_sort o, o_visibility o with None, None, None, None => true | _, _, _, _ => false end.
Definition parse_override (v : json) : option DeviceOverrides :=
  match as_object (Some v) with
  | None => None
  | Some m =>
      let o := {|
        o_gridView := as_bool (field (js "gridView") m);
        o_density := named density_name DENSITIES (field (js "density") m);
        o_sort := match field (js "sortField") m with
                  | None => None
                  | f => Some {| sort_field := default sort_name (named sort_field_name SORT_FIELDS f);
                                 sort_ascending := bool_or true (field (js "sortAscending") m) |}
                  end;
        o_visibility := visibilityFromJson <$> as_object (field (js "visibility") m) |} in
      if is_empty_override o then None else Some o
  end.
Definition parse_overrides (blob : option json) : list (jstr * DeviceOverrides) :=
  match blob with
  | Some (JObj fs) => omap (fun kv => pair kv.1 <$> parse_override kv.2) fs
  | _ => []
  end.
Definition loadSettings (s : store) : SettingsState := {|
  app := {|
    gridView := read_bool s K.gridView (gridView defaultAppDefaults);
    density := read_oneOf s K.density density_name DENSITIES (density defaultAppDefaults);
    sort := {| sort_field := read_oneOf s K.sortField sort_field_name SORT_FIELDS sort_name;
               sort_ascending := read_bool s K.sortAscending true |};
    visibility := {| hideDotfiles := read_bool s K.visHideDotfiles true;
                     hiddenExtensions := read_stringSet s K.visHiddenExtensions;
                     hiddenNames := read_stringSet s K.visHiddenNames |};
    themeMode := read_oneOf s K.themeMode theme_name THEMES theme_system;
    dynamicColor := read_bool s K.dynamicColor (dynamicColor defaultAppDefaults);
    notificationsEnabled := read_bool s K.notifications (notificationsEnabled defaultAppDefaults);
    lowDiskThresholdBytes := read_int s K.lowDiskThreshold id (lowDiskThresholdBytes defaultAppDefaults);
    appLockEnabled := read_bool s K.appLock (appLockEnabled defaultAppDefaults);
    amoledDark := read_bool s K.amoled (amoledDark defaultAppDefaults);
    seedColor := read_int s K.seedColor Some None;
    watchedFolders := read_stringSet s K.watchedFolders;
    compressDownloadsOnCellular := read_bool s K.compressCellular (compressDownloadsOnCellular defaultAppDefaults);
    preloadPreviewOnCellular := read_bool s K.preloadCellular (preloadPreviewOnCellular defaultAppDefaults);
    weeklyDigestEnabled := read_bool s K.weeklyDigest (weeklyDigestEnabled defaultAppDefaults) |};
  overrides := parse_overrides (read_json s K.overrides) |}.

(** ** Effective values *)

Definition override_of (s : SettingsState) (hostId : jstr) : DeviceOverrides :=
  default noOverrides (map_get hostId (overrides s)).
Record View := { v_gridView : bool; v_density : EntryDensity; v_sort : SortOrder }.
Definition resolveView (s : SettingsState) (hostId : jstr) : View :=
  let o := override_of s hostId in
  {| v_gridView := default (gridView (app s)) (o_gridView o);
     v_density := default (density (app s)) (o_density o);
     v_sort := default (sort (app s)) (o_sort o) |}.
Definition resolveVisibility (s : SettingsState) (hostId : jstr) : VisibilityPrefs :=
  default (visibility (app s)) (map_get hostId (overrides s) ≫= o_visibility).

(** ** Writing *)

(** A field of [AppDefaults] with its new value. *)
Inductive AppSetting :=
| SetGridView (v : bool) | SetDensity (v : EntryDensity) | SetSort (v : SortOrder) | SetVisibility (v : VisibilityPrefs)
| SetThemeMode (v : ThemeMode) | SetDynamicColor (v : bool) | SetNotifications (v : bool) | SetLowDisk (v : Z)
| SetAppLock (v : bool) | SetAmoled (v : bool) | SetSeedColor (v : option Z) | SetWatched (v : list jstr)
| SetCompress (v : bool) | SetPreload (v : bool) | SetWeekly (v : bool).

Definition enc (key : jstr) (v : json) : IO unit := KeyValueStore.set key (json_stringify v).
(** A set of strings: a JSON list inside a string. *)
Definition enc_set (key : jstr) (v : list jstr) : IO unit := enc key (JStr (json_stringify (JArr (JStr <$> v)))).
Definition setApp (u : AppSetting) : IO unit :=
  match u with
  | SetGridView v => enc K.gridView (JBool v)
  | SetDensity v => enc K.density (JStr (density_name v))
  | SetSort v => enc K.sortField (JStr (sort_field_name (sort_field v)));; enc K.sortAscending (JBool (sort_ascending v))
  | SetVisibility v =>
      enc K.visHideDotfiles (JBool (hideDotfiles v));;
      enc_set K.visHiddenExtensions (hiddenExtensions v);;
      enc_set K.visHiddenNames (hiddenNames v)
  | SetThemeMode v => enc K.themeMode (JStr (theme_name v))
  | SetDynamicColor v => enc K.dynamicColor (JBool v)
  | SetNotifications v => enc K.notifications (JBool v)
  | SetLowDisk v => enc K.lowDiskThreshold (JNum v)
  | SetAppLock v => enc K.appLock (JBool v)
  | SetAmoled v => enc K.amoled (JBool v)
  | SetSeedColor None => KeyValueStore.remove K.seedColor
  | SetSeedColor (Some v) => enc K.seedColor (JNum v)
  | SetWatched v => enc_set K.watchedFolders v
  | SetCompress v => enc K.compressCellular (JBool v)
  | SetPreload v => enc K.preloadCellular (JBool v)
  | SetWeekly v => enc K.weeklyDigest (JBool v)
  end.

Definition opt_json {A} (k : string) (f : A -> json) (v : option A) : list (jstr * json) :=
  match v with Some x => [(js k, f x)] | None => [] end.
Definition override_json (o : DeviceOverrides) : json := JObj (
  opt_json "gridView" JBool (o_gridView o)
  ++ opt_json "density" (fun d => JStr (density_name d)) (o_density o)
  ++ match o_sort o with
     | Some s => [(js "sortField", JStr (sort_field_name (sort_field s))); (js "sortAscending", JBool (sort_ascending s))]
     | None => [] end
  ++ opt_json "visibility" visibilityToJson (o_visibility o)).
Definition nonempty_overrides (os : list (jstr * DeviceOverrides)) : list (jstr * DeviceOverrides) :=
  List.filter (fun kv => negb (is_empty_override kv.2)) os.
Definition setOverrides (os : list (jstr * DeviceOverrides)) : IO unit :=
  enc K.overrides (JStr (json_stringify (JObj ((fun kv => (kv.1, override_json kv.2)) <$> nonempty_overrides os)))).

(** ** The mirror *)

Definition apply_setting (u : AppSetting) (a : AppDefaults) : AppDefaults :=
  match a with
  | Build_AppDefaults g d so vi th dy no lo al am se wa co pr we =>
      match u with
      | SetGridView v => Build_AppDefaults v d so vi th dy no lo al am se wa co pr we
      | SetDensity v => Build_AppDefaults g v so vi th dy no lo al am se wa co pr we
      | SetSort v => Build_AppDefaults g d v vi th dy no lo al am se wa co pr we
      | SetVisibility v => Build_AppDefaults g d so v th dy no lo al am se wa co pr we
      | SetThemeMode v => Build_AppDefaults g d so vi v dy no lo al am se wa co pr we
      | SetDynamicColor v => Build_AppDefaults g d so vi th v no lo al am se wa co pr we
      | SetNotifications v => Build_AppDefaults g d so vi th dy v lo al am se wa co pr we
      | SetLowDisk v => Build_AppDefaults g d so vi th dy no v al am se wa co pr we
      | SetAppLock v => Build_AppDefaults g d so vi th dy no lo v am se wa co pr we
      | SetAmoled v => Build_AppDefaults g d so vi th dy no lo al v se wa co pr we
      | SetSeedColor v => Build_AppDefaults g d so vi th dy no lo al am v wa co pr we
      | SetWatched v => Build_AppDefaults g d so vi th dy no lo al am se v co pr we
      | SetCompress v => Build_AppDefaults g d so vi th dy no lo al am se wa v pr we
      | SetPreload v => Build_AppDefaults g d so vi th dy no lo al am se wa co v we
      | SetWeekly v => Build_AppDefaults g d so vi th dy no lo al am se wa co pr v
      end
  end.
Inductive SettingsOp := OpApp (u : AppSetting) | OpOverrides (os : list (jstr * DeviceOverrides)).
(** [useSettings]: persist, then update the state in memory. *)
Definition run_settings (o : SettingsOp) (st : SettingsState) : IO SettingsState :=
  match o with
  | OpApp u => setApp u;; ret {| app := apply_setting u (app st); overrides := overrides st |}
  | OpOverrides os => setOverrides os;; ret {| app := app st; overrides := nonempty_overrides os |}
  end.

(** ** Round trip *)

(** Values the types of the code allow: sets have no duplicates, an object has each key once. *)
Definition visibility_ok (v : VisibilityPrefs) : Prop := NoDup (hiddenExtensions v) /\ NoDup (hiddenNames v).
Definition op_valid (o : SettingsOp) : Prop :=
  match o with
  | OpApp (SetVisibility v) => visibility_ok v
  | OpApp (SetWatched v) => NoDup v
  | OpApp _ => True
  | OpOverrides os => NoDup (keys os) /\ Forall (fun kv => forall v, o_visibility kv.2 = Some v -> visibility_ok v) os
  end.

Lemma raw_same k v s : json_wf v = true -> raw (map_set k (json_stringify v) s) k = Some v.
Proof. intros. unfold raw. rewrite map_get_set_eq. by apply json_roundtrip. Qed.
Lemma raw_other k v s k' : bool_decide (k = k') = false -> raw (map_set k v s) k' = raw s k'.
Proof. intros. breflect. unfold raw. by rewrite map_get_set_ne. Qed.
Lemma raw_removed k s : raw (map_delete k s) k = None.
Proof. unfold raw. rewrite map_get_delete. by case_decide. Qed.
Lemma raw_removed_other k s k' : bool_decide (k = k') = false -> raw (map_delete k s) k' = raw s k'.
Proof. intros. breflect. unfold raw. by rewrite map_get_delete, decide_False. Qed.
Lemma decode_encoded l : NoDup l -> set_of (decodeStringSet (Some (JStr (json_stringify (JArr (JStr <$> l)))))) = l.
Proof. intros. unfold decodeStringSet. rewrite json_roundtrip by apply strings_wf. rewrite strings_of_map. by apply set_of_NoDup. Qed.
Lemma decode_array l : NoDup l -> set_of (decodeStringSet (Some (JArr (JStr <$> l)))) = l.
Proof. intros. unfold decodeStringSet. rewrite strings_of_map. by apply set_of_NoDup. Qed.
Lemma named_density d : named density_name DENSITIES (Some (JStr (density_name d))) = Some d.
Proof. by destruct d. Qed.
Lemma named_sort f : named sort_field_name SORT_FIELDS (Some (JStr (sort_field_name f))) = Some f.
Proof. by destruct f. Qed.
Lemma named_theme t : named theme_name THEMES (Some (JStr (theme_name t))) = Some t.
Proof. by destruct t. Qed.

(** Evaluate the reads after a write: the key written, then all the others. *)
Ltac read_back :=
  repeat match goal with
         | |- context [raw (map_set ?k (json_stringify ?v) ?s) ?k] => rewrite (raw_same k v s) by (reflexivity || apply strings_wf)
         | |- context [raw (map_set ?k ?v ?s) ?k'] => rewrite (raw_other k v s k') by (vm_compute; reflexivity)
         | |- context [raw (map_delete ?k ?s) ?k] => rewrite (raw_removed k s)
         | |- context [raw (map_delete ?k ?s) ?k'] => rewrite (raw_removed_other k s k') by (vm_compute; reflexivity)
         end.

Lemma setApp_load u d d' : op_valid (OpApp u) -> setApp u d = (d', Ok tt) ->
  loadSettings (kv d') = {| app := apply_setting u (app (loadSettings (kv d))); overrides := overrides (loadSettings (kv d)) |}.
Proof.
  intros Hv E.
  destruct u as [v|v|[f a]|[hd he hn]|v|v|v|v|v|v|[v|]|v|v|v|v]; simpl in Hv; revert E;
    unfold setApp, enc_set, enc, bind, KeyValueStore.set, KeyValueStore.remove;
    repeat (io_step; [done|]; simpl); intros [= <-]; simpl;
    unfold loadSettings; simpl; unfold read_bool, read_int, read_oneOf, read_stringSet, read_json; read_back;
    rewrite ?named_density, ?named_sort, ?named_theme, ?decode_encoded by (done || apply Hv); try done.
Qed.

Lemma visibility_roundtrip v : visibility_ok v ->
  visibilityFromJson (obj (visibilityToJson v)) = v /\ json_wf (visibilityToJson v) = true.
Proof.
  destruct v as [h e n]. intros [He Hn]. simpl in He, Hn. split.
  - unfold visibilityToJson, obj, visibilityFromJson. cbn [hiddenExtensions hiddenNames hideDotfiles].
    change (field (js "hiddenExtensions") _) with (Some (JArr (JStr <$> e))).
    change (field (js "hiddenNames") _) with (Some (JArr (JStr <$> n))). by rewrite !decode_array.
  - unfold visibilityToJson. rewrite json_wf_obj. cbn [List.forallb snd hiddenExtensions hiddenNames].
    by rewrite !strings_wf.
Qed.
Lemma override_roundtrip o : is_empty_override o = false -> (forall v, o_visibility o = Some v -> visibility_ok v) ->
  parse_override (override_json o) = Some o /\ json_wf (override_json o) = true.
Proof.
  intros He Hv. destruct o as [g d so vi].
  destruct vi as [v|]; [destruct (visibility_roundtrip v (Hv v eq_refl)) as [H1 H2]|].
  - split.
    + assert (parse_override (override_json {| o_gridView := g; o_density := d; o_sort := so; o_visibility := Some v |}) =
        Some {| o_gridView := g; o_density := d; o_sort := so; o_visibility := Some (visibilityFromJson (obj (visibilityToJson v))) |}) as ->
        by (destruct g as [g|], d as [[]|], so as [[[] a]|]; reflexivity).
      by rewrite H1.
    + destruct g as [g|], d as [[]|], so as [[[] a]|]; unfold override_json, opt_json; cbn [Datatypes.app o_gridView o_density o_sort o_visibility];
        rewrite json_wf_obj; cbn [List.forallb snd]; rewrite H2; vm_compute; reflexivity.
  - destruct g as [g|], d as [[]|], so as [[[] a]|]; try done; split; vm_compute; reflexivity.
Qed.

Lemma overrides_roundtrip os : NoDup (keys os) -> Forall (fun kv => forall v, o_visibility kv.2 = Some v -> visibility_ok v) os ->
  let blob := JObj ((fun kv => (kv.1, override_json kv.2)) <$> nonempty_overrides os) in
  json_wf blob = true /\ parse_overrides (Some blob) = nonempty_overrides os.
Proof.
  intros Hnd Hv blob. unfold blob, nonempty_overrides.
  assert (Forall (fun kv => is_empty_override kv.2 = false /\ forall v, o_visibility kv.2 = Some v -> visibility_ok v)
    (List.filter (fun kv => negb (is_empty_override kv.2)) os)) as Hall.
  { apply Forall_forall. intros kv [Hin He]%elem_filter_bool. rewrite Forall_forall in Hv. breflect. split; [done | by apply Hv]. }
  split.
  - rewrite json_wf_obj, andb_true_iff. split.
    + apply bool_decide_eq_true. unfold keys in *. rewrite <- list_fmap_compose. clear Hall Hv blob.
      induction os as [|[k o] os IH]; csimpl; [constructor|]. csimpl in Hnd. apply NoDup_cons in Hnd as [Hn Hd].
      case_match; csimpl; [|auto]. apply NoDup_cons. split; [|auto].
      intros ([k' o'] & -> & [Hin _]%elem_filter_bool)%list_elem_of_fmap. apply Hn. by apply (list_elem_of_fmap_2' fst _ (k', o')).
    + apply forallb_forall_true, Forall_fmap. eapply Forall_impl; [exact Hall|]. intros [k o] [He Ho]. by apply override_roundtrip.
  - unfold parse_overrides. induction Hall as [|[k o] l [He Ho] _ IH]; [done|].
    cbn [fmap list_fmap omap list_omap fst snd]. destruct (override_roundtrip o He Ho) as [-> _]. simpl. by rewrite IH.
Qed.

(** Settings survive a restart: starting with memory and storage in agreement,
    a change that reports success leaves the settings in memory equal to what
    loading the stored keys gives, for every setting and for the per-device
    overrides; the change touches no other setting. *)
Theorem settings_mirror (o : SettingsOp) (st st' : SettingsState) (d d' : Disk) :
  op_valid o -> st = loadSettings (kv d) -> run_settings o st d = (d', Ok st') ->
  loadSettings (kv d') = st'.
Proof.
  intros Hv -> E. destruct o as [u|os]; simpl in E; apply bind_inv in E as (d1 & [] & E & [= -> <-]).
  - by apply setApp_load.
  - destruct Hv as [Hnd Hall]. destruct (overrides_roundtrip os Hnd Hall) as [Hw Hp]. cbv zeta in *.
    revert E. unfold setOverrides, enc, KeyValueStore.set. io_step; [done|]. intros [= <-]. simpl.
    unfold loadSettings at 1. unfold read_bool, read_int, read_oneOf, read_stringSet, read_json. read_back.
    rewrite json_roundtrip by exact Hw. by rewrite Hp.
Qed.
End Settings.

Lemma settings_mirror_witness :
  let d := {| kv := []; secure := []; cleaned := []; faults := [] |} in
  let o := {| o_gridView := Some true; o_density := None; o_sort := None; o_visibility := None |} in
  let r := run_settings (C := plain_codec) (OpOverrides [(js "h1", o); (js "h2", noOverrides)]) (loadSettings (C := plain_codec) []) d in
  overrides (loadSettings (C := plain_codec) (kv r.1)) = [(js "h1", o)].
Proof.
  cbv zeta.
  rewrite (settings_mirror (C := plain_codec)
    (OpOverrides [(js "h1", {| o_gridView := Some true; o_density := None; o_sort := None; o_visibility := None |}); (js "h2", noOverrides)])
    (loadSettings (C := plain_codec) [])
    {| app := defaultAppDefaults; overrides := [(js "h1", {| o_gridView := Some true; o_density := None; o_sort := None; o_visibility := None |})] |}
    {| kv := []; secure := []; cleaned := []; faults := [] |}).
  - reflexivity.
  - split; [apply (bool_decide_unpack (NoDup _)); vm_compute; exact I | repeat constructor; done].
  - reflexivity.
  - vm_compute. reflexivity.
Defined.
