(* ===== verification/Identity.v ===== *)
(** * The device identity

    [core/security/deviceIdentity.ts]: base64, and the permanent Ed25519 key pair
    kept in the secure store.  The curve operations are a parameter with their
    documented lengths. *)

From Stdlib Require Import ZArith Lia Bool.
From Stdlib Require List.
From S2P Require Import Prelude JsCollections JsString Errors Utf8 Storage.
Local Open Scope js_scope.

(** ** Base64 *)

Definition B64 : jstr := js "ABCDEFGHIJKLMNOPQRSTUVWXYZabcdefghijklmnopqrstuvwxyz0123456789+/".
(** [B64[n]]. *)
Definition b64_char (n : Z) : jchar := nth (Z.to_nat n) B64 0.
Definition equals_sign : jchar := 61.

Fixpoint toBase64 (bytes : list Z) : jstr :=
  match bytes with
  | [] => []
  | [b0] => [b64_char (Z.shiftr b0 2); b64_char (Z.lor (Z.shiftl (Z.land b0 3) 4) (Z.shiftr 0 4)); equals_sign; equals_sign]
  | [b0; b1] =>
      [b64_char (Z.shiftr b0 2); b64_char (Z.lor (Z.shiftl (Z.land b0 3) 4) (Z.shiftr b1 4));
       b64_char (Z.lor (Z.shiftl (Z.land b1 15) 2) (Z.shiftr 0 6)); equals_sign]
  | b0 :: b1 :: b2 :: rest =>
      [b64_char (Z.shiftr b0 2); b64_char (Z.lor (Z.shiftl (Z.land b0 3) 4) (Z.shiftr b1 4));
       b64_char (Z.lor (Z.shiftl (Z.land b1 15) 2) (Z.shiftr b2 6)); b64_char (Z.land b2 63)] ++ toBase64 rest
  end.

Definition is_b64 (c : jchar) : bool := is_alnum c || (c =? 43) || (c =? 47).
(** [/^[A-Za-z0-9+/]*={0,2}$/]. *)
Definition b64_shape (s : jstr) : bool :=
  let pad := drop_while is_b64 s in
  bool_decide (pad = []) || bool_decide (pad = [equals_sign]) || bool_decide (pad = [equals_sign; equals_sign]).
(** The value of a character: [=] counts as zero. *)
Definition b64_value (c : jchar) : Z :=
  if c =? equals_sign then 0 else match index_of c B64 with Some i => Z.of_nat i | None => -1 end.
(** The three bytes of each group of four characters. *)
Fixpoint b64_groups (s : jstr) : list Z :=
  match s with
  | c0 :: c1 :: c2 :: c3 :: rest =>
      let v := Z.lor (Z.lor (Z.lor (Z.shiftl (b64_value c0) 18) (Z.shiftl (b64_value c1) 12)) (Z.shiftl (b64_value c2) 6)) (b64_value c3) in
      [Z.land (Z.shiftr v 16) 255; Z.land (Z.shiftr v 8) 255; Z.land v 255] ++ b64_groups rest
  | _ => []
  end.
Definition fromBase64 (s : jstr) : option (list Z) :=
  if negb (b64_shape s) || negb (Z.of_nat (length s) mod 4 =? 0) then None
  else
    let pad := if ends_with [equals_sign; equals_sign] s then 2 else if ends_with [equals_sign] s then 1 else 0 in
    (* bytes past the end of the output array are not written *)
    Some (take (Z.to_nat (Z.of_nat (length s) / 4 * 3 - pad)) (b64_groups s)).

(** ** The key pair *)

Record KeyPair := { seed : list Z; publicKey : list Z }.
Definition tryParseKeyPair (priv pub : jstr) : option KeyPair :=
  match fromBase64 priv, fromBase64 pub with
  | Some s, Some p => if (length s =? 32)%nat && (length p =? 32)%nat then Some {| seed := s; publicKey := p |} else None
  | _, _ => None
  end.

(** [@noble/curves]: a 32-byte seed has a 32-byte public key. *)
Class Ed25519 := {
  getPublicKey : list Z -> list Z;
  ed_sign : list Z -> list Z -> list Z;
  getPublicKey_bytes : forall s, length s = 32%nat -> length (getPublicKey s) = 32%nat /\ Forall (fun b => is_byte b = true) (getPublicKey s)
}.

(** [new TextEncoder().encode]: a lone surrogate becomes U+FFFD. *)
Fixpoint encode_text (s : jstr) : list Z :=
  match s with
  | [] => []
  | c :: r =>
      if (55296 <=? c) && (c <=? 56319) then
        match r with
        | d :: r' => if (56320 <=? d) && (d <=? 57343) then utf8_of (65536 + (c - 55296) * 1024 + (d - 56320)) ++ encode_text r'
                     else utf8_of 65533 ++ encode_text r
        | [] => utf8_of 65533
        end
      else if (56320 <=? c) && (c <=? 57343) then utf8_of 65533 ++ encode_text r
      else utf8_of c ++ encode_text r
  end.

(** [cached] and [pending]: the first load's promise is shared by every later caller. *)
Record IdentityState := { cached : option KeyPair; pending : option (result jserror KeyPair) }.

Section Identity.
Context `{E : Ed25519}.
Variable randomBytes : nat -> list Z.

Definition generate : IO KeyPair :=
  let s := randomBytes 32 in
  let p := getPublicKey s in
  SecureStore.write SecureKeys.devicePrivate (toBase64 s);;
  SecureStore.write SecureKeys.devicePublic (toBase64 p);;
  ret {| seed := s; publicKey := p |}.
Definition loadOrCreate : IO KeyPair :=
  priv <- SecureStore.read SecureKeys.devicePrivate;;
  pub <- SecureStore.read SecureKeys.devicePublic;;
  match priv, pub with
  | None, None => generate
  | Some pr, Some pu =>
      match tryParseKeyPair pr pu with
      | None => throw (IdentityCorrupt (js "malformed device identity"))
      | Some kp => if bool_decide (toBase64 (getPublicKey (seed kp)) = toBase64 (publicKey kp)) then ret kp
                   else throw (IdentityCorrupt (js "public key does not match seed"))
      end
  | _, _ => throw (IdentityCorrupt (js "partial device identity"))
  end.
Definition load : M (IdentityState * Disk) jserror KeyPair := fun st =>
  match cached st.1, pending st.1 with
  | Some kp, _ => (st, Ok kp)
  | None, Some r => (st, r)
  | None, None =>
      let (d', r) := loadOrCreate st.2 in
      (({| cached := match r with Ok kp => Some kp | Err _ => None end; pending := Some r |}, d'), r)
  end.
Definition publicKeyBase64 : M (IdentityState * Disk) jserror jstr :=
  kp <- load;; ret (toBase64 (publicKey kp)).
Definition signBase64 (message : jstr) : M (IdentityState * Disk) jserror jstr :=
  kp <- load;; ret (toBase64 (ed_sign (encode_text message) (seed kp))).
End Identity.

(** ** Base64 round trip *)

Definition is_bytes (l : list Z) : Prop := Forall (fun b => is_byte b = true) l.
Lemma is_byte_range b : is_byte b = true <-> 0 <= b < 256.
Proof. unfold is_byte. rewrite andb_true_iff, Z.leb_le, Z.ltb_lt. done. Qed.

(** Every six-bit value has its own character, which is no padding. *)
Lemma b64_char_spec n : 0 <= n < 64 -> b64_value (b64_char n) = n /\ is_b64 (b64_char n) = true /\ (b64_char n =? equals_sign) = false.
Proof.
  intros Hn.
  assert (List.forallb (fun k => (b64_value (b64_char (Z.of_nat k)) =? Z.of_nat k) && is_b64 (b64_char (Z.of_nat k))
    && negb (b64_char (Z.of_nat k) =? equals_sign)) (seq 0 64) = true) as H by (vm_compute; reflexivity).
  rewrite List.forallb_forall in H. specialize (H (Z.to_nat n)). rewrite Z2Nat.id in H by lia.
  assert (b64_value (b64_char n) =? n = true /\ is_b64 (b64_char n) = true /\ negb (b64_char n =? equals_sign) = true) as (H1 & H2 & H3).
  { assert (List.In (Z.to_nat n) (seq 0 64)) as Hin by (apply List.in_seq; lia).
    specialize (H Hin). apply andb_true_iff in H as [H H3]. apply andb_true_iff in H as [H1 H2]. done. }
  apply Z.eqb_eq in H1. apply negb_true_iff in H3. done.
Qed.

(** The four six-bit values of three bytes, as arithmetic. *)
Lemma six0 b0 : 0 <= b0 < 256 -> Z.shiftr b0 2 = b0 / 4.
Proof. intros. by rewrite Z.shiftr_div_pow2 by lia. Qed.
Lemma six1 b0 b1 : 0 <= b0 < 256 -> 0 <= b1 < 256 -> Z.lor (Z.shiftl (Z.land b0 3) 4) (Z.shiftr b1 4) = b0 mod 4 * 16 + b1 / 16.
Proof.
  intros. rewrite (Z.land_ones b0 2 ltac:(lia) : Z.land b0 3 = _), Z.shiftr_div_pow2 by lia.
  change (2 ^ 2) with 4. change (2 ^ 4) with 16. rewrite lor_shift; [done | lia | apply Z.mod_pos_bound; lia|].
  change (2 ^ 4) with 16. split; [apply Z.div_pos; lia | apply Z.div_lt_upper_bound; lia].
Qed.
Lemma six2 b1 b2 : 0 <= b1 < 256 -> 0 <= b2 < 256 -> Z.lor (Z.shiftl (Z.land b1 15) 2) (Z.shiftr b2 6) = b1 mod 16 * 4 + b2 / 64.
Proof.
  intros. rewrite land_15, Z.shiftr_div_pow2 by lia. change (2 ^ 6) with 64.
  rewrite lor_shift; [done | lia | apply Z.mod_pos_bound; lia|].
  change (2 ^ 2) with 4. split; [apply Z.div_pos; lia | apply Z.div_lt_upper_bound; lia].
Qed.
Lemma six3 b2 : Z.land b2 63 = b2 mod 64.
Proof. exact (Z.land_ones b2 6 ltac:(lia)). Qed.
Lemma land_255 b : Z.land b 255 = b mod 256.
Proof. exact (Z.land_ones b 8 ltac:(lia)). Qed.

(** Decoding the characters of three bytes. *)
Definition chars_of (b0 b1 b2 : Z) : list Z :=
  [b64_char (b0 / 4); b64_char (b0 mod 4 * 16 + b1 / 16); b64_char (b1 mod 16 * 4 + b2 / 64); b64_char (b2 mod 64)].
Definition six_values (b0 b1 b2 : Z) : list Z := [b0 / 4; b0 mod 4 * 16 + b1 / 16; b1 mod 16 * 4 + b2 / 64; b2 mod 64].
Lemma six_values_range b0 b1 b2 : 0 <= b0 < 256 -> 0 <= b1 < 256 -> 0 <= b2 < 256 ->
  Forall (fun n => 0 <= n < 64) (six_values b0 b1 b2).
Proof. intros. repeat constructor; Z.div_mod_to_equations; lia. Qed.
Definition three (n0 n1 n2 n3 : Z) : list Z :=
  let v := Z.lor (Z.lor (Z.lor (Z.shiftl n0 18) (Z.shiftl n1 12)) (Z.shiftl n2 6)) n3 in
  [Z.land (Z.shiftr v 16) 255; Z.land (Z.shiftr v 8) 255; Z.land v 255].
Lemma three_six b0 b1 b2 : 0 <= b0 < 256 -> 0 <= b1 < 256 -> 0 <= b2 < 256 ->
  three (b0 / 4) (b0 mod 4 * 16 + b1 / 16) (b1 mod 16 * 4 + b2 / 64) (b2 mod 64) = [b0; b1; b2].
Proof.
  intros H0 H1 H2. pose proof (six_values_range b0 b1 b2 H0 H1 H2) as Hr. unfold six_values in Hr.
  apply Forall_cons in Hr as [R0 Hr]. apply Forall_cons in Hr as [R1 Hr]. apply Forall_cons in Hr as [R2 Hr]. apply Forall_cons in Hr as [R3 _].
  unfold three. rewrite assemble4 by lia. rewrite !land_255, !Z.shiftr_div_pow2 by lia.
  change (2 ^ 16) with 65536. change (2 ^ 8) with 256.
  assert (b0 / 4 * 262144 + (b0 mod 4 * 16 + b1 / 16) * 4096 + (b1 mod 16 * 4 + b2 / 64) * 64 + b2 mod 64 = b0 * 65536 + b1 * 256 + b2) as ->
    by (Z.div_mod_to_equations; lia).
  f_equal; [|f_equal; [|f_equal]]; Z.div_mod_to_equations; lia.
Qed.

Lemma b64_groups_cons c0 c1 c2 c3 rest :
  b64_groups (c0 :: c1 :: c2 :: c3 :: rest) = three (b64_value c0) (b64_value c1) (b64_value c2) (b64_value c3) ++ b64_groups rest.
Proof. done. Qed.
Lemma value_char n : 0 <= n < 64 -> b64_value (b64_char n) = n.
Proof. apply b64_char_spec. Qed.
Lemma value_pad : b64_value equals_sign = 0.
Proof. done. Qed.

(** The text of a byte string: its length, its shape and its padding. *)
Lemma toBase64_spec bytes : is_bytes bytes -> exists body pad,
  toBase64 bytes = body ++ replicate pad equals_sign /\ Forall (fun c => is_b64 c = true /\ (c =? equals_sign) = false) body /\
  (pad <= 2)%nat /\ (body = [] -> bytes = [] /\ pad = 0%nat) /\
  exists q, length (toBase64 bytes) = (4 * q)%nat /\ (3 * q)%nat = (length bytes + pad)%nat /\
  take (length bytes) (b64_groups (toBase64 bytes)) = bytes.
Proof.
  induction bytes as [bytes IH] using (induction_ltof1 _ (@length Z)). unfold ltof in IH.
  intros Hb. destruct bytes as [|b0 [|b1 [|b2 rest]]].
  - exists [], 0%nat. split; [done|]. split; [constructor|]. split; [lia|]. split; [done|]. by exists 0%nat.
  - apply Forall_cons in Hb as [H0 _]. apply is_byte_range in H0.
    cbn [toBase64]. rewrite six0, six1 by lia.
    pose proof (six_values_range b0 0 0 H0 ltac:(lia) ltac:(lia)) as Hr. unfold six_values in Hr.
    apply Forall_cons in Hr as [R0 Hr]. apply Forall_cons in Hr as [R1 _].
    exists [b64_char (b0 / 4); b64_char (b0 mod 4 * 16 + 0 / 16)], 2%nat. split; [done|].
    split; [repeat constructor; by apply b64_char_spec|]. split; [lia|]. split; [done|].
    exists 1%nat. split; [done|]. split; [done|]. rewrite b64_groups_cons, !value_char, value_pad by done.
    pose proof (three_six b0 0 0 H0 ltac:(lia) ltac:(lia)) as H3. change (0 mod 16 * 4 + 0 / 64) with 0 in H3.
    change (0 mod 64) with 0 in H3. by rewrite H3.
  - apply Forall_cons in Hb as [H0 Hb]. apply Forall_cons in Hb as [H1 _]. apply is_byte_range in H0, H1.
    cbn [toBase64]. rewrite six0, six1, six2 by lia.
    pose proof (six_values_range b0 b1 0 H0 H1 ltac:(lia)) as Hr. unfold six_values in Hr.
    apply Forall_cons in Hr as [R0 Hr]. apply Forall_cons in Hr as [R1 Hr]. apply Forall_cons in Hr as [R2 _].
    exists [b64_char (b0 / 4); b64_char (b0 mod 4 * 16 + b1 / 16); b64_char (b1 mod 16 * 4 + 0 / 64)], 1%nat. split; [done|].
    split; [repeat constructor; by apply b64_char_spec|]. split; [lia|]. split; [done|].
    exists 1%nat. split; [done|]. split; [done|]. rewrite b64_groups_cons, !value_char, value_pad by done.
    pose proof (three_six b0 b1 0 H0 H1 ltac:(lia)) as H3. change (0 mod 64) with 0 in H3. by rewrite H3.
  - apply Forall_cons in Hb as [H0 Hb]. apply Forall_cons in Hb as [H1 Hb]. apply Forall_cons in Hb as [H2 Hb].
    apply is_byte_range in H0, H1, H2.
    destruct (IH rest) as (body & pad & E & Hbody & Hpad & Hnil & q & Hl & Hq & Ht); [simpl; lia | done|].
    cbn [toBase64]. rewrite six0, six1, six2, six3 by lia.
    pose proof (six_values_range b0 b1 b2 H0 H1 H2) as Hr. unfold six_values in Hr.
    apply Forall_cons in Hr as [R0 Hr]. apply Forall_cons in Hr as [R1 Hr]. apply Forall_cons in Hr as [R2 Hr]. apply Forall_cons in Hr as [R3 _].
    exists (chars_of b0 b1 b2 ++ body), pad. rewrite E. split; [by rewrite <- app_assoc|].
    split; [apply Forall_app; split; [repeat constructor; by apply b64_char_spec | done]|]. split; [done|]. split; [done|].
    exists (S q). rewrite <- E. split; [rewrite length_app, Hl; simpl; lia|]. split; [simpl length; lia|].
    cbn [app]. rewrite b64_groups_cons, !value_char by done. rewrite three_six by done. simpl. by rewrite Ht.
Qed.

Lemma drop_while_body (f : Z -> bool) body rest :
  Forall (fun c => f c = true) body -> drop_while f (body ++ rest) = drop_while f rest.
Proof. induction 1 as [|c body Hc _ IH]; simpl; [done|]. by rewrite Hc. Qed.
Lemma ends_with_last p s c : ends_with (p ++ [c]) s = true -> last s = Some c.
Proof. intros [t ->]%ends_with_spec. rewrite app_assoc. apply last_snoc. Qed.

Lemma fromBase64_toBase64 bytes : is_bytes bytes -> fromBase64 (toBase64 bytes) = Some bytes.
Proof.
  intros Hb. destruct (toBase64_spec bytes Hb) as (body & pad & E & Hbody & Hpad & Hnil & q & Hl & Hq & Ht).
  unfold fromBase64.
  assert (b64_shape (toBase64 bytes) = true) as ->.
  { unfold b64_shape. rewrite E, drop_while_body by (eapply Forall_impl; [exact Hbody | by intros ? [? _]]).
    destruct pad as [|[|[|]]]; [done..|lia]. }
  assert (Z.of_nat (length (toBase64 bytes)) mod 4 =? 0 = true) as ->.
  { apply Z.eqb_eq. rewrite Hl. replace (Z.of_nat (4 * q)) with (Z.of_nat q * 4) by lia. apply Z.mod_mul. lia. }
  cbn [negb orb].
  assert ((if ends_with [equals_sign; equals_sign] (toBase64 bytes) then 2 else if ends_with [equals_sign] (toBase64 bytes) then 1 else 0)
    = Z.of_nat pad) as ->.
  { assert (forall c, last body = Some c -> (c =? equals_sign) = false) as Hlast.
    { intros c Hc. rewrite Forall_forall in Hbody. apply Hbody. by apply last_Some_elem_of. }
    rewrite E. destruct pad as [|[|[|]]]; [| | |lia].
    - rewrite app_nil_r. destruct (ends_with [equals_sign; equals_sign] body) eqn:E2.
      { apply (ends_with_last [equals_sign]) in E2. by apply Hlast in E2. }
      destruct (ends_with [equals_sign] body) eqn:E1; [|done]. apply (ends_with_last []) in E1. by apply Hlast in E1.
    - destruct (ends_with [equals_sign; equals_sign] (body ++ replicate 1 equals_sign)) eqn:E2.
      { apply ends_with_spec in E2 as [t E2]. change (replicate 1 equals_sign) with [equals_sign] in E2.
        change [equals_sign; equals_sign] with ([equals_sign] ++ [equals_sign]) in E2. rewrite app_assoc in E2.
        apply app_inj_tail in E2 as [-> _]. specialize (Hlast equals_sign (last_snoc _ _)). done. }
      assert (ends_with [equals_sign] (body ++ replicate 1 equals_sign) = true) as ->; [|done].
      apply ends_with_spec. by exists body.
    - assert (ends_with [equals_sign; equals_sign] (body ++ replicate 2 equals_sign) = true) as ->; [|done].
      apply ends_with_spec. by exists body. }
  rewrite Hl. replace (Z.to_nat (Z.of_nat (4 * q) / 4 * 3 - Z.of_nat pad)) with (length bytes); [by rewrite Ht|].
  replace (Z.of_nat (4 * q)) with (Z.of_nat q * 4) by lia. rewrite Z.div_mul by lia. lia.
Qed.

Lemma three_bytes n0 n1 n2 n3 : is_bytes (three n0 n1 n2 n3).
Proof.
  repeat constructor; apply is_byte_range; rewrite land_255; apply Z.mod_pos_bound; lia.
Qed.
Lemma b64_groups_bytes s : is_bytes (b64_groups s).
Proof.
  induction s as [s IH] using (induction_ltof1 _ (@length Z)). unfold ltof in IH.
  destruct s as [|c0 [|c1 [|c2 [|c3 rest]]]]; [constructor..|]. rewrite b64_groups_cons.
  apply Forall_app. split; [apply three_bytes | apply IH; simpl; lia].
Qed.
Lemma fromBase64_bytes s l : fromBase64 s = Some l -> is_bytes l.
Proof. unfold fromBase64. case_match; [done|]. intros [= <-]. apply Forall_take, b64_groups_bytes. Qed.
Lemma toBase64_inj a b : is_bytes a -> is_bytes b -> toBase64 a = toBase64 b -> a = b.
Proof.
  intros Ha Hb E. apply fromBase64_toBase64 in Ha, Hb. rewrite E in Ha. congruence.
Qed.

(** ** The identity is permanent *)

Section Permanent.
Context `{E : Ed25519}.

(** What a disk stores of the identity. *)
Definition stored_pair (d : Disk) : option jstr * option jstr :=
  (map_get SecureKeys.devicePrivate (secure d), map_get SecureKeys.devicePublic (secure d)).
(** A working disk holding a valid pair yields it. *)
Lemma loadOrCreate_stored rnd d pr pu kp : faults d = [] -> stored_pair d = (Some pr, Some pu) ->
  tryParseKeyPair pr pu = Some kp -> publicKey kp = getPublicKey (seed kp) -> (loadOrCreate rnd d).2 = Ok kp.
Proof.
  intros Hf Hs Hp Hk. injection Hs as H1 H2. unfold loadOrCreate, SecureStore.read, bind. rewrite io_works by done. cbn beta iota.
  rewrite io_works by done. cbn beta iota. simpl. rewrite H1, H2, Hp, Hk. by rewrite bool_decide_true.
Qed.
Lemma generated_parses s : length s = 32%nat -> is_bytes s ->
  tryParseKeyPair (toBase64 s) (toBase64 (getPublicKey s)) = Some {| seed := s; publicKey := getPublicKey s |}.
Proof.
  intros Hl Hb. destruct (getPublicKey_bytes s Hl) as [Hl2 Hb2]. unfold tryParseKeyPair.
  rewrite !fromBase64_toBase64 by done. by rewrite Hl, Hl2.
Qed.
Lemma parsed_bytes pr pu kp : tryParseKeyPair pr pu = Some kp -> is_bytes (seed kp) /\ is_bytes (publicKey kp) /\ length (seed kp) = 32%nat.
Proof.
  unfold tryParseKeyPair. destruct (fromBase64 pr) as [s|] eqn:E1; [|done]. destruct (fromBase64 pu) as [p|] eqn:E2; [|done].
  destruct (_ && _) eqn:E3; [|done]. intros [= <-]. breflect. eauto using fromBase64_bytes.
Qed.

(** C29 The device identity is never replaced behind the user's back: if either
    half of a stored key pair exists, loading writes nothing, whatever fails; a
    pair is returned only if its public key is the one of its seed; and the pair
    returned is the one every later load from that storage returns, whatever
    random bytes are then available, so a generated identity survives its base64
    encoding. *)
Theorem identity_permanent (randomBytes : nat -> list Z) (d : Disk) :
  length (randomBytes 32%nat) = 32%nat -> is_bytes (randomBytes 32%nat) ->
  let (d', r) := loadOrCreate randomBytes d in
  (stored_pair d <> (None, None) -> secure d' = secure d) /\
  (forall k, k <> SecureKeys.devicePrivate -> k <> SecureKeys.devicePublic -> map_get k (secure d') = map_get k (secure d)) /\
  kv d' = kv d /\
  (forall kp, r = Ok kp -> publicKey kp = getPublicKey (seed kp) /\ length (seed kp) = 32%nat /\
     forall rnd d2, secure d2 = secure d' -> faults d2 = [] -> (loadOrCreate rnd d2).2 = Ok kp).
Proof.
  intros Hl Hb. unfold loadOrCreate at 1. unfold stored_pair, generate, SecureStore.read, SecureStore.write, bind, throw, ret.
  io_step; [done|]. simpl. io_step; [done|]. simpl.
  destruct (map_get SecureKeys.devicePrivate (secure d)) as [pr|] eqn:Ep, (map_get SecureKeys.devicePublic (secure d)) as [pu|] eqn:Eu; try done.
  - destruct (tryParseKeyPair pr pu) as [kp|] eqn:Et; [|done]. destruct (bool_decide _) eqn:Eb; [|done]. breflect.
    apply parsed_bytes in Et as Hbytes. destruct Hbytes as (B1 & B2 & B3).
    apply toBase64_inj in Eb; [|by apply getPublicKey_bytes|done].
    split; [done|]. split; [done|]. split; [done|]. intros kp' [= <-]. split; [done|]. split; [done|].
    intros rnd d2 Hs Hf. simpl in Hs. eapply loadOrCreate_stored; eauto. unfold stored_pair. by rewrite Hs, Ep, Eu.
  - io_step; [by simpl|]. simpl. io_step; simpl.
    { split; [done|]. split; [|done]. intros k H1 H2. by rewrite map_get_set_ne. }
    split; [done|]. split; [intros k H1 H2; by rewrite !map_get_set_ne|]. split; [done|]. intros kp [= <-]. simpl.
    split; [done|]. split; [done|]. intros rnd d2 Hs Hf.
    eapply loadOrCreate_stored; [done| |by apply generated_parses|done].
    unfold stored_pair. rewrite Hs, map_get_set_eq, map_get_set_ne, map_get_set_eq by (vm_compute; discriminate). done.
Qed.
End Permanent.

(** A stand-in curve with one public key. *)
Definition toy_curve : Ed25519.
Proof.
  refine {| getPublicKey := fun _ => replicate 32 7; ed_sign := fun m _ => m |}.
  intros _ _. split; [done|]. apply Forall_replicate. done.
Defined.

Lemma identity_permanent_witness :
  let d := {| kv := []; secure := []; cleaned := []; faults := [] |} in
  let d' := (loadOrCreate (E := toy_curve) (fun n => replicate n 5) d).1 in
  (loadOrCreate (E := toy_curve) (fun n => replicate n 9) d').2 = Ok {| seed := replicate 32 5; publicKey := replicate 32 7 |}.
Proof.
  cbv zeta.
  pose proof (identity_permanent (E := toy_curve) (fun n => replicate n 5) {| kv := []; secure := []; cleaned := []; faults := [] |}) as H.
  destruct (loadOrCreate (E := toy_curve) (fun n => replicate n 5) {| kv := []; secure := []; cleaned := []; faults := [] |}) as [d' r] eqn:Er.
  vm_compute in Er. injection Er as <- <-.
  destruct H as (_ & _ & _ & H); [reflexivity | apply Forall_replicate; reflexivity|].
  destruct (H _ eq_refl) as (_ & _ & H'). apply (H' (fun n => replicate n 9)); reflexivity.
Defined.
