(* ===== verification/Pairing.v ===== *)
(** * Pairing

    [features/pairing/pairingService.ts] and [matchCode.ts]: every way of pairing a
    phone with a computer, over the agent client, the device identity and the host
    store.  SHA-256 and HMAC are parameters; the polling loop runs over the rounds
    the environment provides (clock and abort signal). *)

From Stdlib Require Import ZArith Lia Bool.
From Stdlib Require List.
From S2P Require Import Prelude JsCollections JsString Json Errors Models Host Utf8 AgentClient Storage HostStore Identity.
Local Open Scope js_scope.

Class Hash := {
  sha256 : list Z -> list Z;
  hmac_sha256 : list Z -> list Z -> list Z   (** key, message *)
}.

Record PairingTarget := { target_address : jstr; target_fingerprint : jstr }.
Record PairingQr := { qr_address : jstr; qr_certFingerprint : jstr; qr_pairingCode : jstr }.
Inductive QrParseError := invalidQrFormat | qrMissingFields | qrInvalidFingerprint.

(** What pairing reads and changes. *)
Record PState := { net : World; disk : Disk; ident : IdentityState }.
Notation Pair := (M PState jserror).
Definition on_net {A} (m : M World jserror A) : Pair A := fun st =>
  let (w, r) := m (net st) in ({| net := w; disk := disk st; ident := ident st |}, r).
Definition on_disk {A} (m : IO A) : Pair A := fun st =>
  let (d, r) := m (disk st) in ({| net := net st; disk := d; ident := ident st |}, r).
Definition on_ident {A} (m : M (IdentityState * Disk) jserror A) : Pair A := fun st =>
  let (s, r) := m (ident st, disk st) in ({| net := net st; disk := s.2; ident := s.1 |}, r).

Record PairingDeps := {
  transport : Transport;
  deviceId : result jserror (option jstr);
  deviceLabel : option jstr;
  probe : jstr -> result jserror jstr;
  randomBytes : nat -> list Z
}.
Record PairRequestHandle := {
  h_target : PairingTarget; h_requestId : jstr; h_clientNonce : jstr; h_matchCode : jstr;
  h_expiresInSeconds : option Z   (** [None]: not a number *)
}.

(** ** Codes *)

(** Pairs of hexadecimal digits as bytes. *)
Fixpoint hexToBytes (h : jstr) : list Z :=
  match h with
  | a :: b :: r => (hex_value a * 16 + hex_value b) :: hexToBytes r
  | _ => []
  end.
Definition hex (bytes : list Z) : jstr := bytes ≫= (fun x => pad_start 2 48 (nat_to_string 16 x)).

Definition be64 (d : list Z) : Z :=
  fold_left (fun n b => Z.lor (Z.shiftl n 8) b) (take 8 d) 0.
Definition matchCode `{Hash} (fingerprintHex clientNonceHex requestId : jstr) : jstr :=
  let d := hmac_sha256 (hexToBytes fingerprintHex)
             (encode_text (js "rfe-pair-sas" ++ [newline]) ++ hexToBytes clientNonceHex ++ encode_text requestId) in
  let s := pad_start 8 48 (string_of_Z (be64 d mod 100000000)) in
  take 4 s ++ [space] ++ drop 4 s.

Section Qr.
Context `{U : Unicode} `{J : JsonCodec}.

Definition parsePairingQr (text : jstr) : PairingQr + QrParseError :=
  match json_parse text with
  | Some (JObj j) =>
      match as_str (field (js "address") j), as_str (field (js "certFingerprint") j), as_str (field (js "pairingCode") j) with
      | Some a, Some f, Some c =>
          match normalizeFingerprint (Some f) with
          | None => inr qrInvalidFingerprint
          | Some fp => inl {| qr_address := a; qr_certFingerprint := fp; qr_pairingCode := c |}
          end
      | _, _, _ => inr qrMissingFields
      end
  | _ => inr invalidQrFormat
  end.
End Qr.

(** [sanitizeCode] of [codeInput.ts]. *)
Definition CODE_LENGTH : nat := 8.
Definition sanitizeCode `{Unicode} (text : jstr) (len : nat) : jstr :=
  take len (List.filter (fun c => is_upper c || is_digit c) (toUpperCase text)).

(** ** Messages *)

(** [/^HTTP \d+$/]. *)
Definition is_bare_status (m : jstr) : bool :=
  starts_with (js "HTTP ") m && all_digits (drop 5 m).
Definition identityChanged : jstr :=
  js "This computer" ++ [8217] ++ js "s identity has changed, so RFE refused to connect. If you reinstalled its agent, remove this computer and pair it again. If not, do not trust this network.".
Definition notAllowed : jstr :=
  js "This computer has not allowed this phone to do that. Allow it on the computer, in the device" ++ [8217] ++ js "s access settings, or the item may be outside the folders it shares.".
Definition noLongerAccepted : jstr :=
  js "This computer no longer accepts this phone. If it was removed there, remove this computer here and pair it again.".
(** The prefix a native module puts before the real reason. *)
Definition strip_rejection (m : jstr) : jstr :=
  let open := js "Call to function '" in
  let closed := js "' has been rejected." in
  let cause := 8594 :: js " Caused by:" in
  if starts_with open m then
    let rest := drop_while (fun c => negb (c =? 39)) (drop (length open) m) in
    if starts_with closed rest then
      let tl := drop_while is_space (drop (length closed) rest) in
      if starts_with cause tl then drop_while is_space (drop (length cause) tl) else m
    else m
  else m.
Definition humanizeError (e : jserror) : jstr :=
  match e with
  | CertPinMismatch => identityChanged
  | MissingCertPin => errMessage e
  | AgentApiError st code m _ =>
      if bool_decide (code = js "CAPABILITY_DENIED") || ((st =? 403) && is_bare_status m) then notAllowed
      else if (st =? 401) && is_bare_status m then noLongerAccepted
      else m
  | _ => strip_rejection (errMessage e)
  end.

(** ** Pairing *)

Section Pairing.
Context `{U : Unicode} `{J : JsonCodec} `{D : DateParse} `{Ed : Ed25519} `{Hs : Hash}.
Variable deps : PairingDeps.

Definition proofMessage (fingerprintHex nonce : jstr) : jstr :=
  js "rfe-device-proof-v2" ++ [newline] ++ toLowerCase fingerprintHex ++ [newline] ++ nonce.
(** The challenge nonce, the public key and the signature over both pin and nonce. *)
Definition proof (c : Client) (fingerprintHex : jstr) : Pair (jstr * jstr * jstr) :=
  nonce <- on_net (challenge (transport deps) c);;
  devicePublicKey <- on_ident (publicKeyBase64 (randomBytes deps));;
  signature <- on_ident (signBase64 (randomBytes deps) (proofMessage fingerprintHex nonce));;
  ret (devicePublicKey, nonce, signature).

Definition sameAddress (a b : jstr) : bool := bool_decide (toLowerCase (trim a) = toLowerCase (trim b)).
(** [true]: the certificate is one this phone already trusts. *)
Definition checkKnownPin (target : PairingTarget) : Pair bool :=
  hosts <- on_disk listHosts;;
  let same := List.filter (fun h => sameAddress (host_address h) (target_address target)) hosts in
  if List.existsb (fun h => negb (bool_decide (normalizeFingerprint (certFingerprint h) = Some (target_fingerprint target)))) same
  then throw CertPinMismatch
  else ret (0 <? length same)%nat.

Definition incomplete : jserror :=
  AgentApiError 0 (js "BAD_RESPONSE") (js "The host returned an incomplete pairing response.") None.
Definition paired_host (target : PairingTarget) (pin : jstr) (resp : PairResponse) : Host := {|
  host_id := pair_deviceId resp;
  host_label := if nonempty (pair_agentName resp) then pair_agentName resp else target_address target;
  host_address := trim (target_address target);
  certFingerprint := Some pin; tailscaleName := None; tailscaleAddress := pair_tailscaleAddress resp;
  internetAddress := None; macAddress := None; note := None |}.
Definition commit (target : PairingTarget) (resp : PairResponse) : Pair Host :=
  match normalizeFingerprint (Some (target_fingerprint target)) with
  | None => throw MissingCertPin
  | Some pin =>
      if negb (nonempty (pair_deviceToken resp)) || negb (nonempty (pair_deviceId resp)) then throw incomplete
      else let host := paired_host target pin resp in
           on_disk (commitPairing host (pair_deviceToken resp) pin);; ret host
  end.

Definition probe_host (target : PairingTarget) (pin : jstr) : Host := {|
  host_id := js "pairing_probe"; host_label := js "probe"; host_address := trim (target_address target);
  certFingerprint := Some pin; tailscaleName := None; tailscaleAddress := None; internetAddress := None;
  macAddress := None; note := None |}.
Definition pinned_opts (pin : jstr) : AgentClientOptions := {|
  opt_deviceToken := None; opt_pinnedFingerprint := Some pin; opt_clientVersion := None;
  opt_probeLanFirst := false; opt_timeoutMs := None |}.
(** A new client starts on the route it remembers for its host. *)
Definition pinnedClient (target : PairingTarget) : Pair Client :=
  match normalizeFingerprint (Some (target_fingerprint target)) with
  | None => throw MissingCertPin
  | Some pin => fun st =>
      match newAgentClient (probe_host target pin) (pinned_opts pin) (lastGoodRoute (net st)) with
      | Err e => (st, Err e)
      | Ok (c, idx) =>
          ({| net := {| addrIndex := idx; lastGoodRoute := lastGoodRoute (net st); sent := sent (net st) |};
              disk := disk st; ident := ident st |}, Ok c)
      end
  end.

Definition label : jstr := default (js "Mobile App") (deviceLabel deps).
Definition pairWithCode (target : PairingTarget) (pairingCode : jstr) : Pair Host :=
  client <- pinnedClient target;;
  p <- proof client (target_fingerprint target);;
  did <- lift (deviceId deps);;
  resp <- on_net (pair (transport deps) client (trim pairingCode) label p.1.1 p.1.2 p.2 did);;
  commit target resp.
Definition loginWithAccount (target : PairingTarget) (username password : jstr) : Pair Host :=
  checkKnownPin target;;
  client <- pinnedClient target;;
  p <- proof client (target_fingerprint target);;
  did <- lift (deviceId deps);;
  resp <- on_net (login (transport deps) client (trim username) password label p.1.1 p.1.2 p.2 did);;
  commit target resp.
Definition registerAccount (target : PairingTarget) (pairingCode username password : jstr) : Pair Host :=
  checkKnownPin target;;
  client <- pinnedClient target;;
  p <- proof client (target_fingerprint target);;
  did <- lift (deviceId deps);;
  resp <- on_net (register (transport deps) client (trim pairingCode) (trim username) password label p.1.1 p.1.2 p.2 did);;
  commit target resp.

(** *** Approval on the computer *)

(** [address.trim().replace(/^https?:\/\//, '').replace(/\/+$/, '')]. *)
Definition authority_of (address : jstr) : jstr :=
  let a := trim address in
  let b := if starts_with (js "https://") a then drop 8 a
           else if starts_with (js "http://") a then drop 7 a else a in
  drop_while_end (Z.eqb slash) b.
Definition probeTarget (address : jstr) : Pair PairingTarget :=
  let authority := authority_of address in
  presented <- lift (probe deps (js "https://" ++ authority));;
  match normalizeFingerprint (Some presented) with
  | None => throw MissingCertPin
  | Some fp => ret {| target_address := authority; target_fingerprint := fp |}
  end.

Definition pairRequest : jstr := js "pairRequest".
Definition mapMissingRoute {A} (e : jserror) : Pair A :=
  throw (if isMissingRoute e then unsupportedByAgent FEATURE_LABEL_pairRequest else e).
Definition mapOlderPairProtocol {A} (e : jserror) : Pair A :=
  match e with
  | AgentApiError 400 code _ _ =>
      if bool_decide (code = js "BAD_REQUEST") then throw (unsupportedByAgent FEATURE_LABEL_pairRequest) else mapMissingRoute e
  | _ => mapMissingRoute e
  end.
Definition requestPairing (address : jstr) (knownHealth : option Health) : Pair PairRequestHandle :=
  if negb (hasFeature knownHealth pairRequest) then throw (unsupportedByAgent FEATURE_LABEL_pairRequest)
  else
    target <- probeTarget address;;
    let fp := target_fingerprint target in
    client <- pinnedClient target;;
    p <- proof client fp;;
    let clientNonce := hex (randomBytes deps 16) in
    did <- lift (deviceId deps);;
    r <- catch (on_net (requestPair (transport deps) client label p.1.1 p.1.2 p.2 (hex (sha256 (hexToBytes clientNonce))) did))
               mapOlderPairProtocol;;
    if negb (nonempty r.1) then throw incomplete
    else
      catch (on_net (revealPair (transport deps) client r.1 clientNonce)) mapMissingRoute;;
      ret {| h_target := target; h_requestId := r.1; h_clientNonce := clientNonce;
             h_matchCode := matchCode fp clientNonce r.1; h_expiresInSeconds := r.2 |}.

(** One turn of the polling loop as the environment sees it. *)
Record Round := {
  aborted : bool;          (** the signal when the turn starts *)
  now : Z;                 (** the clock *)
  abortedAfter : bool      (** the signal when the reply arrives *)
}.
Definition past (t : Z) (deadline : option Z) : bool := match deadline with Some d => d <? t | None => false end.
(** [None]: still polling when the rounds end. *)
Fixpoint poll (client : Client) (h : PairRequestHandle) (deadline : option Z) (rounds : list Round) (transient : nat) : Pair (option Host) :=
  match rounds with
  | [] => ret None
  | r :: rest =>
      if aborted r then throw AbortError
      else if past (now r) deadline then throw PairExpired
      else fun st =>
        match on_net (pairRequestStatus (transport deps) client (h_requestId h) (h_clientNonce h)) st with
        | (st1, Ok s) =>
            if abortedAfter r then (st1, Err AbortError)
            else match s with
                 | pair_approved resp => (host <- commit (h_target h) resp;; ret (Some host)) st1
                 | pair_rejected => (st1, Err PairRejected)
                 | pair_pending => poll client h deadline rest 0 st1
                 end
        | (st1, Err e) =>
            match e with
            | AbortError | PairRejected | CertPinMismatch | MissingCertPin => (st1, Err e)
            | _ =>
                if bool_decide (errCode e = Some (js "NOT_FOUND")) && match e with AgentApiError _ _ _ _ => true | _ => false end
                then (st1, Err PairExpired)
                else if (5 <=? S transient)%nat then (st1, Err e)
                else poll client h deadline rest (S transient) st1
            end
        end
  end.
Definition awaitPairing (h : PairRequestHandle) (start : Z) (rounds : list Round) : Pair (option Host) :=
  client <- pinnedClient (h_target h);;
  poll client h ((fun s => start + (s + 5) * 1000) <$> h_expiresInSeconds h) rounds 0.

(** ** What pairing leaves behind *)

Inductive Flow :=
| FlowCode (code : jstr) | FlowLogin (username password : jstr) | FlowRegister (code username password : jstr)
| FlowApproved (h : PairRequestHandle) (start : Z) (rounds : list Round).
Definition run_flow (f : Flow) (target : PairingTarget) : Pair (option Host) :=
  match f with
  | FlowCode c => h <- pairWithCode target c;; ret (Some h)
  | FlowLogin u p => h <- loginWithAccount target u p;; ret (Some h)
  | FlowRegister c u p => h <- registerAccount target c u p;; ret (Some h)
  | FlowApproved h start rounds => awaitPairing h start rounds
  end.
Definition flow_target (f : Flow) (target : PairingTarget) : PairingTarget :=
  match f with FlowApproved h _ _ => h_target h | _ => target end.

(** Code that only sends requests under [pin] and leaves the host metadata alone. *)
Definition Careful {A} (pin : jstr) (m : Pair A) : Prop := forall st,
  kv (disk (m st).1) = kv (disk st) /\
  exists ns, sent (net (m st).1) = sent (net st) ++ ns /\ Forall (fun q => rq_pin q = Some pin) ns.

Lemma Careful_still {A} pin (m : Pair A) : (forall st, (m st).1 = st) -> Careful pin m.
Proof. intros H st. rewrite H. split; [done|]. exists []. by rewrite app_nil_r. Qed.
Lemma Careful_bind {A B} pin (m : Pair A) (f : A -> Pair B) : Careful pin m -> (forall a, Careful pin (f a)) -> Careful pin (bind m f).
Proof.
  intros Hm Hf st. unfold bind. destruct (Hm st) as (K1 & ns & E & H1). destruct (m st) as [st1 [a|e]]; [|by split; [|exists ns]].
  destruct (Hf a st1) as (K2 & ns2 & E2 & H2). simpl in *. split; [congruence|]. exists (ns ++ ns2).
  rewrite E2, E, app_assoc. split; [done|]. by apply Forall_app.
Qed.
Lemma Careful_net {A} pin c (m : M World jserror A) : cl_pin c = Some pin -> Sends (request_policy c) m -> Careful pin (on_net m).
Proof.
  intros Hc Hm st. unfold on_net. destruct (Hm (net st)) as (ns & E & H). destruct (m (net st)) as [w r]. simpl in *.
  split; [done|]. exists ns. split; [done|]. eapply Forall_impl; [exact H|]. intros q (Hq & _). congruence.
Qed.
Lemma loadOrCreate_kv rnd d : kv (loadOrCreate rnd d).1 = kv d.
Proof.
  unfold loadOrCreate, generate, SecureStore.read, SecureStore.write, bind, throw, ret.
  io_step; [done|]. simpl. io_step; [done|]. simpl. destruct (map_get _ _), (map_get _ _); try done.
  - destruct (tryParseKeyPair _ _); [|done]. by destruct (bool_decide _).
  - io_step; [done|]. simpl. by io_step.
Qed.
Lemma Careful_load {A} pin (f : KeyPair -> A) : Careful pin (on_ident (kp <- load (randomBytes deps);; ret (f kp))).
Proof.
  intros st. unfold on_ident, load, bind, ret. simpl.
  destruct (cached (ident st)); [|destruct (pending (ident st)) as [[]|]]; simpl;
    try (split; [done|]; exists []; by rewrite app_nil_r).
  pose proof (loadOrCreate_kv (randomBytes deps) (disk st)) as H. destruct (loadOrCreate _ _) as [d' [kp|e]]; simpl in *;
    (split; [done|]; exists []; by rewrite app_nil_r).
Qed.
Lemma Careful_proof pin c fp : cl_pin c = Some pin -> Careful pin (proof c fp).
Proof.
  intros Hc. apply Careful_bind; [|intros nonce; apply Careful_bind; [apply Careful_load|]; intros k; apply Careful_bind; [apply Careful_load|];
    intros sg; by apply Careful_still].
  eapply Careful_net; [exact Hc|].
  intros w. pose proof (Sends_perform (transport deps) c c_challenge w) as H. unfold perform, done, bind in H.
  destruct (challenge (transport deps) c w) as [w1 [r|e]]; exact H.
Qed.

(** From [st], everything sent was under [pin], and the list is as before or has the new host with its login. *)
Definition committed (pin : jstr) (target : PairingTarget) (st st' : PState) (h : Host) : Prop :=
  certFingerprint h = Some pin /\ host_address h = trim (target_address target) /\
  pin_on (disk st') (host_id h) = Some pin /\ (exists t, t <> [] /\ token_on (disk st') (host_id h) = Some t) /\
  hosts_on (disk st') = without (host_id h) (hosts_on (disk st)) ++ [h].
Definition Outcome (pin : jstr) (target : PairingTarget) (st : PState) (p : PState * result jserror (option Host)) : Prop :=
  (exists ns, sent (net p.1) = sent (net st) ++ ns /\ Forall (fun q => rq_pin q = Some pin) ns) /\
  match p.2 with
  | Ok (Some h) => committed pin target st p.1 h
  | _ => hosts_on (disk p.1) = hosts_on (disk st)
  end.

Lemma hosts_on_kv d d' : kv d = kv d' -> hosts_on d = hosts_on d'.
Proof. unfold hosts_on. by intros ->. Qed.
Lemma Outcome_from pin target st st1 p ns : kv (disk st1) = kv (disk st) -> sent (net st1) = sent (net st) ++ ns ->
  Forall (fun q => rq_pin q = Some pin) ns -> Outcome pin target st1 p -> Outcome pin target st p.
Proof.
  intros Hk E Hns [(ns2 & E2 & H2) H]. apply hosts_on_kv in Hk. split.
  - exists (ns ++ ns2). rewrite E2, E, app_assoc. split; [done|]. by apply Forall_app.
  - destruct p as [st' [[h|]|e]]; simpl in *; [|congruence..]. unfold committed in *. by rewrite <- Hk.
Qed.
Lemma Outcome_bind {A} pin target (m : Pair A) (f : A -> Pair (option Host)) st :
  Careful pin m -> (forall a st1, Outcome pin target st1 (f a st1)) -> Outcome pin target st (bind m f st).
Proof.
  intros Hm Hf. unfold bind. destruct (Hm st) as (Hk & ns & E & H1). destruct (m st) as [st1 [a|e]]; simpl in *.
  - eapply Outcome_from; eauto.
  - split; [by exists ns|]. by apply hosts_on_kv.
Qed.
Lemma Outcome_same pin target st r : (forall h, r <> Ok (Some h)) -> Outcome pin target st (st, r).
Proof.
  intros H. split; [exists []; by rewrite app_nil_r|]. destruct r as [[h|]|]; try done. by destruct (H h).
Qed.

Lemma pinnedClient_ok target pin st : normalizeFingerprint (Some (target_fingerprint target)) = Some pin ->
  exists c idx, cl_pin c = Some pin /\
    pinnedClient target st = ({| net := {| addrIndex := idx; lastGoodRoute := lastGoodRoute (net st); sent := sent (net st) |};
                                 disk := disk st; ident := ident st |}, Ok c).
Proof.
  intros Hp. unfold pinnedClient. rewrite Hp. unfold newAgentClient. simpl opt_pinnedFingerprint.
  rewrite (normalizeFingerprint_idem _ _ Hp). cbn [is_some negb andb is_truthy opt_deviceToken pinned_opts]. do 2 eexists. split; [|reflexivity]. done.
Qed.
Lemma Outcome_client pin target (f : Client -> Pair (option Host)) st :
  normalizeFingerprint (Some (target_fingerprint target)) = Some pin ->
  (forall c st1, cl_pin c = Some pin -> Outcome pin target st1 (f c st1)) -> Outcome pin target st (bind (pinnedClient target) f st).
Proof.
  intros Hp Hf. destruct (pinnedClient_ok target pin st Hp) as (c & idx & Hc & E). rewrite (bind_ok _ _ _ _ _ E).
  eapply (Outcome_from pin target st _ _ []); [| |constructor|by apply Hf]; [done|]. simpl. by rewrite app_nil_r.
Qed.
Lemma Outcome_commit pin target resp st : normalizeFingerprint (Some (target_fingerprint target)) = Some pin ->
  Outcome pin target st ((h <- commit target resp;; ret (Some h)) st).
Proof.
  intros Hp. unfold commit. rewrite Hp. destruct (_ || _) eqn:En; [by apply Outcome_same|]. apply orb_false_iff in En as [En _].
  pose proof (normalizeFingerprint_idem _ _ Hp) as Hi.
  unfold bind, on_disk, ret. pose proof (commitPairing_any (paired_host target pin resp) (pair_deviceToken resp) pin (disk st)) as H.
  destruct (commitPairing _ _ _ _) as [d' [[]|e]].
  - destruct H as (pin' & Hn & H1 & H2 & H3). rewrite Hi in Hn. injection Hn as <-.
    split; [exists []; by rewrite app_nil_r|]. split; [done|]. split; [done|]. split; [done|]. split; [|done].
    exists (pair_deviceToken resp). split; [|done]. intros E0. by rewrite E0 in En.
  - split; [exists []; by rewrite app_nil_r|]. by apply hosts_on_kv.
Qed.
Lemma Careful_lift {A} pin (r : result jserror A) : Careful pin (lift r).
Proof. by apply Careful_still. Qed.
Lemma Careful_check pin target : Careful pin (checkKnownPin target).
Proof.
  intros st. unfold checkKnownPin, on_disk, listHosts, KeyValueStore.get, bind, ret, throw. io_step; simpl;
    [|case_match]; simpl; (split; [done|]; exists []; by rewrite app_nil_r).
Qed.
(** A call of the client, as one of those its pin policy covers. *)
Lemma Careful_api {A} pin c (a : ApiCall) (m : M World jserror A) : cl_pin c = Some pin ->
  perform (transport deps) c a = (m;; ret tt) -> Careful pin (on_net m).
Proof.
  intros Hc E. eapply Careful_net; [exact Hc|]. intros w. pose proof (Sends_perform (transport deps) c a w) as H.
  rewrite E in H. unfold bind in H. destruct (m w) as [w1 [r|e]]; exact H.
Qed.

Lemma Outcome_poll pin target c h deadline rounds tr st : cl_pin c = Some pin -> target = h_target h ->
  normalizeFingerprint (Some (target_fingerprint target)) = Some pin ->
  Outcome pin target st (poll c h deadline rounds tr st).
Proof.
  intros Hc -> Hp. revert tr st. induction rounds as [|r rest IH]; intros tr st; cbn [poll]; [by apply Outcome_same|].
  destruct (aborted r); [by apply Outcome_same|]. destruct (past (now r) deadline); [by apply Outcome_same|].
  assert (Careful pin (on_net (pairRequestStatus (transport deps) c (h_requestId h) (h_clientNonce h)))) as Hm
    by (by eapply (Careful_api pin c (c_pairRequestStatus (h_requestId h) (h_clientNonce h)))).
  destruct (Hm st) as (Hk & ns & E & H1). destruct (on_net _ st) as [st1 [s|e]]; simpl in Hk, E.
  - eapply Outcome_from; eauto. destruct (abortedAfter r); [by apply Outcome_same|].
    destruct s; [apply IH | by apply Outcome_same | by apply Outcome_commit].
  - eapply Outcome_from; eauto. destruct e; try (by apply Outcome_same); cbv beta iota;
      (destruct (bool_decide _ && _); [by apply Outcome_same|]; destruct (5 <=? S tr)%nat; [by apply Outcome_same | apply IH]).
Qed.

(** The steps every flow ends with: a pinned client, the proof, the device id, one call, the commit. *)
Tactic Notation "flow_steps" uconstr(api) :=
  rewrite bind_assoc; apply Outcome_client; [done|]; intros c st1 Hc;
  rewrite bind_assoc; apply Outcome_bind; [by apply Careful_proof|]; intros pr st2;
  rewrite bind_assoc; apply Outcome_bind; [apply Careful_lift|]; intros did st3;
  rewrite bind_assoc; apply Outcome_bind; [by eapply (Careful_api _ c api)|]; intros resp st4; by apply Outcome_commit.
Lemma run_flow_outcome f target pin st : normalizeFingerprint (Some (target_fingerprint (flow_target f target))) = Some pin ->
  Outcome pin (flow_target f target) st (run_flow f target st).
Proof.
  intros Hp. destruct f as [code|u p|code u p|h start rounds]; cbn [flow_target] in Hp; unfold run_flow, flow_target,
    pairWithCode, loginWithAccount, registerAccount, awaitPairing.
  - flow_steps (c_pair _ _ _ _ _ _).
  - rewrite bind_assoc. apply Outcome_bind; [apply Careful_check|]. intros b st0.
    flow_steps (c_login _ _ _ _ _ _ _).
  - rewrite bind_assoc. apply Outcome_bind; [apply Careful_check|]. intros b st0.
    flow_steps (c_register _ _ _ _ _ _ _ _).
  - apply Outcome_client; [done|]. intros c st1 Hc. by apply Outcome_poll.
Qed.

(** Nothing was sent and nothing paired. *)
Definition Refused (st : PState) (p : PState * result jserror (option Host)) : Prop :=
  is_ok p.2 = false /\ sent (net p.1) = sent (net st) /\ kv (disk p.1) = kv (disk st).
Lemma checkKnownPin_still target st : exists d r, checkKnownPin target st = ({| net := net st; disk := d; ident := ident st |}, r) /\
  kv d = kv (disk st) /\
  ((exists h, h ∈ hosts_on (disk st) /\ sameAddress (host_address h) (target_address target) = true /\
      normalizeFingerprint (certFingerprint h) <> Some (target_fingerprint target)) -> is_ok r = false).
Proof.
  unfold checkKnownPin, on_disk, listHosts, KeyValueStore.get, bind, ret, throw. io_step; [by do 2 eexists|]. simpl.
  fold (hosts_on (disk st)). destruct (List.existsb _ _) eqn:Ex; [by do 2 eexists|].
  do 2 eexists. split; [done|]. split; [done|]. intros (h & Hin & Hsame & Hn). exfalso.
  apply existsb_false_forall in Ex. rewrite Forall_forall in Ex. specialize (Ex h). apply Hn.
  rewrite elem_filter_bool in Ex. specialize (Ex (conj Hin Hsame)). by breflect.
Qed.
Lemma Refused_after_check {A} target (f : bool -> Pair A) (g : A -> Pair (option Host)) st :
  (forall b st1, Refused st1 (bind (f b) g st1)) -> Refused st (bind (bind (checkKnownPin target) f) g st).
Proof.
  intros Hf. rewrite bind_assoc. unfold bind at 1. destruct (checkKnownPin_still target st) as (d & r & -> & Hk & _).
  destruct r as [b|e]; [|done]. destruct (Hf b {| net := net st; disk := d; ident := ident st |}) as (H1 & H2 & H3).
  split; [done|]. split; [done|]. simpl in H3. congruence.
Qed.
Lemma run_flow_refused f target st : normalizeFingerprint (Some (target_fingerprint (flow_target f target))) = None ->
  Refused st (run_flow f target st).
Proof.
  intros Hp.
  assert (forall A (f : Client -> Pair A) (g : A -> Pair (option Host)) st1, normalizeFingerprint (Some (target_fingerprint target)) = None ->
    Refused st1 (bind (bind (pinnedClient target) f) g st1)) as Hc by (intros A f' g st1 E; unfold bind, pinnedClient; by rewrite E).
  destruct f as [code|u p|code u p|h start rounds]; cbn [flow_target] in Hp; unfold run_flow, pairWithCode, loginWithAccount, registerAccount.
  - by apply Hc.
  - apply Refused_after_check. intros b st1. by apply Hc.
  - apply Refused_after_check. intros b st1. by apply Hc.
  - unfold awaitPairing, bind, pinnedClient. by rewrite Hp.
Qed.

(** C6 Pairing in all its forms (code, sign-in, registration, approval on the
    computer), whatever the host answers, whatever storage fails and whenever the
    user aborts: without a valid fingerprint nothing is sent; otherwise every
    request carries the pin of the target; a host is reported only if it is
    listed, with that pin, at the target's address, and its pin and a non-empty
    token are in the secure store; in every other case the host list is
    unchanged.  A sign-in or registration at an address already saved under another
    certificate is refused before anything is sent; pairing by a scanned code does
    not make that check. *)
Theorem pairing_commits_pinned (f : Flow) (target : PairingTarget) (st : PState) :
  let t := flow_target f target in
  match normalizeFingerprint (Some (target_fingerprint t)) with
  | None => Refused st (run_flow f target st)
  | Some pin => Outcome pin t st (run_flow f target st)
  end /\
  (match f with FlowLogin _ _ | FlowRegister _ _ _ => True | _ => False end ->
   (exists h, h ∈ hosts_on (disk st) /\ toLowerCase (trim (host_address h)) = toLowerCase (trim (target_address target)) /\
      normalizeFingerprint (certFingerprint h) <> Some (target_fingerprint target)) ->
   Refused st (run_flow f target st)).
Proof.
  cbv zeta. split.
  - destruct (normalizeFingerprint _) as [pin|] eqn:E; [by apply run_flow_outcome | by apply run_flow_refused].
  - intros Hf (h & Hin & Ha & Hn). destruct (checkKnownPin_still target st) as (d & r & E & Hk & Hr).
    specialize (Hr ltac:(exists h; split_and!; [done | by apply bool_decide_eq_true | done])). destruct r; [done|].
    destruct f; try done; unfold run_flow, loginWithAccount, registerAccount, bind; by rewrite E.
Qed.

(** *** The polling loop ends *)

(** A turn that stops the loop whatever the host answers. *)
Definition stops (deadline : option Z) (r : Round) : bool := aborted r || past (now r) deadline.
Lemma poll_ends c h deadline rounds tr st : List.existsb (stops deadline) rounds = true -> (poll c h deadline rounds tr st).2 <> Ok None.
Proof.
  revert tr st. induction rounds as [|r rest IH]; intros tr st Hex; [done|]. cbn [poll]. simpl in Hex. unfold stops in Hex at 1.
  destruct (aborted r); [done|]. destruct (past (now r) deadline); [done|]. simpl in Hex.
  destruct (on_net _ st) as [st1 [s|e]].
  - destruct (abortedAfter r); [done|]. destruct s; [by apply IH | done|].
    unfold bind, ret. by destruct (commit _ _ st1) as [st2 [h'|e]].
  - destruct e; try done; cbv beta iota; (destruct (bool_decide _ && _); [done|]; destruct (5 <=? S tr)%nat; [done | by apply IH]).
Qed.

(** *** Commit, then reveal *)

(** A successful POST is exactly one request, with the body given. *)
Lemma post_once c path o w w' j : call (transport deps) c (js "POST") path o w = (w', Ok j) -> exists q,
  sent w' = sent w ++ [q] /\ rq_pin q = cl_pin c /\ rq_method q = js "POST" /\
  rq_bodyText q = match co_json o with Some b => Some (json_stringify b) | None => co_text o end /\
  (co_query o = None -> rq_url q = js "https://" ++ address_at c (addrIndex w) ++ js "/v1" ++ path) /\ addrIndex w' = addrIndex w /\
  exists r, transport deps (sent w) q = Ok r /\ (json_parse (rs_bodyText r) = Some j \/ j = JNull).
Proof.
  unfold call, callFull. rewrite bind_assoc. intros (w1 & res & E & H)%bind_inv.
  assert (w' = w1 /\ parse res = Ok j) as [-> Hp].
  { apply bind_inv in H as (w2 & r & H & H'). apply bind_inv in H as (w3 & b & H & H''). unfold lift, ret in *. injection H as <- ->. injection H'' as <- <-. cbn in H'. injection H' as <- <-. done. }
  clear H. revert E. unfold exchange, bind, get_state, catch. cbn iota beta. unfold send. destruct (_ && _); [done|].
  destruct (query_string _) as [q|] eqn:Eq; [|done]. cbn iota beta.
  match goal with |- context [transport deps ?l ?q] => destruct (transport deps l q) as [r|e] eqn:Et end.
  - intros [= <- <-]. cbn [sent]. eexists. split; [reflexivity|]. do 3 (split; [reflexivity|]). split; [|split; [reflexivity|]].
    + intros E. rewrite E in Eq. injection Eq as <-. cbn. by rewrite !app_nil_r.
    + exists r. split; [exact Et|]. unfold parse in Hp. destruct (nonempty (rs_bodyText r)); [|destruct (_ && _); [injection Hp as <-; by right | done]].
      destruct (json_parse (rs_bodyText r)), (_ && _); try done. left. congruence.
  - cbn iota beta. unfold throw. do 2 (destruct (bool_decide _); [done|]).
    change (isSafeToRetryOnFallback (js "POST")) with false. by rewrite orb_true_r.
Qed.

(** Building the proof sends one request, with no body, and signs its answer with the device key. *)
Definition device_key (st : PState) (kp : KeyPair) : Prop := (load (randomBytes deps) (ident st, disk st)).2 = Ok kp.
Lemma ident_key {A} (f : KeyPair -> A) a s s' : on_ident (kp <- load (randomBytes deps);; ret (f kp)) s = (s', Ok a) ->
  net s' = net s /\ exists kp, a = f kp /\ device_key s kp /\ device_key s' kp.
Proof.
  unfold on_ident, bind, ret, device_key. destruct (load _ (ident s, disk s)) as [[i d] [kp|e]] eqn:El; [|done]. intros [= <- <-]. split; [done|].
  exists kp. split; [done|]. split; [done|]. unfold load in *. cbn [fst snd ident disk] in *. destruct (cached (ident s)) eqn:Ec; [injection El as <- <- ->; by rewrite Ec|].
  destruct (pending (ident s)) as [r|] eqn:Ep; [injection El as <- <- ->; by rewrite Ec, Ep|]. destruct (loadOrCreate _ _) as [d' r]. by injection El as <- <- ->.
Qed.
(** [q] asks for a challenge and its answer has the nonce; the device key signs it with the pin. *)
Definition proved (c : Client) (fp : jstr) (st st' : PState) (q : TransportRequest) (pk nonce sg : jstr) : Prop :=
  rq_pin q = cl_pin c /\ rq_bodyText q = None /\ rq_url q = js "https://" ++ address_at c (addrIndex (net st)) ++ js "/v1/auth/challenge" /\
  (exists r fs, transport deps (sent (net st)) q = Ok r /\ json_parse (rs_bodyText r) = Some (JObj fs) /\ field (js "nonce") fs = Some (JStr nonce)) /\
  exists kp, device_key st' kp /\ pk = toBase64 (publicKey kp) /\
    sg = toBase64 (ed_sign (encode_text (js "rfe-device-proof-v2" ++ [10] ++ toLowerCase fp ++ [10] ++ nonce)) (seed kp)).
Lemma proof_once c fp st st' p : proof c fp st = (st', Ok p) -> exists q,
  sent (net st') = sent (net st) ++ [q] /\ addrIndex (net st') = addrIndex (net st) /\ proved c fp st st' q p.1.1 p.1.2 p.2.
Proof.
  unfold proof. intros (st1 & nonce & E1 & H)%bind_inv. apply bind_inv in H as (st2 & k & E2 & H). apply bind_inv in H as (st3 & sg & E3 & H).
  apply ident_key in E2 as (N2 & kp & -> & _ & K2). apply ident_key in E3 as (N3 & kp' & -> & K3 & K3'). injection H as <- <-. cbn [fst snd].
  assert (kp' = kp) as -> by (unfold device_key in *; congruence). rewrite N3, N2.
  unfold on_net in E1. destruct (challenge _ c (net st)) as [w r] eqn:Ec. injection E1 as <- ->. cbn [net].
  unfold challenge in Ec. apply bind_inv in Ec as (w1 & d & Ec & H).
  assert (w = w1 /\ exists fs, d = JObj fs /\ field (js "nonce") fs = Some (JStr nonce)) as [-> (fs & -> & Hn)].
  { destruct d as [| | | | |fs]; try discriminate H. destruct (field (js "nonce") fs) as [[]|] eqn:En; try discriminate H. cbn in H.
    repeat case_match; try discriminate H. injection H as -> <-. split; [done|]. by exists fs. }
  apply post_once in Ec as (q & Sq & Pq & _ & Bq & Uq & Iq & r & Tq & Jq). exists q. split; [done|]. split; [done|]. split; [done|]. split; [done|].
  split; [by apply Uq|]. split; [exists r, fs; destruct Jq; done|]. by exists kp.
Qed.

(** C7 Asking for approval commits before it reveals.  A successful request for pairing is exactly
    three requests, all pinned to the certificate the host presented: a challenge without a body;
    the request, whose body is the label of this phone, its public key, the nonce of the
    challenge, the device key's signature over the pin and that nonce, the SHA-256 of a fresh
    client nonce and the device id, and nothing else; and the reveal of the client nonce, sent for
    the id the host answered the second request with.  That id is the one polled for, and the
    match code shown is the eight digits of the HMAC of nonce and id under the pin. *)
Theorem requestPairing_commits_first (address : jstr) (known : option Health) (st st' : PState) (h : PairRequestHandle) :
  requestPairing address known st = (st', Ok h) ->
  let pin := target_fingerprint (h_target h) in
  let code := pad_start 8 48 (string_of_Z (be64 (hmac_sha256 (hexToBytes pin)
                (encode_text (js "rfe-pair-sas" ++ [10]) ++ hexToBytes (h_clientNonce h) ++ encode_text (h_requestId h))) mod 100000000)) in
  (exists presented, probe deps (js "https://" ++ authority_of address) = Ok presented /\ normalizeFingerprint (Some presented) = Some pin) /\
  h_clientNonce h = hex (randomBytes deps 16) /\ h_matchCode h = take 4 code ++ [32] ++ drop 4 code /\
  exists c st1 st2 q1 q2 q3 pk nonce sg did r2 fs v e,
    sent (net st') = sent (net st) ++ [q1; q2; q3] /\ sent (net st1) = sent (net st) /\
    Forall (fun q => rq_pin q = Some pin) [q1; q2; q3] /\
    proved c pin st1 st2 q1 pk nonce sg /\
    deviceId deps = Ok did /\
    rq_bodyText q2 = Some (json_stringify (JObj ([(js "deviceLabel", JStr (default (js "Mobile App") (deviceLabel deps)));
      (js "devicePublicKey", JStr pk); (js "nonce", JStr nonce); (js "signature", JStr sg);
      (js "clientNonceCommit", JStr (hex (sha256 (hexToBytes (h_clientNonce h)))))] ++ match did with Some (x :: d) => [(js "deviceId", JStr (x :: d))] | _ => [] end))) /\
    rq_url q2 = js "https://" ++ address_at c (addrIndex (net st1)) ++ js "/v1/pair/request" /\
    transport deps (sent (net st) ++ [q1]) q2 = Ok r2 /\ json_parse (rs_bodyText r2) = Some (JObj fs) /\
    field (js "requestId") fs = Some v /\ v <> JNull /\ h_requestId h = json_to_string v /\ h_requestId h <> [] /\
    encodeURIComponent (h_requestId h) = Some e /\
    rq_url q3 = js "https://" ++ address_at c (addrIndex (net st1)) ++ js "/v1/pair/request/" ++ e ++ js "/reveal" /\
    rq_bodyText q3 = Some (json_stringify (JObj [(js "clientNonce", JStr (h_clientNonce h))])).
Proof.
  unfold requestPairing. destruct (negb (hasFeature _ _)); [done|].
  intros (st1 & target & Et & H)%bind_inv.
  apply bind_inv in H as (st2 & c & Ec & H). apply bind_inv in H as (st3 & p & Ep & H). apply bind_inv in H as (st4 & did & Edid & H).
  apply bind_inv in H as (st5 & r & Er & H).
  destruct (nonempty r.1) eqn:En; [|done]. cbn [negb] in H. apply bind_inv in H as (st6 & u & Ev & H). injection H as <- <-.
  cbn [h_target h_matchCode h_clientNonce h_requestId].
  assert (st4 = st3 /\ deviceId deps = Ok did) as [-> Hdid] by (unfold lift in Edid; by injection Edid as -> ->). clear Edid.
  (* the target *)
  unfold probeTarget in Et. apply bind_inv in Et as (s1 & presented & Epr & Et). injection Epr as <- Epr.
  destruct (normalizeFingerprint (Some presented)) as [fp|] eqn:Ef; [|done]. injection Et as <- <-. cbn [target_fingerprint] in *.
  destruct (pinnedClient_ok {| target_address := authority_of address; target_fingerprint := fp |} fp st) as (c' & idx & Hc & Ec').
  { eapply normalizeFingerprint_idem, Ef. }
  rewrite Ec' in Ec. injection Ec as <- <-.
  pose proof (proof_once _ _ _ _ _ Ep) as (q1 & S1 & I1 & P1). cbn [net sent addrIndex] in S1, I1.
  assert (forall A (m : M World jserror A) hd s s' (a : A), (forall e s0, is_ok (hd e s0).2 = false) -> catch (on_net m) hd s = (s', Ok a) ->
    exists w, m (net s) = (w, Ok a) /\ net s' = w) as Hcatch.
  { intros A m hd s s' a Hh. unfold catch, on_net. destruct (m (net s)) as [w [x|e]]; [intros [= <- <-]; eauto|].
    intros E. specialize (Hh e {| net := w; disk := disk s; ident := ident s |}). by rewrite E in Hh. }
  apply Hcatch in Er as (w5 & Er & N5).
  2:{ intros e s0. unfold mapOlderPairProtocol, mapMissingRoute, throw. repeat case_match; done. }
  apply Hcatch in Ev as (w6 & Ev & N6); [|done].
  unfold requestPair in Er. apply bind_inv in Er as (w & d & Er & H). apply bind_inv in H as (w' & x & Hx & H). apply bind_inv in H as (w'' & y & Hy & H).
  injection H as -> Hr. injection Hx as -> Hx. injection Hy as -> _.
  apply post_once in Er as (q2 & S2 & P2 & _ & B2 & U2 & I2 & r2 & T2 & J2).
  unfold revealPair in Ev. apply bind_inv in Ev as (w & e & Ee & H). unfold enc, lift in Ee. injection Ee as <- Ee. apply bind_inv in H as (w7 & d7 & Ev & H). injection H as -> _.
  apply post_once in Ev as (q3 & S3 & P3 & _ & B3 & U3 & _ & _).
  assert (exists fs v, d = JObj fs /\ field (js "requestId") fs = Some v /\ v <> JNull /\ r.1 = json_to_string v) as (fs & v & -> & Hv & Hnn & Hid).
  { rewrite <- Hr in En. cbn [fst] in En. rewrite <- Hr. cbn [fst]. destruct d as [| | | | |fs]; cbn in Hx; try discriminate Hx; injection Hx as <-; cbn in En; try discriminate En.
    exists fs. destruct (field (js "requestId") fs) as [v|]; [|discriminate En]. exists v. destruct v; try discriminate En; by split_and!. }
  destruct (encodeURIComponent r.1) as [e'|] eqn:Ee'; [injection Ee as <- | discriminate Ee].
  split; [eauto|]. split; [done|]. split; [done|].
  exists c', {| net := {| addrIndex := idx; lastGoodRoute := lastGoodRoute (net st); sent := sent (net st) |}; disk := disk st; ident := ident st |}, st3, q1, q2, q3, p.1.1, p.1.2, p.2, did, r2, fs, v, e'. split; [rewrite N6, S3, N5, S2, S1; by rewrite <- !app_assoc|]. split; [reflexivity|].
  split; [destruct P1 as (P1 & _); repeat constructor; congruence|]. split; [exact P1|]. split; [done|].
  split; [rewrite B2; unfold with_json, with_device_id, opt_json, label; cbn [co_json]; destruct did as [[|]|]; reflexivity|].
  split; [rewrite U2, I1 by done; reflexivity|]. split; [by rewrite <- S1|]. split; [by destruct J2|]. split; [done|]. split; [done|]. split; [done|].
  split; [intros E0; by rewrite E0 in En|]. split; [done|]. split; [|exact B3]. rewrite U3 by done. rewrite N5, I2, I1. cbn [net addrIndex]. reflexivity.
Qed.
End Pairing.

(** ** A concrete request *)

Module Example_.
#[export] Instance codec : JsonCodec := plain_codec.
#[export] Instance unicode : Unicode := ascii_unicode.
#[export] Instance dates : DateParse := fun _ => None.
#[export] Instance curve : Ed25519 := toy_curve.
#[export] Instance hash : Hash := {| sha256 := fun m => rev m; hmac_sha256 := fun _ m => replicate 32 1 |}.

Definition reply (j : json) : result jserror TransportResponse :=
  Ok {| rs_status := 200; rs_headers := []; rs_bodyText := json_stringify j |}.
(** A computer that accepts the request. *)
Definition host_transport : Transport := fun _ q =>
  if ends_with (js "/auth/challenge") (rq_url q) then reply (JObj [(js "nonce", JStr (js "n-1")); (js "proof", JStr (js "v2"))])
  else if ends_with (js "/pair/request") (rq_url q) then reply (JObj [(js "requestId", JStr (js "rid1")); (js "expiresInSeconds", JNum 120)])
  else reply JNull.
Definition sample_deps : PairingDeps := {|
  transport := host_transport; deviceId := Ok None; deviceLabel := None;
  probe := fun _ => Ok (replicate 64 65); randomBytes := fun n => replicate n 5 |}.
Definition fresh : PState := {|
  net := {| addrIndex := 0; lastGoodRoute := []; sent := [] |};
  disk := {| kv := []; secure := []; cleaned := []; faults := [] |};
  ident := {| cached := None; pending := None |} |}.
End Example_.
Import Example_.

Lemma requestPairing_commits_first_witness : exists st' h,
  requestPairing sample_deps (js " https://10.0.0.2:8765/ ") None fresh = (st', Ok h) /\
  exists q1 q2 q3, sent (net st') = [q1; q2; q3] /\ rq_bodyText q1 = None /\
    rq_bodyText q3 = Some (json_stringify (JObj [(js "clientNonce", JStr (h_clientNonce h))])).
Proof.
  destruct (requestPairing sample_deps (js " https://10.0.0.2:8765/ ") None fresh) as [st' [h|e]] eqn:E; [|vm_compute in E; discriminate E].
  exists st', h. split; [reflexivity|].
  destruct (requestPairing_commits_first sample_deps (js " https://10.0.0.2:8765/ ") None fresh st' h E)
    as (_ & _ & _ & c & st1 & st2 & q1 & q2 & q3 & pk & nonce & sg & did & r2 & fs & v & e & H & _ & _ & (_ & H1 & _) & _ & _ & _ & _ & _ & _ & _ & _ & _ & _ & _ & H3).
  exists q1, q2, q3. split; [exact H|]. split; [exact H1 | exact H3].
Defined.

(** Pairing by code with a computer that does not answer as expected: everything is pinned, nothing is saved. *)
Lemma pairing_commits_pinned_witness :
  let target := {| target_address := js "10.0.0.2:8765"; target_fingerprint := replicate 64 65 |} in
  let p := run_flow sample_deps (FlowCode (js "123456")) target fresh in
  is_ok p.2 = false /\ length (sent (net p.1)) = 2%nat /\
  exists ns, sent (net p.1) = sent (net fresh) ++ ns /\ Forall (fun q => rq_pin q = Some (replicate 64 97)) ns.
Proof.
  intros target p. split; [vm_compute; reflexivity|]. split; [vm_compute; reflexivity|].
  pose proof (proj1 (pairing_commits_pinned sample_deps (FlowCode (js "123456")) target fresh)) as H. cbv zeta in H.
  change (target_fingerprint (flow_target _ target)) with (replicate 64 65) in H.
  assert (normalizeFingerprint (Some (replicate 64 65)) = Some (replicate 64 97)) as E by (vm_compute; reflexivity).
  rewrite E in H. exact (proj1 H).
Defined.
