(* ===== verification/FetchQueue.v ===== *)
(** * The thumbnail fetch queue

    [features/explorer/fetchQueue.ts]: bounded concurrency, one job per key shared
    by its subscribers, and a job that is dropped or cancelled once its last
    subscriber leaves.  Jobs and subscribers are objects with identity, so the
    state is a store of jobs and of subscribers addressed by index; the promise a
    [load] returns settles as an event.  Any sequence of events is a run. *)

From Stdlib Require Import ZArith Lia Bool.
From Stdlib Require List.
From S2P Require Import Prelude JsCollections JsString.

Section FetchQueue.
Context {T Er : Type}.
Variables (maxConcurrent : nat) (cancelledValue : T).

Inductive Settled := Resolve (v : T) | Reject (e : Er).
Record Job := {
  j_key : jstr;
  j_started : bool;
  j_abandoned : bool;
  j_aborted : bool;        (** [aborter.aborted] *)
  j_subs : list nat
}.
Record Sub := { s_job : nat; s_done : bool }.
Record Queue := {
  jobs : list Job;
  subs : list Sub;
  inFlight : list (jstr * nat);
  pending : list nat;
  active : nat;
  running : list nat;               (** jobs whose [load] has not settled *)
  answers : list (nat * Settled)    (** settled promises, in order *)
}.
Definition empty_queue : Queue :=
  {| jobs := []; subs := []; inFlight := []; pending := []; active := 0; running := []; answers := [] |}.

Definition job_at (q : Queue) (j : nat) : option Job := jobs q !! j.
Definition set_job (f : Job -> Job) (j : nat) (q : Queue) : Queue :=
  {| jobs := alter f j (jobs q); subs := subs q; inFlight := inFlight q; pending := pending q; active := active q;
     running := running q; answers := answers q |}.
Definition set_inFlight (m : list (jstr * nat)) (q : Queue) : Queue :=
  {| jobs := jobs q; subs := subs q; inFlight := m; pending := pending q; active := active q;
     running := running q; answers := answers q |}.
Definition set_pending (p : list nat) (q : Queue) : Queue :=
  {| jobs := jobs q; subs := subs q; inFlight := inFlight q; pending := p; active := active q;
     running := running q; answers := answers q |}.

(** [job.started = true; this.active++; void this.run(job)]: [load] is called at once. *)
Definition start (j : nat) (q : Queue) : Queue :=
  let q1 := set_job (fun b => {| j_key := j_key b; j_started := true; j_abandoned := j_abandoned b;
                                 j_aborted := j_aborted b; j_subs := j_subs b |}) j q in
  {| jobs := jobs q1; subs := subs q1; inFlight := inFlight q1; pending := pending q1; active := S (active q1);
     running := running q1 ++ [j]; answers := answers q1 |}.
Definition idle_job (q : Queue) (j : nat) : bool :=
  match job_at q j with
  | Some b => j_abandoned b || (length (j_subs b) =? 0)%nat
  | None => true
  end.
(** The [while] loop over [pending]. *)
Fixpoint pump_loop (p : list nat) (q : Queue) : Queue :=
  match p with
  | [] => set_pending [] q
  | j :: rest =>
      if (active q <? maxConcurrent)%nat
      then if idle_job q j then pump_loop rest q else pump_loop rest (start j q)
      else set_pending (j :: rest) q
  end.
Definition pump (q : Queue) : Queue := pump_loop (pending q) q.

(** [sub.done = true; sub.job.subs.delete(sub); ...]: the subscriber's promise settles. *)
Definition settle_sub (s : nat) (r : Settled) (q : Queue) : Queue :=
  match subs q !! s with
  | None => q
  | Some b =>
      if s_done b then q
      else
        let q1 := set_job (fun j => {| j_key := j_key j; j_started := j_started j; j_abandoned := j_abandoned j;
                                       j_aborted := j_aborted j; j_subs := set_delete s (j_subs j) |}) (s_job b) q in
        {| jobs := jobs q1; subs := <[s := {| s_job := s_job b; s_done := true |}]> (subs q1); inFlight := inFlight q1;
           pending := pending q1; active := active q1; running := running q1; answers := answers q1 ++ [(s, r)] |}
  end.

(** [request]: join the job in flight for the key, or queue a new one. *)
Definition join (key : jstr) (j : nat) (q : Queue) : Queue :=
  let s := length (subs q) in
  let q1 := set_job (fun b => {| j_key := j_key b; j_started := j_started b; j_abandoned := j_abandoned b;
                                 j_aborted := j_aborted b; j_subs := j_subs b ++ [s] |}) j q in
  {| jobs := jobs q1; subs := subs q1 ++ [{| s_job := j; s_done := false |}]; inFlight := inFlight q1;
     pending := pending q1; active := active q1; running := running q1; answers := answers q1 |}.
Definition new_job (key : jstr) (q : Queue) : Queue :=
  let j := length (jobs q) in
  {| jobs := jobs q ++ [{| j_key := key; j_started := false; j_abandoned := false; j_aborted := false; j_subs := [] |}];
     subs := subs q; inFlight := map_set key j (inFlight q); pending := pending q ++ [j]; active := active q;
     running := running q; answers := answers q |}.
Definition request (key : jstr) (q : Queue) : Queue :=
  pump (match map_get key (inFlight q) with
        | Some j => join key j q
        | None => join key (length (jobs q)) (new_job key q)
        end).

(** [if (this.inFlight.get(job.key) === job) this.inFlight.delete(job.key)]. *)
Definition forget (j : nat) (q : Queue) : Queue :=
  match job_at q j with
  | Some b => if bool_decide (map_get (j_key b) (inFlight q) = Some j)
              then set_inFlight (map_delete (j_key b) (inFlight q)) q else q
  | None => q
  end.
(** The last subscriber left: abandon the job, and cancel it or drop it from the queue. *)
Definition abandon (j : nat) (q : Queue) : Queue :=
  match job_at q j with
  | None => q
  | Some b =>
      let q1 := set_job (fun b => {| j_key := j_key b; j_started := j_started b; j_abandoned := true;
                                     j_aborted := j_aborted b; j_subs := j_subs b |}) j q in
      let q2 := forget j q1 in
      if j_started b
      then set_job (fun b => {| j_key := j_key b; j_started := j_started b; j_abandoned := j_abandoned b;
                                j_aborted := true; j_subs := j_subs b |}) j q2
      else set_pending (set_delete j (pending q2)) q2
  end.
Definition cancel (s : nat) (q : Queue) : Queue :=
  match subs q !! s with
  | None => q
  | Some b =>
      if s_done b then q
      else
        let j := s_job b in
        let q1 := settle_sub s (Resolve cancelledValue) q in
        match job_at q1 j with
        | None => q1
        | Some jb => if (0 <? length (j_subs jb))%nat then q1 else pump (abandon j q1)
        end
  end.

(** [run] after its [await]: deliver, then free the slot. *)
Definition deliver (j : nat) (r : Settled) (q : Queue) : Queue :=
  match job_at q j with
  | Some b => if j_abandoned b then q else fold_left (fun q s => settle_sub s r q) (j_subs b) q
  | None => q
  end.
Definition loaded (j : nat) (r : Settled) (q : Queue) : Queue :=
  let q1 := forget j (deliver j r q) in
  pump {| jobs := jobs q1; subs := subs q1; inFlight := inFlight q1; pending := pending q1; active := pred (active q1);
          running := set_delete j (running q1); answers := answers q1 |}.

Inductive QEvent := ERequest (key : jstr) | ECancel (s : nat) | ELoaded (j : nat) (r : Settled).
Definition qstep (e : QEvent) (q : Queue) : Queue :=
  match e with
  | ERequest key => request key q
  | ECancel s => cancel s q
  | ELoaded j r => if bool_decide (j ∈ running q) then loaded j r q else q   (* a promise settles once *)
  end.
Definition qrun (es : list QEvent) : Queue := fold_left (fun q e => qstep e q) es empty_queue.

(** ** Invariant *)

(** [QI x q]: the queue is consistent, except that job [x] may have lost its last subscriber. *)
Record QI (x : option nat) (q : Queue) : Prop := {
  i_active : active q = length (running q);
  i_max : (active q <= maxConcurrent)%nat;
  i_run_nd : NoDup (running q);
  i_run : forall j, j ∈ running q -> exists b, jobs q !! j = Some b /\ j_started b = true;
  i_pend_nd : NoDup (pending q);
  i_pend : forall j, j ∈ pending q -> exists b, jobs q !! j = Some b /\ j_started b = false /\ j_abandoned b = false /\
             (Some j <> x -> j_subs b <> []);
  i_sub : forall s b, subs q !! s = Some b -> s_done b = false -> exists jb, jobs q !! s_job b = Some jb /\ s ∈ j_subs jb;
  i_jsub : forall j jb s, jobs q !! j = Some jb -> s ∈ j_subs jb -> subs q !! s = Some {| s_job := j; s_done := false |};
  i_live : forall j jb, jobs q !! j = Some jb -> j_subs jb <> [] -> map_get (j_key jb) (inFlight q) = Some j;
  i_flight : forall k j, map_get k (inFlight q) = Some j -> (exists jb, jobs q !! j = Some jb /\ j_key jb = k /\
               j_abandoned jb = false /\ (Some j <> x -> j_subs jb <> [])) /\ (j ∈ pending q \/ j ∈ running q);
  i_ans_nd : NoDup (answers q).*1;
  i_ans : forall s, s ∈ (answers q).*1 <-> exists b, subs q !! s = Some b /\ s_done b = true
}.

Lemma alter_Some {A} (f : A -> A) (i : nat) (l : list A) (j : nat) (b : A) :
  alter f i l !! j = Some b <-> (j = i /\ exists a, l !! i = Some a /\ b = f a) \/ (j <> i /\ l !! j = Some b).
Proof.
  destruct (decide (j = i)) as [->|Hne].
  - rewrite list_lookup_alter_eq. destruct (l !! i); simpl; naive_solver.
  - rewrite list_lookup_alter_ne by done. naive_solver.
Qed.
Lemma snoc_Some {A} (l : list A) x i y : (l ++ [x]) !! i = Some y <-> l !! i = Some y \/ (i = length l /\ y = x).
Proof.
  rewrite lookup_snoc_Some. split; [intros [[? ?]|[? ?]]; auto | intros [H|[? ?]]; [left|right]; auto].
  split; [by eapply lookup_lt_Some | done].
Qed.

(** *** The loop over the queue *)

Lemma QI_start x j rest q b : QI x (set_pending (j :: rest) q) -> (active q < maxConcurrent)%nat ->
  jobs q !! j = Some b -> QI x (set_pending rest (start j q)).
Proof.
  intros [H1 H2 H3 H4 H5 H6 H7 H8 H9 H10 H11 H12] Hlt Hj. simpl in *. apply NoDup_cons in H5 as [Hnin H5].
  destruct (H6 j) as (b' & Hb & Hs & Ha & Hne); [left|]. rewrite Hj in Hb. injection Hb as <-.
  assert (j ∉ running q) as Hnr.
  { intros Hr. apply H4 in Hr as (b' & E & Hst). rewrite Hj in E. injection E as <-. congruence. }
  split; simpl; try done.
  - rewrite length_app, H1. simpl. lia.
  - apply NoDup_app. split; [done|]. split; [set_solver | apply NoDup_singleton].
  - intros k [Hk| ->]%elem_snoc.
    + destruct (H4 k Hk) as (b' & E & Hst). destruct (decide (k = j)) as [->|Hkj]; [done|].
      exists b'. rewrite list_lookup_alter_ne by done. done.
    + rewrite list_lookup_alter_eq, Hj. by eexists.
  - intros k Hk. destruct (H6 k) as (b' & E & H'); [by right|]. exists b'. rewrite list_lookup_alter_ne by congruence. done.
  - intros s sb Hs' Hd. destruct (H7 s sb Hs' Hd) as (jb & E & Hin). destruct (decide (s_job sb = j)) as [Ej|Hk].
    + rewrite Ej in *. rewrite list_lookup_alter_eq, E. by eexists.
    + rewrite list_lookup_alter_ne by done. eauto.
  - intros k jb s Hk Hin. apply alter_Some in Hk as [[-> (a & E & ->)]|[_ E]]; eauto.
  - intros k jb Hk Hsub. apply alter_Some in Hk as [[-> (a & E & ->)]|[_ E]]; simpl in *; eauto.
  - intros key k Hk. destruct (H10 key k Hk) as [(jb & E & Hkey & Hab & Hn) Hpr]. split.
    + destruct (decide (k = j)) as [->|Hkj].
      * rewrite list_lookup_alter_eq, E. by eexists.
      * rewrite list_lookup_alter_ne by done. eauto.
    + rewrite elem_snoc. destruct Hpr as [[-> |?]%elem_of_cons|?]; auto.
Qed.
Lemma QI_pump_loop p q : QI None (set_pending p q) ->
  QI None (pump_loop p q) /\ (pending (pump_loop p q) <> [] -> (maxConcurrent <= active (pump_loop p q))%nat).
Proof.
  revert q. induction p as [|j rest IH]; intros q H; cbn [pump_loop]; [done|].
  destruct (active q <? maxConcurrent)%nat eqn:E; breflect; [|done].
  destruct (i_pend _ _ H j) as (b & Hb & _ & Ha & Hne); [left|]. simpl in Hb.
  unfold idle_job, job_at. rewrite Hb, Ha. cbn [orb].
  assert ((length (j_subs b) =? 0)%nat = false) as ->.
  { apply Nat.eqb_neq. intros E0. apply length_zero_iff_nil in E0. by apply Hne. }
  apply IH. by eapply QI_start.
Qed.
Lemma QI_pump q : QI None q -> QI None (pump q) /\ (pending (pump q) <> [] -> (maxConcurrent <= active (pump q))%nat).
Proof. intros H. apply QI_pump_loop. by destruct q. Qed.

(** *** A new request *)

Lemma running_valid x q j : QI x q -> j ∈ running q -> (j < length (jobs q))%nat.
Proof. intros H Hj. destruct (i_run _ _ H j Hj) as (b & E & _). by eapply lookup_lt_Some. Qed.
Lemma QI_new_job key q : QI None q -> map_get key (inFlight q) = None -> QI (Some (length (jobs q))) (new_job key q).
Proof.
  intros H Hk. pose proof H as [H1 H2 H3 H4 H5 H6 H7 H8 H9 H10 H11 H12].
  assert (forall j, j ∈ pending q \/ j ∈ running q -> (j < length (jobs q))%nat) as Hlt.
  { intros j [Hj|Hj]; [destruct (H6 j Hj) as (b & E & _); by eapply lookup_lt_Some | by eapply running_valid]. }
  assert (forall (x : Job) j b, jobs q !! j = Some b -> (jobs q ++ [x]) !! j = Some b) as Hold by (intros; by apply lookup_app_l_Some).
  split; simpl; try done.
  - intros j Hj. destruct (H4 j Hj) as (b & E & Hs). eauto.
  - apply NoDup_app. split; [done|]. split; [|apply NoDup_singleton]. intros j Hj ->%list_elem_of_singleton.
    specialize (Hlt _ (or_introl Hj)). lia.
  - intros j [Hj| ->]%elem_snoc.
    + destruct (H6 j Hj) as (b & E & ? & ? & Hn). exists b. split; [by apply Hold|]. split; [done|]. split; [done|]. auto.
    + eexists. split; [by apply snoc_Some; right|]. done.
  - intros s b Hs Hd. destruct (H7 s b Hs Hd) as (jb & E & Hin). eauto.
  - intros j jb s [E|[-> ->]]%snoc_Some Hin; [eauto | by apply elem_of_nil in Hin].
  - intros j jb [E|[-> ->]]%snoc_Some Hn; [|done]. rewrite map_get_set_ne; [eauto|]. intros E2. specialize (H9 _ _ E Hn). congruence.
  - intros k j Hj. rewrite map_get_set in Hj. case_decide as Ek.
    + injection Hj as <-. subst k. split; [|left; apply elem_snoc; by right]. eexists. split; [by apply snoc_Some; right|]. done.
    + destruct (H10 k j Hj) as [(jb & E & ? & ? & Hn) Hpr]. split; [exists jb; split; [by apply Hold|]; auto|].
      rewrite elem_snoc. tauto.
Qed.
Lemma QI_join x key j q : QI x q -> x = None \/ x = Some j -> map_get key (inFlight q) = Some j -> QI None (join key j q).
Proof.
  intros H Hx Hk. destruct H as [H1 H2 H3 H4 H5 H6 H7 H8 H9 H10 H11 H12].
  destruct (H10 key j Hk) as [(b & Eb & Hkey & Hab & _) Hpr].
  assert (forall k, k <> j -> Some k <> x) as Hnx by (intros k Hne; destruct Hx as [->| ->]; congruence).
  assert (forall k b', jobs q !! k = Some b' -> exists b2, alter (fun b => {| j_key := j_key b; j_started := j_started b;
    j_abandoned := j_abandoned b; j_aborted := j_aborted b; j_subs := j_subs b ++ [length (subs q)] |}) j (jobs q) !! k = Some b2 /\
    j_key b2 = j_key b' /\ j_started b2 = j_started b' /\ j_abandoned b2 = j_abandoned b' /\
    (k <> j -> j_subs b2 = j_subs b') /\ (k = j -> j_subs b2 = j_subs b' ++ [length (subs q)])) as Hmap.
  { intros k b' E. destruct (decide (k = j)) as [->|Hne].
    - rewrite list_lookup_alter_eq, E. eexists. split; [reflexivity|]. simpl. done.
    - rewrite list_lookup_alter_ne, E by done. by exists b'. }
  assert (forall k b' b2, (k <> j -> j_subs b2 = j_subs b') -> (k = j -> j_subs b2 = j_subs b' ++ [length (subs q)]) ->
    (Some k <> x -> j_subs b' <> []) -> j_subs b2 <> []) as Hsubs.
  { intros k b' b2 Hs1 Hs2 Hn. destruct (decide (k = j)) as [E|Hne]; [rewrite Hs2 by done; by destruct (j_subs b') | rewrite Hs1 by done; auto]. }
  assert (forall s y, subs q !! s = Some y -> (subs q ++ [{| s_job := j; s_done := false |}]) !! s = Some y) as Hold
    by (intros; by apply lookup_app_l_Some).
  split; simpl; try done.
  - intros k Hk'. destruct (H4 k Hk') as (b' & E & Hs). destruct (Hmap k b' E) as (b2 & E2 & ? & ? & _). exists b2. split; congruence.
  - intros k Hk'. destruct (H6 k Hk') as (b' & E & Hs & Ha & Hn). destruct (Hmap k b' E) as (b2 & E2 & ? & ? & ? & Hs1 & Hs2).
    exists b2. split; [done|]. split; [congruence|]. split; [congruence|]. intros _. eauto.
  - intros s sb [Hs|[-> ->]]%snoc_Some Hd.
    + destruct (H7 s sb Hs Hd) as (jb & E & Hin). destruct (Hmap _ jb E) as (b2 & E2 & _ & _ & _ & Hs1 & Hs2). exists b2. split; [done|].
      destruct (decide (s_job sb = j)) as [Ej|Hne]; [rewrite Hs2 by done; apply elem_snoc; by left | by rewrite Hs1].
    + destruct (Hmap j b Eb) as (b2 & E2 & _ & _ & _ & _ & Hs2). exists b2. split; [done|]. rewrite Hs2 by done. apply elem_snoc. by right.
  - intros k jb s Hk' Hin. apply alter_Some in Hk' as [[-> (a & E & ->)]|[Hne E]]; simpl in *; [|eauto].
    apply elem_snoc in Hin as [Hin| ->]; [eauto | by apply snoc_Some; right].
  - intros k jb Hk' Hn. apply alter_Some in Hk' as [[-> (a & E & ->)]|[Hne E]]; simpl in *; [|eauto]. congruence.
  - intros k j' Hj'. destruct (H10 k j' Hj') as [(jb & E & ? & ? & Hn) Hpr']. split; [|done].
    destruct (Hmap j' jb E) as (b2 & E2 & ? & ? & ? & Hs1 & Hs2). exists b2. split; [done|]. split; [congruence|]. split; [congruence|]. intros _. eauto.
  - intros s. rewrite H12. split; intros (sb & E & Hd); [eauto|]. apply snoc_Some in E as [E|[-> ->]]; [eauto | done].
Qed.
Lemma QI_request key q : QI None q -> QI None (request key q) /\ (pending (request key q) <> [] -> (maxConcurrent <= active (request key q))%nat).
Proof.
  intros H. apply QI_pump. destruct (map_get key (inFlight q)) as [j|] eqn:E.
  - eapply QI_join; eauto.
  - eapply (QI_join (Some (length (jobs q)))); [by apply QI_new_job | by right |]. simpl. apply map_get_set_eq.
Qed.

(** *** A subscriber settles *)

Lemma QI_weaken x q : QI None q -> QI x q.
Proof.
  intros [H1 H2 H3 H4 H5 H6 H7 H8 H9 H10 H11 H12]. split; try done.
  - intros j Hj. destruct (H6 j Hj) as (b & ? & ? & ? & Hn). exists b. auto.
  - intros k j Hk. destruct (H10 k j Hk) as [(b & ? & ? & ? & Hn) ?]. split; [exists b; auto | done].
Qed.
(** What [settle_sub] leaves alone. *)
Lemma settle_sub_frame s r q : inFlight (settle_sub s r q) = inFlight q /\ pending (settle_sub s r q) = pending q /\
  active (settle_sub s r q) = active q /\ running (settle_sub s r q) = running q.
Proof. unfold settle_sub. destruct (subs q !! s) as [b|]; [|done]. by destruct (s_done b). Qed.
Lemma QI_settle_sub x s r q j : QI x q -> x = None \/ x = Some j -> subs q !! s = Some {| s_job := j; s_done := false |} ->
  QI (Some j) (settle_sub s r q) /\
  (forall b, jobs q !! j = Some b -> jobs (settle_sub s r q) !! j = Some {| j_key := j_key b; j_started := j_started b;
     j_abandoned := j_abandoned b; j_aborted := j_aborted b; j_subs := set_delete s (j_subs b) |}).
Proof.
  intros H Hx Hs. destruct H as [H1 H2 H3 H4 H5 H6 H7 H8 H9 H10 H11 H12].
  unfold settle_sub. rewrite Hs. cbn [s_done s_job]. split.
  2:{ intros b E. simpl. by rewrite list_lookup_alter_eq, E. }
  assert (forall k, k <> j -> Some k <> x) as Hnx by (intros k Hne; destruct Hx as [->| ->]; congruence).
  set (f := fun b => {| j_key := j_key b; j_started := j_started b; j_abandoned := j_abandoned b; j_aborted := j_aborted b;
                        j_subs := set_delete s (j_subs b) |}).
  assert (forall k b', jobs q !! k = Some b' -> exists b2, alter f j (jobs q) !! k = Some b2 /\
    j_key b2 = j_key b' /\ j_started b2 = j_started b' /\ j_abandoned b2 = j_abandoned b' /\ (k <> j -> j_subs b2 = j_subs b')) as Hmap.
  { intros k b' E. destruct (decide (k = j)) as [->|Hne].
    - rewrite list_lookup_alter_eq, E. by exists (f b').
    - rewrite list_lookup_alter_ne, E by done. by exists b'. }
  assert (s < length (subs q))%nat as Hlt by (by eapply lookup_lt_Some).
  split; simpl; try done.
  - intros k Hk'. destruct (H4 k Hk') as (b' & E & Hst). destruct (Hmap k b' E) as (b2 & E2 & ? & ? & _). exists b2. split; congruence.
  - intros k Hk'. destruct (H6 k Hk') as (b' & E & Hst & Ha & Hn). destruct (Hmap k b' E) as (b2 & E2 & ? & ? & ? & Hs1).
    exists b2. split; [done|]. split; [congruence|]. split; [congruence|]. intros Hne. rewrite Hs1 by congruence. apply Hn, Hnx. congruence.
  - intros s' sb Hs' Hd. apply list_lookup_insert_Some in Hs' as [(-> & <- & _)|[Hne Hs']]; [done|].
    destruct (H7 s' sb Hs' Hd) as (jb & E & Hin). destruct (decide (s_job sb = j)) as [Ej|Hnj].
    + rewrite Ej in *. exists (f jb). rewrite list_lookup_alter_eq, E. split; [done|]. simpl. apply elem_set_delete. by split; [|].
    + rewrite list_lookup_alter_ne by done. eauto.
  - intros k jb s' Hk' Hin. apply alter_Some in Hk' as [[-> (a & E & ->)]|[Hne E]]; simpl in *.
    + apply elem_set_delete in Hin as [Hne Hin]. rewrite list_lookup_insert_ne by done. eauto.
    + rewrite list_lookup_insert_ne; [eauto|]. intros <-. rewrite (H8 _ _ _ E Hin) in Hs. congruence.
  - intros k jb Hk' Hn. apply alter_Some in Hk' as [[-> (a & E & ->)]|[Hne E]]; simpl in *; [|eauto].
    apply (H9 j a E). intros E0. by rewrite E0 in Hn.
  - intros k j' Hj'. destruct (H10 k j' Hj') as [(jb & E & ? & ? & Hn) Hpr']. split; [|done].
    destruct (Hmap j' jb E) as (b2 & E2 & ? & ? & ? & Hs1). exists b2. split; [done|]. split; [congruence|]. split; [congruence|].
    intros Hne. rewrite Hs1 by congruence. apply Hn, Hnx. congruence.
  - rewrite fmap_app. apply NoDup_app. split; [done|]. split; [|apply NoDup_singleton].
    intros s' Hs' ->%list_elem_of_singleton. apply H12 in Hs' as (sb & E & Hd). simpl in E. rewrite Hs in E. by injection E as <-.
  - intros s'. rewrite fmap_app. change ((fst <$> [(s, r)])) with [s]. rewrite elem_snoc. split.
    + intros [(sb & E & Hd)%H12| ->].
      * destruct (decide (s' = s)) as [Es|Hne]; [rewrite Es, Hs in E; by injection E as <-|].
        exists sb. by rewrite list_lookup_insert_ne.
      * eexists. split; [by apply list_lookup_insert_eq|]. done.
    + intros (sb & E & Hd). apply list_lookup_insert_Some in E as [(-> & _)|[Hne E]]; [by right|]. left. apply H12. eauto.
Qed.

(** *** The last subscriber leaves *)

Lemma forget_frame j q : jobs (forget j q) = jobs q /\ subs (forget j q) = subs q /\ pending (forget j q) = pending q /\
  active (forget j q) = active q /\ running (forget j q) = running q /\ answers (forget j q) = answers q.
Proof. unfold forget, job_at. destruct (jobs q !! j) as [b|]; [|done]. by destruct (bool_decide _). Qed.
(** Forgetting a job without subscribers takes it out of flight. *)
Lemma forget_flight x j q b : QI x q -> jobs q !! j = Some b ->
  (forall k i, map_get k (inFlight (forget j q)) = Some i <-> map_get k (inFlight q) = Some i /\ i <> j).
Proof.
  intros H Hb k i. unfold forget, job_at. rewrite Hb.
  assert (forall k', map_get k' (inFlight q) = Some j -> k' = j_key b) as Hkey.
  { intros k' Hk. destruct (i_flight _ _ H k' j Hk) as [(b' & E & <- & _) _]. congruence. }
  destruct (bool_decide _) eqn:E; breflect; simpl.
  - rewrite map_get_delete. case_decide as Ek.
    + subst k. rewrite E. split; [done|]. intros [[= ->] ?]. done.
    + split; [|by intros [? _]]. intros Hi. split; [done|]. intros ->. apply Hkey in Hi. congruence.
  - split; [|by intros [? _]]. intros Hi. split; [done|]. intros ->. apply Hkey in Hi as Hk. subst k. done.
Qed.

(** Taking a job without subscribers out of flight, of the queue and of the running set. *)
Lemma QI_drop j q q' b : QI (Some j) q -> jobs q !! j = Some b -> j_subs b = [] ->
  (forall k i, map_get k (inFlight q') = Some i <-> map_get k (inFlight q) = Some i /\ i <> j) ->
  subs q' = subs q -> answers q' = answers q -> pending q' = set_delete j (pending q) ->
  (forall k, k ∈ running q' <-> k ∈ running q /\ (k <> j \/ k ∈ running q')) -> NoDup (running q') ->
  active q' = length (running q') -> (active q' <= maxConcurrent)%nat ->
  (forall k b', jobs q' !! k = Some b' -> exists b0, jobs q !! k = Some b0 /\ (k <> j -> b' = b0) /\ j_subs b' = j_subs b0) ->
  (forall k b0, jobs q !! k = Some b0 -> exists b', jobs q' !! k = Some b' /\ (k <> j -> b' = b0) /\ j_started b' = j_started b0) ->
  QI None q'.
Proof.
  intros [H1 H2 H3 H4 H5 H6 H7 H8 H9 H10 H11 H12] Hb Hnil Hfl Hsub Hans Hpend Hrun Hnd Hact Hmax Hback Hfwd.
  split; try done; rewrite ?Hsub, ?Hans, ?Hpend; try done.
  - intros k Hk. apply Hrun in Hk as [Hk _]. destruct (H4 k Hk) as (b0 & E & Hs). destruct (Hfwd k b0 E) as (b' & E' & _ & Hs').
    exists b'. split; congruence.
  - by apply NoDup_set_delete.
  - intros k [Hne Hk]%elem_set_delete. destruct (H6 k Hk) as (b0 & E & Hs & Ha & Hn). destruct (Hfwd k b0 E) as (b' & E' & Hq & _).
    rewrite Hq in E' by done. exists b0. repeat split; auto. intros _. apply Hn. congruence.
  - intros s sb Hs Hd. destruct (H7 s sb Hs Hd) as (jb & E & Hin). destruct (Hfwd _ jb E) as (b' & E' & Hq & _).
    destruct (decide (s_job sb = j)) as [Ej|Hne].
    + rewrite Ej, Hb in E. injection E as <-. rewrite Hnil in Hin. by apply elem_of_nil in Hin.
    + exists b'. rewrite Hq by done. by rewrite Hq in E' by done.
  - intros k jb s Hk Hin. destruct (Hback k jb Hk) as (b0 & E & _ & Hsb). rewrite Hsb in Hin. eauto.
  - intros k jb Hk Hn. destruct (Hback k jb Hk) as (b0 & E & Hq & Hsb). apply Hfl.
    destruct (decide (k = j)) as [->|Hne]; [rewrite Hb in E; injection E as <-; congruence|].
    rewrite Hq in * by done. split; [by apply H9 | done].
  - intros k i [Hi Hne]%Hfl. destruct (H10 k i Hi) as [(jb & E & ? & ? & Hn) Hpr]. destruct (Hfwd i jb E) as (b' & E' & Hq & _).
    rewrite Hq in E' by done. split.
    + exists jb. repeat split; auto. intros _. apply Hn. congruence.
    + rewrite elem_set_delete. destruct Hpr as [Hp|Hr]; [by left | right]. apply Hrun. split; [done | by left].
Qed.

Lemma QI_strengthen j q b : QI (Some j) q -> jobs q !! j = Some b -> j_subs b <> [] -> QI None q.
Proof.
  intros [H1 H2 H3 H4 H5 H6 H7 H8 H9 H10 H11 H12] Hb Hne. split; try done.
  - intros k Hk. destruct (H6 k Hk) as (b' & E & ? & ? & Hn). exists b'. repeat split; auto. intros _.
    destruct (decide (k = j)) as [->|]; [congruence | apply Hn; congruence].
  - intros key k Hk. destruct (H10 key k Hk) as [(b' & E & ? & ? & Hn) ?]. split; [|done]. exists b'. repeat split; auto. intros _.
    destruct (decide (k = j)) as [->|]; [congruence | apply Hn; congruence].
Qed.
Lemma QI_abandon j q b : QI (Some j) q -> jobs q !! j = Some b -> j_subs b = [] -> QI None (abandon j q).
Proof.
  intros H Hb Hnil. unfold abandon, job_at. rewrite Hb.
  set (f := fun b => {| j_key := j_key b; j_started := j_started b; j_abandoned := true; j_aborted := j_aborted b; j_subs := j_subs b |}).
  assert (forall k i, map_get k (inFlight (forget j (set_job f j q))) = Some i <-> map_get k (inFlight q) = Some i /\ i <> j) as Hfl.
  { intros k i. rewrite <- (forget_flight _ j q b H Hb k i). unfold forget, job_at. simpl. rewrite list_lookup_alter_eq, Hb. simpl.
    by destruct (bool_decide _). }
  destruct (forget_frame j (set_job f j q)) as (Fj & Fs & Fp & Fa & Fr & Fn).
  destruct (j_started b) eqn:Est.
  - eapply (QI_drop j q); eauto.
    + simpl. rewrite Fp. simpl. symmetry. unfold set_delete. apply List.forallb_filter_id, forallb_forall_true, Forall_forall.
      intros k Hk. apply negb_true_iff, bool_decide_eq_false. intros ->. destruct (i_pend _ _ H j Hk) as (b' & E & Hs & _). congruence.
    + intros k. simpl. rewrite Fr. simpl. tauto.
    + simpl. rewrite Fr. apply H.
    + simpl. rewrite Fa, Fr. apply H.
    + simpl. rewrite Fa. apply H.
    + intros k b' E. simpl in E. rewrite Fj in E. simpl in E. apply alter_Some in E as [[-> (a & E & ->)]|[Hne E]].
      * apply alter_Some in E as [[_ (a' & E & ->)]|[? _]]; [|done]. exists a'. done.
      * apply alter_Some in E as [[? _]|[_ E]]; [done|]. by exists b'.
    + intros k b0 E. simpl. rewrite Fj. simpl. destruct (decide (k = j)) as [->|Hne].
      * rewrite !list_lookup_alter_eq, E. simpl. by eexists.
      * rewrite !list_lookup_alter_ne by done. by exists b0.
  - eapply (QI_drop j q); eauto.
    + simpl. by rewrite Fp.
    + intros k. simpl. rewrite Fr. simpl. tauto.
    + simpl. rewrite Fr. apply H.
    + simpl. rewrite Fa, Fr. apply H.
    + simpl. rewrite Fa. apply H.
    + intros k b' E. simpl in E. rewrite Fj in E. simpl in E. apply alter_Some in E as [[-> (a & E & ->)]|[Hne E]]; [by exists a | by exists b'].
    + intros k b0 E. simpl. rewrite Fj. simpl. destruct (decide (k = j)) as [->|Hne].
      * rewrite !list_lookup_alter_eq, E. simpl. by eexists.
      * rewrite !list_lookup_alter_ne by done. by exists b0.
Qed.

(** Consistent, and no job waits while a slot is free. *)
Definition QOk (q : Queue) : Prop := QI None q /\ (pending q <> [] -> (maxConcurrent <= active q)%nat).

Lemma QOk_cancel s q : QOk q -> QOk (cancel s q).
Proof.
  intros [H Hfull]. unfold cancel. destruct (subs q !! s) as [[j dn]|] eqn:Es; [|done]. cbn [s_done s_job]. destruct dn; [done|].
  destruct (i_sub _ _ H s _ Es eq_refl) as (jb & Ej & Hin). simpl in Ej.
  destruct (QI_settle_sub None s (Resolve cancelledValue) q j H (or_introl eq_refl) Es) as [H' Hj].
  specialize (Hj jb Ej). unfold job_at. rewrite Hj. cbn [j_subs].
  destruct (0 <? length (set_delete s (j_subs jb)))%nat eqn:E; breflect.
  - destruct (settle_sub_frame s (Resolve cancelledValue) q) as (_ & Fp & Fa & _). split; [|by rewrite Fp, Fa].
    eapply QI_strengthen; [exact H' | exact Hj|]. simpl. intros E0. rewrite E0 in E. simpl in E. lia.
  - apply QI_pump. eapply QI_abandon; [exact H' | exact Hj|]. simpl. destruct (set_delete s (j_subs jb)); [done | simpl in E; lia].
Qed.

(** *** A load settles *)

Lemma QI_deliver_subs j r l q b : QI (Some j) q -> jobs q !! j = Some b -> (forall s, s ∈ j_subs b -> s ∈ l) ->
  let q' := fold_left (fun q s => settle_sub s r q) l q in
  (forall s, s ∈ l -> exists d, subs q !! s = Some {| s_job := j; s_done := d |}) ->
  QI (Some j) q' /\ running q' = running q /\ exists b', jobs q' !! j = Some b' /\ j_subs b' = [].
Proof.
  revert q b. induction l as [|s l IH]; intros q b H Hb Hsub q' Hall; simpl in q'.
  - split; [done|]. split; [done|]. exists b. split; [done|]. destruct (j_subs b) as [|x y]; [done|].
    assert (x ∈ []) as Hx by (apply Hsub; left). by apply elem_of_nil in Hx.
  - destruct (Hall s) as [d Es]; [left|]. destruct (settle_sub_frame s r q) as (_ & _ & _ & Fr). destruct d.
    + assert (settle_sub s r q = q) as E by (unfold settle_sub; by rewrite Es). unfold q'. rewrite E.
      eapply IH; [done | exact Hb | | intros; apply Hall; by right].
      intros x Hx. pose proof (Hsub x Hx) as [Exs|?]%elem_of_cons; [|done]. rewrite Exs in Hx. rewrite (i_jsub _ _ H _ _ _ Hb Hx) in Es. done.
    + destruct (QI_settle_sub (Some j) s r q j H (or_intror eq_refl) Es) as [H' Hj]. specialize (Hj b Hb).
      unfold q'. destruct (IH _ _ H' Hj) as (I1 & I2 & I3).
      * simpl. intros x [Hne Hx]%elem_set_delete. by pose proof (Hsub x Hx) as [Exs|?]%elem_of_cons.
      * intros x Hx. destruct (Hall x) as [d Ex]; [by right|]. unfold settle_sub. rewrite Es. simpl.
        destruct (decide (x = s)) as [->|Hne]; [|rewrite list_lookup_insert_ne by done; eauto].
        exists true. apply list_lookup_insert_eq. by eapply lookup_lt_Some.
      * split; [done|]. split; [congruence | done].
Qed.
Lemma QOk_loaded j r q : QOk q -> j ∈ running q -> QOk (loaded j r q).
Proof.
  intros [H _] Hr. destruct (i_run _ _ H j Hr) as (b & Eb & Est).
  assert (exists b', QI (Some j) (deliver j r q) /\ running (deliver j r q) = running q /\ jobs (deliver j r q) !! j = Some b' /\ j_subs b' = [])
    as (b' & H1 & Hrun & Eb' & Hnil).
  { unfold deliver, job_at. rewrite Eb. destruct (j_abandoned b) eqn:Ea.
    - exists b. split; [by apply QI_weaken|]. split; [done|]. split; [done|]. destruct (j_subs b) as [|x y] eqn:Ex; [done|].
      assert (map_get (j_key b) (inFlight q) = Some j) as Hk by (apply (i_live _ _ H); [done | by rewrite Ex]).
      destruct (i_flight _ _ H _ _ Hk) as [(b2 & E2 & _ & Ha & _) _]. congruence.
    - destruct (QI_deliver_subs j r (j_subs b) q b (QI_weaken _ _ H) Eb ltac:(done)) as (I1 & I2 & b2 & I3 & I4); [|eauto].
      intros s Hs. eexists. by apply (i_jsub _ _ H j b s). }
  apply QI_pump. destruct (forget_frame j (deliver j r q)) as (Fj & Fs & Fp & Fa & Fr & Fn).
  assert (j ∉ pending (deliver j r q)) as Hnp.
  { intros Hp. destruct (i_pend _ _ H1 j Hp) as (b2 & E2 & Hs & _). destruct (i_run _ _ H1 j) as (b3 & E3 & Hs3); [congruence|]. congruence. }
  assert (length (set_delete j (running q)) = pred (length (running q))) as Hlen.
  { pose proof (i_run_nd _ _ H) as Hnd. revert Hr Hnd. generalize (running q). intros l. induction l as [|x l IH]; [by intros ?%elem_of_nil|].
    intros Hin [Hn Hd]%NoDup_cons. simpl. case_bool_decide as Ex; simpl.
    - subst x. f_equal. apply List.forallb_filter_id, forallb_forall_true, Forall_forall. intros k Hk.
      apply negb_true_iff, bool_decide_eq_false. congruence.
    - apply elem_of_cons in Hin as [?|Hin]; [congruence|]. rewrite IH by done. destruct l; [by apply elem_of_nil in Hin | done]. }
  eapply (QI_drop j (deliver j r q)); eauto; simpl; rewrite ?Fj, ?Fs, ?Fp, ?Fa, ?Fr, ?Fn, ?Hrun.
  - intros k i. by apply (forget_flight _ _ _ _ H1 Eb').
  - symmetry. apply List.forallb_filter_id, forallb_forall_true, Forall_forall. intros k Hk. apply negb_true_iff, bool_decide_eq_false. congruence.
  - intros k. rewrite elem_set_delete. tauto.
  - apply NoDup_set_delete, H.
  - rewrite (i_active _ _ H1), Hrun, Hlen. done.
  - pose proof (i_max _ _ H1). lia.
  - intros k b0 E. by exists b0.
  - intros k b0 E. by exists b0.
Qed.

Lemma QOk_empty : QOk empty_queue.
Proof. split; [|done]. split; simpl; try done; try lia; try constructor; try by intros; set_solver. Qed.
Lemma QOk_qstep e q : QOk q -> QOk (qstep e q).
Proof.
  intros H. destruct e as [key|s|j r]; simpl; [apply QI_request, H | by apply QOk_cancel |].
  case_bool_decide; [by apply QOk_loaded | done].
Qed.
Lemma qrun_snoc es e : qrun (es ++ [e]) = qstep e (qrun es).
Proof. unfold qrun. by rewrite fold_left_app. Qed.
Lemma QOk_qrun es : QOk (qrun es).
Proof. induction es as [|e es IH] using rev_ind; [apply QOk_empty | rewrite qrun_snoc; by apply QOk_qstep]. Qed.

(** *** Who a subscriber is, and what it is told *)

Definition sub_jobs (q : Queue) : list nat := s_job <$> subs q.
Definition job_keys (q : Queue) : list jstr := j_key <$> jobs q.
(** The same subscribers of the same jobs. *)
Definition same_ids (q q' : Queue) : Prop := sub_jobs q' = sub_jobs q /\ job_keys q' = job_keys q.

Lemma same_ids_trans q1 q2 q3 : same_ids q1 q2 -> same_ids q2 q3 -> same_ids q1 q3.
Proof. intros [] []. split; congruence. Qed.
Lemma fmap_alter_same {A B} (g : A -> B) (f : A -> A) (i : nat) (l : list A) : (forall a, g (f a) = g a) -> g <$> alter f i l = g <$> l.
Proof. intros H. revert i. induction l as [|a l IH]; intros [|i]; [done..| |]; cbn; [by rewrite H | f_equal; apply IH]. Qed.
Lemma pump_loop_ids p q : same_ids q (pump_loop p q) /\ answers (pump_loop p q) = answers q.
Proof.
  revert q. induction p as [|j p IH]; intros q; cbn [pump_loop]; [done|].
  destruct (active q <? maxConcurrent)%nat; [|done]. destruct (idle_job q j); [done|].
  destruct (IH (start j q)) as [H ->]. split; [|done]. eapply same_ids_trans; [|exact H]. split; [done|].
  unfold job_keys. simpl. by apply fmap_alter_same.
Qed.
Lemma settle_sub_ids s r q : same_ids q (settle_sub s r q) /\
  (answers (settle_sub s r q) = answers q \/ answers (settle_sub s r q) = answers q ++ [(s, r)]).
Proof.
  unfold settle_sub. destruct (subs q !! s) as [b|] eqn:E; [|by split; [|left]]. destruct (s_done b); [by split; [|left]|].
  split; [|by right]. split; unfold sub_jobs, job_keys; simpl.
  - rewrite list_fmap_insert. simpl. apply list_insert_id. by rewrite list_lookup_fmap, E.
  - by apply fmap_alter_same.
Qed.
Lemma abandon_ids j q : same_ids q (abandon j q) /\ answers (abandon j q) = answers q.
Proof.
  unfold abandon. destruct (job_at q j) as [b|]; [|done].
  set (q1 := set_job _ j q). destruct (forget_frame j q1) as (Fj & Fs & _ & _ & _ & Fn).
  destruct (j_started b); simpl; (split; [split; unfold sub_jobs, job_keys|]); simpl; rewrite ?Fj, ?Fs, ?Fn; try done;
    rewrite ?fmap_alter_same; try done; unfold q1; simpl; by rewrite ?fmap_alter_same.
Qed.
Lemma deliver_ids j r q : same_ids q (deliver j r q) /\
  (forall s v, (s, v) ∈ answers (deliver j r q) -> (s, v) ∈ answers q \/
     v = r /\ exists b, jobs q !! j = Some b /\ s ∈ j_subs b).
Proof.
  unfold deliver, job_at. destruct (jobs q !! j) as [b|] eqn:Eb; [|by split; [|intros; left]].
  destruct (j_abandoned b); [by split; [|intros; left]|].
  assert (forall l q', same_ids q' (fold_left (fun q s => settle_sub s r q) l q') /\
            (forall s v, (s, v) ∈ answers (fold_left (fun q s => settle_sub s r q) l q') -> (s, v) ∈ answers q' \/ v = r /\ s ∈ l)) as Hl.
  { induction l as [|x l IH]; intros q'; simpl; [by split; [|left]|]. destruct (settle_sub_ids x r q') as [Hi Ha].
    destruct (IH (settle_sub x r q')) as [Hi' Ha']. split; [by eapply same_ids_trans|].
    intros s v [Hv|[-> Hs]]%Ha'; [|right; split; [done | by right]].
    destruct Ha as [E|E]; rewrite E in Hv; [by left|]. apply elem_snoc in Hv as [Hv|[= -> ->]]; [by left | right; split; [done | left]]. }
  destruct (Hl (j_subs b) q) as [H1 H2]. split; [done|]. intros s v [H|[-> H]]%H2; [by left | right; eauto].
Qed.

Lemma cancel_ids s q : same_ids q (cancel s q) /\
  (forall t v, (t, v) ∈ answers (cancel s q) -> (t, v) ∈ answers q \/ t = s /\ v = Resolve cancelledValue).
Proof.
  unfold cancel. destruct (subs q !! s) as [b|]; [|by split; [|intros; left]]. destruct (s_done b); [by split; [|intros; left]|].
  destruct (settle_sub_ids s (Resolve cancelledValue) q) as [Hi Ha]. set (q1 := settle_sub s _ q) in *.
  assert (forall t v, (t, v) ∈ answers q1 -> (t, v) ∈ answers q \/ t = s /\ v = Resolve cancelledValue) as Ha'.
  { intros t v Hv. destruct Ha as [E|E]; rewrite E in Hv; [by left|]. apply elem_snoc in Hv as [Hv|[= -> ->]]; auto. }
  destruct (job_at q1 (s_job b)) as [jb|]; [|done]. destruct (0 <? _)%nat; [done|].
  destruct (abandon_ids (s_job b) q1) as [Hi2 Ea]. destruct (pump_loop_ids (pending (abandon (s_job b) q1)) (abandon (s_job b) q1)) as [Hi3 Ep].
  split; [|unfold pump; by rewrite Ep, Ea]. eapply same_ids_trans; [exact Hi|]. by eapply same_ids_trans.
Qed.
Lemma loaded_ids j r q : same_ids q (loaded j r q) /\
  (forall s v, (s, v) ∈ answers (loaded j r q) -> (s, v) ∈ answers q \/ v = r /\ exists b, jobs q !! j = Some b /\ s ∈ j_subs b).
Proof.
  unfold loaded, pump. destruct (deliver_ids j r q) as [Hi Ha]. destruct (forget_frame j (deliver j r q)) as (Fj & Fs & _ & _ & _ & Fn).
  match goal with |- context [pump_loop ?p ?q'] => destruct (pump_loop_ids p q') as [Hi2 Ep] end.
  split; [|intros s v Hv; rewrite Ep in Hv; simpl in Hv; rewrite Fn in Hv; by apply Ha]. eapply same_ids_trans; [exact Hi|]. eapply same_ids_trans; [|exact Hi2].
  split; unfold sub_jobs, job_keys; simpl; by rewrite ?Fs, ?Fj.
Qed.

Definition requested (es : list QEvent) : list jstr := omap (fun e => match e with ERequest k => Some k | _ => None end) es.
(** The i-th request made is the i-th subscriber, of a job for the requested key. *)
Definition ids_ok (es : list QEvent) (q : Queue) : Prop :=
  length (requested es) = length (sub_jobs q) /\
  (forall i k, requested es !! i = Some k -> exists j, sub_jobs q !! i = Some j /\ job_keys q !! j = Some k).
(** A subscriber is told its job's result, or the cancelled value if it left. *)
Definition answers_ok (es : list QEvent) (q : Queue) : Prop :=
  forall s r, (s, r) ∈ answers q ->
    (r = Resolve cancelledValue /\ ECancel s ∈ es) \/ (exists j, sub_jobs q !! s = Some j /\ ELoaded j r ∈ es).

Lemma job_key_at q j b : jobs q !! j = Some b -> job_keys q !! j = Some (j_key b).
Proof. intros E. unfold job_keys. by rewrite list_lookup_fmap, E. Qed.
Lemma join_ids es q key j : ids_ok es q -> job_keys q !! j = Some key -> ids_ok (es ++ [ERequest key]) (join key j q).
Proof.
  intros [Hl H] Hj. assert (job_keys (join key j q) = job_keys q) as Ek by (unfold job_keys; simpl; by apply fmap_alter_same).
  assert (sub_jobs (join key j q) = sub_jobs q ++ [j]) as Es by (unfold sub_jobs; simpl; by rewrite fmap_app).
  unfold ids_ok, requested. rewrite omap_app, Ek, Es. fold (requested es). simpl. split; [rewrite !length_app; simpl; lia|].
  intros i k [Hi|[-> ->]]%snoc_Some.
  - destruct (H i k Hi) as (j' & E & Hk). exists j'. split; [by apply lookup_app_l_Some | done].
  - exists j. split; [by apply snoc_Some; right|done].
Qed.
Lemma request_ids es q key : QOk q -> ids_ok es q -> ids_ok (es ++ [ERequest key]) (request key q) /\
  answers (request key q) = answers q /\ sub_jobs q `prefix_of` sub_jobs (request key q).
Proof.
  intros [H _] Hok. unfold request, pump.
  match goal with |- context [pump_loop (pending ?q')] => set (q1 := q') end.
  destruct (pump_loop_ids (pending q1) q1) as [[Es Ek] ->].
  assert (ids_ok (es ++ [ERequest key]) q1 /\ answers q1 = answers q /\ exists j, sub_jobs q1 = sub_jobs q ++ [j]) as (I1 & I2 & j & I3).
  { unfold q1. destruct (map_get key (inFlight q)) as [j|] eqn:E.
    - split; [|split; [done | exists j; unfold sub_jobs; simpl; by rewrite fmap_app]]. apply join_ids; [done|].
      destruct (i_flight _ _ H key j E) as [(b & Eb & <- & _) _]. by apply job_key_at.
    - split; [|split; [done | eexists; unfold sub_jobs; simpl; by rewrite fmap_app]].
      assert (job_keys (new_job key q) = job_keys q ++ [key]) as Ek' by (unfold job_keys; simpl; by rewrite fmap_app).
      apply join_ids.
      + destruct Hok as [Hl Hok]. split; [done|]. intros i k Hi. destruct (Hok i k Hi) as (j & E1 & E2). exists j.
        split; [done|]. rewrite Ek'. by apply lookup_app_l_Some.
      + rewrite Ek'. apply snoc_Some. right. unfold job_keys. by rewrite length_fmap. }
  unfold ids_ok. rewrite Es, Ek. split; [exact I1|]. split; [done|]. rewrite I3. by exists [j].
Qed.
Lemma requested_other es e : (forall k, e <> ERequest k) -> requested (es ++ [e]) = requested es.
Proof. intros H. unfold requested. rewrite omap_app. destruct e; simpl; [by destruct (H key) | by rewrite app_nil_r..]. Qed.
Lemma answers_ok_mono es e q : answers_ok es q -> answers_ok (es ++ [e]) q.
Proof. intros H s r Hs. destruct (H s r Hs) as [[-> Hc]|(j & E & Hl)]; [left|right; exists j]; (split; [done|]); apply elem_snoc; by left. Qed.
Lemma qrun_ids es : ids_ok es (qrun es) /\ answers_ok es (qrun es).
Proof.
  induction es as [|e es IH] using rev_ind; [split; [done | by intros s r ?%elem_of_nil]|]. rewrite qrun_snoc.
  destruct IH as [I1 I2]. pose proof (QOk_qrun es) as HQ. set (q := qrun es) in *. apply (answers_ok_mono _ e) in I2.
  assert (forall q', (forall k, e <> ERequest k) -> same_ids q q' -> ids_ok (es ++ [e]) q') as Hsame.
  { intros q' Hne [Es Ek]. unfold ids_ok. by rewrite Es, Ek, requested_other. }
  destruct e as [key|s|j r]; cbn [qstep].
  - destruct (request_ids es q key HQ I1) as (J1 & J2 & J3). split; [done|]. intros s r Hs. rewrite J2 in Hs.
    destruct (I2 s r Hs) as [?|(j & E & Hl)]; [by left | right; exists j]. split; [by eapply prefix_lookup_Some | done].
  - destruct (cancel_ids s q) as [J1 J2]. split; [by apply Hsame|]. intros t r [Ht|[-> ->]]%J2.
    + rewrite (proj1 J1). by apply I2.
    + left. split; [done|]. apply elem_snoc. by right.
  - case_bool_decide; [|by split; [apply Hsame|]]. destruct (loaded_ids j r q) as [J1 J2]. split; [by apply Hsame|].
    intros t v [Ht|[-> (b & Eb & Hin)]]%J2; [rewrite (proj1 J1); by apply I2|].
    right. exists j. rewrite (proj1 J1). unfold sub_jobs. destruct HQ as [HQ _].
    rewrite list_lookup_fmap, (i_jsub _ _ HQ _ _ _ Eb Hin). split; [done|]. apply elem_snoc. by right.
Qed.

(** C10 Whatever order thumbnails are requested, cancelled and loaded in: at most
    [maxConcurrent] loads run; a job waits only while every slot is taken; the i-th request
    is a subscriber of a job for the key it asked for; nobody is answered twice, and an
    answer is the result of that job's load, or the cancelled value for a subscriber that
    left; whoever has no answer yet subscribes to the one job in flight for its key, and
    that job waits or runs; so once no load runs, everybody has been answered. *)
Theorem fetchQueue_correct es :
  let q := qrun es in
  ((active q <= maxConcurrent)%nat /\ active q = length (running q) /\ NoDup (running q)) /\
  (pending q <> [] -> active q = maxConcurrent) /\
  ids_ok es q /\
  NoDup (answers q).*1 /\ answers_ok es q /\
  (forall i k, requested es !! i = Some k -> i ∉ (answers q).*1 ->
     exists j, map_get k (inFlight q) = Some j /\ sub_jobs q !! i = Some j /\ (j ∈ pending q \/ j ∈ running q)) /\
  ((0 < maxConcurrent)%nat -> running q = [] -> forall i, (i < length (requested es))%nat -> i ∈ (answers q).*1).
Proof.
  intros q. destruct (QOk_qrun es) as [H Hfull]. destruct (qrun_ids es) as [I1 I2]. fold q in H, Hfull, I1, I2.
  assert (forall i k, requested es !! i = Some k -> i ∉ (answers q).*1 ->
     exists j, map_get k (inFlight q) = Some j /\ sub_jobs q !! i = Some j /\ (j ∈ pending q \/ j ∈ running q)) as Hlive.
  { intros i k Hi Hna. destruct (proj2 I1 i k Hi) as (j & E & Hk). exists j. unfold sub_jobs in E. rewrite list_lookup_fmap in E.
    destruct (subs q !! i) as [[j' d]|] eqn:Es; [|done]. injection E as E. simpl in E. subst j'. unfold job_keys in Hk. rewrite list_lookup_fmap in Hk.
    assert (d = false) as -> by (destruct d; [|done]; destruct Hna; apply (i_ans _ _ H); eauto).
    destruct (i_sub _ _ H i _ Es eq_refl) as (jb & Ej & Hin). simpl in Ej. rewrite Ej in Hk. injection Hk as <-.
    assert (map_get (j_key jb) (inFlight q) = Some j) as Hf by (apply (i_live _ _ H); [done | by intros E0; rewrite E0 in Hin; apply elem_of_nil in Hin]).
    split; [done|]. unfold sub_jobs. rewrite list_lookup_fmap, Es. split; [done|]. by apply (i_flight _ _ H _ _ Hf). }
  split; [split; [apply H | split; apply H]|]. split; [intros Hp; pose proof (i_max _ _ H); specialize (Hfull Hp); lia|].
  split; [done|]. split; [apply H|]. split; [done|]. split; [done|].
  intros Hmax Hrun i Hi. destruct (lookup_lt_is_Some_2 _ _ Hi) as [k Hk].
  destruct (decide (i ∈ (answers q).*1)) as [|Hn]; [done|]. exfalso. destruct (Hlive i k Hk Hn) as (j & _ & _ & [Hp|Hr]).
  - destruct (pending q) eqn:Ep; [by apply elem_of_nil in Hp|]. pose proof (i_active _ _ H) as Ha. rewrite Hrun in Ha. simpl in Ha.
    specialize (Hfull ltac:(done)). lia.
  - rewrite Hrun in Hr. by apply elem_of_nil in Hr.
Qed.
End FetchQueue.
