(* ===== verification/Csv.v ===== *)
(** * CSV preview

    [features/preview/csv.ts]: the table parser of the CSV viewer, and a grammar
    of CSV documents it is proved to read back exactly. *)

From Stdlib Require Import ZArith Lia Bool.
From Stdlib Require List.
From S2P Require Import Prelude JsCollections JsString.

Definition MAX_CSV_ROWS : nat := 1000.
Definition comma : jchar := 44.
Definition carriage : jchar := 13.

(** The local variables of the loop. *)
Record CsvState := {
  c_rows : list (list jstr);
  c_row : list jstr;
  c_field : jstr;
  c_inQuotes : bool;
  c_fieldQuoted : bool
}.
Definition csv_start : CsvState := {| c_rows := []; c_row := []; c_field := []; c_inQuotes := false; c_fieldQuoted := false |}.
Definition endField (st : CsvState) : CsvState := {|
  c_rows := c_rows st;
  c_row := c_row st ++ [if c_fieldQuoted st then c_field st else trim (c_field st)];
  c_field := []; c_inQuotes := c_inQuotes st; c_fieldQuoted := false |}.
Definition blank_row (row : list jstr) : bool := match row with [[]] => true | _ => false end.
Definition endRow (st : CsvState) : CsvState :=
  let s := endField st in {|
  c_rows := if blank_row (c_row s) then c_rows s else c_rows s ++ [c_row s];
  c_row := []; c_field := c_field s; c_inQuotes := c_inQuotes s; c_fieldQuoted := c_fieldQuoted s |}.
Definition add_char (c : jchar) (st : CsvState) : CsvState := {|
  c_rows := c_rows st; c_row := c_row st; c_field := c_field st ++ [c];
  c_inQuotes := c_inQuotes st; c_fieldQuoted := c_fieldQuoted st |}.
Definition open_quote (st : CsvState) : CsvState := {|
  c_rows := c_rows st; c_row := c_row st; c_field := c_field st; c_inQuotes := true; c_fieldQuoted := true |}.
Definition close_quote (st : CsvState) : CsvState := {|
  c_rows := c_rows st; c_row := c_row st; c_field := c_field st; c_inQuotes := false; c_fieldQuoted := c_fieldQuoted st |}.

(** The [for] loop; [""] inside quotes consumes two characters. *)
Fixpoint csv_loop (text : jstr) (st : CsvState) : CsvState :=
  match text with
  | [] => st
  | ch :: rest =>
      if c_inQuotes st
      then if ch =? quote
           then match rest with
                | d :: rest' => if d =? quote then csv_loop rest' (add_char quote st) else csv_loop rest (close_quote st)
                | [] => close_quote st
                end
           else csv_loop rest (add_char ch st)
      else if (ch =? quote) && negb (nonempty (c_field st)) then csv_loop rest (open_quote st)
      else if ch =? comma then csv_loop rest (endField st)
      else if ch =? newline then csv_loop rest (endRow st)
      else if negb (ch =? carriage) then csv_loop rest (add_char ch st)
      else csv_loop rest st
  end.
Definition parseCsvRows (text : jstr) : list (list jstr) :=
  let st := csv_loop text csv_start in
  c_rows (if nonempty (c_field st) || (0 <? length (c_row st))%nat then endRow st else st).

Record CsvData := { headers : list jstr; data_rows : list (list jstr); totalRows : nat }.
Definition parseCsv (text : jstr) : CsvData :=
  match parseCsvRows text with
  | [] => {| headers := []; data_rows := []; totalRows := 0 |}
  | h :: data => {| headers := h; data_rows := take MAX_CSV_ROWS data; totalRows := length data |}
  end.

(** ** A grammar of CSV documents *)

(** A field is written in quotes, or bare. *)
Inductive CsvField := Quoted (s : jstr) | Bare (s : jstr).
Definition escape (s : jstr) : jstr := mjoin ((fun c => if c =? quote then [quote; quote] else [c]) <$> s).
Definition field_text (f : CsvField) : jstr := match f with Quoted s => quote :: escape s ++ [quote] | Bare s => s end.
Definition field_value (f : CsvField) : jstr := match f with Quoted s => s | Bare s => trim s end.
(** Bare text holds no separator or line break, and does not begin with a quote. *)
Definition field_ok (f : CsvField) : Prop :=
  match f with
  | Quoted _ => True
  | Bare s => comma ∉ s /\ newline ∉ s /\ carriage ∉ s /\ head s <> Some quote
  end.
(** A line and whether it ends in CR LF. *)
Record CsvLine := { l_first : CsvField; l_more : list CsvField; l_crlf : bool }.
Definition line_fields (l : CsvLine) : list CsvField := l_first l :: l_more l.
Definition line_text (l : CsvLine) : jstr := join [comma] (field_text <$> line_fields l).
Definition terminator (l : CsvLine) : jstr := if l_crlf l then [carriage; newline] else [newline].
Definition line_ok (l : CsvLine) : Prop := Forall field_ok (line_fields l).
(** The last line may go without its terminator. *)
Record CsvDoc := { d_lines : list CsvLine; d_last : option CsvLine }.
Definition doc_text (d : CsvDoc) : jstr :=
  mjoin ((fun l => line_text l ++ terminator l) <$> d_lines d) ++ default [] (line_text <$> d_last d).
Definition doc_lines (d : CsvDoc) : list CsvLine := d_lines d ++ option_list (d_last d).
Definition doc_ok (d : CsvDoc) : Prop := Forall line_ok (doc_lines d).
(** The table: the values of every line that is not blank. *)
Definition doc_rows (d : CsvDoc) : list (list jstr) :=
  List.filter (fun r => negb (blank_row r)) ((fun l => field_value <$> line_fields l) <$> doc_lines d).

(** ** The parser reads the grammar *)

Definition st_at (rows : list (list jstr)) (row : list jstr) : CsvState :=
  {| c_rows := rows; c_row := row; c_field := []; c_inQuotes := false; c_fieldQuoted := false |}.
(** The state after a field's text: what it holds, and whether it was quoted. *)
Definition st_field (rows : list (list jstr)) (row : list jstr) (f : CsvField) : CsvState :=
  match f with
  | Quoted s => {| c_rows := rows; c_row := row; c_field := s; c_inQuotes := false; c_fieldQuoted := true |}
  | Bare s => {| c_rows := rows; c_row := row; c_field := s; c_inQuotes := false; c_fieldQuoted := false |}
  end.
Definition no_quote (rest : jstr) : Prop := head rest <> Some quote.

Lemma loop_quoted s rest rows row acc : no_quote rest ->
  csv_loop (escape s ++ quote :: rest) {| c_rows := rows; c_row := row; c_field := acc; c_inQuotes := true; c_fieldQuoted := true |}
  = csv_loop rest {| c_rows := rows; c_row := row; c_field := acc ++ s; c_inQuotes := false; c_fieldQuoted := true |}.
Proof.
  intros Hr. revert acc. induction s as [|c s IH]; intros acc.
  - simpl. rewrite app_nil_r. destruct rest as [|d r]; [done|]. destruct (d =? quote) eqn:E; [|done].
    breflect. subst d. by destruct Hr.
  - unfold escape. rewrite fmap_cons. cbn [mjoin]. fold (escape s). destruct (c =? quote) eqn:E.
    + breflect. subst c. change (csv_loop (escape s ++ quote :: rest) {| c_rows := rows; c_row := row; c_field := acc ++ [quote]; c_inQuotes := true; c_fieldQuoted := true |} = csv_loop rest {| c_rows := rows; c_row := row; c_field := acc ++ quote :: s; c_inQuotes := false; c_fieldQuoted := true |}).
      rewrite IH, <- app_assoc. done.
    + change (csv_loop (c :: escape s ++ quote :: rest) {| c_rows := rows; c_row := row; c_field := acc; c_inQuotes := true; c_fieldQuoted := true |} = csv_loop rest {| c_rows := rows; c_row := row; c_field := acc ++ c :: s; c_inQuotes := false; c_fieldQuoted := true |}).
      cbn [csv_loop c_inQuotes]. rewrite E. unfold add_char. cbn. rewrite IH, <- app_assoc. done.
Qed.
Lemma loop_bare s rest rows row acc : comma ∉ s -> newline ∉ s -> carriage ∉ s -> (acc = [] -> head s <> Some quote) ->
  csv_loop (s ++ rest) {| c_rows := rows; c_row := row; c_field := acc; c_inQuotes := false; c_fieldQuoted := false |}
  = csv_loop rest {| c_rows := rows; c_row := row; c_field := acc ++ s; c_inQuotes := false; c_fieldQuoted := false |}.
Proof.
  revert acc. induction s as [|c s IH]; intros acc Hc Hn Hr Hq; [simpl; by rewrite app_nil_r|].
  apply not_elem_of_cons in Hc as [Hc0 Hc]. apply not_elem_of_cons in Hn as [Hn0 Hn]. apply not_elem_of_cons in Hr as [Hr0 Hr].
  cbn [app csv_loop c_inQuotes c_field].
  replace ((c =? quote) && negb (nonempty acc)) with false.
  2:{ destruct (c =? quote) eqn:E; [|done]. breflect. subst c. destruct acc; [by destruct Hq | done]. }
  rewrite (proj2 (Z.eqb_neq c comma)), (proj2 (Z.eqb_neq c newline)), (proj2 (Z.eqb_neq c carriage)) by done. cbn [negb].
  unfold add_char. cbn. rewrite IH by (done || by destruct acc). by rewrite <- app_assoc.
Qed.
Lemma loop_field f rest rows row : field_ok f -> no_quote rest ->
  csv_loop (field_text f ++ rest) (st_at rows row) = csv_loop rest (st_field rows row f).
Proof.
  intros Hf Hr. destruct f as [s|s]; simpl in Hf |- *.
  - cbn. rewrite <- app_assoc. cbn [app]. unfold open_quote. cbn. by rewrite loop_quoted.
  - destruct Hf as (? & ? & ? & ?). unfold st_at. by rewrite loop_bare.
Qed.
Lemma endField_value rows row f : endField (st_field rows row f) = st_at rows (row ++ [field_value f]).
Proof. by destruct f. Qed.

(** All the fields of a line: the last one is still open. *)
Lemma loop_line f fs rest rows row : Forall field_ok (f :: fs) -> no_quote rest -> exists g,
  csv_loop (join [comma] (field_text <$> f :: fs) ++ rest) (st_at rows row) = csv_loop rest (st_field rows (row ++ (field_value <$> removelast (f :: fs))) g) /\
  last (f :: fs) = Some g.
Proof.
  revert f row. induction fs as [|g fs IH]; intros f row Hok Hr; apply Forall_cons in Hok as [Hf Hok].
  - exists f. cbn. rewrite app_nil_r. split; [|done]. by apply loop_field.
  - destruct (IH g (row ++ [field_value f]) Hok Hr) as (h & E & Hh). exists h. split; [|by rewrite last_cons_cons].
    change (join [comma] (field_text <$> f :: g :: fs)) with (field_text f ++ [comma] ++ join [comma] (field_text <$> g :: fs)).
    rewrite <- !app_assoc, loop_field; [|done|done]. cbn [app].
    assert (forall t st, c_inQuotes st = false -> csv_loop (comma :: t) st = csv_loop t (endField st)) as Hcomma.
    { intros t st Hst. cbn [csv_loop]. by rewrite Hst. }
    rewrite Hcomma by (by destruct f). rewrite endField_value, E, <- app_assoc. done.
Qed.
Lemma line_value f fs g : last (f :: fs) = Some g -> (field_value <$> removelast (f :: fs)) ++ [field_value g] = field_value <$> f :: fs.
Proof.
  intros H. apply last_Some in H as [l E]. rewrite E, List.removelast_last, fmap_app. done.
Qed.
Definition keep (rows : list (list jstr)) (r : list jstr) : list (list jstr) := if blank_row r then rows else rows ++ [r].
Lemma endRow_value rows row f : endRow (st_field rows row f) = st_at (keep rows (row ++ [field_value f])) [].
Proof. unfold endRow. by rewrite endField_value. Qed.
Lemma loop_terminated l rest rows : line_ok l ->
  csv_loop (line_text l ++ terminator l ++ rest) (st_at rows []) = csv_loop rest (st_at (keep rows (field_value <$> line_fields l)) []).
Proof.
  intros Hok. assert (no_quote (terminator l ++ rest)) as Hq by (unfold terminator, no_quote; by destruct (l_crlf l)).
  destruct (loop_line (l_first l) (l_more l) _ rows [] Hok Hq) as (g & E & Hg). unfold line_text, line_fields. rewrite E.
  rewrite <- (line_value _ _ g Hg), <- endRow_value. unfold terminator.
  assert (forall row, c_inQuotes (st_field rows row g) = false) as Hst by (by destruct g).
  destruct (l_crlf l); cbn [app csv_loop]; by rewrite !Hst.
Qed.

Lemma keep_filter rows rs :
  fold_left keep rs rows = rows ++ List.filter (fun r => negb (blank_row r)) rs.
Proof.
  revert rows. induction rs as [|r rs IH]; intros rows; simpl; [by rewrite app_nil_r|].
  rewrite IH. unfold keep. destruct (blank_row r); simpl; [done | by rewrite <- app_assoc].
Qed.
Lemma loop_lines ls rest rows : Forall line_ok ls ->
  csv_loop (mjoin ((fun l => line_text l ++ terminator l) <$> ls) ++ rest) (st_at rows []) =
  csv_loop rest (st_at (fold_left keep ((fun l => field_value <$> line_fields l) <$> ls) rows) []).
Proof.
  revert rows. induction ls as [|l ls IH]; intros rows Hok; [done|]. apply Forall_cons in Hok as [Hl Hok].
  change (csv_loop (((line_text l ++ terminator l) ++ mjoin ((fun l => line_text l ++ terminator l) <$> ls)) ++ rest) (st_at rows []) =
    csv_loop rest (st_at (fold_left keep ((fun l => field_value <$> line_fields l) <$> ls) (keep rows (field_value <$> line_fields l))) [])).
  rewrite <- !app_assoc, loop_terminated by done. by rewrite IH.
Qed.
(** The end of the text closes the last line, unless nothing of it was read. *)
Lemma loop_last l rows : line_ok l ->
  let st := csv_loop (line_text l) (st_at rows []) in
  c_rows (if nonempty (c_field st) || (0 <? length (c_row st))%nat then endRow st else st)
  = keep rows (field_value <$> line_fields l).
Proof.
  intros Hok st. destruct (loop_line (l_first l) (l_more l) [] rows [] Hok ltac:(done)) as (g & E & Hg).
  rewrite app_nil_r in E. fold (line_fields l) in E. fold (line_text l) in E. unfold st. rewrite E. cbn [csv_loop app].
  unfold line_fields. rewrite <- (line_value _ _ g Hg). set (row := field_value <$> removelast _).
  assert (c_row (st_field rows row g) = row) as -> by (by destruct g).
  destruct (nonempty (c_field (st_field rows row g)) || (0 <? length row)%nat) eqn:Ec; [by rewrite endRow_value|].
  breflect. destruct row; [|simpl in *; lia]. assert (field_value g = []) as ->; [|by destruct g].
  destruct g as [[|]|[|]]; done.
Qed.

(** A CSV document is read exactly: for every list of lines, each of one or more fields
    written in quotes (with doubled quotes, so it may hold commas, quotes and line breaks) or
    bare (then without separators and not starting with a quote), ended by LF or CR LF, the last
    line possibly unterminated, the parsed rows are the values of the fields (bare text trimmed,
    quoted text untouched) of every line that is not blank, and the preview shows the first of
    them as headers, at most 1000 of the others, and the number of all others. *)
Theorem parseCsv_reads (d : CsvDoc) : doc_ok d ->
  parseCsvRows (doc_text d) = doc_rows d /\
  headers (parseCsv (doc_text d)) = default [] (head (doc_rows d)) /\
  data_rows (parseCsv (doc_text d)) = take 1000 (tail (doc_rows d)) /\
  totalRows (parseCsv (doc_text d)) = length (tail (doc_rows d)).
Proof.
  intros Hok. assert (parseCsvRows (doc_text d) = doc_rows d) as E.
  { unfold doc_ok, doc_lines in Hok. apply Forall_app in Hok as [Hls Hlast].
    unfold parseCsvRows, doc_text, doc_rows, doc_lines. change csv_start with (st_at [] []).
    rewrite loop_lines by done. rewrite fmap_app, List.filter_app, <- keep_filter, keep_filter. cbn [app].
    destruct (d_last d) as [l|]; simpl default; simpl option_list; cbn [fmap list_fmap].
    - rewrite loop_last by (by inversion Hlast). done.
    - done. }
  split; [done|]. unfold parseCsv. rewrite E. by destruct (doc_rows d).
Qed.

Lemma parseCsv_reads_witness :
  let d := {| d_lines := [{| l_first := Bare (js " name "); l_more := [Quoted (js "a,b")]; l_crlf := true |};
                          {| l_first := Bare []; l_more := []; l_crlf := false |}];
              d_last := Some {| l_first := Quoted [newline; quote]; l_more := [Bare (js "5 in")]; l_crlf := false |} |} in
  doc_ok d /\ doc_rows d = [[js "name"; js "a,b"]; [[newline; quote]; js "5 in"]] /\ parseCsvRows (doc_text d) = doc_rows d.
Proof.
  intros d.
  assert (doc_ok d) as H.
  { unfold doc_ok, doc_lines, line_ok. simpl. repeat constructor; try done; simpl; by apply (bool_decide_unpack _). }
  split; [exact H|]. split; [vm_compute; reflexivity|]. exact (proj1 (parseCsv_reads d H)).
Defined.
