(* ===== verification/Search.v ===== *)
(** * Search

    [features/search/searchLogic.ts]: query modes, relevance order, filters;
    [searchController.ts] and [crossHostSearch.ts]: the two search state machines.
    A run suspends at each [await]; what it resumes with is an event, so the
    interleavings of overlapping runs are the event sequences. *)

From Stdlib Require Import ZArith Lia Bool Sorted Permutation.
From Stdlib Require List.
From S2P Require Import Prelude JsCollections JsString Json Errors Models Entries Host.

(** ** Search logic *)

Inductive SearchMode := substring | glob | regex.
Definition star : jchar := 42.
Definition question : jchar := 63.
Definition isGlobQuery (q : jstr) : bool := includes_char star q || includes_char question q.
Definition queryForMode (q : jstr) (mode : SearchMode) : jstr :=
  match mode with regex => star :: q ++ [star] | _ => q end.

Definition SEARCH_CATEGORIES : list EntryCategory :=
  [cat_folder; cat_image; cat_video; cat_audio; cat_document; cat_archive; cat_other].
Definition CATEGORY_LABEL (c : EntryCategory) : jstr :=
  match c with
  | cat_folder => js "searchCategoryFolders" | cat_image => js "searchCategoryImages"
  | cat_video => js "searchCategoryVideos" | cat_audio => js "searchCategoryAudio"
  | cat_document => js "searchCategoryDocs" | cat_archive => js "searchCategoryArchives"
  | cat_other => js "searchCategoryOther"
  end.

Definition MB : Z := 1024 * 1024.
Inductive SizePresetKey := size_any | mb1 | mb10 | mb100 | gb1.
#[export] Instance SizePresetKey_eq_dec : EqDecision SizePresetKey.
Proof. solve_decision. Defined.
Record SizePreset := { size_key : SizePresetKey; minBytes : option Z; size_label : jstr }.
Definition SIZE_PRESETS : list SizePreset := [
  {| size_key := size_any; minBytes := None; size_label := js "sizePresetAny" |};
  {| size_key := mb1; minBytes := Some MB; size_label := js "sizePresetMb1" |};
  {| size_key := mb10; minBytes := Some (10 * MB); size_label := js "sizePresetMb10" |};
  {| size_key := mb100; minBytes := Some (100 * MB); size_label := js "sizePresetMb100" |};
  {| size_key := gb1; minBytes := Some (1024 * MB); size_label := js "sizePresetGb1" |}].
Definition minBytesFor (key : SizePresetKey) : option Z :=
  p ← List.find (fun p => bool_decide (size_key p = key)) SIZE_PRESETS; minBytes p.

Definition HOUR : Z := 3600000.
Inductive DatePresetKey := date_any | last24h | last7d | last30d | thisYear.
Definition DATE_PRESETS : list (DatePresetKey * jstr) := [
  (date_any, js "datePresetAny"); (last24h, js "datePresetLast24h"); (last7d, js "datePresetLast7d");
  (last30d, js "datePresetLast30d"); (thisYear, js "datePresetThisYear")].

Record SearchFilters := {
  f_categories : list EntryCategory; f_size : SizePresetKey; f_date : DatePresetKey;
  f_fromHere : bool; f_includeHidden : bool; f_mode : SearchMode
}.
Definition defaultFilters : SearchFilters := {|
  f_categories := []; f_size := size_any; f_date := date_any; f_fromHere := true; f_includeHidden := false; f_mode := substring |}.
Definition activeFilterCount (f : SearchFilters) : nat :=
  length (f_categories f) + (match f_size f with size_any => 0 | _ => 1 end)
  + (match f_date f with date_any => 0 | _ => 1 end) + (if f_includeHidden f then 1 else 0).

Section Logic.
Context `{U : Unicode}.
(** [new Date(d.getFullYear(), 0, 1)]: when the local year of a time began (the device's time zone). *)
Variable year_start : Z -> Z.

Definition byName (a b : Entry) : Z :=
  let x := toLowerCase (entry_name a) in
  let y := toLowerCase (entry_name b) in
  if str_lt x y then -1 else if str_lt y x then 1 else 0.
Definition rank (q : jstr) (e : Entry) : Z := if starts_with q (toLowerCase (entry_name e)) then 0 else 1.
(** The comparator of each branch; [rank(a) - rank(b) || byName(a, b)]. *)
Definition relevance_cmp (query : jstr) : Entry -> Entry -> Z :=
  let q := toLowerCase (trim query) in
  if negb (nonempty q) || isGlobQuery query then byName
  else cmp_then (fun a b => rank q a - rank q b) byName.
Definition sortByRelevance (entries : list Entry) (query : jstr) : list Entry := sort_by (relevance_cmp query) entries.

Definition filterSearchResults (results : list Entry) (prefs : VisibilityPrefs) (includeHidden : bool) : list Entry :=
  if includeHidden then results else List.filter (fun e => negb (isEntryHidden e prefs)) results.
Definition highlightRange (name query : jstr) : option (nat * nat) :=
  let q := trim query in
  if negb (nonempty q) || isGlobQuery q then None
  else match index_of_str (toLowerCase q) (toLowerCase name) with
       | None => None
       | Some idx => Some (idx, idx + length q)%nat
       end.
Definition resolveDatePreset (key : DatePresetKey) (now : Z) : option Z :=
  match key with
  | date_any => None
  | last24h => Some (now - 24 * HOUR)
  | last7d => Some (now - 7 * 24 * HOUR)
  | last30d => Some (now - 30 * 24 * HOUR)
  | thisYear => Some (year_start now)
  end.

#[export] Instance Comparator_byName : Comparator byName.
Proof.
  apply (Comparator_sgn _ (fun a b => str_cmp (toLowerCase (entry_name a)) (toLowerCase (entry_name b)))).
  - intros a b. unfold byName, str_lt, str_cmp. rewrite (str_compare_antisym (toLowerCase (entry_name a))).
    by destruct (str_compare (toLowerCase (entry_name a)) _).
  - apply (Comparator_key (fun e => toLowerCase (entry_name e)) str_cmp), _.
Qed.
#[export] Instance Comparator_relevance query : Comparator (relevance_cmp query).
Proof.
  unfold relevance_cmp. destruct (_ || _); [apply _|]. apply Comparator_then; [|apply _].
  apply (Comparator_key (rank (toLowerCase (trim query))) Z.sub), _.
Qed.
End Logic.

(** ** One host: [createSearchController] *)

Record SearchState := {
  s_query : jstr; s_loading : bool; s_error : option jstr; s_raw : list Entry; s_truncated : bool; s_timeBudgetHit : bool
}.
Definition EMPTY : SearchState :=
  {| s_query := []; s_loading := false; s_error := None; s_raw := []; s_truncated := false; s_timeBudgetHit := false |}.
(** The argument of [client.search]. *)
Record SearchRequest := {
  rq_q : jstr; rq_root : option jstr; rq_types : option (list EntryCategory); rq_minSize : option Z; rq_modifiedAfter : option Z
}.

Section Controller.
Context `{U : Unicode} {Er : Type}.
Variables (year_start : Z -> Z) (humanize : Er -> jstr).

(** Where a run is suspended, or how it ended. *)
Inductive Stage := Cleared | AwaitClient | AwaitSearch | Answered (res : SearchResult) | Failed (e : Er).
Record Run := { r_q : jstr; r_filters : SearchFilters; r_path : jstr; r_stage : Stage }.
(** The store and the closure's variables; run number [g] is [runs !! (g - 1)]. *)
Record Controller := {
  c_state : SearchState;
  c_generation : nat;
  c_runs : list Run;
  c_requests : list SearchRequest;   (** calls of [client.search] *)
  c_searched : list jstr             (** calls of [onSearched] *)
}.
Definition createSearchController : Controller :=
  {| c_state := EMPTY; c_generation := 0; c_runs := []; c_requests := []; c_searched := [] |}.

Definition search_request (r : Run) (now : Z) : SearchRequest := {|
  rq_q := queryForMode (r_q r) (f_mode (r_filters r));
  rq_root := if f_fromHere (r_filters r) then Some (r_path r) else None;
  rq_types := match f_categories (r_filters r) with [] => None | l => Some l end;
  rq_minSize := minBytesFor (f_size (r_filters r));
  rq_modifiedAfter := resolveDatePreset year_start (f_date (r_filters r)) now |}.
Definition at_stage (s : Stage) (r : Run) : Run :=
  {| r_q := r_q r; r_filters := r_filters r; r_path := r_path r; r_stage := s |}.
Definition set_stage (g : nat) (s : Stage) (c : Controller) : Controller := {|
  c_state := c_state c; c_generation := c_generation c; c_runs := alter (at_stage s) (pred g) (c_runs c);
  c_requests := c_requests c; c_searched := c_searched c |}.
Definition set_state (st : SearchState) (c : Controller) : Controller := {|
  c_state := st; c_generation := c_generation c; c_runs := c_runs c; c_requests := c_requests c; c_searched := c_searched c |}.

(** [run] up to its first [await]. *)
Definition run (value : jstr) (filters : SearchFilters) (currentPath : jstr) (c : Controller) : Controller :=
  let q := trim value in
  let st := c_state c in {|
  c_state := if nonempty q
             then {| s_query := q; s_loading := true; s_error := None; s_raw := s_raw st;
                     s_truncated := s_truncated st; s_timeBudgetHit := s_timeBudgetHit st |}
             else EMPTY;
  c_generation := S (c_generation c);
  c_runs := c_runs c ++ [{| r_q := q; r_filters := filters; r_path := currentPath;
                            r_stage := if nonempty q then AwaitClient else Cleared |}];
  c_requests := c_requests c; c_searched := c_searched c |}.
(** The [catch] block of run [g]. *)
Definition run_failed (g : nat) (e : Er) (c : Controller) : Controller :=
  let c1 := set_stage g (Failed e) c in
  if (g =? c_generation c)%nat
  then set_state {| s_query := s_query (c_state c); s_loading := false; s_error := Some (humanize e); s_raw := [];
                    s_truncated := false; s_timeBudgetHit := false |} c1
  else c1.
(** [getClient] settles: the search is sent even if the run was overtaken. *)
Definition on_client (g : nat) (r : Run) (o : result Er unit) (now : Z) (c : Controller) : Controller :=
  match o with
  | Ok _ => let c1 := set_stage g AwaitSearch c in
            {| c_state := c_state c1; c_generation := c_generation c1; c_runs := c_runs c1;
               c_requests := c_requests c1 ++ [search_request r now]; c_searched := c_searched c1 |}
  | Err e => run_failed g e c
  end.
(** [client.search] settles. *)
Definition on_reply (g : nat) (r : Run) (o : result Er SearchResult) (c : Controller) : Controller :=
  match o with
  | Ok res =>
      let c1 := set_stage g (Answered res) c in
      if negb (g =? c_generation c)%nat then c1
      else {| c_state := {| s_query := s_query (c_state c); s_loading := false; s_error := s_error (c_state c);
                            s_raw := sortByRelevance (search_entries res) (r_q r);
                            s_truncated := search_truncated res; s_timeBudgetHit := search_timeBudgetHit res |};
              c_generation := c_generation c1; c_runs := c_runs c1; c_requests := c_requests c1;
              c_searched := c_searched c1 ++ [r_q r] |}
  | Err e => run_failed g e c
  end.

Inductive CEvent :=
| ERun (value : jstr) (filters : SearchFilters) (currentPath : jstr)
| EClient (g : nat) (o : result Er unit) (now : Z)
| EReply (g : nat) (o : result Er SearchResult).
(** A promise settles once, and only the one the run awaits resumes it. *)
Definition cstep (c : Controller) (e : CEvent) : Controller :=
  match e with
  | ERun v f p => run v f p c
  | EClient (S i as g) o now =>
      match c_runs c !! i with
      | Some r => match r_stage r with AwaitClient => on_client g r o now c | _ => c end
      | None => c
      end
  | EReply (S i as g) o =>
      match c_runs c !! i with
      | Some r => match r_stage r with AwaitSearch => on_reply g r o c | _ => c end
      | None => c
      end
  | _ => c
  end.
Definition crun (es : list CEvent) : Controller := fold_left cstep es createSearchController.

(** *** What the screen shows *)

(** The values searched for, in order. *)
Definition asked (es : list CEvent) : list jstr := omap (fun e => match e with ERun v _ _ => Some (trim v) | _ => None end) es.
(** The state the latest run calls for. *)
Definition shows (r : option Run) (st : SearchState) : Prop :=
  match r with
  | None => st = EMPTY
  | Some r =>
      match r_stage r with
      | Cleared => st = EMPTY
      | AwaitClient | AwaitSearch => s_query st = r_q r /\ s_loading st = true /\ s_error st = None
      | Answered res =>
          s_query st = r_q r /\ s_loading st = false /\ s_error st = None /\
          s_truncated st = search_truncated res /\ s_timeBudgetHit st = search_timeBudgetHit res /\
          Permutation (s_raw st) (search_entries res) /\
          StronglySorted (fun a b => relevance_cmp (r_q r) a b <= 0) (s_raw st)
      | Failed e => st = {| s_query := r_q r; s_loading := false; s_error := Some (humanize e); s_raw := [];
                            s_truncated := false; s_timeBudgetHit := false |}
      end
  end.
Record CI (es : list CEvent) (c : Controller) : Prop := {
  ci_asked : r_q <$> c_runs c = asked es;
  ci_gen : c_generation c = length (c_runs c);
  ci_shows : shows (last (c_runs c)) (c_state c);
  ci_requests : forall rq, rq ∈ c_requests c -> exists r now, r ∈ c_runs c /\ rq = search_request r now;
  ci_searched : forall q, q ∈ c_searched c -> exists r res, r ∈ c_runs c /\ r_q r = q /\ r_stage r = Answered res
}.

Lemma fmap_alter_id {A B} (g : A -> B) (f : A -> A) (i : nat) (l : list A) : (forall a, g (f a) = g a) -> g <$> alter f i l = g <$> l.
Proof.
  intros H. apply list_eq. intros j. rewrite !list_lookup_fmap. destruct (decide (j = i)) as [->|Hne].
  - rewrite list_lookup_alter_eq. destruct (l !! i); simpl; by rewrite ?H.
  - by rewrite list_lookup_alter_ne.
Qed.
Lemma last_alter {A} (f : A -> A) (i : nat) (l : list A) :
  last (alter f i l) = if (S i =? length l)%nat then f <$> last l else last l.
Proof.
  rewrite !last_lookup, length_alter. destruct (S i =? length l)%nat eqn:E; breflect.
  - rewrite <- E. cbn [pred]. by rewrite list_lookup_alter_eq.
  - destruct (decide (i = pred (length l))) as [->|Hne]; [|by rewrite list_lookup_alter_ne].
    destruct l; [done | simpl in *; lia].
Qed.
(** Resuming a suspended run: who asked what, and what was sent, stays. *)
Lemma runs_at_stage (i : nat) (rs : list Run) r s : rs !! i = Some r ->
  r_q <$> alter (at_stage s) i rs = r_q <$> rs /\
  (forall x, x ∈ rs -> exists y, y ∈ alter (at_stage s) i rs /\ r_q y = r_q x /\ (forall now, search_request y now = search_request x now)
                        /\ (x <> r -> y = x)) /\
  at_stage s r ∈ alter (at_stage s) i rs.
Proof.
  intros Hr. split; [|split].
  - apply list_eq. intros j. rewrite !list_lookup_fmap. destruct (decide (j = i)) as [->|Hne].
    + by rewrite list_lookup_alter_eq, Hr.
    + by rewrite list_lookup_alter_ne.
  - intros x [j Hj]%list_elem_of_lookup. destruct (decide (j = i)) as [->|Hne].
    + exists (at_stage s x). rewrite Hr in Hj. injection Hj as <-. split; [|done].
      apply list_elem_of_lookup. exists i. by rewrite list_lookup_alter_eq, Hr.
    + exists x. split; [|done]. apply list_elem_of_lookup. exists j. by rewrite list_lookup_alter_ne.
  - apply list_elem_of_lookup. exists i. by rewrite list_lookup_alter_eq, Hr.
Qed.
Lemma CI_resume es e c c' i r s extra found : CI es c -> asked (es ++ [e]) = asked es ->
  c_runs c !! i = Some r -> (forall res, r_stage r <> Answered res) ->
  c_runs c' = alter (at_stage s) i (c_runs c) -> c_generation c' = c_generation c ->
  c_requests c' = c_requests c ++ extra -> (forall rq, rq ∈ extra -> exists now, rq = search_request r now) ->
  c_searched c' = c_searched c ++ found -> (forall q, q ∈ found -> q = r_q r /\ exists res, s = Answered res) ->
  (S i <> c_generation c -> c_state c' = c_state c) ->
  (S i = c_generation c -> shows (Some r) (c_state c) -> shows (Some (at_stage s r)) (c_state c')) ->
  CI (es ++ [e]) c'.
Proof.
  intros [H1 H2 H3 H4 H5] Ha Hr Hna Ern Eg Eq Hq Es Hs Hold Hlast.
  destruct (runs_at_stage i (c_runs c) r s Hr) as (R1 & R2 & R3).
  split; rewrite ?Ern, ?Eg, ?Eq, ?Es, ?Ha.
  - by rewrite R1.
  - by rewrite length_alter.
  - rewrite last_alter. destruct (S i =? length (c_runs c))%nat eqn:E; breflect.
    + rewrite last_lookup, <- E in H3 |- *. cbn [pred] in *. rewrite Hr in H3 |- *. apply Hlast; [congruence | done].
    + rewrite Hold by congruence. done.
  - intros rq [Hin|Hin]%elem_of_app.
    + destruct (H4 rq Hin) as (x & now & Hx & ->). destruct (R2 x Hx) as (y & Hy & _ & Ey & _). exists y, now. by rewrite Ey.
    + destruct (Hq rq Hin) as [now ->]. by exists (at_stage s r), now.
  - intros q [Hin|Hin]%elem_of_app.
    + destruct (H5 q Hin) as (x & res & Hx & Hxq & Hst). destruct (R2 x Hx) as (y & Hy & _ & _ & Ey).
      rewrite Ey in Hy by congruence. eauto.
    + destruct (Hs q Hin) as [-> [res ->]]. by exists (at_stage (Answered res) r), res.
Qed.
Lemma asked_other es e : (forall v f p, e <> ERun v f p) -> asked (es ++ [e]) = asked es.
Proof. intros H. unfold asked. rewrite omap_app. destruct e; simpl; [by destruct (H value filters currentPath) | by rewrite app_nil_r..]. Qed.
Lemma CI_failed es e c i r er : CI es c -> (forall v f p, e <> ERun v f p) -> c_runs c !! i = Some r ->
  r_stage r = AwaitClient \/ r_stage r = AwaitSearch -> CI (es ++ [e]) (run_failed (S i) er c).
Proof.
  intros H He Hr Hst. unfold run_failed.
  assert (forall rq : SearchRequest, rq ∈ [] -> exists now, rq = search_request r now) as Hnil by (by intros ? ?%elem_of_nil).
  eapply (CI_resume es e c _ i r (Failed er) [] []); eauto using asked_other.
  - intros res E. destruct Hst; congruence.
  - by destruct (S i =? c_generation c)%nat.
  - by destruct (S i =? c_generation c)%nat.
  - rewrite app_nil_r. by destruct (S i =? c_generation c)%nat.
  - rewrite app_nil_r. by destruct (S i =? c_generation c)%nat.
  - by intros ? ?%elem_of_nil.
  - intros Hne. by rewrite (proj2 (Nat.eqb_neq _ _) Hne).
  - intros -> Hsh. rewrite Nat.eqb_refl. simpl in *. destruct Hst as [E|E]; rewrite E in Hsh; by destruct Hsh as (-> & _).
Qed.
Lemma CI_step es e c : CI es c -> CI (es ++ [e]) (cstep c e).
Proof.
  intros H. assert (forall rq, rq ∈ @nil SearchRequest -> False) as Hn by (by intros ? ?%elem_of_nil).
  assert ((forall v f p, e <> ERun v f p) -> CI (es ++ [e]) c) as Hstay.
  { intros He. destruct H as [H1 H2 H3 H4 H5]. split; [by rewrite asked_other | done..]. }
  destruct e as [v f p|[|i] o now|[|i] o]; cbn [cstep]; try by apply Hstay.
  - destruct H as [H1 H2 H3 H4 H5]. split; simpl.
    + rewrite fmap_app, H1. unfold asked. by rewrite omap_app.
    + rewrite length_app, H2. simpl. lia.
    + rewrite last_snoc. unfold shows. cbn [r_stage]. by destruct (nonempty (trim v)).
    + intros rq Hin. destruct (H4 rq Hin) as (r & now & Hr & ->). exists r, now. split; [by apply elem_of_app; left | done].
    + intros q Hin. destruct (H5 q Hin) as (r & res & Hr & ? & ?). exists r, res. split; [by apply elem_of_app; left | done].
  - destruct (c_runs c !! i) as [r|] eqn:Hr; [|by apply Hstay]. destruct (r_stage r) eqn:Est; try by apply Hstay.
    destruct o as [u|er]; cbn [on_client]; [|by eapply CI_failed; eauto].
    eapply (CI_resume es _ c _ i r AwaitSearch [search_request r now] []); eauto using asked_other; simpl; rewrite ?app_nil_r; try done.
    + intros res. congruence.
    + intros rq ->%list_elem_of_singleton. eauto.
    + by intros ? ?%elem_of_nil.
    + intros _ Hsh. by rewrite Est in Hsh.
  - destruct (c_runs c !! i) as [r|] eqn:Hr; [|by apply Hstay]. destruct (r_stage r) eqn:Est; try by apply Hstay.
    destruct o as [res|er]; cbn [on_reply]; [|by eapply CI_failed; eauto].
    eapply (CI_resume es _ c _ i r (Answered res) [] (if (S i =? c_generation c)%nat then [r_q r] else [])); eauto using asked_other.
    + intros res'. congruence.
    + by destruct (S i =? c_generation c)%nat.
    + by destruct (S i =? c_generation c)%nat.
    + rewrite app_nil_r. by destruct (S i =? c_generation c)%nat.
    + intros rq Hin. by destruct (Hn rq).
    + destruct (S i =? c_generation c)%nat; simpl; [done | by rewrite app_nil_r].
    + intros q. destruct (S i =? c_generation c)%nat; [intros ->%list_elem_of_singleton; eauto | by intros ?%elem_of_nil].
    + intros Hne. by rewrite (proj2 (Nat.eqb_neq _ _) Hne).
    + intros -> Hsh. rewrite Nat.eqb_refl. simpl in *. rewrite Est in Hsh. destruct Hsh as (-> & _ & ->).
      repeat split; [apply sort_by_perm | apply sort_by_sorted, _].
Qed.
Lemma CI_crun es : CI es (crun es).
Proof.
  unfold crun. induction es as [|e es IH] using rev_ind.
  - split; simpl; try done; by intros ? ?%elem_of_nil.
  - rewrite fold_left_app. by apply CI_step.
Qed.

(** *** The history of a search, read off the events alone *)

(** The searches asked for, in order; number [g] is [asks es !! (g - 1)]. *)
Definition asks (es : list CEvent) : list (jstr * SearchFilters * jstr) :=
  omap (fun e => match e with ERun v f p => Some (v, f, p) | _ => None end) es.
(** What one event does to search number [g]: its first connection and its first reply count. *)
Definition fate_step (g : nat) (nf : nat * option Stage) (e : CEvent) : nat * option Stage :=
  match e, nf.2 with
  | ERun v _ _, None => (S nf.1, if (S nf.1 =? g)%nat then Some (if decide (trim v = []) then Cleared else AwaitClient) else None)
  | ERun _ _ _, _ => (S nf.1, nf.2)
  | EClient g' o _, Some AwaitClient =>
      (nf.1, Some (if (g' =? g)%nat then match o with Ok _ => AwaitSearch | Err x => Failed x end else AwaitClient))
  | EReply g' o, Some AwaitSearch =>
      (nf.1, Some (if (g' =? g)%nat then match o with Ok res => Answered res | Err x => Failed x end else AwaitSearch))
  | _, _ => nf
  end.
Definition fate (g : nat) (es : list CEvent) : option Stage := (fold_left (fate_step g) es (0%nat, None)).2.

(** The request for a value, its filters and folder, at a time: sizes in bytes, times in milliseconds. *)
Definition asks_for (v : jstr) (f : SearchFilters) (p : jstr) (now : Z) (rq : SearchRequest) : Prop :=
  rq_q rq = match f_mode f with regex => js "*" ++ trim v ++ js "*" | _ => trim v end /\
  rq_root rq = (if f_fromHere f then Some p else None) /\
  rq_types rq = match f_categories f with [] => None | l => Some l end /\
  rq_minSize rq = match f_size f with
                  | size_any => None | mb1 => Some 1048576 | mb10 => Some 10485760 | mb100 => Some 104857600
                  | gb1 => Some 1073741824
                  end /\
  rq_modifiedAfter rq = match f_date f with
                        | date_any => None | last24h => Some (now - 86400000) | last7d => Some (now - 604800000)
                        | last30d => Some (now - 2592000000) | thisYear => Some (year_start now)
                        end.
(** [a] may stand before [b] among the hits of [q]: names beginning with [q] first unless [q] has a
    [*] or a [?], then by name, case aside. *)
Definition in_order (q : jstr) (a b : Entry) : Prop :=
  let x := toLowerCase (entry_name a) in
  let y := toLowerCase (entry_name b) in
  let begins s := exists t, s = toLowerCase q ++ t in
  if decide (42 ∈ q \/ 63 ∈ q) then str_compare x y <> Gt
  else (begins y -> begins x) /\ ((begins x -> begins y) -> str_compare x y <> Gt).
(** What the screen holds for a search of [v] that came to [s]. *)
Definition page (v : jstr) (s : Stage) (st : SearchState) : Prop :=
  match s with
  | Cleared => st = {| s_query := []; s_loading := false; s_error := None; s_raw := []; s_truncated := false; s_timeBudgetHit := false |}
  | AwaitClient | AwaitSearch => s_query st = trim v /\ s_loading st = true /\ s_error st = None
  | Answered res =>
      s_query st = trim v /\ s_loading st = false /\ s_error st = None /\
      s_truncated st = search_truncated res /\ s_timeBudgetHit st = search_timeBudgetHit res /\
      Permutation (s_raw st) (search_entries res) /\ StronglySorted (in_order (trim v)) (s_raw st)
  | Failed e => st = {| s_query := trim v; s_loading := false; s_error := Some (humanize e); s_raw := [];
                        s_truncated := false; s_timeBudgetHit := false |}
  end.

Lemma fate_snoc g es e : fold_left (fate_step g) (es ++ [e]) (0%nat, None) = fate_step g (fold_left (fate_step g) es (0%nat, None)) e.
Proof. by rewrite fold_left_app. Qed.
Lemma controller_snoc es e : crun (es ++ [e]) = cstep (crun es) e.
Proof. unfold crun. by rewrite fold_left_app. Qed.
Definition key (r : Run) : jstr * SearchFilters * jstr := (r_q r, r_filters r, r_path r).
(** A run of the model is where the history says. *)
Record history (es : list CEvent) (c : Controller) : Prop := {
  hi_key : key <$> c_runs c = (fun a => (trim a.1.1, a.1.2, a.2)) <$> asks es;
  hi_fate : forall i, fold_left (fate_step (S i)) es (0%nat, None) = (length (c_runs c), r_stage <$> c_runs c !! i);
  hi_stage : Forall (fun r => r_q r = [] <-> r_stage r = Cleared) (c_runs c)
}.
Lemma history_resume es e c c' i r s : history es c -> c_runs c !! i = Some r -> c_runs c' = alter (at_stage s) i (c_runs c) ->
  r_stage r <> Cleared -> s <> Cleared -> (forall v f p, e <> ERun v f p) ->
  (forall j n st, j <> i -> fate_step (S j) (n, st) e = (n, st)) -> (forall n, fate_step (S i) (n, Some (r_stage r)) e = (n, Some s)) ->
  history (es ++ [e]) c'.
Proof.
  intros [H1 H2 H3] Hr Ec Hc Hs He Hother Hthis. split; rewrite ?Ec.
  - rewrite fmap_alter_id by done. rewrite H1. unfold asks. rewrite omap_app. destruct e; simpl; [by destruct (He value filters currentPath)|..]; by rewrite app_nil_r.
  - intros j. rewrite fate_snoc, H2, length_alter. destruct (decide (j = i)) as [->|Hne].
    + by rewrite list_lookup_alter_eq, Hr, <- Hthis.
    + by rewrite Hother, list_lookup_alter_ne.
  - apply Forall_lookup. intros j x Hj. rewrite Forall_lookup in H3. destruct (decide (j = i)) as [->|Hne].
    + rewrite list_lookup_alter_eq, Hr in Hj. injection Hj as <-. specialize (H3 i r Hr). simpl. split; [|done]. intros Hq. by apply H3 in Hq.
    + rewrite list_lookup_alter_ne in Hj by done. eauto.
Qed.
Lemma fate_step_idle e s : (forall v f p, e <> ERun v f p) ->
  match e, s with EClient _ _ _, Some AwaitClient => False | EReply _ _, Some AwaitSearch => False | _, _ => True end ->
  forall g n, fate_step g (n, s) e = (n, s).
Proof. intros He Hs g n. destruct e; [by destruct (He value filters currentPath)|..]; by destruct s as [[]|]. Qed.
Lemma history_stay es e c : history es c -> (forall v f p, e <> ERun v f p) ->
  (forall i, fate_step (S i) (length (c_runs c), r_stage <$> c_runs c !! i) e = (length (c_runs c), r_stage <$> c_runs c !! i)) ->
  history (es ++ [e]) c.
Proof.
  intros [H1 H2 H3] He Hf. split; [|intros i; by rewrite fate_snoc, H2|done].
  rewrite H1. unfold asks. rewrite omap_app. destruct e; simpl; [by destruct (He value filters currentPath)|..]; by rewrite app_nil_r.
Qed.
Ltac resume s H Hr Est Hother := eapply (history_resume _ _ _ _ _ _ s);
  [exact H | exact Hr | by repeat case_match | by rewrite Est | done | done | intros; apply Hother; lia
  | intros ?; rewrite Est; simpl; by rewrite Nat.eqb_refl].
Lemma history_step es e c : history es c -> history (es ++ [e]) (cstep c e).
Proof.
  intros H. destruct e as [v f p|g o now|g o].
  - destruct H as [H1 H2 H3]. cbn [cstep]. split; simpl.
    + rewrite fmap_app, H1. unfold asks. rewrite omap_app, fmap_app. done.
    + intros i. rewrite fate_snoc, H2, length_app. simpl. rewrite Nat.add_comm. simpl. destruct (decide (i < length (c_runs c))%nat) as [Hi|Hi].
      * rewrite lookup_app_l by done. destruct (lookup_lt_is_Some_2 _ _ Hi) as [r ->]. by destruct (r_stage r).
      * rewrite lookup_ge_None_2, lookup_app_r by lia. simpl. destruct (length (c_runs c) =? i)%nat eqn:E; breflect.
        -- subst i. rewrite Nat.sub_diag. simpl. by destruct (trim v).
        -- destruct (i - length (c_runs c))%nat eqn:E2; [lia | done].
    + apply Forall_app. split; [done|]. constructor; [|constructor]. simpl. by destruct (trim v).
  - assert (forall j n st, S j <> g -> fate_step (S j) (n, st) (EClient g o now) = (n, st)) as Hother.
    { intros j n st Hne. destruct st as [[]|]; try done. simpl. by rewrite (proj2 (Nat.eqb_neq _ _) (not_eq_sym Hne)). }
    destruct g as [|i]; cbn [cstep]; [apply history_stay; [done..|]; intros i; by apply Hother|].
    destruct (c_runs c !! i) as [r|] eqn:Hr; [destruct (r_stage r) eqn:Est|];
      try (apply history_stay; [done..|]; intros j; destruct (decide (j = i)) as [->|Hne]; [by rewrite Hr; simpl; rewrite ?Est | apply Hother; lia]).
    destruct o as [u|x]; cbn [on_client].
    + resume AwaitSearch H Hr Est Hother.
    + unfold run_failed. resume (Failed x) H Hr Est Hother.
  - assert (forall j n st, S j <> g -> fate_step (S j) (n, st) (EReply g o) = (n, st)) as Hother.
    { intros j n st Hne. destruct st as [[]|]; try done. simpl. by rewrite (proj2 (Nat.eqb_neq _ _) (not_eq_sym Hne)). }
    destruct g as [|i]; cbn [cstep]; [apply history_stay; [done..|]; intros i; by apply Hother|].
    destruct (c_runs c !! i) as [r|] eqn:Hr; [destruct (r_stage r) eqn:Est|];
      try (apply history_stay; [done..|]; intros j; destruct (decide (j = i)) as [->|Hne]; [by rewrite Hr; simpl; rewrite ?Est | apply Hother; lia]).
    destruct o as [res|x]; cbn [on_reply].
    + resume (Answered res) H Hr Est Hother.
    + unfold run_failed. resume (Failed x) H Hr Est Hother.
Qed.
Lemma history_crun es : history es (crun es).
Proof.
  induction es as [|e es IH] using rev_ind; [by split | rewrite controller_snoc; by apply history_step].
Qed.
Lemma fate_run es i : fate (S i) es = r_stage <$> c_runs (crun es) !! i.
Proof. unfold fate. by rewrite (hi_fate _ _ (history_crun es)). Qed.
Lemma asks_run es i a : asks es !! i = Some a -> exists r, c_runs (crun es) !! i = Some r /\ key r = (trim a.1.1, a.1.2, a.2).
Proof.
  intros Ha. assert ((key <$> c_runs (crun es)) !! i = Some (trim a.1.1, a.1.2, a.2)) as E.
  { by rewrite (hi_key _ _ (history_crun es)), list_lookup_fmap, Ha. }
  rewrite list_lookup_fmap in E. destruct (c_runs (crun es) !! i) as [r|]; [|done]. exists r. split; [done | simpl in E; congruence].
Qed.
Lemma run_asks es i r : c_runs (crun es) !! i = Some r -> exists v, asks es !! i = Some (v, r_filters r, r_path r) /\ trim v = r_q r.
Proof.
  intros Hr. assert (((fun a => (trim a.1.1, a.1.2, a.2)) <$> asks es) !! i = Some (key r)) as E.
  { by rewrite <- (hi_key _ _ (history_crun es)), list_lookup_fmap, Hr. }
  rewrite list_lookup_fmap in E. destruct (asks es !! i) as [[[v f] q]|]; [|done]. injection E as <- <- <-. eauto.
Qed.
Lemma asks_snoc es e i a : asks es !! i = Some a -> asks (es ++ [e]) !! i = Some a.
Proof. intros H. unfold asks. rewrite omap_app. by apply lookup_app_l_Some. Qed.
Lemma fate_step_eq g es e : fate g (es ++ [e]) = (fate_step g (fold_left (fate_step g) es (0%nat, None)) e).2.
Proof. unfold fate. by rewrite fate_snoc. Qed.

Definition is_sent (s : option Stage) : Prop := s = Some AwaitSearch \/ exists res, s = Some (Answered res).
Definition not_sent (s : option Stage) : Prop := s = None \/ s = Some Cleared \/ s = Some AwaitClient.
(** The requests sent belong to different searches, each sent as its connection was made. *)
Record sends (es : list CEvent) (gs : list (nat * Z)) (rqs : list SearchRequest) : Prop := {
  se_each : Forall2 (fun gn rq => exists v f p, asks es !! pred gn.1 = Some (v, f, p) /\ asks_for v f p gn.2 rq) gs rqs;
  se_once : NoDup gs.*1;
  se_sent : forall g now, (g, now) ∈ gs -> EClient g (Ok tt) now ∈ es /\ ~ not_sent (fate g es);
  se_all : forall g, is_sent (fate g es) -> g ∈ gs.*1
}.
Lemma fate_kept g es e : ~ not_sent (fate g es) -> ~ not_sent (fate g (es ++ [e])).
Proof.
  rewrite fate_step_eq. unfold fate, not_sent. destruct (fold_left _ _ _) as [n s]. simpl. intros Hn.
  destruct s as [[]|]; [naive_solver| naive_solver | | | | naive_solver]; destruct e as [| |? []]; simpl; repeat case_match; naive_solver.
Qed.
Lemma fate_sent g es e : is_sent (fate g (es ++ [e])) -> is_sent (fate g es) \/
  (fate g es = Some AwaitClient /\ exists now, e = EClient g (Ok tt) now).
Proof.
  rewrite fate_step_eq. unfold fate, is_sent. destruct (fold_left _ _ _) as [n s]. simpl.
  destruct s as [[]|], e as [v f p|g' [[]|?] now|g' [?|?]]; simpl; repeat case_match; breflect; subst; naive_solver.
Qed.
Lemma search_request_asks r v now : trim v = r_q r -> asks_for v (r_filters r) (r_path r) now (search_request r now).
Proof.
  intros E. unfold asks_for. rewrite E. unfold search_request, queryForMode, resolveDatePreset. simpl.
  repeat split. by destruct (f_size _).
Qed.
Lemma sends_snoc es e gs rqs : sends es gs rqs ->
  (forall i now, e = EClient (S i) (Ok tt) now -> fate (S i) es <> Some AwaitClient) -> sends (es ++ [e]) gs rqs.
Proof.
  intros [S1 S2 S3 S4] He. split; [|done|..].
  - eapply Forall2_impl; [exact S1|]. simpl. intros gn rq (v & f & p & Ha & Hr). exists v, f, p. eauto using asks_snoc.
  - intros g now Hg. destruct (S3 g now Hg) as [? ?]. split; [by apply elem_of_app; left | by apply fate_kept].
  - intros g [Hg|[Hw [now ->]]]%fate_sent; [by apply S4|]. destruct g as [|i]; [|by destruct (He i now)].
    exfalso. clear -Hw. revert Hw. induction es as [|e es IH] using rev_ind; [done|]. rewrite fate_step_eq. unfold fate in IH.
    destruct (fold_left _ _ _) as [n s]. simpl in *. destruct s as [[]|], e as [| |]; simpl in *; repeat case_match; try done; naive_solver.
Qed.
Lemma sends_new es i r now gs rqs : sends es gs rqs -> c_runs (crun es) !! i = Some r -> r_stage r = AwaitClient ->
  sends (es ++ [EClient (S i) (Ok tt) now]) (gs ++ [(S i, now)]) (rqs ++ [search_request r now]).
Proof.
  intros [S1 S2 S3 S4] Hr Est. assert (fate (S i) es = Some AwaitClient) as Ef by by rewrite fate_run, Hr; simpl; rewrite Est.
  destruct (run_asks _ _ _ Hr) as (v & Ha & Hv). split.
  - apply Forall2_app.
    + eapply Forall2_impl; [exact S1|]. simpl. intros gn rq (v' & f & p & Ha' & Hq). exists v', f, p. eauto using asks_snoc.
    + constructor; [|constructor]. exists v, (r_filters r), (r_path r). eauto using asks_snoc, search_request_asks.
  - rewrite fmap_app. apply NoDup_app. split; [done|]. split; [|apply NoDup_singleton].
    intros g Hg ->%list_elem_of_singleton. apply list_elem_of_fmap in Hg as ([g n] & E & Hg). simpl in E. subst g.
    destruct (S3 _ _ Hg) as [_ Hn]. apply Hn. rewrite Ef. by right; right.
  - intros g n [Hg|Hg]%elem_of_app.
    + destruct (S3 g n Hg) as [? ?]. split; [by apply elem_of_app; left | by apply fate_kept].
    + apply list_elem_of_singleton in Hg. injection Hg as -> ->. split; [apply elem_of_app; right; by left|].
      rewrite fate_step_eq. unfold fate in Ef. destruct (fold_left _ _ _) as [n s]. simpl in Ef. subst s. simpl. rewrite Nat.eqb_refl.
      unfold not_sent. naive_solver.
  - intros g Hg. rewrite fmap_app. apply elem_of_app. apply fate_sent in Hg as [Hg|[_ [n E]]]; [left; by apply S4|]. right. injection E as -> ->. by left.
Qed.
Lemma sends_crun es : exists gs, sends es gs (c_requests (crun es)).
Proof.
  induction es as [|e es [gs IH]] using rev_ind.
  - exists []. split; [by constructor | by constructor | by intros ? ? ?%elem_of_nil | by intros g [|[? ?]]].
  - rewrite controller_snoc. assert ((forall i now, e = EClient (S i) (Ok tt) now -> fate (S i) es <> Some AwaitClient) ->
      c_requests (cstep (crun es) e) = c_requests (crun es) -> exists gs, sends (es ++ [e]) gs (c_requests (cstep (crun es) e))) as Hstay.
    { intros H1 ->. exists gs. by apply sends_snoc. }
    destruct e as [v f p|[|i] o now|[|i] o]; try (by apply Hstay).
    + cbn [cstep] in *. destruct (c_runs (crun es) !! i) as [r|] eqn:Hr; cbn [cstep] in *.
      * destruct (r_stage r) eqn:Est; try (apply Hstay; [|done]; intros j n E; injection E as <- _ _; rewrite fate_run, Hr; simpl; congruence).
        destruct o as [[]|x]; [exists (gs ++ [(S i, now)]); by apply sends_new|].
        apply Hstay; [done|]. simpl. unfold run_failed. by destruct (_ =? _)%nat.
      * apply Hstay; [|done]. intros j n E. injection E as <- _ _. by rewrite fate_run, Hr.
    + apply Hstay; [done|]. cbn [cstep]. destruct (c_runs _ !! i) as [r|]; [|done]. destruct (r_stage r); try done.
      unfold on_reply, run_failed. repeat case_match; done.
Qed.
(** The latest search, once answered, is the last one recorded. *)
Lemma searched_last es r res : last (c_runs (crun es)) = Some r -> r_stage r = Answered res -> last (c_searched (crun es)) = Some (r_q r).
Proof.
  revert r res. induction es as [|e es IH] using rev_ind; [done|]. rewrite controller_snoc. intros r res.
  assert (c_generation (crun es) = length (c_runs (crun es))) as Hg by apply (ci_gen _ _ (CI_crun es)).
  assert (forall i s c', (forall x, s <> Answered x) -> c_runs c' = alter (at_stage s) i (c_runs (crun es)) -> c_searched c' = c_searched (crun es) ->
    last (c_runs c') = Some r -> r_stage r = Answered res -> last (c_searched c') = Some (r_q r)) as Hres.
  { intros i s c' Hs -> ->. rewrite last_alter. destruct (_ =? _)%nat; [|apply IH].
    destruct (last (c_runs (crun es))); [|done]. intros [= <-]. simpl. naive_solver. }
  destruct e as [v f p|[|i] o now|[|i] o]; cbn [cstep]; try apply IH.
  - simpl. rewrite last_snoc. intros [= <-]. simpl. by destruct (nonempty (trim v)).
  - destruct (c_runs (crun es) !! i) as [r0|]; [|apply IH]. destruct (r_stage r0); try apply IH.
    destruct o as [u|x]; [by apply (Hres i AwaitSearch)|]. apply (Hres i (Failed x)); unfold on_client, run_failed; repeat case_match; done.
  - destruct (c_runs (crun es) !! i) as [r0|] eqn:Hr0; [|apply IH]. destruct (r_stage r0); try apply IH.
    destruct o as [x|x]; [|apply (Hres i (Failed x)); unfold on_reply, run_failed; repeat case_match; done].
    cbn [on_reply]. rewrite Hg. destruct (S i =? length (c_runs (crun es)))%nat eqn:E; cbn [negb c_runs c_searched set_stage pred]; rewrite last_alter, E; [|apply IH].
    breflect. rewrite last_lookup, <- E. cbn [pred]. rewrite Hr0, last_snoc. by intros [= <-].
Qed.
Lemma in_order_relevance q a b : trim q = q -> relevance_cmp q a b <= 0 -> in_order q a b.
Proof.
  intros Hq. unfold relevance_cmp, in_order. rewrite Hq.
  assert (byName a b <= 0 -> str_compare (toLowerCase (entry_name a)) (toLowerCase (entry_name b)) <> Gt) as Hname.
  { unfold byName, str_lt. rewrite (str_compare_antisym (toLowerCase (entry_name a))). by destruct (str_compare (toLowerCase (entry_name a)) _). }
  assert (isGlobQuery q = true <-> 42 ∈ q \/ 63 ∈ q) as Hglob.
  { unfold isGlobQuery. rewrite orb_true_iff, !includes_char_spec. done. }
  destruct (decide (42 ∈ q \/ 63 ∈ q)) as [Hg|Hg].
  - rewrite (proj2 Hglob Hg), orb_true_r. apply Hname.
  - destruct (isGlobQuery q); [by destruct Hg; apply Hglob|]. rewrite orb_false_r.
    destruct (nonempty (toLowerCase q)) eqn:El; cbn [negb]; cbv iota.
    2: { destruct (toLowerCase q); [|done]. intros H. split; [intros _; by eexists | intros _; by apply Hname]. }
    + unfold cmp_then, rank. cbv beta.
      pose proof (starts_with_spec (toLowerCase q) (toLowerCase (entry_name a))) as Ha.
      pose proof (starts_with_spec (toLowerCase q) (toLowerCase (entry_name b))) as Hb.
      rewrite <- Ha, <- Hb. destruct (starts_with _ (toLowerCase (entry_name a))), (starts_with _ (toLowerCase (entry_name b))); simpl; intros H; try lia;
        (split; [done|]; intros Hn; first [by apply Hname | by specialize (Hn eq_refl)]).
Qed.
Lemma drop_while_stops {A} (P : A -> bool) s : match drop_while P s with [] => True | c :: _ => P c = false end.
Proof. induction s as [|c s IH]; simpl; [done|]. by destruct (P c) eqn:E. Qed.
Lemma drop_while_twice {A} (P : A -> bool) s : drop_while P (drop_while P s) = drop_while P s.
Proof. pose proof (drop_while_stops P s) as H. destruct (drop_while P s) as [|c l]; [done|]. simpl. by rewrite H. Qed.
Lemma trim_trim s : trim (trim s) = trim s.
Proof.
  unfold trim. pose proof (drop_while_stops is_space s) as H. set (u := drop_while is_space s) in *.
  assert (drop_while is_space (drop_while_end is_space u) = drop_while_end is_space u) as ->.
  { unfold drop_while_end. destruct (drop_while_suffix is_space (reverse u)) as [t Ht]. set (w := drop_while is_space (reverse u)) in *.
    apply (f_equal reverse) in Ht. rewrite reverse_involutive, reverse_app in Ht.
    destruct (reverse w) as [|c l]; [done|]. rewrite Ht in H. simpl in *. by rewrite H. }
  unfold drop_while_end. by rewrite reverse_involutive, drop_while_twice.
Qed.
Lemma shows_page r v st : r_q r = trim v -> shows (Some r) st -> page v (r_stage r) st.
Proof.
  intros E. unfold shows, page. rewrite E. destruct (r_stage r); try done.
  intros (? & ? & ? & ? & ? & ? & Hs). repeat (split; [done|]). clear -Hs. induction Hs as [|a l Hs IH Ha]; constructor; [done|].
  eapply Forall_impl; [exact Ha|]. intros b. apply in_order_relevance, trim_trim.
Qed.

(** C11 However the searches asked for, the connections made and the replies interleave, the screen
    is that of the latest search [v] as its own events left it ([fate]: read off the events, the
    first connection and the first reply of each search counting): empty when [v] is blank, loading
    with the trimmed query and no error while the connection or the reply is outstanding; once
    answered, exactly the entries of its own reply with the two flags of that reply, names that
    begin with the query first and then by name, case aside (only by name when the query has a [*]
    or a [?]); or its error and no entries.  The requests sent belong to different searches, one for
    each that got a connection, and each is for the trimmed text (between stars in regex mode), the
    folder only if the search is from here, the chosen categories if any, the chosen number of bytes
    and the chosen age at the time of the connection.  Only answered searches are recorded, and the
    latest one last once it is answered. *)
Theorem search_shows_latest es :
  let c := crun es in
  match last (asks es) with
  | None => c_state c = {| s_query := []; s_loading := false; s_error := None; s_raw := []; s_truncated := false; s_timeBudgetHit := false |}
  | Some (v, _, _) => exists s, fate (length (asks es)) es = Some s /\ page v s (c_state c) /\
                        (forall res, s = Answered res -> last (c_searched c) = Some (trim v))
  end /\
  (exists gs : list (nat * Z),
     Forall2 (fun gn rq => exists v f p, asks es !! pred gn.1 = Some (v, f, p) /\ asks_for v f p gn.2 rq) gs (c_requests c) /\
     NoDup gs.*1 /\ (forall g now, (g, now) ∈ gs -> EClient g (Ok tt) now ∈ es) /\
     (forall g, fate g es = Some AwaitSearch \/ (exists res, fate g es = Some (Answered res)) -> g ∈ gs.*1)) /\
  (forall q, q ∈ c_searched c -> exists i v f p res, asks es !! i = Some (v, f, p) /\ trim v = q /\ fate (S i) es = Some (Answered res)).
Proof.
  intros c. destruct (CI_crun es) as [H1 H2 H3 H4 H5]. fold c in H1, H2, H3, H4, H5. split; [|split].
  - assert (length (asks es) = length (c_runs c)) as El.
    { apply (f_equal length) in H1. rewrite length_fmap in H1. rewrite H1. unfold asked, asks. clear. induction es as [|[] es IH]; simpl; auto. }
    rewrite last_lookup. destruct (asks es !! pred (length (asks es))) as [[[v f] p]|] eqn:Ea.
    + destruct (asks_run _ _ _ Ea) as (r & Hr & [= Ek _ _]). fold c in Hr. assert (last (c_runs c) = Some r) as Hl by by rewrite last_lookup, <- El.
      exists (r_stage r). split; [|split].
      * apply lookup_lt_Some in Ea. destruct (length (asks es)) as [|n]; [lia|]. rewrite fate_run. fold c. simpl in Hr. by rewrite Hr.
      * rewrite Hl in H3. by apply shows_page.
      * intros res Hst. rewrite <- Ek. by apply (searched_last es r res).
    + apply lookup_ge_None in Ea. rewrite El in Ea. destruct (c_runs c) eqn:E; [done | simpl in Ea; lia].
  - destruct (sends_crun es) as [gs [S1 S2 S3 S4]]. exists gs. repeat split; [done..| |done]. intros g now Hg. by apply S3.
  - intros q Hq. destruct (H5 q Hq) as (r & res & Hr & <- & Est). apply list_elem_of_lookup in Hr as [i Hr].
    destruct (run_asks _ _ _ Hr) as (v & Ha & Hv). exists i, v, (r_filters r), (r_path r), res. rewrite fate_run. fold c. rewrite Hr. simpl. by rewrite Est.
Qed.
End Controller.

(** ** Every host at once: [createCrossHostSearch] *)

Record CrossHostResult := { x_host : Host; x_entry : Entry }.
Record CrossHostState := { x_searching : bool; x_results : list CrossHostResult; x_failed : list jstr }.
Definition MIN_CROSS_QUERY : nat := 2.

(** Results grouped per host, keeping first-seen host order. *)
Record HostGroup := { g_host : Host; g_entries : list Entry }.
Definition group_step (groups : list (jstr * HostGroup)) (r : CrossHostResult) : list (jstr * HostGroup) :=
  let g := default {| g_host := x_host r; g_entries := [] |} (map_get (host_id (x_host r)) groups) in
  map_set (host_id (x_host r)) {| g_host := g_host g; g_entries := g_entries g ++ [x_entry r] |} groups.
Definition group_map (results : list CrossHostResult) : list (jstr * HostGroup) := fold_left group_step results [].
Definition groupByHost (results : list CrossHostResult) : list HostGroup := (group_map results).*2.

Section CrossHost.
Variable hosts : list Host.

(** How one host's part of a run ended: its entries, or a failure (of [getClient], of the
    search, or by the timeout). *)
Notation outcome := (option (list Entry)).
Record XRun := {
  xr_q : jstr;
  xr_pending : list (nat * bool);     (** hosts not settled yet; [true] once connected, the timeout running *)
  xr_log : list (nat * outcome);      (** hosts settled, in order *)
  xr_finished : bool                  (** [Promise.all] resumed *)
}.
Record XSearch := { xs_state : CrossHostState; xs_generation : nat; xs_runs : list XRun }.
Definition x_empty : CrossHostState := {| x_searching := false; x_results := []; x_failed := [] |}.
Definition createCrossHostSearch : XSearch := {| xs_state := x_empty; xs_generation := 0; xs_runs := [] |}.
Definition long_enough (q : jstr) : bool := (MIN_CROSS_QUERY <=? length q)%nat.

Definition cross_run (query : jstr) (c : XSearch) : XSearch :=
  let q := trim query in {|
  xs_state := if long_enough q then {| x_searching := true; x_results := []; x_failed := [] |} else x_empty;
  xs_generation := S (xs_generation c);
  xs_runs := xs_runs c ++ [{| xr_q := q;
                              xr_pending := if long_enough q then (fun i => (i, false)) <$> seq 0 (length hosts) else [];
                              xr_log := []; xr_finished := negb (long_enough q) |}] |}.
Definition set_run (g : nat) (f : XRun -> XRun) (st : CrossHostState) (c : XSearch) : XSearch :=
  {| xs_state := st; xs_generation := xs_generation c; xs_runs := alter f (pred g) (xs_runs c) |}.

(** One host settles; [withTimeout] lets through the first of its answer, its failure and the timeout. *)
Definition settle_host (i : nat) (o : outcome) (r : XRun) : XRun :=
  {| xr_q := xr_q r; xr_pending := List.filter (fun p => negb (p.1 =? i)%nat) (xr_pending r);
     xr_log := xr_log r ++ [(i, o)]; xr_finished := xr_finished r |}.
Definition connect_host (i : nat) (r : XRun) : XRun :=
  {| xr_q := xr_q r; xr_pending := (fun p => if (p.1 =? i)%nat then (i, true) else p) <$> xr_pending r;
     xr_log := xr_log r; xr_finished := xr_finished r |}.
Definition finish_run (r : XRun) : XRun :=
  {| xr_q := xr_q r; xr_pending := xr_pending r; xr_log := xr_log r; xr_finished := true |}.
(** The store update of one host's answer or failure. *)
Definition with_outcome (h : Host) (o : outcome) (st : CrossHostState) : CrossHostState :=
  match o with
  | Some entries => {| x_searching := x_searching st;
                       x_results := x_results st ++ ((fun e => {| x_host := h; x_entry := e |}) <$> entries); x_failed := x_failed st |}
  | None => {| x_searching := x_searching st; x_results := x_results st; x_failed := x_failed st ++ [host_id h] |}
  end.
Definition on_outcome (g i : nat) (h : Host) (o : outcome) (c : XSearch) : XSearch :=
  set_run g (settle_host i o) (if (g =? xs_generation c)%nat then with_outcome h o (xs_state c) else xs_state c) c.

Inductive XEvent :=
| XRunE (query : jstr)
| XConnect (g i : nat) (ok : bool)            (** [getClient] settles *)
| XSettle (g i : nat) (o : outcome)           (** the search answers, fails or times out *)
| XFinish (g : nat).                          (** [Promise.all] resumes *)
Definition pending_at (i : nat) (r : XRun) : option bool := snd <$> List.find (fun p => (p.1 =? i)%nat) (xr_pending r).
Definition xstep (c : XSearch) (e : XEvent) : XSearch :=
  match e with
  | XRunE q => cross_run q c
  | XConnect (S k as g) i ok =>
      match xs_runs c !! k, hosts !! i with
      | Some r, Some h => if bool_decide (pending_at i r = Some false)
                          then if ok then set_run g (connect_host i) (xs_state c) c else on_outcome g i h None c
                          else c
      | _, _ => c
      end
  | XSettle (S k as g) i o =>
      match xs_runs c !! k, hosts !! i with
      | Some r, Some h => if bool_decide (pending_at i r = Some true) then on_outcome g i h o c else c
      | _, _ => c
      end
  | XFinish (S k as g) =>
      match xs_runs c !! k with
      | Some r => if negb (xr_finished r) && bool_decide (xr_pending r = [])
                  then set_run g finish_run
                         (if (g =? xs_generation c)%nat
                          then {| x_searching := false; x_results := x_results (xs_state c); x_failed := x_failed (xs_state c) |}
                          else xs_state c) c
                  else c
      | None => c
      end
  | _ => c
  end.
Definition xrun (es : list XEvent) : XSearch := fold_left xstep es createCrossHostSearch.

(** *** What the screen shows *)

Definition log_state (log : list (nat * outcome)) (searching : bool) : CrossHostState :=
  fold_left (fun st io => match hosts !! (io.1 : nat) with Some h => with_outcome h io.2 st | None => st end) log
    {| x_searching := searching; x_results := []; x_failed := [] |}.
(** Each host is pending or settled, once. *)
Definition run_ok (r : XRun) : Prop :=
  if long_enough (xr_q r)
  then Permutation ((xr_pending r).*1 ++ (xr_log r).*1) (seq 0 (length hosts)) /\ (xr_finished r = true -> xr_pending r = [])
  else xr_pending r = [] /\ xr_log r = [] /\ xr_finished r = true.
Definition x_shows (r : option XRun) (st : CrossHostState) : Prop :=
  match r with
  | None => st = x_empty
  | Some r => st = log_state (xr_log r) (negb (xr_finished r))
  end.
Definition x_asked (es : list XEvent) : list jstr := omap (fun e => match e with XRunE q => Some (trim q) | _ => None end) es.
Record XI (es : list XEvent) (c : XSearch) : Prop := {
  xi_asked : xr_q <$> xs_runs c = x_asked es;
  xi_gen : xs_generation c = length (xs_runs c);
  xi_shows : x_shows (last (xs_runs c)) (xs_state c);
  xi_runs : Forall run_ok (xs_runs c)
}.

Lemma XI_alter es e c k r f st : XI es c -> x_asked (es ++ [e]) = x_asked es -> xs_runs c !! k = Some r ->
  (forall r, xr_q (f r) = xr_q r) -> (run_ok r -> run_ok (f r)) -> (S k <> xs_generation c -> st = xs_state c) ->
  (S k = xs_generation c -> x_shows (Some r) (xs_state c) -> x_shows (Some (f r)) st) ->
  XI (es ++ [e]) (set_run (S k) f st c).
Proof.
  intros [H1 H2 H3 H4] Ha Hr Hq Hok Hold Hnew. split; simpl.
  - by rewrite fmap_alter_id, Ha.
  - by rewrite length_alter.
  - rewrite last_alter. destruct (S k =? length (xs_runs c))%nat eqn:E; breflect.
    + rewrite last_lookup, <- E in H3 |- *. cbn [pred] in *. rewrite Hr in H3 |- *. apply Hnew; [congruence | done].
    + by rewrite Hold by congruence.
  - apply Forall_lookup. intros j b Hj. rewrite Forall_lookup in H4. destruct (decide (j = k)) as [->|Hne].
    + rewrite list_lookup_alter_eq, Hr in Hj. injection Hj as <-. eauto.
    + rewrite list_lookup_alter_ne in Hj by done. eauto.
Qed.
Lemma x_asked_other es e : (forall q, e <> XRunE q) -> x_asked (es ++ [e]) = x_asked es.
Proof. intros H. unfold x_asked. rewrite omap_app. destruct e; simpl; [by destruct (H query) | by rewrite app_nil_r..]. Qed.
Lemma log_state_snoc log i o h s : hosts !! i = Some h -> log_state (log ++ [(i, o)]) s = with_outcome h o (log_state log s).
Proof. intros Hh. unfold log_state. rewrite fold_left_app. simpl. by rewrite Hh. Qed.
Lemma log_state_searching log s : log_state log s =
  {| x_searching := s; x_results := x_results (log_state log false); x_failed := x_failed (log_state log false) |}.
Proof.
  unfold log_state. induction log as [|[i o] log IH] using rev_ind; [done|]. rewrite !fold_left_app. simpl.
  destruct (hosts !! i) as [h|]; [|done]. rewrite IH. by destruct o.
Qed.
Lemma pending_perm i b (l : list (nat * bool)) rest : NoDup (l.*1 ++ rest) -> snd <$> List.find (fun p => (p.1 =? i)%nat) l = Some b ->
  Permutation ((List.filter (fun p => negb (p.1 =? i)%nat) l).*1 ++ rest ++ [i]) (l.*1 ++ rest).
Proof.
  induction l as [|[j c] l IH]; [done|]. simpl. destruct (j =? i)%nat eqn:E; breflect; simpl.
  - subst j. intros [Hn Hnd]%NoDup_cons _.
    assert (List.filter (fun p : nat * bool => negb (p.1 =? i)%nat) l = l) as ->.
    { apply List.forallb_filter_id, forallb_forall_true, Forall_forall. intros [j d] Hj. apply negb_true_iff, Nat.eqb_neq. simpl. intros ->.
      apply Hn, elem_of_app. left. apply list_elem_of_fmap. by exists (i, d). }
    rewrite (Permutation_app_comm rest [i]). simpl. by rewrite <- Permutation_middle.
  - intros [Hn Hnd]%NoDup_cons Hf. by rewrite IH.
Qed.
Lemma run_ok_settle i o r b : pending_at i r = Some b -> run_ok r -> run_ok (settle_host i o r).
Proof.
  unfold run_ok, pending_at. simpl. intros Hp. destruct (long_enough (xr_q r)).
  - intros [Hperm Hfin]. split.
    + rewrite <- Hperm, fmap_app. simpl. apply (pending_perm i b); [|done]. rewrite Hperm. apply NoDup_seq.
    + intros Hf. rewrite (Hfin Hf) in Hp. done.
  - intros (E & _). by rewrite E in Hp.
Qed.
Lemma run_ok_connect i r : run_ok r -> run_ok (connect_host i r).
Proof.
  unfold run_ok. simpl. assert (((fun p : nat * bool => if (p.1 =? i)%nat then (i, true) else p) <$> xr_pending r).*1 = (xr_pending r).*1) as ->.
  { rewrite <- list_fmap_compose. apply list_fmap_ext. intros _ [j d] _. simpl. destruct (j =? i)%nat eqn:E; breflect; by subst. }
  destruct (long_enough (xr_q r)).
  - intros [H1 H2]. split; [done|]. intros Hf. by rewrite (H2 Hf).
  - by intros (-> & -> & ->).
Qed.
Lemma XI_outcome es e c k i r h o b : XI es c -> (forall q, e <> XRunE q) -> xs_runs c !! k = Some r -> hosts !! i = Some h ->
  pending_at i r = Some b -> XI (es ++ [e]) (on_outcome (S k) i h o c).
Proof.
  intros H He Hr Hh Hp. eapply XI_alter; eauto using x_asked_other, run_ok_settle.
  - intros Hne. by rewrite (proj2 (Nat.eqb_neq _ _) Hne).
  - intros -> Hsh. rewrite Nat.eqb_refl. simpl in *. by rewrite (log_state_snoc _ _ _ h), Hsh.
Qed.
Lemma XI_step es e c : XI es c -> XI (es ++ [e]) (xstep c e).
Proof.
  intros H. assert ((forall q, e <> XRunE q) -> XI (es ++ [e]) c) as Hstay.
  { intros He. destruct H as [H1 H2 H3 H4]. split; [by rewrite x_asked_other | done..]. }
  destruct e as [q|[|k] i ok|[|k] i o|[|k]]; cbn [xstep]; try by apply Hstay.
  - destruct H as [H1 H2 H3 H4]. split; simpl.
    + rewrite fmap_app, H1. unfold x_asked. by rewrite omap_app.
    + rewrite length_app, H2. simpl. lia.
    + rewrite last_snoc. simpl. by destruct (long_enough (trim q)).
    + apply Forall_app. split; [done|]. constructor; [|constructor]. unfold run_ok. simpl. destruct (long_enough (trim q)); [|done].
      rewrite app_nil_r, <- list_fmap_compose, (list_fmap_ext _ id); [by rewrite list_fmap_id | done].
  - destruct (xs_runs c !! k) as [r|] eqn:Hr; [|by apply Hstay]. destruct (hosts !! i) as [h|] eqn:Hh; [|by apply Hstay].
    case_bool_decide as Hp; [|by apply Hstay]. destruct ok; [|by eapply XI_outcome].
    eapply XI_alter; eauto using x_asked_other, run_ok_connect.
  - destruct (xs_runs c !! k) as [r|] eqn:Hr; [|by apply Hstay]. destruct (hosts !! i) as [h|] eqn:Hh; [|by apply Hstay].
    case_bool_decide as Hp; [by eapply XI_outcome | by apply Hstay].
  - destruct (xs_runs c !! k) as [r|] eqn:Hr; [|by apply Hstay].
    destruct (negb (xr_finished r) && bool_decide (xr_pending r = [])) eqn:E; [|by apply Hstay]. breflect.
    eapply XI_alter; eauto using x_asked_other.
    + unfold run_ok. simpl. destruct (long_enough (xr_q r)); [by intros [? _] | by intros (? & ? & _)].
    + intros Hne. by rewrite (proj2 (Nat.eqb_neq _ _) Hne).
    + intros -> Hsh. rewrite Nat.eqb_refl. simpl in *. rewrite Hsh. rewrite (log_state_searching _ (negb (xr_finished r))). symmetry. apply log_state_searching.
Qed.
Lemma XI_xrun es : XI es (xrun es).
Proof.
  unfold xrun. induction es as [|e es IH] using rev_ind; [by split | rewrite fold_left_app; by apply XI_step].
Qed.
(** *** The history of a cross-host search, read off the events alone *)

(** The queries, trimmed, and for search number [g] the computers connected to and the first outcome
    of each ([None]: its connection or its search failed, or it took too long), in the order they came. *)
Record XHistory := { h_queries : list jstr; h_connected : list nat; h_answers : list (nat * outcome) }.
Definition h_step (g : nat) (h : XHistory) (e : XEvent) : XHistory :=
  let open i := bool_decide (i ∉ (h_answers h).*1) in
  match e with
  | XRunE q => {| h_queries := h_queries h ++ [trim q]; h_connected := h_connected h; h_answers := h_answers h |}
  | XConnect g' i ok =>
      if (g' =? S g)%nat && open i && bool_decide (i ∉ h_connected h) && (i <? length hosts)%nat
         && match h_queries h !! g with Some q => (2 <=? length q)%nat | None => false end
      then if ok then {| h_queries := h_queries h; h_connected := h_connected h ++ [i]; h_answers := h_answers h |}
           else {| h_queries := h_queries h; h_connected := h_connected h; h_answers := h_answers h ++ [(i, None)] |}
      else h
  | XSettle g' i o =>
      if (g' =? S g)%nat && open i && bool_decide (i ∈ h_connected h)
      then {| h_queries := h_queries h; h_connected := h_connected h; h_answers := h_answers h ++ [(i, o)] |}
      else h
  | XFinish _ => h
  end.
Definition x_history (g : nat) (es : list XEvent) : XHistory :=
  fold_left (h_step g) es {| h_queries := []; h_connected := []; h_answers := [] |}.

Lemma x_history_snoc g es e : x_history g (es ++ [e]) = h_step g (x_history g es) e.
Proof. unfold x_history. by rewrite fold_left_app. Qed.
Lemma xrun_snoc es e : xrun (es ++ [e]) = xstep (xrun es) e.
Proof. unfold xrun. by rewrite fold_left_app. Qed.
(** The model's run [g] is where the history says. *)
Record run_history (r : XRun) (h : XHistory) : Prop := {
  rh_log : xr_log r = h_answers h;
  rh_pending : forall i, pending_at i r =
    if (2 <=? length (xr_q r))%nat && (i <? length hosts)%nat && bool_decide (i ∉ (h_answers h).*1)
    then Some (bool_decide (i ∈ h_connected h)) else None;
  rh_connected : forall i, i ∈ h_connected h -> (i < length hosts)%nat /\ (2 <= length (xr_q r))%nat
}.
Record x_histories (es : list XEvent) (c : XSearch) : Prop := {
  xh_queries : forall g, h_queries (x_history g es) = xr_q <$> xs_runs c;
  xh_runs : forall g r, xs_runs c !! g = Some r -> run_history r (x_history g es);
  xh_new : forall g, xs_runs c !! g = None -> h_connected (x_history g es) = [] /\ h_answers (x_history g es) = []
}.
Lemma pending_at_settle i j o r : pending_at j (settle_host i o r) = if decide (j = i) then None else pending_at j r.
Proof.
  unfold pending_at, settle_host. cbn [xr_pending]. induction (xr_pending r) as [|[k b] l IH]; simpl; [by case_decide|].
  destruct (k =? i)%nat eqn:Ei; simpl; breflect.
  - subst k. rewrite IH. case_decide; [done|]. by rewrite (proj2 (Nat.eqb_neq i j)).
  - destruct (k =? j)%nat eqn:Ej; breflect; [subst j; by rewrite decide_False|]. done.
Qed.
Lemma pending_at_connect i j r : pending_at j (connect_host i r) = if decide (j = i) then (fun _ => true) <$> pending_at j r else pending_at j r.
Proof.
  unfold pending_at, connect_host. cbn [xr_pending]. induction (xr_pending r) as [|[k b] l IH]; simpl; [by case_decide|].
  destruct (k =? i)%nat eqn:Ei; simpl; breflect.
  - subst k. destruct (i =? j)%nat eqn:Ej; breflect; [subst j; by rewrite decide_True|]. done.
  - destruct (k =? j)%nat eqn:Ej; breflect; [subst j; by rewrite decide_False|]. done.
Qed.
Lemma pending_at_start i q : pending_at i {| xr_q := q; xr_pending := if long_enough q then (fun i => (i, false)) <$> seq 0 (length hosts) else [];
    xr_log := []; xr_finished := negb (long_enough q) |} = if (2 <=? length q)%nat && (i <? length hosts)%nat then Some false else None.
Proof.
  unfold pending_at, long_enough, MIN_CROSS_QUERY. cbn [xr_pending]. destruct (2 <=? length q)%nat; [|done]. simpl andb.
  assert (forall a n, snd <$> List.find (fun p : nat * bool => (p.1 =? i)%nat) ((fun i => (i, false)) <$> seq a n) =
    if (a <=? i)%nat && (i <? a + n)%nat then Some false else None) as H.
  { intros a n. revert a. induction n as [|n IH]; intros a; simpl.
    - destruct (a <=? i)%nat eqn:E1, (i <? a + 0)%nat eqn:E2; breflect; try done; lia.
    - destruct (a =? i)%nat eqn:E; breflect.
      + subst i. rewrite (proj2 (Nat.leb_le a a)), (proj2 (Nat.ltb_lt _ _)) by lia. done.
      + rewrite IH. destruct (S a <=? i)%nat eqn:E1, (a <=? i)%nat eqn:E2, (i <? S a + n)%nat eqn:E3, (i <? a + S n)%nat eqn:E4; breflect; try done; lia. }
  rewrite H. done.
Qed.
Lemma h_step_queries g h e : (forall q, e <> XRunE q) -> h_queries (h_step g h e) = h_queries h.
Proof. intros He. destruct e; [by destruct (He query)|..]; simpl; repeat case_match; done. Qed.
Lemma h_step_other g h e : (forall q, e <> XRunE q) ->
  match e with XConnect g' _ _ | XSettle g' _ _ => g' <> S g | _ => True end -> h_step g h e = h.
Proof. intros He. destruct e; [by destruct (He query)|..]; simpl; intros H; [by rewrite (proj2 (Nat.eqb_neq _ _) H)..|done]. Qed.
Lemma x_histories_alter es e c k r f st : x_histories es c -> (forall q, e <> XRunE q) -> xs_runs c !! k = Some r ->
  match e with XConnect g' _ _ | XSettle g' _ _ => g' = S k | _ => True end -> xr_q (f r) = xr_q r ->
  run_history (f r) (h_step k (x_history k es) e) -> x_histories (es ++ [e]) (set_run (S k) f st c).
Proof.
  intros [H1 H2 H3] He Hr Hk Hq Hf. assert (forall g, g <> k -> h_step g (x_history g es) e = x_history g es) as Hother.
  { intros g Hg. apply h_step_other; [done|]. destruct e; try done; lia. }
  split; intros g; rewrite x_history_snoc; cbn [set_run xs_runs pred].
  - rewrite h_step_queries, H1 by done. apply list_eq. intros j. rewrite !list_lookup_fmap. destruct (decide (j = k)) as [->|Hne].
    + rewrite list_lookup_alter_eq, Hr. simpl. by rewrite Hq.
    + by rewrite list_lookup_alter_ne.
  - intros r'. destruct (decide (g = k)) as [->|Hne].
    + rewrite list_lookup_alter_eq, Hr. by intros [= <-].
    + rewrite list_lookup_alter_ne, Hother by done. apply H2.
  - destruct (decide (g = k)) as [->|Hne]; [by rewrite list_lookup_alter_eq, Hr|]. rewrite list_lookup_alter_ne, Hother by done. apply H3.
Qed.
Lemma x_histories_same es e c : x_histories es c -> (forall q, e <> XRunE q) ->
  (forall g, h_step g (x_history g es) e = x_history g es) -> x_histories (es ++ [e]) c.
Proof. intros [H1 H2 H3] He Hs. split; intros g; rewrite x_history_snoc, Hs; auto. Qed.
Lemma rh_settle r h i o : run_history r h ->
  run_history (settle_host i o r) {| h_queries := h_queries h; h_connected := h_connected h; h_answers := h_answers h ++ [(i, o)] |}.
Proof.
  intros [R1 R2 R3]. split; cbn [settle_host xr_q xr_log h_answers h_connected]; [by rewrite R1 | | done].
  intros j. rewrite pending_at_settle, R2. rewrite fmap_app. destruct (decide (j = i)) as [->|E].
  - rewrite (bool_decide_eq_false_2 (i ∉ _)); [by rewrite andb_false_r|]. intros Hn. apply Hn, elem_of_app. right. by left.
  - rewrite (bool_decide_ext (j ∉ (h_answers h).*1 ++ [(i, o)].*1) (j ∉ (h_answers h).*1)); [done|]. set_solver.
Qed.
Lemma rh_connect r h i : run_history r h -> pending_at i r = Some false ->
  run_history (connect_host i r) {| h_queries := h_queries h; h_connected := h_connected h ++ [i]; h_answers := h_answers h |}.
Proof.
  intros [R1 R2 R3] Hp. rewrite R2 in Hp.
  destruct (_ && bool_decide (i ∉ _)) eqn:E; [|done].
  split; cbn [connect_host xr_q xr_log h_answers h_connected]; [done| |].
  - intros j. rewrite pending_at_connect, R2. destruct (decide (j = i)) as [->|Ej].
    + rewrite E. simpl. rewrite bool_decide_eq_true_2; [done|]. apply elem_of_app. right. by left.
    + destruct (_ && bool_decide (j ∉ _)); [|done]. f_equal. apply bool_decide_ext. set_solver.
  - breflect. intros j [Hj|Hj%list_elem_of_singleton]%elem_of_app; [by apply R3|]. by rewrite Hj.
Qed.
Lemma x_histories_idle es e c k : x_histories es c -> (forall q, e <> XRunE q) ->
  match e with XConnect g' _ _ | XSettle g' _ _ => g' = S k | _ => True end ->
  h_step k (x_history k es) e = x_history k es -> x_histories (es ++ [e]) c.
Proof.
  intros H He Hk Hs. apply x_histories_same; [done..|]. intros g. destruct (decide (g = k)) as [->|Hne]; [done|].
  apply h_step_other; [done|]. destruct e; try done; lia.
Qed.
Lemma connect_cond es c k i r : x_histories es c -> xs_runs c !! k = Some r ->
  let h := x_history k es in
  let cond := (S k =? S k)%nat && bool_decide (i ∉ (h_answers h).*1) && bool_decide (i ∉ h_connected h) && (i <? length hosts)%nat
              && match h_queries h !! k with Some q => (2 <=? length q)%nat | None => false end in
  (pending_at i r = Some false -> cond = true) /\ (pending_at i r <> Some false -> cond = false).
Proof.
  intros H Hr h cond. unfold cond, h. rewrite (xh_queries _ _ H), list_lookup_fmap, Hr, Nat.eqb_refl. cbn [fmap option_fmap option_map andb].
  rewrite (rh_pending _ _ (xh_runs _ _ H k r Hr)).
  destruct (2 <=? length (xr_q r))%nat, (i <? length hosts)%nat; repeat case_bool_decide; split; simpl; try done.
Qed.
Lemma settle_cond es c k i r : x_histories es c -> xs_runs c !! k = Some r ->
  let h := x_history k es in
  let cond := (S k =? S k)%nat && bool_decide (i ∉ (h_answers h).*1) && bool_decide (i ∈ h_connected h) in
  (pending_at i r = Some true -> cond = true) /\ (pending_at i r <> Some true -> cond = false).
Proof.
  intros H Hr h cond. unfold cond, h. rewrite Nat.eqb_refl. simpl. pose proof (xh_runs _ _ H k r Hr) as R.
  rewrite (rh_pending _ _ R). destruct (bool_decide (i ∈ h_connected (x_history k es))) eqn:E; breflect.
  - destruct (rh_connected _ _ R i E) as [L1%Nat.ltb_lt L2%Nat.leb_le]. rewrite L1, L2. simpl. by case_bool_decide.
  - rewrite andb_false_r. split; [|done]. clear cond. by destruct (_ && _).
Qed.
Lemma x_histories_step es e c : x_histories es c -> x_histories (es ++ [e]) (xstep c e).
Proof.
  intros H. destruct e as [q|g i ok|g i o|g].
  - destruct H as [H1 H2 H3]. cbn [xstep]. split; intros g; rewrite x_history_snoc; simpl.
    + by rewrite H1, fmap_app.
    + intros r [Hr|[Hg Hr]]%lookup_app_Some.
      * destruct (H2 g r Hr) as [R1 R2 R3]. by split.
      * apply list_lookup_singleton_Some in Hr as [E <-]. destruct (H3 g) as [C A]; [apply lookup_ge_None; lia|]. split; cbn [xr_log xr_q h_answers h_connected].
        -- by rewrite A.
        -- intros j. rewrite pending_at_start, A, C, (bool_decide_eq_true_2 (j ∉ _)), andb_true_r by set_solver.
           by rewrite (bool_decide_eq_false_2 (j ∈ [])) by set_solver.
        -- intros j. rewrite C. by intros ?%elem_of_nil.
    + intros Hg. apply H3. apply lookup_ge_None in Hg. rewrite length_app in Hg. simpl in Hg. apply lookup_ge_None. lia.
  - destruct g as [|k]; cbn [xstep]; [apply x_histories_same; [done..|]; intros g'; by apply h_step_other|].
    destruct (xs_runs c !! k) as [r|] eqn:Hr; [|apply x_histories_idle with k; try done; simpl].
    2: { by rewrite (xh_queries _ _ H), list_lookup_fmap, Hr, andb_false_r. }
    pose proof (xh_runs _ _ H k r Hr) as R. destruct (connect_cond es c k i r H Hr) as [C1 C2].
    destruct (hosts !! i) as [h|] eqn:Hh; [|apply x_histories_idle with k; try done; simpl].
    2: { apply lookup_ge_None in Hh. by rewrite (proj2 (Nat.ltb_ge i (length hosts))), !andb_false_r by done. }
    destruct (bool_decide (pending_at i r = Some false)) eqn:Hp; apply bool_decide_eq_true in Hp || apply bool_decide_eq_false in Hp;
      [|apply x_histories_idle with k; try done; cbn [h_step]; by rewrite C2].
    destruct ok; (eapply x_histories_alter; [done..|]); cbn [h_step]; rewrite C1 by done; [by apply rh_connect | by apply rh_settle].
  - destruct g as [|k]; cbn [xstep]; [apply x_histories_same; [done..|]; intros g'; by apply h_step_other|].
    destruct (xs_runs c !! k) as [r|] eqn:Hr; [|apply x_histories_idle with k; try done; simpl].
    2: { destruct (xh_new _ _ H k Hr) as [-> _]. by rewrite (bool_decide_eq_false_2 (i ∈ [])), andb_false_r by set_solver. }
    pose proof (xh_runs _ _ H k r Hr) as R. destruct (settle_cond es c k i r H Hr) as [C1 C2].
    destruct (hosts !! i) as [h|] eqn:Hh; [|apply x_histories_idle with k; try done; simpl].
    2: { rewrite (bool_decide_eq_false_2 (i ∈ _)), andb_false_r; [done|]. intros Hin. apply lookup_ge_None in Hh. apply (rh_connected _ _ R) in Hin. lia. }
    destruct (bool_decide (pending_at i r = Some true)) eqn:Hp; apply bool_decide_eq_true in Hp || apply bool_decide_eq_false in Hp;
      [|apply x_histories_idle with k; try done; cbn [h_step]; by rewrite C2].
    eapply x_histories_alter; [done..|]. cbn [h_step]. rewrite C1 by done. by apply rh_settle.
  - assert (x_histories (es ++ [XFinish g]) c) as Hs by by apply x_histories_same.
    destruct g as [|k]; cbn [xstep]; [done|]. destruct (xs_runs c !! k) as [r|] eqn:Hr; [|done]. destruct (_ && _); [|done].
    eapply x_histories_alter; [done..|]. destruct (xh_runs _ _ H k r Hr) as [R1 R2 R3]. by split.
Qed.
Lemma x_histories_xrun es : x_histories es (xrun es).
Proof. induction es as [|e es IH] using rev_ind; [by split | rewrite xrun_snoc; by apply x_histories_step]. Qed.
(** The hits the answers bring, each with its computer, and the computers that failed. *)
Definition hits (answers : list (nat * outcome)) : list CrossHostResult :=
  concat ((fun io => match hosts !! (io.1 : nat), io.2 with
                     | Some m, Some found => (fun e => {| x_host := m; x_entry := e |}) <$> found
                     | _, _ => []
                     end) <$> answers).
Definition misses (answers : list (nat * outcome)) : list jstr :=
  omap (fun io => match io.2 with None => host_id <$> hosts !! (io.1 : nat) | Some _ => None end) answers.
Lemma log_state_hits log s : log_state log s = {| x_searching := s; x_results := hits log; x_failed := misses log |}.
Proof.
  induction log as [|[i o] log IH] using rev_ind; [done|]. unfold log_state, hits, misses in *. rewrite fold_left_app, IH, fmap_app, concat_app, omap_app. simpl.
  destruct (hosts !! i) as [h|]; [|by destruct o; simpl; rewrite !app_nil_r]. destruct o; simpl; by rewrite ?app_nil_r.
Qed.
Lemma x_history_ids g es : NoDup (h_answers (x_history g es)).*1.
Proof.
  induction es as [|e es IH] using rev_ind; [constructor|]. rewrite x_history_snoc.
  destruct e as [q|g' i ok|g' i o|g']; cbn [h_step]; [done| | |done].
  - destruct (_ && _) eqn:E; [|done]. breflect. destruct ok; [done|]. cbn [h_answers]. rewrite fmap_app. apply NoDup_app.
    split; [done|]. split; [set_solver | apply NoDup_singleton].
  - destruct (_ && _) eqn:E; [|done]. breflect. cbn [h_answers]. rewrite fmap_app. apply NoDup_app.
    split; [done|]. split; [set_solver | apply NoDup_singleton].
Qed.
Lemma no_pending es k r : xs_runs (xrun es) !! k = Some r -> (2 <= length (xr_q r))%nat ->
  xr_pending r = [] <-> forall i, (i < length hosts)%nat -> i ∈ (h_answers (x_history k es)).*1.
Proof.
  intros Hr Hq. pose proof (rh_pending _ _ (xh_runs _ _ (x_histories_xrun es) k r Hr)) as P. apply Nat.leb_le in Hq. split.
  - intros E i Hi. specialize (P i). unfold pending_at in P. rewrite E, Hq in P. apply Nat.ltb_lt in Hi. rewrite Hi in P. simpl in P.
    destruct (decide (i ∈ (h_answers (x_history k es)).*1)) as [?|Hn]; [done|]. by rewrite bool_decide_eq_true_2 in P.
  - intros Hall. destruct (xr_pending r) as [|[i b] l] eqn:E; [done|]. specialize (P i). unfold pending_at in P. rewrite E in P. simpl in P.
    rewrite Nat.eqb_refl in P. simpl in P. change (match length (xr_q r) with S (S _) => true | _ => false end) with (2 <=? length (xr_q r))%nat in P.
    destruct (i <? length hosts)%nat eqn:Ei; [|by rewrite andb_false_r in P]. breflect. rewrite bool_decide_eq_false_2 in P; [by rewrite andb_false_r in P|]. set_solver.
Qed.
(** Resuming [Promise.all] of the latest search, every computer settled, stops the spinner. *)
Lemma finish_stops es r : last (xs_runs (xrun es)) = Some r -> xr_pending r = [] ->
  x_searching (xs_state (xrun (es ++ [XFinish (length (xs_runs (xrun es)))]))) = false.
Proof.
  intros Hr Hp. rewrite xrun_snoc. destruct (XI_xrun es) as [_ H2 H3 _]. rewrite Hr in H3. simpl in H3. rewrite log_state_hits in H3.
  rewrite last_lookup in Hr. destruct (xs_runs (xrun es)) as [|r0 rs] eqn:E; [done|]. cbn [length xstep pred] in *. rewrite E, Hr, Hp.
  rewrite bool_decide_eq_true_2, andb_true_r by done. destruct (xr_finished r); simpl; [by rewrite H3|]. by rewrite H2, Nat.eqb_refl.
Qed.
End CrossHost.

Lemma keys_map_set {V} k (v : V) (m : list (jstr * V)) : keys (map_set k v m) = set_add k (keys m).
Proof.
  unfold set_add. induction m as [|[k' w] m IH]; [done|]. cbn [map_set]. destruct (decide (k' = k)) as [E|E].
  - subst k'. by rewrite decide_True by left.
  - change (k' :: keys (map_set k v m) = if decide (k ∈ k' :: keys m) then k' :: keys m else (k' :: keys m) ++ [k]).
    rewrite IH. destruct (decide (k ∈ keys m)) as [Hin|Hin].
    + rewrite decide_True; [done | by right].
    + rewrite decide_False; [done|]. apply not_elem_of_cons. split; [congruence | done].
Qed.
Lemma elem_map_set {V} k (v : V) (m : list (jstr * V)) p : p ∈ map_set k v m -> p = (k, v) \/ p ∈ m.
Proof.
  induction m as [|[k' w] m IH]; simpl; [by intros ->%list_elem_of_singleton; left|]. case_decide; intros [->|Hp]%elem_of_cons; auto.
  - right. by right.
  - right. left.
  - destruct (IH Hp); [by left | right; by right].
Qed.
(** Each host seen has one group, in the order first seen, holding its entries in order. *)
Lemma group_map_spec results :
  keys (group_map results) = set_of ((fun r => host_id (x_host r)) <$> results) /\
  (forall id, (g_entries <$> map_get id (group_map results)) =
     let es := x_entry <$> List.filter (fun r => bool_decide (host_id (x_host r) = id)) results in
     match es with [] => None | _ => Some es end) /\
  Forall (fun p => host_id (g_host p.2) = p.1) (group_map results).
Proof.
  unfold group_map. induction results as [|r rs (IH1 & IH2 & IH3)] using rev_ind; [by repeat split|].
  rewrite fold_left_app. simpl. set (m := fold_left group_step rs []) in *. unfold group_step. set (k := host_id (x_host r)).
  split; [|split].
  - rewrite fmap_app. unfold set_of. rewrite fold_left_app. fold (set_of ((fun r => host_id (x_host r)) <$> rs)). rewrite <- IH1. simpl. fold k.
    apply keys_map_set.
  - intros id. rewrite map_get_set, List.filter_app, fmap_app. simpl. fold k. specialize (IH2 id). simpl in IH2. case_decide as E.
    + subst id. rewrite bool_decide_true by done. simpl. destruct (map_get k m) as [g|]; simpl in IH2 |- *.
      * destruct (x_entry <$> List.filter _ rs); [done|]. injection IH2 as ->. done.
      * by destruct (x_entry <$> List.filter _ rs).
    + rewrite bool_decide_false by done. simpl. by rewrite app_nil_r.
  - apply Forall_forall. intros p [->|Hp]%elem_map_set; simpl; [|rewrite Forall_forall in IH3; by apply IH3].
    destruct (map_get k m) as [g|] eqn:E; [|done]. simpl. apply map_get_Some_elem in E. rewrite Forall_forall in IH3. by apply (IH3 (k, g)).
Qed.

(** C12 However overlapping cross-host searches interleave, the screen shows the latest query only.
    Its results are exactly the entries the computers answered that query with, each with the computer
    it came from, in the order the answers came, and its failed list exactly the computers whose
    connection or search failed or took too long ([x_history] reads both off the events: the first
    outcome of each computer counts); no computer settles twice.  A trimmed query under two characters
    shows nothing; otherwise the spinner stops only once every computer has settled, and it does stop
    when the wait for all of them then resumes.  Grouping the results gives each computer with hits one
    group, in the order first seen, with its hits in order. *)
Theorem crossHost_shows_latest hosts es :
  let st := xs_state (xrun hosts es) in
  match last (x_asked es) with
  | None => st = {| x_searching := false; x_results := []; x_failed := [] |}
  | Some q =>
      let answers := h_answers (x_history hosts (pred (length (x_asked es))) es) in
      let all_settled := forall i, (i < length hosts)%nat -> i ∈ answers.*1 in
      x_results st = concat ((fun io => match hosts !! (io.1 : nat), io.2 with
                                        | Some m, Some found => (fun e => {| x_host := m; x_entry := e |}) <$> found
                                        | _, _ => []
                                        end) <$> answers) /\
      x_failed st = omap (fun io => match io.2 with None => host_id <$> hosts !! (io.1 : nat) | Some _ => None end) answers /\
      NoDup answers.*1 /\
      ((length q < 2)%nat -> answers = [] /\ x_searching st = false) /\
      ((2 <= length q)%nat -> (x_searching st = false -> all_settled) /\
         (all_settled -> x_searching (xs_state (xrun hosts (es ++ [XFinish (length (x_asked es))]))) = false))
  end /\
  (let results := x_results st in
   (fun g => host_id (g_host g)) <$> groupByHost results = set_of ((fun r => host_id (x_host r)) <$> results) /\
   (forall g, g ∈ groupByHost results ->
      g_entries g = x_entry <$> List.filter (fun r => bool_decide (host_id (x_host r) = host_id (g_host g))) results)).
Proof.
  intros st. destruct (XI_xrun hosts es) as [H1 H2 H3 H4]. split; [|intros results; split].
  - rewrite <- H1, fmap_last, length_fmap. destruct (last (xs_runs (xrun hosts es))) as [r|] eqn:Hl; [|exact H3].
    simpl in H3. rewrite log_state_hits in H3. pose proof Hl as Hr. rewrite last_lookup in Hr.
    pose proof (xh_runs _ _ _ (x_histories_xrun hosts es) _ r Hr) as R. rewrite (rh_log _ _ _ R) in H3. simpl.
    assert (run_ok hosts r) as Hok by (rewrite Forall_forall in H4; apply H4; by apply last_Some_elem_of).
    unfold st. rewrite H3. cbn [x_results x_failed x_searching]. split; [done|]. split; [done|]. split; [apply x_history_ids|].
    unfold run_ok, long_enough, MIN_CROSS_QUERY in Hok. split; intros Hq.
    + rewrite (proj2 (Nat.leb_gt _ _) Hq) in Hok. destruct Hok as (_ & Elog & Efin). by rewrite <- (rh_log _ _ _ R), Elog, Efin.
    + pose proof (no_pending hosts es _ r Hr Hq) as Hnp. rewrite (proj2 (Nat.leb_le _ _) Hq) in Hok. destruct Hok as [_ Hf]. split.
      * intros Hs%negb_false_iff. by apply Hnp, Hf.
      * intros Hall. eapply finish_stops; [exact Hl | by apply Hnp].
  - destruct (group_map_spec results) as (<- & _ & G3). unfold groupByHost, keys. rewrite <- list_fmap_compose.
    apply list_fmap_ext. intros i p Hp. rewrite Forall_lookup in G3. by apply (G3 i).
  - intros g ([k g'] & -> & Hg)%list_elem_of_fmap. simpl. destruct (group_map_spec results) as (G1 & G2 & G3).
    rewrite Forall_forall in G3. specialize (G3 _ Hg). simpl in G3. rewrite G3. specialize (G2 k).
    rewrite (elem_map_get k g') in G2; [|rewrite G1; apply NoDup_set_of | done]. simpl in G2.
    destruct (x_entry <$> List.filter _ _) as [|x l] eqn:E; [done|]. by injection G2 as ->.
Qed.

Definition found_entry (n : jstr) : Entry := {|
  entry_name := n; entry_path := n; entry_isDir := false; entry_size := None;
  entry_mimeType := None; entry_mode := None; entry_modified := None; entry_created := None;
  entry_isSymlink := false; entry_symlinkTarget := None; entry_childCount := None |}.
Definition found_one (n : jstr) : SearchResult :=
  {| search_entries := [found_entry n]; search_truncated := false; search_timeBudgetHit := false |}.
Definition sample_search : list (@CEvent unit) := [
  ERun (js "cat") defaultFilters (js "/"); EClient 1 (Ok tt) 0; ERun (js " dog ") defaultFilters (js "/"); EClient 2 (Ok tt) 0;
  EReply 2 (Ok (found_one (js "a dog"))); EReply 1 (Ok (found_one (js "a cat")))].
Lemma search_shows_latest_witness :
  let c := crun (U := ascii_unicode) (fun _ => 0) (fun _ : unit => []) sample_search in
  page (U := ascii_unicode) (fun _ : unit => []) (js " dog ") (Answered (found_one (js "a dog"))) (c_state c) /\
  s_query (c_state c) = js "dog" /\ entry_name <$> s_raw (c_state c) = [js "a dog"] /\ c_searched c = [js "dog"] /\
  rq_q <$> c_requests c = [js "cat"; js "dog"].
Proof.
  intros c. split; [|vm_compute; repeat split].
  destruct (search_shows_latest (U := ascii_unicode) (fun _ => 0) (fun _ : unit => []) sample_search) as [H _].
  destruct H as (s & Hs & Hp & _). vm_compute in Hs. injection Hs as <-. exact Hp.
Defined.
(** Two computers, the second slow: a first search is overtaken, its late answer is dropped. *)
Definition two_hosts : list XEvent := [
  XRunE (js "cat"); XConnect 1 0 true; XRunE (js "dog"); XConnect 2 0 true; XConnect 2 1 true;
  XSettle 1 0 (Some [found_entry (js "a cat")]); XSettle 2 1 None; XSettle 2 0 (Some [found_entry (js "a dog")]); XFinish 2].
Definition a_host (id : jstr) : Host := {|
  host_id := id; host_label := id; host_address := id; certFingerprint := None; tailscaleName := None; tailscaleAddress := None;
  internetAddress := None; macAddress := None; note := None |}.
Lemma crossHost_shows_latest_witness :
  let a := a_host (js "a") in
  let b := a_host (js "b") in
  let st := xs_state (xrun [a; b] two_hosts) in
  x_results st = [{| x_host := a; x_entry := found_entry (js "a dog") |}] /\ x_failed st = [host_id b] /\ x_searching st = false.
Proof.
  intros a b. destruct (crossHost_shows_latest [a; b] two_hosts) as [H _]. destruct H as (H1 & H2 & _).
  split; [exact H1|]. split; [exact H2|]. reflexivity.
Defined.
