(* ===== verification/LegacyImport.v ===== *)
(** * Importing the Flutter app's state

    [core/storage/legacyImport.ts]: the one-time import of the preferences of the
    previous app.  Any call to a store may fail; the import is then retried on a
    later start, so it is proved safe to interrupt and to repeat. *)

From Stdlib Require Import ZArith Lia Bool.
From Stdlib Require List.
From S2P Require Import Prelude JsCollections JsString Json Errors Host Storage HostStore.
Local Open Scope js_scope.

Definition IMPORT_DONE_KEY : jstr := js "rn_legacy_import_v1".
Definition OWNED_PREFIXES : list jstr :=
  [js "rfe_"; js "app."; js "host."; js "settings."; js "bookmarks_v1"; js "offline_pins_v1"; js "digest."].

Inductive ImportStatus := imported | already_done | nothing_to_import.
Record ImportReport := { status : ImportStatus; hosts_count : nat; needRepair : list jstr; skippedRecords : nat }.
Definition no_import (s : ImportStatus) : ImportReport := {| status := s; hosts_count := 0; needRepair := []; skippedRecords := 0 |}.

(** [copyOwnedPrefs]: the two [continue] tests. *)
Definition copyable (k v : jstr) : bool :=
  negb (bool_decide (k = HOSTS_KEY) || negb (List.existsb (fun p => starts_with p k) OWNED_PREFIXES)) &&
  negb (starts_with (js "rfe_last_seen_") k && negb (all_digits v)).
Fixpoint copyOwnedPrefs (legacyPrefs : list (jstr * jstr)) (copied : nat) : IO nat :=
  match legacyPrefs with
  | [] => ret copied
  | (k, v) :: rest =>
      if copyable k v
      then old <- KeyValueStore.get k;;
           match old with
           | None => KeyValueStore.set k v;; copyOwnedPrefs rest (S copied)
           | Some _ => copyOwnedPrefs rest copied
           end
      else copyOwnedPrefs rest copied
  end.

Section LegacyImport.
Context `{U : Unicode} `{C : JsonCodec}.

(** The records of a stored list: none when it is unreadable or not a list. *)
Definition records (raw : jstr) : list json :=
  match json_parse raw with Some (JArr l) => l | _ => [] end.
(** The loop over the legacy records: hosts and how many were skipped. *)
Fixpoint read_records (entries : list json) : list Host * nat :=
  match entries with
  | [] => ([], O)
  | e :: rest =>
      let (hosts, skipped) := read_records rest in
      match parse_record e with Some h => (h :: hosts, skipped) | None => (hosts, S skipped) end
  end.
Definition lacks_login (pin token : option jstr) : bool :=
  match normalizeFingerprint pin, truthy token with Some _, Some _ => false | _, _ => true end.
Fixpoint repair_list (hosts : list Host) : IO (list jstr) :=
  match hosts with
  | [] => ret []
  | h :: rest =>
      pin <- attempt (SecureStore.read (SecureKeys.fingerprint (host_id h))) None;;
      token <- attempt (SecureStore.read (SecureKeys.token (host_id h))) None;;
      more <- repair_list rest;;
      ret (if lacks_login pin token then host_id h :: more else more)
  end.
(** [(x as { id?: string } | null)?.id] is the string [id]. *)
Definition record_has_id (id : jstr) (x : json) : bool :=
  match x with JObj o => bool_decide (as_str (field (js "id") o) = Some id) | _ => false end.
Definition merge (existing : list json) (hosts : list Host) : list json :=
  existing ++ (hostToJson <$> List.filter (fun h => negb (List.existsb (record_has_id (host_id h)) existing)) hosts).
Definition existing_records (raw : option jstr) : list json := match truthy raw with None => [] | Some r => records r end.

Definition importLegacyState (legacyPrefs : list (jstr * jstr)) : IO ImportReport :=
  marker <- KeyValueStore.get IMPORT_DONE_KEY;;
  match marker with
  | Some _ => ret (no_import already_done)
  | None =>
      match map_get HOSTS_KEY legacyPrefs with
      | None =>
          copied <- copyOwnedPrefs legacyPrefs 0;;
          KeyValueStore.set IMPORT_DONE_KEY (js "1");;
          ret (no_import (if (0 <? copied)%nat then imported else nothing_to_import))
      | Some raw =>
          let (hosts, skipped) := read_records (records raw) in
          repair <- repair_list hosts;;
          existingRaw <- KeyValueStore.get HOSTS_KEY;;
          KeyValueStore.set HOSTS_KEY (json_stringify (JArr (merge (existing_records existingRaw) hosts)));;
          copyOwnedPrefs legacyPrefs 0;;
          KeyValueStore.set IMPORT_DONE_KEY (js "1");;
          ret {| status := imported; hosts_count := length hosts; needRepair := repair; skippedRecords := skipped |}
      end
  end.

(** ** The host list *)

Definition legacy_hosts (legacyPrefs : list (jstr * jstr)) : list Host :=
  match map_get HOSTS_KEY legacyPrefs with None => [] | Some raw => (read_records (records raw)).1 end.
(** The hosts an import from disk [d] adds: those whose id no stored record has. *)
Definition new_hosts (legacyPrefs : list (jstr * jstr)) (d : Disk) : list Host :=
  List.filter (fun h => negb (List.existsb (record_has_id (host_id h)) (existing_records (map_get HOSTS_KEY (kv d)))))
    (legacy_hosts legacyPrefs).

Lemma read_records_spec es : read_records es = (omap parse_record es, length (List.filter (fun e => negb (bool_decide (is_Some (parse_record e)))) es)).
Proof.
  induction es as [|e es IH]; [done|]. cbn [read_records]. rewrite IH. csimpl. by destruct (parse_record e).
Qed.
Lemma parse_hosts_records raw : parse_hosts raw = omap parse_record (existing_records raw).
Proof. unfold parse_hosts, existing_records, records. destruct (truthy raw) as [r|]; [|done]. by destruct (json_parse r) as [[]|]. Qed.
Lemma existing_wf raw : json_wf (JArr (existing_records raw)) = true.
Proof.
  unfold existing_records, records. destruct (truthy raw) as [r|]; [|done]. destruct (json_parse r) as [[]|] eqn:E; try done.
  by apply json_parse_wf in E.
Qed.
Lemma merge_wf raw hosts : json_wf (JArr (merge (existing_records raw) hosts)) = true.
Proof.
  unfold merge. pose proof (existing_wf raw) as H. rewrite json_wf_arr in *. rewrite List.forallb_app, H. simpl.
  apply forallb_forall_true, Forall_forall. intros j (h & -> & _)%list_elem_of_fmap. apply hostToJson_wf.
Qed.
Lemma existing_saved l : json_wf (JArr l) = true -> existing_records (Some (json_stringify (JArr l))) = l.
Proof.
  intros H. unfold existing_records. pose proof (json_stringify_nonempty _ H) as Hne.
  destruct (json_stringify (JArr l)) as [|c s] eqn:E; [done|]. simpl. unfold records. by rewrite <- E, json_roundtrip.
Qed.
Lemma omap_inverse {A B} (f : B -> option A) (g : A -> B) (l : list A) : (forall a, f (g a) = Some a) -> omap f (g <$> l) = l.
Proof. intros H. induction l as [|a l IH]; [done|]. csimpl. by rewrite H, IH. Qed.
(** Writing the merged list adds exactly the new hosts. *)
Lemma hosts_merged raw hosts : parse_hosts (Some (json_stringify (JArr (merge (existing_records raw) hosts)))) =
  parse_hosts raw ++ List.filter (fun h => negb (List.existsb (record_has_id (host_id h)) (existing_records raw))) hosts.
Proof.
  rewrite !parse_hosts_records, existing_saved by apply merge_wf. unfold merge. rewrite omap_app. f_equal.
  apply omap_inverse, parse_record_hostToJson.
Qed.
Lemma record_has_id_host h : record_has_id (host_id h) (hostToJson h) = true.
Proof. unfold record_has_id, hostToJson. apply bool_decide_eq_true. done. Qed.
(** Merging again adds nothing. *)
Lemma merge_again existing hosts :
  List.filter (fun h => negb (List.existsb (record_has_id (host_id h)) (merge existing hosts))) hosts = [].
Proof.
  apply filter_none, Forall_forall. intros h Hh. apply negb_false_iff. unfold merge. rewrite List.existsb_app.
  destruct (List.existsb (record_has_id (host_id h)) existing) eqn:E; [done|]. simpl. apply List.existsb_exists.
  exists (hostToJson h). split; [|apply record_has_id_host]. apply list_elem_of_In, list_elem_of_fmap. exists h. split; [done|].
  apply elem_filter_bool. by rewrite E.
Qed.

(** ** What an import may change *)

(** No secret, no cleanup, and no value already stored except the host list. *)
Definition kept (d d' : Disk) : Prop :=
  secure d' = secure d /\ cleaned d' = cleaned d /\
  (forall k v, k <> HOSTS_KEY -> map_get k (kv d) = Some v -> map_get k (kv d') = Some v).
#[export] Instance kept_preorder : PreOrder kept.
Proof. split; [by intros d | intros a b c (? & ? & ?) (? & ? & ?); repeat split; [congruence..|eauto]]. Qed.
Lemma kept_faults fs d : kept d (with_faults fs d).
Proof. done. Qed.
Lemma kept_set k v fs d : map_get k (kv d) = None \/ k = HOSTS_KEY -> kept d (with_kv (map_set k v) (with_faults fs d)).
Proof.
  intros H. split; [done|]. split; [done|]. intros k' v' Hk Hv. simpl. rewrite map_get_set_ne; [done|].
  intros ->. destruct H; congruence.
Qed.
Lemma copyable_spec k v : copyable k v = true -> k <> HOSTS_KEY /\ k <> IMPORT_DONE_KEY.
Proof. unfold copyable. intros H. breflect. split; [done|]. intros ->. vm_compute in H1. discriminate H1. Qed.

Record Copied (prefs : list (jstr * jstr)) (d : Disk) (p : Disk * result jserror nat) : Prop := {
  cp_kept : kept d p.1;
  cp_hosts : map_get HOSTS_KEY (kv p.1) = map_get HOSTS_KEY (kv d);
  cp_marker : map_get IMPORT_DONE_KEY (kv p.1) = map_get IMPORT_DONE_KEY (kv d);
  cp_all : is_ok p.2 = true -> NoDup (keys prefs) -> forall k v, (k, v) ∈ prefs -> copyable k v = true ->
             map_get k (kv p.1) = Some (default v (map_get k (kv d)));
  cp_works : faults d = [] -> faults p.1 = [] /\ is_ok p.2 = true
}.
Lemma Copied_fail prefs d fs : faults d <> [] -> Copied prefs d (with_faults fs d, Err storage_error).
Proof. by split. Qed.
(** After a key was passed over or copied, the rest goes on from there. *)
Lemma Copied_cons k v prefs d d1 p : Copied prefs d1 p -> kept d d1 -> (faults d = [] -> faults d1 = []) ->
  (forall k', k' <> k \/ copyable k v = false -> map_get k' (kv d1) = map_get k' (kv d)) ->
  (copyable k v = true -> map_get k (kv d1) = Some (default v (map_get k (kv d)))) ->
  Copied ((k, v) :: prefs) d p.
Proof.
  intros [H1 H2 H3 H4 H5] Hk Hf Hsame Hcopy.
  assert (forall k', k' = HOSTS_KEY \/ k' = IMPORT_DONE_KEY -> map_get k' (kv d1) = map_get k' (kv d)) as Hother.
  { intros k' Hk'. apply Hsame. destruct (copyable k v) eqn:E; [left | by right]. apply copyable_spec in E. destruct Hk'; intuition congruence. }
  split.
  - by transitivity d1.
  - rewrite H2. apply Hother. by left.
  - rewrite H3. apply Hother. by right.
  - intros Hok [Hn Hnd]%NoDup_cons k' v' [[= -> ->]|Hin]%elem_of_cons Hc.
    + pose proof (proj1 (copyable_spec _ _ Hc)) as Hne.
      destruct H1 as (_ & _ & H1). by apply H1, Hcopy.
    + rewrite (H4 Hok Hnd k' v' Hin Hc). rewrite Hsame; [done|]. left. intros ->. apply Hn, list_elem_of_fmap. by exists (k, v').
  - intros E. by apply H5, Hf.
Qed.
Lemma copy_spec prefs n d : Copied prefs d (copyOwnedPrefs prefs n d).
Proof.
  revert n d. induction prefs as [|[k v] prefs IH]; intros n d; cbn [copyOwnedPrefs].
  { split; try done. by intros _ _ ? ? ?%elem_of_nil. }
  destruct (copyable k v) eqn:Ec; [|eapply Copied_cons; [apply IH | done | done | done | congruence]].
  unfold KeyValueStore.get, KeyValueStore.set, bind. io_step_script; [by apply Copied_fail|].
  destruct (map_get k (kv (with_faults fs d))) as [old|] eqn:Eo; simpl in Eo.
  - eapply Copied_cons; [apply IH | done | done | done | intros _; simpl; by rewrite Eo].
  - io_step_script; [apply (Copied_fail _ d fs0); intros E; by apply Hf, Hs|].
    eapply Copied_cons; [apply IH | | | |].
    + apply (kept_set k v fs0 d). by left.
    + intros E. simpl. apply Hs0, Hs, E.
    + intros k' [Hk|Hk]; [|congruence]. simpl. by rewrite map_get_set_ne.
    + intros _. simpl. by rewrite map_get_set_eq, Eo.
Qed.

Definition lacks_login_on (d : Disk) (h : Host) : bool :=
  lacks_login (map_get (SecureKeys.fingerprint (host_id h)) (secure d)) (map_get (SecureKeys.token (host_id h)) (secure d)).
Lemma repair_spec hosts d : exists fs l, repair_list hosts d = (with_faults fs d, Ok l) /\
  (faults d = [] -> fs = [] /\ l = host_id <$> List.filter (lacks_login_on d) hosts).
Proof.
  revert d. induction hosts as [|h hosts IH]; intros d; cbn [repair_list].
  { exists (faults d), []. by destruct d. }
  unfold attempt, catch, SecureStore.read, bind.
  io_step_script; unfold ret; cbn beta iota; io_step_script;
    match goal with |- context [repair_list hosts ?d'] => destruct (IH d') as (fs' & l & -> & Hw) end;
    eexists fs', _; (split; [reflexivity|]); intros E; try (by destruct Hf; auto); try (by destruct Hf0; auto).
  rewrite (Hs E) in *. destruct (Hw (Hs0 eq_refl)) as [-> ->]. split; [done|]. cbn [List.filter].
  change (lacks_login _ _) with (lacks_login_on d h). by destruct (lacks_login_on d h).
Qed.

Record Imported (prefs : list (jstr * jstr)) (d : Disk) (p : Disk * result jserror ImportReport) : Prop := {
  im_kept : kept d p.1;
  im_hosts : map_get HOSTS_KEY (kv p.1) = map_get HOSTS_KEY (kv d) \/
             map_get HOSTS_KEY (kv p.1) = Some (json_stringify (JArr (merge (existing_records (map_get HOSTS_KEY (kv d))) (legacy_hosts prefs))));
  im_done : forall rep, p.2 = Ok rep ->
    (status rep = already_done /\ map_get IMPORT_DONE_KEY (kv d) <> None /\ same_data p.1 d) \/
    (map_get IMPORT_DONE_KEY (kv p.1) <> None /\ hosts_on p.1 = hosts_on d ++ new_hosts prefs d /\
     (NoDup (keys prefs) -> forall k v, (k, v) ∈ prefs -> copyable k v = true -> map_get k (kv p.1) = Some (default v (map_get k (kv d)))));
  im_works : faults d = [] -> map_get IMPORT_DONE_KEY (kv d) = None -> exists rep, p.2 = Ok rep /\
    needRepair rep = host_id <$> List.filter (lacks_login_on d) (legacy_hosts prefs)
}.
Lemma hosts_not_marker : HOSTS_KEY <> IMPORT_DONE_KEY.
Proof. intros H. vm_compute in H. discriminate H. Qed.

(** The common end: copy the preferences, then set the marker. *)
Definition import_rest (prefs : list (jstr * jstr)) (f : nat -> ImportReport) : IO ImportReport :=
  copied <- copyOwnedPrefs prefs 0;; KeyValueStore.set IMPORT_DONE_KEY (js "1");; ret (f copied).
Lemma import_tail prefs d d1 (f : nat -> ImportReport) fs :
  let p := import_rest prefs f (with_faults fs d1) in
  kept d d1 -> map_get IMPORT_DONE_KEY (kv d1) = None ->
  (forall k v, copyable k v = true -> map_get k (kv d1) = map_get k (kv d)) ->
  kept d p.1 /\ map_get HOSTS_KEY (kv p.1) = map_get HOSTS_KEY (kv d1) /\
  (is_ok p.2 = true -> map_get IMPORT_DONE_KEY (kv p.1) <> None /\
     (NoDup (keys prefs) -> forall k v, (k, v) ∈ prefs -> copyable k v = true -> map_get k (kv p.1) = Some (default v (map_get k (kv d))))) /\
  (forall rep, p.2 = Ok rep -> exists n, rep = f n) /\
  (fs = [] -> is_ok p.2 = true).
Proof.
  intros p Hk Hm Hsame. destruct (copy_spec prefs 0 (with_faults fs d1)) as [H1 H2 H3 H4 H5].
  unfold p, import_rest, bind. destruct (copyOwnedPrefs prefs 0 (with_faults fs d1)) as [d2 [n|e]]; simpl in H1, H2, H3, H4, H5 |- *.
  2:{ split; [by transitivity (with_faults fs d1)|]. repeat (split; [done|]). intros E. by destruct (H5 E). }
  assert (kept d d2) as Hk2 by (by transitivity (with_faults fs d1)).
  unfold KeyValueStore.set. io_step_script; simpl.
  { split; [by transitivity d2|]. repeat (split; [done|]). intros E. destruct Hf. by apply H5. }
  split; [transitivity d2; [done|]; apply kept_set; left; congruence|].
  split; [rewrite map_get_set_ne by (symmetry; apply hosts_not_marker); done|].
  split; [|split; [intros rep [= <-]; by exists n | done]]. intros _. rewrite map_get_set_eq. split; [done|].
  intros Hnd k v Hin Hc. destruct (copyable_spec k v Hc) as [_ Hne]. rewrite map_get_set_ne by done. rewrite <- (Hsame k v Hc). by apply H4.
Qed.
Lemma import_spec prefs d : Imported prefs d (importLegacyState prefs d).
Proof.
  assert (forall fs, faults d <> [] -> Imported prefs d (with_faults fs d, Err storage_error)) as Hfail by (by split; [..|]; try left).
  unfold importLegacyState, KeyValueStore.get at 1, bind at 1. io_step_script; [by apply Hfail|].
  simpl. destruct (map_get IMPORT_DONE_KEY (kv d)) as [m|] eqn:Em.
  { split; simpl; [done | by left | | congruence]. intros rep [= <-]. left. split; [done|]. split; [congruence | done]. }
  destruct (map_get HOSTS_KEY prefs) as [raw|] eqn:Er.
  - destruct (read_records (records raw)) as [hosts skipped] eqn:Eh.
    assert (legacy_hosts prefs = hosts) as El by (unfold legacy_hosts; by rewrite Er, Eh).
    destruct (repair_spec hosts (with_faults fs d)) as (fs1 & repair & Erep & Hrep). unfold bind at 1. rewrite Erep.
    unfold KeyValueStore.get, bind at 1. io_step_script; [apply Hfail; intros E; by destruct Hf; apply Hrep, Hs|].
    simpl. unfold KeyValueStore.set at 1, bind at 1. io_step_script; [apply Hfail; intros E; by destruct Hf; apply Hs0, Hrep, Hs|].
    set (text := json_stringify _). set (d1 := with_kv (map_set HOSTS_KEY text) d).
    set (rep := {| status := imported; hosts_count := length hosts; needRepair := repair; skippedRecords := skipped |}).
    change (Imported prefs d (import_rest prefs (fun _ => rep) (with_faults fs2 d1))).
    destruct (import_tail prefs d d1 (fun _ => rep) fs2) as (T1 & T2 & T3 & T4 & T5).
    + apply (kept_set HOSTS_KEY text (faults d) d). by right.
    + simpl. by rewrite map_get_set_ne by apply hosts_not_marker.
    + intros k v Hc. simpl. rewrite map_get_set_ne; [done|]. symmetry. apply (copyable_spec k v Hc).
    + simpl in T2. rewrite map_get_set_eq in T2.
      split; [exact T1 | right; rewrite El; exact T2 | |].
      * intros rep' E. right. rewrite E in T3. destruct (T3 eq_refl) as [T3a T3b]. split; [exact T3a|]. split; [|exact T3b].
        unfold hosts_on at 1. rewrite T2. unfold new_hosts. rewrite El. apply hosts_merged.
      * intros E _. specialize (Hs E). specialize (Hrep Hs) as [Hf1 Hrep]. specialize (T5 (Hs1 (Hs0 Hf1))).
        destruct (import_rest _ _ (with_faults fs2 d1)) as [d2 [rep'|]]; [|done]. destruct (T4 rep' eq_refl) as [_ ->].
        exists rep. split; [done|]. simpl. by rewrite El, Hrep.
  - assert (legacy_hosts prefs = []) as El by (unfold legacy_hosts; by rewrite Er).
    set (f := fun copied => no_import (if (0 <? copied)%nat then imported else nothing_to_import)).
    change (Imported prefs d (import_rest prefs f (with_faults fs d))).
    destruct (import_tail prefs d d f fs) as (T1 & T2 & T3 & T4 & T5); try done.
    split; [exact T1 | left; exact T2 | |].
    + intros rep' E. right. rewrite E in T3. destruct (T3 eq_refl) as [T3a T3b]. split; [exact T3a|]. split; [|exact T3b].
      unfold hosts_on, new_hosts. rewrite T2, El. simpl. by rewrite app_nil_r.
    + intros E _. specialize (T5 (Hs E)). rewrite El.
      destruct (import_rest _ _ (with_faults fs d)) as [d2 [rep'|]]; [|done].
      destruct (T4 rep' eq_refl) as [n ->]. by eexists.
Qed.
Lemma import_hosts prefs d d' : map_get HOSTS_KEY (kv d') = map_get HOSTS_KEY (kv d) \/
    map_get HOSTS_KEY (kv d') = Some (json_stringify (JArr (merge (existing_records (map_get HOSTS_KEY (kv d))) (legacy_hosts prefs)))) ->
  hosts_on d' = hosts_on d /\ new_hosts prefs d' = new_hosts prefs d \/
  hosts_on d' = hosts_on d ++ new_hosts prefs d /\ new_hosts prefs d' = [].
Proof.
  unfold hosts_on, new_hosts. intros [->| ->]; [by left | right]. split; [apply hosts_merged|].
  rewrite existing_saved by apply merge_wf. apply merge_again.
Qed.

(** C13 The import is safe to run, to interrupt and to repeat.  Whatever storage calls fail, it changes
    no secret and overwrites nothing the app stored except the host list, and there it only appends:
    the list is as it was or gains exactly the legacy hosts whose ids no stored record has.  When it
    reports completion the marker is set, those hosts are listed and every owned preference is present,
    the app's own value winning; if it had already been done it changes nothing.  Run again after a
    failure, it adds each host at most once.  When storage works it completes, and the hosts reported
    for re-pairing are exactly those without a valid pin and a token in the secure store. *)
Theorem legacyImport_safe prefs d :
  let p := importLegacyState prefs d in
  kept d p.1 /\
  (hosts_on p.1 = hosts_on d \/ hosts_on p.1 = hosts_on d ++ new_hosts prefs d) /\
  (forall rep, p.2 = Ok rep ->
    (status rep = already_done /\ map_get IMPORT_DONE_KEY (kv d) <> None /\ same_data p.1 d) \/
    (map_get IMPORT_DONE_KEY (kv p.1) <> None /\ hosts_on p.1 = hosts_on d ++ new_hosts prefs d /\
     (NoDup (keys prefs) -> forall k v, (k, v) ∈ prefs -> copyable k v = true -> map_get k (kv p.1) = Some (default v (map_get k (kv d)))))) /\
  (forall fs, let d2 := (importLegacyState prefs (with_faults fs p.1)).1 in
     hosts_on d2 = hosts_on d \/ hosts_on d2 = hosts_on d ++ new_hosts prefs d) /\
  (faults d = [] -> map_get IMPORT_DONE_KEY (kv d) = None -> exists rep, p.2 = Ok rep /\
     needRepair rep = host_id <$> List.filter (lacks_login_on d) (legacy_hosts prefs)).
Proof.
  intros p. destruct (import_spec prefs d) as [H1 H2 H3 H4]. fold p in H1, H2, H3, H4. apply import_hosts in H2.
  split; [done|]. split; [tauto|]. split; [done|]. split; [|done].
  intros fs d2. destruct (import_spec prefs (with_faults fs p.1)) as [_ R _ _]. fold d2 in R. apply import_hosts in R.
  change (hosts_on (with_faults fs p.1)) with (hosts_on p.1) in R. change (new_hosts prefs (with_faults fs p.1)) with (new_hosts prefs p.1) in R.
  destruct H2 as [[Ea Eb]|[Ea Eb]], R as [[Ra _]|[Ra _]]; rewrite Ra, ?Eb, Ea, ?app_nil_r; auto.
Qed.
End LegacyImport.

Import Sample.

(** One host in the old app, the other already known, and storage failing before the marker is set. *)
Lemma legacyImport_safe_witness :
  let prefs := [(HOSTS_KEY, json_stringify (JArr (hostToJson <$> [host "h2"; host "h3"]))); (js "rfe_theme", js "1")] in
  let d := disk [false; false; false; false; false; false; false; true] in
  let p := importLegacyState prefs d in
  is_ok p.2 = false /\ (hosts_on p.1 = hosts_on d \/ hosts_on p.1 = hosts_on d ++ new_hosts prefs d) /\
  ids (hosts_on p.1) = [js "h1"; js "h2"; js "h3"] /\
  ids (hosts_on (importLegacyState prefs (with_faults [] p.1)).1) = [js "h1"; js "h2"; js "h3"].
Proof.
  intros prefs d p. split; [vm_compute; reflexivity|]. split; [|split; vm_compute; reflexivity].
  exact (proj1 (proj2 (legacyImport_safe prefs d))).
Defined.
