(* ===== verification/SyncRules.v ===== *)
(** * Folder sync rules

    [core/storage/syncRules.ts]: the rules that mirror remote folders, stored as a
    JSON list of JSON strings.  The store does not queue its operations, so a
    sequence here is of operations that do not overlap. *)

From Stdlib Require Import ZArith Lia Bool.
From Stdlib Require List.
From S2P Require Import Prelude JsCollections JsString Json Errors Host Storage.
Local Open Scope js_scope.

Record SyncRule := {
  rule_id : jstr; rule_hostId : jstr; rule_remotePath : jstr; rule_localPath : jstr;
  rule_enabled : bool; rule_lastSync : option jstr
}.
Definition SYNC_RULES_KEY : jstr := js "rfe_sync_rules_v1".

Section SyncRules.
Context `{C : JsonCodec} `{D : DateParse}.

Definition parseRule (raw : json) : option SyncRule :=
  match (match raw with JStr s => json_parse s | _ => Some raw end) with
  | Some (JObj o) =>
      match as_str (field (js "id") o), as_str (field (js "hostId") o),
            as_str (field (js "remotePath") o), as_str (field (js "localPath") o) with
      | Some i, Some h, Some r, Some l =>
          Some {| rule_id := i; rule_hostId := h; rule_remotePath := r; rule_localPath := l;
                  rule_enabled := bool_or true (field (js "enabled") o);
                  rule_lastSync := match as_str (field (js "lastSync") o) with
                                   | Some t => if date_parse t then Some t else None
                                   | None => None
                                   end |}
      | _, _, _, _ => None
      end
  | _ => None
  end.
(** [JSON.stringify] of a rule: an [undefined] field is left out. *)
Definition rule_json (r : SyncRule) : json := JObj (
  [(js "id", JStr (rule_id r)); (js "hostId", JStr (rule_hostId r)); (js "remotePath", JStr (rule_remotePath r));
   (js "localPath", JStr (rule_localPath r)); (js "enabled", JBool (rule_enabled r))] ++ opt_field "lastSync" (rule_lastSync r)).

Definition parse_rules (raw : option jstr) : list SyncRule :=
  match truthy raw with
  | None => []
  | Some t => match json_parse t with Some (JArr l) => omap parseRule l | _ => [] end
  end.
Definition list_rules : IO (list SyncRule) := raw <- KeyValueStore.get SYNC_RULES_KEY;; ret (parse_rules raw).
Definition rules_json (rules : list SyncRule) : json := JArr ((fun r => JStr (json_stringify (rule_json r))) <$> rules).
Definition write_rules (rules : list SyncRule) : IO unit := KeyValueStore.set SYNC_RULES_KEY (json_stringify (rules_json rules)).
Definition save_rule (rule : SyncRule) : IO unit :=
  rules <- list_rules;; write_rules (List.filter (fun r => negb (bool_decide (rule_id r = rule_id rule))) rules ++ [rule]).
Definition remove_rule (id : jstr) : IO unit :=
  rules <- list_rules;; write_rules (List.filter (fun r => negb (bool_decide (rule_id r = id))) rules).
Definition removeForHost (hostId : jstr) : IO unit :=
  rules <- list_rules;; write_rules (List.filter (fun r => negb (bool_decide (rule_hostId r = hostId))) rules).

(** ** The abstract store *)

Inductive RuleOp := OpSave (r : SyncRule) | OpRemove (id : jstr) | OpRemoveForHost (hostId : jstr).
Definition run_rule_op (o : RuleOp) : IO unit :=
  match o with OpSave r => save_rule r | OpRemove id => remove_rule id | OpRemoveForHost h => removeForHost h end.
Definition spec_rule_op (o : RuleOp) (rules : list SyncRule) : list SyncRule :=
  match o with
  | OpSave r => List.filter (fun x => negb (bool_decide (rule_id x = rule_id r))) rules ++ [r]
  | OpRemove id => List.filter (fun x => negb (bool_decide (rule_id x = id))) rules
  | OpRemoveForHost h => List.filter (fun x => negb (bool_decide (rule_hostId x = h))) rules
  end.
Definition rules_on (d : Disk) : list SyncRule := parse_rules (map_get SYNC_RULES_KEY (kv d)).
(** A rule's last sync, if it has one, is a date. *)
Definition rule_ok (r : SyncRule) : bool :=
  match rule_lastSync r with None => true | Some t => match date_parse t with Some _ => true | None => false end end.
Definition op_ok (o : RuleOp) : Prop := match o with OpSave r => rule_ok r = true | _ => True end.
(** One operation after the other, each failing or not as the script says. *)
Fixpoint run_rules (ops : list RuleOp) (d : Disk) : Disk * list bool :=
  match ops with
  | [] => (d, [])
  | o :: rest => let (d1, r) := run_rule_op o d in let (d2, oks) := run_rules rest d1 in (d2, is_ok r :: oks)
  end.

Lemma rule_json_wf r : json_wf (rule_json r) = true.
Proof. unfold rule_json. by destruct (rule_lastSync r). Qed.
Lemma parse_rule_json r : rule_ok r = true -> parseRule (JStr (json_stringify (rule_json r))) = Some r.
Proof.
  intros H. unfold parseRule. rewrite json_roundtrip by apply rule_json_wf. unfold rule_json, rule_ok in *.
  destruct r as [i h rp lp en [t|]]; cbn [rule_lastSync] in *; [|done]. destruct (date_parse t) eqn:E; [|done].
  transitivity (Some {| rule_id := i; rule_hostId := h; rule_remotePath := rp; rule_localPath := lp; rule_enabled := en;
                        rule_lastSync := if date_parse t then Some t else None |}); [reflexivity | by rewrite E].
Qed.
Lemma parseRule_ok j r : parseRule j = Some r -> rule_ok r = true.
Proof.
  unfold parseRule. destruct (match j with JStr s => json_parse s | _ => Some j end) as [[]|]; try done.
  destruct (as_str (field (js "id") fields)), (as_str (field (js "hostId") fields)), (as_str (field (js "remotePath") fields)),
    (as_str (field (js "localPath") fields)); try done. intros [= <-]. unfold rule_ok. cbn [rule_lastSync].
  destruct (as_str (field (js "lastSync") fields)) as [t|]; [|done]. by destruct (date_parse t) eqn:E; rewrite ?E.
Qed.
Lemma rules_on_ok d : Forall (fun r => rule_ok r = true) (rules_on d).
Proof.
  unfold rules_on, parse_rules. destruct (truthy _) as [t|]; [|constructor]. destruct (json_parse t) as [[]|]; try constructor.
  apply Forall_forall. intros r (j & _ & Hj)%list_elem_of_omap. by apply parseRule_ok in Hj.
Qed.
Lemma rules_written rules d : Forall (fun r => rule_ok r = true) rules ->
  rules_on (with_kv (map_set SYNC_RULES_KEY (json_stringify (rules_json rules))) d) = rules.
Proof.
  intros H. assert (json_wf (rules_json rules) = true) as Hwf.
  { unfold rules_json. rewrite json_wf_arr. apply forallb_forall_true, Forall_forall. by intros j (r & -> & _)%list_elem_of_fmap. }
  unfold rules_on. simpl. rewrite map_get_set_eq. unfold parse_rules. pose proof (json_stringify_nonempty _ Hwf).
  destruct (json_stringify (rules_json rules)) as [|c s] eqn:E; [done|]. cbn [truthy]. rewrite <- E, json_roundtrip by done.
  unfold rules_json. clear - H. induction H as [|r rules Hr _ IH]; [done|]. cbn [fmap list_fmap omap list_omap].
  rewrite parse_rule_json by done. by f_equal.
Qed.
Lemma spec_ok o rules : op_ok o -> Forall (fun r => rule_ok r = true) rules -> Forall (fun r => rule_ok r = true) (spec_rule_op o rules).
Proof.
  intros Ho H. rewrite Forall_forall in H. apply Forall_forall. intros x.
  destruct o; simpl in *; rewrite ?elem_snoc, ?elem_filter_bool; intuition (subst; auto).
Qed.
Lemma run_rule_op_spec o d : op_ok o ->
  (rules_on (run_rule_op o d).1 = rules_on d /\ is_ok (run_rule_op o d).2 = false /\ faults d <> []) \/
  (rules_on (run_rule_op o d).1 = spec_rule_op o (rules_on d) /\ is_ok (run_rule_op o d).2 = true /\ (faults d = [] -> faults (run_rule_op o d).1 = [])).
Proof.
  intros Ho.
  assert (run_rule_op o d = (rules <- list_rules;; write_rules (spec_rule_op o rules)) d) as -> by (by destruct o).
  unfold list_rules, write_rules, KeyValueStore.get, KeyValueStore.set, bind. io_step_script; [by left|]. unfold ret. cbn beta iota.
  io_step_script; [left; split; [done|]; split; [done|]; intros E; by apply Hf, Hs|].
  right. simpl. split; [|split; [done | intros E; by apply Hs0, Hs]].
  apply rules_written, spec_ok; [done|]. apply rules_on_ok.
Qed.

(** The stored rules refine a list keyed by id: whatever storage calls fail, an operation that
    reports failure leaves the rules as they were and one that succeeds makes exactly its change
    (save replaces the rule of that id, last; the removals drop the rule, or every rule of the
    computer), so the rules read back after any sequence are those of the operations that
    succeeded, and all succeed when storage works. *)
Theorem sync_rules_refine (ops : list RuleOp) (d : Disk) : Forall op_ok ops ->
  let p := run_rules ops d in
  length p.2 = length ops /\
  rules_on p.1 = fold_left (fun l ob => if ob.2 : bool then spec_rule_op ob.1 l else l) (zip ops p.2) (rules_on d) /\
  (faults d = [] -> p.2 = replicate (length ops) true).
Proof.
  intros Hok. revert d. induction Hok as [|o ops Ho _ IH]; intros d; [done|]. cbn [run_rules].
  pose proof (run_rule_op_spec o d Ho) as H. destruct (run_rule_op o d) as [d1 r]. cbn [fst snd] in H.
  specialize (IH d1). destruct (run_rules ops d1) as [d2 oks]. simpl in IH |- *. destruct IH as (I1 & I2 & I3).
  destruct H as [(E & Er & Hf)|(E & Er & Hf)]; rewrite Er, I1, I2, E; (split; [done|]); (split; [done|]); intros E0; [done|].
  by rewrite (I3 (Hf E0)).
Qed.
End SyncRules.

Lemma sync_rules_refine_witness :
  let rule i h := {| rule_id := js i; rule_hostId := js h; rule_remotePath := js "/a"; rule_localPath := js "/b";
                     rule_enabled := false; rule_lastSync := Some (js "2024-01-01") |} in
  let d := {| kv := []; secure := []; cleaned := []; faults := [false; false; false; true; false; false] |} in
  let D : DateParse := fun _ => Some 0 in
  let p := run_rules (C := plain_codec) (D := D) [OpSave (rule "1"%string "h"%string); OpSave (rule "2"%string "h"%string); OpSave (rule "3"%string "g"%string)] d in
  p.2 = [true; false; true] /\ rules_on (C := plain_codec) (D := D) p.1 = [rule "1"%string "h"%string; rule "3"%string "g"%string].
Proof.
  intros rule d D p.
  destruct (sync_rules_refine (C := plain_codec) (D := D)
    [OpSave (rule "1"%string "h"%string); OpSave (rule "2"%string "h"%string); OpSave (rule "3"%string "g"%string)] d) as (H1 & H2 & _).
  - repeat constructor; vm_compute; reflexivity.
  - split; [vm_compute; reflexivity|]. unfold p. rewrite H2. vm_compute. reflexivity.
Defined.
