(* ===== verification/Uploads.v ===== *)
(** * Planning uploads

    [features/transfers/uploadPlan.ts]: the names picked files get on the host and
    whether they may replace what is there. *)

From Stdlib Require Import ZArith Lia Bool.
From Stdlib Require List.
From S2P Require Import Prelude JsCollections JsString Json Errors Models Entries Paths.

(** ** [planUploads] *)

Record Picked := { picked_name : jstr; picked_uri : jstr; picked_size : option Z }.
Record UploadItem := { item_source : Picked; targetName : jstr; item_overwrite : bool }.
Inductive Resolution := keepBoth | overwrite | skip.

(** [/^\.+$/]. *)
Definition all_dots (s : jstr) : bool := nonempty s && List.forallb (Z.eqb dot) s.
Definition cleanUploadName (name : jstr) : jstr :=
  let base := default [] (last (split_on is_sep name)) in
  let visible := remove_chars is_control base in
  let cleaned := trim (if all_dots visible then [] else visible) in
  if nonempty cleaned then slice_last 200 cleaned else js "file".

Fixpoint plan_loop (picked : list Picked) (colliding taken : list jstr) (resolution : Resolution) : list UploadItem :=
  match picked with
  | [] => []
  | source :: rest =>
      let name := cleanUploadName (picked_name source) in
      let exists_ := set_has name colliding in
      match exists_, resolution with
      | true, skip => plan_loop rest colliding taken resolution
      | true, overwrite => {| item_source := source; targetName := name; item_overwrite := true |} :: plan_loop rest colliding taken resolution
      | _, _ =>
          let target := if exists_ || set_has name taken then dedupedName name taken else name in
          {| item_source := source; targetName := target; item_overwrite := false |}
            :: plan_loop rest colliding (set_add target taken) resolution
      end
  end.
Definition planUploads (picked : list Picked) (colliding : list jstr) (resolution : Resolution) : list UploadItem :=
  plan_loop picked colliding colliding resolution.

Lemma elem_slice_last n s (c : Z) : c ∈ slice_last n s -> c ∈ s.
Proof. unfold slice_last. intros H. rewrite <- (take_drop (length s - n) s). apply elem_of_app. by right. Qed.
Lemma cleanUploadName_plain name : plain_name (cleanUploadName name).
Proof.
  unfold cleanUploadName. set (base := default [] (last (split_on is_sep name))).
  assert (forall c, c ∈ base -> is_sep c = false) as Hb.
  { subst base. destruct (last (split_on is_sep name)) as [w|] eqn:E; simpl; [|by intros c ?%elem_of_nil].
    apply last_Some_elem_of in E. pose proof (split_on_pieces is_sep name) as Hp. rewrite Forall_forall in Hp. specialize (Hp w E).
    by rewrite Forall_forall in Hp. }
  set (visible := remove_chars is_control base). set (cleaned := trim _).
  destruct (nonempty cleaned) eqn:En.
  - split.
    + unfold slice_last. intros E%(f_equal length). rewrite length_drop in E. destruct cleaned; [done | simpl in E; lia].
    + apply Forall_forall. intros c Hc%elem_slice_last. apply elem_trim in Hc. destruct (all_dots visible); [by apply elem_of_nil in Hc|].
      apply elem_remove_chars in Hc as [Hc _]. by apply Hb.
  - split; [done|]. vm_compute. repeat constructor.
Qed.
Lemma dedupedName_plain name existing : plain_name name -> plain_name (dedupedName name existing).
Proof.
  intros Hp. pose proof Hp as [_ Hs]. rewrite Forall_forall in Hs. destruct (decide (name ∈ existing)) as [Hin|Hin].
  2:{ unfold dedupedName. by rewrite (proj2 (set_has_false _ _) Hin). }
  destruct (dedupedName_first name existing Hin) as (k & _ & -> & _). unfold dedup_candidate.
  pose proof (split_ext_app name) as Ea. destruct (split_ext name) as [base ext]. simpl in Ea. split.
  - intros E%(f_equal length). rewrite !length_app in E. change (length (js " (")) with 2%nat in E. simpl in E. lia.
  - apply Forall_forall. intros c Hc. rewrite !elem_of_app in Hc.
    assert (forall l, Forall (fun c => is_sep c = false) l -> c ∈ l -> is_sep c = false) as Hl by (intros l H; by rewrite Forall_forall in H; apply H).
    destruct Hc as [Hc|[Hc|[Hc|[Hc|Hc]]]].
    + apply Hs. rewrite <- Ea. apply elem_of_app. by left.
    + apply (Hl (js " (")); [vm_compute; repeat constructor | done].
    + apply (Hl _) in Hc; [done|]. eapply Forall_impl; [apply string_of_Z_digits; lia|]. intros d Hd. simpl in Hd.
      unfold is_digit in Hd. unfold is_sep, slash, backslash. breflect. apply orb_false_iff. rewrite !Z.eqb_neq. lia.
    + apply (Hl (js ")")); [vm_compute; repeat constructor | done].
    + apply Hs. rewrite <- Ea. apply elem_of_app. by right.
Qed.

(** What each item of a plan is, and the names it hands out. *)
Record PlanOk (picked : list Picked) (colliding taken : list jstr) (resolution : Resolution) (out : list UploadItem) : Prop := {
  po_sources : item_source <$> out = List.filter (fun p => match resolution with skip => negb (set_has (cleanUploadName (picked_name p)) colliding) | _ => true end) picked;
  po_plain : Forall (fun i => plain_name (targetName i)) out;
  po_over : Forall (fun i => item_overwrite i = true ->
              resolution = overwrite /\ targetName i = cleanUploadName (picked_name (item_source i)) /\ targetName i ∈ colliding) out;
  po_new : Forall (fun i => item_overwrite i = false -> targetName i ∉ taken) out;
  po_over_all : resolution = overwrite -> Forall (fun i => cleanUploadName (picked_name (item_source i)) ∈ colliding -> item_overwrite i = true) out;
  po_distinct : NoDup (targetName <$> List.filter (fun i => negb (item_overwrite i)) out)
}.
Lemma PlanOk_new source picked colliding taken resolution out :
  let name := cleanUploadName (picked_name source) in
  let target := if set_has name colliding || set_has name taken then dedupedName name taken else name in
  (name ∈ colliding -> resolution = keepBoth) ->
  PlanOk picked colliding (set_add target taken) resolution out ->
  PlanOk (source :: picked) colliding taken resolution ({| item_source := source; targetName := target; item_overwrite := false |} :: out).
Proof.
  intros name target Hk [H1 H2 H3 H4 H5 H6].
  assert (target ∉ taken) as Hfresh.
  { subst target. destruct (set_has name colliding || set_has name taken) eqn:E; [apply dedupedName_fresh|]. breflect. by apply set_has_false. }
  split.
  - rewrite fmap_cons, H1. cbn [List.filter item_source]. fold name. destruct resolution; try done. destruct (set_has name colliding) eqn:E; [|done].
    apply set_has_spec in E. by specialize (Hk E).
  - constructor; [|done]. simpl. pose proof (cleanUploadName_plain (picked_name source)). subst target name.
    destruct (_ || _); [by apply dedupedName_plain | done].
  - by constructor.
  - constructor; [done|]. eapply Forall_impl; [exact H4|]. simpl. intros i Hi Ho Hin. apply (Hi Ho). apply elem_set_add. by right.
  - intros E. constructor; [|by apply H5]. simpl. intros Hin. rewrite (Hk Hin) in E. done.
  - simpl. apply NoDup_cons. split; [|done]. intros (i & Hi & [Hin Ho]%elem_filter_bool)%list_elem_of_fmap. rewrite Forall_forall in H4.
    apply negb_true_iff in Ho. apply (H4 i Hin Ho). rewrite <- Hi. apply elem_set_add. by left.
Qed.
Lemma plan_loop_ok picked colliding taken resolution : PlanOk picked colliding taken resolution (plan_loop picked colliding taken resolution).
Proof.
  revert taken. induction picked as [|source picked IH]; intros taken.
  { split; try done; try constructor. }
  cbn [plan_loop]. set (name := cleanUploadName (picked_name source)).
  destruct (set_has name colliding) eqn:Ex; [destruct resolution|].
  - match goal with |- context [set_add ?t taken] => replace t with (if set_has name colliding || set_has name taken then dedupedName name taken else name) by (by rewrite Ex) end.
    by apply PlanOk_new.
  - destruct (IH taken) as [H1 H2 H3 H4 H5 H6]. apply set_has_spec in Ex as Hin. split; try (simpl; done).
    + by rewrite fmap_cons, H1.
    + constructor; [apply cleanUploadName_plain | done].
    + constructor; [|done]. by intros _.
    + by constructor.
    + intros E. constructor; [done | by apply H5].
  - destruct (IH taken) as [H1 H2 H3 H4 H5 H6]. split; try done. simpl. fold name. by rewrite Ex.
  - match goal with |- context [set_add ?t taken] => replace t with (if set_has name colliding || set_has name taken then dedupedName name taken else name) by (by rewrite Ex) end.
    apply set_has_false in Ex. destruct resolution; apply PlanOk_new; auto; by intros ?.
Qed.

(** Upload plans are safe: the files planned are the picked ones in order, less, when skipping, those
    whose name was found in the folder; every target is a single path segment, so its path is directly
    in the destination; a target is a name found there only when the user chose to overwrite, and then
    it is the file's own name; and the new names are pairwise different. *)
Theorem planUploads_correct picked colliding resolution dir :
  let out := planUploads picked colliding resolution in
  item_source <$> out = List.filter (fun p => match resolution with skip => negb (set_has (cleanUploadName (picked_name p)) colliding) | _ => true end) picked /\
  (forall i, i ∈ out -> plain_name (targetName i) /\ basenameOf (joinRemotePath dir (targetName i)) = targetName i /\
     (canonical_dir dir = true -> parentDirOf (joinRemotePath dir (targetName i)) = dir)) /\
  (forall i, i ∈ out -> targetName i ∈ colliding ->
     resolution = overwrite /\ item_overwrite i = true /\ targetName i = cleanUploadName (picked_name (item_source i))) /\
  NoDup (targetName <$> List.filter (fun i => negb (item_overwrite i)) out).
Proof.
  intros out. destruct (plan_loop_ok picked colliding colliding resolution) as [H1 H2 H3 H4 H5 H6]. fold (planUploads picked colliding resolution) in *. fold out in H1, H2, H3, H4, H5, H6.
  rewrite Forall_forall in H2, H3, H4. split; [done|]. split; [|split; [|done]].
  - intros i Hi. split; [by apply H2|]. split; [by apply basename_join, H2|]. intros Hd. by apply parent_join, H2.
  - intros i Hi Hin. destruct (item_overwrite i) eqn:Eo; [|by destruct (H4 i Hi Eo)].
    destruct (H3 i Hi Eo) as (? & ? & _). done.
Qed.

(** Two guarantees the planner's comments state that the code does not give: a name of two dots with a
    space before it is not rejected as a dot name but trimmed to the parent directory's name, and when
    overwriting, two picked files of one existing name are both sent to that one target. *)
Theorem planUploads_gaps :
  cleanUploadName (js " ..") = js ".." /\
  (forall a b colliding, cleanUploadName (picked_name a) ∈ colliding -> cleanUploadName (picked_name b) = cleanUploadName (picked_name a) ->
     targetName <$> planUploads [a; b] colliding overwrite = [cleanUploadName (picked_name a); cleanUploadName (picked_name a)]).
Proof.
  split; [vm_compute; reflexivity|]. intros a b colliding Hin E. unfold planUploads. cbn [plan_loop].
  rewrite E, (proj2 (set_has_spec _ _) Hin). done.
Qed.
(** The name made up to keep both is free only among the picked names: the folder holds [a.txt] and
    [a (1).txt], only [a.txt] was picked, and the upload is sent to [a (1).txt]. *)
Theorem keep_both_takes_existing :
  let folder := [js "a.txt"; js "a (1).txt"] in
  let file := {| picked_name := js "a.txt"; picked_uri := []; picked_size := None |} in
  let colliding := List.filter (fun n => set_has n folder) [cleanUploadName (picked_name file)] in
  Forall (fun i => targetName i ∈ folder) (planUploads [file] colliding keepBoth).
Proof. vm_compute. repeat constructor. Qed.
