(* ===== verification/Picker.v ===== *)
(** * The destination picker

    [features/explorer/destinationPicker.ts]: the folder browser used to choose where
    to move, copy or save.  Every [load] and [loadMore] takes the next generation
    number and awaits one listing, so task [g] is the [g]-th of [tasks]; replies,
    user actions and their interleavings are events. *)

From Stdlib Require Import ZArith Lia Bool.
From Stdlib Require List.
From S2P Require Import Prelude JsCollections JsString Json Errors Models Entries Paths.

Record PickerState := {
  pathStack : list jstr;
  folders : list Entry;
  loading : bool;
  loadingMore : bool;
  p_error : option jstr;
  nextCursor : option jstr
}.
Definition pickerPath (s : PickerState) : jstr := default [] (last (pathStack s)).

(** What a suspended call awaits. *)
Inductive Task := TLoad (path : jstr) | TMore (path cursor : jstr).
Inductive Create := AwaitingClient (name : jstr) | AwaitingCreate (path : jstr) | CreateEnded.

Section Picker.
Context {Er : Type}.
Variables (startPath : jstr) (humanize : Er -> jstr).

Record Picker := {
  pk : PickerState;
  generation : nat;
  tasks : list (Task * bool);        (** [true] while the reply is awaited *)
  creates : list Create;
  sent : list jstr;                  (** [createFolder] requests *)
  pages : list (jstr * list Entry)   (** the listings shown: folder and kept entries *)
}.
Definition createDestinationPicker : Picker := {|
  pk := {| pathStack := buildPathStack startPath; folders := []; loading := false; loadingMore := false; p_error := None; nextCursor := None |};
  generation := 0; tasks := []; creates := []; sent := []; pages := [] |}.
Definition keep (prefs : VisibilityPrefs) (e : Entry) : bool := entry_isDir e && negb (isEntryHiddenInPicker e prefs).

Definition with_pk (s : PickerState) (p : Picker) : Picker :=
  {| pk := s; generation := generation p; tasks := tasks p; creates := creates p; sent := sent p; pages := pages p |}.
(** [const gen = ++generation] and the awaited request. *)
Definition begin (t : Task) (s : PickerState) (p : Picker) : Picker :=
  {| pk := s; generation := S (generation p); tasks := tasks p ++ [(t, true)]; creates := creates p; sent := sent p; pages := pages p |}.

Definition load (p : Picker) : Picker :=
  let s := pk p in
  begin (TLoad (pickerPath s))
    {| pathStack := pathStack s; folders := folders s; loading := true; loadingMore := loadingMore s; p_error := None; nextCursor := None |} p.
Definition loadMore (p : Picker) : Picker :=
  let s := pk p in
  match nextCursor s with
  | Some cursor =>
      if loading s || loadingMore s then p
      else begin (TMore (pickerPath s) cursor)
             {| pathStack := pathStack s; folders := folders s; loading := loading s; loadingMore := true; p_error := p_error s; nextCursor := nextCursor s |} p
  | None => p
  end.
Definition set_stack (stack : list jstr) (p : Picker) : Picker :=
  let s := pk p in
  with_pk {| pathStack := stack; folders := folders s; loading := loading s; loadingMore := loadingMore s; p_error := p_error s; nextCursor := nextCursor s |} p.
Definition navigate (path : jstr) (p : Picker) : Picker := load (set_stack (pathStack (pk p) ++ [path]) p).
Definition navigateTo (index : nat) (p : Picker) : Picker :=
  if (length (pathStack (pk p)) <=? index)%nat then p else load (set_stack (take (S index) (pathStack (pk p))) p).

(** A listing settles for the current generation. *)
Definition load_done (path : jstr) (o : result Er Listing) (prefs : VisibilityPrefs) (p : Picker) : Picker :=
  let s := pk p in
  match o with
  | Ok l => let kept := List.filter (keep prefs) (listing_entries l) in
            {| pk := {| pathStack := pathStack s; folders := kept; loading := false; loadingMore := loadingMore s; p_error := None; nextCursor := listing_nextCursor l |};
               generation := generation p; tasks := tasks p; creates := creates p; sent := sent p; pages := [(path, kept)] |}
  | Err e => with_pk {| pathStack := pathStack s; folders := folders s; loading := false; loadingMore := loadingMore s;
                        p_error := Some (humanize e); nextCursor := nextCursor s |} p
  end.
Definition more_done (path : jstr) (o : result Er Listing) (prefs : VisibilityPrefs) (p : Picker) : Picker :=
  let s := pk p in
  match o with
  | Ok l => let kept := List.filter (keep prefs) (listing_entries l) in
            {| pk := {| pathStack := pathStack s; folders := folders s ++ kept; loading := loading s; loadingMore := false; p_error := p_error s; nextCursor := listing_nextCursor l |};
               generation := generation p; tasks := tasks p; creates := creates p; sent := sent p; pages := pages p ++ [(path, kept)] |}
  | Err _ => with_pk {| pathStack := pathStack s; folders := folders s; loading := loading s; loadingMore := false; p_error := p_error s; nextCursor := nextCursor s |} p
  end.
Definition settle_task (g : nat) (p : Picker) : Picker :=
  {| pk := pk p; generation := generation p; tasks := alter (fun t => (t.1, false)) (pred g) (tasks p); creates := creates p; sent := sent p; pages := pages p |}.
Definition set_create (i : nat) (c : Create) (p : Picker) : Picker :=
  {| pk := pk p; generation := generation p; tasks := tasks p; creates := <[i := c]> (creates p); sent := sent p; pages := pages p |}.

Inductive PEvent :=
| PLoad | PMore | PNavigate (path : jstr) | PNavigateTo (index : nat) | PCreate (name : jstr)
| PReply (g : nat) (o : result Er Listing) (prefs : VisibilityPrefs)
| PClient (i : nat) (ok : bool)      (** [createFolder]'s client settles: the path is read now *)
| PCreated (i : nat) (ok : bool).    (** the folder was created, or not *)
Definition pstep (p : Picker) (e : PEvent) : Picker :=
  match e with
  | PLoad => load p
  | PMore => loadMore p
  | PNavigate path => navigate path p
  | PNavigateTo i => navigateTo i p
  | PCreate name => {| pk := pk p; generation := generation p; tasks := tasks p; creates := creates p ++ [AwaitingClient name]; sent := sent p; pages := pages p |}
  | PReply (S k as g) o prefs =>
      match tasks p !! k with
      | Some (t, true) =>
          let p1 := settle_task g p in
          if (g =? generation p)%nat
          then match t with TLoad path => load_done path o prefs p1 | TMore path _ => more_done path o prefs p1 end
          else p1
      | _ => p
      end
  | PReply O _ _ => p
  | PClient i ok =>
      match creates p !! i with
      | Some (AwaitingClient name) =>
          if ok
          then let path := joinRemotePath (pickerPath (pk p)) name in
               let p1 := set_create i (AwaitingCreate path) p in
               {| pk := pk p1; generation := generation p1; tasks := tasks p1; creates := creates p1; sent := sent p1 ++ [path]; pages := pages p1 |}
          else set_create i CreateEnded p
      | _ => p
      end
  | PCreated i ok =>
      match creates p !! i with
      | Some (AwaitingCreate _) => let p1 := set_create i CreateEnded p in if ok then load p1 else p1
      | _ => p
      end
  end.
Definition prun (es : list PEvent) : Picker := fold_left pstep es createDestinationPicker.

(** ** Invariant *)

Definition live_load (p : Picker) : Prop := last (tasks p) = Some (TLoad (pickerPath (pk p)), true).
Record PI (p : Picker) : Prop := {
  pi_gen : generation p = length (tasks p);
  pi_folders : folders (pk p) = mjoin (pages p).*2;
  pi_dirs : Forall (fun e => entry_isDir e = true) (folders (pk p));
  pi_loading : loading (pk p) = true <-> live_load p;
  pi_pages : loading (pk p) = false -> p_error (pk p) = None -> tasks p <> [] ->
             pages p <> [] /\ Forall (fun pg => pg.1 = pickerPath (pk p)) (pages p);
  pi_cursor : nextCursor (pk p) <> None -> loading (pk p) = false /\ p_error (pk p) = None /\ tasks p <> [];
  pi_live : forall t, last (tasks p) = Some (t, true) ->
              match t with TLoad path => path = pickerPath (pk p) | TMore path _ => path = pickerPath (pk p) /\ p_error (pk p) = None end
}.
Lemma keep_dirs prefs l : Forall (fun e => entry_isDir e = true) (List.filter (keep prefs) l).
Proof. apply Forall_forall. intros e [_ H]%elem_filter_bool. unfold keep in H. by breflect. Qed.
Lemma PI_load p : generation p = length (tasks p) -> folders (pk p) = mjoin (pages p).*2 ->
  Forall (fun e => entry_isDir e = true) (folders (pk p)) -> PI (load p).
Proof.
  intros H1 H2 H3. split; simpl; try done.
  - rewrite length_app, H1. simpl. lia.
  - unfold live_load. simpl. by rewrite last_snoc.
  - intros t. rewrite last_snoc. by intros [= <-].
Qed.
Lemma PI_same p q : PI p -> pk q = pk p -> generation q = generation p -> tasks q = tasks p -> pages q = pages p -> PI q.
Proof. intros [H1 H2 H3 H4 H5 H6 H7] E1 E2 E3 E4. split; unfold live_load in *; rewrite ?E1, ?E2, ?E3, ?E4; done. Qed.
Lemma last_settle k (l : list (Task * bool)) : last (alter (fun t => (t.1, false)) k l) =
  if (S k =? length l)%nat then (fun t => (t.1, false)) <$> last l else last l.
Proof.
  rewrite !last_lookup, length_alter. destruct (S k =? length l)%nat eqn:E; breflect.
  - rewrite <- E. cbn [pred]. by rewrite list_lookup_alter_eq.
  - destruct (decide (k = pred (length l))) as [->|Hne]; [|by rewrite list_lookup_alter_ne]. destruct l; [done | simpl in *; lia].
Qed.
Lemma PI_settled p k t o prefs (q := settle_task (S k) p) : PI p -> tasks p !! k = Some (t, true) ->
  PI (if (S k =? length (tasks p))%nat
      then match t with TLoad path => load_done path o prefs q | TMore path _ => more_done path o prefs q end else q).
Proof.
  intros H Ht. pose proof H as [H1 H2 H3 H4 H5 H6 H7].
  assert (alter (fun t => (t.1, false)) k (tasks p) <> []) as Hne.
  { intros E%(f_equal length). rewrite length_alter in E. apply lookup_lt_Some in Ht. simpl in E. lia. }
  assert (tasks p <> []) as Hne' by (by intros E; rewrite E in Ht).
  pose proof (last_settle k (tasks p)) as Hl'. destruct (S k =? length (tasks p))%nat eqn:Ek.
  - assert (last (tasks p) = Some (t, true)) as Hl by (rewrite last_lookup; apply Nat.eqb_eq in Ek; by rewrite <- Ek).
    specialize (H7 t Hl). rewrite Hl in Hl'. cbn [fmap option_fmap option_map fst] in Hl'.
    destruct t as [path|path c].
    + assert (loading (pk p) = true) as Eload by (apply H4; unfold live_load; by rewrite Hl, H7).
      destruct o as [l|e]; split; simpl; unfold live_load; simpl; rewrite ?length_alter, ?Hl'; try done; try (by intros ? [=]).
      * by rewrite app_nil_r.
      * apply keep_dirs.
      * intros _ _ _. split; [done|]. constructor; [done | constructor].
      * intros Hc. destruct (H6 Hc) as [E _]. congruence.
    + assert (loading (pk p) = false) as Eload.
      { destruct (loading (pk p)); [|done]. destruct H4 as [H4 _]. specialize (H4 eq_refl). unfold live_load in H4. by rewrite Hl in H4. }
      destruct H7 as [Hp He]. destruct (H5 Eload He Hne') as [Hpn Hall].
      destruct o as [l|e]; split; simpl; unfold live_load; simpl; rewrite ?length_alter, ?Hl', ?Eload; try done; try (by intros ? [=]).
      * rewrite fmap_app, join_app, H2. simpl. by rewrite app_nil_r.
      * apply Forall_app. split; [done | apply keep_dirs].
      * intros _ _ _. split; [by destruct (pages p)|]. apply Forall_app. split; [done|]. constructor; [done | constructor].
  - split; simpl; unfold live_load in *; simpl; rewrite ?length_alter, ?Hl'; try done.
    + intros Ha Hb _. by apply H5.
    + intros Hc. destruct (H6 Hc) as (? & ? & _). done.
Qed.
Lemma PI_step p e : PI p -> PI (pstep p e).
Proof.
  intros H. pose proof H as [H1 H2 H3 H4 H5 H6 H7]. destruct e as [| |path|i|name|[|k] o prefs|i ok|i ok]; cbn [pstep]; try done.
  - by apply PI_load.
  - unfold loadMore. destruct (nextCursor (pk p)) as [c|] eqn:Ec; [|done]. destruct (loading (pk p) || loadingMore (pk p)) eqn:E; [done|]. breflect.
    destruct (H6 ltac:(done)) as (_ & He & Ht). destruct (H5 H0 He Ht) as [Hp1 Hp2].
    split; simpl; unfold live_load; simpl; rewrite ?last_snoc, ?length_app, ?H0; simpl; try done; try lia.
    + intros _. split; [done|]. split; [done|]. by destruct (tasks p).
    + by intros t [= <-].
  - by apply PI_load.
  - unfold navigateTo. destruct (_ <=? i)%nat; [done | by apply PI_load].
  - destruct (tasks p !! k) as [[t [|]]|] eqn:Ht; try done. cbv zeta. rewrite H1. by apply PI_settled.
  - destruct (creates p !! i) as [[]|]; try done. destruct ok; apply (PI_same p); done.
  - destruct (creates p !! i) as [[]|]; try done. destruct ok; [by apply PI_load | by apply (PI_same p)].
Qed.
Lemma PI_prun es : PI (prun es).
Proof.
  unfold prun. induction es as [|e es IH] using rev_ind; [|rewrite fold_left_app; by apply PI_step].
  split; simpl; try done.
Qed.

(** However loads, further pages, navigation and folder creation interleave, the picker shows only
    folders, and they are the listing pages of one folder in order; when it is neither loading nor
    showing an error that folder is the one it is at; and it is loading exactly while the reply of its
    latest request, a first page of the folder it is at, is outstanding: a reply for a folder already
    left is never shown. *)
Theorem picker_shows_current es :
  let p := prun es in
  Forall (fun e => entry_isDir e = true) (folders (pk p)) /\
  folders (pk p) = mjoin (pages p).*2 /\
  (loading (pk p) = true <-> live_load p) /\
  (loading (pk p) = false -> p_error (pk p) = None -> tasks p <> [] ->
     pages p <> [] /\ Forall (fun pg => pg.1 = pickerPath (pk p)) (pages p)).
Proof. destruct (PI_prun es) as [H1 H2 H3 H4 H5 H6 H7]. done. Qed.

(** *** Leaving while a further page loads *)

Definition more_tasks (p : Picker) : nat := length (List.filter (fun t => match t.1 with TMore _ _ => true | _ => false end) (tasks p)).
(** [loadingMore] is set and no reply can clear it. *)
Record Stuck (n : nat) (p : Picker) : Prop := {
  sk_more : loadingMore (pk p) = true;
  sk_gen : generation p = length (tasks p);
  sk_old : forall k path c, tasks p !! k = Some (TMore path c, true) -> (S k < generation p)%nat;
  sk_count : more_tasks p = n
}.
Lemma Stuck_load n p : Stuck n p -> Stuck n (load p).
Proof.
  intros [H1 H2 H3 H4]. split; simpl; try done.
  - rewrite length_app, H2. simpl. lia.
  - intros k path c Hk. apply lookup_snoc_Some in Hk as [[Hlt Hk]|[_ [=]]]. lia.
  - unfold more_tasks in *. simpl. rewrite List.filter_app, length_app. simpl. lia.
Qed.
Lemma more_settle k (l : list (Task * bool)) :
  length (List.filter (fun t => match t.1 with TMore _ _ => true | _ => false end) (alter (fun t => (t.1, false)) k l)) =
  length (List.filter (fun t => match t.1 with TMore _ _ => true | _ => false end) l).
Proof.
  revert k. induction l as [|[t b] l IH]; intros [|k]; cbn; [done..| |]; [by destruct t|]. destruct t; cbn; [|f_equal]; apply IH.
Qed.
Lemma Stuck_step n p e : Stuck n p -> Stuck n (pstep p e).
Proof.
  intros H. pose proof H as [H1 H2 H3 H4]. destruct e as [| |path|i|name|[|k] o prefs|i ok|i ok]; cbn [pstep]; try done.
  - by apply Stuck_load.
  - unfold loadMore. rewrite H1, orb_true_r. by destruct (nextCursor (pk p)).
  - by apply Stuck_load.
  - unfold navigateTo. destruct (_ <=? i)%nat; [done|]. by apply Stuck_load.
  - destruct (tasks p !! k) as [[t [|]]|] eqn:Ht; try done.
    assert (forall q, q = settle_task (S k) p -> Stuck n q) as Hs.
    { intros q ->. split; simpl; [done | by rewrite length_alter | | by unfold more_tasks; simpl; rewrite more_settle].
      intros j path c Hj. destruct (decide (j = k)) as [->|Hne]; [by rewrite list_lookup_alter_eq, Ht in Hj|].
      rewrite list_lookup_alter_ne in Hj by done. eauto. }
    cbv zeta. destruct (S k =? generation p)%nat eqn:E; [|by apply Hs]. breflect.
    destruct t as [path|path c]; [|specialize (H3 k path c Ht); lia].
    destruct (Hs _ eq_refl) as [S1 S2 S3 S4]. by destruct o.
  - destruct (creates p !! i) as [[]|]; try done. by destruct ok.
  - destruct (creates p !! i) as [[]|]; try done. destruct ok; [by apply Stuck_load | done].
Qed.

(** A defect: once the user leaves a folder while a further page of it is loading, [loadingMore]
    stays set for the rest of the picker's life, whatever happens next, so no further page of any
    folder is ever requested again. *)
Theorem picker_stops_paging es path es' :
  let more := prun (es ++ [PMore]) in
  loadingMore (pk (prun es)) = false -> loadingMore (pk more) = true ->
  let p := prun (es ++ [PMore; PNavigate path] ++ es') in
  loadingMore (pk p) = true /\ more_tasks p = more_tasks more.
Proof.
  intros more Hoff Hon p.
  assert (Stuck (more_tasks more) (prun (es ++ [PMore; PNavigate path]))) as Hst.
  { unfold prun. rewrite fold_left_app. change (Stuck (more_tasks more) (load (set_stack (pathStack (pk (loadMore (prun es))) ++ [path]) (loadMore (prun es))))).
    assert (more = loadMore (prun es)) as Em by (unfold more, prun; by rewrite fold_left_app).
    rewrite <- Em. pose proof (pi_gen _ (PI_prun (es ++ [PMore]))) as Hg. fold more in Hg.
    split; simpl; [done | rewrite length_app, Hg; simpl; lia | |].
    - intros k q c Hk. apply lookup_snoc_Some in Hk as [[Hlt Hk]|[_ [=]]]. lia.
    - unfold more_tasks. simpl. rewrite List.filter_app, length_app. simpl. lia. }
  unfold p. rewrite app_assoc. unfold prun. rewrite fold_left_app. fold (prun (es ++ [PMore; PNavigate path])).
  assert (forall l q, Stuck (more_tasks more) q -> Stuck (more_tasks more) (fold_left pstep l q)) as Hrun.
  { intros l. induction l as [|e l IH]; intros q Hq; [done|]. simpl. by apply IH, Stuck_step. }
  destruct (Hrun es' _ Hst). done.
Qed.
End Picker.

Lemma picker_stops_paging_witness :
  let page c := {| listing_path := js "/a"; listing_entries := []; listing_nextCursor := c |} in
  let reply g c := PReply (Er := unit) g (Ok (page c)) defaultVisibility in
  let es := [PLoad; reply 1%nat (Some (js "2"))] in
  let p := prun (js "/a") (fun _ : unit => []) (es ++ [PMore; PNavigate (js "/a/b")] ++ [reply 2%nat None; reply 3%nat (Some (js "2")); PMore]) in
  loading (pk p) = false /\ nextCursor (pk p) = Some (js "2") /\ loadingMore (pk p) = true /\ more_tasks p = 1%nat.
Proof.
  intros page reply es p. split; [vm_compute; reflexivity|]. split; [vm_compute; reflexivity|].
  destruct (picker_stops_paging (js "/a") (fun _ : unit => []) es (js "/a/b") [reply 2%nat None; reply 3%nat (Some (js "2")); PMore]) as [H1 H2];
    [vm_compute; reflexivity | vm_compute; reflexivity |].
  split; [exact H1|]. unfold p. rewrite H2. vm_compute. reflexivity.
Defined.
