(* ===== verification/DupFinder.v ===== *)
(** * Finding duplicate files

    [features/dups/dupFinder.ts]: walk a remote folder page by page, hash the files in
    chunks, group equal hashes and mark every copy but one for deletion. *)

From Stdlib Require Import ZArith Lia Bool Permutation Sorted.
From Stdlib Require List.
From S2P Require Import Prelude JsCollections JsString Json Errors Models.
Local Open Scope js_scope.

Record DupGroup := { dup_hash : jstr; dup_paths : list jstr }.
Definition CHECKSUM_CHUNK : nat := 500.
(** [Record<string, number>] and [Record<string, string>]. *)
Local Notation Sizes := (list (jstr * Z)).
Local Notation Hashes := (list (jstr * jstr)).

(** The size of a group's first path, [sizes[g.paths[0]] ?? 0]. *)
Definition first_size (sizes : Sizes) (g : DupGroup) : Z :=
  match dup_paths g with p :: _ => default 0 (map_get p sizes) | [] => 0 end.
Definition by_hash_step (hashes : Hashes) (m : list (jstr * list jstr)) (p : jstr) : list (jstr * list jstr) :=
  match map_get p hashes with
  | None => m
  | Some h => map_set h (default [] (map_get h m) ++ [p]) m
  end.
Definition by_hash (hashes : Hashes) (order : list jstr) : list (jstr * list jstr) := fold_left (by_hash_step hashes) order [].
Definition groupDuplicates (hashes : Hashes) (sizes : Sizes) (order : list jstr) : list DupGroup :=
  sort_by (fun a b => first_size sizes b - first_size sizes a)
    ((fun kv => {| dup_hash := kv.1; dup_paths := kv.2 |}) <$> List.filter (fun kv => (1 <? length kv.2)%nat) (by_hash hashes order)).
Definition computeWaste (groups : list DupGroup) (sizes : Sizes) : Z :=
  fold_left (fun sum g => sum + first_size sizes g * (Z.of_nat (length (dup_paths g)) - 1)) groups 0.
(** [groups.flatMap((g) => g.paths.slice(1))]. *)
Definition defaultDeletions (groups : list DupGroup) : list jstr := set_of (mjoin ((fun g => tail (dup_paths g)) <$> groups)).
Definition withoutPaths (groups : list DupGroup) (deleted : list jstr) : list DupGroup :=
  List.filter (fun g => (1 <? length (dup_paths g))%nat)
    ((fun g => {| dup_hash := dup_hash g; dup_paths := List.filter (fun p => negb (set_has p deleted)) (dup_paths g) |}) <$> groups).

(** ** The scan *)

Section Scan.
Context {S Er : Type}.
(** [client.list] and [client.batchChecksums], against a host whose state may change. *)
Variable list_ : jstr -> option jstr -> M S Er Listing.
Variable batchChecksums : list jstr -> M S Er Hashes.

Record Walked := { w_paths : list jstr; w_sizes : Sizes }.
Definition add_file (w : Walked) (e : Entry) : Walked :=
  {| w_paths := w_paths w ++ [entry_path e];
     w_sizes := match entry_size e with Some n => map_set (entry_path e) n (w_sizes w) | None => w_sizes w end |}.
(** [walk]: one unit of fuel per page and per folder; [None] when it runs out. *)
Fixpoint walk_from (fuel : nat) (dir : jstr) (cursor : option jstr) (w : Walked) : M S (option Er) Walked := fun s =>
  match fuel with
  | O => (s, Err None)
  | Datatypes.S f =>
      match list_ dir cursor s with
      | (s1, Err e) => (s1, Err (Some e))
      | (s1, Ok listing) =>
          (fix page (entries : list Entry) (w : Walked) (s : S) : S * result (option Er) Walked :=
             match entries with
             | [] => match listing_nextCursor listing with
                     | Some (c :: cs) => walk_from f dir (Some (c :: cs)) w s
                     | _ => (s, Ok w)
                     end
             | e :: rest =>
                 if entry_isDir e
                 then match walk_from f (entry_path e) None w s with
                      | (s2, Ok w2) => page rest w2 s2
                      | r => r
                      end
                 else page rest (add_file w e) s
             end) (listing_entries listing) w s1
      end
  end.

(** The slices [paths.slice(i, i + 500)] of the [for] loop. *)
Fixpoint slices (fuel : nat) (paths : list jstr) : list (list jstr) :=
  match fuel, paths with
  | Datatypes.S f, _ :: _ => take CHECKSUM_CHUNK paths :: slices f (drop CHECKSUM_CHUNK paths)
  | _, _ => []
  end.
(** [Object.assign(hashes, more)]. *)
Definition assign (hashes more : Hashes) : Hashes := fold_left (fun m kv => map_set kv.1 kv.2 m) more hashes.
Fixpoint hash_all (chunks : list (list jstr)) (hashes : Hashes) : M S Er Hashes :=
  match chunks with
  | [] => ret hashes
  | c :: rest => more <- batchChecksums c;; hash_all rest (assign hashes more)
  end.
Record Scanned := { sc_groups : list DupGroup; sc_sizes : Sizes; sc_walked : list jstr; sc_hashes : Hashes }.
Definition scanForDuplicates (fuel : nat) (root : jstr) : M S (option Er) Scanned := fun s =>
  match walk_from fuel root None {| w_paths := []; w_sizes := [] |} s with
  | (s1, Err e) => (s1, Err e)
  | (s1, Ok w) =>
      match hash_all (slices (length (w_paths w)) (w_paths w)) [] s1 with
      | (s2, Err e) => (s2, Err (Some e))
      | (s2, Ok hashes) => (s2, Ok {| sc_groups := groupDuplicates hashes (w_sizes w) (w_paths w); sc_sizes := w_sizes w;
                                      sc_walked := w_paths w; sc_hashes := hashes |})
      end
  end.

Lemma slices_all fuel paths : (length paths <= fuel)%nat -> mjoin (slices fuel paths) = paths.
Proof.
  revert paths. induction fuel as [|f IH]; intros [|p paths] Hl; try done; [simpl in Hl; lia|]. cbn [slices].
  change (take CHECKSUM_CHUNK (p :: paths) ++ mjoin (slices f (drop CHECKSUM_CHUNK (p :: paths))) = p :: paths).
  rewrite IH; [apply take_drop|]. rewrite length_drop. unfold CHECKSUM_CHUNK. simpl in *. lia.
Qed.
End Scan.

(** ** Grouping *)

Definition hashed (hashes : Hashes) (h p : jstr) : bool := bool_decide (map_get p hashes = Some h).

Lemma by_hash_spec hashes order :
  NoDup (keys (by_hash hashes order)) /\
  (forall h, map_get h (by_hash hashes order) = match List.filter (hashed hashes h) order with [] => None | l => Some l end).
Proof.
  unfold by_hash. induction order as [|p order [IH1 IH2]] using rev_ind; [by split; [constructor|]|].
  rewrite fold_left_app. simpl. set (m := fold_left (by_hash_step hashes) order []) in *. unfold by_hash_step.
  destruct (map_get p hashes) as [h0|] eqn:E.
  - split; [by apply NoDup_keys_set|]. intros h. rewrite map_get_set, List.filter_app. simpl. unfold hashed at 2. case_decide as Eh.
    + subst h0. rewrite bool_decide_true by done. rewrite IH2. by destruct (List.filter _ order).
    + rewrite bool_decide_false by congruence. by rewrite app_nil_r, IH2.
  - split; [done|]. intros h. rewrite List.filter_app. simpl. unfold hashed at 2. rewrite bool_decide_false by congruence.
    by rewrite app_nil_r, IH2.
Qed.
Lemma elem_groups hashes sizes order g : g ∈ groupDuplicates hashes sizes order <->
  dup_paths g = List.filter (hashed hashes (dup_hash g)) order /\ (1 < length (dup_paths g))%nat.
Proof.
  unfold groupDuplicates. rewrite elem_sort_by, list_elem_of_fmap. destruct (by_hash_spec hashes order) as [Hnd Hget]. split.
  - intros ([h l] & -> & [Hin Hl]%elem_filter_bool). simpl in *. breflect. apply (elem_map_get _ _ _ Hnd) in Hin.
    rewrite Hget in Hin. destruct (List.filter _ order); [done|]. by injection Hin as <-.
  - intros [Ep Hl]. exists (dup_hash g, dup_paths g). split; [by destruct g|]. apply elem_filter_bool. split; [|by apply Nat.ltb_lt].
    apply map_get_Some_elem. rewrite Hget, Ep. destruct (List.filter _ order) eqn:E; [|done]. rewrite Ep in Hl. simpl in Hl. lia.
Qed.
Lemma elem_deletions groups p : p ∈ defaultDeletions groups <-> exists g, g ∈ groups /\ p ∈ tail (dup_paths g).
Proof.
  unfold defaultDeletions. rewrite elem_set_of, list_elem_of_join. split.
  - intros (l & Hp & (g & -> & Hg)%list_elem_of_fmap). eauto.
  - intros (g & Hg & Hp). exists (tail (dup_paths g)). split; [done|]. apply list_elem_of_fmap. eauto.
Qed.
#[export] Instance Comparator_first_size sizes : Comparator (fun a b => first_size sizes b - first_size sizes a).
Proof. split; intros; lia. Qed.

(** Deleting what is marked by default loses no content: when no path was walked twice, every group
    holds all the walked paths of one hash, at least two of them, the groups come largest file first,
    every marked path has another walked path with the same hash that is not marked, and every hash
    found keeps exactly one unmarked path.  Dropping paths from the groups leaves only groups that still
    hold two copies, none of them dropped. *)
Theorem duplicates_keep_one hashes sizes order : NoDup order ->
  let groups := groupDuplicates hashes sizes order in
  let marked := defaultDeletions groups in
  (forall g, g ∈ groups <-> dup_paths g = List.filter (hashed hashes (dup_hash g)) order /\ (1 < length (dup_paths g))%nat) /\
  StronglySorted (fun a b => first_size sizes b <= first_size sizes a) groups /\
  (forall p, p ∈ marked -> exists q h, q ∈ order /\ q ∉ marked /\ q <> p /\ map_get p hashes = Some h /\ map_get q hashes = Some h) /\
  (forall p h, p ∈ order -> map_get p hashes = Some h ->
     exists q, q ∈ order /\ map_get q hashes = Some h /\ q ∉ marked /\ (forall q', q' ∈ order -> map_get q' hashes = Some h -> q' ∉ marked -> q' = q)) /\
  (forall deleted g, g ∈ withoutPaths groups deleted -> (1 < length (dup_paths g))%nat /\ Forall (fun p => p ∉ deleted) (dup_paths g)).
Proof.
  intros Hnd groups marked.
  assert (forall g, g ∈ groups <-> _) as Hg by (intros g; apply elem_groups).
  assert (forall h p rest, List.filter (hashed hashes h) order = p :: rest -> p ∈ order /\ map_get p hashes = Some h /\ p ∉ marked /\ NoDup (p :: rest)) as Hfirst.
  { intros h p rest E. assert (p ∈ List.filter (hashed hashes h) order) as Hp by (rewrite E; left).
    apply elem_filter_bool in Hp as [Hp Hh]. unfold hashed in Hh. breflect.
    assert (NoDup (p :: rest)) as Hnd' by (rewrite <- E; by apply NoDup_filter_bool).
    split; [done|]. split; [done|]. split; [|done]. intros (g & [Eg Hl]%Hg & Hin)%elem_deletions. rewrite Eg in Hin.
    assert (p ∈ List.filter (hashed hashes (dup_hash g)) order) as Hpg by (revert Hin; destruct (List.filter (hashed hashes (dup_hash g)) order); [by intros ?%elem_of_nil | by intros ?; right]).
    apply elem_filter_bool in Hpg as [_ Hpg]. unfold hashed in Hpg. breflect. rewrite Hh in Hpg. injection Hpg as Eh. rewrite <- Eh, E in Hin.
    simpl in Hin. by apply NoDup_cons in Hnd' as [? _]. }
  split; [done|]. split.
  { pose proof (sort_by_sorted (fun a b => first_size sizes b - first_size sizes a) (A := DupGroup)) as Hs. unfold groups, groupDuplicates.
    match goal with |- StronglySorted _ (sort_by _ ?l) => specialize (Hs l) end.
    induction Hs as [|a l _ IH Hall]; constructor; [done|]. eapply Forall_impl; [exact Hall|]. simpl. intros; lia. }
  split; [|split].
  - intros p (g & [Eg Hl]%Hg & Hin)%elem_deletions. rewrite Eg in Hin. destruct (List.filter (hashed hashes (dup_hash g)) order) as [|q rest] eqn:E; [by apply elem_of_nil in Hin|].
    simpl in Hin. destruct (Hfirst _ _ _ E) as (Hq & Hqh & Hqm & Hnd'). exists q, (dup_hash g). split; [done|]. split; [done|].
    split; [intros ->; by apply NoDup_cons in Hnd' as [? _]|]. split; [|done].
    assert (p ∈ List.filter (hashed hashes (dup_hash g)) order) as Hp by (rewrite E; by right). apply elem_filter_bool in Hp as [_ Hp]. unfold hashed in Hp. by breflect.
  - intros p h Hp Hh. assert (p ∈ List.filter (hashed hashes h) order) as Hpf by (apply elem_filter_bool; split; [done | unfold hashed; by apply bool_decide_eq_true]).
    destruct (List.filter (hashed hashes h) order) as [|q rest] eqn:E; [by apply elem_of_nil in Hpf|].
    destruct (Hfirst _ _ _ E) as (Hq & Hqh & Hqm & Hnd'). exists q. repeat (split; [done|]). intros q' Hq' Hh' Hm.
    assert (q' ∈ q :: rest) as Hin by (rewrite <- E; apply elem_filter_bool; split; [done | unfold hashed; by apply bool_decide_eq_true]).
    apply elem_of_cons in Hin as [?|Hin]; [done|]. destruct Hm. apply elem_deletions. exists {| dup_hash := h; dup_paths := q :: rest |}.
    split; [|done]. apply Hg. simpl. rewrite E. split; [done|]. destruct rest; [by apply elem_of_nil in Hin | simpl; lia].
  - intros deleted g. unfold withoutPaths. intros [Hin Hl]%elem_filter_bool. breflect. split; [done|].
    apply list_elem_of_fmap in Hin as (g' & -> & _). simpl. apply Forall_forall. intros p [_ Hp]%elem_filter_bool. breflect. by apply set_has_false.
Qed.

(** The hypothesis is needed and the walk does not ensure it: a path listed twice, as when an entry
    moves to the next page between two page requests, is grouped with itself and its only copy is
    marked for deletion. *)
Theorem listed_twice_marks_only_copy p h sizes :
  defaultDeletions (groupDuplicates [(p, h)] sizes [p; p]) = [p].
Proof.
  assert (by_hash [(p, h)] [p; p] = [(h, [p; p])]) as E.
  { unfold by_hash. cbn [fold_left]. unfold by_hash_step. cbn [map_get]. rewrite !(decide_True (P := p = p)) by done. cbn [map_get map_set].
    rewrite !(decide_True (P := h = h)) by done. done. }
  unfold groupDuplicates. rewrite E. unfold defaultDeletions, set_of. cbn. unfold set_add.
  rewrite decide_False by apply not_elem_of_nil. done.
Qed.

Lemma duplicates_keep_one_witness :
  let hashes := [(js "/a", js "1"); (js "/b", js "2"); (js "/c", js "1")] in
  let order := [js "/a"; js "/b"; js "/c"] in
  NoDup order /\ defaultDeletions (groupDuplicates hashes [] order) = [js "/c"] /\
  (forall p, p ∈ defaultDeletions (groupDuplicates hashes [] order) -> exists q, q ∈ order /\ q <> p).
Proof.
  intros hashes order. assert (NoDup order) as H by (apply (bool_decide_unpack _); vm_compute; exact I).
  split; [exact H|]. split; [vm_compute; reflexivity|]. intros p Hp.
  destruct (duplicates_keep_one hashes [] order H) as (_ & _ & H3 & _). destruct (H3 p Hp) as (q & h & Hq & _ & Hne & _). exists q. split; [exact Hq | exact Hne].
Defined.
