(* ===== verification/Transfers.v ===== *)
(** * The transfers list

    [features/transfers/transferLogic.ts]: names, states, errors and order of the transfer
    rows.  The progress fraction and the percentage label are floating-point
    arithmetic and are left out. *)

From Stdlib Require Import ZArith Lia Bool Permutation Sorted.
From Stdlib Require List.
From S2P Require Import Prelude JsCollections JsString Json Errors Models Entries Paths Host.

Inductive TransferState := QUEUED | RUNNING | PAUSED | DONE | FAILED | CANCELLED.
Inductive Direction := DOWNLOAD | UPLOAD.
Record TransferRecord := {
  tr_id : jstr; tr_hostId : jstr; tr_address : jstr; tr_remotePath : jstr; tr_destPath : jstr;
  tr_state : TransferState; tr_received : Z; tr_total : Z; tr_error : option jstr;
  tr_direction : option Direction; tr_sessionId : option jstr; tr_sha256 : option jstr;
  tr_overwrite : option bool; tr_publicUri : option jstr; tr_updatedAt : option Z
}.
#[export] Instance TransferState_eq_dec : EqDecision TransferState.
Proof. solve_decision. Defined.

Definition isUpload (r : TransferRecord) : bool := match tr_direction r with Some UPLOAD => true | _ => false end.
Definition transferName (r : TransferRecord) : jstr :=
  let n := basenameOf (tr_remotePath r) in if nonempty n then n else tr_remotePath r.
Definition savedWhere (r : TransferRecord) : jstr :=
  if isUpload r then js "Uploaded"
  else match truthy (tr_publicUri r) with Some _ => js "Saved to Downloads" | None => js "Saved in app storage" end.
Definition isActive (r : TransferRecord) : bool := match tr_state r with RUNNING | QUEUED => true | _ => false end.
Definition isFinished (r : TransferRecord) : bool := match tr_state r with DONE | CANCELLED => true | _ => false end.

(** [error.split(':')[0].trim()]. *)
Definition error_code (error : jstr) : jstr := trim (default [] (head (split_on (Z.eqb colon) error))).
Definition apostrophe : jstr := [8217].
Definition transferErrorMessage (error : option jstr) : jstr :=
  match truthy error with
  | None => []
  | Some error =>
      let code := error_code error in
      let code_is c := bool_decide (code = c) in
      if code_is (js "CONFLICT") then js "A file with this name already exists on the computer."
      else if code_is (js "FORBIDDEN") || code_is (js "READ_ONLY") then js "This device is not allowed to upload here."
      else if code_is (js "CAPABILITY_DENIED")
      then js "This device has not been given permission for this. Allow it on the computer, in the device" ++ apostrophe ++ js "s access settings."
      else if code_is (js "HASH_MISMATCH") || code_is (js "CHUNK_HASH_MISMATCH") then js "The file changed or was damaged in transit. Try again."
      else if code_is (js "PAYLOAD_TOO_LARGE") then js "The file is too large for this computer to accept."
      else if code_is (js "RESOURCE_LIMIT") then js "The computer has too many uploads open. Wait for one to finish."
      else if code_is (js "TRANSFER_ACTIVE") then js "The computer is still finishing the previous attempt. Try again in a moment."
      else if code_is (js "NOT_FOUND") then js "The computer no longer has this file or upload. Try again."
      else if code_is (js "ERR_STORAGE_FULL") then js "This phone is out of storage. Free some space, then tap Retry."
      else if code_is (js "ERR_CERT_PIN_MISMATCH") then js "The computer" ++ apostrophe ++ js "s identity changed. Check it in Devices."
      else if code_is (js "ERR_CONNECTION") then js "Could not reach the computer."
      else if starts_with (js "source file is missing") error then js "The file to upload is no longer on this phone." else error
  end.

Definition RETRYABLE : list jstr :=
  [js "ERR_CONNECTION"; js "TRANSFER_ACTIVE"; js "HASH_MISMATCH"; js "CHUNK_HASH_MISMATCH"; js "NOT_FOUND"; js "RESOURCE_LIMIT"].
Definition retryable (r : TransferRecord) : bool :=
  match tr_state r, tr_error r with FAILED, Some e => set_has (error_code e) RETRYABLE | _, _ => false end.
Definition retryableFailures (all : list TransferRecord) : list TransferRecord := List.filter retryable all.

Inductive VerifyOutcome := verified | mismatch | unavailable.
Definition verifyOutcome `{Unicode} (localHash hostHash : option jstr) : VerifyOutcome :=
  match truthy localHash, truthy hostHash with
  | Some l, Some h => if bool_decide (toLowerCase l = toLowerCase h) then verified else mismatch
  | _, _ => unavailable
  end.

(** ** Newest first *)

(** A digit of base 36, in either case. *)
Definition digit36 (c : jchar) : option Z :=
  if is_digit c then Some (c - 48) else if is_lower c then Some (c - 87) else if is_upper c then Some (c - 55) else None.
Definition is_digit36 (c : jchar) : bool := match digit36 c with Some _ => true | None => false end.
(** [parseInt(s, 36)]: leading space, a sign, then the longest run of digits; [None] for [NaN]. *)
Definition parseInt36 (s : jstr) : option Z :=
  let t := drop_while is_space s in
  let '(sign, u) := match t with 43 :: r => (1, r) | 45 :: r => (-1, r) | _ => (1, t) end in
  match take_while is_digit36 u with
  | [] => None
  | ds => Some (sign * fold_left (fun n c => 36 * n + default 0 (digit36 c)) ds 0)
  end.
(** [String.prototype.localeCompare]: the engine's collation, an order on strings. *)
Class Collation := {
  localeCompare : jstr -> jstr -> Z;
  collation_order :: Comparator localeCompare
}.
Definition id_time (r : TransferRecord) : option Z := parseInt36 (take 8 (drop 1 (tr_id r))).
Definition newestFirst `{Collation} (a b : TransferRecord) : Z :=
  match id_time a, id_time b with
  | Some at_, Some bt => if bt - at_ =? 0 then localeCompare (tr_id b) (tr_id a) else bt - at_
  | _, _ => localeCompare (tr_id b) (tr_id a)
  end.

Record TransferGroups := { g_active : list TransferRecord; g_failed : list TransferRecord; g_finished : list TransferRecord }.
Definition is_state (s : TransferState) (r : TransferRecord) : bool := bool_decide (tr_state r = s).
Definition groupTransfers `{Collation} (all : list TransferRecord) : TransferGroups :=
  let sorted := sort_by newestFirst all in {|
  g_active := List.filter (fun r => isActive r || is_state PAUSED r) sorted;
  g_failed := List.filter (is_state FAILED) sorted;
  g_finished := List.filter isFinished sorted |}.

Inductive TransferTone := tone_transfer | tone_safe | tone_warn | tone_error | tone_muted.
Definition transferTone (s : TransferState) : TransferTone :=
  match s with RUNNING | QUEUED => tone_transfer | DONE => tone_safe | PAUSED => tone_warn | FAILED => tone_error | CANCELLED => tone_muted end.

Inductive Glyph := glyph_image | glyph_video | glyph_audio | glyph_archive | glyph_doc | glyph_file.
Record TransferKind := { glyph : Glyph; kind_role : option EntryRole }.
Definition transferKind `{Unicode} (name : jstr) : TransferKind :=
  let ext := match last_index_of dot name with Some (S d) => toLowerCase (drop (S (S d)) name) | _ => [] end in
  let k g r := {| glyph := g; kind_role := r |} in
  if set_has ext imageExtensions then k glyph_image (Some role_photo)
  else if set_has ext videoExtensions then k glyph_video (Some role_photo)
  else if set_has ext audioExtensions then k glyph_audio (Some role_route)
  else if set_has ext archiveExtensions then k glyph_archive (Some role_warn)
  else if set_has ext docExtensions then k glyph_doc (Some role_doc)
  else k glyph_file None.

(** A middle dot between spaces. *)
Definition dot_sep : jstr := [space; 183; space].
Definition count_part (l : list TransferRecord) (label : jstr) : list jstr :=
  match l with [] => [] | _ => [string_of_Z (Z.of_nat (length l)) ++ label] end.
Definition transferSummary (g : TransferGroups) : jstr :=
  match count_part (g_active g) (js " in progress") ++ count_part (g_finished g) (js " complete") ++ count_part (g_failed g) (js " failed") with
  | [] => js "Nothing transferring"
  | parts => join dot_sep parts
  end.

(** ** Every transfer has one row *)

Lemma filter3_perm {A} (f g h : A -> bool) (l : list A) :
  (forall x, (f x = true /\ g x = false /\ h x = false) \/ (f x = false /\ g x = true /\ h x = false) \/ (f x = false /\ g x = false /\ h x = true)) ->
  Permutation (List.filter f l ++ List.filter g l ++ List.filter h l) l.
Proof.
  intros H. induction l as [|x l IH]; [done|]. simpl. destruct (H x) as [(-> & -> & ->)|[(-> & -> & ->)|(-> & -> & ->)]]; simpl.
  - by rewrite IH.
  - rewrite <- Permutation_middle. by rewrite IH.
  - rewrite app_assoc, <- Permutation_middle, <- app_assoc. by rewrite IH.
Qed.
(** The three groups together are the transfers, each once; a retry is offered only for a failed one. *)
Lemma groupTransfers_partition `{Collation} all :
  let g := groupTransfers all in
  Permutation (g_active g ++ g_failed g ++ g_finished g) all /\
  (forall r, r ∈ retryableFailures all -> r ∈ g_failed g).
Proof.
  simpl. split.
  - rewrite filter3_perm, sort_by_perm; [done|]. intros r. unfold isActive, is_state, isFinished. destruct (tr_state r); auto.
  - intros r [Hr Hs]%elem_filter_bool. apply elem_filter_bool. rewrite elem_sort_by. split; [done|].
    unfold retryable, is_state in *. by destruct (tr_state r).
Qed.
