(* ===== verification/Services.v ===== *)
(** * The services behind the screens

    [services.ts]: the stores of the device and the network as one state, and
    [clientForHost], which builds the client of a paired computer from nothing but
    its secure-store pin and token. *)

From Stdlib Require Import ZArith Lia Bool.
From Stdlib Require List.
From S2P Require Import Prelude JsCollections JsString Json Errors Models Host Utf8 AgentClient Storage HostStore.
Local Open Scope js_scope.

Record Services := { sv_disk : Disk; sv_net : World }.
Notation Svc := (M Services jserror).
Definition on_sdisk {A} (m : IO A) : Svc A := fun s =>
  let (d, r) := m (sv_disk s) in ({| sv_disk := d; sv_net := sv_net s |}, r).
Definition on_snet {A} (m : M World jserror A) : Svc A := fun s =>
  let (w, r) := m (sv_net s) in ({| sv_disk := sv_disk s; sv_net := w |}, r).

Section Services.
Context `{U : Unicode} `{J : JsonCodec}.

(** [Promise.all([getPin, getToken])]: both reads are issued; the first rejection wins. *)
Definition read_login (id : jstr) : IO (option jstr * option jstr) := fun d =>
  let (d1, pin) := getPin id d in
  let (d2, token) := getToken id d1 in
  (d2, match pin, token with Ok p, Ok t => Ok (p, t) | Err e, _ => Err e | _, Err e => Err e end).
Definition login_opts (pin token : option jstr) (probeLanFirst : bool) (timeoutMs : option Z) : AgentClientOptions := {|
  opt_deviceToken := token; opt_pinnedFingerprint := pin; opt_clientVersion := None;
  opt_probeLanFirst := probeLanFirst; opt_timeoutMs := timeoutMs |}.
Definition clientForHost (host : Host) (probeLanFirst : bool) (timeoutMs : option Z) : Svc Client :=
  pt <- on_sdisk (read_login (host_id host));;
  fun s => match newAgentClient host (login_opts pt.1 pt.2 probeLanFirst timeoutMs) (lastGoodRoute (sv_net s)) with
           | Err e => (s, Err e)
           | Ok (c, idx) =>
               ({| sv_disk := sv_disk s;
                   sv_net := {| addrIndex := idx; lastGoodRoute := lastGoodRoute (sv_net s); sent := sent (sv_net s) |} |}, Ok c)
           end.

(** The record of a computer, by id. *)
Definition host_of (id : jstr) (hosts : list Host) : option Host := List.find (fun h => bool_decide (host_id h = id)) hosts.

(** A client is built on the pin stored for the computer, holds its token only beside a pin,
    and building it sends nothing and stores nothing. *)
Lemma clientForHost_spec host probe timeout s :
  let (s', r) := clientForHost host probe timeout s in
  same_data (sv_disk s') (sv_disk s) /\ sent (sv_net s') = sent (sv_net s) /\
  (forall c, r = Ok c -> cl_host c = host /\
     cl_pin c = normalizeFingerprint (map_get (SecureKeys.fingerprint (host_id host)) (secure (sv_disk s))) /\
     opt_deviceToken (cl_opts c) = map_get (SecureKeys.token (host_id host)) (secure (sv_disk s)) /\
     (cl_pin c = None -> is_truthy (opt_deviceToken (cl_opts c)) = false)).
Proof.
  unfold clientForHost, on_sdisk, read_login, getPin, getToken, SecureStore.read, bind, ret.
  io_step; [io_step; done|]. cbn beta iota. io_step; [done|]. cbn [sv_net sv_disk fst snd secure with_faults].
  unfold newAgentClient. cbn [opt_pinnedFingerprint opt_deviceToken opt_probeLanFirst login_opts].
  set (pin := normalizeFingerprint (map_get _ (secure (sv_disk s)))).
  assert (normalizeFingerprint pin = pin) as Hp.
  { unfold pin. destruct (normalizeFingerprint (map_get _ _)) as [p|] eqn:Ep; [|done]. eapply normalizeFingerprint_id, normalizeFingerprint_pin, Ep. }
  rewrite Hp. destruct (is_some pin && negb (is_some pin)) eqn:E1; [done|].
  destruct (is_truthy _ && negb (is_some pin)) eqn:E2; [done|]. split; [done|]. split; [done|].
  intros c [= <-]. cbn [cl_host cl_pin cl_opts login_opts opt_deviceToken]. split; [done|]. split; [done|]. split; [done|].
  intros Hn. rewrite Hn in E2. by rewrite andb_true_r in E2.
Qed.
End Services.
