(* ===== verification/Sync.v ===== *)
(** * Folder sync

    [features/sync]: which files a pass downloads ([syncLogic.ts]), the pass itself
    over an interface of folder and network operations ([syncRunner.ts]), and its
    implementation over the agent client, the native downloader, the file system and
    the rule store ([syncService.ts]).  The file system, the downloader and the clock
    are parameters. *)

From Stdlib Require Import ZArith Lia Bool.
From Stdlib Require List.
From S2P Require Import Prelude JsCollections JsString Json Errors Models Host Utf8 AgentClient Storage HostStore SyncRules Services.
Local Open Scope js_scope.

Notation Body := (list Z) (only parsing).

(** ** Decisions *)

Record LocalInfo := { info_size : Z; info_modified : option Z }.

Section Logic.
Context `{D : DateParse}.
Definition needsSync (remote : Entry) (local : option LocalInfo) : bool :=
  match local with
  | None => true
  | Some l =>
      if negb (info_size l =? default 0 (entry_size remote)) then true
      else match truthy (entry_modified remote) ≫= date_parse, info_modified l with
           | Some remoteMs, Some ms => ms <? remoteMs
           | _, _ => false
           end
  end.
End Logic.

Definition isSafeName (name : jstr) : bool :=
  nonempty name && negb (bool_decide (name = js ".")) && negb (bool_decide (name = js "..")) &&
  negb (List.existsb (fun c => (c =? backslash) || (c =? slash) || (c =? 0)) name).

Definition file_scheme : jstr := js "file://".
Fixpoint encode_segments (segs : list jstr) : option (list jstr) :=
  match segs with
  | [] => Some []
  | s :: r => e ← encodeURIComponent s; es ← encode_segments r; Some (e :: es)
  end.
(** [None]: [encodeURIComponent] throws on a lone surrogate. *)
Definition fileUriFromPath (path : jstr) : option jstr :=
  es ← encode_segments (split_on (Z.eqb slash) path); Some (file_scheme ++ join [slash] es).
Definition strip_scheme (uri : jstr) : jstr := if starts_with file_scheme uri then drop 7 uri else uri.
Definition pathFromFileUri (uri : jstr) : jstr := default (strip_scheme uri) (decodeURIComponent (strip_scheme uri)).

(** A readable name for a rule's folder: the decoded part of the tree id after its volume.
    [None]: [decodeURIComponent] throws. *)
Fixpoint tree_segment (s : jstr) : option jstr :=
  match s with
  | [] => None
  | _ :: r =>
      let seg := take_while (fun c => negb ((c =? slash) || (c =? 63) || (c =? 35))) (drop 6 s) in
      if starts_with (js "/tree/") s && nonempty seg then Some seg else tree_segment r
  end.
Definition folderLabel (localPath : jstr) : option jstr :=
  if negb (starts_with (js "content://") localPath) then Some localPath
  else match tree_segment localPath with
       | None => Some localPath
       | Some tree =>
           id ← decodeURIComponent tree;
           Some (match index_of colon id with
                 | Some i => if nonempty (drop (S i) id) then drop (S i) id else id
                 | None => id
                 end)
       end.

(** ** The pass *)

Record SyncProgress := { progress_current : nat; progress_total : nat; progress_name : jstr }.
Record SyncResult := { downloaded : nat; failed : list jstr; skipped : nat; firstError : option jstr }.
Definition no_result : SyncResult := {| downloaded := 0; failed := []; skipped := 0; firstError := None |}.
Definition count_skipped (r : SyncResult) : SyncResult :=
  {| downloaded := downloaded r; failed := failed r; skipped := S (skipped r); firstError := firstError r |}.
Definition count_downloaded (r : SyncResult) : SyncResult :=
  {| downloaded := S (downloaded r); failed := failed r; skipped := skipped r; firstError := firstError r |}.
Definition count_failed (name : jstr) (e : jserror) (r : SyncResult) : SyncResult :=
  {| downloaded := downloaded r; failed := failed r ++ [name]; skipped := skipped r;
     firstError := match firstError r with Some m => Some m | None => Some (errMessage e) end |}.

(** [SyncDeps] with its [LocalFolder]: operations on a world [W]. *)
Record SyncDeps (W : Type) := {
  dep_listRemote : jstr -> M W jserror (list Entry);
  dep_fetch : Entry -> jstr -> M W jserror unit;
  dep_staging : jstr -> jstr;
  dep_discard : jstr -> W -> W;
  dep_list : M W jserror (list (jstr * LocalInfo));
  dep_put : jstr -> jstr -> M W jserror unit
}.
Arguments dep_listRemote {W}. Arguments dep_fetch {W}. Arguments dep_staging {W}.
Arguments dep_discard {W}. Arguments dep_list {W}. Arguments dep_put {W}.

Section Runner.
Context `{D : DateParse} {W : Type} (deps : SyncDeps W) (onProgress : SyncProgress -> W -> W) (cancelled : W -> W * bool).

(** One file: skipped, current, or downloaded to staging, moved in, and the staging file discarded. *)
Definition sync_file (entry : Entry) (known : option LocalInfo) (result : SyncResult) (w : W) : W * SyncResult :=
  if negb (isSafeName (entry_name entry)) then (w, count_skipped result)
  else if negb (needsSync entry known) then (w, result)
  else
    let staged := dep_staging deps (entry_name entry) in
    let (w1, r) := (dep_fetch deps entry staged;; dep_put deps (entry_name entry) staged) w in
    (dep_discard deps staged w1,
     match r with Ok _ => count_downloaded result | Err e => count_failed (entry_name entry) e result end).
Fixpoint sync_loop (local : list (jstr * LocalInfo)) (total i : nat) (files : list Entry) (result : SyncResult) (w : W) : W * SyncResult :=
  match files with
  | [] => (w, result)
  | entry :: rest =>
      let (w1, stop) := cancelled w in
      if stop then (w1, result)
      else
        let w2 := onProgress {| progress_current := S i; progress_total := total; progress_name := entry_name entry |} w1 in
        let (w3, result') := sync_file entry (map_get (entry_name entry) local) result w2 in
        sync_loop local total (S i) rest result' w3
  end.
Definition runSync (remotePath : jstr) : M W jserror SyncResult :=
  entries <- dep_listRemote deps remotePath;;
  local <- dep_list deps;;
  let files := List.filter (fun e => negb (entry_isDir e)) entries in
  fun w => let (w', r) := sync_loop local (length files) 0 files no_result w in (w', Ok r).
End Runner.

(** ** File URIs *)

Definition utf16_text (s : jstr) : Prop := Forall (fun c => 0 <= c < 65536) s.
Definition utf16_textb (s : jstr) : bool := List.forallb (fun c => (0 <=? c) && (c <? 65536)) s.
Lemma utf16_textb_true s : utf16_textb s = true -> utf16_text s.
Proof.
  unfold utf16_textb, utf16_text. rewrite forallb_forall_true. intros H. eapply Forall_impl; [exact H|].
  intros c Hc. cbn beta in Hc. breflect. lia.
Qed.

Lemma decode_slash rest t : decodeURIComponent rest = Some t -> decodeURIComponent (slash :: rest) = Some (slash :: t).
Proof. unfold decodeURIComponent. cbn [length uri_decode]. by intros ->. Qed.
Lemma decode_segments segs es : Forall utf16_text segs -> encode_segments segs = Some es ->
  decodeURIComponent (join [slash] es) = Some (join [slash] segs).
Proof.
  intros H. revert es. induction H as [|s segs Hs Hr IH]; intros es E; [by injection E as <-|]. cbn [encode_segments] in E.
  destruct (encodeURIComponent s) as [e|] eqn:Ee; [|done]. cbn in E.
  destruct (encode_segments segs) as [es'|] eqn:Ees; [|done]. cbn in E. injection E as <-. specialize (IH es' eq_refl).
  destruct segs as [|s2 segs].
  - injection Ees as <-. cbn [join]. rewrite <- (app_nil_r e), <- (app_nil_r s). by apply decode_encode_app.
  - cbn [encode_segments] in Ees. destruct (encodeURIComponent s2) as [e2|]; [|done]. cbn in Ees.
    destruct (encode_segments segs) as [es2|]; [|done]. injection Ees as <-.
    change (join [slash] (e :: e2 :: es2)) with (e ++ slash :: join [slash] (e2 :: es2)).
    change (join [slash] (s :: s2 :: segs)) with (s ++ slash :: join [slash] (s2 :: segs)).
    apply decode_encode_app; [done..|]. by apply decode_slash.
Qed.
Lemma utf16_segments P s : utf16_text s -> Forall utf16_text (split_on P s).
Proof.
  intros H. apply Forall_forall. intros w Hw. apply Forall_forall. intros c Hc.
  unfold utf16_text in H. rewrite Forall_forall in H. by eapply H, split_on_elem.
Qed.
Lemma strip_scheme_app s : strip_scheme (file_scheme ++ s) = s.
Proof. done. Qed.
Lemma file_uri_roundtrip path uri : utf16_text path -> fileUriFromPath path = Some uri -> pathFromFileUri uri = path.
Proof.
  unfold fileUriFromPath. intros Hp E. destruct (encode_segments _) as [es|] eqn:Ees; [|done]. cbn [mbind option_bind] in E. assert (uri = file_scheme ++ join [slash] es) as -> by congruence.
  unfold pathFromFileUri. rewrite strip_scheme_app.
  rewrite (decode_segments _ _ (utf16_segments _ _ Hp) Ees). cbn [default]. apply join_split_on.
Qed.
Lemma encoded_inert segs es : Forall utf16_text segs -> encode_segments segs = Some es ->
  Forall (fun e => 35 ∉ e /\ 63 ∉ e) es.
Proof.
  intros H. revert es. induction H as [|s segs Hs _ IH]; intros es E; [by injection E as <-|]. cbn [encode_segments] in E.
  destruct (encodeURIComponent s) as [e|] eqn:Ee; [|done]. cbn in E.
  destruct (encode_segments segs) as [es'|]; [|done]. injection E as <-. constructor; [|by apply IH].
  destruct (encodeURIComponent_inert s e Hs Ee) as (_ & _ & He). rewrite Forall_forall in He.
  split; intros Hin; specialize (He _ Hin); lia.
Qed.
Lemma elem_join (c : Z) sep ws : c ∈ join sep ws -> c ∈ sep \/ exists w, w ∈ ws /\ c ∈ w.
Proof.
  induction ws as [|w ws IH]; [by intros ?%elem_of_nil|]. destruct ws as [|w2 ws].
  - cbn [join]. intros H. right. exists w. split; [left | done].
  - change (join sep (w :: w2 :: ws)) with (w ++ sep ++ join sep (w2 :: ws)). rewrite !elem_of_app. intros [H|[H|H]]; [|by left|].
    + right. exists w. split; [left | done].
    + destruct (IH H) as [?|(v & Hv & Hc)]; [by left|]. right. exists v. split; [by right | done].
Qed.

(** A native path survives the trip through a [file://] URI and back whatever characters its
    names hold, so a copy or delete never targets another file; the URI holds no [#] or [?] that
    would cut a name short, and building it fails only on a path with a lone surrogate. *)
Theorem fileUri_roundtrip (path : jstr) : utf16_text path ->
  match fileUriFromPath path with
  | Some uri => pathFromFileUri uri = path /\ 35 ∉ uri /\ 63 ∉ uri
  | None => exists seg, seg ∈ split_on (Z.eqb slash) path /\ code_points seg = None
  end.
Proof.
  intros Hp. destruct (fileUriFromPath path) as [uri|] eqn:E.
  - split; [by apply file_uri_roundtrip|]. unfold fileUriFromPath in E.
    destruct (encode_segments _) as [es|] eqn:Ees; [|done]. cbn [mbind option_bind] in E.
    assert (uri = file_scheme ++ join [slash] es) as -> by congruence.
    pose proof (encoded_inert _ _ (utf16_segments _ _ Hp) Ees) as He. rewrite Forall_forall in He.
    assert (forall c, c = 35 \/ c = 63 -> c ∉ file_scheme ++ join [slash] es) as H; [|split; apply H; auto].
    intros c Hc [Hin|[Hin|(w & Hw & Hin)]%elem_join]%elem_of_app.
    + assert (bool_decide (c ∈ file_scheme) = false) as K by (by destruct Hc as [-> | ->]). by apply bool_decide_eq_false in K.
    + apply list_elem_of_singleton in Hin. unfold slash in Hin. lia.
    + destruct (He w Hw). by destruct Hc as [-> | ->].
  - unfold fileUriFromPath in E. destruct (encode_segments _) eqn:Ees; [done|]. clear E Hp.
    induction (split_on (Z.eqb slash) path) as [|s segs IH]; [done|]. cbn [encode_segments] in Ees.
    unfold encodeURIComponent in Ees at 1. destruct (code_points s) as [cps|] eqn:Ec; [|exists s; split; [left | done]].
    cbn in Ees. destruct (encode_segments segs) eqn:E2; [done|]. destruct (IH eq_refl) as (w & Hw & H). exists w. split; [by right | done].
Qed.
Lemma fileUri_roundtrip_witness :
  let p := js "/cache/sync/r1/report#1 100%?.pdf" in
  fileUriFromPath p = Some (js "file:///cache/sync/r1/report%231%20100%25%3F.pdf") /\
  pathFromFileUri (js "file:///cache/sync/r1/report%231%20100%25%3F.pdf") = p.
Proof.
  intros p. split; [vm_compute; reflexivity|]. assert (utf16_text p) as Hp.
  { apply utf16_textb_true. vm_compute. reflexivity. }
  pose proof (fileUri_roundtrip p Hp) as H.
  replace (fileUriFromPath p) with (Some (js "file:///cache/sync/r1/report%231%20100%25%3F.pdf")) in H by (vm_compute; reflexivity).
  exact (proj1 H).
Defined.

(** ** What a pass does to the folder *)

(** The promises of [SyncDeps] a pass relies on. *)
Class MirrorDeps {W} (deps : SyncDeps W) (onProgress : SyncProgress -> W -> W) (cancelled : W -> W * bool) := {
  folder : W -> jstr -> option (list Z);            (** the local folder: contents by name *)
  staged_at : W -> jstr -> option (list Z);         (** staging files: contents by path *)
  delivered : Entry -> list Z -> Prop;              (** a complete download of the entry *)
  valid_name : jstr -> Prop;
  fetch_ok e p w w' : dep_fetch deps e p w = (w', Ok tt) -> exists b, staged_at w' p = Some b /\ delivered e b;
  fetch_folder e p w : folder (dep_fetch deps e p w).1 = folder w;
  put_ok n w w' b : valid_name n -> isSafeName n = true -> staged_at w (dep_staging deps n) = Some b ->
    dep_put deps n (dep_staging deps n) w = (w', Ok tt) -> folder w' n = Some b;
  put_other n m w : valid_name n -> isSafeName n = true -> m <> n ->
    folder (dep_put deps n (dep_staging deps n) w).1 m = folder w m;
  discard_folder p w : folder (dep_discard deps p w) = folder w;
  list_folder p w : folder (dep_listRemote deps p w).1 = folder w;
  local_folder w : folder (dep_list deps w).1 = folder w;
  progress_folder p w : folder (onProgress p w) = folder w;
  cancelled_folder w : folder (cancelled w).1 = folder w
}.

Inductive FileOutcome := out_skipped | out_current | out_downloaded | out_failed (e : jserror).

Section Spec.
Context `{D : DateParse}.
Definition outcome_ok (local : list (jstr * LocalInfo)) (ev : Entry * FileOutcome) : Prop :=
  match ev.2 with
  | out_skipped => isSafeName (entry_name ev.1) = false
  | out_current => isSafeName (entry_name ev.1) = true /\ needsSync ev.1 (map_get (entry_name ev.1) local) = false
  | _ => isSafeName (entry_name ev.1) = true /\ needsSync ev.1 (map_get (entry_name ev.1) local) = true
  end.
Definition tally_step (r : SyncResult) (ev : Entry * FileOutcome) : SyncResult :=
  match ev.2 with
  | out_skipped => count_skipped r
  | out_current => r
  | out_downloaded => count_downloaded r
  | out_failed e => count_failed (entry_name ev.1) e r
  end.
Definition touches (n : jstr) (ev : Entry * FileOutcome) : bool :=
  bool_decide (entry_name ev.1 = n) && match ev.2 with out_downloaded | out_failed _ => true | _ => false end.

Context {W : Type} (deps : SyncDeps W) (onProgress : SyncProgress -> W -> W) (cancelled : W -> W * bool)
  `{MD : !MirrorDeps deps onProgress cancelled}.

(** What the files processed, in order, leave under a name. *)
Definition settled (n : jstr) (evs : list (Entry * FileOutcome)) (before after : option (list Z)) : Prop :=
  match last (List.filter (touches n) evs) with
  | None => after = before
  | Some (e, out_downloaded) => exists b, after = Some b /\ delivered e b
  | Some _ => True
  end.
Lemma settled_cons n ev evs b m a : settled n [ev] b m -> settled n evs m a -> settled n (ev :: evs) b a.
Proof.
  unfold settled. cbn [List.filter]. destruct (touches n ev); intros H1 H2; [|simpl in H1; subst m; exact H2].
  destruct (List.filter (touches n) evs) as [|x l] eqn:E; [simpl in H2; subst m; exact H1|]. rewrite last_cons_cons.
  destruct (last (x :: l)) eqn:El; [exact H2 | by apply last_None in El].
Qed.

Lemma sync_file_spec local e r w : valid_name (entry_name e) ->
  exists o, outcome_ok local (e, o) /\ (sync_file deps e (map_get (entry_name e) local) r w).2 = tally_step r (e, o) /\
    forall n, settled n [(e, o)] (folder w n) (folder (sync_file deps e (map_get (entry_name e) local) r w).1 n).
Proof.
  intros Hv. unfold sync_file. destruct (isSafeName (entry_name e)) eqn:Es; cbn [negb].
  2: { exists out_skipped. split; [done|]. split; [done|]. intros n. unfold settled, touches. simpl. by rewrite andb_false_r. }
  destruct (needsSync e _) eqn:En; cbn [negb].
  2: { exists out_current. split; [done|]. split; [done|]. intros n. unfold settled, touches. simpl. by rewrite andb_false_r. }
  set (p := dep_staging deps (entry_name e)). unfold bind.
  pose proof (fetch_folder e p w) as Hf. pose proof (fetch_ok e p w) as Hok.
  destruct (dep_fetch deps e p w) as [w1 [[]|er]]; cbn [fst] in Hf.
  - destruct (Hok w1 eq_refl) as (b & Hb & Hd). pose proof (put_ok (entry_name e) w1) as Hp.
    pose proof (fun m => put_other (entry_name e) m w1 Hv Es) as Ho. fold p in Hp, Ho.
    destruct (dep_put deps (entry_name e) p w1) as [w2 [[]|er]] eqn:Ep; cbn [fst] in Ho.
    + exists out_downloaded. split; [done|]. split; [done|]. intros n. cbn [fst]. rewrite discard_folder.
      unfold settled, touches. simpl. rewrite andb_true_r. destruct (bool_decide _) eqn:En'; breflect; simpl.
      * subst n. exists b. split; [|done]. by eapply Hp.
      * rewrite Ho, Hf; [done | congruence].
    + exists (out_failed er). split; [done|]. split; [done|]. intros n. cbn [fst]. rewrite discard_folder.
      unfold settled, touches. simpl. rewrite andb_true_r. destruct (bool_decide _) eqn:En'; breflect; simpl; [done|].
      rewrite Ho, Hf; [done | congruence].
  - exists (out_failed er). split; [done|]. split; [done|]. intros n. cbn [fst]. rewrite discard_folder, Hf.
    unfold settled, touches. simpl. rewrite andb_true_r. by destruct (bool_decide _).
Qed.

Lemma sync_loop_spec local total files : Forall (fun e => valid_name (entry_name e)) files -> forall i r w,
  exists outs, (length outs <= length files)%nat /\ Forall (outcome_ok local) (zip files outs) /\
    (sync_loop deps onProgress cancelled local total i files r w).2 = fold_left tally_step (zip files outs) r /\
    ((length outs < length files)%nat ->
       exists w0, cancelled w0 = ((sync_loop deps onProgress cancelled local total i files r w).1, true)) /\
    forall n, settled n (zip files outs) (folder w n) (folder (sync_loop deps onProgress cancelled local total i files r w).1 n).
Proof.
  induction 1 as [|e files He _ IH]; intros i r w; [exists []; split; [done|]; split; [constructor|]; split; [done|]; split; [simpl; lia | done]|].
  cbn [sync_loop]. pose proof (cancelled_folder w) as Hc. destruct (cancelled w) as [w1 [|]] eqn:Ec; cbn [fst] in Hc.
  { exists []. split; [simpl; lia|]. split; [constructor|]. split; [done|]. split; [intros _; by exists w|]. intros n.
    unfold settled. simpl. by rewrite Hc. }
  set (w2 := onProgress _ w1). assert (folder w2 = folder w) as H2 by (unfold w2; by rewrite progress_folder).
  destruct (sync_file_spec local e r w2 He) as (o & Ho & Hr & Hn).
  destruct (sync_file deps e (map_get (entry_name e) local) r w2) as [w3 r3]. cbn [fst snd] in Hr, Hn.
  destruct (IH (S i) r3 w3) as (outs & Hl & Hok & Hres & Hstop & Hset). exists (o :: outs). cbn [length zip zip_with fold_left].
  split; [lia|]. split; [by constructor|]. split; [by rewrite Hres, Hr|]. split; [intros; apply Hstop; lia|].
  intros n. rewrite <- H2. by eapply settled_cons.
Qed.

(** What a result says of the files processed. *)
Lemma tally_counts evs r : let r' := fold_left tally_step evs r in
  failed r' = failed r ++ omap (fun ev => match ev.2 with out_failed _ => Some (entry_name ev.1) | _ => None end) evs /\
  downloaded r' = (downloaded r + length (List.filter (fun ev => match ev.2 with out_downloaded => true | _ => false end) evs))%nat /\
  skipped r' = (skipped r + length (List.filter (fun ev => match ev.2 with out_skipped => true | _ => false end) evs))%nat /\
  (firstError r' = None <-> firstError r = None /\ failed r' = failed r).
Proof.
  revert r. induction evs as [|[e o] evs IH]; intros r; cbn [fold_left]; [simpl; rewrite app_nil_r; split_and!; [done | lia | lia | tauto]|].
  destruct (IH (tally_step r (e, o))) as (I1 & I2 & I3 & I4). cbn [fst] in *. rewrite I2, I3. clear I2 I3.
  unfold tally_step in *. destruct o; simpl in I1, I4 |- *; rewrite I1, <- ?app_assoc; (split_and!; [done | lia | lia|]); try (by rewrite I4, I1, ?app_assoc).
  rewrite I4. split; [intros [H _]; by destruct (firstError r)|]. intros [_ H]. exfalso.
  apply (f_equal length) in H. rewrite length_app in H. simpl in H. lia.
Qed.

(** A sync pass over any folder, network and cancellation: a file of the folder changes only when a
    remote file of its (plain) name was missing, resized or newer, and what it then holds is a complete
    download of that file, unless its copy failed and it is reported; every file before a cancellation is
    accounted for, names that are not one path segment are only counted, folders are never touched, and
    when nothing failed and nothing was cancelled every plainly named file is current or downloaded. *)
Lemma runSync_mirrors (remotePath : jstr) (w w1 w2 w3 : W) (entries : list Entry) (local : list (jstr * LocalInfo)) (r : SyncResult) :
  dep_listRemote deps remotePath w = (w1, Ok entries) -> dep_list deps w1 = (w2, Ok local) ->
  Forall (fun e => valid_name (entry_name e)) entries ->
  runSync deps onProgress cancelled remotePath w = (w3, Ok r) ->
  let files := List.filter (fun e => negb (entry_isDir e)) entries in
  exists outs, let evs := zip files outs in
    (length outs <= length files)%nat /\ Forall (outcome_ok local) evs /\
    (forall n, settled n evs (folder w n) (folder w3 n)) /\
    failed r = omap (fun ev => match ev.2 with out_failed _ => Some (entry_name ev.1) | _ => None end) evs /\
    downloaded r = length (List.filter (fun ev => match ev.2 with out_downloaded => true | _ => false end) evs) /\
    skipped r = length (List.filter (fun ev => match ev.2 with out_skipped => true | _ => false end) evs) /\
    (firstError r = None <-> failed r = []) /\
    ((length outs < length files)%nat -> exists w0, cancelled w0 = (w3, true)) /\
    (failed r = [] -> (forall w0, cancelled w0 <> (w3, true)) -> forall e, e ∈ files -> isSafeName (entry_name e) = true ->
       needsSync e (map_get (entry_name e) local) = false \/
       exists e' b, e' ∈ files /\ entry_name e' = entry_name e /\ folder w3 (entry_name e) = Some b /\ delivered e' b).
Proof.
  intros E1 E2 Hv Hrun files. unfold runSync, bind in Hrun. rewrite E1, E2 in Hrun. fold files in Hrun.
  assert (Forall (fun e => valid_name (entry_name e)) files) as Hvf.
  { rewrite Forall_forall in Hv. apply Forall_forall. intros e [He _]%elem_filter_bool. by apply Hv. }
  destruct (sync_loop_spec local (length files) files Hvf 0 no_result w2) as (outs & Hl & Hok & Hr & Hstop & Hset).
  destruct (sync_loop _ _ _ _ _ _ _ _ _) as [w3' r']. cbn [fst snd] in Hr, Hset, Hstop. injection Hrun as -> ->.
  assert (folder w2 = folder w) as Hw.
  { pose proof (list_folder remotePath w) as A. pose proof (local_folder w1) as B. rewrite E1 in A. rewrite E2 in B. cbn [fst] in A, B. congruence. }
  destruct (tally_counts (zip files outs) no_result) as (T1 & T2 & T3 & T4). rewrite <- Hr in T1, T2, T3, T4. simpl in T1, T2, T3.
  exists outs. rewrite Hw in Hset. split_and!; try done; [rewrite T4; tauto|].
  intros Hf Hc e He Hs. assert (length outs = length files) as Hlen.
  { destruct (decide (length outs < length files)%nat) as [Hlt|]; [|lia]. destruct (Hstop Hlt) as [w0 H0]. by apply Hc in H0. }
  apply list_elem_of_lookup in He as [k Hk]. destruct (lookup_lt_is_Some_2 outs k) as [o Ho]; [rewrite Hlen; by eapply lookup_lt_Some|].
  assert ((e, o) ∈ zip files outs) as Hin.
  { apply list_elem_of_lookup. exists k. by apply lookup_zip_Some. }
  rewrite Forall_forall in Hok. pose proof (Hok _ Hin) as Hoe. unfold outcome_ok in Hoe. cbn [fst snd] in Hoe.
  destruct (needsSync e _) eqn:En; [|by left]. right. specialize (Hset (entry_name e)). unfold settled in Hset.
  destruct (last (List.filter (touches (entry_name e)) (zip files outs))) as [[e' o']|] eqn:El.
  - apply last_Some_elem_of, elem_filter_bool in El as [Hin' Ht]. unfold touches in Ht. breflect. cbn [fst snd] in *.
    destruct o'; try done.
    + destruct Hset as (b & Hb & Hd). exists e', b. split; [|done]. by apply elem_of_zip_l in Hin'.
    + exfalso. rewrite T1 in Hf. assert (entry_name e' ∈ ([] : list jstr)) as Hx; [|by apply elem_of_nil in Hx].
      rewrite <- Hf. apply list_elem_of_omap. by exists (e', out_failed e0).
  - apply last_None in El. exfalso. assert ((e, o) ∈ List.filter (touches (entry_name e)) (zip files outs)) as Hx; [|rewrite El in Hx; by apply elem_of_nil in Hx].
    apply elem_filter_bool. split; [done|]. unfold touches. cbn [fst snd]. rewrite bool_decide_true by done.
    destruct o; try done; [by rewrite Hs in Hoe | by destruct Hoe].
Qed.
Lemma settled_change local n evs b a : Forall (outcome_ok local) evs -> settled n evs b a ->
  a = b \/ exists e o, (e, o) ∈ evs /\ entry_name e = n /\ isSafeName n = true /\ needsSync e (map_get n local) = true /\
    ((exists body, a = Some body /\ delivered e body) \/ exists er, o = out_failed er).
Proof.
  rewrite Forall_forall. unfold settled. intros Hok H. destruct (last (List.filter (touches n) evs)) as [[e o]|] eqn:El; [|by left].
  apply last_Some_elem_of, elem_filter_bool in El as [Hin Ht]. unfold touches in Ht. breflect. cbn [fst snd] in *.
  pose proof (Hok _ Hin) as Ho. unfold outcome_ok in Ho. cbn [fst snd] in Ho. right. exists e, o. subst n.
  destruct o; try done; destruct Ho; split_and!; try done; [by left|]. right. by eexists.
Qed.
End Spec.

(** ** The service *)

Record LocalFile := { lf_size : option Z; lf_modified : option Z; lf_body : list Z }.
Record FetchReq := { fr_url : jstr; fr_headers : list (jstr * jstr); fr_pin : jstr; fr_dest : jstr }.
Record SyncState := {
  sy_services : Services;
  sy_staged : list (jstr * list Z);        (** files of the staging directory, by native path *)
  sy_folder : list (jstr * LocalFile);     (** files of the rule's local folder, by name *)
  sy_fetched : list FetchReq;              (** downloads started *)
  sy_copies : nat;
  sy_checks : nat;                         (** how often [cancelled] was asked *)
  sy_progress : list SyncProgress
}.
Notation Sy := (M SyncState jserror).
Definition on_services {A} (m : Svc A) : Sy A := fun s =>
  let (v, r) := m (sy_services s) in
  ({| sy_services := v; sy_staged := sy_staged s; sy_folder := sy_folder s; sy_fetched := sy_fetched s;
      sy_copies := sy_copies s; sy_checks := sy_checks s; sy_progress := sy_progress s |}, r).
Definition set_staged (f : list (jstr * list Z) -> list (jstr * list Z)) (s : SyncState) : SyncState :=
  {| sy_services := sy_services s; sy_staged := f (sy_staged s); sy_folder := sy_folder s; sy_fetched := sy_fetched s;
     sy_copies := sy_copies s; sy_checks := sy_checks s; sy_progress := sy_progress s |}.
Definition set_or_delete {A} (k : jstr) (v : option A) (m : list (jstr * A)) : list (jstr * A) :=
  match v with Some v => map_set k v m | None => map_delete k m end.

Definition no_longer_paired : jserror := PlainError (js "This computer is no longer paired.").
Definition endless : jserror := PlainError (js "paging").
Definition http_error (status : Z) : jserror := PlainError (js "HTTP " ++ string_of_Z status).

(** The native downloader, the file system and the watch for a cancellation. *)
Record SyncHost := {
  sh_transport : Transport;
  (** the status and the body stored at the destination, or the error and what is left there;
      given the downloads before it *)
  sh_download : list FetchReq -> FetchReq -> result (jserror * option (list Z)) (Z * list Z);
  (** [File.copy]: the size and time of the copy, or the error and what is left under the name *)
  sh_copy : nat -> result (jserror * option LocalFile) (option Z * option Z);
  sh_delete : jstr -> bool;                 (** [File.delete] succeeds *)
  sh_file_uri : jstr -> jstr -> jstr;       (** [new File(directory, name).uri] *)
  sh_stage : jstr -> jstr;                  (** the staging directory of a rule *)
  sh_cancelled : option (nat -> bool);      (** the answers of [cancelled], if given *)
  sh_now : jstr                             (** [new Date().toISOString()] at the end *)
}.

Section Service.
Context `{U : Unicode} `{J : JsonCodec} `{D : DateParse} (sh : SyncHost).

Definition paired_host (hostId : jstr) : Sy Host :=
  hosts <- on_services (on_sdisk listHosts);;
  match host_of hostId hosts with Some h => ret h | None => throw no_longer_paired end.

(** The [do ... while (cursor)] loop; [fuel] bounds the pages of one folder. *)
Fixpoint list_pages (fuel : nat) (client : Client) (path : jstr) (cursor : option jstr) (out : list Entry) : Sy (list Entry) :=
  match fuel with
  | O => throw endless
  | S f =>
      page <- on_services (on_snet (list_ (sh_transport sh) client path cursor None));;
      let out' := out ++ listing_entries page in
      match truthy (listing_nextCursor page) with
      | Some c => list_pages f client path (Some c) out'
      | None => ret out'
      end
  end.
Definition listAll (fuel : nat) (hostId remotePath : jstr) : Sy (list Entry) :=
  host <- paired_host hostId;;
  client <- on_services (clientForHost host false None);;
  list_pages fuel client remotePath None [].

Definition fetch_file (client : Client) (entry : Entry) (dest : jstr) : Sy unit :=
  spec <- on_services (on_snet (downloadSpec client (entry_path entry)));;
  fun s =>
    let req := {| fr_url := spec.1.1; fr_headers := spec.1.2; fr_pin := spec.2; fr_dest := dest |} in
    let stored v r := ({| sy_services := sy_services s; sy_staged := set_or_delete dest v (sy_staged s); sy_folder := sy_folder s;
                          sy_fetched := sy_fetched s ++ [req]; sy_copies := sy_copies s; sy_checks := sy_checks s;
                          sy_progress := sy_progress s |}, r) in
    match sh_download sh (sy_fetched s) req with
    | Err (e, partial) => stored partial (Err e)
    | Ok (status, body) => stored (Some body) (if (status <? 200) || (300 <=? status) then Err (http_error status) else Ok tt)
    end.
Definition staging_path (rule : SyncRule) (name : jstr) : jstr := pathFromFileUri (sh_file_uri sh (sh_stage sh (rule_id rule)) name).
(** A [File] made from a URI stands for the decoded path; errors are swallowed. *)
Definition discard_file (p : jstr) (s : SyncState) : SyncState :=
  match fileUriFromPath p with
  | None => s
  | Some uri => let f := pathFromFileUri uri in if sh_delete sh f then set_staged (map_delete f) s else s
  end.

(** The name of a file: what follows the last separator of its path. *)
Definition file_name (path : jstr) : jstr := match last_index_of slash path with Some i => drop (S i) path | None => path end.
Definition folder_list : Sy (list (jstr * LocalInfo)) := fun s =>
  (s, Ok (fold_left (fun out nf => map_set nf.1 {| info_size := default 0 (lf_size nf.2); info_modified := lf_modified nf.2 |} out) (sy_folder s) [])).
(** Copying into the folder names the copy after the staged file and replaces what is there. *)
Definition folder_put (_name stagedPath : jstr) : Sy unit := fun s =>
  match fileUriFromPath stagedPath with
  | None => (s, Err uri_error)
  | Some uri =>
      let f := pathFromFileUri uri in
      let put v r := ({| sy_services := sy_services s; sy_staged := sy_staged s; sy_folder := set_or_delete (file_name f) v (sy_folder s);
                         sy_fetched := sy_fetched s; sy_copies := S (sy_copies s); sy_checks := sy_checks s; sy_progress := sy_progress s |}, r) in
      match map_get f (sy_staged s) with
      | None => (s, Err storage_error)
      | Some body =>
          match sh_copy sh (sy_copies s) with
          | Ok (size, time) => put (Some {| lf_size := size; lf_modified := time; lf_body := body |}) (Ok tt)
          | Err (e, partial) => put partial (Err e)
          end
      end
  end.
Definition ask_cancelled (s : SyncState) : SyncState * bool :=
  match sh_cancelled sh with
  | None => (s, false)
  | Some c => ({| sy_services := sy_services s; sy_staged := sy_staged s; sy_folder := sy_folder s; sy_fetched := sy_fetched s;
                  sy_copies := sy_copies s; sy_checks := S (sy_checks s); sy_progress := sy_progress s |}, c (sy_checks s))
  end.
Definition note_progress (p : SyncProgress) (s : SyncState) : SyncState :=
  {| sy_services := sy_services s; sy_staged := sy_staged s; sy_folder := sy_folder s; sy_fetched := sy_fetched s;
     sy_copies := sy_copies s; sy_checks := sy_checks s; sy_progress := sy_progress s ++ [p] |}.

Definition rule_deps (fuel : nat) (rule : SyncRule) (client : Client) : SyncDeps SyncState := {|
  dep_listRemote p := listAll fuel (rule_hostId rule) p;
  dep_fetch := fetch_file client;
  dep_staging := staging_path rule;
  dep_discard := discard_file;
  dep_list := folder_list;
  dep_put := folder_put |}.
Definition with_lastSync (t : jstr) (rule : SyncRule) : SyncRule := {|
  rule_id := rule_id rule; rule_hostId := rule_hostId rule; rule_remotePath := rule_remotePath rule;
  rule_localPath := rule_localPath rule; rule_enabled := rule_enabled rule; rule_lastSync := Some t |}.
(** The end of [syncRule]: the time is recorded when every file made it. *)
Definition finish_rule (rule : SyncRule) (result : SyncResult) : Sy SyncResult := fun s =>
  match failed result with
  | [] =>
      let (s', stop) := ask_cancelled s in
      if stop then (s', Ok result)
      else (on_services (on_sdisk (save_rule (with_lastSync (sh_now sh) rule)));; ret result) s'
  | _ => (s, Ok result)
  end.
Definition syncRule (fuel : nat) (rule : SyncRule) : Sy SyncResult :=
  host <- paired_host (rule_hostId rule);;
  client <- on_services (clientForHost host false None);;
  result <- runSync (rule_deps fuel rule client) note_progress ask_cancelled (rule_remotePath rule);;
  finish_rule rule result.
End Service.

(** ** The service keeps the promises of the pass *)

Section ServiceSpec.
Context `{U : Unicode} `{J : JsonCodec} `{D : DateParse} (sh : SyncHost).
(** A [File] in a directory lies at the directory's path, a separator and the name. *)
Hypothesis file_uri_path : forall dir name, isSafeName name = true -> utf16_text name ->
  pathFromFileUri (sh_file_uri sh dir name) = pathFromFileUri dir ++ slash :: name.
Hypothesis stage_text : forall id, utf16_text (pathFromFileUri (sh_stage sh id)).

Lemma safe_no_slash n : isSafeName n = true -> slash ∉ n.
Proof.
  unfold isSafeName. intros H Hin. breflect. rewrite existsb_false_forall, Forall_forall in H0.
  by specialize (H0 _ Hin).
Qed.
Lemma staging_spec rule n : isSafeName n = true -> utf16_text n ->
  utf16_text (staging_path sh rule n) /\ file_name (staging_path sh rule n) = n.
Proof.
  intros Hs Hu. unfold staging_path. rewrite file_uri_path by done. split.
  - apply Forall_app. split; [apply stage_text|]. constructor; [unfold slash; lia | done].
  - unfold file_name. rewrite last_index_of_app by (by apply safe_no_slash).
    rewrite drop_app_ge by lia. by replace (S _ - _)%nat with 1%nat by lia.
Qed.

Definition content_url (address p : jstr) : jstr := js "https://" ++ address ++ js "/v1/content?path=" ++ p.
(** A body the downloader stored with a success status for the entry's pinned content URL. *)
Definition downloaded_body (client : Client) (e : Entry) (b : list Z) : Prop :=
  exists log req status address p, sh_download sh log req = Ok (status, b) /\ 200 <= status < 300 /\
    encodeURIComponent (entry_path e) = Some p /\ fr_url req = content_url address p /\ Some (fr_pin req) = cl_pin client.
Definition folder_body (s : SyncState) (n : jstr) : option (list Z) := lf_body <$> map_get n (sy_folder s).

Lemma on_services_folder {A} (m : Svc A) s : sy_folder (on_services m s).1 = sy_folder s.
Proof. unfold on_services. by destruct (m (sy_services s)). Qed.
Lemma bind_folder {A B} (m : Sy A) (k : A -> Sy B) s :
  sy_folder (m s).1 = sy_folder s -> (forall a s', sy_folder (k a s').1 = sy_folder s') -> sy_folder (bind m k s).1 = sy_folder s.
Proof. unfold bind. intros H1 H2. destruct (m s) as [s1 [a|e]]; simpl in *; [by rewrite H2 | done]. Qed.
Lemma list_pages_folder fuel client path cur out s : sy_folder (list_pages sh fuel client path cur out s).1 = sy_folder s.
Proof.
  revert cur out s. induction fuel as [|f IH]; intros; cbn [list_pages]; [done|].
  apply bind_folder; [apply on_services_folder|]. intros page s'. by destruct (truthy _).
Qed.
Lemma listAll_folder fuel id path s : sy_folder (listAll sh fuel id path s).1 = sy_folder s.
Proof.
  unfold listAll, paired_host. apply bind_folder.
  - apply bind_folder; [apply on_services_folder|]. intros hosts s'. by destruct (host_of _ _).
  - intros h s'. apply bind_folder; [apply on_services_folder|]. intros c s2. apply list_pages_folder.
Qed.
Lemma downloadSpec_shape client path w w' spec : downloadSpec client path w = (w', Ok spec) ->
  exists address p, encodeURIComponent path = Some p /\ spec.1.1 = content_url address p /\ Some spec.2 = cl_pin client.
Proof.
  unfold downloadSpec. destruct (cl_pin client) as [pin|]; [|done]. unfold bind, get_state, enc, lift, ret.
  destruct (encodeURIComponent path) as [p|]; [|done]. intros [= <- <-]. by exists (activeAddress client w), p.
Qed.
Lemma get_set_or_delete {A} k (v : option A) m : map_get k (set_or_delete k v m) = v.
Proof. destruct v; simpl; [apply map_get_set_eq|]. rewrite map_get_delete. by rewrite decide_True. Qed.
Lemma get_set_or_delete_ne {A} k k' (v : option A) m : k <> k' -> map_get k' (set_or_delete k v m) = map_get k' m.
Proof. intros H. destruct v; simpl; [by apply map_get_set_ne|]. rewrite map_get_delete. by rewrite decide_False. Qed.

Lemma folder_put_result rule n s : utf16_text n -> isSafeName n = true ->
  exists v, (forall m, folder_body (folder_put sh n (staging_path sh rule n) s).1 m = folder_body s m \/ m = n) /\
    ((folder_put sh n (staging_path sh rule n) s).2 = Ok tt -> map_get (staging_path sh rule n) (sy_staged s) = Some v /\
       folder_body (folder_put sh n (staging_path sh rule n) s).1 n = Some v).
Proof.
  intros Hu Hs. destruct (staging_spec rule n Hs Hu) as [Ht Hf]. unfold folder_put.
  destruct (fileUriFromPath _) as [uri|] eqn:E; [|exists []; split; [intros; by left | done]].
  rewrite (file_uri_roundtrip _ _ Ht E), Hf. destruct (map_get _ (sy_staged s)) as [body|]; [|exists []; split; [intros; by left | done]].
  assert (forall v f1 f2 f3 f4 f5 f6 m, folder_body {| sy_services := f1; sy_staged := f2; sy_folder := set_or_delete n v (sy_folder s);
    sy_fetched := f3; sy_copies := f4; sy_checks := f5; sy_progress := f6 |} m = folder_body s m \/ m = n) as Hother.
  { intros. unfold folder_body. simpl. destruct (decide (m = n)); [by right|]. left. by rewrite get_set_or_delete_ne. }
  exists body. destruct (sh_copy sh _) as [[size time]|[e partial]]; cbn [fst snd]; (split; [intros; apply Hother|]); [|done].
  intros _. split; [done|]. unfold folder_body. simpl. by rewrite map_get_set_eq.
Qed.

#[refine, local] Instance rule_mirror fuel rule client : MirrorDeps (rule_deps sh fuel rule client) note_progress (ask_cancelled sh) := {|
  folder := folder_body;
  staged_at s p := map_get p (sy_staged s);
  delivered := downloaded_body client;
  valid_name := utf16_text |}.
Proof.
- intros e p s s' E. cbn in E. unfold fetch_file, bind in E.
  destruct (on_services _ s) as [s1 [spec|]] eqn:E1; [|done].
  assert (exists address q, encodeURIComponent (entry_path e) = Some q /\ spec.1.1 = content_url address q /\ Some spec.2 = cl_pin client) as (ad & q & Hq & Hurl & Hpin).
  { unfold on_services, on_snet in E1. destruct (downloadSpec client (entry_path e) (sv_net (sy_services s))) as [w r] eqn:Ed.
    injection E1 as <- ->. by eapply downloadSpec_shape. }
  destruct (sh_download sh _ _) as [[status body]|[er partial]] eqn:Edl; [|done].
  destruct ((status <? 200) || (300 <=? status)) eqn:Est; [done|]. injection E as <-. exists body. simpl. rewrite map_get_set_eq.
  split; [done|]. breflect. exists (sy_fetched s1). do 2 eexists. exists ad, q. split; [exact Edl|]. split; [lia|]. done.
- intros e p s. cbn. unfold folder_body, fetch_file, bind. pose proof (on_services_folder (on_snet (downloadSpec client (entry_path e))) s) as H.
  destruct (on_services _ s) as [s1 [spec|]]; simpl in H; [|by rewrite <- H].
  destruct (sh_download sh _ _) as [[status body]|[er partial]]; simpl; by rewrite H.
- intros n s s' b Hv Hs Hst E. cbn in E, Hst. destruct (folder_put_result rule n s Hv Hs) as (v & _ & Hp). rewrite E in Hp. simpl in Hp.
  destruct (Hp eq_refl) as [H1 H2]. congruence.
- intros n m s Hv Hs Hne. cbn. destruct (folder_put_result rule n s Hv Hs) as (v & Hp & _). by destruct (Hp m).
- intros p s. cbn. unfold discard_file. destruct (fileUriFromPath p); [|done]. by destruct (sh_delete sh _).
- intros p s. cbn. unfold folder_body. by rewrite listAll_folder.
- done.
- done.
- intros s. unfold ask_cancelled. by destruct (sh_cancelled sh).
Defined.

(** *** The stored data along a pass *)

(** A relation every operation of a pass respects holds across the pass. *)
Section Preserves.
Context {W : Type} (deps : SyncDeps W) (onProgress : SyncProgress -> W -> W) (cancelled : W -> W * bool) (R : W -> W -> Prop) `{!PreOrder R}.
Hypothesis R_list : forall p w, R w (dep_listRemote deps p w).1.
Hypothesis R_local : forall w, R w (dep_list deps w).1.
Hypothesis R_fetch : forall e p w, R w (dep_fetch deps e p w).1.
Hypothesis R_put : forall n p w, R w (dep_put deps n p w).1.
Hypothesis R_discard : forall p w, R w (dep_discard deps p w).
Hypothesis R_progress : forall p w, R w (onProgress p w).
Hypothesis R_cancelled : forall w, R w (cancelled w).1.
Lemma sync_loop_preserves local total files i r w : R w (sync_loop deps onProgress cancelled local total i files r w).1.
Proof.
  revert i r w. induction files as [|e files IH]; intros i r w; cbn [sync_loop]; [reflexivity|].
  pose proof (R_cancelled w) as Hc. destruct (cancelled w) as [w1 [|]]; cbn [fst] in *; [done|].
  set (w2 := onProgress _ w1). assert (R w w2) as H2 by (etrans; [exact Hc | apply R_progress]).
  assert (R w2 (sync_file deps e (map_get (entry_name e) local) r w2).1) as H3.
  { unfold sync_file. destruct (negb _); [reflexivity|]. destruct (negb _); [reflexivity|]. unfold bind.
    pose proof (R_fetch e (dep_staging deps (entry_name e)) w2) as Hf. destruct (dep_fetch deps e _ w2) as [w4 [[]|]]; cbn [fst] in *.
    - pose proof (R_put (entry_name e) (dep_staging deps (entry_name e)) w4) as Hp. destruct (dep_put deps _ _ w4); cbn [fst] in *.
      etrans; [exact Hf|]. etrans; [exact Hp | apply R_discard].
    - etrans; [exact Hf | apply R_discard]. }
  destruct (sync_file deps e _ r w2) as [w3 r3]. cbn [fst] in H3. etrans; [exact H2|]. etrans; [exact H3 | apply IH].
Qed.
Lemma runSync_preserves path w : R w (runSync deps onProgress cancelled path w).1.
Proof.
  unfold runSync, bind. pose proof (R_list path w) as H1. destruct (dep_listRemote deps path w) as [w1 [es|]]; cbn [fst] in *; [|done].
  pose proof (R_local w1) as H2. destruct (dep_list deps w1) as [w2 [local|]]; cbn [fst] in *; [|by etrans].
  pose proof (sync_loop_preserves local (length (List.filter (fun e => negb (entry_isDir e)) es)) (List.filter (fun e => negb (entry_isDir e)) es) 0 no_result w2) as H3.
  destruct (sync_loop _ _ _ _ _ _ _ _ _). cbn [fst] in *. etrans; [exact H1|]. by etrans.
Qed.
End Preserves.

Definition sy_disk (s : SyncState) : Disk := sv_disk (sy_services s).
Definition keeps (s s' : SyncState) : Prop := same_data (sy_disk s) (sy_disk s').
#[local] Instance keeps_preorder : PreOrder keeps.
Proof. unfold keeps. split; [intros s; reflexivity | intros a b c H1 H2; by etrans]. Qed.
Lemma keeps_bind {A B} (m : Sy A) (k : A -> Sy B) s : keeps s (m s).1 -> (forall a s', keeps s' (k a s').1) -> keeps s (bind m k s).1.
Proof. unfold bind. intros H1 H2. destruct (m s) as [s1 [a|e]]; cbn [fst] in *; [by etrans | done]. Qed.
Lemma keeps_net {A} (m : M World jserror A) s : keeps s (on_services (on_snet m) s).1.
Proof. unfold keeps, on_services, on_snet, sy_disk. by destruct (m (sv_net (sy_services s))). Qed.
Lemma keeps_paired id s : keeps s (paired_host id s).1.
Proof.
  apply keeps_bind; [|intros hosts s'; by destruct (host_of id hosts)].
  unfold keeps, on_services, on_sdisk, sy_disk, listHosts, KeyValueStore.get, bind, ret. by io_step.
Qed.
Lemma keeps_client host s : keeps s (on_services (clientForHost host false None) s).1.
Proof.
  unfold keeps, on_services, sy_disk. pose proof (clientForHost_spec host false None (sy_services s)) as H.
  destruct (clientForHost host false None (sy_services s)) as [v r]. cbn [fst sy_services]. destruct H as (H & _). by symmetry.
Qed.
Lemma keeps_pages fuel client path cur out s : keeps s (list_pages sh fuel client path cur out s).1.
Proof.
  revert cur out s. induction fuel as [|f IH]; intros cur out s; cbn [list_pages]; [done|].
  apply keeps_bind; [apply keeps_net|]. intros page s'. by destruct (truthy _).
Qed.
Lemma keeps_listAll fuel id path s : keeps s (listAll sh fuel id path s).1.
Proof.
  apply keeps_bind; [apply keeps_paired|]. intros h s'. apply keeps_bind; [apply keeps_client|]. intros c s2. apply keeps_pages.
Qed.
Lemma keeps_run fuel rule client path s : keeps s (runSync (rule_deps sh fuel rule client) note_progress (ask_cancelled sh) path s).1.
Proof.
  apply runSync_preserves; cbn; try done.
  - exact keeps_preorder.
  - intros; apply keeps_listAll.
  - intros e p w. apply keeps_bind; [apply keeps_net|]. intros spec s'. cbn beta zeta. by destruct (sh_download sh _ _) as [[]|[]].
  - intros n p w. unfold folder_put. destruct (fileUriFromPath p); [|done]. destruct (map_get _ _); [|done]. by destruct (sh_copy sh _) as [[]|[]].
  - intros p w. unfold discard_file. destruct (fileUriFromPath p); [|done]. by destruct (sh_delete sh _).
  - intros w. unfold ask_cancelled. by destruct (sh_cancelled sh).
Qed.
Lemma same_rules d d' : same_data d d' -> rules_on d = rules_on d'.
Proof. intros (E & _). unfold rules_on. by rewrite E. Qed.

(** Once cancelled, a run stays cancelled (a flag the screen only sets). *)
Hypothesis cancel_sticky : forall c k, sh_cancelled sh = Some c -> c k = true -> c (S k) = true.
Lemma ask_after_stop w0 s : ask_cancelled sh w0 = (s, true) -> (ask_cancelled sh s).2 = true.
Proof.
  unfold ask_cancelled. destruct (sh_cancelled sh) as [c|] eqn:E; [|done]. intros [= <- H]. simpl. by apply (cancel_sticky c).
Qed.
(** The tail of [syncRule]: the rule is saved, or the store keeps its data. *)
Lemma save_spec rule s : is_Some (date_parse (sh_now sh)) ->
  let p := on_services (on_sdisk (save_rule (with_lastSync (sh_now sh) rule))) s in
  sy_folder p.1 = sy_folder s /\
  (rules_on (sy_disk p.1) = rules_on (sy_disk s) /\ is_ok p.2 = false \/
   rules_on (sy_disk p.1) = spec_rule_op (OpSave (with_lastSync (sh_now sh) rule)) (rules_on (sy_disk s)) /\ is_ok p.2 = true).
Proof.
  intros [t Ht]. cbn zeta. split; [apply on_services_folder|]. unfold on_services, on_sdisk, sy_disk.
  pose proof (run_rule_op_spec (OpSave (with_lastSync (sh_now sh) rule)) (sv_disk (sy_services s))) as H.
  cbn [run_rule_op] in H. destruct (save_rule _ _) as [d r]. cbn [fst snd sv_disk sy_services] in *.
  destruct H as [(A & B & _)|(A & B & _)]; [unfold op_ok, rule_ok; simpl; by rewrite Ht | by left | by right].
Qed.

(** The computer and the client a run starts with. *)
Lemma rule_start hostId s sa host sb client :
  paired_host hostId s = (sa, Ok host) -> on_services (clientForHost host false None) sa = (sb, Ok client) ->
  host_id (cl_host client) = hostId /\ keeps s sb /\ folder_body sb = folder_body s.
Proof.
  intros Ha Hb. pose proof (keeps_paired hostId s) as K1. rewrite Ha in K1. pose proof (keeps_client host sa) as K2. rewrite Hb in K2.
  pose proof (on_services_folder (clientForHost host false None) sa) as F2. rewrite Hb in F2.
  unfold paired_host in Ha. apply bind_inv in Ha as (x & hosts & Hx & Ha).
  pose proof (on_services_folder (on_sdisk listHosts) s) as F1. rewrite Hx in F1.
  destruct (host_of hostId hosts) as [h|] eqn:E; [|done]. injection Ha as <- <-. apply List.find_some in E as [_ E]. breflect. split.
  - unfold on_services in Hb. pose proof (clientForHost_spec h false None (sy_services x)) as Hsp.
    destruct (clientForHost h false None (sy_services x)) as [v q]. injection Hb as <- ->. destruct Hsp as (_ & _ & Hsp).
    by destruct (Hsp _ eq_refl) as [-> _].
  - cbn [fst] in *. split; [by etrans|]. unfold folder_body. by rewrite F2, F1.
Qed.
(** The end of a run: the last-sync time is stored only with no failure and no cancellation. *)
Lemma rule_end rule res sc s' r : is_Some (date_parse (sh_now sh)) -> finish_rule sh rule res sc = (s', r) ->
  folder_body s' = folder_body sc /\
  (rules_on (sy_disk s') = rules_on (sy_disk sc) /\ (r = Ok res \/ is_ok r = false) \/
   rules_on (sy_disk s') = spec_rule_op (OpSave (with_lastSync (sh_now sh) rule)) (rules_on (sy_disk sc)) /\ r = Ok res /\
     failed res = [] /\ forall w0, ask_cancelled sh w0 <> (sc, true)).
Proof.
  intros Hnow. unfold finish_rule. intros H. destruct (failed res) eqn:Ef; [|injection H as <- <-; split; [done|]; left; by split; [|left]].
  assert (forall w0, (ask_cancelled sh sc).2 = false -> ask_cancelled sh w0 <> (sc, true)) as Hst.
  { intros w0 E E0. by rewrite (ask_after_stop w0 sc E0) in E. }
  assert (rules_on (sy_disk (ask_cancelled sh sc).1) = rules_on (sy_disk sc) /\ sy_folder (ask_cancelled sh sc).1 = sy_folder sc) as [Hra Hfa]
    by (unfold ask_cancelled; by destruct (sh_cancelled sh)).
  destruct (ask_cancelled sh sc) as [sd [|]]; cbn [fst snd] in *.
  { injection H as <- <-. unfold folder_body. rewrite Hfa, Hra. split; [done|]. left. by split; [|left]. }
  pose proof (save_spec rule sd Hnow) as Hsv. cbn zeta in Hsv. unfold bind in H. destruct (on_services _ sd) as [se [[]|e]];
    injection H as <- <-; cbn [fst snd] in Hsv; destruct Hsv as [F [[G ?]|[G ?]]]; try done; unfold folder_body; rewrite F, Hfa, G, Hra; (split; [done|]).
  - right. split_and!; try done. intros w0. by apply Hst.
  - left. by split; [|right].
Qed.

(** *** The decisions, said without the code's own tests *)

(** One path segment: not empty, not a dot name, no separator of either kind, no NUL. *)
Definition one_segment (n : jstr) : Prop := n <> [] /\ n <> js "." /\ n <> js ".." /\ 47 ∉ n /\ 92 ∉ n /\ 0 ∉ n.
(** The copy is missing, of another size (a size not told is 0), or older than the remote file, as far
    as both times are known. *)
Definition outdated (e : Entry) (copy : option LocalFile) : Prop :=
  match copy with
  | None => True
  | Some f => default 0 (lf_size f) <> default 0 (entry_size e) \/
      exists text remote mine, entry_modified e = Some text /\ text <> [] /\ date_parse text = Some remote /\
        lf_modified f = Some mine /\ mine < remote
  end.
Lemma isSafeName_spec n : isSafeName n = true <-> one_segment n.
Proof.
  unfold isSafeName, one_segment. rewrite !andb_true_iff, !negb_true_iff, !bool_decide_eq_false, existsb_false_forall, Forall_forall.
  split.
  - intros [[[H1 H2] H3] H4]. split_and!; try done; [by intros -> | ..]; intros Hin; by specialize (H4 _ Hin).
  - intros (H1 & H2 & H3 & H4 & H5 & H6). split_and!; try done; [by destruct n|]. intros c Hc. unfold backslash, slash.
    rewrite !orb_false_iff, !Z.eqb_neq. split_and!; intros ->; done.
Qed.
Definition info_of (f : LocalFile) : LocalInfo := {| info_size := default 0 (lf_size f); info_modified := lf_modified f |}.
Lemma needsSync_spec e copy : needsSync e (info_of <$> copy) = true <-> outdated e copy.
Proof.
  destruct copy as [f|]; [|done]. cbn [fmap option_fmap option_map needsSync info_of info_size info_modified outdated].
  destruct (Z.eqb_spec (default 0 (lf_size f)) (default 0 (entry_size e))) as [Es|Es]; cbn [negb]; [|by split; [left|]].
  destruct (entry_modified e) as [[|c text]|] eqn:Em; cbn [truthy mbind option_bind].
  - split; [done|]. intros [?|(x & ? & ? & [= <-] & ? & _)]; done.
  - destruct (date_parse (c :: text)) as [remote|] eqn:Ed, (lf_modified f) as [mine|] eqn:El; cbn [mbind option_bind].
    + rewrite Z.ltb_lt. split; [intros H; right; by exists (c :: text), remote, mine | intros [?|(x & r & m & [= <-] & _ & Er & [= <-] & ?)]; [done | congruence]].
    + split; [done|]. intros [?|(x & r & m & [= <-] & _ & Er & ? & ?)]; [done | congruence].
    + split; [done|]. intros [?|(x & r & m & [= <-] & _ & Er & ? & ?)]; [done | congruence].
    + split; [done|]. intros [?|(x & r & m & [= <-] & _ & Er & ? & ?)]; [done | congruence].
  - split; [done|]. intros [?|(x & r & m & ? & _)]; done.
Qed.
Lemma folder_list_get s n : NoDup (keys (sy_folder s)) -> exists local, folder_list s = (s, Ok local) /\ map_get n local = info_of <$> map_get n (sy_folder s).
Proof.
  intros Hnd. eexists. split; [reflexivity|]. revert Hnd. generalize (sy_folder s). intros l.
  assert (forall acc, NoDup (keys l) -> map_get n (fold_left (fun out nf => map_set nf.1 (info_of nf.2) out) l acc) =
    match map_get n l with Some f => Some (info_of f) | None => map_get n acc end) as H.
  { induction l as [|[k f] l IH]; intros acc Hnd; [done|]. apply NoDup_cons in Hnd as [Hk Hnd]. cbn [fold_left fst snd]. rewrite IH by done.
    rewrite map_get_set. cbn [map_get]. repeat case_decide; subst; try done.
    destruct (map_get _ l) eqn:El; [|done]. apply map_get_Some_elem in El. exfalso. apply Hk. unfold keys. by apply (list_elem_of_fmap_2 fst) in El. }
  intros Hnd. etrans; [exact (H [] Hnd)|]. by destruct (map_get n l).
Qed.
Lemma folder_list_local s : exists local, folder_list s = (s, Ok local).
Proof. by eexists. Qed.
Lemma paired_folder id s : sy_folder (paired_host id s).1 = sy_folder s.
Proof. apply bind_folder; [apply on_services_folder|]. intros hosts s'. by destruct (host_of _ _). Qed.
(** A run fails before its pass, leaving folder and rules, or its pass runs to its end. *)
Lemma rule_pass fuel rule s s' r : syncRule sh fuel rule s = (s', r) ->
  (exists e, r = Err e) /\ (forall n, folder_body s' n = folder_body s n) /\ rules_on (sy_disk s') = rules_on (sy_disk s) \/
  exists sa host client sb s2 entries sc res,
    paired_host (rule_hostId rule) s = (sa, Ok host) /\ on_services (clientForHost host false None) sa = (sb, Ok client) /\
    listAll sh fuel (rule_hostId rule) (rule_remotePath rule) sb = (s2, Ok entries) /\
    runSync (rule_deps sh fuel rule client) note_progress (ask_cancelled sh) (rule_remotePath rule) sb = (sc, Ok res) /\
    finish_rule sh rule res sc = (s', r).
Proof.
  assert (forall x e, r = Err e -> keeps s x -> sy_folder x = sy_folder s -> s' = x ->
    (exists e, r = Err e) /\ (forall n, folder_body s' n = folder_body s n) /\ rules_on (sy_disk s') = rules_on (sy_disk s)) as Hleft.
  { intros x e Er K F ->. split; [by exists e|]. unfold folder_body. rewrite F. split; [done|]. symmetry. by apply same_rules. }
  unfold syncRule. intros H. pose proof (keeps_paired (rule_hostId rule) s) as K1. pose proof (paired_folder (rule_hostId rule) s) as F1.
  destruct (paired_host (rule_hostId rule) s) as [sa [host|e]] eqn:Ha; cbn [fst] in K1, F1.
  2: { rewrite (bind_err _ _ _ _ _ Ha) in H. injection H as <- <-. left. by eapply Hleft. }
  rewrite (bind_ok _ _ _ _ _ Ha) in H. pose proof (keeps_client host sa) as K2. pose proof (on_services_folder (clientForHost host false None) sa) as F2.
  destruct (on_services (clientForHost host false None) sa) as [sb [client|e]] eqn:Hb; cbn [fst] in K2, F2.
  2: { rewrite (bind_err _ _ _ _ _ Hb) in H. injection H as <- <-. left. eapply Hleft; [done | by etrans | by rewrite F2 | done]. }
  rewrite (bind_ok _ _ _ _ _ Hb) in H.
  destruct (runSync (rule_deps sh fuel rule client) note_progress (ask_cancelled sh) (rule_remotePath rule) sb) as [sc [res|e]] eqn:Hc.
  - rewrite (bind_ok _ _ _ _ _ Hc) in H. right. pose proof Hc as Hc2. unfold runSync in Hc2. apply bind_inv in Hc2 as (s2 & entries & Hl & _).
    by exists sa, host, client, sb, s2, entries, sc, res.
  - rewrite (bind_err _ _ _ _ _ Hc) in H. injection H as <- <-. left. unfold runSync, bind in Hc. cbn [dep_listRemote rule_deps dep_list] in Hc.
    pose proof (keeps_listAll fuel (rule_hostId rule) (rule_remotePath rule) sb) as K3. pose proof (listAll_folder fuel (rule_hostId rule) (rule_remotePath rule) sb) as F3.
    destruct (listAll _ _ _ _ sb) as [s2 [entries|e2]]; cbn [fst] in K3, F3.
    + cbn [folder_list] in Hc. unfold folder_list in Hc. destruct (sync_loop _ _ _ _ _ _ _ _ _); done.
    + injection Hc as <- <-. eapply Hleft; [done | | by rewrite F3, F2 | done]. etrans; [exact K1|]. by etrans.
Qed.

(** C15 Running a rule, with any agent, downloader and file system, over a folder with one file per
    name.  Either the run failed before its pass (the computer is not paired, has no pin, or its folder
    could not be listed within [fuel] pages) and neither the folder nor the stored rules changed.  Or, with
    [entries] the remote files, the local folder changed only under names that are one path segment, of
    remote files whose copy was missing, of another size or older ([outdated]); the changed file holds a
    body the downloader completed with a success status for that file's content address, under the pin of
    the client of the computer the rule names, or it is reported as failed.  The rule's last-sync time is
    recorded only after a pass with no failure and no cancellation, in which every remote file whose name
    is one path segment was current or has been downloaded; the stored rules are otherwise untouched.
    Assumed: a cancelled run stays cancelled until it ends ([cancel_sticky], the flag of the screen), a file
    of a directory lies at the directory's path and its name, the clock gives a time [Date.parse] reads, and
    names are texts of 16-bit units. *)
Theorem syncRule_correct (fuel : nat) (rule : SyncRule) (s s' : SyncState) (r : result jserror SyncResult) :
  is_Some (date_parse (sh_now sh)) -> NoDup (keys (sy_folder s)) -> syncRule sh fuel rule s = (s', r) ->
  (exists e, r = Err e) /\ (forall n, folder_body s' n = folder_body s n) /\ rules_on (sy_disk s') = rules_on (sy_disk s) \/
  exists sa host client s1 s2 entries res,
    paired_host (rule_hostId rule) s = (sa, Ok host) /\ on_services (clientForHost host false None) sa = (s1, Ok client) /\
    host_id (cl_host client) = rule_hostId rule /\
    listAll sh fuel (rule_hostId rule) (rule_remotePath rule) s1 = (s2, Ok entries) /\
    (Forall (fun e => utf16_text (entry_name e)) entries ->
     (forall n, folder_body s' n = folder_body s n \/
        exists e, e ∈ entries /\ entry_isDir e = false /\ entry_name e = n /\ one_segment n /\ outdated e (map_get n (sy_folder s)) /\
          ((exists b, folder_body s' n = Some b /\ downloaded_body client e b) \/ n ∈ failed res)) /\
     (rules_on (sy_disk s') = rules_on (sy_disk s) /\ (r = Ok res \/ exists e, r = Err e) \/
      rules_on (sy_disk s') = spec_rule_op (OpSave (with_lastSync (sh_now sh) rule)) (rules_on (sy_disk s)) /\ r = Ok res /\ failed res = [] /\
      forall e, e ∈ entries -> entry_isDir e = false -> one_segment (entry_name e) ->
        ~ outdated e (map_get (entry_name e) (sy_folder s)) \/
        exists e' b, e' ∈ entries /\ entry_name e' = entry_name e /\ folder_body s' (entry_name e) = Some b /\ downloaded_body client e' b)).
Proof.
  intros Hnow Hnd H.
  destruct (rule_pass fuel rule s s' r H) as [?|(sa & host & client & sb & s2 & entries & sc & res & Ha & Hb & Hl & Hc & Hfin)]; [by left|].
  right. exists sa, host, client, sb, s2, entries, res.
  destruct (rule_start _ _ _ _ _ _ Ha Hb) as (Hid & Hk & Hfs). pose proof (keeps_run fuel rule client (rule_remotePath rule) sb) as Hk2.
  rewrite Hc in Hk2. cbn [fst] in Hk2. destruct (rule_end _ _ _ _ _ Hnow Hfin) as (Hff & Hrules).
  rewrite <- (same_rules _ _ (transitivity Hk Hk2)) in Hrules.
  assert (sy_folder s2 = sy_folder s) as Hf2.
  { pose proof (listAll_folder fuel (rule_hostId rule) (rule_remotePath rule) sb) as F. rewrite Hl in F. cbn [fst] in F.
    pose proof (on_services_folder (clientForHost host false None) sa) as F2. rewrite Hb in F2.
    pose proof (paired_folder (rule_hostId rule) s) as F1. rewrite Ha in F1. cbn [fst] in *. by rewrite F, F2, F1. }
  split_and!; try done. intros Hv. pose (MD := rule_mirror fuel rule client). destruct (folder_list_local s2) as [local Hloc].
  assert (forall n, map_get n local = info_of <$> map_get n (sy_folder s)) as Hget.
  { intros n. rewrite <- Hf2 in Hnd |- *. destruct (folder_list_get s2 n Hnd) as (l & El & <-). by rewrite Hloc in El; injection El as <-. }
  destruct (runSync_mirrors (MD := MD) (rule_deps sh fuel rule client) note_progress (ask_cancelled sh) (rule_remotePath rule) sb s2 s2 sc entries local res
    Hl Hloc Hv Hc) as (outs & _ & Hok & Hset & Hfail & _ & _ & _ & _ & Hdone).
  change (@folder _ _ _ _ MD) with folder_body in Hset, Hdone. change (@delivered _ _ _ _ MD) with (downloaded_body client) in Hdone.
  rewrite Hfs in Hset. rewrite Hff. split.
  - intros n. destruct (settled_change _ _ _ local n _ _ _ Hok (Hset n)) as [->|(e & o & Hin & Hn & Hsn & Hneed & Hc')]; [by left|]. right. exists e.
    pose proof (elem_of_zip_l _ _ _ _ Hin) as [He Hd]%elem_filter_bool. breflect. rewrite Hget in Hneed.
    apply needsSync_spec in Hneed. apply isSafeName_spec in Hsn. split_and!; try done.
    destruct Hc' as [?|[er ->]]; [by left|]. right. rewrite Hfail. apply list_elem_of_omap. exists (e, out_failed er). cbn. by rewrite Hn.
  - destruct Hrules as [[-> Hr]|(-> & -> & Hf0 & Hns)]; [left; split; [done|]; destruct Hr as [?|Hr]; [by left | right; destruct r; [done | by eexists]]|].
    right. split; [done|]. split; [done|]. split; [done|]. intros e He Hd Hsn%isSafeName_spec.
    destruct (Hdone Hf0 Hns e) as [Hno|(e' & b & He' & Hn' & Hb' & Hd')]; [apply elem_filter_bool; by rewrite Hd | done | |].
    + left. rewrite Hget in Hno. intros Ho%needsSync_spec. congruence.
    + right. exists e', b. by apply elem_filter_bool in He' as [? _].
Qed.
End ServiceSpec.

(** ** A concrete run *)

(** A file URI that escapes only the escape character. *)
Definition escape_percent (s : jstr) : jstr := s ≫= (fun c => if c =? 37 then js "%25" else [c]).
Lemma decode_escape_percent s rest t : decodeURIComponent rest = Some t -> decodeURIComponent (escape_percent s ++ rest) = Some (s ++ t).
Proof.
  intros E. induction s as [|c s IH]; [done|]. unfold escape_percent. rewrite bind_cons. fold (escape_percent s). rewrite <- app_assoc.
  destruct (c =? 37) eqn:Ec; breflect.
  - subst c. change (js "%25") with (uri_escape 37). by rewrite (uri_decode_escape 37 _ _ eq_refl IH).
  - unfold decodeURIComponent in *. cbn [app length uri_decode]. rewrite (proj2 (Z.eqb_neq c 37)) by done. by rewrite IH.
Qed.
Definition sample_file_uri (dir name : jstr) : jstr := file_scheme ++ escape_percent (pathFromFileUri dir) ++ slash :: escape_percent name.
Lemma sample_file_uri_path dir name : pathFromFileUri (sample_file_uri dir name) = pathFromFileUri dir ++ slash :: name.
Proof.
  unfold sample_file_uri, pathFromFileUri at 1. rewrite strip_scheme_app.
  rewrite (decode_escape_percent _ _ (slash :: name)); [done|]. apply decode_slash.
  rewrite <- (app_nil_r (escape_percent name)), (decode_escape_percent name [] []) by done. by rewrite app_nil_r.
Qed.

Definition sample_sync_host : SyncHost := {|
  sh_transport _ q := Ok {| rs_status := 200; rs_headers := [];
    rs_bodyText := ser (JObj [(js "entries", JArr
      [JObj [(js "name", JStr (js "a.txt")); (js "path", JStr (js "/d/a.txt")); (js "size", JNum 3)];
       JObj [(js "name", JStr (js "..")); (js "path", JStr (js "/d/.."))]])]) |};
  sh_download _ _ := Ok (200, [1; 2; 3]);
  sh_copy _ := Ok (Some 3, None);
  sh_delete _ := true;
  sh_file_uri := sample_file_uri;
  sh_stage _ := js "file:///cache/sync/r";
  sh_cancelled := None;
  sh_now := js "2026-10-01T00:00:00Z" |}.
Definition sample_rule : SyncRule := {|
  rule_id := js "r"; rule_hostId := js "h"; rule_remotePath := js "/d"; rule_localPath := js "/m"; rule_enabled := true; rule_lastSync := None |}.
Definition sample_sync_state : SyncState := {|
  sy_services := {|
    sv_disk := {| kv := [(HOSTS_KEY, ser (JArr [hostToJson sample_client_host]))];
                  secure := [(SecureKeys.fingerprint (js "h"), replicate 64 97); (SecureKeys.token (js "h"), js "t")];
                  cleaned := []; faults := [] |};
    sv_net := {| addrIndex := 0; lastGoodRoute := []; sent := [] |} |};
  sy_staged := []; sy_folder := [(js "b.txt", {| lf_size := Some 1; lf_modified := None; lf_body := [9] |})];
  sy_fetched := []; sy_copies := 0; sy_checks := 0; sy_progress := [] |}.

Lemma syncRule_correct_witness :
  let U := ascii_unicode in let J := plain_codec in let D : DateParse := fun _ => Some 0 in
  exists s' r, syncRule sample_sync_host 3 sample_rule sample_sync_state = (s', Ok r) /\
    downloaded r = 1%nat /\ skipped r = 1%nat /\
    folder_body s' (js "a.txt") = Some [1; 2; 3] /\ folder_body s' (js "b.txt") = Some [9] /\
    (forall n, folder_body s' n = folder_body sample_sync_state n \/ exists client e b, folder_body s' n = Some b /\ downloaded_body sample_sync_host client e b).
Proof.
  intros U J D. destruct (syncRule sample_sync_host 3 sample_rule sample_sync_state) as [s' [r|e]] eqn:E; [|vm_compute in E; discriminate E].
  exists s', r. split; [reflexivity|].
  assert (failed r = [] /\ downloaded r = 1%nat /\ skipped r = 1%nat /\ folder_body s' (js "a.txt") = Some [1; 2; 3] /\ folder_body s' (js "b.txt") = Some [9]) as (Hf & Hv).
  { pose proof E as E2. vm_compute in E2. injection E2 as <- <-. vm_compute. repeat split. }
  split_and!; try apply Hv.
  destruct (syncRule_correct sample_sync_host (fun dir name _ _ => sample_file_uri_path dir name)
    (fun id => utf16_textb_true (pathFromFileUri (sh_stage sample_sync_host id)) eq_refl) ltac:(intros c k H; discriminate H)
    3 sample_rule sample_sync_state s' (Ok r) ltac:(eexists; reflexivity) ltac:(apply NoDup_cons; split; [apply not_elem_of_nil | apply NoDup_nil; exact I]) E)
    as [((e & He) & _)|(sa & host & client & s1 & s2 & entries & res & Ha & Hb & _ & Hl & H)]; [discriminate He|].
  assert (Forall (fun e => utf16_text (entry_name e)) entries) as Hu.
  { vm_compute in Ha. injection Ha as <- <-. vm_compute in Hb. injection Hb as <- <-. vm_compute in Hl. injection Hl as _ <-.
    repeat (apply List.Forall_cons; [apply utf16_textb_true; vm_compute; reflexivity|]). apply List.Forall_nil. }
  destruct (H Hu) as [Hn Hr]. assert (failed res = []) as Hf'.
  { destruct Hr as [[_ [Er|[e Er]]]|(_ & Er & _)]; [|discriminate Er|]; injection Er as ->; exact Hf. }
  intros n. destruct (Hn n) as [?|(e & _ & _ & _ & _ & _ & [(b & Hbb & Hd)|Hin])]; [left; assumption| |].
  - right. exists client, e, b. split; [exact Hbb | exact Hd].
  - rewrite Hf' in Hin. apply elem_of_nil in Hin. destruct Hin.
Defined.
