(* ===== verification/PhotoBackup.v ===== *)
(** * Photo backup

    [features/photoBackup]: paths, keys and the staging budget, the preferences and the
    record of backed-up photos ([photoBackupLogic.ts]), and one backup run over the media
    library, the agent and the native transfer engine ([photoBackupService.ts]).  The media
    library, the battery, the network and the file system are parameters; the transfer
    engine is an interface with the laws a run relies on. *)

From Stdlib Require Import ZArith Lia Bool.
From Stdlib Require List.
From S2P Require Import Prelude JsCollections JsString Json Errors Models Host Utf8 AgentClient Storage HostStore Services Transfers.
Local Open Scope js_scope.

(** ** Paths and keys *)

Definition two (n : Z) : jstr := pad_start 2 48 (string_of_Z n).
(** [while (root.length > 1 && root.endsWith('/')) root = root.slice(0, -1)], on the reversed text. *)
Fixpoint strip_slashes (rev : jstr) : jstr :=
  match rev with
  | c :: ((_ :: _) as r) => if c =? slash then strip_slashes r else rev
  | _ => rev
  end.
(** The date is the photo's local year and month (from 0). *)
Definition backupRemotePath (destRoot : jstr) (year month : Z) (name deviceSegment : jstr) : jstr :=
  let y := string_of_Z year in
  let ym := y ++ js "-" ++ two (month + 1) in
  let root := reverse (strip_slashes (reverse destRoot)) in
  let root := if bool_decide (root = [slash]) then [] else root in
  let dates := match deviceSegment with [] => y ++ [slash] ++ ym | _ => deviceSegment ++ [slash] ++ y ++ [slash] ++ ym end in
  root ++ [slash] ++ dates ++ [slash] ++ name.

Definition pendingIds (all backedUp : list jstr) : list jstr := List.filter (fun id => negb (set_has id backedUp)) all.
Definition albumsToScan (available selected : list jstr) : list jstr :=
  match selected with [] => available | _ => List.filter (fun id => set_has id selected) available end.
(** Two reads of the length taken apart agree and are not zero. *)
Definition isFileStable (first second : Z) : bool := if first <=? 0 then false else second =? first.

Definition unsafe_char (c : jchar) : bool :=
  is_control c || List.existsb (Z.eqb c) (backslash :: slash :: colon :: js "*?" ++ quote :: js "<>|").
Definition dot_or_space (c : jchar) : bool := (c =? dot) || is_space c.
Definition sanitizeSegment (name : jstr) : jstr :=
  let s := (fun c => if unsafe_char c then 95 else c) <$> name in
  let s := drop_while_end dot_or_space (drop_while dot_or_space s) in
  let s := if (64 <? length s)%nat then take 64 s else s in
  match s with [] => js "device" | _ => s end.
(** [/\.([A-Za-z0-9]{1,5})$/]. *)
Definition safeExtension (title : jstr) : jstr :=
  let ext := reverse (take_while is_alnum (reverse title)) in
  match drop_while is_alnum (reverse title) with
  | c :: _ => if (c =? dot) && (1 <=? length ext)%nat && (length ext <=? 5)%nat then dot :: ext else js ".jpg"
  | [] => js ".jpg"
  end.

Definition ID_PREFIX : jstr := js "pb".
Definition safe_id_char (c : jchar) : bool := is_alnum c || (c =? 95) || (c =? 45).
Definition assetKey (assetId : jstr) : jstr :=
  match reverse (take_while is_digit (reverse assetId)) with
  | [] => (fun c => if safe_id_char c then c else 95) <$> assetId
  | digits => digits
  end.
Definition backupTransferId (assetId : jstr) : jstr := ID_PREFIX ++ js "-" ++ assetKey assetId.
Definition assetIdFromTransferId (id : jstr) : option jstr :=
  if starts_with (ID_PREFIX ++ js "-") id && nonempty id && List.forallb safe_id_char id then Some (drop 3 id) else None.

Definition isAlreadyOnHost (r : TransferRecord) : bool :=
  bool_decide (tr_state r = FAILED) && bool_decide (tr_error r = Some (js "CONFLICT")).
Definition MAX_STAGED_PHOTOS : nat := 100.
(** A queued, running, paused or failed photo upload: it keeps its copy. *)
Definition holds_copy (r : TransferRecord) : bool :=
  is_some (assetIdFromTransferId (tr_id r)) && negb (bool_decide (tr_state r = DONE)) &&
  negb (bool_decide (tr_state r = CANCELLED)) && negb (isAlreadyOnHost r).
Definition held (records : list TransferRecord) : nat := length (List.filter holds_copy records).
Definition stagingBudget (records : list TransferRecord) (max : nat) : nat := (max - held records)%nat.

(** ** Preferences and the record *)

Record PhotoBackupPrefs := {
  pp_enabled : bool; pp_hostId : option jstr; pp_deviceName : option jstr; pp_wifiOnly : bool;
  pp_chargingOnly : bool; pp_albumIds : list jstr; pp_scheduled : bool
}.
Definition K_enabled : jstr := js "rfe_photo_backup_enabled".
Definition K_host : jstr := js "rfe_photo_backup_host".
Definition K_deviceName : jstr := js "rfe_photo_backup_device_name".
Definition K_wifiOnly : jstr := js "rfe_photo_backup_wifi_only".
Definition K_chargingOnly : jstr := js "rfe_photo_backup_charging_only".
Definition K_albums : jstr := js "rfe_photo_backup_albums".
Definition K_scheduled : jstr := js "rfe_photo_backup_scheduled".
Definition K_done : jstr := js "rfe_photo_backup_done".

Section Store.
Context `{J : JsonCodec}.
Definition parse_raw (raw : option jstr) : option json :=
  match raw with None => None | Some r => Some (default (JStr r) (json_parse r)) end.
Definition asBool (v : option json) (d : bool) : bool :=
  match v with
  | Some (JBool b) => b
  | Some (JStr s) => if bool_decide (s = js "true") then true else if bool_decide (s = js "false") then false else d
  | _ => d
  end.
Definition asString (v : option json) : option jstr := truthy (as_str v).
Definition asStrings (v : option json) : list jstr := strings_of (as_arr v).

Definition get_pref (k : jstr) : IO (option json) := raw <- KeyValueStore.get k;; ret (parse_raw raw).
Definition load : IO PhotoBackupPrefs :=
  enabled <- get_pref K_enabled;; hostId <- get_pref K_host;; deviceName <- get_pref K_deviceName;;
  wifiOnly <- get_pref K_wifiOnly;; chargingOnly <- get_pref K_chargingOnly;; albums <- get_pref K_albums;;
  scheduled <- get_pref K_scheduled;;
  ret {| pp_enabled := asBool enabled false; pp_hostId := asString hostId; pp_deviceName := asString deviceName;
         pp_wifiOnly := asBool wifiOnly true; pp_chargingOnly := asBool chargingOnly false;
         pp_albumIds := asStrings albums; pp_scheduled := asBool scheduled false |}.
Definition set_pref (k : jstr) (v : json) : IO unit := KeyValueStore.set k (json_stringify v).
Definition set_text (k : jstr) (v : option jstr) : IO unit :=
  match truthy v with Some s => set_pref k (JStr s) | None => KeyValueStore.remove k end.
Definition save (p : PhotoBackupPrefs) : IO unit :=
  set_pref K_enabled (JBool (pp_enabled p));; set_pref K_wifiOnly (JBool (pp_wifiOnly p));;
  set_pref K_chargingOnly (JBool (pp_chargingOnly p));; set_pref K_albums (JArr (JStr <$> pp_albumIds p));;
  set_pref K_scheduled (JBool (pp_scheduled p));; set_text K_host (pp_hostId p);; set_text K_deviceName (pp_deviceName p).
Definition done_set (raw : option jstr) : list jstr := set_of (asStrings (parse_raw raw)).
Definition doneIds : IO (list jstr) := raw <- KeyValueStore.get K_done;; ret (done_set raw).
Definition markDone (ids : list jstr) : IO unit :=
  match ids with
  | [] => ret tt
  | _ =>
      done <- doneIds;;
      let done' := fold_left (fun s id => set_add id s) ids done in
      if (length done' =? length done)%nat then ret tt else KeyValueStore.set K_done (json_stringify (JArr (JStr <$> done')))
  end.
Definition clearDone : IO unit := KeyValueStore.remove K_done.
End Store.

(** ** The transfer engine *)

Record UploadJob := { uj_id : jstr; uj_hostId : jstr; uj_address : jstr; uj_localPath : jstr; uj_remotePath : jstr; uj_overwrite : bool; uj_deleteSource : bool }.
Definition own (id : jstr) (records : list TransferRecord) : list TransferRecord :=
  List.filter (fun r => bool_decide (tr_id r = id)) records.
Definition others (id : jstr) (records : list TransferRecord) : list TransferRecord :=
  List.filter (fun r => negb (bool_decide (tr_id r = id))) records.

(** The native engine: its records, keyed by id, and the calls a run makes.  A call touches
    only the record of its id; [remove] drops it or leaves it; a rejected [enqueueUpload]
    leaves the records as they were. *)
Class TransferEngine (T : Type) := {
  te_list : T -> list TransferRecord;
  te_resume : jstr -> T -> T * result jserror unit;
  te_remove : jstr -> T -> T * result jserror unit;
  te_enqueueUpload : UploadJob -> T -> T * result jserror unit;
  te_ids t : NoDup (tr_id <$> te_list t);
  te_resume_others id t : others id (te_list (te_resume id t).1) = others id (te_list t);
  te_remove_others id t : others id (te_list (te_remove id t).1) = others id (te_list t);
  te_remove_own id t : own id (te_list (te_remove id t).1) = own id (te_list t) \/ own id (te_list (te_remove id t).1) = [];
  te_enqueue_others j t : others (uj_id j) (te_list (te_enqueueUpload j t).1) = others (uj_id j) (te_list t);
  te_enqueue_rejected j t e : (te_enqueueUpload j t).2 = Err e ->
    te_list (te_enqueueUpload j t).1 = te_list t
}.

(** ** One run *)

Record Asset := {
  as_id : jstr; as_sizes : Z * Z; as_filename : jstr; as_created : Z * Z   (** year, month from 0 *)
}.
Inductive Step := st_uri | st_size | st_name | st_time | st_mkdir | st_copy.
(** The phone around a run: what its libraries answer, and which steps on a photo throw. *)
Record Phone := {
  ph_transport : Transport;
  ph_networks : result jserror (list jstr);
  ph_charging : result jserror bool;                        (** charging or full *)
  ph_access : bool -> result jserror bool;                  (** asked interactively, or only checked *)
  ph_albums : result jserror (list jstr);
  ph_images : jstr -> result jserror (list Asset);
  ph_deviceId : result jserror (option jstr);
  ph_exists : jstr -> bool;                                 (** a staged copy is still there *)
  ph_throws : Asset -> Step -> option jserror;
  ph_path : jstr -> jstr -> jstr                            (** native path of a file in the staging directory of an id *)
}.
Record PhotoState (T : Type) := {
  pt_services : Services;
  pt_engine : T;
  pt_dirs : list jstr                                       (** staging directories, by transfer id *)
}.
Arguments pt_services {T}. Arguments pt_engine {T}. Arguments pt_dirs {T}.

Inductive SkipReason := skip_wifi | skip_charging | skip_unreachable | skip_policy.
Inductive BackupResult :=
| enqueued (count : nat) | upToDate | incomplete (count : nat)
| disabled | notConfigured | permissionDenied | serverNotConfigured
| backup_skipped (reason : SkipReason) (host : option jstr).

(** What became of one photo. *)
Inductive AssetOutcome := ao_recorded | ao_inflight | ao_resumed | ao_deferred | ao_unstable | ao_enqueued | ao_failed.

Section Run.
Context `{U : Unicode} `{J : JsonCodec} `{D : DateParse} {T : Type} `{E : !TransferEngine T} (ph : Phone).
Notation Ph := (M (PhotoState T) jserror).

Definition on_svc {A} (m : Svc A) : Ph A := fun s =>
  let (v, r) := m (pt_services s) in ({| pt_services := v; pt_engine := pt_engine s; pt_dirs := pt_dirs s |}, r).
Definition on_engine {A} (f : T -> T * result jserror A) : Ph A := fun s =>
  let (t, r) := f (pt_engine s) in ({| pt_services := pt_services s; pt_engine := t; pt_dirs := pt_dirs s |}, r).
Definition set_dirs (f : list jstr -> list jstr) : Ph unit :=
  modify (fun s => {| pt_services := pt_services s; pt_engine := pt_engine s; pt_dirs := f (pt_dirs s) |}).
Definition step (a : Asset) (k : Step) : Ph unit := match ph_throws ph a k with Some e => throw e | None => ret tt end.

(** What the loop over pending photos reads. *)
Record RunContext := {
  rc_existing : list (jstr * TransferRecord); rc_hostId : jstr; rc_address : jstr; rc_root : jstr; rc_segment : jstr
}.
Definition resumable (c : RunContext) (prior : option TransferRecord) : bool :=
  match prior with
  | Some r => match tr_state r with FAILED | PAUSED => bool_decide (tr_address r = rc_address c) && ph_exists ph (tr_destPath r) | _ => false end
  | None => false
  end.
Definition finished_upload (r : TransferRecord) : bool := bool_decide (tr_state r = DONE) || isAlreadyOnHost r.
Definition in_flight (r : TransferRecord) : bool := match tr_state r with FAILED | PAUSED | CANCELLED => false | _ => true end.
Definition asset_job (c : RunContext) (a : Asset) (id name : jstr) : UploadJob := {|
  uj_id := id; uj_hostId := rc_hostId c; uj_address := rc_address c; uj_localPath := ph_path ph id name;
  uj_remotePath := backupRemotePath (rc_root c) (as_created a).1 (as_created a).2 name (rc_segment c);
  uj_overwrite := false; uj_deleteSource := true |}.
(** Copying a photo into its staging directory and queueing the upload; a failure removes the directory. *)
Definition stage_and_queue (c : RunContext) (a : Asset) (id : jstr) : Ph AssetOutcome :=
  step a st_name;; step a st_time;; step a st_mkdir;; set_dirs (set_add id);;
  catch (step a st_copy;;
         on_engine (te_enqueueUpload (asset_job c a id (assetKey (as_id a) ++ safeExtension (as_filename a))));; ret ao_enqueued)
        (fun _ => set_dirs (set_delete id);; ret ao_failed).
Definition backup_asset (c : RunContext) (budget : nat) (a : Asset) : Ph AssetOutcome :=
  let id := backupTransferId (as_id a) in
  let prior := map_get id (rc_existing c) in
  catch
    (if match prior with Some r => finished_upload r | None => false end
     then on_svc (on_sdisk (markDone [assetKey (as_id a)]));; ret ao_recorded
     else if match prior with Some r => in_flight r | None => false end then ret ao_inflight
     else if resumable c prior then on_engine (te_resume id);; ret ao_resumed
     else if (budget =? 0)%nat then ret ao_deferred
     else
       match prior with Some _ => on_engine (te_remove id) | None => ret tt end;;
       step a st_uri;; step a st_size;;
       if negb (isFileStable (as_sizes a).1 (as_sizes a).2) then ret ao_unstable else stage_and_queue c a id)
    (fun _ => ret ao_failed).

Record Tally := { tl_budget : nat; tl_count : nat; tl_failed : nat; tl_deferred : bool }.
(** The loop: it stops at the first photo the staging budget has no room for.  It never throws. *)
Fixpoint backup_loop (c : RunContext) (pending : list Asset) (t : Tally) (s : PhotoState T) : PhotoState T * Tally :=
  match pending with
  | [] => (s, t)
  | a :: rest =>
      let (s', r) := backup_asset c (tl_budget t) a s in
      match r with
      | Ok ao_resumed =>
          backup_loop c rest {| tl_budget := tl_budget t; tl_count := S (tl_count t); tl_failed := tl_failed t; tl_deferred := tl_deferred t |} s'
      | Ok ao_enqueued =>
          backup_loop c rest {| tl_budget := pred (tl_budget t); tl_count := S (tl_count t); tl_failed := tl_failed t; tl_deferred := tl_deferred t |} s'
      | Ok ao_deferred => (s', {| tl_budget := tl_budget t; tl_count := tl_count t; tl_failed := tl_failed t; tl_deferred := true |})
      | Ok ao_failed | Err _ =>
          backup_loop c rest {| tl_budget := tl_budget t; tl_count := tl_count t; tl_failed := S (tl_failed t); tl_deferred := tl_deferred t |} s'
      | Ok _ => backup_loop c rest t s'
      end
  end.
Definition backup_result (pending : nat) (t : Tally) : BackupResult :=
  if (0 <? tl_count t)%nat then enqueued (tl_count t)
  else if tl_deferred t then incomplete pending
  else if (0 <? tl_failed t)%nat then incomplete (tl_failed t) else upToDate.

(** The photos of the albums to scan, each once. *)
Fixpoint collect_assets (albums wanted : list jstr) (acc : list Asset) : result jserror (list Asset) :=
  match albums with
  | [] => Ok acc
  | al :: rest =>
      if set_has al wanted then
        match ph_images ph al with
        | Err e => Err e
        | Ok l => collect_assets rest wanted
                    (fold_left (fun acc a => if set_has (as_id a) (as_id <$> acc) then acc else acc ++ [a]) l acc)
        end
      else collect_assets rest wanted acc
  end.
Definition records_by_id (records : list TransferRecord) : list (jstr * TransferRecord) :=
  fold_left (fun m r => map_set (tr_id r) r m) records [].

(** The queueing half of a run, once the destination is known. *)
Definition run_pending (prefs : PhotoBackupPrefs) (host : Host) (client : Client) (root : jstr) : Ph BackupResult :=
  albums <- lift (ph_albums ph);;
  assets <- lift (collect_assets albums (set_of (albumsToScan albums (set_of (pp_albumIds prefs)))) []);;
  done <- on_svc (on_sdisk doneIds);;
  let pending := List.filter (fun a => negb (set_has (assetKey (as_id a)) done)) assets in
  match pending with
  | [] => ret upToDate
  | _ =>
      segment <- match truthy (trim <$> pp_deviceName prefs) with
                 | Some nickname => ret (sanitizeSegment nickname)
                 | None => id <- lift (ph_deviceId ph);; ret (match id with Some d => take 8 d | None => js "phone" end)
                 end;;
      fun s =>
        let records := te_list (pt_engine s) in
        let c := {| rc_existing := records_by_id records; rc_hostId := host_id host;
                    rc_address := activeAddress client (sv_net (pt_services s)); rc_root := root; rc_segment := segment |} in
        let (s', t) := backup_loop c pending {| tl_budget := stagingBudget records MAX_STAGED_PHOTOS; tl_count := 0; tl_failed := 0; tl_deferred := false |} s in
        (s', Ok (backup_result (length pending) t))
  end.
(** Where to back up to, as the computer says now. *)
Definition destination (host : Host) (client : Client) : Ph (jstr + BackupResult) := fun s =>
  match on_svc (on_snet (status (ph_transport ph) client)) s with
  | (s', Err _) => (s', Ok (inr (backup_skipped skip_unreachable (Some (host_label host)))))
  | (s', Ok st) =>
      let root := status_photoBackupRoot st in
      (s', Ok (if negb (status_photoBackupConfigured st || nonempty root) then inr serverNotConfigured
               else if negb (default (nonempty root) (status_photoBackupAvailable st)) || negb (nonempty root)
                    then inr (backup_skipped skip_policy (Some (host_label host))) else inl root))
  end.
Definition runPhotoBackupOnce (interactive : bool) : Ph BackupResult :=
  prefs <- on_svc (on_sdisk load);;
  if negb (pp_enabled prefs) then ret disabled else
  match pp_hostId prefs with
  | None => ret notConfigured
  | Some hostId =>
      nets <- (if pp_wifiOnly prefs then lift (ph_networks ph) else ret [js "wifi"]);;
      if negb (set_has (js "wifi") nets) && negb (set_has (js "ethernet") nets) then ret (backup_skipped skip_wifi None) else
      charging <- (if pp_chargingOnly prefs then lift (ph_charging ph) else ret true);;
      if negb charging then ret (backup_skipped skip_charging None) else
      granted <- lift (ph_access ph interactive);;
      if negb granted then ret permissionDenied else
      hosts <- on_svc (on_sdisk listHosts);;
      match host_of hostId hosts with
      | None => ret notConfigured
      | Some host =>
          client <- on_svc (clientForHost host false None);;
          dest <- destination host client;;
          match dest with inr r => ret r | inl root => run_pending prefs host client root end
      end
  end.
(** A caller that can ask does so where the shared run could not. *)
Definition runPhotoBackup (shared : bool -> Ph BackupResult) (interactive : bool) : Ph BackupResult :=
  r <- shared interactive;;
  match r with permissionDenied => if interactive then shared interactive else ret r | _ => ret r end.

(** [watchPhotoBackup]: what an update of the transfer list records. *)
Definition noted_ids (records : list TransferRecord) : list jstr :=
  omap (fun r => assetIdFromTransferId (tr_id r)) (List.filter (fun r => finished_upload r && isUpload r) records).
Definition note_records (records : list TransferRecord) : IO unit := attempt (markDone (noted_ids records)) tt.
End Run.

(** ** Keys *)

Lemma take_while_all {A} (P : A -> bool) s : Forall (fun c => P c = true) (take_while P s).
Proof. induction s as [|c s IH]; simpl; [constructor|]. destruct (P c) eqn:E; [by constructor | constructor]. Qed.
Lemma safe_digit c : is_digit c = true -> safe_id_char c = true.
Proof. unfold safe_id_char, is_alnum. intros ->. by rewrite orb_true_r. Qed.
Lemma assetKey_safe a : Forall (fun c => safe_id_char c = true) (assetKey a).
Proof.
  unfold assetKey. destruct (reverse (take_while is_digit (reverse a))) eqn:E.
  - apply Forall_forall. intros c (x & -> & _)%list_elem_of_fmap. by destruct (safe_id_char x) eqn:Ex.
  - rewrite <- E. apply Forall_reverse. eapply Forall_impl; [apply take_while_all | apply safe_digit].
Qed.
Lemma key_of_transfer a : assetIdFromTransferId (backupTransferId a) = Some (assetKey a).
Proof.
  unfold assetIdFromTransferId, backupTransferId. rewrite app_assoc, starts_with_app.
  assert (List.forallb safe_id_char ((ID_PREFIX ++ js "-") ++ assetKey a) = true) as ->; [|done].
  apply forallb_forall_true, Forall_app. split; [by repeat constructor | apply assetKey_safe].
Qed.
Lemma transfer_id_key a b : backupTransferId a = backupTransferId b -> assetKey a = assetKey b.
Proof. intros E. pose proof (key_of_transfer a) as H. rewrite E, key_of_transfer in H. by injection H. Qed.

(** ** Records held *)

Lemma held_split id l : held l = (held (others id l) + length (List.filter holds_copy (own id l)))%nat.
Proof.
  unfold held, others, own. induction l as [|r l IH]; [done|]. cbn [List.filter]. destruct (bool_decide (tr_id r = id)); cbn [negb List.filter];
    destruct (holds_copy r); cbn [length]; lia.
Qed.
Lemma own_short id l : NoDup (tr_id <$> l) -> (length (own id l) <= 1)%nat.
Proof.
  unfold own. induction l as [|r l IH]; [simpl; lia|]. rewrite fmap_cons, NoDup_cons. intros [Hn Hd]. cbn [List.filter].
  destruct (bool_decide (tr_id r = id)) eqn:E; [|by apply IH]. breflect. subst id.
  assert (List.filter (fun x => bool_decide (tr_id x = tr_id r)) l = []) as ->; [|done].
  clear IH Hd. induction l as [|x l IH]; [done|]. rewrite fmap_cons, not_elem_of_cons in Hn. destruct Hn as [Hx Hn]. cbn [List.filter].
  rewrite bool_decide_false by congruence. by apply IH.
Qed.
Lemma filter_holds_short l : (length (List.filter holds_copy l) <= length l)%nat.
Proof. induction l as [|r l IH]; [done|]. cbn [List.filter]. destruct (holds_copy r); cbn [length]; lia. Qed.
Lemma own_others id id' l : id <> id' -> own id (others id' l) = own id l.
Proof.
  intros Hne. unfold own, others. induction l as [|r l IH]; [done|]. cbn [List.filter].
  destruct (bool_decide (tr_id r = id')) eqn:E'; cbn [negb List.filter].
  - breflect. rewrite (bool_decide_false (tr_id r = id)) by congruence. exact IH.
  - by destruct (bool_decide (tr_id r = id)); rewrite IH.
Qed.

Section RunSpec.
Context `{U : Unicode} `{J : JsonCodec} `{D : DateParse} {T : Type} `{E : !TransferEngine T} (ph : Phone).

Lemma own_records id (t : T) : own id (te_list t) = match map_get id (records_by_id (te_list t)) with Some r => [r] | None => [] end.
Proof.
  unfold records_by_id. pose proof (te_ids t) as Hn. generalize (te_list t) Hn. intros l Hl. clear Hn.
  assert (forall m, (forall r, r ∈ l -> map_get (tr_id r) m = None) ->
    map_get id (fold_left (fun m r => map_set (tr_id r) r m) l m) = match own id l with r :: _ => Some r | [] => map_get id m end) as H.
  { induction l as [|r l IH]; intros m Hm; [done|]. rewrite fmap_cons, NoDup_cons in Hl. destruct Hl as [Hr Hl]. cbn [fold_left].
    rewrite IH; [|done|].
    - unfold own. cbn [List.filter]. destruct (bool_decide (tr_id r = id)) eqn:Eb; breflect.
      + subst id. rewrite map_get_set_eq. pose proof (own_short (tr_id r) (r :: l)) as Hs. rewrite fmap_cons, NoDup_cons in Hs.
        unfold own in Hs. cbn [List.filter] in Hs. rewrite bool_decide_true in Hs by done. cbn [length] in Hs.
        specialize (Hs (conj Hr Hl)). destruct (List.filter _ l); [done | simpl in Hs; lia].
      + destruct (List.filter _ l); [|done]. by rewrite map_get_set_ne.
    - intros x Hx. rewrite map_get_set_ne; [apply Hm; by right|]. intros Ex. apply Hr. rewrite Ex. by apply list_elem_of_fmap_2. }
  rewrite H by (intros; done). pose proof (own_short id l Hl). destruct (own id l) as [|r [|]]; [done | done | simpl in *; lia].
Qed.

(** What one photo may do to the engine. *)
Definition touches_only (id : jstr) (grow : nat) (t t' : T) : Prop :=
  others id (te_list t') = others id (te_list t) /\ (held (te_list t') <= held (te_list t) + grow)%nat.
Lemma touches_refl id t : touches_only id 0 t t.
Proof. split; [done | lia]. Qed.
Lemma touches_held id t t' : others id (te_list t') = others id (te_list t) ->
  List.filter holds_copy (own id (te_list t)) <> [] -> touches_only id 0 t t'.
Proof.
  intros Ho Hh. split; [done|]. rewrite (held_split id (te_list t')), (held_split id (te_list t)), Ho.
  pose proof (own_short id (te_list t') (te_ids t')). pose proof (filter_holds_short (own id (te_list t'))).
  destruct (List.filter holds_copy (own id (te_list t))); [done | simpl; lia].
Qed.
Lemma touches_remove id t : touches_only id 0 t (te_remove id t).1.
Proof.
  split; [apply te_remove_others|]. rewrite (held_split id (te_list (te_remove id t).1)), (held_split id (te_list t)), te_remove_others.
  destruct (te_remove_own id t) as [->| ->]; simpl; lia.
Qed.
Lemma touches_enqueue j t : touches_only (uj_id j) 1 t (te_enqueueUpload j t).1.
Proof.
  split; [apply te_enqueue_others|]. set (t' := (te_enqueueUpload j t).1).
  rewrite (held_split (uj_id j) (te_list t')), (held_split (uj_id j) (te_list t)). unfold t' at 1. rewrite te_enqueue_others.
  pose proof (own_short (uj_id j) (te_list t') (te_ids t')). pose proof (filter_holds_short (own (uj_id j) (te_list t'))). lia.
Qed.
Lemma touches_trans id m n t1 t2 t3 : touches_only id m t1 t2 -> touches_only id n t2 t3 -> touches_only id (m + n) t1 t3.
Proof. intros [A B] [A' B']. split; [congruence | lia]. Qed.

(** *** The record of backed-up photos *)

Definition done_on (d : Disk) : list jstr := done_set (map_get K_done (kv d)).
Lemma done_set_written l : NoDup l -> done_set (Some (json_stringify (JArr (JStr <$> l)))) = l.
Proof.
  intros H. unfold done_set, parse_raw. rewrite json_roundtrip by apply strings_wf. change (set_of (strings_of (JStr <$> l)) = l).
  rewrite strings_of_map. by apply set_of_NoDup.
Qed.
Lemma elem_add_all (ids acc : list jstr) k : k ∈ fold_left (fun s id => set_add id s) ids acc <-> k ∈ ids \/ k ∈ acc.
Proof.
  revert acc. induction ids as [|i ids IH]; intros acc; cbn [fold_left]; [rewrite elem_of_nil; tauto|]. rewrite IH, elem_set_add, elem_of_cons. tauto.
Qed.
Lemma add_all_length (ids acc : list jstr) : NoDup acc -> length (fold_left (fun s id => set_add id s) ids acc) = length acc -> ids ⊆ acc.
Proof.
  intros Hn Hl. pose proof (NoDup_set_of_acc ids acc Hn) as Hd. intros k Hk.
  assert (acc ⊆+ fold_left (fun s id => set_add id s) ids acc) as Hsub.
  { apply NoDup_submseteq; [done|]. intros x Hx. apply elem_add_all. by right. }
  apply submseteq_length_Permutation in Hsub; [|lia]. rewrite Hsub. apply elem_add_all. by left.
Qed.
(** Marking adds the ids, or changes nothing. *)
Lemma markDone_spec ids d : let (d', r) := markDone ids d in
  secure d' = secure d /\ (done_on d' = done_on d /\ (r = Ok tt -> ids ⊆ done_on d) \/ (forall k, k ∈ done_on d' <-> k ∈ ids \/ k ∈ done_on d)).
Proof.
  unfold markDone. destruct ids as [|i ids]; [split; [done|]; left; split; [done|]; intros _ k Hk; by apply elem_of_nil in Hk|].
  unfold doneIds, KeyValueStore.get, KeyValueStore.set, bind, ret. io_step; [split; [done | by left]|]. cbn beta iota. cbn [kv with_faults].
  fold (done_on d). set (done' := fold_left _ _ (done_on d)).
  assert (NoDup (done_on d)) as Hn by (apply NoDup_set_of). assert (NoDup done') as Hn' by (by apply NoDup_set_of_acc).
  destruct (length done' =? length (done_on d))%nat eqn:El; breflect.
  - split; [done|]. left. split; [done|]. intros _. by apply add_all_length.
  - io_step; [split; [done | by left]|]. split; [done|]. right. intros k. unfold done_on at 1. cbn [kv with_kv with_faults].
    rewrite map_get_set_eq, done_set_written by done. apply elem_add_all.
Qed.

(** *** One photo *)

Definition st_disk (s : PhotoState T) : Disk := sv_disk (pt_services s).
Definition grows (o : AssetOutcome) : nat := match o with ao_enqueued => 1 | _ => 0 end.
(** What a photo's outcome says of the record its transfer had when the run began. *)
Definition outcome_fits (b : nat) (a : Asset) (prior : option TransferRecord) (o : AssetOutcome) : Prop :=
  match o with
  | ao_recorded => exists r, prior = Some r /\ finished_upload r = true
  | ao_inflight => exists r, prior = Some r /\ in_flight r = true
  | ao_resumed => exists r, prior = Some r /\ (tr_state r = FAILED \/ tr_state r = PAUSED)
  | ao_deferred => b = 0%nat
  | ao_enqueued => b <> 0%nat /\ forall r, prior = Some r -> finished_upload r = false /\ in_flight r = false
  | ao_unstable => isFileStable (as_sizes a).1 (as_sizes a).2 = false
  | ao_failed => True
  end.
Record AssetSpec (c : RunContext) (b : nat) (a : Asset) (s s' : PhotoState T) (o : AssetOutcome) : Prop := {
  sp_engine : touches_only (backupTransferId (as_id a)) (grows o) (pt_engine s) (pt_engine s');
  sp_fits : outcome_fits b a (map_get (backupTransferId (as_id a)) (rc_existing c)) o;
  sp_done k : k ∈ done_on (st_disk s') -> k ∈ done_on (st_disk s) \/
    k = assetKey (as_id a) /\ exists r, map_get (backupTransferId (as_id a)) (rc_existing c) = Some r /\ finished_upload r = true;
  sp_kept k : k ∈ done_on (st_disk s) -> k ∈ done_on (st_disk s');
  sp_marked : o = ao_recorded -> assetKey (as_id a) ∈ done_on (st_disk s');
  sp_dirs d : d ∈ pt_dirs s' -> d ∈ pt_dirs s \/ d = backupTransferId (as_id a) /\ o = ao_enqueued
}.
Lemma quiet_spec c b a s o : outcome_fits b a (map_get (backupTransferId (as_id a)) (rc_existing c)) o -> o <> ao_recorded -> o <> ao_enqueued ->
  AssetSpec c b a s s o.
Proof.
  intros Hf H1 H2. split; [|done| |done|done|]; [|intros; by left..]. destruct o; try done; apply touches_refl.
Qed.

(** The calls that only touch the engine. *)
Lemma engine_spec c b a s t o : touches_only (backupTransferId (as_id a)) (grows o) (pt_engine s) t ->
  outcome_fits b a (map_get (backupTransferId (as_id a)) (rc_existing c)) o -> o <> ao_recorded ->
  AssetSpec c b a s {| pt_services := pt_services s; pt_engine := t; pt_dirs := pt_dirs s |} o.
Proof. intros Ht Hf H1. split; try done; intros; by left. Qed.

Lemma stage_spec c b a s0 s : b <> 0%nat -> let id := backupTransferId (as_id a) in
  (forall r, map_get id (rc_existing c) = Some r -> finished_upload r = false /\ in_flight r = false) ->
  touches_only id 0 (pt_engine s0) (pt_engine s) -> pt_services s = pt_services s0 -> pt_dirs s = pt_dirs s0 ->
  let (s', r) := catch (stage_and_queue ph c a id) (fun _ => ret ao_failed) s in exists o, r = Ok o /\ AssetSpec c b a s0 s' o.
Proof.
  intros Hb id Hp Ht Hs Hd.
  assert (forall s', pt_engine s' = pt_engine s -> pt_services s' = pt_services s0 -> (forall d, d ∈ pt_dirs s' -> d ∈ pt_dirs s0) -> AssetSpec c b a s0 s' ao_failed) as Hfail.
  { intros s' He Hv Hd'. split; unfold st_disk; rewrite ?Hv, ?He; try done; intros; left; auto. }
  unfold catch, stage_and_queue, step, bind, ret, throw, set_dirs, modify, on_engine.
  destruct (ph_throws ph a st_name); [exists ao_failed; split; [done|]; apply Hfail; rewrite ?Hd; auto|].
  destruct (ph_throws ph a st_time); [exists ao_failed; split; [done|]; apply Hfail; rewrite ?Hd; auto|].
  destruct (ph_throws ph a st_mkdir); [exists ao_failed; split; [done|]; apply Hfail; rewrite ?Hd; auto|].
  destruct (ph_throws ph a st_copy); unfold catch.
  { exists ao_failed. split; [done|]. apply Hfail; simpl; [done..|]. intros d [Hne [H|H]%elem_set_add]%elem_set_delete; [done | by rewrite <- Hd]. }
  unfold catch. cbn [pt_engine]. set (j := asset_job ph c a id _). pose proof (touches_enqueue j (pt_engine s)) as He. pose proof (te_enqueue_rejected j (pt_engine s)) as Hr.
  destruct (te_enqueueUpload j (pt_engine s)) as [t [[]|e]]; cbn [fst snd pt_dirs pt_services pt_engine] in *.
  - exists ao_enqueued. split; [done|]. split; unfold st_disk; cbn [pt_services pt_engine pt_dirs]; rewrite ?Hs; try done.
    + exact (touches_trans id 0 1 _ _ _ Ht He).
    + intros; by left.
    + intros d [->|H]%elem_set_add; [by right | left; by rewrite <- Hd].
  - exists ao_failed. split; [done|]. specialize (Hr e eq_refl). split; unfold st_disk; cbn [pt_services pt_engine pt_dirs]; rewrite ?Hs; try done.
    + destruct Ht as [A B]. unfold touches_only. by rewrite Hr.
    + intros; by left.
    + intros d [Hne [H|H]%elem_set_add]%elem_set_delete; [done | left; by rewrite <- Hd].
Qed.

Lemma tail_spec c b a s0 s : b <> 0%nat -> let id := backupTransferId (as_id a) in
  (forall r, map_get id (rc_existing c) = Some r -> finished_upload r = false /\ in_flight r = false) ->
  touches_only id 0 (pt_engine s0) (pt_engine s) -> pt_services s = pt_services s0 -> pt_dirs s = pt_dirs s0 ->
  let (s', r) := catch (step ph a st_uri;; step ph a st_size;;
    if negb (isFileStable (as_sizes a).1 (as_sizes a).2) then ret ao_unstable else stage_and_queue ph c a id) (fun _ => ret ao_failed) s in
  exists o, r = Ok o /\ AssetSpec c b a s0 s' o.
Proof.
  intros Hb id Hp Ht Hs Hd. pose proof (stage_spec c b a s0 s Hb Hp Ht Hs Hd) as H.
  assert (forall o, outcome_fits b a (map_get id (rc_existing c)) o -> o <> ao_recorded -> o <> ao_enqueued -> AssetSpec c b a s0 s o) as Hq.
  { intros o Hf H1 H2. split; unfold st_disk; rewrite ?Hs, ?Hd; try done; try (intros; by left). by destruct o. }
  unfold catch, bind, step, throw, ret. destruct (ph_throws ph a st_uri); [exists ao_failed; split; [done|]; by apply Hq|].
  destruct (ph_throws ph a st_size); [exists ao_failed; split; [done|]; by apply Hq|].
  destruct (isFileStable _ _) eqn:Est; [exact H|]. exists ao_unstable. split; [done|]. by apply Hq.
Qed.
Lemma remembered_held id r (t : T) a : id = backupTransferId a -> own id (te_list t) = [r] ->
  tr_state r = FAILED \/ tr_state r = PAUSED -> finished_upload r = false -> List.filter holds_copy (own id (te_list t)) <> [].
Proof.
  intros Hid Ho Hst Hfin. rewrite Ho. cbn [List.filter]. enough (holds_copy r = true) as -> by done.
  assert (r ∈ own id (te_list t)) as Hr by (rewrite Ho; left). apply elem_filter_bool in Hr as [_ Hr]. breflect.
  unfold finished_upload in Hfin. apply orb_false_iff in Hfin as [_ Hfin]. unfold holds_copy. rewrite Hr, Hid, key_of_transfer, Hfin.
  by destruct Hst as [-> | ->].
Qed.
Lemma backup_asset_spec c b a s : let id := backupTransferId (as_id a) in
  own id (te_list (pt_engine s)) = match map_get id (rc_existing c) with Some r => [r] | None => [] end ->
  let (s', r) := backup_asset ph c b a s in exists o, r = Ok o /\ AssetSpec c b a s s' o.
Proof.
  intros id Hown. unfold backup_asset. fold id. set (prior := map_get id (rc_existing c)) in *.
  destruct (match prior with Some r => finished_upload r | None => false end) eqn:Efin.
  { destruct prior as [r|] eqn:Ep; [|done]. unfold catch, bind, on_svc, on_sdisk, ret.
    pose proof (markDone_spec [assetKey (as_id a)] (sv_disk (pt_services s))) as Hm.
    destruct (markDone _ _) as [d [[]|e]]; cbn [fst snd].
    - exists ao_recorded. split; [done|]. split; unfold st_disk; cbn [pt_services pt_engine pt_dirs sv_disk].
      + apply touches_refl.
      + exists r. by rewrite <- Ep.
      + intros k Hk. destruct Hm as (_ & [[Hd _]|Hm]); [left; by rewrite <- Hd|]. apply Hm in Hk as [Hk|Hk]; [|by left].
        right. split; [by apply list_elem_of_singleton in Hk|]. exists r. by rewrite <- Ep.
      + intros k Hk. destruct Hm as (_ & [[-> _]|Hm]); [done|]. apply Hm. by right.
      + intros _. destruct Hm as (_ & [[-> Hm]|Hm]); [apply Hm; [done | left]|]. apply Hm. left. left.
      + intros; by left.
    - exists ao_failed. split; [done|]. split; unfold st_disk; cbn [pt_services pt_engine pt_dirs sv_disk]; try done.
      + apply touches_refl.
      + intros k Hk. destruct Hm as (_ & [[Hd _]|Hm]); [left; by rewrite <- Hd|]. apply Hm in Hk as [Hk|Hk]; [|by left].
        right. split; [by apply list_elem_of_singleton in Hk|]. exists r. by rewrite <- Ep.
      + intros k Hk. destruct Hm as (_ & [[-> _]|Hm]); [done|]. apply Hm. by right.
      + intros; by left. }
  destruct (match prior with Some r => in_flight r | None => false end) eqn:Efly.
  { destruct prior as [r|] eqn:Ep; [|done]. exists ao_inflight. split; [done|]. apply quiet_spec; [|done..]. exists r. by rewrite <- Ep. }
  destruct (resumable ph c prior) eqn:Eres.
  { destruct prior as [r|] eqn:Ep; [|done]. assert (tr_state r = FAILED \/ tr_state r = PAUSED) as Hst.
    { unfold resumable in Eres. destruct (tr_state r); try done; auto. }
    pose proof (touches_held id (pt_engine s) (te_resume id (pt_engine s)).1 (te_resume_others _ _) (remembered_held id r _ _ eq_refl Hown Hst Efin)) as Ht.
    unfold catch, bind, on_engine, ret. destruct (te_resume id (pt_engine s)) as [t [[]|e]]; cbn [fst] in Ht.
    - exists ao_resumed. split; [done|]. apply engine_spec; [done| |done]. exists r. by rewrite <- Ep.
    - exists ao_failed. split; [done|]. by apply engine_spec. }
  destruct (b =? 0)%nat eqn:Eb; breflect; [exists ao_deferred; split; [done|]; by apply quiet_spec|].
  assert (forall r, prior = Some r -> finished_upload r = false /\ in_flight r = false) as Hp by (intros r E'; by rewrite E' in Efin, Efly).
  unfold catch, bind at 1. destruct prior as [r|] eqn:Ep.
  - pose proof (touches_remove id (pt_engine s)) as Ht. unfold on_engine. destruct (te_remove id (pt_engine s)) as [t [[]|e]]; cbn [fst] in Ht.
    + apply (tail_spec c b a s {| pt_services := pt_services s; pt_engine := t; pt_dirs := pt_dirs s |}); try done.
      intros r0 E0. apply Hp. rewrite <- Ep. exact E0.
    + exists ao_failed. split; [done|]. by apply engine_spec.
  - cbn [ret]. apply (tail_spec c b a s s); try done; [|apply touches_refl]. intros r0 E0. apply Hp. rewrite <- Ep. exact E0.
Qed.

(** *** The loop *)

Definition counted (o : AssetOutcome) : bool := match o with ao_resumed | ao_enqueued => true | _ => false end.
Definition is_failed (o : AssetOutcome) : bool := match o with ao_failed => true | _ => false end.
Definition is_deferred (o : AssetOutcome) : bool := match o with ao_deferred => true | _ => false end.
Definition tally (f : AssetOutcome -> bool) (outs : list AssetOutcome) : nat := length (List.filter f outs).
Lemma tally_cons f o outs : tally f (o :: outs) = ((if f o then 1 else 0) + tally f outs)%nat.
Proof. unfold tally. cbn [List.filter]. by destruct (f o). Qed.
Notation prior_of c a := (map_get (backupTransferId (as_id a)) (rc_existing c)).

Record LoopSpec (c : RunContext) (pending : list Asset) (t t' : Tally) (s s' : PhotoState T) (outs : list AssetOutcome) : Prop := {
  ls_len : (length outs <= length pending)%nat;
  ls_stop : (length outs < length pending)%nat -> tl_deferred t' = true;
  ls_held : (held (te_list (pt_engine s')) + tl_budget t' <= held (te_list (pt_engine s)) + tl_budget t)%nat;
  ls_count : tl_count t' = (tl_count t + tally counted outs)%nat;
  ls_failed : tl_failed t' = (tl_failed t + tally is_failed outs)%nat;
  ls_deferred : tl_deferred t' = tl_deferred t || List.existsb is_deferred outs;
  ls_fits : Forall (fun ao => exists b, outcome_fits b ao.1 (prior_of c ao.1) ao.2) (zip pending outs);
  ls_done k : k ∈ done_on (st_disk s') -> k ∈ done_on (st_disk s) \/
    exists a r, a ∈ pending /\ k = assetKey (as_id a) /\ prior_of c a = Some r /\ finished_upload r = true;
  ls_kept k : k ∈ done_on (st_disk s) -> k ∈ done_on (st_disk s');
  ls_marked a : (a, ao_recorded) ∈ zip pending outs -> assetKey (as_id a) ∈ done_on (st_disk s');
  ls_dirs d : d ∈ pt_dirs s' -> d ∈ pt_dirs s \/ exists a, (a, ao_enqueued) ∈ zip pending outs /\ d = backupTransferId (as_id a)
}.
Definition after (t : Tally) (o : AssetOutcome) : Tally := {|
  tl_budget := (tl_budget t - grows o)%nat; tl_count := (tl_count t + if counted o then 1 else 0)%nat;
  tl_failed := (tl_failed t + if is_failed o then 1 else 0)%nat; tl_deferred := tl_deferred t || is_deferred o |}.
Lemma loop_round c a rest t s s1 o : backup_asset ph c (tl_budget t) a s = (s1, Ok o) ->
  backup_loop ph c (a :: rest) t s = if is_deferred o then (s1, after t o) else backup_loop ph c rest (after t o) s1.
Proof.
  intros E1. cbn [backup_loop]. rewrite E1. destruct t as [tb tc tf td], o; unfold after; cbn; rewrite ?orb_false_r, ?orb_true_r, ?Nat.sub_0_r, ?Nat.add_0_r;
    rewrite <- ?Nat.sub_1_r, ?Nat.add_1_r; done.
Qed.
Lemma loop_cons c a rest t t' s s1 s' o outs : AssetSpec c (tl_budget t) a s s1 o -> is_deferred o = false ->
  LoopSpec c rest (after t o) t' s1 s' outs -> LoopSpec c (a :: rest) t t' s s' (o :: outs).
Proof.
  intros A Hd [L1 L2 L3 L4 L5 L6 L7 L8 L9 L10 L11]. destruct A as [[_ A1] A2 A3 A4 A5 A6]. cbn [after tl_budget tl_count tl_failed tl_deferred] in *.
  split; cbn [length zip zip_with]; rewrite ?tally_cons; [lia | intros; apply L2; lia | | lia | lia | | by constructor; [eexists|] | | auto | | ].
  - assert (grows o <= tl_budget t)%nat; [|lia]. destruct o; simpl; try lia. destruct A2 as [Hb _]. lia.
  - rewrite L6, Hd. cbn [List.existsb]. by rewrite Hd, orb_false_r.
  - intros k Hk. destruct (L8 k Hk) as [H|(a' & r & Hin & H)].
    + destruct (A3 k H) as [?|(-> & r & Hr)]; [by left|]. right. exists a, r. split; [left | done].
    + right. exists a', r. split; [by right | done].
  - intros a' [H|H]%elem_of_cons; [|by apply L10]. injection H as -> <-. apply L9. by apply A5.
  - intros d H. destruct (L11 d H) as [H'|(a' & Hin & ->)].
    + destruct (A6 d H') as [?|[-> ->]]; [by left|]. right. exists a. split; [left | done].
    + right. exists a'. split; [by right | done].
Qed.
Lemma backup_loop_spec c pending : NoDup ((fun a => assetKey (as_id a)) <$> pending) -> forall t s,
  (forall a, a ∈ pending -> own (backupTransferId (as_id a)) (te_list (pt_engine s)) = match prior_of c a with Some r => [r] | None => [] end) ->
  exists outs, LoopSpec c pending t (backup_loop ph c pending t s).2 s (backup_loop ph c pending t s).1 outs.
Proof.
  induction pending as [|a rest IH]; intros Hn t s Ho.
  { exists []. split; cbn; try done; try lia; [by rewrite orb_false_r | intros; by left | intros ? H; by apply elem_of_nil in H | intros; by left]. }
  rewrite fmap_cons, NoDup_cons in Hn. destruct Hn as [Ha Hn].
  pose proof (backup_asset_spec c (tl_budget t) a s (Ho a (list_elem_of_here _ _))) as H.
  destruct (backup_asset ph c (tl_budget t) a s) as [s1 r] eqn:E1. destruct H as (o & -> & A). rewrite (loop_round _ _ _ _ _ _ _ E1).
  destruct (is_deferred o) eqn:Ed.
  - exists [o]. destruct o; try done. destruct A as [[_ A1] A2 A3 A4 A5 A6]. split; cbn in *; try done; try lia; try (by rewrite ?orb_true_r, ?Nat.sub_0_r; lia || done).
    + rewrite zip_with_nil_r. constructor; [by eexists | constructor].
    + intros k Hk. destruct (A3 k Hk) as [?|(-> & r & Hr)]; [by left|]. right. exists a, r. split; [left | done].
    + intros a' Hin. rewrite zip_with_nil_r in Hin. apply list_elem_of_singleton in Hin. done.
    + intros d Hd. destruct (A6 d Hd) as [?|[_ ?]]; [by left | done].
  - destruct (IH Hn (after t o) s1) as [outs L]; [|exists (o :: outs); by eapply loop_cons].
    intros a' Hin. rewrite <- (Ho a' (list_elem_of_further _ _ _ Hin)).
    assert (backupTransferId (as_id a') <> backupTransferId (as_id a)) as Hne.
    { intros K. apply transfer_id_key in K. apply Ha. rewrite <- K. by apply (list_elem_of_fmap_2 (fun a => assetKey (as_id a))). }
    rewrite <- (own_others _ _ (te_list (pt_engine s1)) Hne), <- (own_others _ _ (te_list (pt_engine s)) Hne). f_equal. apply (sp_engine _ _ _ _ _ _ A).
Qed.

(** *** A whole run *)

(** The code before the loop reads: the engine, the staged copies and the stored data stay. *)
Definition Calm (s s' : PhotoState T) : Prop :=
  pt_engine s' = pt_engine s /\ pt_dirs s' = pt_dirs s /\ same_data (st_disk s') (st_disk s).
#[local] Instance Calm_preorder : PreOrder Calm.
Proof. split; [done|]. intros a b c (A & B & C) (A' & B' & C'). split_and!; [congruence | congruence | by etrans]. Qed.
Definition calm {A} (m : M (PhotoState T) jserror A) : Prop := forall s, Calm s (m s).1.
Lemma calm_svc {A} (m : Svc A) : (forall v, same_data (sv_disk (m v).1) (sv_disk v)) -> calm (on_svc m).
Proof. intros H s. unfold on_svc. specialize (H (pt_services s)). by destruct (m (pt_services s)). Qed.
Lemma calm_net {A} (m : M World jserror A) : calm (on_svc (on_snet m)).
Proof. apply calm_svc. intros v. unfold on_snet. by destruct (m (sv_net v)). Qed.
Lemma calm_disk {A} (m : IO A) : (forall d, same_data (m d).1 d) -> calm (on_svc (on_sdisk m)).
Proof. intros H. apply calm_svc. intros v. unfold on_sdisk. specialize (H (sv_disk v)). by destruct (m (sv_disk v)). Qed.
Lemma calm_lift {A} (r : result jserror A) : calm (lift r).
Proof. by intros s. Qed.
Lemma load_reads d : same_data (load d).1 d.
Proof. unfold load, get_pref, KeyValueStore.get, bind, ret. repeat (io_step; [done|]; cbn beta iota). done. Qed.
Lemma doneIds_reads d : same_data (doneIds d).1 d /\ (forall l, (doneIds d).2 = Ok l -> l = done_on d).
Proof. unfold doneIds, KeyValueStore.get, bind, ret. io_step; [done|]. split; [done|]. by intros l [= <-]. Qed.
Lemma listHosts_reads d : same_data (listHosts d).1 d.
Proof. unfold listHosts, KeyValueStore.get, bind, ret. by io_step. Qed.
Lemma clientForHost_reads host v : same_data (sv_disk (clientForHost host false None v).1) (sv_disk v).
Proof. pose proof (clientForHost_spec host false None v) as H. destruct (clientForHost host false None v). apply H. Qed.
Lemma destination_calm host client : calm (destination ph host client).
Proof. intros s. unfold destination. pose proof (calm_net (status (ph_transport ph) client) s) as H. by destruct (on_svc _ s) as [s1 [|]]. Qed.

(** A predicate of a whole run that holds wherever only calm code ran carries over calm prefixes. *)
Definition Outcome (s : PhotoState T) (p : PhotoState T * result jserror BackupResult) : Prop :=
  Calm s p.1 /\ (forall n, p.2 <> Ok (enqueued n) /\ p.2 <> Ok (incomplete n)) /\
    (p.2 = Ok upToDate -> exists albums wanted assets, collect_assets ph albums wanted [] = Ok assets /\
       forall a, a ∈ assets -> assetKey (as_id a) ∈ done_on (st_disk s)) \/
  exists s1 c albums wanted assets pending t0 t, Calm s s1 /\ collect_assets ph albums wanted [] = Ok assets /\
    pending = List.filter (fun a => negb (set_has (assetKey (as_id a)) (done_on (st_disk s)))) assets /\ pending <> [] /\
    rc_existing c = records_by_id (te_list (pt_engine s)) /\
    t0 = {| tl_budget := stagingBudget (te_list (pt_engine s)) MAX_STAGED_PHOTOS; tl_count := 0; tl_failed := 0; tl_deferred := false |} /\
    backup_loop ph c pending t0 s1 = (p.1, t) /\ p.2 = Ok (backup_result (length pending) t).
Lemma same_done d d' : same_data d d' -> done_on d = done_on d'.
Proof. intros (K & _). unfold done_on. by rewrite K. Qed.
Lemma outcome_calm s s1 p : Calm s s1 -> Outcome s1 p -> Outcome s p.
Proof.
  intros H. pose proof H as (He & _ & Hd). unfold Outcome. rewrite He, (same_done _ _ Hd). intros [(A & B & C)|(s2 & c & al & w & as_ & pe & t0 & t & A & R)].
  - left. split_and!; [by etrans | done | done].
  - right. exists s2, c, al, w, as_, pe, t0, t. split; [by etrans | done].
Qed.
Lemma outcome_bind {A} (m : M (PhotoState T) jserror A) k s : calm m -> (forall a s', Outcome s' (k a s')) -> Outcome s (bind m k s).
Proof.
  intros Hm Hk. unfold bind. specialize (Hm s). destruct (m s) as [s1 [a|e]]; cbn [fst] in Hm; [by eapply outcome_calm|].
  left. split_and!; [done | by intros | done].
Qed.
Lemma outcome_early r s : (forall n, r <> enqueued n /\ r <> incomplete n) -> r <> upToDate -> Outcome s (ret r s).
Proof. intros H1 H2. left. split_and!; [done| |]; cbn; intros; [|congruence]. destruct (H1 n). split; congruence. Qed.

Lemma run_pending_outcome prefs host client root s : Outcome s (run_pending ph prefs host client root s).
Proof.
  unfold run_pending, bind, lift. destruct (ph_albums ph) as [albums|]; [|left; split_and!; [done | by intros | done]].
  destruct (collect_assets ph albums _ []) as [assets|] eqn:Ea; [|left; split_and!; [done | by intros | done]].
  pose proof (calm_disk doneIds (fun d => proj1 (doneIds_reads d)) s) as Hc. pose proof (proj2 (doneIds_reads (sv_disk (pt_services s)))) as Hd.
  unfold on_svc, on_sdisk in *. destruct (doneIds (sv_disk (pt_services s))) as [d [done_|e]]; cbn [fst snd] in *; [|left; split_and!; [done | by intros | done]].
  rewrite (Hd done_ eq_refl). clear Hd. set (s1 := {| pt_services := _ |}) in *. set (pending := List.filter _ assets).
  destruct pending as [|a0 rest] eqn:Ep.
  { left. split_and!; [done | by intros|]. intros _. exists albums. do 2 eexists. split; [exact Ea|]. intros a Ha.
    destruct (set_has (assetKey (as_id a)) (done_on (st_disk s))) eqn:Eh; [by apply set_has_spec in Eh|]. exfalso.
    assert (a ∈ pending) as Hin by (apply elem_filter_bool; split; [done | by apply negb_true_iff]). rewrite Ep in Hin. by apply elem_of_nil in Hin. }
  rewrite <- Ep. set (seg := match truthy _ with Some _ => _ | None => _ end).
  assert (exists q, seg s1 = (s1, q)) as [q Eq].
  { unfold seg. destruct (truthy _); [by eexists|]. unfold bind, lift, ret. destruct (ph_deviceId ph); by eexists. }
  rewrite Eq. destruct q as [segment|e]; [|left; split_and!; [done | by intros | done]].
  set (c := {| rc_existing := _ |}). destruct (backup_loop ph c pending _ s1) as [s2 t] eqn:El. right.
  exists s1, c, albums. do 5 eexists. split; [exact Hc|]. split; [exact Ea|]. split; [reflexivity|]. split; [|split; [|split; [|split; [exact El|]]]]; [|done..].
  unfold pending in Ep. unfold st_disk. by rewrite Ep.
Qed.
Lemma run_outcome interactive s : Outcome s (runPhotoBackupOnce ph interactive s).
Proof.
  unfold runPhotoBackupOnce. apply outcome_bind; [apply calm_disk, load_reads|]. intros prefs s1.
  destruct (negb (pp_enabled prefs)); [by apply outcome_early|]. destruct (pp_hostId prefs) as [hostId|]; [|by apply outcome_early].
  apply outcome_bind; [by destruct (pp_wifiOnly prefs)|]. intros nets s2. destruct (negb _ && _); [by apply outcome_early|].
  apply outcome_bind; [by destruct (pp_chargingOnly prefs)|]. intros ch s3. destruct (negb ch); [by apply outcome_early|].
  apply outcome_bind; [apply calm_lift|]. intros granted s4. destruct (negb granted); [by apply outcome_early|].
  apply outcome_bind; [apply calm_disk, listHosts_reads|]. intros hosts s5. destruct (host_of hostId hosts) as [host|]; [|by apply outcome_early].
  apply outcome_bind; [apply calm_svc, clientForHost_reads|]. intros client s6.
  unfold bind. pose proof (destination_calm host client s6) as Hc. unfold destination in *.
  destruct (on_svc _ s6) as [s7 [st|]]; cbn [fst] in Hc; eapply outcome_calm; try exact Hc; [|by apply outcome_early].
  destruct (negb _); [by apply outcome_early|]. destruct (negb _ || _); [by apply outcome_early|]. apply run_pending_outcome.
Qed.

(** Row ids of the media library identify photos. *)
Hypothesis distinct_keys : forall albums wanted assets, collect_assets ph albums wanted [] = Ok assets ->
  NoDup ((fun a => assetKey (as_id a)) <$> assets).

(** The loop of a run, from the records the run began with. *)
Lemma run_loop s p : Outcome s p ->
  Calm s p.1 /\ (forall n, p.2 <> Ok (enqueued n) /\ p.2 <> Ok (incomplete n)) /\
    (p.2 = Ok upToDate -> exists albums wanted assets, collect_assets ph albums wanted [] = Ok assets /\
       forall a, a ∈ assets -> assetKey (as_id a) ∈ done_on (st_disk s)) \/
  exists c albums wanted assets pending outs t s1, Calm s s1 /\ collect_assets ph albums wanted [] = Ok assets /\
    (forall a, a ∈ assets -> a ∈ pending \/ assetKey (as_id a) ∈ done_on (st_disk s)) /\
    rc_existing c = records_by_id (te_list (pt_engine s)) /\
    LoopSpec c pending {| tl_budget := stagingBudget (te_list (pt_engine s)) MAX_STAGED_PHOTOS; tl_count := 0; tl_failed := 0; tl_deferred := false |} t s1 p.1 outs /\
    p.2 = Ok (backup_result (length pending) t).
Proof.
  intros [H|(s1 & c & al & w & assets & pending & t0 & t & Hc & Ha & Hp & Hne & Hx & -> & El & Er)]; [by left|]. right.
  pose proof Hc as (He & Hdirs & Hd). destruct (backup_loop_spec c pending) with (t := {| tl_budget := stagingBudget (te_list (pt_engine s)) MAX_STAGED_PHOTOS;
    tl_count := 0; tl_failed := 0; tl_deferred := false |}) (s := s1) as [outs L].
  - rewrite Hp. apply NoDup_fmap_filter. by eapply distinct_keys.
  - intros a _. rewrite Hx, He. apply own_records.
  - rewrite El in L. cbn [fst snd] in L. exists c, al, w, assets, pending, outs, t, s1. split_and!; try done.
    intros a Hin. destruct (set_has (assetKey (as_id a)) (done_on (st_disk s))) eqn:Eh; [right; by apply set_has_spec in Eh|]. left.
    rewrite Hp. apply elem_filter_bool. by rewrite Eh.
Qed.
Lemma prior_known s c a r : rc_existing c = records_by_id (te_list (pt_engine s)) -> prior_of c a = Some r ->
  r ∈ te_list (pt_engine s) /\ tr_id r = backupTransferId (as_id a).
Proof.
  intros Hx Hp. pose proof (own_records (backupTransferId (as_id a)) (pt_engine s)) as Ho. rewrite <- Hx, Hp in Ho.
  assert (r ∈ own (backupTransferId (as_id a)) (te_list (pt_engine s))) as H by (rewrite Ho; left).
  apply elem_filter_bool in H as [H1 H2]. by breflect.
Qed.

(** When nothing was queued, deferred or failed, a photo of the loop is settled or untouched for a reason. *)
Lemma up_to_date_case c pending t0 t s s0 s' outs a : rc_existing c = records_by_id (te_list (pt_engine s)) ->
  LoopSpec c pending t0 t s0 s' outs -> backup_result (length pending) t = upToDate -> a ∈ pending ->
  assetKey (as_id a) ∈ done_on (st_disk s') \/ isFileStable (as_sizes a).1 (as_sizes a).2 = false \/
  exists rec, rec ∈ te_list (pt_engine s) /\ tr_id rec = backupTransferId (as_id a) /\ in_flight rec = true.
Proof.
  intros Hx [L1 L2 _ L4 L5 L6 L7 _ _ L10 _] Hr Ha. unfold backup_result in Hr.
  destruct (0 <? tl_count t)%nat eqn:Ec; [done|]. destruct (tl_deferred t) eqn:Ed; [done|]. destruct (0 <? tl_failed t)%nat eqn:Ef; [done|]. breflect.
  assert (length outs = length pending) as Hl by (destruct (decide (length outs < length pending)%nat) as [Hlt|]; [by apply L2 in Hlt | lia]).
  apply list_elem_of_lookup in Ha as [k Hk]. destruct (lookup_lt_is_Some_2 outs k) as [o Ho]; [rewrite Hl; by eapply lookup_lt_Some|].
  assert ((a, o) ∈ zip pending outs) as Hin by (apply list_elem_of_lookup; exists k; by apply lookup_zip_Some).
  assert (o ∈ outs) as Hoin by (apply list_elem_of_lookup; by exists k).
  assert (forall f, tally f outs = 0%nat -> f o = false) as Hz.
  { intros f Hf. unfold tally in Hf. destruct (f o) eqn:Efo; [|done]. assert (o ∈ List.filter f outs) as H0 by (by apply elem_filter_bool).
    destruct (List.filter f outs); [by apply elem_of_nil in H0 | done]. }
  pose proof (Hz counted ltac:(lia)) as Z1. pose proof (Hz is_failed ltac:(lia)) as Z2.
  assert (is_deferred o = false) as Z3.
  { symmetry in L6. apply orb_false_iff in L6 as [_ L6]. rewrite existsb_false_forall, Forall_forall in L6. by apply L6. }
  rewrite Forall_forall in L7. destruct (L7 _ Hin) as [b Hfit]. cbn [fst snd] in Hfit. destruct o; try done.
  - left. by apply L10.
  - right. right. destruct Hfit as (rec & Hp & Hf). exists rec. by destruct (prior_known _ _ _ _ Hx Hp).
  - right. by left.
Qed.

(** C22 However large the photo library and however its steps and the transfer engine fail, a
    backup run never holds more staged photo copies than the cap, counting those of earlier
    runs: uploads that keep a copy number at most the cap, or what they were before. *)
Theorem photoBackup_bounded (interactive : bool) (s : PhotoState T) :
  (held (te_list (pt_engine (runPhotoBackupOnce ph interactive s).1)) <= Nat.max (held (te_list (pt_engine s))) MAX_STAGED_PHOTOS)%nat.
Proof.
  destruct (run_loop s _ (run_outcome interactive s)) as [((-> & _) & _)|(c & al & w & assets & pending & outs & t & s1 & (He & _) & _ & _ & _ & L & _)]; [lia|].
  pose proof (ls_held _ _ _ _ _ _ _ L) as H. rewrite He in H. cbn [tl_budget] in H. unfold stagingBudget in H. lia.
Qed.

(** A photo is recorded as backed up only when an upload of it had finished, or the computer
    already held the file; nothing recorded is ever dropped by a run.  A run that answers "up to
    date" leaves every photo of the chosen albums recorded, in flight, or still being written;
    one that answers "queued n" has resumed or newly queued exactly n uploads, and every staging
    directory it leaves belongs to one it queued. *)
Theorem photoBackup_records_finished (interactive : bool) (s s' : PhotoState T) (r : result jserror BackupResult) :
  runPhotoBackupOnce ph interactive s = (s', r) ->
  (forall k, k ∈ done_on (st_disk s') -> k ∈ done_on (st_disk s) \/
     exists rec, rec ∈ te_list (pt_engine s) /\ finished_upload rec = true /\ assetIdFromTransferId (tr_id rec) = Some k) /\
  (forall k, k ∈ done_on (st_disk s) -> k ∈ done_on (st_disk s')) /\
  (r = Ok upToDate -> exists albums wanted assets, collect_assets ph albums wanted [] = Ok assets /\ forall a, a ∈ assets ->
     assetKey (as_id a) ∈ done_on (st_disk s') \/ isFileStable (as_sizes a).1 (as_sizes a).2 = false \/
     exists rec, rec ∈ te_list (pt_engine s) /\ tr_id rec = backupTransferId (as_id a) /\ in_flight rec = true) /\
  (forall n, r = Ok (enqueued n) -> exists queued : list (Asset * AssetOutcome), length queued = n /\ (0 < n)%nat /\
     Forall (fun q => q.2 = ao_resumed \/ q.2 = ao_enqueued) queued /\
     forall d, d ∈ pt_dirs s' -> d ∈ pt_dirs s \/ exists a, (a, ao_enqueued) ∈ queued /\ d = backupTransferId (as_id a)).
Proof.
  intros Hrun. pose proof (run_loop s _ (run_outcome interactive s)) as H. rewrite Hrun in H. cbn [fst snd] in H.
  destruct H as [((_ & _ & Hd) & Hno & Hup)|(c & al & w & assets & pending & outs & t & s1 & (_ & Hdirs & Hd) & Ha & Hall & Hx & L & Hr)].
  - rewrite (same_done _ _ Hd). split_and!; [intros; by left | done | | intros n E0; by destruct (Hno n)].
    intros E0. destruct (Hup E0) as (al & w & assets & Ha & H). exists al, w, assets. split; [done|]. intros a Hin. left. auto.
  - pose proof L as [L1 L2 _ L4 L5 L6 L7 L8 L9 L10 L11]. rewrite (same_done _ _ Hd), Hdirs in *. split_and!.
    + intros k Hk. destruct (L8 k Hk) as [?|(a & rec & _ & -> & Hp & Hf)]; [by left|]. right. exists rec.
      destruct (prior_known _ _ _ _ Hx Hp) as [Hin Hid]. split_and!; [done | done | rewrite Hid; apply key_of_transfer].
    + done.
    + intros E0. rewrite Hr in E0. injection E0 as E0. unfold backup_result in E0. cbn in L4, L5, L6. exists al, w, assets. split; [done|].
      intros a Hin. destruct (Hall a Hin) as [Hp|Hp]; [|left; auto]. eapply up_to_date_case; eauto.
    + intros n E0. rewrite Hr in E0. injection E0 as E0. unfold backup_result in E0. cbn in L4.
      destruct (0 <? tl_count t)%nat eqn:Ec; [|by repeat case_match]. injection E0 as <-. breflect.
      exists (List.filter (fun q => counted q.2) (zip pending outs)). split_and!; [|lia| |].
      * rewrite L4. unfold tally. clear - L1. revert outs L1. induction pending as [|a pending IH]; intros [|o outs] Hl; simpl in *; try done; [lia|].
        destruct (counted o); simpl; rewrite IH by lia; done.
      * apply Forall_forall. intros [a o] [_ Ho]%elem_filter_bool. destruct o; try done; auto.
      * intros d Hdd. destruct (L11 d Hdd) as [?|(a & Hin & ->)]; [by left|]. right. exists a. split; [|done]. by apply elem_filter_bool.
Qed.
End RunSpec.

(** ** Where a photo goes *)

(** One path segment that stays inside its folder. *)
Definition plain_segment (s : jstr) : Prop := s <> [] /\ s <> js "." /\ s <> js ".." /\ slash ∉ s /\ backslash ∉ s.

Lemma drop_while_head {A} (P : A -> bool) s c r : drop_while P s = c :: r -> P c = false.
Proof. induction s as [|x s IH]; [done|]. cbn [drop_while]. destruct (P x) eqn:Ex; [exact IH|]. by intros [= <- _]. Qed.
Lemma drop_while_end_prefix {A} (P : A -> bool) (s : list A) : exists t, s = drop_while_end P s ++ t.
Proof.
  unfold drop_while_end. destruct (drop_while_suffix P (reverse s)) as [t E]. exists (reverse t).
  by rewrite <- reverse_app, <- E, reverse_involutive.
Qed.
Lemma sanitized_shape name c r : sanitizeSegment name = c :: r -> sanitizeSegment name <> js "device" -> dot_or_space c = false.
Proof.
  unfold sanitizeSegment. set (s0 := _ <$> name). set (s1 := drop_while dot_or_space s0).
  destruct (drop_while_end_prefix dot_or_space s1) as [t Et]. set (s2 := drop_while_end dot_or_space s1) in *.
  set (s3 := if (64 <? length s2)%nat then take 64 s2 else s2). assert (exists u, s1 = s3 ++ u) as [u Eu].
  { unfold s3. destruct (64 <? length s2)%nat; [|by exists t]. exists (drop 64 s2 ++ t). by rewrite app_assoc, take_drop. }
  destruct s3 as [|x s3']; [by intros|]. intros [= <- _] _. eapply (drop_while_head _ s0). unfold s1 in Eu. exact Eu.
Qed.
Lemma sanitized_elem name c : c ∈ sanitizeSegment name -> unsafe_char c = false.
Proof.
  unfold sanitizeSegment. set (s0 := _ <$> name). intros H.
  assert (c ∈ s0 \/ c ∈ js "device") as [Hin|Hin].
  { destruct (drop_while_end_prefix dot_or_space (drop_while dot_or_space s0)) as [t Et].
    set (s2 := drop_while_end _ _) in *. assert (c ∈ s2 -> c ∈ s0) as K.
    { intros Hc. eapply elem_drop_while. rewrite Et. apply elem_of_app. by left. }
    destruct (64 <? length s2)%nat; [destruct (take 64 s2) eqn:Et2; [by right | rewrite <- Et2 in H; left; apply K; by apply elem_of_take in H as (? & ? & _); eapply list_elem_of_lookup_2]|].
    destruct s2; [by right | left; by apply K]. }
  - unfold s0 in Hin. apply list_elem_of_fmap in Hin as (x & -> & _). by destruct (unsafe_char x) eqn:Ex.
  - revert c Hin H. assert (Forall (fun c => unsafe_char c = false) (js "device")) as Hd by (by repeat constructor).
    rewrite Forall_forall in Hd. intros c Hin _. by apply Hd.
Qed.
Lemma sanitizeSegment_plain name : plain_segment (sanitizeSegment name).
Proof.
  assert (forall c, unsafe_char c = true -> c ∉ sanitizeSegment name) as Hu by (intros c Hc Hin; apply sanitized_elem in Hin; congruence).
  assert (forall c r, sanitizeSegment name = c :: r -> c <> dot) as Hd.
  { intros c r E0 ->. destruct (decide (sanitizeSegment name = js "device")) as [E1|Hne]; [rewrite E1 in E0; discriminate E0|].
    pose proof (sanitized_shape name _ _ E0 Hne) as Hx. discriminate Hx. }
  split_and!; try (by apply Hu).
  - unfold sanitizeSegment. by destruct (if (64 <? _)%nat then _ else _).
  - intros E0. by apply (Hd _ _ E0).
  - intros E0. by apply (Hd _ _ E0).
Qed.
Lemma safe_char_plain c : safe_id_char c = true -> c <> slash /\ c <> backslash /\ c <> dot.
Proof.
  unfold safe_id_char, is_alnum, is_alpha, is_upper, is_lower, is_digit, slash, backslash, dot.
  rewrite !orb_true_iff, !andb_true_iff, !Z.leb_le, !Z.eqb_eq. lia.
Qed.
Lemma extension_shape title : exists e, safeExtension title = dot :: e /\ e <> [] /\ Forall (fun c => is_alnum c = true) e.
Proof.
  assert (exists e, js ".jpg" = dot :: e /\ e <> [] /\ Forall (fun c => is_alnum c = true) e) as Hj by (exists (js "jpg"); split_and!; [done | done | by repeat constructor]).
  unfold safeExtension. destruct (drop_while is_alnum (reverse title)) as [|c r]; [exact Hj|].
  destruct (_ && _ && _) eqn:E; [|exact Hj]. breflect. subst c. eexists. split; [done|]. split.
  - intros Hx. rewrite Hx in *. simpl in *. lia.
  - apply Forall_reverse, take_while_all.
Qed.
Lemma photo_name_plain a title : plain_segment (assetKey a ++ safeExtension title).
Proof.
  destruct (extension_shape title) as (e & -> & Hne & He). pose proof (assetKey_safe a) as Hk.
  assert (Forall (fun c => c <> slash /\ c <> backslash /\ c <> dot) (assetKey a)) as Hk' by (eapply Forall_impl; [exact Hk | apply safe_char_plain]).
  assert (Forall (fun c => c <> slash /\ c <> backslash /\ c <> dot) e) as He'.
  { eapply Forall_impl; [exact He|]. intros c Hc. apply safe_char_plain. unfold safe_id_char. by rewrite Hc. }
  rewrite Forall_forall in Hk', He'. split_and!.
  - by destruct (assetKey a).
  - intros H. destruct (assetKey a) as [|c k]; [apply Hne; by injection H|]. injection H as _ H. by destruct k.
  - intros H. destruct (assetKey a) as [|c k]; [|].
    + assert (e = [dot]) as -> by (by injection H). by destruct (He' dot (list_elem_of_here _ _)) as (_ & _ & ?).
    + assert (c = dot) as -> by (by injection H). by destruct (Hk' dot (list_elem_of_here _ _)) as (_ & _ & ?).
  - rewrite elem_of_app, elem_of_cons. intros [H|[H|H]]; [by destruct (Hk' _ H) | unfold slash, dot in H; lia | by destruct (He' _ H)].
  - rewrite elem_of_app, elem_of_cons. intros [H|[H|H]]; [by destruct (Hk' _ H) as (_ & ? & _) | unfold backslash, dot in H; lia | by destruct (He' _ H) as (_ & ? & _)].
Qed.
Lemma digits_plain s : s <> [] -> Forall (fun c => is_digit c = true \/ c = 45) s -> plain_segment s.
Proof.
  intros Hne H. rewrite Forall_forall in H. assert (forall c, c ∈ s -> c <> slash /\ c <> backslash /\ c <> dot) as K.
  { intros c Hc. destruct (H c Hc) as [Hd| ->]; [|done]. apply safe_char_plain. by apply safe_digit. }
  split_and!; [done| | | |]; intros E; [| |by destruct (K _ E)|by destruct (K _ E) as (_ & ? & _)].
  - subst s. by destruct (K dot (list_elem_of_here _ _)) as (_ & _ & ?).
  - subst s. by destruct (K dot (list_elem_of_here _ _)) as (_ & _ & ?).
Qed.
Lemma two_digits n : 0 <= n -> two n <> [] /\ Forall (fun c => is_digit c = true) (two n).
Proof.
  intros Hn. unfold two, pad_start. split.
  - intros [_ H]%app_nil. by apply string_of_Z_nonempty in H.
  - apply Forall_app. split; [apply Forall_replicate; done | by apply string_of_Z_digits].
Qed.

Lemma strip_slashes_spec rv : exists n, reverse rv = reverse (strip_slashes rv) ++ replicate n slash.
Proof.
  induction rv as [|c rv IH]; [by exists 0%nat|]. destruct rv as [|d rv]; [exists 0%nat; by rewrite app_nil_r|].
  cbn [strip_slashes]. destruct (c =? slash) eqn:E; [|exists 0%nat; by rewrite app_nil_r].
  breflect. subst c. destruct IH as [n IH]. exists (S n). cbn [strip_slashes] in IH. rewrite (reverse_cons (d :: rv) slash), IH, <- app_assoc. f_equal.
  change [slash] with (replicate 1 slash). rewrite <- replicate_add. f_equal. lia.
Qed.

(** A photo's destination is the chosen folder plus exactly four path segments (device, year,
    year-month, file name), none of which is empty, a dot name or holds a separator, whatever the
    nickname the user typed, the asset id and the file name the library reports: a backup cannot
    write outside the folder the computer's owner chose. *)
Theorem photo_path_contained (destRoot nickname assetId title : jstr) (year month : Z) : 0 <= year -> 0 <= month < 12 ->
  exists root segs, (destRoot = root \/ exists n, destRoot = root ++ replicate (S n) slash) /\ length segs = 4%nat /\ Forall plain_segment segs /\
    backupRemotePath destRoot year month (assetKey assetId ++ safeExtension title) (sanitizeSegment nickname) =
      root ++ [slash] ++ join [slash] segs.
Proof.
  intros Hy Hm. destruct (two_digits (month + 1) ltac:(lia)) as [Ht1 Ht2].
  set (y := string_of_Z year). set (ym := y ++ js "-" ++ two (month + 1)).
  set (root := reverse (strip_slashes (reverse destRoot))). set (root' := if bool_decide (root = [slash]) then [] else root).
  exists root', [sanitizeSegment nickname; y; ym; assetKey assetId ++ safeExtension title].
  destruct (strip_slashes_spec (reverse destRoot)) as [n Hn]. rewrite reverse_involutive in Hn. fold root in Hn.
  split; [|split; [done|split]].
  - unfold root'. destruct (bool_decide (root = [slash])) eqn:E; breflect.
    + right. exists n. by rewrite Hn, E.
    + destruct n as [|n]; [left; by rewrite Hn, app_nil_r | right; by exists n].
  - constructor; [apply sanitizeSegment_plain|]. constructor; [|constructor; [|constructor; [apply photo_name_plain | constructor]]].
    + apply digits_plain; [apply string_of_Z_nonempty|]. eapply Forall_impl; [by apply string_of_Z_digits | by left].
    + apply digits_plain; [intros [H _]%app_nil; by apply string_of_Z_nonempty in H|]. apply Forall_app. split.
      * eapply Forall_impl; [by apply string_of_Z_digits | by left].
      * constructor; [by right|]. eapply Forall_impl; [exact Ht2 | by left].
  - unfold backupRemotePath. fold y ym root root'. destruct (sanitizeSegment_plain nickname) as [Hne _].
    destruct (sanitizeSegment nickname); [done|]. cbn [join]. by rewrite <- !app_assoc.
Qed.

(** ** A concrete engine and run *)

(** Records with distinct ids; the calls behave as the engine documents them. *)
Definition Records : Type := { l : list TransferRecord | bool_decide (NoDup (tr_id <$> l)) = true }.
Definition queued_again (r : TransferRecord) : TransferRecord := {|
  tr_id := tr_id r; tr_hostId := tr_hostId r; tr_address := tr_address r; tr_remotePath := tr_remotePath r; tr_destPath := tr_destPath r;
  tr_state := QUEUED; tr_received := tr_received r; tr_total := tr_total r; tr_error := None; tr_direction := tr_direction r;
  tr_sessionId := tr_sessionId r; tr_sha256 := tr_sha256 r; tr_overwrite := tr_overwrite r; tr_publicUri := tr_publicUri r; tr_updatedAt := tr_updatedAt r |}.
Definition resume_record (id : jstr) (r : TransferRecord) : TransferRecord :=
  if bool_decide (tr_id r = id) then match tr_state r with FAILED | PAUSED => queued_again r | _ => r end else r.
Definition new_upload (j : UploadJob) : TransferRecord := {|
  tr_id := uj_id j; tr_hostId := uj_hostId j; tr_address := uj_address j; tr_remotePath := uj_remotePath j; tr_destPath := uj_localPath j;
  tr_state := QUEUED; tr_received := 0; tr_total := -1; tr_error := None; tr_direction := Some UPLOAD;
  tr_sessionId := None; tr_sha256 := None; tr_overwrite := Some (uj_overwrite j); tr_publicUri := None; tr_updatedAt := None |}.
Definition live (r : TransferRecord) : bool := match tr_state r with RUNNING | QUEUED => true | _ => false end.

Lemma resume_id id r : tr_id (resume_record id r) = tr_id r.
Proof. unfold resume_record. destruct (bool_decide _); [|done]. by destruct (tr_state r). Qed.
Lemma resume_ids id (l : list TransferRecord) : tr_id <$> (resume_record id <$> l) = tr_id <$> l.
Proof. rewrite <- list_fmap_compose. apply list_fmap_ext. intros. apply resume_id. Qed.
Lemma others_no_id id l : id ∉ tr_id <$> others id l.
Proof. intros (r & Er & [_ Hr]%elem_filter_bool)%list_elem_of_fmap. breflect. congruence. Qed.
Lemma others_idem id l : others id (others id l) = others id l.
Proof.
  unfold others. induction l as [|r l IH]; [done|]. cbn [List.filter]. destruct (bool_decide _) eqn:E; cbn [negb]; [done|]. cbn [List.filter]. by rewrite E, IH.
Qed.
Lemma others_app id a b : others id (a ++ b) = others id a ++ others id b.
Proof. apply List.filter_app. Qed.
Lemma own_of_others id l : own id (others id l) = [].
Proof.
  unfold own, others. induction l as [|r l IH]; [done|]. cbn [List.filter]. destruct (bool_decide _) eqn:E; cbn [negb]; [done|]. cbn [List.filter]. by rewrite E, IH.
Qed.
Lemma resume_ok id (t : Records) : bool_decide (NoDup (tr_id <$> (resume_record id <$> proj1_sig t))) = true.
Proof. destruct t as [l Hl]. cbn. rewrite resume_ids. exact Hl. Qed.
Definition rs_resume (id : jstr) (t : Records) : Records := exist _ (resume_record id <$> proj1_sig t) (resume_ok id t).
Definition removed (id : jstr) (l : list TransferRecord) : list TransferRecord := if List.existsb live (own id l) then l else others id l.
Lemma remove_ok id (t : Records) : bool_decide (NoDup (tr_id <$> removed id (proj1_sig t))) = true.
Proof.
  destruct t as [l Hl]. cbn. unfold removed. case_match; [done|]. apply bool_decide_eq_true. apply bool_decide_eq_true in Hl. by apply NoDup_fmap_filter.
Qed.
Definition rs_remove (id : jstr) (t : Records) : Records := exist _ (removed id (proj1_sig t)) (remove_ok id t).
Lemma enqueue_ok j (t : Records) : bool_decide (NoDup (tr_id <$> (others (uj_id j) (proj1_sig t) ++ [new_upload j]))) = true.
Proof.
  destruct t as [l Hl]. cbn. apply bool_decide_eq_true. apply bool_decide_eq_true in Hl. rewrite fmap_app. apply NoDup_app. split_and!.
  - by apply NoDup_fmap_filter.
  - intros x Hx Hy. apply list_elem_of_singleton in Hy. subst x. by apply others_no_id in Hx.
  - apply NoDup_singleton.
Qed.
Definition rs_enqueue (j : UploadJob) (t : Records) : Records := exist _ (others (uj_id j) (proj1_sig t) ++ [new_upload j]) (enqueue_ok j t).
#[export, refine] Instance RecordsEngine : TransferEngine Records := {|
  te_list t := proj1_sig t;
  te_resume id t := (rs_resume id t, Ok tt);
  te_remove id t := (rs_remove id t, Ok tt);
  te_enqueueUpload j t := if List.existsb live (own (uj_id j) (proj1_sig t)) then (t, Err (PlainError (js "transfer id already in use"))) else (rs_enqueue j t, Ok tt) |}.
Proof.
- intros [l Hl]. exact (proj1 (bool_decide_eq_true _) Hl).
- intros id [l Hl]. cbn. unfold others. clear Hl. induction l as [|r l IH]; [done|]. rewrite fmap_cons. cbn [List.filter]. rewrite resume_id, IH.
  destruct (bool_decide (tr_id r = id)) eqn:E; cbn [negb]; [done|]. unfold resume_record. by rewrite E.
- intros id [l Hl]. cbn. unfold removed. case_match; [done | apply others_idem].
- intros id [l Hl]. cbn. unfold removed. case_match; [by left | right; apply own_of_others].
- intros j t. case_match; [done|]. destruct t as [l Hl]. change (others (uj_id j) (others (uj_id j) l ++ [new_upload j]) = others (uj_id j) l).
  rewrite others_app, others_idem. unfold others at 2. cbn [List.filter new_upload tr_id]. rewrite bool_decide_true by done. by rewrite app_nil_r.
- intros j t e. by case_match.
Defined.

Definition sample_upload (key : string) (st : TransferState) (err : option jstr) : TransferRecord := {|
  tr_id := js "pb-" ++ js key; tr_hostId := js "h"; tr_address := js "10.0.0.2:8765"; tr_remotePath := js "/p/x"; tr_destPath := js "/staged/x";
  tr_state := st; tr_received := 0; tr_total := -1; tr_error := err; tr_direction := Some UPLOAD;
  tr_sessionId := None; tr_sha256 := None; tr_overwrite := None; tr_publicUri := None; tr_updatedAt := None |}.
Definition sample_asset (n : string) : Asset :=
  {| as_id := js "content://media/external/images/media/" ++ js n; as_sizes := (10, 10); as_filename := js "IMG.JPG"; as_created := (2026, 8) |}.
Definition sample_photos : list Asset := [sample_asset "1"; sample_asset "2"; sample_asset "3"; sample_asset "4"].
Definition sample_phone : Phone := {|
  ph_transport _ q := Ok {| rs_status := 200; rs_headers := []; rs_bodyText := ser (JObj [(js "photoBackupRoot", JStr (js "/photos"))]) |};
  ph_networks := Ok [js "wifi"]; ph_charging := Ok false; ph_access _ := Ok true; ph_albums := Ok [js "all"];
  ph_images _ := Ok sample_photos; ph_deviceId := Ok None; ph_exists _ := true; ph_throws _ _ := None;
  ph_path id name := js "/uploads/" ++ id ++ [slash] ++ name |}.
Definition sample_photo_state : PhotoState Records := {|
  pt_services := {|
    sv_disk := {| kv := [(HOSTS_KEY, ser (JArr [hostToJson sample_client_host])); (K_enabled, ser (JBool true)); (K_host, ser (JStr (js "h")))];
                  secure := [(SecureKeys.fingerprint (js "h"), replicate 64 97); (SecureKeys.token (js "h"), js "t")];
                  cleaned := []; faults := [] |};
    sv_net := {| addrIndex := 0; lastGoodRoute := []; sent := [] |} |};
  pt_engine := exist _ [sample_upload "1" DONE None; sample_upload "2" FAILED (Some (js "CONFLICT")); sample_upload "3" RUNNING None] eq_refl;
  pt_dirs := [] |}.
(** Whatever albums are scanned, the sample library's photos are these. *)
Lemma sample_distinct albums wanted assets : collect_assets sample_phone albums wanted [] = Ok assets ->
  NoDup ((fun a => assetKey (as_id a)) <$> assets).
Proof.
  assert (forall acc, acc = [] \/ acc = sample_photos -> forall assets, collect_assets sample_phone albums wanted acc = Ok assets ->
    assets = [] \/ assets = sample_photos) as H.
  { induction albums as [|al albums IH]; intros acc Hacc r E; [by injection E as <-|]. cbn [collect_assets] in E.
    destruct (set_has al wanted); [|by eapply IH]. cbn [ph_images sample_phone] in E. eapply IH; [|exact E]. right.
    destruct Hacc as [-> | ->]; vm_compute; reflexivity. }
  intros E. destruct (H [] (or_introl eq_refl) _ E) as [-> | ->]; [constructor|].
  apply (proj1 (bool_decide_eq_true _)). vm_compute. reflexivity.
Qed.

Lemma photoBackup_bounded_witness :
  let p := runPhotoBackupOnce (U := ascii_unicode) (J := plain_codec) (T := Records) sample_phone false sample_photo_state in
  p.2 = Ok (enqueued 1) /\ held (te_list (pt_engine p.1)) = 2%nat /\
  (held (te_list (pt_engine p.1)) <= Nat.max (held (te_list (pt_engine sample_photo_state))) MAX_STAGED_PHOTOS)%nat.
Proof.
  intros p. split; [vm_compute; reflexivity|]. split; [vm_compute; reflexivity|].
  exact (photoBackup_bounded (U := ascii_unicode) (J := plain_codec) sample_phone sample_distinct false sample_photo_state).
Defined.
Lemma photoBackup_records_finished_witness :
  let J := plain_codec in
  exists s' r, runPhotoBackupOnce (U := ascii_unicode) (T := Records) sample_phone false sample_photo_state = (s', r) /\
  done_on (st_disk s') = [js "1"; js "2"] /\
  forall k, k ∈ done_on (st_disk s') -> k ∈ done_on (st_disk sample_photo_state) \/
    exists rec, rec ∈ te_list (pt_engine sample_photo_state) /\ finished_upload rec = true /\ assetIdFromTransferId (tr_id rec) = Some k.
Proof.
  intros J. destruct (runPhotoBackupOnce (U := ascii_unicode) (T := Records) sample_phone false sample_photo_state) as [s' r] eqn:E.
  exists s', r. split; [reflexivity|].
  pose proof (photoBackup_records_finished (U := ascii_unicode) sample_phone sample_distinct false sample_photo_state s' r E) as [H _].
  split; [|exact H]. vm_compute in E. injection E as <- _. vm_compute. reflexivity.
Defined.
Lemma photo_path_contained_witness :
  backupRemotePath (js "/photos/") 2026 8 (js "20.jpg") (js "pixel") = js "/photos/pixel/2026/2026-09/20.jpg" /\
  exists root segs, (js "/p//" = root \/ exists n, js "/p//" = root ++ replicate (S n) slash) /\ length segs = 4%nat /\ Forall plain_segment segs /\
    backupRemotePath (js "/p//") 2026 8 (assetKey (js "x/20") ++ safeExtension (js "../IMG.tar.gz")) (sanitizeSegment (js "../me")) = root ++ [slash] ++ join [slash] segs.
Proof.
  split; [vm_compute; reflexivity|]. apply (photo_path_contained (js "/p//") (js "../me") (js "x/20") (js "../IMG.tar.gz") 2026 8); lia.
Defined.

(** ** Preferences *)

Definition normal_prefs (p : PhotoBackupPrefs) : PhotoBackupPrefs := {|
  pp_enabled := pp_enabled p; pp_hostId := truthy (pp_hostId p); pp_deviceName := truthy (pp_deviceName p); pp_wifiOnly := pp_wifiOnly p;
  pp_chargingOnly := pp_chargingOnly p; pp_albumIds := pp_albumIds p; pp_scheduled := pp_scheduled p |}.

Section Prefs.
Context `{J : JsonCodec}.
Definition stored_prefs (m : list (jstr * jstr)) (p : PhotoBackupPrefs) : Prop :=
  asBool (parse_raw (map_get K_enabled m)) false = pp_enabled p /\ asString (parse_raw (map_get K_host m)) = truthy (pp_hostId p) /\
  asString (parse_raw (map_get K_deviceName m)) = truthy (pp_deviceName p) /\ asBool (parse_raw (map_get K_wifiOnly m)) true = pp_wifiOnly p /\
  asBool (parse_raw (map_get K_chargingOnly m)) false = pp_chargingOnly p /\ asStrings (parse_raw (map_get K_albums m)) = pp_albumIds p /\
  asBool (parse_raw (map_get K_scheduled m)) false = pp_scheduled p.
Lemma load_stored p d : faults d = [] -> stored_prefs (kv d) p -> (load d).2 = Ok (normal_prefs p).
Proof.
  intros Hf (H1 & H2 & H3 & H4 & H5 & H6 & H7). destruct d as [m sc cl fs]. cbn in Hf. subst fs.
  unfold load, get_pref, KeyValueStore.get, bind, ret, io. cbn -[parse_raw asBool asString asStrings]. cbn [kv] in *.
  by rewrite H1, H2, H3, H4, H5, H6, H7.
Qed.
Lemma parse_stored j : json_wf j = true -> parse_raw (Some (json_stringify j)) = Some j.
Proof. intros H. unfold parse_raw. by rewrite json_roundtrip. Qed.
Definition put_text (k : jstr) (v : option jstr) (m : list (jstr * jstr)) : list (jstr * jstr) :=
  match truthy v with Some s => map_set k (json_stringify (JStr s)) m | None => map_delete k m end.
Lemma set_text_works k v m sc cl : set_text k v {| kv := m; secure := sc; cleaned := cl; faults := [] |} =
  ({| kv := put_text k v m; secure := sc; cleaned := cl; faults := [] |}, Ok tt).
Proof. unfold set_text, put_text, set_pref, KeyValueStore.set, KeyValueStore.remove, io. by destruct (truthy v). Qed.
Lemma set_pref_works k j m sc cl : set_pref k j {| kv := m; secure := sc; cleaned := cl; faults := [] |} =
  ({| kv := map_set k (json_stringify j) m; secure := sc; cleaned := cl; faults := [] |}, Ok tt).
Proof. done. Qed.
Lemma get_put_text k v m : asString (parse_raw (map_get k (put_text k v m))) = truthy v.
Proof.
  unfold put_text. destruct (truthy v) as [t|] eqn:E.
  - rewrite map_get_set_eq, parse_stored by done. cbn. destruct v as [[|c v]|]; try done. cbn in E. by injection E as <-.
  - rewrite map_get_delete, decide_True by done. done.
Qed.
Lemma get_put_text_ne k k' v m : k <> k' -> map_get k' (put_text k v m) = map_get k' m.
Proof. intros H. unfold put_text. destruct (truthy v); [by apply map_get_set_ne|]. rewrite map_get_delete. by rewrite decide_False. Qed.

(** Saving the preferences and loading them gives them back, an empty text read as none, and the
    record of backed-up photos is left alone. *)
Theorem photo_prefs_roundtrip (p : PhotoBackupPrefs) (d : Disk) : faults d = [] ->
  (save p d).2 = Ok tt /\ (load (save p d).1).2 = Ok (normal_prefs p) /\ done_on (save p d).1 = done_on d.
Proof.
  intros Hf. destruct d as [m sc cl fs]. cbn in Hf. subst fs.
  assert (save p {| kv := m; secure := sc; cleaned := cl; faults := [] |} =
    ({| kv := put_text K_deviceName (pp_deviceName p) (put_text K_host (pp_hostId p)
          (map_set K_scheduled (json_stringify (JBool (pp_scheduled p))) (map_set K_albums (json_stringify (JArr (JStr <$> pp_albumIds p)))
          (map_set K_chargingOnly (json_stringify (JBool (pp_chargingOnly p))) (map_set K_wifiOnly (json_stringify (JBool (pp_wifiOnly p)))
          (map_set K_enabled (json_stringify (JBool (pp_enabled p))) m))))));
        secure := sc; cleaned := cl; faults := [] |}, Ok tt)) as ->.
  { unfold save, bind. rewrite !set_pref_works, !set_text_works. done. }
  assert (forall k k' : jstr, bool_decide (k = k') = false -> k <> k') as Hk by (intros ? ? H; by apply bool_decide_eq_false in H).
  split; [done|]. cbn [fst snd]. split.
  - apply load_stored; [done|]. unfold stored_prefs. cbn [kv].
    repeat first [ rewrite get_put_text | rewrite (get_put_text_ne K_deviceName) by (by apply Hk) | rewrite (get_put_text_ne K_host) by (by apply Hk)
      | rewrite map_get_set_eq | rewrite map_get_set_ne by (by apply Hk) ].
    rewrite !parse_stored by (done || apply strings_wf). cbn. by rewrite strings_of_map.
  - unfold done_on. cbn [kv]. do 2 (rewrite get_put_text_ne by (by apply Hk)). by repeat rewrite map_get_set_ne by (by apply Hk).
Qed.
End Prefs.
