(* ===== verification/Guards.v ===== *)
(** * Guards on overlapping asynchronous work

    Four small state machines the screens rely on: [guardedAction] of
    [core/asyncGuards.ts] (a double tap runs an action once), [singleFlight] of
    [features/photoBackup/photoBackupLogic.ts] (callers share the run in flight) and
    [leaseMediaProxy] of [features/preview/mediaProxyLease.ts] (leaving a video never
    leaves its loopback server alive), and the in-flight guard of the ping in
    [features/hosts/useHostStatus.ts] (a forced refresh is not lost to a running one).  A step is one event: a call, or a promise that
    settles; between steps any other event may come. *)

From Stdlib Require Import ZArith Lia Bool.
From Stdlib Require List.
From stdpp Require Import relations.
From S2P Require Import Prelude JsCollections JsString Errors.

Lemma elem_keys_snoc {A B} (l : list (A * B)) j b i : i ∈ (l ++ [(j, b)]).*1 <-> i ∈ l.*1 \/ i = j.
Proof. rewrite fmap_app, elem_of_app. cbn. by rewrite list_elem_of_singleton. Qed.
Lemma NoDup_snoc {A} (l : list A) x : x ∉ l -> NoDup l -> NoDup (l ++ [x]).
Proof.
  intros Hx Hl. apply NoDup_app. split_and!; [done| |apply NoDup_singleton]. intros y Hy Hin. apply list_elem_of_singleton in Hin. by subst.
Qed.

(** ** One action at a time *)

Module GuardedAction.
(** A call of the wrapped action, by number: ignored, running, or done with its answer. *)
Record Guard := {
  busy : bool;
  running : list nat;                   (** calls whose [fn] has not settled *)
  started : list nat;                   (** calls that ran [fn], in order *)
  answers : list (nat * bool);          (** what each settled call resolved to *)
  errors : list (nat * jserror);        (** handed to [onError] *)
  calls : nat
}.
Definition guarded_init : Guard := {| busy := false; running := []; started := []; answers := []; errors := []; calls := 0 |}.
Inductive GEvent := g_call | g_settle (i : nat) (r : result jserror unit).
(** A call while busy answers [false] at once; otherwise it takes the flag and runs. *)
Definition guarded_call (g : Guard) : Guard :=
  if busy g then {| busy := true; running := running g; started := started g; answers := answers g ++ [(calls g, false)]; errors := errors g; calls := S (calls g) |}
  else {| busy := true; running := running g ++ [calls g]; started := started g ++ [calls g]; answers := answers g; errors := errors g; calls := S (calls g) |}.
(** [fn] settles: the error goes to [onError], the flag is cleared, the call answers. *)
Definition guarded_settle (i : nat) (r : result jserror unit) (g : Guard) : Guard :=
  if set_has i (running g) then
    {| busy := false; running := set_delete i (running g); started := started g;
       answers := answers g ++ [(i, match r with Ok _ => true | Err _ => false end)];
       errors := match r with Ok _ => errors g | Err e => errors g ++ [(i, e)] end; calls := calls g |}
  else g.
Definition gstep (g : Guard) (e : GEvent) : Guard := match e with g_call => guarded_call g | g_settle i r => guarded_settle i r g end.

Record GI (g : Guard) : Prop := {
  gi_busy : if busy g then exists i, running g = [i] else running g = [];
  gi_calls i : (i < calls g)%nat <-> i ∈ running g \/ i ∈ (answers g).*1;
  gi_once : NoDup (running g ++ (answers g).*1);
  gi_true i b : (i, b) ∈ answers g -> b = true -> i ∈ started g;
  gi_started i : i ∈ running g -> i ∈ started g;
  gi_errors i : i ∈ (errors g).*1 <-> (i, false) ∈ answers g /\ i ∈ started g
}.
Lemma GI_init : GI guarded_init.
Proof.
  split; cbn; [done | | apply NoDup_nil_2 | intros ? ? H; by apply elem_of_nil in H | intros ? H; by apply elem_of_nil in H|].
  - intros i. rewrite elem_of_nil. split; [lia | tauto].
  - intros i. rewrite !elem_of_nil. tauto.
Qed.
Notation known g := (forall i, i ∈ started g -> (i < calls g)%nat).
Lemma GI_call g : GI g -> known g -> GI (guarded_call g) /\ known (guarded_call g).
Proof.
  intros [Hb Hc Ho Ht Hs He] Hlt.
  - assert (calls g ∉ running g ++ (answers g).*1) as Hfresh.
    { intros Hin%elem_of_app. apply Hc in Hin. lia. }
    unfold guarded_call. destruct (busy g).
    + split; [|cbn; intros i Hi; specialize (Hlt i Hi); lia]. split; cbn; try done.
      * intros i. rewrite elem_keys_snoc. specialize (Hc i). destruct (decide (i = calls g)); [subst; intuition lia|].
        split; [intros; destruct (proj1 Hc ltac:(lia)); tauto | intros [H|[H|H]]; [assert (i < calls g)%nat by tauto; lia | assert (i < calls g)%nat by tauto; lia | done]].
      * rewrite fmap_app, app_assoc. by apply NoDup_snoc.
      * intros i b [H|H]%elem_of_app ->; [by eapply Ht|]. by apply list_elem_of_singleton in H.
      * intros i. rewrite He, elem_of_app, list_elem_of_singleton. split; [tauto|]. intros [[H|H] Hst]; [done|]. injection H as ->. specialize (Hlt _ Hst). lia.
    + split; [|cbn; intros i [Hi|Hi]%elem_of_app; [specialize (Hlt i Hi); lia | apply list_elem_of_singleton in Hi; lia]]. rewrite Hb in *. split; cbn; try done.
      * by eexists.
      * intros i. rewrite list_elem_of_singleton. specialize (Hc i). rewrite elem_of_nil in Hc. destruct (decide (i = calls g)); [subst; split; [by left | lia]|].
        split; [intros; destruct (proj1 Hc ltac:(lia)); tauto | intros [H|H]; [done | assert (i < calls g)%nat by tauto; lia]].
      * apply NoDup_cons. split; [|by apply NoDup_app in Ho as (_ & _ & ?)]. by intros H; apply Hfresh.
      * intros i b Hin ->. apply elem_of_app. left. by eapply Ht.
      * intros i ->%list_elem_of_singleton. apply elem_of_app. right. left.
      * intros i. rewrite He, elem_of_app, list_elem_of_singleton. split; [tauto|]. intros [H [Hst|Hst]]; [done|]. subst i. exfalso. apply Hfresh.
        cbn. apply (list_elem_of_fmap_2 fst _ _ H).
Qed.
Lemma GI_settle i r g : GI g -> known g -> GI (guarded_settle i r g) /\ known (guarded_settle i r g).
Proof.
  intros [Hb Hc Ho Ht Hs He] Hlt.
  - unfold guarded_settle. destruct (set_has i (running g)) eqn:Ei; [|done]. apply set_has_spec in Ei.
    destruct (busy g); [|by rewrite Hb in Ei; apply elem_of_nil in Ei]. destruct Hb as [j Hj]. rewrite Hj in *. apply list_elem_of_singleton in Ei as ->.
    cbn [app] in Ho. apply NoDup_cons in Ho as [Ho1 Ho2]. split; [|cbn; exact Hlt].
    assert (set_delete j [j] = []) as Hdel. { apply elem_of_nil_inv. intros x [Hne Hx]%elem_set_delete. by apply list_elem_of_singleton in Hx. }
    split; cbn [busy running started answers errors calls]; rewrite ?Hdel; try done.
    + intros i. rewrite elem_keys_snoc, Hc, elem_of_nil, list_elem_of_singleton. tauto.
    + rewrite fmap_app. by apply NoDup_snoc.
    + intros i b [H|H]%elem_of_app ->; [by eapply Ht|]. apply list_elem_of_singleton in H. injection H as -> H. apply Hs. left.
    + intros i Hi. by apply elem_of_nil in Hi.
    + intros i. assert (j ∈ started g) as Hst by (apply Hs; left). destruct r as [u|e].
      * rewrite He, elem_of_app, list_elem_of_singleton. split; [tauto|]. intros [[H|H] ?]; [done|]. by injection H.
      * rewrite elem_keys_snoc, He, elem_of_app, list_elem_of_singleton. split; [intros [H|H]; [tauto | subst; tauto]|].
        intros [[H|H] ?]; [tauto | injection H as ->; tauto].
Qed.

(** Every call settles once, at most one action runs at a time, a call made during another
    answers [false] without running, and an error reaches [onError] exactly for the calls that
    ran and answered [false]. *)
Theorem guardedAction_once (evs : list GEvent) : let g := fold_left gstep evs guarded_init in
  (length (running g) <= 1)%nat /\ (busy g = true <-> running g <> []) /\ NoDup (answers g).*1 /\
  (forall i, (i < calls g)%nat <-> i ∈ running g \/ i ∈ (answers g).*1) /\
  (forall i, (i, true) ∈ answers g -> i ∈ started g) /\
  (forall i, i ∈ (errors g).*1 <-> (i, false) ∈ answers g /\ i ∈ started g).
Proof.
  intros g. assert (GI g /\ (forall i, i ∈ started g -> (i < calls g)%nat)) as [[Hb Hc Ho Ht Hs He] _].
  { unfold g. assert (forall g0, GI g0 -> (forall i, i ∈ started g0 -> (i < calls g0)%nat) ->
      GI (fold_left gstep evs g0) /\ (forall i, i ∈ started (fold_left gstep evs g0) -> (i < calls (fold_left gstep evs g0))%nat)) as H.
    { induction evs as [|e evs IH]; intros g0 H1 H2; [done|]. cbn [fold_left]. destruct e as [|i r]; [destruct (GI_call g0 H1 H2) | destruct (GI_settle i r g0 H1 H2)]; by apply IH. }
    apply H; [apply GI_init|]. intros i Hi. by apply elem_of_nil in Hi. }
  split_and!; [destruct (busy g); [destruct Hb as [i ->]; done | rewrite Hb; cbn; lia] | | by apply NoDup_app in Ho as (_ & _ & ?) | done | intros i Hi; by eapply Ht | done].
  destruct (busy g); [destruct Hb as [i ->]; done | by rewrite Hb].
Qed.
End GuardedAction.

(** ** Sharing the run in flight *)

Module SingleFlight.
Section SingleFlight.
Context {A R : Type}.
Record Flight := {
  current : option nat;                     (** the promise callers share: its run *)
  runs : list (A * option R);               (** every run: its arguments, and how it settled *)
  joined : list nat                         (** the run each call returned the promise of *)
}.
Definition flight_init : Flight := {| current := None; runs := []; joined := [] |}.
Inductive FEvent := f_call (a : A) | f_settle (r : nat) (v : R).
Definition shared_call (a : A) (f : Flight) : Flight :=
  match current f with
  | Some p => {| current := Some p; runs := runs f; joined := joined f ++ [p] |}
  | None => {| current := Some (length (runs f)); runs := runs f ++ [(a, None)]; joined := joined f ++ [length (runs f)] |}
  end.
(** A run settles once; its [finally] clears [current] if it is still the one. *)
Definition run_settled (p : nat) (v : R) (f : Flight) : Flight :=
  match runs f !! p with
  | Some (a, None) => {| current := match current f with Some q => if (q =? p)%nat then None else Some q | None => None end;
                         runs := <[p := (a, Some v)]> (runs f); joined := joined f |}
  | _ => f
  end.
Definition fstep (f : Flight) (e : FEvent) : Flight := match e with f_call a => shared_call a f | f_settle p v => run_settled p v f end.
(** What call [i] resolves to, once its run has settled. *)
Definition answer (f : Flight) (i : nat) : option R := joined f !! i ≫= fun p => runs f !! p ≫= snd.

Record FI (f : Flight) : Prop := {
  fi_open p a : runs f !! p = Some (a, None) <-> current f = Some p /\ exists a', runs f !! p = Some (a', None) /\ a' = a;
  fi_current p : current f = Some p -> exists a, runs f !! p = Some (a, None);
  fi_joined i p : joined f !! i = Some p -> (p < length (runs f))%nat
}.
Lemma FI_init : FI flight_init.
Proof. split; cbn; [|done|done]. intros p a. rewrite lookup_nil. naive_solver. Qed.
Lemma FI_step f e : FI f -> FI (fstep f e).
Proof.
  intros [Ho Hc Hj]. assert (forall p a, runs f !! p = Some (a, None) -> current f = Some p) as Hopen by (intros p a H; by apply Ho in H as [? _]).
  destruct e as [a|p v]; cbn [fstep].
  - unfold shared_call. destruct (current f) as [q|] eqn:Ec.
    + split; cbn; [done | done|]. intros i p Hi. apply lookup_app_Some in Hi as [Hi|[_ Hi]]; [by eapply Hj|].
      destruct (i - length (joined f))%nat; [|done]. injection Hi as <-. destruct (Hc q eq_refl) as [a' Ha]. by eapply lookup_lt_Some.
    + split; cbn.
      * intros p a'. rewrite lookup_app. destruct (runs f !! p) as [[b [w|]]|] eqn:Ep; [split; [done | by intros [_ (? & [=] & _)]] | by apply Hopen in Ep|].
        apply lookup_ge_None in Ep. destruct (p - length (runs f))%nat eqn:Ed; cbn; [|split; [done | by intros [_ (? & ? & _)]]].
        assert (p = length (runs f)) as -> by lia. naive_solver.
      * intros p [= <-]. exists a. by rewrite lookup_app_r, Nat.sub_diag.
      * intros i p Hi. rewrite length_app. cbn. apply lookup_app_Some in Hi as [Hi|[_ Hi]]; [specialize (Hj _ _ Hi); lia|].
        destruct (i - length (joined f))%nat; [|done]. injection Hi as <-. lia.
  - unfold run_settled. destruct (runs f !! p) as [[a [w|]]|] eqn:Ep; [done| |done]. rewrite (Hopen _ _ Ep). rewrite Nat.eqb_refl.
    split; cbn; [|done | intros i q Hi; rewrite length_insert; by eapply Hj].
    intros q a'. destruct (decide (q = p)) as [->|Hne].
    + rewrite list_lookup_insert_eq by (by eapply lookup_lt_Some). naive_solver.
    + rewrite list_lookup_insert_ne by done. split; [|by intros [? _]]. intros H. apply Hopen in H. rewrite (Hopen _ _ Ep) in H. congruence.
Qed.

(** At most one run is in flight, and [current] is exactly it; every call has joined a run, and
    calls that joined the same run resolve to the same value: the value that run settled with.
    A call starts a run of its own arguments exactly when none is in flight. *)
Theorem singleFlight_shares (evs : list FEvent) : let f := fold_left fstep evs flight_init in
  (forall p q a b, runs f !! p = Some (a, None) -> runs f !! q = Some (b, None) -> p = q) /\
  (forall p, current f = Some p <-> exists a, runs f !! p = Some (a, None)) /\
  (forall i p, joined f !! i = Some p -> exists a o, runs f !! p = Some (a, o) /\ answer f i = o) /\
  (forall a, current f = None -> runs (shared_call a f) = runs f ++ [(a, None)]) /\
  (forall a p, current f = Some p -> runs (shared_call a f) = runs f /\ last (joined (shared_call a f)) = Some p).
Proof.
  intros f. assert (FI f) as [Ho Hc Hj].
  { unfold f. assert (forall f0, FI f0 -> FI (fold_left fstep evs f0)) as H; [|apply H, FI_init].
    induction evs as [|e evs IH]; intros f0 H0; [done|]. cbn [fold_left]. by apply IH, FI_step. }
  assert (forall p a, runs f !! p = Some (a, None) -> current f = Some p) as Hopen by (intros p a H; by apply Ho in H as [? _]).
  split_and!.
  - intros p q a b Hp Hq. apply Hopen in Hp, Hq. congruence.
  - intros p. split; [apply Hc | intros [a Ha]; by eapply Hopen].
  - intros i p Hi. destruct (lookup_lt_is_Some_2 (runs f) p (Hj _ _ Hi)) as [[a o] Ha]. exists a, o. unfold answer. by rewrite Hi; cbn; rewrite Ha.
  - intros a Hn. unfold shared_call. by rewrite Hn.
  - intros a p Hp. unfold shared_call. rewrite Hp. cbn. by rewrite last_snoc.
Qed.
End SingleFlight.
End SingleFlight.

(** ** The media proxy lease *)

Module MediaLease.
(** How far the chain [getSpec().then(...).then(settled, settled)] has come. *)
Inductive Chain := awaiting_spec | awaiting_start | uri_settled | chain_done.
Record Lease := {
  released : bool;
  startCalled : bool;
  startSettled : bool;
  chain : Chain;
  alive : bool;           (** a loopback listener exists *)
  stops : nat;            (** [proxy.stop] calls on their way *)
  starts : nat            (** [proxy.start] calls made *)
}.
Definition lease_init : Lease :=
  {| released := false; startCalled := false; startSettled := false; chain := awaiting_spec; alive := false; stops := 0; starts := 0 |}.
Definition stop (l : Lease) : Lease :=
  {| released := released l; startCalled := startCalled l; startSettled := startSettled l; chain := chain l; alive := alive l; stops := S (stops l); starts := starts l |}.
(** The spec resolved: throw when released meanwhile, else call [start]. *)
Definition on_spec (l : Lease) : Lease :=
  if released l
  then {| released := released l; startCalled := startCalled l; startSettled := startSettled l; chain := uri_settled; alive := alive l; stops := stops l; starts := starts l |}
  else {| released := released l; startCalled := true; startSettled := startSettled l; chain := awaiting_start; alive := alive l; stops := stops l; starts := S (starts l) |}.
Definition settled (l : Lease) : Lease :=
  let l' := {| released := released l; startCalled := startCalled l; startSettled := true; chain := chain_done; alive := alive l; stops := stops l; starts := starts l |} in
  if released l && startCalled l then stop l' else l'.
Definition release (l : Lease) : Lease :=
  if released l then l
  else
    let l' := {| released := true; startCalled := startCalled l; startSettled := startSettled l; chain := chain l; alive := alive l; stops := stops l; starts := starts l |} in
    if startSettled l && startCalled l then stop l' else l'.
Definition with_chain (c : Chain) (up : bool) (l : Lease) : Lease :=
  {| released := released l; startCalled := startCalled l; startSettled := startSettled l; chain := c; alive := up; stops := stops l; starts := starts l |}.

(** One event: the spec arrives or fails, [start] returns or fails (with or without a listener
    left behind), the [settled] callback runs, a stop takes effect, the screen releases. *)
Inductive lstep : Lease -> Lease -> Prop :=
| step_spec l : chain l = awaiting_spec -> lstep l (on_spec l)
| step_spec_failed l : chain l = awaiting_spec -> lstep l (with_chain uri_settled (alive l) l)
| step_started l up : chain l = awaiting_start -> lstep l (with_chain uri_settled up l)
| step_settled l : chain l = uri_settled -> lstep l (settled l)
| step_release l : lstep l (release l)
| step_stopped l n : stops l = S n ->
    lstep l {| released := released l; startCalled := startCalled l; startSettled := startSettled l; chain := chain l; alive := false; stops := n; starts := starts l |}.

Record LI (l : Lease) : Prop := {
  li_settled : startSettled l = true <-> chain l = chain_done;
  li_start : chain l = awaiting_start -> startCalled l = true;
  li_waiting : chain l = awaiting_spec -> startCalled l = false;
  li_alive : alive l = true -> startCalled l = true /\ (chain l = uri_settled \/ chain l = chain_done);
  li_kept : released l = false -> stops l = 0%nat;
  li_stop : released l = true -> startCalled l = true -> chain l = chain_done -> alive l = true -> (0 < stops l)%nat;
  li_early : stops l <> 0%nat -> chain l = chain_done;
  li_once : starts l = (if startCalled l then 1 else 0)%nat
}.
Lemma LI_init : LI lease_init.
Proof. by split. Qed.
Lemma LI_step l l' : LI l -> lstep l l' -> LI l'.
Proof.
  intros [H1 H2 H3 H4 H5 H6 H7 H8] H.
  destruct H as [[rel sc ss ch al st sts] Hc|[rel sc ss ch al st sts] Hc|[rel sc ss ch al st sts] up Hc|[rel sc ss ch al st sts] Hc
    |[rel sc ss ch al st sts]|[rel sc ss ch al st sts] n Hc]; cbn in *; try subst ch; unfold on_spec, settled, release, stop, with_chain; cbn.
  all: destruct rel, sc; try destruct ss; cbn; split; cbn; try (intuition (done || congruence || lia)).
Qed.

(** C24 Whatever the order in which the spec, the start, its callback, the stops and the release
    happen: [start] is called at most once and never after the release; until the screen releases
    the lease nothing stops its listener; and once it is released and every call has settled, no
    loopback listener (with its bearer headers) is left alive. *)
Theorem lease_never_leaks (l : Lease) : rtc lstep lease_init l ->
  (starts l <= 1)%nat /\ (released l = false -> stops l = 0%nat) /\
  (released l = true -> starts (on_spec l) = starts l) /\
  (released l = true -> chain l = chain_done -> stops l = 0%nat -> alive l = false).
Proof.
  intros H. assert (LI l) as [H1 H2 H3 H4 H5 H6 H7 H8].
  { revert H. generalize LI_init. generalize lease_init. intros l0 H0 H. induction H as [|x y z Hxy _ IH]; [done|]. by eapply IH, LI_step. }
  split_and!; [destruct (startCalled l); lia | done | unfold on_spec; by intros -> |].
  intros Hr Hc Hs. destruct (alive l) eqn:Ea; [|done]. destruct (H4 eq_refl) as [Hsc _]. specialize (H6 Hr Hsc Hc eq_refl). lia.
Qed.
End MediaLease.

Lemma lease_never_leaks_witness : exists l,
  rtc MediaLease.lstep MediaLease.lease_init l /\ MediaLease.released l = true /\ MediaLease.starts l = 1%nat /\ MediaLease.alive l = false.
Proof.
  set (l1 := MediaLease.on_spec MediaLease.lease_init). set (l2 := MediaLease.release l1).
  set (l3 := MediaLease.with_chain MediaLease.uri_settled true l2). set (l4 := MediaLease.settled l3).
  set (l5 := {| MediaLease.released := MediaLease.released l4; MediaLease.startCalled := MediaLease.startCalled l4;
    MediaLease.startSettled := MediaLease.startSettled l4; MediaLease.chain := MediaLease.chain l4; MediaLease.alive := false; MediaLease.stops := 0; MediaLease.starts := MediaLease.starts l4 |}).
  assert (rtc MediaLease.lstep MediaLease.lease_init l5) as H.
  { eapply rtc_l; [apply MediaLease.step_spec; reflexivity|]. eapply rtc_l; [apply (MediaLease.step_release l1)|].
    eapply rtc_l; [apply (MediaLease.step_started l2 true); reflexivity|]. eapply rtc_l; [apply (MediaLease.step_settled l3); reflexivity|].
    eapply rtc_l; [apply (MediaLease.step_stopped l4 0); reflexivity|]. apply rtc_refl. }
  exists l5. split; [exact H|]. split; [reflexivity|]. split; [reflexivity|].
  destruct (MediaLease.lease_never_leaks l5 H) as (_ & _ & _ & K). apply K; reflexivity.
Defined.

(** ** A forced ping is not lost *)

Module PingGuard.
(** [owed]: forced calls made since the last forced ping started. *)
Record Ping := { inFlight : bool; rerunForced : bool; pings : list bool; owed : nat }.
Definition ping_init : Ping := {| inFlight := false; rerunForced := false; pings := []; owed := 0 |}.
Inductive PEvent := p_call (forceDrives : bool) | p_settle.
Definition start (forceDrives : bool) (p : Ping) : Ping :=
  {| inFlight := true; rerunForced := rerunForced p; pings := pings p ++ [forceDrives]; owed := if forceDrives then 0 else owed p |}.
Definition ping_call (forceDrives : bool) (p : Ping) : Ping :=
  if inFlight p then
    if forceDrives then {| inFlight := true; rerunForced := true; pings := pings p; owed := S (owed p) |} else p
  else start forceDrives p.
(** The [finally] of the ping in flight. *)
Definition ping_settled (p : Ping) : Ping :=
  if inFlight p then
    if rerunForced p then start true {| inFlight := false; rerunForced := false; pings := pings p; owed := owed p |}
    else {| inFlight := false; rerunForced := rerunForced p; pings := pings p; owed := owed p |}
  else p.
Definition pstep (p : Ping) (e : PEvent) : Ping := match e with p_call f => ping_call f p | p_settle => ping_settled p end.

(** Whatever calls come while a ping is out: a forced call not yet served keeps a forced ping
    pending, and when no ping is out every forced call was followed by a forced ping. *)
Theorem forced_ping_served (es : list PEvent) : let p := fold_left pstep es ping_init in
  (owed p <> 0%nat -> inFlight p = true /\ rerunForced p = true) /\ (inFlight p = false -> owed p = 0%nat) /\
  (owed p <> 0%nat -> last (pings (ping_settled p)) = Some true /\ owed (ping_settled p) = 0%nat).
Proof.
  cbv zeta. assert (forall p, (owed p <> 0%nat -> inFlight p = true /\ rerunForced p = true) -> (rerunForced p = true -> inFlight p = true) ->
    let q := fold_left pstep es p in (owed q <> 0%nat -> inFlight q = true /\ rerunForced q = true)) as H.
  { induction es as [|e es IH]; intros p H1 H2; [done|]. cbn [fold_left]. apply IH; destruct e as [[]|]; unfold pstep, ping_call, ping_settled, start; destruct (inFlight p) eqn:Ei; cbn in *; try done;
      destruct (rerunForced p) eqn:Er; cbn in *; try done; intuition congruence. }
  specialize (H ping_init ltac:(done) ltac:(done)). cbv zeta in H. set (p := fold_left pstep es ping_init) in *. clearbody p. split; [done|]. split.
  - intros Hi. destruct (owed p) eqn:E; [done|]. destruct H as [H _]; [lia|]. congruence.
  - intros Ho. destruct (H Ho) as [Hi Hr]. unfold ping_settled. rewrite Hi, Hr. cbn. by rewrite last_snoc.
Qed.
End PingGuard.
