(* ===== verification/Offline.v ===== *)
(** * Offline copies of pinned folders

    [features/offline/offlineBodies.ts]: which files are kept in the encrypted vault and
    its size budget; [features/offline/pinSync.ts]: refreshing pinned folders once per
    session.  The vault is the native module's: bodies by computer and path, with their
    sizes; every call may reject, as a script says. *)

From Stdlib Require Import ZArith Lia Bool.
From Stdlib Require List.
From S2P Require Import Prelude JsCollections JsString Errors Models Host Paths.
Local Open Scope js_scope.

Definition MAX_OFFLINE_FILE_BYTES : Z := 50 * 1024 * 1024.
Definition MAX_OFFLINE_CACHE_BYTES : Z := 500 * 1024 * 1024.

(** ** The vault *)

Record Vault := { bodies : list ((jstr * jstr) * Z); vault_faults : list bool }.
Notation V := (M Vault jserror).
Definition vault_error : jserror := PlainError (js "vault").
Definition vault_call {A} (f : Vault -> Vault * A) : V A := fun v =>
  match vault_faults v with
  | true :: fs => ({| bodies := bodies v; vault_faults := fs |}, Err vault_error)
  | fs => let (v', a) := f {| bodies := bodies v; vault_faults := tail fs |} in (v', Ok a)
  end.
Definition total_of (b : list ((jstr * jstr) * Z)) : Z := foldr (fun p n => p.2 + n) 0 b.
Module OfflineVault.
Definition has (hostId path : jstr) : V bool := vault_call (fun v => (v, is_some (map_get (hostId, path) (bodies v)))).
Definition put (hostId path : jstr) (size : Z) : V unit :=
  vault_call (fun v => ({| bodies := map_set (hostId, path) size (bodies v); vault_faults := vault_faults v |}, tt)).
Definition totalBytes : V Z := vault_call (fun v => (v, total_of (bodies v))).
(** Restoring decrypts a body to the destination; a body that fails authentication is deleted and counts as absent. *)
Definition restore (authentic : bool) (hostId path : jstr) : V bool :=
  vault_call (fun v => match map_get (hostId, path) (bodies v) with
    | None => (v, false)
    | Some _ => if authentic then (v, true) else ({| bodies := map_delete (hostId, path) (bodies v); vault_faults := vault_faults v |}, false)
    end).
End OfflineVault.

Section Bodies.
Context (isPinnedFolder : jstr -> jstr -> bool) (file_size : jstr -> Z).
Notation size_of e := (default 0 (entry_size e)).

Definition wantsOfflineCopy (host : Host) (e : Entry) : bool :=
  negb (entry_isDir e) && (size_of e <=? MAX_OFFLINE_FILE_BYTES) && isPinnedFolder (host_id host) (parentDirOf (entry_path e)).
Definition keepOfflineCopy (host : Host) (e : Entry) (localPath : jstr) (replace : bool) : V bool :=
  attempt (
    if negb (wantsOfflineCopy host e) then ret false
    else
      had <- OfflineVault.has (host_id host) (entry_path e);;
      if negb replace && had then ret false
      else
        total <- OfflineVault.totalBytes;;
        if MAX_OFFLINE_CACHE_BYTES <? total + (if had then 0 else size_of e) then ret false
        else OfflineVault.put (host_id host) (entry_path e) (file_size localPath);; ret true) false.
Definition restoreOfflineCopy (authentic : bool) (host : Host) (e : Entry) : V bool :=
  attempt (OfflineVault.restore authentic (host_id host) (entry_path e)) false.

(** The [for] loop: [used] counts what this pass has added. *)
Fixpoint precache_loop (fetchFile : Host -> Entry -> V unit) (host : Host) (entries : list Entry) (used : Z) (fetched : nat) : Vault -> Vault * nat := fun v =>
  match entries with
  | [] => (v, fetched)
  | e :: rest =>
      if entry_isDir e || (MAX_OFFLINE_FILE_BYTES <? size_of e) then precache_loop fetchFile host rest used fetched v
      else
        let (v1, known) := OfflineVault.has (host_id host) (entry_path e) v in
        match known with
        | Err _ | Ok true => precache_loop fetchFile host rest used fetched v1
        | Ok false =>
            if MAX_OFFLINE_CACHE_BYTES <? used + size_of e then precache_loop fetchFile host rest used fetched v1
            else
              let (v2, r) := fetchFile host e v1 in
              match r with
              | Ok _ => precache_loop fetchFile host rest (used + size_of e) (S fetched) v2
              | Err _ => precache_loop fetchFile host rest used fetched v2
              end
        end
  end.
Definition precachePinnedFolder (fetchFile : Host -> Entry -> V unit) (host : Host) (entries : list Entry) : V nat := fun v =>
  match OfflineVault.totalBytes v with
  | (v1, Err _) => (v1, Ok 0%nat)
  | (v1, Ok used) => let (v2, n) := precache_loop fetchFile host entries used 0 v1 in (v2, Ok n)
  end.
End Bodies.

(** ** Pinned folders *)

Record PinSyncResult := { pin_folders : nat; pin_failed : nat; pin_filesFetched : nat }.
Section PinSync.
Context {W : Type} (listAll : jstr -> M W jserror (list Entry)) (storeListing : jstr -> list Entry -> M W jserror unit)
  (precache : list Entry -> M W jserror nat).
Definition refresh_folder (path : jstr) : M W jserror nat :=
  entries <- listAll path;; storeListing path entries;; precache entries.
Fixpoint refresh_loop (paths : list jstr) (r : PinSyncResult) (w : W) : W * PinSyncResult :=
  match paths with
  | [] => (w, r)
  | path :: rest =>
      let (w', o) := refresh_folder path w in
      refresh_loop rest (match o with
        | Ok n => {| pin_folders := S (pin_folders r); pin_failed := pin_failed r; pin_filesFetched := pin_filesFetched r + n |}
        | Err _ => {| pin_folders := pin_folders r; pin_failed := S (pin_failed r); pin_filesFetched := pin_filesFetched r |}
        end) w'
  end.
Definition refreshPinnedFolders (paths : list jstr) (w : W) : W * PinSyncResult :=
  refresh_loop paths {| pin_folders := 0; pin_failed := 0; pin_filesFetched := 0 |} w.

(** Every folder is visited once and counted once; the pass never throws. *)
Lemma refreshPinnedFolders_counts paths w : let r := (refreshPinnedFolders paths w).2 in (pin_folders r + pin_failed r)%nat = length paths.
Proof.
  unfold refreshPinnedFolders. assert (forall r w, let r' := (refresh_loop paths r w).2 in
    (pin_folders r' + pin_failed r' = pin_folders r + pin_failed r + length paths)%nat) as H; [|cbn zeta; by rewrite H].
  induction paths as [|p paths IH]; intros r w0; cbn [refresh_loop length]; [cbn; lia|].
  destruct (refresh_folder p w0) as [w' [n|e]]; cbn zeta; rewrite IH; cbn; lia.
Qed.
End PinSync.
Definition pinSyncPending (doneThisSession : list jstr) (hostId : jstr) : bool := negb (set_has hostId doneThisSession).
Definition markPinSynced (hostId : jstr) (doneThisSession : list jstr) : list jstr := set_add hostId doneThisSession.

(** ** The budget *)

Definition positive_sizes (v : Vault) : Prop := Forall (fun p => 0 <= p.2) (bodies v).
Lemma total_set k n b : total_of (map_set k n b) = total_of b + n - default 0 (map_get k b).
Proof.
  induction b as [|[k' m] b IH]; cbn [map_set map_get total_of foldr snd]; [cbn; lia|]. destruct (decide (k' = k)) as [->|Hne].
  - cbn. lia.
  - cbn [total_of foldr snd]. fold (total_of b) (total_of (map_set k n b)). rewrite IH. lia.
Qed.
Lemma Forall_map_set (P : (jstr * jstr) * Z -> Prop) k n b : Forall P b -> P (k, n) -> Forall P (map_set k n b).
Proof.
  intros H Hk. induction H as [|[k' m] b Hx Hb IH]; cbn [map_set]; [constructor; [done | constructor]|].
  destruct (decide (k' = k)); constructor; done.
Qed.
Lemma get_positive k b : Forall (fun p : (jstr * jstr) * Z => 0 <= p.2) b -> 0 <= default 0 (map_get k b).
Proof.
  intros H. destruct (map_get k b) as [n|] eqn:E; [|cbn; lia]. apply map_get_Some_elem in E. rewrite Forall_forall in H. exact (H _ E).
Qed.
Lemma vault_call_cases {A} (f : Vault -> Vault * A) v : exists fs,
  vault_call f v = ({| bodies := bodies v; vault_faults := fs |}, Err vault_error) \/
  vault_call f v = (let (v', a) := f {| bodies := bodies v; vault_faults := fs |} in (v', Ok a)).
Proof. unfold vault_call. destruct (vault_faults v) as [|[|] fs]; [exists [] | exists fs | exists fs]; auto. Qed.
Ltac vault_step :=
  match goal with
  | |- context [vault_call ?f ?v] => let fs := fresh "fs" in let E := fresh "E" in
      destruct (vault_call_cases f v) as [fs [E|E]]; rewrite E; clear E; cbn beta iota
  end.

Section Budget.
Context (isPinnedFolder : jstr -> jstr -> bool) (file_size : jstr -> Z).
Notation size_of e := (default 0 (entry_size e)).
(** The bound the vault keeps: the budget, and one file over it. *)
Definition OFFLINE_BOUND : Z := MAX_OFFLINE_CACHE_BYTES + MAX_OFFLINE_FILE_BYTES.
Record Kept := { k_host : Host; k_entry : Entry; k_path : jstr; k_replace : bool }.
(** The fetched body is as long as the listing said. *)
Definition honest (k : Kept) : Prop := 0 <= size_of (k_entry k) /\ file_size (k_path k) = size_of (k_entry k).
Definition keep (k : Kept) : V bool := keepOfflineCopy isPinnedFolder file_size (k_host k) (k_entry k) (k_path k) (k_replace k).
Fixpoint keep_all (ks : list Kept) (v : Vault) : Vault := match ks with [] => v | k :: r => keep_all r (keep k v).1 end.

Definition KeepSpec (k : Kept) (v v' : Vault) : Prop :=
  positive_sizes v' /\ total_of (bodies v') <= Z.max (total_of (bodies v)) OFFLINE_BOUND /\
  (forall h p n, map_get (h, p) (bodies v') = Some n -> map_get (h, p) (bodies v) = Some n \/
     h = host_id (k_host k) /\ p = entry_path (k_entry k) /\ wantsOfflineCopy isPinnedFolder (k_host k) (k_entry k) = true /\ n <= MAX_OFFLINE_FILE_BYTES) /\
  (map_get (host_id (k_host k), entry_path (k_entry k)) (bodies v) = None -> total_of (bodies v') <= Z.max (total_of (bodies v)) MAX_OFFLINE_CACHE_BYTES).
Lemma keep_quiet k v v' : positive_sizes v -> bodies v' = bodies v -> KeepSpec k v v'.
Proof. intros Hp E. unfold KeepSpec, positive_sizes. rewrite E. split_and!; [done | lia | by left | lia]. Qed.
Lemma keep_spec k v : honest k -> positive_sizes v -> KeepSpec k v (keep k v).1.
Proof.
  intros [Hs Hf] Hp. unfold keep, keepOfflineCopy, attempt, catch.
  destruct (wantsOfflineCopy isPinnedFolder (k_host k) (k_entry k)) eqn:Ew; cbn [negb]; [|by apply keep_quiet].
  unfold bind, ret, OfflineVault.has, OfflineVault.totalBytes, OfflineVault.put. vault_step; [by apply keep_quiet|].
  cbn [bodies]. set (key := (host_id (k_host k), entry_path (k_entry k))). destruct (negb (k_replace k) && _); [by apply keep_quiet|].
  vault_step; [by apply keep_quiet|]. cbn [bodies]. destruct (MAX_OFFLINE_CACHE_BYTES <? _) eqn:Eb; [by apply keep_quiet|].
  vault_step; [by apply keep_quiet|]. cbn [fst bodies]. rewrite Hf. breflect. pose proof Ew as Ew2. unfold wantsOfflineCopy in Ew2. breflect.
  pose proof (get_positive key _ Hp) as Hg. unfold KeepSpec, OFFLINE_BOUND, positive_sizes. fold key. cbn [bodies]. rewrite total_set. split_and!.
  - by apply Forall_map_set.
  - destruct (map_get key (bodies v)) as [n|]; cbn [default is_some from_option id] in *; lia.
  - intros h p n. destruct (decide (key = (h, p))) as [E|Hne]; [|rewrite map_get_set_ne by done; by left].
    rewrite E, map_get_set_eq. intros [= <-]. right. by injection E as <- <-.
  - intros E. rewrite E in *. cbn [default is_some from_option id] in *. lia.
Qed.
(** Without [replace] a stored body is left alone. *)
Lemma keep_new k v : k_replace k = false -> is_Some (map_get (host_id (k_host k), entry_path (k_entry k)) (bodies v)) ->
  bodies (keep k v).1 = bodies v.
Proof.
  intros Hr [n Hn]. unfold keep, keepOfflineCopy, attempt, catch. rewrite Hr. destruct (negb _); [done|].
  unfold bind, ret, OfflineVault.has. vault_step; cbn; [done|]. by rewrite Hn.
Qed.

(** The vault of offline bodies stays within its budget plus one file, whatever is kept or
    replaced in whatever order and whichever vault calls fail; it never grows past the budget by
    a new entry; and it only ever holds files of pinned folders no larger than the per-file cap. *)
Theorem offline_budget (ks : list Kept) (v : Vault) : Forall honest ks -> positive_sizes v ->
  total_of (bodies (keep_all ks v)) <= Z.max (total_of (bodies v)) OFFLINE_BOUND /\
  (forall h p n, map_get (h, p) (bodies (keep_all ks v)) = Some n -> map_get (h, p) (bodies v) = Some n \/
     exists k, k ∈ ks /\ h = host_id (k_host k) /\ p = entry_path (k_entry k) /\ wantsOfflineCopy isPinnedFolder (k_host k) (k_entry k) = true /\ n <= MAX_OFFLINE_FILE_BYTES) /\
  ((forall k, k ∈ ks -> k_replace k = false) -> total_of (bodies (keep_all ks v)) <= Z.max (total_of (bodies v)) MAX_OFFLINE_CACHE_BYTES).
Proof.
  intros H. revert v. induction H as [|k ks Hk _ IH]; intros v Hp; cbn [keep_all]; [split_and!; [lia | by left | lia]|].
  pose proof (keep_spec k v Hk Hp) as Hs. pose proof (keep_new k v) as Hn. destruct (keep k v) as [v1 r]. cbn [fst] in *. destruct Hs as (Hp1 & Ht & Hin & Hnew).
  destruct (IH v1 Hp1) as (I1 & I2 & I3). split_and!.
  - lia.
  - intros h p n Hg. destruct (I2 h p n Hg) as [H1|(k' & Hk' & H1)]; [|right; exists k'; split; [by right | done]].
    destruct (Hin h p n H1) as [?|H2]; [by left|]. right. exists k. split; [left | done].
  - intros Hr. assert (total_of (bodies v1) <= Z.max (total_of (bodies v)) MAX_OFFLINE_CACHE_BYTES); [|specialize (I3 (fun k' Hk' => Hr k' (list_elem_of_further _ _ _ Hk'))); lia].
    destruct (map_get (host_id (k_host k), entry_path (k_entry k)) (bodies v)) eqn:E; [|by apply Hnew]. rewrite Hn; [lia | apply Hr; left | by eexists].
Qed.

(** The loop keeps the vault within [used], and [used] within the budget. *)
Lemma precache_loop_within (fetchFile : Host -> Entry -> V unit) host bound es : MAX_OFFLINE_CACHE_BYTES <= bound ->
  (forall e v0, map_get (host_id host, entry_path e) (bodies v0) = None ->
     total_of (bodies (fetchFile host e v0).1) <= total_of (bodies v0) + (if is_ok (fetchFile host e v0).2 then size_of e else 0)) ->
  forall used n v0, total_of (bodies v0) <= used -> used <= bound ->
    ((precache_loop fetchFile host es used n v0).2 <= n + length es)%nat /\
    total_of (bodies (precache_loop fetchFile host es used n v0).1) <= bound.
Proof.
  intros Hm Hfetch. induction es as [|e es IH]; intros used n v0 H1 H2; cbn [precache_loop length]; [cbn [fst snd]; lia|].
  assert (forall u m w, total_of (bodies w) <= u -> u <= bound -> (m <= S n)%nat ->
    ((precache_loop fetchFile host es u m w).2 <= n + S (length es))%nat /\ total_of (bodies (precache_loop fetchFile host es u m w).1) <= bound) as IH'.
  { intros u m w Ha Hb Hc. destruct (IH u m w Ha Hb). lia. }
  destruct (entry_isDir e || _); [apply IH'; lia|]. unfold OfflineVault.has. vault_step; [apply IH'; cbn [bodies]; lia|]. cbn [bodies].
  destruct (map_get (host_id host, entry_path e) (bodies v0)) as [m|] eqn:Eg; cbn [is_some]; [apply IH'; cbn [bodies]; lia|].
  destruct (MAX_OFFLINE_CACHE_BYTES <? _) eqn:Eb; breflect; [apply IH'; cbn [bodies]; lia|].
  pose proof (Hfetch e {| bodies := bodies v0; vault_faults := fs |} Eg) as Hf.
  destruct (fetchFile host e _) as [v2 [u|er]]; cbn [fst snd is_ok bodies] in Hf; apply IH'; lia.
Qed.
(** Pre-fetching a pinned folder, with a fetch that stores at most the listed size of a file that
    was not stored and nothing when it fails, never takes the vault past its budget, and never throws. *)
Theorem precache_within_budget (fetchFile : Host -> Entry -> V unit) (host : Host) (entries : list Entry) (v : Vault) :
  (forall e v0, map_get (host_id host, entry_path e) (bodies v0) = None ->
     total_of (bodies (fetchFile host e v0).1) <= total_of (bodies v0) + (if is_ok (fetchFile host e v0).2 then size_of e else 0)) ->
  exists n, (precachePinnedFolder fetchFile host entries v).2 = Ok n /\ (n <= length entries)%nat /\
    total_of (bodies (precachePinnedFolder fetchFile host entries v).1) <= Z.max (total_of (bodies v)) MAX_OFFLINE_CACHE_BYTES.
Proof.
  intros Hfetch. unfold precachePinnedFolder, OfflineVault.totalBytes. vault_step; [exists 0%nat; split_and!; [done | lia | cbn [fst bodies]; lia]|]. cbn [bodies].
  destruct (precache_loop_within fetchFile host (Z.max (total_of (bodies v)) MAX_OFFLINE_CACHE_BYTES) entries ltac:(lia) Hfetch (total_of (bodies v)) 0
    {| bodies := bodies v; vault_faults := fs |}) as [H1 H2]; [cbn [bodies]; lia | lia|].
  destruct (precache_loop _ _ _ _ _ _) as [v2 n]. exists n. cbn [fst snd] in *. split_and!; [done | lia | done].
Qed.
End Budget.

Definition pinned_host : Host := {|
  host_id := js "h"; host_label := js "Mac"; host_address := js "10.0.0.2:8765"; certFingerprint := None;
  tailscaleName := None; tailscaleAddress := None; internetAddress := None; macAddress := None; note := None |}.
Definition pinned_entry (path : string) (size : Z) : Entry := {|
  entry_name := js path; entry_path := js path; entry_isDir := false; entry_size := Some size; entry_mimeType := None; entry_mode := None;
  entry_modified := None; entry_created := None; entry_isSymlink := false; entry_symlinkTarget := None; entry_childCount := None |}.
Definition kept_at (path : string) (size : Z) (replace : bool) : Kept :=
  {| k_host := pinned_host; k_entry := pinned_entry path size; k_path := [size]; k_replace := replace |}.
(** A file size read off the sample path. *)
Definition sample_size (p : jstr) : Z := default 0 (head p).

Lemma offline_budget_witness :
  let v := {| bodies := [((js "h", js "/p/old"), 7)]; vault_faults := [false; false; true] |} in
  let ks := [kept_at "/p/a" 5 false; kept_at "/p/b" 6 true; kept_at "/p/old" 9 false] in
  total_of (bodies (keep_all (fun _ _ => true) sample_size ks v)) = 13 /\
  total_of (bodies (keep_all (fun _ _ => true) sample_size ks v)) <= Z.max 7 OFFLINE_BOUND.
Proof.
  intros v ks. split; [vm_compute; reflexivity|].
  assert (Forall (honest sample_size) ks) as Hk by (repeat constructor; cbn; lia).
  assert (positive_sizes v) as Hv by (repeat constructor; cbn; lia).
  exact (proj1 (offline_budget (fun _ _ => true) sample_size ks v Hk Hv)).
Defined.
(** The budget counts nothing for a replaced body, however much larger the new one is: a vault at
    its budget goes past it when a small body is replaced by a large one. *)
Theorem offline_replace_exceeds_budget : exists k v, honest sample_size k /\ positive_sizes v /\ k_replace k = true /\
  total_of (bodies v) = MAX_OFFLINE_CACHE_BYTES /\
  total_of (bodies (keep (fun _ _ => true) sample_size k v).1) = MAX_OFFLINE_CACHE_BYTES + MAX_OFFLINE_FILE_BYTES - 1.
Proof.
  exists (kept_at "/p/a" MAX_OFFLINE_FILE_BYTES true),
    {| bodies := [((js "h", js "/p/a"), 1); ((js "h", js "/p/b"), MAX_OFFLINE_CACHE_BYTES - 1)]; vault_faults := [] |}.
  split; [split; by vm_compute|]. split; [repeat constructor; by vm_compute|]. split; [done|]. split; vm_compute; reflexivity.
Qed.
