(* ===== verification/Backup.v ===== *)
(** * Encrypted backup

    [features/backup/backupPayload.ts]: what a backup holds and the check of a file's
    contents; [features/backup/backupService.ts]: exporting and importing, with the
    previous state put back when a write fails.  The encryption is native: a pair of
    functions. *)

From Stdlib Require Import ZArith Lia Bool.
From Stdlib Require List.
From S2P Require Import Prelude JsCollections JsString Json Errors Host Storage LegacyImport.
Local Open Scope js_scope.

Inductive PrefEntry := PBool (b : bool) | PInt (n : Z) | PDouble (n : Z) | PString (s : jstr) | PList (l : list jstr).
Record BackupPayload := { bp_version : Z; bp_createdAt : jstr; bp_prefs : list (jstr * PrefEntry); bp_secure : list (jstr * jstr) }.
Definition MIN_PASSPHRASE : Z := 12.
Definition format_error (msg : jstr) : jserror := PlainError msg.
Definition corrupted : jserror := format_error (js "This backup file is corrupted.").
Definition malformed : jserror := format_error (js "Malformed backup payload.").

Definition isBackedUpSecureKey (key : jstr) : bool := starts_with (js "rfe_token_") key || starts_with (js "rfe_fp_") key.
Definition isBackedUpPrefKey (key : jstr) : bool := List.existsb (fun p => starts_with p key) OWNED_PREFIXES.

Section Payload.
Context `{J : JsonCodec}.

(** [None]: the value is [null] or an object, which the format has no type for. *)
Definition pref_of (v : json) : option PrefEntry :=
  match v with
  | JBool b => Some (PBool b)
  | JNum n => Some (PInt n)
  | JStr s => Some (PString s)
  | JArr l => Some (PList ((fun e => match e with JStr s => s | _ => json_stringify e end) <$> l))
  | JNull | JObj _ => None
  end.
Definition kvToPrefs (rows : list (jstr * jstr)) : list (jstr * PrefEntry) :=
  omap (fun kr => if isBackedUpPrefKey kr.1 then pair kr.1 <$> pref_of (default (JStr kr.2) (json_parse kr.2)) else None) rows.
Definition pref_value (e : PrefEntry) : json :=
  match e with PBool b => JBool b | PInt n | PDouble n => JNum n | PString s => JStr s | PList l => JArr (JStr <$> l) end.
Definition prefsToKv (prefs : list (jstr * PrefEntry)) : list (jstr * jstr) :=
  omap (fun ke => if isBackedUpPrefKey ke.1 then Some (ke.1, json_stringify (pref_value ke.2)) else None) prefs.
Definition buildPayload (rows secureAll : list (jstr * jstr)) (now : jstr) : BackupPayload := {|
  bp_version := 1; bp_createdAt := now; bp_prefs := kvToPrefs rows;
  bp_secure := List.filter (fun kv => isBackedUpSecureKey kv.1) secureAll |}.

Definition pref_type (e : PrefEntry) : jstr :=
  match e with PBool _ => js "bool" | PInt _ => js "int" | PDouble _ => js "double" | PString _ => js "string" | PList _ => js "stringList" end.
Definition pref_json (e : PrefEntry) : json := JObj [(js "t", JStr (pref_type e)); (js "v", pref_value e)].
(** [JSON.stringify(payload)]. *)
Definition payload_json (p : BackupPayload) : json := JObj [
  (js "version", JNum (bp_version p)); (js "createdAt", JStr (bp_createdAt p));
  (js "prefs", JObj ((fun ke => (ke.1, pref_json ke.2)) <$> bp_prefs p)); (js "secure", JObj ((fun kv => (kv.1, JStr kv.2)) <$> bp_secure p))].

(** [Object.entries] of a value that is an object; [None] for [null] and the other types. *)
Definition entries_of (v : option json) : option (list (jstr * json)) :=
  match v with
  | Some (JObj fs) => Some fs
  | Some (JArr l) => Some (imap (fun i e => (string_of_Z (Z.of_nat i), e)) l)
  | _ => None
  end.
Fixpoint all_strings (l : list json) : option (list jstr) :=
  match l with [] => Some [] | JStr s :: r => cons s <$> all_strings r | _ => None end.
Definition parse_pref (e : json) : result jserror PrefEntry :=
  let t := field (js "t") (obj e) in
  let v := field (js "v") (obj e) in
  let is_t s := bool_decide (as_str t = Some (js s)) in
  match v with
  | Some (JBool b) => if is_t "bool"%string then Ok (PBool b) else Err corrupted
  | Some (JNum n) => if is_t "int"%string then Ok (PInt n) else if is_t "double"%string then Ok (PDouble n) else Err corrupted
  | Some (JStr s) => if is_t "string"%string then Ok (PString s) else Err corrupted
  | Some (JArr l) => if is_t "stringList"%string then match all_strings l with Some ss => Ok (PList ss) | None => Err corrupted end else Err corrupted
  | _ => Err corrupted
  end.
(** An entry that does not fit: the message names a type the format does not know. *)
Definition KNOWN_TYPES : list jstr := [js "bool"; js "int"; js "double"; js "string"; js "stringList"].
Definition parse_pref_or_type (e : json) : result jserror PrefEntry :=
  match parse_pref e with
  | Ok p => Ok p
  | Err er => match field (js "t") (obj e) with
              | Some (JStr t) => if set_has t KNOWN_TYPES then Err er
                                 else Err (format_error (js "Unknown preference type " ++ [quote] ++ t ++ [quote] ++ js " in backup."))
              | _ => Err er
              end
  end.
Fixpoint parse_each {A} (p : json -> result jserror A) (l : list (jstr * json)) : result jserror (list (jstr * A)) :=
  match l with
  | [] => Ok []
  | (k, e) :: r => match p e with
                   | Err er => Err er
                   | Ok a => match parse_each p r with Ok rest => Ok ((k, a) :: rest) | Err er => Err er end
                   end
  end.
Definition parsePayload (text : jstr) : result jserror BackupPayload :=
  match json_parse text with
  | None => Err corrupted
  | Some d =>
      match entries_of (field (js "prefs") (obj d)), entries_of (field (js "secure") (obj d)) with
      | Some ps, Some ss =>
          match parse_each parse_pref_or_type ps with
          | Err e => Err e
          | Ok prefs =>
              match parse_each (fun v => match v with JStr s => Ok s | _ => Err corrupted end) ss with
              | Err e => Err e
              | Ok secure => Ok {| bp_version := num_or 1 (field (js "version") (obj d)); bp_createdAt := str_or [] (field (js "createdAt") (obj d));
                                   bp_prefs := prefs; bp_secure := secure |}
              end
          end
      | _, _ => Err malformed
      end
  end.

(** ** The service *)

Record Cipher := { backupEncrypt : jstr -> jstr -> jstr; backupDecrypt : jstr -> jstr -> result jserror jstr }.
Context (cipher : Cipher).

Definition allRows : IO (list (jstr * jstr)) := io (fun d => (d, kv d)).
Definition secureAll : IO (list (jstr * jstr)) := io (fun d => (d, secure d)).
(** Replaces the rows a backup owns, in one transaction. *)
Definition write_rows (rows : list (jstr * jstr)) (m : list (jstr * jstr)) : list (jstr * jstr) :=
  fold_left (fun m kv => map_set kv.1 kv.2 m) rows (List.filter (fun kv => negb (isBackedUpPrefKey kv.1)) m).
Definition replaceOwned (rows : list (jstr * jstr)) : IO unit := io (fun d => (with_kv (write_rows rows) d, tt)).

Definition exportEnvelope (passphrase now : jstr) : IO jstr :=
  rows <- allRows;; sec <- secureAll;;
  ret (backupEncrypt cipher (json_stringify (payload_json (buildPayload rows sec now))) passphrase).

(** Secure entries: drop those of [old] that [new] lacks, then write [new]. *)
Definition swap_secure (old new : list (jstr * jstr)) : IO unit :=
  for_each (List.filter (fun k => negb (map_has k new)) (keys old)) SecureStore.delete;;
  for_each new (fun kv => SecureStore.write kv.1 kv.2).
Definition importEnvelope (envelope passphrase : jstr) : IO unit :=
  text <- lift (backupDecrypt cipher envelope passphrase);;
  payload <- lift (parsePayload text);;
  rows <- allRows;; sec <- secureAll;;
  let prevRows := List.filter (fun kv => isBackedUpPrefKey kv.1) rows in
  let prevSecure := List.filter (fun kv => isBackedUpSecureKey kv.1) sec in
  let nextSecure := List.filter (fun kv => isBackedUpSecureKey kv.1) (bp_secure payload) in
  catch (replaceOwned (prefsToKv (bp_prefs payload));; swap_secure prevSecure nextSecure)
        (fun e => attempt (replaceOwned prevRows;; swap_secure nextSecure prevSecure) tt;; throw e).
End Payload.

(** ** What an import changes *)

Section ImportSpec.
Context `{J : JsonCodec} (cipher : Cipher).

Lemma write_rows_get rows m k : NoDup (keys rows) ->
  map_get k (write_rows rows m) = match map_get k rows with Some v => Some v | None => if isBackedUpPrefKey k then None else map_get k m end.
Proof.
  unfold write_rows. set (m0 := List.filter _ m). assert (map_get k m0 = if isBackedUpPrefKey k then None else map_get k m) as H0.
  { unfold m0. clear m0. induction m as [|[k' v] m IH]; [by destruct (isBackedUpPrefKey k)|]. cbn [List.filter fst map_get].
    destruct (isBackedUpPrefKey k') eqn:E'; cbn [negb map_get]; destruct (decide (k' = k)) as [->|]; rewrite ?E', ?IH, ?E'; done. }
  rewrite <- H0. clear H0. generalize m0. clear m0. induction rows as [|[k' v] rows IH]; intros m0 Hn; cbn [fold_left fst snd map_get]; [done|].
  apply NoDup_cons in Hn as [Hk Hn]. rewrite IH by done. destruct (decide (k' = k)) as [->|Hne].
  - assert (map_get k rows = None) as -> by (by apply map_get_None). apply map_get_set_eq.
  - destruct (map_get k rows); [done|]. by apply map_get_set_ne.
Qed.
Lemma get_filter_key (P : jstr -> bool) (m : list (jstr * jstr)) k : map_get k (List.filter (fun kv => P kv.1) m) = if P k then map_get k m else None.
Proof.
  induction m as [|[k' v] m IH]; [by destruct (P k)|]. cbn [List.filter fst]. destruct (P k') eqn:E; cbn [map_get]; destruct (decide (k' = k)) as [->|]; rewrite ?E, ?IH, ?E; done.
Qed.
Lemma NoDup_keys_filter (P : jstr * jstr -> bool) (m : list (jstr * jstr)) : NoDup (keys m) -> NoDup (keys (List.filter P m)).
Proof.
  unfold keys. induction m as [|x m IH]; [done|]. rewrite fmap_cons, NoDup_cons. intros [Hx Hm]. cbn [List.filter]. destruct (P x); [|auto].
  rewrite fmap_cons, NoDup_cons. split; [|auto]. intros (y & Ey & Hy)%list_elem_of_fmap. apply elem_filter_bool in Hy as [Hy _]. apply Hx. rewrite Ey. by apply list_elem_of_fmap_2.
Qed.

(** Keys a piece of code may change: the rest of the stores is as before, whatever fails. *)
Definition within (rows secrets : jstr -> bool) (d d' : Disk) : Prop :=
  (forall k, rows k = false -> map_get k (kv d') = map_get k (kv d)) /\ (forall k, secrets k = false -> map_get k (secure d') = map_get k (secure d)).
#[local] Instance within_preorder rows secrets : PreOrder (within rows secrets).
Proof. split; [done|]. intros a b c [A B] [A' B']. split; intros; [by rewrite A', A | by rewrite B', B]. Qed.
Definition bounded {A} (rows secrets : jstr -> bool) (m : IO A) : Prop := forall d, within rows secrets d (m d).1.
Lemma bounded_bind {A B} rows secrets (m : IO A) (k : A -> IO B) : bounded rows secrets m -> (forall a, bounded rows secrets (k a)) -> bounded rows secrets (bind m k).
Proof. intros H1 H2 d. unfold bind. specialize (H1 d). destruct (m d) as [d1 [a|e]]; cbn [fst] in *; [|done]. etrans; [exact H1 | apply H2]. Qed.
Lemma bounded_catch {A} rows secrets (m : IO A) h : bounded rows secrets m -> (forall e, bounded rows secrets (h e)) -> bounded rows secrets (catch m h).
Proof. intros H1 H2 d. unfold catch. specialize (H1 d). destruct (m d) as [d1 [a|e]]; cbn [fst] in *; [done|]. etrans; [exact H1 | apply H2]. Qed.
Lemma bounded_for_each {A} rows secrets (l : list A) f : (forall x, x ∈ l -> bounded rows secrets (f x)) -> bounded rows secrets (for_each l f).
Proof.
  induction l as [|x l IH]; intros H; cbn [for_each]; [done|]. apply bounded_bind; [apply H; left|]. intros _. apply IH. intros y Hy. apply H. by right.
Qed.
Lemma bounded_replace rows secrets r : NoDup (keys r) -> (forall k, k ∈ keys r -> rows k = true) -> (forall k, isBackedUpPrefKey k = true -> rows k = true) ->
  bounded rows secrets (replaceOwned r).
Proof.
  intros Hn Hr Ho d. unfold replaceOwned. io_step; [done|]. split; [|done]. intros k Hk. cbn. rewrite write_rows_get by done.
  destruct (map_get k r) eqn:E; [|destruct (isBackedUpPrefKey k) eqn:Eo; [by rewrite (Ho k Eo) in Hk | done]].
  assert (k ∈ keys r) as Hin. { destruct (decide (k ∈ keys r)) as [|Hnin]; [done|]. apply map_get_None in Hnin. congruence. }
  by rewrite (Hr k Hin) in Hk.
Qed.
Lemma bounded_write rows secrets k v : secrets k = true -> bounded rows secrets (SecureStore.write k v).
Proof. intros H d. unfold SecureStore.write. io_step; [done|]. split; [done|]. intros k' Hk. cbn. rewrite map_get_set_ne; [done | congruence]. Qed.
Lemma bounded_delete rows secrets k : secrets k = true -> bounded rows secrets (SecureStore.delete k).
Proof.
  intros H d. unfold SecureStore.delete. io_step; [done|]. split; [done|]. intros k' Hk. cbn [fst secure with_secure with_faults].
  rewrite map_get_delete, decide_False; [done | congruence].
Qed.
Lemma bounded_swap rows secrets old new : (forall k, k ∈ keys old -> secrets k = true) -> (forall kv, kv ∈ new -> secrets kv.1 = true) -> bounded rows secrets (swap_secure old new).
Proof.
  intros H1 H2. apply bounded_bind; [|intros _]; apply bounded_for_each.
  - intros k [Hk _]%elem_filter_bool. apply bounded_delete. by apply H1.
  - intros kv Hkv. apply bounded_write. by apply H2.
Qed.

(** What a swap leaves when no call fails. *)
Definition worked {A} (m : IO A) (d d' : Disk) : Prop := exists a, m d = (d', Ok a).
Lemma delete_all l d d' : worked (for_each l SecureStore.delete) d d' ->
  kv d' = kv d /\ forall k, map_get k (secure d') = if set_has k l then None else map_get k (secure d).
Proof.
  revert d. induction l as [|x l IH]; intros d [u E]; cbn [for_each] in E; [by injection E as <-|].
  apply bind_inv in E as (d1 & [] & E1 & E2). destruct (IH d1) as [Hk Hs]; [by eexists|].
  assert (kv d1 = kv d /\ forall k, map_get k (secure d1) = if decide (x = k) then None else map_get k (secure d)) as [Hk1 Hs1].
  { revert E1. unfold SecureStore.delete. io_step; [done|]. intros [= <-]. split; [done|]. intros k. cbn [fst secure with_secure with_faults]. by rewrite map_get_delete. }
  split; [congruence|]. intros k. rewrite Hs, Hs1. unfold set_has. destruct (decide (x = k)) as [->|Hne].
  - rewrite (bool_decide_true (k ∈ k :: l)) by left. by destruct (bool_decide _).
  - rewrite (bool_decide_ext (k ∈ x :: l) (k ∈ l)); [done|]. rewrite elem_of_cons. naive_solver.
Qed.
Lemma write_all (l : list (jstr * jstr)) d d' : NoDup (keys l) -> worked (for_each l (fun kv => SecureStore.write kv.1 kv.2)) d d' ->
  kv d' = kv d /\ forall k, map_get k (secure d') = match map_get k l with Some v => Some v | None => map_get k (secure d) end.
Proof.
  revert d. induction l as [|[x v] l IH]; intros d Hn [u E]; cbn [for_each] in E; [by injection E as <-|].
  apply NoDup_cons in Hn as [Hx Hn]. apply bind_inv in E as (d1 & [] & E1 & E2). destruct (IH d1 Hn) as [Hk Hs]; [by eexists|].
  assert (kv d1 = kv d /\ forall k, map_get k (secure d1) = map_get k (map_set x v (secure d))) as [Hk1 Hs1].
  { revert E1. unfold SecureStore.write. io_step; [done|]. by intros [= <-]. }
  split; [congruence|]. intros k. rewrite Hs, Hs1. cbn [map_get]. destruct (decide (x = k)) as [->|Hne].
  - assert (map_get k l = None) as -> by (by apply map_get_None). apply map_get_set_eq.
  - destruct (map_get k l); [done|]. by apply map_get_set_ne.
Qed.
Lemma swap_worked old new d d' : NoDup (keys new) -> worked (swap_secure old new) d d' ->
  kv d' = kv d /\ forall k, map_get k (secure d') = match map_get k new with Some v => Some v | None => if set_has k (keys old) then None else map_get k (secure d) end.
Proof.
  intros Hn [u E]. apply bind_inv in E as (d1 & [] & E1 & E2).
  destruct (delete_all _ d d1 (ex_intro _ _ E1)) as [K1 S1]. destruct (write_all new d1 d' Hn (ex_intro _ _ E2)) as [K2 S2].
  split; [congruence|]. intros k. rewrite S2, S1. destruct (map_get k new) eqn:Eg; [done|].
  assert (set_has k (List.filter (fun k0 => negb (map_has k0 new)) (keys old)) = set_has k (keys old)) as ->; [|done].
  unfold set_has. apply bool_decide_ext. rewrite elem_filter_bool. unfold map_has. rewrite Eg. cbn. tauto.
Qed.
Lemma replace_worked r d d' : NoDup (keys r) -> worked (replaceOwned r) d d' ->
  secure d' = secure d /\ forall k, map_get k (kv d') = match map_get k r with Some v => Some v | None => if isBackedUpPrefKey k then None else map_get k (kv d) end.
Proof.
  intros Hn [u E]. revert E. unfold replaceOwned. io_step; [done|]. intros [= <-]. split; [done|]. intros k. cbn [kv with_kv with_faults]. by apply write_rows_get.
Qed.

(** *** Counting failures *)

Definition failures (d : Disk) : nat := length (List.filter id (faults d)).
(** Code whose every rejection uses up a failure of the script. *)
Definition consumes {A} (m : IO A) : Prop := forall d, (failures (m d).1 <= failures d)%nat /\ (is_ok (m d).2 = false -> (failures (m d).1 < failures d)%nat).
Lemma consumes_io {A} (f : Disk -> Disk * A) : (forall d, faults (f d).1 = faults d) -> consumes (io f).
Proof.
  intros H d. unfold io, failures. destruct (faults d) as [|[|] fs]; cbn.
  - specialize (H (with_faults [] d)). destruct (f _) as [d' a]. cbn in *. rewrite H. cbn. split; [lia | done].
  - split; lia.
  - specialize (H (with_faults fs d)). destruct (f _) as [d' a]. cbn in *. rewrite H. cbn. split; [lia | done].
Qed.
Lemma consumes_ret {A} (a : A) : consumes (ret a).
Proof. intros d. cbn. split; [lia | done]. Qed.
Lemma consumes_bind {A B} (m : IO A) (k : A -> IO B) : consumes m -> (forall a, consumes (k a)) -> consumes (bind m k).
Proof.
  intros H1 H2 d. unfold bind. destruct (H1 d) as [A1 A2]. destruct (m d) as [d1 [a|e]]; cbn [fst snd is_ok] in *; [|split; [lia | intros; by apply A2]].
  destruct (H2 a d1) as [B1 B2]. split; [lia|]. intros E. specialize (B2 E). lia.
Qed.
Lemma consumes_for_each {A} (l : list A) f : (forall x, consumes (f x)) -> consumes (for_each l f).
Proof. intros H. induction l as [|x l IH]; cbn [for_each]; [apply consumes_ret|]. by apply consumes_bind. Qed.
Lemma consumes_swap old new : consumes (swap_secure old new).
Proof. apply consumes_bind; [|intros _]; apply consumes_for_each; intros; by apply consumes_io. Qed.
Lemma consumes_replace r : consumes (replaceOwned r).
Proof. by apply consumes_io. Qed.
Lemma consumes_works {A} (m : IO A) d : consumes m -> failures d = 0%nat -> exists d' a, m d = (d', Ok a) /\ failures d' = 0%nat.
Proof. intros H E. destruct (H d) as [H1 H2]. destruct (m d) as [d' [a|e]]; cbn in *; [exists d', a; split; [done | lia]|]. specialize (H2 eq_refl). lia. Qed.

(** *** Keys of a parsed file *)

Lemma parse_each_keys {A} (p : json -> result jserror A) l r : parse_each p l = Ok r -> keys r = keys l.
Proof.
  revert r. induction l as [|[k e] l IH]; intros r E; cbn [parse_each] in E; [by injection E as <-|]. destruct (p e); [|done].
  destruct (parse_each p l) as [r'|]; [|done]. injection E as <-. unfold keys in *. rewrite !fmap_cons. cbn. by rewrite (IH r').
Qed.
Lemma field_wf k j v : json_wf j = true -> field k (obj j) = Some v -> json_wf v = true.
Proof.
  intros Hj Hf. destruct j; cbn [obj] in Hf; try done. rewrite json_wf_obj in Hj. breflect. rewrite forallb_forall_true, Forall_forall in H0.
  apply map_get_Some_elem in Hf. exact (H0 _ Hf).
Qed.
Lemma entries_keys v l : (forall j, v = Some j -> json_wf j = true) -> entries_of v = Some l -> NoDup (keys l).
Proof.
  intros Hw E. destruct v as [[| | | |arr|fs]|]; cbn [entries_of] in E; try done; injection E as <-.
  - unfold keys. rewrite fmap_imap. apply NoDup_alt. intros i j x Hi Hj.
    rewrite list_lookup_imap in Hi, Hj. destruct (arr !! i), (arr !! j); cbn in *; try done. injection Hi as <-. injection Hj as Hj.
    apply string_of_Z_inj in Hj; lia.
  - specialize (Hw _ eq_refl). rewrite json_wf_obj in Hw. by breflect.
Qed.
Lemma payload_keys text p : parsePayload text = Ok p -> NoDup (keys (bp_prefs p)) /\ NoDup (keys (bp_secure p)).
Proof.
  unfold parsePayload. destruct (json_parse text) as [d|] eqn:Ed; [|done]. pose proof (json_parse_wf _ _ Ed) as Hw.
  destruct (entries_of (field (js "prefs") (obj d))) as [ps|] eqn:Ep; [|done]. destruct (entries_of (field (js "secure") (obj d))) as [ss|] eqn:Es; [|done].
  destruct (parse_each parse_pref_or_type ps) as [prefs|] eqn:E1; [|done]. destruct (parse_each _ ss) as [sec|] eqn:E2; [|done].
  intros [= <-]. cbn [bp_prefs bp_secure]. rewrite (parse_each_keys _ _ _ E1), (parse_each_keys _ _ _ E2). split; eapply entries_keys; try eassumption; intros j Hj; by eapply field_wf.
Qed.
Lemma omap_keys {A B} (f : jstr * A -> option (jstr * B)) l : (forall x y, f x = Some y -> y.1 = x.1) -> NoDup (keys l) -> NoDup (keys (omap f l)).
Proof.
  intros Hf. unfold keys. induction l as [|x l IH]; [done|]. rewrite fmap_cons, NoDup_cons. intros [Hx Hl]. cbn [omap list_omap]. destruct (f x) as [y|] eqn:E; [|auto].
  rewrite fmap_cons, NoDup_cons. split; [|auto]. rewrite (Hf _ _ E). intros (z & Ez & Hz)%list_elem_of_fmap. apply list_elem_of_omap in Hz as (w & Hw & Ew).
  apply Hx. rewrite Ez, (Hf _ _ Ew). by apply list_elem_of_fmap_2.
Qed.
Lemma prefsToKv_keys prefs : NoDup (keys prefs) -> NoDup (keys (prefsToKv prefs)) /\ forall k, k ∈ keys (prefsToKv prefs) -> isBackedUpPrefKey k = true.
Proof.
  intros H. split.
  - apply omap_keys; [|done]. intros [k e] y. cbn [fst snd]. destruct (isBackedUpPrefKey k); [|done]. by intros [= <-].
  - intros k (y & -> & Hy)%list_elem_of_fmap. apply list_elem_of_omap in Hy as ([k' e] & _ & E). cbn [fst snd] in E. destruct (isBackedUpPrefKey k') eqn:Eb; [|done]. by injection E as <-.
Qed.

(** *** The write and its rollback *)

Definition owned_rows (d : Disk) : list (jstr * jstr) := List.filter (fun kv => isBackedUpPrefKey kv.1) (kv d).
Definition owned_secrets (l : list (jstr * jstr)) : list (jstr * jstr) := List.filter (fun kv => isBackedUpSecureKey kv.1) l.
Definition import_write (p : BackupPayload) (d : Disk) : IO unit :=
  replaceOwned (prefsToKv (bp_prefs p));; swap_secure (owned_secrets (secure d)) (owned_secrets (bp_secure p)).
Definition import_undo (p : BackupPayload) (d : Disk) : IO unit :=
  replaceOwned (owned_rows d);; swap_secure (owned_secrets (bp_secure p)) (owned_secrets (secure d)).
(** The secure entries either direction may touch. *)
Definition swapped (p : BackupPayload) (d : Disk) (k : jstr) : bool :=
  set_has k (keys (owned_secrets (secure d))) || set_has k (keys (owned_secrets (bp_secure p))).

Lemma elem_keys_pair {A} (l : list (jstr * A)) x : x ∈ l -> x.1 ∈ keys l.
Proof. intros H. by apply (list_elem_of_fmap_2 fst). Qed.
Lemma owned_secret_key l k : k ∈ keys (owned_secrets l) -> isBackedUpSecureKey k = true.
Proof. intros (y & -> & Hy)%list_elem_of_fmap. by apply elem_filter_bool in Hy as [_ ?]. Qed.
Lemma bounded_weaken {A} (r1 r2 s1 s2 : jstr -> bool) (m : IO A) : (forall k, r1 k = true -> r2 k = true) -> (forall k, s1 k = true -> s2 k = true) ->
  bounded r1 s1 m -> bounded r2 s2 m.
Proof.
  intros Hr Hs H d. destruct (H d) as [A1 B1]. split; intros k Hk; [apply A1; destruct (r1 k) eqn:E; [by rewrite (Hr k E) in Hk | done] | apply B1; destruct (s1 k) eqn:E; [by rewrite (Hs k E) in Hk | done]].
Qed.
Lemma swapped_backed p d k : swapped p d k = true -> isBackedUpSecureKey k = true.
Proof. unfold swapped. rewrite orb_true_iff, !set_has_spec. intros [H|H]; by eapply owned_secret_key. Qed.

Section Write.
Context (p : BackupPayload) (d0 : Disk).
Hypothesis Hkv : NoDup (keys (kv d0)).
Hypothesis Hsec : NoDup (keys (secure d0)).
Hypothesis Hp : NoDup (keys (bp_prefs p)).
Hypothesis Hps : NoDup (keys (bp_secure p)).

Lemma write_bounded : bounded isBackedUpPrefKey (swapped p d0) (import_write p d0).
Proof.
  destruct (prefsToKv_keys _ Hp) as [Hn Ho]. apply bounded_bind; [by apply bounded_replace|]. intros _. apply bounded_swap.
  - intros k Hk. unfold swapped. by rewrite (proj2 (set_has_spec _ _) Hk).
  - intros kv Hk. unfold swapped. rewrite (proj2 (set_has_spec kv.1 (keys (owned_secrets (bp_secure p)))) (elem_keys_pair _ _ Hk)). apply orb_true_r.
Qed.
Lemma undo_bounded : bounded isBackedUpPrefKey (swapped p d0) (import_undo p d0).
Proof.
  apply bounded_bind; [apply bounded_replace; [by apply NoDup_keys_filter | | done]|].
  - intros k (y & -> & Hy)%list_elem_of_fmap. by apply elem_filter_bool in Hy as [_ ?].
  - intros _. apply bounded_swap.
    + intros k Hk. unfold swapped. rewrite (proj2 (set_has_spec _ _) Hk). apply orb_true_r.
    + intros kv Hk. unfold swapped. by rewrite (proj2 (set_has_spec kv.1 (keys (owned_secrets (secure d0)))) (elem_keys_pair _ _ Hk)).
Qed.
Lemma write_worked d d' : secure d = secure d0 -> worked (import_write p d0) d d' ->
  (forall k, isBackedUpPrefKey k = true -> map_get k (kv d') = map_get k (prefsToKv (bp_prefs p))) /\
  (forall k, isBackedUpSecureKey k = true -> map_get k (secure d') = map_get k (bp_secure p)).
Proof.
  intros Hs [u E]. apply bind_inv in E as (d1 & [] & E1 & E2). destruct (prefsToKv_keys _ Hp) as [Hn Ho].
  destruct (replace_worked _ _ _ Hn (ex_intro _ _ E1)) as [S1 K1]. destruct (swap_worked _ _ _ _ (NoDup_keys_filter _ _ Hps) (ex_intro _ _ E2)) as [K2 S2].
  split; intros k Hk.
  - rewrite K2, K1, Hk. by destruct (map_get k _).
  - rewrite S2, get_filter_key, Hk. destruct (map_get k (bp_secure p)) eqn:Eg; [done|].
    destruct (set_has k (keys (owned_secrets (secure d0)))) eqn:Eh; [done|]. rewrite S1, Hs. apply set_has_false, map_get_None in Eh.
    unfold owned_secrets in Eh. by rewrite get_filter_key, Hk in Eh.
Qed.
Lemma undo_worked d d' : within isBackedUpPrefKey (swapped p d0) d0 d -> worked (import_undo p d0) d d' ->
  forall k, map_get k (kv d') = map_get k (kv d0) /\ map_get k (secure d') = map_get k (secure d0).
Proof.
  intros [Wk Ws] [u E]. apply bind_inv in E as (d1 & [] & E1 & E2).
  destruct (replace_worked _ _ _ (NoDup_keys_filter _ _ Hkv) (ex_intro _ _ E1)) as [S1 K1].
  destruct (swap_worked _ _ _ _ (NoDup_keys_filter _ _ Hsec) (ex_intro _ _ E2)) as [K2 S2]. intros k. split.
  - rewrite K2, K1, get_filter_key. destruct (isBackedUpPrefKey k) eqn:Eb; [by destruct (map_get k (kv d0)) | by apply Wk].
  - rewrite S2, get_filter_key. destruct (isBackedUpSecureKey k) eqn:Eb.
    + destruct (map_get k (secure d0)) eqn:Eg; [done|]. destruct (set_has k (keys (owned_secrets (bp_secure p)))) eqn:Eh; [done|].
      rewrite S1, Ws; [done|]. unfold swapped. rewrite Eh, orb_false_r. apply set_has_false, map_get_None. unfold owned_secrets. by rewrite get_filter_key, Eb, Eg.
    + assert (swapped p d0 k = false) as Hsw by (destruct (swapped p d0 k) eqn:E'; [by rewrite (swapped_backed _ _ _ E') in Eb | done]).
      destruct (set_has k (keys (owned_secrets (bp_secure p)))) eqn:Eh; [by apply set_has_spec, owned_secret_key in Eh; rewrite Eh in Eb|]. by rewrite S1, Ws.
Qed.
End Write.

(** The two reads before the writes: either one fails and nothing was written, or the writes run. *)
Lemma import_reads envelope passphrase text p d : backupDecrypt cipher envelope passphrase = Ok text -> parsePayload text = Ok p ->
  exists fs, (failures (with_faults fs d) <= failures d)%nat /\
    ((failures d <> 0%nat /\ exists e, importEnvelope cipher envelope passphrase d = (with_faults fs d, Err e)) \/
     importEnvelope cipher envelope passphrase d = catch (import_write p d) (fun e => attempt (import_undo p d) tt;; throw e) (with_faults fs d)).
Proof.
  intros Ed Ep. unfold importEnvelope. rewrite Ed, (bind_ok (lift (Ok text)) _ d d text eq_refl), Ep, (bind_ok (lift (Ok p)) _ d d p eq_refl).
  pose proof (consumes_io (fun d => (d, kv d)) (fun d => eq_refl) d) as [C1 C1'].
  destruct (io_cases (fun d => (d, kv d)) d) as [fs1 [E1|E1]]; rewrite E1 in C1, C1'; cbn [fst snd is_ok] in C1, C1'.
  { exists fs1. split; [done|]. left. specialize (C1' eq_refl). split; [lia|]. eexists. by rewrite (bind_err _ _ _ _ _ E1). }
  pose proof (consumes_io (fun d => (d, secure d)) (fun d => eq_refl) (with_faults fs1 d)) as [C2 C2'].
  destruct (io_cases (fun d => (d, secure d)) (with_faults fs1 d)) as [fs2 [E2|E2]]; rewrite E2 in C2, C2'; cbn [fst snd is_ok] in C2, C2'; exists fs2; unfold failures in *; cbn [faults with_faults] in *; (split; [lia|]).
  - left. specialize (C2' eq_refl). split; [lia|]. eexists. by rewrite (bind_ok _ _ _ _ _ E1), (bind_err _ _ _ _ _ E2).
  - right. by rewrite (bind_ok _ _ _ _ _ E1), (bind_ok _ _ _ _ _ E2).
Qed.

Lemma map_get_omap {A B} (f : jstr * A -> option (jstr * B)) (g : A -> option B) (P : jstr -> bool) (l : list (jstr * A)) k :
  (forall k' a, f (k', a) = if P k' then pair k' <$> g a else None) -> NoDup (keys l) ->
  map_get k (omap f l) = if P k then map_get k l ≫= g else None.
Proof.
  intros Hf. induction l as [|[k' a] l IH]; intros Hn; [by destruct (P k)|]. apply NoDup_cons in Hn as [Hk Hn]. cbn [omap list_omap map_get]. rewrite Hf.
  destruct (decide (k' = k)) as [->|Hne].
  - assert (map_get k l = None) as E by (by apply map_get_None). destruct (P k) eqn:EP; [|by rewrite IH]. cbn [mbind option_bind]. destruct (g a) as [b|]; cbn [fmap option_fmap option_map].
    + cbn [map_get]. by rewrite decide_True.
    + rewrite IH by done. by rewrite E.
  - destruct (P k'); [|by apply IH]. destruct (g a) as [b|]; cbn [fmap option_fmap option_map]; [|by apply IH]. cbn [map_get]. rewrite decide_False by done. by apply IH.
Qed.
Lemma parse_each_get {A} (q : json -> result jserror A) l out k : parse_each q l = Ok out ->
  map_get k out = map_get k l ≫= fun e => match q e with Ok a => Some a | Err _ => None end.
Proof.
  revert out. induction l as [|[k' e] l IH]; intros out; cbn [parse_each map_get]; [by intros [= <-]|].
  destruct (q e) as [a|] eqn:E; [|done]. destruct (parse_each q l) as [rest|]; [|done]. intros [= <-]. cbn [map_get].
  case_decide; [subst; cbn; by rewrite E | by apply IH].
Qed.

(** What a backup owns, by the texts of the keys: the tokens and the certificate pins of computers, and
    the rows of the app's own settings. *)
Definition login_key (k : jstr) : Prop := exists hostId, k = js "rfe_token_" ++ hostId \/ k = js "rfe_fp_" ++ hostId.
Definition setting_key (k : jstr) : Prop :=
  exists prefix rest, prefix ∈ [js "rfe_"; js "app."; js "host."; js "settings."; js "bookmarks_v1"; js "offline_pins_v1"; js "digest."] /\ k = prefix ++ rest.
Lemma secure_key_spec k : isBackedUpSecureKey k = true <-> login_key k.
Proof.
  unfold isBackedUpSecureKey, login_key. rewrite orb_true_iff, !starts_with_spec. naive_solver.
Qed.
Lemma pref_key_spec k : isBackedUpPrefKey k = true <-> setting_key k.
Proof.
  unfold isBackedUpPrefKey, setting_key. rewrite List.existsb_exists. setoid_rewrite <- list_elem_of_In. setoid_rewrite starts_with_spec.
  split; [intros (q & Hq & r & ->); by exists q, r | intros (q & r & Hq & ->); by exists q; eauto].
Qed.
Lemma secure_key_false k : isBackedUpSecureKey k = false <-> ~ login_key k.
Proof. rewrite <- secure_key_spec. by destruct (isBackedUpSecureKey k). Qed.
Lemma pref_key_false k : isBackedUpPrefKey k = false <-> ~ setting_key k.
Proof. rewrite <- pref_key_spec. by destruct (isBackedUpPrefKey k). Qed.
(** The row of a setting. *)
Definition row_text (e : PrefEntry) : jstr :=
  json_stringify (match e with PBool b => JBool b | PInt n => JNum n | PDouble n => JNum n | PString s => JStr s | PList l => JArr (JStr <$> l) end).
Lemma prefsToKv_get prefs k : NoDup (keys prefs) -> setting_key k -> map_get k (prefsToKv prefs) = row_text <$> map_get k prefs.
Proof.
  intros Hn Hk%pref_key_spec. unfold prefsToKv. rewrite (map_get_omap _ (fun e => Some (row_text e)) isBackedUpPrefKey); [|intros k' a; cbn; by destruct (isBackedUpPrefKey k'); destruct a | done].
  rewrite Hk. by destruct (map_get k prefs).
Qed.

(** Every outcome of an import, in terms of the payload it read. *)
Lemma import_cases (envelope passphrase : jstr) (d : Disk) : NoDup (keys (kv d)) -> NoDup (keys (secure d)) ->
  let (d', r) := importEnvelope cipher envelope passphrase d in
  within isBackedUpPrefKey isBackedUpSecureKey d d' /\
  match backupDecrypt cipher envelope passphrase with
  | Err e => r = Err e /\ d' = d
  | Ok text =>
      match parsePayload text with
      | Err e => r = Err e /\ d' = d
      | Ok p =>
          (r = Ok tt -> (forall k, isBackedUpPrefKey k = true -> map_get k (kv d') = map_get k (prefsToKv (bp_prefs p))) /\
                        (forall k, isBackedUpSecureKey k = true -> map_get k (secure d') = map_get k (bp_secure p))) /\
          ((failures d <= 1)%nat -> r <> Ok tt -> forall k, map_get k (kv d') = map_get k (kv d) /\ map_get k (secure d') = map_get k (secure d)) /\
          (failures d = 0%nat -> r = Ok tt)
      end
  end.
Proof.
  intros Hkv Hsec. destruct (backupDecrypt cipher envelope passphrase) as [text|e] eqn:Ed; [|unfold importEnvelope; by rewrite Ed].
  destruct (parsePayload text) as [p|e] eqn:Ep; [|unfold importEnvelope; by rewrite Ed, (bind_ok (lift (Ok text)) _ d d text eq_refl), Ep].
  destruct (payload_keys _ _ Ep) as [Hpk Hps]. destruct (import_reads _ _ _ _ d Ed Ep) as (fs & Hfs & [[Hne [e ->]]| ->]); [by split_and!|].
  set (d2 := with_faults fs d) in *. pose proof (write_bounded p d Hpk d2) as Wb. unfold catch at 1.
  pose proof (consumes_bind _ _ (consumes_replace (prefsToKv (bp_prefs p))) (fun _ => consumes_swap (owned_secrets (secure d)) (owned_secrets (bp_secure p))) d2) as [C3 C3'].
  fold (import_write p d) in C3, C3'.
  assert (forall d3, within isBackedUpPrefKey (swapped p d) d2 d3 -> within isBackedUpPrefKey isBackedUpSecureKey d d3) as Hwide.
  { intros d3 [A B]. split; [exact A|]. intros k Hk. apply B. destruct (swapped p d k) eqn:E; [by rewrite (swapped_backed _ _ _ E) in Hk | done]. }
  destruct (import_write p d d2) as [d3 [[]|e]] eqn:Ew; cbn [fst snd is_ok] in *.
  - split; [by apply Hwide|]. split_and!; [|done | done]. intros _. exact (write_worked p d Hpk Hps d2 d3 eq_refl (ex_intro _ tt Ew)).
  - unfold bind, attempt, catch.
    pose proof (undo_bounded p d Hkv d3) as Ub. specialize (C3' eq_refl).
    assert ((failures d <= 1)%nat -> forall k, map_get k (kv (import_undo p d d3).1) = map_get k (kv d) /\ map_get k (secure (import_undo p d d3).1) = map_get k (secure d)) as Hundo.
    { intros Hf. destruct (consumes_works (import_undo p d) d3) as (d4 & u & E4 & _); [apply consumes_bind; [apply consumes_replace | intros _; apply consumes_swap] | lia|].
      rewrite E4. cbn [fst]. eapply undo_worked; [done..| |by eexists]. exact Wb. }
    destruct (import_undo p d d3) as [d4 [u|e4]]; cbn [fst snd ret throw] in *; (split; [apply Hwide; etrans; [exact Wb | exact Ub]|]); (split_and!; [done | auto | intros; lia]).
Qed.
Lemma identity_not_login : ~ login_key (js "rfe_device_identity_private_v1") /\ ~ login_key (js "rfe_device_identity_public_v1").
Proof. rewrite <- !secure_key_false. by vm_compute. Qed.
Lemma payload_secrets text p fs ss k : parsePayload text = Ok p -> json_parse text = Some (JObj fs) -> field (js "secure") fs = Some (JObj ss) ->
  map_get k (bp_secure p) = map_get k ss ≫= fun v => match v with JStr s => Some s | _ => None end.
Proof.
  unfold parsePayload. intros H E Es. rewrite E in H. cbn [obj] in H. rewrite Es in H. cbn [entries_of] in H.
  destruct (entries_of (field (js "prefs") fs)) as [ps|]; [|done]. destruct (parse_each parse_pref_or_type ps) as [prefs|]; [|done].
  destruct (parse_each _ ss) as [sec|] eqn:Ep; [|done]. injection H as <-. cbn [bp_secure]. rewrite (parse_each_get _ _ _ k Ep).
  destruct (map_get k ss) as [v|]; [|done]. by destruct v.
Qed.

(** C20 Importing a backup, whatever the file holds and whichever storage calls fail, on a phone with one
    value per key.  A wrong passphrase, a text that is not JSON or a payload that is refused changes
    nothing.  Only tokens and certificate pins of computers ([rfe_token_...], [rfe_fp_...]) and the app's own
    rows ([setting_key]) are ever touched: the two halves of the device identity and every other secret or
    row stay.  A successful import leaves exactly the payload's settings in those rows, each as the JSON text
    of its value, and exactly the payload's tokens and pins, which are the text members of the file's
    [secure] object.  With no storage failure it succeeds, and when one call fails everything is back, key by
    key. *)
Theorem import_atomic (envelope passphrase : jstr) (d : Disk) : NoDup (keys (kv d)) -> NoDup (keys (secure d)) ->
  let (d', r) := importEnvelope cipher envelope passphrase d in
  (forall k, ~ setting_key k -> map_get k (kv d') = map_get k (kv d)) /\
  (forall k, ~ login_key k -> map_get k (secure d') = map_get k (secure d)) /\
  map_get (js "rfe_device_identity_private_v1") (secure d') = map_get (js "rfe_device_identity_private_v1") (secure d) /\
  map_get (js "rfe_device_identity_public_v1") (secure d') = map_get (js "rfe_device_identity_public_v1") (secure d) /\
  match backupDecrypt cipher envelope passphrase with
  | Err e => r = Err e /\ d' = d
  | Ok text =>
      (json_parse text = None -> is_ok r = false /\ d' = d) /\
      match parsePayload text with
      | Err e => r = Err e /\ d' = d
      | Ok p =>
          (r = Ok tt -> (forall k, setting_key k -> map_get k (kv d') = row_text <$> map_get k (bp_prefs p)) /\
                        (forall k, login_key k -> map_get k (secure d') = map_get k (bp_secure p))) /\
          (forall fs ss k, json_parse text = Some (JObj fs) -> field (js "secure") fs = Some (JObj ss) ->
             map_get k (bp_secure p) = map_get k ss ≫= fun v => match v with JStr s => Some s | _ => None end) /\
          ((failures d <= 1)%nat -> r <> Ok tt -> forall k, map_get k (kv d') = map_get k (kv d) /\ map_get k (secure d') = map_get k (secure d)) /\
          (failures d = 0%nat -> r = Ok tt)
      end
  end.
Proof.
  intros Hkv Hsec. pose proof (import_cases envelope passphrase d Hkv Hsec) as H. destruct (importEnvelope cipher envelope passphrase d) as [d' r].
  destruct H as [[Hk Hs] H]. destruct identity_not_login as [I1 I2]. setoid_rewrite pref_key_false in Hk. setoid_rewrite secure_key_false in Hs.
  split_and!; [done | done | by apply Hs | by apply Hs|]. destruct (backupDecrypt cipher envelope passphrase) as [text|e]; [|done]. split.
  - intros E. unfold parsePayload in H. rewrite E in H. by destruct H as [-> ->].
  - destruct (parsePayload text) as [p|e] eqn:Ep; [|done]. destruct H as (H1 & H2 & H3). destruct (payload_keys _ _ Ep) as [Hpk _].
    split_and!; [|intros fs ss k; by apply payload_secrets|done|done].
    intros Hr. destruct (H1 Hr) as [A B]. split; [intros k Hk'|intros k Hk'; by apply B, secure_key_spec].
    rewrite A by by apply pref_key_spec. by apply prefsToKv_get.
Qed.
End ImportSpec.

(** ** Export, then import *)

Section RoundTrip.
Context `{J : JsonCodec} (cipher : Cipher).

Definition all_wf (l : list json) : bool := List.forallb json_wf l.
Lemma wf_strings (l : list jstr) : all_wf (JStr <$> l) = true.
Proof. induction l; [done|]. cbn. done. Qed.
Lemma pref_value_wf e : json_wf (pref_value e) = true.
Proof. destruct e; [done..|]. cbn [pref_value]. rewrite json_wf_arr. apply wf_strings. Qed.
Lemma all_strings_map l : all_strings (JStr <$> l) = Some l.
Proof. induction l as [|x l IH]; [done|]. rewrite fmap_cons. cbn [all_strings]. by rewrite IH. Qed.
Lemma parse_pref_json e : parse_pref_or_type (pref_json e) = Ok e.
Proof.
  assert (parse_pref (pref_json e) = Ok e) as E; [|unfold parse_pref_or_type; by rewrite E].
  destruct e as [| | | |l]; try reflexivity. change (match all_strings (JStr <$> l) with Some ss => Ok (PList ss) | None => Err corrupted end = Ok (PList l)). by rewrite all_strings_map.
Qed.
Lemma parse_each_map {A B} (p : json -> result jserror A) (f : B -> json) (g : B -> A) (l : list (jstr * B)) :
  (forall b, p (f b) = Ok (g b)) -> parse_each p ((fun kb => (kb.1, f kb.2)) <$> l) = Ok ((fun kb => (kb.1, g kb.2)) <$> l).
Proof. intros H. induction l as [|[k b] l IH]; [done|]. rewrite !fmap_cons. cbn [parse_each fst snd]. by rewrite H, IH. Qed.
Lemma keys_map {A B} (f : A -> B) (l : list (jstr * A)) : keys ((fun kb => (kb.1, f kb.2)) <$> l) = keys l.
Proof. unfold keys. rewrite <- list_fmap_compose. by apply list_fmap_ext. Qed.
Lemma fmap_pair_id {A} (l : list (jstr * A)) : (fun kb => (kb.1, kb.2)) <$> l = l.
Proof. induction l as [|[k a] l IH]; [done|]. rewrite fmap_cons. cbn [fst snd]. by rewrite IH. Qed.
Lemma forallb_map {A B} (P : B -> bool) (f : A -> B) l : (forall a, P (f a) = true) -> List.forallb P (f <$> l) = true.
Proof. intros H. induction l as [|a l IH]; [done|]. rewrite fmap_cons. cbn [List.forallb]. by rewrite H, IH. Qed.

Lemma payload_wf p : NoDup (keys (bp_prefs p)) -> NoDup (keys (bp_secure p)) -> json_wf (payload_json p) = true.
Proof.
  intros H1 H2. unfold payload_json. rewrite json_wf_obj. apply andb_true_intro. split; [by vm_compute|].
  cbn [List.forallb snd]. rewrite !json_wf_obj, !keys_map, !bool_decide_true by done. cbn [andb].
  rewrite !forallb_map; [done | done |]. intros [k e]. cbn [snd]. unfold pref_json. rewrite json_wf_obj. cbn [List.forallb snd]. by rewrite pref_value_wf.
Qed.
(** What is written is what is read back. *)
Lemma payload_roundtrip p : NoDup (keys (bp_prefs p)) -> NoDup (keys (bp_secure p)) -> parsePayload (json_stringify (payload_json p)) = Ok p.
Proof.
  intros H1 H2. unfold parsePayload. rewrite json_roundtrip by (by apply payload_wf). 
  change (field (js "prefs") (obj (payload_json p))) with (Some (JObj ((fun ke => (ke.1, pref_json ke.2)) <$> bp_prefs p))).
  change (field (js "secure") (obj (payload_json p))) with (Some (JObj ((fun kv => (kv.1, JStr kv.2)) <$> bp_secure p))).
  cbn [entries_of]. rewrite (parse_each_map _ pref_json (fun e => e)) by apply parse_pref_json.
  rewrite (parse_each_map _ JStr (fun s => s)) by done. rewrite !fmap_pair_id. by destruct p.
Qed.

Lemma kvToPrefs_keys rows : NoDup (keys rows) -> NoDup (keys (kvToPrefs rows)).
Proof.
  apply omap_keys. intros [k r] [k' e]. cbn [fst snd]. destruct (isBackedUpPrefKey k); [|done]. destruct (pref_of _); [|done]. by intros [= <- <-].
Qed.
(** The row a restored backup has for a row of the phone that wrote it. *)
Definition restored (raw : jstr) : option jstr := (fun e => json_stringify (pref_value e)) <$> pref_of (default (JStr raw) (json_parse raw)).
Lemma restored_rows rows k : NoDup (keys rows) ->
  map_get k (prefsToKv (kvToPrefs rows)) = if isBackedUpPrefKey k then map_get k rows ≫= restored else None.
Proof.
  intros Hn. unfold prefsToKv. rewrite (map_get_omap _ (fun e => Some (json_stringify (pref_value e))) isBackedUpPrefKey);
    [| intros k' a; cbn [fst snd]; by destruct (isBackedUpPrefKey k') | by apply kvToPrefs_keys].
  destruct (isBackedUpPrefKey k) eqn:E; [|done]. unfold kvToPrefs.
  rewrite (map_get_omap _ (fun raw => pref_of (default (JStr raw) (json_parse raw))) isBackedUpPrefKey); [|intros k' a; cbn [fst snd]; by destruct (isBackedUpPrefKey k') | done].
  rewrite E. destruct (map_get k rows) as [raw|]; [|done]. cbn [mbind option_bind]. unfold restored. by destruct (pref_of _).
Qed.
(** A row that holds the text of a flag, a number, a text or a list of texts comes back as it was. *)
Lemma restored_exact e : restored (json_stringify (pref_value e)) = match e with PDouble n => Some (json_stringify (JNum n)) | _ => Some (json_stringify (pref_value e)) end.
Proof.
  unfold restored. rewrite json_roundtrip by apply pref_value_wf. destruct e as [| | | |l]; try done. cbn. do 2 f_equal. cbn. f_equal.
  rewrite <- !list_fmap_compose. by apply list_fmap_ext.
Qed.

(** A restore, in terms of the service's own tests of keys. *)
Lemma restore_cases (passphrase now : jstr) (from to : Disk) :
  (forall text, backupDecrypt cipher (backupEncrypt cipher text passphrase) passphrase = Ok text) ->
  NoDup (keys (kv from)) -> NoDup (keys (secure from)) -> NoDup (keys (kv to)) -> NoDup (keys (secure to)) -> faults from = [] -> faults to = [] ->
  exists envelope to', exportEnvelope cipher passphrase now from = (from, Ok envelope) /\ importEnvelope cipher envelope passphrase to = (to', Ok tt) /\
    (forall k, isBackedUpSecureKey k = true -> map_get k (secure to') = map_get k (secure from)) /\
    (forall k, isBackedUpSecureKey k = false -> map_get k (secure to') = map_get k (secure to)) /\
    (forall k, isBackedUpPrefKey k = false -> map_get k (kv to') = map_get k (kv to)) /\
    (forall k, isBackedUpPrefKey k = true -> map_get k (kv to') = map_get k (kv from) ≫= restored) /\
    (forall k e, isBackedUpPrefKey k = true -> map_get k (kv from) = Some (json_stringify (pref_value e)) -> map_get k (kv to') = map_get k (kv from)).
Proof.
  intros Hc Nf Sf Nt St Ff Ft. set (p := buildPayload (kv from) (secure from) now).
  assert (exportEnvelope cipher passphrase now from = (from, Ok (backupEncrypt cipher (json_stringify (payload_json p)) passphrase))) as Ex.
  { unfold exportEnvelope, allRows, secureAll, bind, io. destruct from as [? ? ? fs]. cbn in Ff. subst fs. done. }
  assert (NoDup (keys (bp_prefs p)) /\ NoDup (keys (bp_secure p))) as [Hp Hs] by (split; [by apply kvToPrefs_keys | by apply NoDup_keys_filter]).
  set (envelope := backupEncrypt cipher (json_stringify (payload_json p)) passphrase) in *.
  destruct (import_reads cipher envelope passphrase _ p to (Hc _) (payload_roundtrip p Hp Hs)) as (fs & Hfs & [[Hne _]|Ei]); [by unfold failures in Hne; rewrite Ft in Hne|].
  assert (failures to = 0%nat) as F0 by (unfold failures; by rewrite Ft).
  destruct (consumes_works (import_write p to) (with_faults fs to)) as (to' & [] & Ew & _); [apply consumes_bind; [apply consumes_replace | intros _; apply consumes_swap] | lia|].
  exists envelope, to'. split; [exact Ex|]. split; [by rewrite Ei; unfold catch; rewrite Ew|].
  destruct (write_worked p to Hp Hs (with_faults fs to) to' eq_refl (ex_intro _ tt Ew)) as [Wk Ws].
  pose proof (write_bounded p to Hp (with_faults fs to)) as [Bk Bs]. rewrite Ew in Bk, Bs. cbn [fst] in Bk, Bs.
  assert (forall k, isBackedUpPrefKey k = true -> map_get k (kv to') = map_get k (kv from) ≫= restored) as Hr.
  { intros k Hk. rewrite Wk by done. change (bp_prefs p) with (kvToPrefs (kv from)). by rewrite restored_rows, Hk. }
  split_and!; [| |exact Bk|exact Hr|].
  - intros k Hk. rewrite Ws by done. change (bp_secure p) with (List.filter (fun kv => isBackedUpSecureKey kv.1) (secure from)). by rewrite get_filter_key, Hk.
  - intros k Hk. apply Bs. destruct (swapped p to k) eqn:E; [by rewrite (swapped_backed _ _ _ E) in Hk | done].
  - intros k e Hk Hg. rewrite Hr, Hg by done. cbn [mbind option_bind]. rewrite restored_exact. by destruct e.
Qed.
(** C21 A backup taken on one phone and restored on another with the same passphrase, when the cipher
    decrypts what it encrypted, each phone has one value per key and no storage call fails: export and
    import succeed, the first phone stays as it was, and the restored phone has exactly the first one's
    tokens and certificate pins ([rfe_token_...], [rfe_fp_...]), while both halves of its own device identity
    and every other secret stay; every app row of the first that is the JSON text of a flag, number, string
    or list of strings is there as it was, app rows the first lacks are gone, and every row that is not the
    app's stays. *)
Theorem backup_roundtrip (passphrase now : jstr) (from to : Disk) :
  (forall text, backupDecrypt cipher (backupEncrypt cipher text passphrase) passphrase = Ok text) ->
  NoDup (keys (kv from)) -> NoDup (keys (secure from)) -> NoDup (keys (kv to)) -> NoDup (keys (secure to)) -> faults from = [] -> faults to = [] ->
  exists envelope to', exportEnvelope cipher passphrase now from = (from, Ok envelope) /\ importEnvelope cipher envelope passphrase to = (to', Ok tt) /\
    (forall hostId, map_get (js "rfe_token_" ++ hostId) (secure to') = map_get (js "rfe_token_" ++ hostId) (secure from) /\
                    map_get (js "rfe_fp_" ++ hostId) (secure to') = map_get (js "rfe_fp_" ++ hostId) (secure from)) /\
    (forall k, ~ login_key k -> map_get k (secure to') = map_get k (secure to)) /\
    map_get (js "rfe_device_identity_private_v1") (secure to') = map_get (js "rfe_device_identity_private_v1") (secure to) /\
    map_get (js "rfe_device_identity_public_v1") (secure to') = map_get (js "rfe_device_identity_public_v1") (secure to) /\
    (forall k, ~ setting_key k -> map_get k (kv to') = map_get k (kv to)) /\
    (forall k, setting_key k -> map_get k (kv from) = None -> map_get k (kv to') = None) /\
    (forall k e, setting_key k -> map_get k (kv from) = Some (row_text e) -> map_get k (kv to') = Some (row_text e)).
Proof.
  intros Hc Nf Sf Nt St Ff Ft. destruct (restore_cases passphrase now from to Hc Nf Sf Nt St Ff Ft) as (env & to' & H1 & H2 & H3 & H4 & H5 & H6 & H7).
  exists env, to'. destruct identity_not_login as [I1 I2]. setoid_rewrite secure_key_false in H4. setoid_rewrite pref_key_false in H5.
  setoid_rewrite secure_key_spec in H3. setoid_rewrite pref_key_spec in H6. setoid_rewrite pref_key_spec in H7.
  split_and!; try done; [|by apply H4|by apply H4|intros k Hk E; by rewrite H6, E|].
  - intros h. split; apply H3; exists h; auto.
  - intros k e Hk E. rewrite <- E. apply (H7 k e Hk). rewrite E. by destruct e.
Qed.
(** The row of the host that was open last is the id itself ([activeSelection.ts]), not its JSON
    text, so an id that is no JSON text comes back in quotes: no computer has that id. *)
Theorem last_host_restored_quoted (id : jstr) (rows : list (jstr * jstr)) : NoDup (keys rows) -> json_parse id = None ->
  map_get (js "rfe_last_host_v1") rows = Some id ->
  map_get (js "rfe_last_host_v1") (prefsToKv (kvToPrefs rows)) = Some (json_stringify (JStr id)) /\ json_stringify (JStr id) <> id.
Proof.
  intros Hn Hp Hg. split.
  - rewrite restored_rows, Hg by done. cbn [mbind option_bind]. unfold restored. by rewrite Hp.
  - intros E. pose proof (json_roundtrip (JStr id) eq_refl) as H. rewrite E in H. congruence.
Qed.
End RoundTrip.

(** ** A phone *)

Definition open_cipher : Cipher := {| backupEncrypt := fun text pass => Z.of_nat (length pass) :: pass ++ text;
  backupDecrypt := fun env pass => match env with
    | n :: r => if bool_decide (take (Z.to_nat n) r = pass) then Ok (drop (Z.to_nat n) r) else Err (PlainError (js "Wrong passphrase.")) | [] => Err corrupted end |}.
Definition sample_phone (fs : list bool) : Disk := {|
  kv := [(js "app.theme", json_stringify (JsonCodec := plain_codec) (JStr (js "dark"))); (js "other", js "x"); (js "rfe_hosts_v1", json_stringify (JsonCodec := plain_codec) (JArr [JStr (js "h")]))];
  secure := [(js "rfe_token_h", js "t0"); (SecureKeys.devicePrivate, js "me"); (js "rfe_fp_h", js "AA")]; cleaned := []; faults := fs |}.
Definition other_phone (fs : list bool) : Disk := {|
  kv := [(js "app.theme", json_stringify (JsonCodec := plain_codec) (JStr (js "light")))]; secure := [(js "rfe_token_z", js "t9"); (SecureKeys.devicePrivate, js "you")]; cleaned := []; faults := fs |}.
Definition sample_backup : jstr :=
  match exportEnvelope (J := plain_codec) open_cipher (js "correct horse") (js "2024") (sample_phone []) with (_, Ok e) => e | (_, Err _) => [] end.

(** The import fails at its fifth call and everything is as it was. *)
Lemma import_atomic_witness :
  let d := other_phone [false; false; false; false; true] in let (d', r) := importEnvelope (J := plain_codec) open_cipher sample_backup (js "correct horse") d in
  r <> Ok tt /\ map_get (js "rfe_token_z") (secure d') = Some (js "t9") /\ map_get (js "rfe_token_h") (secure d') = None.
Proof.
  intros d. pose proof (import_atomic (J := plain_codec) open_cipher sample_backup (js "correct horse") d) as H.
  assert (NoDup (keys (kv d)) /\ NoDup (keys (secure d))) as [H1 H2] by (split; apply (bool_decide_unpack _); vm_compute; exact I).
  specialize (H H1 H2). destruct (importEnvelope (J := plain_codec) open_cipher sample_backup (js "correct horse") d) as [d' r] eqn:E.
  destruct H as (_ & _ & _ & _ & H). assert (r <> Ok tt) as Hr by (vm_compute in E; injection E as _ <-; discriminate).
  destruct (backupDecrypt open_cipher sample_backup (js "correct horse")) as [text|] eqn:E1; [|vm_compute in E1; discriminate E1].
  destruct (parsePayload (J := plain_codec) text) as [p|] eqn:E2; [|vm_compute in E1; injection E1 as <-; vm_compute in E2; discriminate E2].
  destruct H as (_ & _ & _ & H & _). split; [exact Hr|]. assert ((failures d <= 1)%nat) as Hf by (vm_compute; lia).
  split; [rewrite (proj2 (H Hf Hr (js "rfe_token_z"))) | rewrite (proj2 (H Hf Hr (js "rfe_token_h")))]; vm_compute; reflexivity.
Defined.
Lemma open_cipher_ok text pass : backupDecrypt open_cipher (backupEncrypt open_cipher text pass) pass = Ok text.
Proof. cbn. by rewrite Nat2Z.id, take_app_length, bool_decide_true, drop_app_length. Qed.
Lemma backup_roundtrip_witness : exists envelope to', importEnvelope (J := plain_codec) open_cipher envelope (js "correct horse") (other_phone []) = (to', Ok tt) /\
  map_get (js "rfe_token_h") (secure to') = Some (js "t0") /\ map_get (js "rfe_device_identity_private_v1") (secure to') = Some (js "you").
Proof.
  destruct (backup_roundtrip (J := plain_codec) open_cipher (js "correct horse") (js "2024") (sample_phone []) (other_phone [])) as (env & to' & _ & H & H1 & _ & H2 & _);
    [intros; apply open_cipher_ok | apply (bool_decide_unpack _); vm_compute; exact I .. | reflexivity | reflexivity |].
  exists env, to'. split; [exact H|]. split; [rewrite (proj1 (H1 (js "h")) : map_get (js "rfe_token_h") _ = _) | rewrite H2]; vm_compute; reflexivity.
Defined.
