(* ===== verification/HostScreens.v ===== *)
(** * Computers: routes, probes, trust, waking

    [features/hosts/diagnostics.ts] (probing one route), [connectLogic.ts] (the three
    route rows and their summary), [trustLogic.ts] (what this phone may do),
    [wakeThenOpen.ts] (waking a computer and waiting for it), [hostCardLogic.ts],
    [activeSelection.ts], [useHostStatus.ts] (the ping behind a host card),
    [core/wol.ts] and [core/discovery.ts]. *)

From Stdlib Require Import ZArith Lia Bool.
From Stdlib Require List.
From S2P Require Import Prelude JsCollections JsString Json Errors Models Host Utf8 AgentClient Storage HostStore Services Paths.
Local Open Scope js_scope.

(** ** [diagnostics.ts] *)

Inductive ProbeFailure := pf_none | missingPin | pinMismatch | pf_dns | unreachable | pf_other.
Inductive AuthOutcome := notChecked | accepted | denied.
#[export] Instance ProbeFailure_eq_dec : EqDecision ProbeFailure.
Proof. solve_decision. Defined.
#[export] Instance AuthOutcome_eq_dec : EqDecision AuthOutcome.
Proof. solve_decision. Defined.
Record ProbeResult := {
  pr_route : HostRoute; pr_address : jstr; pr_latencyMs : option Z; pr_health : option Health; pr_failure : ProbeFailure; pr_auth : AuthOutcome }.
Definition DNS_HINTS : list jstr :=
  [js "unable to resolve host"; js "no address associated with hostname"; js "failed host lookup"; js "name or service not known"; js "nodename nor servname"; js "unknownhost"].

Section Diagnostics.
Context `{U : Unicode} `{J : JsonCodec}.

Definition classifyFailure (e : jserror) : ProbeFailure :=
  match e with
  | CertPinMismatch => pinMismatch
  | MissingCertPin => missingPin
  | AgentApiError _ code _ cause =>
      if bool_decide (code = js "CONNECTION") then
        let detail := toLowerCase (default [] cause) in
        if List.existsb (fun h => includes h detail) DNS_HINTS then pf_dns else unreachable
      else pf_other
  | _ => pf_other
  end.

Record ProbeDeps := { pd_transport : Transport; pd_deviceToken : option jstr; pd_fingerprint : option jstr; pd_timeoutMs : option Z }.
(** The record of a computer that has this address only. *)
Definition single_host (host : Host) (address pin : jstr) : Host := {|
  host_id := host_id host; host_label := host_label host; host_address := address; certFingerprint := Some pin;
  tailscaleName := None; tailscaleAddress := None; internetAddress := None; macAddress := None; note := None |}.
Definition probe_opts (d : ProbeDeps) (pin : jstr) : AgentClientOptions := {|
  opt_deviceToken := pd_deviceToken d; opt_pinnedFingerprint := Some pin; opt_clientVersion := None;
  opt_probeLanFirst := false; opt_timeoutMs := Some (default 5000 (pd_timeoutMs d)) |}.
Definition failed_probe (route : HostRoute) (address : jstr) (f : ProbeFailure) : ProbeResult := {|
  pr_route := route; pr_address := address; pr_latencyMs := None; pr_health := None; pr_failure := f; pr_auth := notChecked |}.
(** The status call: the inner [try]. *)
Definition probe_auth (d : ProbeDeps) (c : Client) : M World jserror AuthOutcome :=
  catch (status (pd_transport d) c;; ret accepted) (fun e =>
    match e with
    | CertPinMismatch | MissingCertPin => throw e
    | AgentApiError s _ _ _ => ret (if (s =? 401) || (s =? 403) then denied else notChecked)
    | _ => ret notChecked
    end).
(** [t0] and [t1]: the readings of the clock around the health check.  The client is built
    outside the [try]: its refusal would reject the probe. *)
Definition probeRoute (d : ProbeDeps) (host : Host) (route : HostRoute) (address : jstr) (t0 t1 : Z) : M World jserror ProbeResult := fun w =>
  match normalizeFingerprint (pd_fingerprint d) with
  | None => (w, Ok (failed_probe route address missingPin))
  | Some pin =>
      match newAgentClient (single_host host address pin) (probe_opts d pin) (lastGoodRoute w) with
      | Err e => (w, Err e)
      | Ok (c, idx) =>
          catch (h <- health (pd_transport d) c;; auth <- probe_auth d c;;
                 ret {| pr_route := route; pr_address := address; pr_latencyMs := Some (t1 - t0); pr_health := Some h; pr_failure := pf_none; pr_auth := auth |})
                (fun e => ret (failed_probe route address (classifyFailure e)))
                {| addrIndex := idx; lastGoodRoute := lastGoodRoute w; sent := sent w |}
      end
  end.
(** [Promise.all] over the routes; the probes share the network only. *)
Fixpoint probe_each (d : ProbeDeps) (host : Host) (routes : list HostRouteAddress) (clock : jstr -> Z * Z) : M World jserror (list ProbeResult) :=
  match routes with
  | [] => ret []
  | r :: rest =>
      p <- probeRoute d host (Host.route r) (route_address r) (clock (route_address r)).1 (clock (route_address r)).2;;
      ps <- probe_each d host rest clock;; ret (p :: ps)
  end.
Definition probeAll (d : ProbeDeps) (host : Host) (clock : jstr -> Z * Z) : M World jserror (list ProbeResult) :=
  probe_each d host (routeAddresses host) clock.

(** *** Only this address, only over its pin *)

Lemma single_addresses host address pin : address <> [] -> route_address <$> routeAddresses (single_host host address pin) = [address].
Proof. by destruct address. Qed.

(** What a probe sends: a bodyless GET to this address over the pin. *)
Definition probe_request (address pin : jstr) (q : TransportRequest) : Prop :=
  rq_pin q = Some pin /\ rq_method q = js "GET" /\ rq_bodyText q = None /\
  (rq_url q = js "https://" ++ address ++ js "/v1/health" \/ rq_url q = js "https://" ++ address ++ js "/v1/settings").

(** One call of a client with one address: at most one request, and the route table is left alone. *)
Definition one_request (transport : Transport) (P : TransportRequest -> Prop) (w w' : World) (ok : bool) : Prop :=
  lastGoodRoute w' = lastGoodRoute w /\ addrIndex w' = addrIndex w /\
  exists q, P q /\ sent w' = sent w ++ [q] /\ (ok = true -> exists res, transport (sent w) q = Ok res).
Lemma single_call transport c address path w : cl_addresses c = [address] -> addrIndex w = 0 -> is_Some (cl_pin c) ->
  let (w', r) := call transport c (js "GET") path no_opts w in
  one_request transport (fun q => rq_pin q = cl_pin c /\ rq_method q = js "GET" /\ rq_bodyText q = None /\ rq_url q = js "https://" ++ address ++ js "/v1" ++ path) w w' (is_ok r).
Proof.
  intros Ha Hi [p Hp]. unfold call, callFull, exchange, bind, get_state, catch, send, lift, ret. rewrite Hp, Hi, Ha. cbn [is_some negb andb].
  change (query_string (co_query no_opts)) with (Some ([] : jstr)). cbn iota beta. cbn [nonempty co_json co_text no_opts].
  assert (address_at c 0 = address) as -> by (unfold address_at; rewrite Ha; reflexivity). rewrite app_nil_r.
  match goal with |- context [transport (sent w) ?q0] => set (q := q0) end. destruct (transport (sent w) q) as [res|e] eqn:Et.
  - cbn iota beta. destruct (parse res); (split; [done|]; split; [done|]; exists q; split; [done|]; split; [done|]; intros _; by exists res).
  - cbn [length Nat.ltb Nat.leb]. rewrite orb_true_r. unfold throw. repeat case_match; simplify_eq; (split; [done|]; split; [done|]; exists q; by split_and!).
Qed.
Lemma client_of_single d host address pin lastGood : address <> [] -> is_pin pin = true ->
  exists c, newAgentClient (single_host host address pin) (probe_opts d pin) lastGood = Ok (c, 0) /\ cl_addresses c = [address] /\ cl_pin c = Some pin.
Proof.
  intros Hne Hp. unfold newAgentClient. cbn [probe_opts opt_pinnedFingerprint opt_deviceToken opt_probeLanFirst]. rewrite (normalizeFingerprint_id _ Hp). cbn [is_some negb andb].
  rewrite andb_false_r, single_addresses by done. eexists. split; [do 2 f_equal; cbn [length]; lia | done].
Qed.

(** What one probe did, from its requests [ns] and its result. *)
Definition probe_outcome (d : ProbeDeps) (address : jstr) (log ns : list TransportRequest) (p : ProbeResult) : Prop :=
  match normalizeFingerprint (pd_fingerprint d) with
  | None => ns = [] /\ pr_failure p = missingPin
  | Some pin =>
      Forall (probe_request address pin) ns /\ (length ns <= 2)%nat /\
      (pr_failure p = pf_none -> exists q1 q2 res, ns = [q1; q2] /\ pd_transport d log q1 = Ok res /\ is_some (pr_latencyMs p) = true) /\
      (pr_failure p <> pf_none -> pr_latencyMs p = None /\ pr_auth p = notChecked) /\
      (pr_auth p = accepted -> exists q1 q2 res, ns = [q1; q2] /\ pd_transport d (log ++ [q1]) q2 = Ok res)
  end.
Lemma classify_not_none e : classifyFailure e <> pf_none.
Proof. unfold classifyFailure. destruct e; repeat case_match; done. Qed.
Lemma call_then {A} transport c path (f : json -> result jserror A) w :
  (d <- call transport c (js "GET") path no_opts;; lift (f d)) w =
  let (w', r) := call transport c (js "GET") path no_opts w in (w', match r with Ok v => f v | Err e => Err e end).
Proof. unfold bind at 1. destruct (call transport c (js "GET") path no_opts w) as [w' [v|e]]; done. Qed.
Lemma single_health transport c address w : cl_addresses c = [address] -> addrIndex w = 0 -> is_Some (cl_pin c) ->
  let (w', r) := health transport c w in one_request transport (fun q => rq_pin q = cl_pin c /\ rq_method q = js "GET" /\ rq_bodyText q = None /\ rq_url q = js "https://" ++ address ++ js "/v1/health") w w' (is_ok r).
Proof.
  intros Ha Hi Hp. unfold health. rewrite call_then. pose proof (single_call transport c address (js "/health") w Ha Hi Hp) as H.
  destruct (call _ _ _ _ _ w) as [w' [v|e]]; [|exact H]. destruct H as (H1 & H2 & q & Hq & Hs & Hr). split; [done|]. split; [done|].
  exists q. split; [exact Hq|]. split; [done|]. intros _. by apply Hr.
Qed.
Lemma single_auth d c address w : cl_addresses c = [address] -> addrIndex w = 0 -> is_Some (cl_pin c) ->
  let (w', r) := probe_auth d c w in
  lastGoodRoute w' = lastGoodRoute w /\ exists q, (rq_pin q = cl_pin c /\ rq_method q = js "GET" /\ rq_bodyText q = None /\ rq_url q = js "https://" ++ address ++ js "/v1/settings") /\
    sent w' = sent w ++ [q] /\ (r = Ok accepted -> exists res, pd_transport d (sent w) q = Ok res).
Proof.
  intros Ha Hi Hp. unfold probe_auth, catch, status. unfold bind at 1. rewrite call_then.
  pose proof (single_call (pd_transport d) c address (js "/settings") w Ha Hi Hp) as H.
  destruct (call _ _ _ _ _ w) as [w' [v|e]]; destruct H as (H1 & _ & q & Hq & Hs & Hr).
  - destruct (parseStatus v) as [st|e]; [|repeat case_match; unfold ret, throw in *; simplify_eq]; (split; [done|]; exists q; split; [exact Hq|]; split; [done|]; intros _; by apply Hr).
  - cbn iota beta. repeat case_match; unfold ret, throw in *; simplify_eq; (split; [done|]; exists q; split; [exact Hq|]; split; [done|]; intros E; discriminate E || (injection E as E; by destruct (_ || _))).
Qed.
Lemma probeRoute_spec d host route address t0 t1 w : address <> [] ->
  exists w' p ns, probeRoute d host route address t0 t1 w = (w', Ok p) /\ pr_route p = route /\ pr_address p = address /\
    lastGoodRoute w' = lastGoodRoute w /\ sent w' = sent w ++ ns /\ probe_outcome d address (sent w) ns p.
Proof.
  intros Hne. unfold probeRoute, probe_outcome. destruct (normalizeFingerprint (pd_fingerprint d)) as [pin|] eqn:En; [|exists w, (failed_probe route address missingPin), []; by rewrite app_nil_r].
  destruct (client_of_single d host address pin (lastGoodRoute w) Hne (normalizeFingerprint_pin _ _ En)) as (c & -> & Ha & Hp).
  set (w0 := {| addrIndex := 0; lastGoodRoute := lastGoodRoute w; sent := sent w |}).
  pose proof (single_health (pd_transport d) c address w0 Ha eq_refl ltac:(by eexists)) as H. unfold catch, bind.
  destruct (health (pd_transport d) c w0) as [w1 [h|e]]; destruct H as (L1 & I1 & q1 & Q1 & S1 & R1); rewrite Hp in Q1; destruct Q1 as (Q11 & Q12 & Q13 & Q14).
  2: { exists w1, (failed_probe route address (classifyFailure e)), [q1]. do 5 (split; [done|]). split; [by apply Forall_singleton; split_and!; auto|].
       split; [cbn; lia|]. split; [intros E; by destruct (classify_not_none e)|]. done. }
  destruct (R1 eq_refl) as [res1 E1]. pose proof (single_auth d c address w1 Ha I1 ltac:(by eexists)) as H.
  destruct (probe_auth d c w1) as [w2 r2]. destruct H as (L2 & q2 & Q2 & S2 & R2). rewrite Hp in Q2. destruct Q2 as (Q21 & Q22 & Q23 & Q24).
  assert (sent w2 = sent w ++ [q1; q2]) as S by (rewrite S2, S1; cbn [sent w0]; by rewrite <- app_assoc).
  assert (Forall (probe_request address pin) [q1; q2]) as HF by (repeat constructor; auto).
  destruct r2 as [a|e]; cbn [ret].
  - eexists w2, _, [q1; q2]. split; [reflexivity|]. split; [reflexivity|]. split; [reflexivity|]. split; [exact (eq_trans L2 L1)|]. split; [exact S|]. split; [exact HF|]. split; [cbn; lia|].
    split; [intros _; by exists q1, q2, res1|]. split; [done|]. cbn. intros ->. destruct (R2 eq_refl) as [res2 E2]. exists q1, q2, res2. split; [done|]. by rewrite <- E2, S1.
  - eexists w2, _, [q1; q2]. split; [reflexivity|]. split; [reflexivity|]. split; [reflexivity|]. split; [exact (eq_trans L2 L1)|]. split; [exact S|]. split; [exact HF|]. split; [cbn; lia|]. split; [intros E; by destruct (classify_not_none e)|]. done.
Qed.

(** Each route's requests and result, in route order. *)
Inductive Probed (d : ProbeDeps) : list TransportRequest -> list HostRouteAddress -> list TransportRequest -> list ProbeResult -> Prop :=
| probed_nil log : Probed d log [] [] []
| probed_cons log r rs ns1 ns2 p ps : pr_route p = Host.route r -> pr_address p = route_address r ->
    probe_outcome d (route_address r) log ns1 p -> Probed d (log ++ ns1) rs ns2 ps -> Probed d log (r :: rs) (ns1 ++ ns2) (p :: ps).
Lemma probe_each_spec d host clock rs w : Forall (fun r => route_address r <> []) rs ->
  exists w' ps ns, probe_each d host rs clock w = (w', Ok ps) /\ lastGoodRoute w' = lastGoodRoute w /\ sent w' = sent w ++ ns /\ Probed d (sent w) rs ns ps.
Proof.
  intros H. revert w. induction H as [|r rs Hr _ IH]; intros w; cbn [probe_each].
  { exists w, [], []. rewrite app_nil_r. split_and!; try done. constructor. }
  destruct (probeRoute_spec d host (Host.route r) (route_address r) (clock (route_address r)).1 (clock (route_address r)).2 w Hr) as (w1 & p & ns1 & E1 & P1 & P2 & L1 & S1 & O1).
  destruct (IH w1) as (w2 & ps & ns2 & E2 & L2 & S2 & O2). exists w2, (p :: ps), (ns1 ++ ns2). rewrite (bind_ok _ _ _ _ _ E1), (bind_ok _ _ _ _ _ E2).
  split; [done|]. split; [congruence|]. split; [by rewrite S2, S1, app_assoc|]. constructor; try done. by rewrite <- S1.
Qed.
Lemma first_seen_nonempty seen cs : Forall (fun r => route_address r <> []) (first_seen seen cs).
Proof.
  revert seen. induction cs as [|r cs IH]; intros seen; cbn [first_seen]; [constructor|]. destruct (negb (nonempty (route_address r)) || _) eqn:E; [apply IH|].
  apply orb_false_iff in E as [E _]. constructor; [by destruct (route_address r) | apply IH].
Qed.
End Diagnostics.

(** Probing a computer: the probe itself never rejects and gives one result per route, in
    order; without a usable pin nothing is sent; every request is a bodyless GET to the health or
    settings address of that one route, over the pin, at most two per route, the second (which
    asks whether the token is accepted) only after the first was answered; a failed route has no
    latency and no verdict on the token; and the route other clients start from is left alone. *)
Theorem probeAll_isolated `{U : Unicode} `{J : JsonCodec} (d : ProbeDeps) (host : Host) (clock : jstr -> Z * Z) (w : World) :
  exists w' ps ns, probeAll d host clock w = (w', Ok ps) /\ lastGoodRoute w' = lastGoodRoute w /\ sent w' = sent w ++ ns /\ Probed d (sent w) (routeAddresses host) ns ps.
Proof. apply probe_each_spec, first_seen_nonempty. Qed.

(** ** [connectLogic.ts] *)

Inductive RouteState := rs_checking | rs_current | rs_ready | rs_denied | rs_mismatch | rs_noPin | rs_noResponse | rs_dns | rs_error | rs_notConfigured.
#[export] Instance RouteState_eq_dec : EqDecision RouteState.
Proof. solve_decision. Defined.
Record RouteRow := { row_route : HostRoute; row_title : jstr; row_address : option jstr; row_state : RouteState; row_latencyMs : option Z }.
Definition route_title (r : HostRoute) : jstr :=
  match r with lan => js "Local network" | tailscale => js "Tailscale" | directHttps => js "Direct HTTPS" | custom => [] end.
Definition ROUTE_ORDER : list HostRoute := [lan; tailscale; directHttps].
Definition isReachable (r : ProbeResult) : bool := bool_decide (pr_failure r = pf_none).
Definition pickCurrent (results : option (list ProbeResult)) (clientAddress : option jstr) : option jstr :=
  match results with
  | None => None
  | Some rs =>
      let ok := List.filter isReachable rs in
      match truthy clientAddress with
      | Some a => if List.existsb (fun r => bool_decide (pr_address r = a)) ok then Some a else pr_address <$> head ok
      | None => pr_address <$> head ok
      end
  end.
Definition stateOf (r : ProbeResult) (current : option jstr) : RouteState :=
  match pr_failure r with
  | pf_none => if bool_decide (pr_auth r = denied) then rs_denied else if bool_decide (Some (pr_address r) = current) then rs_current else rs_ready
  | missingPin => rs_noPin
  | pinMismatch => rs_mismatch
  | pf_dns => rs_dns
  | unreachable => rs_noResponse
  | pf_other => rs_error
  end.
(** [new Map(...)]: a later entry of one route would replace an earlier one. *)
Definition configured (host : Host) : list (HostRoute * jstr) :=
  fold_left (fun m r => map_set (Host.route r) (route_address r) m) (routeAddresses host) [].
Definition route_row (host : Host) (results : option (list ProbeResult)) (current : option jstr) (route : HostRoute) : RouteRow :=
  let row address st lat := {| row_route := route; row_title := route_title route; row_address := address; row_state := st; row_latencyMs := lat |} in
  match map_get route (configured host) with
  | None => row None rs_notConfigured None
  | Some address =>
      match results ≫= List.find (fun p => bool_decide (pr_address p = address)) with
      | None => row (Some address) rs_checking None
      | Some r => row (Some address) (stateOf r current) (if isReachable r then pr_latencyMs r else None)
      end
  end.
Definition buildRouteRows (host : Host) (results : option (list ProbeResult)) (clientAddress : option jstr) : list RouteRow :=
  route_row host results (pickCurrent results clientAddress) <$> ROUTE_ORDER.
Inductive ConnectionSummary := cs_checking | cs_online | cs_attention | cs_offline.
Definition some_state (ss : list RouteState) (rows : list RouteRow) : bool := List.existsb (fun r => set_has (row_state r) ss) rows.
Definition summarize (rows : list RouteRow) : ConnectionSummary :=
  if some_state [rs_checking] rows then cs_checking
  else if some_state [rs_current; rs_ready] rows then cs_online
  else if some_state [rs_denied; rs_mismatch; rs_noPin] rows then cs_attention
  else cs_offline.
Inductive StateTone := tone_safe | tone_warn | tone_muted.
Definition stateTone (s : RouteState) : StateTone :=
  match s with rs_current => tone_safe | rs_denied | rs_mismatch | rs_noPin | rs_error => tone_warn | _ => tone_muted end.
Definition STATE_LABEL (s : RouteState) : jstr :=
  match s with
  | rs_checking => js "Checking" | rs_current => js "In use" | rs_ready => js "Ready" | rs_denied => js "Access denied" | rs_mismatch => js "Identity changed"
  | rs_noPin => js "No identity pin" | rs_noResponse => js "No response" | rs_dns => js "DNS failed" | rs_error => js "Error" | rs_notConfigured => js "Set up"
  end.
Definition middle_dot : jstr := [32; 183; 32].
Definition routeSubtitle (row : RouteRow) : jstr :=
  match row_address row with
  | None => if bool_decide (row_route row = tailscale) then js "Not found on this computer" else js "Not configured"
  | Some a => match row_latencyMs row with Some ms => a ++ middle_dot ++ string_of_Z ms ++ js " ms" | None => a end
  end.

(** *** The rows say what the probes found *)

(** Every route of the computer was probed, in order (what [probeAll] yields). *)
Definition probed_all (host : Host) (rs : list ProbeResult) : Prop := (fun r => (pr_route r, pr_address r)) <$> rs = (fun r => (Host.route r, route_address r)) <$> routeAddresses host.

Lemma routes_distinct host : NoDup (Host.route <$> routeAddresses host).
Proof. destruct (routeAddresses_correct host) as (_ & _ & H & _). eapply sublist_NoDup; [|exact H]. repeat constructor; set_solver. Qed.
Lemma map_set_fold_get (l : list HostRouteAddress) m k : NoDup (Host.route <$> l) ->
  map_get k (fold_left (fun m r => map_set (Host.route r) (route_address r) m) l m) =
  match List.find (fun r => bool_decide (Host.route r = k)) l with Some r => Some (route_address r) | None => map_get k m end.
Proof.
  revert m. induction l as [|r l IH]; intros m Hn; cbn [fold_left List.find]; [done|]. rewrite fmap_cons, NoDup_cons in Hn. destruct Hn as [Hr Hn]. rewrite IH by done.
  destruct (bool_decide (Host.route r = k)) eqn:E; breflect.
  - destruct (List.find _ l) as [r'|] eqn:Ef; [|rewrite <- E; apply map_get_set_eq]. apply List.find_some in Ef as [Hin Hk]. breflect. destruct Hr. rewrite E, <- Hk.
    apply list_elem_of_fmap_2. by apply list_elem_of_In.
  - destruct (List.find _ l); [done|]. by apply map_get_set_ne.
Qed.
Lemma configured_get host k a : map_get k (configured host) = Some a <-> exists r, r ∈ routeAddresses host /\ Host.route r = k /\ route_address r = a.
Proof.
  unfold configured. rewrite map_set_fold_get by apply routes_distinct. split.
  - destruct (List.find _ _) as [r|] eqn:E; [|done]. intros [= <-]. apply List.find_some in E as [Hin Hk]. breflect. exists r. split; [by apply list_elem_of_In | done].
  - intros (r & Hin & Hk & <-). destruct (List.find _ _) as [r'|] eqn:E.
    + apply List.find_some in E as [Hin' Hk']. breflect. pose proof (routes_distinct host) as Hn. apply list_elem_of_In in Hin'.
      assert (r' = r) as ->; [|done]. apply list_elem_of_lookup in Hin as [i Hi], Hin' as [j Hj].
      assert (i = j) as ->; [|congruence]. eapply NoDup_lookup; [exact Hn | by rewrite list_lookup_fmap, Hi | rewrite list_lookup_fmap, Hj; cbn; congruence].
    + eapply List.find_none in E; [|by apply list_elem_of_In]. breflect. done.
Qed.
Lemma find_address rs r : NoDup (pr_address <$> rs) -> r ∈ rs -> List.find (fun p => bool_decide (pr_address p = pr_address r)) rs = Some r.
Proof.
  induction rs as [|x rs IH]; intros Hn Hin; [by apply not_elem_of_nil in Hin|]. rewrite fmap_cons, NoDup_cons in Hn. destruct Hn as [Hx Hn]. cbn [List.find].
  apply elem_of_cons in Hin as [->|Hin]; [by rewrite bool_decide_true|]. destruct (bool_decide (pr_address x = pr_address r)) eqn:E; breflect; [|by apply IH].
  destruct Hx. rewrite E. by apply list_elem_of_fmap_2.
Qed.
Section Rows.
Context (host : Host) (rs : list ProbeResult).
Hypothesis Hall : probed_all host rs.

Lemma probed_addresses : NoDup (pr_address <$> rs).
Proof.
  destruct (routeAddresses_correct host) as (H & _). assert (pr_address <$> rs = route_address <$> routeAddresses host) as ->; [|done].
  pose proof (f_equal (fmap snd) Hall) as E. rewrite <- !list_fmap_compose in E. exact E.
Qed.
Lemma probed_of k a : (exists r, r ∈ routeAddresses host /\ Host.route r = k /\ route_address r = a) <-> exists p, p ∈ rs /\ pr_route p = k /\ pr_address p = a.
Proof.
  assert ((k, a) ∈ (fun r => (pr_route r, pr_address r)) <$> rs <-> (k, a) ∈ (fun r => (Host.route r, route_address r)) <$> routeAddresses host) as H by (by rewrite Hall).
  rewrite !list_elem_of_fmap in H. split; [intros (r & H1 & <- & <-); destruct (proj2 H) as (p & [= -> ->] & Hp); eauto | intros (p & H1 & <- & <-); destruct (proj1 H) as (r & [= -> ->] & Hr); eauto].
Qed.
(** The row of a route: empty slot, or the slot's own probe. *)
Lemma row_cases cur k : let row := route_row host (Some rs) cur k in
  row_route row = k /\
  ((row_address row = None /\ row_state row = rs_notConfigured /\ forall p, p ∈ rs -> pr_route p <> k) \/
   exists p, p ∈ rs /\ pr_route p = k /\ row_address row = Some (pr_address p) /\ row_state row = stateOf p cur /\ row_latencyMs row = if isReachable p then pr_latencyMs p else None).
Proof.
  cbv zeta. unfold route_row. destruct (map_get k (configured host)) as [a|] eqn:E.
  - apply configured_get, probed_of in E as (p & Hp & Hk & <-). cbn [mbind option_bind]. rewrite (find_address _ _ probed_addresses Hp). split; [done|]. right. by exists p.
  - split; [done|]. left. split; [done|]. split; [done|]. intros p Hp Hk. assert (map_get k (configured host) = Some (pr_address p)); [|congruence]. apply configured_get, probed_of. eauto.
Qed.
End Rows.
Lemma pickCurrent_spec rs ca a : pickCurrent (Some rs) ca = Some a -> exists p, p ∈ rs /\ pr_address p = a /\ isReachable p = true.
Proof.
  unfold pickCurrent. assert (pr_address <$> head (List.filter isReachable rs) = Some a -> exists p, p ∈ rs /\ pr_address p = a /\ isReachable p = true) as Hh.
  { destruct (List.filter isReachable rs) as [|x l] eqn:E; [done|]. intros [= <-]. assert (x ∈ List.filter isReachable rs) as Hx by (rewrite E; left).
    apply elem_filter_bool in Hx as [? ?]. eauto. }
  destruct (truthy ca) as [c|]; [|done]. destruct (List.existsb _ _) eqn:E; [|done]. intros [= ->]. apply List.existsb_exists in E as (x & Hx & Ex). breflect.
  apply list_elem_of_In, elem_filter_bool in Hx as [? ?]. eauto.
Qed.
Lemma elem_rows host rs cur row : row ∈ route_row host rs cur <$> ROUTE_ORDER <-> exists k, k ∈ ROUTE_ORDER /\ row = route_row host rs cur k.
Proof. rewrite list_elem_of_fmap. naive_solver. Qed.
Lemma some_state_true ss rows : some_state ss rows = true <-> exists row, row ∈ rows /\ row_state row ∈ ss.
Proof. unfold some_state. rewrite List.existsb_exists. setoid_rewrite set_has_spec. setoid_rewrite list_elem_of_In. done. Qed.
Lemma stateOf_online p cur : stateOf p cur ∈ [rs_current; rs_ready] <-> pr_failure p = pf_none /\ pr_auth p <> denied.
Proof. unfold stateOf. destruct (pr_failure p); repeat case_bool_decide; set_solver. Qed.
Lemma probed_route_known host rs p : probed_all host rs -> p ∈ rs -> pr_route p ∈ ROUTE_ORDER.
Proof.
  intros H Hp. destruct (proj2 (probed_of host rs H (pr_route p) (pr_address p))) as (r & Hr & <- & _); [eauto|].
  destruct (routeAddresses_correct host) as (_ & _ & Hs & _). eapply elem_of_sublist; [|exact Hs]. by apply list_elem_of_fmap_2.
Qed.

(** The Connect screen after a probe of every route of a computer: three rows in priority order,
    a slot without an address says so, each other row shows its own route's finding, none is left
    checking, at most one is the route in use and that one answered, and the summary is "online"
    exactly when some route answered and did not refuse this phone. *)
Theorem routeRows_correct (host : Host) (rs : list ProbeResult) (clientAddress : option jstr) : probed_all host rs ->
  let cur := pickCurrent (Some rs) clientAddress in
  let rows := buildRouteRows host (Some rs) clientAddress in
  row_route <$> rows = ROUTE_ORDER /\
  Forall (fun row => (row_address row = None /\ row_state row = rs_notConfigured /\ forall p, p ∈ rs -> pr_route p <> row_route row) \/
    exists p, p ∈ rs /\ pr_route p = row_route row /\ row_address row = Some (pr_address p) /\ row_state row = stateOf p cur) rows /\
  (forall r1 r2, r1 ∈ rows -> r2 ∈ rows -> row_state r1 = rs_current -> row_state r2 = rs_current -> r1 = r2) /\
  (forall row, row ∈ rows -> row_state row = rs_current -> exists p, p ∈ rs /\ isReachable p = true /\ row_address row = Some (pr_address p)) /\
  (summarize rows = cs_online <-> exists p, p ∈ rs /\ pr_failure p = pf_none /\ pr_auth p <> denied) /\
  summarize rows <> cs_checking.
Proof.
  intros H cur rows. pose proof (row_cases host rs H cur) as Hc. cbv zeta in Hc. unfold buildRouteRows in rows. fold cur in rows. clearbody cur.
  assert (forall row, row ∈ rows -> row_state row = rs_current -> exists p, p ∈ rs /\ isReachable p = true /\ Some (pr_address p) = cur /\ row = route_row host (Some rs) cur (pr_route p)) as Hcur.
  { intros row Hrow Hst. apply elem_rows in Hrow as (k & _ & ->). destruct (Hc k) as (_ & [(_ & E & _)|(p & Hp & Hk & _ & E & _)]); [by rewrite E in Hst|]. rewrite E in Hst.
    unfold stateOf in Hst. destruct (pr_failure p) eqn:Ef; try done. repeat case_bool_decide; try done. exists p. split; [done|]. split; [unfold isReachable; by rewrite Ef|]. split; [done|]. by rewrite Hk. }
  assert (~ exists row, row ∈ rows /\ row_state row ∈ [rs_checking]) as Hno.
  { intros (row & Hrow & Hst%list_elem_of_singleton). apply elem_rows in Hrow as (k & _ & ->). destruct (Hc k) as (_ & [(_ & E & _)|(p & _ & _ & _ & E & _)]); rewrite E in Hst; [done|].
    unfold stateOf in Hst. destruct (pr_failure p); repeat case_bool_decide; done. }
  assert ((exists row, row ∈ rows /\ row_state row ∈ [rs_current; rs_ready]) <-> exists p, p ∈ rs /\ pr_failure p = pf_none /\ pr_auth p <> denied) as Hon.
  { split.
    - intros (row & Hrow & Hst). apply elem_rows in Hrow as (k & _ & ->). destruct (Hc k) as (_ & [(_ & E & _)|(p & Hp & _ & _ & E & _)]); rewrite E in Hst; [set_solver|]. apply stateOf_online in Hst. eauto.
    - intros (p & Hp & Hok). exists (route_row host (Some rs) cur (pr_route p)). split; [apply elem_rows; eauto using probed_route_known|].
      destruct (Hc (pr_route p)) as (_ & [(_ & _ & Hn)|(p' & Hp' & Hk & _ & E & _)]); [by destruct (Hn p Hp)|]. rewrite E. apply stateOf_online.
      assert (p' = p) as ->; [|done]. assert (NoDup (pr_route <$> rs)) as Hnd.
      { pose proof (f_equal (fmap fst) H) as Er. rewrite <- !list_fmap_compose in Er. rewrite (Er : pr_route <$> rs = Host.route <$> routeAddresses host). apply routes_distinct. }
      apply list_elem_of_lookup in Hp as [i Hi], Hp' as [j Hj]. assert (i = j) as ->; [|congruence].
      eapply NoDup_lookup; [exact Hnd | by rewrite list_lookup_fmap, Hi | rewrite list_lookup_fmap, Hj; cbn; congruence]. }
  split; [unfold rows, ROUTE_ORDER; cbn [fmap list_fmap]; by rewrite !(proj1 (Hc _))|]. split; [|split; [|split; [|split]]].
  - apply Forall_forall. intros row Hrow. apply elem_rows in Hrow as (k & _ & ->). destruct (Hc k) as (Hk & [(H1 & H2 & H3)|(p & H1 & H2 & H3 & H4 & _)]); [left | right; exists p]; by rewrite Hk.
  - intros r1 r2 R1 R2 E1 E2. destruct (Hcur _ R1 E1) as (p1 & P1 & _ & C1 & ->), (Hcur _ R2 E2) as (p2 & P2 & _ & C2 & ->).
    assert (p1 = p2) as ->; [|done]. assert (pr_address p1 = pr_address p2) as Ea by congruence.
    pose proof (find_address rs p1 (probed_addresses host rs H) P1) as F1. pose proof (find_address rs p2 (probed_addresses host rs H) P2) as F2. rewrite Ea in F1. congruence.
  - intros row Hrow Hst. destruct (Hcur _ Hrow Hst) as (p & Hp & Hr & _ & ->). exists p. split; [done|]. split; [done|].
    destruct (Hc (pr_route p)) as (_ & [(_ & E & _)|(p' & Hp' & Hk & Ha & _)]); [by rewrite E in Hst|]. rewrite Ha. f_equal.
    destruct (proj2 (probed_of host rs H (pr_route p) (pr_address p))) as (r1 & Hr1 & K1 & <-); [eauto|]. destruct (proj2 (probed_of host rs H (pr_route p) (pr_address p'))) as (r2 & Hr2 & K2 & <-); [eauto|].
    assert (map_get (pr_route p) (configured host) = Some (route_address r1)) as G1 by (apply configured_get; eauto).
    assert (map_get (pr_route p) (configured host) = Some (route_address r2)) as G2 by (apply configured_get; eauto). congruence.
  - unfold summarize. rewrite <- Hon. rewrite <- !some_state_true in Hno. rewrite <- some_state_true. destruct (some_state [rs_checking] rows); [done|].
    destruct (some_state [rs_current; rs_ready] rows); [done|]. by destruct (some_state _ rows).
  - unfold summarize. rewrite <- some_state_true in Hno. destruct (some_state [rs_checking] rows); [done|]. by repeat case_match.
Qed.
Definition sample_probe (r : HostRoute) (a : jstr) (f : ProbeFailure) (auth : AuthOutcome) : ProbeResult := {|
  pr_route := r; pr_address := a; pr_latencyMs := if bool_decide (f = pf_none) then Some 12 else None; pr_health := None; pr_failure := f; pr_auth := auth |}.
Lemma routeRows_correct_witness :
  let rs := [sample_probe lan (js "10.0.0.2:8765") unreachable notChecked; sample_probe tailscale (js "100.64.0.2:8765") pf_none accepted] in
  summarize (buildRouteRows sample_client_host (Some rs) (Some (js "10.0.0.2:8765"))) = cs_online.
Proof.
  intros rs. destruct (routeRows_correct sample_client_host rs (Some (js "10.0.0.2:8765")) eq_refl) as (_ & _ & _ & _ & H & _).
  apply H. exists (sample_probe tailscale (js "100.64.0.2:8765") pf_none accepted). split; [right; left|]. split; [reflexivity | discriminate].
Defined.

(** ** [trustLogic.ts] *)

Inductive PermissionKey := pk_file (c : FileCapability) | viewApps | launchApps.
Record AppsProbe := { ap_view : bool; ap_launch : bool }.
Record PermissionRow := { perm_key : PermissionKey; perm_allowed : option bool; perm_note : option jstr }.
Definition PERMISSION_KEYS : list PermissionKey := (pk_file <$> FILE_CAPABILITIES) ++ [viewApps; launchApps].
Definition WRITES : list FileCapability := [upload; modify_cap; delete_cap].
Definition file_grants (status : AgentStatus) (device : option Device) : option (FileCapability -> bool) :=
  match status_fileCapabilities status with
  | Some g => Some g
  | None =>
      match device with
      | Some d => if device_viaLogin d then Some (fun _ => true)
                  else if hasFileCapabilities d then Some (fun c => bool_decide (device_caps d c = Some true)) else None
      | None => None
      end
  end.
Definition file_row (status : AgentStatus) (grants : option (FileCapability -> bool)) (key : FileCapability) : PermissionRow :=
  let granted := (fun g => g key) <$> grants in
  let refused n := {| perm_key := pk_file key; perm_allowed := Some false; perm_note := Some (js n) |} in
  if bool_decide (granted = Some true) && status_accessDenied status then refused "No folder access for this phone"%string
  else if bool_decide (granted = Some true) && status_readOnly status && set_has key WRITES then refused "This computer is in read-only mode"%string
  else if bool_decide (granted = Some true) && bool_decide (key = share) && negb (status_allowSharing status) then refused "Share links are turned off on this computer"%string
  else {| perm_key := pk_file key; perm_allowed := granted; perm_note := None |}.
Definition app_device (device : option Device) : option Device :=
  match device with Some d => if hasAppCapabilities d then Some d else None | None => None end.
Definition view_allowed (device : option Device) (probe : option AppsProbe) : option bool :=
  match app_device device with Some d => Some (bool_decide (device_viewApps d = Some true)) | None => ap_view <$> probe end.
Definition launch_allowed (device : option Device) (probe : option AppsProbe) : option bool :=
  match app_device device with
  | Some d => Some (bool_decide (view_allowed device probe = Some true) && bool_decide (device_launchApps d = Some true))
  | None => ap_launch <$> probe
  end.
Definition buildPermissions (status : AgentStatus) (device : option Device) (probe : option AppsProbe) : list PermissionRow :=
  (file_row status (file_grants status device) <$> FILE_CAPABILITIES) ++
  [{| perm_key := viewApps; perm_allowed := view_allowed device probe; perm_note := None |};
   {| perm_key := launchApps; perm_allowed := launch_allowed device probe; perm_note := None |}].

Inductive IdentityState := id_checking | verified | id_mismatch | unpinned | id_unreachable.
Inductive StatusOutcome := so_loading | so_ok | so_pinMismatch | so_failed.
Definition identityState (pinned : option bool) (outcome : StatusOutcome) : IdentityState :=
  if bool_decide (pinned = Some false) then unpinned
  else match outcome, pinned with
       | so_loading, _ | _, None => id_checking
       | so_pinMismatch, _ => id_mismatch
       | so_ok, _ => verified
       | so_failed, _ => id_unreachable
       end.

Lemma file_row_allowed status g key : perm_allowed (file_row status g key) = Some true <->
  (fun f => f key) <$> g = Some true /\ status_accessDenied status = false /\ (key ∈ WRITES -> status_readOnly status = false) /\ (key = share -> status_allowSharing status = true).
Proof.
  unfold file_row. set (granted := _ <$> g). destruct (bool_decide (granted = Some true)) eqn:Eg; breflect; cbn [andb];
    [|cbn [perm_allowed]; naive_solver]. rewrite Eg.
  destruct (status_accessDenied status); cbn [andb perm_allowed]; [naive_solver|]. destruct (status_readOnly status); cbn [andb].
  - destruct (set_has key WRITES) eqn:Ew; [apply set_has_spec in Ew | apply set_has_false in Ew]; cbn [perm_allowed]; [naive_solver|].
    destruct (bool_decide (key = share)) eqn:Es; breflect; cbn [andb]; [|naive_solver]. destruct (status_allowSharing status); cbn; naive_solver.
  - destruct (bool_decide (key = share)) eqn:Es; breflect; cbn [andb]; [|naive_solver]. destruct (status_allowSharing status); cbn; naive_solver.
Qed.

(** The trust screen lists each permission once, in a fixed order, and never claims too much: a
    file right is shown as allowed exactly when the computer granted it to this phone and neither
    the folder lock-out, nor read-only mode for a writing right, nor the share-link switch takes it
    away; it is shown as unknown only when the computer said nothing; and launching apps is never
    shown as allowed on a device record that may not view them. *)
Theorem permissions_exact (status : AgentStatus) (device : option Device) (probe : option AppsProbe) :
  let rows := buildPermissions status device probe in
  perm_key <$> rows = PERMISSION_KEYS /\
  (forall c row, row ∈ rows -> perm_key row = pk_file c ->
     (perm_allowed row = Some true <->
        (fun g => g c) <$> file_grants status device = Some true /\ status_accessDenied status = false /\
        (c ∈ WRITES -> status_readOnly status = false) /\ (c = share -> status_allowSharing status = true)) /\
     (perm_allowed row = None <-> file_grants status device = None)) /\
  (is_Some (app_device device) -> launch_allowed device probe = Some true -> view_allowed device probe = Some true) /\
  (file_grants status device = None -> status_fileCapabilities status = None).
Proof.
  cbv zeta. assert (forall c, perm_key (file_row status (file_grants status device) c) = pk_file c) as Hk by (intros c; unfold file_row; by repeat case_match).
  split; [|split; [|split]].
  - unfold buildPermissions, PERMISSION_KEYS, FILE_CAPABILITIES. cbn [fmap list_fmap app]. by rewrite !Hk.
  - intros c row Hin Ek. assert (row = file_row status (file_grants status device) c) as ->.
    { unfold buildPermissions in Hin. apply elem_of_app in Hin as [(x & -> & _)%list_elem_of_fmap|Hin]; [rewrite Hk in Ek; by injection Ek as ->|].
      apply elem_of_cons in Hin as [->|Hin]; [done|]. apply list_elem_of_singleton in Hin as ->. done. }
    split; [apply file_row_allowed|]. unfold file_row. destruct (file_grants status device); cbn; [|naive_solver]. repeat case_match; cbn; naive_solver.
  - intros [d Hd]. unfold launch_allowed. rewrite Hd. intros [= H]. breflect. done.
  - unfold file_grants. by destruct (status_fileCapabilities status).
Qed.

(** ** [wakeThenOpen.ts] *)

Inductive WakeResult := wake_up | wake_timeout | cannot_wake | send_failed | wake_cancelled.
(** The world a wake-up runs in: what the n-th check answers and how long it takes, whether the
    packet goes out, by how much the n-th sleep overshoots, when the person cancels. *)
Record WakeDeps := {
  wd_mac : option jstr; wd_isUp : nat -> bool; wd_check_ms : nat -> Z; wd_wake : jstr -> bool; wd_overshoot : nat -> Z;
  wd_isCancelled : nat -> bool; wd_timeoutMs : Z; wd_intervalMs : Z }.
Record WakeState := { wk_clock : Z; wk_checks : nat; wk_sleeps : nat; wk_packets : list jstr }.
Section Wake.
Context (d : WakeDeps).

Definition isUp (s : WakeState) : WakeState * bool :=
  ({| wk_clock := wk_clock s + wd_check_ms d (wk_checks s); wk_checks := S (wk_checks s); wk_sleeps := wk_sleeps s; wk_packets := wk_packets s |}, wd_isUp d (wk_checks s)).
Definition sleep (s : WakeState) : WakeState := {|
  wk_clock := wk_clock s + wd_intervalMs d + wd_overshoot d (wk_sleeps s); wk_checks := wk_checks s; wk_sleeps := S (wk_sleeps s); wk_packets := wk_packets s |}.
Definition send_packet (mac : jstr) (s : WakeState) : WakeState := {|
  wk_clock := wk_clock s; wk_checks := wk_checks s; wk_sleeps := wk_sleeps s; wk_packets := wk_packets s ++ [mac] |}.
(** The [while] loop; [None]: out of fuel. *)
Fixpoint poll (fuel : nat) (deadline : Z) (s : WakeState) : option (WakeState * WakeResult) :=
  match fuel with
  | O => None
  | S n =>
      if wk_clock s <? deadline then
        let s1 := sleep s in
        if wd_isCancelled d (wk_sleeps s1) then Some (s1, wake_cancelled)
        else let (s2, up) := isUp s1 in if up then Some (s2, wake_up) else poll n deadline s2
      else Some (s, wake_timeout)
  end.
Definition wakeThenOpen (fuel : nat) (s : WakeState) : option (WakeState * WakeResult) :=
  let (s1, up) := isUp s in
  if up then Some (s1, wake_up)
  else match truthy (wd_mac d) with
       | None => Some (s1, cannot_wake)
       | Some mac =>
           if wd_wake d mac then let s2 := send_packet mac s1 in poll fuel (wk_clock s2 + wd_timeoutMs d) s2
           else Some (s1, send_failed)
       end.

Hypothesis Hinterval : 0 < wd_intervalMs d.
Hypothesis Hover : forall n, 0 <= wd_overshoot d n.
Hypothesis Hcheck : forall n, 0 <= wd_check_ms d n.

(** A run of [poll]: how it ends, and the checks it made. *)
Definition poll_ended (deadline : Z) (s s' : WakeState) (r : WakeResult) : Prop :=
  wk_packets s' = wk_packets s /\ (wk_checks s <= wk_checks s')%nat /\
  (forall n, (wk_checks s <= n)%nat -> (S n < wk_checks s')%nat -> wd_isUp d n = false) /\
  match r with
  | wake_up => (wk_checks s < wk_checks s')%nat /\ wd_isUp d (wk_checks s' - 1) = true
  | wake_timeout => deadline <= wk_clock s' /\ (forall n, (wk_checks s <= n < wk_checks s')%nat -> wd_isUp d n = false)
  | wake_cancelled => wd_isCancelled d (wk_sleeps s') = true
  | _ => False
  end.
Lemma wake_poll_ends fuel deadline s : deadline - wk_clock s <= Z.of_nat fuel * wd_intervalMs d - wd_intervalMs d -> (0 < fuel)%nat ->
  exists s' r, poll fuel deadline s = Some (s', r) /\ poll_ended deadline s s' r /\
    Z.of_nat (wk_checks s' - wk_checks s) * wd_intervalMs d <= Z.max 0 (deadline - wk_clock s + wd_intervalMs d - 1).
Proof.
  revert s. induction fuel as [|n IH]; intros s Hf Hpos; [lia|]. cbn [poll]. destruct (Z.ltb_spec (wk_clock s) deadline) as [Hlt|Hge].
  2: { exists s, wake_timeout. split; [done|]. split; [|rewrite Nat.sub_diag; lia]. split; [done|]. split; [lia|]. split; [lia|]. split; [lia|]. lia. }
  destruct (wd_isCancelled d (wk_sleeps (sleep s))) eqn:Ec.
  { eexists _, wake_cancelled. split; [done|]. split; [|cbn; rewrite Nat.sub_diag; lia]. split; [done|]. cbn. split; [lia|]. split; [lia | done]. }
  unfold isUp. destruct (wd_isUp d (wk_checks (sleep s))) eqn:Eu.
  { eexists _, wake_up. split; [done|]. split.
    - split; [done|]. cbn. split; [lia|]. split; [intros; lia|]. split; [lia|]. rewrite Nat.sub_0_r. exact Eu.
    - cbn. replace (S (wk_checks s) - wk_checks s)%nat with 1%nat by lia. lia. }
  cbv zeta. set (s2 := {| wk_clock := _ |}). pose proof (Hover (wk_sleeps s)). pose proof (Hcheck (wk_checks s)).
  assert (wk_clock s2 >= wk_clock s + wd_intervalMs d) as Hc by (cbn; lia). change (wk_checks (sleep s)) with (wk_checks s) in Eu.
  destruct (IH s2) as (s' & r & E & (P1 & P2 & P3 & P4) & P5); [lia | nia|]. exists s', r. split; [exact E|]. change (wk_checks s2) with (S (wk_checks s)) in *. split; [|nia].
  split; [done|]. split; [lia|]. split; [intros k K1 K2; destruct (decide (k = wk_checks s)) as [->|]; [done | apply P3; lia]|].
  destruct r; [|split; [apply P4|]; intros k K; destruct (decide (k = wk_checks s)) as [->|]; [done | apply P4; lia]|done..]. split; [lia | apply P4].
Qed.

End Wake.
Definition sample_wake : WakeDeps := {|
  wd_mac := Some (js "aa:bb:cc:dd:ee:ff"); wd_isUp := fun n => (4 <=? n)%nat; wd_check_ms := fun _ => 40; wd_wake := fun _ => true; wd_overshoot := fun _ => 5;
  wd_isCancelled := fun _ => false; wd_timeoutMs := 60000; wd_intervalMs := 3000 |}.

(** ** [hostCardLogic.ts], [activeSelection.ts] *)

Record CardActions := { ca_open : bool; ca_search : bool; ca_apps : bool; ca_transfers : bool }.
Definition hostCardActions (online checking : bool) : CardActions := {|
  ca_open := negb checking; ca_search := online && negb checking; ca_apps := online && negb checking; ca_transfers := true |}.
Inductive RouteStripState := strip_checking | strip_offline | strip_active (r : HostRoute).
Definition routeStripState (online checking : bool) (activeAddress : option jstr) (host : Host) : RouteStripState :=
  if checking then strip_checking else if negb online then strip_offline
  else strip_active (routeForAddress host (default (host_address host) activeAddress)).
(** [formatSize] is a parameter of the code. *)
Definition recentMeta (path : jstr) (size : option Z) (formatSize : Z -> jstr) : jstr :=
  let parts := filter_nonempty (split_on is_sep path) in
  let parent := if (2 <=? length parts)%nat then basenameOf (join [slash] (removelast parts)) else [] in
  join middle_dot (filter_nonempty [parent; match size with Some n => formatSize n | None => [] end]).

Definition LAST_HOST_KEY : jstr := js "rfe_last_host_v1".
Definition readLastHostId : IO (option jstr) := KeyValueStore.get LAST_HOST_KEY.
Definition writeLastHostId (id : jstr) : IO unit := KeyValueStore.set LAST_HOST_KEY id.
Definition find_host (id : option jstr) (hosts : list Host) : option Host := id ≫= fun i => host_of i hosts.
Definition pickHomeHost (hosts : list Host) (activeId lastId : option jstr) : option Host :=
  match find_host activeId hosts with
  | Some h => Some h
  | None => match find_host lastId hosts with Some h => Some h | None => head hosts end
  end.
(** The Home host is a paired one, and there is none only when nothing is paired. *)
Lemma pickHomeHost_spec hosts activeId lastId :
  match pickHomeHost hosts activeId lastId with
  | Some h => h ∈ hosts /\ (forall a, activeId = Some a -> a ∈ (host_id <$> hosts) -> host_id h = a)
  | None => hosts = []
  end.
Proof.
  assert (forall id h, find_host id hosts = Some h -> h ∈ hosts /\ id = Some (host_id h)) as Hf.
  { intros [id|] h; [|done]. cbn. intros E. apply List.find_some in E as [Hin E]. breflect. split; [by apply list_elem_of_In | congruence]. }
  assert (forall a, a ∈ (host_id <$> hosts) -> find_host (Some a) hosts <> None) as Hn.
  { intros a (h & -> & Hin)%list_elem_of_fmap E. cbn in E. eapply List.find_none in E; [|by apply list_elem_of_In]. breflect. done. }
  unfold pickHomeHost. destruct (find_host activeId hosts) as [h|] eqn:E1; [destruct (Hf _ _ E1) as [? ->]; split; [done | by intros a [= ->]]|].
  assert (forall a, activeId = Some a -> a ∈ (host_id <$> hosts) -> False) as Hno by (intros a -> Ha; by destruct (Hn a Ha)).
  destruct (find_host lastId hosts) as [h|] eqn:E2; [destruct (Hf _ _ E2) as [? _]; split; [done | intros a Ea Ha; by destruct (Hno a Ea Ha)]|].
  destruct hosts as [|h r]; [done|]. cbn. split; [left | intros a Ea Ha; by destruct (Hno a Ea Ha)].
Qed.

(** ** [core/wol.ts] *)

Definition hex_pair (p : jstr) : option Z :=
  if List.forallb is_hex p && (1 <=? length p)%nat && (length p <=? 2)%nat then Some (fold_left (fun n c => 16 * n + hex_value c) p 0) else None.
Fixpoint all_some {A} (l : list (option A)) : option (list A) :=
  match l with [] => Some [] | Some x :: r => cons x <$> all_some r | None :: _ => None end.
Definition parseMac (mac : jstr) : option (list Z) :=
  let parts := split_on (Z.eqb colon) mac in
  if (length parts =? 6)%nat then all_some (hex_pair <$> parts) else None.
Definition magicPacket (mac : list Z) : list Z := replicate 6 255 ++ concat (replicate 16 mac).
Lemma hex_value_range c : is_hex c = true -> 0 <= hex_value c < 16.
Proof. unfold is_hex, is_hex_lower, hex_value, is_digit, is_lower. intros H. repeat (rewrite ?orb_true_iff, ?andb_true_iff, ?Z.leb_le in H). repeat case_match; rewrite ?andb_true_iff, ?andb_false_iff, ?Z.leb_le, ?Z.leb_gt in *; lia. Qed.
Lemma hex_pair_byte p n : hex_pair p = Some n -> 0 <= n < 256.
Proof.
  unfold hex_pair. destruct (_ && _) eqn:E; [|done]. intros [= <-]. breflect. destruct p as [|a [|b [|]]]; cbn [length List.forallb] in *; [done| | |lia]; breflect; cbn [fold_left].
  - pose proof (hex_value_range a ltac:(done)). lia.
  - pose proof (hex_value_range a ltac:(done)). pose proof (hex_value_range b ltac:(done)). lia.
Qed.
(** A magic packet is 102 bytes. *)
Lemma magicPacket_bytes mac ms : parseMac mac = Some ms -> length ms = 6%nat /\ length (magicPacket ms) = 102%nat /\ Forall (fun b => 0 <= b < 256) (magicPacket ms).
Proof.
  unfold parseMac. destruct (length (split_on (Z.eqb colon) mac) =? 6)%nat eqn:E6; [|done]. apply Nat.eqb_eq in E6.
  assert (forall l ms', all_some (hex_pair <$> l) = Some ms' -> length ms' = length l /\ Forall (fun b => 0 <= b < 256) ms') as Hl.
  { induction l as [|p l IH]; intros ms'; [by intros [= <-]|]. rewrite fmap_cons. cbn [all_some]. destruct (hex_pair p) as [n|] eqn:Ep; [|done]. destruct (all_some (hex_pair <$> l)) as [r|]; [|done].
    intros [= <-]. destruct (IH r eq_refl) as [? ?]. split; [cbn; lia|]. constructor; [by eapply hex_pair_byte | done]. }
  intros H. destruct (Hl _ _ H) as [Hlen Hb]. rewrite E6 in Hlen. split; [done|]. unfold magicPacket. split.
  - rewrite length_app. cbn [replicate concat app length]. rewrite !length_app, Hlen. reflexivity.
  - apply Forall_app. split; [by apply Forall_replicate; lia|]. apply Forall_concat, Forall_replicate. done.
Qed.

(** ** [core/discovery.ts] *)

Record DiscoveredAgent := { da_name : jstr; da_address : jstr; da_port : Z; da_authority : jstr }.
Definition parseDiscovered (value : json) : option DiscoveredAgent :=
  match as_str (field (js "name") (obj value)), as_str (field (js "address") (obj value)), as_num (field (js "port") (obj value)) with
  | Some n, Some a, Some port =>
      let name := trim n in
      let address := trim a in
      if negb (nonempty name) || (128 <? length name)%nat || negb (validIpv4 address) || (port <? 1) || (65535 <? port) then None
      else Some {| da_name := name; da_address := address; da_port := port; da_authority := address ++ colon :: string_of_Z port |}
  | _, _, _ => None
  end.
Definition normalizeDiscovered (raw : list json) : list DiscoveredAgent :=
  snd <$> fold_left (fun m item => match parseDiscovered item with Some a => map_set (da_authority a) a m | None => m end) raw [].

(** ** [useHostStatus.ts] *)

Record HostStatus := {
  hs_checking : bool; hs_health : option Health; hs_untrusted : bool; hs_activeAddress : option jstr; hs_lastSeen : option Z; hs_drives : option (list Drive) }.
Definition DRIVE_REFRESH_MS : Z := 5 * 60000.
Definition PING_TIMEOUT_MS : Z := 8000.
Record PingWorld := { pw_services : Services; pw_status : HostStatus; pw_lastDrives : Z; pw_learned : nat }.
Notation Pw := (M PingWorld jserror).

Section Ping.
Context `{U : Unicode} `{J : JsonCodec} (transport : Transport).

Definition on_pw {A} (m : Svc A) : Pw A := fun s =>
  let (v, r) := m (pw_services s) in ({| pw_services := v; pw_status := pw_status s; pw_lastDrives := pw_lastDrives s; pw_learned := pw_learned s |}, r).
Definition set_status (f : HostStatus -> HostStatus) : Pw unit := modify (fun s =>
  {| pw_services := pw_services s; pw_status := f (pw_status s); pw_lastDrives := pw_lastDrives s; pw_learned := pw_learned s |}).
(** A truthy reported value that differs from the known ones. *)
Definition learned_value (reported : option jstr) (known : list (option jstr)) : option jstr :=
  match truthy reported with Some v => if set_has (Some v) known then None else Some v | None => None end.
Definition learned_patch (h : Host) (health : Health) : HostPatch := {|
  p_label := None; p_address := None; p_certFingerprint := None; p_tailscaleName := None;
  p_tailscaleAddress := Some <$> learned_value (health_tailscaleAddress health) [tailscaleAddress h; Some (host_address h)];
  p_internetAddress := None; p_macAddress := Some <$> learned_value (health_macAddress health) [macAddress h]; p_note := None |}.
Definition learns (p : HostPatch) : bool := is_some (p_tailscaleAddress p) || is_some (p_macAddress p).
Definition learn (h : Host) (health : Health) : Pw unit :=
  let p := learned_patch h health in
  if learns p then
    stored <- on_pw (on_sdisk (patchHost (host_id h) p));;
    modify (fun s => {| pw_services := pw_services s; pw_status := pw_status s; pw_lastDrives := pw_lastDrives s; pw_learned := if (stored : bool) then S (pw_learned s) else pw_learned s |})
  else ret tt.
(** [client.drives()], fired off and settled on its own: its failure never reaches the ping. *)
Definition refresh_drives (forceDrives : bool) (c : Client) (now : Z) : Pw unit := fun s =>
  if forceDrives || (DRIVE_REFRESH_MS <=? now - pw_lastDrives s) then
    let (v, r) := on_snet (get_drives transport c) (pw_services s) in
    let st := pw_status s in
    ({| pw_services := v; pw_lastDrives := now; pw_learned := pw_learned s;
        pw_status := {| hs_checking := hs_checking st; hs_health := hs_health st; hs_untrusted := hs_untrusted st; hs_activeAddress := hs_activeAddress st;
                        hs_lastSeen := hs_lastSeen st; hs_drives := Some match r with Ok ds => ds | Err _ => [] end |} |}, Ok tt)
  else (s, Ok tt).
Definition ping_ok (h : Host) (forceDrives : bool) (now : Z) : Pw unit :=
  client <- on_pw (clientForHost h true (Some PING_TIMEOUT_MS));;
  health <- on_pw (on_snet (AgentClient.health transport client));;
  learn h health;;
  on_pw (on_sdisk (setLastSeen (host_id h) now));;
  s <- get_state;;
  set_status (fun st => {| hs_checking := false; hs_health := Some health; hs_untrusted := false; hs_activeAddress := Some (activeAddress client (sv_net (pw_services s)));
                           hs_lastSeen := Some now; hs_drives := hs_drives st |});;
  refresh_drives forceDrives client now.
(** One ping, between the in-flight guard and the [finally]. *)
Definition ping (h : Host) (forceDrives : bool) (now : Z) : Pw unit :=
  set_status (fun st => {| hs_checking := true; hs_health := hs_health st; hs_untrusted := hs_untrusted st; hs_activeAddress := hs_activeAddress st; hs_lastSeen := hs_lastSeen st; hs_drives := hs_drives st |});;
  catch (ping_ok h forceDrives now) (fun e =>
    set_status (fun st => {| hs_checking := false; hs_health := None; hs_untrusted := bool_decide (e = CertPinMismatch); hs_activeAddress := hs_activeAddress st; hs_lastSeen := hs_lastSeen st; hs_drives := hs_drives st |})).

(** *** What a ping may change on the device *)

(** The host list is as it was, or this computer's record has the learned fields. *)
Definition learned_only (h : Host) (d d' : Disk) : Prop :=
  secure d' = secure d /\ (forall k, k <> HOSTS_KEY -> k <> lastSeenKey (host_id h) -> map_get k (kv d') = map_get k (kv d)) /\
  (hosts_on d' = hosts_on d \/ exists health, hosts_on d' = spec_op (OpPatch (host_id h) (learned_patch h health)) (hosts_on d)).
Definition pw_disk (s : PingWorld) : Disk := sv_disk (pw_services s).
Lemma patch_rows id p d : secure (patchHost id p d).1 = secure d /\ forall k, k <> HOSTS_KEY -> map_get k (kv (patchHost id p d).1) = map_get k (kv d).
Proof.
  unfold patchHost, listHosts, save, KeyValueStore.get, KeyValueStore.set, bind, ret. io_step; [done|]. cbn iota beta. destruct (findIndex _ _) as [i|]; [|done].
  io_step; [done|]. split; [done|]. intros k Hk. cbn. by rewrite map_get_set_ne.
Qed.
Lemma lastSeen_rows id ms d : secure (setLastSeen id ms d).1 = secure d /\ hosts_on (setLastSeen id ms d).1 = hosts_on d /\
  forall k, k <> lastSeenKey id -> map_get k (kv (setLastSeen id ms d).1) = map_get k (kv d).
Proof.
  unfold setLastSeen, listHosts, KeyValueStore.get, KeyValueStore.set, bind, ret. io_step; [done|]. cbn iota beta. destruct (List.existsb _ _); [|done].
  io_step; [done|]. split; [done|]. split; [apply (hosts_on_other (lastSeenKey id) _ (with_faults fs0 (with_faults fs d))), lastSeen_not_hosts | intros k Hk; cbn; by rewrite map_get_set_ne].
Qed.
Lemma same_data_learned h d d' : same_data d' d -> learned_only h d d'.
Proof. intros (E1 & E2 & _). unfold learned_only, hosts_on. rewrite E1, E2. by split_and!; [| |left]. Qed.
Lemma learned_trans_seen h d d1 ms : learned_only h d d1 -> learned_only h d (setLastSeen (host_id h) ms d1).1.
Proof.
  intros (H1 & H2 & H3). destruct (lastSeen_rows (host_id h) ms d1) as (L1 & L2 & L3). split; [congruence|]. split; [intros k K1 K2; by rewrite L3, H2|]. by rewrite L2.
Qed.
(** The store rejects with its own error only. *)
Lemma store_errors id p ms d : (forall e, (patchHost id p d).2 = Err e -> e = storage_error) /\ (forall e, (setLastSeen id ms d).2 = Err e -> e = storage_error).
Proof.
  split; intros e.
  - unfold patchHost, listHosts, save, KeyValueStore.get, KeyValueStore.set, bind, ret. io_step; [by intros [= <-]|]. cbn iota beta. destruct (findIndex _ _) as [i|]; [|done].
    io_step; [by intros [= <-] | done].
  - unfold setLastSeen, listHosts, KeyValueStore.get, KeyValueStore.set, bind, ret. io_step; [by intros [= <-]|]. cbn iota beta. destruct (List.existsb _ _); [|done].
    io_step; [by intros [= <-] | done].
Qed.
Lemma patch_implements id p d : NoDup (ids (hosts_on d)) -> hosts_on (patchHost id p d).1 = hosts_on d \/ hosts_on (patchHost id p d).1 = spec_op (OpPatch id p) (hosts_on d).
Proof.
  intros Hn. pose proof (run_op_implements (OpPatch id p) d Hn) as H. unfold implements, run_op, bind in H. destruct (patchHost id p d) as [d' [b|e]]; cbn [fst snd ret] in *; naive_solver.
Qed.
Lemma learn_spec h health s : NoDup (ids (hosts_on (pw_disk s))) ->
  let (s', r) := learn h health s in learned_only h (pw_disk s) (pw_disk s') /\ pw_status s' = pw_status s /\ (forall e, r = Err e -> e = storage_error).
Proof.
  intros Hn. unfold learn. destruct (learns (learned_patch h health)); [|split; [by apply same_data_learned | done]].
  unfold bind, on_pw, on_sdisk, modify. destruct (patch_rows (host_id h) (learned_patch h health) (sv_disk (pw_services s))) as [P1 P2].
  pose proof (patch_implements (host_id h) (learned_patch h health) (sv_disk (pw_services s)) Hn) as P3.
  destruct (store_errors (host_id h) (learned_patch h health) 0 (sv_disk (pw_services s))) as [P4 _].
  destruct (patchHost (host_id h) (learned_patch h health) (sv_disk (pw_services s))) as [d' r]. cbn [fst snd] in *.
  assert (learned_only h (pw_disk s) d') as Hl by (split; [done|]; split; [auto|]; destruct P3; [by left | right; eauto]).
  destruct r as [b|e]; (split; [exact Hl|]; split; [done|]); intros e' [=]. subst. by apply P4.
Qed.
Lemma drives_spec forceDrives c now s : let (s', r) := refresh_drives forceDrives c now s in
  r = Ok tt /\ pw_disk s' = pw_disk s /\ hs_checking (pw_status s') = hs_checking (pw_status s) /\ hs_health (pw_status s') = hs_health (pw_status s) /\ hs_untrusted (pw_status s') = hs_untrusted (pw_status s).
Proof.
  unfold refresh_drives, on_snet. destruct (_ || _); [|done]. unfold pw_disk. by destruct (get_drives transport c (sv_net (pw_services s))).
Qed.
Lemma ping_ok_spec h forceDrives now s : NoDup (ids (hosts_on (pw_disk s))) ->
  let (s', r) := ping_ok h forceDrives now s in
  learned_only h (pw_disk s) (pw_disk s') /\ (r = Err CertPinMismatch -> same_data (pw_disk s') (pw_disk s)) /\
  (r = Ok tt -> hs_checking (pw_status s') = false /\ hs_untrusted (pw_status s') = false /\ is_Some (hs_health (pw_status s'))).
Proof.
  intros Hn. unfold ping_ok. unfold bind at 1, on_pw at 1. pose proof (clientForHost_spec h true (Some PING_TIMEOUT_MS) (pw_services s)) as Hc.
  destruct (clientForHost h true (Some PING_TIMEOUT_MS) (pw_services s)) as [v1 [client|e]]; destruct Hc as (D1 & _); cbn iota beta; [|by split; [apply same_data_learned|]].
  unfold bind at 1, on_pw at 1, on_snet at 1. cbn [pw_services]. destruct (AgentClient.health transport client (sv_net v1)) as [w1 [health|e]]; cbn iota beta; [|by split; [apply same_data_learned|]].
  set (s1 := {| pw_services := _ |}). assert (same_data (pw_disk s1) (pw_disk s)) as D2 by exact D1. clearbody s1.
  assert (hosts_on (pw_disk s1) = hosts_on (pw_disk s)) as Hh by (unfold hosts_on; destruct D2 as (-> & _); done).
  unfold bind at 1. pose proof (learn_spec h health s1 ltac:(by rewrite Hh)) as Hl.
  destruct (learn h health s1) as [s2 [[]|e]]; destruct Hl as (L1 & L2 & L3).
  2: { assert (learned_only h (pw_disk s) (pw_disk s2)) as Hx by (destruct L1 as (A & B & C), D2 as (E1 & E2 & _); unfold learned_only; rewrite <- E1, <- E2, <- Hh; by split_and!).
       split; [exact Hx|]. rewrite (L3 e eq_refl). done. }
  assert (learned_only h (pw_disk s) (pw_disk s2)) as Hx by (destruct L1 as (A & B & C), D2 as (E1 & E2 & _); unfold learned_only; rewrite <- E1, <- E2, <- Hh; by split_and!).
  unfold bind at 1, on_pw, on_sdisk. pose proof (learned_trans_seen h (pw_disk s) (pw_disk s2) now Hx) as Hx2. destruct (store_errors (host_id h) (learned_patch h health) now (pw_disk s2)) as [_ S2].
  unfold pw_disk in *. destruct (setLastSeen (host_id h) now (sv_disk (pw_services s2))) as [d3 [[]|e]]; cbn [fst snd] in *; cbn iota beta; [|split; [exact Hx2|]; rewrite (S2 e eq_refl); done].
  unfold bind, get_state, set_status, modify. cbn iota beta. match goal with |- context [refresh_drives forceDrives client now ?x] => pose proof (drives_spec forceDrives client now x) as Hd; destruct (refresh_drives forceDrives client now x) as [s4 r4] end.
  unfold pw_disk in Hd. destruct Hd as (-> & Hd & C1 & C2 & C3). rewrite Hd, C1, C2, C3. cbn. split; [exact Hx2|]. split; [done|]. intros _. split; [done|]. split; [done|]. by eexists.
Qed.

(** Pinging a computer, whatever it answers and whatever storage call fails: the ping always
    settles and leaves "checking"; on the device it changes nothing but this computer's last-seen
    time and, in its record, the Tailscale and hardware addresses the computer reported (a label
    edited or a computer forgotten meanwhile is neither reverted nor brought back); and after a
    changed certificate the computer is shown as untrusted and offline and nothing is stored. *)
Theorem ping_learns_only (h : Host) (forceDrives : bool) (now : Z) (s : PingWorld) : NoDup (ids (hosts_on (pw_disk s))) ->
  let (s', r) := ping h forceDrives now s in
  r = Ok tt /\ hs_checking (pw_status s') = false /\ learned_only h (pw_disk s) (pw_disk s') /\
  (hs_untrusted (pw_status s') = true -> hs_health (pw_status s') = None /\ same_data (pw_disk s') (pw_disk s)).
Proof.
  intros Hn. unfold ping. unfold bind, set_status at 1, modify at 1. cbn iota beta. set (s1 := {| pw_services := _ |}). pose proof (ping_ok_spec h forceDrives now s1 Hn) as H.
  unfold catch. destruct (ping_ok h forceDrives now s1) as [s2 [[]|e]]; destruct H as (H1 & H2 & H3).
  - destruct (H3 eq_refl) as (C1 & C2 & _). split; [done|]. split; [done|]. split; [exact H1|]. by rewrite C2.
  - unfold set_status, modify. cbn. split; [done|]. split; [done|]. split; [exact H1|]. intros E. breflect. split; [done|]. by apply H2; subst.
Qed.
End Ping.
Definition sample_ping_world : PingWorld := {|
  pw_services := {| sv_disk := {| kv := [(HOSTS_KEY, json_stringify (JsonCodec := plain_codec) (JArr [hostToJson sample_client_host]))]; secure := [(SecureKeys.fingerprint (js "h"), replicate 64 97)]; cleaned := []; faults := [] |};
                    sv_net := {| addrIndex := 0; lastGoodRoute := []; sent := [] |} |};
  pw_status := {| hs_checking := true; hs_health := None; hs_untrusted := false; hs_activeAddress := None; hs_lastSeen := None; hs_drives := None |};
  pw_lastDrives := 0; pw_learned := 0 |}.
(** A computer whose certificate changed. *)
Lemma ping_learns_only_witness :
  let t : Transport := fun _ _ => Err (NativeError ERR_CERT_PIN_MISMATCH []) in
  let (s', _) := ping (U := ascii_unicode) (J := plain_codec) t sample_client_host true 5 sample_ping_world in
  hs_untrusted (pw_status s') = true /\ hs_health (pw_status s') = None /\ same_data (pw_disk s') (pw_disk sample_ping_world).
Proof.
  intros t. pose proof (ping_learns_only (U := ascii_unicode) (J := plain_codec) t sample_client_host true 5 sample_ping_world) as H.
  assert (NoDup (ids (hosts_on (C := plain_codec) (pw_disk sample_ping_world)))) as Hn by (apply (bool_decide_unpack _); vm_compute; exact I). specialize (H Hn).
  destruct (ping t sample_client_host true 5 sample_ping_world) as [s' r] eqn:E. destruct H as (_ & _ & _ & H).
  assert (hs_untrusted (pw_status s') = true) as Hu by (vm_compute in E; injection E as <- <-; reflexivity). split; [exact Hu | exact (H Hu)].
Defined.
