(* ===== verification/Update.v ===== *)
(** * App updates

    [features/update/updateLogic.ts] (the signed release manifest), [updateService.ts]
    (check, download, verify, install, dismissals) and the update step of
    [UpdateSection.tsx].  The network, the signature check, the URL parser, the native
    downloader and the installer are parameters; nothing is assumed about what they answer. *)

From Stdlib Require Import ZArith Lia Bool.
From Stdlib Require List.
From S2P Require Import Prelude JsCollections JsString Json Errors Host Utf8 AgentClient Storage Identity Pairing HostScreens.
Local Open Scope js_scope.

Record AppRelease := { versionName : jstr; versionCode : Z; release_size : Z; release_url : jstr; release_sha256 : jstr }.
Definition GITHUB_REPO : jstr := js "ZaidQamhieh/remote-file-explorer".
Definition LATEST_MANIFEST_URL : jstr := js "https://github.com/" ++ GITHUB_REPO ++ js "/releases/latest/download/latest.json".
Definition LATEST_SIGNATURE_URL : jstr := LATEST_MANIFEST_URL ++ js ".sig".
Definition RELEASE_PUBLIC_KEY : jstr := js "0c7b69ac0e0b08ca6c6cf0c12c528870e99506aeeecf59fce1076014a481bac2".
Definition APK_HOSTS : list jstr := [js "github.com"; js "githubusercontent.com"].
Definition DISMISSED_KEY : jstr := js "rfe_update_dismissed_code_v1".

(** What the app hands to code outside it. *)
Record UpdateHost := {
  uh_fetch : jstr -> option (Z * jstr);                     (** status and body; [None] rejects *)
  uh_verify : list Z -> list Z -> list Z -> option bool;    (** [ed25519.verify]; [None] throws *)
  uh_url : jstr -> option (jstr * jstr);                    (** [new URL]: protocol and hostname *)
  uh_appBuild : Z;
  (** [publicDownload]: the file afterwards, and how the call ended, from the file before *)
  uh_download : jstr -> Z -> option (list Z) -> option (list Z) * result jserror unit;
  uh_canInstall : bool;
  uh_install : list Z -> bool }.
Record UpdateState := {
  us_disk : Disk;
  us_apks : list (Z * list Z);       (** [updates/update-<code>.apk] by version code *)
  us_installed : list (list Z);      (** what the system installer was given *)
  us_settings : nat                  (** times the install-permission page was opened *)
}.
Notation Up := (M UpdateState jserror).

Section Update.
Context `{U : Unicode} `{J : JsonCodec} `{H : Hash} (uh : UpdateHost).

(** *** [updateLogic.ts] *)

Fixpoint hex_pairs (s : jstr) : option (list Z) :=
  match s with
  | [] => Some []
  | a :: b :: r => if is_hex a && is_hex b then cons (16 * hex_value a + hex_value b) <$> hex_pairs r else None
  | _ => None
  end.
Definition hexBytes (s : jstr) : option (list Z) := if nonempty s then hex_pairs s else None.
Definition manifestSignatureOk (manifestText signatureHex publicKeyHex : jstr) : bool :=
  match hexBytes (trim signatureHex), hexBytes publicKeyHex with
  | Some sig, Some key =>
      if negb (length sig =? 64)%nat || negb (length key =? 32)%nat then false
      else default false (uh_verify uh sig (encode_text manifestText) key)
  | _, _ => false
  end.
Definition isTrustedApkUrl (url : jstr) : bool :=
  match uh_url uh url with
  | Some (protocol, hostname) =>
      bool_decide (protocol = js "https:") && List.existsb (fun h => bool_decide (hostname = h) || ends_with (dot :: h) hostname) APK_HOSTS
  | None => false
  end.
Definition is_sha256 (s : jstr) : bool := (length s =? 64)%nat && List.forallb is_hex s.
Definition parseRelease (raw : json) : option AppRelease :=
  match as_num (field (js "versionCode") (obj raw)) with
  | None => None
  | Some code =>
      if code <=? 0 then None
      else match as_str (field (js "url") (obj raw)) with
           | None => None
           | Some url =>
               if negb (isTrustedApkUrl url) then None
               else match as_str (field (js "sha256") (obj raw)) with
                    | None => None
                    | Some sha =>
                        if negb (is_sha256 sha) then None
                        else Some {| versionName := str_or [] (field (js "versionName") (obj raw)); versionCode := code;
                                     release_size := match as_num (field (js "size") (obj raw)) with Some n => if 0 <? n then n else 0 | None => 0 end;
                                     release_url := url; release_sha256 := toLowerCase sha |}
                    end
           end
  end.
Definition isUpdateAvailable (installedBuild : Z) (r : option AppRelease) : bool :=
  match r with Some r => installedBuild <? versionCode r | None => false end.
Definition shouldSurfaceUpdate (r : option AppRelease) (dismissed : Z) : bool :=
  match r with Some r => dismissed <? versionCode r | None => false end.
Definition percent (received total : Z) : Z := if 0 <? total then Z.min 100 (received * 100 / total) else 0.

(** *** [updateService.ts] *)

Definition http_ok (status : Z) : bool := (200 <=? status) && (status <? 300).
Definition fetch_error : jserror := PlainError (js "Network request failed").
Definition unsigned_error : jserror := PlainError (js "The update manifest is not signed by the project").
Definition verification_error : jserror := PlainError (js "The downloaded update failed verification.").
Definition syntax_error : jserror := PlainError (js "JSON Parse error").
Definition checkForUpdate : Up (option AppRelease) :=
  match uh_fetch uh LATEST_MANIFEST_URL with
  | None => throw fetch_error
  | Some (status, body) =>
      if negb (http_ok status) then throw (PlainError (js "HTTP " ++ string_of_Z status))
      else if negb (nonempty (trim body)) then ret None
      else match uh_fetch uh LATEST_SIGNATURE_URL with
           | None => throw fetch_error
           | Some (sstatus, sig) =>
               if negb (http_ok sstatus) || negb (manifestSignatureOk body sig RELEASE_PUBLIC_KEY) then throw unsigned_error
               else match json_parse (trim body) with
                    | None => throw syntax_error
                    | Some j => let release := parseRelease j in ret (if isUpdateAvailable (uh_appBuild uh) release then release else None)
                    end
           end
  end.

Definition on_udisk {A} (m : IO A) : Up A := fun s =>
  let (d, r) := m (us_disk s) in ({| us_disk := d; us_apks := us_apks s; us_installed := us_installed s; us_settings := us_settings s |}, r).
Definition dismissedCode : IO Z :=
  raw <- KeyValueStore.get DISMISSED_KEY;;
  ret match raw with None => 0 | Some t => default 0 (number_of_string t) end.
Definition dismissUpdate (code : Z) : IO unit :=
  seen <- dismissedCode;;
  if seen <? code then KeyValueStore.set DISMISSED_KEY (string_of_Z code) else ret tt.

(** The size and hash of a file on disk are the release's. *)
Definition verified (r : AppRelease) (file : option (list Z)) : bool :=
  match file with
  | None => false
  | Some bytes =>
      if (0 <? release_size r) && negb (Z.of_nat (length bytes) =? release_size r) then false
      else bool_decide (toLowerCase (hex (sha256 bytes)) = release_sha256 r)
  end.
Definition apk_of (r : AppRelease) (s : UpdateState) : option (list Z) := map_get (versionCode r) (us_apks s).
Definition set_apk (r : AppRelease) (file : option (list Z)) (s : UpdateState) : UpdateState := {|
  us_disk := us_disk s; us_installed := us_installed s; us_settings := us_settings s;
  us_apks := match file with Some b => map_set (versionCode r) b (us_apks s) | None => map_delete (versionCode r) (us_apks s) end |}.
Definition isApkReady (r : AppRelease) (s : UpdateState) : bool := (0 <? release_size r) && verified r (apk_of r s).
Definition run_download (r : AppRelease) (offset : Z) : Up unit := fun s =>
  let (file, out) := uh_download uh (release_url r) offset (apk_of r s) in (set_apk r file s, out).
(** The job of one download; a second call for the same build joins it. *)
Definition downloadUpdate (r : AppRelease) : Up unit := fun s =>
  if verified r (apk_of r s) then (s, Ok tt)
  else
    let offset := match apk_of r s with Some b => Z.of_nat (length b) | None => 0 end in
    let too_long := (0 <? release_size r) && (release_size r <? offset) in
    let s1 := if too_long then set_apk r None s else s in
    (catch (run_download r (if too_long then 0 else offset))
           (fun e => if bool_decide (errCode e = Some (js "ERR_RANGE")) then run_download r 0 else throw e);;
     fun s2 => if verified r (apk_of r s2) then (s2, Ok tt) else (set_apk r None s2, Err verification_error)) s1.

Inductive InstallOutcome := install_started | needsPermission | install_failed.
(** The installer is given the file; a missing one cannot be opened. *)
Definition installUpdate (r : AppRelease) : Up InstallOutcome := fun s =>
  if negb (uh_canInstall uh) then
    ({| us_disk := us_disk s; us_apks := us_apks s; us_installed := us_installed s; us_settings := S (us_settings s) |}, Ok needsPermission)
  else match apk_of r s with
       | None => (s, Ok install_failed)
       | Some bytes =>
           ({| us_disk := us_disk s; us_apks := us_apks s; us_installed := us_installed s ++ [bytes]; us_settings := us_settings s |},
            Ok (if uh_install uh bytes then install_started else install_failed))
       end.
(** The Update row: check, and for a newer release download and install ([UpdateSection.tsx]). *)
Definition update (r : AppRelease) : Up InstallOutcome := downloadUpdate r;; installUpdate r.
Definition check_and_update : Up (option InstallOutcome) :=
  found <- checkForUpdate;;
  match found with Some r => o <- update r;; ret (Some o) | None => ret None end.

(** ** What reaches the installer *)

Lemma parseRelease_fields j r : parseRelease j = Some r -> exists sha,
  field (js "versionCode") (obj j) = Some (JNum (versionCode r)) /\ field (js "url") (obj j) = Some (JStr (release_url r)) /\ isTrustedApkUrl (release_url r) = true /\
  field (js "sha256") (obj j) = Some (JStr sha) /\ length sha = 64%nat /\ release_sha256 r = toLowerCase sha /\
  (forall n, field (js "size") (obj j) = Some (JNum n) -> 0 < n -> release_size r = n).
Proof.
  unfold parseRelease, as_num, as_str. destruct (field (js "versionCode") (obj j)) as [[| |code| | |]|]; try done. destruct (Z.leb_spec code 0); [done|].
  destruct (field (js "url") (obj j)) as [[| | |url| |]|]; try done. destruct (isTrustedApkUrl url) eqn:Eu; [|done]. cbn [negb].
  destruct (field (js "sha256") (obj j)) as [[| | |sha| |]|]; try done. destruct (is_sha256 sha) eqn:Es; [|done]. cbn [negb]. intros [= <-]. cbn.
  exists sha. unfold is_sha256 in Es. breflect. split_and!; try done. intros n -> Hn. by rewrite (proj2 (Z.ltb_lt _ _) Hn).
Qed.
(** The release was announced in a manifest that carries the project's signature. *)
Definition announced (r : AppRelease) : Prop :=
  exists st body sst sig j, uh_fetch uh LATEST_MANIFEST_URL = Some (st, body) /\ http_ok st = true /\
    uh_fetch uh LATEST_SIGNATURE_URL = Some (sst, sig) /\ http_ok sst = true /\
    manifestSignatureOk body sig RELEASE_PUBLIC_KEY = true /\ json_parse (trim body) = Some j /\ parseRelease j = Some r /\ uh_appBuild uh < versionCode r.
Lemma check_announced s : let (s', out) := checkForUpdate s in s' = s /\ forall r, out = Ok (Some r) -> announced r.
Proof.
  unfold checkForUpdate. destruct (uh_fetch uh LATEST_MANIFEST_URL) as [[st body]|] eqn:E1; [|done]. destruct (http_ok st) eqn:H1; [|done]. cbn [negb].
  destruct (nonempty (trim body)); [|done]. cbn [negb]. destruct (uh_fetch uh LATEST_SIGNATURE_URL) as [[sst sig]|] eqn:E2; [|done]. destruct (http_ok sst) eqn:H2; [|done].
  destruct (manifestSignatureOk body sig RELEASE_PUBLIC_KEY) eqn:Es; [|done]. cbn [negb orb]. destruct (json_parse (trim body)) as [j|] eqn:Ej; [|done].
  split; [done|]. intros r. destruct (parseRelease j) as [r'|] eqn:Er; cbn [isUpdateAvailable]; [|done]. destruct (Z.ltb_spec (uh_appBuild uh) (versionCode r')); [|done].
  intros [= <-]. exists st, body, sst, sig, j. done.
Qed.
Lemma apk_set r file s : apk_of r (set_apk r file s) = file.
Proof. unfold apk_of, set_apk. cbn [us_apks]. destruct file; [apply map_get_set_eq|]. by rewrite map_get_delete, decide_True. Qed.
(** Everything but the APK folder is left alone. *)
Definition apks_only (s s' : UpdateState) : Prop := us_installed s' = us_installed s /\ us_disk s' = us_disk s.
(** A download that ends well left a verified file; one whose file fails the check left none. *)
Lemma download_spec r s : let (s', out) := downloadUpdate r s in apks_only s s' /\ (out = Ok tt -> verified r (apk_of r s') = true).
Proof.
  unfold downloadUpdate. destruct (verified r (apk_of r s)) eqn:Ev; [done|].
  set (too := (0 <? release_size r) && _). set (s1 := if too then set_apk r None s else s). set (o := if too then 0 else _).
  assert (apks_only s s1) as H1 by (unfold s1; by destruct too). clearbody s1 o. unfold bind, catch, run_download.
  destruct (uh_download uh (release_url r) o (apk_of r s1)) as [f1 [[]|e]]; cbn iota beta.
  - rewrite apk_set. destruct (verified r f1) eqn:Ev1; (split; [exact H1|]); rewrite ?apk_set; done.
  - destruct (bool_decide (errCode e = Some (js "ERR_RANGE"))); [|by split].
    destruct (uh_download uh (release_url r) 0 (apk_of r (set_apk r f1 s1))) as [f2 [[]|e2]]; cbn iota beta; [|by split].
    rewrite apk_set. destruct (verified r f2) eqn:Ev2; (split; [exact H1|]); rewrite ?apk_set; done.
Qed.
Lemma verified_bytes r file : verified r file = true -> exists bytes, file = Some bytes /\ toLowerCase (hex (sha256 bytes)) = release_sha256 r /\ (0 < release_size r -> Z.of_nat (length bytes) = release_size r).
Proof.
  unfold verified. destruct file as [b|]; [|done]. destruct (Z.ltb_spec 0 (release_size r)); cbn [andb]; [destruct (Z.eqb_spec (Z.of_nat (length b)) (release_size r)); cbn [negb]|]; try done;
    intros E; breflect; exists b; (split; [done|]; split; [done|]); intros; done || lia.
Qed.
End Update.

(** *** What a genuine announcement is, byte for byte *)

Definition manifest_address : jstr := js "https://github.com/ZaidQamhieh/remote-file-explorer/releases/latest/download/latest.json".
(** The project's Ed25519 key. *)
Definition project_key : list Z :=
  [12; 123; 105; 172; 14; 11; 8; 202; 108; 108; 240; 193; 44; 82; 136; 112; 233; 149; 6; 174; 238; 207; 89; 252; 225; 7; 96; 20; 164; 129; 186; 194].
(** The two lower-case hexadecimal digits of each byte. *)
Definition hex_char (d : Z) : Z := if d <? 10 then 48 + d else 87 + d.
Definition hex_digits (bytes : list Z) : jstr := concat ((fun b => [hex_char (b / 16); hex_char (b mod 16)]) <$> bytes).
Lemma hex_pairs_digits s bytes : hex_pairs s = Some bytes -> ascii_lower <$> s = hex_digits bytes.
Proof.
  assert (forall c, is_hex c = true -> 0 <= hex_value c < 16 /\ ascii_lower c = hex_char (hex_value c)) as Hc.
  { intros c. unfold is_hex, is_hex_lower, hex_value, hex_char, ascii_lower, is_digit, is_lower, is_upper. intros H.
    repeat match goal with |- context [if ?x then _ else _] => destruct x eqn:? end; breflect; lia. }
  remember (length s) as n eqn:En. assert (length s <= n)%nat as Hn by lia. clear En. revert s bytes Hn.
  induction n as [|n IH]; intros [|a [|b s]] bytes Hn; cbn [hex_pairs]; try (by intros [= <-]); try done; [cbn in Hn; lia|].
  destruct (is_hex a) eqn:Ea; [|done]. destruct (is_hex b) eqn:Eb; [|done]. cbn [andb]. destruct (hex_pairs s) as [l|] eqn:El; [|done]. intros [= <-].
  rewrite !fmap_cons, (IH s l ltac:(cbn in Hn; lia) El). unfold hex_digits. cbn [fmap list_fmap concat app].
  destruct (Hc a Ea) as [Ra ->], (Hc b Eb) as [Rb ->].
  assert ((16 * hex_value a + hex_value b) / 16 = hex_value a) as -> by (symmetry; apply (Z.div_unique _ _ _ (hex_value b)); lia).
  assert ((16 * hex_value a + hex_value b) mod 16 = hex_value b) as -> by (symmetry; apply (Z.mod_unique _ _ (hex_value a)); lia). done.
Qed.
Section Genuine.
Context `{U : Unicode} `{J : JsonCodec} `{H : Hash} (uh : UpdateHost).
(** The text served as the manifest carries the project's signature, served beside it. *)
Definition signed_manifest (body : jstr) : Prop :=
  exists st sst sigText sig, uh_fetch uh manifest_address = Some (st, body) /\ 200 <= st < 300 /\
    uh_fetch uh (manifest_address ++ js ".sig") = Some (sst, sigText) /\ 200 <= sst < 300 /\
    length sig = 64%nat /\ ascii_lower <$> trim sigText = hex_digits sig /\ uh_verify uh sig (encode_text body) project_key = Some true.
Definition github_https (url : jstr) : Prop :=
  exists hostname, uh_url uh url = Some (js "https:", hostname) /\
    (hostname = js "github.com" \/ hostname = js "githubusercontent.com" \/
     exists sub, hostname = sub ++ js ".github.com" \/ hostname = sub ++ js ".githubusercontent.com").
Lemma signature_spec body sig : manifestSignatureOk uh body sig RELEASE_PUBLIC_KEY = true ->
  exists bytes, length bytes = 64%nat /\ ascii_lower <$> trim sig = hex_digits bytes /\ uh_verify uh bytes (encode_text body) project_key = Some true.
Proof.
  unfold manifestSignatureOk. replace (hexBytes RELEASE_PUBLIC_KEY) with (Some project_key) by (vm_compute; reflexivity).
  destruct (hexBytes (trim sig)) as [bytes|] eqn:E; [|done]. change (length project_key =? 32)%nat with true. rewrite orb_false_r.
  destruct (length bytes =? 64)%nat eqn:El; [|done]. cbn [negb]. apply Nat.eqb_eq in El.
  destruct (uh_verify uh bytes (encode_text body) project_key) as [[]|] eqn:Ev; [|done..]. intros _. exists bytes. split; [done|]. split; [|done].
  unfold hexBytes in E. destruct (nonempty (trim sig)); [|done]. by apply hex_pairs_digits.
Qed.
Lemma trusted_spec url : isTrustedApkUrl uh url = true -> github_https url.
Proof.
  unfold isTrustedApkUrl, github_https. destruct (uh_url uh url) as [[protocol hostname]|]; [|done]. intros Hb. breflect. subst protocol.
  exists hostname. split; [done|]. apply List.existsb_exists in H1 as (h & Hin & Hh). cbn in Hin. apply orb_true_iff in Hh.
  destruct Hh as [Hh|Hh]; [apply bool_decide_eq_true in Hh; naive_solver|]. apply ends_with_spec in Hh as [t ->].
  destruct Hin as [<-|[<-|[]]]; right; right; exists t; [by left | by right].
Qed.
End Genuine.

(** C26 Whatever the network answers and the downloader writes, checking for an update and installing it
    hands the system installer at most one file, and only when the text served at the project's manifest
    address carries, in the signature served beside it, the project's Ed25519 signature of its exact
    bytes, and announces a build newer than the installed one at an https address of github.com or
    githubusercontent.com (or a subdomain).  The file handed over then is the announced one: its SHA-256
    is the manifest's, and so is its length when the manifest states one.  No preference is touched. *)
Theorem update_installs_announced `{U : Unicode} `{J : JsonCodec} `{H : Hash} (uh : UpdateHost) (s : UpdateState) :
  let (s', _) := check_and_update uh s in
  us_disk s' = us_disk s /\
  (us_installed s' = us_installed s \/
   exists bytes body j code url sha, us_installed s' = us_installed s ++ [bytes] /\ uh_canInstall uh = true /\
     signed_manifest uh body /\ json_parse (trim body) = Some j /\
     field (js "versionCode") (obj j) = Some (JNum code) /\ uh_appBuild uh < code /\
     field (js "url") (obj j) = Some (JStr url) /\ github_https uh url /\
     field (js "sha256") (obj j) = Some (JStr sha) /\ length sha = 64%nat /\ toLowerCase (hex (sha256 bytes)) = toLowerCase sha /\
     (forall n, field (js "size") (obj j) = Some (JNum n) -> 0 < n -> Z.of_nat (length bytes) = n)).
Proof.
  unfold check_and_update. unfold bind at 1. pose proof (check_announced uh s) as Hc. destruct (checkForUpdate uh s) as [s1 [[r|]|e]]; destruct Hc as [-> Hc]; [|by split; [|left]..].
  specialize (Hc r eq_refl). unfold update, bind. pose proof (download_spec uh r s) as Hd. destruct (downloadUpdate uh r s) as [s2 [[]|e]]; destruct Hd as ([D1 D2] & D3); [|split; [done | by left]].
  specialize (D3 eq_refl). unfold installUpdate. destruct (uh_canInstall uh) eqn:Ei; cbn [negb]; [|split; [done | by left]].
  destruct (verified_bytes _ _ D3) as (bytes & Eb & Hh & Hl). rewrite Eb. cbn. split; [done|]. right.
  destruct Hc as (st & body & sst & sig & j & F1 & O1 & F2 & O2 & Hsig & Hj & Hr & Hnew).
  destruct (signature_spec uh body sig Hsig) as (sb & S1 & S2 & S3). destruct (parseRelease_fields uh j r Hr) as (sha & P1 & P2 & P3 & P4 & P5 & P6 & P7).
  exists bytes, body, j, (versionCode r), (release_url r), sha. unfold http_ok in O1, O2. split_and!; try done; [congruence| |by apply trusted_spec|by rewrite Hh, P6|].
  - exists st, sst, sig, sb. split_and!; try done; lia.
  - intros n Hn Hpos. rewrite <- (P7 n Hn Hpos). apply Hl. rewrite (P7 n Hn Hpos). lia.
Qed.

(** A release that is there to be installed. *)
Definition zero_hash : Hash := {| sha256 _ := replicate 32 0; hmac_sha256 _ _ := [] |}.
Definition sample_manifest : jstr := json_stringify (JsonCodec := plain_codec) (JObj [
  (js "versionCode", JNum 7); (js "url", JStr (js "https://github.com/a.apk")); (js "sha256", JStr (replicate 64 48)); (js "size", JNum 3)]).
Definition sample_update_host : UpdateHost := {|
  uh_fetch url := Some (200, if bool_decide (url = manifest_address) then sample_manifest else replicate 128 48);
  uh_verify sig msg key := Some (bool_decide (key = project_key /\ sig = replicate 64 0));
  uh_url _ := Some (js "https:", js "github.com");
  uh_appBuild := 6; uh_download _ _ _ := (Some [1; 2; 3], Ok tt); uh_canInstall := true; uh_install _ := true |}.
Definition fresh_update : UpdateState := {| us_disk := {| kv := []; secure := []; cleaned := []; faults := [] |}; us_apks := []; us_installed := []; us_settings := 0 |}.
Lemma update_installs_announced_witness :
  let s' := (check_and_update (U := ascii_unicode) (J := plain_codec) (H := zero_hash) sample_update_host fresh_update).1 in
  us_installed s' = [[1; 2; 3]] /\ signed_manifest sample_update_host sample_manifest.
Proof.
  intros s'. assert (us_installed s' = [[1; 2; 3]]) as Hi by (vm_compute; reflexivity). split; [exact Hi|].
  pose proof (update_installs_announced (U := ascii_unicode) (J := plain_codec) (H := zero_hash) sample_update_host fresh_update) as T.
  unfold s' in Hi. destruct (check_and_update sample_update_host fresh_update) as [s1 r]. cbn [fst] in Hi. destruct T as [_ [T|(bytes & body & j & code & url & sha & _ & _ & T & _)]].
  - rewrite T in Hi. discriminate Hi.
  - destruct T as (st & sst & sigText & sig & Hm & T). pose proof Hm as Hm'. unfold sample_update_host in Hm'. cbn [uh_fetch] in Hm'.
    rewrite bool_decide_eq_true_2 in Hm' by reflexivity. injection Hm' as <- <-. exists 200, sst, sigText, sig. split; [exact Hm | exact T].
Defined.

(** ** Dismissals *)

Lemma number_of_digits n : 0 <= n -> number_of_string (string_of_Z n) = Some n.
Proof.
  intros Hn. pose proof (string_of_Z_digits n Hn) as Hd. pose proof (string_of_Z_nonempty n) as Hne. unfold number_of_string.
  assert (forall c, is_digit c = true -> is_space c = false /\ 48 <= c <= 57) as Hds.
  { intros c Hc. split; [apply is_hex_lower_facts; unfold is_hex_lower; by rewrite Hc|]. unfold is_digit in Hc. breflect. lia. }
  rewrite trim_no_space by (eapply Forall_impl; [exact Hd|]; intros c Hc; by apply Hds).
  assert (all_digits (string_of_Z n) = true /\ nat_of_digits (string_of_Z n) = n) as [Ha Hv].
  { split; [|unfold string_of_Z; rewrite (proj2 (Z.ltb_ge _ _)) by done; by apply nat_of_digits_string].
    unfold all_digits. destruct (string_of_Z n) as [|c r] eqn:E; [done|]. cbn [nonempty andb]. by apply forallb_forall_true. }
  destruct (string_of_Z n) as [|c r] eqn:E; [done|]. apply Forall_cons in Hd as [Hc _]. destruct (Hds c Hc) as [_ Hr].
  assert (c ∈ [48; 49; 50; 51; 52; 53; 54; 55; 56; 57]) as Hin by (rewrite !elem_of_cons; lia).
  rewrite !elem_of_cons, elem_of_nil in Hin. repeat destruct Hin as [->|Hin]; try done; cbv iota beta; by rewrite Ha, Hv.
Qed.
Definition dismissed_on (d : Disk) : Z := match map_get DISMISSED_KEY (kv d) with None => 0 | Some t => default 0 (number_of_string t) end.
(** A dismissal never lowers the stored build, and a release dismissed with success is not shown
    again while a newer one is. *)
Theorem dismissUpdate_monotone (r : AppRelease) (d : Disk) : 0 <= versionCode r ->
  let (d', out) := dismissUpdate (versionCode r) d in
  dismissed_on d <= dismissed_on d' /\ (out = Ok tt -> forall r', shouldSurfaceUpdate (Some r') (dismissed_on d') = true -> versionCode r < versionCode r').
Proof.
  intros Hv. unfold dismissUpdate, dismissedCode, KeyValueStore.get, KeyValueStore.set, bind, ret. io_step; [done|]. cbn iota beta. change (match map_get DISMISSED_KEY (kv (with_faults fs d)) with Some t => default 0 (number_of_string t) | None => 0 end) with (dismissed_on d).
  destruct (Z.ltb_spec (dismissed_on d) (versionCode r)) as [Hlt|Hge].
  - io_step; [done|]. unfold dismissed_on at 2 3. cbn [kv with_kv with_faults]. rewrite map_get_set_eq, number_of_digits by done. cbn [default]. split; [cbn; lia|]. intros _ r'. cbn. by rewrite Z.ltb_lt.
  - split; [done|]. intros _ r'. change (dismissed_on (with_faults fs d)) with (dismissed_on d). cbn. rewrite Z.ltb_lt. lia.
Qed.
