(* ===== verification/Features.v ===== *)
(** * Smaller features

    One module per feature: hand-off QR codes ([features/handoff/handoffLogic.ts]),
    visibility rules being edited ([features/settings/visibilityEdit.ts]), the switches
    of a computer's settings ([features/settings/hostSettingsLogic.ts],
    [auditPaging.ts]), the app catalogue ([features/apps/appsLogic.ts]), share links and
    files shared in ([features/share]), recent files ([features/recent]), the app lock
    ([features/security/lockLogic.ts]), links from other apps ([core/externalLink.ts]),
    and the scheduled background pass ([features/background/backgroundWork.ts]). *)

From Stdlib Require Import ZArith Lia Bool.
From Stdlib Require List.
From Stdlib Require Import Sorted.
From S2P Require Import Prelude JsCollections JsString Paths Json Errors Models Entries Host Utf8 AgentClient Settings Uploads Sync PhotoBackup.
Local Open Scope js_scope.

(** ** Hand-off *)

Module Handoff.
Section Handoff.
Context `{U : Unicode} `{J : JsonCodec}.

Record HandoffPayload := { ho_certFingerprint : jstr; ho_path : jstr; ho_name : jstr }.
(** Control characters, separators, and what Windows reserves. *)
Definition forbidden_char (c : jchar) : bool := is_control c || set_has c [92; 47; 58; 42; 63; 34; 60; 62; 124].
Definition isSafeLocalName (name : jstr) : bool :=
  nonempty name && (length name <=? 255)%nat && negb (bool_decide (name = js ".")) && negb (bool_decide (name = js "..")) && negb (List.existsb forbidden_char name).
Definition encodeHandoff (p : HandoffPayload) : jstr :=
  json_stringify (JObj [(js "certFingerprint", JStr (ho_certFingerprint p)); (js "path", JStr (ho_path p)); (js "name", JStr (ho_name p))]).
Definition parseHandoff (raw : jstr) : option HandoffPayload :=
  match json_parse raw with
  | None => None
  | Some j =>
      match as_str (field (js "certFingerprint") (obj j)), as_str (field (js "path") (obj j)), as_str (field (js "name") (obj j)) with
      | Some fp, Some path, Some name => if isSafeLocalName name then Some {| ho_certFingerprint := fp; ho_path := path; ho_name := name |} else None
      | _, _, _ => None
      end
  end.
Definition matchHandoffHost (hosts : list (Host * option jstr)) (certFingerprint : jstr) : option Host :=
  match normalizeFingerprint (Some certFingerprint) with
  | None => None
  | Some expected => fst <$> List.find (fun h => bool_decide (normalizeFingerprint h.2 = Some expected)) hosts
  end.

(** A hand-off QR read by the other phone gives the payload back exactly when its name is a safe
    local one; whatever text is scanned, an accepted name is a single plain segment; and the
    computer chosen is one whose own pin is the sender's, or none. *)
Theorem handoff_correct (p : HandoffPayload) (raw : jstr) (hosts : list (Host * option jstr)) :
  parseHandoff (encodeHandoff p) = (if isSafeLocalName (ho_name p) then Some p else None) /\
  (forall q, parseHandoff raw = Some q -> ho_name q <> [] /\ ho_name q <> js "." /\ ho_name q <> js ".." /\ slash ∉ ho_name q /\ backslash ∉ ho_name q) /\
  (forall fp h, matchHandoffHost hosts fp = Some h -> exists pin n, (h, pin) ∈ hosts /\ normalizeFingerprint pin = Some n /\ normalizeFingerprint (Some fp) = Some n) /\
  (forall fp h pin n, (h, pin) ∈ hosts -> normalizeFingerprint pin = Some n -> normalizeFingerprint (Some fp) = Some n -> is_Some (matchHandoffHost hosts fp)).
Proof.
  split; [|split; [|split]].
  - unfold parseHandoff, encodeHandoff. rewrite json_roundtrip by reflexivity. cbn. by destruct p.
  - intros q. unfold parseHandoff. destruct (json_parse raw) as [j|]; [|done]. do 2 (destruct (as_str _); [|done]). destruct (as_str _) as [nm|]; [|done]. destruct (isSafeLocalName nm) eqn:E; [|done]. intros [= <-]. cbn [ho_name].
    unfold isSafeLocalName in E. rewrite !andb_true_iff, !negb_true_iff, !bool_decide_eq_false in E. destruct E as ((((E1 & _) & E2) & E3) & E4). assert (forall c, forbidden_char c = true -> c ∉ nm) as Hc.
    { intros c Hc Hin. assert (List.existsb forbidden_char nm = true); [|congruence]. apply List.existsb_exists. exists c. split; [by apply list_elem_of_In | done]. }
    split; [by destruct nm|]. split; [done|]. split; [done|]. split; by apply Hc.
  - intros fp h. unfold matchHandoffHost. destruct (normalizeFingerprint (Some fp)) as [n|]; [|done]. destruct (List.find _ hosts) as [[h' pin]|] eqn:E; [|done]. intros [= <-].
    apply List.find_some in E as [Hin E]. breflect. exists pin, n. split; [by apply list_elem_of_In | done].
  - intros fp h pin n Hin E1 E2. unfold matchHandoffHost. rewrite E2. destruct (List.find _ hosts) as [x|] eqn:E; [by eexists|].
    eapply List.find_none in E; [|by apply list_elem_of_In]. breflect. done.
Qed.
End Handoff.
End Handoff.

(** ** Editing visibility rules *)

Module VisibilityEdit.
Section VisibilityEdit.
Context `{U : Unicode}.

Definition normalizeExtension (raw : jstr) : jstr := remove_chars is_space (toLowerCase (drop_while (Z.eqb dot) (trim raw))).
Definition setHideDotfiles (p : VisibilityPrefs) (hide : bool) : VisibilityPrefs :=
  {| hideDotfiles := hide; hiddenExtensions := hiddenExtensions p; hiddenNames := hiddenNames p |}.
Definition with_extensions (f : list jstr -> list jstr) (p : VisibilityPrefs) : VisibilityPrefs :=
  {| hideDotfiles := hideDotfiles p; hiddenExtensions := f (hiddenExtensions p); hiddenNames := hiddenNames p |}.
Definition with_names (f : list jstr -> list jstr) (p : VisibilityPrefs) : VisibilityPrefs :=
  {| hideDotfiles := hideDotfiles p; hiddenExtensions := hiddenExtensions p; hiddenNames := f (hiddenNames p) |}.
Definition addExtension (p : VisibilityPrefs) (raw : jstr) : VisibilityPrefs :=
  let ext := normalizeExtension raw in if nonempty ext then with_extensions (set_add ext) p else p.
Definition removeExtension (p : VisibilityPrefs) (ext : jstr) : VisibilityPrefs := with_extensions (set_delete (toLowerCase ext)) p.
Definition removeCased (name : jstr) (s : list jstr) : list jstr := List.filter (fun n => negb (bool_decide (toLowerCase n = toLowerCase name))) s.
Definition addName (p : VisibilityPrefs) (name : jstr) : VisibilityPrefs :=
  let trimmed := trim name in if nonempty trimmed then with_names (fun s => set_add trimmed (removeCased trimmed s)) p else p.
Definition removeName (p : VisibilityPrefs) (name : jstr) : VisibilityPrefs := with_names (removeCased name) p.
(** [sort()] by UTF-16 code units. *)
Definition customExtensions (p : VisibilityPrefs) : list jstr :=
  let preset := set_of (visibilityPresets ≫= preset_extensions) in
  sort_by (fun a b => match str_compare a b with Lt => -1 | Eq => 0 | Gt => 1 end) (List.filter (fun e => negb (set_has e preset)) (hiddenExtensions p)).
Definition withVisibilityOverride (o : option DeviceOverrides) (effective : VisibilityPrefs) (on : bool) : DeviceOverrides := {|
  o_gridView := o ≫= o_gridView; o_density := o ≫= o_density; o_sort := o ≫= o_sort;
  o_visibility := if on then Some {| hideDotfiles := hideDotfiles effective; hiddenExtensions := set_of (hiddenExtensions effective); hiddenNames := set_of (hiddenNames effective) |} else None |}.

Lemma existsb_elem (f : jstr -> bool) l : List.existsb f l = true <-> exists x, x ∈ l /\ f x = true.
Proof. rewrite List.existsb_exists. setoid_rewrite list_elem_of_In. done. Qed.
Lemma elem_removeCased name s x : x ∈ removeCased name s <-> x ∈ s /\ toLowerCase x <> toLowerCase name.
Proof. unfold removeCased. rewrite elem_filter_bool. rewrite negb_true_iff, bool_decide_eq_false. done. Qed.
Lemma hidden_by_name e p : isEntryHidden e p = isEntryHidden e (with_names (fun _ => []) p) || List.existsb (fun n => bool_decide (toLowerCase n = toLowerCase (entry_name e))) (hiddenNames p).
Proof. unfold isEntryHidden. cbn. destruct (hideDotfiles p && _); [done|]. by destruct (negb _ && _). Qed.

(** Adding an exact name hides every entry of that name however it is cased and nothing else,
    leaves one spelling of it in the rules, and removing it undoes the addition whatever casing was
    typed; adding an extension hides every file that has it. *)
Theorem visibility_edits (p : VisibilityPrefs) (name : jstr) (e : Entry) : trim name <> [] ->
  isEntryHidden e (addName p name) = isEntryHidden e p || bool_decide (toLowerCase (entry_name e) = toLowerCase (trim name)) /\
  (forall x, x ∈ hiddenNames (addName p name) -> toLowerCase x = toLowerCase (trim name) -> x = trim name) /\
  isEntryHidden e (removeName (addName p name) (toLowerCase (trim name))) = isEntryHidden e (removeName p (trim name)) /\
  (forall raw, extensionOf (entry_name e) <> [] -> normalizeExtension raw <> [] -> entry_isDir e = false -> extensionOf (entry_name e) = toLowerCase (normalizeExtension raw) ->
     isEntryHidden e (addExtension p raw) = true).
Proof.
  intros Hne. assert (addName p name = with_names (fun s => set_add (trim name) (removeCased (trim name) s)) p) as -> by (unfold addName; by destruct (trim name)).
  set (t := trim name) in *. split; [|split; [|split]].
  - rewrite hidden_by_name, (hidden_by_name e p), <- orb_assoc. f_equal. cbn [hiddenNames with_names]. apply eq_true_iff_eq. rewrite orb_true_iff, !existsb_elem, bool_decide_eq_true.
    setoid_rewrite bool_decide_eq_true. setoid_rewrite elem_set_add. setoid_rewrite elem_removeCased. split.
    + intros (x & [->|[Hx _]] & E); [by right | left; eauto].
    + intros [(x & Hx & E)|E]; [|exists t; split; [by left | done]]. destruct (decide (toLowerCase x = toLowerCase t)) as [E'|]; [exists t; split; [by left | congruence] | exists x; split; [right; done | done]].
  - intros x. cbn [hiddenNames with_names]. rewrite elem_set_add, elem_removeCased. intros [->|[_ H]] E; [done | by destruct H].
  - rewrite (hidden_by_name e (removeName _ _)), (hidden_by_name e (removeName p t)). f_equal. apply eq_true_iff_eq. rewrite !existsb_elem. cbn [hiddenNames removeName with_names].
    setoid_rewrite elem_removeCased. setoid_rewrite elem_set_add. setoid_rewrite elem_removeCased. rewrite lower_idem. split; intros (x & Hx & E); exists x; (split; [|done]); [destruct Hx as [[->|[? ?]] ?]; done | tauto].
  - intros raw Hxn Hr Hd Hx. unfold addExtension. destruct (normalizeExtension raw) as [|c r] eqn:En; [done|]. cbn [nonempty]. unfold isEntryHidden. cbn [hideDotfiles hiddenExtensions hiddenNames with_extensions].
    destruct (hideDotfiles p && _); [done|]. rewrite Hd. cbn [negb andb]. assert (List.existsb (fun x => bool_decide (toLowerCase x = extensionOf (entry_name e))) (set_add (c :: r) (hiddenExtensions p)) = true) as Hb.
    { apply existsb_elem. exists (c :: r). split; [apply elem_set_add; by left|]. rewrite Hx. by apply bool_decide_true. }
    rewrite Hb. by destruct (extensionOf (entry_name e)).
Qed.
End VisibilityEdit.
End VisibilityEdit.

(** ** A computer's settings *)

Module HostSettings.
Definition BANDWIDTH_PRESETS : list Z := (fun mb => mb * 1024 * 1024) <$> [0; 1; 5; 10; 50].
Definition bandwidthOptions (current : Z) : list Z := if set_has current BANDWIDTH_PRESETS then BANDWIDTH_PRESETS else current :: BANDWIDTH_PRESETS.
Record AppCapabilities := { cap_viewApps : bool; cap_launchApps : bool }.
Definition nextAppCapabilities (d : Device) (view launch : option bool) : AppCapabilities :=
  let viewApps := match view with Some b => b | None => default false (device_viewApps d) end in
  let currentLaunch := bool_decide (device_viewApps d = Some true) && bool_decide (device_launchApps d = Some true) in
  {| cap_viewApps := viewApps;
     cap_launchApps := if bool_decide (view = Some false) then false else if viewApps then default currentLaunch launch else false |}.
Definition nextFileGrants (d : Device) (change : FileCapability -> option bool) : FileCapability -> bool :=
  fun c => match change c with Some b => b | None => default false (device_caps d c) end.
Definition patchDevice (l : list Device) (id : jstr) (patch : Device -> Device) : list Device :=
  (fun d => if bool_decide (device_id d = id) then patch d else d) <$> l.

(** Launching is never sent as granted without viewing; turning viewing off turns launching off;
    a change of launching alone keeps viewing as it was; and granting one file right leaves the
    other five as they are. *)
Theorem grants_consistent (d : Device) (view launch : option bool) (c : FileCapability) (b : bool) :
  let n := nextAppCapabilities d view launch in
  (cap_launchApps n = true -> cap_viewApps n = true) /\
  (view = Some false -> n = {| cap_viewApps := false; cap_launchApps := false |}) /\
  (view = None -> cap_viewApps n = default false (device_viewApps d)) /\
  (view = Some true -> launch = None -> cap_launchApps n = bool_decide (device_viewApps d = Some true) && bool_decide (device_launchApps d = Some true)) /\
  nextFileGrants d (fun c' => if decide (c' = c) then Some b else None) c = b /\
  (forall c', c' <> c -> nextFileGrants d (fun c' => if decide (c' = c) then Some b else None) c' = default false (device_caps d c')).
Proof.
  cbv zeta. unfold nextAppCapabilities, nextFileGrants. cbn [cap_viewApps cap_launchApps]. split_and!.
  - destruct view as [[]|]; cbn; try done. by destruct (default false (device_viewApps d)).
  - by intros ->.
  - by intros ->.
  - by intros -> ->.
  - by rewrite decide_True.
  - intros c' H. by rewrite decide_False.
Qed.

(** The audit trail, page by page. *)
Definition AUDIT_PAGE : nat := 100.
Definition olderCursor (lastPage : list AuditEntry) (pageSize : nat) : option Z := if (pageSize <=? length lastPage)%nat then audit_id <$> last lastPage else None.
Definition appendOlder (loaded older : list AuditEntry) : list AuditEntry :=
  let seen := set_of (audit_id <$> loaded) in loaded ++ List.filter (fun e => negb (set_has (audit_id e) seen)) older.
(** No entry is shown twice and none already shown moves. *)
Lemma appendOlder_once loaded older : NoDup (audit_id <$> loaded) -> NoDup (audit_id <$> older) ->
  NoDup (audit_id <$> appendOlder loaded older) /\ loaded `prefix_of` appendOlder loaded older /\
  forall e, e ∈ older -> audit_id e ∈ (audit_id <$> appendOlder loaded older).
Proof.
  intros H1 H2. unfold appendOlder. assert (forall e, set_has (audit_id e) (set_of (audit_id <$> loaded)) = true <-> audit_id e ∈ (audit_id <$> loaded)) as Hs by (intros e; rewrite set_has_spec; apply elem_set_of).
  split; [|split; [by eexists|]].
  - rewrite fmap_app. apply NoDup_app. split; [done|]. split.
    + intros x Hx (e & -> & [_ He]%elem_filter_bool)%list_elem_of_fmap. apply negb_true_iff in He. apply Hs in Hx. congruence.
    + clear H1. induction older as [|e older IH]; [done|]. rewrite fmap_cons, NoDup_cons in H2. destruct H2 as [He H2]. cbn [List.filter]. destruct (negb _); [|auto]. rewrite fmap_cons, NoDup_cons. split; [|auto].
      intros (x & E & [Hx _]%elem_filter_bool)%list_elem_of_fmap. apply He. rewrite E. by apply list_elem_of_fmap_2.
  - intros e He. rewrite fmap_app, elem_of_app. destruct (set_has (audit_id e) (set_of (audit_id <$> loaded))) eqn:E; [left; by apply Hs|]. right.
    apply list_elem_of_fmap_2, elem_filter_bool. by rewrite E.
Qed.
End HostSettings.

(** ** The app catalogue *)

Module Apps.
Section Apps.
Context `{U : Unicode}.

Definition filterApps (apps : list HostApp) (query : jstr) : list HostApp :=
  let q := toLowerCase (trim query) in
  if nonempty q then List.filter (fun a => includes q (toLowerCase (app_name a)) || match app_description a with Some t => includes q (toLowerCase t) | None => false end) apps
  else apps.
Inductive PlatformKey := platform_windows | platform_linux | platform_macos | platform_unknown.
Definition platformKey (platform : jstr) : PlatformKey :=
  if bool_decide (platform = js "windows") then platform_windows else if bool_decide (platform = js "linux") then platform_linux
  else if bool_decide (platform = js "darwin") then platform_macos else platform_unknown.
Inductive IconKey := icon_browser | icon_code | icon_office | icon_media | icon_terminal | icon_system | icon_monitor.
#[export] Instance IconKey_eq_dec : EqDecision IconKey.
Proof. solve_decision. Defined.
Definition icon_name (k : IconKey) : jstr :=
  match k with icon_browser => js "browser" | icon_code => js "code" | icon_office => js "office" | icon_media => js "media" | icon_terminal => js "terminal" | icon_system => js "system" | icon_monitor => js "monitor" end.
Definition ICON_KEYS : list IconKey := [icon_browser; icon_code; icon_office; icon_media; icon_terminal; icon_system].
Definition safeIcon (icon : option jstr) : IconKey :=
  match icon with Some i => default icon_monitor (List.find (fun k => bool_decide (icon_name k = i)) ICON_KEYS) | None => icon_monitor end.
Inductive LaunchMessage := launch_failed | launch_denied | cannot_run | launch_busy | rate_limited | no_session | launcher_unavailable | no_longer_available | invalid_entry | apps_unsupported.
Definition launchFailure (e : jserror) : LaunchMessage * bool :=
  match e with
  | AgentApiError status code _ _ =>
      if status =? 403 then (launch_denied, false)
      else if bool_decide (code = js "APP_NOT_LAUNCHABLE") then (cannot_run, false)
      else if bool_decide (code = js "APP_LAUNCH_BUSY") then (launch_busy, false)
      else if bool_decide (code = js "APP_LAUNCH_RATE_LIMITED") then (rate_limited, false)
      else if bool_decide (code = js "NO_INTERACTIVE_SESSION") then (no_session, false)
      else if bool_decide (code = js "APP_LAUNCH_UNAVAILABLE") then (launcher_unavailable, false)
      else if bool_decide (code = js "APP_NOT_FOUND") then (no_longer_available, true)
      else if bool_decide (code = js "BAD_APP_ID") then (invalid_entry, true)
      else if bool_decide (code = js "APP_CATALOG_UNSUPPORTED") then (apps_unsupported, false)
      else (launch_failed, false)
  | _ => (launch_failed, false)
  end.
Definition category_icon (category : option jstr) : IconKey :=
  match category with
  | None => icon_monitor
  | Some c =>
      if bool_decide (c = js "Development") then icon_code else if bool_decide (c = js "Internet") then icon_browser
      else if bool_decide (c = js "Office") then icon_office else if set_has c [js "Media"; js "Graphics"; js "Games"] then icon_media
      else if set_has c [js "System"; js "Utilities"] then icon_system else icon_monitor
  end.
Definition appIconKey (app : HostApp) : IconKey :=
  let hinted := safeIcon (app_icon app) in if bool_decide (hinted = icon_monitor) then category_icon (app_category app) else hinted.
Definition dot_sep : jstr := [32; 183; 32].
Definition appMeta (app : HostApp) (launchAllowed : bool) : option jstr :=
  match truthy (app_description app) with
  | Some d => Some d
  | None =>
      if negb (app_launchable app) then
        Some match truthy (app_category app) with Some c => c ++ dot_sep ++ js "Launch not supported" | None => js "Launch not supported" end
      else truthy (Some (join dot_sep (match truthy (app_category app) with Some c => [c] | None => [] end ++ if launchAllowed then [js "ready"] else [])))
  end.

(** The catalogue is reloaded only for an entry the computer no longer knows. *)
Lemma launchFailure_refresh e : (launchFailure e).2 = true -> exists s code m c, e = AgentApiError s code m c /\ s <> 403 /\ (code = js "APP_NOT_FOUND" \/ code = js "BAD_APP_ID").
Proof.
  unfold launchFailure. destruct e as [| |s code m c| | | | | |]; try done. destruct (Z.eqb_spec s 403); [done|]. repeat case_bool_decide; try done; intros _; exists s, code, m, c; auto.
Qed.
End Apps.
End Apps.

(** ** Share links, and files shared into the app *)

Module Share.
Record SharedFile := { sf_path : option jstr; sf_fileName : option jstr; sf_size : option Z }.
Definition safeDecode (s : jstr) : jstr := default s (decodeURIComponent s).
Definition shared_file (f : SharedFile) : option Picked :=
  match truthy (sf_path f) with
  | None => None
  | Some path =>
      let uri := if starts_with [slash] path then file_scheme ++ path else path in
      if starts_with file_scheme uri then
        let seg := default [] (last (split_on (Z.eqb slash) uri)) in
        let name := match truthy (sf_fileName f) with Some n => n | None => match truthy (Some (safeDecode seg)) with Some n => n | None => js "file" end end in
        Some {| picked_name := cleanUploadName name; picked_uri := uri; picked_size := sf_size f |}
      else None
  end.
Definition sharedFiles (files : option (list SharedFile)) : list Picked := omap shared_file (default [] files).
(** Whatever another app hands over, what is offered for upload is a local file under a plain name. *)
Theorem sharedFiles_plain (files : option (list SharedFile)) :
  Forall (fun p => plain_name (picked_name p) /\ starts_with file_scheme (picked_uri p) = true) (sharedFiles files).
Proof.
  apply Forall_forall. intros p. unfold sharedFiles. rewrite list_elem_of_omap. intros (f & _ & E). unfold shared_file in E.
  destruct (truthy (sf_path f)) as [path|]; [|done]. destruct (starts_with file_scheme _) eqn:Es; [|done]. injection E as <-. split; [apply cleanUploadName_plain | exact Es].
Qed.

Definition SHARE_EXPIRY_PRESETS : list (Z * jstr) := [(15 * 60, js "15 minutes"); (60 * 60, js "1 hour"); (24 * 60 * 60, js "24 hours")].
Definition remainingMs (expiresAtSeconds now : Z) : Z := Z.max 0 (expiresAtSeconds * 1000 - now).
Definition formatRemaining (ms : Z) : jstr :=
  let total := Z.max 0 (ms / 1000) in
  let h := total / 3600 in
  let m := two (total mod 3600 / 60) in
  let s := two (total mod 60) in
  if 0 <? h then string_of_Z h ++ colon :: m ++ colon :: s else m ++ colon :: s.
Definition by_expiry (a b : ShareLink) : Z := link_expiresAt a - link_expiresAt b.
Definition liveLinks (links : list ShareLink) (nowMs : Z) : list ShareLink := sort_by by_expiry (List.filter (fun l => nowMs <? link_expiresAt l * 1000) links).
Definition withoutLink (links : list ShareLink) (tokenHash : jstr) : list ShareLink := List.filter (fun l => negb (bool_decide (link_tokenHash l = tokenHash))) links.
#[local] Instance by_expiry_comparator : Comparator by_expiry.
Proof. split; unfold by_expiry; intros; [rewrite <- Z.sgn_opp; f_equal; lia | lia]. Qed.
(** The links shown are the ones still working, each with time left, the next to expire first. *)
Theorem liveLinks_correct (links : list ShareLink) (now : Z) :
  (forall l, l ∈ liveLinks links now <-> l ∈ links /\ 0 < remainingMs (link_expiresAt l) now) /\
  StronglySorted (fun a b => link_expiresAt a <= link_expiresAt b) (liveLinks links now) /\
  (forall hash, hash ∉ (link_tokenHash <$> withoutLink (liveLinks links now) hash)).
Proof.
  split; [|split].
  - intros l. unfold liveLinks. rewrite elem_sort_by, elem_filter_bool, Z.ltb_lt. unfold remainingMs. split; intros [? ?]; (split; [done | lia]).
  - pose proof (sort_by_sorted by_expiry (List.filter (fun l => now <? link_expiresAt l * 1000) links)) as H. unfold liveLinks. revert H. generalize (sort_by by_expiry (List.filter (fun l => now <? link_expiresAt l * 1000) links)). intros ls H. induction H as [|a l _ IH Hf]; constructor; [done|]. eapply Forall_impl; [exact Hf|]. intros b Hb. unfold by_expiry in Hb. lia.
  - intros hash (l & -> & [_ H]%elem_filter_bool)%list_elem_of_fmap. apply negb_true_iff in H. breflect. done.
Qed.
End Share.

(** ** Recent files *)

Module Recent.
Inductive RecentBucket := Today | Yesterday | Earlier.
#[export] Instance RecentBucket_eq_dec : EqDecision RecentBucket.
Proof. solve_decision. Defined.
Definition BUCKET_ORDER : list RecentBucket := [Today; Yesterday; Earlier].
Definition DAY : Z := 86400000.
(** [Math.round(x / 86_400_000)] of a whole number of milliseconds. *)
Definition round_days (x : Z) : Z := (2 * x + DAY) / (2 * DAY).
Section Recent.
(** [midnight]: the start of the local calendar day of a time. *)
Context `{D : DateParse} (midnight : Z -> Z).

Definition bucketOf (modified : option jstr) (now : Z) : RecentBucket :=
  match truthy modified with
  | None => Earlier
  | Some m =>
      match date_parse m with
      | None => Earlier
      | Some t => let days := round_days (midnight now - midnight t) in if days <=? 0 then Today else if days =? 1 then Yesterday else Earlier
      end
  end.
Definition group_map (entries : list Entry) (now : Z) : list (RecentBucket * list Entry) :=
  fold_left (fun m e => let b := bucketOf (entry_modified e) now in map_set b (default [] (map_get b m) ++ [e]) m) entries [].
Definition groupRecent (entries : list Entry) (now : Z) : list (RecentBucket * list Entry) :=
  let m := group_map entries now in omap (fun b : RecentBucket => match map_get (K := RecentBucket) b m with Some es => Some (b, es) | None => None end) BUCKET_ORDER.

(** Whole days apart, up to the hour a clock change adds or removes. *)
Lemma round_days_dst k x : - 3600000 <= x - k * DAY <= 3600000 -> round_days x = k.
Proof. unfold round_days, DAY. intros H. symmetry. apply (Z.div_unique _ _ k (2 * x + 86400000 - k * (2 * 86400000))); lia. Qed.
Lemma group_map_get entries now m b : map_get b (fold_left (fun m e => let b := bucketOf (entry_modified e) now in map_set b (default [] (map_get b m) ++ [e]) m) entries m) =
  match List.filter (fun e => bool_decide (bucketOf (entry_modified e) now = b)) entries with [] => map_get b m | es => Some (default [] (map_get b m) ++ es) end.
Proof.
  revert m. induction entries as [|e entries IH]; intros m; [done|]. cbn [fold_left List.filter]. rewrite IH. destruct (bool_decide (bucketOf (entry_modified e) now = b)) eqn:E; breflect.
  - rewrite E, map_get_set_eq. destruct (List.filter _ entries); [done|]. cbn [from_option id]. by rewrite <- app_assoc.
  - rewrite map_get_set_ne by done. done.
Qed.
(** Every file is under exactly one heading, headings come in order and only when needed, each
    keeps the order of the list; a file of the same local day is under Today whatever the clock
    change, one of the day before under Yesterday. *)
Theorem groupRecent_correct (entries : list Entry) (now : Z) :
  groupRecent entries now = omap (fun b : RecentBucket => match List.filter (fun e => bool_decide (bucketOf (entry_modified e) now = b)) entries with [] => None | es => Some (b, es) end) BUCKET_ORDER /\
  Permutation (groupRecent entries now ≫= snd) entries /\
  (forall m t k, truthy (Some m) = Some m -> date_parse m = Some t -> - 3600000 <= midnight now - midnight t - k * DAY <= 3600000 ->
     bucketOf (Some m) now = if k <=? 0 then Today else if k =? 1 then Yesterday else Earlier).
Proof.
  assert (groupRecent entries now = omap (fun b : RecentBucket => match List.filter (fun e => bool_decide (bucketOf (entry_modified e) now = b)) entries with [] => None | es => Some (b, es) end) BUCKET_ORDER) as E.
  { unfold groupRecent, group_map, BUCKET_ORDER. cbn [omap list_omap]. rewrite !group_map_get. by repeat destruct (List.filter _ entries). }
  split; [exact E|]. split.
  - rewrite E. clear E. set (f b := List.filter (fun e => bool_decide (bucketOf (entry_modified e) now = b)) entries). transitivity (f Today ++ f Yesterday ++ f Earlier).
    { unfold BUCKET_ORDER. cbn [omap list_omap]. fold (f Today) (f Yesterday) (f Earlier). destruct (f Today), (f Yesterday), (f Earlier); cbn; rewrite ?app_nil_r; reflexivity. }
    unfold f. clear f. induction entries as [|e entries IH]; [done|]. cbn [List.filter]. destruct (bucketOf (entry_modified e) now) eqn:Eb; rewrite ?(bool_decide_true (Today = Today)), ?(bool_decide_true (Yesterday = Yesterday)), ?(bool_decide_true (Earlier = Earlier)), ?(bool_decide_false (Today = Yesterday)), ?(bool_decide_false (Today = Earlier)), ?(bool_decide_false (Yesterday = Today)), ?(bool_decide_false (Yesterday = Earlier)), ?(bool_decide_false (Earlier = Today)), ?(bool_decide_false (Earlier = Yesterday)) by done; cbn [app].
    + exact (perm_skip e IH).
    + etransitivity; [symmetry; apply Permutation_middle | exact (perm_skip e IH)].
    + rewrite app_assoc. etransitivity; [symmetry; apply Permutation_middle|]. rewrite <- app_assoc. exact (perm_skip e IH).
  - intros m t k Hm Ht Hk. unfold bucketOf. rewrite Hm, Ht. cbv zeta. by rewrite (round_days_dst k).
Qed.
End Recent.
End Recent.

(** ** The app lock *)

Module AppLock.
Definition RELOCK_GRACE_MS : Z := 2000.
Definition shouldRelockOnResume (enabled : bool) (backgroundedAt : option Z) (now graceMs : Z) : bool :=
  if negb enabled then false else match backgroundedAt with None => true | Some t => graceMs <=? now - t end.
Inductive AuthResult := auth_success | auth_failed | auth_unavailable.
Definition unlocksApp (o : AuthResult) : bool := match o with auth_success => true | _ => false end.
Inductive LockBlocker := noHardware | noScreenLock_blocker.
Definition lockEnableBlocker (hasHardware : bool) (enrolledLevel : Z) : option LockBlocker :=
  if negb hasHardware then Some noHardware else if 0 <? enrolledLevel then None else Some noScreenLock_blocker.
(** What the system answers to one prompt: its state ([None]: the call throws), then the sheet. *)
Record AuthCalls := { ac_state : option (bool * Z); ac_sheet : option bool }.
Definition authenticate (a : AuthCalls) : AuthResult :=
  match ac_state a with
  | None => auth_failed
  | Some (hasHardware, level) =>
      if negb hasHardware || (level =? 0) then auth_unavailable
      else match ac_sheet a with Some true => auth_success | _ => auth_failed end
  end.
Definition deviceAuthState (a : AuthCalls) : bool * Z := default (false, 0) (ac_state a).

(** [LockGate.tsx] and the switch of [app/settings/storage.tsx].  [proved] is not in the code:
    whether the owner has passed the system check since the app was last away too long. *)
Record Gate := {
  loaded : bool; enabled : bool; unlocked : bool; prompting : bool; backgroundedAt : option Z; noScreenLock : bool; proved : bool }.
Definition gate_init : Gate := {| loaded := false; enabled := false; unlocked := false; prompting := false; backgroundedAt := None; noScreenLock := false; proved := false |}.
Definition covered (g : Gate) : bool := negb (loaded g) || (enabled g && negb (unlocked g)).
Inductive LockEvent :=
| settings_loaded (on : bool)        (** the stored settings arrive, once *)
| unlock_asked                       (** the effect after a lock, or the Unlock button *)
| unlock_answered (a : AuthCalls)
| went_background (t : Z)
| came_back (t : Z)
| lock_switched (on : bool) (a : AuthCalls).  (** the switch, reachable while the app is not covered *)
Definition relock (t : Z) (g : Gate) : Gate := {|
  loaded := loaded g; enabled := enabled g; prompting := prompting g; noScreenLock := noScreenLock g; backgroundedAt := None;
  unlocked := if shouldRelockOnResume (enabled g) (backgroundedAt g) t RELOCK_GRACE_MS then false else unlocked g;
  proved := match backgroundedAt g with Some t0 => if RELOCK_GRACE_MS <=? t - t0 then false else proved g | None => false end |}.
Definition answered (a : AuthCalls) (g : Gate) : Gate :=
  let o := authenticate a in {|
  loaded := loaded g; enabled := enabled g; prompting := false; backgroundedAt := backgroundedAt g; noScreenLock := match o with auth_unavailable => true | _ => false end;
  unlocked := if unlocksApp o then true else unlocked g; proved := match o with auth_success => true | _ => proved g end |}.
Definition with_gate (on un pr : bool) (g : Gate) : Gate := {|
  loaded := loaded g; enabled := on; unlocked := un; prompting := prompting g; backgroundedAt := backgroundedAt g; noScreenLock := noScreenLock g; proved := pr |}.
Definition switch_on (a : AuthCalls) (g : Gate) : Gate :=
  let (hasHardware, level) := deviceAuthState a in
  match lockEnableBlocker hasHardware level with
  | Some _ => g
  | None => match authenticate a with auth_success => with_gate true true true g | _ => g end
  end.
Definition gate_step (g : Gate) (e : LockEvent) : Gate :=
  match e with
  | settings_loaded on => if loaded g then g else {| loaded := true; enabled := on; unlocked := unlocked g; prompting := prompting g; backgroundedAt := backgroundedAt g; noScreenLock := noScreenLock g; proved := proved g |}
  | unlock_asked => if covered g && loaded g && negb (prompting g) then {| loaded := loaded g; enabled := enabled g; unlocked := unlocked g; prompting := true; backgroundedAt := backgroundedAt g; noScreenLock := noScreenLock g; proved := proved g |} else g
  | unlock_answered a => if prompting g then answered a g else g
  | went_background t => {| loaded := loaded g; enabled := enabled g; unlocked := unlocked g; prompting := prompting g; backgroundedAt := Some t; noScreenLock := noScreenLock g; proved := proved g |}
  | came_back t => relock t g
  | lock_switched on a => if covered g then g else if on then switch_on a g else with_gate false (unlocked g) (proved g) g
  end.
Definition Guarded (g : Gate) : Prop := (enabled g = true -> unlocked g = true -> proved g = true) /\ (loaded g = false -> enabled g = false /\ unlocked g = false /\ prompting g = false).
Lemma Guarded_step g e : Guarded g -> Guarded (gate_step g e).
Proof.
  intros [H1 H2]. destruct e as [on| |a|t|t|on a]; cbn [gate_step].
  - destruct (loaded g) eqn:El; [split; naive_solver|]. destruct (H2 eq_refl) as (_ & Hu & _). split; cbn; [by rewrite Hu | done].
  - destruct (covered g && loaded g && negb (prompting g)) eqn:E; [|split; naive_solver]. breflect. split; cbn; [done | congruence].
  - destruct (prompting g) eqn:Ep; [|split; naive_solver]. split; cbn.
    + destruct (authenticate a); cbn; auto.
    + intros El. by destruct (H2 El) as (_ & _ & ?).
  - split; naive_solver.
  - unfold relock, shouldRelockOnResume. split; cbn.
    + intros He. rewrite He. cbn [negb]. destruct (backgroundedAt g) as [t0|]; [|done]. destruct (RELOCK_GRACE_MS <=? t - t0); [done|]. auto.
    + intros El. destruct (H2 El) as (-> & -> & ->). cbn [negb]. done.
  - destruct (covered g) eqn:Ec; [split; naive_solver|]. unfold covered in Ec. apply orb_false_iff in Ec as [El _]. apply negb_false_iff in El.
    destruct on; [|split; cbn; [done | congruence]]. unfold switch_on. destruct (deviceAuthState a) as [hw level]. destruct (lockEnableBlocker hw level); [split; naive_solver|].
    destruct (authenticate a); [split; cbn; [done | congruence] | split; naive_solver..].
Qed.

(** C27 While the app lock is on, the app is uncovered only if the owner has passed the system check
    since the app was last away for longer than the grace time, whatever the order of prompts,
    answers, switches and trips to the background; before the settings are read it is covered;
    and a failed, cancelled, throwing or unavailable check never uncovers a covered app. *)
Theorem lock_holds (es : list LockEvent) :
  let g := fold_left gate_step es gate_init in
  (covered g = false -> loaded g = true /\ (enabled g = true -> proved g = true)) /\
  (forall a, authenticate a <> auth_success -> covered g = true -> covered (gate_step g (unlock_answered a)) = true /\ covered (gate_step g (lock_switched true a)) = true).
Proof.
  cbv zeta. assert (Guarded (fold_left gate_step es gate_init)) as [H1 H2].
  { assert (Guarded gate_init) as H0 by (by split). revert H0. generalize gate_init. induction es as [|e es IH]; intros g H0; [done|]. apply IH. by apply Guarded_step. }
  set (g := fold_left gate_step es gate_init) in *. split.
  - unfold covered. intros Hc. apply orb_false_iff in Hc as [Hl He]. apply negb_false_iff in Hl. split; [done|]. intros Hon. rewrite Hon in He. cbn in He. apply negb_false_iff in He. auto.
  - intros a Ha Hc. split; cbn [gate_step]; [|by rewrite Hc]. destruct (prompting g); [|done]. unfold covered, answered in *. cbn. by destruct (authenticate a).
Qed.
End AppLock.

(** ** Links from other apps *)

Module ExternalLink.
Section ExternalLink.
(** [new URL(raw, 'rfe://app')]: hostname, path and the [address] query parameter; [None] throws. *)
Context (parse_url : jstr -> option (jstr * jstr * option jstr)).

Definition is_scheme_char (c : jchar) : bool := is_alnum c || (c =? 43) || (c =? dot) || (c =? 45).
(** [/^[a-z][a-z0-9+.-]*:\/\//i]. *)
Definition isScheme (raw : jstr) : bool :=
  match raw with
  | c :: r => is_alpha c && starts_with (js "://") (drop_while is_scheme_char r)
  | [] => false
  end.
Definition strip_end_slashes (s : jstr) : jstr := drop_while_end (Z.eqb slash) s.
Definition link_control (c : jchar) : bool := is_control c || (c =? 127).
(** [None]: [encodeURIComponent] throws. *)
Definition externalLinkTarget (raw : jstr) : option jstr :=
  match parse_url raw with
  | None => Some (js "/")
  | Some (hostname, path, address) =>
      let pathname := strip_end_slashes (if isScheme raw then slash :: hostname ++ path else path) in
      if negb (bool_decide (pathname = js "/pair")) then Some (js "/")
      else match truthy address with
           | None => Some (js "/pair")
           | Some a => if (255 <? length a)%nat || List.existsb link_control a then Some (js "/pair")
                       else (fun enc => js "/pair?address=" ++ enc) <$> encodeURIComponent a
           end
  end.

(** Whatever link another app fires, it opens Home or the Add-workspace screen, and what it may put
    there is an address parameter that cannot contain another parameter, a fragment or a path. *)
Theorem external_links_confined (raw target : jstr) : (forall h p a, parse_url raw = Some (h, p, Some a) -> utf16_text a) -> externalLinkTarget raw = Some target ->
  target = js "/" \/ target = js "/pair" \/
  exists a enc, target = js "/pair?address=" ++ enc /\ (length a <= 255)%nat /\ encodeURIComponent a = Some enc /\
    Forall (fun c => c <> slash /\ c <> 63 /\ c <> 38 /\ c <> 61 /\ c <> 35) enc.
Proof.
  intros Hu. unfold externalLinkTarget. destruct (parse_url raw) as [[[hostname path] address]|]; [|intros [= <-]; by left]. destruct (negb _); [intros [= <-]; by left|].
  destruct (truthy address) as [a|] eqn:Ea; [|intros [= <-]; right; by left]. destruct ((255 <? length a)%nat || _) eqn:E; [intros [= <-]; right; by left|].
  destruct (encodeURIComponent a) as [enc|] eqn:Ee; [|done]. intros [= <-]. right. right. exists a, enc. split; [done|].
  apply orb_false_iff in E as [E _]. apply Nat.ltb_ge in E. split; [done|]. split; [done|].
  apply truthy_Some in Ea as [-> _]. by destruct (encodeURIComponent_inert a enc (Hu _ _ a eq_refl) Ee) as (_ & _ & H).
Qed.
End ExternalLink.
End ExternalLink.

(** ** The scheduled pass *)

Module Background.
Section Background.
Context {W : Type}.
Record BackgroundDeps := {
  bg_scheduled : M W jserror bool; bg_runPhotoBackup : M W jserror BackupResult; bg_waitForPhotoUploads : Z -> M W jserror unit; bg_updateCheck : M W jserror unit }.
Definition UPLOAD_BUDGET_MS : Z := 8 * 60 * 1000.
Inductive PhotoReport := photos_off | photos_error | photos_ran (r : BackupResult).
Record BackgroundReport := { report_photos : PhotoReport; report_update : bool }.
Context (d : BackgroundDeps).
Definition photo_pass (budgetMs : Z) : M W jserror PhotoReport :=
  scheduled <- bg_scheduled d;;
  if (scheduled : bool) then
    r <- bg_runPhotoBackup d;;
    (match r with enqueued _ => bg_waitForPhotoUploads d budgetMs | _ => ret tt end);;
    ret (photos_ran r)
  else ret photos_off.
Definition runBackgroundWork (budgetMs : Z) (w : W) : W * BackgroundReport :=
  let (w1, photos) := photo_pass budgetMs w in
  let (w2, u) := bg_updateCheck d w1 in
  (w2, {| report_photos := match photos with Ok p => p | Err _ => photos_error end; report_update := is_ok u |}).
(** The two parts are independent: the update check runs whatever the photo part did, the photo
    part runs only when it is switched on, uploads are waited for only when something was queued,
    and the pass itself never fails. *)
Theorem background_independent (budgetMs : Z) (w : W) :
  let (w', report) := runBackgroundWork budgetMs w in
  exists w1 photos, photo_pass budgetMs w = (w1, photos) /\ bg_updateCheck d w1 = (w', if report_update report then Ok tt else (bg_updateCheck d w1).2) /\
    (report_update report = true <-> (bg_updateCheck d w1).2 = Ok tt) /\
    ((exists w2, bg_scheduled d w = (w2, Ok false)) -> report_photos report = photos_off /\ bg_scheduled d w = (w1, Ok false)) /\
    (forall r, report_photos report = photos_ran r -> exists w2 w3, bg_scheduled d w = (w2, Ok true) /\ bg_runPhotoBackup d w2 = (w3, Ok r) /\
       ((forall n, r <> enqueued n) -> w1 = w3)).
Proof.
  unfold runBackgroundWork. destruct (photo_pass budgetMs w) as [w1 photos] eqn:Ep. destruct (bg_updateCheck d w1) as [w2 u] eqn:Eu. exists w1, photos. split; [done|]. rewrite ?Eu. cbn [snd report_update report_photos].
  split; [by destruct u as [[]|]|]. split; [destruct u as [[]|]; cbn; naive_solver|]. revert Ep. unfold photo_pass, bind, ret.
  destruct (bg_scheduled d w) as [ws [[]|e]] eqn:Es.
  - destruct (bg_runPhotoBackup d ws) as [wr [r|e]] eqn:Er.
    + intros E. split; [intros [? [=]]|]. intros r' Hr'. destruct r as [n| | | | | | |]; try (injection E as <- <-; injection Hr' as <-; exists ws, wr; by split_and!).
      destruct (bg_waitForPhotoUploads d budgetMs wr) as [ww [[]|]]; injection E as <- <-; [|done]. injection Hr' as <-. exists ws, wr. split_and!; [done..|]. intros H. by destruct (H n).
    + intros [= <- <-]. split; [intros [? [=]] | done].
  - intros [= <- <-]. split; [done|]. done.
  - intros [= <- <-]. split; [intros [? [=]] | done].
Qed.
End Background.
End Background.
