(* ===== verification/Regex.v ===== *)
(** * Regular expressions of the JavaScript runtime

    The backtracking matcher of ECMAScript (without the unicode, ignore-case and
    multiline flags) on patterns anchored at the start, with greedy and lazy
    quantifiers, capture groups, back-references and the end anchor: what the
    patterns of [features/preview/markdown.ts] use.  The matcher is proved to find a
    match exactly when the declarative relation [Matches] has one, so its fuel is
    always enough. *)

From Stdlib Require Import ZArith Lia Bool.
From Stdlib Require List.
From S2P Require Import Prelude JsCollections JsString.

(** A pattern.  [Rrep greedy lo hi r] is [r{lo,hi}], lazy with a [?] after it;
    [Rgroup n r] is the [n]-th capturing group. *)
Inductive regex : Type :=
| Rempty
| Rchar (p : jchar -> bool)
| Rseq (r1 r2 : regex)
| Ralt (r1 r2 : regex)
| Rrep (greedy : bool) (lo : nat) (hi : option nat) (r : regex)
| Rgroup (n : nat) (r : regex)
| Rback (n : nat)
| Rend.

(** What is left of the input, and the groups captured so far. *)
Notation Captures := (list (nat * jstr)).
Notation mstate := (jstr * list (nat * jstr))%type.

Fixpoint groups (r : regex) : list nat :=
  match r with
  | Rempty | Rchar _ | Rback _ | Rend => []
  | Rseq a b | Ralt a b => groups a ++ groups b
  | Rrep _ _ _ a => groups a
  | Rgroup n a => n :: groups a
  end.
(** Every iteration of a quantifier forgets the groups inside it. *)
Definition forget (r : regex) (x : mstate) : mstate :=
  (x.1, List.filter (fun c => negb (bool_decide (c.1 ∈ groups r))) x.2).

(** [RepeatMatcher]: an iteration past the minimum must consume something. *)
Section Repeat.
Variable greedy : bool.
Variable once : mstate -> (mstate -> option mstate) -> option mstate.

Fixpoint repeat_match (fuel lo : nat) (hi : option nat) (x : mstate) (k : mstate -> option mstate) : option mstate :=
  match fuel with
  | O => None
  | S f =>
      if bool_decide (hi = Some 0%nat) then k x
      else
        let more y := if (lo =? 0)%nat && (length y.1 =? length x.1)%nat then None
                      else repeat_match f (pred lo) (pred <$> hi) y k in
        match lo with
        | S _ => once x more
        | O => if greedy then match once x more with Some z => Some z | None => k x end
               else match k x with Some z => Some z | None => once x more end
        end
  end.
End Repeat.

Fixpoint rmatch (r : regex) (x : mstate) (k : mstate -> option mstate) : option mstate :=
  match r with
  | Rempty => k x
  | Rchar p => match x.1 with c :: s => if p c then k (s, x.2) else None | [] => None end
  | Rseq a b => rmatch a x (fun y => rmatch b y k)
  | Ralt a b => match rmatch a x k with Some z => Some z | None => rmatch b x k end
  | Rrep greedy lo hi a =>
      repeat_match greedy (fun y => rmatch a (forget a y)) (S (lo + length x.1)) lo hi x k
  | Rgroup n a => rmatch a x (fun y => k (y.1, map_set n (take (length x.1 - length y.1) x.1) y.2))
  | Rback n => let w := default [] (map_get n x.2) in
               if starts_with w x.1 then k (drop (length w) x.1, x.2) else None
  | Rend => match x.1 with [] => k x | _ => None end
  end.

(** [/^.../.exec(s)] and [/^.../.test(s)]; group [0] is the whole match. *)
Definition re_exec (r : regex) (s : jstr) : option Captures := snd <$> rmatch (Rgroup 0 r) (s, []) Some.
Definition re_test (r : regex) (s : jstr) : bool := bool_decide (is_Some (re_exec r s)).
Definition group (n : nat) (m : Captures) : jstr := default [] (map_get n m).

(** *** Notation of patterns *)

Definition star (r : regex) : regex := Rrep true 0 None r.
Definition plus (r : regex) : regex := Rrep true 1 None r.
Definition opt (r : regex) : regex := Rrep true 0 (Some 1%nat) r.
Definition ch (c : jchar) : regex := Rchar (Z.eqb c).
Definition lit (s : jstr) : regex := foldr (fun c r => Rseq (ch c) r) Rempty s.
(** [.] excludes the line terminators. *)
Definition is_dot (c : jchar) : bool := negb ((c =? 10) || (c =? 13) || (c =? 8232) || (c =? 8233)).
Definition dotr : regex := Rchar is_dot.
Definition spacer : regex := Rchar is_space.
(** [\w]. *)
Definition is_word (c : jchar) : bool := is_alnum c || (c =? 95).

Declare Scope re_scope.
Delimit Scope re_scope with re.
Infix "·" := Rseq (at level 45, right associativity) : re_scope.
Infix "∥" := Ralt (at level 48, right associativity) : re_scope.

(** ** What a pattern matches *)

Inductive Reps (R : mstate -> mstate -> Prop) : nat -> option nat -> mstate -> mstate -> Prop :=
| Reps_done hi x : Reps R 0 hi x x
| Reps_more lo hi x y z :
    hi <> Some 0%nat -> R x y -> (lo = 0%nat -> length y.1 <> length x.1) ->
    Reps R (pred lo) (pred <$> hi) y z -> Reps R lo hi x z.

Fixpoint Matches (r : regex) (x y : mstate) : Prop :=
  match r with
  | Rempty => y = x
  | Rchar p => exists c, x.1 = c :: y.1 /\ p c = true /\ y.2 = x.2
  | Rseq a b => exists z, Matches a x z /\ Matches b z y
  | Ralt a b => Matches a x y \/ Matches b x y
  | Rrep _ lo hi a => Reps (fun u v => Matches a (forget a u) v) lo hi x y
  | Rgroup n a => exists z, Matches a x z /\ y = (z.1, map_set n (take (length x.1 - length z.1) x.1) z.2)
  | Rback n => x.1 = default [] (map_get n x.2) ++ y.1 /\ y.2 = x.2
  | Rend => x.1 = [] /\ y = x
  end.

(** [{lo,hi}] with [lo <= hi]: what the syntax of patterns enforces. *)
Fixpoint re_ok (r : regex) : bool :=
  match r with
  | Rempty | Rchar _ | Rback _ | Rend => true
  | Rseq a b | Ralt a b => re_ok a && re_ok b
  | Rrep _ lo hi a => match hi with Some h => (lo <=? h)%nat | None => true end && re_ok a
  | Rgroup _ a => re_ok a
  end.

Section RepeatLemmas.
Context (greedy : bool) (once : mstate -> (mstate -> option mstate) -> option mstate).
Context (R : mstate -> mstate -> Prop).
Hypothesis once_sound : forall x k z, once x k = Some z -> exists y, R x y /\ k y = Some z.
Hypothesis once_complete : forall x k y, R x y -> is_Some (k y) -> is_Some (once x k).
Hypothesis R_shrinks : forall x y, R x y -> (length y.1 <= length x.1)%nat.

Lemma repeat_sound fuel lo hi x k z : match hi with Some h => (lo <= h)%nat | None => True end ->
  repeat_match greedy once fuel lo hi x k = Some z -> exists y, Reps R lo hi x y /\ k y = Some z.
Proof using once_sound.
  revert lo hi x z. induction fuel as [|f IH]; intros lo hi x z Hle; cbn [repeat_match]; [done|].
  case_bool_decide as Hhi; [subst hi; destruct lo; [eauto using Reps|lia]|].
  set (more := fun y => _).
  assert (Hmore : forall z, once x more = Some z -> exists y, Reps R lo hi x y /\ k y = Some z).
  { intros z0 (y & HR & E)%once_sound. subst more. cbn beta in E.
    destruct ((lo =? 0)%nat && (length y.1 =? length x.1)%nat) eqn:B; [done|].
    apply IH in E as (y' & HR' & Ek); [|destruct hi as [h|]; cbn; [lia | done]].
    exists y'. split; [|done]. eapply Reps_more; eauto. intros -> L. rewrite L, !Nat.eqb_refl in B. done. }
  destruct lo as [|lo]; [|by apply Hmore]. destruct greedy.
  - destruct (once x more) eqn:E; [intros [= <-]; by apply Hmore | eauto using Reps].
  - destruct (k x) eqn:E; [intros [= <-]; eauto using Reps | by apply Hmore].
Qed.

Lemma repeat_complete fuel lo hi x y k : Reps R lo hi x y -> (lo + length x.1 < fuel)%nat -> is_Some (k y) ->
  is_Some (repeat_match greedy once fuel lo hi x k).
Proof using once_complete R_shrinks.
  intros HR. revert fuel. induction HR as [hi x|lo hi x y z Hhi HR Hne HRs IH]; intros fuel Hf Hk;
    (destruct fuel as [|f]; [lia|]); cbn [repeat_match].
  - case_bool_decide; [done|]. destruct Hk as [w Hk]. destruct greedy.
    + case_match; [eauto | by rewrite Hk].
    + rewrite Hk. eauto.
  - rewrite bool_decide_eq_false_2 by done. set (more := fun y => _).
    assert (Hm : is_Some (once x more)).
    { apply (once_complete _ _ y HR). subst more. cbn beta.
      pose proof (R_shrinks _ _ HR). destruct lo as [|lo]; cbn [pred Nat.eqb andb] in *.
      - specialize (Hne eq_refl). rewrite (proj2 (Nat.eqb_neq _ _)) by done. apply IH; [lia|done].
      - apply IH; [lia|done]. }
    destruct lo; [|done]. destruct greedy; [|destruct (k x); eauto].
    destruct Hm as [w ->]. eauto.
Qed.
End RepeatLemmas.

(** A match consumes a prefix of the input. *)
Lemma Reps_prefix R lo hi x y : (forall u v, R u v -> exists w, u.1 = w ++ v.1) -> Reps R lo hi x y -> exists w, x.1 = w ++ y.1.
Proof.
  intros HR. induction 1 as [hi x|lo hi x y z _ H1 _ _ (w2 & E2)]; [by exists []|].
  destruct (HR _ _ H1) as (w1 & E1). exists (w1 ++ w2). by rewrite E1, E2, (assoc_L (++)).
Qed.
Lemma Matches_prefix r x y : Matches r x y -> exists w, x.1 = w ++ y.1.
Proof.
  revert x y; induction r as [|p|a IHa b IHb|a IHa b IHb|g lo hi a IH|n a IH|n|]; intros x y; cbn.
  - intros ->. by exists [].
  - intros (c & E & _). by exists [c].
  - intros (z & (w1 & E1)%IHa & (w2 & E2)%IHb). exists (w1 ++ w2). by rewrite E1, E2, (assoc_L (++)).
  - intros [?|?]; eauto.
  - apply Reps_prefix. intros u v H. by apply IH in H.
  - intros (z & (w & E)%IH & ->). eauto.
  - intros (E & _). eauto.
  - intros (E & ->). by exists [].
Qed.
Lemma Matches_shrinks r x y : Matches r x y -> (length y.1 <= length x.1)%nat.
Proof. intros (w & ->)%Matches_prefix. rewrite length_app. lia. Qed.

(** The matcher finds only matches. *)
Lemma rmatch_sound r x k z : re_ok r = true -> rmatch r x k = Some z -> exists y, Matches r x y /\ k y = Some z.
Proof.
  revert x k z; induction r as [|p|a IHa b IHb|a IHa b IHb|g lo hi a IH|n a IH|n|]; intros x k z Hok; cbn [rmatch Matches re_ok] in *;
    breflect.
  - eauto.
  - destruct x as [[|c s] m]; cbn; [done|]. destruct (p c) eqn:E; [|done]. intros Hk. exists (s, m). naive_solver.
  - intros (y & Ha & (w & Hb & Hk)%IHb)%IHa; eauto.
  - destruct (rmatch a x k) eqn:E; [intros [= <-]; apply IHa in E as (? & ? & ?); eauto|].
    intros (? & ? & ?)%IHb; eauto.
  - intros Hk. eapply repeat_sound in Hk; [exact Hk | | destruct hi; breflect; done].
    intros x' k' z' E. apply IH in E; eauto.
  - intros (y & Ha & Hk)%IH; [|done]. eexists. split; [|exact Hk]. eauto.
  - destruct (starts_with _ x.1) eqn:E; [|done]. intros Hk. eexists. split; [|exact Hk]. cbn.
    apply starts_with_spec in E as (t & E). rewrite E. by rewrite drop_app_length.
  - destruct x as [[|c s] m]; cbn; [|done]. eauto.
Qed.

(** The matcher misses no match: its fuel is enough. *)
Lemma rmatch_complete r x y k : Matches r x y -> is_Some (k y) -> is_Some (rmatch r x k).
Proof.
  revert x y k; induction r as [|p|a IHa b IHb|a IHa b IHb|g lo hi a IH|n a IH|n|]; intros x y k; cbn [rmatch Matches].
  - by intros ->.
  - destruct x as [s m], y as [s' m']; cbn. intros (c & -> & -> & ->). done.
  - intros (z & Ha & Hb) Hk. eapply IHa; eauto.
  - intros [H|H] Hk; [by destruct (IHa _ _ _ H Hk) as [w ->]; eauto|]. destruct (rmatch a x k); eauto.
  - intros HR. apply (repeat_complete _ _ (fun u v => Matches a (forget a u) v)); [eauto| |done|lia].
    intros u v ?%Matches_shrinks. done.
  - intros (z & Ha & ->) Hk. eapply IH; eauto.
  - destruct x as [s m], y as [s' m']; cbn. intros (-> & ->). rewrite starts_with_app, drop_app_length. done.
  - intros (E & ->). by rewrite E.
Qed.

(** [test] decides whether the pattern matches a prefix of the text. *)
Lemma re_test_spec r s : re_ok r = true -> re_test r s = true <-> exists y, Matches r (s, []) y.
Proof.
  intros Hok. unfold re_test, re_exec. rewrite bool_decide_eq_true. split.
  - intros [m E]. apply fmap_Some in E as (z & E & _). cbn in E. by apply rmatch_sound in E as (y & H & _); eauto.
  - intros (y & H). apply fmap_is_Some. eapply (rmatch_complete (Rgroup 0 r)); [cbn; eauto | done].
Qed.
(** [exec] returns the captures of some match, the whole match as group [0]. *)
Lemma re_exec_sound r s m : re_ok r = true -> re_exec r s = Some m ->
  exists y, Matches r (s, []) y /\ m = map_set 0%nat (take (length s - length y.1) s) y.2.
Proof.
  intros Hok. unfold re_exec. intros (z & E & ->)%fmap_Some. cbn in E.
  apply rmatch_sound in E as (y & H & [= <-]); [|done]. by exists y.
Qed.
Lemma re_test_exec r s : re_test r s = true -> exists m, re_exec r s = Some m.
Proof. unfold re_test. by intros [m E]%bool_decide_eq_true; eauto. Qed.

Lemma forget_id r x : groups r = [] -> forget r x = x.
Proof.
  intros E. unfold forget. rewrite E. destruct x as [s m]. cbn. f_equal. induction m as [|c m IH]; cbn; [done|]. by rewrite IH.
Qed.
(** A quantified character class consumes a run of such characters. *)
Lemma Reps_chars p lo hi x y :
  Reps (fun u v => Matches (Rchar p) (forget (Rchar p) u) v) lo hi x y ->
  exists w, x.1 = w ++ y.1 /\ Forall (fun c => p c = true) w /\ (lo <= length w)%nat
            /\ match hi with Some h => (length w <= h)%nat | None => True end /\ y.2 = x.2.
Proof.
  induction 1 as [hi x|lo hi x y z Hhi (c & Ex & Hc & E2) _ _ (w & E & Hw & Hlo & Hh & Em)].
  - exists []. repeat split; [constructor | cbn; lia | destruct hi; cbn; lia].
  - rewrite forget_id in Ex, E2 by done. exists (c :: w). rewrite Ex, E. repeat split; [by constructor | cbn; lia | | congruence].
    destruct hi as [[|h]|]; cbn in *; [done|lia|done].
Qed.

(** A pattern sets no group but its own. *)
Lemma map_get_filter n (P : nat -> bool) (m : Captures) : P n = true -> map_get n (List.filter (fun c => P c.1) m) = map_get n m.
Proof.
  intros HP. induction m as [|[k v] m IH]; cbn; [done|]. destruct (P k) eqn:E; cbn; rewrite IH; [done|].
  case_decide; [congruence|done].
Qed.
Lemma forget_get n r x : n ∉ groups r -> map_get n (forget r x).2 = map_get n x.2.
Proof.
  intros H. pose proof (map_get_filter n (fun k => negb (bool_decide (k ∈ groups r))) x.2) as E.
  apply E. by rewrite bool_decide_eq_false_2.
Qed.
Lemma Matches_frame n r x y : n ∉ groups r -> Matches r x y -> map_get n y.2 = map_get n x.2.
Proof.
  revert x y; induction r as [|p|a IHa b IHb|a IHa b IHb|g lo hi a IH|m a IH|m|]; intros x y Hn; cbn in Hn |- *.
  - by intros ->.
  - by intros (c & _ & _ & ->).
  - rewrite not_elem_of_app in Hn. intros (z & H1 & H2). rewrite (IHb z), (IHa x) by naive_solver. done.
  - rewrite not_elem_of_app in Hn. intros [H|H]; [apply IHa | apply IHb]; naive_solver.
  - induction 1 as [hi' x|lo' hi' x y z _ H _ _ E]; [done|]. rewrite E. apply IH in H; [|done]. by rewrite H, forget_get.
  - apply not_elem_of_cons in Hn as [Hm Hn]. intros (z & H & ->). cbn. rewrite map_get_set_ne by done. by apply IH.
  - by intros (_ & ->).
  - by intros (_ & ->).
Qed.
(** A group captures the text it matched. *)
Lemma Matches_group n r x y : Matches (Rgroup n r) x y ->
  exists w z, x.1 = w ++ y.1 /\ map_get n y.2 = Some w /\ Matches r x z /\ z.1 = y.1.
Proof.
  intros (z & H & ->). destruct (Matches_prefix _ _ _ H) as (w & E). exists w, z. cbn.
  by rewrite map_get_set_eq, E, length_app, Nat.add_sub, take_app_length.
Qed.
Lemma re_exec_whole r s m : re_ok r = true -> re_exec r s = Some m ->
  exists y, Matches r (s, []) y /\ s = group 0 m ++ y.1 /\ (forall n, n <> 0%nat -> map_get n m = map_get n y.2).
Proof.
  intros Hok (y & H & ->)%re_exec_sound; [|done]. exists y. split; [done|].
  destruct (Matches_prefix _ _ _ H) as (w & E). cbn in E. unfold group. rewrite map_get_set_eq. cbn [default from_option id].
  split; [by rewrite E, length_app, Nat.add_sub, take_app_length | intros n Hn; by apply map_get_set_ne].
Qed.
Lemma Matches_lit s x y : Matches (lit s) x y -> x.1 = s ++ y.1.
Proof.
  revert x; induction s as [|c s IH]; intros x; cbn; [by intros ->|].
  intros (z & (d & E & Hd & _) & H). apply Z.eqb_eq in Hd as <-. rewrite E. f_equal. by apply IH.
Qed.
Lemma Matches_ch c x y : Matches (ch c) x y -> x.1 = c :: y.1.
Proof. intros (d & E & Hd & _). apply Z.eqb_eq in Hd as <-. done. Qed.

(** Everything captured is a part of the input. *)
Definition infix (w s : jstr) : Prop := exists a b, s = a ++ w ++ b.
Lemma infix_nil s : infix [] s.
Proof. by exists [], s. Qed.
Lemma infix_refl s : infix s s.
Proof. exists [], []. by rewrite app_nil_r. Qed.
Lemma infix_trans u v w : infix u v -> infix v w -> infix u w.
Proof. intros (a & b & ->) (a' & b' & ->). exists (a' ++ a), (b ++ b'). by rewrite <- !(assoc_L (++)). Qed.
Lemma infix_app_l u v w : infix u v -> infix u (w ++ v).
Proof. intros (a & b & ->). exists (w ++ a), b. by rewrite <- (assoc_L (++)). Qed.
Lemma infix_app_r u v w : infix u v -> infix u (v ++ w).
Proof. intros (a & b & ->). exists a, (b ++ w). by rewrite <- !(assoc_L (++)). Qed.
Lemma infix_elem u s : infix u s -> forall c, c ∈ u -> c ∈ s.
Proof. intros (a & b & ->) c. set_solver. Qed.
#[export] Hint Resolve infix_nil infix_refl infix_app_l infix_app_r : jsstr.

Lemma forget_some n r x w : map_get n (forget r x).2 = Some w -> map_get n x.2 = Some w.
Proof.
  destruct (decide (n ∈ groups r)) as [Hin|Hn]; [|by rewrite forget_get].
  cbn. intros H%map_get_Some_elem. apply elem_filter_bool in H as (_ & H). cbn in H. by rewrite bool_decide_eq_true_2 in H.
Qed.
Lemma Matches_captures r x y n w : Matches r x y -> map_get n y.2 = Some w -> map_get n x.2 = Some w \/ infix w x.1.
Proof.
  revert x y; induction r as [|p|a IHa b IHb|a IHa b IHb|g lo hi a IH|m a IH|m|]; intros x y; cbn.
  - intros ->; by left.
  - intros (c & _ & _ & ->); by left.
  - intros (z & H1 & H2) Hw. destruct (IHb _ _ H2 Hw) as [Hz|Hi]; [by apply (IHa _ _ H1)|].
    right. destruct (Matches_prefix _ _ _ H1) as (v & ->). by apply infix_app_l.
  - intros [H|H] Hw; eauto.
  - induction 1 as [hi' x|lo' hi' x y z _ H _ _ IHR]; [by left|]. intros Hw.
    destruct (IHR Hw) as [Hy|Hi].
    + destruct (IH _ _ H Hy) as [Hx|Hi]; [left; by apply forget_some in Hx | by right].
    + right. destruct (Matches_prefix _ _ _ H) as (v & E). cbn in E. rewrite E. by apply infix_app_l.
  - intros (z & H & ->). cbn. rewrite map_get_set. case_decide; [|by apply (IH _ _ H)].
    intros [= <-]. right. exists [], (drop (length x.1 - length z.1) x.1). by rewrite app_nil_l, take_drop.
  - intros (_ & ->); by left.
  - intros (_ & ->); by left.
Qed.
Lemma re_exec_infix r s m n : re_ok r = true -> re_exec r s = Some m -> infix (group n m) s.
Proof.
  intros Hok (y & H & E0 & G)%re_exec_whole; [|done]. destruct n as [|n].
  - rewrite E0. exists [], y.1. done.
  - unfold group. rewrite G by done. destruct (map_get (S n) y.2) as [w|] eqn:E; [|apply infix_nil].
    by destruct (Matches_captures _ _ _ _ _ H E).
Qed.

(** A greedy class takes the longest run it can, when the rest of the pattern then matches. *)
Lemma greedy_repeat p fuel lo hi w t m k :
  Forall (fun c => p c = true) w -> match t with c :: _ => p c = false | [] => True end ->
  (lo <= length w)%nat -> match hi with Some h => (length w <= h)%nat | None => True end -> (length w < fuel)%nat ->
  is_Some (k (t, m)) ->
  repeat_match true (fun y => rmatch (Rchar p) (forget (Rchar p) y)) fuel lo hi (w ++ t, m) k = k (t, m).
Proof.
  intros Hw Ht. revert fuel lo hi. induction Hw as [|c w Hc _ IH]; intros fuel lo hi Hlo Hhi Hf Hk;
    (destruct fuel as [|f]; [lia|]); cbn [repeat_match app].
  - case_bool_decide; [done|]. destruct lo; [|cbn in Hlo; lia]. rewrite forget_id by done. cbn [rmatch fst].
    destruct t as [|c t]; [done|]. by rewrite Ht.
  - rewrite bool_decide_eq_false_2 by (intros ->; cbn in Hhi; lia). rewrite forget_id by done. cbn [rmatch fst snd]. rewrite Hc.
    rewrite (proj2 (Nat.eqb_neq (length (w ++ t)) _)), andb_false_r by (cbn; lia).
    rewrite IH; [|cbn in *; lia | destruct hi; cbn in *; lia | cbn in *; lia | done].
    destruct lo; [|done]. by destruct Hk as [z ->].
Qed.
Lemma greedy_class p lo hi w t m k :
  Forall (fun c => p c = true) w -> match t with c :: _ => p c = false | [] => True end ->
  (lo <= length w)%nat -> match hi with Some h => (length w <= h)%nat | None => True end ->
  is_Some (k (t, m)) -> rmatch (Rrep true lo hi (Rchar p)) (w ++ t, m) k = k (t, m).
Proof. intros. apply greedy_repeat; try done. cbn [fst]. rewrite length_app. lia. Qed.
