(* ===== verification/Markdown.v ===== *)
(** * Markdown preview

    [features/preview/markdown.ts]: the inline and block parsers of the markdown
    viewer.  The patterns are those of the source, run by the matcher of [Regex].
    Both parsers recurse on parts of their input; they carry fuel, [None] is running
    out of it, and it is proved that the entry points never do. *)

From Stdlib Require Import ZArith Lia Bool String.
From Stdlib Require List.
From S2P Require Import Prelude JsCollections JsString Regex.

Inductive Inline : Type :=
| IText (v : jstr)
| ICode (v : jstr)
| IStrong (c : list Inline)
| IEm (c : list Inline)
| IDel (c : list Inline)
| ILink (c : list Inline) (href : jstr).

Inductive Block : Type :=
| BHeading (level : nat) (c : list Inline)
| BPara (c : list Inline)
| BCode (lang v : jstr)
| BList (ordered : bool) (start : Z) (items : list (list Inline))
| BQuote (c : list Block)
| BTable (head : list (list Inline)) (rows : list (list (list Inline)))
| BHr.

Definition backtick : jchar := 96.
Definition underscore : jchar := 95.
Definition pipe : jchar := 124.

Inductive DelimKind := Dstrong | Dem | Ddel.
Definition delim_node (k : DelimKind) (c : list Inline) : Inline :=
  match k with Dstrong => IStrong c | Dem => IEm c | Ddel => IDel c end.
Definition DELIMS : list (jstr * DelimKind) :=
  [(js "**", Dstrong); (js "__", Dstrong); (js "~~", Ddel); (js "*", Dem); (js "_", Dem)].

(** [s[i] === c]. *)
Definition char_is (s : jstr) (i : nat) (c : jchar) : bool := bool_decide (s !! i = Some c).
(** [P.test(s[i] ?? '')] for a pattern of one character. *)
Definition char_in (s : jstr) (i : nat) (P : jchar -> bool) : bool := from_option P false (s !! i).
(** [s.indexOf(p, from)]. *)
Definition index_from (p s : jstr) (from : nat) : option nat := Nat.add from <$> index_of_str p (drop from s).
(** [s.startsWith(p, i)]. *)
Definition starts_at (p s : jstr) (i : nat) : bool := starts_with p (drop i s).
(** [s.slice(a, b)] for indices in range. *)
Definition slice (s : jstr) (a b : nat) : jstr := take (b - a) (drop a s).

Fixpoint findClose_loop (fuel : nat) (s d : jstr) (j : nat) : option nat :=
  match fuel with
  | O => None
  | S f =>
      if (length s <? j + length d)%nat then None
      else if char_is s j backslash then findClose_loop f s d (j + 2)
      else if char_is s j backtick then
        match index_from [backtick] s (j + 1) with
        | Some e => findClose_loop f s d (e + 1)
        | None => findClose_loop f s d (j + 1)
        end
      else if starts_at d s j && negb (char_is s (j - 1) space) then
        if (length d =? 1)%nat && bool_decide ((fun c => [c]) <$> s !! (j + 1)%nat = Some d) then findClose_loop f s d (j + 2)
        else if bool_decide (d !! 0%nat = Some underscore) && char_in s (j + length d) is_word then findClose_loop f s d (j + 1)
        else Some j
      else findClose_loop f s d (j + 1)
  end.
Definition findClose (s d : jstr) (from : nat) : option nat := findClose_loop (S (length s)) s d from.

(** The loop over [DELIMS] at [i]: the delimiter that opens there, its kind and where it closes. *)
Fixpoint open_delim (ds : list (jstr * DelimKind)) (s : jstr) (i : nat) : option (jstr * DelimKind * nat) :=
  match ds with
  | [] => None
  | (d, kind) :: r =>
      if starts_at d s i && bool_decide (is_Some (s !! (i + length d)%nat)) && negb (char_is s (i + length d) space)
         && negb ((length d =? 1)%nat && bool_decide ((fun c => [c]) <$> s !! (i + 1)%nat = Some d)) then
        if bool_decide (d !! 0%nat = Some underscore) && (0 <? i)%nat && char_in s (i - 1) is_word then None
        else match findClose s d (i + length d) with
             | Some e => if (i + length d <? e)%nat then Some (d, kind, e) else open_delim r s i
             | None => open_delim r s i
             end
      else open_delim r s i
  end.

(** [/[\\`*_{}[\]()#+\-.!~|>]/]. *)
Definition escapable (c : jchar) : bool := includes_char c (js "\`*_{}[]()#+-.!~|>").

Open Scope re_scope.
(** A space, a captured run of any characters, a space, the end. *)
Definition CODE_PAD : regex := ch space · Rgroup 1 (star dotr) · ch space · Rend.
Definition not_close (c : jchar) : bool := negb (c =? 93).
Definition href_char (c : jchar) : bool := negb (c =? 41) && negb (is_space c).
Definition TITLE : regex := opt (plus spacer · ch quote · star (Rchar (fun c => negb (c =? quote))) · ch quote).
Definition IMAGE : regex :=
  lit (js "![") · Rgroup 1 (star (Rchar not_close)) · lit (js "](") · Rgroup 2 (star (Rchar href_char)) · TITLE · ch 41.
Definition LINK : regex :=
  ch 91 · Rgroup 1 (star (Rchar (fun c => negb (c =? 93) && negb (c =? backslash)) ∥ (ch backslash · dotr)))
  · lit (js "](") · Rgroup 2 (star (Rchar href_char)) · TITLE · ch 41.

Definition spaces03 : regex := Rrep true 0 (Some 3%nat) (ch space).
Definition HEADING : regex :=
  spaces03 · Rgroup 1 (Rrep true 1 (Some 6%nat) (ch 35)) · opt (plus spacer · Rgroup 2 (Rrep false 0 None dotr))
  · star spacer · star (ch 35) · star spacer · Rend.
Definition FENCE : regex :=
  spaces03 · Rgroup 1 (Rrep true 3 None (ch backtick) ∥ Rrep true 3 None (ch 126)) · star spacer
  · Rgroup 2 (star (Rchar (fun c => negb (c =? backtick) && negb (is_space c)))).
Definition HR : regex :=
  spaces03 · Rgroup 1 (Rchar (fun c => includes_char c (js "-*_"))) · Rrep true 2 None (star spacer · Rback 1) · star spacer · Rend.
Definition BULLET : regex :=
  spaces03 · Rchar (fun c => includes_char c (js "-*+")) · plus spacer · Rgroup 1 (star dotr) · Rend.
Definition ORDERED : regex :=
  spaces03 · Rgroup 1 (Rrep true 1 (Some 9%nat) (Rchar is_digit)) · Rchar (fun c => includes_char c (js ".)")) · plus spacer
  · Rgroup 2 (star dotr) · Rend.
Definition QUOTE : regex := spaces03 · ch 62 · opt spacer · Rgroup 1 (star dotr) · Rend.
Definition sep_cell : regex := star spacer · opt (ch colon) · plus (ch 45) · opt (ch colon) · star spacer.
Definition TABLE_SEP : regex := star spacer · opt (ch pipe) · sep_cell · star (Rgroup 1 (ch pipe · sep_cell)) · opt (ch pipe) · star spacer · Rend.
(** [/^( {4}|\t)/]. *)
Definition INDENT : regex := Rgroup 1 (Rrep true 4 (Some 4%nat) (ch space) ∥ ch 9).
(** [/^\s+\S/]. *)
Definition CONTINUED : regex := plus spacer · Rchar (fun c => negb (is_space c)).
(** [/^\[( |x|X)\]\s+/]. *)
Definition TASK : regex := ch 91 · Rgroup 1 (Rchar (fun c => includes_char c (js " xX"))) · ch 93 · plus spacer.
(** [/^ {0,3}(=+|-+)\s*$/]. *)
Definition SETEXT : regex := spaces03 · Rgroup 1 (plus (ch 61) ∥ plus (ch 45)) · star spacer · Rend.
Close Scope re_scope.

(** A code span drops one space at each end when it has both. *)
Definition code_text (s : jstr) : jstr := match re_exec CODE_PAD s with Some m => group 1 m | None => s end.

Definition flush (text : jstr) (out : list Inline) : list Inline :=
  match text with [] => out | _ => out ++ [IText text] end.

(** One turn of the loop of [parseInline] at [i]: the node it pushes, if any, the text it
    adds and where it goes on. *)
Inductive Turn := Add (text : jstr) (i : nat) | Push (n : option Inline) (i : nat).

Section Inline.
Variable parse : jstr -> option (list Inline).

Definition inline_turn (s : jstr) (i : nat) (c : jchar) : Turn :=
  if (c =? backslash) && char_in s (i + 1) escapable then Add (from_option (fun e => [e]) [] (s !! (i + 1)%nat)) (i + 2)
  else
    let n := S (length (take_while (Z.eqb backtick) (drop (i + 1) s))) in
    match (if c =? backtick then index_from (replicate n backtick) s (i + n) else None) with
    | Some e => Push (Some (ICode (code_text (slice s (i + n) e)))) (e + n)
    | None =>
        match (if (c =? 33) && char_is s (i + 1) 91 then re_exec IMAGE (drop i s) else None) with
        | Some m => Add (group 1 m) (i + length (group 0 m))
        | None =>
            match (if c =? 91 then re_exec LINK (drop i s) else None) with
            | Some m => Push ((fun c => ILink c (group 2 m)) <$> parse (group 1 m)) (i + length (group 0 m))
            | None =>
                match open_delim DELIMS s i with
                | Some (d, kind, e) => Push (delim_node kind <$> parse (slice s (i + length d) e)) (e + length d)
                | None => Add [c] (i + 1)
                end
            end
        end
    end.

Fixpoint inline_loop (fuel : nat) (s : jstr) (i : nat) (text : jstr) (out : list Inline) : option (list Inline) :=
  match fuel with
  | O => None
  | S f =>
      match s !! i with
      | None => Some (flush text out)
      | Some c =>
          match inline_turn s i c with
          | Add t i' => inline_loop f s i' (text ++ t) out
          | Push None _ => None
          | Push (Some n) i' => inline_loop f s i' [] (flush text out ++ [n])
          end
      end
  end.
End Inline.

Fixpoint parseInline_fuel (depth : nat) (s : jstr) : option (list Inline) :=
  match depth with
  | O => None
  | S d => inline_loop (parseInline_fuel d) (S (length s)) s 0 [] []
  end.
Definition parseInline (s : jstr) : list Inline := default [] (parseInline_fuel (S (length s)) s).

(** ** Blocks *)

Definition trim_start (s : jstr) : jstr := drop_while is_space s.
(** [blank(l)] of a line that exists. *)
Definition blank (l : jstr) : bool := negb (nonempty (trim l)).
(** [src.replace(/\r\n?/g, '\n')]. *)
Fixpoint unix_newlines (s : jstr) : jstr :=
  match s with
  | [] => []
  | c :: r =>
      if c =? 13 then newline :: match r with d :: r' => if d =? 10 then unix_newlines r' else unix_newlines r | [] => [] end
      else c :: unix_newlines r
  end.

(** [.split(/(?<!\\)\|/)]: at every bar that does not follow a backslash. *)
Fixpoint split_cells (prev : option jchar) (s : jstr) : list jstr :=
  match s with
  | [] => [[]]
  | c :: r =>
      if (c =? pipe) && negb (bool_decide (prev = Some backslash)) then [] :: split_cells (Some c) r
      else match split_cells (Some c) r with [] => [[c]] | w :: ws => (c :: w) :: ws end
  end.
Definition strip_front (c : jchar) (s : jstr) : jstr := if starts_with [c] s then drop 1 s else s.
Definition strip_back (c : jchar) (s : jstr) : jstr := if ends_with [c] s then take (length s - 1) s else s.
Definition cells (line : jstr) : list (list Inline) :=
  (fun c => parseInline (trim c)) <$> split_cells None (strip_back pipe (strip_front pipe (trim line))).

(** The inner loops: what they collect and the lines they leave. *)
Fixpoint fence_body (f : jstr) (ls : list jstr) : list jstr * list jstr :=
  match ls with
  | [] => ([], [])
  | l :: r => if starts_with f (trim_start l) then ([], ls)
              else let '(b, rest) := fence_body f r in (l :: b, rest)
  end.
Definition unindent (l : jstr) : jstr := match re_exec INDENT l with Some m => drop (length (group 0 m)) l | None => l end.
Fixpoint indented_body (ls : list jstr) : list jstr * list jstr :=
  match ls with
  | [] => ([], [])
  | l :: r => if re_test INDENT l || (blank l && re_test INDENT (default [] (head r)))
              then let '(b, rest) := indented_body r in (unindent l :: b, rest)
              else ([], ls)
  end.
Fixpoint quote_body (ls : list jstr) : list jstr * list jstr :=
  match ls with
  | [] => ([], [])
  | l :: r => match (if blank l then None else re_exec QUOTE l) with
              | Some m => let '(b, rest) := quote_body r in (group 1 m :: b, rest)
              | None => ([], ls)
              end
  end.
(** [items[items.length - 1] += w]. *)
Fixpoint add_to_last (w : jstr) (items : list jstr) : list jstr :=
  match items with [] => [] | [x] => [x ++ w] | x :: r => x :: add_to_last w r end.
Fixpoint list_items (ordered : bool) (ls : list jstr) (items : list jstr) : list jstr * list jstr :=
  match ls with
  | [] => (items, [])
  | l :: r => match re_exec (if ordered then ORDERED else BULLET) l with
              | Some m => list_items ordered r (items ++ [group (if ordered then 2 else 1) m])
              | None =>
                  if negb (blank l) && re_test CONTINUED l && negb (bool_decide (items = []))
                  then list_items ordered r (add_to_last (space :: trim l) items)
                  else (items, ls)
              end
  end.
Fixpoint table_rows (ls : list jstr) : list jstr * list jstr :=
  match ls with
  | [] => ([], [])
  | l :: r => if negb (blank l) && includes_char pipe l
              then let '(b, rest) := table_rows r in (l :: b, rest)
              else ([], ls)
  end.
Definition ends_para (l : jstr) : bool :=
  blank l || re_test HEADING l || re_test FENCE l || re_test HR l || re_test QUOTE l || re_test BULLET l.
(** The lines of a paragraph after its first, and the level of the heading an underline makes of it. *)
Fixpoint para_lines (ls : list jstr) : list jstr * option nat * list jstr :=
  match ls with
  | [] => ([], None, [])
  | l :: r => if ends_para l then ([], None, ls)
              else if re_test SETEXT l then ([], Some (if char_is (trim l) 0 61 then 1%nat else 2%nat), r)
              else let '(b, h, rest) := para_lines r in (trim l :: b, h, rest)
  end.
(** The check box of a task item. *)
Definition task_item (s : jstr) : jstr :=
  match re_exec TASK s with
  | Some m => (if bool_decide (group 1 m = [space]) then 9744 else 9745) :: space :: drop (length (group 0 m)) s
  | None => s
  end.

(** The end of a turn, which needs no recursion: a list, a table or a paragraph. *)
Definition text_turn (line : jstr) (rest : list jstr) : list Block * list jstr :=
  let b := re_exec BULLET line in
  let o := re_exec ORDERED line in
  if bool_decide (is_Some b) || bool_decide (is_Some o) then
    let ordered := negb (bool_decide (is_Some b)) in
    let '(items, r) := list_items ordered (line :: rest) [] in
    let start := match o with Some m => nat_of_digits (group 1 m) | None => 1 end in
    ([BList ordered start ((fun s => parseInline (task_item s)) <$> items)], r)
  else
    let next := default [] (head rest) in
    if includes_char pipe line && re_test TABLE_SEP next && includes_char 45 next then
      let '(rows, r) := table_rows (drop 1 rest) in
      ([BTable (cells line) (cells <$> rows)], r)
    else
      let '(more, h, r) := para_lines rest in
      let c := parseInline (join [space] (trim line :: more)) in
      ([match h with Some level => BHeading level c | None => BPara c end], r).

Section Block.
Variable parse : jstr -> option (list Block).

(** One turn of the loop of [parseMarkdown] at a line: the blocks it pushes and the lines left. *)
Definition block_turn (line : jstr) (rest : list jstr) : option (list Block * list jstr) :=
  let lines := line :: rest in
  if blank line then Some ([], rest)
  else match re_exec FENCE line with
  | Some m => let '(body, r) := fence_body (group 1 m) rest in
              Some ([BCode (group 2 m) (join [newline] body)], drop 1 r)
  | None =>
  match re_exec HEADING line with
  | Some m => Some ([BHeading (length (group 1 m)) (parseInline (group 2 m))], rest)
  | None =>
  if re_test HR line then Some ([BHr], rest)
  else if re_test INDENT line then
    let '(body, r) := indented_body lines in Some ([BCode [] (join [newline] body)], r)
  else if re_test QUOTE line then
    let '(body, r) := quote_body lines in
    (fun c => ([BQuote c], r)) <$> parse (join [newline] body)
  else Some (text_turn line rest)
  end
  end.

Fixpoint md_loop (fuel : nat) (lines : list jstr) (blocks : list Block) : option (list Block) :=
  match fuel with
  | O => None
  | S f =>
      match lines with
      | [] => Some blocks
      | line :: rest =>
          match block_turn line rest with
          | None => None
          | Some (bs, rest') => md_loop f rest' (blocks ++ bs)
          end
      end
  end.
End Block.

Definition md_lines (src : jstr) : list jstr := split_on (Z.eqb newline) (unix_newlines src).
Fixpoint parseMarkdown_fuel (depth : nat) (src : jstr) : option (list Block) :=
  match depth with
  | O => None
  | S d => md_loop (parseMarkdown_fuel d) (S (length (md_lines src))) (md_lines src) []
  end.
Definition parseMarkdown (src : jstr) : list Block := default [] (parseMarkdown_fuel (S (length src)) src).

(** ** What the patterns capture *)

Ltac open_seq := repeat match goal with H : Matches (Rseq _ _) _ _ |- _ => destruct H as (? & ? & ?) end.

Lemma group_of n m (y : mstate) : n <> 0%nat -> (forall n, n <> 0%nat -> map_get n m = map_get n y.2) -> group n m = group n y.2.
Proof. intros Hn H. unfold group. by rewrite H. Qed.
Lemma group_kept n r x y : List.existsb (Nat.eqb n) (groups r) = false -> Matches r x y -> group n y.2 = group n x.2.
Proof.
  intros Hn H. unfold group. rewrite (Matches_frame n r x y); [done| |done]. apply existsb_false_forall in Hn.
  rewrite Forall_forall in Hn. intros Hin%Hn. by rewrite Nat.eqb_refl in Hin.
Qed.
Lemma group_captured n r x y : Matches (Rgroup n r) x y ->
  x.1 = group n y.2 ++ y.1 /\ exists z, Matches r x z /\ z.1 = y.1.
Proof. intros (w & z & E & G & H & Ez)%Matches_group. unfold group. rewrite G. eauto. Qed.

(** A class of characters, quantified, matches a run of them. *)
Lemma Matches_class g p lo hi x y : Matches (Rrep g lo hi (Rchar p)) x y ->
  exists w, x.1 = w ++ y.1 /\ Forall (fun c => p c = true) w /\ (lo <= length w)%nat
            /\ match hi with Some h => (length w <= h)%nat | None => True end.
Proof. intros (w & E & Hw & Hlo & Hhi & _)%Reps_chars. eauto. Qed.
Lemma captured_class n g p lo hi x y : Matches (Rgroup n (Rrep g lo hi (Rchar p))) x y ->
  x.1 = group n y.2 ++ y.1 /\ Forall (fun c => p c = true) (group n y.2) /\ (lo <= length (group n y.2))%nat
  /\ match hi with Some h => (length (group n y.2) <= h)%nat | None => True end.
Proof.
  intros (E & z & (w & Ew & Hw & Hlo & Hhi)%Matches_class & Ez)%group_captured. rewrite Ez, E in Ew.
  apply app_inv_tail in Ew as <-. done.
Qed.

(** Read a group of the whole match at the sub-pattern that captured it. *)
Ltac at_capture :=
  repeat match goal with
         | G : forall n, n <> 0%nat -> map_get n ?m = _ |- context [group (S ?n) ?m] => rewrite (group_of (S n) m _ (Nat.neq_succ_0 n) G)
         end;
  repeat match goal with
         | H : Matches ?r ?x ?y |- context [group ?n (snd ?y)] => rewrite (group_kept n r x y (eq_refl : List.existsb (Nat.eqb n) (groups r) = false) H)
         end.

Lemma LINK_shape s m : re_exec LINK s = Some m ->
  exists t rest, s = group 0 m ++ rest /\ group 0 m = [91] ++ group 1 m ++ js "](" ++ group 2 m ++ t
               /\ Forall (fun c => href_char c = true) (group 2 m).
Proof.
  intros (y & H & E0 & G)%re_exec_whole; [|done]. unfold LINK in H. open_seq. at_capture.
  pose proof (Matches_ch _ _ _ H) as E1. pose proof (Matches_lit _ _ _ H1) as E3.
  pose proof (group_captured _ _ _ _ H0) as (E2 & _). pose proof (captured_class _ _ _ _ _ _ _ H2) as (E4 & Hh & _).
  pose proof (Matches_prefix _ _ _ H3) as (t & E5). pose proof (Matches_ch _ _ _ H4) as E6.
  cbn in E1. exists (t ++ [41]), y.1. split; [done|]. split; [|done].
  apply (app_inv_tail y.1). rewrite <- E0, E1, E2, E3, E4, E5, E6. by rewrite <- ?(assoc_L (++)).
Qed.
Lemma IMAGE_shape s m : re_exec IMAGE s = Some m -> exists t, group 0 m = js "![" ++ t.
Proof.
  intros (y & H & E0 & _)%re_exec_whole; [|done]. unfold IMAGE in H. destruct H as (x & H1%Matches_lit & H2).
  destruct (Matches_prefix _ _ _ H2) as (w & E). exists w. apply (app_inv_tail y.1). cbn in H1.
  by rewrite <- E0, H1, E, <- (assoc_L (++)).
Qed.
Lemma HEADING_level s m : re_exec HEADING s = Some m -> (1 <= length (group 1 m) <= 6)%nat.
Proof.
  intros (y & H & _ & G)%re_exec_whole; [|done]. unfold HEADING in H. open_seq. at_capture.
  by apply captured_class in H0 as (_ & _ & ? & ?).
Qed.
Lemma ORDERED_number s m : re_exec ORDERED s = Some m ->
  Forall (fun c => is_digit c = true) (group 1 m) /\ (1 <= length (group 1 m) <= 9)%nat.
Proof.
  intros (y & H & _ & G)%re_exec_whole; [|done]. unfold ORDERED in H. open_seq. at_capture.
  by apply captured_class in H0 as (_ & ? & ? & ?).
Qed.
Lemma QUOTE_shorter s m : re_exec QUOTE s = Some m -> (length (group 1 m) < length s)%nat.
Proof.
  intros (y & H & _ & G)%re_exec_whole; [|done]. unfold QUOTE in H. open_seq. at_capture.
  apply Matches_ch in H0. apply group_captured in H2 as (E & _). apply Matches_shrinks in H, H1.
  rewrite H0, E in *. cbn in *. rewrite ?length_app in *. cbn in *. lia.
Qed.

(** ** The inline parser terminates *)

Lemma findClose_bound fuel s d j e : findClose_loop fuel s d j = Some e -> (e + length d <= length s)%nat.
Proof.
  revert j; induction fuel as [|f IH]; intros j; cbn [findClose_loop]; [done|].
  repeat case_match; breflect; intros; simplify_eq; eauto; lia.
Qed.
Lemma open_delim_bounds ds s i d k e : Forall (fun p => p.1 <> []) ds -> open_delim ds s i = Some (d, k, e) ->
  (0 < length d)%nat /\ (i + length d < e)%nat /\ (e + length d <= length s)%nat.
Proof.
  induction 1 as [|[d' k'] ds Hd _ IH]; cbn [open_delim]; [done|].
  repeat case_match; try done. intros [= -> -> ->]. breflect. apply findClose_bound in H1.
  destruct d; [done|]. cbn in *. lia.
Qed.
Lemma DELIMS_nonempty : Forall (fun p => p.1 <> []) DELIMS.
Proof. repeat constructor; done. Qed.
Lemma index_from_bound p s k e : index_from p s k = Some e -> (k <= e)%nat.
Proof. unfold index_from. intros (j & _ & ->)%fmap_Some. lia. Qed.
Lemma slice_shorter s a b : (b <= length s)%nat -> (0 < a)%nat -> (0 < length s)%nat -> (length (slice s a b) < length s)%nat.
Proof. intros. unfold slice. rewrite length_take, length_drop. lia. Qed.
Lemma infix_length u s : infix u s -> (length u <= length s)%nat.
Proof. intros (a & b & ->). rewrite !length_app. lia. Qed.

Lemma slice_infix s a b : infix (slice s a b) s.
Proof.
  exists (take a s), (drop (b - a) (drop a s)). unfold slice. by rewrite take_drop, take_drop.
Qed.
Lemma drop_infix n s : infix (drop n s) s.
Proof. exists (take n s), []. by rewrite app_nil_r, take_drop. Qed.
Lemma take_infix n s : infix (take n s) s.
Proof. exists [], (drop n s). by rewrite app_nil_l, take_drop. Qed.

(** The text and the address of a link are parts of the text; the link is not empty. *)
Lemma link_parts s i m : re_exec LINK (drop i s) = Some m ->
  (length (group 1 m) < length s)%nat /\ infix (group 1 m) s /\ infix (40 :: group 2 m) s
  /\ Forall (fun c => href_char c = true) (group 2 m) /\ (0 < length (group 0 m))%nat.
Proof.
  intros (t & rest & E & F & H)%LINK_shape. change (js "](") with [93; 40] in F.
  pose proof (f_equal length E) as L. rewrite F in E. rewrite F, length_drop, !length_app in L. rewrite F, !length_app. cbn in L |- *.
  split; [lia|]. split; [|split; [|split; [done|lia]]]; (eapply infix_trans; [|apply (drop_infix i)]); rewrite E.
  - exists [91], ([93; 40] ++ group 2 m ++ t ++ rest). by rewrite <- ?(assoc_L (++)).
  - exists ([91] ++ group 1 m ++ [93]), (t ++ rest). by rewrite <- ?(assoc_L (++)).
Qed.
(** The facts a turn's branch was taken on. *)
Ltac turn_facts :=
  repeat case_match; simplify_eq; try done;
  repeat match goal with
         | H : re_exec IMAGE _ = Some _ |- _ => apply IMAGE_shape in H as (? & ?)
         | H : re_exec LINK _ = Some _ |- _ => apply link_parts in H as (? & ? & ? & ? & ?)
         | H : index_from _ _ _ = Some _ |- _ => apply index_from_bound in H
         | H : open_delim _ _ _ = Some _ |- _ => apply open_delim_bounds in H as (? & ? & ?); [|apply DELIMS_nonempty]
         end.

(** A turn calls the parser on shorter texts only, and moves on. *)
Lemma turn_local parse parse' s i c : s !! i = Some c -> (forall t, (length t < length s)%nat -> parse t = parse' t) ->
  inline_turn parse s i c = inline_turn parse' s i c.
Proof.
  intros Hi Heq. apply lookup_lt_Some in Hi. unfold inline_turn. turn_facts.
  all: rewrite Heq; [done|]; first [done | apply slice_shorter; lia].
Qed.
Lemma turn_moves parse s i c : match inline_turn parse s i c with Add _ i' | Push _ i' => (i < i')%nat end.
Proof.
  unfold inline_turn. turn_facts; try lia.
  all: match goal with H : group 0 _ = _ |- _ => rewrite H, length_app; change (length (js "![")) with 2%nat; cbn [length app]; lia end.
Qed.

Lemma loop_local parse parse' fuel s i text out : (forall t, (length t < length s)%nat -> parse t = parse' t) ->
  inline_loop parse fuel s i text out = inline_loop parse' fuel s i text out.
Proof.
  intros Heq. revert i text out. induction fuel as [|f IH]; intros i text out; cbn [inline_loop]; [done|].
  destruct (s !! i) eqn:Hi; [|done]. rewrite (turn_local parse parse') by done.
  destruct (inline_turn parse' s i z) as [t i'|[n|] i']; auto.
Qed.
Lemma turn_pushes parse s i c : (forall t, is_Some (parse t)) -> match inline_turn parse s i c with Push None _ => False | _ => True end.
Proof.
  intros Hp. unfold inline_turn.
  repeat case_match; try done; simplify_eq;
    match goal with H : _ <$> parse ?t = None |- _ => apply fmap_None in H; by destruct (Hp t) as [? E]; rewrite E in H end.
Qed.
Lemma loop_total parse fuel s i text out : (forall t, is_Some (parse t)) -> (length s - i < fuel)%nat ->
  is_Some (inline_loop parse fuel s i text out).
Proof.
  intros Hp. revert i text out. induction fuel as [|f IH]; intros i text out Hf; [lia|]. cbn [inline_loop].
  destruct (s !! i) as [c|] eqn:Hi; [|eauto]. apply lookup_lt_Some in Hi.
  pose proof (turn_moves parse s i c) as Hm. pose proof (turn_pushes parse s i c Hp) as Hn.
  destruct (inline_turn parse s i c) as [t i'|[n|] i']; [| |done]; apply IH; lia.
Qed.
Definition parse_inl (t : jstr) : option (list Inline) := Some (parseInline t).
(** [parseInline] satisfies the equation of its source: a loop that calls [parseInline]. *)
Lemma inline_fuel_any d s : (length s < d)%nat -> parseInline_fuel d s = inline_loop parse_inl (S (length s)) s 0 [] [].
Proof.
  revert s. induction d as [d IH] using lt_wf_ind. intros s Hd. destruct d as [|d]; [lia|]. cbn [parseInline_fuel].
  apply loop_local. intros t Ht. unfold parse_inl, parseInline.
  rewrite (IH d ltac:(lia) t ltac:(lia)), (IH (S (length t)) ltac:(lia) t ltac:(lia)).
  destruct (loop_total parse_inl (S (length t)) t 0 [] []) as [r ->]; [by eexists | lia | done].
Qed.
Lemma parseInline_eq s : inline_loop parse_inl (S (length s)) s 0 [] [] = Some (parseInline s).
Proof.
  unfold parseInline. rewrite inline_fuel_any by lia.
  destruct (loop_total parse_inl (S (length s)) s 0 [] []) as [r ->]; [by eexists | lia | done].
Qed.

(** ** Reasoning about a run of the inline parser *)

Lemma loop_ind s (I : jstr -> list Inline -> Prop) fuel i text out r :
  (forall i c text out t i', s !! i = Some c -> inline_turn parse_inl s i c = Add t i' -> I text out -> I (text ++ t) out) ->
  (forall i c text out n i', s !! i = Some c -> inline_turn parse_inl s i c = Push (Some n) i' -> I text out -> I [] (flush text out ++ [n])) ->
  I text out -> inline_loop parse_inl fuel s i text out = Some r -> exists text out, I text out /\ r = flush text out.
Proof.
  intros HA HP. revert i text out. induction fuel as [|f IH]; intros i text out HI; cbn [inline_loop]; [done|].
  destruct (s !! i) as [c|] eqn:Hi; [|intros [= <-]; eauto].
  destruct (inline_turn parse_inl s i c) as [t i'|[n|] i'] eqn:Et; [| |done]; intros E; (eapply IH; [|exact E]); eauto.
Qed.
(** A fact of what was collected so far, kept by every turn, holds at the end. *)
Lemma inline_ind s (I : jstr -> list Inline -> Prop) :
  I [] [] ->
  (forall i c text out t i', s !! i = Some c -> inline_turn parse_inl s i c = Add t i' -> I text out -> I (text ++ t) out) ->
  (forall i c text out n i', s !! i = Some c -> inline_turn parse_inl s i c = Push (Some n) i' -> I text out -> I [] (flush text out ++ [n])) ->
  exists text out, I text out /\ parseInline s = flush text out.
Proof. intros H0 HA HP. eapply loop_ind; [exact HA | exact HP | exact H0 | apply parseInline_eq]. Qed.

(** A node is a code span, or holds the parse of a shorter part of the text. *)
Lemma pushed_node s i c n i' : s !! i = Some c -> inline_turn parse_inl s i c = Push (Some n) i' ->
  (exists v, n = ICode v)
  \/ (exists t h, n = ILink (parseInline t) h /\ (length t < length s)%nat /\ infix t s /\ infix (40 :: h) s
                  /\ Forall (fun c => href_char c = true) h)
  \/ (exists k t, n = delim_node k (parseInline t) /\ (length t < length s)%nat /\ infix t s).
Proof.
  intros Hi%lookup_lt_Some. unfold inline_turn, parse_inl. turn_facts; intros [= <- <-]; try (left; by eexists); right.
  all: first [left; do 2 eexists; split; [done|]; done | right; do 2 eexists; split; [done|]; split; [apply slice_shorter; lia | apply slice_infix]].
Qed.

(** ** Well-formed documents *)

Definition is_text (n : Inline) : bool := match n with IText _ => true | _ => false end.
(** No two texts in a row. *)
Fixpoint spaced (l : list Inline) : bool :=
  match l with
  | a :: (b :: _) as r => negb (is_text a && is_text b) && spaced r
  | _ => true
  end.
(** Texts are not empty and not split, link addresses are free of spaces and parentheses. *)
Fixpoint inline_wf (n : Inline) : bool :=
  match n with
  | IText v => nonempty v
  | ICode _ => true
  | IStrong c | IEm c | IDel c => List.forallb inline_wf c && spaced c
  | ILink c h => List.forallb inline_wf c && spaced c && List.forallb href_char h
  end.
Definition inlines_wf (l : list Inline) : bool := List.forallb inline_wf l && spaced l.
(** Heading levels are those of HTML, a list has items, a numbered one starts at a number
    of at most nine digits and a bulleted one at [1], a table row has cells. *)
Fixpoint block_wf (b : Block) : bool :=
  match b with
  | BHeading level c => (1 <=? level)%nat && (level <=? 6)%nat && inlines_wf c
  | BPara c => inlines_wf c
  | BCode _ _ | BHr => true
  | BList ordered start items =>
      negb (bool_decide (length items = 0%nat)) && List.forallb inlines_wf items
      && (0 <=? start) && (start <? 1000000000) && (ordered || (start =? 1))
  | BQuote c => List.forallb block_wf c
  | BTable head rows => List.forallb (fun r => negb (bool_decide (length r = 0%nat)) && List.forallb inlines_wf r) (head :: rows)
  end.

(** The addresses of the links of a document. *)
Fixpoint hrefs (n : Inline) : list jstr :=
  match n with
  | IText _ | ICode _ => []
  | IStrong c | IEm c | IDel c => List.flat_map hrefs c
  | ILink c h => h :: List.flat_map hrefs c
  end.
Fixpoint block_hrefs (b : Block) : list jstr :=
  match b with
  | BHeading _ c | BPara c => List.flat_map hrefs c
  | BCode _ _ | BHr => []
  | BList _ _ items => List.flat_map (List.flat_map hrefs) items
  | BQuote c => List.flat_map block_hrefs c
  | BTable head rows => List.flat_map (List.flat_map (List.flat_map hrefs)) (head :: rows)
  end.

Definition ends_in_text (l : list Inline) : bool := from_option is_text false (last l).
Lemma spaced_snoc l n : spaced (l ++ [n]) = spaced l && negb (ends_in_text l && is_text n).
Proof.
  induction l as [|a l IH]; [done|]. destruct l as [|b l]; [cbn; by rewrite andb_true_r|].
  change (spaced ((a :: b :: l) ++ [n])) with (negb (is_text a && is_text b) && spaced ((b :: l) ++ [n])).
  rewrite IH. change (ends_in_text (a :: b :: l)) with (ends_in_text (b :: l)). cbn [spaced]. by rewrite andb_assoc.
Qed.
Lemma flush_wf text out : inlines_wf out = true -> ends_in_text out = false -> inlines_wf (flush text out) = true.
Proof.
  unfold inlines_wf. intros [H1 H2]%andb_true_iff E. destruct text as [|c t]; cbn [flush]; [by rewrite H1, H2|].
  rewrite List.forallb_app, spaced_snoc, E. cbn. by rewrite H1, H2.
Qed.
Lemma push_wf text out n : inlines_wf out = true -> ends_in_text out = false -> inline_wf n = true -> is_text n = false ->
  inlines_wf (flush text out ++ [n]) = true /\ ends_in_text (flush text out ++ [n]) = false.
Proof.
  intros H E Hn Ht. pose proof (flush_wf text out H E) as Hf. unfold inlines_wf in *. apply andb_true_iff in Hf as [H2 H3].
  rewrite List.forallb_app, spaced_snoc, Ht, andb_false_r. unfold ends_in_text. rewrite last_snoc. cbn. by rewrite H2, Hn, H3.
Qed.
Lemma delim_wf k c : inlines_wf c = true -> inline_wf (delim_node k c) = true /\ is_text (delim_node k c) = false.
Proof. by destruct k. Qed.
Lemma parseInline_wf s : inlines_wf (parseInline s) = true.
Proof.
  induction s as [s IH] using (induction_ltof1 _ length). unfold ltof in IH.
  destruct (inline_ind s (fun _ out => inlines_wf out = true /\ ends_in_text out = false)) as (text & out & (H & E) & ->);
    [done | done | | by apply flush_wf].
  intros i c text out n i' Hi Ht (H & E).
  assert (Hn : inline_wf n = true /\ is_text n = false).
  { destruct (pushed_node _ _ _ _ _ Hi Ht) as [(v & ->)|[(t & h & -> & L & _ & _ & Hh)|(k & t & -> & L & _)]]; [done| |by apply delim_wf, IH].
    split; [|done]. change (inlines_wf (parseInline t) && List.forallb href_char h = true). rewrite IH by done.
    by apply forallb_forall_true. }
  destruct Hn. by apply push_wf.
Qed.

Lemma flat_map_flush (f : Inline -> list jstr) text out : (forall v, f (IText v) = []) -> List.flat_map f (flush text out) = List.flat_map f out.
Proof. intros Hf. destruct text; cbn [flush]; [done|]. rewrite List.flat_map_app. cbn. by rewrite Hf, !app_nil_r. Qed.
(** The inline parser takes every address from the text. *)
Lemma inline_hrefs s h : h ∈ List.flat_map hrefs (parseInline s) -> infix (40 :: h) s /\ Forall (fun c => href_char c = true) h.
Proof.
  revert h. induction s as [s IH] using (induction_ltof1 _ length). unfold ltof in IH.
  destruct (inline_ind s (fun _ out => forall h, h ∈ List.flat_map hrefs out -> infix (40 :: h) s /\ Forall (fun c => href_char c = true) h))
    as (text & out & H & ->); [intros h ?%not_elem_of_nil; done | done | | by rewrite flat_map_flush].
  intros i c text out n i' Hi Ht H h. rewrite List.flat_map_app, flat_map_flush by done. cbn. rewrite app_nil_r.
  intros [Hh|Hh]%elem_of_app; [by apply H|].
  destruct (pushed_node _ _ _ _ _ Hi Ht) as [(v & ->)|[(t & h' & -> & L & Hin & Hx & Hc)|(k & t & -> & L & Hin)]].
  - by apply not_elem_of_nil in Hh.
  - cbn in Hh. apply elem_of_cons in Hh as [->|Hh]; [done|]. apply IH in Hh as [? ?]; [|done]. split; [|done]. by eapply infix_trans.
  - assert (Hh' : h ∈ List.flat_map hrefs (parseInline t)) by (by destruct k).
    apply IH in Hh' as [? ?]; [|done]. split; [|done]. by eapply infix_trans.
Qed.

(** ** What a turn of the block parser yields *)

(** The room lines take, with their line ends. *)
Fixpoint room (ls : list jstr) : nat := match ls with [] => 0 | l :: r => S (length l) + room r end%nat.
(** Every space-free text after a parenthesis in [t] is in one of the lines. *)
Definition drawn (ls : list jstr) (t : jstr) : Prop :=
  forall w, Forall (fun c => is_space c = false) w -> infix (40 :: w) t -> exists l, l ∈ ls /\ infix (40 :: w) l.

Inductive BlockFrom (parse : jstr -> option (list Block)) (ls : list jstr) : Block -> Prop :=
| FromHeading level t : (1 <= level <= 6)%nat -> drawn ls t -> BlockFrom parse ls (BHeading level (parseInline t))
| FromPara t : drawn ls t -> BlockFrom parse ls (BPara (parseInline t))
| FromCode lang v : BlockFrom parse ls (BCode lang v)
| FromHr : BlockFrom parse ls BHr
| FromList ordered start ts : ts <> [] -> 0 <= start < 1000000000 -> (ordered = false -> start = 1) -> Forall (drawn ls) ts ->
    BlockFrom parse ls (BList ordered start (parseInline <$> ts))
| FromQuote body c : Forall (fun t => exists l, l ∈ ls /\ infix t l) body -> (room body < room ls)%nat ->
    parse (join [newline] body) = Some c -> BlockFrom parse ls (BQuote c)
| FromTable hd tl : Forall (fun ts => ts <> [] /\ Forall (drawn ls) ts) (hd :: tl) ->
    BlockFrom parse ls (BTable (parseInline <$> hd) ((fun ts : list jstr => (parseInline <$> ts : list (list Inline))) <$> tl)).

Lemma room_suffix a b : a `suffix_of` b -> (room a <= room b)%nat.
Proof. intros (k & ->). induction k as [|l k IH]; cbn in *; lia. Qed.
Lemma elem_room l ls : l ∈ ls -> (length l < room ls)%nat.
Proof. induction 1; cbn in *; lia. Qed.

(** A part without the separator lies on one side of it. *)
Lemma infix_split (c : Z) w a b : c ∉ w -> infix w (a ++ c :: b) -> infix w a \/ infix w b.
Proof.
  intros Hc (x & y & E). destruct (decide (length (x ++ w) <= length a)%nat) as [L|L].
  - left. exists x. apply (f_equal (take (length a))) in E. rewrite take_app_length, (assoc_L (++)) in E.
    rewrite (take_app_ge (x ++ w)) in E by done. exists (take (length a - length (x ++ w)) y). by rewrite (assoc_L (++)).
  - destruct (decide (length a < length x)%nat) as [L2|L2].
    + right. apply (f_equal (drop (S (length a)))) in E. rewrite drop_app_ge in E by lia.
      replace (S (length a) - length a)%nat with 1%nat in E by lia. change (drop 1 (c :: b)) with b in E.
      rewrite drop_app_le in E by lia. exists (drop (S (length a)) x), y. done.
    + exfalso. apply (f_equal (fun l => l !! length a)) in E. rewrite list_lookup_middle in E by done.
      rewrite lookup_app_r, lookup_app_l in E by (rewrite length_app in L; lia). apply Hc, (list_elem_of_lookup_2 _ _ _ (eq_sym E)).
Qed.
Lemma space_free w c : Forall (fun c => is_space c = false) w -> is_space c = true -> c ∉ 40 :: w.
Proof.
  intros Hw Hc [->|Hin]%elem_of_cons; [done|]. rewrite Forall_forall in Hw. apply Hw in Hin. congruence.
Qed.
Lemma drawn_infix ls t l : l ∈ ls -> infix t l -> drawn ls t.
Proof. intros Hl Ht w _ Hw. exists l. split; [done|]. by eapply infix_trans. Qed.
Lemma drawn_part ls t u : infix u t -> drawn ls t -> drawn ls u.
Proof. intros Hu Ht w Hw Hi. apply Ht; [done|]. by eapply infix_trans. Qed.
Lemma drawn_spaced ls a b : drawn ls a -> drawn ls b -> drawn ls (a ++ space :: b).
Proof. intros Ha Hb w Hw [Hi|Hi]%infix_split; [by apply Ha | by apply Hb | by apply space_free]. Qed.
Lemma drawn_join ls ts : Forall (drawn ls) ts -> drawn ls (join [space] ts).
Proof.
  induction 1 as [|t [|t' ts] Ht Hts IH].
  - intros w _ (a & b & E). destruct a; done.
  - done.
  - change (join [space] (t :: t' :: ts)) with (t ++ space :: join [space] (t' :: ts)). by apply drawn_spaced.
Qed.
Lemma drawn_more ls ls' t : (forall l, l ∈ ls -> l ∈ ls') -> drawn ls t -> drawn ls' t.
Proof. intros Hs H w Hw Hi. destruct (H w Hw Hi) as (l & Hl & ?). eauto. Qed.

Lemma drop_while_infix {P} (s : jstr) : infix (drop_while P s) s.
Proof.
  induction s as [|c s IH]; cbn; [apply infix_refl|]. destruct (P c); [|apply infix_refl].
  apply (infix_app_l _ _ [c] IH).
Qed.
Lemma infix_reverse u s : infix u s -> infix (reverse u) (reverse s).
Proof. intros (a & b & ->). exists (reverse b), (reverse a). by rewrite !reverse_app, <- (assoc_L (++)). Qed.
Lemma trim_infix s : infix (trim s) s.
Proof.
  unfold trim, drop_while_end. eapply infix_trans; [|apply (@drop_while_infix is_space)].
  rewrite <- (reverse_involutive (drop_while is_space s)) at 2. apply infix_reverse, drop_while_infix.
Qed.

(** The inner loops leave a suffix of the lines and take their texts from lines. *)
Lemma suffix_self {A} (l : list A) : l `suffix_of` l.
Proof. by exists []. Qed.
#[local] Hint Resolve suffix_self suffix_cons_r : jsstr.
Definition from_line (ls : list jstr) (t : jstr) : Prop := exists l, l ∈ ls /\ infix t l.
Lemma from_line_drawn ls t : from_line ls t -> drawn ls t.
Proof. intros (l & Hl & Ht). by eapply drawn_infix. Qed.
Lemma from_line_cons ls l t : from_line ls t -> from_line (l :: ls) t.
Proof. intros (k & Hk & Ht). exists k. split; [by right | done]. Qed.
Lemma from_line_head ls l t : infix t l -> from_line (l :: ls) t.
Proof. intros Ht. exists l. split; [left | done]. Qed.

Lemma fence_body_suffix f ls : (fence_body f ls).2 `suffix_of` ls.
Proof.
  induction ls as [|l r IH]; cbn; [auto with jsstr|]. destruct (starts_with f (trim_start l)); [auto with jsstr|].
  destruct (fence_body f r). cbn in *. auto with jsstr.
Qed.
Lemma indented_body_suffix ls : (indented_body ls).2 `suffix_of` ls.
Proof.
  induction ls as [|l r IH]; cbn [indented_body]; [auto with jsstr|]. case_match; [|auto with jsstr].
  destruct (indented_body r). cbn in *. auto with jsstr.
Qed.
Lemma quote_body_spec ls : let '(b, r) := quote_body ls in
  r `suffix_of` ls /\ Forall (from_line ls) b /\ (room b + length b <= room ls)%nat.
Proof.
  induction ls as [|l ls IH]; cbn [quote_body]; [cbn; auto with jsstr|].
  destruct (blank l); [repeat split; cbn; auto with jsstr; lia|].
  destruct (re_exec QUOTE l) eqn:E; [|repeat split; cbn; auto with jsstr; lia].
  destruct (quote_body ls) as [b r]. destruct IH as (H1 & H2 & H3). split; [auto with jsstr|]. split.
  - constructor; [apply from_line_head; by apply (re_exec_infix QUOTE)|]. eapply Forall_impl; [exact H2|]. apply from_line_cons.
  - apply QUOTE_shorter in E. cbn in *. lia.
Qed.
Lemma table_rows_spec ls : let '(b, r) := table_rows ls in r `suffix_of` ls /\ Forall (fun l => l ∈ ls) b.
Proof.
  induction ls as [|l ls IH]; cbn [table_rows]; [auto with jsstr|]. destruct (negb (blank l) && includes_char pipe l); [|auto with jsstr].
  destruct (table_rows ls) as [b r]. destruct IH as (H1 & H2). split; [auto with jsstr|].
  constructor; [left|]. eapply Forall_impl; [exact H2|]. intros k Hk. by right.
Qed.
Lemma para_lines_spec ls : let '(b, h, r) := para_lines ls in
  r `suffix_of` ls /\ Forall (from_line ls) b /\ match h with Some n => (1 <= n <= 6)%nat | None => True end.
Proof.
  induction ls as [|l ls IH]; cbn [para_lines]; [auto with jsstr|]. destruct (ends_para l); [by auto with jsstr|].
  destruct (re_test SETEXT l); [split; [auto with jsstr|]; split; [apply Forall_nil_2|]; destruct (char_is (trim l) 0 61); lia|].
  destruct (para_lines ls) as [[b h] r]. destruct IH as (H1 & H2 & H3). split; [auto with jsstr|]. split; [|done].
  constructor; [apply from_line_head, trim_infix|]. eapply Forall_impl; [exact H2|]. apply from_line_cons.
Qed.
Lemma add_to_last_drawn all w items : Forall (drawn all) items -> drawn all w -> Forall (drawn all) (add_to_last (space :: w) items).
Proof.
  intros H Hw. induction H as [|x [|y r] Hx Hr IH]; [apply Forall_nil_2 | |].
  - apply Forall_singleton. by apply drawn_spaced.
  - change (Forall (drawn all) (x :: add_to_last (space :: w) (y :: r))). by constructor.
Qed.
Lemma add_to_last_length w items : length (add_to_last w items) = length items.
Proof. induction items as [|x [|y r] IH]; [done | done |]. change (S (length (add_to_last w (y :: r))) = S (length (y :: r))). by rewrite IH. Qed.
Lemma list_items_spec all o ls items : (forall l, l ∈ ls -> l ∈ all) -> Forall (drawn all) items ->
  let '(its, r) := list_items o ls items in
  r `suffix_of` ls /\ Forall (drawn all) its /\ (length items <= length its)%nat.
Proof.
  revert items; induction ls as [|l ls IH]; intros items Hall Hd; cbn [list_items]; [auto with jsstr|].
  assert (Hl : l ∈ all) by (apply Hall; left). assert (Hall' : forall k, k ∈ ls -> k ∈ all) by (intros k Hk; apply Hall; by right).
  destruct (re_exec (if o then ORDERED else BULLET) l) as [m|] eqn:E.
  - specialize (IH (items ++ [group (if o then 2 else 1) m]) Hall'). destruct (list_items o ls _) as [its r].
    rewrite length_app in IH. destruct IH as (H1 & H2 & H3); [|split; [auto with jsstr|]; split; [done | cbn in H3; lia]].
    apply Forall_app. split; [done|]. apply Forall_singleton, (drawn_infix _ _ l Hl).
    eapply re_exec_infix; [|exact E]. by destruct o.
  - destruct (_ && _ && _); [|by auto with jsstr]. specialize (IH (add_to_last (space :: trim l) items) Hall').
    destruct (list_items o ls _) as [its r]. rewrite add_to_last_length in IH.
    destruct IH as (H1 & H2 & H3); [|split; [auto with jsstr|done]].
    apply add_to_last_drawn; [done|]. apply (drawn_infix _ _ l Hl), trim_infix.
Qed.
Lemma task_item_drawn ls t : drawn ls t -> drawn ls (task_item t).
Proof.
  intros H. unfold task_item. destruct (re_exec TASK t) as [l|]; [|done]. intros w Hw Hi.
  change ((if bool_decide (group 1 l = [space]) then 9744 else 9745) :: space :: drop (length (group 0 l)) t) with
    ([if bool_decide (group 1 l = [space]) then 9744 else 9745] ++ space :: drop (length (group 0 l)) t) in Hi.
  apply infix_split in Hi as [Hi|Hi]; [| |by apply space_free].
  - eapply infix_elem in Hi; [|left]. apply list_elem_of_singleton in Hi. by case_bool_decide.
  - apply H; [done|]. eapply infix_trans; [exact Hi | apply drop_infix].
Qed.

Lemma split_cells_parts prev s : exists w ws, split_cells prev s = w :: ws /\ w `prefix_of` s /\ Forall (fun x => infix x s) ws.
Proof.
  revert prev; induction s as [|c s IH]; intros prev; cbn [split_cells]; [exists [], []; by repeat split|].
  destruct (IH (Some c)) as (w & ws & -> & (t & E) & Hws).
  assert (Hw : infix w (c :: s)) by (exists [c], t; by rewrite E).
  assert (Hws' : Forall (fun x => infix x (c :: s)) ws) by (eapply Forall_impl; [exact Hws|]; intros x Hx; apply (infix_app_l _ _ [c] Hx)).
  destruct (_ && _).
  - exists [], (w :: ws). split; [done|]. split; [apply prefix_nil | by constructor].
  - exists (c :: w), ws. split; [done|]. split; [exists t; by rewrite E | done].
Qed.
Lemma strip_infix c s : infix (strip_back c (strip_front c s)) s.
Proof.
  unfold strip_back, strip_front. eapply infix_trans with (v := if starts_with [c] s then drop 1 s else s).
  - destruct (ends_with _ _); [apply take_infix | apply infix_refl].
  - destruct (starts_with _ _); [apply drop_infix | apply infix_refl].
Qed.
Definition cell_texts (line : jstr) : list jstr := trim <$> split_cells None (strip_back pipe (strip_front pipe (trim line))).
Lemma cells_eq line : cells line = parseInline <$> cell_texts line.
Proof. unfold cells, cell_texts. by rewrite <- list_fmap_compose. Qed.
Lemma cell_texts_drawn ls line : line ∈ ls -> cell_texts line <> [] /\ Forall (drawn ls) (cell_texts line).
Proof.
  intros Hl. unfold cell_texts. set (s := strip_back _ _).
  assert (Hs : infix s line) by (eapply infix_trans; [apply strip_infix | apply trim_infix]).
  destruct (split_cells_parts None s) as (w & ws & -> & (t & E) & Hws). split; [done|].
  apply Forall_fmap. eapply (Forall_impl (fun x => infix x s)).
  - constructor; [exists [], t; by rewrite E | done].
  - intros x Hx. cbn. apply (drawn_infix _ _ line Hl). eapply infix_trans; [apply trim_infix|]. by eapply infix_trans.
Qed.
Lemma digits_bound s : Forall (fun c => is_digit c = true) s -> 0 <= nat_of_digits s < 10 ^ Z.of_nat (length s).
Proof.
  induction s as [|c s IH] using rev_ind; [cbn; lia|]. intros [Hs Hc]%Forall_app. inversion Hc as [|? ? Hd _]; subst.
  specialize (IH Hs). unfold nat_of_digits in *. rewrite fold_left_app, length_app. cbn [fold_left length].
  unfold is_digit in Hd. breflect. rewrite Nat2Z.inj_add, Z.pow_add_r by lia. change (10 ^ Z.of_nat 1) with 10. lia.
Qed.
Lemma ORDERED_start line m : re_exec ORDERED line = Some m -> 0 <= nat_of_digits (group 1 m) < 1000000000.
Proof.
  intros (Hd & _ & L)%ORDERED_number. pose proof (digits_bound _ Hd) as H.
  assert (10 ^ Z.of_nat (length (group 1 m)) <= 10 ^ 9) by (apply Z.pow_le_mono_r; lia). lia.
Qed.

Lemma elem_head {A} (x : A) l : x ∈ x :: l.
Proof. left. Qed.
(** The quoted lines of a turn: shorter than the lines it had, and at least one is used. *)
Lemma quote_turn line rest body r : blank line = false -> re_test QUOTE line = true -> quote_body (line :: rest) = (body, r) ->
  r `suffix_of` rest /\ Forall (from_line (line :: rest)) body /\ (room body < room (line :: rest))%nat /\ body <> [].
Proof.
  intros Hb [m Hm]%re_test_exec E. pose proof (quote_body_spec (line :: rest)) as H. rewrite E in H. destruct H as (_ & H2 & H3).
  cbn [quote_body] in E. rewrite Hb, Hm in E. pose proof (quote_body_spec rest) as H'.
  destruct (quote_body rest) as [b r']. injection E as <- <-. destruct H' as (H1 & _). split; [done|]. split; [done|]. split; [cbn [length] in H3; lia | done].
Qed.
Lemma indented_turn line rest : re_test INDENT line = true -> (indented_body (line :: rest)).2 `suffix_of` rest.
Proof.
  intros H. cbn [indented_body]. rewrite H. cbn [orb]. pose proof (indented_body_suffix rest). by destruct (indented_body rest).
Qed.
Lemma list_turn (o : bool) line rest m items r : re_exec (if o then ORDERED else BULLET) line = Some m -> list_items o (line :: rest) [] = (items, r) ->
  r `suffix_of` rest /\ items <> [] /\ Forall (drawn (line :: rest)) items.
Proof.
  intros Hm E. cbn [list_items] in E. rewrite Hm in E.
  pose proof (list_items_spec (line :: rest) o rest ([] ++ [group (if o then 2 else 1) m])) as H. rewrite E in H.
  destruct H as (H1 & H2 & H3); [by intros; right| |split; [done|]; split; [by destruct items; [cbn in H3; lia|] | done]].
  apply Forall_singleton, (drawn_infix _ _ line (elem_head _ _)). eapply re_exec_infix; [|exact Hm]. by destruct o.
Qed.

Lemma spaces_then x y p : Matches (Rseq spaces03 p) x y ->
  exists z, drop_while (Z.eqb space) x.1 = drop_while (Z.eqb space) z.1 /\ Matches p z y.
Proof.
  intros (z & (w & E & Hw & _)%Matches_class & H). exists z. split; [|done]. rewrite E. clear -Hw.
  induction Hw as [|c w Hc _ IH]; [done|]. cbn [app drop_while]. by rewrite Hc.
Qed.
(** A line cannot start both kinds of list. *)
Lemma bullet_not_ordered line m m' : re_exec BULLET line = Some m -> re_exec ORDERED line = Some m' -> False.
Proof.
  intros (y & (x & E & z & (c & E1 & Hc & _) & _)%spaces_then & _)%re_exec_whole; [|done].
  intros (y' & (x' & E' & z' & (E1' & Hd & L & _)%captured_class & _)%spaces_then & _)%re_exec_whole; [|done].
  cbn in E, E'. rewrite E, E1, E1' in E'. destruct (group 1 z'.2) as [|d g]; [cbn in L; lia|]. inversion Hd; subst.
  cbn [app drop_while] in E'. apply List.existsb_exists in Hc as (k & Hk & ->%Z.eqb_eq).
  assert (Hds : (space =? d) = false) by (apply Z.eqb_neq; by intros <-). rewrite Hds in E'.
  change (js "-*+") with [45; 42; 43] in Hk.
  destruct Hk as [<-|[<-|[<-|[]]]]; cbn in E'; injection E' as <- _; done.
Qed.
Lemma text_turn_from parse line rest : let '(bs, r) := text_turn line rest in
  r `suffix_of` rest /\ Forall (BlockFrom parse (line :: rest)) bs.
Proof.
  unfold text_turn. destruct (bool_decide (is_Some (re_exec BULLET line)) || bool_decide (is_Some (re_exec ORDERED line))) eqn:Hl.
  - destruct (list_items _ (line :: rest) []) as [items r] eqn:E.
    assert (Hm : exists m, re_exec (if negb (bool_decide (is_Some (re_exec BULLET line))) then ORDERED else BULLET) line = Some m).
    { case_bool_decide as HB; cbn [negb] in *; [by destruct HB as [m ?]; exists m|]. cbn in Hl. by apply bool_decide_eq_true in Hl as [m ?]; exists m. }
    destruct Hm as (m & Hm). destruct (list_turn _ _ _ _ _ _ Hm E) as (H1 & H2 & H3). split; [done|]. apply Forall_singleton.
    rewrite (list_fmap_compose task_item parseInline). apply FromList.
    + by destruct items.
    + destruct (re_exec ORDERED line) eqn:Ho; [by eapply ORDERED_start | lia].
    + intros HB%negb_false_iff%bool_decide_eq_true. destruct HB as [b HB]. destruct (re_exec ORDERED line) eqn:Ho; [|done].
      by destruct (bullet_not_ordered _ _ _ HB Ho).
    + apply Forall_fmap. eapply Forall_impl; [exact H3|]. intros t Ht. by apply task_item_drawn.
  - destruct (_ && _ && _) eqn:Hs.
    + pose proof (table_rows_spec (drop 1 rest)) as H. destruct (table_rows (drop 1 rest)) as [rows r]. destruct H as (H1 & H2).
      split; [etrans; [exact H1|]; exists (take 1 rest); by rewrite take_drop|]. apply Forall_singleton.
      rewrite cells_eq. replace (cells <$> rows) with ((fun ts : list jstr => (parseInline <$> ts : list (list Inline))) <$> (cell_texts <$> rows))
        by (rewrite <- list_fmap_compose; apply list_fmap_ext; intros; symmetry; apply cells_eq).
      apply FromTable. constructor; [apply cell_texts_drawn, elem_head|]. apply Forall_fmap.
      eapply Forall_impl; [exact H2|]. intros l Hl'. apply cell_texts_drawn. right. rewrite <- (take_drop 1 rest). apply elem_of_app. by right.
    + pose proof (para_lines_spec rest) as H. destruct (para_lines rest) as [[more h] r]. destruct H as (H1 & H2 & H3). split; [done|].
      assert (Hd : drawn (line :: rest) (join [space] (trim line :: more))).
      { apply drawn_join. constructor; [apply from_line_drawn, from_line_head, trim_infix|].
        eapply Forall_impl; [exact H2|]. intros t Ht. by apply from_line_drawn, from_line_cons. }
      apply Forall_singleton. destruct h; by constructor.
Qed.
Lemma block_turn_from parse line rest bs r : block_turn parse line rest = Some (bs, r) ->
  r `suffix_of` rest /\ Forall (BlockFrom parse (line :: rest)) bs.
Proof.
  unfold block_turn. destruct (blank line) eqn:Hb; [intros [= <- <-]; auto with jsstr|].
  destruct (re_exec FENCE line) as [m|].
  { destruct (fence_body (group 1 m) rest) as [b r'] eqn:E. intros [= <- <-]. pose proof (fence_body_suffix (group 1 m) rest) as H.
    rewrite E in H. split; [|repeat constructor]. etrans; [|exact H]. exists (take 1 r'). by rewrite take_drop. }
  destruct (re_exec HEADING line) as [m|] eqn:Hh.
  { intros [= <- <-]. split; [auto with jsstr|]. apply Forall_singleton. constructor; [by eapply HEADING_level|].
    apply (drawn_infix _ _ line (elem_head _ _)). by apply (re_exec_infix HEADING). }
  destruct (re_test HR line); [intros [= <- <-]; split; [auto with jsstr | repeat constructor]|].
  destruct (re_test INDENT line) eqn:Hi.
  { pose proof (indented_turn line rest Hi) as H. destruct (indented_body (line :: rest)). intros [= <- <-]. split; [done | repeat constructor]. }
  destruct (re_test QUOTE line) eqn:Hq.
  { destruct (quote_body (line :: rest)) as [body r'] eqn:E. intros (c & Hc & [= -> ->])%fmap_Some.
    destruct (quote_turn _ _ _ _ Hb Hq E) as (H1 & H2 & H3 & _). split; [done|]. apply Forall_singleton. by econstructor. }
  intros [= E]. pose proof (text_turn_from parse line rest) as H. by rewrite E in H.
Qed.

(** ** The block parser terminates *)

Lemma join_room body : body <> [] -> S (length (join [newline] body)) = room body.
Proof.
  induction body as [|l [|l' body] IH]; [done | intros _; cbn; lia|]. intros _.
  change (join [newline] (l :: l' :: body)) with (l ++ newline :: join [newline] (l' :: body)).
  rewrite length_app. cbn [length room]. specialize (IH ltac:(done)). cbn [length room] in IH. lia.
Qed.
Lemma unix_newlines_length s : (length (unix_newlines s) <= length s)%nat.
Proof.
  induction s as [s IH] using (induction_ltof1 _ length). unfold ltof in IH. destruct s as [|c s]; [done|].
  pose proof (IH s) as IH1. cbn [unix_newlines]. destruct (c =? 13); [destruct s as [|d s]; [done|]; destruct (d =? 10)|].
  - specialize (IH s). cbn [length] in *. lia.
  - cbn [length] in *. lia.
  - cbn [length] in *. lia.
Qed.
Lemma md_lines_room src : (room (md_lines src) <= S (length src))%nat.
Proof.
  destruct (split_on_cons (Z.eqb newline) (unix_newlines src)) as (w & ws & E).
  pose proof (join_split_on newline (unix_newlines src)) as J. unfold md_lines.
  rewrite <- join_room by (by rewrite E). rewrite J. pose proof (unix_newlines_length src). lia.
Qed.

Lemma block_turn_local parse parse' line rest n : (room (line :: rest) <= S n)%nat ->
  (forall t, (length t < n)%nat -> parse t = parse' t) -> block_turn parse line rest = block_turn parse' line rest.
Proof.
  intros Hr Heq. unfold block_turn. destruct (blank line) eqn:Hb; [done|]. destruct (re_exec FENCE line); [done|].
  destruct (re_exec HEADING line); [done|]. destruct (re_test HR line); [done|]. destruct (re_test INDENT line); [done|].
  destruct (re_test QUOTE line) eqn:Hq; [|done]. destruct (quote_body (line :: rest)) as [body r] eqn:E.
  destruct (quote_turn _ _ _ _ Hb Hq E) as (_ & _ & H3 & H4). rewrite Heq; [done|].
  pose proof (join_room body H4). lia.
Qed.
Lemma md_loop_local parse parse' fuel ls blocks n : (room ls <= S n)%nat ->
  (forall t, (length t < n)%nat -> parse t = parse' t) -> md_loop parse fuel ls blocks = md_loop parse' fuel ls blocks.
Proof.
  intros Hr Heq. revert ls blocks Hr. induction fuel as [|f IH]; intros ls blocks Hr; cbn [md_loop]; [done|].
  destruct ls as [|line rest]; [done|]. rewrite (block_turn_local parse parse' line rest n) by done.
  destruct (block_turn parse' line rest) as [[bs r]|] eqn:E; [|done]. apply IH.
  apply block_turn_from in E as [Hs%room_suffix _]. cbn in Hr. lia.
Qed.
Lemma block_turn_total parse line rest : (forall t, is_Some (parse t)) -> is_Some (block_turn parse line rest).
Proof.
  intros Hp. unfold block_turn. repeat case_match; eauto. by apply fmap_is_Some.
Qed.
Lemma md_loop_total parse fuel ls blocks : (forall t, is_Some (parse t)) -> (length ls < fuel)%nat -> is_Some (md_loop parse fuel ls blocks).
Proof.
  intros Hp. revert ls blocks. induction fuel as [|f IH]; intros ls blocks Hf; [lia|]. cbn [md_loop].
  destruct ls as [|line rest]; [eauto|]. destruct (block_turn_total parse line rest Hp) as [[bs r] E]. rewrite E.
  apply IH. apply block_turn_from in E as [Hs%suffix_length _]. cbn in Hf. lia.
Qed.
Definition parse_md (t : jstr) : option (list Block) := Some (parseMarkdown t).
(** [parseMarkdown] satisfies the equation of its source: a loop that calls [parseMarkdown]. *)
Lemma md_fuel_any d src : (length src < d)%nat -> parseMarkdown_fuel d src = md_loop parse_md (S (length (md_lines src))) (md_lines src) [].
Proof.
  revert src. induction d as [d IH] using lt_wf_ind. intros src Hd. destruct d as [|d]; [lia|]. cbn [parseMarkdown_fuel].
  apply (md_loop_local _ _ _ _ _ (length src)); [apply md_lines_room|]. intros t Ht. unfold parse_md, parseMarkdown.
  rewrite (IH d ltac:(lia) t ltac:(lia)), (IH (S (length t)) ltac:(lia) t ltac:(lia)).
  destruct (md_loop_total parse_md (S (length (md_lines t))) (md_lines t) []) as [r ->]; [by eexists | lia | done].
Qed.
Lemma parseMarkdown_eq src : md_loop parse_md (S (length (md_lines src))) (md_lines src) [] = Some (parseMarkdown src).
Proof.
  unfold parseMarkdown. rewrite md_fuel_any by lia.
  destruct (md_loop_total parse_md (S (length (md_lines src))) (md_lines src) []) as [r ->]; [by eexists | lia | done].
Qed.

(** ** The blocks of a document *)

Lemma md_loop_from parse fuel ls blocks all r (P : Block -> Prop) :
  (forall ls' b, ls' `suffix_of` all -> BlockFrom parse ls' b -> P b) -> ls `suffix_of` all -> Forall P blocks ->
  md_loop parse fuel ls blocks = Some r -> Forall P r.
Proof.
  intros HP. revert ls blocks. induction fuel as [|f IH]; intros ls blocks Hs Hb; cbn [md_loop]; [done|].
  destruct ls as [|line rest]; [by intros [= <-]|]. destruct (block_turn parse line rest) as [[bs r']|] eqn:E; [|done].
  apply block_turn_from in E as [Hr Hbs]. apply IH.
  - etrans; [exact Hr|]. etrans; [|exact Hs]. by exists [line].
  - apply Forall_app. split; [done|]. eapply Forall_impl; [exact Hbs|]. intros b Hb'. by eapply HP.
Qed.
(** A property of every block a turn may yield holds of the document. *)
Lemma md_blocks src (P : Block -> Prop) :
  (forall ls b, ls `suffix_of` md_lines src -> BlockFrom parse_md ls b -> P b) -> Forall P (parseMarkdown src).
Proof. intros HP. eapply (md_loop_from parse_md); [exact HP | apply suffix_self | constructor | apply parseMarkdown_eq]. Qed.

Lemma quoted_shorter src ls body : ls `suffix_of` md_lines src -> (room body < room ls)%nat ->
  (length (join [newline] body) < length src)%nat \/ body = [].
Proof.
  intros Hs%room_suffix Hr. destruct body as [|l body]; [by right|]. left.
  pose proof (md_lines_room src). pose proof (join_room (l :: body) ltac:(done)). lia.
Qed.
Lemma parse_empty : parseMarkdown [] = [].
Proof. reflexivity. Qed.

(** The markdown parser terminates: with any fuel above the length of the text the
    recursion completes, and the result does not depend on the fuel. *)
Theorem parseMarkdown_total src depth : (length src < depth)%nat ->
  parseMarkdown_fuel depth src = Some (parseMarkdown src)
  /\ (forall d, (length src < d)%nat -> parseInline_fuel d src = Some (parseInline src)).
Proof.
  intros H. split.
  - rewrite md_fuel_any by done. apply parseMarkdown_eq.
  - intros d Hd. rewrite inline_fuel_any by done. apply parseInline_eq.
Qed.

(** C36 Every document the parser returns is well formed: heading levels are 1 to 6, lists
    are not empty and start at a number of at most nine digits (bulleted ones at 1), table
    rows have cells, texts are not empty nor split in two, and link addresses hold no white
    space and no closing parenthesis, at every depth of quoting. *)
Theorem parseMarkdown_wf src : List.forallb block_wf (parseMarkdown src) = true.
Proof.
  induction src as [src IH] using (induction_ltof1 _ length). unfold ltof in IH. apply forallb_forall_true, md_blocks.
  intros ls b Hs Hb. assert (HI : forall ts, List.forallb inlines_wf (parseInline <$> ts) = true).
  { intros ts. apply forallb_forall_true, Forall_fmap, Forall_true. intros t. apply parseInline_wf. }
  destruct Hb as [level t Hl _|t _|lang v| |ordered start ts Hne Hst Ho _|body c _ Hr [= <-]|hd tl Hrows].
  - cbn [block_wf]. rewrite parseInline_wf, andb_true_r. apply andb_true_iff. split; apply Nat.leb_le; lia.
  - apply parseInline_wf.
  - done.
  - done.
  - cbn [block_wf]. rewrite HI, length_fmap, bool_decide_eq_false_2 by (by destruct ts).
    rewrite (proj2 (Z.leb_le _ _)), (proj2 (Z.ltb_lt _ _)) by lia. destruct ordered; [done|]. by rewrite Ho.
  - cbn [block_wf]. destruct (quoted_shorter src ls body Hs Hr) as [L| ->]; [by apply IH|]. done.
  - change (List.forallb (fun r => negb (bool_decide (length r = 0%nat)) && List.forallb inlines_wf r)
              ((fun ts : list jstr => (parseInline <$> ts : list (list Inline))) <$> (hd :: tl)) = true).
    apply forallb_forall_true, Forall_fmap. eapply Forall_impl; [exact Hrows|]. intros ts (Hne & _). cbn.
    rewrite HI, length_fmap, bool_decide_eq_false_2; [done|]. by destruct ts.
Qed.

Lemma split_on_infix P s w : w ∈ split_on P s -> infix w s.
Proof.
  assert (H : exists w ws, split_on P s = w :: ws /\ w `prefix_of` s /\ Forall (fun x => infix x s) ws).
  { induction s as [|c s IH]; cbn [split_on]; [by exists [], []|]. destruct IH as (u & ws & -> & (t & E) & Hws).
    assert (Hu : infix u (c :: s)) by (exists [c], t; by rewrite E).
    assert (Hws' : Forall (fun x => infix x (c :: s)) ws) by (eapply Forall_impl; [exact Hws|]; intros x Hx; apply (infix_app_l _ _ [c] Hx)).
    destruct (P c); [exists [], (u :: ws); split; [done|]; split; [apply prefix_nil | by constructor]|].
    exists (c :: u), ws. split; [done|]. split; [exists t; by rewrite E | done]. }
  destruct H as (u & ws & -> & (t & E) & Hws). intros [->|Hw]%elem_of_cons; [exists [], t; by rewrite E|].
  rewrite Forall_forall in Hws. by apply Hws.
Qed.
(** A part without line ends is not changed by the normalisation of line ends. *)
Lemma unix_prefix w s t : newline ∉ w -> unix_newlines s = w ++ t -> w `prefix_of` s.
Proof.
  revert s. induction w as [|c w IH]; intros s Hn E; [apply prefix_nil|]. destruct s as [|d s]; [done|]. cbn [unix_newlines] in E.
  destruct (d =? 13) eqn:Ed; cbn [app] in E; injection E as E1 E2; [subst c; destruct Hn; left|]. subst d.
  apply prefix_cons. apply IH; [|done]. intros H. apply Hn. by right.
Qed.
Lemma unix_infix w s : newline ∉ w -> infix w (unix_newlines s) -> infix w s.
Proof.
  intros Hn. induction s as [s IH] using (induction_ltof1 _ length). unfold ltof in IH. intros (a & b & E).
  destruct a as [|x a].
  { destruct (unix_prefix w s b Hn E) as (t & ->). exists [], t. done. }
  destruct s as [|c s]; [done|]. cbn [unix_newlines] in E.
  destruct (c =? 13); [destruct s as [|d s]; [by destruct a, w; cbn in E; simplify_eq; apply infix_nil|]; destruct (d =? 10)|];
    cbn [app] in E; injection E as _ E.
  - apply (infix_app_l _ _ [c; d]), IH; [cbn; lia | by exists a, b].
  - apply (infix_app_l _ _ [c]), IH; [cbn; lia | by exists a, b].
  - apply (infix_app_l _ _ [c]), IH; [cbn; lia | by exists a, b].
Qed.
Lemma infix_join (c : Z) w ts : c ∉ w -> w <> [] -> infix w (join [c] ts) -> exists t, t ∈ ts /\ infix w t.
Proof.
  intros Hc Hw. induction ts as [|t [|t' ts] IH].
  - intros (a & b & E). by destruct a, w.
  - intros H. exists t. split; [left|done].
  - change (join [c] (t :: t' :: ts)) with (t ++ c :: join [c] (t' :: ts)). intros [H|H]%infix_split; [| |done].
    + exists t. split; [left|done].
    + destruct (IH H) as (u & Hu & ?). exists u. split; [by right|done].
Qed.
Lemma line_infix src ls l w : ls `suffix_of` md_lines src -> l ∈ ls -> newline ∉ w -> infix w l -> infix w src.
Proof.
  intros (k & Hs) Hl Hn Hw. apply unix_infix; [done|]. eapply infix_trans; [exact Hw|]. apply (split_on_infix (Z.eqb newline)).
  fold (md_lines src). rewrite Hs. apply elem_of_app. by right.
Qed.
Lemma href_no_space h : Forall (fun c => href_char c = true) h -> Forall (fun c => is_space c = false) h.
Proof. intros H. eapply Forall_impl; [exact H|]. intros c Hc. unfold href_char in Hc. by breflect. Qed.
Lemma elem_flat_map {A B} (f : A -> list B) l y : y ∈ List.flat_map f l <-> exists x, x ∈ l /\ y ∈ f x.
Proof. rewrite !list_elem_of_In, List.in_flat_map. by setoid_rewrite list_elem_of_In. Qed.
Lemma drawn_href src ls t h : ls `suffix_of` md_lines src -> drawn ls t -> h ∈ List.flat_map hrefs (parseInline t) ->
  infix (40 :: h) src /\ Forall (fun c => href_char c = true) h.
Proof.
  intros Hs Ht (Hi & Hh)%inline_hrefs. split; [|done]. pose proof (href_no_space h Hh) as Hsp.
  destruct (Ht h Hsp Hi) as (l & Hl & Hli). eapply line_infix; [done..| |exact Hli]. by apply space_free.
Qed.
Lemma drawn_hrefs src ls ts h : ls `suffix_of` md_lines src -> Forall (drawn ls) ts -> h ∈ List.flat_map (List.flat_map hrefs) (parseInline <$> ts) ->
  infix (40 :: h) src /\ Forall (fun c => href_char c = true) h.
Proof.
  intros Hs Hts (c & (t & -> & Ht)%list_elem_of_fmap & Hh)%elem_flat_map. rewrite Forall_forall in Hts. eapply drawn_href; eauto.
Qed.

(** The preview never makes up an address: every link of the parsed document, at any
    depth, points to a text that stands after an opening parenthesis in the file, with no
    white space in it; images leave no address at all. *)
Theorem parseMarkdown_hrefs src h : h ∈ List.flat_map block_hrefs (parseMarkdown src) ->
  infix (40 :: h) src /\ Forall (fun c => href_char c = true) h.
Proof.
  revert h. induction src as [src IH] using (induction_ltof1 _ length). unfold ltof in IH. intros h (b & Hb & Hh)%elem_flat_map.
  assert (HF : Forall (fun b => forall h, h ∈ block_hrefs b -> infix (40 :: h) src /\ Forall (fun c => href_char c = true) h) (parseMarkdown src));
    [|rewrite Forall_forall in HF; by apply (HF b)].
  clear b h Hb Hh. apply md_blocks. intros ls b Hs Hb h.
  destruct Hb as [level t Hl Ht|t Ht|lang v| |ordered start ts _ _ _ Hts|body c Hbody Hr [= <-]|hd tl Hrows]; cbn [block_hrefs].
  - by eapply drawn_href.
  - by eapply drawn_href.
  - by intros ?%not_elem_of_nil.
  - by intros ?%not_elem_of_nil.
  - by eapply drawn_hrefs.
  - destruct (quoted_shorter src ls body Hs Hr) as [L| ->]; [|by intros ?%not_elem_of_nil].
    intros (Hi & Hh)%IH; [|done]. split; [|done]. pose proof (space_free h newline (href_no_space h Hh) eq_refl) as Hn.
    destruct (infix_join newline _ _ Hn ltac:(done) Hi) as (t & Ht & Hti). rewrite Forall_forall in Hbody.
    destruct (Hbody t Ht) as (l & Hl & Htl). eapply line_infix; [done..|]. by eapply infix_trans.
  - change (h ∈ List.flat_map (List.flat_map (List.flat_map hrefs)) ((fun ts : list jstr => (parseInline <$> ts : list (list Inline))) <$> (hd :: tl)) ->
            infix (40 :: h) src /\ Forall (fun c => href_char c = true) h).
    intros (c & (ts & -> & Hts)%list_elem_of_fmap & Hh)%elem_flat_map. rewrite Forall_forall in Hrows.
    destruct (Hrows ts Hts) as (_ & Hd). by eapply drawn_hrefs.
Qed.

(** ** Writing a text literally *)

Definition escape_md (s : jstr) : jstr := List.flat_map (fun c => if escapable c then [backslash; c] else [c]) s.

Lemma lookup_here (pre : jstr) c s : (pre ++ c :: s) !! length pre = Some c.
Proof. by apply list_lookup_middle. Qed.
Lemma lookup_next (pre : jstr) c d s : (pre ++ c :: d :: s) !! (length pre + 1)%nat = Some d.
Proof. rewrite lookup_app_r by lia. by replace (length pre + 1 - length pre)%nat with 1%nat by lia. Qed.
Lemma escapable_spec c : escapable c = false -> c ∉ js "\`*_{}[]()#+-.!~|>".
Proof. unfold escapable. by rewrite includes_char_false. Qed.
Lemma plain_opens_nothing ds (pre : jstr) c s : Forall (fun p : jstr * DelimKind => exists d r, p.1 = d :: r /\ d <> c) ds ->
  open_delim ds (pre ++ c :: s) (length pre) = None.
Proof.
  induction 1 as [|[d k] ds (x & r & E & Hx) _ IH]; [done|]. cbn [open_delim fst] in *. subst d.
  unfold starts_at. rewrite drop_app_length. cbn [starts_with]. rewrite (proj2 (Z.eqb_neq _ _) Hx). done.
Qed.
Lemma plain_turn parse (pre : jstr) c s : escapable c = false -> inline_turn parse (pre ++ c :: s) (length pre) c = Add [c] (length pre + 1).
Proof.
  intros H%escapable_spec. unfold inline_turn.
  assert (Hne : forall d, d ∈ js "\`*_{}[]()#+-.!~|>" -> (c =? d) = false) by (intros d Hd; apply Z.eqb_neq; by intros ->).
  rewrite (Hne backslash), (Hne backtick), (Hne 33), (Hne 91) by (by apply list_elem_of_In; vm_compute; tauto). cbn [andb].
  rewrite plain_opens_nothing; [done|].
  repeat constructor; do 2 eexists; (split; [reflexivity|]); intros <-; apply H, list_elem_of_In; vm_compute; tauto.
Qed.
Lemma escaped_turn parse (pre : jstr) c s : escapable c = true ->
  inline_turn parse (pre ++ backslash :: c :: s) (length pre) backslash = Add [c] (length pre + 2).
Proof. intros H. unfold inline_turn, char_in. rewrite lookup_next. cbn. by rewrite H. Qed.
Lemma escape_loop fuel pre s text : (length (escape_md s) < fuel)%nat ->
  inline_loop parse_inl fuel (pre ++ escape_md s) (length pre) text [] = Some (flush (text ++ s) []).
Proof.
  revert fuel pre text. induction s as [|c s IH]; intros fuel pre text Hf; (destruct fuel as [|f]; [lia|]); cbn [inline_loop].
  - rewrite app_nil_r. change (escape_md []) with (@nil Z). rewrite app_nil_r, lookup_ge_None_2 by done. done.
  - change (escape_md (c :: s)) with ((if escapable c then [backslash; c] else [c]) ++ escape_md s) in *.
    rewrite length_app in Hf. destruct (escapable c) eqn:Hc; cbn [app length] in *.
    + rewrite lookup_here, escaped_turn by done. specialize (IH f (pre ++ [backslash; c]) (text ++ [c]) ltac:(lia)).
      rewrite <- !(assoc_L (++)), length_app in IH. exact IH.
    + rewrite lookup_here, plain_turn by done. specialize (IH f (pre ++ [c]) (text ++ [c]) ltac:(lia)).
      rewrite <- !(assoc_L (++)), length_app in IH. exact IH.
Qed.

(** Any text can be written literally: with a backslash before every character that has a
    meaning, the preview shows exactly that text and nothing else. *)
Theorem escaped_text_literal s : s <> [] -> parseInline (escape_md s) = [IText s].
Proof.
  intros Hs. pose proof (parseInline_eq (escape_md s)) as E.
  pose proof (escape_loop (S (length (escape_md s))) [] s [] ltac:(lia)) as E'. cbn [app length] in E'. rewrite E in E'.
  injection E' as ->. by destruct s.
Qed.

(** ** Fenced code is shown verbatim *)

Definition lang_char (c : jchar) : bool := negb (c =? backtick) && negb (is_space c).
Definition ticks : jstr := [backtick; backtick; backtick].
Definition fenced (lang : jstr) (body : list jstr) : jstr := join [newline] ((ticks ++ lang) :: body ++ [ticks]).
Definition code_line (l : jstr) : Prop := newline ∉ l /\ 13 ∉ l /\ starts_with ticks (trim_start l) = false.

Lemma unix_plain s : 13 ∉ s -> unix_newlines s = s.
Proof.
  induction s as [|c s IH]; intros H; [done|]. apply not_elem_of_cons in H as [Hc Hs]. cbn [unix_newlines].
  rewrite (proj2 (Z.eqb_neq c 13)) by congruence. by rewrite IH.
Qed.
Lemma split_join_lines ls : Forall (fun l => newline ∉ l) ls -> ls <> [] -> split_on (Z.eqb newline) (join [newline] ls) = ls.
Proof.
  assert (Hp : forall l, newline ∉ l -> split_on (Z.eqb newline) l = [l]).
  { intros l Hl. apply split_on_none, Forall_forall. intros c Hc. apply Z.eqb_neq. by intros <-. }
  induction 1 as [|l [|l' ls] Hl Hls IH]; intros Hne; [done | by apply Hp|].
  change (join [newline] (l :: l' :: ls)) with (l ++ newline :: join [newline] (l' :: ls)).
  rewrite split_on_app, IH, Hp by done. done.
Qed.
Lemma elem_of_joined c sep ls : c ∈ join [sep] ls -> c = sep \/ exists l, l ∈ ls /\ c ∈ l.
Proof.
  induction ls as [|l [|l' ls] IH]; [by intros ?%not_elem_of_nil | intros H; right; exists l; split; [left|done]|].
  change (join [sep] (l :: l' :: ls)) with (l ++ sep :: join [sep] (l' :: ls)).
  intros [H|[->|H]%elem_of_cons]%elem_of_app; [right; exists l; split; [left|done] | by left|].
  destruct (IH H) as [?|(k & Hk & ?)]; [by left | right; exists k; split; [by right|done]].
Qed.
Lemma md_lines_join ls : Forall (fun l => newline ∉ l /\ 13 ∉ l) ls -> ls <> [] -> md_lines (join [newline] ls) = ls.
Proof.
  intros H Hne. unfold md_lines. rewrite unix_plain.
  - apply split_join_lines; [|done]. eapply Forall_impl; [exact H|]. by intros l [? _].
  - intros [E|(l & Hl & Hc)]%elem_of_joined; [done|]. rewrite Forall_forall in H. by apply (H l Hl).
Qed.
Lemma elem_kept (P : Z -> bool) c s : c ∈ s -> P c = false -> c ∈ drop_while P s.
Proof.
  intros H Hc. induction s as [|d s IH]; [done|]. cbn [drop_while]. destruct (P d) eqn:E; [|done].
  apply elem_of_cons in H as [->|H]; [congruence | by apply IH].
Qed.
Lemma not_blank c s : c ∈ s -> is_space c = false -> blank s = false.
Proof.
  intros H Hc. unfold blank. assert (Hin : c ∈ trim s).
  { unfold trim, drop_while_end. apply elem_of_reverse, elem_kept; [|done]. apply elem_of_reverse. by apply elem_kept. }
  destruct (trim s); [by apply not_elem_of_nil in Hin | done].
Qed.
Lemma ticks_not_blank s : blank (ticks ++ s) = false.
Proof. apply (not_blank backtick); [left|done]. Qed.
(** The end of [FENCE] after the fence: it captures the language. *)
Definition FENCE_LANG : regex := Rseq (star spacer) (Rgroup 2 (star (Rchar lang_char))).
Lemma FENCE_lang lang m k : Forall (fun c => lang_char c = true) lang -> is_Some (k ([], map_set 2%nat lang m)) ->
  rmatch FENCE_LANG (lang, m) k = k ([], map_set 2%nat lang m).
Proof.
  intros Hl Hk. set (R2 := Rgroup 2 (star (Rchar lang_char))).
  assert (E2 : rmatch R2 (lang, m) k = k ([], map_set 2%nat lang m)).
  { set (k' := fun y : mstate => k (y.1, map_set 2%nat (take (length lang - length y.1) lang) y.2)).
    assert (Ek : k' ([], m) = k ([], map_set 2%nat lang m)) by (unfold k'; cbn [fst snd length]; by rewrite Nat.sub_0_r, firstn_all).
    pose proof (greedy_class lang_char 0 None lang [] m k' Hl I ltac:(lia) I) as G. rewrite app_nil_r, Ek in G. by apply G. }
  apply (eq_trans (greedy_class is_space 0 None [] lang m (fun y => rmatch R2 y k) ltac:(constructor)
           ltac:(destruct lang as [|c r]; [done|]; inversion Hl as [|? ? Hc _]; subst; unfold lang_char in Hc; breflect; done)
           ltac:(cbn; lia) I (eq_ind_r is_Some Hk E2)) E2).
Qed.
Lemma FENCE_opening lang : Forall (fun c => lang_char c = true) lang ->
  exists m, re_exec FENCE (ticks ++ lang) = Some m /\ group 1 m = ticks /\ group 2 m = lang.
Proof.
  intros Hl. set (s := ticks ++ lang). set (r := [(1%nat, ticks); (2%nat, lang); (0%nat, s)]). exists r. split; [|done].
  unfold re_exec. set (k0 := fun y : mstate => Some (y.1, map_set 0%nat (take (length s - length y.1) s) y.2)).
  set (k1 := fun y : mstate => rmatch FENCE_LANG y k0).
  set (kg := fun y : mstate => k1 (y.1, map_set 1%nat (take (length s - length y.1) s) y.2)).
  assert (Eg : kg (lang, []) = Some ([], r)).
  { unfold kg, k1. cbn [fst snd]. replace (take (length s - length lang) s) with ticks
      by (unfold s; by rewrite length_app, Nat.add_sub, take_app_length).
    rewrite FENCE_lang by (done || by eexists). unfold k0. cbn [fst snd length]. by rewrite Nat.sub_0_r, firstn_all. }
  assert (E0 : rmatch (Rrep true 3 None (ch backtick)) (s, []) kg = kg (lang, [])).
  { apply (greedy_class (Z.eqb backtick) 3 None ticks lang); [by repeat constructor | | cbn; lia | done | by rewrite Eg].
    destruct lang as [|c l]; [done|]. inversion Hl as [|? ? Hc _]; subst. unfold lang_char in Hc. breflect. apply Z.eqb_neq. by intros <-. }
  set (ka := fun y : mstate => rmatch (Rgroup 1 (Ralt (Rrep true 3 None (ch backtick)) (Rrep true 3 None (ch 126)))) y k1).
  assert (Ea : ka (s, []) = Some ([], r)).
  { change (ka (s, [])) with (match rmatch (Rrep true 3 None (ch backtick)) (s, []) kg with
                              | Some z => Some z | None => rmatch (Rrep true 3 None (ch 126)) (s, []) kg end). by rewrite E0, Eg. }
  assert (Es : rmatch spaces03 (s, []) ka = ka (s, [])).
  { apply (greedy_class (Z.eqb space) 0 (Some 3%nat) [] s); [constructor | done | cbn; lia | cbn; lia | by rewrite Ea]. }
  change (snd <$> rmatch spaces03 (s, []) ka = Some r). by rewrite Es, Ea.
Qed.
Lemma fence_body_lines body rest : Forall code_line body -> fence_body ticks (body ++ ticks :: rest) = (body, ticks :: rest).
Proof. induction 1 as [|l body (_ & _ & Hl) _ IH]; cbn [app fence_body]; [done|]. by rewrite Hl, IH. Qed.

(** Fenced code comes out verbatim, with its language: lines without line ends, none of
    which closes the fence, parse to exactly one code block. *)
Theorem fenced_code_verbatim lang body : Forall (fun c => lang_char c = true) lang -> Forall code_line body ->
  parseMarkdown (fenced lang body) = [BCode lang (join [newline] body)].
Proof.
  intros Hl Hb. pose proof (parseMarkdown_eq (fenced lang body)) as E. unfold fenced in *. rewrite md_lines_join in E; [|  |done].
  - cbn [length md_loop] in E. destruct (FENCE_opening lang Hl) as (m & Em & G1 & G2).
    assert (Et : block_turn parse_md (ticks ++ lang) (body ++ [ticks]) = Some ([BCode lang (join [newline] body)], [])).
    { unfold block_turn. rewrite ticks_not_blank, Em, G1, G2, fence_body_lines by done. done. }
    rewrite Et in E. cbn [md_loop app] in E. by injection E.
  - assert (Ht : newline ∉ ticks /\ 13 ∉ ticks) by (split; by apply includes_char_false).
    assert (Hn : forall c, is_space c = true -> c ∉ lang) by (intros c Hc Hin; rewrite Forall_forall in Hl; apply Hl in Hin; unfold lang_char in Hin; breflect; congruence).
    constructor; [split; apply not_elem_of_app; (split; [apply Ht | by apply Hn])|].
    apply Forall_app. split; [eapply Forall_impl; [exact Hb|]; by intros l (? & ? & _) | by apply Forall_singleton].
Qed.

(** ** Concrete documents *)

Lemma parseMarkdown_total_witness : (length (js "> *a") < 5)%nat /\ parseMarkdown_fuel 5 (js "> *a") = Some (parseMarkdown (js "> *a")).
Proof. split; [vm_compute; lia|]. apply (parseMarkdown_total (js "> *a") 5). vm_compute. lia. Defined.
Definition sample_doc : jstr := join [newline] [js "> - see [the *site*](https://x.y)"; js "> - ![a](b)"].
Lemma parseMarkdown_hrefs_witness : infix (40 :: js "https://x.y") sample_doc
  /\ Forall (fun c => href_char c = true) (js "https://x.y").
Proof. apply (parseMarkdown_hrefs sample_doc). apply list_elem_of_In. vm_compute. left. reflexivity. Defined.
Lemma sample_parsed : List.flat_map block_hrefs (parseMarkdown sample_doc) = [js "https://x.y"].
Proof. reflexivity. Qed.
(** An underline of three dashes, which the comment in the paragraph loop counts as a
    heading underline, is taken for a rule: only one or two dashes make a heading. *)
Theorem setext_dashes_are_rules :
  parseMarkdown (js "Title" ++ newline :: js "---") = [BPara [IText (js "Title")]; BHr]
  /\ parseMarkdown (js "Title" ++ newline :: js "--") = [BHeading 2 [IText (js "Title")]]
  /\ parseMarkdown (js "Title" ++ newline :: js "===") = [BHeading 1 [IText (js "Title")]].
Proof. repeat split. Qed.
