(* ===== verification/Preview.v ===== *)
(** * Preview rules and following a file

    [features/preview/previewKind.ts]: what a file is previewed as; [neighbourPreload.ts]:
    which images are warmed; [externalFiles.ts]: the name and type handed to another app;
    [useFollowText.ts]: following a growing file as a state machine.  The hook's effect
    is run again when its inputs change; a poll is cut at its [await]s, so a pending poll
    is a task of its effect and every reply is an event. *)

From Stdlib Require Import ZArith Lia Bool String.
From Stdlib Require List.
From S2P Require Import Prelude JsCollections JsString Errors Models Host Utf8 Regex.
Local Open Scope js_scope.

(** ** Kinds *)

Inductive PreviewKind := PKimage | PKpdf | PKvideo | PKaudio | PKmarkdown | PKcsv | PKarchive | PKtext | PKnone.
#[global] Instance PreviewKind_eq_dec : EqDecision PreviewKind.
Proof. solve_decision. Defined.

Definition words (s : string) : list jstr := split_on (Z.eqb space) (js s).
Definition MARKDOWN : list jstr := words "md markdown".
Definition CSV : list jstr := words "csv".
Definition ARCHIVE : list jstr := words "zip tar gz tgz bz2 7z rar".
Definition TEXT : list jstr := words
  "txt json yaml yml xml tsv log ini cfg conf toml env dart go py js jsx ts tsx java kt kts c h cpp hpp cc cs rs rb php swift sh bash zsh sql gradle properties gitignore dockerfile makefile html htm css scss less vue svelte".
Definition IMAGE : list jstr := words "png jpg jpeg gif bmp webp heic heif".
Definition VIDEO : list jstr := words "mp4 mov mkv avi webm m4v 3gp".
Definition AUDIO : list jstr := words "mp3 m4a aac wav flac ogg oga opus wma aiff aif".

Section Kinds.
Context `{U : Unicode}.

Definition previewExtension (name : jstr) : jstr :=
  match last_index_of dot name with
  | None => []
  | Some d => if (d =? length name - 1)%nat then [] else toLowerCase (drop (S d) name)
  end.
(** [mime.split(';')[0].trim()]. *)
Definition mime_base (mime : jstr) : jstr := trim (take_while (fun c => negb (c =? 59)) mime).
Definition kind_of_mime (mime : jstr) : option PreviewKind :=
  let same s := bool_decide (mime = js s) in
  if starts_with (js "image/") mime then Some PKimage
  else if same "application/pdf"%string then Some PKpdf
  else if starts_with (js "video/") mime then Some PKvideo
  else if starts_with (js "audio/") mime then Some PKaudio
  else if same "text/markdown"%string then Some PKmarkdown
  else if same "text/csv"%string then Some PKcsv
  else if starts_with (js "text/") mime then Some PKtext
  else if same "application/json"%string || same "application/xml"%string || same "application/x-yaml"%string
          || ends_with (js "+json") mime || ends_with (js "+xml") mime then Some PKtext
  else None.
Definition kind_of_ext (ext : jstr) : PreviewKind :=
  if set_has ext IMAGE then PKimage
  else if bool_decide (ext = js "pdf") then PKpdf
  else if set_has ext VIDEO then PKvideo
  else if set_has ext AUDIO then PKaudio
  else if set_has ext MARKDOWN then PKmarkdown
  else if set_has ext CSV then PKcsv
  else if set_has ext ARCHIVE then PKarchive
  else if set_has ext TEXT then PKtext
  else PKnone.
Definition previewKindOf (name : jstr) (mimeType : option jstr) : PreviewKind :=
  let mime := toLowerCase ∘ mime_base <$> mimeType in
  let ext := previewExtension name in
  match (m ← mime; if nonempty m then kind_of_mime m else None) with
  | Some k => k
  | None => kind_of_ext ext
  end.
Definition entry_kind (e : Entry) : PreviewKind := previewKindOf (entry_name e) (entry_mimeType e).
Definition isPreviewable (e : Entry) : bool := negb (entry_isDir e) && negb (bool_decide (entry_kind e = PKnone)).
Fixpoint find_index {A} (P : A -> bool) (l : list A) : option nat :=
  match l with [] => None | x :: r => if P x then Some 0%nat else S <$> find_index P r end.
Definition previewableSiblings (siblings : list Entry) (path : jstr) : list Entry * option nat :=
  let entries := List.filter isPreviewable siblings in
  (entries, find_index (fun e => bool_decide (entry_path e = path)) entries).
Definition shouldPreloadOnCellular (isCellular settingEnabled : bool) : bool := negb isCellular || settingEnabled.

Definition MIME_MAP : list (jstr * jstr) := (fun p => (js p.1, js p.2)) <$> [
  ("png", "image/png"); ("jpg", "image/jpeg"); ("jpeg", "image/jpeg"); ("gif", "image/gif"); ("webp", "image/webp");
  ("bmp", "image/bmp"); ("heic", "image/heif"); ("heif", "image/heif"); ("mp4", "video/mp4"); ("mov", "video/quicktime");
  ("mkv", "video/x-matroska"); ("avi", "video/x-msvideo"); ("webm", "video/webm"); ("mp3", "audio/mpeg"); ("aac", "audio/mp4");
  ("m4a", "audio/mp4"); ("wav", "audio/wav"); ("flac", "audio/flac"); ("ogg", "audio/ogg"); ("oga", "audio/ogg");
  ("pdf", "application/pdf"); ("doc", "application/msword");
  ("docx", "application/vnd.openxmlformats-officedocument.wordprocessingml.document"); ("xls", "application/vnd.ms-excel");
  ("xlsx", "application/vnd.openxmlformats-officedocument.spreadsheetml.sheet"); ("ppt", "application/vnd.ms-powerpoint");
  ("pptx", "application/vnd.openxmlformats-officedocument.presentationml.presentation"); ("zip", "application/zip");
  ("gz", "application/gzip"); ("tgz", "application/gzip"); ("txt", "text/plain"); ("log", "text/plain"); ("md", "text/plain");
  ("csv", "text/plain"); ("html", "text/html"); ("htm", "text/html"); ("json", "application/json"); ("xml", "text/xml");
  ("apk", "application/vnd.android.package-archive")]%string.
(** The table is an object literal: its lower-case inherited members answer too, with
    something that is not a string ([None]). *)
Definition INHERITED : list jstr := words "constructor __proto__".
Definition mimeFromExtension (fileName : jstr) : option jstr :=
  let ext := previewExtension fileName in
  match map_get ext MIME_MAP with
  | Some m => Some m
  | None => if set_has ext INHERITED then None else Some (js "application/octet-stream")
  end.

(** ** Preloading the neighbours *)

Definition isCellularOnly (transports : list jstr) : bool :=
  negb (List.existsb (fun t => bool_decide (t = js "wifi") || bool_decide (t = js "ethernet")) transports)
  && List.existsb (fun t => bool_decide (t = js "cellular")) transports.
Definition neighbourImages (entries : list Entry) (index : Z) : list Entry :=
  List.filter (fun e => bool_decide (entry_kind e = PKimage))
    (omap (fun i => entries !! Z.to_nat i) (List.filter (fun i => (0 <=? i) && (i <? Z.of_nat (length entries))) [index - 1; index + 1])).
(** [Promise.all] starts every fetch; their outcomes are ignored. *)
Definition preloadNeighbours {W} (transports : M W jserror (list jstr)) (fetchFile : Entry -> M W jserror unit)
    (entries : list Entry) (index : Z) (allowCellular : bool) : W -> W * list Entry := fun w =>
  match neighbourImages entries index with
  | [] => (w, [])
  | targets =>
      let (w1, t) := transports w in
      let cellular := match t with Ok ts => isCellularOnly ts | Err _ => false end in
      if negb (shouldPreloadOnCellular cellular allowCellular) then (w1, [])
      else (fold_left (fun w e => (fetchFile e w).1) targets w1, targets)
  end.

(** ** Files handed to other apps *)

Definition file_name_char (c : jchar) : bool := is_word c || (c =? dot) || (c =? 45).
Definition safeFileName (name : jstr) : jstr :=
  let cleaned := slice_last 120 (drop_while (Z.eqb dot) ((fun c => if file_name_char c then c else 95) <$> name)) in
  match cleaned with [] => js "file" | _ => cleaned end.
Definition externalMime (name : jstr) (mimeType : option jstr) : option jstr :=
  match mime_base <$> mimeType with
  | Some (c :: r) => Some (c :: r)
  | _ => mimeFromExtension name
  end.
End Kinds.

(** ** Following a growing file *)

(** [`${entry.path}@${baseBytes}`]: the number after the last [@] makes the pair and the text equivalent. *)
Notation FKey := (jstr * option Z)%type.
(** A poll that waits for a client, for the size, for the answer to the request of the bytes
    [first] to [last], or for the part file that holds the body of the answer; [known] is what
    it read before asking for the size. *)
Inductive Poll := AwaitClient | AwaitMeta (known : Z) | AwaitSlice (known first last : Z) | AwaitBytes (known : Z) (body : list Z).
(** One run of the effect; [busy] is having a poll. *)
Record Effect := { ef_key : FKey; ef_live : bool; ef_timer : bool; ef_poll : option Poll }.
Record Shown := { sh_key : FKey; sh_text : jstr; sh_stopped : option jstr }.
Record Follow := { fo_acc : Shown; fo_progress : FKey * Z; fo_effects : list Effect }.

Definition with_effects (f : Follow) (es : list Effect) : Follow :=
  {| fo_acc := fo_acc f; fo_progress := fo_progress f; fo_effects := es |}.
Definition with_poll (e : Effect) (p : option Poll) : Effect :=
  {| ef_key := ef_key e; ef_live := ef_live e; ef_timer := ef_timer e; ef_poll := p |}.
Definition update_effect (i : nat) (g : Effect -> Effect) (f : Follow) : Follow := with_effects f (alter g i (fo_effects f)).
Definition shown_text (k : FKey) (a : Shown) : jstr := if bool_decide (sh_key a = k) then sh_text a else [].

Definition follow_init (path : jstr) (base : option Z) : Follow := {|
  fo_acc := {| sh_key := (path, base); sh_text := []; sh_stopped := None |};
  fo_progress := ((path, base), default 0 base); fo_effects := [] |}.
(** The clean-up of the effect. *)
Definition retire (e : Effect) : Effect := {| ef_key := ef_key e; ef_live := false; ef_timer := false; ef_poll := ef_poll e |}.
(** The effect runs again because an input changed. *)
Definition rerun (path : jstr) (enabled : bool) (base : option Z) (f : Follow) : Follow :=
  let es := retire <$> fo_effects f in
  match enabled, base with
  | true, Some b =>
      {| fo_acc := fo_acc f;
         fo_progress := if bool_decide ((fo_progress f).1 = (path, base)) then fo_progress f else ((path, base), b);
         fo_effects := es ++ [{| ef_key := (path, base); ef_live := true; ef_timer := true; ef_poll := None |}] |}
  | _, _ => with_effects f es
  end.
(** [stop(message)] in the [i]-th effect. *)
Definition stop_following (i : nat) (e : Effect) (message : jstr) (f : Follow) : Follow :=
  let f' := update_effect i (fun e => {| ef_key := ef_key e; ef_live := ef_live e; ef_timer := false; ef_poll := ef_poll e |}) f in
  {| fo_acc := {| sh_key := ef_key e; sh_text := shown_text (ef_key e) (fo_acc f); sh_stopped := Some message |};
     fo_progress := fo_progress f'; fo_effects := fo_effects f' |}.
Definition append_text (k : FKey) (text : jstr) (a : Shown) : Shown :=
  {| sh_key := k; sh_text := shown_text k a ++ text; sh_stopped := None |}.

(** The texts of the two reasons to stop. *)
Section Follow.
Context (followTruncated notText : jstr).

Inductive FollowEvent :=
| FRerun (path : jstr) (enabled : bool) (base : option Z)
| FTimer (i : nat)
| FClient (i : nat) (ok : bool)
| FMeta (i : nat) (size : result unit (option Z))
| FSlice (i : nat) (answer : result unit (Z * list Z))   (** status and body *)
| FBytes (i : nat) (readable : bool).

(** The [finally] of a poll. *)
Definition end_poll (i : nat) (f : Follow) : Follow := update_effect i (fun e => with_poll e None) f.
Definition go_on (i : nat) (p : Poll) (f : Follow) : Follow := update_effect i (fun e => with_poll e (Some p)) f.

Definition on_meta (i : nat) (e : Effect) (known : Z) (size : option Z) (f : Follow) : Follow :=
  if negb (ef_live e) then end_poll i f
  else match followStep known (default known size) with
       | follow_truncated => end_poll i (stop_following i e followTruncated f)
       | follow_idle => end_poll i f
       | follow_append first last => go_on i (AwaitSlice known first last) f
       end.
Definition on_slice (i : nat) (e : Effect) (known status : Z) (body : list Z) (f : Follow) : Follow :=
  if status =? 416 then end_poll i (if ef_live e then stop_following i e followTruncated f else f)
  else if negb (status =? 206) then end_poll i f
  else go_on i (AwaitBytes known body) f.
Definition on_bytes (i : nat) (e : Effect) (known : Z) (bytes : list Z) (f : Follow) : Follow :=
  match followChunk bytes with
  | None => end_poll i (if ef_live e then stop_following i e notText f else f)
  | Some (text, consumed) =>
      end_poll i (
        if negb (ef_live e) then f
        else {| fo_acc := if nonempty text then append_text (ef_key e) text (fo_acc f) else fo_acc f;
                fo_progress := ((fo_progress f).1, known + Z.of_nat consumed);
                fo_effects := fo_effects f |})
  end.
Definition follow_step (ev : FollowEvent) (f : Follow) : Follow :=
  match ev with
  | FRerun path enabled base => rerun path enabled base f
  | FTimer i => match fo_effects f !! i with
                | Some e => if ef_timer e && bool_decide (ef_poll e = None) then go_on i AwaitClient f else f
                | None => f
                end
  | FClient i ok => match fo_effects f !! i with
                    | Some e => match ef_poll e with
                                | Some AwaitClient => if ok then go_on i (AwaitMeta (fo_progress f).2) f else end_poll i f
                                | _ => f
                                end
                    | None => f
                    end
  | FMeta i size => match fo_effects f !! i with
                    | Some e => match ef_poll e, size with
                                | Some (AwaitMeta known), Ok n => on_meta i e known n f
                                | Some (AwaitMeta _), Err _ => end_poll i f
                                | _, _ => f
                                end
                    | None => f
                    end
  | FSlice i answer => match fo_effects f !! i with
                       | Some e => match ef_poll e, answer with
                                   | Some (AwaitSlice known _ _), Ok (status, body) => on_slice i e known status body f
                                   | Some (AwaitSlice _ _ _), Err _ => end_poll i f
                                   | _, _ => f
                                   end
                       | None => f
                       end
  | FBytes i readable => match fo_effects f !! i with
                         | Some e => match ef_poll e with
                                     | Some (AwaitBytes known body) => if readable then on_bytes i e known body f else end_poll i f
                                     | _ => f
                                     end
                         | None => f
                         end
  end.
Definition follow_run (evs : list FollowEvent) (f : Follow) : Follow := fold_left (fun f ev => follow_step ev f) evs f.
End Follow.

(** ** Nothing is lost, repeated or torn *)

Lemma no_bom cps b : Forall (fun c => is_scalar c = true) cps -> 65279 ∉ cps -> b `prefix_of` utf8 cps -> starts_with bom b = false.
Proof.
  intros Hs Hb [r E]. destruct (starts_with bom b) eqn:F; [|done]. apply starts_with_spec in F as (t & ->).
  destruct cps as [|c cps]; [done|]. inversion Hs as [|? ? Hc _]; subst. rewrite utf8_cons in E.
  pose proof (decode_one_utf8 c (utf8 cps) Hc) as D. rewrite E in D. cbn in D. injection D as <- _. destruct Hb. left.
Qed.
Lemma utf16_app a b : utf16 (a ++ b) = utf16 a ++ utf16 b.
Proof. apply bind_app. Qed.

(** A poll that runs through: the file has [size] bytes, and the answer to the range is [body]. *)
Definition one_poll (i : nat) (size : Z) (body : list Z) : list FollowEvent :=
  [FTimer i; FClient i true; FMeta i (Ok (Some size)); FSlice i (Ok (206, body)); FBytes i true].

Section Followed.
Context (followTruncated notText : jstr) (path : jstr) (copy cps : list Z).
Notation base := (Z.of_nat (length copy)).
Notation k := (path, Some base).
Notation step := (follow_step followTruncated notText).

(** The bytes [first] to [last] of the file: the copy on screen and the text that follows it. *)
Definition slice_of (first last : Z) : list Z := take (Z.to_nat (last - first + 1)) (drop (Z.to_nat first) (copy ++ utf8 cps)).
(** The inputs of the effect stay those of one copy of one file, which only grows, by [cps]; an
    answer with the status 206 has bytes of the requested range, as far as the file has grown.
    Nothing is assumed of any other answer. *)
Definition honest (ev : FollowEvent) (f : Follow) : Prop :=
  match ev with
  | FRerun p _ b => (p, b) = k
  | FSlice i (Ok (status, body)) => forall e known first last, fo_effects f !! i = Some e -> ef_poll e = Some (AwaitSlice known first last) ->
      status = 206 -> body `prefix_of` slice_of first last
  | _ => True
  end.
Inductive followed : Follow -> Prop :=
| followed_init : followed (follow_init path (Some base))
| followed_step ev f : followed f -> honest ev f -> followed (step ev f).

Definition poll_known (p : Poll) : option Z :=
  match p with AwaitClient => None | AwaitMeta n | AwaitSlice n _ _ | AwaitBytes n _ => Some n end.
(** The range starts at what is known, and so does the body. *)
Definition poll_ok (p : Poll) : Prop :=
  match p with
  | AwaitSlice n first _ => first = n
  | AwaitBytes n body => body `prefix_of` drop (Z.to_nat n) (copy ++ utf8 cps)
  | _ => True
  end.
Definition effect_ok (n : Z) (e : Effect) : Prop :=
  ef_key e = k /\ (ef_live e = true -> forall p m, ef_poll e = Some p -> poll_known p = Some m -> m = n) /\
  (forall p, ef_poll e = Some p -> poll_ok p).
Record follow_inv (f : Follow) : Prop := {
  inv_text : exists cps1 cps2, cps = cps1 ++ cps2 /\ sh_key (fo_acc f) = k /\ sh_text (fo_acc f) = utf16 cps1
             /\ fo_progress f = (k, base + Z.of_nat (length (utf8 cps1)));
  inv_effects : Forall (effect_ok (fo_progress f).2) (fo_effects f);
  inv_live : forall i e, fo_effects f !! i = Some e -> ef_live e = true -> S i = length (fo_effects f)
}.

Lemma shown_of_inv f : sh_key (fo_acc f) = k -> shown_text k (fo_acc f) = sh_text (fo_acc f).
Proof. intros E. unfold shown_text. by rewrite bool_decide_eq_true_2. Qed.

(** Changing one effect, without making it live, keeps the invariant. *)
Lemma inv_update f i g : follow_inv f ->
  (forall e, fo_effects f !! i = Some e -> effect_ok (fo_progress f).2 e -> effect_ok (fo_progress f).2 (g e)) ->
  (forall e, ef_live (g e) = ef_live e) -> follow_inv (update_effect i g f).
Proof.
  intros [T E L] Hg Hl. split; [done | |].
  - cbn. apply Forall_forall. intros x (j & Hj)%list_elem_of_lookup. rewrite Forall_forall in E.
    destruct (decide (i = j)) as [<-|Hne].
    + rewrite list_lookup_alter_eq in Hj. destruct (fo_effects f !! i) as [e|] eqn:He; cbn in Hj; [|done]. injection Hj as <-.
      apply Hg; [done|]. apply E. by eapply list_elem_of_lookup_2.
    + rewrite list_lookup_alter_ne in Hj by done. apply E. by eapply list_elem_of_lookup_2.
  - cbn. intros j x. rewrite length_alter. destruct (decide (i = j)) as [<-|Hne].
    + rewrite list_lookup_alter_eq. destruct (fo_effects f !! i) as [e|] eqn:He; cbn; [|done]. intros [= <-]. rewrite Hl. by apply L.
    + rewrite list_lookup_alter_ne by done. apply L.
Qed.
Lemma inv_end f i : follow_inv f -> follow_inv (end_poll i f).
Proof. intros H. apply inv_update; [done| |done]. intros e _ [Hk _]. split; [done|]. split; [by intros _ p m Hp | by intros p Hp]. Qed.
Lemma inv_go f i p : follow_inv f -> (forall m, poll_known p = Some m -> forall e, fo_effects f !! i = Some e -> ef_live e = true -> m = (fo_progress f).2) ->
  poll_ok p -> follow_inv (go_on i p f).
Proof.
  intros H Hp Hok. apply inv_update; [done| |done]. intros e He [Hk _]. split; [done|]. cbn. split; [|by intros q [= <-]].
  intros Hl q m [= <-] Hm. by eapply Hp.
Qed.
Lemma inv_stop f i e msg : follow_inv f -> fo_effects f !! i = Some e -> follow_inv (stop_following i e msg f).
Proof.
  intros H He. unfold stop_following. set (g := fun e => _).
  assert (Hu : follow_inv (update_effect i g f)) by (apply inv_update; [done | by intros e' _ (? & ? & ?) | done]).
  pose proof H as [(c1 & c2 & Ec & Ek & Et & Ep) E _]. destruct Hu as [_ Eu Lu].
  assert (Hk : ef_key e = k) by (rewrite Forall_forall in E; by apply (E e (list_elem_of_lookup_2 _ _ _ He))).
  split; [|exact Eu|exact Lu]. exists c1, c2. cbn. rewrite Hk, (shown_of_inv f Ek). done.
Qed.
Lemma inv_retire f es : follow_inv f -> es = retire <$> fo_effects f -> follow_inv (with_effects f es).
Proof.
  intros [T E L] ->. split; [done | |].
  - cbn. apply Forall_fmap. eapply Forall_impl; [exact E|]. intros e (Hk & _ & Hp). split; [done|]. split; [done | exact Hp].
  - cbn. intros i e. rewrite list_lookup_fmap. intros (x & _ & ->)%fmap_Some. done.
Qed.

Hypothesis scalars : Forall (fun c => is_scalar c = true) cps.
Hypothesis no_zero : 0 ∉ cps.
Hypothesis no_mark : 65279 ∉ cps.

(** What a slice adds. *)
Lemma chunk_of_text c1 c2 bytes : cps = c1 ++ c2 -> bytes `prefix_of` utf8 c2 ->
  exists d1 d2, c2 = d1 ++ d2 /\ followChunk bytes = Some (utf16 d1, length (utf8 d1)).
Proof using scalars no_zero no_mark.
  intros E Hp. rewrite E in scalars, no_zero, no_mark. apply Forall_app in scalars as [_ Hs].
  rewrite not_elem_of_app in no_zero. rewrite not_elem_of_app in no_mark.
  destruct (followChunk_whole_characters c2 bytes) as (d1 & d2 & E2 & Hf & _); [done | tauto | done | |eauto].
  apply (no_bom c2); [done | tauto | done].
Qed.
Lemma inv_progress f i e text n : follow_inv f -> fo_effects f !! i = Some e -> ef_live e = true ->
  forall cps1 cps2, cps = cps1 ++ cps2 -> sh_key (fo_acc f) = k -> text = utf16 cps1 -> n = base + Z.of_nat (length (utf8 cps1)) ->
  follow_inv (end_poll i {| fo_acc := {| sh_key := k; sh_text := text; sh_stopped := sh_stopped (fo_acc f) |};
                            fo_progress := (k, n); fo_effects := fo_effects f |}).
Proof.
  intros [_ E L] He Hl c1 c2 Ec Ek -> ->. split.
  - by exists c1, c2.
  - cbn. apply Forall_forall. intros x (j & Hj)%list_elem_of_lookup. rewrite Forall_forall in E.
    destruct (decide (i = j)) as [<-|Hne].
    + rewrite list_lookup_alter_eq, He in Hj. injection Hj as <-. split; [|done]. cbn. by apply (E e (list_elem_of_lookup_2 _ _ _ He)).
    + rewrite list_lookup_alter_ne in Hj by done. pose proof (L _ _ Hj) as Lj. pose proof (L _ _ He Hl) as Li.
      destruct (E x (list_elem_of_lookup_2 _ _ _ Hj)) as (Hk & _ & Hp). split; [done|]. split; [|exact Hp]. intros Hx. specialize (Lj Hx). lia.
  - cbn. intros j x. rewrite length_alter. destruct (decide (i = j)) as [<-|Hne].
    + intros _ _. by apply (L i e).
    + rewrite list_lookup_alter_ne by done. apply L.
Qed.
(** The reason following stopped does not matter to what is shown. *)
Lemma inv_reason f a : follow_inv f -> sh_key a = sh_key (fo_acc f) -> sh_text a = sh_text (fo_acc f) ->
  follow_inv {| fo_acc := a; fo_progress := fo_progress f; fo_effects := fo_effects f |}.
Proof.
  intros [(c1 & c2 & Ec & Ek & Et & Ep) E L] Hk Ht. split; [|done|done]. exists c1, c2. cbn. by rewrite Hk, Ht.
Qed.
Lemma inv_bytes f i e known bytes : follow_inv f -> fo_effects f !! i = Some e -> ef_poll e = Some (AwaitBytes known bytes) ->
  follow_inv (on_bytes notText i e known bytes f).
Proof using scalars no_zero no_mark.
  intros H He Hpoll. pose proof H as [(c1 & c2 & Ec & Ek & Et & Ep) E _]. unfold on_bytes.
  destruct (ef_live e) eqn:Hl.
  2: { destruct (followChunk bytes) as [[text consumed]|]; by apply inv_end. }
  destruct (proj1 (Forall_forall _ _) E e (list_elem_of_lookup_2 _ _ _ He)) as (Hk & Hkn & Hb). specialize (Hb _ Hpoll). cbn in Hb.
  assert (Hn : known = base + Z.of_nat (length (utf8 c1))) by (rewrite (Hkn Hl _ known Hpoll eq_refl), Ep; done).
  assert (drop (Z.to_nat known) (copy ++ utf8 cps) = utf8 c2) as Ed.
  { replace (Z.to_nat known) with (length (copy ++ utf8 c1)) by (rewrite length_app; lia). by rewrite Ec, utf8_app, (assoc_L (++)), drop_app_length. }
  rewrite Ed in Hb. clear Ed. destruct (chunk_of_text c1 c2 bytes Ec Hb) as (d1 & d2 & E2 & ->). cbn [negb].
  set (a := if nonempty (utf16 d1) then _ else _).
  assert (Ha : sh_key a = k /\ sh_text a = utf16 (c1 ++ d1)).
  { unfold a. rewrite utf16_app. destruct (utf16 d1) as [|x r] eqn:Ed; cbn [nonempty].
    - by rewrite app_nil_r.
    - cbn. by rewrite Hk, (shown_of_inv f Ek), Et. }
  destruct Ha as [Ha1 Ha2]. pose proof (inv_progress f i e (utf16 (c1 ++ d1)) (known + Z.of_nat (length (utf8 d1))) H He Hl (c1 ++ d1) d2) as Hp.
  eapply (inv_reason _ a) in Hp; [| by rewrite Ec, E2, (assoc_L (++)) | done | done | rewrite utf8_app, length_app; lia | done | done].
  unfold end_poll, update_effect, with_effects in *. cbn in *. by rewrite Ep.
Qed.

Lemma followed_inv f : followed f -> follow_inv f.
Proof using scalars no_zero no_mark.
  induction 1 as [|ev f Hf IH Hh].
  { split; [|constructor | by intros i e]. exists [], cps. cbn. by rewrite Z.add_0_r. }
  assert (Hat : forall i e p m, fo_effects f !! i = Some e -> ef_poll e = Some p -> poll_known p = Some m -> ef_live e = true -> m = (fo_progress f).2).
  { intros i e p m He Hp Hm Hl. destruct IH as [_ E _]. rewrite Forall_forall in E. destruct (E e (list_elem_of_lookup_2 _ _ _ He)) as (_ & Hk & _). by eapply Hk. }
  destruct ev as [p en b|i|i ok|i size|i answer|i readable]; cbn [follow_step].
  - cbn in Hh. injection Hh as -> ->. unfold rerun. destruct en; [|by apply inv_retire].
    pose proof (inv_retire f _ IH eq_refl) as [T E L]. pose proof T as (c1 & c2 & _ & _ & _ & Ep). cbn in Ep.
    rewrite bool_decide_eq_true_2 by (by rewrite Ep). split; [exact T | |].
    + cbn in *. apply Forall_app. split; [done|]. apply Forall_singleton. split; [done|]. split; [by intros _ q m Hq | by intros q Hq].
    + cbn in *. intros i e. rewrite length_app, length_fmap. intros [Hi|[Hi Hs]]%lookup_app_Some.
      * rewrite list_lookup_fmap in Hi. apply fmap_Some in Hi as (x & _ & ->). done.
      * apply lookup_lt_Some in Hs as Hlt. cbn in Hlt. rewrite length_fmap in *. cbn. lia.
  - destruct (fo_effects f !! i); [|done]. case_match; [|done]. by apply inv_go.
  - destruct (fo_effects f !! i) as [e|] eqn:He; [|done]. repeat (case_match; try done); [|by apply inv_end].
    apply inv_go; [done| |done]. by intros m [= <-].
  - destruct (fo_effects f !! i) as [e|] eqn:He; [|done]. destruct (ef_poll e) as [[|known|known first last|known body]|] eqn:Hp; try done.
    destruct size as [n|]; [|by apply inv_end].
    unfold on_meta. destruct (ef_live e) eqn:Hl; cbn [negb]; [|by apply inv_end].
    destruct (followStep known (default known n)) as [|first last|] eqn:Ef; [by apply inv_end | | by apply inv_end, inv_stop].
    apply inv_go; [done| |].
    + intros m [= <-] e' He' _. simplify_eq. by eapply (Hat i e).
    + cbn. unfold followStep in Ef. repeat case_match; congruence.
  - destruct (fo_effects f !! i) as [e|] eqn:He; [|done]. destruct (ef_poll e) as [[|known|known first last|known body]|] eqn:Hp; try done.
    destruct answer as [[status body]|]; [|by apply inv_end].
    unfold on_slice. case_match; [apply inv_end; case_match; [by apply inv_stop | done]|].
    destruct (Z.eqb_spec status 206) as [E206|]; cbn [negb]; [|by apply inv_end]. apply inv_go; [done| |].
    + intros m [= <-] e' He' Hl'. simplify_eq. by eapply (Hat i e).
    + cbn. cbn in Hh. specialize (Hh e known first last He Hp E206). assert (first = known) as ->.
      { destruct IH as [_ E _]. rewrite Forall_forall in E. destruct (E e (list_elem_of_lookup_2 _ _ _ He)) as (_ & _ & Hk). by apply (Hk _ Hp). }
      etransitivity; [exact Hh|]. apply prefix_take.
  - destruct (fo_effects f !! i) as [e|] eqn:He; [|done]. destruct (ef_poll e) as [[|known|known first last|known body]|] eqn:Hp; try done.
    destruct readable; [|by apply inv_end]. by apply inv_bytes.
Qed.

Lemma go_on_at f i e p : fo_effects f !! i = Some e -> fo_effects (go_on i p f) !! i = Some (with_poll e (Some p)).
Proof. intros He. unfold go_on, update_effect. cbn. by rewrite list_lookup_alter_eq, He. Qed.
(** The last byte asked for when [size] bytes are there. *)
Definition last_asked (known size : Z) : Z := Z.min size (known + 1048576) - 1.
Lemma poll_honest f i e size body : followed f -> fo_effects f !! i = Some e -> ef_live e = true -> ef_timer e = true -> ef_poll e = None ->
  (fo_progress f).2 < size -> body `prefix_of` slice_of (fo_progress f).2 (last_asked (fo_progress f).2 size) ->
  exists g e', followed g /\ fo_effects g !! i = Some e' /\ ef_live e' = true /\ ef_poll e' = Some (AwaitBytes (fo_progress f).2 body) /\
    fo_progress g = fo_progress f /\ fold_left (fun f ev => step ev f) (one_poll i size body) f = step (FBytes i true) g.
Proof.
  intros Hf He Hl Ht Hp Hlt Hb. set (known := (fo_progress f).2) in *. set (top := last_asked known size) in *. cbn [one_poll fold_left].
  assert (E1 : step (FTimer i) f = go_on i AwaitClient f) by (cbn; by rewrite He, Ht, bool_decide_eq_true_2).
  set (f1 := go_on i AwaitClient f) in *. pose proof (go_on_at f i e AwaitClient He) as He1. fold f1 in He1.
  assert (E2 : step (FClient i true) f1 = go_on i (AwaitMeta known) f1) by (cbn [follow_step]; by rewrite He1).
  set (f2 := go_on i (AwaitMeta known) f1) in *. pose proof (go_on_at f1 i _ (AwaitMeta known) He1) as He2. fold f2 in He2.
  assert (E3 : step (FMeta i (Ok (Some size))) f2 = go_on i (AwaitSlice known known top) f2).
  { cbn [follow_step]. rewrite He2. cbn. unfold on_meta. cbn. rewrite Hl. cbn. unfold followStep. rewrite (proj2 (Z.ltb_ge _ _)) by lia. by rewrite (proj2 (Z.eqb_neq _ _)) by lia. }
  set (f3 := go_on i (AwaitSlice known known top) f2) in *. pose proof (go_on_at f2 i _ (AwaitSlice known known top) He2) as He3. fold f3 in He3.
  assert (E4 : step (FSlice i (Ok (206, body))) f3 = go_on i (AwaitBytes known body) f3) by (cbn [follow_step]; by rewrite He3).
  set (f4 := go_on i (AwaitBytes known body) f3) in *. pose proof (go_on_at f3 i _ (AwaitBytes known body) He3) as He4. fold f4 in He4.
  eexists f4, _. split.
  - rewrite <- E4. apply followed_step; [rewrite <- E3; apply followed_step; [rewrite <- E2; apply followed_step; [rewrite <- E1; by apply followed_step | done] | done]|].
    cbn [honest]. intros e' k' a' b' He' Hp' _. rewrite He3 in He'. injection He' as <-. cbn in Hp'. injection Hp' as <- <- <-. exact Hb.
  - split; [exact He4|]. split; [exact Hl|]. split; [done|]. split; [done|]. by rewrite E1, E2, E3, E4.
Qed.
Lemma poll_progress f i e size body : followed f -> fo_effects f !! i = Some e -> ef_live e = true -> ef_timer e = true -> ef_poll e = None ->
  (fo_progress f).2 < size -> body `prefix_of` slice_of (fo_progress f).2 (last_asked (fo_progress f).2 size) -> 10 ∈ body ->
  let f' := fold_left (fun f ev => step ev f) (one_poll i size body) f in followed f' /\ (fo_progress f).2 < (fo_progress f').2.
Proof using scalars no_zero no_mark.
  intros Hf He Hl Ht Hp Hlt Hb Hnl f'. destruct (poll_honest f i e size body Hf He Hl Ht Hp Hlt Hb) as (g & e' & Hg & He' & Hl' & Hp' & Epr & Ef).
  unfold f'. rewrite Ef. split; [by apply followed_step|]. cbn [follow_step]. rewrite He', Hp'.
  destruct (followed_inv f Hf) as [(c1 & c2 & Ec & _ & _ & Ep) _ _]. unfold on_bytes. rewrite Hl'. cbn [negb].
  assert (Hb2 : body `prefix_of` utf8 c2).
  { etransitivity; [exact Hb|]. unfold slice_of. etransitivity; [apply prefix_take|]. rewrite Ep. cbn.
    replace (Z.to_nat _) with (length (copy ++ utf8 c1)) by (rewrite length_app; lia). by rewrite Ec, utf8_app, (assoc_L (++)), drop_app_length. }
  pose proof scalars as Hs. rewrite Ec in Hs. apply Forall_app in Hs as [_ Hs]. pose proof no_zero as Hz. rewrite Ec, not_elem_of_app in Hz. pose proof no_mark as Hm. rewrite Ec, not_elem_of_app in Hm.
  destruct (followChunk_whole_characters c2 body) as (d1 & d2 & E2 & Hfc & Hne); [done | tauto | done | by apply (no_bom c2); [done | tauto |]|].
  rewrite Hfc. cbn. destruct d1 as [|c d1]; [by destruct Hne; [left|]|]. rewrite utf8_cons, length_app. pose proof (utf8_of_length c). lia.
Qed.
End Followed.


Definition sample_log : list FollowEvent :=
  FRerun (js "/log") true (Some 3) :: one_poll 0 7 [195; 169; 10; 226] ++ FRerun (js "/log") false (Some 3) :: FRerun (js "/log") true (Some 3)
  :: one_poll 1 10 [226; 130; 172; 10].
(** A byte-order mark that starts a chunk of the appended text is dropped. *)
Theorem follow_drops_mark :
  let evs := FRerun (js "/log") true (Some 0) :: one_poll 0 5 (utf8 [65279; 97; 10]) in
  shown_text (js "/log", Some 0) (fo_acc (follow_run [] [] evs (follow_init (js "/log") (Some 0)))) = js "a" ++ [10].
Proof. vm_compute. reflexivity. Qed.

(** The copy a key names is told by its size alone: coming back to an earlier size after
    another copy was followed, the old text is still shown and is appended again. *)
Theorem follow_repeats_revisited_size : exists evs,
  shown_text (js "/log", Some 3) (fo_acc (follow_run [] [] evs (follow_init (js "/log") (Some 3)))) = js "ab" ++ [10] ++ js "ab" ++ [10].
Proof.
  exists (FRerun (js "/log") true (Some 3) :: one_poll 0 6 [97; 98; 10] ++ FRerun (js "/log") true (Some 6)
          :: FRerun (js "/log") true (Some 3) :: one_poll 2 6 [97; 98; 10]). reflexivity.
Qed.

(** ** Kinds, neighbours and names *)

Section KindLemmas.
Context `{U : Unicode}.

(** Parameters of a MIME type do not matter, and a type of a known family decides alone. *)
Lemma mime_parameters mime params : 59 ∉ mime -> mime_base (mime ++ 59 :: params) = mime_base mime.
Proof.
  intros H. unfold mime_base. f_equal. induction mime as [|c m IH]; [done|]. apply not_elem_of_cons in H as [Hc Hm].
  cbn [app take_while]. rewrite (proj2 (Z.eqb_neq c 59)) by congruence. cbn [negb]. by rewrite IH.
Qed.
Lemma kind_by_mime name name' mime k : kind_of_mime (toLowerCase (mime_base mime)) = Some k -> nonempty (toLowerCase (mime_base mime)) = true ->
  previewKindOf name (Some mime) = k /\ previewKindOf name' (Some mime) = k.
Proof. intros H Hn. unfold previewKindOf. cbn -[kind_of_mime]. by rewrite Hn, H. Qed.

Lemma find_index_some {A} (P : A -> bool) l i : find_index P l = Some i -> exists x, l !! i = Some x /\ P x = true /\ forall j y, (j < i)%nat -> l !! j = Some y -> P y = false.
Proof.
  revert i. induction l as [|x l IH]; intros i; cbn [find_index]; [done|]. destruct (P x) eqn:E.
  - intros [= <-]. exists x. repeat split; [done|]. intros j y. lia.
  - intros (j & Hj & ->)%fmap_Some. destruct (IH _ Hj) as (y & H1 & H2 & H3). exists y. repeat split; [done..|].
    intros [|m] z Hm; cbn; [by intros [= <-] | intros Hz; apply (H3 m); [lia | done]].
Qed.
Lemma find_index_none {A} (P : A -> bool) l : find_index P l = None <-> Forall (fun x => P x = false) l.
Proof.
  induction l as [|x l IH]; cbn [find_index]; [by split|]. destruct (P x) eqn:E.
  - split; [done|]. intros H. inversion H. congruence.
  - rewrite fmap_None, IH. split; [by constructor | by inversion 1].
Qed.
(** The preview pager: the previewable siblings in listing order, opened at the entry itself, or
    nowhere when it is not among them. *)
Theorem previewableSiblings_correct siblings path :
  let '(entries, index) := previewableSiblings siblings path in
  (forall e, e ∈ entries <-> e ∈ siblings /\ isPreviewable e = true) /\ entries `sublist_of` siblings /\
  match index with
  | Some i => exists e, entries !! i = Some e /\ entry_path e = path
  | None => forall e, e ∈ entries -> entry_path e <> path
  end.
Proof.
  unfold previewableSiblings. split; [intros e; apply elem_filter_bool|]. split.
  - induction siblings as [|e s IH]; cbn; [constructor|]. destruct (isPreviewable e); by constructor.
  - destruct (find_index _ _) as [i|] eqn:E.
    + apply find_index_some in E as (e & He & Hp & _). exists e. by apply bool_decide_eq_true in Hp.
    + apply find_index_none in E. rewrite Forall_forall in E. intros e He. specialize (E e He). by apply bool_decide_eq_false in E.
Qed.
(** Preloading fetches at most the two images next to the one on screen, and nothing on a
    metered network without consent, whatever the network query or the fetches answer. *)
Theorem preload_bounded {W} (transports : M W jserror (list jstr)) fetchFile entries index allow w :
  let '(w', fetched) := preloadNeighbours transports fetchFile entries index allow w in
  (length fetched <= 2)%nat /\
  (forall e, e ∈ fetched -> entry_kind e = PKimage /\ exists i, entries !! i = Some e /\ (Z.of_nat i = index - 1 \/ Z.of_nat i = index + 1)) /\
  (allow = false -> forall w1 ts, transports w = (w1, Ok ts) -> isCellularOnly ts = true -> fetched = []).
Proof.
  unfold preloadNeighbours. set (ts := neighbourImages entries index).
  assert (Hts : forall e, e ∈ ts -> entry_kind e = PKimage /\ exists i, entries !! i = Some e /\ (Z.of_nat i = index - 1 \/ Z.of_nat i = index + 1)).
  { intros e [He Hk%bool_decide_eq_true]%elem_filter_bool. split; [done|]. apply list_elem_of_omap in He as (i & [Hi Hr]%elem_filter_bool & He).
    breflect. exists (Z.to_nat i). split; [done|]. rewrite Z2Nat.id by lia. apply elem_of_cons in Hi as [->|Hi]; [by left|].
    apply list_elem_of_singleton in Hi as ->. by right. }
  assert (Hlen : (length ts <= 2)%nat).
  { unfold ts, neighbourImages. etrans; [apply List.filter_length_le|].
    assert (Hom : forall l, (length (omap (fun i => entries !! Z.to_nat i) l) <= length l)%nat).
    { intros l. induction l as [|i l IH]; [done|]. cbn. case_match; cbn; lia. }
    etrans; [apply Hom|]. etrans; [apply List.filter_length_le|]. cbn. lia. }
  destruct ts as [|t ts'] eqn:Et; [split; [cbn; lia|]; split; [by intros e ?%not_elem_of_nil | done]|].
  destruct (transports w) as [w1 [r|err]]; cbn [shouldPreloadOnCellular].
  - destruct (negb _) eqn:Hc; [split; [cbn; lia|]; split; [by intros e ?%not_elem_of_nil | done]|].
    split; [done|]. split; [done|]. intros -> w2 ts2 [= <- <-] Hcell. unfold shouldPreloadOnCellular in Hc. by rewrite Hcell in Hc.
  - cbn. split; [done|]. split; [done|]. by intros _ w2 ts2.
Qed.
End KindLemmas.

(** The file name handed to another app holds only word characters, dots and dashes, has one
    to 120 characters and is never the current or the parent folder. *)
Theorem safeFileName_safe name : let s := safeFileName name in
  Forall (fun c => file_name_char c = true) s /\ (1 <= length s <= 120)%nat /\ s <> [dot] /\ s <> [dot; dot].
Proof.
  unfold safeFileName. set (m := (fun c => _) <$> name). set (d := drop_while (Z.eqb dot) m).
  assert (Hm : Forall (fun c => file_name_char c = true) m).
  { apply Forall_fmap, Forall_true. intros c. cbn. destruct (file_name_char c) eqn:E; [exact E | done]. }
  assert (Hd : Forall (fun c => file_name_char c = true) d).
  { unfold d. clear -Hm. induction Hm as [|c m Hc Hm IH]; cbn [drop_while]; [constructor|]. destruct (dot =? c); [done | by constructor]. }
  assert (Hdot : forall r, d <> dot :: r).
  { unfold d. clear. induction m as [|c m IH]; cbn [drop_while]; [done|]. destruct (dot =? c) eqn:E; [done|]. intros r [= -> _]. done. }
  assert (Hs : slice_last 120 d <> [] -> (1 <= length (slice_last 120 d) <= 120)%nat).
  { unfold slice_last. intros Hne. rewrite length_drop. destruct (drop (length d - 120) d) eqn:Ed; [done|].
    apply (f_equal length) in Ed. rewrite length_drop in Ed. cbn in Ed. lia. }
  assert (Hshort : forall t, slice_last 120 d = t -> (length t < 120)%nat -> t = d).
  { unfold slice_last. intros t <- L. rewrite length_drop in L. by replace (length d - 120)%nat with 0%nat by lia. }
  destruct (slice_last 120 d) as [|c r] eqn:E; [cbv zeta; split; [by repeat constructor | by repeat split; vm_compute; try lia]|].
  cbv zeta. split; [rewrite <- E; by apply Forall_drop|]. split; [apply Hs; done|].
  split; intros F; (apply (Hdot (tail (c :: r))); rewrite F; symmetry; apply Hshort; [by rewrite F | cbn; lia]).
Qed.

(** The type table answers for an inherited member: such a file is offered with no usable type. *)
Theorem mime_inherited_member `{U : Unicode} : externalMime (js "notes.constructor") None = None.
Proof.
  unfold externalMime, mimeFromExtension. cbn [fmap option_fmap option_map].
  assert (E : previewExtension (js "notes.constructor") = js "constructor").
  { change (toLowerCase (js "constructor") = js "constructor"). rewrite lower_ascii by (by repeat constructor). reflexivity. }
  rewrite E. reflexivity.
Qed.
