(* ===== verification/FileCaches.v ===== *)
(** * Cached files

    The on-disk caches of file bodies: names and eviction of [features/preview/previewFile.ts]
    and [features/explorer/thumbnails.ts], fetching a preview, fetching a thumbnail with its
    retries, the copies handed to other apps ([features/preview/externalFiles.ts]) and the
    emptying of all of them when a computer is forgotten ([services.ts]).  A folder is the
    list of its files; the native fetch is a parameter that answers a request, and its file
    is published only on success, as its documentation says. *)

From Stdlib Require Import ZArith Lia Bool.
From Stdlib Require List.
From stdpp Require sorting.
From S2P Require Import Prelude JsCollections JsString Json Errors Models Host Utf8 AgentClient Storage HostStore Services Offline ExplorerLogic Preview Regex.
Local Open Scope js_scope.

(** ** Names *)

(** [Math.imul(a, b) >>> 0]. *)
Definition imul_u32 (a b : Z) : Z := (a * b) mod 2 ^ 32.
Definition hash_step (h : Z * Z) (c : jchar) : Z * Z :=
  (imul_u32 (Z.lxor h.1 c) 0x01000193, imul_u32 (h.2 + c) 0x85ebca6b).
Definition hex8 (n : Z) : jstr := pad_start 8 48 (nat_to_string 16 n).
Definition hashKey (key : jstr) : jstr :=
  let h := fold_left hash_step key (0x811c9dc5, 0x01000193) in hex8 h.1 ++ hex8 h.2.
Definition at_sign : jchar := 64.
Definition thumbnailKey (hostId path : jstr) (size : Z) (version : jstr) : jstr :=
  hostId ++ [at_sign] ++ path ++ [at_sign] ++ string_of_Z size ++ [at_sign] ++ version.
Definition busyDelayMs (attempt : Z) (retryAfter : option Z) : Z :=
  match retryAfter with None => 200 * attempt | Some s => Z.min (Z.max s 1) 2 * 1000 end.

(** ** Folders and eviction *)

Record CacheFile := { cf_name : jstr; cf_size : Z; cf_mtime : Z }.
Definition has_file (name : jstr) (files : list CacheFile) : bool := List.existsb (fun f => bool_decide (cf_name f = name)) files.
Definition put_file (f : CacheFile) (files : list CacheFile) : list CacheFile :=
  List.filter (fun g => negb (bool_decide (cf_name g = cf_name f))) files ++ [f].
Definition bytes_of (files : list CacheFile) : Z := foldr (fun f n => cf_size f + n) 0 files.
Definition by_mtime (a b : CacheFile) : Z := cf_mtime a - cf_mtime b.
(** The loop over the files, oldest first: those it deletes.  A deletion that throws ends it. *)
Fixpoint evict_loop (can_delete : CacheFile -> bool) (max total : Z) (files : list CacheFile) : list CacheFile :=
  match files with
  | [] => []
  | f :: r =>
      if 5 * total <=? 4 * max then []
      else if can_delete f then f :: evict_loop can_delete max (total - cf_size f) r else []
  end.
Definition evicted (can_delete : CacheFile -> bool) (max : Z) (files : list CacheFile) : list CacheFile :=
  let total := bytes_of files in
  if total <=? max then [] else evict_loop can_delete max total (sort_by by_mtime files).
(** Those it reaches: a file leaves the in-memory index before it is deleted. *)
Fixpoint evict_reached (can_delete : CacheFile -> bool) (max total : Z) (files : list CacheFile) : list CacheFile :=
  match files with
  | [] => []
  | f :: r =>
      if 5 * total <=? 4 * max then []
      else f :: (if can_delete f then evict_reached can_delete max (total - cf_size f) r else [])
  end.
Definition reached (can_delete : CacheFile -> bool) (max : Z) (files : list CacheFile) : list CacheFile :=
  let total := bytes_of files in
  if total <=? max then [] else evict_reached can_delete max total (sort_by by_mtime files).
Definition without (gone files : list CacheFile) : list CacheFile :=
  List.filter (fun f => negb (has_file (cf_name f) gone)) files.

Definition PREVIEW_CACHE_BYTES : Z := 256 * 1024 * 1024.
Definition THUMB_CACHE_BYTES : Z := 32 * 1024 * 1024.
Definition is_part (name : jstr) : bool := ends_with (js ".part") name.
(** [evictIfNeeded(keep)] of the previews. *)
Definition evict_previews (can_delete : CacheFile -> bool) (keep : jstr) (files : list CacheFile) : list CacheFile :=
  without (evicted can_delete PREVIEW_CACHE_BYTES
             (List.filter (fun f => negb (bool_decide (cf_name f = keep)) && negb (is_part (cf_name f))) files)) files.

(** ** Previews *)

Definition MAX_IN_MEMORY_PREVIEW_BYTES : Z := 50 * 1024 * 1024.
Definition MAX_AUDIO_PREVIEW_BYTES : Z := 100 * 1024 * 1024.
Inductive PreviewError := TooLarge (size : Z) | PreviewFailed (e : jserror).
(** URL, headers and pin of a fetch, where it writes and how much it accepts. *)
Record Fetch := { ft_url : jstr; ft_headers : list (jstr * jstr); ft_pin : jstr; ft_dest : jstr; ft_max : option Z }.
Record FetchReply := { fa_status : Z; fa_retryAfter : option Z; fa_bytes : Z }.
Definition is_2xx (status : Z) : bool := (200 <=? status) && (status <? 300).

Record Bodies := { bd_svc : Services; bd_files : list CacheFile; bd_vault : Vault; bd_fetches : list Fetch }.
Definition with_files (b : Bodies) (files : list CacheFile) : Bodies :=
  {| bd_svc := bd_svc b; bd_files := files; bd_vault := bd_vault b; bd_fetches := bd_fetches b |}.
Definition with_vault (b : Bodies) (v : Vault) : Bodies :=
  {| bd_svc := bd_svc b; bd_files := bd_files b; bd_vault := v; bd_fetches := bd_fetches b |}.

Section Fetching.
Context `{U : Unicode} `{J : JsonCodec}.
(** The native side: the answer to the [n]-th fetch, the clock, deletions, pins, and the
    authenticity of an encrypted copy. *)
Context (native : nat -> Fetch -> result jserror FetchReply) (now : Z) (can_delete : CacheFile -> bool)
  (isPinnedFolder : jstr -> jstr -> bool) (authentic : bool).

(** One native fetch; the file is there afterwards when the answer is a success. *)
Definition fetchToFile (q : Fetch) : M Bodies jserror FetchReply := fun b =>
  let r := native (length (bd_fetches b)) q in
  ({| bd_svc := bd_svc b;
      bd_files := match r with
                  | Ok a => if is_2xx (fa_status a) then put_file {| cf_name := ft_dest q; cf_size := fa_bytes a; cf_mtime := now |} (bd_files b) else bd_files b
                  | Err _ => bd_files b
                  end;
      bd_vault := bd_vault b; bd_fetches := bd_fetches b ++ [q] |}, r).
Definition on_svc {A} (m : M Services jserror A) : M Bodies jserror A := fun b =>
  let (s, r) := m (bd_svc b) in
  ({| bd_svc := s; bd_files := bd_files b; bd_vault := bd_vault b; bd_fetches := bd_fetches b |}, r).
(** [client.downloadSpec(path)] of a fresh client. *)
Definition download_spec (host : Host) (path : jstr) : M Bodies jserror (jstr * list (jstr * jstr) * jstr) :=
  on_svc (c <- clientForHost host false None;; on_snet (downloadSpec c path)).
Definition keep_copy (host : Host) (e : Entry) (name : jstr) (replace : bool) (b : Bodies) : Bodies :=
  let size := default 0 (cf_size <$> List.find (fun f => bool_decide (cf_name f = name)) (bd_files b)) in
  with_vault b (keepOfflineCopy isPinnedFolder (fun _ => size) host e name replace (bd_vault b)).1.

Definition opt_text {A} (show : A -> jstr) (o : option A) : jstr := default [] (show <$> o).
Definition previewCacheName (hostId : jstr) (e : Entry) : jstr :=
  let ext := previewExtension (entry_name e) in
  hashKey (hostId ++ [at_sign] ++ entry_path e ++ [at_sign] ++ default [] (entry_modified e) ++ [at_sign] ++ opt_text string_of_Z (entry_size e))
  ++ match ext with [] => [] | _ => dot :: ext end.
Definition too_large (e : Entry) (maxBytes : Z) : bool := from_option (fun s => maxBytes <? s) false (entry_size e).
(** After a fetch that failed with [e]. *)
Definition preview_failed (host : Host) (entry : Entry) (name : jstr) (maxBytes : Z) (e : jserror) : M Bodies PreviewError jstr := fun b =>
  if bool_decide (errCode e = Some (js "ERR_TOO_LARGE")) then (b, Err (TooLarge (default (maxBytes + 1) (entry_size entry))))
  else if bool_decide (errCode e = Some ERR_CONNECTION) then
    let body := map_get (host_id host, entry_path entry) (bodies (bd_vault b)) in
    let (v, r) := restoreOfflineCopy authentic host entry (bd_vault b) in
    match r with
    | Ok true => (with_vault (with_files b (put_file {| cf_name := name; cf_size := default 0 body; cf_mtime := now |} (bd_files b))) v, Ok name)
    | _ => (with_vault b v, Err (PreviewFailed e))
    end
  else (b, Err (PreviewFailed e)).
Definition fetchPreviewFile (host : Host) (entry : Entry) (maxBytes : Z) : M Bodies PreviewError jstr := fun b =>
  if too_large entry maxBytes then (b, Err (TooLarge (default 0 (entry_size entry))))
  else
    let name := previewCacheName (host_id host) entry in
    if has_file name (bd_files b) then (keep_copy host entry name false b, Ok name)
    else
      let (b1, spec) := download_spec host (entry_path entry) b in
      match spec with
      | Err e => (b1, Err (PreviewFailed e))
      | Ok (url, headers, pin) =>
          let (b2, r) := fetchToFile {| ft_url := url; ft_headers := headers; ft_pin := pin; ft_dest := name; ft_max := Some maxBytes |} b1 in
          match r with
          | Err e => preview_failed host entry name maxBytes e b2
          | Ok a =>
              if negb (is_2xx (fa_status a)) then (b2, Err (PreviewFailed (statusError (fa_status a))))
              else (keep_copy host entry name true (with_files b2 (evict_previews can_delete name (bd_files b2))), Ok name)
          end
      end.

(** ** Copies handed to other apps *)

Definition MAX_EXTERNAL_BYTES : Z := 1024 * 1024 * 1024.
(** The folder is emptied first; [bd_files] is that folder here. *)
Definition copyForHandOff (host : Host) (entry : Entry) : M Bodies jserror jstr :=
  (fun b => (with_files b [], Ok tt));;
  spec <- download_spec host (entry_path entry);;
  let name := safeFileName (entry_name entry) in
  a <- fetchToFile {| ft_url := spec.1.1; ft_headers := spec.1.2; ft_pin := spec.2; ft_dest := name; ft_max := Some MAX_EXTERNAL_BYTES |};;
  if is_2xx (fa_status a) then ret name else throw (statusError (fa_status a)).

(** ** Thumbnails *)

Definition MAX_BUSY_RETRIES : Z := 3.
(** [resolved] maps a key to the file it was fetched to, [negative] holds the keys marked unavailable. *)
Record Thumbs := { th_bodies : Bodies; th_resolved : list (jstr * jstr); th_negative : list jstr }.
Definition with_bodies (t : Thumbs) (b : Bodies) : Thumbs := {| th_bodies := b; th_resolved := th_resolved t; th_negative := th_negative t |}.
Definition on_bodies {A} (m : M Bodies jserror A) : M Thumbs jserror A := fun t =>
  let (b, r) := m (th_bodies t) in (with_bodies t b, r).
(** [evictIfNeeded()] of the thumbnails. *)
Definition evict_thumbs (t : Thumbs) : Thumbs :=
  let files := bd_files (th_bodies t) in
  {| th_bodies := with_files (th_bodies t) (without (evicted can_delete THUMB_CACHE_BYTES files) files);
     th_resolved := List.filter (fun kv => negb (has_file kv.2 (reached can_delete THUMB_CACHE_BYTES files))) (th_resolved t);
     th_negative := th_negative t |}.
(** What [load] answers and the times it slept; [None] is running out of fuel. *)
Fixpoint thumb_attempts (fuel : nat) (aborted : Z -> bool) (client : Client) (path : jstr) (size : Z) (name : jstr) (attempt : Z) (slept : list Z)
    : Thumbs -> option (Thumbs * result jserror (option jstr) * list Z) := fun t =>
  match fuel with
  | O => None
  | S f =>
      if aborted attempt then Some (t, Ok None, slept)
      else
        let (t1, spec) := on_bodies (on_svc (on_snet (thumbnailSpec client path size))) t in
        match spec with
        | Err e => Some (t1, Err e, slept)
        | Ok (url, headers, pin) =>
            let (t2, r) := on_bodies (fetchToFile {| ft_url := url; ft_headers := headers; ft_pin := pin; ft_dest := name; ft_max := None |}) t1 in
            match r with
            | Err e => Some (t2, Err e, slept)
            | Ok a =>
                if is_2xx (fa_status a) then Some (evict_thumbs t2, Ok (Some name), slept)
                else if fa_status a =? 404 then Some (t2, Ok None, slept)
                else if (fa_status a =? 429) && (attempt <=? MAX_BUSY_RETRIES) then
                  thumb_attempts f aborted client path size name (attempt + 1) (slept ++ [busyDelayMs attempt (fa_retryAfter a)]) t2
                else Some (t2, Err (PlainError (js "thumbnail HTTP " ++ string_of_Z (fa_status a))), slept)
            end
        end
  end.
Definition thumb_name (key : jstr) : jstr := hashKey key ++ js ".jpg".
Definition load_thumb (aborted : Z -> bool) (hostId path : jstr) (size : Z) (key : jstr)
    : Thumbs -> option (Thumbs * result jserror (option jstr) * list Z) := fun t =>
  let name := thumb_name key in
  if has_file name (bd_files (th_bodies t)) then Some (t, Ok (Some name), [])
  else
    let (t1, hosts) := on_bodies (on_svc (on_sdisk listHosts)) t in
    match hosts with
    | Err e => Some (t1, Err e, [])
    | Ok hs =>
        match host_of hostId hs with
        | None => Some (t1, Ok None, [])
        | Some host =>
            let (t2, c) := on_bodies (on_svc (clientForHost host false None)) t1 in
            match c with
            | Err e => Some (t2, Err e, [])
            | Ok client => thumb_attempts 4 aborted client path size name 1 [] t2
            end
        end
    end.
(** What [thumbnails.request] knows without asking the queue; [None]: it queues a load. *)
Definition known_thumb (key : jstr) (t : Thumbs) : option (option jstr) :=
  if set_has key (th_negative t) then Some None
  else match map_get key (th_resolved t) with Some (c :: r) => Some (Some (c :: r)) | _ => None end.
(** The answer of the queued load, as the request passes it on. *)
Definition note_thumb (key : jstr) (uri : option jstr) (t : Thumbs) : Thumbs :=
  match uri with
  | Some (c :: r) => {| th_bodies := th_bodies t; th_resolved := map_set key (c :: r) (th_resolved t); th_negative := th_negative t |}
  | _ => t
  end.
Definition markUnavailable (key : jstr) (t : Thumbs) : Thumbs :=
  {| th_bodies := th_bodies t; th_resolved := th_resolved t; th_negative := set_add key (th_negative t) |}.
(** Forgetting a computer empties the folders; a deletion that throws ends its folder's loop. *)
Fixpoint empty_folder (files : list CacheFile) : list CacheFile :=
  match files with [] => [] | f :: r => if can_delete f then empty_folder r else files end.
Definition clear_thumbs (t : Thumbs) : Thumbs := with_bodies t (with_files (th_bodies t) (empty_folder (bd_files (th_bodies t)))).
End Fetching.

(** ** The roots a computer last reported *)

Module Roots.
Section Roots.
Context `{J : JsonCodec}.
(** Drives are stored and returned as the objects they are. *)
Record CachedRoots := { cr_roots : list jstr; cr_os : option jstr; cr_drives : option (list json) }.
Definition roots_key (hostId : jstr) : jstr := js "rfe_roots_v1_" ++ hostId.
Definition roots_json (v : CachedRoots) : json := JObj (
  [(js "roots", JArr (JStr <$> cr_roots v))]
  ++ match cr_os v with Some o => [(js "os", JStr o)] | None => [] end
  ++ match cr_drives v with Some d => [(js "drives", JArr d)] | None => [] end).
Definition saveRoots (hostId : jstr) (v : CachedRoots) : IO unit := KeyValueStore.set (roots_key hostId) (json_stringify (roots_json v)).
Definition is_drive (j : json) : bool := match j with JObj fs => match field (js "path") fs with Some (JStr _) => true | _ => false end | _ => false end.
Definition is_jstr (j : json) : bool := match j with JStr _ => true | _ => false end.
Definition parse_roots (raw : option jstr) : option CachedRoots :=
  match raw with
  | None | Some [] => None
  | Some t =>
      match json_parse t with
      | Some (JObj fs) =>
          match field (js "roots") fs with
          | Some (JArr l) =>
              if List.forallb is_jstr l
              then Some {| cr_roots := strings_of l; cr_os := as_str (field (js "os") fs);
                           cr_drives := match field (js "drives") fs with Some (JArr d) => Some (List.filter is_drive d) | _ => None end |}
              else None
          | _ => None
          end
      | _ => None
      end
  end.
Definition loadRoots (hostId : jstr) : IO (option CachedRoots) :=
  raw <- KeyValueStore.get (roots_key hostId);; ret (parse_roots raw).
Definition forgetRoots (hostId : jstr) : IO unit := KeyValueStore.remove (roots_key hostId).

(** What was saved is read back, as long as the drives are objects with a path. *)
Theorem roots_roundtrip v : json_wf (roots_json v) = true -> Forall (fun d => is_drive d = true) (default [] (cr_drives v)) ->
  json_stringify (roots_json v) <> [] -> parse_roots (Some (json_stringify (roots_json v))) = Some v.
Proof.
  intros Hwf Hd Hne. unfold parse_roots. destruct (json_stringify (roots_json v)) as [|c t] eqn:E; [done|]. rewrite <- E, json_roundtrip by done.
  assert (Hs : List.forallb is_jstr (JStr <$> cr_roots v) = true) by (induction (cr_roots v); done).
  assert (Hf : forall d, cr_drives v = Some d -> List.filter is_drive d = d).
  { intros d Ed. rewrite Ed in Hd. by apply List.forallb_filter_id, forallb_forall_true. }
  pose proof (strings_of_map (cr_roots v)) as Hm. unfold roots_json. set (l := JStr <$> cr_roots v) in *. clearbody l.
  destruct v as [roots os drives]. cbn [cr_roots cr_os cr_drives] in *. set (fs := _ ++ _).
  assert (F1 : field (js "roots") fs = Some (JArr l)) by (by destruct os, drives).
  assert (F2 : field (js "os") fs = JStr <$> os) by (by destruct os, drives).
  assert (F3 : field (js "drives") fs = JArr <$> drives) by (by destruct os, drives).
  rewrite F1, F2, F3, Hs, Hm. destruct os, drives; cbn -[List.filter]; by rewrite ?Hf.
Qed.
End Roots.
End Roots.

(** ** Names are safe *)

Lemma digit_char_hex d : 0 <= d < 16 -> is_hex_lower (digit_char d) = true.
Proof.
  intros H. unfold digit_char, is_hex_lower, is_digit. destruct (d <? 10) eqn:E; breflect.
  - rewrite !(proj2 (Z.leb_le _ _)) by lia. done.
  - rewrite orb_true_iff. right. rewrite !(proj2 (Z.leb_le _ _)) by lia. done.
Qed.
Lemma hex8_shape n : 0 <= n < 2 ^ 32 -> length (hex8 n) = 8%nat /\ Forall (fun c => is_hex_lower c = true) (hex8 n).
Proof.
  intros Hn. set (k := S (Z.to_nat (Z.log2 n))). set (ds := digits_fuel k 16 n).
  assert (Hlen : (length ds <= 8)%nat).
  { pose proof (digits_fuel_length k 16 n ltac:(lia) (conj (proj1 Hn) (log2_bound 16 n ltac:(lia) (proj1 Hn))) ltac:(unfold k; lia)) as [H _].
    fold ds in H. destruct (decide (length ds <= 8)%nat) as [|Hgt]; [done|]. exfalso.
    assert (16 ^ 8 <= 16 ^ (Z.of_nat (length ds) - 1)) by (apply Z.pow_le_mono_r; lia).
    change (16 ^ 8) with (2 ^ 32) in *. lia. }
  unfold hex8, nat_to_string. fold k ds. split.
  - unfold pad_start. rewrite length_app, length_replicate, length_fmap, length_reverse. lia.
  - unfold pad_start. apply Forall_app. split; [by apply Forall_replicate|]. apply Forall_fmap, Forall_reverse.
    eapply Forall_impl; [apply (digits_fuel_bounds k 16 n); lia|]. intros d Hd. by apply digit_char_hex.
Qed.
Lemma hash_range key h : 0 <= h.1 < 2 ^ 32 -> 0 <= h.2 < 2 ^ 32 ->
  let h' := fold_left hash_step key h in 0 <= h'.1 < 2 ^ 32 /\ 0 <= h'.2 < 2 ^ 32.
Proof.
  revert h. induction key as [|c key IH]; intros h H1 H2; [done|]. cbn [fold_left]. apply IH; apply Z.mod_pos_bound; lia.
Qed.
(** Every cache name is sixteen hexadecimal digits, whatever host, path or version it stands
    for: no path of a computer can leave the cache folder. *)
Theorem hashKey_shape key : length (hashKey key) = 16%nat /\ Forall (fun c => is_hex_lower c = true) (hashKey key).
Proof.
  destruct (hash_range key (0x811c9dc5, 0x01000193)) as [H1 H2]; [cbn; lia | cbn; lia|]. unfold hashKey.
  destruct (hex8_shape _ H1) as [L1 F1]. destruct (hex8_shape _ H2) as [L2 F2].
  rewrite length_app, L1, L2. split; [done|]. by apply Forall_app.
Qed.

(** ** Eviction *)

Section Evict.
Context (can_delete : CacheFile -> bool) (max : Z).

Lemma evict_loop_prefix total files : exists n, evict_loop can_delete max total files = take n files.
Proof.
  revert total. induction files as [|f r IH]; intros total; cbn [evict_loop]; [by exists 0%nat|].
  destruct (5 * total <=? 4 * max); [by exists 0%nat|]. destruct (can_delete f); [|by exists 0%nat].
  destruct (IH (total - cf_size f)) as [n ->]. by exists (S n).
Qed.
Lemma bytes_app a b : bytes_of (a ++ b) = bytes_of a + bytes_of b.
Proof. unfold bytes_of. induction a as [|f a IH]; cbn; [done|]. rewrite IH. lia. Qed.
(** The loop stops once four fifths of the budget are left, or at the end. *)
Lemma evict_loop_enough total files : Forall (fun f => can_delete f = true) files -> 0 <= max -> bytes_of files <= total ->
  5 * (total - bytes_of (evict_loop can_delete max total files)) <= 4 * max \/ evict_loop can_delete max total files = files.
Proof.
  intros Hd Hmax. revert total. induction Hd as [|f r Hf _ IH]; intros total Ht; cbn [evict_loop]; [by right|].
  destruct (5 * total <=? 4 * max) eqn:E; breflect; [left; cbn; lia|]. rewrite Hf.
  destruct (IH (total - cf_size f)) as [H|H]; [cbn in Ht; unfold bytes_of; lia | left | right; by rewrite H].
  change (bytes_of (f :: evict_loop can_delete max (total - cf_size f) r)) with (cf_size f + bytes_of (evict_loop can_delete max (total - cf_size f) r)). lia.
Qed.
End Evict.

Lemma bytes_perm a b : Permutation a b -> bytes_of a = bytes_of b.
Proof. unfold bytes_of. induction 1; cbn; lia. Qed.
#[local] Instance by_mtime_comparator : Comparator by_mtime.
Proof. split; unfold by_mtime; intros; lia. Qed.

Lemma has_file_spec name files : has_file name files = true <-> exists f, f ∈ files /\ cf_name f = name.
Proof.
  unfold has_file. rewrite List.existsb_exists. split; intros (f & Hf & H); exists f; rewrite list_elem_of_In in *; split; try done.
  - by apply bool_decide_eq_true in H.
  - by apply bool_decide_eq_true.
Qed.
(** Removing the first files of a folder of distinct names leaves the others. *)
Lemma without_take n files : NoDup (cf_name <$> files) -> without (take n files) files = drop n files.
Proof.
  intros Hn. unfold without. set (P := fun f => _).
  rewrite <- (take_drop n files), fmap_app in Hn. apply NoDup_app in Hn as (_ & Hdis & _).
  assert (E1 : List.filter P (take n files) = []).
  { apply filter_none, Forall_forall. intros f Hf. apply negb_false_iff, has_file_spec. eauto. }
  replace (List.filter P files) with (List.filter P (take n files ++ drop n files)) by (by rewrite take_drop).
  rewrite List.filter_app, E1. apply List.forallb_filter_id, forallb_forall_true, Forall_forall. intros f Hf. apply negb_true_iff.
  destruct (has_file (cf_name f) (take n files)) eqn:E; [|done]. apply has_file_spec in E as (g & Hg & En). exfalso.
  apply (Hdis (cf_name g)); [by apply list_elem_of_fmap_2|]. rewrite En. by apply list_elem_of_fmap_2.
Qed.
Lemma filter_perm {A} (P : A -> bool) (a b : list A) : Permutation a b -> Permutation (List.filter P a) (List.filter P b).
Proof. induction 1; cbn; [done | by case_match; [apply perm_skip|] | repeat case_match; try done; apply perm_swap | by etrans]. Qed.

(** Eviction on a folder of distinct names: nothing goes while the folder fits its budget;
    otherwise what stays is at most four fifths of it, and everything that goes is at least
    as old as everything that stays. *)
Theorem evict_bounded can_delete max files : NoDup (cf_name <$> files) -> 0 <= max ->
  Forall (fun f => 0 <= cf_size f /\ can_delete f = true) files ->
  let gone := evicted can_delete max files in
  let left := without gone files in
  bytes_of left <= max /\ (bytes_of files <= max -> left = files) /\ (max < bytes_of files -> 5 * bytes_of left <= 4 * max) /\
  (forall g f, g ∈ gone -> f ∈ left -> cf_mtime g <= cf_mtime f).
Proof.
  intros Hn Hmax Hf. cbv zeta. unfold evicted. destruct (bytes_of files <=? max) eqn:E; breflect.
  { assert (Hw : without [] files = files) by (apply List.forallb_filter_id, forallb_forall_true, Forall_true; done).
    rewrite Hw. split; [done|]. split; [done|]. split; [lia|]. by intros g f ?%not_elem_of_nil. }
  pose proof (sort_by_perm by_mtime files) as HP. pose proof (sort_by_sorted by_mtime files) as HS. set (S := sort_by by_mtime files) in *.
  assert (HnS : NoDup (cf_name <$> S)) by (eapply NoDup_Permutation_proper; [|exact Hn]; by apply fmap_Permutation).
  assert (HdS : Forall (fun f => can_delete f = true) S).
  { apply Forall_forall. intros f HfS. rewrite Forall_forall in Hf. apply Hf. by rewrite <- HP. }
  assert (Hb : bytes_of S = bytes_of files) by (by apply bytes_perm).
  destruct (evict_loop_prefix can_delete max (bytes_of files) S) as [n En].
  pose proof (evict_loop_enough can_delete max (bytes_of files) S HdS Hmax ltac:(lia)) as Hen. rewrite En in Hen |- *.
  assert (HL : Permutation (without (take n S) files) (drop n S)) by (rewrite <- without_take by done; by apply filter_perm).
  assert (Hbl : bytes_of (without (take n S) files) = bytes_of files - bytes_of (take n S)).
  { rewrite (bytes_perm _ _ HL), <- Hb. rewrite <- (take_drop n S) at 2. rewrite bytes_app. lia. }
  assert (H5 : 5 * bytes_of (without (take n S) files) <= 4 * max).
  { rewrite Hbl. destruct Hen as [H|H]; [done|]. rewrite H, Hb. lia. }
  split; [lia|]. split; [lia|]. split; [done|]. intros g f Hg HfL. rewrite HL in HfL.
  rewrite <- (take_drop n S) in HS.
  assert (Hgf : by_mtime g f <= 0) by (by apply (sorting.StronglySorted_app_1_elem_of _ _ _ _ _ HS)). unfold by_mtime in Hgf. lia.
Qed.

(** ** Fetching *)

Section FetchLemmas.
Context `{U : Unicode} `{J : JsonCodec}.
Context (native : nat -> Fetch -> result jserror FetchReply) (now : Z) (can_delete : CacheFile -> bool)
  (isPinnedFolder : jstr -> jstr -> bool) (authentic : bool).

Definition stored_pin (host : Host) (b : Bodies) : option jstr :=
  normalizeFingerprint (map_get (SecureKeys.fingerprint (host_id host)) (secure (sv_disk (bd_svc b)))).

Lemma downloadSpec_pin client path w w' spec : downloadSpec client path w = (w', Ok spec) -> Some spec.2 = cl_pin client.
Proof.
  unfold downloadSpec. destruct (cl_pin client) as [pin|]; [|done]. unfold bind, get_state, enc, lift, ret.
  destruct (encodeURIComponent path); [|done]. by intros [= <- <-].
Qed.
(** Asking for a fetch touches no file, no copy and no log, and is for the stored pin. *)
Lemma download_spec_facts host path b b' r : download_spec host path b = (b', r) ->
  bd_files b' = bd_files b /\ bd_vault b' = bd_vault b /\ bd_fetches b' = bd_fetches b /\
  (forall spec, r = Ok spec -> stored_pin host b = Some spec.2).
Proof.
  unfold download_spec, on_svc. destruct (bind _ _ (bd_svc b)) as [s r'] eqn:E. intros [= <- <-]. repeat split.
  intros spec ->. unfold bind in E. pose proof (clientForHost_spec host false None (bd_svc b)) as Hc.
  destruct (clientForHost host false None (bd_svc b)) as [s1 [c|e]]; [|done]. destruct Hc as (_ & _ & Hc).
  destruct (Hc c eq_refl) as (_ & Hpin & _). unfold on_snet in E.
  destruct (downloadSpec c path (sv_net s1)) as [w r2] eqn:Ed. injection E as <- ->. apply downloadSpec_pin in Ed.
  unfold stored_pin. by rewrite <- Hpin.
Qed.
Lemma put_file_has f files : has_file (cf_name f) (put_file f files) = true.
Proof. apply has_file_spec. exists f. split; [apply elem_of_app; right; left | done]. Qed.
Lemma elem_evicted max files g : g ∈ evicted can_delete max files -> g ∈ files.
Proof.
  unfold evicted. destruct (_ <=? _); [by intros ?%not_elem_of_nil|].
  destruct (evict_loop_prefix can_delete max (bytes_of files) (sort_by by_mtime files)) as [n ->].
  intros (i & Hi & _)%elem_of_take. apply (elem_sort_by by_mtime). by eapply list_elem_of_lookup_2.
Qed.
Lemma evict_keeps keep files : has_file keep files = true -> has_file keep (evict_previews can_delete keep files) = true.
Proof.
  intros (f & Hf & <-)%has_file_spec. apply has_file_spec. exists f. split; [|done]. apply elem_filter_bool. split; [done|].
  apply negb_true_iff. destruct (has_file (cf_name f) (evicted _ _ _)) eqn:E; [|done]. apply has_file_spec in E as (g & Hg & En).
  apply elem_evicted, elem_filter_bool in Hg as [_ Hb]. breflect. done.
Qed.

(** What became of one preview: refused before anything is asked, served from the cache,
    fetched once with the stored pin and the caller's limit, or restored from the copy. *)
Theorem fetchPreviewFile_correct host entry maxBytes b b' r :
  fetchPreviewFile native now can_delete isPinnedFolder authentic host entry maxBytes b = (b', r) ->
  let name := previewCacheName (host_id host) entry in
  (too_large entry maxBytes = true -> b' = b /\ r = Err (TooLarge (default 0 (entry_size entry)))) /\
  (forall n, r = Ok n -> n = name /\ has_file name (bd_files b') = true /\ too_large entry maxBytes = false) /\
  (forall e, r = Err e -> bd_files b' = bd_files b) /\
  (bd_fetches b' = bd_fetches b \/
   exists q, bd_fetches b' = bd_fetches b ++ [q] /\ Some (ft_pin q) = stored_pin host b /\ ft_max q = Some maxBytes /\ ft_dest q = name
             /\ has_file name (bd_files b) = false).
Proof.
  unfold fetchPreviewFile. set (name := previewCacheName (host_id host) entry). destruct (too_large entry maxBytes) eqn:Ht.
  { intros [= <- <-]. cbv zeta. split; [done|]. split; [done|]. split; [done | by left]. }
  destruct (has_file name (bd_files b)) eqn:Hc.
  { intros [= <- <-]. cbv zeta. split; [done|]. split; [by intros n [= <-]|]. split; [done | by left]. }
  destruct (download_spec host (entry_path entry) b) as [b1 spec] eqn:Es.
  apply download_spec_facts in Es as (F1 & F2 & F3 & Fp). destruct spec as [[[url headers] pin]|e].
  2: { intros [= <- <-]. cbv zeta. split; [done|]. split; [done|]. split; [done | left; exact F3]. }
  specialize (Fp _ eq_refl). cbn [snd] in Fp. set (q := {| ft_url := url |}). unfold fetchToFile.
  assert (HQ : exists q', bd_fetches b1 ++ [q] = bd_fetches b ++ [q'] /\ Some (ft_pin q') = stored_pin host b /\ ft_max q' = Some maxBytes /\ ft_dest q' = name
                 /\ false = false) by (exists q; rewrite F3, Fp; done).
  destruct (native (length (bd_fetches b1)) q) as [a|e].
  - destruct (is_2xx (fa_status a)) eqn:H2; cbn [negb]; intros [= <- <-]; cbv zeta.
    + split; [done|]. split; [|split; [done | right; exact HQ]]. intros n [= <-]. split; [done|]. split; [|done].
      cbn. apply evict_keeps. apply (put_file_has {| cf_name := name; cf_size := fa_bytes a; cf_mtime := now |}).
    + split; [done|]. split; [done|]. split; [intros; exact F1 | right; exact HQ].
  - unfold preview_failed. destruct (bool_decide (errCode e = Some (js "ERR_TOO_LARGE"))).
    { intros [= <- <-]. cbv zeta. split; [done|]. split; [done|]. split; [intros; exact F1 | right; exact HQ]. }
    destruct (bool_decide (errCode e = Some ERR_CONNECTION)).
    2: { intros [= <- <-]. cbv zeta. split; [done|]. split; [done|]. split; [intros; exact F1 | right; exact HQ]. }
    destruct (restoreOfflineCopy authentic host entry _) as [v [[|]|]]; intros [= <- <-]; cbv zeta; (split; [done|]).
    + split; [|split; [done | right; exact HQ]]. intros n [= <-]. split; [done|]. split; [|done]. cbn.
      apply (put_file_has {| cf_name := name; cf_size := _; cf_mtime := now |}).
    + split; [done|]. split; [intros; exact F1 | right; exact HQ].
    + split; [done|]. split; [intros; exact F1 | right; exact HQ].
Qed.

Notation attempts := (thumb_attempts native now can_delete).
Definition fetches (t : Thumbs) : nat := length (bd_fetches (th_bodies t)).
Lemma busy_delay attempt after : 1 <= attempt <= 3 -> 200 <= busyDelayMs attempt after <= 2000.
Proof. intros H. unfold busyDelayMs. destruct after; lia. Qed.
Lemma spec_fetches client path size t t' r : on_bodies (on_svc (on_snet (thumbnailSpec client path size))) t = (t', r) -> fetches t' = fetches t.
Proof.
  unfold on_bodies, on_svc, on_snet. destruct (thumbnailSpec client path size _) as [w x]. by intros [= <- <-].
Qed.
Lemma fetch_fetches q t t' r : on_bodies (fetchToFile native now q) t = (t', r) -> fetches t' = S (fetches t).
Proof. unfold on_bodies, fetchToFile, fetches. intros [= <- <-]. cbn. rewrite length_app. cbn. lia. Qed.
Lemma attempts_bounded fuel aborted client path size name attempt slept t : Z.of_nat fuel = 5 - attempt -> 1 <= attempt <= 4 ->
  exists t' r sl, attempts fuel aborted client path size name attempt slept t = Some (t', r, slept ++ sl)
    /\ (length sl < fuel)%nat /\ Forall (fun d => 200 <= d <= 2000) sl /\ (fetches t' <= fetches t + fuel)%nat.
Proof.
  revert attempt slept t. induction fuel as [|f IH]; intros attempt slept t Hf Ha; [lia|]. cbn [thumb_attempts].
  assert (Hend : forall t' (r : result jserror (option jstr)), (fetches t' <= fetches t + S f)%nat ->
    exists t'' r' sl, Some (t', r, slept) = Some (t'', r', slept ++ sl) /\ (length sl < S f)%nat /\ Forall (fun d => 200 <= d <= 2000) sl /\ (fetches t'' <= fetches t + S f)%nat).
  { intros t' r Hr. exists t', r, []. rewrite app_nil_r. repeat split; [cbn; lia | constructor | done]. }
  destruct (aborted attempt); [apply Hend; lia|].
  destruct (on_bodies (on_svc _) t) as [t1 spec] eqn:Es. apply spec_fetches in Es.
  destruct spec as [[[url headers] pin]|e]; [|apply Hend; lia].
  destruct (on_bodies (fetchToFile native now _) t1) as [t2 reply] eqn:Ef. apply fetch_fetches in Ef.
  destruct reply as [a|e]; [|apply Hend; lia].
  destruct (is_2xx (fa_status a)); [apply Hend; change (fetches t2 <= fetches t + S f)%nat; lia|].
  destruct (fa_status a =? 404); [apply Hend; lia|].
  destruct ((fa_status a =? 429) && (attempt <=? MAX_BUSY_RETRIES)) eqn:Hb; [|apply Hend; lia].
  breflect. unfold MAX_BUSY_RETRIES in *.
  destruct (IH (attempt + 1) (slept ++ [busyDelayMs attempt (fa_retryAfter a)]) t2 ltac:(lia) ltac:(lia)) as (t' & r & sl & E & H1 & H2 & H3).
  exists t', r, (busyDelayMs attempt (fa_retryAfter a) :: sl). rewrite E, <- (assoc_L (++)). repeat split; [cbn; lia | | lia].
  constructor; [apply busy_delay; lia | done].
Qed.
(** A thumbnail load always ends: at most four requests, at most three waits of at most two
    seconds each, whatever the computer answers. *)
Theorem thumbnail_load_bounded aborted hostId path size key t :
  exists t' r slept, load_thumb native now can_delete aborted hostId path size key t = Some (t', r, slept)
    /\ (length slept <= 3)%nat /\ foldr Z.add 0 slept <= 6000 /\ (fetches t' <= fetches t + 4)%nat.
Proof.
  unfold load_thumb.
  assert (Hend : forall t' (r : result jserror (option jstr)), (fetches t' <= fetches t)%nat -> exists t'' r' slept, Some (t', r, []) = Some (t'', r', slept)
    /\ (length slept <= 3)%nat /\ foldr Z.add 0 slept <= 6000 /\ (fetches t'' <= fetches t + 4)%nat).
  { intros t' r Hr. exists t', r, []. repeat split; cbn; lia. }
  destruct (has_file _ _); [apply Hend; lia|].
  destruct (on_bodies (on_svc (on_sdisk listHosts)) t) as [t1 hosts] eqn:E1.
  assert (F1 : fetches t1 = fetches t).
  { unfold on_bodies, on_svc, on_sdisk in E1. destruct (listHosts _). by injection E1 as <- _. }
  destruct hosts as [hs|]; [|apply Hend; lia]. destruct (host_of hostId hs) as [host|]; [|apply Hend; lia].
  destruct (on_bodies (on_svc (clientForHost host false None)) t1) as [t2 c] eqn:E2.
  assert (F2 : fetches t2 = fetches t1).
  { unfold on_bodies, on_svc in E2. destruct (clientForHost host false None _). by injection E2 as <- _. }
  destruct c as [client|]; [|apply Hend; lia].
  destruct (attempts_bounded 4 aborted client path size (thumb_name key) 1 [] t2 ltac:(lia) ltac:(lia)) as (t' & r & sl & -> & H1 & H2 & H3).
  exists t', r, ([] ++ sl). cbn [app]. split; [done|]. split; [lia|]. split; [|lia].
  assert (Hsum : foldr Z.add 0 sl <= 2000 * Z.of_nat (length sl)); [|lia]. clear -H2.
  induction H2; cbn [foldr length]; lia.
Qed.

(** Copies for another app: the folder holds nothing but the file handed over. *)
Theorem handOff_single_file host entry b b' name : copyForHandOff native now host entry b = (b', Ok name) ->
  cf_name <$> bd_files b' = [name] /\ name = safeFileName (entry_name entry).
Proof.
  unfold copyForHandOff, bind. destruct (download_spec host (entry_path entry) (with_files b [])) as [b1 [spec|]] eqn:E; [|done].
  apply download_spec_facts in E as (F & _). unfold fetchToFile. destruct (native _ _) as [a|]; [|done].
  destruct (is_2xx (fa_status a)) eqn:H2; [|done]. unfold ret. intros [= <- <-]. cbn. rewrite F. done.
Qed.

(** Emptying the folder leaves the in-memory index: a thumbnail shown before a computer was
    forgotten is answered with a file that is gone, until the app restarts. *)
Theorem cleared_thumbs_still_answered key name t : can_delete = (fun _ => true) ->
  set_has key (th_negative t) = false -> name <> [] -> map_get key (th_resolved t) = Some name ->
  known_thumb key (clear_thumbs can_delete t) = Some (Some name) /\ has_file name (bd_files (th_bodies (clear_thumbs can_delete t))) = false.
Proof.
  intros -> Hn Hne Hr. unfold known_thumb. cbn. rewrite Hn, Hr. split; [by destruct name|].
  induction (bd_files (th_bodies t)); done.
Qed.
End FetchLemmas.
