(* ===== verification/Enqueue.v ===== *)
(** * Queueing transfers

    [features/transfers/enqueueUploads.ts] and [enqueueDownloads.ts]: handing files to the
    native transfer engine.  Every transfer has a folder of its own in the app's storage; the
    file system, the engine and the identifiers are parameters, and any of their calls may
    fail. *)

From Stdlib Require Import ZArith Lia Bool.
From Stdlib Require List.
From S2P Require Import Prelude JsCollections JsString Json Errors Models Host Utf8 AgentClient Storage HostStore Services Paths Uploads.
Local Open Scope js_scope.

(** A queued transfer: its own folder is named by its identifier. *)
Record UploadJob := { uj_id : jstr; uj_host : jstr; uj_address : jstr; uj_local : jstr; uj_remote : jstr; uj_overwrite : bool }.
Record DownloadJob := { dj_id : jstr; dj_host : jstr; dj_address : jstr; dj_remote : jstr; dj_dest : jstr }.
(** The folders in the app's storage and what the engine holds. *)
Record Queue := { q_svc : Services; q_dirs : list jstr; q_uploads : list UploadJob; q_downloads : list DownloadJob }.
Notation Enq := (M Queue jserror).
Definition with_dirs (q : Queue) (d : list jstr) : Queue :=
  {| q_svc := q_svc q; q_dirs := d; q_uploads := q_uploads q; q_downloads := q_downloads q |}.

Section Enqueue.
Context `{U : Unicode} `{J : JsonCodec}.
(** The [n]-th identifier; whether moving the picked file and handing over the job fail. *)
Context (newTransferId : nat -> jstr) (move_fails enqueue_fails : jstr -> option jserror) (local_path : jstr -> jstr -> jstr).

(** [(await clientForHost(host)).activeAddress ?? host.address]. *)
Definition route_address (host : Host) : Enq jstr := fun q =>
  match clientForHost host false None (q_svc q) with
  | (s, Ok c) => ({| q_svc := s; q_dirs := q_dirs q; q_uploads := q_uploads q; q_downloads := q_downloads q |}, Ok (activeAddress c (sv_net s)))
  | (s, Err e) => ({| q_svc := s; q_dirs := q_dirs q; q_uploads := q_uploads q; q_downloads := q_downloads q |}, Err e)
  end.
(** One item: the [catch] removes its folder and passes the error on. *)
Definition upload_one (host : Host) (address destDir : jstr) (n : nat) (item : UploadItem) : Enq unit := fun q =>
  let id := newTransferId n in
  let dirs := set_add id (q_dirs q) in
  let name := cleanUploadName (targetName item) in
  match move_fails id with
  | Some e => (with_dirs q (set_delete id dirs), Err e)
  | None =>
      match enqueue_fails id with
      | Some e => (with_dirs q (set_delete id dirs), Err e)
      | None =>
          ({| q_svc := q_svc q; q_dirs := dirs;
              q_uploads := q_uploads q ++ [{| uj_id := id; uj_host := host_id host; uj_address := address; uj_local := local_path id name;
                                              uj_remote := joinRemotePath destDir name; uj_overwrite := item_overwrite item |}];
              q_downloads := q_downloads q |}, Ok tt)
      end
  end.
Fixpoint upload_loop (host : Host) (address destDir : jstr) (items : list UploadItem) (queued : nat) : Enq nat :=
  match items with
  | [] => ret queued
  | item :: rest => upload_one host address destDir queued item;; upload_loop host address destDir rest (S queued)
  end.
Definition enqueueUploads (host : Host) (destDir : jstr) (items : list UploadItem) : Enq nat :=
  address <- route_address host;; upload_loop host address destDir items 0.

(** [p.split(/[/\\]/).pop() || 'file']. *)
Definition download_name (p : jstr) : jstr :=
  match default [] (last (split_on is_sep p)) with [] => js "file" | n => n end.
Definition download_one (host : Host) (address : jstr) (n : nat) (p : jstr) : Enq unit := fun q =>
  let id := newTransferId n in
  let q1 := with_dirs q (set_add id (q_dirs q)) in
  match enqueue_fails id with
  | Some e => (q1, Err e)
  | None =>
      ({| q_svc := q_svc q1; q_dirs := q_dirs q1; q_uploads := q_uploads q1;
          q_downloads := q_downloads q1 ++ [{| dj_id := id; dj_host := host_id host; dj_address := address; dj_remote := p;
                                               dj_dest := local_path id (download_name p) |}] |}, Ok tt)
  end.
Fixpoint download_loop (host : Host) (address : jstr) (paths : list jstr) (n : nat) : Enq unit :=
  match paths with
  | [] => ret tt
  | p :: rest => download_one host address n p;; download_loop host address rest (S n)
  end.
Definition enqueueDownloads (host : Host) (paths : list jstr) : Enq unit :=
  address <- route_address host;; download_loop host address paths 0.

(** ** Uploads leave nothing half done *)

Definition job_of (host : Host) (address destDir : jstr) (n : nat) (item : UploadItem) : UploadJob :=
  {| uj_id := newTransferId n; uj_host := host_id host; uj_address := address;
     uj_local := local_path (newTransferId n) (cleanUploadName (targetName item));
     uj_remote := joinRemotePath destDir (cleanUploadName (targetName item)); uj_overwrite := item_overwrite item |}.
Definition jobs_from (host : Host) (address destDir : jstr) (n : nat) (items : list UploadItem) : list UploadJob :=
  imap (fun i item => job_of host address destDir (n + i) item) items.


Lemma set_add_fresh {A} `{!EqDecision A} (x : A) s : x ∉ s -> set_add x s = s ++ [x].
Proof. intros H. unfold set_add. by rewrite decide_False. Qed.
Lemma set_delete_snoc (x : jstr) s : x ∉ s -> set_delete x (s ++ [x]) = s.
Proof.
  intros H. unfold set_delete. rewrite List.filter_app. cbn. rewrite bool_decide_eq_true_2 by done. cbn. rewrite app_nil_r.
  apply List.forallb_filter_id, forallb_forall_true, Forall_forall. intros y Hy. apply negb_true_iff, bool_decide_eq_false. by intros ->.
Qed.
Lemma jobs_cons host address destDir n item items :
  jobs_from host address destDir n (item :: items) = job_of host address destDir n item :: jobs_from host address destDir (S n) items.
Proof. unfold jobs_from. cbn. rewrite Nat.add_0_r. f_equal. apply imap_ext. intros i x _. cbn. f_equal. lia. Qed.

Definition ids_fresh (q : Queue) : Prop := (forall i j, newTransferId i = newTransferId j -> i = j) /\ forall i, newTransferId i ∉ q_dirs q.
Lemma upload_loop_spec host address destDir items n q :
  (forall i j, newTransferId i = newTransferId j -> i = j) -> (forall i, (n <= i)%nat -> newTransferId i ∉ q_dirs q) ->
  let '(q', r) := upload_loop host address destDir items n q in
  exists k, (k <= length items)%nat /\ q_uploads q' = q_uploads q ++ take k (jobs_from host address destDir n items)
    /\ q_dirs q' = q_dirs q ++ (uj_id <$> take k (jobs_from host address destDir n items))
    /\ (r = Ok (n + length items)%nat /\ k = length items \/ exists e, r = Err e).
Proof.
  revert n q. induction items as [|item items IH]; intros n q Hinj Hfresh; cbn [upload_loop].
  { exists 0%nat. cbn. rewrite !app_nil_r, Nat.add_0_r. repeat split; auto. }
  unfold bind, upload_one. rewrite set_add_fresh by (by apply Hfresh).
  destruct (move_fails (newTransferId n)) as [e|].
  { exists 0%nat. cbn [with_dirs q_uploads q_dirs take fmap list_fmap]. rewrite set_delete_snoc by (by apply Hfresh). rewrite !app_nil_r.
    repeat split; [lia | right; by exists e]. }
  destruct (enqueue_fails (newTransferId n)) as [e|].
  { exists 0%nat. cbn [with_dirs q_uploads q_dirs take fmap list_fmap]. rewrite set_delete_snoc by (by apply Hfresh). rewrite !app_nil_r.
    repeat split; [lia | right; by exists e]. }
  set (q1 := {| q_svc := q_svc q |}). specialize (IH (S n) q1 Hinj).
  destruct (upload_loop host address destDir items (S n) q1) as [q' r]. destruct IH as (k & Hk & Eu & Ed & Hr).
  { intros i Hi. cbn. intros [H|H%list_elem_of_singleton]%elem_of_app; [by apply (Hfresh i ltac:(lia))|]. apply Hinj in H. lia. }
  exists (S k). rewrite jobs_cons. cbn [take fmap list_fmap length uj_id job_of]. rewrite Eu, Ed. cbn [q1 q_uploads q_dirs].
  rewrite <- !(assoc_L (++)). repeat split; [lia|]. destruct Hr as [[-> ->]|Hr]; [left; split; [f_equal; lia | done] | by right].
Qed.

(** Queueing uploads stops at the first failure with everything before it queued, in order,
    to clean names inside the chosen folder; a failed file leaves no folder behind, so the
    folders in storage are exactly those of the queued uploads. *)
Theorem enqueueUploads_correct host destDir items q : ids_fresh q ->
  let '(q', r) := enqueueUploads host destDir items q in
  exists address k, (k <= length items)%nat
    /\ q_uploads q' = q_uploads q ++ take k (jobs_from host address destDir 0 items)
    /\ q_dirs q' = q_dirs q ++ (uj_id <$> take k (jobs_from host address destDir 0 items))
    /\ (r = Ok (length items) /\ k = length items \/ exists e, r = Err e)
    /\ Forall (fun j => exists item, item ∈ items /\ uj_remote j = joinRemotePath destDir (cleanUploadName (targetName item))
                 /\ plain_name (cleanUploadName (targetName item))) (take k (jobs_from host address destDir 0 items)).
Proof.
  intros [Hinj Hfresh]. unfold enqueueUploads, bind, route_address.
  destruct (clientForHost host false None (q_svc q)) as [s [c|e]].
  2: { exists [], 0%nat. cbn. rewrite !app_nil_r. repeat split; [lia | right; by exists e | constructor]. }
  set (address := activeAddress c (sv_net s)). set (q1 := {| q_svc := s |}).
  pose proof (upload_loop_spec host address destDir items 0 q1 Hinj ltac:(intros; apply Hfresh)) as H.
  destruct (upload_loop host address destDir items 0 q1) as [q' r]. destruct H as (k & Hk & Eu & Ed & Hr).
  exists address, k. repeat split; [done..|]. apply Forall_take, Forall_lookup. intros i j Hj.
  unfold jobs_from in Hj. rewrite list_lookup_imap in Hj. apply fmap_Some in Hj as (item & Hi & ->).
  exists item. split; [by eapply list_elem_of_lookup_2|]. split; [done | apply cleanUploadName_plain].
Qed.

(** Downloads are queued in order, each into a folder of its own; a failure ends the queueing. *)
Theorem enqueueDownloads_in_order host paths q :
  let '(q', r) := enqueueDownloads host paths q in
  exists k, (k <= length paths)%nat /\ dj_remote <$> q_downloads q' = (dj_remote <$> q_downloads q) ++ take k paths
    /\ (r = Ok tt -> k = length paths).
Proof.
  unfold enqueueDownloads, bind, route_address. destruct (clientForHost host false None (q_svc q)) as [s [c|e]].
  2: { exists 0%nat. cbn. rewrite app_nil_r. repeat split; [lia | done]. }
  set (q1 := {| q_svc := s |}). change (q_downloads q) with (q_downloads q1). generalize q1 0%nat. clear. intros q n.
  revert q n. induction paths as [|p paths IH]; intros q n; cbn [download_loop]; [exists 0%nat; cbn; rewrite app_nil_r; repeat split; lia|].
  unfold bind, download_one. destruct (enqueue_fails (newTransferId n)) as [e|].
  { exists 0%nat. cbn. rewrite app_nil_r. repeat split; [lia | done]. }
  set (q1 := {| q_svc := _ |}). specialize (IH q1 (S n)). destruct (download_loop host _ paths (S n) q1) as [q' r].
  destruct IH as (k & Hk & E & Hr). exists (S k). cbn [take length]. rewrite E. cbn [q1 q_downloads]. rewrite fmap_app, <- (assoc_L (++)).
  repeat split; [lia|]. intros H. f_equal. by apply Hr.
Qed.
End Enqueue.
