(* ===== verification/FileActions.v ===== *)
(** * The file actions of the explorer screen

    [features/explorer/useFileActions.ts] and [useConflictPrompt.ts]: copy, cut, paste, move
    and copy to, duplicate, compare, upload, delete, compress, create, rename and batch rename,
    with their dialogs and messages.  What the store, the computer and the person answer is
    given by an environment that sees everything asked so far; every question and every
    request is recorded, so that what was asked of the computer can be compared with what the
    person agreed to.  Texts are their keys. *)

From Stdlib Require Import ZArith Lia Bool String.
From Stdlib Require List.
From S2P Require Import Prelude JsCollections JsString Errors Models Host Paths ExplorerLogic Uploads.
Local Open Scope js_scope.

Inductive Conflict := c_keepBoth | c_overwrite | c_skip | c_cancel.
Inductive DeleteChoice := forever | to_trash.
#[global] Instance Conflict_eq_dec : EqDecision Conflict.
Proof. solve_decision. Defined.
#[global] Instance DeleteChoice_eq_dec : EqDecision DeleteChoice.
Proof. solve_decision. Defined.

(** What happened, in order: questions with their answers, and requests. *)
Inductive Act :=
| Collided (dest : jstr) (names found : list jstr)
| Asked (answer : Conflict)
| Transferred (isCut : bool) (dest : jstr) (sources : list jstr) (dup ow : bool)
| Duplicated
| Checksummed (a b : jstr)
| LookedUpDrives
| Confirmed (yes : bool)
| Enqueued (dest : jstr) (items : list UploadItem)
| Chose (choice : option DeleteChoice)
| Deleted (permanent : bool)
| Compressed (dest : jstr) (paths : list jstr)
| CreatedEntry (isFolder : bool) (name : jstr)
| Renamed (path name : jstr)
| BatchRenamed (pairs : list (jstr * jstr))
| Undone (op : UndoOp).
Inductive Tone := tone_success | tone_info | tone_error.
Record Toast := { to_tone : Tone; to_key : jstr; to_undo : option UndoOp }.

Record Screen := { sc_log : list Act; sc_clip : option FileClipboard; sc_selected : list jstr; sc_toasts : list Toast }.
Notation Fa := (M Screen jserror).
Definition say (tone : Tone) (key : string) (undo : option UndoOp) : Fa unit :=
  modify (fun s => {| sc_log := sc_log s; sc_clip := sc_clip s; sc_selected := sc_selected s;
                      sc_toasts := sc_toasts s ++ [{| to_tone := tone; to_key := js key; to_undo := undo |}] |}).
Definition record (a : Act) : Fa unit :=
  modify (fun s => {| sc_log := sc_log s ++ [a]; sc_clip := sc_clip s; sc_selected := sc_selected s; sc_toasts := sc_toasts s |}).
Definition select (paths : list jstr) : Fa unit :=
  modify (fun s => {| sc_log := sc_log s; sc_clip := sc_clip s; sc_selected := paths; sc_toasts := sc_toasts s |}).
Definition clearSelection : Fa unit := select [].
Definition clip_do (a : ClipAction) : Fa unit :=
  modify (fun s => {| sc_log := sc_log s; sc_clip := clipboard_step (sc_clip s) a; sc_selected := sc_selected s; sc_toasts := sc_toasts s |}).
Definition selected : Fa (list jstr) := fun s => (s, Ok (sc_selected s)).
Definition the_clip : Fa (option FileClipboard) := fun s => (s, Ok (sc_clip s)).

(** The store and the computer, the person, and the folder on screen. *)
Record Env := {
  en_colliding : list Act -> result jserror (list jstr);
  en_conflict : list Act -> option Conflict;
  en_batch : list Act -> result jserror BatchResult;
  en_checksums : list Act -> result jserror (list (jstr * jstr));
  en_drives : list Act -> result jserror (list Drive);
  en_confirm : list Act -> bool;
  en_enqueue : list Act -> result jserror nat;
  en_choice : list Act -> option DeleteChoice;
  en_done : list Act -> result jserror unit;
  en_prompt : list Act -> option jstr;
  en_pick : list Act -> result jserror (option (list Picked));
  en_path : jstr;
  en_entries : list Entry;
  (** what a request to the store leaves selected *)
  en_selection : list Act -> list jstr -> list jstr }.

Section Actions.
Context `{U : Unicode} (host : Host) (env : Env).

(** A question or request: its answer, on the record. *)
Definition answer {A} (f : list Act -> result jserror A) (note : A -> Act) : Fa A := fun s =>
  match f (sc_log s) with
  | Ok a => let (s', _) := record (note a) s in (s', Ok a)
  | Err e => (s, Err e)
  end.
Definition request {A} (a : Act) (f : list Act -> result jserror A) : Fa A := fun s =>
  let (s1, _) := record a s in
  let (s2, _) := select (en_selection env (sc_log s1) (sc_selected s1)) s1 in
  (s2, f (sc_log s1)).
Definition askConflict : Fa Conflict := answer (fun l => Ok (default c_cancel (en_conflict env l))) Asked.
Definition collidingBasenames (dest : jstr) (names : list jstr) : Fa (list jstr) := answer (en_colliding env) (Collided dest names).

Definition undo (op : UndoOp) : Fa unit :=
  catch (request (Undone op) (en_done env);; say tone_success "undoDone" None) (fun _ => say tone_error "undoFailed" None).
Definition reportBatch (res : BatchResult) (undoOp : option UndoOp) : Fa unit :=
  match batch_failed res with
  | [] => say tone_success "batchSuccessNItems" undoOp
  | _ => say tone_info "batchResultWithErrors" None
  end.

Definition copySelection : Fa unit :=
  paths <- selected;;
  match paths with [] => ret tt | _ => clip_do (do_copy paths (host_id host));; clearSelection;; say tone_success "clipboardCopiedHint" None end.
Definition cutSelection : Fa unit :=
  paths <- selected;;
  match paths with [] => ret tt | _ => clip_do (do_cut paths (host_id host));; clearSelection;; say tone_success "clipboardCutHint" None end.

(** The first [try]: what is transferred and how, or nothing. *)
Definition plan_transfer (dest : jstr) (sources : list jstr) : Fa (option (list jstr * bool * bool)) :=
  colliding <- collidingBasenames dest sources;;
  match colliding with
  | [] => ret (Some (sources, false, false))
  | _ =>
      res <- askConflict;;
      match res with
      | c_cancel => ret None
      | c_keepBoth => ret (Some (sources, true, false))
      | c_overwrite => ret (Some (sources, false, true))
      | c_skip =>
          match List.filter (fun p => negb (set_has (basenameOf p) colliding)) sources with
          | [] => say tone_info "clipboardAllExistNothing" None;; ret None
          | kept => ret (Some (kept, false, false))
          end
      end
  end.
Definition transferInto (dest : jstr) (paths : list jstr) (isCut : bool) : Fa bool :=
  if destinationProblem paths dest then say tone_error "cannotPasteIntoItself" None;; ret false
  else
    match pasteSources paths dest isCut with
    | [] => say tone_info "alreadyInThisFolder" None;; ret false
    | sources =>
        plan <- catch (plan_transfer dest sources) (fun _ => say tone_error "couldNotCheckFolder" None;; ret None);;
        match plan with
        | None => ret false
        | Some (srcs, dup, ow) =>
            catch (
              res <- request (Transferred isCut dest srcs dup ow) (en_batch env);;
              reportBatch res (if isCut && negb dup && negb ow then moveUndo srcs dest (batch_results res) else None);;
              ret (transferFullySucceeded res))
              (fun _ => say tone_error "operationFailed" None;; ret false)
        end
    end.
Definition is_cut (m : ClipboardMode) : bool := match m with clip_cut => true | clip_copy => false end.
Definition paste : Fa unit :=
  clip <- the_clip;;
  match clip with
  | None => ret tt
  | Some c =>
      done <- transferInto (en_path env) (clip_paths c) (is_cut (clip_mode c));;
      if done && is_cut (clip_mode c) then clip_do do_clear else ret tt
  end.
Definition transferSelectionTo (dest : jstr) (isCut : bool) : Fa unit :=
  paths <- selected;;
  match paths with
  | [] => ret tt
  | _ => done <- transferInto dest paths isCut;; if done : bool then clearSelection else ret tt
  end.
Definition duplicateSelection : Fa unit :=
  paths <- selected;;
  match paths with
  | [] => ret tt
  | _ => catch (res <- request Duplicated (en_batch env);; clearSelection;; reportBatch res None)
               (fun _ => say tone_error "duplicateFailed" None)
  end.

Definition compareSelection : Fa (option Verdict) :=
  picked <- selected;;
  match List.filter (fun e => set_has (entry_path e) picked) (en_entries env) with
  | [a; b] =>
      if entry_isDir a || entry_isDir b then ret None
      else match sizeVerdict a b with
           | Some v => ret (Some v)
           | None =>
               say tone_info "comparing" None;;
               catch (hashes <- request (Checksummed (entry_path a) (entry_path b)) (en_checksums env);;
                      ret (Some (compareVerdict hashes (entry_path a) (entry_path b))))
                     (fun _ => say tone_error "compareFailed" None;; ret None)
           end
  | _ => ret None
  end.

Definition roomForUpload (dest : jstr) (bytes : Z) : Fa bool :=
  drives <- catch (d <- request LookedUpDrives (en_drives env);; ret (Some d)) (fun _ => ret None);;
  match drives with
  | None => ret true
  | Some ds => match uploadSpaceShortfall ds dest bytes with
               | None => ret true
               | Some _ => answer (fun l => Ok (en_confirm env l)) Confirmed
               end
  end.
Definition resolution_of (c : Conflict) : Resolution := match c with c_keepBoth => keepBoth | c_overwrite => overwrite | _ => skip end.
Definition upload_picked (dest : jstr) (files : list Picked) : Fa unit :=
  colliding <- collidingBasenames dest (cleanUploadName ∘ picked_name <$> files);;
  res <- match colliding with [] => ret (Some skip) | _ => c <- askConflict;; ret (match c with c_cancel => None | _ => Some (resolution_of c) end) end;;
  match res with
  | None => ret tt
  | Some resolution =>
      match planUploads files colliding resolution with
      | [] => say tone_info "uploadAllExist" None
      | items =>
          ok <- roomForUpload dest (foldr (fun i n => default 0 (picked_size (item_source i)) + n) 0 items);;
          if ok : bool then request (Enqueued dest items) (en_enqueue env);; say tone_success (match items with [_] => "uploadingFile" | _ => "uploadingNFiles" end) None else ret tt
      end
  end.
Definition upload : Fa unit := fun s =>
  match en_pick env (sc_log s) with
  | Err _ => say tone_error "operationFailed" None s
  | Ok None | Ok (Some []) => (s, Ok tt)
  | Ok (Some files) => catch (upload_picked (en_path env) files) (fun _ => say tone_error "operationFailed" None) s
  end.

Definition confirmDelete : Fa unit :=
  picked <- selected;;
  match picked with
  | [] => ret tt
  | _ =>
      choice <- answer (fun l => Ok (en_choice env l)) Chose;;
      match choice with
      | None => ret tt
      | Some ch =>
          catch (res <- request (Deleted (bool_decide (ch = forever))) (en_batch env);; reportBatch res None)
                (fun _ => say tone_error "deleteFailed" None)
      end
  end.
Definition zip_path (dir : jstr) (paths : list jstr) : jstr :=
  let sep := if includes_char backslash dir then backslash else slash in
  let stem := match paths with
              | [p] => basenameOf p
              | _ => if bool_decide (folderLabel dir = js "Root") then js "Archive" else folderLabel dir
              end in
  (if ends_with [sep] dir then dir else dir ++ [sep]) ++ stem ++ js ".zip".
Definition compressSelected : Fa unit :=
  paths <- selected;;
  match paths with
  | [] => ret tt
  | _ => catch (request (Compressed (zip_path (en_path env) paths) paths) (en_done env);; clearSelection;; say tone_success "compressedTo" None)
               (fun _ => say tone_error "compressFailed" None)
  end.
Definition createNamed (isFolder : bool) : Fa unit := fun s =>
  match en_prompt env (sc_log s) with
  | None | Some [] => (s, Ok tt)
  | Some name => catch (request (CreatedEntry isFolder name) (en_done env);; say tone_success "createdName" None)
                       (fun _ => say tone_error "createFailed" None) s
  end.
Definition rename (e : Entry) : Fa unit := fun s =>
  match en_prompt env (sc_log s) with
  | None | Some [] => (s, Ok tt)
  | Some name =>
      if bool_decide (name = entry_name e) then (s, Ok tt)
      else catch (request (Renamed (entry_path e) name) (en_done env);;
                  say tone_success "renamedLabel" (renameUndo (entry_path e) (renameDestination (entry_path e) name)))
                 (fun _ => say tone_error "renameFailed" None) s
  end.
Definition applyBatchRename (pairs : list (jstr * jstr)) : Fa unit :=
  catch (res <- request (BatchRenamed pairs) (en_batch env);; clearSelection;; reportBatch res None)
        (fun _ => say tone_error "renameFailed" None).

(** ** What a person can start *)

Inductive UserAction :=
| Copy | Cut | Paste | TransferTo (dest : jstr) (isCut : bool) | Duplicate | Compare | Upload | Delete | Compress
| Create (isFolder : bool) | Rename (e : Entry) | BatchRename (pairs : list (jstr * jstr)) | Undo (op : UndoOp).
Definition perform (a : UserAction) : Fa unit :=
  match a with
  | Copy => copySelection
  | Cut => cutSelection
  | Paste => paste
  | TransferTo dest isCut => transferSelectionTo dest isCut
  | Duplicate => duplicateSelection
  | Compare => compareSelection;; ret tt
  | Upload => upload
  | Delete => confirmDelete
  | Compress => compressSelected
  | Create isFolder => createNamed isFolder
  | Rename e => rename e
  | BatchRename pairs => applyBatchRename pairs
  | Undo op => undo op
  end.

(** ** Nothing is replaced or destroyed without a word *)

(** [a] is what the answers given before it in the action, [acts], agreed to. *)
Definition agreed (acts : list Act) (a : Act) : Prop :=
  match a with
  | Transferred _ dest sources dup ow =>
      exists names found, Collided dest names found ∈ acts /\ (forall p, p ∈ sources -> p ∈ names) /\
        (found = [] /\ dup = false /\ ow = false \/
         exists c, Asked c ∈ acts /\ c <> c_cancel /\ ow = bool_decide (c = c_overwrite) /\ dup = bool_decide (c = c_keepBoth) /\
           (c = c_skip -> Forall (fun p => basenameOf p ∉ found) sources))
  | Enqueued dest items =>
      exists names found, Collided dest names found ∈ acts /\
        Forall (fun i => cleanUploadName (picked_name (item_source i)) ∈ names) items /\
        Forall (fun i => item_overwrite i = true \/ targetName i ∈ found -> Asked c_overwrite ∈ acts) items
  | Deleted permanent => Chose (Some (if permanent then forever else to_trash)) ∈ acts
  | _ => True
  end.
Definition consented (acts : list Act) : Prop := forall before a after, acts = before ++ a :: after -> agreed before a.

(** [m] adds [acts] to the record, whatever it answers. *)
Definition adds {A} (m : Fa A) (s : Screen) (P : list Act -> result jserror A -> Prop) : Prop := logs sc_log m s P.

Lemma adds_ret {A} (a : A) s (P : list Act -> result jserror A -> Prop) : P [] (Ok a) -> adds (ret a) s P.
Proof. apply logs_ret. Qed.
Lemma adds_modify f s (P : list Act -> result jserror unit -> Prop) : sc_log (f s) = sc_log s -> P [] (Ok tt) -> adds (modify f) s P.
Proof. apply logs_modify. Qed.
Lemma adds_say tone key u s (P : list Act -> result jserror unit -> Prop) : P [] (Ok tt) -> adds (say tone key u) s P.
Proof. by apply adds_modify. Qed.
Lemma adds_bind {A B} (m : Fa A) (k : A -> Fa B) s (P : list Act -> result jserror B -> Prop) :
  adds m s (fun acts r => match r with Ok a => adds (k a) (m s).1 (fun acts' r' => P (acts ++ acts') r') | Err e => P acts (Err e) end) -> adds (bind m k) s P.
Proof. apply logs_bind. Qed.
Lemma adds_catch {A} (m : Fa A) (h : jserror -> Fa A) s (P : list Act -> result jserror A -> Prop) :
  adds m s (fun acts r => match r with Ok a => P acts (Ok a) | Err e => adds (h e) (m s).1 (fun acts' r' => P (acts ++ acts') r') end) -> adds (catch m h) s P.
Proof. apply logs_catch. Qed.
Lemma adds_answer {A} (f : list Act -> result jserror A) note s (P : list Act -> result jserror A -> Prop) :
  (forall a, f (sc_log s) = Ok a -> P [note a] (Ok a)) -> (forall e, f (sc_log s) = Err e -> P [] (Err e)) -> adds (answer f note) s P.
Proof.
  intros H1 H2. unfold adds, logs, answer. destruct (f (sc_log s)) as [a|e] eqn:E; cbn; [by exists [note a]; eauto | exists []; rewrite app_nil_r; eauto].
Qed.
Lemma adds_request {A} a (f : list Act -> result jserror A) s (P : list Act -> result jserror A -> Prop) :
  (forall r, P [a] r) -> adds (request a f) s P.
Proof. intros H. exists [a]. by split. Qed.
Lemma adds_report res u s (P : list Act -> result jserror unit -> Prop) : P [] (Ok tt) -> adds (reportBatch res u) s P.
Proof. intros H. unfold reportBatch. destruct (batch_failed res); by apply adds_say. Qed.
Lemma adds_selected s (P : list Act -> result jserror (list jstr) -> Prop) : P [] (Ok (sc_selected s)) -> adds selected s P.
Proof. intros H. exists []. by rewrite app_nil_r. Qed.
Lemma adds_weaken {A} (m : Fa A) s (P Q : list Act -> result jserror A -> Prop) : adds m s P -> (forall acts r, P acts r -> Q acts r) -> adds m s Q.
Proof. apply logs_weaken. Qed.

Definition innocent (a : Act) : bool := match a with Transferred _ _ _ _ _ | Enqueued _ _ | Deleted _ => false | _ => true end.
Lemma innocent_agreed acts : Forall (fun a => innocent a = true) acts -> consented acts.
Proof. intros H before a after ->. apply Forall_app in H as [_ [Ha _]%Forall_cons]. by destruct a. Qed.
Lemma agreed_mono acts acts' a : (forall x, x ∈ acts -> x ∈ acts') -> agreed acts a -> agreed acts' a.
Proof.
  intros H. destruct a; cbn; try done; [| intros (n & f & H1 & H2 & H3); exists n, f; split; [by apply H|]; split; [done|]; by eapply Forall_impl; [exact H3 | cbn; auto] | naive_solver].
  intros (n & f & H1 & Hn & [H2|(c & H2 & H3)]); exists n, f; (split; [by apply H|]); (split; [done|]); [by left | right; exists c; naive_solver].
Qed.
(** Innocent acts followed by one that they agree to. *)
Lemma agreed_snoc acts a : Forall (fun a => innocent a = true) acts -> agreed acts a -> consented (acts ++ [a]).
Proof.
  intros H Ha before x after E. induction after as [|y after _] using rev_ind.
  - apply app_inj_tail in E as [-> ->]. done.
  - rewrite app_comm_cons, (assoc_L (++)) in E. apply app_inj_tail in E as [-> _]. by apply (innocent_agreed _ H before x after).
Qed.
Ltac adds_step :=
  repeat match goal with
         | |- adds (bind _ _) _ _ => apply adds_bind
         | |- adds (catch _ _) _ _ => apply adds_catch
         | |- adds (ret _) _ _ => apply adds_ret
         | |- adds (say _ _ _) _ _ => apply adds_say
         | |- adds (reportBatch _ _) _ _ => apply adds_report
         | |- adds selected _ _ => apply adds_selected
         | |- adds clearSelection _ _ => apply adds_modify; [reflexivity|]
         | |- adds (clip_do _) _ _ => apply adds_modify; [reflexivity|]
         | |- adds (request _ _) _ _ => apply adds_request; intros [?|?]
         | |- adds (answer _ _) _ _ => apply adds_answer; intros ? ?
         end.

Lemma plan_transfer_agreed dest sources s b : adds (plan_transfer dest sources) s (fun acts r =>
  Forall (fun a => innocent a = true) acts /\
  forall srcs dup ow, r = Ok (Some (srcs, dup, ow)) -> agreed acts (Transferred b dest srcs dup ow)).
Proof.
  unfold plan_transfer, collidingBasenames, askConflict. adds_step; [|by split; [constructor|]].
  destruct a as [|f fs]; adds_step.
  { split; [by repeat constructor|]. intros srcs dup ow [= <- <- <-]. exists sources, []. repeat split; [left | done | by left]. }
  2: { by split; [repeat constructor|]. }
  set (found := f :: fs) in *. destruct a; adds_step; cbn [app].
  - split; [by repeat constructor|]. intros srcs dup ow [= <- <- <-]. exists sources, found. split; [left|]. split; [done|]. right. exists c_keepBoth. repeat split; [set_solver | done..].
  - split; [by repeat constructor|]. intros srcs dup ow [= <- <- <-]. exists sources, found. split; [left|]. split; [done|]. right. exists c_overwrite. repeat split; [set_solver | done..].
  - destruct (List.filter _ sources) as [|k ks] eqn:Ek; adds_step; [by split; [repeat constructor|]|].
    split; [by repeat constructor|]. intros srcs dup ow [= <- <- <-]. exists sources, found. split; [left|]. rewrite <- Ek. split; [by intros p [? _]%elem_filter_bool|].
    right. exists c_skip. repeat split; [set_solver | done.. |].
    intros _. apply Forall_forall. intros p [_ Hp]%elem_filter_bool. apply negb_true_iff, set_has_false in Hp. done.
  - by split; [repeat constructor|].
Qed.
Lemma transferInto_agreed dest paths isCut s : adds (transferInto dest paths isCut) s (fun acts _ => consented acts).
Proof.
  unfold transferInto. destruct (destinationProblem paths dest); [adds_step; by apply innocent_agreed|].
  destruct (pasteSources paths dest isCut) as [|p ps]; [adds_step; by apply innocent_agreed|]. set (sources := p :: ps).
  apply adds_bind, adds_catch. eapply adds_weaken; [apply (plan_transfer_agreed _ _ _ isCut)|]. cbn beta.
  intros acts r [Hi Hr]. destruct r as [[[[srcs dup] ow]|]|e]; adds_step; cbn [app]; rewrite ?app_nil_r;
    try (by apply innocent_agreed); by apply agreed_snoc, Hr.
Qed.

(** Only an answer to overwrite replaces a file of the folder or takes its name. *)
Lemma planUploads_overwrites files colliding res : res <> overwrite ->
  Forall (fun i => ~ (item_overwrite i = true \/ targetName i ∈ colliding)) (planUploads files colliding res).
Proof.
  intros Hres. destruct (plan_loop_ok files colliding colliding res) as [_ _ H3 H4 _ _]. fold (planUploads files colliding res) in *.
  apply Forall_forall. intros i Hi. rewrite Forall_forall in H3, H4. specialize (H3 i Hi). specialize (H4 i Hi).
  destruct (item_overwrite i); naive_solver.
Qed.
Lemma roomForUpload_innocent dest bytes s : adds (roomForUpload dest bytes) s (fun acts _ => Forall (fun a => innocent a = true) acts).
Proof.
  unfold roomForUpload. adds_step; [|by repeat constructor]. destruct (uploadSpaceShortfall _ dest bytes); adds_step; by repeat constructor.
Qed.
Lemma planUploads_sources files colliding res : Forall (fun i => item_source i ∈ files) (planUploads files colliding res).
Proof.
  destruct (plan_loop_ok files colliding colliding res) as [H1 _ _ _ _ _]. fold (planUploads files colliding res) in H1.
  apply Forall_forall. intros i Hi. apply (list_elem_of_fmap_2 item_source) in Hi. rewrite H1 in Hi. by apply elem_filter_bool in Hi as [? _].
Qed.
Lemma upload_items_agreed dest found files res acts : Collided dest (cleanUploadName ∘ picked_name <$> files) found ∈ acts -> (res = overwrite -> Asked c_overwrite ∈ acts) ->
  agreed acts (Enqueued dest (planUploads files found res)).
Proof.
  intros Hc Hres. exists (cleanUploadName ∘ picked_name <$> files), found. split; [done|]. split.
  { eapply Forall_impl; [apply planUploads_sources|]. intros i Hi. by apply (list_elem_of_fmap_2 (cleanUploadName ∘ picked_name)). }
  destruct res; [| apply Forall_true; auto |]; (eapply Forall_impl; [by apply planUploads_overwrites|]); naive_solver.
Qed.
Lemma upload_rest_agreed dest found files res acts s :
  Forall (fun a => innocent a = true) acts -> Collided dest (cleanUploadName ∘ picked_name <$> files) found ∈ acts -> (res = overwrite -> Asked c_overwrite ∈ acts) ->
  adds (match planUploads files found res with
        | [] => say tone_info "uploadAllExist" None
        | items =>
            ok <- roomForUpload dest (foldr (fun i n => default 0 (picked_size (item_source i)) + n) 0 items);;
            if ok : bool then request (Enqueued dest items) (en_enqueue env);; say tone_success (match items with [_] => "uploadingFile" | _ => "uploadingNFiles" end) None else ret tt
        end) s (fun acts' r => consented (acts ++ acts')).
Proof.
  intros Hi Hc Hres. pose proof (upload_items_agreed dest found files res acts Hc Hres) as Hag.
  destruct (planUploads files found res) as [|i rest]; [adds_step; rewrite app_nil_r; by apply innocent_agreed|].
  apply adds_bind. eapply adds_weaken; [apply roomForUpload_innocent|]. cbn beta. intros acts1 r Hi1.
  assert (Hi2 : Forall (fun a => innocent a = true) (acts ++ acts1)) by (apply Forall_app; done).
  assert (Hag1 : agreed (acts ++ acts1) (Enqueued dest (i :: rest))) by (eapply agreed_mono; [|exact Hag]; set_solver).
  destruct r as [[]|e]; adds_step; rewrite ?app_nil_r; try (by apply innocent_agreed); rewrite (assoc_L (++)); by apply agreed_snoc.
Qed.
Lemma upload_picked_agreed dest files s : adds (upload_picked dest files) s (fun acts _ => consented acts).
Proof.
  unfold upload_picked, collidingBasenames, askConflict. adds_step; [|by apply innocent_agreed].
  destruct a as [|f fs]; adds_step.
  - apply (upload_rest_agreed dest [] files skip [Collided dest _ []]); [by repeat constructor | left | done].
  - set (found := f :: fs). cbn [app]. destruct a; cbn [resolution_of]; adds_step; [..|by apply innocent_agreed; repeat constructor];
      (apply (upload_rest_agreed dest found files _ [Collided dest _ found; Asked _]); [by repeat constructor | left | try done]).
    intros _. right. left.
  - by apply innocent_agreed; repeat constructor.
Qed.
Lemma upload_agreed s : adds upload s (fun acts _ => consented acts).
Proof.
  unfold upload, adds, logs. destruct (en_pick env (sc_log s)) as [[[|f fs]|]|e]; cbn -[catch upload_picked];
    try (exists []; rewrite app_nil_r; split; [done | by apply innocent_agreed]).
  apply (adds_catch (upload_picked (en_path env) (f :: fs)) (fun _ => say tone_error "operationFailed" None) s (fun acts _ => consented acts)).
  eapply adds_weaken; [apply upload_picked_agreed|]. intros acts [[]|e] H; [done|]. adds_step. by rewrite app_nil_r.
Qed.
Ltac innocent_acts := solve [cbn [app]; apply innocent_agreed; repeat first [apply Forall_nil | apply Forall_cons; split; [reflexivity|]]; done].


(** ** What a paste leaves to be tried again *)

Lemma plan_transfer_clip dest sources s : sc_clip (plan_transfer dest sources s).1 = sc_clip s.
Proof.
  unfold plan_transfer, collidingBasenames, askConflict, answer, bind. cbn. destruct (en_colliding env (sc_log s)) as [[|f fs]|e]; cbn; try done.
  destruct (default c_cancel _); try done. by destruct (List.filter _ sources).
Qed.
(** The computer answered the last request with no failure. *)
Definition all_moved (isCut : bool) (dest : jstr) (s : Screen) : Prop :=
  exists srcs dup ow res, last (sc_log s) = Some (Transferred isCut dest srcs dup ow) /\ en_batch env (sc_log s) = Ok res /\ batch_failed res = [].
Lemma reportBatch_clean res u s : batch_failed res = [] -> (reportBatch res u s).2 = Ok tt /\ sc_clip (reportBatch res u s).1 = sc_clip s /\ sc_log (reportBatch res u s).1 = sc_log s.
Proof. unfold reportBatch. by intros ->. Qed.
Lemma transferInto_done dest paths isCut s :
  let (s', r) := transferInto dest paths isCut s in
  sc_clip s' = sc_clip s /\ exists done, r = Ok done /\ (done = true -> all_moved isCut dest s').
Proof.
  unfold transferInto. destruct (destinationProblem paths dest); [cbn; naive_solver|].
  destruct (pasteSources paths dest isCut) as [|p ps]; [cbn; naive_solver|]. set (sources := p :: ps).
  pose proof (plan_transfer_clip dest sources s) as Hc. unfold bind at 1, catch at 1.
  destruct (plan_transfer dest sources s) as [s1 [[[[srcs dup] ow]|]|e]]; cbn in Hc |- *; [|naive_solver..].
  unfold catch, bind, request. cbn. destruct (en_batch env (sc_log s1 ++ _)) as [res|e] eqn:Eb; cbn; [|naive_solver].
  unfold transferFullySucceeded, reportBatch. destruct (batch_failed res) eqn:Ef; cbn; [|naive_solver].
  split; [done|]. eexists. split; [done|]. intros _. exists srcs, dup, ow, res. cbn. by rewrite last_snoc.
Qed.
(** A paste leaves the clipboard as it was, to be pasted again, unless it was a cut and the
    computer moved every file of it. *)
Theorem paste_clipboard s c : sc_clip s = Some c ->
  let s' := (paste s).1 in
  sc_clip s' = Some c \/ sc_clip s' = None /\ clip_mode c = clip_cut /\ all_moved true (en_path env) s'.
Proof.
  intros Ec. unfold paste, bind, the_clip. cbn. rewrite Ec.
  pose proof (transferInto_done (en_path env) (clip_paths c) (is_cut (clip_mode c)) s) as H.
  destruct (transferInto _ _ _ s) as [s1 r]. destruct H as (Hc & d & -> & Hd).
  destruct d, (clip_mode c) eqn:Em; cbn; rewrite ?Hc, ?Ec; auto.
Qed.
End Actions.
