(* ===== verification/WebIdentity.v ===== *)
(** * The browser's device identity

    [webui/web/src/lib/deviceIdentity.ts]: the key pair kept in the browser's database, the
    import of keys that older builds left in [localStorage], and the callers that share one
    load.  The browser's cryptography and its faults are parameters: every operation on the
    database or a key may fail, by its number. *)

From Stdlib Require Import ZArith Lia Bool String.
From Stdlib Require List.
From S2P Require Import Prelude JsCollections JsString Errors Utf8 Identity.
Local Open Scope js_scope.

(** ** Base64 of the browser *)

Definition to_base64 (bytes : list Z) : jstr := toBase64 bytes.
Definition is_ascii_space (c : jchar) : bool := (c =? 9) || (c =? 10) || (c =? 12) || (c =? 13) || (c =? 32).
(** [atob]: white space is dropped, the padding may be missing; [None]: it throws. *)
Definition strip_padding (s : jstr) : jstr :=
  if negb (Z.of_nat (length s) mod 4 =? 0) then s
  else if ends_with [equals_sign; equals_sign] s then take (length s - 2) s
  else if ends_with [equals_sign] s then take (length s - 1) s
  else s.
Definition atob (s : jstr) : option (list Z) :=
  let t := strip_padding (List.filter (fun c => negb (is_ascii_space c)) s) in
  let n := Z.of_nat (length t) in
  if (n mod 4 =? 1) || negb (List.forallb is_b64 t) then None
  else Some (take (Z.to_nat (n * 6 / 8)) (b64_groups (t ++ replicate (Z.to_nat ((4 - n mod 4) mod 4)) (b64_char 0)))).

(** ** Keys and the tab *)

Record CryptoKey := { extractable : bool; algorithm_name : jstr; key_bytes : list Z }.
Record StoredIdentity := { sid_private : CryptoKey; sid_public : CryptoKey }.
#[global] Instance CryptoKey_eq_dec : EqDecision CryptoKey.
Proof. solve_decision. Defined.
#[global] Instance StoredIdentity_eq_dec : EqDecision StoredIdentity.
Proof. solve_decision. Defined.
Definition ED25519 : jstr := js "Ed25519".

(** [crypto.subtle]: how a key is read, signed with and checked; [None]: it rejects. *)
Class WebCrypto := {
  import_pkcs8 : list Z -> option (list Z);
  import_raw : list Z -> option (list Z);
  subtle_sign : list Z -> list Z -> list Z;
  subtle_verify : list Z -> list Z -> list Z -> bool
}.
(** The database, the old keys of [localStorage], and the numbered operations done. *)
Record Tab := { tb_db : option StoredIdentity; tb_priv : option jstr; tb_pub : option jstr; tb_ops : nat }.
(** Faults of the browser, its random bytes and the keys it generates, by operation. *)
Record Browser := {
  br_fails : nat -> bool; br_idb : bool; br_storage : bool;
  br_random : nat -> list Z; br_generate : nat -> list Z * list Z }.
Notation Idm := (M Tab jserror).
Definition set_db (t : Tab) (d : option StoredIdentity) : Tab := {| tb_db := d; tb_priv := tb_priv t; tb_pub := tb_pub t; tb_ops := tb_ops t |}.

Section Browser.
Context `{W : WebCrypto} (br : Browser).

(** One operation of the browser: its number, or a rejection. *)
Definition operation (message : string) : Idm nat := fun t =>
  ({| tb_db := tb_db t; tb_priv := tb_priv t; tb_pub := tb_pub t; tb_ops := S (tb_ops t) |},
   if br_fails br (tb_ops t) then Err (PlainError (js message)) else Ok (tb_ops t)).
Definition openIdentityDB : Idm unit :=
  if negb (br_idb br) then throw (PlainError (js "This browser does not support secure device identity storage."))
  else operation "Could not open secure device identity storage.";; ret tt.
Definition readIdentity : Idm (option StoredIdentity) :=
  openIdentityDB;; operation "Could not read device identity.";; fun t => (t, Ok (tb_db t)).
(** A failed transaction leaves the database as it was. *)
Definition writeIdentity (identity : StoredIdentity) : Idm unit :=
  openIdentityDB;; operation "Could not save device identity.";; modify (fun t => set_db t (Some identity)).

Definition sign_with (k : CryptoKey) (message : list Z) : Idm (list Z) :=
  operation "OperationError";; ret (subtle_sign (key_bytes k) message).
Definition clear_site : jstr := js "Clear this site" ++ [8217] ++ js "s data and pair again.".
Definition validateIdentity (identity : StoredIdentity) : Idm unit :=
  if extractable (sid_private identity) || negb (bool_decide (algorithm_name (sid_private identity) = ED25519)) then
    throw (PlainError (js "Stored browser identity is not a non-extractable Ed25519 key. " ++ clear_site))
  else
    n <- (fun t => (t, Ok (tb_ops t)));;
    signature <- sign_with (sid_private identity) (br_random br n);;
    operation "OperationError";;
    if subtle_verify (key_bytes (sid_public identity)) signature (br_random br n) then ret tt
    else throw (PlainError (js "Stored browser device identity is invalid. " ++ clear_site)).

Definition importKey (read : list Z -> option (list Z)) (bytes : list Z) (ext : bool) : Idm CryptoKey :=
  operation "DataError";;
  match read bytes with
  | Some b => ret {| extractable := ext; algorithm_name := ED25519; key_bytes := b |}
  | None => throw (PlainError (js "DataError"))
  end.
Definition fromBase64_key (s : jstr) : Idm (list Z) :=
  match atob s with Some b => ret b | None => throw (PlainError (js "InvalidCharacterError")) end.

Definition clearLegacyIdentity : Idm unit :=
  modify (fun t => if br_storage br then {| tb_db := tb_db t; tb_priv := None; tb_pub := None; tb_ops := tb_ops t |} else t).
(** The [try] of the import: both halves read, and checked against each other. *)
Definition import_legacy_keys (priv pub : jstr) : Idm StoredIdentity :=
  pb <- fromBase64_key priv;;
  pk <- importKey import_pkcs8 pb false;;
  ub <- fromBase64_key pub;;
  uk <- importKey import_raw ub true;;
  let identity := {| sid_private := pk; sid_public := uk |} in
  validateIdentity identity;; ret identity.
Definition truthy_str (o : option jstr) : option jstr := match o with Some (c :: r) => Some (c :: r) | _ => None end.
Definition importLegacyIdentity : Idm (option StoredIdentity) := fun t =>
  if negb (br_storage br) then (t, Ok None)
  else
    match truthy_str (tb_priv t), truthy_str (tb_pub t) with
    | Some priv, Some pub =>
        (identity <- catch (i <- import_legacy_keys priv pub;; ret (Some i)) (fun _ => clearLegacyIdentity;; ret None);;
         match identity with
         | None => ret None
         | Some i => writeIdentity i;; clearLegacyIdentity;; ret (Some i)
         end) t
    | _, _ => (clearLegacyIdentity;; ret None) t
    end.
Definition generateIdentity : Idm StoredIdentity :=
  n <- operation "OperationError";;
  let generated := br_generate br n in
  operation "OperationError";; operation "OperationError";;
  pk <- importKey import_pkcs8 generated.1 false;;
  uk <- importKey import_raw generated.2 true;;
  let identity := {| sid_private := pk; sid_public := uk |} in
  validateIdentity identity;; writeIdentity identity;; ret identity.
Definition loadIdentity : Idm StoredIdentity :=
  stored <- readIdentity;;
  match stored with
  | Some i => validateIdentity i;; ret i
  | None =>
      legacy <- catch importLegacyIdentity (fun _ => clearLegacyIdentity;; ret None);;
      match legacy with Some i => ret i | None => generateIdentity end
  end.

(** ** The shared load *)

(** [cached] and [loading] with the callers that wait for it, and every answer given. *)
Record Companion := { co_tab : Tab; co_cached : option StoredIdentity; co_waiting : option nat; co_answers : list (result jserror StoredIdentity) }.
Inductive IdEvent := Ask | Settled | PageReloaded.
Definition getDeviceKeyPair (c : Companion) : Companion :=
  match co_cached c with
  | Some i => {| co_tab := co_tab c; co_cached := Some i; co_waiting := co_waiting c; co_answers := co_answers c ++ [Ok i] |}
  | None => {| co_tab := co_tab c; co_cached := None; co_waiting := Some (S (default 0%nat (co_waiting c))); co_answers := co_answers c |}
  end.
(** The load ends: everyone who waits has its outcome, and a failure is not kept. *)
Definition settle_load (c : Companion) : Companion :=
  match co_waiting c with
  | None => c
  | Some n =>
      let (t, r) := loadIdentity (co_tab c) in
      {| co_tab := t; co_cached := match r with Ok i => Some i | Err _ => co_cached c end; co_waiting := None;
         co_answers := co_answers c ++ replicate n r |}
  end.
Definition id_step (c : Companion) (e : IdEvent) : Companion :=
  match e with
  | Ask => getDeviceKeyPair c
  | Settled => settle_load c
  | PageReloaded => {| co_tab := co_tab c; co_cached := None; co_waiting := None; co_answers := co_answers c |}
  end.
Definition run_ids (c : Companion) (es : list IdEvent) : Companion := fold_left id_step es c.

(** ** What the agent is given *)

Definition deviceProofMessageV2 `{U : Unicode} (certFingerprint nonce : jstr) : jstr :=
  js "rfe-device-proof-v2" ++ [10] ++ toLowerCase certFingerprint ++ [10] ++ nonce.
Definition public_key_text (i : StoredIdentity) : Idm jstr := operation "OperationError";; ret (to_base64 (key_bytes (sid_public i))).
Definition signNonce (i : StoredIdentity) (message : jstr) : Idm jstr :=
  signature <- sign_with (sid_private i) (encode_text message);; ret (to_base64 signature).

(** ** One identity for good *)

(** The private half cannot be exported and has signed something the public half accepts. *)
Definition sound_identity (i : StoredIdentity) : Prop :=
  extractable (sid_private i) = false /\ algorithm_name (sid_private i) = ED25519 /\
  exists challenge, subtle_verify (key_bytes (sid_public i)) (subtle_sign (key_bytes (sid_private i)) challenge) challenge = true.

(** [m] leaves the database alone, and what it answers satisfies [Q]. *)
Definition quiet {A} (m : Idm A) (Q : A -> Prop) : Prop :=
  forall t, tb_db (m t).1 = tb_db t /\ forall a, (m t).2 = Ok a -> Q a.
Lemma quiet_operation msg : quiet (operation msg) (fun _ => True).
Proof. done. Qed.
Lemma quiet_ret {A} (a : A) (Q : A -> Prop) : Q a -> quiet (ret a) Q.
Proof. intros H t. split; [done|]. by intros b [= <-]. Qed.
Lemma quiet_throw {A} e (Q : A -> Prop) : quiet (throw e) Q.
Proof. done. Qed.
Lemma quiet_bind {A B} (m : Idm A) (k : A -> Idm B) P Q : quiet m P -> (forall a, P a -> quiet (k a) Q) -> quiet (bind m k) Q.
Proof.
  intros Hm Hk t. unfold bind. destruct (Hm t) as [Ht HP]. destruct (m t) as [t1 [a|e]]; cbn in *; [|done].
  destruct (Hk a (HP a eq_refl) t1) as [H1 H2]. split; [congruence | done].
Qed.
Lemma quiet_catch {A} (m : Idm A) h Q : quiet m Q -> (forall e, quiet (h e) Q) -> quiet (catch m h) Q.
Proof.
  intros Hm Hh t. unfold catch. destruct (Hm t) as [Ht HQ]. destruct (m t) as [t1 [a|e]]; cbn in *; [split; [done|]; by intros ? [= <-]; apply HQ|].
  destruct (Hh e t1). split; [congruence | done].
Qed.
Lemma quiet_weaken {A} (m : Idm A) (P Q : A -> Prop) : quiet m P -> (forall a, P a -> Q a) -> quiet m Q.
Proof. intros H HPQ t. destruct (H t). split; [done | auto]. Qed.
Lemma quiet_clear (Q : unit -> Prop) : Q tt -> quiet clearLegacyIdentity Q.
Proof. intros H t. cbn. destruct (br_storage br); (split; [done|]); by intros [] _. Qed.
Ltac quiet_step :=
  repeat match goal with
         | |- quiet (bind (operation _) _) _ => eapply quiet_bind; [apply quiet_operation | intros ? _]
         | |- quiet (bind clearLegacyIdentity _) _ => eapply quiet_bind; [by apply (quiet_clear (fun _ => True)) | intros ? _]
         | |- quiet (throw _) _ => apply quiet_throw
         | |- quiet (ret _) _ => apply quiet_ret
         end.
Lemma quiet_open : quiet openIdentityDB (fun _ => True).
Proof. unfold openIdentityDB. destruct (br_idb br); cbn; quiet_step. done. Qed.
Lemma quiet_validate i : quiet (validateIdentity i) (fun _ => sound_identity i).
Proof.
  unfold validateIdentity, sign_with. destruct (extractable (sid_private i)) eqn:Ee; cbn [orb]; quiet_step.
  destruct (bool_decide_reflect (algorithm_name (sid_private i) = ED25519)) as [Ea|]; cbn [negb]; quiet_step.
  eapply (quiet_bind _ _ (fun _ => True)); [by intros t; split|]. intros n _.
  eapply (quiet_bind _ _ (fun s => s = subtle_sign (key_bytes (sid_private i)) (br_random br n))); [quiet_step; done|]. intros s ->.
  quiet_step. destruct (subtle_verify _ _ _) eqn:Ev; quiet_step. repeat split; [done..|]. by exists (br_random br n).
Qed.
Lemma quiet_import read b ext : quiet (importKey read b ext) (fun _ => True).
Proof. unfold importKey. quiet_step. destruct (read b); by quiet_step. Qed.
Lemma quiet_legacy_keys priv pub : quiet (import_legacy_keys priv pub) sound_identity.
Proof.
  assert (Hb : forall s, quiet (fromBase64_key s) (fun _ => True)) by (intros s; unfold fromBase64_key; destruct (atob s); by quiet_step).
  unfold import_legacy_keys. eapply quiet_bind; [apply Hb|]. intros pb _. eapply quiet_bind; [apply quiet_import|]. intros pk _.
  eapply quiet_bind; [apply Hb|]. intros ub _. eapply quiet_bind; [apply quiet_import|]. intros uk _.
  eapply quiet_bind; [apply quiet_validate|]. intros [] H. by apply quiet_ret.
Qed.

(** [m], run on an empty database, leaves there exactly what it answers. *)
Definition installs {A} (m : Idm A) (made : A -> option StoredIdentity) : Prop :=
  forall t, tb_db t = None ->
  match m t with
  | (t', Ok a) => tb_db t' = made a /\ (forall i, made a = Some i -> sound_identity i)
  | (t', Err _) => tb_db t' = None
  end.
Lemma installs_quiet {A B} (m : Idm A) (k : A -> Idm B) P made : quiet m P -> (forall a, P a -> installs (k a) made) -> installs (bind m k) made.
Proof.
  intros Hm Hk t Ht. unfold bind. destruct (Hm t) as [H1 H2]. destruct (m t) as [t1 [a|e]]; cbn in *; [|congruence].
  apply (Hk a (H2 a eq_refl)). congruence.
Qed.
Lemma installs_ret {A} (a : A) made : made a = None -> installs (ret a) made.
Proof. intros H t Ht. cbn. rewrite H. split; [done | congruence]. Qed.
Lemma installs_catch {A} (m : Idm A) h made : installs m made -> (forall e, installs (h e) made) -> installs (catch m h) made.
Proof. intros Hm Hh t Ht. unfold catch. specialize (Hm t Ht). destruct (m t) as [t1 [a|e]]; [done | by apply Hh]. Qed.
(** A write followed by steps that cannot fail. *)
Lemma installs_write {A} i (k : unit -> Idm A) a (made : A -> option StoredIdentity) :
  sound_identity i -> made a = Some i -> (forall t, tb_db (k tt t).1 = tb_db t /\ (k tt t).2 = Ok a) -> installs (bind (writeIdentity i) k) made.
Proof.
  intros Hi Ha Hk. unfold writeIdentity. intros t Ht. unfold bind. destruct (quiet_open t) as [H1 _].
  destruct (openIdentityDB t) as [t1 [[]|e]]; cbn in *; [|congruence]. destruct (br_fails br (tb_ops t1)); cbn; [congruence|].
  set (t2 := set_db _ _). destruct (Hk t2) as [H2 H3]. destruct (k tt t2) as [t3 r]; cbn in *. subst r. rewrite H2, Ha. split; [done|]. by intros j [= <-].
Qed.
Lemma importLegacy_installs : installs importLegacyIdentity id.
Proof.
  intros t Ht. unfold importLegacyIdentity. destruct (negb (br_storage br)); [by split|].
  assert (Hnone : installs (clearLegacyIdentity;; ret None) id).
  { eapply installs_quiet; [by apply (quiet_clear (fun _ => True))|]. intros [] _. by apply installs_ret. }
  destruct (truthy_str (tb_priv t)) as [priv|]; [|by apply Hnone]. destruct (truthy_str (tb_pub t)) as [pub|]; [|by apply Hnone].
  pose (made := fun o : option StoredIdentity => forall i, o = Some i -> sound_identity i).
  revert t Ht. eapply (installs_quiet _ _ made).
  - apply quiet_catch; [|intros e; quiet_step; done]. eapply quiet_bind; [apply quiet_legacy_keys|]. intros i Hi. apply quiet_ret. by intros j [= <-].
  - intros [i|] Hm; [|by apply installs_ret]. eapply (installs_write i _ (Some i) id); [by apply Hm | done|].
    intros t. cbn. unfold bind, clearLegacyIdentity, modify, ret. by destruct (br_storage br).
Qed.
Lemma generate_installs : installs generateIdentity Some.
Proof.
  unfold generateIdentity. eapply installs_quiet; [apply quiet_operation|]. intros n _.
  do 2 (eapply installs_quiet; [apply quiet_operation|]; intros _ _).
  eapply installs_quiet; [apply quiet_import|]. intros pk _. eapply installs_quiet; [apply quiet_import|]. intros uk _.
  eapply installs_quiet; [apply quiet_validate|]. intros [] Hi. by eapply installs_write.
Qed.
Lemma loadIdentity_spec t :
  match loadIdentity t with
  | (t', Ok i) => tb_db t' = Some i /\ sound_identity i /\ (forall j, tb_db t = Some j -> i = j)
  | (t', Err _) => tb_db t' = tb_db t
  end.
Proof.
  unfold loadIdentity, readIdentity. unfold bind at 1 2. destruct (quiet_open t) as [H1 _].
  destruct (openIdentityDB t) as [t1 [[]|e]]; cbn -[bind] in *; [|done]. unfold bind at 1. cbn -[bind catch].
  destruct (br_fails br (tb_ops t1)); cbn -[bind catch]; [done|]. set (t2 := {| tb_db := tb_db t1 |}).
  destruct (tb_db t1) as [i|] eqn:Ei; cbn -[bind catch].
  - unfold bind. destruct (quiet_validate i t2) as [H2 H3]. destruct (validateIdentity i t2) as [t3 [[]|e]]; cbn in *; [|congruence].
    split; [congruence|]. split; [by apply (H3 tt)|]. intros j Hj. congruence.
  - assert (Hl : installs (legacy <- catch importLegacyIdentity (fun _ => clearLegacyIdentity;; ret None);;
                           match legacy with Some i => ret i | None => generateIdentity end) Some).
    { intros t' Ht'. assert (Hc : installs (catch importLegacyIdentity (fun _ => clearLegacyIdentity;; ret None)) id).
      { apply installs_catch; [apply importLegacy_installs|]. intros e. eapply installs_quiet; [by apply (quiet_clear (fun _ => True))|]. intros [] _. by apply installs_ret. }
      specialize (Hc t' Ht'). unfold bind. destruct (catch _ _ t') as [t3 [[i|]|e]]; cbn in Hc |- *; [|apply generate_installs; tauto | done].
      destruct Hc as [Hc1 Hc2]. split; [done|]. auto. }
    specialize (Hl t2 eq_refl). destruct (bind _ _ t2) as [t3 [i|e]]; [|congruence]. destruct Hl as [Hl1 Hl2]. split; [done|]. split; [auto | congruence].
Qed.

Definition opened (t : Tab) : Companion := {| co_tab := t; co_cached := None; co_waiting := None; co_answers := [] |}.
Definition kept (c : Companion) : Prop :=
  (forall i, co_cached c = Some i -> tb_db (co_tab c) = Some i /\ sound_identity i) /\
  Forall (fun r => match r with Ok i => tb_db (co_tab c) = Some i /\ sound_identity i | Err _ => True end) (co_answers c).
Lemma kept_step c e : kept c -> kept (id_step c e).
Proof.
  intros [H1 H2]. destruct e; cbn.
  - unfold getDeviceKeyPair. destruct (co_cached c) as [i|] eqn:Ec; (split; [done|]); cbn; [|done]. apply Forall_app. split; [done|]. repeat constructor; by apply H1.
  - unfold settle_load. destruct (co_waiting c) as [n|]; [|by split]. pose proof (loadIdentity_spec (co_tab c)) as H.
    destruct (loadIdentity (co_tab c)) as [t [i|e]]; cbn.
    + destruct H as (Ht & Hs & Hu). split; [by intros j [= <-]|]. apply Forall_app. split; [|by apply Forall_replicate].
      eapply Forall_impl; [exact H2|]. intros [j|e]; [|done]. intros [Hj Hsj]. cbn. rewrite Ht, (Hu j Hj). by rewrite (Hu j Hj) in Hs.
    + split; cbn; [rewrite H; done|]. apply Forall_app. split; [by rewrite H | by apply Forall_replicate].
  - by split.
Qed.

(** Whatever fails in the browser, whoever asks while a load runs and however often the
    page is reloaded, every identity handed out is the one its database then holds: callers
    never see two, and its private half is a non-extractable Ed25519 key whose signature the
    public half has accepted. *)
Theorem web_identity_permanent t es :
  let c := run_ids (opened t) es in
  Forall (fun r => match r with Ok i => tb_db (co_tab c) = Some i /\ sound_identity i | Err _ => True end) (co_answers c).
Proof.
  intros c. assert (H : kept c); [|apply H]. unfold c, run_ids. assert (H : kept (opened t)) by (split; [done | constructor]).
  revert H. generalize (opened t). induction es as [|e es IH]; intros c0 H; [done|]. cbn. by apply IH, kept_step.
Qed.
End Browser.

(** ** A fault while the old keys are saved *)

Definition toy_crypto : WebCrypto := {|
  import_pkcs8 := Some; import_raw := Some; subtle_sign := fun k m => k ++ m;
  subtle_verify := fun k s m => bool_decide (s = k ++ m) |}.
Definition toy_browser (fault : nat) : Browser := {|
  br_fails := Nat.eqb fault; br_idb := true; br_storage := true; br_random := fun n => [Z.of_nat n]; br_generate := fun n => ([99], [99]) |}.
Definition old_tab : Tab := {| tb_db := None; tb_priv := Some (js "BwgJ"); tb_pub := Some (js "BwgJ"); tb_ops := 0 |}.
Definition key_of (r : result jserror StoredIdentity) : option (list Z) := match r with Ok i => Some (key_bytes (sid_public i)) | Err _ => None end.
(** Usable old keys are taken over when nothing fails; when just the write of the import fails
    they are removed all the same, and the browser becomes a new device. *)
Theorem legacy_keys_lost_on_failed_write :
  (let c := run_ids (W := toy_crypto) (toy_browser 100) (opened old_tab) [Ask; Settled] in
   key_of <$> co_answers c = [Some [7; 8; 9]]) /\
  (let c := run_ids (W := toy_crypto) (toy_browser 7) (opened old_tab) [Ask; Settled] in
   key_of <$> co_answers c = [Some [99]] /\ tb_priv (co_tab c) = None).
Proof. vm_compute. auto. Qed.
