(* ===== verification/WebClient.v ===== *)
(** * The web companion's client

    [webui/web/src/lib/api.ts] and [requests.ts]: the requests of the browser companion, its
    sign-in with a proof of the device's key, and the chunked upload.  The agent is a function
    of everything sent so far; what it answers is JSON taken as it comes.  SHA-256 is a
    parameter with the law of its incremental form. *)

From Stdlib Require Import ZArith Lia Bool String.
From Stdlib Require List.
From S2P Require Import Prelude JsCollections JsString Json Errors Utf8 Identity AgentClient FileCaches WebIdentity.
Local Open Scope js_scope.

(** ** Bodies and query strings ([requests.ts]) *)

Definition renameBody (path newName : jstr) : json :=
  let sep := if includes_char backslash path then backslash else slash in
  let dst := match last_index_of sep path with
             | Some (S _ as idx) => take idx path ++ [sep] ++ newName
             | _ => [sep] ++ newName
             end in
  JObj [(js "src", JStr path); (js "dst", JStr dst)].
Definition trashIdsBody (ids : list jstr) : json := JObj [(js "ids", jstrs ids)].
Definition mintBody (path : jstr) (expiresInSeconds : option Z) : json :=
  JObj ((js "path", JStr path) :: match expiresInSeconds with Some 0 | None => [] | Some n => [(js "expiresInSeconds", JNum n)] end).
Definition wolBody (mac : jstr) : json := JObj [(js "mac", JStr mac)].

(** [URLSearchParams]: form encoding of UTF-8, a lone surrogate is U+FFFD, a space is [+]. *)
Definition form_plain (b : Z) : bool := is_alnum b || (b =? 42) || (b =? 45) || (b =? 46) || (b =? 95).
Definition form_byte (b : Z) : jstr := if b =? 32 then [43] else if form_plain b then [b] else percent b.
Definition form_encode (s : jstr) : jstr := encode_text s ≫= form_byte.
Definition form_pairs (ps : list (jstr * jstr)) : jstr :=
  join [38] ((fun kv => form_encode kv.1 ++ [61] ++ form_encode kv.2) <$> ps).
Definition searchParams (query : jstr) (root : option jstr) : jstr :=
  form_pairs ((js "q", query) :: match root with Some (c :: r) => [(js "root", c :: r)] | _ => [] end).

Definition truthy_json (v : json) : bool := match v with JNull | JBool false | JNum 0 | JStr [] => false | _ => true end.
Definition result_ok (r : json) : bool := match r with JObj fs => from_option truthy_json false (field (js "ok") fs) | _ => false end.
Definition result_message (r : json) : option json :=
  match r with
  | JObj fs => match field (js "error") fs with Some (JObj es) => nullish (field (js "message") es) | _ => None end
  | _ => None
  end.
(** The reason of the first failure; a missing result is one. *)
Definition could_not_restore : json := JStr (js "Could not restore it").
Definition restoreFailure (results : list json) : option json :=
  match results with
  | [] => Some could_not_restore
  | _ => match List.find (fun r => negb (result_ok r)) results with
         | Some bad => Some (default could_not_restore (result_message bad))
         | None => None
         end
  end.

(** ** Requests *)

Inductive WebBody := no_body | json_body (j : json) | raw_body (bytes : list Z).
Record WebRequest := { wq_method : jstr; wq_path : jstr; wq_headers : list (jstr * jstr); wq_body : WebBody }.
(** [wr_json]: what [res.json()] gives; [None]: it throws. *)
Record WebReply := { wr_status : Z; wr_statusText : jstr; wr_isJson : bool; wr_json : option json }.
Inductive WebError := ApiError (status : Z) (code : json) (message : jstr) | OtherError (message : jstr).
(** The page: what was sent, and the tab with the device's identity. *)
Record Page := { pg_sent : list WebRequest; pg_id : Companion }.
Notation Web := (M Page WebError).
Definition session_header : jstr * jstr := (js "X-RFE-Web-Session", js "1").

Class Sha256 := {
  sha256 : list Z -> list Z;
  hasher : Type; h_create : hasher; h_update : hasher -> list Z -> hasher; h_digest : hasher -> list Z;
  h_digest_chunks : forall chunks, h_digest (fold_left h_update chunks h_create) = sha256 (concat chunks);
  sha256_bytes : forall data, Forall (fun b => 0 <= b < 256) (sha256 data)
}.

Section Client.
Context `{U : Unicode, W : WebCrypto} (br : Browser).
(** The agent: [None] is a failed fetch. *)
Context (agent : list WebRequest -> option WebReply).

Definition fetch (q : WebRequest) : Web WebReply := fun p =>
  let sent := pg_sent p ++ [q] in
  ({| pg_sent := sent; pg_id := pg_id p |},
   match agent sent with Some r => Ok r | None => Err (OtherError (js "Failed to fetch")) end).
Definition res_ok (r : WebReply) : bool := is_2xx (wr_status r).
(** [data?.k]. *)
Definition member (data : option json) (k : string) : option json := match data with Some (JObj fs) => field (js k) fs | _ => None end.
Definition api_error (r : WebReply) (data : option json) : WebError :=
  ApiError (wr_status r) (default (JStr (js "UNKNOWN")) (nullish (member data "code")))
           (match nullish (member data "message") with Some m => json_to_string m | None => wr_statusText r end).
(** The answer is [None] where the source has [undefined]. *)
Definition request (method path : jstr) (body : option json) : Web (option json) :=
  res <- fetch {| wq_method := method; wq_path := js "/v1" ++ path;
                  wq_headers := session_header :: match body with Some _ => [(js "Content-Type", js "application/json")] | None => [] end;
                  wq_body := match body with Some j => json_body j | None => no_body end |};;
  if wr_status res =? 204 then ret None
  else
    data <- (if wr_isJson res then match wr_json res with Some j => ret (Some j) | None => throw (OtherError (js "SyntaxError")) end else ret None);;
    if res_ok res then ret data else throw (api_error res data).
Definition get (path : jstr) : Web (option json) := request (js "GET") path None.
Definition post (path : jstr) (body : option json) : Web (option json) := request (js "POST") path body.
Definition patch (path : jstr) (body : option json) : Web (option json) := request (js "PATCH") path body.
Definition put (path : jstr) (body : option json) : Web (option json) := request (js "PUT") path body.
Definition del (path : jstr) (body : option json) : Web (option json) := request (js "DELETE") path body.
Definition rawPut (path : jstr) (body : list Z) (headers : list (jstr * jstr)) : Web unit :=
  res <- fetch {| wq_method := js "PUT"; wq_path := js "/v1" ++ path; wq_headers := headers ++ [session_header]; wq_body := raw_body body |};;
  if res_ok res then ret tt else throw (api_error res (Some (default (JObj []) (wr_json res)))).

(** ** The upload *)

Context `{SH : Sha256}.
Definition hex_text (bytes : list Z) : jstr := bytes ≫= (fun b => pad_start 2 48 (nat_to_string 16 b)).
Definition sha256Hex (data : list Z) : jstr := hex_text (sha256 data).
Definition UPLOAD_CHUNK_SIZE : Z := 4 * 1024 * 1024.
(** A picked file: [wf_fails second start] when the read of the piece at [start] fails. *)
Record WebFile := { wf_name : jstr; wf_bytes : list Z; wf_fails : bool -> Z -> bool }.
Definition file_size (f : WebFile) : Z := Z.of_nat (length (wf_bytes f)).
(** [file.slice(start, end).arrayBuffer()]. *)
Definition slice_bytes (f : WebFile) (start stop : Z) : list Z := take (Z.to_nat (stop - start)) (drop (Z.to_nat start) (wf_bytes f)).
Definition read_slice (f : WebFile) (second : bool) (start stop : Z) : Web (list Z) :=
  if wf_fails f second start then throw (OtherError (js "NotReadableError")) else ret (slice_bytes f start stop).
(** The first pass, one piece at a time; [None]: more pieces than the fuel. *)
Fixpoint hash_loop (fuel : nat) (chunk : Z) (f : WebFile) (start : Z) (h : hasher) : Web (option hasher) :=
  if start <? file_size f then
    match fuel with
    | O => ret None
    | S n => piece <- read_slice f false start (Z.min (start + chunk) (file_size f));; hash_loop n chunk f (start + chunk) (h_update h piece)
    end
  else ret (Some h).
(** [`${v}`] of a field. *)
Definition text_of (v : option json) : jstr := match v with Some j => json_to_string j | None => js "undefined" end.
Definition chunk_path (id : jstr) (n : Z) : jstr := js "/transfers/" ++ id ++ js "/chunks/" ++ string_of_Z n.
Definition chunk_at (chunk : Z) (f : WebFile) (n : Z) : list Z := slice_bytes f (n * chunk) (Z.min (n * chunk + chunk) (file_size f)).
Fixpoint put_chunks (count : nat) (chunk : Z) (f : WebFile) (id : jstr) (n : Z) : Web unit :=
  match count with
  | O => ret tt
  | S k =>
      piece <- read_slice f true (n * chunk) (Z.min (n * chunk + chunk) (file_size f));;
      rawPut (chunk_path id n) piece [(js "X-Chunk-Sha256", sha256Hex piece)];;
      put_chunks k chunk f id (n + 1)
  end.
Definition open_body (path : jstr) (f : WebFile) (wholeHash : jstr) (chunk : Z) : json :=
  JObj [(js "path", JStr path); (js "size", JNum (file_size f)); (js "sha256", JStr wholeHash); (js "chunkSize", JNum chunk)].
(** [n < totalChunks] for the number the answer holds, or none. *)
Definition total_chunks (session : json) : nat :=
  match member (Some session) "totalChunks" with Some v => Z.to_nat (default 0 (json_to_number v)) | None => 0%nat end.
Definition uploadFileImpl (chunk : Z) (path : jstr) (f : WebFile) : Web unit :=
  h <- hash_loop (length (wf_bytes f)) chunk f 0 h_create;;
  match h with
  | None => throw (OtherError (js "out of fuel"))
  | Some h =>
      session <- post (js "/transfers") (Some (open_body path f (hex_text (h_digest h)) chunk));;
      match session with
      | None | Some JNull => throw (OtherError (js "Cannot read properties of undefined"))
      | Some s =>
          let id := text_of (member (Some s) "id") in
          put_chunks (total_chunks s) chunk f id 0;;
          post (js "/transfers/" ++ id ++ js "/complete") None;; ret tt
      end
  end.
Definition uploadFile (path : jstr) (f : WebFile) : Web unit := uploadFileImpl UPLOAD_CHUNK_SIZE path f.

(** ** Signing in *)

Definition error_text (e : jserror) : jstr := match e with PlainError m => m | _ => [] end.
Definition on_tab {A} (m : Idm A) : Web A := fun p =>
  let (t, r) := m (co_tab (pg_id p)) in
  ({| pg_sent := pg_sent p; pg_id := {| co_tab := t; co_cached := co_cached (pg_id p); co_waiting := co_waiting (pg_id p); co_answers := co_answers (pg_id p) |} |},
   match r with Ok a => Ok a | Err e => Err (OtherError (error_text e)) end).
(** [await getDeviceKeyPair()], the load it starts or joins run to its end. *)
Definition device_key : Web StoredIdentity := fun p =>
  let c := run_ids br (pg_id p) [Ask; Settled] in
  ({| pg_sent := pg_sent p; pg_id := c |},
   match last (co_answers c) with Some (Ok i) => Ok i | Some (Err e) => Err (OtherError (error_text e)) | None => Err (OtherError []) end).
(** The message that is signed: [None] where [toLowerCase] is not a function. *)
Definition proof_message (challenge : json) : option jstr :=
  match member (Some challenge) "certFingerprint" with
  | Some (JStr (c :: fp)) => Some (deviceProofMessageV2 (c :: fp) (text_of (member (Some challenge) "nonce")))
  | Some v => if truthy_json v then None else Some (match member (Some challenge) "nonce" with Some n => json_to_string n | None => [] end)
  | None => Some (match member (Some challenge) "nonce" with Some n => json_to_string n | None => [] end)
  end.
Definition proofFields : Web (list (jstr * json)) :=
  challenge <- post (js "/auth/challenge") None;;
  i <- device_key;;
  devicePublicKey <- on_tab (public_key_text br i);;
  match challenge with
  | None | Some JNull => throw (OtherError (js "Cannot read properties of undefined"))
  | Some ch =>
      match proof_message ch with
      | None => throw (OtherError (js "toLowerCase is not a function"))
      | Some message =>
          j <- device_key;;
          signature <- on_tab (signNonce br j message);;
          ret ([(js "devicePublicKey", JStr devicePublicKey)] ++ opt_json "nonce" (member (Some ch) "nonce") ++ [(js "signature", JStr signature)])
      end
  end.
Definition signed_in (path : string) (fields : list (jstr * json)) : Web (option json) :=
  proof <- proofFields;; post (js path) (Some (JObj (fields ++ proof))).
Definition login (username password deviceLabel : jstr) : Web (option json) :=
  signed_in "/login" [(js "username", JStr username); (js "password", JStr password); (js "deviceLabel", JStr deviceLabel)].
Definition register (pairingCode username password deviceLabel : jstr) : Web (option json) :=
  signed_in "/register" [(js "pairingCode", JStr pairingCode); (js "username", JStr username); (js "password", JStr password); (js "deviceLabel", JStr deviceLabel)].
Definition pair (pairingCode deviceLabel : jstr) : Web (option json) :=
  signed_in "/pair" [(js "pairingCode", JStr pairingCode); (js "deviceLabel", JStr deviceLabel)].

(** ** The endpoints *)

Definition question (base : jstr) (qs : jstr) : jstr := base ++ match qs with [] => [] | _ => [63] ++ qs end.
Definition encoded (s : jstr) : Web jstr := match encodeURIComponent s with Some e => ret e | None => throw (OtherError (js "URI malformed")) end.
(** [api], with the bodies of its endpoints. *)
Inductive WebCall :=
| w_health | w_status | w_metrics | w_logoutSession
| w_login (username password deviceLabel : jstr) | w_register (pairingCode username password deviceLabel : jstr) | w_pair (pairingCode deviceLabel : jstr)
| w_listDevices | w_patchDevice (id : jstr) (body : json) | w_deleteDevice (id : jstr) | w_generatePairingCode
| w_listUsers | w_deleteUser (username : jstr) | w_listLogs
| w_listTransfers (params : list (jstr * jstr)) | w_deleteTransfer (id : jstr)
| w_openUploadSession (body : json) | w_uploadChunk (id : jstr) (n : Z) (chunk : list Z) (chunkSha256 : jstr) | w_completeUpload (id : jstr) | w_uploadFile (path : jstr) (f : WebFile)
| w_getSettings | w_patchSettings (body : json) | w_getBandwidth | w_putBandwidth (body : json)
| w_listDir (path : jstr) (cursor : option jstr) | w_listDrives | w_mkdir (path : jstr) | w_rename (path newName : jstr) | w_recent | w_search (query : jstr) (root : option jstr)
| w_listTrash | w_restoreTrash (ids : list jstr) | w_deleteTrashForever (ids : list jstr) | w_emptyTrash
| w_listShares | w_mintShare (path : jstr) (expiresInSeconds : option Z) | w_revokeShare (tokenHash : jstr)
| w_restartAgent | w_wakeOnLan (mac : jstr).
Definition listDir (path : jstr) (cursor : option jstr) : Web (option json) :=
  get (js "/fs?" ++ form_pairs ((js "path", path) :: match cursor with Some (c :: r) => [(js "cursor", c :: r)] | _ => [] end)).
Definition api (c : WebCall) : Web (option json) :=
  match c with
  | w_health => get (js "/health")
  | w_status => get (js "/status")
  | w_metrics => get (js "/metrics")
  | w_logoutSession => request (js "POST") (js "/auth/logout") None
  | w_login u p l => login u p l
  | w_register k u p l => register k u p l
  | w_pair k l => pair k l
  | w_listDevices => get (js "/devices")
  | w_patchDevice id body => patch (js "/devices/" ++ id) (Some body)
  | w_deleteDevice id => del (js "/devices/" ++ id) None
  | w_generatePairingCode => post (js "/pairing/generate") None
  | w_listUsers => get (js "/users")
  | w_deleteUser u => e <- encoded u;; del (js "/users/" ++ e) None
  | w_listLogs => get (js "/logs")
  | w_listTransfers params => get (question (js "/transfers/list") (form_pairs params))
  | w_deleteTransfer id => del (js "/transfers/" ++ id) None
  | w_openUploadSession body => post (js "/transfers") (Some body)
  | w_uploadChunk id n chunk sha => rawPut (chunk_path id n) chunk [(js "X-Chunk-Sha256", sha)];; ret None
  | w_completeUpload id => post (js "/transfers/" ++ id ++ js "/complete") None
  | w_uploadFile path f => uploadFile path f;; ret None
  | w_getSettings => get (js "/settings")
  | w_patchSettings body => patch (js "/settings") (Some body)
  | w_getBandwidth => get (js "/settings/bandwidth")
  | w_putBandwidth body => put (js "/settings/bandwidth") (Some body)
  | w_listDir path cursor => listDir path cursor
  | w_listDrives => get (js "/system/drives")
  | w_mkdir path => post (js "/fs/folder") (Some (JObj [(js "path", JStr path)]))
  | w_rename path newName => patch (js "/fs/rename") (Some (renameBody path newName))
  | w_recent => get (js "/fs/recent")
  | w_search query root => get (js "/search?" ++ searchParams query root)
  | w_listTrash => get (js "/trash")
  | w_restoreTrash ids => post (js "/trash/restore") (Some (trashIdsBody ids))
  | w_deleteTrashForever ids => del (js "/trash") (Some (trashIdsBody ids))
  | w_emptyTrash => del (js "/trash") None
  | w_listShares => get (js "/share")
  | w_mintShare path exp => post (js "/share/mint") (Some (mintBody path exp))
  | w_revokeShare tokenHash => del (js "/share/" ++ tokenHash) None
  | w_restartAgent => post (js "/agent/restart") None
  | w_wakeOnLan mac => post (js "/wol") (Some (wolBody mac))
  end.
Definition contentUrl (path : jstr) : option jstr := e ← encodeURIComponent path; Some (js "/v1/content?path=" ++ e).
Definition thumbUrl (path : jstr) : option jstr := e ← encodeURIComponent path; Some (js "/v1/thumb?path=" ++ e).
(** What the page shows of a fresh pairing code; [nowSeconds] is the clock. *)
Definition pairing_code (nowSeconds : Z) (res : json) : option json * option Z * option json :=
  (member (Some res) "pairingCode",
   s ← member (Some res) "expiresInSeconds"; n ← json_to_number s; Some (nowSeconds + n),
   member (Some res) "qrPngBase64").

(** ** What an upload sends *)

Definition open_request (chunk : Z) (path : jstr) (f : WebFile) : WebRequest := {|
  wq_method := js "POST"; wq_path := js "/v1/transfers"; wq_headers := [session_header; (js "Content-Type", js "application/json")];
  wq_body := json_body (open_body path f (sha256Hex (wf_bytes f)) chunk) |}.
Definition chunk_request (chunk : Z) (f : WebFile) (id : jstr) (n : Z) : WebRequest := {|
  wq_method := js "PUT"; wq_path := js "/v1" ++ chunk_path id n;
  wq_headers := [(js "X-Chunk-Sha256", sha256Hex (chunk_at chunk f n)); session_header]; wq_body := raw_body (chunk_at chunk f n) |}.
Definition complete_request (id : jstr) : WebRequest := {|
  wq_method := js "POST"; wq_path := js "/v1/transfers/" ++ id ++ js "/complete"; wq_headers := [session_header]; wq_body := no_body |}.
Definition numbers (n : Z) (count : nat) : list Z := (fun i => n + Z.of_nat i) <$> seq 0 count.
Definition upload_plan (chunk : Z) (path : jstr) (f : WebFile) (session : json) : list WebRequest :=
  let id := text_of (member (Some session) "id") in
  [open_request chunk path f] ++ (chunk_request chunk f id <$> numbers 0 (total_chunks session)) ++ [complete_request id].

(** The agent took the last request of [sent]. *)
Definition accepted (sent : list WebRequest) : Prop := exists r, agent sent = Some r /\ res_ok r = true.
(** [m] sends a beginning of [plan], each request only once the one before was taken, and all
    of it, all taken, when it succeeds. *)
Definition performs {A} (m : Web A) (p : Page) (plan : list WebRequest) : Prop :=
  exists ns, pg_sent (m p).1 = pg_sent p ++ ns /\ ns `prefix_of` plan /\
    (forall k, (1 <= k < length ns)%nat -> accepted (pg_sent p ++ take k ns)) /\
    (forall a, (m p).2 = Ok a -> ns = plan /\ forall k, (1 <= k <= length ns)%nat -> accepted (pg_sent p ++ take k ns)).

Lemma performs_nothing {A} (m : Web A) p : pg_sent (m p).1 = pg_sent p -> performs m p [].
Proof. intros E. exists []. rewrite E, app_nil_r. cbn. repeat split; [done | intros; lia | intros; lia]. Qed.
Lemma performs_bind {A B} (m : Web A) (k : A -> Web B) p plan1 plan2 :
  performs m p plan1 -> (forall a, (m p).2 = Ok a -> performs (k a) (m p).1 plan2) -> performs (bind m k) p (plan1 ++ plan2).
Proof.
  intros (ns & E & Hp & Hg & Hf) Hk. unfold bind, performs. destruct (m p) as [p1 [a|e]]; cbn in *.
  - destruct (Hf a eq_refl) as [-> Hall]. destruct (Hk a eq_refl) as (ns2 & E2 & Hp2 & Hg2 & Hf2). exists (plan1 ++ ns2).
    assert (Hacc : forall k, (1 <= k <= length plan1)%nat -> accepted (pg_sent p ++ take k (plan1 ++ ns2))).
    { intros i Hi. rewrite take_app_le by lia. apply Hall. lia. }
    assert (Hlate : forall k, (length plan1 < k)%nat -> pg_sent p ++ take k (plan1 ++ ns2) = pg_sent p1 ++ take (k - length plan1) ns2).
    { intros i Hi. rewrite take_app, (take_ge plan1) by lia. by rewrite E, (assoc_L (++)). }
    repeat split.
    + by rewrite E2, E, (assoc_L (++)).
    + by apply prefix_app.
    + intros i Hi. rewrite length_app in Hi. destruct (decide (i <= length plan1)%nat); [apply Hacc; lia|]. rewrite Hlate by lia. apply Hg2. lia.
    + by destruct (Hf2 _ H) as [-> _].
    + destruct (Hf2 _ H) as [-> Hall2]. intros i Hi. rewrite length_app in Hi. destruct (decide (i <= length plan1)%nat); [apply Hacc; lia|].
      rewrite Hlate by lia. apply Hall2. lia.
  - exists ns. repeat split; [done | by apply prefix_app_r | done | done..].
Qed.
Lemma performs_request method path body p : performs (request method path body) p
  [{| wq_method := method; wq_path := js "/v1" ++ path;
      wq_headers := session_header :: match body with Some _ => [(js "Content-Type", js "application/json")] | None => [] end;
      wq_body := match body with Some j => json_body j | None => no_body end |}].
Proof.
  set (q := {| wq_method := method |}). exists [q]. unfold request, bind, fetch. cbn -[is_2xx]. fold q.
  destruct (agent (pg_sent p ++ [q])) as [r|] eqn:Ea; cbn -[is_2xx]; [|repeat split; try done; intros; lia].
  assert (Hacc : res_ok r = true -> forall k, (1 <= k <= 1)%nat -> accepted (pg_sent p ++ take k [q])).
  { intros Hr i Hi. replace i with 1%nat by lia. by exists r. }
  destruct (wr_status r =? 204) eqn:E4.
  - repeat split; [done | intros; lia |]. apply Hacc. unfold res_ok, is_2xx. lia.
  - destruct (wr_isJson r); [destruct (wr_json r)|]; cbn -[is_2xx]; (destruct (res_ok r) eqn:Er; cbn -[is_2xx]); repeat split; try done; try (intros; lia); by apply Hacc.
Qed.
Lemma performs_rawPut path body headers p : performs (rawPut path body headers) p
  [{| wq_method := js "PUT"; wq_path := js "/v1" ++ path; wq_headers := headers ++ [session_header]; wq_body := raw_body body |}].
Proof.
  set (q := {| wq_method := _ |}). exists [q]. unfold rawPut, bind, fetch. cbn -[is_2xx]. fold q.
  destruct (agent (pg_sent p ++ [q])) as [r|] eqn:Ea; cbn -[is_2xx]; [|repeat split; try done; intros; lia].
  destruct (res_ok r) eqn:Er; cbn -[is_2xx]; repeat split; try done; try (intros; lia). intros i Hi. replace i with 1%nat by lia. by exists r.
Qed.
Lemma performs_ret {A} (a : A) p : performs (ret a) p [].
Proof. by apply performs_nothing. Qed.
Lemma performs_throw {A} e p plan : performs (throw e : Web A) p plan.
Proof. exists []. cbn. rewrite app_nil_r. repeat split; try done; [apply prefix_nil | intros; lia]. Qed.

Lemma slice_piece f start chunk : 0 <= start -> 0 <= chunk ->
  slice_bytes f start (Z.min (start + chunk) (file_size f)) = take (Z.to_nat chunk) (drop (Z.to_nat start) (wf_bytes f)).
Proof.
  intros Hs Hc. unfold slice_bytes, file_size. set (b := wf_bytes f). destruct (decide (start + chunk <= Z.of_nat (length b))).
  - rewrite Z.min_l by lia. do 2 f_equal. lia.
  - rewrite Z.min_r by lia. rewrite !take_ge; rewrite ?length_drop; [done | lia..].
Qed.
Lemma hash_loop_spec fuel chunk f start h p : 0 < chunk -> 0 <= start -> (length (wf_bytes f) - Z.to_nat start <= fuel)%nat ->
  pg_sent (hash_loop fuel chunk f start h p).1 = pg_sent p /\
  match (hash_loop fuel chunk f start h p).2 with
  | Ok (Some h') => exists pieces, h' = fold_left h_update pieces h /\ concat pieces = drop (Z.to_nat start) (wf_bytes f)
  | Ok None => False
  | Err _ => True
  end.
Proof.
  intros Hc. revert start h. induction fuel as [|n IH]; intros start h Hs Hf; cbn [hash_loop]; destruct (Z.ltb_spec start (file_size f)) as [Hlt|Hge].
  1: unfold file_size in Hlt; lia.
  1, 3: unfold file_size in Hge; cbn; split; [done|]; exists []; split; [done|]; symmetry; apply drop_ge; lia.
  unfold read_slice, bind. destruct (wf_fails f false start); cbn; [done|].
  destruct (IH (start + chunk) (h_update h (slice_bytes f start (Z.min (start + chunk) (file_size f)))) ltac:(lia) ltac:(lia)) as [H1 H2].
  split; [done|]. destruct (hash_loop n chunk f (start + chunk) _ p) as [p1 [[h'|]|e]]; cbn in *; [|done..].
  destruct H2 as (pieces & -> & E). exists (slice_bytes f start (Z.min (start + chunk) (file_size f)) :: pieces). split; [done|].
  cbn. rewrite E, slice_piece by lia. replace (Z.to_nat (start + chunk)) with (Z.to_nat start + Z.to_nat chunk)%nat by lia.
  by rewrite <- drop_drop, take_drop.
Qed.
Lemma performs_weaken {A} (m : Web A) p plan plan' : performs m p plan -> plan = plan' -> performs m p plan'.
Proof. by intros H <-. Qed.
Lemma numbers_S n count : numbers n (S count) = n :: numbers (n + 1) count.
Proof. unfold numbers. cbn. rewrite Z.add_0_r. f_equal. rewrite <- fmap_S_seq, <- list_fmap_compose. apply list_fmap_ext. intros ? i _. cbn. lia. Qed.
Lemma performs_puts count chunk f id n p : performs (put_chunks count chunk f id n) p (chunk_request chunk f id <$> numbers n count).
Proof.
  revert n p. induction count as [|k IH]; intros n p; cbn [put_chunks]; [apply performs_ret|].
  unfold read_slice. destruct (wf_fails f true (n * chunk)); [apply (performs_throw _ p)|].
  rewrite numbers_S. apply (performs_bind (rawPut _ _ _) (fun _ => put_chunks k chunk f id (n + 1)) p [_]); [apply performs_rawPut | intros _ _; apply IH].
Qed.

(** The number of pieces the agent computes from the size and chunk size of a session. *)
Definition agent_chunks (chunk size : Z) : Z := Z.max 1 ((size + chunk - 1) / chunk).
Lemma concat_pieces {A} (c : nat) (l : list A) count : concat ((fun i => take c (drop (i * c) l)) <$> seq 0 count) = take (count * c) l.
Proof.
  induction count as [|k IH]; [done|]. rewrite seq_S, fmap_app, concat_app, IH. cbn. rewrite app_nil_r.
  replace (c + k * c)%nat with (k * c + c)%nat by lia. by rewrite <- take_take_drop.
Qed.
Lemma chunks_are_file chunk f count : 0 < chunk -> agent_chunks chunk (file_size f) <= Z.of_nat count ->
  concat (chunk_at chunk f <$> numbers 0 count) = wf_bytes f.
Proof.
  intros Hc Hn. unfold numbers. rewrite <- list_fmap_compose.
  rewrite (list_fmap_ext _ (fun i => take (Z.to_nat chunk) (drop (i * Z.to_nat chunk) (wf_bytes f)))).
  2: { intros ? i _. cbn. unfold chunk_at. rewrite slice_piece by lia. do 2 f_equal. lia. }
  rewrite concat_pieces, take_ge; [done|]. unfold agent_chunks, file_size in Hn. set (size := Z.of_nat (length (wf_bytes f))) in *.
  assert (size <= Z.of_nat count * chunk); [|lia].
  pose proof (Z.div_mod (size + chunk - 1) chunk ltac:(lia)). pose proof (Z.mod_pos_bound (size + chunk - 1) chunk Hc).
  assert ((size + chunk - 1) / chunk <= Z.of_nat count) by lia. nia.
Qed.
Lemma post_answers path body p s : (post path body p).2 = Ok (Some s) -> exists r, agent (pg_sent (post path body p).1) = Some r /\ wr_json r = Some s.
Proof.
  unfold post, request, bind, fetch. cbn -[is_2xx]. destruct (agent _) as [r|] eqn:Ea; cbn -[is_2xx]; [|done].
  destruct (wr_status r =? 204); cbn -[is_2xx]; [done|]. destruct (wr_isJson r); cbn -[is_2xx].
  - destruct (wr_json r) eqn:Ej; cbn -[is_2xx]; [|done]. destruct (res_ok r); cbn; [|done]. intros [= <-]. by exists r.
  - by destruct (res_ok r).
Qed.
Lemma performs_from {A} (m m' : Web A) p p' plan : m p = m' p' -> pg_sent p = pg_sent p' -> performs m' p' plan -> performs m p plan.
Proof. intros E Es (ns & H). exists ns. by rewrite E, Es. Qed.
Definition upload_rest (chunk : Z) (f : WebFile) (session : option json) : Web unit :=
  match session with
  | None | Some JNull => throw (OtherError (js "Cannot read properties of undefined"))
  | Some s =>
      let id := text_of (member (Some s) "id") in
      put_chunks (total_chunks s) chunk f id 0;;
      post (js "/transfers/" ++ id ++ js "/complete") None;; ret tt
  end.
Lemma upload_rest_performs chunk f session p : exists s, (forall a, (upload_rest chunk f session p).2 = Ok a -> session = Some s) /\
  performs (upload_rest chunk f session) p (List.tl (upload_plan chunk [] f s)).
Proof.
  destruct session as [s|]; [|exists JNull; split; [done | apply performs_throw]].
  assert (s = JNull \/ s <> JNull) as [->|Hs] by (destruct s; auto); [exists JNull; split; [done | apply performs_throw]|]. exists s. split; [done|].
  set (id := text_of (member (Some s) "id")).
  assert (upload_rest chunk f (Some s) = (put_chunks (total_chunks s) chunk f id 0;; post (js "/transfers/" ++ id ++ js "/complete") None;; ret tt)) as -> by (by destruct s).
  cbn [upload_plan List.tl app].
  eapply performs_bind; [apply performs_puts|]. intros _ _. eapply performs_weaken; [eapply performs_bind; [apply performs_request|]; intros _ _; apply performs_ret | done].
Qed.
Lemma upload_performs chunk path f p : 0 < chunk -> exists s, performs (uploadFileImpl chunk path f) p (upload_plan chunk path f s) /\
  ((uploadFileImpl chunk path f p).2 = Ok tt -> exists r, agent (pg_sent p ++ [open_request chunk path f]) = Some r /\ wr_json r = Some s).
Proof.
  intros Hc. destruct (hash_loop_spec (length (wf_bytes f)) chunk f 0 h_create p Hc ltac:(lia) ltac:(lia)) as [E1 H1].
  destruct (hash_loop _ _ _ _ _ p) as [p1 [[h|]|e]] eqn:Eh; cbn -[upload_plan bind] in E1, H1; [|done|].
  2: { assert (uploadFileImpl chunk path f p = (p1, Err e)) as Eu by (unfold uploadFileImpl, bind; by rewrite Eh).
       exists JNull. rewrite Eu. split; [|done]. apply (performs_from _ (throw e) _ p1); [by rewrite Eu | done | apply performs_throw]. }
  destruct H1 as (pieces & -> & Ep). rewrite drop_0 in Ep.
  set (first := post (js "/transfers") (Some (open_body path f (sha256Hex (wf_bytes f)) chunk))).
  assert (uploadFileImpl chunk path f p = bind first (upload_rest chunk f) p1) as Eu.
  { unfold uploadFileImpl. unfold bind at 1. rewrite Eh, h_digest_chunks, Ep. done. }
  pose proof (performs_request (js "POST") (js "/transfers") (Some (open_body path f (sha256Hex (wf_bytes f)) chunk)) p1) as Hfirst.
  fold (post (js "/transfers")) first in Hfirst. change (performs first p1 [open_request chunk path f]) in Hfirst.
  destruct (first p1).2 as [session|e] eqn:Es.
  - destruct (upload_rest_performs chunk f session (first p1).1) as (s & Hs & Hr). exists s. split.
    + apply (performs_from _ (bind first (upload_rest chunk f)) _ p1); [done | done |].
      apply (performs_bind _ _ _ [_]); [exact Hfirst|]. intros a Ha. rewrite Es in Ha. by injection Ha as <-.
    + rewrite Eu. unfold bind. rewrite (surjective_pairing (first p1)), Es. intros Hok. apply Hs in Hok. subst session.
      destruct (post_answers (js "/transfers") (Some (open_body path f (sha256Hex (wf_bytes f)) chunk)) p1 s Es) as (r & Hr1 & Hr2). exists r. split; [|done]. rewrite <- E1.
      destruct Hfirst as (ns & Hns & _ & _ & Hf). destruct (Hf _ Es) as [-> _]. by rewrite <- Hns.
  - exists JNull. split.
    + apply (performs_from _ (bind first (upload_rest chunk f)) _ p1); [done | done |].
      apply (performs_bind _ _ _ [_]); [exact Hfirst|]. intros a Ha. by rewrite Es in Ha.
    + rewrite Eu. unfold bind. by rewrite (surjective_pairing (first p1)), Es.
Qed.

(** *** When an upload succeeds *)

(** Two lower-case hexadecimal digits per byte. *)
Definition hex_char (d : Z) : Z := if d <? 10 then 48 + d else 87 + d.
Definition hex_pairs (bytes : list Z) : jstr := concat ((fun b => [hex_char (b / 16); hex_char (b mod 16)]) <$> bytes).
Lemma hex_text_pairs bytes : Forall (fun b => 0 <= b < 256) bytes -> hex_text bytes = hex_pairs bytes.
Proof.
  unfold hex_text, hex_pairs. induction 1 as [|b l Hb _ IH]; [done|]. rewrite bind_cons, fmap_cons, IH. cbn [concat]. f_equal.
  assert (forallb (fun n => bool_decide (pad_start 2 48 (nat_to_string 16 (Z.of_nat n)) = [hex_char (Z.of_nat n / 16); hex_char (Z.of_nat n mod 16)])) (seq 0 256) = true) as H
    by (vm_compute; reflexivity).
  rewrite forallb_forall_true, Forall_forall in H. specialize (H (Z.to_nat b)). rewrite Z2Nat.id in H by lia. apply bool_decide_eq_true in H; [done|].
  apply elem_of_seq. lia.
Qed.
(** The agent took the last request of [sent], and what it says of it can be read. *)
Definition taken (sent : list WebRequest) : Prop :=
  exists r, agent sent = Some r /\ 200 <= wr_status r < 300 /\ (wr_status r = 204 \/ wr_isJson r = false \/ wr_json r <> None).
Lemma res_ok_spec r : res_ok r = true <-> 200 <= wr_status r < 300.
Proof. unfold res_ok, is_2xx. lia. Qed.
Lemma accepted_spec sent : accepted sent <-> exists r, agent sent = Some r /\ 200 <= wr_status r < 300.
Proof. unfold accepted. by setoid_rewrite res_ok_spec. Qed.
Lemma request_taken method path body p q :
  q = {| wq_method := method; wq_path := js "/v1" ++ path;
         wq_headers := session_header :: match body with Some _ => [(js "Content-Type", js "application/json")] | None => [] end;
         wq_body := match body with Some j => json_body j | None => no_body end |} ->
  (exists d, (request method path body p).2 = Ok d) <-> taken (pg_sent p ++ [q]).
Proof.
  intros ->. unfold request, bind, fetch, taken. cbn -[is_2xx]. destruct (agent _) as [r|]; cbn -[is_2xx]; [|split; [by intros [? ?] | by intros (? & ? & _)]].
  setoid_rewrite <- res_ok_spec. destruct (Z.eqb_spec (wr_status r) 204) as [E|E].
  - split; [|by intros _; eexists]. intros _. exists r. split; [done|]. rewrite res_ok_spec, E. split; [lia | by left].
  - destruct (wr_isJson r) eqn:Ej; [destruct (wr_json r) eqn:Ew|]; cbn -[is_2xx].
    + destruct (res_ok r) eqn:Er; split; try (by intros [? ?]); [intros _; exists r; rewrite Ew; naive_solver | by eexists | intros (? & [= <-] & ? & _); congruence].
    + split; [by intros [? ?]|]. intros (? & [= <-] & _ & [?|[?|?]]); congruence.
    + destruct (res_ok r) eqn:Er; split; try (by intros [? ?]); [intros _; exists r; naive_solver | by eexists | intros (? & [= <-] & ? & _); congruence].
Qed.
Lemma put_chunks_taken count chunk f id n p : (put_chunks count chunk f id n p).2 = Ok tt <->
  (forall i, (i < count)%nat -> wf_fails f true ((n + Z.of_nat i) * chunk) = false) /\
  (forall k, (1 <= k <= count)%nat -> accepted (pg_sent p ++ take k (chunk_request chunk f id <$> numbers n count))).
Proof.
  revert n p. induction count as [|m IH]; intros n p; cbn [put_chunks]; [split; [intros _; split; intros; lia | done]|].
  unfold read_slice, bind at 1. destruct (wf_fails f true (n * chunk)) eqn:Ef; cbn -[chunk_request numbers take put_chunks rawPut bind].
  - split; [done|]. intros [H _]. specialize (H 0%nat ltac:(lia)). rewrite Z.add_0_r in H. congruence.
  - rewrite numbers_S, fmap_cons. set (q := chunk_request chunk f id n).
    assert (forall s, ((rawPut (chunk_path id n) (slice_bytes f (n * chunk) (Z.min (n * chunk + chunk) (file_size f)))
              [(js "X-Chunk-Sha256", sha256Hex (slice_bytes f (n * chunk) (Z.min (n * chunk + chunk) (file_size f))))]) p).2 = Ok s <-> accepted (pg_sent p ++ [q])) as Hraw.
    { intros []. unfold rawPut, bind, fetch, accepted. cbn -[is_2xx]. fold (chunk_at chunk f n). fold (chunk_request chunk f id n). fold q.
      destruct (agent _) as [r|]; cbn -[is_2xx]; [|split; [done | by intros (? & ? & _)]].
      destruct (res_ok r) eqn:Er; split; try done; [intros _; by exists r | intros (? & [= <-] & ?); congruence]. }
    pose proof (performs_rawPut (chunk_path id n) (slice_bytes f (n * chunk) (Z.min (n * chunk + chunk) (file_size f)))
      [(js "X-Chunk-Sha256", sha256Hex (slice_bytes f (n * chunk) (Z.min (n * chunk + chunk) (file_size f))))] p) as (ns & Hns & _ & _ & Hok).
    unfold bind. destruct (rawPut _ _ _ p) as [p1 [[]|e]]; cbn [fst snd] in *.
    + destruct (Hok tt eq_refl) as [-> _]. fold (chunk_at chunk f n) in Hns. change (pg_sent p1 = pg_sent p ++ [q]) in Hns. rewrite IH, Hns.
      assert (accepted (pg_sent p ++ [q])) as Hq by by apply (Hraw tt). split; intros [H1 H2]; split.
      * intros [|i] Hi; [by rewrite Z.add_0_r|]. replace (n + Z.of_nat (S i)) with (n + 1 + Z.of_nat i) by lia. apply H1. lia.
      * intros [|[|k]] Hk; [lia | done|]. cbn [take]. specialize (H2 (S k) ltac:(lia)). by rewrite <- (assoc_L (++)) in H2.
      * intros i Hi. specialize (H1 (S i) ltac:(lia)). by replace (n + Z.of_nat (S i)) with (n + 1 + Z.of_nat i) in H1 by lia.
      * intros k Hk. specialize (H2 (S k) ltac:(lia)). cbn [take] in H2. by rewrite <- (assoc_L (++)).
    + split; [done|]. intros [_ H2]. specialize (H2 1%nat ltac:(lia)). cbn [take] in H2. by apply (Hraw tt) in H2.
Qed.
Lemma hash_loop_reads fuel chunk f start h p : 0 < chunk -> 0 <= start -> (length (wf_bytes f) - Z.to_nat start <= fuel)%nat ->
  (is_ok (hash_loop fuel chunk f start h p).2 = true) <->
  (forall i, start + Z.of_nat i * chunk < file_size f -> wf_fails f false (start + Z.of_nat i * chunk) = false).
Proof.
  intros Hc. revert start h. induction fuel as [|n IH]; intros start h Hs Hf; cbn [hash_loop]; destruct (Z.ltb_spec start (file_size f)) as [Hlt|Hge].
  1: unfold file_size in Hlt; lia.
  1, 3: split; [intros _ i Hi; lia | done].
  unfold read_slice, bind. destruct (wf_fails f false start) eqn:E; cbn.
  - split; [done|]. intros H. specialize (H 0%nat). rewrite Z.add_0_r in H. rewrite H in E by lia. done.
  - rewrite IH by lia. split; intros H.
    + intros [|i] Hi; [by rewrite Z.add_0_r|]. replace (start + Z.of_nat (S i) * chunk) with (start + chunk + Z.of_nat i * chunk) in * by lia. by apply H.
    + intros i Hi. specialize (H (S i)). replace (start + Z.of_nat (S i) * chunk) with (start + chunk + Z.of_nat i * chunk) in H by lia. by apply H.
Qed.
(** Opening answered with a session: it has an id and a number of pieces. *)
Definition gives_session (r : option WebReply) (id : jstr) (count : nat) : Prop :=
  exists a fs, r = Some a /\ 200 <= wr_status a < 300 /\ wr_status a <> 204 /\ wr_isJson a = true /\ wr_json a = Some (JObj fs) /\
    field (js "id") fs = Some (JStr id) /\ field (js "totalChunks") fs = Some (JNum (Z.of_nat count)).
(** The requests of an upload, piece by piece of 4 MiB. *)
Definition spec_open (path : jstr) (f : WebFile) : WebRequest := {|
  wq_method := js "POST"; wq_path := js "/v1/transfers";
  wq_headers := [(js "X-RFE-Web-Session", js "1"); (js "Content-Type", js "application/json")];
  wq_body := json_body (JObj [(js "path", JStr path); (js "size", JNum (Z.of_nat (length (wf_bytes f))));
                              (js "sha256", JStr (hex_pairs (sha256 (wf_bytes f)))); (js "chunkSize", JNum 4194304)]) |}.
Definition spec_piece (f : WebFile) (n : nat) : list Z := take (Z.to_nat 4194304) (drop (Z.to_nat (Z.of_nat n * 4194304)) (wf_bytes f)).
Definition spec_put (f : WebFile) (id : jstr) (n : nat) : WebRequest := {|
  wq_method := js "PUT"; wq_path := js "/v1/transfers/" ++ id ++ js "/chunks/" ++ string_of_Z (Z.of_nat n);
  wq_headers := [(js "X-Chunk-Sha256", hex_pairs (sha256 (spec_piece f n))); (js "X-RFE-Web-Session", js "1")];
  wq_body := raw_body (spec_piece f n) |}.
Definition spec_complete (id : jstr) : WebRequest := {|
  wq_method := js "POST"; wq_path := js "/v1/transfers/" ++ id ++ js "/complete"; wq_headers := [(js "X-RFE-Web-Session", js "1")]; wq_body := no_body |}.
Definition spec_upload (path : jstr) (f : WebFile) (id : jstr) (count : nat) : list WebRequest :=
  [spec_open path f] ++ (spec_put f id <$> seq 0 count) ++ [spec_complete id].

Lemma spec_open_eq path f : open_request UPLOAD_CHUNK_SIZE path f = spec_open path f.
Proof. unfold open_request, open_body, spec_open, sha256Hex. by rewrite hex_text_pairs by apply sha256_bytes. Qed.
Lemma spec_piece_eq f n : chunk_at UPLOAD_CHUNK_SIZE f (Z.of_nat n) = spec_piece f n.
Proof.
  unfold chunk_at, spec_piece. change UPLOAD_CHUNK_SIZE with 4194304. rewrite slice_piece by lia. reflexivity.
Qed.
Lemma spec_puts_eq f id count : chunk_request UPLOAD_CHUNK_SIZE f id <$> numbers 0 count = spec_put f id <$> seq 0 count.
Proof.
  unfold numbers. rewrite <- list_fmap_compose. apply list_fmap_ext. intros _ n _. unfold compose. rewrite Z.add_0_l.
  unfold chunk_request, spec_put, sha256Hex, chunk_path. rewrite spec_piece_eq, hex_text_pairs by apply sha256_bytes. reflexivity.
Qed.
(** The session an answer gives is what the upload goes on with. *)
Lemma session_answer path f p r p1 id count : gives_session (agent (pg_sent p ++ [spec_open path f])) id count ->
  post (js "/transfers") (Some (open_body path f (sha256Hex (wf_bytes f)) UPLOAD_CHUNK_SIZE)) p = (p1, r) ->
  exists fs, r = Ok (Some (JObj fs)) /\ text_of (member (Some (JObj fs)) "id") = id /\ total_chunks (JObj fs) = count /\ pg_sent p1 = pg_sent p ++ [spec_open path f].
Proof.
  rewrite <- spec_open_eq. intros (a & fs & Ea & H1 & H2 & H3 & H4 & H5 & H6). unfold post, request, bind, fetch. cbn -[is_2xx open_body UPLOAD_CHUNK_SIZE].
  change {| wq_method := js "POST" |} with (open_request UPLOAD_CHUNK_SIZE path f). rewrite Ea. apply Z.eqb_neq in H2. rewrite H2, H3, H4. cbn -[is_2xx].
  apply res_ok_spec in H1. rewrite H1. intros [= <- <-]. exists fs. split; [done|]. unfold total_chunks, member. rewrite H5, H6. cbn. split; [done|]. split; [lia | done].
Qed.
(** The pieces and the completion, after the opening. *)
Definition send_pieces (f : WebFile) (id : jstr) (count : nat) : Web unit :=
  put_chunks count UPLOAD_CHUNK_SIZE f id 0;; post (js "/transfers/" ++ id ++ js "/complete") None;; ret tt.
Lemma send_pieces_performs f id count p : performs (send_pieces f id count) p ((spec_put f id <$> seq 0 count) ++ [spec_complete id]).
Proof.
  unfold send_pieces. rewrite <- spec_puts_eq. eapply performs_bind; [apply performs_puts|]. intros _ _.
  eapply performs_weaken; [eapply performs_bind; [apply performs_request|]; intros _ _; apply performs_ret | done].
Qed.
Lemma send_pieces_taken f id count p : (send_pieces f id count p).2 = Ok tt <->
  (forall i, (i < count)%nat -> wf_fails f true (Z.of_nat i * 4194304) = false) /\
  (forall k, (1 <= k <= count)%nat -> accepted (pg_sent p ++ take k (spec_put f id <$> seq 0 count))) /\
  taken (pg_sent p ++ (spec_put f id <$> seq 0 count) ++ [spec_complete id]).
Proof.
  pose proof (put_chunks_taken count UPLOAD_CHUNK_SIZE f id 0 p) as Hput. rewrite spec_puts_eq in Hput.
  assert (Hrd : (forall i, (i < count)%nat -> wf_fails f true ((0 + Z.of_nat i) * UPLOAD_CHUNK_SIZE) = false) <->
    (forall i, (i < count)%nat -> wf_fails f true (Z.of_nat i * 4194304) = false)) by (change UPLOAD_CHUNK_SIZE with 4194304; by setoid_rewrite Z.add_0_l).
  rewrite Hrd in Hput. clear Hrd. pose proof (performs_puts count UPLOAD_CHUNK_SIZE f id 0 p) as (ns & Hns & _ & _ & Hok). rewrite spec_puts_eq in Hok.
  unfold send_pieces, bind at 1. destruct (put_chunks count UPLOAD_CHUNK_SIZE f id 0 p) as [p1 [[]|e]]; cbn [fst snd] in *.
  - destruct (Hok tt eq_refl) as [-> _]. destruct (proj1 Hput eq_refl) as [R A].
    pose proof (request_taken (js "POST") (js "/transfers/" ++ id ++ js "/complete") None p1 (spec_complete id) eq_refl) as Hq.
    rewrite Hns, <- (assoc_L (++)) in Hq. rewrite <- Hq. fold (post (js "/transfers/" ++ id ++ js "/complete") None).
    unfold bind. destruct (post _ None p1) as [p2 [d|e]]; cbn; split; try done; [intros _; split; [done|]; split; [done|]; by exists d | intros (_ & _ & d & ?); done].
  - split; [done|]. intros (R & A & _). by destruct (proj2 Hput (conj R A)).
Qed.
Lemma post_sends path body p : exists q, pg_sent (post path body p).1 = pg_sent p ++ [q].
Proof.
  unfold post, request, bind, fetch. cbn. eexists. destruct (agent _) as [r|]; [|done]. cbn. destruct (wr_status r =? 204); [done|].
  destruct (wr_isJson r); [destruct (wr_json r)|]; cbn; try done; by destruct (res_ok r).
Qed.
Lemma spec_pieces_file f count : Z.of_nat (length (wf_bytes f)) <= Z.of_nat count * 4194304 -> concat (spec_piece f <$> seq 0 count) = wf_bytes f.
Proof.
  intros H. rewrite (list_fmap_ext _ (fun i => take (Z.to_nat 4194304) (drop (i * Z.to_nat 4194304) (wf_bytes f)))).
  - rewrite concat_pieces. apply take_ge. lia.
  - intros _ i _. unfold spec_piece. do 2 f_equal. lia.
Qed.
(** C16 An upload reads the file through, then opens a session for the path with the size and the
    SHA-256 of the whole file and a piece size of 4 MiB: an unreadable file sends nothing and an
    opening the agent does not take sends nothing more.  Given a session (its [id] and its number of
    pieces [count]; sessions of another shape are not described) it sends the pieces of the session in
    order, each with its own SHA-256 and each once everything before it was taken, and completes the
    session last.  It succeeds exactly when every piece could be read again, the agent took every
    request and its answer to the completion could be read; when the session counts enough pieces for
    the size, the pieces sent are the file. *)
Theorem web_upload_exact path f p :
  let '(p', r) := uploadFile path f p in
  let readable := forall i, Z.of_nat i * 4194304 < Z.of_nat (length (wf_bytes f)) -> wf_fails f false (Z.of_nat i * 4194304) = false in
  let took sent := exists a, agent sent = Some a /\ 200 <= wr_status a < 300 in
  (~ readable -> pg_sent p' = pg_sent p /\ is_ok r = false) /\
  (readable -> ~ took (pg_sent p ++ [spec_open path f]) -> pg_sent p' = pg_sent p ++ [spec_open path f] /\ is_ok r = false) /\
  (forall id count, readable -> gives_session (agent (pg_sent p ++ [spec_open path f])) id count ->
     let plan := spec_upload path f id count in
     (exists ns, pg_sent p' = pg_sent p ++ ns /\ ns `prefix_of` plan /\ (forall k, (1 <= k < length ns)%nat -> took (pg_sent p ++ take k plan))) /\
     (r = Ok tt <->
        (forall i, (i < count)%nat -> wf_fails f true (Z.of_nat i * 4194304) = false) /\
        (forall k, (1 <= k <= length plan)%nat -> took (pg_sent p ++ take k plan)) /\ taken (pg_sent p ++ plan)) /\
     (r = Ok tt -> pg_sent p' = pg_sent p ++ plan) /\
     (Z.of_nat (length (wf_bytes f)) <= Z.of_nat count * 4194304 -> concat (spec_piece f <$> seq 0 count) = wf_bytes f)).
Proof.
  pose proof (hash_loop_spec (length (wf_bytes f)) UPLOAD_CHUNK_SIZE f 0 h_create p ltac:(done) ltac:(lia) ltac:(lia)) as [E1 H1].
  pose proof (hash_loop_reads (length (wf_bytes f)) UPLOAD_CHUNK_SIZE f 0 h_create p ltac:(done) ltac:(lia) ltac:(lia)) as Hread.
  destruct (uploadFile path f p) as [p' r] eqn:Eu. intros readable took.
  assert (Hr : is_ok (hash_loop (length (wf_bytes f)) UPLOAD_CHUNK_SIZE f 0 h_create p).2 = true <-> readable) by exact Hread. clear Hread.
  unfold uploadFile, uploadFileImpl in Eu. unfold bind at 1 in Eu.
  destruct (hash_loop _ _ _ _ _ p) as [p1 [[h|]|e]]; cbn [fst snd is_ok] in *; [|done|].
  2: { injection Eu as <- <-. split; [done|]. split; [intros Hx; by apply Hr in Hx | intros id count Hx; by apply Hr in Hx]. }
  destruct H1 as (pieces & -> & Ep). rewrite drop_0 in Ep. rewrite h_digest_chunks, Ep in Eu. fold (sha256Hex (wf_bytes f)) in Eu.
  assert (readable) as Hyes by by apply Hr. split; [done|]. rewrite <- E1.
  pose proof (performs_request (js "POST") (js "/transfers") (Some (open_body path f (sha256Hex (wf_bytes f)) UPLOAD_CHUNK_SIZE)) p1) as Hfirst.
  fold (post (js "/transfers") (Some (open_body path f (sha256Hex (wf_bytes f)) UPLOAD_CHUNK_SIZE))) in Hfirst.
  change {| wq_method := js "POST" |} with (open_request UPLOAD_CHUNK_SIZE path f) in Hfirst. rewrite spec_open_eq in Hfirst.
  unfold bind at 1 in Eu. destruct (post _ _ p1) as [p2 q] eqn:Eq. split.
  - intros _ Hno. destruct Hfirst as (ns & Hns & Hp & _ & Hok). rewrite Eq in Hns, Hok. cbn [fst snd] in *. destruct q as [d|e].
    + destruct (Hok d eq_refl) as [-> Hacc]. destruct Hno. apply accepted_spec, (Hacc 1%nat). cbn. lia.
    + injection Eu as <- <-. split; [|done]. destruct (post_sends (js "/transfers") (Some (open_body path f (sha256Hex (wf_bytes f)) UPLOAD_CHUNK_SIZE)) p1) as (x & Hx).
      rewrite Eq in Hx. cbn in Hx. rewrite Hx in Hns |- *. apply app_inv_head in Hns. subst ns. destruct Hp as [rest Hp]. by injection Hp as -> _.
  - intros id count _ Hses. set (plan := spec_upload path f id count). destruct (session_answer path f p1 q p2 id count Hses Eq) as (fs & -> & Hid & Hcount & Hsent).
    rewrite Hid, Hcount in Eu. change (send_pieces f id count p2 = (p', r)) in Eu. cbn [fst snd] in Hfirst.
    destruct Hses as (a & _ & Ea & Hst & _). assert (took (pg_sent p1 ++ [spec_open path f])) as Ho by by exists a.
    pose proof (send_pieces_performs f id count p2) as (ns & Hns & Hp & Hg & Hok). pose proof (send_pieces_taken f id count p2) as Hiff.
    rewrite Eu in Hns, Hok, Hiff. cbn [fst snd] in Hns, Hok, Hiff. rewrite Hsent in Hns, Hg, Hok, Hiff.
    setoid_rewrite accepted_spec in Hg. setoid_rewrite accepted_spec in Hok. setoid_rewrite accepted_spec in Hiff.
    rewrite <- !(assoc_L (++)) in Hns. split_and!.
    + exists (spec_open path f :: ns). split; [done|]. split; [by apply prefix_cons|]. intros [|[|k]] Hk; [lia | done|]. cbn in Hk.
      specialize (Hg (S k) ltac:(lia)). rewrite <- (assoc_L (++)) in Hg. destruct Hp as [rest Hp]. unfold plan, spec_upload. rewrite Hp. cbn [app] in *.
      rewrite firstn_cons. rewrite take_app_le by lia. done.
    + rewrite Hiff. split.
      * intros (R & A & T). split; [done|]. rewrite <- (assoc_L (++)) in T. split; [|done]. intros [|[|k]] Hk; [lia | done|].
        unfold plan, spec_upload in *. cbn [app] in *. rewrite firstn_cons. destruct (decide (S k <= count)%nat) as [Hle|Hgt].
        -- specialize (A (S k) ltac:(lia)). rewrite <- (assoc_L (++)) in A. rewrite take_app_le by (rewrite length_fmap, length_seq; lia). done.
        -- rewrite take_ge; [|cbn in Hk; rewrite length_app, length_fmap, length_seq in *; cbn in *; lia].
           destruct T as (x & Hx & Hx2 & _). by exists x.
      * intros (R & A & T). split; [done|]. rewrite <- (assoc_L (++)). split; [|done]. intros k Hk.
        specialize (A (S k)). unfold plan, spec_upload in A. cbn [app] in A. rewrite firstn_cons in A.
        rewrite take_app_le in A by (rewrite length_fmap, length_seq; lia). rewrite <- (assoc_L (++)). apply A. cbn. rewrite length_app, length_fmap, length_seq. cbn. lia.
    + intros Hr'. destruct (Hok tt Hr') as [-> _]. done.
    + apply spec_pieces_file.
Qed.

(** ** The trash *)

(** The request that deletes everything in the trash. *)
Definition empties_trash (q : WebRequest) : Prop := wq_method q = js "DELETE" /\ wq_path q = js "/v1/trash" /\ wq_body q = no_body.
Definition spares {A} (m : Web A) : Prop := forall p, exists ns, pg_sent (m p).1 = pg_sent p ++ ns /\ Forall (fun q => ~ empties_trash q) ns.
Lemma spares_bind {A B} (m : Web A) (k : A -> Web B) : spares m -> (forall a, spares (k a)) -> spares (bind m k).
Proof.
  intros Hm Hk p. unfold bind. destruct (Hm p) as (ns & E & H). destruct (m p) as [p1 [a|e]]; cbn in *; [|by exists ns].
  destruct (Hk a p1) as (ns2 & E2 & H2). exists (ns ++ ns2). split; [by rewrite E2, E, (assoc_L (++)) | by apply Forall_app].
Qed.
Lemma spares_silent {A} (m : Web A) : (forall p, pg_sent (m p).1 = pg_sent p) -> spares m.
Proof. intros H p. exists []. rewrite app_nil_r. by split. Qed.
Lemma spares_performs {A} (m : Web A) q : (forall p, performs m p [q]) -> ~ empties_trash q -> spares m.
Proof.
  intros H Hq p. destruct (H p) as (ns & E & Hp & _). exists ns. split; [done|].
  destruct Hp as (rest & Hp). destruct ns as [|x ns]; [constructor|]. injection Hp as <- Hnil. symmetry in Hnil. apply app_nil in Hnil as [-> ->]. by repeat constructor.
Qed.
Ltac spare := eapply spares_performs; [intros; apply performs_request | intros (Hm & Hp & Hb); first [discriminate Hm | discriminate Hp | discriminate Hb]].
Lemma spares_device : spares device_key.
Proof. by apply spares_silent. Qed.
Lemma spares_tab {A} (m : Idm A) : spares (on_tab m).
Proof. apply spares_silent. intros p. unfold on_tab. by destruct (m _). Qed.
Lemma spares_proof : spares proofFields.
Proof.
  unfold proofFields. apply spares_bind; [spare|]. intros ch. apply spares_bind; [apply spares_device|]. intros i.
  apply spares_bind; [apply spares_tab|]. intros k. destruct ch as [[]|]; try (by apply spares_silent);
  (destruct (proof_message _); [|by apply spares_silent]; apply spares_bind; [apply spares_device|]; intros j; apply spares_bind; [apply spares_tab|]; intros sg; by apply spares_silent).
Qed.
Lemma spares_upload path f : spares (uploadFile path f).
Proof.
  intros p. destruct (upload_performs UPLOAD_CHUNK_SIZE path f p ltac:(done)) as (s & (ns & H1 & [rest H2] & _) & _). exists ns. split; [done|].
  assert (H : Forall (fun q => ~ empties_trash q) (upload_plan UPLOAD_CHUNK_SIZE path f s)); [|by rewrite H2, Forall_app in H; apply H].
  unfold upload_plan. constructor; [intros (Hm & _); discriminate Hm|]. apply Forall_app. split; [|repeat constructor; intros (Hm & _); discriminate Hm].
  apply Forall_fmap, Forall_true. intros n (Hm & _). discriminate Hm.
Qed.

(** No call of the client but [emptyTrash] asks the agent to empty the trash: deleting items
    for good always names them, even when there is none to name. *)
Theorem trash_emptied_only_by_name c : c <> w_emptyTrash -> spares (api c).
Proof.
  intros Hc. destruct c; cbn [api]; try (spare; fail); try done.
  - apply spares_bind; [apply spares_proof | intros; spare].
  - apply spares_bind; [apply spares_proof | intros; spare].
  - apply spares_bind; [apply spares_proof | intros; spare].
  - unfold encoded. destruct (encodeURIComponent username); apply spares_bind; try (by apply spares_silent); intros; spare.
  - apply spares_bind; [|intros; by apply spares_silent].
    eapply spares_performs; [intros; apply performs_rawPut | intros (Hm & _); discriminate Hm].
  - apply spares_bind; [apply spares_upload | intros; by apply spares_silent].
Qed.

(** ** The proof of the device's key *)

Lemma kept_run c es : kept c -> kept (run_ids br c es).
Proof. revert c. induction es as [|e es IH]; intros c H; [done|]. cbn. by apply IH, kept_step. Qed.
(** [m] keeps the identity of the tab, and answers [Q] of it. *)
Definition keeps {A} (m : Web A) (Q : Tab -> A -> Prop) : Prop :=
  forall p p' a, kept (pg_id p) -> m p = (p', Ok a) -> kept (pg_id p') /\ Q (co_tab (pg_id p')) a /\
    (forall i, tb_db (co_tab (pg_id p)) = Some i -> tb_db (co_tab (pg_id p')) = Some i).
Lemma run_keeps_db es c i : tb_db (co_tab c) = Some i -> tb_db (co_tab (run_ids br c es)) = Some i.
Proof.
  revert c. induction es as [|e es IH]; intros c H; [done|]. cbn. apply IH. destruct e; cbn; [by unfold getDeviceKeyPair; destruct (co_cached c) | | done].
  unfold settle_load. destruct (co_waiting c); [|done]. pose proof (loadIdentity_spec br (co_tab c)) as Hl.
  destruct (loadIdentity br (co_tab c)) as [t [j|e]]; cbn; [|congruence]. destruct Hl as (-> & _ & Hu). by rewrite (Hu i H).
Qed.
Lemma device_key_keeps : keeps device_key (fun t i => tb_db t = Some i /\ sound_identity i).
Proof.
  intros p p' i Hk. unfold device_key. pose proof (kept_run (pg_id p) [Ask; Settled] Hk) as Hk'.
  destruct (last (co_answers (run_ids br (pg_id p) [Ask; Settled]))) as [[j|]|] eqn:El; [|done..]. intros [= <- <-].
  apply last_Some in El as (l & El). split; [exact Hk'|]. destruct Hk' as [_ H2]. rewrite El, Forall_app, Forall_singleton in H2. split; [apply H2|]. intros k. apply (run_keeps_db [Ask; Settled]).
Qed.
Lemma on_tab_keeps {A} (m : Idm A) Q : quiet m Q -> keeps (on_tab m) (fun _ => Q).
Proof.
  intros Hm p p' a [H1 H2] E. unfold on_tab in E. destruct (Hm (co_tab (pg_id p))) as [Hd HQ]. destruct (m (co_tab (pg_id p))) as [t r]; cbn in *.
  destruct r as [b|e]; [|done]. injection E as <- <-. cbn. rewrite Hd. split; [split; cbn; by rewrite Hd|]. split; [by apply HQ | done].
Qed.
Lemma request_tab method path body p : pg_id (request method path body p).1 = pg_id p.
Proof.
  unfold request, bind, fetch. cbn. destruct (agent _) as [r|]; cbn; [|done]. destruct (wr_status r =? 204); cbn; [done|].
  destruct (wr_isJson r); cbn; [destruct (wr_json r); cbn; [|done]|]; by destruct (res_ok r).
Qed.
Lemma wbind_ok {S E A B} (m : M S E A) (k : A -> M S E B) s s' b : bind m k s = (s', Ok b) -> exists s1 a, m s = (s1, Ok a) /\ k a s1 = (s', Ok b).
Proof. unfold bind. destruct (m s) as [s1 [a|e]]; [by exists s1, a | done]. Qed.
Lemma quiet_public_key i : quiet (public_key_text br i) (fun k => k = to_base64 (key_bytes (sid_public i))).
Proof. unfold public_key_text. eapply quiet_bind; [apply quiet_operation|]. intros. by apply quiet_ret. Qed.
Lemma quiet_sign i message : quiet (signNonce br i message) (fun k => k = to_base64 (subtle_sign (key_bytes (sid_private i)) (encode_text message))).
Proof.
  unfold signNonce, sign_with. eapply (quiet_bind _ _ (fun s => s = subtle_sign (key_bytes (sid_private i)) (encode_text message))).
  - eapply quiet_bind; [apply quiet_operation|]. intros. by apply quiet_ret.
  - intros s ->. by apply quiet_ret.
Qed.
(** The three fields for identity [i] and the agent's challenge. *)
Definition proof_for (i : StoredIdentity) (challenge : json) (message : jstr) : list (jstr * json) :=
  [(js "devicePublicKey", JStr (to_base64 (key_bytes (sid_public i))))] ++ opt_json "nonce" (member (Some challenge) "nonce")
  ++ [(js "signature", JStr (to_base64 (subtle_sign (key_bytes (sid_private i)) (encode_text message))))].
Definition challenge_request : WebRequest := {| wq_method := js "POST"; wq_path := js "/v1/auth/challenge"; wq_headers := [session_header]; wq_body := no_body |}.
Lemma post_ok path body p p' d : post path body p = (p', Ok d) ->
  pg_id p' = pg_id p /\ performs (post path body) p [{| wq_method := js "POST"; wq_path := js "/v1" ++ path;
      wq_headers := session_header :: match body with Some _ => [(js "Content-Type", js "application/json")] | None => [] end;
      wq_body := match body with Some j => json_body j | None => no_body end |}] /\
  pg_sent p' = pg_sent p ++ [{| wq_method := js "POST"; wq_path := js "/v1" ++ path;
      wq_headers := session_header :: match body with Some _ => [(js "Content-Type", js "application/json")] | None => [] end;
      wq_body := match body with Some j => json_body j | None => no_body end |}].
Proof.
  intros E. pose proof (performs_request (js "POST") path body p) as H. pose proof (request_tab (js "POST") path body p) as Ht.
  fold (post path body) in H, Ht. split; [by rewrite E in Ht|]. split; [exact H|]. destruct H as (ns & Hs & _ & _ & Hf). rewrite E in Hs, Hf. cbn in *.
  destruct (Hf d eq_refl) as [-> _]. exact Hs.
Qed.
Lemma proofFields_ok p p' fields : kept (pg_id p) -> proofFields p = (p', Ok fields) ->
  exists i challenge message r, pg_sent p' = pg_sent p ++ [challenge_request] /\ agent (pg_sent p ++ [challenge_request]) = Some r /\ wr_json r = Some challenge /\
    proof_message challenge = Some message /\ fields = proof_for i challenge message /\ tb_db (co_tab (pg_id p')) = Some i /\ sound_identity i.
Proof.
  intros Hk E. unfold proofFields in E. apply wbind_ok in E as (p1 & ch & E1 & E). destruct (post_ok _ _ _ _ _ E1) as (Hid & _ & Hs).
  apply wbind_ok in E as (p2 & i & E2 & E). apply wbind_ok in E as (p3 & k & E3 & E).
  destruct (device_key_keeps p1 p2 i ltac:(by rewrite Hid) E2) as (Hk2 & [Hi2 Hsi] & _).
  destruct (on_tab_keeps _ _ (quiet_public_key i) p2 p3 k Hk2 E3) as (Hk3 & -> & Hm3).
  destruct ch as [ch|]; [|done]. destruct (proof_message ch) as [message|] eqn:Em; [|by destruct ch].
  assert (E' : (j <- device_key;; signature <- on_tab (signNonce br j message);;
                ret ([(js "devicePublicKey", JStr (to_base64 (key_bytes (sid_public i))))] ++ opt_json "nonce" (member (Some ch) "nonce") ++ [(js "signature", JStr signature)])) p3 = (p', Ok fields))
    by (destruct ch; done). clear E.
  apply wbind_ok in E' as (p4 & j & E4 & E). apply wbind_ok in E as (p5 & sg & E5 & [= <- <-]).
  destruct (device_key_keeps p3 p4 j Hk3 E4) as (Hk4 & [Hj Hsj] & Hm4). rewrite (Hm4 i (Hm3 i Hi2)) in Hj. injection Hj as <-.
  destruct (on_tab_keeps _ _ (quiet_sign i message) p4 p5 sg Hk4 E5) as (Hk5 & -> & Hm5).
  destruct (post_answers (js "/auth/challenge") None p ch ltac:(by rewrite E1)) as (r & Hr & Hj). rewrite E1 in Hr. cbn in Hr. rewrite Hs in Hr.
  exists i, ch, message, r. split; [|split; [exact Hr | split; [done | split; [done|split; [done | split; [apply Hm5, Hm4, Hm3, Hi2 | done]]]]]].
  change (pg_sent p1 = pg_sent p ++ [challenge_request]) in Hs. rewrite <- Hs.
  unfold on_tab in E3, E5. unfold device_key in E2, E4.
  destruct (public_key_text br i _); destruct (signNonce br i message _). injection E3 as <-. injection E5 as <-. injection E2 as <-. injection E4 as <-. done.
Qed.

Lemma request_sends method path body p : pg_sent (request method path body p).1 = pg_sent p ++
  [{| wq_method := method; wq_path := js "/v1" ++ path;
      wq_headers := session_header :: match body with Some _ => [(js "Content-Type", js "application/json")] | None => [] end;
      wq_body := match body with Some j => json_body j | None => no_body end |}].
Proof.
  unfold request, bind, fetch. cbn. destruct (agent _) as [r|]; [|done]. cbn. destruct (wr_status r =? 204); [done|].
  destruct (wr_isJson r); [destruct (wr_json r)|]; cbn; try done; by destruct (res_ok r).
Qed.
Definition silent {A} (m : Web A) : Prop := forall p, pg_sent (m p).1 = pg_sent p.
Lemma silent_bind {A B} (m : Web A) (k : A -> Web B) : silent m -> (forall a, silent (k a)) -> silent (bind m k).
Proof. intros Hm Hk p. unfold bind. specialize (Hm p). destruct (m p) as [p1 [a|e]]; cbn in *; [by rewrite (Hk a p1) | done]. Qed.
Lemma silent_tab {A} (m : Idm A) : silent (on_tab m).
Proof. intros p. unfold on_tab. by destruct (m _). Qed.
Lemma proofFields_sends p : pg_sent (proofFields p).1 = pg_sent p ++ [challenge_request].
Proof.
  unfold proofFields. unfold bind at 1. pose proof (request_sends (js "POST") (js "/auth/challenge") None p) as H. fold (post (js "/auth/challenge") None) in H.
  destruct (post (js "/auth/challenge") None p) as [p1 [ch|e]]; cbn [fst] in H; [|done]. change (pg_sent p1 = pg_sent p ++ [challenge_request]) in H. rewrite <- H.
  match goal with |- pg_sent (?m p1).1 = _ => assert (silent m) as Hm; [|by apply Hm] end.
  apply silent_bind; [done|]. intros i. apply silent_bind; [apply silent_tab|]. intros k.
  destruct ch as [[]|]; try done; (destruct (proof_message _); [|done]; apply silent_bind; [done|]; intros j; apply silent_bind; [apply silent_tab | done]).
Qed.
(** The text to sign for a challenge: the protocol's name, the certificate the agent named in lower case and
    the nonce, on a line each; the bare nonce where the agent named no certificate. *)
Definition text_to_sign (challenge : json) (message : jstr) : Prop :=
  forall fs nonce, challenge = JObj fs -> field (js "nonce") fs = Some (JStr nonce) ->
    match field (js "certFingerprint") fs with
    | Some (JStr (c :: fp)) => message = js "rfe-device-proof-v2" ++ [10] ++ toLowerCase (c :: fp) ++ [10] ++ nonce
    | None | Some JNull | Some (JStr []) => message = nonce
    | _ => True
    end.
Lemma proof_message_text challenge message : proof_message challenge = Some message -> text_to_sign challenge message.
Proof.
  intros H fs nonce -> Hn. unfold proof_message, member in H. rewrite Hn in H.
  destruct (field (js "certFingerprint") fs) as [[| | |[|c fp]| |]|]; cbn in H; try done; by injection H as <-.
Qed.

(** The two requests of a sign-in, for the path and the fields it is given. *)
Lemma signed_in_bound path fields sent t es :
  let '(p', r) := signed_in path fields {| pg_sent := sent; pg_id := run_ids br (opened t) es |} in
  let ask := {| wq_method := js "POST"; wq_path := js "/v1/auth/challenge"; wq_headers := [(js "X-RFE-Web-Session", js "1")]; wq_body := no_body |} in
  pg_sent p' = sent ++ [ask] /\ is_ok r = false \/
  exists i answer challenge message, agent (sent ++ [ask]) = Some answer /\ wr_json answer = Some challenge /\
    text_to_sign challenge message /\ tb_db (co_tab (pg_id p')) = Some i /\ sound_identity i /\
    pg_sent p' = sent ++ [ask;
      {| wq_method := js "POST"; wq_path := js "/v1" ++ js path;
         wq_headers := [(js "X-RFE-Web-Session", js "1"); (js "Content-Type", js "application/json")];
         wq_body := json_body (JObj (fields ++ [(js "devicePublicKey", JStr (to_base64 (key_bytes (sid_public i))))]
           ++ match challenge with JObj fs => match field (js "nonce") fs with Some n => [(js "nonce", n)] | None => [] end | _ => [] end
           ++ [(js "signature", JStr (to_base64 (subtle_sign (key_bytes (sid_private i)) (encode_text message))))])) |}].
Proof.
  set (p := {| pg_sent := sent |}). unfold signed_in, bind. pose proof (proofFields_sends p) as Hs.
  assert (Hk : kept (pg_id p)) by (apply kept_run; split; [done | constructor]).
  destruct (proofFields p) as [p1 [proof|e]] eqn:E1; cbn [fst] in Hs; [|by left].
  destruct (proofFields_ok p p1 proof Hk E1) as (i & ch & message & answer & Hs1 & Hr & Hj & Hm & -> & Hdb & Hsi).
  pose proof (request_sends (js "POST") (js path) (Some (JObj (fields ++ proof_for i ch message))) p1) as Hq.
  pose proof (request_tab (js "POST") (js path) (Some (JObj (fields ++ proof_for i ch message))) p1) as Ht.
  fold (post (js path) (Some (JObj (fields ++ proof_for i ch message)))) in Hq, Ht. destruct (post _ _ p1) as [p' r]. cbn [fst] in Hq, Ht. right.
  exists i, answer, ch, message. rewrite Ht. split; [done|]. split; [done|]. split; [by apply proof_message_text|]. split; [done|]. split; [done|].
  rewrite Hq, Hs1, <- (assoc_L (++)). unfold proof_for, opt_json, member. do 2 f_equal. by destruct ch.
Qed.
(** The three ways in. *)
Inductive SignIn :=
| with_password (username password deviceLabel : jstr)
| as_new_user (pairingCode username password deviceLabel : jstr)
| with_code (pairingCode deviceLabel : jstr).
Definition sign_in (s : SignIn) : Web (option json) :=
  match s with
  | with_password u p l => login u p l
  | as_new_user c u p l => register c u p l
  | with_code c l => pair c l
  end.

End Client.

(** The message binds fingerprint and nonce: a fingerprint holds no line break, so two
    different pairs never give one message. *)
Theorem proof_message_binds `{U : Unicode} fp fp' nonce nonce' : 10 ∉ toLowerCase fp -> 10 ∉ toLowerCase fp' ->
  deviceProofMessageV2 fp nonce = deviceProofMessageV2 fp' nonce' -> toLowerCase fp = toLowerCase fp' /\ nonce = nonce'.
Proof.
  unfold deviceProofMessageV2. intros H H' E. apply app_inv_head in E. injection E as E. revert E H H'.
  generalize (toLowerCase fp) (toLowerCase fp'). induction l as [|x l IH]; intros [|y l'] E H H'; cbn in E.
  - by injection E as <-.
  - injection E as E1 E2. subst. set_solver.
  - injection E as E1 E2. subst. set_solver.
  - injection E as E1 E2. subst. destruct (IH l' E2) as [-> ->]; [set_solver..|]. done.
Qed.

(** ** A companion at work *)

(** Stand-ins for the browser's cryptography, and an agent that takes everything. *)
Definition plain_crypto : WebCrypto := {|
  import_pkcs8 := Some; import_raw := Some; subtle_sign key m := key ++ m; subtle_verify key sig m := bool_decide (sig = key ++ m) |}.
#[refine] Definition length_hash : Sha256 := {|
  sha256 data := [Z.of_nat (length data) mod 256]; hasher := list Z; h_create := []; h_update h x := h ++ x;
  h_digest h := [Z.of_nat (length h) mod 256] |}.
Proof.
  - intros chunks. assert (forall h, fold_left (fun h x => h ++ x) chunks h = h ++ concat chunks) as H.
    { induction chunks as [|x l IH]; intros h; [by rewrite app_nil_r|]. cbn. by rewrite IH, (assoc_L (++)). }
    by rewrite H.
  - intros data. repeat constructor; apply Z.mod_pos_bound; lia.
Defined.
Definition taking_agent (answer : json) (sent : list WebRequest) : option WebReply :=
  Some {| wr_status := 200; wr_statusText := []; wr_isJson := true; wr_json := Some answer |}.
Definition steady_browser : Browser := {|
  br_fails _ := false; br_idb := true; br_storage := true; br_random n := replicate n 7; br_generate _ := ([5], [5]) |}.
Definition fresh_tab : Tab := {| tb_db := None; tb_priv := None; tb_pub := None; tb_ops := 0 |}.
Definition small_file : WebFile := {| wf_name := js "a"; wf_bytes := [1; 2; 3]; wf_fails _ _ := false |}.

Lemma web_upload_exact_witness :
  let agent := taking_agent (JObj [(js "id", JStr (js "t")); (js "totalChunks", JNum 1)]) in
  let p := {| pg_sent := []; pg_id := opened fresh_tab |} in
  let '(p', r) := uploadFile agent (SH := length_hash) (js "/d/a") small_file p in
  r = Ok tt /\ pg_sent p' = spec_upload (SH := length_hash) (js "/d/a") small_file (js "t") 1.
Proof.
  intros agent p. pose proof (web_upload_exact agent (SH := length_hash) (js "/d/a") small_file p) as H.
  destruct (uploadFile agent (js "/d/a") small_file p) as [p' r]. destruct H as (_ & _ & H).
  destruct (H (js "t") 1%nat) as (_ & Hiff & Hall & _).
  - intros i _. reflexivity.
  - eexists. eexists. split; [reflexivity|]. cbn. repeat split; try lia.
  - assert (r = Ok tt) as ->; [|split; [reflexivity | apply Hall; reflexivity]]. apply Hiff. split; [intros i _; reflexivity|]. split.
    + intros k _. eexists. split; [reflexivity|]. cbn. lia.
    + eexists. split; [reflexivity|]. cbn. split; [lia|]. right. right. discriminate.
Defined.
