(* ===== verification/WebPages.v ===== *)
(** * The pages of the web companion

    The decisions of [webui/web/src/pages] and of [lib/auth.tsx]: browsing a folder page by
    page, deleting and emptying the trash, uploads, restoring, device cards and their pairing
    code, the transfer list, removing users, the settings form and the session. *)

From Stdlib Require Import ZArith Lia Bool String.
From Stdlib Require List.
From S2P Require Import Prelude JsCollections JsString Json Errors AgentClient FileCaches WebIdentity WebClient.
Local Open Scope js_scope.

(** ** Paths and icons of the file page ([Files.tsx]) *)

Record WebEntry := { we_name : jstr; we_path : jstr; we_isDir : bool; we_mime : option jstr }.
Definition joinPath (base name : jstr) : jstr := if bool_decide (base = [slash]) || bool_decide (base = []) then [slash] ++ name else base ++ [slash] ++ name.
Fixpoint crumbs_from (acc : jstr) (segs : list jstr) : list (jstr * jstr) :=
  match segs with [] => [] | s :: r => let full := acc ++ [slash] ++ s in (s, full) :: crumbs_from full r end.
Definition crumbsOf (path : jstr) : list (jstr * jstr) := crumbs_from [] (List.filter nonempty (split_on (Z.eqb slash) path)).
Inductive WebIcon := icon_folder | icon_image | icon_pdf | icon_archive | icon_file.
Definition fileIconFor (e : WebEntry) : WebIcon :=
  if we_isDir e then icon_folder
  else
    let mime := default [] (we_mime e) in
    if includes (js "image") mime then icon_image
    else if includes (js "pdf") mime then icon_pdf
    else if includes (js "zip") mime || includes (js "archive") mime || includes (js "compressed") mime then icon_archive
    else icon_file.
(** [`${path.replace(/\/$/, '')}/${file.name}`]. *)
Definition upload_dest (path name : jstr) : jstr := (if ends_with [slash] path then take (length path - 1) path else path) ++ [slash] ++ name.

(** ** Browsing *)

(** The rows of the folder, its next cursor, and the further pages under way. *)
Record Browse := {
  b_path : jstr; b_entries : list WebEntry; b_cursor : option jstr; b_selecting : bool; b_selected : list jstr;
  b_pending : list (jstr * jstr) }.
Inductive BrowseEvent :=
| Navigate (path : jstr)
| Listed                       (** the listing of the folder on screen arrives, or is fetched again *)
| LoadMore
| MoreArrived (k : nat)        (** the [k]-th page under way arrives *)
| MoreFailed (k : nat)
| ToggleSelecting
| ToggleSelect (p : jstr).
Definition toggleSelect (p : jstr) (sel : list jstr) : list jstr := if set_has p sel then set_delete p sel else set_add p sel.
Definition with_rows (b : Browse) (es : list WebEntry) (next : option jstr) (pending : list (jstr * jstr)) : Browse :=
  {| b_path := b_path b; b_entries := es; b_cursor := next; b_selecting := b_selecting b; b_selected := b_selected b; b_pending := pending |}.
Definition with_selection (b : Browse) (selecting : bool) (sel : list jstr) : Browse :=
  {| b_path := b_path b; b_entries := b_entries b; b_cursor := b_cursor b; b_selecting := selecting; b_selected := sel; b_pending := b_pending b |}.
Section Browsing.
(** The agent's listing of a folder at a cursor. *)
Context (folder : jstr -> option jstr -> list WebEntry * option jstr).
Definition loadMore (b : Browse) : Browse :=
  match b_cursor b with
  | Some (c :: r) => with_rows b (b_entries b) (b_cursor b) (b_pending b ++ [(b_path b, c :: r)])
  | _ => b
  end.
Definition browse_step (b : Browse) (e : BrowseEvent) : Browse :=
  match e with
  | Navigate p =>
      if bool_decide (p = b_path b) then b
      else {| b_path := p; b_entries := b_entries b; b_cursor := b_cursor b; b_selecting := false; b_selected := []; b_pending := b_pending b |}
  | Listed => let (es, next) := folder (b_path b) None in with_rows b es next (b_pending b)
  | LoadMore => loadMore b
  | MoreArrived k =>
      match b_pending b !! k with
      | Some (p, c) => let (es, next) := folder p (Some c) in with_rows b (b_entries b ++ es) next (delete k (b_pending b))
      | None => b
      end
  | MoreFailed k => with_rows b (b_entries b) (b_cursor b) (delete k (b_pending b))
  | ToggleSelecting => with_selection b (negb (b_selecting b)) (b_selected b)
  | ToggleSelect p => with_selection b (b_selecting b) (toggleSelect p (b_selected b))
  end.
(** [rows]: what the table shows. *)
Definition rows (b : Browse) (query : jstr) (found : option (list WebEntry)) : list WebEntry :=
  if nonempty (trim query) then default [] found else b_entries b.

(** Further pages of a folder, each at the cursor of the one before. *)
Inductive pages (p : jstr) : list WebEntry -> option jstr -> Prop :=
| pages_first : pages p (folder p None).1 (folder p None).2
| pages_next es c : pages p es (Some c) -> pages p (es ++ (folder p (Some c)).1) (folder p (Some c)).2.
(** The events in which one page is under way at a time, and none across a change of folder
    or of its listing; [listed] says that the rows are those of the folder. *)
Fixpoint orderly (b : Browse) (listed : bool) (es : list BrowseEvent) : bool :=
  match es with
  | [] => true
  | e :: r =>
      let idle := match b_pending b with [] => true | _ => false end in
      let ok := match e with Navigate _ | Listed => idle | LoadMore => idle && listed | _ => true end in
      let listed' := match e with Navigate p => listed && bool_decide (p = b_path b) | Listed => true | _ => listed end in
      ok && orderly (browse_step b e) listed' r
  end.
Definition browse_run (b : Browse) (es : list BrowseEvent) : Browse := fold_left browse_step es b.
Fixpoint listed_after (b : Browse) (listed : bool) (es : list BrowseEvent) : bool :=
  match es with
  | [] => listed
  | e :: r => listed_after (browse_step b e) (match e with Navigate p => listed && bool_decide (p = b_path b) | Listed => true | _ => listed end) r
  end.
Definition browse_ok (b : Browse) (listed : bool) : Prop :=
  (listed = true -> pages (b_path b) (b_entries b) (b_cursor b)) /\
  match b_pending b with
  | [] => True
  | [(p, c)] => p = b_path b /\ listed = true /\ b_cursor b = Some c
  | _ => False
  end.
Lemma browse_ok_run es b listed : browse_ok b listed -> orderly b listed es = true -> browse_ok (browse_run b es) (listed_after b listed es).
Proof.
  revert b listed. induction es as [|e es IH]; intros b listed [Hp Hq] Ho; cbn [browse_run fold_left listed_after orderly] in *; [done|].
  apply andb_true_iff in Ho as [Hok Ho]. apply IH; [|exact Ho]. clear IH Ho. destruct e; cbn [browse_step].
  - destruct (b_pending b) eqn:Eq; [|done]. destruct (bool_decide_reflect (path = b_path b)); [rewrite andb_true_r; split; by rewrite ?Eq|].
    rewrite andb_false_r. split; [done|]. cbn. by rewrite ?Eq.
  - destruct (b_pending b) eqn:Eq; [|done]. destruct (folder (b_path b) None) as [l n] eqn:Ef. split; cbn; [|done].
    intros _. pose proof (pages_first (b_path b)) as H. by rewrite Ef in H.
  - unfold loadMore. destruct (b_pending b) eqn:Eq; [|done]. destruct listed; [|done]. destruct (b_cursor b) as [[|c r]|] eqn:Ec; split; cbn; rewrite ?Eq, ?Ec; auto.
  - destruct (b_pending b) as [|[p c] [|]] eqn:Eq; cbn in Hq; [rewrite lookup_nil; split; [done | by rewrite ?Eq] | | done]. destruct Hq as (-> & -> & Ec).
    destruct k as [|k]; cbn; [|replace ((@nil (jstr * jstr)) !! k) with (@None (jstr * jstr)) by done; split; [done | by rewrite ?Eq]].
    destruct (folder (b_path b) (Some c)) as [l n] eqn:Ef. split; [|done]. intros _. cbn. pose proof (pages_next (b_path b) (b_entries b) c) as H.
    rewrite Ef in H. apply H. rewrite <- Ec. by apply Hp.
  - split; [done|]. cbn. destruct (b_pending b) as [|[p c] [|]] eqn:Eq; cbn in Hq |- *; [done | | done]. by destruct k.
  - by split.
  - by split.
Qed.

(** When pages are asked for one at a time and never across a change of folder, the rows are
    the pages of the folder on screen, in order, from the first. *)
Theorem web_rows_in_order b es : b_pending b = [] -> orderly b false es = true ->
  listed_after b false es = true -> let b' := browse_run b es in pages (b_path b') (b_entries b') (b_cursor b').
Proof. intros Hb Ho Hl b'. destruct (browse_ok_run es b false) as [H _]; [split; [done | by rewrite Hb] | done | by apply H]. Qed.
End Browsing.

Definition file_row (name : string) : WebEntry := {| we_name := js name; we_path := js name; we_isDir := false; we_mime := None |}.
(** Two folders of two and three pages. *)
Definition two_folders (p : jstr) (c : option jstr) : list WebEntry * option jstr :=
  match bool_decide (p = js "/a"), c with
  | true, None => ([file_row "a1"], Some (js "2"))
  | true, Some [50] => ([file_row "a2"], Some (js "3"))
  | true, _ => ([file_row "a3"], None)
  | false, None => ([file_row "b1"], Some (js "2"))
  | false, _ => ([file_row "b2"], None)
  end.
Definition browse_start (p : string) : Browse :=
  {| b_path := js p; b_entries := []; b_cursor := None; b_selecting := false; b_selected := []; b_pending := [] |}.
Definition shown_names (es : list BrowseEvent) : list jstr := we_name <$> b_entries (browse_run two_folders (browse_start "/a") es).
(** Out of order the rows are not those of the folder: a page under way when the folder is
    left is added to the next one, two clicks add one page twice, and a listing fetched again
    while a later page is under way loses the pages between. *)
Theorem web_rows_out_of_order :
  shown_names [Listed; LoadMore; Navigate (js "/b"); Listed; MoreArrived 0] = [js "b1"; js "a2"] /\
  shown_names [Listed; LoadMore; LoadMore; MoreArrived 0; MoreArrived 0] = [js "a1"; js "a2"; js "a2"] /\
  shown_names [Listed; LoadMore; MoreArrived 0; LoadMore; Listed; MoreArrived 0] = [js "a1"; js "a3"].
Proof. vm_compute. auto. Qed.
Lemma web_rows_in_order_witness :
  let es := [Listed; LoadMore; MoreArrived 0; LoadMore; MoreArrived 0] in
  let b := browse_run two_folders (browse_start "/a") es in
  b_path b = js "/a" /\ we_name <$> b_entries b = [js "a1"; js "a2"; js "a3"] /\ pages two_folders (b_path b) (b_entries b) (b_cursor b).
Proof.
  intros es b. split; [reflexivity|]. split; [vm_compute; reflexivity|].
  apply (web_rows_in_order two_folders (browse_start "/a") es); vm_compute; reflexivity.
Defined.

(** The last crumb is the whole path. *)
Theorem crumbs_end_at_path segs :
  last (crumbs_from [] segs) = match last segs with Some s => Some (s, concat ((fun s => [slash] ++ s) <$> segs)) | None => None end.
Proof.
  assert (H : forall acc, last (crumbs_from acc segs) = match last segs with Some s => Some (s, acc ++ concat ((fun s => [slash] ++ s) <$> segs)) | None => None end); [|apply (H [])].
  induction segs as [|s [|s2 r] IH]; intros acc; [done | cbn; by rewrite app_nil_r|].
  change (last (crumbs_from acc (s :: s2 :: r))) with (last (crumbs_from (acc ++ [slash] ++ s) (s2 :: r))). rewrite IH.
  change (last (s :: s2 :: r)) with (last (s2 :: r)). destruct (last (s2 :: r)); [|done]. do 2 f_equal. cbn. by rewrite <- !(assoc_L (++)).
Qed.

(** ** What the file page asks of the agent *)

Section Actions.
Context `{U : Unicode, W : WebCrypto} (br : Browser) (agent : list WebRequest -> option WebReply).
Context `{SH : Sha256}.
Notation call := (api br agent).

(** The message shown for an error. *)
Definition toast_of (e : WebError) (otherwise : string) : jstr := match e with ApiError _ _ m => m | OtherError _ => js otherwise end.
(** A click and the confirmation it asks for; the messages shown. *)
Definition said {A} (m : Web A) (ok : string) (failed : string) : Web jstr :=
  catch (m;; ret (js ok)) (fun e => ret (toast_of e failed)).
Definition mkdir_page (path name : jstr) : Web (option jstr) :=
  if nonempty (trim name) then m <- said (call (w_mkdir (joinPath path (trim name)))) "Folder created" "Failed to create folder";; ret (Some m) else ret None.
Definition rename_page (target : option WebEntry) (value : jstr) : Web (option jstr) :=
  match target with
  | Some e => if nonempty (trim value) then m <- said (call (w_rename (we_path e) (trim value))) "Renamed" "Rename failed";; ret (Some m) else ret None
  | None => ret None
  end.
(** [downloadFile]: the bytes are fetched, never navigated to; [None] is a malformed name. *)
Definition downloadFile (e : WebEntry) : Web (option jstr) :=
  match contentUrl (we_path e) with
  | None => ret (Some (js "Download failed"))
  | Some url =>
      catch (res <- fetch agent {| wq_method := js "GET"; wq_path := url; wq_headers := [session_header]; wq_body := no_body |};;
             if res_ok res then ret None else throw (api_error res (Some (default (JObj []) (wr_json res)))))
            (fun e => ret (Some (toast_of e "Download failed")))
  end.
Fixpoint onUploadPicked (path : jstr) (files : list WebFile) : Web (list jstr) :=
  match files with
  | [] => ret []
  | f :: r =>
      m <- catch (call (w_uploadFile (upload_dest path (wf_name f)) f);; ret (js "Uploaded " ++ wf_name f))
                 (fun e => ret (match e with ApiError _ _ m => m | OtherError _ => js "Upload failed: " ++ wf_name f end));;
      ms <- onUploadPicked path r;; ret (m :: ms)
  end.
(** [res?.results ?? []]. *)
Definition results_of (res : option json) : list json := match member res "results" with Some (JArr l) => l | _ => [] end.
Definition restore_page (id : jstr) : Web jstr :=
  catch (res <- call (w_restoreTrash [id]);;
         match restoreFailure (results_of res) with
         | None => ret (js "Restored")
         | Some failure => throw (OtherError (json_to_string failure))
         end)
        (fun e => ret (match e with ApiError _ _ (c :: m) | OtherError (c :: m) => c :: m | _ => js "Restore failed" end)).
Definition delete_forever_page (confirmed : bool) (id : jstr) : Web (option jstr) :=
  if confirmed then m <- said (call (w_deleteTrashForever [id])) "Deleted forever" "Delete failed";; ret (Some m) else ret None.
Definition empty_trash_page (confirmed : bool) (trash : option (list json)) : Web (option jstr) :=
  match trash with
  | None | Some [] => ret None
  | Some _ => if confirmed then m <- said (call w_emptyTrash) "Trash emptied" "Could not empty the trash";; ret (Some m) else ret None
  end.
Definition revoke_page (tokenHash : jstr) : Web jstr := said (call (w_revokeShare tokenHash)) "Share revoked" "Revoke failed".

(** A click on the file page. *)
Inductive FileClick :=
| ClickMkdir (path name : jstr) | ClickRename (target : option WebEntry) (value : jstr) | ClickDownload (e : WebEntry) | ClickUpload (path : jstr) (files : list WebFile)
| ClickRestore (id : jstr) | ClickDeleteForever (confirmed : bool) (id : jstr) | ClickEmptyTrash (confirmed : bool) (trash : option (list json)) | ClickRevoke (tokenHash : jstr).
Definition click (c : FileClick) : Web unit :=
  match c with
  | ClickMkdir path name => mkdir_page path name;; ret tt
  | ClickRename target value => rename_page target value;; ret tt
  | ClickDownload e => downloadFile e;; ret tt
  | ClickUpload path files => onUploadPicked path files;; ret tt
  | ClickRestore id => restore_page id;; ret tt
  | ClickDeleteForever confirmed id => delete_forever_page confirmed id;; ret tt
  | ClickEmptyTrash confirmed trash => empty_trash_page confirmed trash;; ret tt
  | ClickRevoke h => revoke_page h;; ret tt
  end.

Lemma spares_catch {A} (m : Web A) h : spares m -> (forall e, spares (h e)) -> spares (catch m h).
Proof.
  intros Hm Hh p. unfold catch. destruct (Hm p) as (ns & E & H). destruct (m p) as [p1 [a|e]]; cbn in *; [by exists ns|].
  destruct (Hh e p1) as (ns2 & E2 & H2). exists (ns ++ ns2). split; [by rewrite E2, E, (assoc_L (++)) | by apply Forall_app].
Qed.
Lemma spares_ret {A} (a : A) : spares (ret a).
Proof. by apply spares_silent. Qed.
Lemma spares_said {A} (m : Web A) ok failed : spares m -> spares (said m ok failed).
Proof. intros H. apply spares_catch; [|intros; apply spares_ret]. apply spares_bind; [done | intros; apply spares_ret]. Qed.
Ltac spare_page :=
  repeat lazymatch goal with
         | |- spares (bind _ _) => apply spares_bind; [|intros ?]
         | |- spares (catch _ _) => apply spares_catch; [|intros ?]
         | |- spares (ret _) => apply spares_ret
         | |- spares (said _ _ _) => apply spares_said
         | |- spares (api _ _ _) => apply trash_emptied_only_by_name; discriminate
         end.

(** No click on the file page empties the trash but the one on "empty trash", confirmed,
    with items in it: a deletion from the trash, confirmed or not, always names its item. *)
Theorem trash_emptied_only_confirmed c :
  spares (click c) \/ exists trash, c = ClickEmptyTrash true (Some trash) /\ trash <> [].
Proof.
  destruct c; cbn [click].
  - left. unfold mkdir_page. destruct (nonempty (trim name)); spare_page.
  - left. unfold rename_page. destruct target; [|spare_page]. destruct (nonempty (trim value)); spare_page.
  - left. unfold downloadFile. destruct (contentUrl _); [|spare_page]. spare_page.
    + intros p. unfold fetch. cbn. eexists. split; [done|]. repeat constructor. intros (Hm & _). discriminate Hm.
    + destruct (res_ok a); by apply spares_silent.
  - left. spare_page. induction files as [|f r IH]; cbn [onUploadPicked]; spare_page. apply IH.
  - left. unfold restore_page. spare_page. destruct (restoreFailure _); by apply spares_silent.
  - left. unfold delete_forever_page. destruct confirmed; spare_page.
  - unfold empty_trash_page. destruct trash as [[|x r]|]; [left; spare_page | | left; spare_page].
    destruct confirmed; [right; by exists (x :: r) | left; spare_page].
  - left. unfold revoke_page. spare_page.
Qed.
(** An upload's outcome is reported for every file picked, in order, whatever failed before. *)
Theorem every_upload_reported path files p : exists p' ms, onUploadPicked path files p = (p', Ok ms) /\ length ms = length files.
Proof.
  revert p. induction files as [|f r IH]; intros p; cbn [onUploadPicked]; [by exists p, []|].
  unfold bind at 1, catch at 1. destruct (bind _ _ p) as [p1 [m|e]]; cbn; unfold bind; destruct (IH p1) as (p' & ms & -> & Hl); cbn; eexists _, _; (split; [done|]); cbn; by rewrite Hl.
Qed.
(** "Restored" is said only when the agent reported a result and every result succeeded. *)
Theorem restored_means_restored results : restoreFailure results = None <-> results <> [] /\ Forall (fun r => result_ok r = true) results.
Proof.
  unfold restoreFailure. destruct results as [|x l]; [split; [done | by intros [? _]]|]. set (rs := x :: l).
  destruct (List.find (fun r => negb (result_ok r)) rs) as [bad|] eqn:Ef.
  - apply List.find_some in Ef as [Hin Hb]. split; [done|]. intros [_ H]. rewrite List.Forall_forall in H. rewrite (H bad Hin) in Hb. done.
  - split; [|done]. intros _. split; [done|]. apply List.Forall_forall. intros r Hr. pose proof (List.find_none _ _ Ef r Hr) as H. by apply negb_false_iff in H.
Qed.
End Actions.

(** ** The settings form ([Settings.tsx]) *)

Record WebSettings := { st_readOnly : bool; st_roots : list jstr; st_photoRoot : jstr }.
Record WebBandwidth := { bw_up : Z; bw_down : Z }.
Record Form := { fm_settings : option WebSettings; fm_bandwidth : option WebBandwidth; fm_seeded : bool;
                 fm_newFolder : jstr; fm_photoRoot : jstr; fm_upload : jstr; fm_download : jstr }.
Definition rate_text (n : Z) : jstr := if n =? 0 then [] else string_of_Z n.
(** The effect that fills the inputs, once, when both answers are there. *)
Definition seed (f : Form) : Form :=
  match fm_settings f, fm_bandwidth f, fm_seeded f with
  | Some s, Some b, false =>
      {| fm_settings := Some s; fm_bandwidth := Some b; fm_seeded := true; fm_newFolder := fm_newFolder f;
         fm_photoRoot := st_photoRoot s; fm_upload := rate_text (bw_up b); fm_download := rate_text (bw_down b) |}
  | _, _, _ => f
  end.
Inductive FormEvent := GotSettings (s : WebSettings) | GotBandwidth (b : WebBandwidth) | TypedPhotoRoot (v : jstr) | TypedUpload (v : jstr) | TypedDownload (v : jstr) | TypedFolder (v : jstr).
Definition form_step (f : Form) (e : FormEvent) : Form :=
  match e with
  | GotSettings s => seed {| fm_settings := Some s; fm_bandwidth := fm_bandwidth f; fm_seeded := fm_seeded f; fm_newFolder := fm_newFolder f; fm_photoRoot := fm_photoRoot f; fm_upload := fm_upload f; fm_download := fm_download f |}
  | GotBandwidth b => seed {| fm_settings := fm_settings f; fm_bandwidth := Some b; fm_seeded := fm_seeded f; fm_newFolder := fm_newFolder f; fm_photoRoot := fm_photoRoot f; fm_upload := fm_upload f; fm_download := fm_download f |}
  | TypedPhotoRoot v => {| fm_settings := fm_settings f; fm_bandwidth := fm_bandwidth f; fm_seeded := fm_seeded f; fm_newFolder := fm_newFolder f; fm_photoRoot := v; fm_upload := fm_upload f; fm_download := fm_download f |}
  | TypedUpload v => {| fm_settings := fm_settings f; fm_bandwidth := fm_bandwidth f; fm_seeded := fm_seeded f; fm_newFolder := fm_newFolder f; fm_photoRoot := fm_photoRoot f; fm_upload := v; fm_download := fm_download f |}
  | TypedDownload v => {| fm_settings := fm_settings f; fm_bandwidth := fm_bandwidth f; fm_seeded := fm_seeded f; fm_newFolder := fm_newFolder f; fm_photoRoot := fm_photoRoot f; fm_upload := fm_upload f; fm_download := v |}
  | TypedFolder v => {| fm_settings := fm_settings f; fm_bandwidth := fm_bandwidth f; fm_seeded := fm_seeded f; fm_newFolder := v; fm_photoRoot := fm_photoRoot f; fm_upload := fm_upload f; fm_download := fm_download f |}
  end.
Definition toggleReadOnly (f : Form) : option json := s ← fm_settings f; Some (JObj [(js "readOnly", JBool (negb (st_readOnly s)))]).
Definition removeFolder (path : jstr) (f : Form) : option json :=
  s ← fm_settings f; Some (JObj [(js "roots", jstrs (List.filter (fun r => negb (bool_decide (r = path))) (st_roots s)))]).
Definition addFolder (f : Form) : option json :=
  s ← fm_settings f; match trim (fm_newFolder f) with [] => None | path => Some (JObj [(js "roots", jstrs (st_roots s ++ [path]))]) end.
(** [Number(input) || 0], for a whole number. *)
Definition rate_of (input : jstr) : Z := default 0 (number_of_string input).
(** The two requests of [saveChanges]; [None] where the form leaves the value alone. *)
Definition saveChanges (f : Form) : option (option json * option json) :=
  s ← fm_settings f; b ← fm_bandwidth f;
  let upload := rate_of (fm_upload f) in
  let download := rate_of (fm_download f) in
  Some (if negb (upload =? bw_up b) || negb (download =? bw_down b)
        then Some (JObj [(js "maxUploadBytesPerSec", JNum upload); (js "maxDownloadBytesPerSec", JNum download)]) else None,
        if bool_decide (fm_photoRoot f = st_photoRoot s) then None else Some (JObj [(js "photoBackupRoot", JStr (fm_photoRoot f))])).

Definition empty_form : Form := {| fm_settings := None; fm_bandwidth := None; fm_seeded := false; fm_newFolder := []; fm_photoRoot := []; fm_upload := []; fm_download := [] |}.
Definition settings_with (root : string) : WebSettings := {| st_readOnly := false; st_roots := []; st_photoRoot := js root |}.
(** Saving sends nothing when the inputs say what the agent last reported, but a form that was
    never touched sends back the folder it was filled with once another client changed it. *)
Theorem untouched_form_overwrites :
  let fill := [GotBandwidth {| bw_up := 5; bw_down := 0 |}; GotSettings (settings_with "/old")] in
  saveChanges (fold_left form_step fill empty_form) = Some (None, None) /\
  saveChanges (fold_left form_step (fill ++ [GotSettings (settings_with "/new")]) empty_form)
    = Some (None, Some (JObj [(js "photoBackupRoot", JStr (js "/old"))])).
Proof. vm_compute. auto. Qed.
(** The agent takes an empty list of folders as no restriction, and removing the only folder
    sends that list. *)
Theorem last_folder_removed path f s : fm_settings f = Some s -> st_roots s = [path] -> removeFolder path f = Some (JObj [(js "roots", JArr [])]).
Proof. intros E1 E2. unfold removeFolder. rewrite E1. cbn. rewrite E2. cbn. by rewrite bool_decide_eq_true_2. Qed.

(** ** The session ([lib/auth.tsx]) *)

Record Session := { se_authenticated : bool; se_ready : bool; se_agentName : jstr; se_active : bool }.
Inductive SessionEvent :=
| StatusAnswered (ok : bool)      (** the check made when the page opens *)
| SignedIn (agentName : jstr)
| LoggedOut
| Unmounted.
Definition session_init : Session := {| se_authenticated := false; se_ready := false; se_agentName := []; se_active := true |}.
Definition session_step (s : Session) (e : SessionEvent) : Session :=
  match e with
  | StatusAnswered ok =>
      if se_active s then {| se_authenticated := ok; se_ready := true; se_agentName := se_agentName s; se_active := true |} else s
  | SignedIn name => {| se_authenticated := true; se_ready := true; se_agentName := name; se_active := se_active s |}
  | LoggedOut => {| se_authenticated := false; se_ready := se_ready s; se_agentName := se_agentName s; se_active := se_active s |}
  | Unmounted => {| se_authenticated := se_authenticated s; se_ready := se_ready s; se_agentName := se_agentName s; se_active := false |}
  end.
Inductive Gate := Checking | ToLogin | Inside.
Definition RequireAuth (s : Session) : Gate := if negb (se_ready s) then Checking else if se_authenticated s then Inside else ToLogin.
(** The pages are reached only after the agent accepted the session or a sign-in, and not
    past a later logout or refused check. *)
Theorem inside_means_accepted es : RequireAuth (fold_left session_step es session_init) = Inside ->
  exists before e after, es = before ++ [e] ++ after /\ (e = StatusAnswered true \/ exists n, e = SignedIn n) /\ Forall (fun x => x <> LoggedOut) after.
Proof.
  induction es as [|e es IH] using rev_ind; [done|]. rewrite fold_left_app. cbn. set (s := fold_left session_step es session_init) in *.
  destruct e as [ok|n| |]; cbn [session_step].
  - destruct (se_active s); [|intros H; destruct (IH H) as (b & x & a & -> & Hx & Ha); exists b, x, (a ++ [StatusAnswered ok]); rewrite <- !(assoc_L (++)); repeat split; [done|]; apply Forall_app; split; [done | by repeat constructor]].
    destruct ok; [|done]. intros _. exists es, (StatusAnswered true), []. repeat split; [by left | constructor].
  - intros _. exists es, (SignedIn n), []. repeat split; [right; by exists n | constructor].
  - unfold RequireAuth. cbn. by destruct (se_ready s).
  - intros H. destruct (IH H) as (b & x & a & -> & Hx & Ha). exists b, x, (a ++ [Unmounted]). rewrite <- !(assoc_L (++)). repeat split; [done|]. apply Forall_app. split; [done | by repeat constructor].
Qed.
(** The check made when the page opened is not withdrawn by a sign-in: a refusal that arrives
    after it signs the user out again. *)
Theorem late_check_signs_out : RequireAuth (fold_left session_step [SignedIn (js "Mac"); StatusAnswered false] session_init) = ToLogin.
Proof. reflexivity. Qed.

(** ** Removing an account ([Users.tsx]) *)

Record UserPage := { up_users : list jstr; up_pending : option jstr; up_busy : bool; up_deletes : list jstr }.
Inductive UserEvent := ClickRemove (u : jstr) | DeleteSettled | GotUsers (users : list jstr).
Definition onRemoveClick (p : UserPage) (u : jstr) : UserPage :=
  if bool_decide (up_pending p = Some u)
  then {| up_users := up_users p; up_pending := up_pending p; up_busy := true; up_deletes := up_deletes p ++ [u] |}
  else {| up_users := up_users p; up_pending := Some u; up_busy := up_busy p; up_deletes := up_deletes p |}.
(** The button is disabled for the last account and while a deletion runs. *)
Definition user_step (p : UserPage) (e : UserEvent) : UserPage :=
  match e with
  | ClickRemove u => if (length (up_users p) <=? 1)%nat || up_busy p then p else onRemoveClick p u
  | DeleteSettled => if up_busy p then {| up_users := up_users p; up_pending := None; up_busy := false; up_deletes := up_deletes p |} else p
  | GotUsers us => {| up_users := us; up_pending := up_pending p; up_busy := up_busy p; up_deletes := up_deletes p |}
  end.
Definition user_page_init : UserPage := {| up_users := []; up_pending := None; up_busy := false; up_deletes := [] |}.
Lemma pending_was_clicked es : forall u, up_pending (fold_left user_step es user_page_init) = Some u -> ClickRemove u ∈ es.
Proof.
  induction es as [|e es IH] using rev_ind; intros u; [done|]. rewrite fold_left_app. cbn. set (p := fold_left user_step es user_page_init) in *.
  destruct e as [v| |us]; cbn [user_step].
  - destruct (_ || _); [intros H; apply elem_of_app; left; auto|]. unfold onRemoveClick.
    destruct (bool_decide _); cbn; [intros H; apply elem_of_app; left; auto|]. intros [= ->]. apply elem_of_app. right. left.
  - destruct (up_busy p); cbn; [done|]. intros H. apply elem_of_app. left. auto.
  - cbn. intros H. apply elem_of_app. left. auto.
Qed.
(** An account is removed only by a second click on its own button, and never the last one the
    page knows of. *)
Theorem removal_confirmed es e u :
  let p := fold_left user_step es user_page_init in
  up_deletes (user_step p e) = up_deletes p ++ [u] -> e = ClickRemove u /\ ClickRemove u ∈ es /\ (1 < length (up_users p))%nat /\ up_busy p = false.
Proof.
  intros p. pose proof (pending_was_clicked es u) as Hc. fold p in Hc.
  assert (Hno : up_deletes p <> up_deletes p ++ [u]) by (intros H; apply (f_equal length) in H; rewrite length_app in H; cbn in H; lia).
  destruct e as [v| |us]; cbn [user_step]; [| by destruct (up_busy p) | done].
  destruct (Nat.leb_spec (length (up_users p)) 1); cbn [orb]; [done|]. destruct (up_busy p) eqn:Eb; [done|]. unfold onRemoveClick.
  destruct (bool_decide_reflect (up_pending p = Some v)) as [Hp|]; cbn; [|done]. intros H1. apply app_inv_head in H1. injection H1 as ->. repeat split; auto.
Qed.
(** [(hash * 31 + c) | 0], then the index of one of four gradients. *)
Definition to_int32 (n : Z) : Z := let m := n mod 2 ^ 32 in if m <? 2 ^ 31 then m else m - 2 ^ 32.
Definition name_hash (username : jstr) : Z := fold_left (fun h c => to_int32 (h * 31 + c)) username 0.
Definition avatarGradient (username : jstr) : nat := Z.to_nat (Z.abs (name_hash username) mod 4).
Theorem avatarGradient_exists username : (avatarGradient username < 4)%nat.
Proof. unfold avatarGradient. pose proof (Z.mod_pos_bound (Z.abs (name_hash username)) 4). lia. Qed.

(** ** Device cards ([Devices.tsx]); times in milliseconds, [lastSeen] in seconds *)

Definition count_ago (n : Z) (unit : string) : jstr := string_of_Z n ++ js unit.
Definition formatAgo (nowMs unixSeconds : Z) : jstr :=
  let ms := nowMs - 1000 * unixSeconds in
  if ms <? 60000 then js "just now"
  else if ms <? 3600000 then count_ago (ms / 60000) "m ago"
  else if ms <? 86400000 then count_ago (ms / 3600000) "h ago"
  else count_ago (ms / 86400000) "d ago".
Definition ONLINE_WINDOW_SECONDS : Z := 300.
Definition isOnline (nowMs lastSeen : Z) : bool := nowMs - 1000 * lastSeen <? 1000 * ONLINE_WINDOW_SECONDS.
Record WebDevice := { wd_id : jstr; wd_jail : option jstr; wd_readOnly : option bool; wd_revoked : bool; wd_viaLogin : option bool;
  wd_browse : option bool; wd_download : option bool; wd_upload : option bool; wd_modify : option bool; wd_delete : option bool; wd_share : option bool }.
Definition hasFileCapabilities (d : WebDevice) : bool :=
  bool_decide (is_Some (wd_browse d)) && bool_decide (is_Some (wd_download d)) && bool_decide (is_Some (wd_upload d)) &&
  bool_decide (is_Some (wd_modify d)) && bool_decide (is_Some (wd_delete d)) && bool_decide (is_Some (wd_share d)).
Definition truthy_flag (o : option bool) : bool := default false o.
Definition toggle_body (key : string) (flag : option bool) : json := JObj [(js key, JBool (negb (truthy_flag flag)))].
(** The switches of a card that can be pressed, with the bodies they send. *)
Definition filePermissions (d : WebDevice) : list (jstr * bool * json) :=
  [ (js "Browse files", truthy_flag (wd_browse d), toggle_body "browse" (wd_browse d));
    (js "Download files", truthy_flag (wd_download d), toggle_body "download" (wd_download d));
    (js "Upload files", truthy_flag (wd_upload d), toggle_body "upload" (wd_upload d));
    (js "Modify files", truthy_flag (wd_modify d), toggle_body "modify" (wd_modify d));
    (js "Delete files", truthy_flag (wd_delete d), toggle_body "delete" (wd_delete d));
    (js "Create share links", truthy_flag (wd_share d), toggle_body "share" (wd_share d)) ].
Definition shown_permissions (d : WebDevice) : list (jstr * bool * json) :=
  if hasFileCapabilities d && negb (truthy_flag (wd_viaLogin d)) then filePermissions d else [].
Definition save_jail (d : WebDevice) (jailRoot : jstr) : option json :=
  if bool_decide (jailRoot = default [] (wd_jail d)) then None else Some (JObj [(js "jailRoot", JStr jailRoot)]).
(** The countdown of a pairing code and the digits shown while it lasts. *)
Definition remaining_s (nowMs expiresAt : Z) : Z := Z.max 0 ((1000 * expiresAt - nowMs) / 1000).
Definition clock_text (remaining : Z) : jstr := pad_start 2 48 (string_of_Z (remaining / 60)) ++ [58] ++ pad_start 2 48 (string_of_Z (remaining mod 60)).
Definition codeDigits (nowMs : Z) (code : option (jstr * Z)) : list jstr :=
  match code with Some (digits, expiresAt) => if 0 <? remaining_s nowMs expiresAt then (fun c => [c]) <$> digits else [] | None => [] end.
(** A code is on screen only before it expires. *)
Theorem code_hidden_when_expired nowMs digits expiresAt : 1000 * expiresAt <= nowMs -> codeDigits nowMs (Some (digits, expiresAt)) = [].
Proof.
  intros H. unfold codeDigits, remaining_s. pose proof (Z.div_le_upper_bound (1000 * expiresAt - nowMs) 1000 0 ltac:(lia) ltac:(lia)).
  rewrite Z.max_l by lia. done.
Qed.

(** ** The transfer list and the log ([Transfers.tsx], [Logs.tsx]) *)

Inductive TransferStatus := tr_open | tr_completed | tr_failed.
Inductive StatusFilter := f_all | f_active | f_completed | f_failed.
Definition statusBadge (s : TransferStatus) : jstr * jstr :=
  match s with tr_open => (js "blue", js "Active") | tr_completed => (js "green", js "Completed") | tr_failed => (js "red", js "Failed") end.
Definition status_matches (f : StatusFilter) (s : TransferStatus) : bool :=
  match f, s with f_all, _ | f_active, tr_open | f_completed, tr_completed | f_failed, tr_failed => true | _, _ => false end.
Definition filtered `{U : Unicode} (f : StatusFilter) (query : jstr) (transfers : list (jstr * TransferStatus)) : list (jstr * TransferStatus) :=
  List.filter (fun t => status_matches f t.2 && (negb (nonempty (trim query)) || includes (toLowerCase (trim query)) (toLowerCase t.1))) transfers.
Definition timeAgo (nowMs unixSeconds : Z) : jstr :=
  let ms := nowMs - 1000 * unixSeconds in
  if unixSeconds =? 0 then js "Never"
  else if ms <? 60000 then count_ago (Z.max 0 (ms / 1000)) "s ago"
  else if ms <? 3600000 then count_ago (ms / 60000) "m ago"
  else if ms <? 86400000 then count_ago (ms / 3600000) "h ago"
  else count_ago (ms / 86400000) "d ago".
Inductive Level := info | warn | error.
Definition classify `{U : Unicode} (message : jstr) : Level :=
  let m := toLowerCase message in
  if includes (js "error") m || includes (js "fail") m then error else if includes (js "warn") m then warn else info.
Definition registerProblem (password confirm : jstr) : option jstr :=
  if negb (bool_decide (password = confirm)) then Some (js "Passwords do not match")
  else if (length password <? 8)%nat then Some (js "Password must be at least 8 characters") else None.
