(* ===== verification/DeskPaths.v ===== *)
(** * Paths and names of the desktop window

    The pure part of [desktop/ui/engine.js]: paths in POSIX, drive and share form, names and
    free names, kinds and filters, addresses and fingerprints, and the reading of the core's
    error texts. *)

From Stdlib Require Import ZArith Lia Bool String Sorted.
From Stdlib Require List.
From S2P Require Import Prelude JsCollections JsString Errors Paths.
Local Open Scope js_scope.

(** ** [parsePath] and [build] *)

Record Parsed := { pr_root : jstr; pr_sep : jchar; pr_steps : list jstr }.
Definition is_either (c : jchar) : bool := (c =? backslash) || (c =? slash).
(** What [.] of a pattern does not match. *)
Definition is_line_end (c : jchar) : bool := (c =? 10) || (c =? 13) || (c =? 8232) || (c =? 8233).
(** [/^[A-Za-z]:([\\/]|$)/]. *)
Definition is_drive (p : jstr) : bool :=
  match p with
  | l :: c :: rest => is_alpha l && (c =? colon) && match rest with [] => true | x :: _ => is_either x end
  | _ => false
  end.
(** [/^\\\\([^\\/]+)[\\/]([^\\/]+)/]: the two names of a share and what follows. *)
Definition share_parts (p : jstr) : option (jstr * jstr * jstr) :=
  match p with
  | a :: b :: rest =>
      if (a =? backslash) && (b =? backslash) then
        let h := take_while (fun c => negb (is_either c)) rest in
        match drop_while (fun c => negb (is_either c)) rest with
        | _ :: rest2 =>
            let sh := take_while (fun c => negb (is_either c)) rest2 in
            if nonempty h && nonempty sh then Some (h, sh, drop_while (fun c => negb (is_either c)) rest2) else None
        | [] => None
        end
      else None
  | _ => None
  end.
Definition push_step (steps : list jstr) (s : jstr) : list jstr :=
  if bool_decide (s = []) || bool_decide (s = [dot]) then steps
  else if bool_decide (s = [dot; dot]) then List.removelast steps
  else steps ++ [s].
Definition sep_test (sep : jchar) : jchar -> bool := if sep =? backslash then is_either else Z.eqb slash.
Definition steps_of (sep : jchar) (rest : jstr) : list jstr := fold_left push_step (split_on (sep_test sep) rest) [].
(** [None]: a share path with a line break after the share makes the second pattern fail and
    the function throw. *)
Definition parsePath (p : jstr) : option Parsed :=
  if is_drive p then Some {| pr_root := (ascii_upper <$> take 2 p) ++ [backslash]; pr_sep := backslash; pr_steps := steps_of backslash (drop 2 p) |}
  else match share_parts p with
       | Some (h, sh, rest) =>
           if List.existsb is_line_end rest then None
           else Some {| pr_root := [backslash; backslash] ++ h ++ [backslash] ++ sh ++ [backslash]; pr_sep := backslash; pr_steps := steps_of backslash rest |}
       | None => Some {| pr_root := [slash]; pr_sep := slash; pr_steps := steps_of slash p |}
       end.
Definition build (r : Parsed) : jstr := pr_root r ++ join [pr_sep r] (pr_steps r).
Definition norm (p : jstr) : option jstr := r ← parsePath p; Some (build r).
Definition with_steps (r : Parsed) (steps : list jstr) : Parsed := {| pr_root := pr_root r; pr_sep := pr_sep r; pr_steps := steps |}.
(** [join]. *)
Definition join_path (a b : jstr) : option jstr :=
  r ← parsePath a;
  norm (pr_root r ++ join [pr_sep r] (pr_steps r ++ split_on (sep_test (pr_sep r)) b)).
Definition parentOf (p : jstr) : option jstr :=
  r ← parsePath p; Some (match pr_steps r with [] => pr_root r | _ => build (with_steps r (List.removelast (pr_steps r))) end).
Definition baseOf (p : jstr) : option jstr := r ← parsePath p; Some (default (pr_root r) (last (pr_steps r))).
Definition upTo (p : jstr) (n : nat) : option jstr := r ← parsePath p; Some (build (with_steps r (take n (pr_steps r)))).
Definition isRoot (p : jstr) : option bool := r ← parsePath p; Some (match pr_steps r with [] => true | _ => false end).

(** ** Normal form *)

(** A step that reading again leaves alone. *)
Definition clean_step (sep : jchar) (s : jstr) : Prop :=
  s <> [] /\ s <> [dot] /\ s <> [dot; dot] /\ Forall (fun c => sep_test sep c = false) s.
Definition root_ok (root : jstr) (sep : jchar) : Prop :=
  (sep = slash /\ root = [slash]) \/
  (sep = backslash /\ exists l, is_alpha l = true /\ ascii_upper l = l /\ root = [l; colon; backslash]) \/
  (sep = backslash /\ exists h sh, h <> [] /\ sh <> [] /\ Forall (fun c => is_either c = false) h /\ Forall (fun c => is_either c = false) sh /\
     root = [backslash; backslash] ++ h ++ [backslash] ++ sh ++ [backslash]).
(** A parse: its steps are clean, and those of a share have no line break. *)
Record parsed_ok (r : Parsed) : Prop := {
  po_root : root_ok (pr_root r) (pr_sep r);
  po_steps : Forall (clean_step (pr_sep r)) (pr_steps r);
  po_lines : starts_with [backslash; backslash] (pr_root r) = true -> Forall (fun s => List.existsb is_line_end s = false) (pr_steps r) }.
Lemma fold_push_clean sep ws acc : Forall (clean_step sep) ws -> fold_left push_step ws acc = acc ++ ws.
Proof.
  revert acc. induction ws as [|w ws IH]; intros acc H; cbn; [by rewrite app_nil_r|]. apply Forall_cons in H as [(H1 & H2 & H3 & _) H].
  rewrite IH by done. unfold push_step. rewrite !bool_decide_eq_false_2 by done. cbn. by rewrite <- (assoc_L (++)).
Qed.
Lemma removelast_incl {A} (l : list A) x : x ∈ List.removelast l -> x ∈ l.
Proof.
  induction l as [|a [|b l] IH]; intros H; [done | by apply not_elem_of_nil in H |].
  cbn in H. apply elem_of_cons in H as [->|H]; [left | right; auto].
Qed.
Lemma fold_push_ok (P : jstr -> Prop) ws acc :
  Forall P acc -> Forall (fun w => w <> [] -> w <> [dot] -> w <> [dot; dot] -> P w) ws -> Forall P (fold_left push_step ws acc).
Proof.
  revert acc. induction ws as [|w ws IH]; intros acc Ha H; cbn; [done|]. apply Forall_cons in H as [Hw H]. apply IH; [|done]. unfold push_step.
  destruct (bool_decide_reflect (w = [])); [done|]. destruct (bool_decide_reflect (w = [dot])); [done|]. cbn.
  destruct (bool_decide_reflect (w = [dot; dot])).
  - rewrite Forall_forall in Ha |- *. intros x Hx. apply Ha. by apply removelast_incl.
  - apply Forall_app. split; [done|]. by repeat constructor; apply Hw.
Qed.
Lemma steps_of_clean sep rest : Forall (clean_step sep) (steps_of sep rest).
Proof.
  apply fold_push_ok; [constructor|]. eapply Forall_impl; [apply split_on_pieces|]. intros w Hw H1 H2 H3. by repeat split.
Qed.
(** A separator before clean steps, joined, gives them back. *)
Lemma split_joined sep steps : (sep = slash \/ sep = backslash) -> Forall (clean_step sep) steps -> steps <> [] -> split_on (sep_test sep) (join [sep] steps) = steps.
Proof.
  intros Hsep. induction steps as [|s [|s2 r] IH]; intros H Hn; [done | |].
  - apply Forall_cons in H as [(_ & _ & _ & H) _]. by apply split_on_none.
  - apply Forall_cons in H as [(_ & _ & _ & Hs) H]. change (join [sep] (s :: s2 :: r)) with (s ++ sep :: join [sep] (s2 :: r)).
    assert (sep_test sep sep = true) as Ht by (by destruct Hsep as [-> | ->]).
    rewrite split_on_app, IH by done. by rewrite split_on_none.
Qed.
Lemma steps_of_joined sep steps : (sep = slash \/ sep = backslash) -> Forall (clean_step sep) steps -> steps_of sep (sep :: join [sep] steps) = steps.
Proof.
  intros Hsep H. unfold steps_of. cbn. assert (sep_test sep sep = true) as Ht by (by destruct Hsep as [-> | ->]). rewrite Ht. cbn.
  destruct (decide (steps = [])) as [->|Hn]; [done|]. rewrite split_joined by done. by rewrite (fold_push_clean sep).
Qed.

Lemma take_drop_while {A} (P : A -> bool) s : take_while P s ++ drop_while P s = s.
Proof. induction s as [|x s IH]; [done|]. cbn. destruct (P x); cbn; [by rewrite IH | done]. Qed.
Lemma take_while_full {A} (P : A -> bool) s : Forall (fun x => P x = true) (take_while P s).
Proof. induction s as [|x s IH]; [constructor|]. cbn. destruct (P x) eqn:E; [by constructor | constructor]. Qed.
Lemma take_while_stop {A} (P : A -> bool) s c r : Forall (fun x => P x = true) s -> P c = false -> take_while P (s ++ c :: r) = s /\ drop_while P (s ++ c :: r) = c :: r.
Proof. intros H Hc. induction H as [|x s Hx H IH]; cbn; [by rewrite Hc | rewrite Hx; destruct IH as [-> ->]; done]. Qed.
Lemma not_either s : Forall (fun c => negb (is_either c) = true) s <-> Forall (fun c => is_either c = false) s.
Proof. split; intros H; (eapply Forall_impl; [exact H|]); intros c Hc; by apply negb_true_iff in Hc || apply negb_true_iff. Qed.
Lemma existsb_app_false (P : jchar -> bool) a b : List.existsb P (a ++ b) = false <-> List.existsb P a = false /\ List.existsb P b = false.
Proof. rewrite List.existsb_app. by rewrite orb_false_iff. Qed.
Lemma joined_lines steps : Forall (fun s => List.existsb is_line_end s = false) steps -> List.existsb is_line_end (join [backslash] steps) = false.
Proof.
  induction steps as [|s [|s2 r] IH]; intros H; [done | by apply Forall_cons in H as [H _]|].
  apply Forall_cons in H as [Hs H]. change (join [backslash] (s :: s2 :: r)) with (s ++ [backslash] ++ join [backslash] (s2 :: r)).
  apply existsb_app_false. split; [done|]. apply existsb_app_false. split; [done | auto].
Qed.
Lemma steps_lines sep rest : List.existsb is_line_end rest = false -> Forall (fun s => List.existsb is_line_end s = false) (steps_of sep rest).
Proof.
  intros H. apply fold_push_ok; [constructor|]. apply Forall_forall. intros w Hw _ _ _. apply not_true_is_false. intros Hb.
  apply List.existsb_exists in Hb as (c & Hc & Hl). apply list_elem_of_In in Hc. pose proof (split_on_elem _ _ _ _ Hw Hc) as Hin.
  enough (List.existsb is_line_end rest = true) by congruence. apply List.existsb_exists. exists c. by rewrite <- list_elem_of_In.
Qed.
Lemma ascii_upper_idem c : ascii_upper (ascii_upper c) = ascii_upper c.
Proof. unfold ascii_upper, is_lower. destruct ((97 <=? c) && (c <=? 122)) eqn:E; [|by rewrite E]. destruct ((97 <=? c - 32) && _) eqn:E2; [|done]. lia. Qed.
Lemma ascii_upper_letter c : is_alpha c = true -> is_alpha (ascii_upper c) = true.
Proof. unfold is_alpha, ascii_upper, is_upper, is_lower. intros H. destruct ((97 <=? c) && (c <=? 122)) eqn:E; lia. Qed.
Lemma parsePath_ok p r : parsePath p = Some r -> parsed_ok r.
Proof.
  unfold parsePath. destruct (is_drive p) eqn:Ed.
  - intros [= <-]. destruct p as [|l [|c rest]]; [discriminate Ed | discriminate Ed |]. cbn in Ed. apply andb_true_iff in Ed as [[Hl Hc]%andb_true_iff _]. apply Z.eqb_eq in Hc as ->.
    split; cbn -[steps_of]; [|apply steps_of_clean | by rewrite andb_false_r].
    right. left. split; [done|]. exists (ascii_upper l). split; [by apply ascii_upper_letter|]. split; [apply ascii_upper_idem | done].
  - destruct (share_parts p) as [[[h sh] rest]|] eqn:Es; [|intros [= <-]; split; cbn -[steps_of]; [by left | apply steps_of_clean | done]].
    destruct (List.existsb is_line_end rest) eqn:El; [done|]. intros [= <-]. split; cbn -[steps_of]; [|apply steps_of_clean | intros _; by apply steps_lines].
    right. right. split; [done|]. exists h, sh. unfold share_parts in Es. destruct p as [|a [|b p]]; [discriminate Es | discriminate Es |]. destruct (_ && _); [|discriminate Es].
    set (f := fun c => negb (is_either c)) in *. destruct (drop_while f p) as [|x rest2]; [done|].
    destruct (nonempty (take_while f p)) eqn:E1; [|done]. destruct (nonempty (take_while f rest2)) eqn:E2; [|done]. injection Es as <- <- _.
    repeat split; [by intros H; rewrite H in E1 | by intros H; rewrite H in E2 | apply not_either, take_while_full..].
Qed.
Lemma is_drive_backslash s : is_drive (backslash :: s) = false.
Proof. destruct s as [|c s]; reflexivity. Qed.
Lemma is_drive_slash s : is_drive (slash :: s) = false.
Proof. destruct s as [|c s]; reflexivity. Qed.
Lemma share_parts_of h sh rest : h <> [] -> sh <> [] -> Forall (fun c => is_either c = false) h -> Forall (fun c => is_either c = false) sh ->
  share_parts ([backslash; backslash] ++ h ++ [backslash] ++ sh ++ backslash :: rest) = Some (h, sh, backslash :: rest).
Proof.
  intros Hh Hs Fh Fs. cbn [app share_parts]. set (f := fun c => negb (is_either c)).
  destruct (take_while_stop f h backslash (sh ++ backslash :: rest)) as [-> ->]; [by apply not_either | done|].
  destruct (take_while_stop f sh backslash rest) as [-> ->]; [by apply not_either | done|]. by destruct h, sh.
Qed.
Lemma share_parts_slash s : share_parts (slash :: s) = None.
Proof. by destruct s. Qed.
Lemma parse_build r : parsed_ok r -> parsePath (build r) = Some r.
Proof.
  intros [Hroot Hsteps Hl]. destruct r as [root sep steps]. cbn in *. unfold build. cbn.
  destruct Hroot as [(-> & ->) | [(-> & l & Hla & Hlu & ->) | (-> & h & sh & H1 & H2 & H3 & H4 & ->)]].
  - unfold parsePath. cbn [app]. rewrite is_drive_slash, share_parts_slash. do 2 f_equal. apply steps_of_joined; auto.
  - unfold parsePath. cbn [app]. assert (is_drive (l :: colon :: backslash :: join [backslash] steps) = true) as ->.
    { cbn. by rewrite Hla. }
    cbn [take drop fmap list_fmap app]. rewrite Hlu. do 2 f_equal. apply steps_of_joined; auto.
  - unfold parsePath. rewrite <- !(assoc_L (++)). cbn [app]. rewrite is_drive_backslash.
    pose proof (share_parts_of h sh (join [backslash] steps) H1 H2 H3 H4) as E. cbn [app] in E. rewrite E.
    assert (List.existsb is_line_end (backslash :: join [backslash] steps) = false) as -> by (cbn; by apply joined_lines, Hl).
    do 2 f_equal. apply steps_of_joined; auto.
Qed.

(** Paths in all three forms round trip through their normal form: reading a path the
    window built gives back its root, its separator and its steps, so that normalising twice
    changes nothing. *)
Theorem desk_paths_roundtrip p : match parsePath p with
  | Some r => parsePath (build r) = Some r /\ norm (build r) = norm p /\ Forall (clean_step (pr_sep r)) (pr_steps r)
  | None => norm p = None
  end.
Proof.
  destruct (parsePath p) as [r|] eqn:E; [|unfold norm; by rewrite E]. pose proof (parsePath_ok p r E) as Hok.
  pose proof (parse_build r Hok) as Hb. split; [done|]. split; [unfold norm; rewrite Hb, E; done | by apply Hok].
Qed.

(** ** Names *)

(** [validName]; [None] is a good name. *)
Definition invalid_name (name : jstr) : option jstr :=
  if negb (nonempty (trim name)) then Some (js "Name can" ++ [8217] ++ js "t be empty")
  else if List.existsb (fun c => is_either c || (c =? 0)) name then Some (js "A name can" ++ [8217] ++ js "t contain / or \")
  else if bool_decide (name = [dot]) || bool_decide (name = [dot; dot]) then Some ([8220] ++ js "." ++ [8221] ++ js " and " ++ [8220] ++ js ".." ++ [8221] ++ js " are taken; choose another name")
  else if (255 <? length name)%nat then Some (js "A name can be at most 255 characters")
  else if negb (bool_decide (trim name = name)) then Some (js "A name can" ++ [8217] ++ js "t start or end with a space")
  else None.
Lemma valid_name_clean sep name : (sep = slash \/ sep = backslash) -> invalid_name name = None -> clean_step sep name.
Proof.
  unfold invalid_name. intros Hsep. destruct (nonempty (trim name)) eqn:E1; [|done]. cbn [negb].
  destruct (List.existsb _ name) eqn:E2; [done|]. destruct (bool_decide_reflect (name = [dot])); [done|]. destruct (bool_decide_reflect (name = [dot; dot])); [done|].
  intros _. split; [intros ->; discriminate E1|]. split; [done|]. split; [done|]. apply Forall_forall. intros c Hc.
  assert (is_either c || (c =? 0) = false) as Hf.
  { apply not_true_is_false. intros Ht. enough (List.existsb (fun c => is_either c || (c =? 0)) name = true) by congruence.
    apply List.existsb_exists. exists c. by rewrite <- list_elem_of_In. }
  apply orb_false_iff in Hf as [Hf _]. destruct Hsep as [-> | ->]; [|done]. change ((slash =? c) = false). apply orb_false_iff in Hf as [_ Hf]. by rewrite Z.eqb_sym.
Qed.
Lemma root_sep root sep : root_ok root sep -> sep = slash \/ sep = backslash.
Proof. intros [[-> _]|[[-> _]|[-> _]]]; auto. Qed.
Lemma removelast_snoc {A} (l : list A) x : List.removelast (l ++ [x]) = l.
Proof. rewrite List.removelast_app by done. cbn. by rewrite app_nil_r. Qed.

(** A good name made in a folder, and read back from its path: the folder is its parent and the
    name its last step.  In a share the name must have no line break. *)
Theorem made_name_is_child dir name r : parsePath dir = Some r -> invalid_name name = None -> List.existsb is_line_end name = false ->
  exists p, join_path dir name = Some p /\ parentOf p = Some (build r) /\ baseOf p = Some name.
Proof.
  intros E Hn Hl. pose proof (parsePath_ok dir r E) as Hok. pose proof (root_sep _ _ (po_root _ Hok)) as Hsep.
  pose proof (valid_name_clean (pr_sep r) name Hsep Hn) as Hc. set (r' := with_steps r (pr_steps r ++ [name])).
  assert (Hok' : parsed_ok r').
  { destruct Hok as [H1 H2 H3]. split; cbn; [done | apply Forall_app; split; [done | by apply Forall_singleton] |]. intros Hs. apply Forall_app. split; [auto | by apply Forall_singleton]. }
  assert (Hs : split_on (sep_test (pr_sep r)) name = [name]) by (apply split_on_none; apply Hc).
  exists (build r'). unfold join_path. rewrite E. cbn. rewrite Hs. change (pr_root r ++ join [pr_sep r] (pr_steps r ++ [name])) with (build r').
  unfold norm, parentOf, baseOf. rewrite (parse_build r' Hok'). cbn. split; [done|]. split.
  - destruct (pr_steps r ++ [name]) eqn:El; [by destruct (pr_steps r)|]. rewrite <- El, removelast_snoc. by destruct r.
  - by rewrite last_snoc.
Qed.
Lemma made_name_is_child_witness :
  exists p, join_path (js "C:/Users/ann") (js "a.txt") = Some p /\ parentOf p = Some (js "C:\Users\ann") /\ baseOf p = Some (js "a.txt").
Proof.
  destruct (parsePath (js "C:/Users/ann")) as [r|] eqn:E; [|vm_compute in E; discriminate E].
  destruct (made_name_is_child (js "C:/Users/ann") (js "a.txt") r E) as (p & H1 & H2 & H3); [vm_compute; reflexivity | vm_compute; reflexivity |].
  exists p. split; [exact H1|]. split; [|exact H3]. rewrite H2. vm_compute in E. injection E as <-. vm_compute. reflexivity.
Defined.

(** ** Free names *)

(** The pattern of [uniqueName]: the name before its last dot, without line breaks, and the
    rest; [None]: no match. *)
Definition name_parts (name : jstr) : option (jstr * jstr) :=
  let i := default (length name) (last_index_of dot name) in
  if List.existsb is_line_end (take i name) then None else Some (take i name, drop i name).
Definition numbered (m : jstr * jstr) (i : nat) : jstr := m.1 ++ js " (" ++ string_of_Z (Z.of_nat i) ++ js ")" ++ m.2.
Fixpoint unique_loop (fuel i : nat) (m : jstr * jstr) (taken : list jstr) : option jstr :=
  match fuel with
  | O => None
  | S f => if set_has (numbered m i) taken then unique_loop f (S i) m taken else Some (numbered m i)
  end.
(** [uniqueName]: [None] where the pattern does not match; [taken] are the names of the folder. *)
Definition uniqueName (taken : list jstr) (name : jstr) : option jstr := m ← name_parts name; unique_loop (S (length taken)) 1 m taken.

Lemma numbered_inj m i j : numbered m i = numbered m j -> i = j.
Proof.
  unfold numbered. intros H. do 2 apply app_inv_head in H. rewrite !app_assoc in H. do 2 apply app_inv_tail in H. apply string_of_Z_inj in H; lia.
Qed.
Lemma unique_loop_spec fuel i m taken :
  match unique_loop fuel i m taken with
  | Some c => c ∉ taken /\ exists k, c = numbered m (i + k) /\ forall j, (j < k)%nat -> numbered m (i + j) ∈ taken
  | None => forall j, (j < fuel)%nat -> numbered m (i + j) ∈ taken
  end.
Proof.
  revert i. induction fuel as [|f IH]; intros i; cbn [unique_loop]; [intros; lia|]. destruct (set_has (numbered m i) taken) eqn:E.
  - apply set_has_spec in E. specialize (IH (S i)). destruct (unique_loop f (S i) m taken) as [c|].
    + destruct IH as (H1 & k & -> & H2). split; [done|]. exists (S k). split; [f_equal; lia|]. intros [|j] Hj; [by rewrite Nat.add_0_r|].
      replace (i + S j)%nat with (S i + j)%nat by lia. apply H2. lia.
    + intros [|j] Hj; [by rewrite Nat.add_0_r|]. replace (i + S j)%nat with (S i + j)%nat by lia. apply IH. lia.
  - apply set_has_false in E. split; [done|]. exists 0%nat. rewrite Nat.add_0_r. split; [done | intros; lia].
Qed.
(** A name whose stem has no line break always gets a free name, the first free one of the
    numbered sequence. *)
Theorem uniqueName_free taken name m : name_parts name = Some m ->
  exists k, uniqueName taken name = Some (numbered m (1 + k)) /\ numbered m (1 + k) ∉ taken /\ forall j, (j < k)%nat -> numbered m (1 + j) ∈ taken.
Proof.
  intros Hm. unfold uniqueName. rewrite Hm. cbn [mbind option_bind]. pose proof (unique_loop_spec (S (length taken)) 1 m taken) as H.
  destruct (unique_loop (S (length taken)) 1 m taken) as [c|]; [destruct H as (H1 & k & -> & H2); by exists k|]. exfalso.
  set (l := (fun j => numbered m (1 + j)) <$> seq 0 (S (length taken))).
  assert (length l <= length taken)%nat; [|subst l; rewrite length_fmap, length_seq in *; lia].
  apply List.NoDup_incl_length.
  - apply NoDup_ListNoDup. subst l. apply NoDup_fmap_2_strong; [|apply NoDup_seq]. intros ? ? _ _ Hj%numbered_inj. lia.
  - intros x. rewrite <- !list_elem_of_In. subst l. intros Hx. apply list_elem_of_fmap in Hx as (j & -> & Hj). apply H. apply elem_of_seq in Hj. lia.
Qed.

(** ** Kinds and filters *)

Inductive Kind := k_dir | k_pkg | k_video | k_audio | k_image | k_archive | k_text | k_code | k_doc | k_key | k_exec | k_file.
#[global] Instance Kind_eq_dec : EqDecision Kind.
Proof. solve_decision. Defined.
Record Node := { n_name : jstr; n_dir : bool; n_bytes : Z; n_mod : Z; n_perm : jstr; n_path : jstr; n_cc : option Z; n_kids : option (list jstr) }.
Definition EXT : list (Kind * list jstr) :=
  [ (k_pkg, [js "apk"; js "aab"; js "deb"; js "appimage"; js "rpm"; js "msi"; js "dmg"; js "pkg"; js "snap"; js "flatpak"]);
    (k_video, [js "mp4"; js "mov"; js "mkv"; js "avi"; js "webm"; js "m4v"]);
    (k_audio, [js "mp3"; js "flac"; js "wav"; js "ogg"; js "m4a"; js "opus"]);
    (k_image, [js "png"; js "jpg"; js "jpeg"; js "gif"; js "webp"; js "bmp"; js "svg"; js "exr"; js "heic"; js "tif"; js "tiff"]);
    (k_archive, [js "zip"; js "zst"; js "gz"; js "tgz"; js "tar"; js "xz"; js "bz2"; js "7z"; js "rar"]);
    (k_text, [js "md"; js "txt"; js "log"; js "rtf"; js "csv"]);
    (k_code, [js "json"; js "yml"; js "yaml"; js "toml"; js "xml"; js "html"; js "css"; js "js"; js "ts"; js "go"; js "rs"; js "py"; js "sh"; js "java"; js "kt"; js "c"; js "h"; js "cpp"; js "sql"]);
    (k_doc, [js "pdf"; js "doc"; js "docx"; js "odt"; js "xls"; js "xlsx"; js "ppt"; js "pptx"]);
    (k_key, [js "jks"; js "keystore"; js "pem"; js "key"; js "pub"; js "gpg"]) ].
Definition kind_of_ext (ext : jstr) : option Kind := fst <$> List.find (fun r => set_has ext r.2) EXT.
(** [/\.([a-z0-9]+)$/i], lower-cased. *)
Definition ext_of (name : jstr) : option jstr :=
  i ← last_index_of dot name;
  let e := drop (S i) name in
  if nonempty e && List.forallb is_alnum e then Some (ascii_lower <$> e) else None.
(** [/^-..[xs]/] of the permissions; [.] matches no line break. *)
Definition exec_perm (perm : jstr) : bool :=
  match perm with
  | d :: a :: b :: x :: _ => (d =? 45) && negb (is_line_end a) && negb (is_line_end b) && ((x =? 120) || (x =? 115))
  | _ => false
  end.
Definition isExec (n : Node) : bool := negb (n_dir n) && exec_perm (n_perm n) && bool_decide (ext_of (n_name n) ≫= kind_of_ext = None).
Definition kindOf (n : Node) : Kind :=
  if n_dir n then k_dir else match ext_of (n_name n) ≫= kind_of_ext with Some k => k | None => if isExec n then k_exec else k_file end.
Inductive Filter := f_all | f_folders | f_packages | f_media | f_archives | f_big.
Definition FILTERS (f : Filter) (n : Node) : bool :=
  match f with
  | f_all => true
  | f_folders => n_dir n
  | f_packages => bool_decide (kindOf n = k_pkg)
  | f_media => bool_decide (kindOf n = k_video) || bool_decide (kindOf n = k_image) || bool_decide (kindOf n = k_audio)
  | f_archives => bool_decide (kindOf n = k_archive)
  | f_big => negb (n_dir n) && (100000000 <=? n_bytes n)
  end.
Definition perm_bits (s : jstr) : Z :=
  (if bool_decide (s !! 0%nat = Some 114) then 4 else 0) + (if bool_decide (s !! 1%nat = Some 119) then 2 else 0) + (if bool_decide (s !! 2%nat = Some 120) then 1 else 0).
Definition permOctal (p : jstr) : jstr :=
  if (length p <? 10)%nat then js "0644"
  else [48] ++ string_of_Z (perm_bits (take 3 (drop 1 p))) ++ string_of_Z (perm_bits (take 3 (drop 4 p))) ++ string_of_Z (perm_bits (take 3 (drop 7 p))).
Theorem permOctal_four p : length (permOctal p) = 4%nat.
Proof.
  unfold permOctal. destruct (length p <? 10)%nat; [reflexivity|]. rewrite !length_app.
  assert (H : forall s, length (string_of_Z (perm_bits s)) = 1%nat) by (intros s; unfold perm_bits; by repeat destruct (bool_decide _)).
  rewrite !H. reflexivity.
Qed.

(** ** The order of the rows ([view]) *)

Section View.
(** [localeCompare], plain and with numbers by value. *)
Context (localeCompare numericCompare : jstr -> jstr -> Z) (dotsHidden : bool) `{U : Unicode}.
Definition starts_dot (s : jstr) : bool := match s with c :: _ => c =? dot | [] => false end.
Definition itemCount (n : Node) : Z :=
  if negb (n_dir n) then 0
  else
    let base := match n_cc n, n_kids n with Some c, _ => c | None, Some k => Z.of_nat (length k) | None, None => 0 end in
    match n_kids n with Some k => if dotsHidden then base - Z.of_nat (length (List.filter starts_dot k)) else base | None => base end.
Inductive SortKey := by_name | by_size | by_mod | by_kind.
Definition kind_label (k : Kind) : jstr :=
  js (match k with k_dir => "Folder" | k_pkg => "Package" | k_video => "Video" | k_audio => "Audio" | k_image => "Image" | k_archive => "Archive"
              | k_text => "Text" | k_code => "Data" | k_doc => "Document" | k_key => "Key" | k_exec => "Executable" | k_file => "File" end).
Definition row_size (n : Node) : Z := if n_dir n then itemCount n else n_bytes n.
Definition key_cmp (k : SortKey) (a b : Node) : Z :=
  match k with
  | by_name => numericCompare (n_name a) (n_name b)
  | by_size => row_size a - row_size b
  | by_mod => n_mod a - n_mod b
  | by_kind => localeCompare (kind_label (kindOf a)) (kind_label (kindOf b))
  end.
Definition row_cmp (k : SortKey) (descending : bool) (a b : Node) : Z :=
  if negb (eqb (n_dir a) (n_dir b)) then (if n_dir a then -1 else 1)
  else let c := key_cmp k a b * (if descending then -1 else 1) in if c =? 0 then localeCompare (n_name a) (n_name b) else c.
Definition view (items : list Node) (f : Filter) (q : jstr) (k : SortKey) (descending : bool) : list Node :=
  sort_by (row_cmp k descending)
    (List.filter (fun n => negb (nonempty q) || includes (toLowerCase q) (toLowerCase (n_name n))) (List.filter (fun n => n_dir n || FILTERS f n) items)).

Context `{!Comparator localeCompare} `{!Comparator numericCompare}.
Definition dir_first (a b : Node) : Z := (if n_dir a then 0 else 1) - (if n_dir b then 0 else 1).
#[local] Instance key_cmp_comparator k : Comparator (key_cmp k).
Proof.
  destruct k; cbn [key_cmp].
  - apply (Comparator_key n_name numericCompare), _.
  - apply (Comparator_key row_size Z.sub), _.
  - apply (Comparator_key n_mod Z.sub), _.
  - apply (Comparator_key (fun n => kind_label (kindOf n)) localeCompare), _.
Qed.
#[local] Instance signed_comparator k descending : Comparator (fun a b => key_cmp k a b * (if descending : bool then -1 else 1)).
Proof.
  destruct descending.
  - apply (Comparator_sgn _ (fun a b => - key_cmp k a b)); [intros; f_equal; lia | apply _].
  - apply (Comparator_sgn _ (key_cmp k)); [intros; f_equal; lia | apply _].
Qed.
#[local] Instance row_cmp_comparator k descending : Comparator (row_cmp k descending).
Proof.
  apply (Comparator_sgn _ (cmp_then dir_first (cmp_then (fun a b => key_cmp k a b * (if descending then -1 else 1)) (fun a b => localeCompare (n_name a) (n_name b))))).
  - intros a b. unfold row_cmp, cmp_then, dir_first. destruct (n_dir a), (n_dir b); reflexivity.
  - apply @Comparator_then; [apply (Comparator_key (fun n : Node => if n_dir n then 0 else 1) Z.sub), _|].
    apply @Comparator_then; [apply _ | apply (Comparator_key n_name localeCompare), _].
Qed.
(** The rows are the items that pass the filter and the search, folders always passing the
    filter, in the order of the comparison: every folder comes before every file. *)
Theorem view_correct items f q k descending :
  let rows := view items f q k descending in
  (forall n, n ∈ rows <-> n ∈ items /\ (n_dir n || FILTERS f n = true) /\ (q = [] \/ includes (toLowerCase q) (toLowerCase (n_name n)) = true)) /\
  StronglySorted (fun a b => row_cmp k descending a b <= 0) rows /\
  StronglySorted (fun a b => n_dir b = true -> n_dir a = true) rows.
Proof.
  intros rows. assert (Hs : StronglySorted (fun a b => row_cmp k descending a b <= 0) rows) by (apply sort_by_sorted, _). split; [|split; [done|]].
  - intros n. unfold rows, view. rewrite elem_sort_by, !elem_filter_bool. destruct q as [|c q]; cbn [nonempty negb orb]; naive_solver.
  - clear - Hs. induction Hs as [|a l Hs IH H]; constructor; [done|]. eapply Forall_impl; [exact H|]. intros b Hb Hd.
    unfold row_cmp in Hb. rewrite Hd in Hb. by destruct (n_dir a).
Qed.
End View.

(** ** Addresses and fingerprints *)

(** A host without line breaks, then the digits after its last colon. *)
Definition splitAddr (a : jstr) : jstr * Z :=
  match last_index_of colon a with
  | Some i =>
      let port := drop (S i) a in
      if nonempty port && List.forallb is_digit port && negb (List.existsb is_line_end (take i a)) then (take i a, nat_of_digits port) else (a, 7443)
  | None => (a, 7443)
  end.
Inductive Via := Tailscale | LAN | Direct.
Definition octet_between (prefix : string) (lo n : nat) (h : jstr) : bool :=
  List.existsb (fun k => starts_with (js prefix ++ string_of_Z (Z.of_nat k) ++ [dot]) h) (seq lo n).
Definition lower_of (s : jstr) : jstr := ascii_lower <$> s.
Definition viaOf (addr : jstr) : Via :=
  let h := (splitAddr addr).1 in
  if octet_between "100." 64 64 h || ends_with (js ".ts.net") (lower_of h) then Tailscale
  else if starts_with (js "10.") h || starts_with (js "192.168.") h || octet_between "172." 16 16 h || starts_with (js "127.") h || starts_with (js "169.254.") h
          || bool_decide (lower_of h = js "localhost") || ends_with (js ".local") (lower_of h) then LAN
  else Direct.
Definition hex_only (s : jstr) : jstr := List.filter is_hex s.
(** [replace(/(..)(?=.)/g, '$1:')]. *)
Fixpoint with_colons (s : jstr) : jstr :=
  match s with
  | a :: b :: ((_ :: _) as r) => [a; b; colon] ++ with_colons r
  | _ => s
  end.
Definition fmtFp (fp : jstr) : jstr := with_colons (ascii_upper <$> hex_only fp).
Definition rawFp (fp : jstr) : jstr := lower_of (hex_only fp).
Lemma hex_colons s : Forall (fun c => is_hex c = true) s -> hex_only (with_colons s) = s.
Proof.
  revert s. apply (well_founded_induction (Wf_nat.well_founded_ltof _ (@length Z)) (fun s => Forall (fun c => is_hex c = true) s -> hex_only (with_colons s) = s)).
  intros [|a [|b [|c r]]] IH H; [done | | |].
  - apply Forall_cons in H as [Ha _]. cbn. by rewrite Ha.
  - apply Forall_cons in H as [Ha [Hb _]%Forall_cons]. cbn. by rewrite Ha, Hb.
  - apply Forall_cons in H as [Ha [Hb H]%Forall_cons]. change (with_colons (a :: b :: c :: r)) with ([a; b; colon] ++ with_colons (c :: r)).
    unfold hex_only. cbn [app List.filter]. rewrite Ha, Hb. cbn. f_equal. f_equal. apply (IH (c :: r)); [unfold ltof; cbn; lia | done].
Qed.
Lemma hex_only_hex s : Forall (fun c => is_hex c = true) (hex_only s).
Proof. apply Forall_forall. intros c [_ Hc]%elem_filter_bool. done. Qed.
Lemma hex_upper_lower c : is_hex c = true -> is_hex (ascii_upper c) = true /\ ascii_lower (ascii_upper c) = ascii_lower c.
Proof.
  unfold is_hex, is_hex_lower, is_digit, ascii_upper, ascii_lower, is_upper, is_lower. intros H.
  destruct ((97 <=? c) && (c <=? 122)) eqn:E; [|done]. split; [lia|]. repeat case_match; lia.
Qed.
(** A fingerprint as it is shown names the same certificate. *)
Theorem fingerprint_roundtrip fp : rawFp (fmtFp fp) = rawFp fp.
Proof.
  unfold rawFp, fmtFp. pose proof (hex_only_hex fp) as H. set (s := hex_only fp) in *.
  rewrite hex_colons; [|apply Forall_fmap; eapply Forall_impl; [exact H|]; intros c Hc; by apply hex_upper_lower].
  unfold lower_of. rewrite <- list_fmap_compose. apply list_fmap_ext. intros i c Hc. apply hex_upper_lower.
  rewrite Forall_forall in H. apply H. by eapply list_elem_of_lookup_2.
Qed.

(** ** What the core's error texts mean ([toError]) *)

Inductive ErrorCode := c_agent (code : jstr) | c_incompatible | c_unauthorized | c_cert | c_network | c_other.
(** The end of a text that an agent worded: its words, and the code in parentheses. *)
Definition is_code_char (c : jchar) : bool := is_upper c || (c =? 95).
Definition agent_code (raw : jstr) : option jstr :=
  match reverse raw with
  | 41 :: r =>
      let code := reverse (take_while is_code_char r) in
      match drop_while is_code_char r, code with
      | 40 :: _, x :: _ :: _ => if is_upper x then Some code else None
      | _, _ => None
      end
  | _ => None
  end.
Definition mentions (words : list string) (raw : jstr) : bool := List.existsb (fun w => includes (js w) (lower_of raw)) words.
Definition error_code (raw : jstr) : ErrorCode :=
  match agent_code raw with
  | Some code => c_agent code
  | None =>
      if mentions ["too old"] raw then c_incompatible
      else if mentions ["not signed in"; "no longer accepts this login"] raw then c_unauthorized
      else if mentions ["certificate"; "fingerprint"; "pinned"] raw then c_cert
      else if mentions ["did not answer"; "timed out"; "could not connect"; "cannot connect"; "cannot reach"; "connection refused"; "connection reset";
                        "connection closed"; "connection failed"; "connect error"; "network"; "refused"; "unreachable"; "dns"] raw then c_network
      else c_other
  end.
Definition agent_says : jstr := js "The agent says: ".
(** The message: the agent's words without the prefix and without the code at the end. *)
Definition error_message (raw : jstr) : jstr :=
  let s := if starts_with agent_says raw then drop (length agent_says) raw else raw in
  match agent_code s with
  | Some code =>
      let body := take (length s - length code - 2) s in
      match reverse body with 32 :: _ => take (length body - 1) body | _ => s end
  | None => s
  end.
