(* ===== verification/DeskServers.v ===== *)
(** * The connection to a server, in the desktop window

    The servers part of [desktop/ui/engine.js]: connecting, the certificate a person compares,
    signing in, health checks and losing the connection.  One server is a state machine whose
    requests to the core are under way until their answers arrive, in any order.  The core keeps
    the saved fingerprint; a probe tells whether the presented one differs from it.  The dialogs
    of [desktop/ui/fx2.js] show the fingerprint of the moment they are opened; their buttons act
    on the one the server has when they are pressed. *)

From Stdlib Require Import ZArith Lia Bool String.
From Stdlib Require List.
From S2P Require Import Prelude JsCollections JsString Errors DeskPaths.
Local Open Scope js_scope.

#[local] Arguments rawFp : simpl never.
#[local] Arguments fmtFp : simpl never.

Inductive SState := disconnected | connecting | trust_asked | login_asked | online | lost | offline | refused.
#[global] Instance SState_eq_dec : EqDecision SState.
Proof. solve_decision. Defined.
Record Server := {
  s_state : SState; s_msg : jstr; s_pinned : bool; s_fp : jstr; s_pendingFp : option jstr; s_oldFp : option jstr; s_newFp : option jstr;
  s_signedIn : bool; s_saved : bool; s_userOff : bool; s_checking : bool; s_reachable : bool; s_attempts : Z; s_retryIn : Z; s_error : option jstr }.
(** Requests to the core whose answers are awaited. *)
Inductive Asked :=
| AskedProbe                       (** [connect], of a server without a login *)
| AskedCheck (connecting : bool)   (** a health read; [connect] waits for it *)
| AskedCert (connecting : bool)    (** the probe of [flagCert] *)
| AskedLogin (fp : jstr)           (** a sign-in pinned to [fp] *)
| AskedHosts.                      (** the list of saved hosts, after a sign-in *)
#[global] Instance Asked_eq_dec : EqDecision Asked.
Proof. solve_decision. Defined.
(** A dialog that is open: the fingerprint it shows, and those the server presented since it was
    opened. *)
Inductive Dialog := TrustDialog (shown : jstr) (during : list jstr) | ReviewDialog (shown : jstr) (during : list jstr) | SignInDialog (during : list jstr).
(** A press of the button that accepts: what the dialog showed, what was presented while it was
    open, and the fingerprint that was taken. *)
Record Click := { c_shown : jstr; c_during : list jstr; c_taken : jstr }.
(** A sign-in: the fingerprint it is pinned to, and those presented while its dialog was open. *)
Record Login := { l_fp : jstr; l_during : list jstr }.
(** The window and the core: what the core has saved, the sign-ins sent, and the presses that
    accepted a fingerprint. *)
Record Desk := { d_server : Server; d_asked : list Asked; d_dialogs : list Dialog; d_pin : option jstr; d_coreLogin : bool; d_sent : list Login; d_accepted : list Click }.

(** ** Fields of the server *)

Definition upd_state (st : SState) (msg : jstr) (s : Server) : Server :=
  {| s_state := st; s_msg := msg; s_pinned := s_pinned s; s_fp := s_fp s; s_pendingFp := s_pendingFp s; s_oldFp := s_oldFp s; s_newFp := s_newFp s;
     s_signedIn := s_signedIn s; s_saved := s_saved s; s_userOff := s_userOff s; s_checking := s_checking s; s_reachable := s_reachable s;
     s_attempts := if bool_decide (st = online) then 0 else s_attempts s; s_retryIn := s_retryIn s;
     s_error := if bool_decide (st = online) then None else s_error s |}.
Definition setState (st : SState) (msg : jstr) (s : Server) : Server :=
  if bool_decide (s_state s = st) && negb (nonempty msg) then s else upd_state st msg s.
Definition set_fp (fp : jstr) (s : Server) : Server :=
  {| s_state := s_state s; s_msg := s_msg s; s_pinned := s_pinned s; s_fp := fp; s_pendingFp := s_pendingFp s; s_oldFp := s_oldFp s; s_newFp := s_newFp s;
     s_signedIn := s_signedIn s; s_saved := s_saved s; s_userOff := s_userOff s; s_checking := s_checking s; s_reachable := s_reachable s;
     s_attempts := s_attempts s; s_retryIn := s_retryIn s; s_error := s_error s |}.
Definition set_pending (p : option jstr) (s : Server) : Server :=
  {| s_state := s_state s; s_msg := s_msg s; s_pinned := s_pinned s; s_fp := s_fp s; s_pendingFp := p; s_oldFp := s_oldFp s; s_newFp := s_newFp s;
     s_signedIn := s_signedIn s; s_saved := s_saved s; s_userOff := s_userOff s; s_checking := s_checking s; s_reachable := s_reachable s;
     s_attempts := s_attempts s; s_retryIn := s_retryIn s; s_error := s_error s |}.
Definition set_changed (old new : option jstr) (s : Server) : Server :=
  {| s_state := s_state s; s_msg := s_msg s; s_pinned := s_pinned s; s_fp := s_fp s; s_pendingFp := s_pendingFp s; s_oldFp := old; s_newFp := new;
     s_signedIn := s_signedIn s; s_saved := s_saved s; s_userOff := s_userOff s; s_checking := s_checking s; s_reachable := s_reachable s;
     s_attempts := s_attempts s; s_retryIn := s_retryIn s; s_error := s_error s |}.
Definition set_signed (signed : bool) (s : Server) : Server :=
  {| s_state := s_state s; s_msg := s_msg s; s_pinned := s_pinned s; s_fp := s_fp s; s_pendingFp := s_pendingFp s; s_oldFp := s_oldFp s; s_newFp := s_newFp s;
     s_signedIn := signed; s_saved := s_saved s; s_userOff := s_userOff s; s_checking := s_checking s; s_reachable := s_reachable s;
     s_attempts := s_attempts s; s_retryIn := s_retryIn s; s_error := s_error s |}.
Definition set_pinned (pinned saved : bool) (s : Server) : Server :=
  {| s_state := s_state s; s_msg := s_msg s; s_pinned := pinned; s_fp := s_fp s; s_pendingFp := s_pendingFp s; s_oldFp := s_oldFp s; s_newFp := s_newFp s;
     s_signedIn := s_signedIn s; s_saved := saved; s_userOff := s_userOff s; s_checking := s_checking s; s_reachable := s_reachable s;
     s_attempts := s_attempts s; s_retryIn := s_retryIn s; s_error := s_error s |}.
Definition set_off (off : bool) (s : Server) : Server :=
  {| s_state := s_state s; s_msg := s_msg s; s_pinned := s_pinned s; s_fp := s_fp s; s_pendingFp := s_pendingFp s; s_oldFp := s_oldFp s; s_newFp := s_newFp s;
     s_signedIn := s_signedIn s; s_saved := s_saved s; s_userOff := off; s_checking := s_checking s; s_reachable := s_reachable s;
     s_attempts := s_attempts s; s_retryIn := s_retryIn s; s_error := s_error s |}.
Definition set_checking (b : bool) (s : Server) : Server :=
  {| s_state := s_state s; s_msg := s_msg s; s_pinned := s_pinned s; s_fp := s_fp s; s_pendingFp := s_pendingFp s; s_oldFp := s_oldFp s; s_newFp := s_newFp s;
     s_signedIn := s_signedIn s; s_saved := s_saved s; s_userOff := s_userOff s; s_checking := b; s_reachable := s_reachable s;
     s_attempts := s_attempts s; s_retryIn := s_retryIn s; s_error := s_error s |}.
Definition set_link (reachable : bool) (attempts retryIn : Z) (error : option jstr) (s : Server) : Server :=
  {| s_state := s_state s; s_msg := s_msg s; s_pinned := s_pinned s; s_fp := s_fp s; s_pendingFp := s_pendingFp s; s_oldFp := s_oldFp s; s_newFp := s_newFp s;
     s_signedIn := s_signedIn s; s_saved := s_saved s; s_userOff := s_userOff s; s_checking := s_checking s; s_reachable := reachable;
     s_attempts := attempts; s_retryIn := retryIn; s_error := error |}.

(** ** Operations *)

Definition with_server (s : Server) (d : Desk) : Desk :=
  {| d_server := s; d_asked := d_asked d; d_dialogs := d_dialogs d; d_pin := d_pin d; d_coreLogin := d_coreLogin d; d_sent := d_sent d; d_accepted := d_accepted d |}.
Definition ask (a : Asked) (d : Desk) : Desk :=
  {| d_server := d_server d; d_asked := d_asked d ++ [a]; d_dialogs := d_dialogs d; d_pin := d_pin d; d_coreLogin := d_coreLogin d; d_sent := d_sent d; d_accepted := d_accepted d |}.
Definition answered (k : nat) (d : Desk) : Desk :=
  {| d_server := d_server d; d_asked := delete k (d_asked d); d_dialogs := d_dialogs d; d_pin := d_pin d; d_coreLogin := d_coreLogin d; d_sent := d_sent d; d_accepted := d_accepted d |}.
Definition with_dialogs (l : list Dialog) (d : Desk) : Desk :=
  {| d_server := d_server d; d_asked := d_asked d; d_dialogs := l; d_pin := d_pin d; d_coreLogin := d_coreLogin d; d_sent := d_sent d; d_accepted := d_accepted d |}.
Definition accept (c : Click) (d : Desk) : Desk :=
  {| d_server := d_server d; d_asked := d_asked d; d_dialogs := d_dialogs d; d_pin := d_pin d; d_coreLogin := d_coreLogin d; d_sent := d_sent d; d_accepted := d_accepted d ++ [c] |}.

(** [check]: nothing while one is running. *)
Definition check (waited : bool) (d : Desk) : Desk :=
  if s_checking (d_server d) then d else ask (AskedCheck waited) (with_server (set_checking true (d_server d)) d).
(** The fingerprint a sign-in is pinned to: [s.pendingFp || rawFp(s.fp)]. *)
Definition login_fp (s : Server) : jstr := match s_pendingFp s with Some (c :: r) => c :: r | _ => rawFp (s_fp s) end.
Definition connect (d : Desk) : Desk :=
  let s := d_server d in
  if bool_decide (s_state s = connecting) || bool_decide (s_state s = online) || bool_decide (s_state s = trust_asked) then d
  else
    let s1 := setState connecting [] (set_link (s_reachable s) 0 (s_retryIn s) None (set_off false s)) in
    if s_signedIn s1 && s_pinned s1 then
      (* with a check already running the call returns at once, and the state is still connecting *)
      if s_checking s1 then with_server (setState offline [] s1) d else check true (with_server s1 d)
    else ask AskedProbe (with_server s1 d).
(** The rest of [connect] once the probe has answered. *)
Record Probe := { p_fingerprint : jstr }.
(** The core compares what was presented with what it has saved. *)
Definition changed (d : Desk) (p : Probe) : bool := match d_pin d with Some f => negb (bool_decide (f = rawFp (p_fingerprint p))) | None => false end.
Definition probe_ok (d : Desk) (p : Probe) : Desk :=
  let s := d_server d in
  let s1 := set_link true (s_attempts s) (s_retryIn s) (s_error s) s in
  if changed d p then with_server (setState refused [] (set_changed (Some (s_fp s1)) (Some (fmtFp (p_fingerprint p))) s1)) d
  else
    let s2 := set_pending (Some (rawFp (p_fingerprint p))) s1 in
    if s_pinned s2 && bool_decide (rawFp (s_fp s2) = rawFp (p_fingerprint p)) then with_server (setState login_asked [] s2) d
    else with_server (setState trust_asked [] (set_fp (fmtFp (p_fingerprint p)) s2)) d.
Definition probe_failed (d : Desk) (message : jstr) : Desk :=
  let s := d_server d in with_server (setState offline message (set_link false (s_attempts s) (s_retryIn s) (Some message) s)) d.
(** [trust], pressed in a dialog that shows [shown]. *)
Definition trust (shown : jstr) (during : list jstr) (d : Desk) : Desk :=
  let s := d_server d in
  if bool_decide (s_state s = trust_asked) then accept {| c_shown := rawFp shown; c_during := during; c_taken := rawFp (s_fp s) |} (with_server (setState login_asked [] (set_pending (Some (rawFp (s_fp s))) s)) d) else d.
Definition cancelConnect (d : Desk) : Desk :=
  let s := d_server d in
  if bool_decide (s_state s = connecting) || bool_decide (s_state s = trust_asked) || bool_decide (s_state s = login_asked)
  then with_server (setState disconnected [] (set_off true s)) d else d.
Definition disconnect (d : Desk) : Desk :=
  let s := d_server d in if bool_decide (s_state s = disconnected) then d else with_server (setState disconnected [] (set_off true s)) d.
Definition retryNow (d : Desk) : Desk :=
  let s := set_off false (d_server d) in
  match s_state s with
  | lost => check false (with_server (setState connecting [] (set_link (s_reachable s) (s_attempts s + 1) (s_retryIn s) (s_error s) s)) d)
  | offline | disconnected => connect (with_server s d)
  | _ => with_server s d
  end.
(** [reverify], pressed in a dialog that shows [shown]. *)
Definition reverify (shown : jstr) (during : list jstr) (d : Desk) : Desk :=
  let s := d_server d in
  if bool_decide (s_state s = refused) then
    let fp := default [] (s_newFp s) in
    accept {| c_shown := rawFp shown; c_during := during; c_taken := rawFp fp |} (with_server (setState login_asked [] (set_signed false (set_changed None None (set_pending (Some (rawFp fp)) (set_fp fp s))))) d)
  else d.

(** ** Answers of the core *)

(** The end of [check], and of the [connect] that waited for it. *)
Definition check_done (waited : bool) (d : Desk) : Desk :=
  let s := set_checking false (d_server d) in
  with_server (if waited && bool_decide (s_state s = connecting) then setState offline [] s else s) d.
Definition check_ok (waited : bool) (d : Desk) : Desk :=
  let s := d_server d in
  check_done waited (if s_userOff s then d
                     else with_server (setState online [] (set_signed true (set_link true (s_attempts s) (s_retryIn s) (s_error s) s))) d).
Definition check_failed (waited : bool) (code : ErrorCode) (message : jstr) (d : Desk) : Desk :=
  let s := d_server d in
  if s_userOff s then check_done waited d
  else
    let s1 := set_link (s_reachable s) (s_attempts s) (s_retryIn s) (Some message) s in
    match code with
    | c_unauthorized => check_done waited (with_server (setState login_asked message (set_signed false s1)) d)
    | c_cert => ask (AskedCert waited) (with_server s1 d)
    | _ =>
        match s_state s with
        | online => check_done waited (with_server (setState lost message (set_link (s_reachable s1) 0 8 (s_error s1) s1)) d)
        | lost => check_done waited (with_server s1 d)
        | _ => check_done waited (with_server (setState offline message (set_link false (s_attempts s1) (s_retryIn s1) (s_error s1) s1)) d)
        end
    end.
Definition cert_answered (waited : bool) (answer : option Probe) (d : Desk) : Desk :=
  let s := d_server d in
  check_done waited
    match answer with
    | None => d
    | Some p => with_server (if changed d p then setState refused [] (set_changed (Some (s_fp s)) (Some (fmtFp (p_fingerprint p))) s)
                             else setState lost (js "The connection failed") s) d
    end.
(** [afterSignIn], up to the list of hosts it asks for; the core has saved the fingerprint. *)
Definition shown_fp (f : jstr) (s : Server) : jstr := if nonempty (fmtFp f) then fmtFp f else s_fp s.
Definition login_ok (fp : jstr) (d : Desk) : Desk :=
  let s := d_server d in
  let s1 := set_pending None (set_fp (shown_fp fp s) (set_pinned true true (set_signed true (set_link (s_reachable s) (s_attempts s) (s_retryIn s) None s)))) in
  ask AskedHosts {| d_server := setState connecting [] s1; d_asked := d_asked d; d_dialogs := d_dialogs d; d_pin := Some fp; d_coreLogin := true; d_sent := d_sent d; d_accepted := d_accepted d |}.
(** The server's row of [loadServers]. *)
Definition host_listed (d : Desk) : Desk :=
  match d_pin d with
  | None => d
  | Some f =>
      let s := set_signed (d_coreLogin d) (set_fp (shown_fp f (d_server d)) (set_pinned (nonempty f) true (d_server d))) in
      with_server (if negb (s_signedIn s) && bool_decide (s_state s = online) then setState disconnected [] s else s) d
  end.
Definition signOut (d : Desk) : Desk :=
  let s := setState disconnected [] (set_off false (set_signed false (d_server d))) in
  host_listed {| d_server := s; d_asked := d_asked d; d_dialogs := d_dialogs d; d_pin := d_pin d; d_coreLogin := false; d_sent := d_sent d; d_accepted := d_accepted d |}.
(** [signIn], [signInWithCode] and [requestApproval] all pin the same fingerprint. *)
Definition sign_in (during : list jstr) (d : Desk) : Desk :=
  let fp := login_fp (d_server d) in
  {| d_server := d_server d; d_asked := d_asked d ++ [AskedLogin fp]; d_dialogs := d_dialogs d; d_pin := d_pin d; d_coreLogin := d_coreLogin d;
     d_sent := d_sent d ++ [{| l_fp := fp; l_during := during |}]; d_accepted := d_accepted d |}.

(** ** The dialogs *)

(** [trustDialog] is opened by a timer or a button, in whatever state; [reverifyDialog] of a
    refused server only. *)
Definition trustDialog (d : Desk) : Desk := with_dialogs (d_dialogs d ++ [TrustDialog (s_fp (d_server d)) []]) d.
Definition reverifyDialog (d : Desk) : Desk :=
  if bool_decide (s_state (d_server d) = refused) then with_dialogs (d_dialogs d ++ [ReviewDialog (default [] (s_newFp (d_server d))) []]) d else d.
Definition signInDialog (d : Desk) : Desk := with_dialogs (d_dialogs d ++ [SignInDialog []]) d.
Definition close_dialog (k : nat) (d : Desk) : Desk := with_dialogs (delete k (d_dialogs d)) d.
Definition saw (fp : jstr) (dl : Dialog) : Dialog :=
  match dl with
  | TrustDialog shown during => TrustDialog shown (during ++ [fp])
  | ReviewDialog shown during => ReviewDialog shown (during ++ [fp])
  | SignInDialog during => SignInDialog (during ++ [fp])
  end.
(** The server presented a certificate while the dialogs were open. *)
Definition presented (p : Probe) (d : Desk) : Desk := with_dialogs (saw (rawFp (p_fingerprint p)) <$> d_dialogs d) d.
(** Six seconds of the clock. *)
Definition tick (autoReconnect : bool) (d : Desk) : Desk :=
  let s := d_server d in
  if s_userOff s || negb (s_signedIn s) then d
  else match s_state s with
       | online | connecting => check false d
       | lost =>
           if autoReconnect then
             let s1 := set_link (s_reachable s) (s_attempts s) (s_retryIn s - 6) (s_error s) s in
             if s_retryIn s1 <=? 0 then check false (with_server (set_link (s_reachable s1) (s_attempts s1 + 1) 8 (s_error s1) s1) d) else with_server s1 d
           else d
       | offline => if autoReconnect then check false d else d
       | _ => d
       end.

Inductive DeskEvent :=
| Connect | CancelConnect | Disconnect | RetryNow | SignOut | Tick (autoReconnect : bool)
| OpenTrust | OpenReview | OpenSignIn | Close (k : nat) | PressTrust (k : nat) | PressReview (k : nat) | PressSignIn (k : nat)
| Answer (k : nat) (a : CoreAnswer)
with CoreAnswer := Probed (p : Probe) | Healthy | SignedIn | Hosts | Failed (code : ErrorCode) (message : jstr).
(** The [k]-th request under way is answered; an answer of another kind is none. *)
Definition answer (k : nat) (a : CoreAnswer) (d : Desk) : Desk :=
  match d_asked d !! k with
  | None => d
  | Some q =>
      let d1 := answered k d in
      match q, a with
      | AskedProbe, Probed p => probe_ok (presented p d1) p
      | AskedProbe, Failed _ m => probe_failed d1 m
      | AskedCheck w, Healthy => check_ok w d1
      | AskedCheck w, Failed c m => check_failed w c m d1
      | AskedCert w, Probed p => cert_answered w (Some p) (presented p d1)
      | AskedCert w, Failed _ _ => cert_answered w None d1
      | AskedLogin fp, SignedIn => if nonempty fp then login_ok fp d1 else d1
      | AskedLogin _, Failed _ _ => d1
      | AskedHosts, Hosts => check false (host_listed d1)
      | AskedHosts, Failed _ _ => check false d1
      | _, _ => d
      end
  end.
Definition desk_step (d : Desk) (e : DeskEvent) : Desk :=
  match e with
  | Connect => connect d
  | CancelConnect => cancelConnect d
  | Disconnect => disconnect d
  | RetryNow => retryNow d
  | SignOut => signOut d
  | Tick auto => tick auto d
  | OpenTrust => trustDialog d
  | OpenReview => reverifyDialog d
  | OpenSignIn => signInDialog d
  | Close k => close_dialog k d
  | PressTrust k => match d_dialogs d !! k with Some (TrustDialog shown during) => trust shown during (close_dialog k d) | _ => d end
  | PressReview k => match d_dialogs d !! k with Some (ReviewDialog shown during) => reverify shown during (close_dialog k d) | _ => d end
  | PressSignIn k => match d_dialogs d !! k with Some (SignInDialog during) => sign_in during d | _ => d end
  | Answer k a => answer k a d
  end.
Definition desk_run (d : Desk) (es : list DeskEvent) : Desk := fold_left desk_step es d.

(** ** The password goes only where the person looked *)

(** The fingerprint was accepted where it was shown, or presented while the dialog stood open. *)
Definition admitted (d : Desk) (f : jstr) : Prop :=
  (exists c, c ∈ d_accepted d /\ c_taken c = f /\ (c_shown c = f \/ f ∈ c_during c)) \/
  (exists q, q ∈ d_sent d /\ l_fp q = f /\ f ∈ l_during q).
Definition pinned_ask (d : Desk) (q : Asked) : Prop :=
  match q with
  | AskedCheck _ | AskedCert _ | AskedHosts => s_pinned (d_server d) = true
  | AskedLogin f => admitted d f /\ rawFp f = f
  | AskedProbe => True
  end.
Definition dialog_ok (d : Desk) (dl : Dialog) : Prop :=
  let s := d_server d in
  match dl with
  | TrustDialog shown during => s_state s = trust_asked -> rawFp (s_fp s) = rawFp shown \/ rawFp (s_fp s) ∈ during \/ admitted d (rawFp (s_fp s))
  | ReviewDialog shown during => s_state s = refused -> rawFp (default [] (s_newFp s)) = rawFp shown \/ rawFp (default [] (s_newFp s)) ∈ during
  | SignInDialog during => admitted d (login_fp s) \/ login_fp s ∈ during
  end.
Record Inv (d : Desk) : Prop := {
  i_pin : forall f, d_pin d = Some f -> admitted d f /\ rawFp f = f /\ f <> [];
  i_pinned : s_pinned (d_server d) = true <-> is_Some (d_pin d);
  i_fp : s_pinned (d_server d) = true -> admitted d (rawFp (s_fp (d_server d)));
  i_pending : forall x, s_pendingFp (d_server d) = Some x -> rawFp x = x /\ (s_pinned (d_server d) = true -> x <> [] -> admitted d x);
  i_login : s_state (d_server d) = login_asked -> admitted d (login_fp (d_server d));
  i_signed : s_signedIn (d_server d) = true -> s_pinned (d_server d) = true;
  i_live : s_state (d_server d) = online \/ s_state (d_server d) = lost -> s_pinned (d_server d) = true;
  i_asked : Forall (pinned_ask d) (d_asked d);
  i_dialogs : Forall (dialog_ok d) (d_dialogs d);
  i_sent : Forall (fun q => admitted d (l_fp q)) (d_sent d) }.
(** What was admitted stays so. *)
Definition knows_more (d d' : Desk) : Prop := (forall c, c ∈ d_accepted d -> c ∈ d_accepted d') /\ (forall q, q ∈ d_sent d -> q ∈ d_sent d').
Lemma admitted_more d d' f : knows_more d d' -> admitted d f -> admitted d' f.
Proof. intros [H1 H2] [(c & Hc & H)|(q & Hq & H)]; [left; exists c | right; exists q]; auto. Qed.
Lemma login_raw s : (forall x, s_pendingFp s = Some x -> rawFp x = x) -> rawFp (rawFp (s_fp s)) = rawFp (s_fp s) -> rawFp (login_fp s) = login_fp s.
Proof. intros H1 H2. unfold login_fp. destruct (s_pendingFp s) as [[|c r]|] eqn:E; auto. Qed.
Lemma rawFp_idem fp : rawFp (rawFp fp) = rawFp fp.
Proof.
  assert (H : forall s, Forall (fun c => is_hex c = true) s -> hex_only (lower_of s) = lower_of s /\ lower_of (lower_of s) = lower_of s).
  { induction 1 as [|c s Hc _ [IH1 IH2]]; [done|]. unfold lower_of in *. cbn.
    assert (is_hex (ascii_lower c) = true /\ ascii_lower (ascii_lower c) = ascii_lower c) as [-> ->].
    { unfold is_hex, is_hex_lower, is_digit, ascii_lower, is_upper in *. destruct ((65 <=? c) && (c <=? 90)) eqn:E; [|by rewrite E]. split; [lia|]. destruct ((65 <=? c + 32) && _) eqn:E2; lia. }
    unfold hex_only in IH1. by rewrite IH1, IH2. }
  unfold rawFp. destruct (H (hex_only fp) (hex_only_hex fp)) as [-> ->]. done.
Qed.
Lemma pinned_login d : Inv d -> s_pinned (d_server d) = true -> admitted d (login_fp (d_server d)).
Proof.
  intros H Hp. unfold login_fp. destruct (s_pendingFp (d_server d)) as [[|c r]|] eqn:E; [by apply i_fp | | by apply i_fp].
  destruct (i_pending d H _ E) as [_ Hx]. by apply Hx.
Qed.
(** Changes that leave the fingerprints alone. *)
Definition same_keys (s s' : Server) : Prop := s_pinned s' = s_pinned s /\ s_fp s' = s_fp s /\ s_pendingFp s' = s_pendingFp s.
Lemma same_login s s' : same_keys s s' -> login_fp s' = login_fp s.
Proof. intros (_ & Ef & Eq). unfold login_fp. by rewrite Ef, Eq. Qed.
Lemma inv_server d s' : Inv d -> same_keys (d_server d) s' ->
  (s_signedIn s' = true -> s_pinned (d_server d) = true) ->
  (s_state s' = login_asked -> s_pinned (d_server d) = true \/ s_state (d_server d) = login_asked) ->
  (s_state s' = online \/ s_state s' = lost -> s_pinned (d_server d) = true) ->
  (s_state s' = trust_asked -> s_state (d_server d) = trust_asked) ->
  (s_state s' = refused -> s_state (d_server d) = refused /\ s_newFp s' = s_newFp (d_server d)) -> Inv (with_server s' d).
Proof.
  intros H Hk Hs Hl Hv Ht Hr. pose proof (pinned_login d H) as Hpl. pose proof (same_login _ _ Hk) as El. destruct Hk as (Ep & Ef & Eq). destruct H as [H1 H2 H3 H4 H5 H6 H7 H8 H9 H10].
  split; cbn; rewrite ?Ep, ?Ef, ?Eq; auto.
  - intros Hst. rewrite El. destruct (Hl Hst); [by apply Hpl | by apply H5].
  - eapply Forall_impl; [exact H8|]. intros []; cbn; by rewrite ?Ep.
  - eapply Forall_impl; [exact H9|]. intros []; cbn; rewrite ?Ef, ?El; auto. intros Hd Hst. destruct (Hr Hst) as [? ->]. auto.
Qed.
Lemma inv_ask d q : Inv d -> pinned_ask d q -> Inv (ask q d).
Proof. intros [] Hq. split; cbn; auto. apply Forall_app. split; [done | by apply Forall_singleton]. Qed.
Lemma inv_answered d k : Inv d -> Inv (answered k d).
Proof. intros []. split; cbn; auto. by apply Forall_delete. Qed.
Lemma inv_dialogs d l : Inv d -> Forall (dialog_ok d) l -> Inv (with_dialogs l d).
Proof. intros [] Hq. split; cbn; auto. Qed.
Lemma setState_spec st m s : same_keys s (setState st m s) /\ s_state (setState st m s) = st /\ s_signedIn (setState st m s) = s_signedIn s /\ s_newFp (setState st m s) = s_newFp s.
Proof.
  unfold setState, same_keys. destruct (bool_decide_reflect (s_state s = st)) as [E|E]; cbn [andb]; [|done]. destruct (negb (nonempty m)); [done|]. done.
Qed.
Lemma inv_check d w : Inv d -> s_pinned (d_server d) = true -> Inv (check w d).
Proof.
  intros H Hp. unfold check. destruct (s_checking (d_server d)); [done|].
  assert (H' : Inv (with_server (set_checking true (d_server d)) d)) by (apply inv_server; [done | done | by cbn | cbn; auto ..]).
  by apply inv_ask.
Qed.
Lemma keys_trans s1 s2 s3 : same_keys s1 s2 -> same_keys s2 s3 -> same_keys s1 s3.
Proof. intros (? & ? & ?) (? & ? & ?). repeat split; congruence. Qed.
(** A move to a state in which no fingerprint is compared. *)
Lemma inv_to d st m s' : Inv d -> same_keys (d_server d) s' -> (s_signedIn s' = true -> s_pinned (d_server d) = true) ->
  st <> trust_asked -> st <> refused ->
  (st = login_asked \/ st = online \/ st = lost -> s_pinned (d_server d) = true) -> Inv (with_server (setState st m s') d).
Proof.
  intros H Hk Hs Ht Hr Hst. destruct (setState_spec st m s') as (Hk2 & E1 & E2 & _).
  apply inv_server; rewrite ?E1, ?E2; [done | by eapply keys_trans | done | auto | intros [?|?]; auto | done | done].
Qed.
Ltac no_ask := intros [?|[?|?]]; done.
Lemma inv_connect d : Inv d -> Inv (connect d).
Proof.
  intros H. unfold connect. set (s := d_server d). destruct (_ || _ || _); [done|]. set (s0 := set_link _ _ _ _ _). set (s1 := setState connecting [] s0).
  assert (Hs1 : Inv (with_server s1 d)) by (apply inv_to; [done | done | apply (i_signed d H) | done | done | no_ask]).
  destruct (setState_spec connecting [] s0) as (Hk & Est & Esg & _). fold s1 in Hk, Est, Esg.
  destruct (s_signedIn s1 && s_pinned s1) eqn:E.
  - apply andb_true_iff in E as [_ Ep]. destruct (s_checking s1); [|by apply inv_check].
    apply (inv_to d offline [] s1); [done | by destruct Hk as (? & ? & ?) | rewrite Esg; apply (i_signed d H) | done | done | no_ask].
  - by apply inv_ask.
Qed.
Lemma inv_check_done d w : Inv d -> Inv (check_done w d).
Proof.
  intros H. unfold check_done. set (s := set_checking false (d_server d)). destruct (w && _).
  - apply inv_to; [done | done | apply (i_signed d H) | done | done | no_ask].
  - apply inv_server; [done | done | apply (i_signed d H) | by right | apply (i_live d H) | done | done].
Qed.
(** Every open dialog has seen the fingerprint. *)
Definition has_seen (x : jstr) (dl : Dialog) : Prop :=
  match dl with TrustDialog _ during | ReviewDialog _ during | SignInDialog during => x ∈ during end.
Lemma elem_last {A} (x : A) l : x ∈ l ++ [x].
Proof. apply elem_of_app. right. left. Qed.
Lemma inv_presented d p : Inv d -> Inv (presented p d) /\ Forall (has_seen (rawFp (p_fingerprint p))) (d_dialogs (presented p d)).
Proof.
  intros H. split.
  - apply inv_dialogs; [done|]. apply Forall_fmap. eapply Forall_impl; [exact (i_dialogs d H)|].
    intros []; cbn; rewrite !elem_of_app; naive_solver.
  - cbn. apply Forall_fmap, Forall_forall. intros [] _; apply elem_last.
Qed.
Lemma dialogs_seen d x : Forall (has_seen x) (d_dialogs d) -> (s_state (d_server d) = trust_asked -> rawFp (s_fp (d_server d)) = x) ->
  (s_state (d_server d) = refused -> rawFp (default [] (s_newFp (d_server d))) = x) ->
  login_fp (d_server d) = x \/ admitted d (login_fp (d_server d)) -> Forall (dialog_ok d) (d_dialogs d).
Proof.
  intros H Ht Hr Hl. eapply Forall_impl; [exact H|]. intros []; cbn; intros Hx; [intros E; rewrite (Ht E); auto | intros E; rewrite (Hr E); auto |].
  destruct Hl as [->|?]; auto.
Qed.
(** The server presented another certificate than the saved one. *)
Lemma inv_refused d p s' : Inv d -> Forall (has_seen (rawFp (p_fingerprint p))) (d_dialogs d) -> changed d p = true ->
  same_keys (d_server d) s' -> s_signedIn s' = s_signedIn (d_server d) -> s_newFp s' = Some (fmtFp (p_fingerprint p)) -> Inv (with_server (setState refused [] s') d).
Proof.
  intros H Hx Hc Hk Hs Hn. assert (Hp : s_pinned (d_server d) = true).
  { apply (i_pinned d H). unfold changed in Hc. by destruct (d_pin d). }
  destruct (setState_spec refused [] s') as (Hk2 & E1 & E2 & E3). pose proof (keys_trans _ _ _ Hk Hk2) as Hk3. pose proof (same_login _ _ Hk3) as El.
  pose proof (pinned_login d H Hp) as Hpl. destruct Hk3 as (Ep & Ef & Eq). destruct H as [H1 H2 H3 H4 H5 H6 H7 H8 H9 H10].
  split; cbn; rewrite ?Ep, ?Ef, ?Eq, ?E1, ?E2, ?Hs; auto; try done.
  - eapply Forall_impl; [exact H8|]. intros []; cbn; by rewrite ?Ep.
  - apply (dialogs_seen (with_server (setState refused [] s') d) (rawFp (p_fingerprint p))); cbn; rewrite ?E1, ?E3, ?Hn, ?El; auto; [done|].
    intros _. cbn. apply fingerprint_roundtrip.
Qed.
Ltac finish_keys := try (intros ? [= <-]; split; [apply rawFp_idem | done]); try (intros [?|?]; done); try done.
Lemma inv_probe_ok d p : Inv d -> Forall (has_seen (rawFp (p_fingerprint p))) (d_dialogs d) -> Inv (probe_ok d p).
Proof.
  intros H Hseen. unfold probe_ok. set (s := d_server d). set (s1 := set_link true _ _ _ s). set (x := rawFp (p_fingerprint p)) in *.
  destruct (changed d p) eqn:Ec; [by eapply inv_refused|].
  assert (Htrust : (s_pinned s = true -> admitted d x) -> Inv (with_server (setState trust_asked [] (set_fp (fmtFp (p_fingerprint p)) (set_pending (Some x) s1))) d)).
  { intros Hadm. destruct (setState_spec trust_asked [] (set_fp (fmtFp (p_fingerprint p)) (set_pending (Some x) s1))) as ((K1 & K2 & K3) & K4 & K5 & _). cbn in K1, K2, K3, K5.
    set (s' := setState trust_asked [] _) in *.
    assert (El : login_fp s' = x). { unfold login_fp. rewrite K3, K2, fingerprint_roundtrip. fold x. generalize x. by intros []. }
    destruct H as [H1 H2 H3 H4 H5 H6 H7 H8 H9 H10]. split; cbn; rewrite ?K1, ?K2, ?K3, ?K4, ?K5; auto; try (intros [?|?]; done); try done.
    - intros Hp. rewrite fingerprint_roundtrip. by apply Hadm.
    - intros y [= <-]. split; [apply rawFp_idem | auto].
    - eapply Forall_impl; [exact H8|]. intros []; cbn; by rewrite ?K1.
    - apply (dialogs_seen (with_server s' d) x); cbn; [done | by rewrite K2, fingerprint_roundtrip | by rewrite K4 | by left]. }
  destruct (_ && _) eqn:E2; [|apply Htrust; intros Hp].
  - cbn in E2. apply andb_true_iff in E2 as [Hp E2]. apply bool_decide_eq_true in E2.
    destruct (setState_spec login_asked [] (set_pending (Some x) s1)) as ((K1 & K2 & K3) & K4 & K5 & _). cbn in K1, K2, K3, K5. set (s' := setState login_asked [] _) in *.
    assert (Hadm : admitted d x) by (rewrite <- E2; by apply (i_fp d H)).
    assert (El : login_fp s' = x). { unfold login_fp. rewrite K3, K2, E2. fold x. generalize x. by intros []. }
    destruct H as [H1 H2 H3 H4 H5 H6 H7 H8 H9 H10].
    split; cbn; rewrite ?K1, ?K2, ?K3, ?K4, ?K5, ?El; auto; finish_keys.
    + eapply Forall_impl; [exact H8|]. intros []; cbn; by rewrite ?K1.
    + apply (dialogs_seen (with_server s' d) x); cbn; [done | by rewrite K4 | by rewrite K4 | by left].
  - unfold changed in Ec. destruct (proj1 (i_pinned d H) Hp) as [f Ef]. rewrite Ef in Ec. apply negb_false_iff, bool_decide_eq_true in Ec.
    fold x in Ec. subst f. by apply (i_pin d H).
Qed.
(** Nothing is forgotten by what is only added to the presses and the sign-ins. *)
Lemma dialogs_more d d' : knows_more d d' -> d_server d' = d_server d -> Forall (dialog_ok d) (d_dialogs d) -> Forall (dialog_ok d') (d_dialogs d).
Proof.
  intros Hm Es H. eapply Forall_impl; [exact H|]. intros []; cbn; rewrite Es; auto.
  - intros Hd Hst. destruct (Hd Hst) as [?|[?|?]]; eauto using admitted_more.
  - intros [?|?]; eauto using admitted_more.
Qed.
Lemma inv_more d d' : Inv d -> knows_more d d' -> d_server d' = d_server d -> d_pin d' = d_pin d -> d_dialogs d' = d_dialogs d ->
  Forall (pinned_ask d') (d_asked d') -> Forall (fun q => admitted d' (l_fp q)) (d_sent d') -> Inv d'.
Proof.
  intros [H1 H2 H3 H4 H5 H6 H7 H8 H9 H10] Hm Es Ep Ed Ha Hs. split; rewrite ?Es, ?Ep, ?Ed; auto.
  - intros f Hf. destruct (H1 f Hf) as (? & ? & ?). eauto using admitted_more.
  - eauto using admitted_more.
  - intros x Hx. destruct (H4 x Hx) as [? Hy]. split; [done|]. eauto using admitted_more.
  - eauto using admitted_more.
  - by eapply dialogs_more.
Qed.
Lemma asks_more d d' : knows_more d d' -> d_server d' = d_server d -> Forall (pinned_ask d) (d_asked d) -> Forall (pinned_ask d') (d_asked d).
Proof. intros Hm Es H. eapply Forall_impl; [exact H|]. intros []; cbn; rewrite ?Es; auto. intros [? ?]. eauto using admitted_more. Qed.
Lemma sent_more d d' : knows_more d d' -> Forall (fun q => admitted d (l_fp q)) (d_sent d) -> Forall (fun q => admitted d' (l_fp q)) (d_sent d).
Proof. intros Hm H. eapply Forall_impl; [exact H|]. intros q Hq. by eapply admitted_more. Qed.
Lemma knows_accept c d : knows_more d (accept c d).
Proof. split; [|done]. intros x Hx. cbn. apply elem_of_app. by left. Qed.
Lemma inv_accept d c : Inv d -> Inv (accept c d).
Proof.
  intros H. pose proof (knows_accept c d) as Hm.
  apply (inv_more d); [done.. | apply (asks_more d); [done | done | apply (i_asked d H)] | apply (sent_more d); [done | apply (i_sent d H)]].
Qed.
(** A server set to a fingerprint that was just accepted. *)
Lemma inv_accepted d fp c s' : Inv d -> s_pinned s' = s_pinned (d_server d) -> s_fp s' = fp -> s_pendingFp s' = Some (rawFp fp) ->
  (s_signedIn s' = true -> s_pinned (d_server d) = true) -> s_state s' = login_asked ->
  admitted (accept c d) (rawFp fp) -> Inv (accept c (with_server s' d)).
Proof.
  intros H E1 E2 E3 E4 E5 Hadm. pose proof (inv_accept d c H) as [H1 H2 H3 H4 H5 H6 H7 H8 H9 H10].
  assert (El : login_fp s' = rawFp fp). { unfold login_fp. rewrite E3, E2. by destruct (rawFp fp). }
  split; cbn in *; rewrite ?E1, ?E2, ?E3, ?E5, ?El; auto.
  - intros x [= <-]. split; [apply rawFp_idem | done].
  - intros [?|?]; done.
  - eapply Forall_impl; [exact H8|]. intros []; cbn; by rewrite ?E1.
  - eapply Forall_impl; [exact H9|]. intros []; cbn; rewrite ?E5; try done. intros _. left. rewrite El. exact Hadm.
Qed.
Lemma admitted_click c d f : c_taken c = f -> c_shown c = f \/ f ∈ c_during c -> admitted (accept c d) f.
Proof. intros Ht H. left. exists c. split; [apply elem_last | done]. Qed.
Lemma inv_trust shown during d : Inv d -> dialog_ok d (TrustDialog shown during) -> Inv (trust shown during d).
Proof.
  intros H Hd. unfold trust. destruct (bool_decide_reflect (s_state (d_server d) = trust_asked)) as [E|]; [|done].
  destruct (setState_spec login_asked [] (set_pending (Some (rawFp (s_fp (d_server d)))) (d_server d))) as ((K1 & K2 & K3) & K4 & K5 & _).
  eapply inv_accepted; eauto; [rewrite K5; apply (i_signed d H)|]. destruct (Hd E) as [Hs|[Hs|Hs]];
    [apply admitted_click; [done | left; symmetry; exact Hs] | apply admitted_click; [done | by right] | by eapply admitted_more, Hs; apply knows_accept].
Qed.
Lemma inv_reverify shown during d : Inv d -> dialog_ok d (ReviewDialog shown during) -> Inv (reverify shown during d).
Proof.
  intros H Hd. unfold reverify. destruct (bool_decide_reflect (s_state (d_server d) = refused)) as [E|]; [|done]. set (s' := set_signed false _).
  destruct (setState_spec login_asked [] s') as ((K1 & K2 & K3) & K4 & K5 & _). eapply inv_accepted; eauto; [by rewrite K5|].
  apply admitted_click; [done|]. destruct (Hd E) as [Hs|Hs]; [left; symmetry; exact Hs | by right].
Qed.
Lemma inv_sign_in during d : Inv d -> dialog_ok d (SignInDialog during) -> Inv (sign_in during d).
Proof.
  intros H Hd. assert (Hm : knows_more d (sign_in during d)) by (split; [done|]; intros q Hq; cbn; apply elem_of_app; by left).
  assert (Hl : admitted (sign_in during d) (login_fp (d_server d))).
  { destruct Hd as [Hd|Hd]; [by eapply admitted_more|]. right. eexists. split; [apply elem_last | done]. }
  assert (Hr : rawFp (login_fp (d_server d)) = login_fp (d_server d)) by (apply login_raw; [intros x Hx; by apply (i_pending d H) | apply rawFp_idem]).
  apply (inv_more d); [done.. | |]; cbn; apply Forall_app; split.
  - apply (asks_more d); [done | done | apply (i_asked d H)].
  - by apply Forall_singleton.
  - apply (sent_more d); [done | apply (i_sent d H)].
  - by apply Forall_singleton.
Qed.
Lemma shown_fp_raw f s : rawFp f = f -> f <> [] -> rawFp (shown_fp f s) = f.
Proof.
  intros Hr Hn. unfold shown_fp. destruct (fmtFp f) eqn:E; cbn [nonempty]; [|by rewrite <- E, fingerprint_roundtrip].
  exfalso. apply Hn. rewrite <- Hr, <- fingerprint_roundtrip, E. done.
Qed.
Lemma inv_login_ok d f : Inv d -> admitted d f -> rawFp f = f -> f <> [] -> Inv (login_ok f d).
Proof.
  intros [H1 H2 H3 H4 H5 H6 H7 H8 H9 H10] Hf Hr Hn. unfold login_ok. set (s1 := set_pending None _).
  destruct (setState_spec connecting [] s1) as ((K1 & K2 & K3) & K4 & K5 & _). cbn in K1, K2, K3, K5.
  assert (El : login_fp (setState connecting [] s1) = f) by (unfold login_fp; by rewrite K3, K2, shown_fp_raw).
  split; cbn; rewrite ?K1, ?K2, ?K3, ?K4, ?K5; auto; try done.
  - intros g [= <-]. done.
  - by rewrite shown_fp_raw.
  - apply Forall_app. split; [|by apply Forall_singleton; cbn; rewrite K1]. eapply Forall_impl; [exact H8|]. intros []; cbn; rewrite ?K1; auto.
  - eapply Forall_impl; [exact H9|]. intros []; cbn; rewrite ?K4; try done. intros _. left. by rewrite El.
Qed.
Lemma inv_host_listed d : Inv d -> Inv (host_listed d).
Proof.
  intros H. unfold host_listed. destruct (d_pin d) as [f|] eqn:Ef; [|done]. destruct (i_pin d H f Ef) as (Hf & Hr & Hn).
  assert (nonempty f = true) as Hne by (by destruct f). set (s := set_signed _ _).
  assert (Hp : s_pinned (d_server d) = true) by (apply (i_pinned d H); by rewrite Ef).
  assert (Hl : admitted d (login_fp s)).
  { unfold login_fp. cbn. destruct (s_pendingFp (d_server d)) as [[|c r]|] eqn:E; rewrite ?shown_fp_raw by done; auto. by apply (i_pending d H _ E). }
  assert (H' : Inv (with_server s d)).
  { destruct H as [H1 H2 H3 H4 H5 H6 H7 H8 H9 H10]. split; cbn; rewrite ?Hne; auto; try done.
    - intros _. by rewrite shown_fp_raw.
    - intros x Hx. destruct (H4 x Hx) as [? Hy]. auto.
    - eapply Forall_impl; [exact H8|]. intros []; cbn; by rewrite ?Hne.
    - eapply Forall_impl; [exact H9|]. intros []; cbn; auto. intros _ _. right. right. by rewrite shown_fp_raw. }
  destruct (negb (s_signedIn s) && _); [|exact H'].
  change (with_server (setState disconnected [] s) d) with (with_server (setState disconnected [] s) (with_server s d)).
  apply inv_to; [done | done | apply (i_signed _ H') | done | done | no_ask].
Qed.
Lemma inv_answer d k a : Inv d -> Inv (answer k a d).
Proof.
  intros H. unfold answer. destruct (d_asked d !! k) as [q|] eqn:Eq; [|done].
  assert (Hq : pinned_ask d q) by (pose proof (i_asked d H) as Hf; rewrite Forall_lookup in Hf; by apply (Hf k)).
  pose proof (inv_answered d k H) as H1. set (d1 := answered k d) in *.
  destruct q, a; try done; cbn in Hq.
  - destruct (inv_presented d1 p H1). by apply inv_probe_ok.
  - apply inv_to; [done | done | apply (i_signed _ H1) | done | done | no_ask].
  - unfold check_ok. apply inv_check_done. destruct (s_userOff (d_server d1)); [done|]. apply inv_to; [done | done | by intros _ | done | done | by intros _].
  - unfold check_failed. destruct (s_userOff (d_server d1)); [by apply inv_check_done|]. set (s1 := set_link _ _ _ _ (d_server d1)).
    assert (H2 : Inv (with_server s1 d1)) by (apply inv_server; [done | done | apply (i_signed _ H1) | by right | apply (i_live _ H1) | done | done]).
    assert (Hother : Inv match s_state (d_server d1) with
        | online => check_done connecting0 (with_server (setState lost message (set_link (s_reachable s1) 0 8 (s_error s1) s1)) d1)
        | lost => check_done connecting0 (with_server s1 d1)
        | _ => check_done connecting0 (with_server (setState offline message (set_link false (s_attempts s1) (s_retryIn s1) (s_error s1) s1)) d1)
        end).
    { assert (Hoff : Inv (check_done connecting0 (with_server (setState offline message (set_link false (s_attempts s1) (s_retryIn s1) (s_error s1) s1)) d1)))
        by (apply inv_check_done, inv_to; [done | done | apply (i_signed _ H1) | done | done | no_ask]).
      destruct (s_state (d_server d1)); try exact Hoff; [|by apply inv_check_done].
      apply inv_check_done, inv_to; [done | done | by intros _ | done | done | by intros _]. }
    destruct code; try exact Hother.
    + apply inv_check_done, inv_to; [done | done | done | done | done | by intros _].
    + by apply inv_ask.
  - unfold cert_answered. apply inv_check_done. destruct (inv_presented d1 p H1) as [H2 Hs]. set (d2 := presented p d1) in *. destruct (changed d2 p) eqn:Ec.
    + by eapply inv_refused.
    + apply inv_to; [done | done | apply (i_signed _ H2) | done | done | by intros _].
  - by apply inv_check_done.
  - destruct (nonempty fp) eqn:Ene; [|done]. apply inv_login_ok; [done | by apply Hq.. |]. by intros ->.
  - apply inv_check; [by apply inv_host_listed|]. apply (i_pinned _ (inv_host_listed _ H1)). unfold host_listed.
    destruct (proj1 (i_pinned _ H1) Hq) as [f Ef]. destruct (d_pin d1) eqn:E1; cbn; rewrite ?E1; done.
  - by apply inv_check.
Qed.
(** The sign-in dialog is opened where the server asks for a login, or is a saved one. *)
Definition asked_for (d : Desk) (e : DeskEvent) : bool :=
  match e with OpenSignIn => bool_decide (s_state (d_server d) = login_asked) || s_pinned (d_server d) | _ => true end.
Lemma inv_close d k : Inv d -> Inv (close_dialog k d).
Proof. intros H. apply inv_dialogs; [done|]. apply Forall_delete, (i_dialogs d H). Qed.
Lemma inv_open d dl : Inv d -> dialog_ok d dl -> Inv (with_dialogs (d_dialogs d ++ [dl]) d).
Proof. intros H Hd. apply inv_dialogs; [done|]. apply Forall_app. split; [apply (i_dialogs d H) | by apply Forall_singleton]. Qed.
Lemma inv_press d k dl : Inv d -> d_dialogs d !! k = Some dl -> dialog_ok d dl.
Proof. intros H E. pose proof (i_dialogs d H) as Hd. rewrite Forall_lookup in Hd. by apply (Hd k). Qed.
Lemma inv_step d e : Inv d -> asked_for d e = true -> Inv (desk_step d e).
Proof.
  intros H Ho. destruct e; cbn [desk_step].
  - by apply inv_connect.
  - unfold cancelConnect. destruct (_ || _ || _); [|done]. apply inv_to; [done | done | apply (i_signed _ H) | done | done | no_ask].
  - unfold disconnect. destruct (bool_decide _); [done|]. apply inv_to; [done | done | apply (i_signed _ H) | done | done | no_ask].
  - unfold retryNow. set (s := set_off false (d_server d)).
    assert (H' : Inv (with_server s d)) by (apply inv_server; [done | done | apply (i_signed _ H) | by right | apply (i_live _ H) | done | done]).
    destruct (s_state s) eqn:Es; try done; try (by apply inv_connect).
    assert (Hp : s_pinned (d_server d) = true) by (apply (i_live _ H); by right). set (s' := set_link _ _ _ _ s).
    destruct (setState_spec connecting [] s') as ((K1 & _) & _ & Esg & _). apply inv_check; [|cbn; by rewrite K1].
    apply inv_to; [done | done | apply (i_signed _ H) | done | done | no_ask].
  - unfold signOut. apply inv_host_listed. set (s := setState _ _ _).
    assert (H' : Inv (with_server s d)) by (apply inv_to; [done | done | done | done | done | no_ask]). destruct H'. split; cbn in *; auto.
  - unfold tick. destruct (s_userOff (d_server d)); [done|]. destruct (s_signedIn (d_server d)) eqn:Es; [|done]. cbn [negb orb].
    pose proof (i_signed d H Es) as Hp.
    destruct (s_state (d_server d)) eqn:Est; try done; try (by apply inv_check); destruct autoReconnect; try done; [|by apply inv_check].
    set (s1 := set_link _ _ _ _ _).
    assert (H1 : forall r a, Inv (with_server (set_link (s_reachable s1) a r (s_error s1) s1) d))
      by (intros r0 a; apply inv_server; [done | done | by intros _ | by right | by intros _ | done | done]).
    destruct (s_retryIn s1 <=? 0); [apply inv_check; [apply H1 | done] | apply (H1 (s_retryIn s1) (s_attempts s1))].
  - apply inv_open; [done|]. by left.
  - unfold reverifyDialog. destruct (bool_decide _); [|done]. apply inv_open; [done|]. by left.
  - apply inv_open; [done|]. left. cbn in Ho. apply orb_true_iff in Ho as [Ho|Ho]; [apply bool_decide_eq_true in Ho; by apply i_login | by apply pinned_login].
  - by apply inv_close.
  - destruct (d_dialogs d !! k) as [[shown during| |]|] eqn:E; try done. pose proof (inv_press d k _ H E) as Hd. apply inv_trust; [by apply inv_close | exact Hd].
  - destruct (d_dialogs d !! k) as [[|shown during|]|] eqn:E; try done. pose proof (inv_press d k _ H E) as Hd. apply inv_reverify; [by apply inv_close | exact Hd].
  - destruct (d_dialogs d !! k) as [[| |during]|] eqn:E; try done. pose proof (inv_press d k _ H E) as Hd. by apply inv_sign_in.
  - by apply inv_answer.
Qed.
Fixpoint all_asked_for (d : Desk) (es : list DeskEvent) : bool :=
  match es with [] => true | e :: r => asked_for d e && all_asked_for (desk_step d e) r end.

(** ** Where the window starts *)

(** A server typed in, or one the core has saved with a fingerprint accepted earlier. *)
Definition typed_server : Desk := {|
  d_server := {| s_state := disconnected; s_msg := []; s_pinned := false; s_fp := []; s_pendingFp := None; s_oldFp := None; s_newFp := None; s_signedIn := false;
                 s_saved := false; s_userOff := false; s_checking := false; s_reachable := true; s_attempts := 0; s_retryIn := 0; s_error := None |};
  d_asked := []; d_dialogs := []; d_pin := None; d_coreLogin := false; d_sent := []; d_accepted := [] |}.
Definition saved_server (fp : jstr) (signedIn : bool) : Desk := {|
  d_server := {| s_state := if signedIn then connecting else disconnected; s_msg := []; s_pinned := true; s_fp := fmtFp fp; s_pendingFp := None; s_oldFp := None; s_newFp := None;
                 s_signedIn := signedIn; s_saved := true; s_userOff := false; s_checking := false; s_reachable := true; s_attempts := 0; s_retryIn := 0; s_error := None |};
  d_asked := []; d_dialogs := []; d_pin := Some fp; d_coreLogin := signedIn; d_sent := []; d_accepted := [{| c_shown := fp; c_during := []; c_taken := fp |}] |}.
Inductive starts : Desk -> Prop :=
| starts_typed : starts typed_server
| starts_saved fp signedIn : rawFp fp = fp -> fp <> [] -> starts (saved_server fp signedIn).
Lemma inv_starts d : starts d -> Inv d.
Proof.
  intros [|fp signedIn Hr Hn].
  - split; cbn; try done. intros [?|?]; done.
  - assert (Ha : admitted (saved_server fp signedIn) fp) by (left; eexists; split; [left | by split; [|left]]).
    split; cbn; try done; [| intros _; by rewrite fingerprint_roundtrip, Hr | by destruct signedIn..]. by intros f [= <-].
Qed.

(** C34 Start from a server typed in, or from one saved with a fingerprint accepted earlier, and
    let the network answer in any order.  If the sign-in dialog is only opened where the server
    asks for a login or is a saved one, then every password, code or approval request is sent
    pinned to a fingerprint that the person accepted in a dialog that showed it (or saved
    earlier), or that an answer presented while the dialog in which it was accepted, or the
    sign-in dialog itself, stood open.  So where no such answer comes while a dialog is open,
    nothing is sent to a fingerprint that was not shown and accepted. *)
Theorem sign_in_accepted_only d es : starts d -> all_asked_for d es = true ->
  let d' := desk_run d es in
  Forall (fun q =>
    (exists c, c ∈ d_accepted d' /\ c_taken c = l_fp q /\ (c_shown c = l_fp q \/ l_fp q ∈ c_during c)) \/
    (exists q', q' ∈ d_sent d' /\ l_fp q' = l_fp q /\ l_fp q ∈ l_during q')) (d_sent d').
Proof.
  intros Hs Ho d'. assert (H : Inv d'); [|exact (i_sent d' H)]. unfold d', desk_run. apply inv_starts in Hs. revert d Hs Ho d'.
  induction es as [|e es IH]; intros d Hi Ho d'; [done|]. cbn in Ho. apply andb_true_iff in Ho as [H1 H2]. cbn. apply IH; [by apply inv_step | done].
Qed.
Lemma sign_in_accepted_only_witness :
  let es := [Connect; Answer 0 (Probed {| p_fingerprint := js "AB:CD" |}); OpenTrust; PressTrust 0; OpenSignIn; PressSignIn 0] in
  let d' := desk_run typed_server es in
  d_sent d' = [{| l_fp := js "abcd"; l_during := [] |}] /\
  exists c, c ∈ d_accepted d' /\ c_taken c = js "abcd" /\ c_shown c = js "abcd".
Proof.
  intros es d'. assert (E : d_sent d' = [{| l_fp := js "abcd"; l_during := [] |}]) by (vm_compute; reflexivity). split; [exact E|].
  assert (H : all_asked_for typed_server es = true) by (vm_compute; reflexivity).
  pose proof (sign_in_accepted_only typed_server es starts_typed H) as HF. change (desk_run typed_server es) with d' in HF. cbv zeta in HF.
  rewrite Forall_forall in HF. destruct (HF {| l_fp := js "abcd"; l_during := [] |}) as [(c & Hc & Ht & Hsh)|(q & Hq & _ & Hd)].
  - rewrite E. left.
  - exists c. split; [exact Hc|]. split; [exact Ht|]. destruct Hsh as [Hsh|Hin]; [exact Hsh|].
    assert (Ea : d_accepted d' = [{| c_shown := js "abcd"; c_during := []; c_taken := js "abcd" |}]) by (vm_compute; reflexivity).
    rewrite Ea in Hc. apply list_elem_of_singleton in Hc. subst c. by apply not_elem_of_nil in Hin.
  - rewrite E in Hq. apply list_elem_of_singleton in Hq. subst q. by apply not_elem_of_nil in Hd.
Defined.
(** The same server is connected, cancelled and connected again: both probes answer.  The dialog
    shows the fingerprint of the first; the second replaces it under the dialog, and the password
    goes to a fingerprint no dialog ever showed. *)
Theorem second_probe_replaces_shown :
  let es := [Connect; CancelConnect; Connect; Answer 0 (Probed {| p_fingerprint := js "AB:CD" |}); OpenTrust;
             Answer 0 (Probed {| p_fingerprint := js "EE:EE" |}); PressTrust 0; OpenSignIn; PressSignIn 0] in
  let d' := desk_run typed_server es in
  all_asked_for typed_server es = true /\ d_sent d' = [{| l_fp := js "eeee"; l_during := [] |}] /\
  d_accepted d' = [{| c_shown := js "abcd"; c_during := [js "eeee"]; c_taken := js "eeee" |}].
Proof. vm_compute. auto. Qed.
(** Nothing in the sign-in itself looks at the state: the menu of a server opens its dialog in
    every state, and for a server whose fingerprint is still being reviewed, or was rejected, the
    password is sent pinned to that fingerprint. *)
Theorem sign_in_before_trust :
  let seen := [Connect; Answer 0 (Probed {| p_fingerprint := js "AB:CD" |})] in
  l_fp <$> d_sent (desk_run typed_server (seen ++ [OpenSignIn; PressSignIn 0])) = [js "abcd"] /\
  l_fp <$> d_sent (desk_run typed_server (seen ++ [CancelConnect; OpenSignIn; PressSignIn 0])) = [js "abcd"] /\
  d_accepted (desk_run typed_server (seen ++ [CancelConnect; OpenSignIn; PressSignIn 0])) = [].
Proof. vm_compute. auto. Qed.
(** A connection cancelled while the server is being asked comes back with its answer. *)
Theorem cancelled_connect_comes_back :
  s_state (d_server (desk_run typed_server [Connect; CancelConnect; Answer 0 (Probed {| p_fingerprint := js "AB:CD" |})])) = trust_asked.
Proof. vm_compute. reflexivity. Qed.
