(* ===== verification/DeskTransfers.v ===== *)
(** * Transfers of the desktop window

    The transfers part of [desktop/ui/engine.js]: cards over the transfers of the core.  A card
    stands for the files the core made of one upload or download; the core is asked and answers
    later, in any order, while cards are paused, held, cancelled and removed.  Cards are shared
    objects: a start under way and the map [byRemote] keep hold of a card that left the list.
    Progress, speed and the words shown are left out. *)

From Stdlib Require Import ZArith Lia Bool.
From Stdlib Require List.
From stdpp Require Import gmap.
From S2P Require Import Prelude JsCollections JsString DeskPaths.
Local Open Scope js_scope.

Inductive TState := t_queued | t_running | t_paused | t_waiting | t_conflict | t_failed | t_done | t_cancelled.
#[global] Instance TState_eq_dec : EqDecision TState.
Proof. solve_decision. Defined.
Inductive How := h_replace | h_keep | h_skip.
#[global] Instance How_eq_dec : EqDecision How.
Proof. solve_decision. Defined.
(** What a card never changes. *)
Record Order := { o_up : bool; o_host : jstr; o_name : jstr; o_isDir : bool; o_src : jstr; o_dst : jstr; o_askWhere : bool }.
Record Task := {
  t_order : Order; t_state : TState; t_rids : list nat; t_conflictRids : list nat; t_starting : bool; t_started : bool; t_held : bool;
  t_pauseAt : Z; t_resumedAt : Z; t_autoRetryAt : Z }.
(** Requests to the core. *)
Inductive Call :=
| UploadTree (host src dst : jstr) | DownloadTree (host src : jstr) (isDir ask : bool)
| CancelCall (rid : nat) | PauseCall (rid : nat) | RetryCall (rid : nat) | ResolveCall (rid : nat) (how : How) | ListCall | ClearCall.
#[global] Instance Call_eq_dec : EqDecision Call.
Proof. solve_decision. Defined.
(** [x_starts]: cards whose start the core has not answered.  [x_cancels]: files whose
    cancellation it has not answered.  [x_resolves]: answers to conflicts under way, with the
    files and the cards still to come.  [x_made]: the files the core made.  [x_released]: files of
    cards that left the list without a cancellation, each with the state its card then showed
    (cancelled, for a card the core said it skipped). *)
Record Xfers := {
  x_next : nat; x_store : gmap nat Task; x_tasks : list nat; x_remote : gmap nat nat; x_polling : bool;
  x_starts : list nat; x_cancels : list nat; x_resolves : list (How * list nat * list nat); x_calls : list Call; x_made : list nat; x_released : list (nat * TState) }.

(** ** Fields *)

Definition set_state (st : TState) (t : Task) : Task :=
  {| t_order := t_order t; t_state := st; t_rids := t_rids t; t_conflictRids := t_conflictRids t; t_starting := t_starting t; t_started := t_started t;
     t_held := t_held t; t_pauseAt := t_pauseAt t; t_resumedAt := t_resumedAt t; t_autoRetryAt := t_autoRetryAt t |}.
Definition set_rids (rids : list nat) (t : Task) : Task :=
  {| t_order := t_order t; t_state := t_state t; t_rids := rids; t_conflictRids := t_conflictRids t; t_starting := t_starting t; t_started := t_started t;
     t_held := t_held t; t_pauseAt := t_pauseAt t; t_resumedAt := t_resumedAt t; t_autoRetryAt := t_autoRetryAt t |}.
Definition set_conflicts (rids : list nat) (t : Task) : Task :=
  {| t_order := t_order t; t_state := t_state t; t_rids := t_rids t; t_conflictRids := rids; t_starting := t_starting t; t_started := t_started t;
     t_held := t_held t; t_pauseAt := t_pauseAt t; t_resumedAt := t_resumedAt t; t_autoRetryAt := t_autoRetryAt t |}.
Definition set_starting (b : bool) (t : Task) : Task :=
  {| t_order := t_order t; t_state := t_state t; t_rids := t_rids t; t_conflictRids := t_conflictRids t; t_starting := b; t_started := t_started t;
     t_held := t_held t; t_pauseAt := t_pauseAt t; t_resumedAt := t_resumedAt t; t_autoRetryAt := t_autoRetryAt t |}.
Definition set_started (t : Task) : Task :=
  {| t_order := t_order t; t_state := t_state t; t_rids := t_rids t; t_conflictRids := t_conflictRids t; t_starting := t_starting t; t_started := true;
     t_held := t_held t; t_pauseAt := t_pauseAt t; t_resumedAt := t_resumedAt t; t_autoRetryAt := t_autoRetryAt t |}.
Definition set_held (b : bool) (t : Task) : Task :=
  {| t_order := t_order t; t_state := t_state t; t_rids := t_rids t; t_conflictRids := t_conflictRids t; t_starting := t_starting t; t_started := t_started t;
     t_held := b; t_pauseAt := t_pauseAt t; t_resumedAt := t_resumedAt t; t_autoRetryAt := t_autoRetryAt t |}.
Definition set_times (p r a : Z) (t : Task) : Task :=
  {| t_order := t_order t; t_state := t_state t; t_rids := t_rids t; t_conflictRids := t_conflictRids t; t_starting := t_starting t; t_started := t_started t;
     t_held := t_held t; t_pauseAt := p; t_resumedAt := r; t_autoRetryAt := a |}.

Definition upd (id : nat) (f : Task -> Task) (x : Xfers) : Xfers :=
  {| x_next := x_next x; x_store := alter f id (x_store x); x_tasks := x_tasks x; x_remote := x_remote x; x_polling := x_polling x; x_starts := x_starts x;
     x_cancels := x_cancels x; x_resolves := x_resolves x; x_calls := x_calls x; x_made := x_made x; x_released := x_released x |}.
Definition calls (cs : list Call) (x : Xfers) : Xfers :=
  {| x_next := x_next x; x_store := x_store x; x_tasks := x_tasks x; x_remote := x_remote x; x_polling := x_polling x; x_starts := x_starts x;
     x_cancels := x_cancels x; x_resolves := x_resolves x; x_calls := x_calls x ++ cs; x_made := x_made x; x_released := x_released x |}.
Definition with_remote (r : gmap nat nat) (x : Xfers) : Xfers :=
  {| x_next := x_next x; x_store := x_store x; x_tasks := x_tasks x; x_remote := r; x_polling := x_polling x; x_starts := x_starts x;
     x_cancels := x_cancels x; x_resolves := x_resolves x; x_calls := x_calls x; x_made := x_made x; x_released := x_released x |}.
Definition with_starts (l : list nat) (x : Xfers) : Xfers :=
  {| x_next := x_next x; x_store := x_store x; x_tasks := x_tasks x; x_remote := x_remote x; x_polling := x_polling x; x_starts := l;
     x_cancels := x_cancels x; x_resolves := x_resolves x; x_calls := x_calls x; x_made := x_made x; x_released := x_released x |}.
Definition with_cancels (l : list nat) (x : Xfers) : Xfers :=
  {| x_next := x_next x; x_store := x_store x; x_tasks := x_tasks x; x_remote := x_remote x; x_polling := x_polling x; x_starts := x_starts x;
     x_cancels := l; x_resolves := x_resolves x; x_calls := x_calls x; x_made := x_made x; x_released := x_released x |}.
Definition with_resolves (l : list (How * list nat * list nat)) (x : Xfers) : Xfers :=
  {| x_next := x_next x; x_store := x_store x; x_tasks := x_tasks x; x_remote := x_remote x; x_polling := x_polling x; x_starts := x_starts x;
     x_cancels := x_cancels x; x_resolves := l; x_calls := x_calls x; x_made := x_made x; x_released := x_released x |}.
Definition with_polling (b : bool) (x : Xfers) : Xfers :=
  {| x_next := x_next x; x_store := x_store x; x_tasks := x_tasks x; x_remote := x_remote x; x_polling := b; x_starts := x_starts x;
     x_cancels := x_cancels x; x_resolves := x_resolves x; x_calls := x_calls x; x_made := x_made x; x_released := x_released x |}.
Definition made (ids : list nat) (x : Xfers) : Xfers :=
  {| x_next := x_next x; x_store := x_store x; x_tasks := x_tasks x; x_remote := x_remote x; x_polling := x_polling x; x_starts := x_starts x;
     x_cancels := x_cancels x; x_resolves := x_resolves x; x_calls := x_calls x; x_made := x_made x ++ ids; x_released := x_released x |}.
(** A card leaves the list for good, with these files and the state it showed. *)
Definition uncard (id : nat) (released : list (nat * TState)) (x : Xfers) : Xfers :=
  {| x_next := x_next x; x_store := x_store x; x_tasks := List.filter (fun i => negb (i =? id)%nat) (x_tasks x); x_remote := x_remote x; x_polling := x_polling x;
     x_starts := x_starts x; x_cancels := x_cancels x; x_resolves := x_resolves x; x_calls := x_calls x; x_made := x_made x; x_released := x_released x ++ released |}.
Definition shown_with (st : TState) (rids : list nat) : list (nat * TState) := (fun r => (r, st)) <$> rids.
Definition new_task (o : Order) (x : Xfers) : Xfers :=
  {| x_next := S (x_next x);
     x_store := <[x_next x := {| t_order := o; t_state := t_queued; t_rids := []; t_conflictRids := []; t_starting := false; t_started := false; t_held := false;
                                 t_pauseAt := 0; t_resumedAt := 0; t_autoRetryAt := 0 |}]> (x_store x);
     x_tasks := x_tasks x ++ [x_next x]; x_remote := x_remote x; x_polling := x_polling x; x_starts := x_starts x;
     x_cancels := x_cancels x; x_resolves := x_resolves x; x_calls := x_calls x; x_made := x_made x; x_released := x_released x |}.
Definition x_init : Xfers :=
  {| x_next := 0; x_store := ∅; x_tasks := []; x_remote := ∅; x_polling := false; x_starts := []; x_cancels := []; x_resolves := []; x_calls := []; x_made := []; x_released := [] |}.

(** ** Starting *)

Definition ACTIVE (st : TState) : bool := match st with t_queued | t_running | t_paused | t_waiting | t_conflict => true | _ => false end.
Definition taskById (id : nat) (x : Xfers) : option Task := if set_has id (x_tasks x) then x_store x !! id else None.
(** The request for the list, unless one is under way. *)
Definition poll (x : Xfers) : Xfers := if x_polling x then x else calls [ListCall] (with_polling true x).
Definition start_call (o : Order) : Call := if o_up o then UploadTree (o_host o) (o_src o) (o_dst o) else DownloadTree (o_host o) (o_src o) (o_isDir o) (o_askWhere o).
Definition startTask (id : nat) (x : Xfers) : Xfers :=
  match x_store x !! id with
  | Some t => calls [start_call (t_order t)] (with_starts (x_starts x ++ [id]) (upd id (set_starting true) x))
  | None => x
  end.
(** The answer to the start of [id]. *)
Definition start_ok (id : nat) (ids : list nat) (x : Xfers) : Xfers :=
  match x_store x !! id with
  | None => x
  | Some t =>
      let x1 := upd id (set_starting false) (made ids x) in
      if bool_decide (t_state t = t_cancelled) then calls (CancelCall <$> ids) x1
      else if bool_decide (ids = []) then upd id (fun t => set_started (set_state t_done t)) x1
      else
        let x2 := with_remote (fold_left (fun r i => <[i := id]> r) ids (x_remote x1)) (upd id (fun t => set_started (set_rids ids t)) x1) in
        poll (if t_held t then calls (PauseCall <$> ids) x2 else x2)
  end.
Definition start_failed (id : nat) (x : Xfers) : Xfers :=
  match x_store x !! id with
  | None => x
  | Some t =>
      let x1 := upd id (set_starting false) x in
      if t_held t && bool_decide (t_state t = t_waiting) then x1 else upd id (set_state t_failed) x1
  end.
(** One name of [enqueue]; [None]: a path cannot be read and the call throws. *)
Definition order_of (up : bool) (host srcDir dstDir downloadDir : jstr) (ask : bool) (n : Node) : option Order :=
  _ ← norm srcDir;
  dst ← (if up then norm dstDir else Some downloadDir);
  src ← (if nonempty (n_path n) then Some (n_path n) else join_path srcDir (n_name n));
  Some {| o_up := up; o_host := host; o_name := n_name n; o_isDir := n_dir n; o_src := src; o_dst := dst; o_askWhere := ask |}.
Fixpoint enqueue_loop (mk : Node -> option Order) (listing : list Node) (names : list jstr) (x : Xfers) : Xfers :=
  match names with
  | [] => x
  | name :: r =>
      match List.find (fun n => bool_decide (n_name n = name)) listing with
      | None => enqueue_loop mk listing r x
      | Some n => match mk n with None => x | Some o => enqueue_loop mk listing r (startTask (x_next x) (new_task o x)) end
      end
  end.
Definition enqueue (online : bool) (up : bool) (host srcDir dstDir downloadDir : jstr) (ask : bool) (listing : list Node) (names : list jstr) (x : Xfers) : Xfers :=
  if online then enqueue_loop (order_of up host srcDir dstDir downloadDir ask) listing names x else x.

(** ** What the person and the server do to a card *)

Definition retryRust (id : nat) (x : Xfers) : Xfers :=
  match x_store x !! id with
  | Some t => calls (RetryCall <$> t_rids t) (upd id (fun t => set_state t_queued (set_held false t)) x)
  | None => x
  end.
Definition on_task (id : nat) (f : Task -> Xfers -> Xfers) (x : Xfers) : Xfers := match taskById id x with Some t => f t x | None => x end.
Definition resumeTask (id : nat) (x : Xfers) : Xfers := on_task id (fun _ => retryRust id) x.
(** A card that was not started refuses: nothing changes. *)
Definition pause (now : Z) (id : nat) (x : Xfers) : Xfers :=
  on_task id (fun t x =>
    match t_state t with
    | t_running | t_queued =>
        if bool_decide (t_rids t = []) then x
        else calls (PauseCall <$> t_rids t) (upd id (fun t => set_times now (t_resumedAt t) (t_autoRetryAt t) (set_state t_paused t)) x)
    | _ => x
    end) x.
Definition retry (id : nat) (x : Xfers) : Xfers :=
  on_task id (fun t x =>
    match t_state t with
    | t_failed | t_paused => if bool_decide (t_rids t = []) then startTask id (upd id (set_state t_queued) x) else retryRust id x
    | _ => x
    end) x.
Definition cancel (id : nat) (x : Xfers) : Xfers :=
  on_task id (fun t x => with_cancels (x_cancels x ++ t_rids t) (calls (CancelCall <$> t_rids t) (uncard id [] (upd id (set_state t_cancelled) x)))) x.
Definition forget_rids (rids : list nat) (x : Xfers) : Xfers := with_remote (fold_left (fun r i => delete i r) rids (x_remote x)) x.
Definition cancel_answered (rid : nat) (x : Xfers) : Xfers := if set_has rid (x_cancels x) then forget_rids [rid] x else x.
Definition dismiss (id : nat) (x : Xfers) : Xfers :=
  on_task id (fun t x => if ACTIVE (t_state t) then x else uncard id (shown_with (t_state t) (t_rids t)) (forget_rids (t_rids t) x)) x.
(** Every card in turn, as it is then. *)
Definition each_task (f : nat -> Xfers -> Xfers) (x : Xfers) : Xfers := fold_left (fun x id => f id x) (x_tasks x) x.
Definition pauseAll (now : Z) (x : Xfers) : Xfers :=
  each_task (fun id => on_task id (fun t x =>
    match t_state t with
    | t_running | t_queued =>
        if bool_decide (t_rids t = []) then upd id (fun t => set_times now (t_resumedAt t) (t_autoRetryAt t) (set_state t_paused (set_held true t))) x
        else pause now id x
    | _ => x
    end)) x.
Definition resumeAll (x : Xfers) : Xfers :=
  each_task (fun id => on_task id (fun t x => match t_state t with t_waiting | t_paused => retry id x | _ => x end)) x.
Definition retryFailed (x : Xfers) : Xfers :=
  each_task (fun id => on_task id (fun t x => match t_state t with t_failed => retry id x | _ => x end)) x.
Definition clear_one (id : nat) : Xfers -> Xfers :=
  on_task id (fun t x => match t_state t with t_done | t_cancelled => uncard id (shown_with (t_state t) (t_rids t)) (forget_rids (t_rids t) x) | _ => x end).
Definition clearDone (x : Xfers) : Xfers :=
  let x1 := fold_left (fun x id => clear_one id x) (List.rev (x_tasks x)) x in
  if (length (x_tasks x1) =? length (x_tasks x))%nat then x1 else calls [ClearCall] x1.

Definition suspend_one (id : nat) : Xfers -> Xfers :=
  on_task id (fun t x =>
    match t_state t with
    | t_running | t_queued => calls (PauseCall <$> t_rids t) (upd id (fun t => set_state t_waiting (set_held true t)) x)
    | t_conflict => calls (PauseCall <$> t_rids t) (upd id (set_held true) x)
    | _ => x
    end).
Definition on_host (host : jstr) (f : nat -> Xfers -> Xfers) (id : nat) (x : Xfers) : Xfers :=
  match x_store x !! id with Some t => if bool_decide (o_host (t_order t) = host) then f id x else x | None => x end.
Definition suspendHost (host : jstr) (x : Xfers) : Xfers := each_task (on_host host suspend_one) x.
Definition resume_one (now : Z) (id : nat) : Xfers -> Xfers :=
  on_task id (fun t x =>
    if bool_decide (t_state t = t_waiting) || t_held t then
      let x1 := upd id (set_held false) x in
      match t_rids t with
      | _ :: _ => retryRust id (upd id (fun t => set_times (t_pauseAt t) now (t_autoRetryAt t) t) x1)
      | [] =>
          if bool_decide (t_state t = t_waiting) then
            let x2 := upd id (set_state t_queued) x1 in
            if t_starting t then x2 else startTask id x2
          else x1
      end
    else x).
Definition resumeHost (now : Z) (host : jstr) (x : Xfers) : Xfers := each_task (on_host host (resume_one now)) x.

(** [resolve], up to its next request: a card that has none is passed over. *)
Fixpoint resolve_go (online : jstr -> bool) (how : How) (wait : list nat) (x : Xfers) : Xfers :=
  match wait with
  | [] => poll x
  | id :: r =>
      match x_store x !! id with
      | Some t =>
          if bool_decide (t_state t = t_conflict) && online (o_host (t_order t)) then
            let x1 := upd id (set_state t_queued) x in
            match t_conflictRids t with
            | [] => resolve_go online how r x1
            | rid :: rids => calls [ResolveCall rid how] (with_resolves (x_resolves x1 ++ [(how, rids, r)]) x1)
            end
          else resolve_go online how r x
      | None => resolve_go online how r x
      end
  end.
Definition in_conflict (x : Xfers) (id : nat) : bool := match x_store x !! id with Some t => bool_decide (t_state t = t_conflict) | None => false end.
Definition resolve (online : jstr -> bool) (id : nat) (how : How) (all : bool) (x : Xfers) : Xfers :=
  resolve_go online how (if all then List.filter (in_conflict x) (x_tasks x) else match taskById id x with Some _ => [id] | None => [] end) x.
(** The [k]-th answer to a conflict is in. *)
Definition resolve_answered (online : jstr -> bool) (k : nat) (x : Xfers) : Xfers :=
  match x_resolves x !! k with
  | None => x
  | Some (how, rids, wait) =>
      match rids with
      | rid :: rids => calls [ResolveCall rid how] (with_resolves (<[k := (how, rids, wait)]> (x_resolves x)) x)
      | [] => resolve_go online how wait (with_resolves (delete k (x_resolves x)) x)
      end
  end.

(** ** What the core says *)

Inductive VState := v_queued | v_running | v_paused | v_conflict | v_failed | v_cancelled | v_done.
#[global] Instance VState_eq_dec : EqDecision VState.
Proof. solve_decision. Defined.
(** [v_skipped]: the error text starts with "Skipped:". *)
Record View := { v_id : nat; v_state : VState; v_skipped : bool }.
Definition some_is (st : VState) (vs : list View) : bool := List.existsb (fun v => bool_decide (v_state v = st)) vs.
Definition all_are (st : VState) (vs : list View) : bool := List.forallb (fun v => bool_decide (v_state v = st)) vs.
(** The state of a card from its files. *)
Definition card_state (vs : list View) : TState :=
  if some_is v_conflict vs then t_conflict
  else if some_is v_running vs then t_running
  else if some_is v_queued vs then t_queued
  else if some_is v_paused vs then t_paused
  else if some_is v_failed vs then t_failed
  else if all_are v_cancelled vs then t_cancelled
  else t_done.
(** The files of each card, cards in the order of their first file. *)
Fixpoint add_view (id : nat) (v : View) (gs : list (nat * list View)) : list (nat * list View) :=
  match gs with
  | [] => [(id, [v])]
  | (i, vs) :: r => if (i =? id)%nat then (i, vs ++ [v]) :: r else (i, vs) :: add_view id v r
  end.
Definition groups (remote : gmap nat nat) (views : list View) : list (nat * list View) :=
  fold_left (fun gs v => match remote !! v_id v with Some id => add_view id v gs | None => gs end) views [].
Definition skipped (vs : list View) : bool := List.forallb (fun v => bool_decide (v_state v = v_cancelled) && v_skipped v) vs.
(** The state a poll gives a card that was in [t]; the core may still be stopping it. *)
Definition held_state (now : Z) (t : Task) (st : TState) : TState :=
  let st := match t_state t, st with
            | t_paused, (t_running | t_queued) => if now - t_pauseAt t <? 3000 then t_paused else st
            | _, _ => st
            end in
  match t_state t, st with
  | t_waiting, (t_running | t_queued | t_paused) => t_waiting
  | _, _ => st
  end.
Definition again (now : Z) (t : Task) (st : TState) : bool :=
  bool_decide (st = t_paused) && (bool_decide (t_state t = t_queued) || bool_decide (t_state t = t_running))
  && (now - t_resumedAt t <? 20000) && (1500 <? now - t_autoRetryAt t).
Definition poll_one (now : Z) (x : Xfers) (g : nat * list View) : Xfers :=
  let '(id, vs) := g in
  match x_store x !! id with
  | None => x
  | Some t =>
      if bool_decide (t_state t = t_cancelled) then x
      else
        let x1 := upd id (set_conflicts (v_id <$> List.filter (fun v => bool_decide (v_state v = v_conflict)) vs)) x in
        let st := held_state now t (card_state vs) in
        let '(st, x2) := if again now t st then (t_queued, retryRust id (upd id (fun t => set_times (t_pauseAt t) (t_resumedAt t) now t) x1)) else (st, x1) in
        if skipped vs then uncard id (shown_with t_cancelled (t_rids t)) (forget_rids (v_id <$> vs) x2)
        else upd id (set_state st) x2
  end.
Definition polled (now : Z) (views : list View) (x : Xfers) : Xfers :=
  if x_polling x then with_polling false (fold_left (poll_one now) (groups (x_remote x) views) x) else x.
Definition poll_failed (x : Xfers) : Xfers := if x_polling x then with_polling false x else x.

Inductive XEvent :=
| Enqueue (online up : bool) (host srcDir dstDir downloadDir : jstr) (ask : bool) (listing : list Node) (names : list jstr)
| Started (k : nat) (ids : list nat) | StartFailed (k : nat)
| Poll | Polled (now : Z) (views : list View) | PollFailed
| Suspend (host : jstr) | Resume (now : Z) (host : jstr)
| Pause (now : Z) (id : nat) | ResumeTask (id : nat) | Retry (id : nat) | Cancel (id : nat) | CancelAnswered (rid : nat) | Dismiss (id : nat)
| PauseAll (now : Z) | ResumeAll | RetryFailed | ClearDone
| Resolve (online : jstr -> bool) (id : nat) (how : How) (all : bool) | ResolveAnswered (online : jstr -> bool) (k : nat).
Definition started (k : nat) (f : nat -> Xfers -> Xfers) (x : Xfers) : Xfers :=
  match x_starts x !! k with Some id => f id (with_starts (delete k (x_starts x)) x) | None => x end.
Definition xfer_step (x : Xfers) (e : XEvent) : Xfers :=
  match e with
  | Enqueue online up host srcDir dstDir downloadDir ask listing names => enqueue online up host srcDir dstDir downloadDir ask listing names x
  | Started k ids => started k (fun id => start_ok id ids) x
  | StartFailed k => started k start_failed x
  | Poll => poll x
  | Polled now views => polled now views x
  | PollFailed => poll_failed x
  | Suspend host => suspendHost host x
  | Resume now host => resumeHost now host x
  | Pause now id => pause now id x
  | ResumeTask id => resumeTask id x
  | Retry id => retry id x
  | Cancel id => cancel id x
  | CancelAnswered rid => cancel_answered rid x
  | Dismiss id => dismiss id x
  | PauseAll now => pauseAll now x
  | ResumeAll => resumeAll x
  | RetryFailed => retryFailed x
  | ClearDone => clearDone x
  | Resolve online id how all => resolve online id how all x
  | ResolveAnswered online k => resolve_answered online k x
  end.
Definition xfer_run (x : Xfers) (es : list XEvent) : Xfers := fold_left xfer_step es x.

(** ** No transfer without a card *)

Definition on_card (x : Xfers) (rid : nat) : Prop :=
  exists id t, id ∈ x_tasks x /\ x_store x !! id = Some t /\ rid ∈ t_rids t /\ x_remote x !! rid = Some id.
Definition ended (st : TState) : Prop := st = t_done \/ st = t_failed \/ st = t_cancelled.
(** A file the core made is on a card that can stop it and hears of it, or the core was asked
    to cancel it, or its card was removed when it showed an end. *)
Definition accounted (x : Xfers) (rid : nat) : Prop :=
  on_card x rid \/ CancelCall rid ∈ x_calls x \/ exists st, (rid, st) ∈ x_released x /\ ended st.
Definition may_start (st : TState) : Prop := st = t_queued \/ st = t_waiting \/ st = t_paused \/ st = t_cancelled.
Record WF (x : Xfers) : Prop := {
  w_next : forall id t, x_store x !! id = Some t -> (id < x_next x)%nat;
  w_tasks : forall id, id ∈ x_tasks x -> is_Some (x_store x !! id);
  w_once : NoDup (x_starts x);
  w_starts : forall id, id ∈ x_starts x <-> exists t, x_store x !! id = Some t /\ t_starting t = true;
  w_starting : forall id t, x_store x !! id = Some t -> t_starting t = true ->
    t_rids t = [] /\ may_start (t_state t) /\ (t_state t <> t_cancelled -> id ∈ x_tasks x);
  w_remote : forall rid id, x_remote x !! rid = Some id -> exists t, x_store x !! id = Some t /\ rid ∈ t_rids t;
  w_rids : forall id t rid, x_store x !! id = Some t -> rid ∈ t_rids t -> rid ∈ x_made x;
  w_cancels : forall rid, rid ∈ x_cancels x -> CancelCall rid ∈ x_calls x;
  w_made : forall rid, rid ∈ x_made x -> accounted x rid }.

Lemma upd_inv id f x j t' : x_store (upd id f x) !! j = Some t' -> exists t, x_store x !! j = Some t /\ (t' = t /\ j <> id \/ j = id /\ t' = f t).
Proof.
  cbn. destruct (decide (j = id)) as [->|Hn].
  - rewrite lookup_alter_eq. destruct (x_store x !! id) as [t|]; [|done]. cbn. intros [= <-]. eauto.
  - rewrite lookup_alter_ne by done. eauto.
Qed.
Lemma upd_some id f x j t : x_store x !! j = Some t -> x_store (upd id f x) !! j = Some (if decide (j = id) then f t else t).
Proof. cbn. intros H. destruct (decide (j = id)) as [->|Hn]; [by rewrite lookup_alter_eq, H | by rewrite lookup_alter_ne]. Qed.
(** A change of a card that leaves its files and its start alone. *)
Lemma wf_upd id f x :
  (forall t, x_store x !! id = Some t -> t_rids (f t) = t_rids t /\ t_starting (f t) = t_starting t /\
     (t_starting t = true -> may_start (t_state (f t)) /\ (t_state (f t) <> t_cancelled -> t_state t <> t_cancelled \/ id ∈ x_tasks x))) ->
  WF x -> WF (upd id f x).
Proof.
  intros Hf [H1 H2 H3 H4 H5 H6 H7 H8 H9].
  assert (Hb : forall j t', x_store (upd id f x) !! j = Some t' -> exists t, x_store x !! j = Some t /\ t_rids t' = t_rids t /\ t_starting t' = t_starting t).
  { intros j t' E. apply upd_inv in E as (t & E & [[-> _]|[-> ->]]); exists t; [done|]. destruct (Hf t E) as (? & ? & _). done. }
  assert (Hg : forall j t, x_store x !! j = Some t -> exists t', x_store (upd id f x) !! j = Some t' /\ t_rids t' = t_rids t /\ t_starting t' = t_starting t).
  { intros j t E. rewrite (upd_some id f x j t E). destruct (decide (j = id)) as [->|]; eauto. destruct (Hf t E) as (? & ? & _). eauto. }
  split; auto.
  - intros j t' E. destruct (Hb j t' E) as (t & Et & _). eauto.
  - intros j Hj. destruct (H2 j Hj) as [t E]. destruct (Hg j t E) as (t' & -> & _). done.
  - intros j. change (x_starts (upd id f x)) with (x_starts x). rewrite H4. split; intros (t & E & Es).
    + destruct (Hg j t E) as (t' & E' & _ & Es'). exists t'. split; [done | congruence].
    + destruct (Hb j t E) as (t' & E' & _ & Es'). exists t'. split; [done | congruence].
  - intros j t' E Es. apply upd_inv in E as (t & E & [[-> _]|[-> ->]]); [by eapply H5|].
    destruct (Hf t E) as (Er & Es' & Hs). rewrite Es' in Es. destruct (H5 id t E Es) as (? & ? & Hin). destruct (Hs Es) as [? Hc].
    split; [by rewrite Er|]. split; [done|]. intros Hn. destruct (Hc Hn); auto.
  - intros rid j E. destruct (H6 rid j E) as (t & Et & Hr). destruct (Hg j t Et) as (t' & Et' & Er & _). exists t'. by rewrite Er.
  - intros j t' rid E Hr. destruct (Hb j t' E) as (t & Et & Er & _). rewrite Er in Hr. eauto.
  - intros rid Hr. destruct (H9 rid Hr) as [(j & t & Hj & Et & Hrid & Em)|Ha]; [left | by right].
    destruct (Hg j t Et) as (t' & Et' & Er & _). exists j, t'. by rewrite Er.
Qed.
Lemma wf_calls cs x : WF x -> WF (calls cs x).
Proof.
  intros [H1 H2 H3 H4 H5 H6 H7 H8 H9]. split; auto; cbn; intros rid Hr; [by apply elem_of_app; left; auto|].
  destruct (H9 rid Hr) as [Ha|[Ha|Ha]]; [by left | right; left; cbn; apply elem_of_app; by left | by right; right].
Qed.
Lemma wf_polling b x : WF x -> WF (with_polling b x).
Proof. intros []. split; auto. Qed.
Lemma wf_resolves l x : WF x -> WF (with_resolves l x).
Proof. intros []. split; auto. Qed.
Lemma wf_poll x : WF x -> WF (poll x).
Proof. intros. unfold poll. destruct (x_polling x); [done|]. by apply wf_calls, wf_polling. Qed.
(** The common changes: any state but one out of reach of a start, a mark, a time. *)
Lemma wf_state id f x :
  (forall t, t_rids (f t) = t_rids t /\ t_starting (f t) = t_starting t) ->
  (forall t, x_store x !! id = Some t -> t_starting t = true -> may_start (t_state (f t)) /\ (t_state (f t) <> t_cancelled -> t_state t <> t_cancelled \/ id ∈ x_tasks x)) ->
  WF x -> WF (upd id f x).
Proof. intros Hf Hs. apply wf_upd. intros t E. destruct (Hf t) as [-> ->]. auto. Qed.
Lemma wf_same id f x : (forall t, t_rids (f t) = t_rids t /\ t_starting (f t) = t_starting t /\ t_state (f t) = t_state t) -> WF x -> WF (upd id f x).
Proof.
  intros Hf H. apply wf_state; [intros t; by destruct (Hf t) as (? & ? & _) | | done].
  intros t E Es. destruct (Hf t) as (_ & _ & ->). destruct (w_starting x H id t E Es) as (_ & ? & ?). auto.
Qed.
Lemma wf_queued id f x : (forall t, t_rids (f t) = t_rids t /\ t_starting (f t) = t_starting t /\ t_state (f t) = t_queued) ->
  (forall t, x_store x !! id = Some t -> t_starting t = true -> id ∈ x_tasks x) -> WF x -> WF (upd id f x).
Proof.
  intros Hf Hin H. apply wf_state; [intros t; by destruct (Hf t) as (? & ? & _) | | done].
  intros t E Es. destruct (Hf t) as (_ & _ & ->). split; [by left|]. right. eauto.
Qed.
Lemma wf_startTask id t x : WF x -> x_store x !! id = Some t -> t_starting t = false -> t_rids t = [] -> t_state t = t_queued -> id ∈ x_tasks x -> WF (startTask id x).
Proof.
  intros [H1 H2 H3 H4 H5 H6 H7 H8 H9] E Es Er Et Hin. unfold startTask. rewrite E. apply wf_calls.
  assert (Hn : id ∉ x_starts x) by (rewrite H4; intros (t' & E' & Es'); simplify_eq; congruence).
  set (x' := upd id (set_starting true) x).
  assert (Hg : forall j t0, x_store x !! j = Some t0 -> exists t', x_store x' !! j = Some t' /\ t_rids t' = t_rids t0 /\ t_state t' = t_state t0 /\ (j <> id -> t' = t0)).
  { intros j t0 E0. unfold x'. rewrite (upd_some id _ x j t0 E0). destruct (decide (j = id)); eauto. eexists. split; [done|]. done. }
  assert (Hb : forall j t', x_store x' !! j = Some t' -> exists t0, x_store x !! j = Some t0 /\ t_rids t' = t_rids t0 /\ t_state t' = t_state t0 /\ (j <> id -> t' = t0)).
  { intros j t' E0. apply upd_inv in E0 as (t0 & E0 & [[-> ?]|[-> ->]]); exists t0; done. }
  split; cbn [x_next x_tasks x_starts x_remote x_made x_cancels x_calls with_starts x_store]; auto.
  - intros j t' E0. destruct (Hb j t' E0) as (t0 & ? & _). eauto.
  - intros j Hj. destruct (H2 j Hj) as [t0 E0]. destruct (Hg j t0 E0) as (t' & E' & _). exists t'. exact E'.
  - apply NoDup_app. split; [done|]. split; [|apply NoDup_singleton]. intros j Hj Hs. apply list_elem_of_singleton in Hs. by subst.
  - intros j. rewrite elem_of_app, list_elem_of_singleton. split.
    + intros [Hj| ->]; [|exists (set_starting true t); split; [|done]; change (x_store x' !! id = Some (set_starting true t)); unfold x'; rewrite (upd_some id _ x id t E); by destruct (decide (id = id))].
      assert (j <> id) as Hne by (by intros ->). apply H4 in Hj as (t0 & E0 & Es0). destruct (Hg j t0 E0) as (t' & E' & _ & _ & Heq). rewrite Heq in E' by done. eauto.
    + intros (t' & E' & Es'). destruct (decide (j = id)) as [->|Hne]; [by right|left]. destruct (Hb j t' E') as (t0 & E0 & _ & _ & Heq). rewrite Heq in Es' by done. apply H4. eauto.
  - intros j t' E' Es'. destruct (Hb j t' E') as (t0 & E0 & -> & -> & Heq). destruct (decide (j = id)) as [->|Hne]; [|rewrite Heq in Es' by done; by eapply H5].
    simplify_eq. rewrite Er, Et. split; [done|]. split; [by left | done].
  - intros rid j Em. destruct (H6 rid j Em) as (t0 & E0 & Hr). destruct (Hg j t0 E0) as (t' & E' & Er' & _). exists t'. by rewrite Er'.
  - intros j t' rid E' Hr. destruct (Hb j t' E') as (t0 & E0 & Er' & _). rewrite Er' in Hr. eauto.
  - intros rid Hr. destruct (H9 rid Hr) as [(j & t0 & Hj & E0 & Hrid & Em)|Ha]; [left | by right].
    destruct (Hg j t0 E0) as (t' & E' & Er' & _). exists j, t'. by rewrite Er'.
Qed.
Lemma wf_new_task o x : WF x -> WF (new_task o x).
Proof.
  intros [H1 H2 H3 H4 H5 H6 H7 H8 H9]. assert (Hf : x_store x !! x_next x = None).
  { destruct (x_store x !! x_next x) eqn:E; [|done]. apply H1 in E. lia. }
  assert (Hg : forall j t, x_store x !! j = Some t -> x_store (new_task o x) !! j = Some t).
  { intros j t E. cbn. rewrite lookup_insert_ne; [done | congruence]. }
  assert (Hb : forall j t, x_store (new_task o x) !! j = Some t -> x_store x !! j = Some t \/ j = x_next x /\ t_starting t = false /\ t_rids t = []).
  { intros j t E. cbn in E. destruct (decide (j = x_next x)) as [->|Hne]; [rewrite lookup_insert_eq in E; injection E as <-; by right | rewrite lookup_insert_ne in E by done; by left]. }
  split; cbn [x_next x_tasks x_starts x_remote x_made x_cancels x_calls new_task]; auto.
  - intros j t E. destruct (Hb j t E) as [E'|(-> & _)]; [apply H1 in E'|]; lia.
  - intros j Hj. apply elem_of_app in Hj as [Hj|Hj]; [destruct (H2 j Hj) as [t E]; exists t; by apply Hg|].
    apply list_elem_of_singleton in Hj as ->. cbn. rewrite lookup_insert_eq. done.
  - intros j. rewrite H4. split; intros (t & E & Es); [eauto|]. destruct (Hb j t E) as [?|(_ & ? & _)]; [eauto | congruence].
  - intros j t E Es. destruct (Hb j t E) as [E'|(_ & ? & _)]; [|congruence]. destruct (H5 j t E' Es) as (? & ? & Hin). split; [done|]. split; [done|]. intros. apply elem_of_app. left. auto.
  - intros rid j Em. destruct (H6 rid j Em) as (t & E & Hr). eauto.
  - intros j t rid E Hr. destruct (Hb j t E) as [E'|(_ & _ & Er)]; [eauto | rewrite Er in Hr; by apply elem_of_nil in Hr].
  - intros rid Hr. destruct (H9 rid Hr) as [(j & t & Hj & E & Hrid & Em)|Ha]; [left | by right]. exists j, t. split; [apply elem_of_app; by left | auto].
Qed.
Lemma wf_enqueue_loop mk listing names x : WF x -> WF (enqueue_loop mk listing names x).
Proof.
  revert x. induction names as [|name r IH]; intros x H; [done|]. cbn. destruct (List.find _ listing) as [n|]; [|by apply IH].
  destruct (mk n) as [o|]; [|done]. apply IH. eapply wf_startTask; [by apply wf_new_task | cbn; by rewrite lookup_insert_eq | done.. |]. cbn. apply elem_of_app. right. apply list_elem_of_singleton. done.
Qed.
(** A card leaves the list and these files are forgotten: each was released or cancelled. *)
Lemma wf_drop id t forgotten released x : WF x -> x_store x !! id = Some t -> (t_starting t = false \/ t_state t = t_cancelled) ->
  (forall rid, rid ∈ t_rids t -> (exists st, (rid, st) ∈ released /\ ended st) \/ CancelCall rid ∈ x_calls x) ->
  (forall rid, rid ∈ forgotten -> rid ∈ t_rids t) -> WF (uncard id released (forget_rids forgotten x)).
Proof.
  intros [H1 H2 H3 H4 H5 H6 H7 H8 H9] E Hns Hrel Hforg.
  assert (Hrem : forall rid j, fold_left (fun r i => delete i r) forgotten (x_remote x) !! rid = Some j <-> rid ∉ forgotten /\ x_remote x !! rid = Some j).
  { clear -H1. intros rid j. generalize (x_remote x) as r. induction forgotten as [|i l IH]; intros r; cbn; [split; [intros; split; [apply not_elem_of_nil | done] | by intros []]|].
    rewrite IH, not_elem_of_cons, lookup_delete_Some. naive_solver. }
  assert (Hin : forall j, j ∈ List.filter (fun i => negb (i =? id)%nat) (x_tasks x) <-> j ∈ x_tasks x /\ j <> id).
  { intros j. rewrite !list_elem_of_In, List.filter_In, negb_true_iff, Nat.eqb_neq. done. }
  split; cbn [x_next x_store x_tasks x_starts x_remote x_made x_cancels x_calls uncard forget_rids with_remote]; auto.
  - intros j Hj. apply Hin in Hj as [Hj _]. auto.
  - intros j t0 E0 Es0. destruct (H5 j t0 E0 Es0) as (? & ? & Hj). split; [done|]. split; [done|]. intros Hc. apply Hin. split; [auto|]. intros ->. simplify_eq. destruct Hns; congruence.
  - intros rid j Em. apply Hrem in Em as [_ Em]. auto.
  - intros rid Hr. destruct (decide (rid ∈ t_rids t)) as [Hrt|Hrt].
    + destruct (Hrel rid Hrt) as [(st & ? & ?)|?]; [right; right; exists st; split; [cbn; apply elem_of_app; by right | done] | by right; left].
    + destruct (H9 rid Hr) as [(j & t0 & Hj & E0 & Hrid & Em)|[Ha|(st & Ha & Hst)]]; [left | by right; left | right; right; exists st; split; [cbn; apply elem_of_app; by left | done]].
      exists j, t0. split; [apply Hin; split; [done|]; intros ->; by simplify_eq|]. split; [done|]. split; [done|]. cbn. apply Hrem. auto.
Qed.
Lemma taskById_Some id x t : taskById id x = Some t -> id ∈ x_tasks x /\ x_store x !! id = Some t.
Proof. unfold taskById. destruct (set_has id (x_tasks x)) eqn:E; [|done]. by apply set_has_spec in E. Qed.
Lemma wf_on_task id f x : WF x -> (forall t, id ∈ x_tasks x -> x_store x !! id = Some t -> WF (f t x)) -> WF (on_task id f x).
Proof. intros H Hf. unfold on_task. destruct (taskById id x) as [t|] eqn:E; [|done]. apply taskById_Some in E as [? ?]. auto. Qed.
Lemma wf_retryRust id x : WF x -> (forall t, x_store x !! id = Some t -> t_starting t = true -> id ∈ x_tasks x) -> WF (retryRust id x).
Proof. intros H Hin. unfold retryRust. destruct (x_store x !! id) as [t|] eqn:E; [|done]. apply wf_calls, wf_queued; [done | intros t' E'; simplify_eq; eauto | done]. Qed.
Lemma wf_to_live id st f x : may_start st -> st <> t_cancelled -> (forall t, t_rids (f t) = t_rids t /\ t_starting (f t) = t_starting t /\ t_state (f t) = st) ->
  id ∈ x_tasks x -> WF x -> WF (upd id f x).
Proof. intros Hm Hc Hf Hin H. apply wf_state; [intros t; by destruct (Hf t) as (? & ? & _) | | done]. intros t _ _. destruct (Hf t) as (_ & _ & ->). auto. Qed.
Lemma wf_pause now id x : WF x -> WF (pause now id x).
Proof.
  intros H. apply wf_on_task; [done|]. intros t Hin E.
  destruct (t_state t); try done; (destruct (bool_decide (t_rids t = [])); [done|]; apply wf_calls, (wf_to_live id t_paused); [by right; right; left | done | done | done | done]).
Qed.
(** Starting again is safe where no start of the card is under way. *)
Definition half_started (x : Xfers) (id : nat) : bool :=
  match x_store x !! id with Some t => t_starting t && bool_decide (t_state t = t_paused) | None => false end.
Lemma wf_retry id x : WF x -> half_started x id = false -> WF (retry id x).
Proof.
  intros H Hh. unfold half_started in Hh. apply wf_on_task; [done|]. intros t Hin E. rewrite E in Hh.
  assert (Hgo : (t_state t = t_failed \/ t_state t = t_paused) -> WF (if bool_decide (t_rids t = []) then startTask id (upd id (set_state t_queued) x) else retryRust id x)).
  { intros Hst. assert (Es : t_starting t = false).
    { destruct (t_starting t) eqn:Es; [|done]. destruct (w_starting x H id t E Es) as (_ & Hm & _). destruct Hst as [Hst|Hst]; [destruct Hm as [?|[?|[?|?]]]; congruence|]. by rewrite Hst in Hh. }
    destruct (bool_decide_reflect (t_rids t = [])) as [Er|Er]; [|apply wf_retryRust; [done | by intros]].
    eapply (wf_startTask id (set_state t_queued t)); [by apply wf_queued | rewrite (upd_some id _ x id t E); by destruct (decide (id = id)) | done..]. }
  destruct (t_state t); auto.
Qed.
Lemma wf_cancel id x : WF x -> WF (cancel id x).
Proof.
  intros H. apply wf_on_task; [done|]. intros t Hin E.
  assert (H1 : WF (upd id (set_state t_cancelled) x)). { apply wf_state; [done | | done]. intros t' _ _. split; [by right; right; right | done]. }
  assert (H2 : WF (uncard id [] (forget_rids [] (calls (CancelCall <$> t_rids t) (upd id (set_state t_cancelled) x))))).
  { eapply (wf_drop id (set_state t_cancelled t)); [by apply wf_calls | cbn [calls x_store]; rewrite (upd_some id _ x id t E); by destruct (decide (id = id)) | by right | | by intros rid Hr%elem_of_nil].
    intros rid Hr. right. cbn. apply elem_of_app. right. by apply list_elem_of_fmap_2. }
  destruct H2 as [A1 A2 A3 A4 A5 A6 A7 A8 A9]. split; cbn in *; auto.
  intros rid Hr. apply elem_of_app in Hr as [Hr|Hr]; [auto|]. apply elem_of_app. right. by apply list_elem_of_fmap_2.
Qed.
Lemma wf_cancel_answered rid x : WF x -> WF (cancel_answered rid x).
Proof.
  intros [H1 H2 H3 H4 H5 H6 H7 H8 H9]. unfold cancel_answered. destruct (set_has rid (x_cancels x)) eqn:E; [|by split]. apply set_has_spec in E.
  split; auto; cbn.
  - intros r j Hl. apply lookup_delete_Some in Hl as [_ Hl]. auto.
  - intros r Hr. destruct (decide (r = rid)) as [->|Hne]; [right; left; cbn; auto|].
    destruct (H9 r Hr) as [(j & t & Hj & Et & Hrid & Em)|Ha]; [left | by right]. exists j, t. do 3 (split; [done|]). cbn. by rewrite lookup_delete_ne.
Qed.
Lemma wf_release id t x : WF x -> x_store x !! id = Some t -> ACTIVE (t_state t) = false -> WF (uncard id (shown_with (t_state t) (t_rids t)) (forget_rids (t_rids t) x)).
Proof.
  intros H E Ha. eapply wf_drop; eauto; [destruct (t_starting t) eqn:Es; [right|by left]|].
  2: { intros rid Hr. left. exists (t_state t). split; [by apply list_elem_of_fmap_2 with (f := fun r => (r, t_state t)) in Hr|].
       unfold ended. destruct (t_state t); try done; auto. }
  destruct (w_starting x H id t E Es) as (_ & [Hs|[Hs|[Hs|Hs]]] & _); rewrite Hs in Ha; done.
Qed.
Lemma wf_dismiss id x : WF x -> WF (dismiss id x).
Proof. intros H. apply wf_on_task; [done|]. intros t Hin E. destruct (ACTIVE (t_state t)) eqn:Ea; [done | by eapply wf_release]. Qed.
Lemma wf_fold {A} (f : Xfers -> A -> Xfers) l x : (forall x a, WF x -> WF (f x a)) -> WF x -> WF (fold_left f l x).
Proof. intros Hf. revert x. induction l as [|a l IH]; intros x H; [done|]. cbn. auto. Qed.
Lemma wf_each f x : (forall id x, WF x -> WF (f id x)) -> WF x -> WF (each_task f x).
Proof. intros Hf. apply wf_fold. auto. Qed.
Lemma wf_pauseAll now x : WF x -> WF (pauseAll now x).
Proof.
  apply wf_each. clear x. intros id x H. apply wf_on_task; [done|]. intros t Hin E.
  destruct (t_state t); try done; (destruct (bool_decide (t_rids t = [])); [|by apply wf_pause]; apply (wf_to_live id t_paused); [by right; right; left | done..]).
Qed.
Lemma wf_clearDone x : WF x -> WF (clearDone x).
Proof.
  intros H. unfold clearDone. set (x1 := fold_left _ _ x). assert (H1 : WF x1).
  { apply wf_fold; [|done]. intros y id Hy. apply wf_on_task; [done|]. intros t Hin E. destruct (t_state t) eqn:Es; try done; (rewrite <- Es; eapply wf_release; [done | done | by rewrite Es]). }
  destruct (_ =? _)%nat; [done | by apply wf_calls].
Qed.
Lemma wf_on_host host f id x : (forall id x, WF x -> WF (f id x)) -> WF x -> WF (on_host host f id x).
Proof. intros Hf H. unfold on_host. destruct (x_store x !! id) as [t|]; [|done]. destruct (bool_decide _); auto. Qed.
Lemma wf_suspendHost host x : WF x -> WF (suspendHost host x).
Proof.
  apply wf_each. clear x. intros id x H. apply wf_on_host; [|done]. clear x H id. intros id x H. apply wf_on_task; [done|]. intros t Hin E.
  destruct (t_state t); try done; apply wf_calls; try (apply (wf_to_live id t_waiting); [by right; left | done..]). by apply wf_same.
Qed.
Lemma wf_resumeHost now host x : WF x -> WF (resumeHost now host x).
Proof.
  apply wf_each. clear x. intros id x H. apply wf_on_host; [|done]. clear x H id. intros id x H. apply wf_on_task; [done|]. intros t Hin E.
  destruct (_ || t_held t); [|done]. set (x1 := upd id (set_held false) x). assert (H1 : WF x1) by (by apply wf_same).
  destruct (t_rids t) as [|r rs] eqn:Er; [|apply wf_retryRust; [by apply wf_same | by intros]].
  destruct (bool_decide _); [|done]. set (x2 := upd id (set_state t_queued) x1). assert (H2 : WF x2) by (by apply wf_queued).
  destruct (t_starting t) eqn:Es; [done|]. eapply (wf_startTask id (set_state t_queued (set_held false t))); [done | | done..].
  unfold x2. rewrite (upd_some id _ x1 id (set_held false t)); [by destruct (decide (id = id))|]. unfold x1. rewrite (upd_some id _ x id t E). by destruct (decide (id = id)).
Qed.
(** The start of a card is answered. *)
Definition unstarted (k id : nat) (x : Xfers) : Xfers := upd id (set_starting false) (with_starts (delete k (x_starts x)) x).
Lemma wf_unstarted k id x : WF x -> x_starts x !! k = Some id ->
  WF (unstarted k id x) /\ exists t, x_store x !! id = Some t /\ x_store (unstarted k id x) !! id = Some (set_starting false t) /\ t_rids t = [] /\ (t_state t <> t_cancelled -> id ∈ x_tasks x).
Proof.
  intros [H1 H2 H3 H4 H5 H6 H7 H8 H9] Ek.
  assert (Hk : id ∈ x_starts x) by (by eapply list_elem_of_lookup_2). destruct (proj1 (H4 id) Hk) as (t & E & Es). destruct (H5 id t E Es) as (Er & Hm & Hin).
  assert (Eu : forall j t0, x_store x !! j = Some t0 -> x_store (unstarted k id x) !! j = Some (if decide (j = id) then set_starting false t0 else t0)).
  { intros j t0 E0. by apply (upd_some id (set_starting false) (with_starts _ x)). }
  assert (Hb : forall j t', x_store (unstarted k id x) !! j = Some t' -> exists t0, x_store x !! j = Some t0 /\ t_rids t' = t_rids t0 /\ (j <> id /\ t' = t0 \/ j = id /\ t_starting t' = false)).
  { intros j t' E0. apply upd_inv in E0 as (t0 & E0 & [[-> ?]|[-> ->]]); exists t0; naive_solver. }
  split; [|exists t; split; [done|]; split; [rewrite (Eu id t E); by destruct (decide (id = id)) | done]].
  split; cbn [x_next x_tasks x_starts x_remote x_made x_cancels x_calls unstarted upd with_starts]; auto.
  - intros j t' E0. destruct (Hb j t' E0) as (t0 & ? & _). eauto.
  - intros j Hj. destruct (H2 j Hj) as [t0 E0]. eexists. by apply Eu.
  - by apply (elem_delete k id id).
  - intros j. rewrite (proj2 (elem_delete k id j _ H3 Ek)), H4. split.
    + intros [(t0 & E0 & Es0) Hne]. exists t0. rewrite (Eu j t0 E0). by destruct (decide (j = id)).
    + intros (t' & E' & Es'). destruct (Hb j t' E') as (t0 & E0 & _ & [[? ->]|[-> ?]]); [|congruence]. eauto.
  - intros j t' E' Es'. destruct (Hb j t' E') as (t0 & E0 & _ & [[? ->]|[-> ?]]); [by eapply H5 | congruence].
  - intros rid j Em. destruct (H6 rid j Em) as (t0 & E0 & Hr). eexists. split; [by apply Eu|]. by destruct (decide (j = id)).
  - intros j t' rid E' Hr. destruct (Hb j t' E') as (t0 & E0 & Er' & _). rewrite Er' in Hr. eauto.
  - intros rid Hr. destruct (H9 rid Hr) as [(j & t0 & Hj & E0 & Hrid & Em)|Ha]; [left | by right].
    eexists j, _. split; [done|]. split; [by apply Eu|]. by destruct (decide (j = id)).
Qed.
Lemma fold_insert_lookup (ids : list nat) (id : nat) (r : gmap nat nat) rid :
  fold_left (fun r i => <[i := id]> r) ids r !! rid = if decide (rid ∈ ids) then Some id else r !! rid.
Proof.
  revert r. induction ids as [|i ids IH]; intros r; cbn; [by destruct (decide (rid ∈ [])) as [H%elem_of_nil|]|]. rewrite IH.
  destruct (decide (rid ∈ ids)) as [Hi|Hi], (decide (rid ∈ i :: ids)) as [Hj|Hj]; try done.
  - exfalso. apply Hj. by right.
  - apply elem_of_cons in Hj as [->|?]; [by rewrite lookup_insert_eq | done].
  - apply not_elem_of_cons in Hj as [? _]. by rewrite lookup_insert_ne.
Qed.
(** The files of the answer go on the card. *)
Lemma wf_carded id t ids x : WF x -> x_store x !! id = Some t -> t_starting t = false -> t_rids t = [] -> id ∈ x_tasks x -> Forall (fun i => i ∉ x_made x) ids ->
  WF (with_remote (fold_left (fun r i => <[i := id]> r) ids (x_remote x)) (upd id (fun t => set_started (set_rids ids t)) (made ids x))).
Proof.
  intros [H1 H2 H3 H4 H5 H6 H7 H8 H9] E Es Er Hin Hfresh. rewrite Forall_forall in Hfresh. set (f := fun t => set_started (set_rids ids t)). set (z := with_remote _ _).
  assert (Eu : forall j t0, x_store x !! j = Some t0 -> x_store z !! j = Some (if decide (j = id) then f t0 else t0)) by (intros j t0 E0; by apply (upd_some id f (made ids x))).
  assert (Hb : forall j t', x_store z !! j = Some t' -> exists t0, x_store x !! j = Some t0 /\ t_starting t' = t_starting t0 /\ (j <> id /\ t' = t0 \/ j = id /\ t_rids t' = ids)).
  { intros j t' E0. apply (upd_inv id f (made ids x)) in E0 as (t0 & E0 & [[-> ?]|[-> ->]]); exists t0; naive_solver. }
  assert (Erem : forall rid, x_remote z !! rid = if decide (rid ∈ ids) then Some id else x_remote x !! rid) by (intros; apply fold_insert_lookup).
  assert (Hnew : forall rid, rid ∈ ids -> exists t', x_store z !! id = Some t' /\ rid ∈ t_rids t').
  { intros rid Hr. eexists. split; [by apply Eu|]. by destruct (decide (id = id)). }
  split; cbn [x_next x_tasks x_starts x_made x_cancels x_calls]; auto.
  - intros j t' E0. destruct (Hb j t' E0) as (t0 & ? & _). eauto.
  - intros j Hj. destruct (H2 j Hj) as [t0 E0]. eexists. by apply Eu.
  - intros j. change (x_starts z) with (x_starts x). rewrite H4. split.
    + intros (t0 & E0 & Es0). eexists. split; [by apply Eu|]. by destruct (decide (j = id)).
    + intros (t' & E' & Es'). destruct (Hb j t' E') as (t0 & E0 & Es0 & _). exists t0. split; [done | congruence].
  - intros j t' E' Es'. destruct (Hb j t' E') as (t0 & E0 & Es0 & [[? ->]|[-> ?]]); [by eapply H5|]. exfalso. simplify_eq. congruence.
  - intros rid j Em. rewrite Erem in Em. destruct (decide (rid ∈ ids)) as [Hi|Hi]; [injection Em as <-; auto|].
    destruct (H6 rid j Em) as (t0 & E0 & Hr). eexists. split; [by apply Eu|]. destruct (decide (j = id)) as [->|]; [|done]. simplify_eq. rewrite Er in Hr. by apply elem_of_nil in Hr.
  - intros j t' rid E' Hr. cbn. apply elem_of_app. destruct (Hb j t' E') as (t0 & E0 & _ & [[? ->]|[-> ?]]); [left; eauto | right; congruence].
  - intros rid Hr. cbn in Hr. apply elem_of_app in Hr as [Hr|Hr].
    + destruct (H9 rid Hr) as [(j & t0 & Hj & E0 & Hrid & Em)|Ha]; [left | by right]. exists j, t0. split; [done|].
      assert (j <> id) as Hne by (intros ->; simplify_eq; rewrite Er in Hrid; by apply elem_of_nil in Hrid).
      split; [rewrite (Eu j t0 E0); by destruct (decide (j = id))|]. split; [done|]. rewrite Erem. destruct (decide (rid ∈ ids)) as [Hi|]; [|done]. by destruct (Hfresh rid Hi).
    + left. destruct (Hnew rid Hr) as (t' & E' & Hr'). exists id, t'. do 3 (split; [done|]). rewrite Erem. by destruct (decide (rid ∈ ids)).
Qed.
Lemma wf_made_cancelled ids x : WF x -> WF (calls (CancelCall <$> ids) (made ids x)).
Proof.
  intros [H1 H2 H3 H4 H5 H6 H7 H8 H9]. split; auto; cbn.
  - intros j t rid E Hr. apply elem_of_app. left. eauto.
  - intros rid Hr. apply elem_of_app. left. auto.
  - intros rid Hr. apply elem_of_app in Hr as [Hr|Hr].
    + destruct (H9 rid Hr) as [Ha|[Ha|Ha]]; [by left | right; left; cbn; apply elem_of_app; by left | by right; right].
    + right. left. cbn. apply elem_of_app. right. by apply list_elem_of_fmap_2.
Qed.
Lemma wf_started k ids x : WF x -> Forall (fun i => i ∉ x_made x) ids -> WF (started k (fun id => start_ok id ids) x).
Proof.
  intros H Hfresh. unfold started. destruct (x_starts x !! k) as [id|] eqn:Ek; [|done]. destruct (wf_unstarted k id x H Ek) as (Hu & t & E & Eu & Er & Hin).
  unfold start_ok. cbn [with_starts x_store]. rewrite E.
  change (upd id (set_starting false) (made ids (with_starts (delete k (x_starts x)) x))) with (made ids (unstarted k id x)).
  destruct (bool_decide_reflect (t_state t = t_cancelled)) as [Hc|Hc]; [by apply wf_made_cancelled|].
  destruct (bool_decide_reflect (ids = [])) as [->|Hne].
  - apply wf_state; [done | | destruct Hu; split; cbn in *; rewrite ?app_nil_r; auto].
    intros t' E' Es'. cbn in E'. change (x_store (unstarted k id x) !! id = Some t') in E'. rewrite Eu in E'. injection E' as <-. done.
  - apply wf_poll. assert (Hc2 := wf_carded id (set_starting false t) ids (unstarted k id x) Hu Eu eq_refl Er (Hin Hc) Hfresh).
    destruct (t_held t); [apply wf_calls|]; exact Hc2.
Qed.
Lemma wf_start_failed k x : WF x -> WF (started k start_failed x).
Proof.
  intros H. unfold started. destruct (x_starts x !! k) as [id|] eqn:Ek; [|done]. destruct (wf_unstarted k id x H Ek) as (Hu & t & E & Eu & Er & Hin).
  unfold start_failed. cbn [with_starts x_store]. rewrite E. destruct (_ && _); [exact Hu|].
  apply (wf_state id (set_state t_failed) (unstarted k id x)); [done | | done]. intros t' E' Es'. rewrite Eu in E'. injection E' as <-. done.
Qed.
(** The files a group names are on its card. *)
Definition grouped (x : Xfers) (g : nat * list View) : Prop := exists t, x_store x !! g.1 = Some t /\ Forall (fun v => v_id v ∈ t_rids t) g.2.
Lemma add_view_grouped x id v gs t : x_store x !! id = Some t -> v_id v ∈ t_rids t -> Forall (grouped x) gs -> Forall (grouped x) (add_view id v gs).
Proof.
  intros E Hv. induction 1 as [|[i vs] gs (t' & E' & Hg) Hgs IH]; cbn.
  - apply Forall_singleton. exists t. split; [done | by apply Forall_singleton].
  - cbn in E', Hg. destruct (Nat.eqb_spec i id) as [->|Hne]; (constructor; [|assumption]).
    + simplify_eq. exists t. split; [done|]. cbn. apply Forall_app. split; [done | by apply Forall_singleton].
    + by exists t'.
Qed.
Lemma groups_grouped x views : WF x -> Forall (grouped x) (groups (x_remote x) views).
Proof.
  intros H. unfold groups. assert (Hg : Forall (grouped x) []) by constructor. revert Hg. generalize (@nil (nat * list View)) as gs.
  induction views as [|v views IH]; intros gs Hg; [done|]. cbn. apply IH. destruct (x_remote x !! v_id v) as [id|] eqn:Em; [|done].
  destruct (w_remote x H _ _ Em) as (t & E & Hr). by eapply add_view_grouped.
Qed.
(** A poll changes neither which files a card has nor which cards there are objects for. *)
Definition keeps_rids (x y : Xfers) : Prop := forall id t, x_store x !! id = Some t -> exists t', x_store y !! id = Some t' /\ t_rids t' = t_rids t.
Lemma keeps_upd id f x : (forall t, t_rids (f t) = t_rids t) -> keeps_rids x (upd id f x).
Proof. intros Hf j t E. eexists. split; [by apply upd_some|]. by destruct (decide (j = id)). Qed.
Lemma keeps_trans x y z : keeps_rids x y -> keeps_rids y z -> keeps_rids x z.
Proof. intros H1 H2 id t E. destruct (H1 id t E) as (t1 & E1 & R1). destruct (H2 id t1 E1) as (t2 & E2 & R2). exists t2. split; [done | congruence]. Qed.
Lemma keeps_refl x : keeps_rids x x.
Proof. intros id t E. eauto. Qed.
Lemma keeps_retryRust id x : keeps_rids x (retryRust id x).
Proof. unfold retryRust. destruct (x_store x !! id); [|apply keeps_refl]. by apply (keeps_upd id (fun t => set_state t_queued (set_held false t))). Qed.
Lemma keeps_poll_one now x g : keeps_rids x (poll_one now x g).
Proof.
  destruct g as [id vs]. unfold poll_one. destruct (x_store x !! id) as [t|]; [|apply keeps_refl]. destruct (bool_decide _); [apply keeps_refl|].
  set (x1 := upd id (set_conflicts _) x). assert (K1 : keeps_rids x x1) by (by apply keeps_upd).
  set (st := held_state now t (card_state vs)). set (x3 := retryRust id _).
  assert (K3 : keeps_rids x x3). { eapply keeps_trans; [exact K1|]. eapply keeps_trans; [|apply keeps_retryRust]. by apply keeps_upd. }
  assert (Kend : forall st x2, keeps_rids x x2 -> keeps_rids x (if skipped vs then uncard id (shown_with t_cancelled (t_rids t)) (forget_rids (v_id <$> vs) x2) else upd id (set_state st) x2)).
  { intros st2 x2 K. destruct (skipped vs); [exact K|]. eapply keeps_trans; [exact K | by apply keeps_upd]. }
  destruct (again now t st); by apply Kend.
Qed.
Lemma grouped_keeps x y g : keeps_rids x y -> grouped x g -> grouped y g.
Proof. intros K (t & E & Hg). destruct (K _ _ E) as (t' & E' & Er). exists t'. by rewrite Er. Qed.
Lemma wf_idle id f x t : x_store x !! id = Some t -> t_starting t = false -> (forall t, t_rids (f t) = t_rids t /\ t_starting (f t) = t_starting t) -> WF x -> WF (upd id f x).
Proof. intros E Es Hf H. apply wf_state; [done | | done]. intros t' E' Es'. simplify_eq. congruence. Qed.
Lemma wf_poll_one now x g : WF x -> grouped x g -> g.2 <> [] -> WF (poll_one now x g).
Proof.
  destruct g as [id vs]. intros H (t & E & Hg) Hne. cbn in E, Hg, Hne. unfold poll_one. rewrite E. destruct (bool_decide_reflect (t_state t = t_cancelled)) as [|Hc]; [done|].
  assert (Es : t_starting t = false).
  { destruct (t_starting t) eqn:Es; [|done]. destruct (w_starting x H id t E Es) as (Er & _). destruct vs as [|v vs]; [done|].
    apply Forall_cons in Hg as [Hv _]. rewrite Er in Hv. by apply elem_of_nil in Hv. }
  set (f := set_conflicts _). set (x1 := upd id f x). assert (H1 : WF x1) by (by eapply wf_idle).
  assert (E1 : x_store x1 !! id = Some (f t)) by (unfold x1; rewrite (upd_some id f x id t E); by destruct (decide (id = id))).
  set (g := fun t => set_times (t_pauseAt t) (t_resumedAt t) now t). set (y := upd id g x1).
  assert (Ey : x_store y !! id = Some (g (f t))) by (unfold y; rewrite (upd_some id g x1 id _ E1); by destruct (decide (id = id))).
  assert (H3 : WF (retryRust id y)).
  { apply wf_retryRust; [by eapply (wf_idle id g x1) |]. intros t' E'. rewrite Ey in E'. injection E' as <-. cbn. congruence. }
  assert (E3 : exists t3, x_store (retryRust id y) !! id = Some t3 /\ t_rids t3 = t_rids t /\ t_starting t3 = false).
  { eexists. split; [|split]; [unfold retryRust; rewrite Ey; apply (upd_some id _ y id _ Ey) | by destruct (decide (id = id)) | by destruct (decide (id = id))]. }
  assert (Hend : forall st x2 t2, WF x2 -> x_store x2 !! id = Some t2 -> t_rids t2 = t_rids t -> t_starting t2 = false ->
    WF (if skipped vs then uncard id (shown_with t_cancelled (t_rids t)) (forget_rids (v_id <$> vs) x2) else upd id (set_state st) x2)).
  { intros st x2 t2 H2 E2 R2 S2. destruct (skipped vs); [|by eapply wf_idle]. eapply wf_drop; [done | done | by left | |].
    { rewrite R2. intros rid Hr. left. exists t_cancelled. split; [by apply (list_elem_of_fmap_2 (fun r => (r, t_cancelled))) | by right; right]. }
    intros rid Hr. rewrite R2. apply list_elem_of_fmap in Hr as (v & -> & Hv). rewrite Forall_forall in Hg. auto. }
  destruct (again now t _); [destruct E3 as (t3 & E3 & R3 & S3)|]; eapply Hend; eauto.
Qed.
Lemma groups_nonempty remote views : Forall (fun g => g.2 <> []) (groups remote views).
Proof.
  unfold groups. assert (Hg : Forall (fun g : nat * list View => g.2 <> []) []) by constructor. revert Hg. generalize (@nil (nat * list View)) as gs.
  induction views as [|v views IH]; intros gs Hg; [done|]. cbn. apply IH. destruct (remote !! v_id v) as [id|]; [|done].
  clear IH. induction Hg as [|[i vs] gs Hi Hg IH]; cbn; [by apply Forall_singleton|]. destruct (i =? id)%nat; constructor; auto. cbn. by destruct vs.
Qed.
Lemma wf_polled now views x : WF x -> WF (polled now views x).
Proof.
  intros H. unfold polled. destruct (x_polling x); [|done]. apply wf_polling.
  pose proof (groups_grouped x views H) as Hg. pose proof (groups_nonempty (x_remote x) views) as Hne. revert x H Hg Hne. generalize (groups) as gs. intros gsf x.
  generalize (gsf (x_remote x) views). clear gsf. intros gs. revert x. induction gs as [|g gs IH]; intros x H Hg Hne; [done|]. cbn.
  apply Forall_cons in Hg as [Hg1 Hg], Hne as [Hn1 Hne]. apply IH; [by apply wf_poll_one | | done].
  eapply Forall_impl; [exact Hg|]. intros g'. apply grouped_keeps, keeps_poll_one.
Qed.
Lemma wf_resolve_go online how wait x : WF x -> WF (resolve_go online how wait x).
Proof.
  revert x. induction wait as [|id r IH]; intros x H; cbn; [by apply wf_poll|]. destruct (x_store x !! id) as [t|] eqn:E; [|auto].
  destruct (bool_decide_reflect (t_state t = t_conflict)) as [Ec|]; [|by apply IH]. destruct (online _); [|by apply IH]. cbn [andb].
  assert (Es : t_starting t = false). { destruct (t_starting t) eqn:Es; [|done]. destruct (w_starting x H id t E Es) as (_ & [?|[?|[?|?]]] & _); congruence. }
  assert (H1 : WF (upd id (set_state t_queued) x)) by (by eapply wf_idle). destruct (t_conflictRids t); [by apply IH|]. by apply wf_calls, wf_resolves.
Qed.
Lemma half_retry id j x : half_started x j = false -> half_started (retry id x) j = false.
Proof.
  intros H. unfold retry, on_task. destruct (taskById id x) as [t|] eqn:Et; [|done]. apply taskById_Some in Et as [_ E].
  assert (Hgo : half_started (if bool_decide (t_rids t = []) then startTask id (upd id (set_state t_queued) x) else retryRust id x) j = false).
  { assert (Eq : x_store (upd id (set_state t_queued) x) !! id = Some (set_state t_queued t)) by (rewrite (upd_some id _ x id t E); by destruct (decide (id = id))).
    unfold half_started in *. destruct (decide (j = id)) as [->|Hne].
    - destruct (bool_decide (t_rids t = [])).
      + unfold startTask. rewrite Eq. cbn [calls with_starts x_store]. rewrite (upd_some id _ (upd id (set_state t_queued) x) id _ Eq). destruct (decide (id = id)); done.
      + unfold retryRust. rewrite E. cbn [calls x_store]. rewrite (upd_some id _ x id _ E). destruct (decide (id = id)); [|done]. cbn. by rewrite andb_false_r.
    - destruct (bool_decide (t_rids t = [])).
      + unfold startTask. rewrite Eq. cbn. by rewrite !lookup_alter_ne.
      + unfold retryRust. rewrite E. cbn. by rewrite lookup_alter_ne. }
  destruct (t_state t); done.
Qed.
(** What happens in a run: the core's answers to a start name new files, and a card held before
    it has started is not started again meanwhile. *)
Definition fits (x : Xfers) (e : XEvent) : bool :=
  match e with
  | Started _ ids => List.forallb (fun i => negb (set_has i (x_made x))) ids
  | Retry id => negb (half_started x id)
  | ResumeAll => List.forallb (fun id => negb (half_started x id)) (x_tasks x)
  | _ => true
  end.
Lemma wf_resumeAll x : WF x -> Forall (fun id => half_started x id = false) (x_tasks x) -> WF (resumeAll x).
Proof.
  unfold resumeAll, each_task. generalize (x_tasks x) as l. intros l. revert x. induction l as [|id l IH]; intros x H Hh; [done|]. cbn. apply Forall_cons in Hh as [Hi Hh].
  unfold on_task at 2. destruct (taskById id x) as [t|]; [|by apply IH].
  assert (Hr : WF (fold_left (fun x id => on_task id (fun t x => match t_state t with t_waiting | t_paused => retry id x | _ => x end) x) l (retry id x))).
  { apply IH; [by apply wf_retry|]. eapply Forall_impl; [exact Hh|]. intros j. apply half_retry. }
  destruct (t_state t); auto.
Qed.
Lemma wf_retryFailed x : WF x -> WF (retryFailed x).
Proof.
  apply wf_each. clear x. intros id x H. apply wf_on_task; [done|]. intros t Hin E. destruct (t_state t) eqn:Es; try done. apply wf_retry; [done|].
  unfold half_started. rewrite E, Es. by rewrite andb_false_r.
Qed.
Lemma wf_step x e : WF x -> fits x e = true -> WF (xfer_step x e).
Proof.
  intros H Hf. destruct e; cbn [xfer_step fits] in *; auto using wf_pause, wf_cancel, wf_cancel_answered, wf_dismiss, wf_pauseAll, wf_clearDone, wf_suspendHost, wf_resumeHost, wf_start_failed, wf_polled, wf_poll, wf_retryFailed.
  - unfold enqueue. destruct online; [by apply wf_enqueue_loop | done].
  - apply wf_started; [done|]. rewrite Forall_forall. intros i Hi. rewrite List.forallb_forall in Hf. specialize (Hf i). rewrite <- list_elem_of_In in Hf. specialize (Hf Hi).
    apply negb_true_iff, set_has_false in Hf. done.
  - unfold poll_failed. destruct (x_polling x); [by apply wf_polling | done].
  - apply wf_on_task; [done|]. intros t Hin E. apply wf_retryRust; [done | by intros].
  - apply wf_retry; [done | by apply negb_true_iff].
  - apply wf_resumeAll; [done|]. rewrite Forall_forall. intros i Hi. rewrite List.forallb_forall in Hf. specialize (Hf i). rewrite <- list_elem_of_In in Hf. by apply negb_true_iff, Hf.
  - unfold resolve. by apply wf_resolve_go.
  - unfold resolve_answered. destruct (x_resolves x !! k) as [[[how [|rid rids]] wait]|]; [|by apply wf_calls, wf_resolves | done]. by apply wf_resolve_go, wf_resolves.
Qed.
Fixpoint all_fit (x : Xfers) (es : list XEvent) : bool := match es with [] => true | e :: r => fits x e && all_fit (xfer_step x e) r end.
Lemma wf_init : WF x_init.
Proof. split; cbn; try done; try (intros *; rewrite ?elem_of_nil; try done); [constructor|]. split; [done|]. intros (t & E & _). done. Qed.

Definition a_file (name : string) : Node := {| n_name := js name; n_dir := false; n_bytes := 1; n_mod := 0; n_perm := []; n_path := js "/home/" ++ js name; n_cc := None; n_kids := None |}.
Definition queue_one (name : string) : XEvent := Enqueue true true (js "pc") (js "/home") (js "/srv") [] false [a_file name] [js name].
(** Resuming everything while a held card is still starting starts it again, and the files of
    the first answer are then on no card: pausing or cancelling it does not reach them. *)
Theorem resume_all_starts_twice :
  let es := [queue_one "a"; PauseAll 10; ResumeAll; Started 0 [7]%nat; Started 0 [8]%nat; Cancel 0] in
  let x := xfer_run x_init es in
  x_made x = [7; 8]%nat /\ x_tasks x = [] /\ CancelCall 8 ∈ x_calls x /\ CancelCall 7 ∉ x_calls x /\ x_released x = [].
Proof.
  vm_compute. do 2 (split; [reflexivity|]). repeat split; [repeat constructor | intros H; repeat (apply elem_of_cons in H as [H|H]; [done|]); by apply elem_of_nil in H].
Qed.
(** A transfer paused by "pause all" before it had started is started by the next reconnect. *)
Theorem reconnect_undoes_pause_all :
  let x := xfer_run x_init [queue_one "a"; PauseAll 10; Started 0 [7]%nat; Suspend (js "pc")] in
  (t_state <$> x_store x !! 0%nat) = Some t_paused /\
  let y := xfer_step x (Resume 20 (js "pc")) in (t_state <$> x_store y !! 0%nat) = Some t_queued /\ RetryCall 7 ∈ x_calls y.
Proof. vm_compute. do 2 (split; [reflexivity|]). repeat constructor. Qed.
(** "Resume all" passes over the transfers that wait for their server. *)
Theorem resume_all_skips_waiting x : (forall id t, x_store x !! id = Some t -> t_state t <> t_paused) -> resumeAll x = x.
Proof.
  intros H. unfold resumeAll, each_task. induction (x_tasks x) as [|id l IH]; [done|]. cbn. unfold on_task at 2. destruct (taskById id x) as [t|] eqn:Et; [|done].
  pose proof (taskById_Some id x t Et) as [_ E]. specialize (H id t E). destruct (t_state t) eqn:Es; try done. unfold retry, on_task. by rewrite Et, Es.
Qed.

(** ** What a poll tells *)

Definition v_active (v : View) : bool := match v_state v with v_queued | v_running | v_paused | v_conflict => true | _ => false end.
Lemma some_is_false st vs : some_is st vs = false -> Forall (fun v => v_state v <> st) vs.
Proof. unfold some_is. induction vs as [|v vs IH]; cbn; [constructor|]. rewrite orb_false_iff. intros [H1 H2]. constructor; [by apply bool_decide_eq_false in H1 | auto]. Qed.
Lemma card_state_ended vs : ACTIVE (card_state vs) = false -> Forall (fun v => v_active v = false) vs.
Proof.
  unfold card_state. destruct (some_is v_conflict vs) eqn:E1; [done|]. destruct (some_is v_running vs) eqn:E2; [done|]. destruct (some_is v_queued vs) eqn:E3; [done|].
  destruct (some_is v_paused vs) eqn:E4; [done|]. intros _. apply some_is_false in E1, E2, E3, E4.
  induction vs as [|v vs IH]; constructor; repeat match goal with H : Forall _ (_ :: _) |- _ => apply Forall_cons in H as [? ?] end; [|auto]. unfold v_active. destruct (v_state v); done.
Qed.
Lemma held_state_ended now t st : ACTIVE (held_state now t st) = false -> held_state now t st = st.
Proof. unfold held_state. destruct (t_state t), st; try done; destruct (now - t_pauseAt t <? 3000); done. Qed.
Lemma again_paused now t st : again now t st = true -> st = t_paused.
Proof. unfold again. destruct (bool_decide_reflect (st = t_paused)); done. Qed.
Lemma upd_state_of id st x t' : x_store (upd id (set_state st) x) !! id = Some t' -> t_state t' = st.
Proof. intros E. apply upd_inv in E as (t & _ & [[_ ?]|[_ ->]]); done. Qed.
(** A poll ends a card only when none of its files is still going, and says "done" only when
    none failed. *)
Theorem poll_tells_end now x id vs t t' : x_store x !! id = Some t -> ACTIVE (t_state t) = true ->
  x_store (poll_one now x (id, vs)) !! id = Some t' -> ACTIVE (t_state t') = false ->
  Forall (fun v => v_active v = false) vs /\ (t_state t' = t_done -> Forall (fun v => v_state v <> v_failed) vs).
Proof.
  intros E Ha E' He. unfold poll_one in E'. rewrite E in E'. destruct (bool_decide_reflect (t_state t = t_cancelled)) as [Hc|_]; [by rewrite Hc in Ha|].
  destruct (again now t (held_state now t (card_state vs))) eqn:Eag.
  - exfalso. set (y := upd id _ _) in E'. assert (Hq : forall t0, x_store (retryRust id y) !! id = Some t0 -> t_state t0 = t_queued).
    { intros t0 E0. unfold retryRust in E0. destruct (x_store y !! id) as [t1|] eqn:E1; [|congruence]. cbn [calls x_store] in E0. apply upd_inv in E0 as (t2 & _ & [[_ ?]|[_ ->]]); done. }
    destruct (skipped vs); [cbn in E'; rewrite (Hq t' E') in He; done|]. apply upd_state_of in E'. by rewrite E' in He.
  - destruct (skipped vs).
    + exfalso. cbn in E'. rewrite lookup_alter_eq, E in E'. injection E' as <-. cbn in He. congruence.
    + apply upd_state_of in E'. rewrite E' in He. assert (Hst := held_state_ended now t _ He). rewrite Hst in *. split; [by apply card_state_ended|].
      intros Hd. rewrite Hd in E'. symmetry in E'. unfold card_state in E'. destruct (some_is v_conflict vs); [done|]. destruct (some_is v_running vs); [done|]. destruct (some_is v_queued vs); [done|].
      destruct (some_is v_paused vs); [done|]. destruct (some_is v_failed vs) eqn:Ef; [done|]. by apply some_is_false.
Qed.

(** ** The server goes and comes back *)

Lemma fold_reaches (R Q : Xfers -> Prop) (f : nat -> Xfers -> Xfers) id l x : id ∈ l ->
  (forall j y, R y -> R (f j y)) -> (forall y, R y -> Q (f id y)) -> (forall j y, Q y -> Q (f j y)) -> R x -> Q (fold_left (fun x j => f j x) l x).
Proof.
  intros Hin Hr Hq Hk. revert x. induction l as [|j l IH]; intros x HR; [by apply elem_of_nil in Hin|]. cbn. destruct (decide (j = id)) as [->|Hne].
  - assert (HQ : Q (f id x)) by auto. clear -HQ Hk. revert HQ. generalize (f id x). induction l as [|k l IH]; intros y HQ; [done|]. cbn. auto.
  - apply elem_of_cons in Hin as [?|Hin]; [done|]. auto.
Qed.
(** A visit to another card leaves this one alone and only adds requests. *)
Definition beside (id : nat) (x y : Xfers) : Prop := x_store y !! id = x_store x !! id /\ x_tasks y = x_tasks x /\ (forall c, c ∈ x_calls x -> c ∈ x_calls y).
Lemma beside_trans id x y z : beside id x y -> beside id y z -> beside id x z.
Proof. intros (H1 & H2 & H3) (K1 & K2 & K3). split; [congruence|]. split; [congruence | auto]. Qed.
Lemma beside_refl id x : beside id x x.
Proof. done. Qed.
Lemma beside_upd id j f x : j <> id -> beside id x (upd j f x).
Proof. intros. split; [cbn; by rewrite lookup_alter_ne | done]. Qed.
Lemma beside_calls id cs x : beside id x (calls cs x).
Proof. split; [done|]. split; [done|]. intros c Hc. cbn. apply elem_of_app. by left. Qed.
Lemma beside_startTask id j x : j <> id -> beside id x (startTask j x).
Proof. intros. unfold startTask. destruct (x_store x !! j); [|apply beside_refl]. eapply beside_trans; [by apply (beside_upd id j (set_starting true)) | split; [done|]; split; [done|]; intros c Hc; cbn; apply elem_of_app; by left]. Qed.
Lemma beside_retryRust id j x : j <> id -> beside id x (retryRust j x).
Proof. intros. unfold retryRust. destruct (x_store x !! j); [|apply beside_refl]. eapply beside_trans; [by apply beside_upd | apply beside_calls]. Qed.
Lemma beside_host host f id j x : (forall t, j <> id -> beside id x (f t j x)) -> j <> id -> beside id x (on_host host (fun j => on_task j (fun t => f t j)) j x).
Proof.
  intros Hf Hne. unfold on_host. destruct (x_store x !! j); [|apply beside_refl]. destruct (bool_decide _); [|apply beside_refl].
  unfold on_task. destruct (taskById j x); [auto | apply beside_refl].
Qed.
Lemma beside_suspend host id j x : j <> id -> beside id x (on_host host suspend_one j x).
Proof.
  intros Hne. apply (beside_host host (fun t j x => match t_state t with
    | t_running | t_queued => calls (PauseCall <$> t_rids t) (upd j (fun t => set_state t_waiting (set_held true t)) x)
    | t_conflict => calls (PauseCall <$> t_rids t) (upd j (set_held true) x) | _ => x end)); [|done].
  intros t _. destruct (t_state t); try apply beside_refl; (eapply beside_trans; [by apply beside_upd | apply beside_calls]).
Qed.
Lemma beside_resume now host id j x : j <> id -> beside id x (on_host host (resume_one now) j x).
Proof.
  intros Hne. unfold on_host. destruct (x_store x !! j); [|apply beside_refl]. destruct (bool_decide _); [|apply beside_refl].
  unfold resume_one, on_task. destruct (taskById j x) as [t0|]; [|apply beside_refl]. destruct (_ || _); [|apply beside_refl].
  eapply beside_trans; [by apply (beside_upd id j (set_held false))|]. destruct (t_rids t0).
  - destruct (bool_decide _); [|apply beside_refl]. eapply beside_trans; [by apply (beside_upd id j (set_state t_queued))|]. destruct (t_starting t0); [apply beside_refl | by apply beside_startTask].
  - eapply beside_trans; [by apply beside_upd | by apply beside_retryRust].
Qed.
Lemma on_own host f id x t : id ∈ x_tasks x -> x_store x !! id = Some t -> o_host (t_order t) = host -> on_host host (fun j => on_task j (f j)) id x = f id t x.
Proof. intros Hin E Hh. unfold on_host. rewrite E, bool_decide_eq_true_2 by done. unfold on_task, taskById. by rewrite (proj2 (set_has_spec id (x_tasks x)) Hin), E. Qed.

(** What a visit to a card establishes, and a second visit keeps, holds of it after a round. *)
Lemma each_reaches (P : Task -> list Call -> Prop) f id x t :
  id ∈ x_tasks x -> x_store x !! id = Some t ->
  (forall t cs cs', (forall c, c ∈ cs -> c ∈ cs') -> P t cs -> P t cs') ->
  (forall j z, j <> id -> beside id z (f j z)) ->
  (forall z t0, id ∈ x_tasks z -> x_store z !! id = Some t0 -> t0 = t \/ P t0 (x_calls z) ->
     x_tasks (f id z) = x_tasks z /\ exists t', x_store (f id z) !! id = Some t' /\ P t' (x_calls (f id z))) ->
  exists t', x_store (each_task f x) !! id = Some t' /\ P t' (x_calls (each_task f x)).
Proof.
  intros Hin E Hm Hb Hf. set (ok := fun (u : Task -> list Call -> Prop) z => x_tasks z = x_tasks x /\ exists t0, x_store z !! id = Some t0 /\ u t0 (x_calls z)).
  assert (Hother : forall (u : Task -> list Call -> Prop) j z, (forall t cs cs', (forall c, c ∈ cs -> c ∈ cs') -> u t cs -> u t cs') -> j <> id -> ok u z -> ok u (f j z)).
  { intros u j z Hu Hne (Ht & t0 & E0 & H0). destruct (Hb j z Hne) as (B1 & B2 & B3). split; [congruence|]. exists t0. split; [congruence | by eapply Hu]. }
  assert (Hself : forall z, ok (fun t0 cs => t0 = t \/ P t0 cs) z -> ok P (f id z)).
  { intros z (Ht & t0 & E0 & H0). destruct (Hf z t0 ltac:(by rewrite Ht) E0 H0) as (Ht' & t' & E' & H'). split; [congruence | by exists t']. }
  assert (Hw : forall z, ok P z -> ok (fun t0 cs => t0 = t \/ P t0 cs) z) by (intros z (Ht & t0 & E0 & H0); split; [done | exists t0; auto]).
  assert (Hm2 : forall t0 cs cs', (forall c, c ∈ cs -> c ∈ cs') -> t0 = t \/ P t0 cs -> t0 = t \/ P t0 cs') by (intros t0 cs cs' Hc [?|?]; [by left | right; by eapply Hm]).
  assert (H : ok P (each_task f x)); [|by destruct H as [_ H]]. unfold each_task.
  apply (fold_reaches (ok (fun t0 cs => t0 = t \/ P t0 cs)) (ok P) f id); [done | | done | | split; [done | exists t; auto]].
  - intros j z Hz. destruct (decide (j = id)) as [->|Hne]; auto.
  - intros j z Hz. destruct (decide (j = id)) as [->|Hne]; auto.
Qed.
Lemma upd_own id f x t : x_store x !! id = Some t -> x_store (upd id f x) !! id = Some (f t).
Proof. intros E. rewrite (upd_some id f x id t E). by destruct (decide (id = id)). Qed.

(** When the connection to a server is lost, each of its transfers that was going is stopped in
    the core, every file of it, and its card waits. *)
Theorem suspend_stops host x id t : id ∈ x_tasks x -> x_store x !! id = Some t -> o_host (t_order t) = host ->
  t_state t = t_running \/ t_state t = t_queued ->
  let y := suspendHost host x in
  exists t', x_store y !! id = Some t' /\ t_state t' = t_waiting /\ t_held t' = true /\ t_rids t' = t_rids t /\ Forall (fun rid => PauseCall rid ∈ x_calls y) (t_rids t).
Proof.
  intros Hin E Hh Hst y.
  destruct (each_reaches (fun t' cs => t_order t' = t_order t /\ t_state t' = t_waiting /\ t_held t' = true /\ t_rids t' = t_rids t /\ Forall (fun rid => PauseCall rid ∈ cs) (t_rids t))
    (on_host host suspend_one) id x t Hin E) as (t' & E' & _ & ?); [| apply beside_suspend | | by exists t'].
  - intros t0 cs cs' Hc (? & ? & ? & ? & Hp). do 4 (split; [done|]). eapply Forall_impl; [exact Hp|]. auto.
  - intros z t0 Hz Ez H0. assert (Ho : o_host (t_order t0) = host) by (destruct H0 as [->|(-> & _)]; done).
    unfold suspend_one. rewrite (on_own host (fun id t x => _) id z t0) by done. cbv beta. destruct H0 as [->|(H1 & H2 & H3)]; [|rewrite H2; split; [done | by exists t0]].
    assert (HG : forall w, w = calls (PauseCall <$> t_rids t) (upd id (fun t => set_state t_waiting (set_held true t)) z) -> x_tasks w = x_tasks z /\
      exists t', x_store w !! id = Some t' /\ t_order t' = t_order t /\ t_state t' = t_waiting /\ t_held t' = true /\ t_rids t' = t_rids t /\ Forall (fun rid => PauseCall rid ∈ x_calls w) (t_rids t)).
    { intros w ->. split; [done|]. eexists. split; [by apply (upd_own id _ z t)|]. do 4 (split; [done|]). apply Forall_forall. intros rid Hr. cbn. apply elem_of_app. right. by apply list_elem_of_fmap_2. }
    by destruct Hst as [-> | ->]; apply HG.
Qed.
(** When it is back, each card that waited is queued again: the core is told to go on with every
    file of it, or its start is under way. *)
Theorem resume_restarts now host x id t : id ∈ x_tasks x -> x_store x !! id = Some t -> o_host (t_order t) = host -> t_state t = t_waiting ->
  let y := resumeHost now host x in
  exists t', x_store y !! id = Some t' /\ t_state t' = t_queued /\ t_held t' = false /\
    (if bool_decide (t_rids t = []) then t_starting t' = true else Forall (fun rid => RetryCall rid ∈ x_calls y) (t_rids t)).
Proof.
  intros Hin E Hh Hst y.
  set (P := fun (t' : Task) (cs : list Call) => t_order t' = t_order t /\ t_state t' = t_queued /\ t_held t' = false /\ (if bool_decide (t_rids t = []) then t_starting t' = true else Forall (fun rid => RetryCall rid ∈ cs) (t_rids t))).
  destruct (each_reaches P (on_host host (resume_one now)) id x t Hin E) as (t' & E' & _ & ?); [| apply beside_resume | | by exists t'].
  - intros t0 cs cs' Hc (? & ? & ? & Hp). do 3 (split; [done|]). destruct (bool_decide _); [done|]. eapply Forall_impl; [exact Hp|]. auto.
  - intros z t0 Hz Ez H0. assert (Ho : o_host (t_order t0) = host) by (destruct H0 as [->|(-> & _)]; done).
    unfold resume_one. rewrite (on_own host (fun id t x => _) id z t0) by done. cbv beta.
    destruct H0 as [->|HP]; [|destruct HP as (H1 & H2 & H3 & H4); rewrite H2, H3; split; [done | by exists t0]].
    rewrite Hst. cbn [bool_decide orb]. set (z1 := upd id (set_held false) z). assert (E1 : x_store z1 !! id = Some (set_held false t)) by (by apply upd_own).
    unfold P. destruct (t_rids t) as [|r rs] eqn:Er; cbn [bool_decide].
    + rewrite bool_decide_eq_true_2 by done. set (z2 := upd id (set_state t_queued) z1). assert (E2 : x_store z2 !! id = Some (set_state t_queued (set_held false t))) by (by apply (upd_own id (set_state t_queued) z1)).
      cbn. destruct (t_starting t) eqn:Es; [split; [done|]; eexists; split; [exact E2|]; done|].
      unfold startTask. rewrite E2. split; [done|]. eexists. split; [by apply (upd_own id (set_starting true) z2)|]. done.
    + set (z2 := upd id _ z1). assert (E2 := upd_own id (fun t => set_times (t_pauseAt t) now (t_autoRetryAt t) t) z1 _ E1). fold z2 in E2.
      cbn. unfold retryRust. rewrite E2. split; [done|]. eexists. split; [by apply (upd_own id _ z2)|]. do 3 (split; [done|]). cbn [t_rids set_times set_held].
      apply Forall_forall. intros rid Hr. cbn [calls x_calls]. apply elem_of_app. right. apply list_elem_of_fmap_2. by rewrite Er.
Qed.
