(* ===== verification/Qr.v ===== *)
(** * The QR code of a pairing

    The encoder of [desktop/ui/qr.js]: byte mode, error correction L or M, versions 1 to 10.
    The two arrays of the source, the modules and which of them belong to a pattern, are one
    grid; [x] is the column and [y] the row. *)

From Stdlib Require Import ZArith Lia Bool.
From Stdlib Require List.
From stdpp Require Import gmap.
From S2P Require Import Prelude JsCollections JsString Utf8.
Local Open Scope js_scope.

(** ** Sizes *)

(** Per version: blocks and correction words of a block; [e_f] is what the format bits say. *)
Record Ecc := { e_f : Z; e_b : list Z; e_e : list Z }.
Definition ECC_L : Ecc := {| e_f := 1; e_b := [0; 1; 1; 1; 1; 1; 2; 2; 2; 2; 4]; e_e := [0; 7; 10; 15; 20; 26; 18; 20; 24; 30; 18] |}.
Definition ECC_M : Ecc := {| e_f := 0; e_b := [0; 1; 1; 1; 2; 2; 4; 4; 4; 5; 5]; e_e := [0; 10; 16; 26; 18; 24; 16; 18; 22; 22; 26] |}.
Definition entry (l : list Z) (v : Z) : Z := default 0 (l !! Z.to_nat v).
Definition rawModules (v : Z) : Z :=
  let r := (16 * v + 128) * v + 64 in
  if 2 <=? v then
    let n := v / 7 + 2 in
    let r := r - ((25 * n - 10) * n - 55) in
    if 7 <=? v then r - 36 else r
  else r.
Definition dataWords (v : Z) (E : Ecc) : Z := rawModules v / 8 - entry (e_e E) v * entry (e_b E) v.
(** The bytes of the text: [unescape] of a text [encodeURIComponent] made. *)
Definition qr_bytes (s : jstr) : option (list Z) := e ← encodeURIComponent s; percent_decode e.
Fixpoint align_loop (n : nat) (p step : Z) (r : list Z) : list Z := match n with O => r | S n => align_loop n (p - step) step (p :: r) end.
Definition alignPos (v size : Z) : list Z :=
  if v =? 1 then []
  else
    let n := v / 7 + 2 in
    let step := - (- (v * 4 + 4) / (n * 2 - 2)) * 2 in
    6 :: align_loop (Z.to_nat (n - 1)) (size - 7) step [].

(** ** Reed-Solomon words over the field of 256 elements *)

Definition mul_step (x y z i : Z) : Z :=
  let z := Z.lxor (Z.shiftl z 1) (Z.shiftr z 7 * 285) in Z.lxor z (Z.land (Z.shiftr y i) 1 * x).
Definition mul (x y : Z) : Z := fold_left (mul_step x y) [7; 6; 5; 4; 3; 2; 1; 0] 0.
(** One round of [rsGen], in place from the first entry on. *)
Fixpoint gen_round (root : Z) (r : list Z) : list Z :=
  match r with
  | [] => []
  | c :: t => (match t with [] => mul c root | c' :: _ => Z.lxor (mul c root) c' end) :: gen_round root t
  end.
Fixpoint gen_rounds (n : nat) (root : Z) (r : list Z) : list Z := match n with O => r | S n => gen_rounds n (mul root 2) (gen_round root r) end.
Definition rsGen (d : nat) : list Z := gen_rounds d 1 (replicate (d - 1) 0 ++ [1]).
Definition rem_step (gen r : list Z) (b : Z) : list Z :=
  let f := Z.lxor b (default 0 (head r)) in zip_with (fun ri c => Z.lxor ri (mul c f)) (tail r ++ [0]) gen.
Definition rsRem (data gen : list Z) : list Z := fold_left (rem_step gen) data (replicate (length gen) 0).

(** ** The words *)

Definition count_bits (v : Z) : Z := if v <? 10 then 8 else 16.
Definition fit (n : nat) (E : Ecc) : option Z := List.find (fun k => 4 + count_bits k + Z.of_nat n * 8 <=? dataWords k E * 8) (seqZ 1 10).
Definition put (val n : Z) : list Z := (fun i => Z.land (Z.shiftr val i) 1) <$> rev (seqZ 0 n).
(** The fill bytes, alternating, until the words are full. *)
Fixpoint fill (fuel : nat) (p : Z) (cap : nat) (bits : list Z) : list Z :=
  match fuel with
  | O => bits
  | S fuel => if (length bits <? cap)%nat then fill fuel (Z.lxor p (Z.lxor 236 17)) cap (bits ++ put p 8) else bits
  end.
Definition to_whole (bits : list Z) : list Z := bits ++ replicate ((8 - length bits mod 8) mod 8)%nat 0.
Definition payload (v : Z) (bytes : list Z) : list Z := put 4 4 ++ put (Z.of_nat (length bytes)) (count_bits v) ++ (bytes ≫= fun b => put b 8).
Definition message_bits (v : Z) (E : Ecc) (bytes : list Z) : list Z :=
  let cap := dataWords v E * 8 in
  let bits := payload v bytes in
  let bits := bits ++ put 0 (Z.min 4 (cap - Z.of_nat (length bits))) in
  fill (Z.to_nat cap) 236 (Z.to_nat cap) (to_whole bits).
Definition word_of (bits : list Z) : Z := fold_left (fun a b => 2 * a + b) bits 0.
Fixpoint words_of (fuel : nat) (bits : list Z) : list Z :=
  match fuel, bits with
  | S fuel, _ :: _ => word_of (take 8 bits) :: words_of fuel (drop 8 bits)
  | _, _ => []
  end.
Record Plan := { pl_nb : Z; pl_ecc : Z; pl_nShort : Z; pl_shortLen : Z }.
Definition plan_of (v : Z) (E : Ecc) : Plan :=
  let nb := entry (e_b E) v in
  let raw := rawModules v / 8 in
  {| pl_nb := nb; pl_ecc := entry (e_e E) v; pl_nShort := nb - raw mod nb; pl_shortLen := raw / nb |}.
Fixpoint blocks_loop (p : Plan) (gen : list Z) (ns : list Z) (data : list Z) : list (list Z) :=
  match ns with
  | [] => []
  | i :: r =>
      let n := Z.to_nat (pl_shortLen p - pl_ecc p + (if i <? pl_nShort p then 0 else 1)) in
      let dat := take n data in
      (dat ++ (if i <? pl_nShort p then [0] else []) ++ rsRem dat gen) :: blocks_loop p gen r (drop n data)
  end.
(** Column by column; the filler of a short block is passed over. *)
Definition column (p : Plan) (blocks : list (list Z)) (i : nat) : list Z :=
  (fun '(j, b) => default 0 (b !! i)) <$> List.filter (fun '(j, b) => negb (Z.of_nat i =? pl_shortLen p - pl_ecc p) || (pl_nShort p <=? j)) (zip (seqZ 0 (Z.of_nat (length blocks))) blocks).
Definition interleave (p : Plan) (blocks : list (list Z)) : list Z := seq 0 (length (default [] (head blocks))) ≫= column p blocks.
Definition codewords (v : Z) (E : Ecc) (bytes : list Z) : list Z :=
  let p := plan_of v E in
  let bits := message_bits v E bytes in
  let data := words_of (length bits) bits in
  interleave p (blocks_loop p (rsGen (Z.to_nat (pl_ecc p))) (seqZ 0 (pl_nb p)) data).

(** ** The modules *)

Notation cell := (Z * Z)%type.
Notation Grid := (gmap cell bool).
Definition write (g : Grid) (w : cell * bool) : Grid := <[w.1 := w.2]> g.
Definition writes (ws : list (cell * bool)) (g : Grid) : Grid := fold_left write ws g.
Definition blank (size : Z) : Grid := list_to_map (y ← seqZ 0 size; (fun x => ((x, y), false)) <$> seqZ 0 size).
Definition timing (size : Z) : list (cell * bool) := i ← seqZ 0 size; [((6, i), i mod 2 =? 0); ((i, 6), i mod 2 =? 0)].
Definition square (r cx cy : Z) (dark : Z -> bool) : list (cell * bool) :=
  dy ← seqZ (- r) (2 * r + 1); (fun dx => ((cx + dx, cy + dy), dark (Z.max (Z.abs dx) (Z.abs dy)))) <$> seqZ (- r) (2 * r + 1).
Definition inside (size : Z) (p : cell) : bool := (0 <=? p.1) && (p.1 <? size) && (0 <=? p.2) && (p.2 <? size).
Definition finders (size : Z) : list (cell * bool) :=
  List.filter (fun w => inside size w.1)
    (c ← [(3, 3); (size - 4, 3); (3, size - 4)]; square 4 c.1 c.2 (fun d => negb (d =? 2) && negb (d =? 4))).
Definition alignment (v size : Z) : list (cell * bool) :=
  let ap := alignPos v size in
  let n := length ap in
  let at_ := zip (seq 0 n) ap in
  '(i, cx) ← at_;
  '(j, cy) ← at_;
  (if ((i =? 0) && (j =? 0) || (i =? 0) && (j =? n - 1) || (i =? n - 1) && (j =? 0))%nat then []
   else square 2 cx cy (fun d => negb (d =? 1))).
Definition bch (poly top : Z) (n : nat) (d : Z) : Z := Nat.iter n (fun rem => Z.lxor (Z.shiftl rem 1) (Z.shiftr rem top * poly)) d.
Definition format_bits (E : Ecc) (mask : Z) : Z :=
  let d := Z.lor (Z.shiftl (e_f E) 3) mask in Z.lxor (Z.lor (Z.shiftl d 10) (bch 1335 9 10 d)) 21522.
Definition bit_of (b i : Z) : bool := negb (Z.land (Z.shiftr b i) 1 =? 0).
(** The cells of the two copies of the format bits. *)
Definition format_cells (size : Z) : list (cell * Z) :=
  ((fun i => ((8, i), i)) <$> seqZ 0 6) ++ [((8, 7), 6); ((8, 8), 7); ((7, 8), 8)] ++ ((fun i => ((14 - i, 8), i)) <$> seqZ 9 6) ++
  ((fun i => ((size - 1 - i, 8), i)) <$> seqZ 0 8) ++ ((fun i => ((8, size - 15 + i), i)) <$> seqZ 8 7).
Definition fmt (size : Z) (E : Ecc) (mask : Z) : list (cell * bool) :=
  ((fun '(p, i) => (p, bit_of (format_bits E mask) i)) <$> format_cells size) ++ [((8, size - 8), true)].
Definition version_info (v size : Z) : list (cell * bool) :=
  if 7 <=? v then
    let b := Z.lor (Z.shiftl v 12) (bch 7973 11 12 v) in
    i ← seqZ 0 18; let a := size - 11 + i mod 3 in let c := i / 3 in [((a, c), bit_of b i); ((c, a), bit_of b i)]
  else [].
Definition patterns (v size : Z) (E : Ecc) : list (cell * bool) := timing size ++ finders size ++ alignment v size ++ fmt size E 0 ++ version_info v size.
(** [F]: the cells some pattern has set. *)
Definition reserved (v size : Z) (E : Ecc) : gset cell := list_to_set (fst <$> patterns v size E).
(** The columns pairs are read in, from the right, passing over the timing column. *)
Fixpoint rights (fuel : nat) (right : Z) : list Z :=
  match fuel with
  | O => []
  | S fuel => if 1 <=? right then let right := if right =? 6 then 5 else right in right :: rights fuel (right - 2) else []
  end.
Definition zigzag (size : Z) : list cell :=
  right ← rights (Z.to_nat size) (size - 1);
  vert ← seqZ 0 size;
  (fun j => (right - j, if Z.land (right + 1) 2 =? 0 then size - 1 - vert else vert)) <$> [0; 1].
Fixpoint place (F : gset cell) (cells : list cell) (bits : list Z) (g : Grid) : Grid :=
  match cells with
  | [] => g
  | p :: r =>
      if bool_decide (p ∈ F) then place F r bits g
      else match bits with [] => place F r [] g | b :: bits => place F r bits (<[p := negb (b =? 0)]> g) end
  end.
Definition inv (m x y : Z) : bool :=
  match m with
  | 0 => (x + y) mod 2 =? 0
  | 1 => y mod 2 =? 0
  | 2 => x mod 3 =? 0
  | 3 => (x + y) mod 3 =? 0
  | 4 => (x / 3 + y / 2) mod 2 =? 0
  | 5 => (x * y) mod 2 + (x * y) mod 3 =? 0
  | 6 => ((x * y) mod 2 + (x * y) mod 3) mod 2 =? 0
  | 7 => ((x + y) mod 2 + (x * y) mod 3) mod 2 =? 0
  | _ => false
  end.
(** Every module is visited once. *)
Definition mask (F : gset cell) (m : Z) (g : Grid) : Grid :=
  map_imap (fun p d => Some (if negb (bool_decide (p ∈ F)) && inv m p.1 p.2 then negb d else d)) g.

(** ** The mask with the least penalty *)

Definition dark (g : Grid) (x y : Z) : bool := default false (g !! (x, y)).
Fixpoint runs (prev : bool) (run : Z) (cells : list bool) : Z :=
  match cells with
  | [] => 0
  | c :: r => if Bool.eqb c prev then (if run + 1 =? 5 then 3 else if 5 <? run + 1 then 1 else 0) + runs c (run + 1) r else runs c 1 r
  end.
Definition line_penalty (cells : list bool) : Z := match cells with [] => 0 | c :: r => runs c 1 r end.
Definition sum (l : list Z) : Z := fold_right Z.add 0 l.
Definition penalty (size : Z) (g : Grid) : Z :=
  let n := seqZ 0 size in
  let m := seqZ 0 (size - 1) in
  sum ((fun a => line_penalty ((fun b => dark g b a) <$> n)) <$> n) + sum ((fun a => line_penalty ((fun b => dark g a b) <$> n)) <$> n)
  + sum (y ← m; (fun x => if Bool.eqb (dark g x y) (dark g (x + 1) y) && Bool.eqb (dark g x y) (dark g x (y + 1)) && Bool.eqb (dark g x y) (dark g (x + 1) (y + 1)) then 3 else 0) <$> m)
  + Z.abs (Z.of_nat (length (List.filter id (y ← n; (fun x => dark g x y) <$> n))) * 20 - size * size * 10) / (size * size) * 10.
Fixpoint choose (F : gset cell) (size : Z) (E : Ecc) (ms : list Z) (best : Z) (bp : option Z) (g : Grid) : Z * Grid :=
  match ms with
  | [] => (best, g)
  | m :: r =>
      let g1 := writes (fmt size E m) (mask F m g) in
      let p := penalty size g1 in
      let g2 := mask F m g1 in
      if match bp with Some b => p <? b | None => true end then choose F size E r m (Some p) g2 else choose F size E r best bp g2
  end.

Record Code := { c_size : Z; c_version : Z; c_modules : Grid }.
Definition code_size (v : Z) : Z := v * 4 + 17.
Definition unmasked (v : Z) (E : Ecc) (bytes : list Z) : Grid :=
  let size := code_size v in
  place (reserved v size E) (zigzag size) (codewords v E bytes ≫= fun w => put w 8) (writes (patterns v size E) (blank size)).
(** A payload that does not fit with the asked correction is tried with the lowest. *)
Definition choose_fit (n : nat) (E : Ecc) : option (Z * Ecc) :=
  match fit n E with Some v => Some (v, E) | None => match fit n ECC_L with Some v => Some (v, ECC_L) | None => None end end.
Definition make_bytes (bytes : list Z) (E : Ecc) : option Code :=
  '(v, E) ← choose_fit (length bytes) E;
  let size := code_size v in
  let F := reserved v size E in
  let '(best, g) := choose F size E (seqZ 0 8) 0 None (unmasked v E bytes) in
  Some {| c_size := size; c_version := v; c_modules := writes (fmt size E best) (mask F best g) |}.
(** [None]: the text is not well formed, or too long for a code. *)
Definition make (text : jstr) (E : Ecc) : option Code := bytes ← qr_bytes text; make_bytes bytes E.
Definition get (c : Code) (x y : Z) : bool := inside (c_size c) (x, y) && dark (c_modules c) x y.
