(* ===== verification/QrField.v ===== *)
(** * The correction words of a QR code

    Arithmetic of [mul] in [desktop/ui/qr.js]: it is multiplication in the field of 256
    elements, so the words [rsRem] appends make every block a multiple of the generator, and a
    reader's syndromes of it are all zero. *)

From Stdlib Require Import ZArith Lia Bool.
From Stdlib Require List.
From S2P Require Import Prelude JsCollections JsString Utf8 Qr.
Local Open Scope js_scope.

#[local] Arguments mul : simpl never.
#[local] Arguments Z.lxor : simpl never.

Definition byte (x : Z) : Prop := 0 <= x < 256.
Lemma lxor_byte x y : byte x -> byte y -> byte (Z.lxor x y).
Proof.
  unfold byte. intros Hx Hy. split; [apply Z.lxor_nonneg; lia|]. destruct (Z.eq_dec (Z.lxor x y) 0) as [->|Hn]; [lia|].
  change 256 with (2 ^ 8). apply Z.log2_lt_pow2; [pose proof (proj2 (Z.lxor_nonneg x y)); lia|].
  eapply Z.le_lt_trans; [apply Z.log2_lxor; lia|]. apply Z.max_lub_lt.
  - destruct (Z.eq_dec x 0) as [->|]; [done|]. apply Z.log2_lt_pow2; lia.
  - destruct (Z.eq_dec y 0) as [->|]; [done|]. apply Z.log2_lt_pow2; lia.
Qed.
Create HintDb qr.
#[export] Hint Resolve lxor_byte : qr.
Lemma byte_0 : byte 0.
Proof. unfold byte. lia. Qed.
#[export] Hint Resolve byte_0 : qr.

(** ** Linearity *)

(** The sum of the entries of [row] at the bits of [x]. *)
Fixpoint pick (row : list Z) (i x : Z) : Z := match row with [] => 0 | c :: r => Z.lxor (if Z.testbit x i then c else 0) (pick r (i + 1) x) end.
Lemma pick_lxor row i x y : pick row i (Z.lxor x y) = Z.lxor (pick row i x) (pick row i y).
Proof.
  revert i. induction row as [|c r IH]; intros i; [done|]. cbn [pick]. rewrite IH, Z.lxor_spec.
  rewrite <- !Z.lxor_assoc. f_equal. rewrite (Z.lxor_comm (if Z.testbit x i then c else 0) (pick r (i + 1) x)), !Z.lxor_assoc.
  rewrite (Z.lxor_comm _ (pick r (i + 1) x)). f_equal. destruct (Z.testbit x i), (Z.testbit y i); cbn [xorb]; rewrite ?Z.lxor_nilpotent, ?Z.lxor_0_l, ?Z.lxor_0_r; done.
Qed.
Definition powers : list Z := [1; 2; 4; 8; 16; 32; 64; 128].
Definition bit (u : Z) : Prop := u = 0 \/ u = 1.
Lemma bit_scale u v c : bit u -> bit v -> Z.lxor u v * c = Z.lxor (u * c) (v * c).
Proof. intros [-> | ->] [-> | ->]; cbn -[Z.mul]; rewrite ?Z.mul_0_l, ?Z.lxor_0_l, ?Z.lxor_0_r, ?Z.mul_1_l, ?Z.lxor_nilpotent; done. Qed.
Lemma land_bit y i : bit (Z.land (Z.shiftr y i) 1).
Proof. change 1 with (Z.ones 1). rewrite Z.land_ones by lia. unfold bit. pose proof (Z.mod_pos_bound (Z.shiftr y i) (2 ^ 1) ltac:(lia)). lia. Qed.
Definition xtime (z : Z) : Z := Z.lxor (Z.shiftl z 1) (Z.shiftr z 7 * 285).
Lemma xtime_byte z : byte z -> byte (xtime z).
Proof. intros Hz. unfold byte. assert ((0 <=? xtime z) && (xtime z <? 256) = true) as H; [|lia]. apply (byte_forall (fun z => (0 <=? xtime z) && (xtime z <? 256))); [|done]. vm_compute. reflexivity. Qed.
Lemma lxor_swap a b c d : Z.lxor (Z.lxor a b) (Z.lxor c d) = Z.lxor (Z.lxor a c) (Z.lxor b d).
Proof. rewrite !Z.lxor_assoc. f_equal. rewrite <- !Z.lxor_assoc. f_equal. apply Z.lxor_comm. Qed.
Lemma xtime_lxor y z : byte y -> byte z -> xtime (Z.lxor y z) = Z.lxor (xtime y) (xtime z).
Proof.
  intros Hy Hz. assert (Hb : forall z, byte z -> bit (Z.shiftr z 7)).
  { intros x Hx. unfold bit. rewrite Z.shiftr_div_pow2 by lia. change (2 ^ 7) with 128. unfold byte in Hx.
    pose proof (Z.div_pos x 128). pose proof (Z.div_lt_upper_bound x 128 2). lia. }
  unfold xtime. rewrite Z.shiftl_lxor, Z.shiftr_lxor, bit_scale by auto. apply lxor_swap.
Qed.
Lemma land_lxor a b c : Z.land (Z.lxor a b) c = Z.lxor (Z.land a c) (Z.land b c).
Proof. apply Z.bits_inj'. intros n _. rewrite !Z.land_spec, !Z.lxor_spec, !Z.land_spec. by destruct (Z.testbit a n), (Z.testbit b n), (Z.testbit c n). Qed.
Lemma mul_steps x ns y y' z z' : byte x -> byte z -> byte z' ->
  fold_left (mul_step x (Z.lxor y y')) ns (Z.lxor z z') = Z.lxor (fold_left (mul_step x y) ns z) (fold_left (mul_step x y') ns z').
Proof.
  intros Hx. revert z z'. induction ns as [|i ns IH]; intros z z' Hz Hz'; [done|]. cbn [fold_left].
  assert (Hs : forall y z, byte z -> byte (mul_step x y z i)).
  { intros w u Hu. unfold mul_step. fold (xtime u). destruct (land_bit w i) as [-> | ->]; rewrite ?Z.mul_0_l, ?Z.mul_1_l; auto using xtime_byte with qr. }
  assert (E : mul_step x (Z.lxor y y') (Z.lxor z z') i = Z.lxor (mul_step x y z i) (mul_step x y' z' i)).
  { unfold mul_step. fold (xtime z) (xtime z') (xtime (Z.lxor z z')). rewrite xtime_lxor by done.
    rewrite Z.shiftr_lxor, land_lxor, bit_scale by apply land_bit. apply lxor_swap. }
  rewrite E. auto.
Qed.
Lemma mul_lxor_r x y z : byte x -> mul x (Z.lxor y z) = Z.lxor (mul x y) (mul x z).
Proof. intros Hx. unfold mul. rewrite <- (mul_steps x _ y z 0 0) by auto with qr. done. Qed.
Lemma mul_byte x y : byte x -> byte (mul x y).
Proof.
  intros Hx. assert (H : forall ns z, byte z -> byte (fold_left (mul_step x y) ns z)); [|apply H, byte_0].
  induction ns as [|i ns IH]; intros z Hz; [done|]. cbn [fold_left]. apply IH. unfold mul_step. fold (xtime z).
  destruct (land_bit y i) as [-> | ->]; rewrite ?Z.mul_0_l, ?Z.mul_1_l; auto using xtime_byte with qr.
Qed.
#[export] Hint Resolve mul_byte : qr.
Lemma byte_pick x : byte x -> pick powers 0 x = x.
Proof. intros Hx. apply Z.eqb_eq. apply (byte_forall (fun x => pick powers 0 x =? x)); [|done]. vm_compute. reflexivity. Qed.
(** Linear functions that agree on the powers of two agree. *)
Definition linear (f : Z -> Z) : Prop := f 0 = 0 /\ forall x y, byte x -> byte y -> f (Z.lxor x y) = Z.lxor (f x) (f y).
Lemma linear_pick f row i x : linear f -> Forall byte row -> f (pick row i x) = pick (f <$> row) i x /\ byte (pick row i x).
Proof.
  intros [H0 Hf] Hr. revert i. induction Hr as [|c r Hc Hr IH]; intros i; [by split; [|apply byte_0]|]. cbn. destruct (IH (i + 1)) as [E Hb].
  assert (byte (if Z.testbit x i then c else 0)) as Hb2 by (destruct (Z.testbit x i); auto with qr).
  split; [|auto with qr]. rewrite Hf, E by done. f_equal. by destruct (Z.testbit x i).
Qed.
Lemma linear_ext f g : linear f -> linear g -> f <$> powers = g <$> powers -> forall x, byte x -> f x = g x.
Proof.
  intros Hf Hg E x Hx. assert (Hp : Forall byte powers) by (repeat constructor; unfold byte; lia).
  rewrite <- (byte_pick x Hx). destruct (linear_pick f powers 0 x Hf Hp) as [-> _]. destruct (linear_pick g powers 0 x Hg Hp) as [-> _]. by rewrite E.
Qed.
Lemma mul_0_r x : mul x 0 = 0.
Proof. reflexivity. Qed.
Lemma mul_linear_r x : byte x -> linear (mul x).
Proof. intros Hx. split; [apply mul_0_r|]. intros. by apply mul_lxor_r. Qed.
Lemma mul_power x p : byte x -> p ∈ powers -> mul x p = mul p x.
Proof.
  intros Hx Hp. apply Z.eqb_eq. assert (H : List.forallb (fun p => mul x p =? mul p x) powers = true).
  { apply (byte_forall (fun x => List.forallb (fun p => mul x p =? mul p x) powers)); [|done]. vm_compute. reflexivity. }
  rewrite List.forallb_forall in H. apply H. by apply list_elem_of_In.
Qed.
Lemma powers_byte : Forall byte powers.
Proof. repeat constructor; unfold byte; lia. Qed.
Lemma mul_pick x y : byte x -> byte y -> mul x y = pick (mul x <$> powers) 0 y.
Proof. intros Hx Hy. rewrite <- (byte_pick y Hy) at 1. by apply linear_pick; [apply mul_linear_r | apply powers_byte]. Qed.
Lemma mul_lxor_l x y z : byte x -> byte y -> byte z -> mul (Z.lxor x y) z = Z.lxor (mul x z) (mul y z).
Proof.
  intros Hx Hy Hz. rewrite !(mul_pick _ z) by auto with qr. assert (Hp : Forall (fun p => p ∈ powers) powers) by (by apply Forall_forall).
  assert (H : forall ps i, Forall (fun p => p ∈ powers) ps -> pick (mul (Z.lxor x y) <$> ps) i z = Z.lxor (pick (mul x <$> ps) i z) (pick (mul y <$> ps) i z)); [|by apply H].
  clear Hp. induction ps as [|p ps IH]; intros i Hps; [done|]. apply Forall_cons in Hps as [Hin Hps]. rewrite !fmap_cons. cbn [pick]. rewrite IH by done.
  assert (byte p) by (revert Hin; apply (proj1 (Forall_forall _ _) powers_byte)).
  rewrite !(mul_power _ p) by auto with qr. rewrite mul_lxor_r by done. destruct (Z.testbit z i); [apply lxor_swap | by rewrite !Z.lxor_0_l].
Qed.
Lemma mul_0_l x : byte x -> mul 0 x = 0.
Proof. intros Hx. apply Z.eqb_eq. apply (byte_forall (fun x => mul 0 x =? 0)); [|done]. vm_compute. reflexivity. Qed.
Lemma mul_linear_l x : byte x -> linear (fun y => mul y x).
Proof. intros Hx. split; [by apply mul_0_l|]. intros. by apply mul_lxor_l. Qed.
Lemma mul_comm x y : byte x -> byte y -> mul x y = mul y x.
Proof.
  intros Hx Hy. revert y Hy. apply linear_ext; [by apply mul_linear_r | by apply mul_linear_l|].
  apply list_fmap_ext. intros i p Hp. apply mul_power; [done|]. by eapply list_elem_of_lookup_2.
Qed.
Lemma linear_comp f g : linear f -> linear g -> (forall x, byte x -> byte (g x)) -> linear (fun x => f (g x)).
Proof. intros [F0 F] [G0 G] Hb. split; [by rewrite G0|]. intros x y Hx Hy. rewrite G by done. apply F; auto. Qed.
Lemma mul_assoc x y z : byte x -> byte y -> byte z -> mul (mul x y) z = mul x (mul y z).
Proof.
  intros Hx Hy Hz. assert (Hp : forall p, p ∈ powers -> byte p) by (apply Forall_forall, powers_byte).
  assert (Hb : forall a b c, a ∈ powers -> b ∈ powers -> c ∈ powers -> mul (mul a b) c = mul a (mul b c)).
  { intros a b c Ha Hb Hc. apply Z.eqb_eq.
    assert (H : List.forallb (fun a => List.forallb (fun b => List.forallb (fun c => mul (mul a b) c =? mul a (mul b c)) powers) powers) powers = true) by (vm_compute; reflexivity).
    rewrite List.forallb_forall in H. rewrite list_elem_of_In in Ha, Hb, Hc. specialize (H a Ha). rewrite List.forallb_forall in H. specialize (H b Hb). rewrite List.forallb_forall in H. auto. }
  assert (E1 : forall a b, a ∈ powers -> b ∈ powers -> forall z, byte z -> mul (mul a b) z = mul a (mul b z)).
  { intros a b Ha Hb'. apply linear_ext; [apply mul_linear_r; auto with qr | apply linear_comp; [by apply mul_linear_r; auto | by apply mul_linear_r; auto | auto with qr] |].
    apply list_fmap_ext. intros i c Hc. apply Hb; [done | done | by eapply list_elem_of_lookup_2]. }
  assert (E2 : forall a z, a ∈ powers -> byte z -> forall y, byte y -> mul (mul a y) z = mul a (mul y z)).
  { intros a w Ha Hw. apply linear_ext; [apply (linear_comp (fun u => mul u w)); [by apply mul_linear_l | by apply mul_linear_r; auto | auto with qr] | apply (linear_comp (mul a)); [by apply mul_linear_r; auto | by apply mul_linear_l | auto with qr] |].
    apply list_fmap_ext. intros i b Hb'. apply E1; [done | by eapply list_elem_of_lookup_2 | done]. }
  revert x Hx. apply linear_ext; [apply (linear_comp (fun u => mul u z)); [by apply mul_linear_l | by apply mul_linear_l | auto with qr] | apply mul_linear_l; auto with qr |].
  apply list_fmap_ext. intros i a Ha. apply E2; [by eapply list_elem_of_lookup_2 | done | done].
Qed.

(** ** Words as polynomials *)

#[local] Opaque mul Z.lxor.

Lemma foldl_cons {A B} (f : A -> B -> A) x l a : fold_left f (x :: l) a = fold_left f l (f a x).
Proof. reflexivity. Qed.
Lemma foldl_nil {A B} (f : A -> B -> A) a : fold_left f [] a = a.
Proof. reflexivity. Qed.
(** A reader's syndrome of the words [p] at [a]. *)
Definition horner (a acc c : Z) : Z := Z.lxor (mul acc a) c.
Definition syndrome (p : list Z) (a : Z) : Z := fold_left (horner a) p 0.
Fixpoint pow (a : Z) (n : nat) : Z := match n with O => 1 | S n => mul (pow a n) a end.
Lemma byte_1 : byte 1.
Proof. unfold byte. lia. Qed.
#[export] Hint Resolve byte_1 : qr.
Lemma pow_byte a n : byte a -> byte (pow a n).
Proof. intros Ha. induction n as [|n IH]; [apply byte_1 | by apply mul_byte]. Qed.
#[export] Hint Resolve pow_byte : qr.
Lemma mul_1_r x : byte x -> mul x 1 = x.
Proof. intros Hx. apply Z.eqb_eq. apply (byte_forall (fun x => mul x 1 =? x)); [|done]. vm_compute. reflexivity. Qed.
Lemma horner_byte a p acc : byte a -> Forall byte p -> byte acc -> byte (fold_left (horner a) p acc).
Proof. intros Ha. revert acc. induction p as [|c p IH]; intros acc Hp Hacc; [done|]. apply Forall_cons in Hp as [Hc Hp]. rewrite foldl_cons. apply IH; [done|]. apply lxor_byte; [by apply mul_byte | done]. Qed.
Lemma syndrome_byte a p : byte a -> Forall byte p -> byte (syndrome p a).
Proof. intros. apply horner_byte; auto with qr. Qed.
#[export] Hint Resolve syndrome_byte : qr.
Lemma horner_from a p acc : byte a -> Forall byte p -> byte acc -> fold_left (horner a) p acc = Z.lxor (mul acc (pow a (length p))) (syndrome p a).
Proof.
  intros Ha. unfold syndrome. revert acc. induction p as [|c p IH]; intros acc Hp Hacc; rewrite ?foldl_nil, ?foldl_cons; cbn [length pow].
  - by rewrite mul_1_r, Z.lxor_0_r.
  - apply Forall_cons in Hp as [Hc Hp]. rewrite IH, (IH (horner a 0 c)) by (unfold horner; auto with qr). unfold horner.
    rewrite mul_0_l, Z.lxor_0_l by done. rewrite mul_lxor_l by auto with qr. rewrite Z.lxor_assoc. f_equal. rewrite mul_assoc by auto with qr. f_equal. apply mul_comm; auto with qr.
Qed.
Lemma syndrome_app a p q : byte a -> Forall byte p -> Forall byte q -> syndrome (p ++ q) a = Z.lxor (mul (syndrome p a) (pow a (length q))) (syndrome q a).
Proof. intros Ha Hp Hq. unfold syndrome at 1. rewrite fold_left_app. apply horner_from; auto with qr. Qed.
Lemma syndrome_zeros a n : byte a -> syndrome (replicate n 0) a = 0.
Proof. intros Ha. unfold syndrome. induction n as [|n IH]; [done|]. rewrite replicate_S, foldl_cons. unfold horner at 2. rewrite mul_0_l, Z.lxor_0_l by done. exact IH. Qed.
Lemma syndrome_sum a p q : byte a -> Forall byte p -> Forall byte q -> length p = length q -> syndrome (zip_with Z.lxor p q) a = Z.lxor (syndrome p a) (syndrome q a).
Proof.
  intros Ha Hp Hq Hl. unfold syndrome. assert (H : forall u v, byte u -> byte v -> fold_left (horner a) (zip_with Z.lxor p q) (Z.lxor u v) = Z.lxor (fold_left (horner a) p u) (fold_left (horner a) q v)); [|by apply (H 0 0 byte_0 byte_0)].
  revert q Hq Hl. induction Hp as [|c p Hc Hp IH]; intros [|d q] Hq Hl u v Hu Hv; try done. apply Forall_cons in Hq as [Hd Hq]. cbn [zip_with]. rewrite !foldl_cons.
  rewrite <- IH by (done || (unfold horner; auto with qr) || (cbn in Hl; lia)). f_equal. unfold horner. rewrite mul_lxor_l by done. apply lxor_swap.
Qed.
Lemma syndrome_scale a f p : byte a -> byte f -> Forall byte p -> syndrome ((fun c => mul c f) <$> p) a = mul (syndrome p a) f.
Proof.
  intros Ha Hf Hp. unfold syndrome. assert (H : forall u, byte u -> fold_left (horner a) ((fun c => mul c f) <$> p) (mul u f) = mul (fold_left (horner a) p u) f).
  { induction Hp as [|c p Hc Hp IH]; intros u Hu; [done|]. rewrite fmap_cons, !foldl_cons. rewrite <- IH by (unfold horner; auto with qr). f_equal. unfold horner. rewrite mul_lxor_l by auto with qr. f_equal.
    rewrite !mul_assoc by done. f_equal. by apply mul_comm. }
  rewrite <- H by auto with qr. by rewrite mul_0_l.
Qed.

(** ** The remainder *)

Lemma zip_xor_scale r gen f : zip_with (fun ri c => Z.lxor ri (mul c f)) r gen = zip_with Z.lxor r ((fun c => mul c f) <$> gen).
Proof. revert gen. induction r as [|x r IH]; intros [|c gen]; cbn; [done..|]. by rewrite IH. Qed.
Lemma Forall_zip_byte r q : Forall byte r -> Forall byte q -> Forall byte (zip_with Z.lxor r q).
Proof. intros Hr. revert q. induction Hr as [|x r Hx Hr IH]; intros [|y q] Hq; [constructor..|]. apply Forall_cons in Hq as [? ?]. cbn. constructor; auto with qr. Qed.
Lemma rem_step_spec a gen r b data : byte a -> Forall byte gen -> Forall byte r -> byte b -> Forall byte data -> length r = length gen -> gen <> [] ->
  pow a (length gen) = syndrome gen a -> syndrome r a = mul (syndrome data a) (pow a (length gen)) ->
  length (rem_step gen r b) = length gen /\ Forall byte (rem_step gen r b) /\ syndrome (rem_step gen r b) a = mul (syndrome (data ++ [b]) a) (pow a (length gen)).
Proof.
  intros Ha Hg Hr Hb Hd Hl Hne Hroot Hinv. destruct r as [|r0 t]; [by destruct gen|]. apply Forall_cons in Hr as [Hr0 Ht]. unfold rem_step. change (default 0 (head (r0 :: t))) with r0. cbn [tail].
  set (f := Z.lxor b r0). assert (Hf : byte f) by (unfold f; auto with qr). rewrite zip_xor_scale.
  assert (Hs : Forall byte ((fun c => mul c f) <$> gen)) by (apply Forall_fmap; eapply Forall_impl; [exact Hg|]; cbn; auto with qr).
  assert (Ht0 : Forall byte (t ++ [0])) by (apply Forall_app; split; [done | apply Forall_singleton; auto with qr]).
  assert (Elen : length (t ++ [0]) = length ((fun c => mul c f) <$> gen)) by (rewrite length_app, length_fmap; cbn in *; lia).
  split; [rewrite length_zip_with, Elen, length_fmap; lia|]. split; [by apply Forall_zip_byte|].
  rewrite syndrome_sum, syndrome_scale by done. rewrite !syndrome_app by (done || apply Forall_singleton; auto with qr). cbn [length pow].
  assert (H1 : syndrome [0] a = 0) by (unfold syndrome, horner; rewrite foldl_cons, foldl_nil; by rewrite mul_0_l, ?Z.lxor_0_l). assert (H2 : syndrome [b] a = b) by (unfold syndrome, horner; rewrite foldl_cons, foldl_nil; by rewrite mul_0_l, Z.lxor_0_l).
  rewrite H1, H2, Z.lxor_0_r. assert (H1a : mul 1 a = a) by (rewrite mul_comm by auto with qr; by apply mul_1_r). rewrite H1a.
  rewrite mul_lxor_l by auto with qr. rewrite <- Hroot.
  assert (E : mul (mul (syndrome data a) a) (pow a (length gen)) = Z.lxor (mul r0 (pow a (length gen))) (mul (syndrome t a) a)).
  { rewrite mul_assoc by auto with qr. rewrite (mul_comm a) by auto with qr. rewrite <- mul_assoc by auto with qr. rewrite <- Hinv.
    change (r0 :: t) with ([r0] ++ t). rewrite syndrome_app by (done || by apply Forall_singleton). rewrite mul_lxor_l by auto with qr. f_equal.
    assert (H3 : syndrome [r0] a = r0) by (unfold syndrome, horner; rewrite foldl_cons, foldl_nil; by rewrite mul_0_l, Z.lxor_0_l). rewrite H3, mul_assoc by auto with qr.
    cbn in Hl. rewrite <- Hl. done. }
  rewrite E. unfold f. rewrite (mul_comm (pow a (length gen))) by auto with qr. rewrite mul_lxor_l by auto with qr.
  rewrite (Z.lxor_comm (mul b _)), <- Z.lxor_assoc. f_equal. apply Z.lxor_comm.
Qed.
Lemma rsRem_spec a gen data : byte a -> Forall byte gen -> gen <> [] -> Forall byte data -> pow a (length gen) = syndrome gen a ->
  length (rsRem data gen) = length gen /\ Forall byte (rsRem data gen) /\ syndrome (data ++ rsRem data gen) a = 0.
Proof.
  intros Ha Hg Hne Hd Hroot.
  assert (H : forall rest done_ r, Forall byte rest -> Forall byte done_ -> Forall byte r -> length r = length gen -> syndrome r a = mul (syndrome done_ a) (pow a (length gen)) ->
    let r' := fold_left (rem_step gen) rest r in length r' = length gen /\ Forall byte r' /\ syndrome r' a = mul (syndrome (done_ ++ rest) a) (pow a (length gen))).
  { induction rest as [|b rest IH]; intros done_ r Hrest Hdone Hr Hl Hinv; [cbn zeta; rewrite foldl_nil; by rewrite app_nil_r|]. cbn zeta. rewrite foldl_cons. apply Forall_cons in Hrest as [Hb Hrest].
    destruct (rem_step_spec a gen r b done_) as (L & B & S); try done. change (b :: rest) with ([b] ++ rest). rewrite app_assoc. apply IH; try done. apply Forall_app. split; [done | by apply Forall_singleton]. }
  destruct (H data [] (replicate (length gen) 0)) as (L & B & S); [done | constructor | apply Forall_replicate; auto with qr | apply length_replicate | rewrite syndrome_zeros by done; unfold syndrome; rewrite foldl_nil; by rewrite mul_0_l by auto with qr |].
  cbn [app] in S. split; [exact L|]. split; [exact B|]. rewrite syndrome_app by done. fold (rsRem data gen) in S, L. rewrite S, L. apply Z.lxor_nilpotent.
Qed.
(** The generator of each length in use, at each of its roots, the first powers of two. *)
Definition used_lengths : list nat := [7; 10; 15; 16; 18; 20; 22; 24; 26; 30]%nat.
Definition gen_ok (d : nat) : bool :=
  let gen := rsGen d in (length gen =? d)%nat && List.forallb (fun c => (0 <=? c) && (c <? 256)) gen
  && List.forallb (fun k => let a := pow 2 k in pow a d =? syndrome gen a) (seq 0 d).
Lemma gens_ok : List.forallb gen_ok used_lengths = true.
Proof. vm_compute. reflexivity. Qed.
Lemma byte_2 : byte 2.
Proof. unfold byte. lia. Qed.
#[export] Hint Resolve byte_2 : qr.
(** The words of a block, data and remainder, vanish at every root of the generator. *)
Lemma block_syndromes d data k : d ∈ used_lengths -> (k < d)%nat -> Forall byte data ->
  length (rsRem data (rsGen d)) = d /\ Forall byte (rsRem data (rsGen d)) /\ syndrome (data ++ rsRem data (rsGen d)) (pow 2 k) = 0.
Proof.
  intros Hd Hk Hdata. pose proof gens_ok as H. rewrite List.forallb_forall in H. specialize (H d ltac:(by apply list_elem_of_In)). unfold gen_ok in H.
  apply andb_true_iff in H as [H H3]. apply andb_true_iff in H as [H1 H2]. apply Nat.eqb_eq in H1.
  assert (Hg : Forall byte (rsGen d)). { rewrite List.forallb_forall in H2. apply Forall_forall. intros c Hc. specialize (H2 c ltac:(by apply list_elem_of_In)). unfold byte. lia. }
  rewrite List.forallb_forall in H3. specialize (H3 k ltac:(apply List.in_seq; lia)). apply Z.eqb_eq in H3.
  destruct (rsRem_spec (pow 2 k) (rsGen d) data) as (L & B & S); auto with qr; [intros E; rewrite E in H1; cbn in H1; subst d; lia | by rewrite H1 | by rewrite <- H1 at 2].
Qed.
