(* ===== verification/QrRead.v ===== *)
(** * Reading a QR code back

    A reader after the standard: it finds the format bits, takes off the mask, reads the
    modules no pattern uses in their order, undoes the interleaving, checks the syndromes of
    each block and reads the bytes.  Its layout is the standard's own, with literal tables, and
    every code [make] of [desktop/ui/qr.js] returns reads back as its text. *)

From Stdlib Require Import ZArith Lia Bool.
From Stdlib Require List.
From stdpp Require Import gmap.
From S2P Require Import Prelude JsCollections JsString Utf8 Qr QrField.
Local Open Scope js_scope.

#[local] Arguments mul : simpl never.
#[local] Arguments Z.lxor : simpl never.

(** ** The reader *)

Definition centers (v : Z) : list Z :=
  match v with
  | 2 => [6; 18] | 3 => [6; 22] | 4 => [6; 26] | 5 => [6; 30] | 6 => [6; 34]
  | 7 => [6; 22; 38] | 8 => [6; 24; 42] | 9 => [6; 26; 46] | 10 => [6; 28; 50]
  | _ => []
  end.
Definition near (r c x : Z) : bool := (c - r <=? x) && (x <=? c + r).
(** The modules that carry no data. *)
Definition is_function (v size : Z) (p : cell) : bool :=
  let '(x, y) := p in
  (x =? 6) || (y =? 6)
  || (x <=? 8) && (y <=? 8) || (size - 8 <=? x) && (y <=? 8) || (x <=? 8) && (size - 8 <=? y)
  || List.existsb (fun cx => List.existsb (fun cy => near 2 cx x && near 2 cy y
       && negb ((cx =? 6) && (cy =? 6) || (cx =? 6) && (cy =? size - 7) || (cx =? size - 7) && (cy =? 6))) (centers v)) (centers v)
  || (7 <=? v) && ((near 1 (size - 10) x && (y <=? 5)) || (near 1 (size - 10) y && (x <=? 5))).
(** Pairs of columns from the right, upwards and downwards in turn, without the timing column. *)
Definition read_order (size : Z) : list cell :=
  k ← seqZ 0 ((size - 1) / 2);
  let right := if 6 <? size - 1 - 2 * k then size - 1 - 2 * k else size - 2 - 2 * k in
  i ← seqZ 0 size;
  let y := if k mod 2 =? 0 then size - 1 - i else i in [(right, y); (right - 1, y)].
Definition data_cells (v size : Z) : list cell := List.filter (fun p => negb (is_function v size p)) (read_order size).
Definition format_at : list cell :=
  [(8, 0); (8, 1); (8, 2); (8, 3); (8, 4); (8, 5); (8, 7); (8, 8); (7, 8); (5, 8); (4, 8); (3, 8); (2, 8); (1, 8); (0, 8)].
Definition read_number (bits : list bool) : Z := fold_right (fun (b : bool) n => 2 * n + (if b then 1 else 0)) 0 bits.
(** The correction and the mask the format bits tell, where their check bits agree. *)
Definition read_format (c : Code) : option (Ecc * Z) :=
  let n := Z.lxor (read_number ((fun p : cell => get c p.1 p.2) <$> format_at)) 21522 in
  let d := Z.shiftr n 10 in
  if Z.land n 1023 =? bch 1335 9 10 d then
    match Z.shiftr d 3 with 0 => Some (ECC_M, Z.land d 7) | 1 => Some (ECC_L, Z.land d 7) | _ => None end
  else None.
Definition read_bits (c : Code) (v m : Z) : list Z :=
  (fun p : cell => if xorb (get c p.1 p.2) (inv m p.1 p.2) then 1 else 0) <$> data_cells v (c_size c).
(** Block [j] of [nb]: [sd] words in a short one, one more from block [nShort] on. *)
Definition word_at (words : list Z) (i : nat) : Z := default 0 (words !! i).
Definition block_data (words : list Z) (nb nShort sd j : nat) : list Z :=
  ((fun i => word_at words (i * nb + j)) <$> seq 0 sd) ++ (if (nShort <=? j)%nat then [word_at words (sd * nb + (j - nShort))] else []).
Definition block_check (words : list Z) (nb nShort sd ecc j : nat) : list Z :=
  (fun i => word_at words (sd * nb + (nb - nShort) + i * nb + j)) <$> seq 0 ecc.
Definition read_blocks (words : list Z) (nb ecc : nat) : list (list Z * list Z) :=
  let raw := length words in
  let nShort := (nb - raw mod nb)%nat in
  let sd := (raw / nb - ecc)%nat in
  (fun j => (block_data words nb nShort sd j, block_check words nb nShort sd ecc j)) <$> seq 0 nb.
Definition sound (ecc : nat) (b : list Z * list Z) : bool := List.forallb (fun k => syndrome (b.1 ++ b.2) (pow 2 k) =? 0) (seq 0 ecc).
Definition read_payload (v : Z) (bits : list Z) : option (list Z) :=
  let n := Z.to_nat (count_bits v) in
  if word_of (take 4 bits) =? 4 then
    let len := Z.to_nat (word_of (take n (drop 4 bits))) in
    Some (words_of (len * 8) (take (len * 8) (drop (4 + n) bits)))
  else None.
Definition read (c : Code) : option (list Z) :=
  let v := (c_size c - 17) / 4 in
  '(E, m) ← read_format c;
  let bits := read_bits c v m in
  let words := words_of (length bits) (take (length bits / 8 * 8) bits) in
  let blocks := read_blocks words (Z.to_nat (entry (e_b E) v)) (Z.to_nat (entry (e_e E) v)) in
  if List.forallb (sound (Z.to_nat (entry (e_e E) v))) blocks then read_payload v ((blocks ≫= fst) ≫= fun w => put w 8) else None.

(** ** The two layouts are one *)

Definition versions : list Z := [1; 2; 3; 4; 5; 6; 7; 8; 9; 10].
Definition layout_ok (v : Z) : bool :=
  let size := code_size v in
  let F := reserved v size ECC_L in
  bool_decide (zigzag size = read_order size)
  && List.forallb (fun p => Bool.eqb (bool_decide (p ∈ F)) (is_function v size p) && inside size p) (zigzag size)
  && (Z.of_nat (length (data_cells v size)) =? rawModules v)
  && bool_decide (take 15 (fst <$> format_cells size) = format_at)
  && List.forallb (fun p => bool_decide (p ∈ F)) (fst <$> fmt size ECC_L 0)
  && bool_decide (NoDup (fst <$> fmt size ECC_L 0)).
Lemma layouts_ok : List.forallb layout_ok versions = true.
Proof. vm_compute. reflexivity. Qed.

(** ** Bits and words *)

Lemma length_put v n : 0 <= n -> length (put v n) = Z.to_nat n.
Proof. intros Hn. unfold put. rewrite length_fmap, length_rev, length_seqZ. done. Qed.
Lemma put_bits v n : Forall bit (put v n).
Proof. unfold put. apply Forall_fmap, Forall_forall. intros i _. apply land_bit. Qed.
(** Eight bits are the bits of their word. *)
Lemma put_word bits : Forall bit bits -> length bits = 8%nat -> put (word_of bits) 8 = bits /\ byte (word_of bits).
Proof.
  intros Hb Hl. do 8 (destruct bits as [|? bits]; [done|]). destruct bits; [|done]. repeat (apply Forall_cons in Hb as [[-> | ->] Hb]); (split; [reflexivity | unfold byte, word_of; cbn; lia]).
Qed.
Lemma word_put w : byte w -> word_of (put w 8) = w.
Proof. intros Hw. apply Z.eqb_eq. apply (byte_forall (fun w => word_of (put w 8) =? w)); [|done]. vm_compute. reflexivity. Qed.
(** Whole words: as many as there are eights of bits, and their bits are these. *)
Lemma words_of_bits n fuel bits : Forall bit bits -> length bits = (n * 8)%nat -> (n <= fuel)%nat ->
  let ws := words_of fuel bits in length ws = n /\ Forall byte ws /\ (ws ≫= fun w => put w 8) = bits.
Proof.
  revert fuel bits. induction n as [|n IH]; intros fuel bits Hb Hl Hf ws.
  { destruct bits; [|done]. unfold ws. by destruct fuel. }
  destruct fuel as [|fuel]; [lia|]. assert (Hb2 := Hb). rewrite <- (take_drop 8 bits) in Hb2. apply Forall_app in Hb2 as [Ht Hd].
  destruct (put_word (take 8 bits)) as [E1 E2]; [done | rewrite length_take; lia|].
  destruct (IH fuel (drop 8 bits)) as (L & B & P); [done | rewrite length_drop; lia | lia|].
  assert (Ew : ws = word_of (take 8 bits) :: words_of fuel (drop 8 bits)) by (unfold ws; by destruct bits).
  rewrite Ew. split; [cbn; by rewrite L|]. split; [by constructor|]. rewrite bind_cons, E1. cbn zeta in P. rewrite P. apply take_drop.
Qed.
Lemma words_of_put fuel ws : Forall byte ws -> (length ws <= fuel)%nat -> words_of fuel (ws ≫= fun w => put w 8) = ws.
Proof.
  revert fuel. induction ws as [|w ws IH]; intros fuel Hb Hf; [by destruct fuel|]. destruct fuel as [|fuel]; [cbn in Hf; lia|]. apply Forall_cons in Hb as [Hw Hb].
  rewrite bind_cons. assert (Hl : length (put w 8) = 8%nat) by (by apply length_put).
  assert (E : words_of (S fuel) (put w 8 ++ (ws ≫= fun w => put w 8)) = word_of (take 8 (put w 8 ++ (ws ≫= fun w => put w 8))) :: words_of fuel (drop 8 (put w 8 ++ (ws ≫= fun w => put w 8)))).
  { destruct (put w 8) as [|b l] eqn:Ep; [done|]. done. }
  rewrite E, <- Hl, take_app_length, drop_app_length, word_put by done. f_equal. apply IH; [done | cbn in Hf; lia].
Qed.
Lemma bits_bind ws : Forall bit (ws ≫= fun w => put w 8).
Proof. apply Forall_bind, Forall_forall. intros w _. apply put_bits. Qed.
Lemma length_bits ws : length (ws ≫= fun w => put w 8) = (length ws * 8)%nat.
Proof. induction ws as [|w ws IH]; [done|]. rewrite bind_cons, length_app, IH, length_put by lia. cbn [length]. lia. Qed.

(** ** The message *)

Lemma fill_spec fuel p cap bits : Forall bit bits -> (length bits mod 8 = 0)%nat -> (cap mod 8 = 0)%nat -> (length bits <= cap)%nat -> (cap <= length bits + fuel)%nat ->
  exists extra, fill fuel p cap bits = bits ++ extra /\ length (fill fuel p cap bits) = cap /\ Forall bit (fill fuel p cap bits).
Proof.
  revert p bits. induction fuel as [|fuel IH]; intros p bits Hb Hm Hc Hle Hf; cbn [fill].
  - exists []. rewrite app_nil_r. split; [done|]. split; [lia | done].
  - destruct (Nat.ltb_spec (length bits) cap) as [Hlt|]; [|exists []; rewrite app_nil_r; split; [done|]; split; [lia | done]].
    assert (Hp : length (put p 8) = 8%nat) by (by apply length_put).
    destruct (IH (Z.lxor p (Z.lxor 236 17)) (bits ++ put p 8)) as (extra & E & L & B).
    + apply Forall_app. split; [done | apply put_bits].
    + rewrite length_app, Hp. rewrite <- Nat.Div0.add_mod_idemp_l, Hm. done.
    + done.
    + rewrite length_app, Hp. pose proof (Nat.div_mod (length bits) 8). pose proof (Nat.div_mod cap 8). lia.
    + rewrite length_app, Hp. lia.
    + exists (put p 8 ++ extra). rewrite E in *. rewrite app_assoc. done.
Qed.
Lemma to_whole_spec bits cap : Forall bit bits -> (cap mod 8 = 0)%nat -> (length bits <= cap)%nat ->
  exists extra, to_whole bits = bits ++ extra /\ (length (to_whole bits) mod 8 = 0)%nat /\ (length (to_whole bits) <= cap)%nat /\ Forall bit (to_whole bits).
Proof.
  intros Hb Hc Hle. unfold to_whole. set (n := ((8 - length bits mod 8) mod 8)%nat). exists (replicate n 0). split; [done|]. rewrite length_app, length_replicate.
  assert (Hn : ((length bits + n) mod 8 = 0)%nat /\ (length bits + n <= cap)%nat).
  { pose proof (Nat.div_mod (length bits) 8 ltac:(lia)) as H1. pose proof (Nat.div_mod cap 8 ltac:(lia)) as H2. pose proof (Nat.mod_upper_bound (length bits) 8 ltac:(lia)) as H3. unfold n.
    destruct (Nat.eq_dec (length bits mod 8)%nat 0%nat) as [Hz|Hz].
    - rewrite Hz. change ((8 - 0) mod 8)%nat with 0%nat. rewrite Nat.add_0_r. lia.
    - rewrite (Nat.mod_small (8 - length bits mod 8)%nat) by lia. split; [|lia].
      replace (length bits + (8 - length bits mod 8))%nat with ((length bits / 8 + 1) * 8)%nat by lia. by rewrite Nat.Div0.mod_mul. }
  destruct Hn as [Hn1 Hn2]. split; [done|]. split; [done|]. apply Forall_app. split; [done|]. apply Forall_replicate. by left.
Qed.
Lemma length_payload v bytes : length (payload v bytes) = Z.to_nat (4 + count_bits v + Z.of_nat (length bytes) * 8).
Proof. unfold payload. assert (0 <= count_bits v) by (unfold count_bits; by destruct (v <? 10)). rewrite !length_app, !length_put, length_bits by lia. lia. Qed.
Lemma payload_bits v bytes : Forall bit (payload v bytes).
Proof. unfold payload. rewrite !Forall_app. split; [apply put_bits|]. split; [apply put_bits | apply bits_bind]. Qed.
Lemma message_spec v E bytes : 4 + count_bits v + Z.of_nat (length bytes) * 8 <= dataWords v E * 8 ->
  exists extra, message_bits v E bytes = payload v bytes ++ extra /\ length (message_bits v E bytes) = (Z.to_nat (dataWords v E) * 8)%nat /\ Forall bit (message_bits v E bytes).
Proof.
  intros Hfit. unfold message_bits. set (cap := dataWords v E * 8) in *. set (b1 := payload v bytes ++ put 0 _).
  assert (Hcb : 0 <= count_bits v) by (unfold count_bits; by destruct (v <? 10)).
  assert (Hcap : Z.to_nat cap = (Z.to_nat (dataWords v E) * 8)%nat) by (unfold cap; lia).
  assert (Hc8 : (Z.to_nat cap mod 8 = 0)%nat) by (rewrite Hcap; by rewrite Nat.Div0.mod_mul).
  assert (Hl1 : (length b1 <= Z.to_nat cap)%nat).
  { unfold b1. rewrite length_app, length_payload, length_put by lia. lia. }
  assert (Hb1 : Forall bit b1) by (unfold b1; apply Forall_app; split; [apply payload_bits | apply put_bits]).
  destruct (to_whole_spec b1 (Z.to_nat cap)) as (e1 & E1 & M1 & L1 & B1); [done..|].
  destruct (fill_spec (Z.to_nat cap) 236 (Z.to_nat cap) (to_whole b1)) as (e2 & E2 & L2 & B2); [done | done | done | done | lia|].
  eexists. split; [|split; [by rewrite L2 | done]]. rewrite E2, E1. unfold b1. rewrite <- !app_assoc. done.
Qed.

(** ** Blocks and their interleaving *)

Fixpoint cut (lens : list nat) (data : list Z) : list (list Z) := match lens with [] => [] | n :: r => take n data :: cut r (drop n data) end.
Lemma length_cut lens data : length (cut lens data) = length lens.
Proof. revert data. induction lens as [|n r IH]; intros data; cbn; [done|]. by rewrite IH. Qed.
Lemma cut_whole lens data : length data = sum_list lens -> cut lens data ≫= id = data /\ Forall2 (fun d n => length d = n) (cut lens data) lens.
Proof.
  revert data. induction lens as [|n r IH]; intros data Hl; cbn [cut]; cbn in Hl; [by destruct data|]. destruct (IH (drop n data)) as [E F]; [rewrite length_drop; lia|].
  split; [rewrite bind_cons, E; apply take_drop|]. constructor; [rewrite length_take; lia | done].
Qed.
Lemma cut_bytes lens data : Forall byte data -> Forall (Forall byte) (cut lens data).
Proof. revert data. induction lens as [|n r IH]; intros data H; cbn; constructor; [by apply Forall_take | apply IH; by apply Forall_drop]. Qed.

Lemma seqZ_seq a n : seqZ (Z.of_nat a) (Z.of_nat n) = Z.of_nat <$> seq a n.
Proof.
  unfold seqZ. rewrite Nat2Z.id. replace (seq a n) with (Nat.add a <$> seq 0 n) by (rewrite fmap_add_seq; f_equal; lia).
  rewrite <- list_fmap_compose. apply list_fmap_ext. intros i k _. cbn. lia.
Qed.
Lemma filter_from (k a n : nat) (l : list (list Z)) : length l = n ->
  List.filter (fun '(j, b) => false || (Z.of_nat k <=? j)) (zip (Z.of_nat <$> seq a n) l) = drop (k - a) (zip (Z.of_nat <$> seq a n) l).
Proof.
  revert a n. induction l as [|b l IH]; intros a n Hn; cbn in Hn; subst n; [cbn; by rewrite drop_nil|]. cbn [seq fmap list_fmap zip zip_with List.filter orb].
  rewrite (IH (S a)) by done. destruct (Z.leb_spec (Z.of_nat k) (Z.of_nat a)).
  - replace (k - a)%nat with 0%nat by lia. replace (k - S a)%nat with 0%nat by lia. by rewrite !drop_0.
  - replace (k - a)%nat with (S (k - S a)) by lia. done.
Qed.
Lemma filter_all {A} (f : A -> bool) l : (forall x, f x = true) -> List.filter f l = l.
Proof. intros Hf. induction l as [|x l IH]; [done|]. cbn. by rewrite Hf, IH. Qed.
Lemma snd_zip_seq (f : list Z -> Z) a n (l : list (list Z)) k : length l = n -> (fun '(j, b) => f b) <$> drop k (zip (Z.of_nat <$> seq a n) l) = f <$> drop k l.
Proof.
  intros <-. revert a k. induction l as [|b l IH]; intros a k; [by destruct k|]. cbn [length seq fmap list_fmap zip zip_with]. destruct k as [|k]; cbn [drop]; [|apply IH].
  cbn [fmap list_fmap]. f_equal. specialize (IH (S a) 0%nat). rewrite !drop_0 in IH. exact IH.
Qed.
Lemma bind_uniform (f : nat -> list Z) w a n : (forall i, (a <= i < a + n)%nat -> length (f i) = w) ->
  length (seq a n ≫= f) = (n * w)%nat /\ forall i j, (i < n)%nat -> (j < w)%nat -> (seq a n ≫= f) !! (i * w + j)%nat = f (a + i)%nat !! j.
Proof.
  revert a. induction n as [|n IH]; intros a Hf; [split; [done | lia]|]. cbn [seq]. rewrite bind_cons. destruct (IH (S a)) as [L G]; [intros; apply Hf; lia|].
  assert (La : length (f a) = w) by (apply Hf; lia). split; [rewrite length_app, L, La; lia|]. intros [|i] j Hi Hj.
  - rewrite Nat.mul_0_l, Nat.add_0_l, Nat.add_0_r, lookup_app_l by lia. done.
  - rewrite lookup_app_r by lia. replace (S i * w + j - length (f a))%nat with (i * w + j)%nat by lia. rewrite G by lia. f_equal. f_equal. lia.
Qed.
Lemma tabulate_list (l : list Z) n off (b : list Z) : length l = n -> (forall i, (i < n)%nat -> b !! (off + i)%nat = l !! i) -> (fun i => default 0 (b !! (off + i)%nat)) <$> seq 0 n = l.
Proof.
  intros Hn Hb. apply list_eq. intros i. rewrite list_lookup_fmap. destruct (decide (i < n)%nat) as [Hi|Hi].
  - rewrite lookup_seq_lt by done. cbn. rewrite Hb by done. destruct (lookup_lt_is_Some_2 l i ltac:(lia)) as [x ->]. done.
  - rewrite lookup_seq_ge by lia. cbn. symmetry. apply lookup_ge_None. lia.
Qed.

Section interleaving.
Context (p : Plan) (nb sd ecc nS : nat).
Context (Hnb : pl_nb p = Z.of_nat nb) (Hecc : pl_ecc p = Z.of_nat ecc) (HnS : pl_nShort p = Z.of_nat nS) (Hsl : pl_shortLen p = Z.of_nat (sd + ecc)).
Context (Hle : (nS <= nb)%nat) (Hpos : (0 < nb)%nat) (Hd : ecc ∈ used_lengths) (data : list Z) (Hdata : Forall byte data).

Let gen := rsGen ecc.
Let len_of (j : nat) : nat := if (j <? nS)%nat then sd else S sd.
Let dats := cut (len_of <$> seq 0 nb) data.
Let blocks := blocks_loop p gen (seqZ 0 (pl_nb p)) data.
Context (Hlen : length data = sum_list (len_of <$> seq 0 nb)).

Lemma blocks_loop_cut ns d : blocks_loop p gen (Z.of_nat <$> ns) d =
  zip_with (fun j dat => dat ++ (if (j <? nS)%nat then [0] else []) ++ rsRem dat gen) ns (cut (len_of <$> ns) d).
Proof.
  revert d. induction ns as [|j ns IH]; intros d; [done|]. cbn [fmap list_fmap blocks_loop zip_with cut].
  assert (Ej : (Z.of_nat j <? pl_nShort p) = (j <? nS)%nat) by (rewrite HnS; destruct (Nat.ltb_spec j nS); [apply Z.ltb_lt | apply Z.ltb_ge]; lia).
  rewrite Ej. assert (El : Z.to_nat (pl_shortLen p - pl_ecc p + (if (j <? nS)%nat then 0 else 1)) = len_of j) by (unfold len_of; rewrite Hsl, Hecc; destruct (j <? nS)%nat; lia).
  rewrite El. f_equal. apply IH.
Qed.
Lemma block_lookup j : (j < nb)%nat -> exists dat, dats !! j = Some dat /\ length dat = len_of j /\ Forall byte dat /\
  blocks !! j = Some (dat ++ (if (j <? nS)%nat then [0] else []) ++ rsRem dat gen).
Proof.
  intros Hj. destruct (cut_whole _ _ Hlen) as [_ F]. fold dats in F.
  assert (El : (len_of <$> seq 0 nb) !! j = Some (len_of j)) by (by rewrite list_lookup_fmap, lookup_seq_lt by done).
  destruct (Forall2_lookup_r _ _ _ _ _ F El) as (dat & Ed & Hld). exists dat. split; [done|]. split; [done|].
  split; [pose proof (cut_bytes (len_of <$> seq 0 nb) data Hdata) as Hb; rewrite Forall_lookup in Hb; by apply (Hb j)|].
  unfold blocks. rewrite Hnb. change 0 with (Z.of_nat 0). rewrite seqZ_seq, blocks_loop_cut, lookup_zip_with. rewrite lookup_seq_lt by done. fold dats. rewrite Ed. done.
Qed.
Lemma blocks_length : length blocks = nb.
Proof. unfold blocks. rewrite Hnb. change 0 with (Z.of_nat 0). rewrite seqZ_seq, blocks_loop_cut, length_zip_with, length_seq, length_cut, length_fmap, length_seq. lia. Qed.
Lemma ecc_pos : (0 < ecc)%nat.
Proof. assert (H : List.forallb (fun d => (0 <? d)%nat) used_lengths = true) by reflexivity. rewrite List.forallb_forall in H. specialize (H ecc ltac:(by apply list_elem_of_In)). by apply Nat.ltb_lt. Qed.
Lemma rem_length dat : Forall byte dat -> length (rsRem dat gen) = ecc.
Proof. intros H. by destruct (block_syndromes ecc dat 0 Hd ecc_pos H) as (L & _). Qed.
Lemma block_length j b : blocks !! j = Some b -> length b = (sd + 1 + ecc)%nat.
Proof.
  intros E. assert (Hj : (j < nb)%nat) by (rewrite <- blocks_length; by eapply lookup_lt_Some). destruct (block_lookup j Hj) as (dat & _ & L & B & E'). simplify_eq.
  rewrite !length_app, rem_length, L by done. unfold len_of. destruct (j <? nS)%nat; cbn; lia.
Qed.
(** A column of the words. *)
Lemma column_eq i : column p blocks i = (fun b => default 0 (b !! i)) <$> (if (i =? sd)%nat then drop nS blocks else blocks).
Proof.
  unfold column. rewrite blocks_length. change 0 with (Z.of_nat 0) at 2. rewrite seqZ_seq.
  assert (Ei : (Z.of_nat i =? pl_shortLen p - pl_ecc p) = (i =? sd)%nat) by (rewrite Hsl, Hecc; destruct (Nat.eqb_spec i sd); [apply Z.eqb_eq | apply Z.eqb_neq]; lia).
  rewrite Ei, HnS. destruct (i =? sd)%nat; cbn [negb].
  - rewrite (filter_from nS 0 nb) by apply blocks_length. rewrite Nat.sub_0_r. by apply snd_zip_seq, blocks_length.
  - rewrite filter_all by (by intros []). rewrite <- (drop_0 (zip _ blocks)), <- (drop_0 blocks) at 1. rewrite snd_zip_seq by apply blocks_length. by rewrite drop_0.
Qed.
Lemma column_length i : length (column p blocks i) = if (i =? sd)%nat then (nb - nS)%nat else nb.
Proof. rewrite column_eq, length_fmap. destruct (i =? sd)%nat; rewrite ?length_drop, blocks_length; done. Qed.
Lemma column_lookup i j b : blocks !! j = Some b -> (i <> sd -> column p blocks i !! j = Some (default 0 (b !! i))) /\ ((nS <= j)%nat -> column p blocks sd !! (j - nS)%nat = Some (default 0 (b !! sd))).
Proof.
  intros E. rewrite !column_eq, Nat.eqb_refl. split.
  - intros Hi. rewrite (proj2 (Nat.eqb_neq i sd) Hi), list_lookup_fmap, E. done.
  - intros Hj. rewrite list_lookup_fmap, lookup_drop. replace (nS + (j - nS))%nat with j by lia. by rewrite E.
Qed.
Let words := interleave p blocks.
Lemma words_parts : words = (seq 0 sd ≫= column p blocks) ++ column p blocks sd ++ (seq (S sd) ecc ≫= column p blocks).
Proof.
  unfold words, interleave. assert (Eh : length (default [] (head blocks)) = (sd + 1 + ecc)%nat).
  { destruct blocks as [|b r] eqn:Eb; [exfalso; pose proof blocks_length as Hl; rewrite Eb in Hl; cbn in Hl; lia|]. apply (block_length 0%nat). by rewrite Eb. }
  rewrite Eh, <- Nat.add_assoc, seq_app, bind_app. done.
Qed.
Lemma word_first i j b : (i < sd)%nat -> blocks !! j = Some b -> word_at words (i * nb + j) = default 0 (b !! i).
Proof.
  intros Hi E. assert (Hj : (j < nb)%nat) by (rewrite <- blocks_length; by eapply lookup_lt_Some). unfold word_at. rewrite words_parts.
  destruct (bind_uniform (column p blocks) nb 0 sd) as [L G]; [intros k Hk; rewrite column_length, (proj2 (Nat.eqb_neq k sd)) by lia; done|].
  rewrite lookup_app_l by (rewrite L; nia). rewrite G by done. cbn [Nat.add]. by rewrite (proj1 (column_lookup i j b E)) by lia.
Qed.
Lemma word_extra j b : (nS <= j)%nat -> blocks !! j = Some b -> word_at words (sd * nb + (j - nS)) = default 0 (b !! sd).
Proof.
  intros Hn E. assert (Hj : (j < nb)%nat) by (rewrite <- blocks_length; by eapply lookup_lt_Some). unfold word_at. rewrite words_parts.
  destruct (bind_uniform (column p blocks) nb 0 sd) as [L G]; [intros k Hk; rewrite column_length, (proj2 (Nat.eqb_neq k sd)) by lia; done|].
  rewrite lookup_app_r by (rewrite L; lia). rewrite L. replace (sd * nb + (j - nS) - sd * nb)%nat with (j - nS)%nat by lia.
  rewrite lookup_app_l by (rewrite column_length, Nat.eqb_refl; lia). by rewrite (proj2 (column_lookup 0 j b E)).
Qed.
Lemma word_check i j b : (i < ecc)%nat -> blocks !! j = Some b -> word_at words (sd * nb + (nb - nS) + i * nb + j) = default 0 (b !! (S sd + i)%nat).
Proof.
  intros Hi E. assert (Hj : (j < nb)%nat) by (rewrite <- blocks_length; by eapply lookup_lt_Some). unfold word_at. rewrite words_parts.
  destruct (bind_uniform (column p blocks) nb 0 sd) as [L _]; [intros k Hk; rewrite column_length, (proj2 (Nat.eqb_neq k sd)) by lia; done|].
  destruct (bind_uniform (column p blocks) nb (S sd) ecc) as [L2 G]; [intros k Hk; rewrite column_length, (proj2 (Nat.eqb_neq k sd)) by lia; done|].
  rewrite lookup_app_r by (rewrite L; lia). rewrite L, lookup_app_r by (rewrite column_length, Nat.eqb_refl; lia). rewrite column_length, Nat.eqb_refl.
  replace (sd * nb + (nb - nS) + i * nb + j - sd * nb - (nb - nS))%nat with (i * nb + j)%nat by lia. rewrite G by done. by rewrite (proj1 (column_lookup (S sd + i) j b E)) by lia.
Qed.
Lemma words_length : length words = (sd * nb + (nb - nS) + ecc * nb)%nat.
Proof.
  rewrite words_parts, !length_app, column_length, Nat.eqb_refl.
  destruct (bind_uniform (column p blocks) nb 0 sd) as [-> _]; [intros k Hk; rewrite column_length, (proj2 (Nat.eqb_neq k sd)) by lia; done|].
  destruct (bind_uniform (column p blocks) nb (S sd) ecc) as [-> _]; [intros k Hk; rewrite column_length, (proj2 (Nat.eqb_neq k sd)) by lia; done|]. lia.
Qed.
(** The reader gets the blocks. *)
Lemma block_read j dat : (j < nb)%nat -> dats !! j = Some dat -> block_data words nb nS sd j = dat /\ block_check words nb nS sd ecc j = rsRem dat gen.
Proof.
  intros Hj Ed. destruct (block_lookup j Hj) as (dat' & Ed' & Hl & Hb & E). simplify_eq. unfold len_of in Hl. split.
  - unfold block_data. assert (E1 : (fun i => word_at words (i * nb + j)) <$> seq 0 sd = take sd dat).
    { rewrite <- (tabulate_list (take sd dat) sd 0 (dat ++ (if (j <? nS)%nat then [0] else []) ++ rsRem dat gen)).
      - apply list_fmap_ext. intros i k Hk. apply lookup_seq in Hk as [-> Hk]. cbn. by rewrite (word_first i j _ Hk E).
      - rewrite length_take. destruct (j <? nS)%nat; lia.
      - intros i Hi. rewrite lookup_take_lt by done. apply lookup_app_l. destruct (j <? nS)%nat; lia. }
    rewrite E1. destruct (Nat.ltb_spec j nS) as [Hs|Hs].
    + rewrite (proj2 (Nat.leb_gt nS j)), app_nil_r by lia. apply take_ge. lia.
    + rewrite (proj2 (Nat.leb_le nS j)) by lia. rewrite (word_extra j _ Hs E). rewrite lookup_app_l by lia.
      destruct (lookup_lt_is_Some_2 dat sd ltac:(lia)) as [x Ex]. rewrite Ex. cbn. rewrite <- take_S_r by done. apply take_ge. lia.
  - unfold block_check. rewrite <- (tabulate_list (rsRem dat gen) ecc (S sd) (dat ++ (if (j <? nS)%nat then [0] else []) ++ rsRem dat gen)).
    + apply list_fmap_ext. intros i k Hk. apply lookup_seq in Hk as [-> Hk]. cbn [Nat.add]. by rewrite (word_check i j _ Hk E).
    + by apply rem_length.
    + intros i Hi. rewrite app_assoc, lookup_app_r; [f_equal|]; rewrite length_app; destruct (j <? nS)%nat; cbn; lia.
Qed.
Lemma blocks_read : (fun j => (block_data words nb nS sd j, block_check words nb nS sd ecc j)) <$> seq 0 nb = (fun dat => (dat, rsRem dat gen)) <$> dats.
Proof.
  apply list_eq. intros j. rewrite !list_lookup_fmap. destruct (decide (j < nb)%nat) as [Hj|Hj].
  - rewrite lookup_seq_lt by done. destruct (block_lookup j Hj) as (dat & Ed & _). rewrite Ed. cbn. destruct (block_read j dat Hj Ed) as [-> ->]. done.
  - rewrite lookup_seq_ge by lia. cbn. rewrite (proj2 (lookup_ge_None dats j)); [done|]. unfold dats. rewrite length_cut, length_fmap, length_seq. lia.
Qed.
Lemma blocks_data : ((fun dat => (dat, rsRem dat gen)) <$> dats) ≫= fst = data.
Proof. rewrite list_fmap_bind. destruct (cut_whole _ _ Hlen) as [E _]. fold dats in E. exact E. Qed.
Lemma blocks_sound : List.forallb (sound ecc) ((fun dat => (dat, rsRem dat gen)) <$> dats) = true.
Proof.
  apply List.forallb_forall. intros b Hb. apply list_elem_of_In, list_elem_of_fmap in Hb as (dat & -> & Hdat). unfold sound. apply List.forallb_forall. intros k Hk. apply List.in_seq in Hk.
  pose proof (cut_bytes (len_of <$> seq 0 nb) data Hdata) as Hb. rewrite Forall_forall in Hb. specialize (Hb dat Hdat). destruct (block_syndromes ecc dat k Hd ltac:(lia) Hb) as (_ & _ & S). by apply Z.eqb_eq.
Qed.
Lemma words_bytes : Forall byte words.
Proof.
  apply Forall_bind, Forall_forall. intros i _. change (Forall byte (column p blocks i)). rewrite column_eq. apply Forall_fmap.
  assert (H : Forall (fun b => byte (default 0 (b !! i))) blocks).
  { apply Forall_lookup. intros j b E. assert (Hj : (j < nb)%nat) by (rewrite <- blocks_length; by eapply lookup_lt_Some). destruct (block_lookup j Hj) as (dat & _ & _ & B & E'). simplify_eq.
    assert (Hb : Forall byte (dat ++ (if (j <? nS)%nat then [0] else []) ++ rsRem dat gen)).
    { rewrite !Forall_app. split; [done|]. split; [destruct (j <? nS)%nat; [apply Forall_singleton, byte_0 | constructor]|]. by destruct (block_syndromes ecc dat 0 Hd ecc_pos B) as (_ & ? & _). }
    destruct (_ !! i) as [x|] eqn:Ex; [|apply byte_0]. rewrite Forall_lookup in Hb. by apply (Hb i). }
  destruct (i =? sd)%nat; [by apply Forall_drop | done].
Qed.
End interleaving.

(** ** Modules *)

Lemma read_order_NoDup size : size mod 2 = 1 -> NoDup (read_order size).
Proof.
  intros Hodd. pose proof (Z.div_mod size 2 ltac:(lia)) as Hs. rewrite Hodd in Hs. apply NoDup_bind; [| |apply NoDup_seqZ].
  - intros k1 k2 [x y] H1 H2 E1 E2. apply elem_of_seqZ in H1, H2. assert (Eh : (size - 1) / 2 = size / 2) by (symmetry; apply Z.div_unique with 0; lia). rewrite Eh in H1, H2.
    assert (Hx : forall k, (x, y) ∈ (i ← seqZ 0 size; [(if 6 <? size - 1 - 2 * k then size - 1 - 2 * k else size - 2 - 2 * k, if k mod 2 =? 0 then size - 1 - i else i); ((if 6 <? size - 1 - 2 * k then size - 1 - 2 * k else size - 2 - 2 * k) - 1, if k mod 2 =? 0 then size - 1 - i else i)]) ->
      x = (if 6 <? size - 1 - 2 * k then size - 1 - 2 * k else size - 2 - 2 * k) \/ x = (if 6 <? size - 1 - 2 * k then size - 1 - 2 * k else size - 2 - 2 * k) - 1).
    { intros k Hk. apply list_elem_of_bind in Hk as (i & Hk & _). rewrite !elem_of_cons in Hk. destruct Hk as [[= -> _]|[[= -> _]|[]%elem_of_nil]]; auto. }
    apply Hx in E1, E2. destruct (Z.ltb_spec 6 (size - 1 - 2 * k1)), (Z.ltb_spec 6 (size - 1 - 2 * k2)); lia.
  - intros k _. apply NoDup_bind; [| |apply NoDup_seqZ].
    + intros i1 i2 [x y] _ _ E1 E2. rewrite !elem_of_cons in E1, E2. 
      destruct (k mod 2 =? 0); destruct E1 as [E1|[E1|[]%elem_of_nil]]; destruct E2 as [E2|[E2|[]%elem_of_nil]]; injection E1; injection E2; lia.
    + intros i _. apply NoDup_cons. split; [|apply NoDup_singleton]. intros H%list_elem_of_singleton. injection H. lia.
Qed.
Lemma place_outside F cells bits g p : p ∉ cells -> place F cells bits g !! p = g !! p.
Proof.
  revert bits g. induction cells as [|q r IH]; intros bits g Hp; [done|]. apply not_elem_of_cons in Hp as [Hpq Hp]. cbn [place]. destruct (bool_decide (q ∈ F)); [auto|].
  destruct bits as [|b bits]; [auto|]. rewrite IH by done. by rewrite lookup_insert_ne.
Qed.
Lemma place_lookup F (f : cell -> bool) cells bits g i p b : NoDup cells -> (forall p, p ∈ cells -> bool_decide (p ∈ F) = f p) ->
  List.filter (fun p => negb (f p)) cells !! i = Some p -> bits !! i = Some b -> place F cells bits g !! p = Some (negb (b =? 0)).
Proof.
  revert bits g i. induction cells as [|q r IH]; intros bits g i Hn Hf Ei Eb; [done|]. apply NoDup_cons in Hn as [Hq Hn]. cbn [place List.filter] in *.
  rewrite (Hf q) by (by left). destruct (f q); cbn [negb] in Ei; [eapply IH; eauto; intros; apply Hf; by right|].
  destruct bits as [|b0 bits]; [done|]. destruct i as [|i]; cbn in Ei, Eb; [|eapply IH; eauto; intros; apply Hf; by right].
  injection Ei as ->. injection Eb as ->. rewrite place_outside by done. by rewrite lookup_insert_eq.
Qed.
Lemma writes_outside ws g p : p ∉ (fst <$> ws) -> writes ws g !! p = g !! p.
Proof.
  unfold writes. revert g. induction ws as [|[q d] ws IH]; intros g Hp; [done|]. rewrite fmap_cons, not_elem_of_cons in Hp. destruct Hp as [Hq Hp]. cbn. rewrite IH by done. unfold write. cbn. by rewrite lookup_insert_ne by (cbn in Hq; congruence).
Qed.
Lemma writes_lookup ws g p d : NoDup (fst <$> ws) -> (p, d) ∈ ws -> writes ws g !! p = Some d.
Proof.
  unfold writes. revert g. induction ws as [|[q e] ws IH]; intros g Hn Hin; [by apply elem_of_nil in Hin|]. rewrite fmap_cons in Hn. apply NoDup_cons in Hn as [Hq Hn]. cbn.
  apply elem_of_cons in Hin as [[= -> ->]|Hin]; [|by apply IH]. rewrite (writes_outside ws) by done. unfold write. cbn. by rewrite lookup_insert_eq.
Qed.
Lemma fmt_cells size E m : fst <$> fmt size E m = fst <$> fmt size ECC_L 0.
Proof. unfold fmt. rewrite !fmap_app, <- !list_fmap_compose. reflexivity. Qed.
Lemma reserved_any v size E : reserved v size E = reserved v size ECC_L.
Proof. unfold reserved. f_equal. unfold patterns. rewrite !fmap_app. by rewrite (fmt_cells size E 0). Qed.
Lemma mask_free F m g p d : p ∉ F -> g !! p = Some d -> mask F m g !! p = Some (xorb d (inv m p.1 p.2)).
Proof. intros Hp E. unfold mask. rewrite map_lookup_imap, E. cbn. rewrite bool_decide_eq_false_2 by done. cbn. by destruct d, (inv m p.1 p.2). Qed.
(** Trying the masks leaves the modules of the data as they were. *)
Lemma choose_spec F size E ms best bp g : (forall q, q ∈ (fst <$> fmt size ECC_L 0) -> q ∈ F) ->
  let '(b, g') := choose F size E ms best bp g in (b = best \/ b ∈ ms) /\ forall p d, p ∉ F -> g !! p = Some d -> g' !! p = Some d.
Proof.
  intros HF. revert best bp g. induction ms as [|m ms IH]; intros best bp g; cbn [choose]; [by split; [left|]|].
  set (g2 := mask F m (writes (fmt size E m) (mask F m g))).
  assert (Hg2 : forall p d, p ∉ F -> g !! p = Some d -> g2 !! p = Some d).
  { intros p d Hp Ep. unfold g2. erewrite mask_free; [|done|rewrite writes_outside; [by apply mask_free|]; rewrite fmt_cells; by intros Hq%HF]. f_equal. by destruct d, (inv m p.1 p.2). }
  destruct (match bp with Some b => _ | None => true end).
  - specialize (IH m (Some (penalty size (writes (fmt size E m) (mask F m g)))) g2). destruct (choose F size E ms m _ g2) as [b g']. destruct IH as [[->|Hb] Hf]; (split; [right; by constructor | auto]).
  - specialize (IH best bp g2). destruct (choose F size E ms best bp g2) as [b g']. destruct IH as [[->|Hb] Hf]; (split; [|auto]); [by left | right; by constructor].
Qed.

(** ** Reading the words back *)

Lemma fmap_rev_list {A B} (f : A -> B) l : f <$> rev l = rev (f <$> l).
Proof. induction l as [|x l IH]; [done|]. cbn [rev fmap list_fmap]. by rewrite fmap_app, IH. Qed.
Lemma word_snoc l b : word_of (l ++ [b]) = 2 * word_of l + b.
Proof. unfold word_of. by rewrite fold_left_app. Qed.
Lemma word_put_n (n : nat) w : 0 <= w < 2 ^ Z.of_nat n -> word_of (put w (Z.of_nat n)) = w.
Proof.
  revert w. induction n as [|n IH]; intros w Hw; [cbn in Hw; assert (w = 0) as -> by lia; done|].
  assert (E : put w (Z.of_nat (S n)) = put (Z.shiftr w 1) (Z.of_nat n) ++ [Z.land w 1]).
  { unfold put. rewrite !(seqZ_seq 0). cbn [seq fmap list_fmap rev]. rewrite <- seq_shift, fmap_app. f_equal. rewrite <- !fmap_rev_list. rewrite <- !list_fmap_compose.
    apply list_fmap_ext. intros i k _. cbn [compose]. rewrite Z.shiftr_shiftr by lia. f_equal. f_equal. lia. }
  rewrite E, word_snoc. rewrite IH; [|rewrite Z.shiftr_div_pow2 by lia; change (2 ^ 1) with 2; rewrite Nat2Z.inj_succ, Z.pow_succ_r in Hw by lia; split; [apply Z.div_pos; lia | apply Z.div_lt_upper_bound; lia]].
  rewrite Z.shiftr_div_pow2 by lia. change (Z.land w 1) with (Z.land w (Z.ones 1)). rewrite Z.land_ones by lia. change (2 ^ 1) with 2. pose proof (Z.div_mod w 2). lia.
Qed.
Record plan_facts (v : Z) (E : Ecc) (nb sd ecc nS : nat) : Prop := {
  f_plan : plan_of v E = {| pl_nb := Z.of_nat nb; pl_ecc := Z.of_nat ecc; pl_nShort := Z.of_nat nS; pl_shortLen := Z.of_nat (sd + ecc) |};
  f_nS : (nS <= nb)%nat; f_nb : (0 < nb)%nat; f_ecc : ecc ∈ used_lengths;
  f_data : Z.to_nat (dataWords v E) = sum_list ((fun j => if (j <? nS)%nat then sd else S sd) <$> seq 0 nb);
  f_raw : Z.to_nat (rawModules v / 8) = (sd * nb + (nb - nS) + ecc * nb)%nat;
  f_reader : (nb, ecc, nS, sd) = (Z.to_nat (entry (e_b E) v), Z.to_nat (entry (e_e E) v), (nb - Z.to_nat (rawModules v / 8) mod nb)%nat, (Z.to_nat (rawModules v / 8) / nb - ecc)%nat);
  f_count : 0 <= dataWords v E < 2 ^ count_bits v; f_free : 0 <= rawModules v }.
Lemma plans v E : v ∈ versions -> E = ECC_L \/ E = ECC_M -> exists nb sd ecc nS, plan_facts v E nb sd ecc nS.
Proof.
  intros Hv HE. unfold versions in Hv.
  set (nb := Z.to_nat (entry (e_b E) v)). set (ecc := Z.to_nat (entry (e_e E) v)). set (raw := Z.to_nat (rawModules v / 8)). exists nb, (raw / nb - ecc)%nat, ecc, (nb - raw mod nb)%nat.
  repeat (apply elem_of_cons in Hv as [-> | Hv]; [by destruct HE as [-> | ->]; split; first [vm_compute; split; (reflexivity || discriminate) | vm_compute; reflexivity | vm_compute; discriminate | vm_compute; lia | vm_compute; repeat first [apply list_elem_of_here | apply list_elem_of_further]]|]).
  by apply elem_of_nil in Hv.
Qed.
Lemma read_payload_spec v bytes extra : Forall byte bytes -> Z.of_nat (length bytes) < 2 ^ count_bits v -> read_payload v (payload v bytes ++ extra) = Some bytes.
Proof.
  intros Hb Hn. assert (Hc : 0 <= count_bits v) by (unfold count_bits; by destruct (v <? 10)). unfold read_payload, payload. rewrite <- !app_assoc.
  assert (L4 : length (put 4 4) = 4%nat) by (by apply length_put). assert (Lc := length_put (Z.of_nat (length bytes)) (count_bits v) Hc).
  rewrite (take_app_length' (put 4 4)), (drop_app_length' (put 4 4)) by done. change (word_of (put 4 4) =? 4) with true. cbv iota.
  rewrite (take_app_length' (put (Z.of_nat (length bytes)) (count_bits v))) by (by rewrite Lc).
  assert (Ew : word_of (put (Z.of_nat (length bytes)) (count_bits v)) = Z.of_nat (length bytes)).
  { rewrite <- (Z2Nat.id (count_bits v)) by done. apply word_put_n. rewrite Z2Nat.id by done. lia. }
  rewrite Ew, Nat2Z.id. f_equal. rewrite <- drop_drop, (drop_app_length' (put 4 4)) by done. rewrite (drop_app_length' (put (Z.of_nat (length bytes)) (count_bits v))) by (by rewrite Lc).
  rewrite take_app_length' by (by rewrite length_bits). apply words_of_put; [done | lia].
Qed.
Lemma codewords_read v E bytes : v ∈ versions -> E = ECC_L \/ E = ECC_M -> Forall byte bytes -> 4 + count_bits v + Z.of_nat (length bytes) * 8 <= dataWords v E * 8 ->
  let ws := codewords v E bytes in
  let blocks := read_blocks ws (Z.to_nat (entry (e_b E) v)) (Z.to_nat (entry (e_e E) v)) in
  length ws = Z.to_nat (rawModules v / 8) /\ Forall byte ws /\ List.forallb (sound (Z.to_nat (entry (e_e E) v))) blocks = true /\
  read_payload v ((blocks ≫= fst) ≫= fun w => put w 8) = Some bytes.
Proof.
  intros Hv HE Hb Hfit ws blocks. destruct (plans v E Hv HE) as (nb & sd & ecc & nS & F). destruct (message_spec v E bytes Hfit) as (extra & Em & Lm & Bm).
  set (bits := message_bits v E bytes) in *. destruct (words_of_bits (Z.to_nat (dataWords v E)) (length bits) bits Bm Lm ltac:(lia)) as (Ld & Bd & Pd). set (data := words_of (length bits) bits) in *.
  destruct F as [Fp F1 F2 F3 F4 F5 F6 F7 F8]. injection F6 as Enb Eecc EnS Esd.
  assert (Ews : ws = interleave (plan_of v E) (blocks_loop (plan_of v E) (rsGen ecc) (seqZ 0 (pl_nb (plan_of v E))) data)) by (unfold ws, codewords; rewrite Fp; cbn [pl_ecc]; by rewrite Nat2Z.id).
  assert (Hlen : length data = sum_list ((fun j => if (j <? nS)%nat then sd else S sd) <$> seq 0 nb)) by (rewrite <- F4; exact Ld).
  assert (P1 : pl_nb (plan_of v E) = Z.of_nat nb) by (by rewrite Fp). assert (P2 : pl_ecc (plan_of v E) = Z.of_nat ecc) by (by rewrite Fp).
  assert (P3 : pl_nShort (plan_of v E) = Z.of_nat nS) by (by rewrite Fp). assert (P4 : pl_shortLen (plan_of v E) = Z.of_nat (sd + ecc)) by (by rewrite Fp).
  assert (Lws : length ws = (sd * nb + (nb - nS) + ecc * nb)%nat) by (rewrite Ews; eapply words_length; eauto).
  assert (Eb : blocks = (fun dat => (dat, rsRem dat (rsGen ecc))) <$> cut ((fun j => if (j <? nS)%nat then sd else S sd) <$> seq 0 nb) data).
  { unfold blocks, read_blocks. rewrite <- Enb, <- Eecc, Lws, <- F5, <- EnS, <- Esd, Ews. eapply blocks_read; eauto. }
  split; [by rewrite Lws, F5|]. split; [rewrite Ews; eapply words_bytes; eauto|].
  split; [rewrite Eb, <- Eecc; eapply blocks_sound; eauto|].
  rewrite Eb. erewrite blocks_data; eauto. cbn zeta in Pd. rewrite Pd, Em. apply read_payload_spec; [done|].
  assert (0 <= count_bits v) by (unfold count_bits; by destruct (v <? 10)). lia.
Qed.

(** ** The whole code *)

Lemma layout_facts v : v ∈ versions -> let size := code_size v in
  zigzag size = read_order size /\
  (forall p, p ∈ zigzag size -> bool_decide (p ∈ reserved v size ECC_L) = is_function v size p /\ inside size p = true) /\
  Z.of_nat (length (data_cells v size)) = rawModules v /\ take 15 (fst <$> format_cells size) = format_at /\
  (forall p, p ∈ (fst <$> fmt size ECC_L 0) -> p ∈ reserved v size ECC_L) /\ NoDup (fst <$> fmt size ECC_L 0).
Proof.
  intros Hv size. pose proof layouts_ok as H. rewrite List.forallb_forall in H. specialize (H v ltac:(by apply list_elem_of_In)). unfold layout_ok in H. fold size in H.
  rewrite !andb_true_iff, !bool_decide_eq_true, !List.forallb_forall, Z.eqb_eq in H. destruct H as (((((H1 & H2) & H3) & H4) & H5) & H6).
  split; [done|]. split; [|split; [done|]; split; [done|]; split; [|done]].
  - intros p Hp. specialize (H2 p ltac:(by apply list_elem_of_In)). apply andb_true_iff in H2 as [H2 H2']. split; [by apply eqb_prop | done].
  - intros p Hp. specialize (H5 p ltac:(by apply list_elem_of_In)). by apply bool_decide_eq_true in H5.
Qed.
Lemma version_size v : v ∈ versions -> (code_size v - 17) / 4 = v /\ code_size v mod 2 = 1 /\ 0 < code_size v.
Proof. intros Hv. unfold versions in Hv. repeat (apply elem_of_cons in Hv as [-> | Hv]; [vm_compute; auto|]). by apply elem_of_nil in Hv. Qed.
Lemma format_reads E m : E = ECC_L \/ E = ECC_M -> m ∈ seqZ 0 8 -> let n := Z.lxor (read_number (bit_of (format_bits E m) <$> seqZ 0 15)) 21522 in let d := Z.shiftr n 10 in
  (if Z.land n 1023 =? bch 1335 9 10 d then match Z.shiftr d 3 with 0 => Some (ECC_M, Z.land d 7) | 1 => Some (ECC_L, Z.land d 7) | _ => None end else None) = Some (E, m).
Proof. intros HE Hm. change (seqZ 0 8) with [0; 1; 2; 3; 4; 5; 6; 7] in Hm. repeat (apply elem_of_cons in Hm as [-> | Hm]; [destruct HE as [-> | ->]; vm_compute; reflexivity|]). by apply elem_of_nil in Hm. Qed.
Lemma format_first size E m i p : fst <$> take 15 (format_cells size) = format_at -> format_at !! i = Some p -> (p, bit_of (format_bits E m) (Z.of_nat i)) ∈ fmt size E m.
Proof.
  intros Ef Ei. unfold fmt. apply elem_of_app. left. apply list_elem_of_fmap. exists (p, Z.of_nat i). split; [done|].
  assert (Es : snd <$> take 15 (format_cells size) = seqZ 0 15) by reflexivity.
  assert (Hi : (i < 15)%nat) by (by apply lookup_lt_Some in Ei).
  rewrite <- Ef, list_lookup_fmap in Ei. destruct (take 15 (format_cells size) !! i) as [[q j]|] eqn:El; [|done]. injection Ei as <-.
  assert (Ej : (snd <$> take 15 (format_cells size)) !! i = Some j) by (by rewrite list_lookup_fmap, El). rewrite Es, lookup_seqZ in Ej. destruct Ej as [-> _].
  rewrite <- (take_drop 15 (format_cells size)). apply elem_of_app. left. eapply list_elem_of_lookup_2. rewrite El. done.
Qed.
Lemma choose_fit_spec n E v E' : choose_fit n E = Some (v, E') -> E = ECC_L \/ E = ECC_M ->
  v ∈ versions /\ (E' = ECC_L \/ E' = ECC_M) /\ 4 + count_bits v + Z.of_nat n * 8 <= dataWords v E' * 8.
Proof.
  assert (Hfit : forall E v, fit n E = Some v -> v ∈ versions /\ 4 + count_bits v + Z.of_nat n * 8 <= dataWords v E * 8).
  { intros e w Hf. unfold fit in Hf. apply List.find_some in Hf as [Hin Hle]. split; [by apply list_elem_of_In | by apply Z.leb_le]. }
  unfold choose_fit. intros Hc HE. destruct (fit n E) as [w|] eqn:E1; [injection Hc as <- <-; destruct (Hfit _ _ E1); auto|].
  destruct (fit n ECC_L) as [w|] eqn:E2; [|done]. injection Hc as <- <-. destruct (Hfit _ _ E2). auto.
Qed.
Section code.
Context (v : Z) (E : Ecc) (bytes : list Z).
Context (Hv : v ∈ versions) (HE : E = ECC_L \/ E = ECC_M) (Hb : Forall byte bytes) (Hfit : 4 + count_bits v + Z.of_nat (length bytes) * 8 <= dataWords v E * 8).
Let size := code_size v.
Let F := reserved v size E.
Let best := (choose F size E (seqZ 0 8) 0 None (unmasked v E bytes)).1.
Let code : Code := {| c_size := size; c_version := v; c_modules := writes (fmt size E best) (mask F best (choose F size E (seqZ 0 8) 0 None (unmasked v E bytes)).2) |}.

Lemma best_mask : best ∈ seqZ 0 8 /\ forall p d, p ∉ F -> unmasked v E bytes !! p = Some d -> (choose F size E (seqZ 0 8) 0 None (unmasked v E bytes)).2 !! p = Some d.
Proof.
  destruct (layout_facts v Hv) as (_ & _ & _ & _ & H5 & _). assert (HF : forall q, q ∈ (fst <$> fmt size ECC_L 0) -> q ∈ F) by (unfold F; rewrite reserved_any; exact H5).
  pose proof (choose_spec F size E (seqZ 0 8) 0 None (unmasked v E bytes) HF) as Hc. unfold best.
  destruct (choose F size E (seqZ 0 8) 0 None (unmasked v E bytes)) as [b g]. destruct Hc as [Hbest Hfree].
  split; [|done]. cbn [fst]. destruct Hbest as [->|?]; [apply elem_of_seqZ; lia | done].
Qed.
Lemma code_format : read_format code = Some (E, best).
Proof.
  destruct (layout_facts v Hv) as (_ & _ & _ & H4 & _ & H6). unfold read_format.
  assert (Eb : (fun p : cell => get code p.1 p.2) <$> format_at = bit_of (format_bits E best) <$> seqZ 0 15).
  { apply list_eq. intros i. rewrite !list_lookup_fmap. destruct (decide (i < 15)%nat) as [Hi|Hi].
    - destruct (lookup_lt_is_Some_2 format_at i Hi) as [p Ep]. rewrite Ep, (proj2 (lookup_seqZ 0 15 i (Z.of_nat i))) by lia. cbn. f_equal.
      rewrite <- fmap_take in H4. assert (Hin := format_first size E best i p H4 Ep).
      assert (Hw : c_modules code !! p = Some (bit_of (format_bits E best) (Z.of_nat i))) by (apply writes_lookup; [by rewrite fmt_cells | done]).
      unfold get, dark. assert (Hins : inside (c_size code) (p.1, p.2) = true).
      { cbn [c_size code]. pose proof (version_size v Hv) as (_ & _ & Hpos). assert (Hs : 21 <= size) by (unfold size; clear -Hv; unfold versions in Hv; repeat (apply elem_of_cons in Hv as [-> | Hv]; [by vm_compute|]); by apply elem_of_nil in Hv).
        assert (Hsmall : List.forallb (fun p : cell => inside 21 p) format_at = true) by reflexivity. rewrite List.forallb_forall in Hsmall. specialize (Hsmall p ltac:(by apply list_elem_of_In; eapply list_elem_of_lookup_2)).
        unfold inside in *. cbn [fst snd] in *. lia. }
      rewrite Hins. cbn [andb]. destruct p as [x y]. cbn [fst snd]. by rewrite Hw.
    - rewrite (lookup_ge_None_2 format_at) by (cbn; lia). rewrite (lookup_ge_None_2 (seqZ 0 15)) by (rewrite length_seqZ; lia). done. }
  rewrite Eb. apply format_reads; [done | apply best_mask].
Qed.
Lemma code_bits : take (length (read_bits code v best) / 8 * 8) (read_bits code v best) = (codewords v E bytes ≫= fun w => put w 8).
Proof.
  destruct (layout_facts v Hv) as (H1 & H2 & H3 & _ & H5 & _). fold size in H1, H2, H3, H5. destruct (codewords_read v E bytes Hv HE Hb Hfit) as (Lw & _). destruct (version_size v Hv) as (_ & Hodd & _).
  set (bits := codewords v E bytes ≫= _). assert (Lb : length bits = (Z.to_nat (rawModules v / 8) * 8)%nat) by (unfold bits; by rewrite length_bits, Lw).
  destruct (plans v E Hv HE) as (nb & sd & ecc & nS & [_ _ _ _ _ _ _ _ Hraw]).
  assert (Lr : length (read_bits code v best) = Z.to_nat (rawModules v)) by (unfold read_bits; rewrite length_fmap; assert (Hdc : Z.of_nat (length (data_cells v (c_size code))) = rawModules v) by exact H3; lia).
  assert (En : (length (read_bits code v best) / 8 * 8)%nat = length bits) by (rewrite Lr, Lb, Z2Nat.inj_div by lia; done). rewrite En.
  apply list_eq. intros i. destruct (decide (i < length bits)%nat) as [Hi|Hi]; [|rewrite !lookup_ge_None_2; [done | lia | rewrite length_take; lia]].
  rewrite lookup_take_lt by done. destruct (lookup_lt_is_Some_2 bits i Hi) as [b Eb]. rewrite Eb. unfold read_bits. rewrite list_lookup_fmap. cbn [c_size code].
  destruct (lookup_lt_is_Some_2 (data_cells v size) i) as [p Ep].
  { assert (Hdc : Z.of_nat (length (data_cells v size)) = rawModules v) by exact H3. rewrite Lb in Hi. pose proof (Z.div_mod (rawModules v) 8 ltac:(lia)). pose proof (Z.mod_pos_bound (rawModules v) 8 ltac:(lia)). lia. }
  rewrite Ep. cbn [fmap option_fmap option_map]. f_equal.
  assert (Hpz : p ∈ zigzag size /\ is_function v size p = false).
  { pose proof (list_elem_of_lookup_2 _ _ _ Ep) as Hin. unfold data_cells in Hin. apply list_elem_of_In, List.filter_In in Hin as [Hin Hnf]. split; [rewrite H1; by apply list_elem_of_In | by apply negb_true_iff]. }
  destruct Hpz as [Hpz Hnf]. destruct (H2 p Hpz) as [Hres Hins]. rewrite Hnf in Hres. apply bool_decide_eq_false in Hres.
  assert (HpF : p ∉ F) by (unfold F; by rewrite reserved_any).
  assert (Hplaced : unmasked v E bytes !! p = Some (negb (b =? 0))).
  { unfold unmasked. fold size. rewrite H1. eapply (place_lookup _ (is_function v size)); [by apply read_order_NoDup | | exact Ep | exact Eb].
    intros q Hq. rewrite reserved_any. apply H2. by rewrite H1. }
  destruct best_mask as [_ Hfree]. specialize (Hfree p _ HpF Hplaced).
  assert (Hmod : c_modules code !! p = Some (xorb (negb (b =? 0)) (inv best p.1 p.2))).
  { cbn [c_modules code]. rewrite writes_outside; [by apply mask_free|]. rewrite fmt_cells. intros Hq%H5. done. }
  unfold get, dark. destruct p as [x y]. cbn [fst snd c_size code] in *. rewrite Hins, Hmod. cbn [andb default].
  assert (Hbit : bit b) by (pose proof (bits_bind (codewords v E bytes)) as Hbb; rewrite Forall_lookup in Hbb; by apply (Hbb i)).
  change (from_option id false (Some ?z)) with z. destruct Hbit as [-> | ->]; destruct (inv best x y); done.
Qed.
Lemma code_reads : read code = Some bytes.
Proof.
  unfold read. destruct (version_size v Hv) as (Ev & _). assert (Ec : (c_size code - 17) / 4 = v) by exact Ev. rewrite Ec, code_format. cbn [mbind option_bind].
  rewrite code_bits. destruct (codewords_read v E bytes Hv HE Hb Hfit) as (Lw & Bw & Sw & Pw).
  rewrite words_of_put; [|done|]; [by rewrite Sw, Pw|].
  assert (Hlen := f_equal length code_bits). rewrite length_take, length_bits in Hlen. lia.
Qed.
End code.
Lemma make_bytes_reads bytes E c : E = ECC_L \/ E = ECC_M -> Forall byte bytes -> make_bytes bytes E = Some c -> read c = Some bytes.
Proof.
  intros HE Hb Hm. unfold make_bytes in Hm. destruct (choose_fit (length bytes) E) as [[v E']|] eqn:Ec; [|done]. cbn [mbind option_bind] in Hm.
  destruct (choose_fit_spec _ _ _ _ Ec HE) as (Hv & HE' & Hfit). pose proof (code_reads v E' bytes Hv HE' Hb Hfit) as Hr.
  destruct (choose _ _ E' (seqZ 0 8) 0 None _) as [best g]. apply (inj Some) in Hm. subst c. exact Hr.
Qed.


(** ** What fits *)

Lemma fit_none n E : fit n E = None <-> forall k, k ∈ versions -> dataWords k E * 8 < 4 + count_bits k + Z.of_nat n * 8.
Proof.
  unfold fit. change (seqZ 1 10) with versions. split.
  - intros Hf k Hk. pose proof (List.find_none _ _ Hf k ltac:(by apply list_elem_of_In)) as H. by apply Z.leb_gt in H.
  - intros H. destruct (List.find _ versions) as [k|] eqn:Ef; [|done]. apply List.find_some in Ef as [Hin Hle]. apply Z.leb_le in Hle. specialize (H k ltac:(by apply list_elem_of_In)). lia.
Qed.
Lemma no_code bytes E : E = ECC_L \/ E = ECC_M -> make_bytes bytes E = None <-> (271 < length bytes)%nat.
Proof.
  intros HE. assert (Hm : make_bytes bytes E = None <-> choose_fit (length bytes) E = None).
  { unfold make_bytes. destruct (choose_fit (length bytes) E) as [[v E']|]; [|done]. cbn [mbind option_bind]. destruct (choose _ _ E' (seqZ 0 8) 0 None _). done. }
  rewrite Hm. unfold choose_fit.
  assert (HL : fit (length bytes) ECC_L = None <-> (271 < length bytes)%nat).
  { rewrite fit_none. split.
    - intros H. specialize (H 10). assert (Hin : 10 ∈ versions) by (by apply list_elem_of_In; vm_compute; tauto). specialize (H Hin). change (dataWords 10 ECC_L) with 274 in H. change (count_bits 10) with 16 in H. lia.
    - intros H k Hk. unfold versions in Hk. repeat (apply elem_of_cons in Hk as [-> | Hk]; [vm_compute (dataWords _ _); vm_compute (count_bits _); lia|]). by apply elem_of_nil in Hk. }
  assert (Hle : fit (length bytes) ECC_L = None -> fit (length bytes) E = None).
  { rewrite HL. destruct HE as [-> | ->]; [by rewrite HL|]. intros H. apply fit_none. intros k Hk. unfold versions in Hk. repeat (apply elem_of_cons in Hk as [-> | Hk]; [vm_compute (dataWords _ _); vm_compute (count_bits _); lia|]). by apply elem_of_nil in Hk. }
  destruct (fit (length bytes) ECC_L) as [w|] eqn:E2.
  - split; [|intros H; exfalso; by apply HL in H]. by destruct (fit (length bytes) E).
  - rewrite Hle by done. rewrite <- HL. done.
Qed.
(** A code exists exactly for up to 271 bytes, whichever correction is asked for. *)
Theorem qr_capacity text E bytes : E = ECC_L \/ E = ECC_M -> qr_bytes text = Some bytes -> make text E = None <-> (271 < length bytes)%nat.
Proof. intros HE Hb. unfold make. rewrite Hb. by apply no_code. Qed.

(** ** The mask *)

Definition agree (size : Z) (g g' : Grid) : Prop := forall p, p ∉ (fst <$> fmt size ECC_L 0) -> g !! p = g' !! p.
Lemma writes_agree size E m g g' : NoDup (fst <$> fmt size ECC_L 0) -> agree size g g' -> writes (fmt size E m) g = writes (fmt size E m) g'.
Proof.
  intros Hn Hg. apply map_eq. intros p. destruct (decide (p ∈ (fst <$> fmt size E m))) as [Hp|Hp].
  - apply list_elem_of_fmap in Hp as ([q d] & -> & Hin). assert (Hn' : NoDup (fst <$> fmt size E m)) by (by rewrite fmt_cells). by rewrite !(writes_lookup _ _ q d).
  - rewrite !writes_outside by done. apply Hg. by rewrite <- (fmt_cells size E m).
Qed.
Lemma mask_agree F size m g g' : agree size g g' -> agree size (mask F m g) (mask F m g').
Proof. intros Hg p Hp. unfold mask. rewrite !map_lookup_imap, (Hg p Hp). done. Qed.
Lemma mask_mask F m g p : mask F m (mask F m g) !! p = g !! p.
Proof. unfold mask. rewrite !map_lookup_imap. destruct (g !! p) as [d|]; [|done]. cbn. destruct (negb _ && _); [by rewrite negb_involutive | done]. Qed.
Lemma choose_least F size E g0 ms best bp g : NoDup (fst <$> fmt size ECC_L 0) -> agree size g g0 ->
  let pen m := penalty size (writes (fmt size E m) (mask F m g0)) in
  bp = Some (pen best) \/ bp = None /\ ms <> [] ->
  let '(b, g') := choose F size E ms best bp g in agree size g' g0 /\ Forall (fun m => pen b <= pen m) ms /\ (bp <> None -> pen b <= pen best).
Proof.
  intros Hn Hg pen. revert best bp g Hg. induction ms as [|m ms IH]; intros best bp g Hg Hbp; cbn [choose].
  { split; [done|]. split; [constructor|]. lia. }
  assert (Eg1 : writes (fmt size E m) (mask F m g) = writes (fmt size E m) (mask F m g0)) by (apply writes_agree; [done | by apply mask_agree]). rewrite Eg1.
  set (g2 := mask F m (writes (fmt size E m) (mask F m g0))). assert (Hg2 : agree size g2 g0).
  { intros p Hp. unfold g2. rewrite <- (mask_mask F m g0 p). apply (mask_agree F size m); [|done]. intros q Hq. apply writes_outside. by rewrite fmt_cells. }
  fold (pen m). destruct (match bp with Some b => pen m <? b | None => true end) eqn:Ecmp.
  - specialize (IH m (Some (pen m)) g2 Hg2 (or_introl eq_refl)). destruct (choose F size E ms m (Some (pen m)) g2) as [b g']. destruct IH as (A & B & C).
    assert (Cb : pen b <= pen m) by (by apply C). split; [done|]. split; [by constructor|]. intros Hb. destruct Hbp as [-> | [-> _]]; [|done]. lia.
  - destruct Hbp as [-> | [-> _]]; [|done]. specialize (IH best (Some (pen best)) g2 Hg2 (or_introl eq_refl)). destruct (choose F size E ms best (Some (pen best)) g2) as [b g']. destruct IH as (A & B & C).
    assert (Cb : pen b <= pen best) by (by apply C). split; [done|]. split; [constructor; [lia | done] | done].
Qed.
(** Of the eight maskings of the same words, with their own format bits, the code is one with
    the least penalty. *)
Theorem qr_least_penalty bytes E c : E = ECC_L \/ E = ECC_M -> make_bytes bytes E = Some c ->
  exists E' best, let v := c_version c in let size := c_size c in
    let masked m := writes (fmt size E' m) (mask (reserved v size E') m (unmasked v E' bytes)) in
    c_modules c = masked best /\ Forall (fun m => penalty size (masked best) <= penalty size (masked m)) (seqZ 0 8).
Proof.
  intros HE Hm. unfold make_bytes in Hm. destruct (choose_fit (length bytes) E) as [[v E']|] eqn:Ec; [|done]. cbn [mbind option_bind] in Hm.
  destruct (choose_fit_spec _ _ _ _ Ec HE) as (Hv & HE' & Hfit). destruct (layout_facts v Hv) as (_ & _ & _ & _ & _ & H6).
  pose proof (choose_least (reserved v (code_size v) E') (code_size v) E' (unmasked v E' bytes) (seqZ 0 8) 0 None (unmasked v E' bytes) H6) as Hc.
  specialize (Hc ltac:(done) ltac:(by right)). destruct (choose _ _ E' (seqZ 0 8) 0 None _) as [best g]. apply (inj Some) in Hm. subst c. destruct Hc as (A & B & _).
  exists E', best. cbn zeta. cbn [c_version c_size c_modules]. split; [|exact B]. apply writes_agree; [done | by apply mask_agree].
Qed.

(** C33 The QR code of a text reads back as that text.  A reader after the standard, with its
    own layout of the modules, finds the correction level and the mask in the format bits, takes
    the words off the modules, gets every block with all syndromes zero, and reads exactly the
    UTF-8 of the text, whatever the text, the level asked for and the mask chosen. *)
Theorem qr_reads_back text E c : Forall (fun u => 0 <= u < 65536) text -> E = ECC_L \/ E = ECC_M -> make text E = Some c ->
  exists cps, utf16 cps = text /\ read c = Some (utf8 cps).
Proof.
  intros Ht HE Hm. unfold make, qr_bytes in Hm. destruct (encodeURIComponent text) as [e|] eqn:Ee; [|done]. cbn [mbind option_bind] in Hm.
  destruct (encodeURIComponent_inert text e Ht Ee) as ((cps & Hcps & Hu & Hdec) & _ & _). rewrite Hdec in Hm. cbn [mbind option_bind] in Hm.
  exists cps. split; [done|]. eapply make_bytes_reads; eauto.
  destruct (code_points_sound (length text) text cps (le_n _) Ht Hcps) as [Hsc _]. eapply Forall_impl; [by apply utf8_bytes|]. intros b Hbb. unfold is_byte in Hbb. unfold byte. lia.
Qed.
Lemma small_made bytes E : E = ECC_L \/ E = ECC_M -> (length bytes <= 271)%nat -> exists c, make_bytes bytes E = Some c.
Proof. intros HE Hn. destruct (make_bytes bytes E) as [c|] eqn:Ec; [by exists c|]. apply (no_code bytes E HE) in Ec. lia. Qed.
Lemma qr_reads_back_witness :
  exists c, make (js "hello") ECC_M = Some c /\ exists cps, utf16 cps = js "hello" /\ read c = Some (utf8 cps).
Proof.
  destruct (small_made [104; 101; 108; 108; 111] ECC_M (or_intror eq_refl) ltac:(cbn; lia)) as [c E]. exists c. split; [exact E|].
  apply (qr_reads_back (js "hello") ECC_M c); [repeat (apply Forall_cons; split; [cbn; lia|]); apply Forall_nil; exact I | right; reflexivity | exact E].
Defined.
