(* ===== verification/Editor.v ===== *)
(** * The text editor

    [app/edit.tsx]: a small text file is edited and saved with the modification time it was loaded
    at; a save the agent refuses as stale offers to reload or to overwrite.  Saves, reloads and the
    dialogs between them wait for answers while the person types, so several can be under way;
    the retry of a toast keeps the functions of the moment it was shown, where nothing was being
    saved.  The file is the list of its versions, which other programs add to as well, each with
    the modification time and size the computer gives it; an answer may leave both out.  As the
    agent documents (the [baseModified] of [openapi.yaml], [WriteContent] of [fsops.go]) a write
    with a time is refused unless the time of the file is in the same second, and a write without
    one is not checked.  The check, the replacement and the answer of the agent are one step here.
    The screen is taken to be drawn again before the next event. *)

From Stdlib Require Import ZArith Lia Bool.
From Stdlib Require List.
From S2P Require Import Prelude JsCollections JsString.
Local Open Scope js_scope.

(** A version of the file: its text, its modification time in nanoseconds, its size. *)
Record Version := { v_text : jstr; v_time : Z; v_size : Z }.
(** The [modified] and [size] of an answer; a field may be missing. *)
Record Told := { m_modified : option Z; m_size : option Z }.
Definition tell (dated sized : bool) (v : Version) : Told :=
  {| m_modified := if dated then Some (v_time v) else None; m_size := if sized then Some (v_size v) else None |}.
Definition same_told (a b : Told) : bool := bool_decide (m_modified a = m_modified b) && bool_decide (m_size a = m_size b).

(** The answer to a write: the version written. *)
Inductive PutResult := put_ok (version : nat) | put_stale | put_other.
(** Work of the screen that waits. *)
Inductive Op :=
| SaveWaits (atSave : nat) (force : bool)                      (** for the client *)
| SaveSent (atSave : nat) (sent : jstr) (force : bool) (base : option Z)  (** the request is on its way *)
| SaveTold (atSave : nat) (sent : jstr) (r : PutResult) (force : bool)  (** the answer is on its way *)
| StaleAsked                                                   (** reload or overwrite? *)
| ReloadMeta                                                   (** the first metadata *)
| ReloadBody (before : Told)                                   (** the body *)
| ReloadAgain (before : Told) (body : jstr)                    (** the second metadata *)
| ReloadRead (after : Told) (body : jstr).                     (** the bytes of the file *)
(** What the toasts offer to try again. *)
Inductive Offer := RetrySave (force : bool) | RetryReload.
(** A write the agent accepted: the version it replaced, the time it was sent with, whether it
    came from the choice to overwrite. *)
Record Put := { put_replaced : nat; put_base : option Z; put_forced : bool }.
Record Edit := {
  e_text : jstr; e_revision : nat; e_base : option Z; e_dirty : bool; e_saving : bool; e_ops : list Op; e_offers : list Offer;
  e_file : list Version;                 (** the versions of the file, the current one last *)
  e_seen : list (option Z * jstr);       (** what this editor loaded or wrote, with the time it was told for it *)
  e_overwrites : nat;                    (** times the person chose to overwrite *)
  e_puts : list Put }.                   (** writes the agent accepted *)
Definition no_version : Version := {| v_text := []; v_time := 0; v_size := 0 |}.
Definition current (s : Edit) : nat := (length (e_file s) - 1)%nat.
Definition current_version (s : Edit) : Version := default no_version (e_file s !! current s).

(** ** Fields *)

Definition with_ops (ops : list Op) (s : Edit) : Edit :=
  {| e_text := e_text s; e_revision := e_revision s; e_base := e_base s; e_dirty := e_dirty s; e_saving := e_saving s; e_ops := ops; e_offers := e_offers s;
     e_file := e_file s; e_seen := e_seen s; e_overwrites := e_overwrites s; e_puts := e_puts s |}.
Definition with_saving (b : bool) (s : Edit) : Edit :=
  {| e_text := e_text s; e_revision := e_revision s; e_base := e_base s; e_dirty := e_dirty s; e_saving := b; e_ops := e_ops s; e_offers := e_offers s;
     e_file := e_file s; e_seen := e_seen s; e_overwrites := e_overwrites s; e_puts := e_puts s |}.
Definition offer (o : Offer) (s : Edit) : Edit :=
  {| e_text := e_text s; e_revision := e_revision s; e_base := e_base s; e_dirty := e_dirty s; e_saving := e_saving s; e_ops := e_ops s; e_offers := e_offers s ++ [o];
     e_file := e_file s; e_seen := e_seen s; e_overwrites := e_overwrites s; e_puts := e_puts s |}.
Definition with_text (text : jstr) (dirty : bool) (base : option Z) (seen : list (option Z * jstr)) (s : Edit) : Edit :=
  {| e_text := text; e_revision := e_revision s; e_base := base; e_dirty := dirty; e_saving := e_saving s; e_ops := e_ops s; e_offers := e_offers s;
     e_file := e_file s; e_seen := seen; e_overwrites := e_overwrites s; e_puts := e_puts s |}.
Definition start (op : Op) (s : Edit) : Edit := with_ops (e_ops s ++ [op]) s.

(** ** The screen *)

(** [onChangeText]. *)
Definition type_text (v : jstr) (s : Edit) : Edit :=
  {| e_text := v; e_revision := S (e_revision s); e_base := e_base s; e_dirty := true; e_saving := e_saving s; e_ops := e_ops s; e_offers := e_offers s;
     e_file := e_file s; e_seen := e_seen s; e_overwrites := e_overwrites s; e_puts := e_puts s |}.
Definition save (force : bool) (s : Edit) : Edit := start (SaveWaits (e_revision s) force) (with_saving true s).
(** The button is off while there is nothing to save or a save runs. *)
Definition press_save (s : Edit) : Edit := if e_dirty s && negb (e_saving s) then save false s else s.
Definition reload (s : Edit) : Edit := start ReloadMeta s.
Definition save_failed (force : bool) (s : Edit) : Edit := offer (RetrySave force) (with_saving false s).
(** The client is there: the text and the version of this moment are sent. *)
Definition send (atSave : nat) (force : bool) (s : Edit) : Edit := start (SaveSent atSave (e_text s) force (if force then None else e_base s)) s.
(** Written: [updated.modified] is the time to save against next. *)
Definition saved (atSave : nat) (sent : jstr) (modified : option Z) (s : Edit) : Edit :=
  with_saving false (with_text (e_text s) (negb (e_revision s =? atSave)%nat) modified (e_seen s ++ [(modified, sent)]) s).
Inductive StaleChoice := choose_reload | choose_overwrite | choose_nothing.
Definition resolveStale (c : StaleChoice) (s : Edit) : Edit :=
  match c with
  | choose_reload => reload s
  | choose_overwrite =>
      save true {| e_text := e_text s; e_revision := e_revision s; e_base := e_base s; e_dirty := e_dirty s; e_saving := e_saving s; e_ops := e_ops s; e_offers := e_offers s;
                   e_file := e_file s; e_seen := e_seen s; e_overwrites := S (e_overwrites s); e_puts := e_puts s |}
  | choose_nothing => s
  end.
Definition reloaded (after : Told) (body : jstr) (s : Edit) : Edit := with_text body false (m_modified after) (e_seen s ++ [(m_modified after, body)]) s.
Definition tap (o : Offer) (s : Edit) : Edit := match o with RetrySave force => save force s | RetryReload => reload s end.
(** Leaving asks while there are unsaved edits or a save whose outcome is unknown. *)
Definition leaving_asks (s : Edit) : bool := e_dirty s || e_saving s.

(** ** The agent *)

Definition second (time : Z) : Z := time / 10 ^ 9.
(** A write with a time is refused unless the file was modified in the same second. *)
Definition accepts (base : option Z) (s : Edit) : bool :=
  match base with None => true | Some b => second (v_time (current_version s)) =? second b end.
Definition write_file (v : Version) (puts : list Put) (s : Edit) : Edit :=
  {| e_text := e_text s; e_revision := e_revision s; e_base := e_base s; e_dirty := e_dirty s; e_saving := e_saving s; e_ops := e_ops s; e_offers := e_offers s;
     e_file := e_file s ++ [v]; e_seen := e_seen s; e_overwrites := e_overwrites s; e_puts := e_puts s ++ puts |}.
(** The copies of the preview are kept by the modification time of the answer they were fetched
    for: one is of the version with that time or of a later one, if it has a time. *)
Definition kept_for (told : Told) (j : nat) (s : Edit) : bool :=
  (j <? length (e_file s))%nat && match m_modified told with None => true | Some t => existsb (fun v => v_time v =? t) (take (S j) (e_file s)) end.

Inductive EditEvent :=
| Type_ (v : jstr) | PressSave | Tap (k : nat) | Choose (k : nat) (c : StaleChoice) | External (v : Version)
| GotClient (k : nat) | Arrives (k : nat) (time size : Z) | Answers (k : nat) (lost dated : bool) | Fails (k : nat) (offered : bool)
| Meta (k : nat) (dated sized : bool) | Body (k : nat) (cached : option nat) | ReadBytes (k : nat).
Definition take_op (k : nat) (f : Op -> Edit -> Edit) (s : Edit) : Edit :=
  match e_ops s !! k with Some op => f op (with_ops (delete k (e_ops s)) s) | None => s end.
(** An event of another kind than the waiting work changes nothing. *)
Definition keep (op : Op) (s : Edit) : Edit := start op s.
Definition edit_step (s : Edit) (e : EditEvent) : Edit :=
  match e with
  | Type_ v => type_text v s
  | PressSave => press_save s
  | Tap k => match e_offers s !! k with Some o => tap o s | None => s end
  | External v => write_file v [] s
  | Choose k c => take_op k (fun op => match op with StaleAsked => resolveStale c | _ => keep op end) s
  | GotClient k => take_op k (fun op => match op with SaveWaits a force => send a force | _ => keep op end) s
  | Arrives k time size => take_op k (fun op s =>
      match op with
      | SaveSent a sent force base =>
          if accepts base s then
            start (SaveTold a sent (put_ok (length (e_file s))) force)
              (write_file {| v_text := sent; v_time := time; v_size := size |} [{| put_replaced := current s; put_base := base; put_forced := force |}] s)
          else start (SaveTold a sent put_stale force) s
      | _ => keep op s
      end) s
  | Answers k lost dated => take_op k (fun op s =>
      match op with
      | SaveTold a sent r force =>
          if lost then save_failed force s
          else match r with
               | put_ok v => saved a sent (m_modified (tell dated true (default no_version (e_file s !! v)))) s
               | put_stale => start StaleAsked (with_saving false s)
               | put_other => save_failed force s
               end
      | _ => keep op s
      end) s
  | Fails k offered => take_op k (fun op s =>
      match op with
      | SaveWaits _ force => save_failed force s
      | SaveSent _ _ force _ => if offered then save_failed force s else with_saving false s
      | ReloadMeta | ReloadBody _ | ReloadAgain _ _ | ReloadRead _ _ => offer RetryReload s
      | _ => keep op s
      end) s
  | Meta k dated sized => take_op k (fun op s =>
      let told := tell dated sized (current_version s) in
      match op with
      | ReloadMeta => start (ReloadBody told) s
      | ReloadAgain before body => if same_told told before then start (ReloadRead told body) s else offer RetryReload s
      | _ => keep op s
      end) s
  | Body k cached => take_op k (fun op s =>
      match op with
      | ReloadBody before =>
          let j := match cached with Some j => if kept_for before j s then j else current s | None => current s end in
          start (ReloadAgain before (v_text (default no_version (e_file s !! j)))) s
      | _ => keep op s
      end) s
  | ReadBytes k => take_op k (fun op s => match op with ReloadRead after body => reloaded after body s | _ => keep op s end) s
  end.
Definition edit_run (s : Edit) (es : list EditEvent) : Edit := fold_left edit_step es s.
(** Opened from a preview: the entry tells of the version [at], the text was read at the same
    moment or [j] versions later. *)
Definition opened (past : list Version) (at_ : Version) (later : list Version) (j : nat) (dated : bool) : Edit :=
  let text := v_text (default at_ ((at_ :: later) !! j)) in
  let modified := m_modified (tell dated true at_) in
  {| e_text := text; e_revision := 0; e_base := modified; e_dirty := false; e_saving := false; e_ops := []; e_offers := [];
     e_file := past ++ at_ :: later; e_seen := [(modified, text)]; e_overwrites := 0; e_puts := [] |}.

(** ** No version is replaced unseen *)

(** The text is of the version with this time or of a later one. *)
Definition pair_ok (s : Edit) (p : option Z * jstr) : Prop :=
  exists j v, e_file s !! j = Some v /\ v_text v = p.2 /\
    forall t, p.1 = Some t -> exists b vb, (b <= j)%nat /\ e_file s !! b = Some vb /\ v_time vb = t.
Definition op_ok (s : Edit) (op : Op) : Prop :=
  match op with
  | SaveWaits _ force => force = true -> (0 < e_overwrites s)%nat
  | SaveSent _ _ force base => if force then (0 < e_overwrites s)%nat /\ base = None else exists t, (base, t) ∈ e_seen s
  | SaveTold _ sent r force =>
      (force = true -> (0 < e_overwrites s)%nat) /\ match r with put_ok j => exists v, e_file s !! j = Some v /\ v_text v = sent | _ => True end
  | StaleAsked | ReloadMeta => True
  | ReloadBody before => forall t, m_modified before = Some t -> exists b vb, e_file s !! b = Some vb /\ v_time vb = t
  | ReloadAgain before body => pair_ok s (m_modified before, body)
  | ReloadRead after body => pair_ok s (m_modified after, body)
  end.
Definition offer_ok (s : Edit) (o : Offer) : Prop := match o with RetrySave true => (0 < e_overwrites s)%nat | _ => True end.
(** A write the agent accepted: chosen, or told no time, or of the second of a version this editor had loaded or written. *)
Definition put_ok_ (s : Edit) (p : Put) : Prop :=
  exists v, e_file s !! put_replaced p = Some v /\
    if put_forced p then (0 < e_overwrites s)%nat /\ put_base p = None
    else match put_base p with
         | None => exists text, (None, text) ∈ e_seen s
         | Some t => v_time v / 10 ^ 9 = t / 10 ^ 9 /\
             ((forall r v', (r < put_replaced p)%nat -> e_file s !! r = Some v' -> v_time v' / 10 ^ 9 <> v_time v / 10 ^ 9) ->
              (Some t, v_text v) ∈ e_seen s)
         end.
Record EditInv (s : Edit) : Prop := {
  v_file : e_file s <> [];
  v_base : exists t, (e_base s, t) ∈ e_seen s;
  v_seen : Forall (pair_ok s) (e_seen s);
  v_ops : Forall (op_ok s) (e_ops s);
  v_offers : Forall (offer_ok s) (e_offers s);
  v_puts : Forall (put_ok_ s) (e_puts s) }.

(** Nothing that was seen, written or chosen is undone. *)
Record grows (s s' : Edit) : Prop := {
  g_file : exists more, e_file s' = e_file s ++ more;
  g_seen : forall p, p ∈ e_seen s -> p ∈ e_seen s';
  g_over : (e_overwrites s <= e_overwrites s')%nat }.
Lemma grows_at s s' j v : grows s s' -> e_file s !! j = Some v -> e_file s' !! j = Some v.
Proof. intros [[m ->] _ _] H. by apply lookup_app_l_Some. Qed.
Lemma pair_grows s s' p : grows s s' -> pair_ok s p -> pair_ok s' p.
Proof.
  intros G (j & v & Ej & Et & H). exists j, v. split; [by eapply grows_at|]. split; [done|]. intros t Hp.
  destruct (H t Hp) as (b & vb & Hb & Eb & Etb). exists b, vb. split; [done|]. split; [by eapply grows_at | done].
Qed.
Lemma op_grows s s' op : grows s s' -> op_ok s op -> op_ok s' op.
Proof.
  intros G. pose proof G as [_ Hs Ho]. destruct op; cbn.
  - intros H Hfo. specialize (H Hfo). lia.
  - destruct force; [intros [H1 H2]; split; [lia | done] | intros [t Ht]; exists t; auto].
  - intros [H1 H2]. split; [intros Hfo; specialize (H1 Hfo); lia|]. destruct r; [|done..]. destruct H2 as (v & Hv & Ht). exists v. split; [by eapply grows_at | done].
  - done.
  - done.
  - intros H t Ht. destruct (H t Ht) as (b & vb & Hb & Hv). exists b, vb. split; [by eapply grows_at | done].
  - by apply pair_grows.
  - by apply pair_grows.
Qed.
Lemma offer_grows s s' o : grows s s' -> offer_ok s o -> offer_ok s' o.
Proof. intros [_ _ Ho]. destruct o as [[]|]; cbn; [lia | done | done]. Qed.
Lemma put_grows s s' p : grows s s' -> put_ok_ s p -> put_ok_ s' p.
Proof.
  intros G (v & Ev & H). pose proof G as [_ Hs Ho]. exists v. split; [by eapply grows_at|]. destruct (put_forced p); [split; [lia | apply H]|].
  destruct (put_base p) as [t|]; [|destruct H as [text Ht]; exists text; auto]. destruct H as [H1 H2]. split; [done|]. intros Hu. apply Hs, H2.
  intros r v' Hr Er. apply (Hu r v' Hr). by eapply grows_at.
Qed.
Lemma inv_next s s' : EditInv s -> grows s s' ->
  (exists t, (e_base s', t) ∈ e_seen s') -> (forall p, p ∈ e_seen s' -> p ∈ e_seen s \/ pair_ok s' p) ->
  (forall op, op ∈ e_ops s' -> op ∈ e_ops s \/ op_ok s' op) -> (forall o, o ∈ e_offers s' -> o ∈ e_offers s \/ offer_ok s' o) ->
  (forall p, p ∈ e_puts s' -> p ∈ e_puts s \/ put_ok_ s' p) -> EditInv s'.
Proof.
  intros [H1 H2 H3 H4 H5 H6] G Hb Hs Hop Hof Hp. rewrite Forall_forall in H3. rewrite Forall_forall in H4. rewrite Forall_forall in H5. rewrite Forall_forall in H6. split; try done.
  - destruct G as [[m ->] _ _]. by destruct (e_file s).
  - apply Forall_forall. intros p Hin. destruct (Hs p Hin); [eapply pair_grows; eauto | done].
  - apply Forall_forall. intros op Hin. destruct (Hop op Hin); [eapply op_grows; eauto | done].
  - apply Forall_forall. intros o Hin. destruct (Hof o Hin); [eapply offer_grows; eauto | done].
  - apply Forall_forall. intros p Hin. destruct (Hp p Hin); [eapply put_grows; eauto | done].
Qed.
Lemma grows_same s s' : e_file s' = e_file s -> e_seen s' = e_seen s -> (e_overwrites s <= e_overwrites s')%nat -> grows s s'.
Proof. intros E1 E2 H. split; [exists []; by rewrite E1, app_nil_r | by rewrite E2 | done]. Qed.
(** A state that differs in what no rule speaks of, or by work and offers that are in order. *)
Lemma inv_same s s' : EditInv s -> e_file s' = e_file s -> e_seen s' = e_seen s -> e_base s' = e_base s -> (e_overwrites s <= e_overwrites s')%nat -> e_puts s' = e_puts s ->
  (forall op, op ∈ e_ops s' -> op ∈ e_ops s \/ op_ok s' op) -> (forall o, o ∈ e_offers s' -> o ∈ e_offers s \/ offer_ok s' o) -> EditInv s'.
Proof.
  intros H E1 E2 E3 E4 E5 Hop Hof. eapply inv_next; eauto; [by apply grows_same | rewrite E3, E2; apply (v_base s H) | rewrite E2; auto | rewrite E5; auto].
Qed.
Lemma inv_start op s : EditInv s -> op_ok s op -> EditInv (start op s).
Proof.
  intros H Hop. eapply inv_same; eauto. intros op' Hin. cbn in Hin. apply elem_of_app in Hin as [?|Hin]; [by left|]. apply list_elem_of_singleton in Hin as ->. right.
  by apply (op_grows s); [apply grows_same|].
Qed.
Lemma inv_saving b s : EditInv s -> EditInv (with_saving b s).
Proof. intros H. eapply inv_same; eauto. Qed.
Lemma inv_offer o s : EditInv s -> offer_ok s o -> EditInv (offer o s).
Proof.
  intros H Ho. eapply inv_same; eauto. intros o' Hin. cbn in Hin. apply elem_of_app in Hin as [?|Hin]; [by left|]. apply list_elem_of_singleton in Hin as ->. right.
  by apply (offer_grows s); [apply grows_same|].
Qed.
Lemma inv_take k f s : EditInv s -> (forall op s', EditInv s' -> op_ok s' op -> EditInv (f op s')) -> EditInv (take_op k f s).
Proof.
  intros H Hf. unfold take_op. destruct (e_ops s !! k) as [op|] eqn:E; [|done]. pose proof (v_ops s H) as Ho. rewrite Forall_forall in Ho. apply Hf.
  - eapply inv_same; eauto. cbn. intros op' Hin. left. by eapply elem_of_submseteq; [exact Hin | apply submseteq_delete].
  - apply (op_grows s); [by apply grows_same|]. apply Ho. by eapply list_elem_of_lookup_2.
Qed.
Lemma inv_save force s : EditInv s -> (force = true -> (0 < e_overwrites s)%nat) -> EditInv (save force s).
Proof. intros H Hf. apply inv_start; [by apply inv_saving | done]. Qed.
Lemma grows_write v puts s : grows s (write_file v puts s).
Proof. split; [by exists [v] | done | done]. Qed.
Lemma inv_write v puts s : EditInv s -> Forall (put_ok_ (write_file v puts s)) puts -> EditInv (write_file v puts s).
Proof.
  intros H Hp. rewrite Forall_forall in Hp. eapply inv_next; eauto; [apply grows_write | apply (v_base s H) |]. intros p Hin. cbn in Hin.
  apply elem_of_app in Hin as [?|?]; auto.
Qed.
Lemma inv_text text dirty m t s : EditInv s -> pair_ok s (m, t) -> EditInv (with_text text dirty m (e_seen s ++ [(m, t)]) s).
Proof.
  intros H E. assert (G : grows s (with_text text dirty m (e_seen s ++ [(m, t)]) s)).
  { split; [exists []; cbn; by rewrite app_nil_r | intros p Hp; cbn; apply elem_of_app; by left | done]. }
  eapply inv_next; eauto.
  - exists t. cbn. apply elem_of_app. right. by apply list_elem_of_singleton.
  - intros p Hin. cbn in Hin. apply elem_of_app in Hin as [?|Hin]; [by left | right]. apply list_elem_of_singleton in Hin as ->. by eapply pair_grows.
Qed.
Lemma current_at s : EditInv s -> e_file s !! current s = Some (current_version s).
Proof.
  intros H. pose proof (v_file s H). unfold current_version. destruct (lookup_lt_is_Some_2 (e_file s) (current s)) as [v ->]; [|done].
  unfold current. destruct (e_file s); [done|]. cbn. lia.
Qed.
Lemma at_most_current s j v : e_file s !! j = Some v -> (j <= current s)%nat.
Proof. intros E. apply lookup_lt_Some in E. unfold current. lia. Qed.
Lemma inv_arrives a sent force base time size s : EditInv s -> op_ok s (SaveSent a sent force base) -> EditInv
  (if accepts base s then
     start (SaveTold a sent (put_ok (length (e_file s))) force)
       (write_file {| v_text := sent; v_time := time; v_size := size |} [{| put_replaced := current s; put_base := base; put_forced := force |}] s)
   else start (SaveTold a sent put_stale force) s).
Proof.
  intros H Hb. cbn in Hb. assert (Hf : force = true -> (0 < e_overwrites s)%nat) by (intros ->; apply Hb).
  destruct (accepts base s) eqn:Ea; [|by apply inv_start]. set (w := write_file _ _ s).
  assert (Hw : EditInv w).
  { apply inv_write; [done|]. apply Forall_singleton. exists (current_version s). split; [eapply grows_at; [apply grows_write | by apply current_at]|].
    cbn [put_forced put_base put_replaced]. destruct force; [done|]. destruct Hb as [t Ht]. destruct base as [b|]; [|by exists t].
    cbn in Ea. apply Z.eqb_eq in Ea. split; [done|]. intros Hu. pose proof (v_seen s H) as Hs. rewrite Forall_forall in Hs.
    destruct (Hs _ Ht) as (j & v & Ej & Et & Hj). destruct (Hj b eq_refl) as (i & vi & Hi & Ei & Eb). cbn in Et.
    pose proof (at_most_current s j v Ej) as Hc. destruct (decide (i = current s)) as [->|Hne].
    - assert (j = current s) as -> by lia. rewrite (current_at s H) in Ej. injection Ej as <-. by rewrite Et.
    - exfalso. apply (Hu i vi); [lia | by eapply grows_at; [apply grows_write|] |]. unfold second in Ea. congruence. }
  apply inv_start; [done|]. split; [done|]. cbn. rewrite lookup_app_r by lia. rewrite Nat.sub_diag. by eexists.
Qed.
Lemma inv_body before cached s : EditInv s -> op_ok s (ReloadBody before) ->
  pair_ok s (m_modified before, v_text (default no_version (e_file s !! match cached with Some j => if kept_for before j s then j else current s | None => current s end))).
Proof.
  intros H Hop. cbn in Hop.
  assert (Hcur : pair_ok s (m_modified before, v_text (default no_version (e_file s !! current s)))).
  { exists (current s), (current_version s). split; [by apply current_at|]. split; [done|]. intros t Ht. destruct (Hop t Ht) as (b & vb & Hb & Et).
    exists b, vb. split; [by eapply at_most_current | done]. }
  destruct cached as [j|]; [|done]. destruct (kept_for before j s) eqn:Ek; [|done]. unfold kept_for in Ek. apply andb_true_iff in Ek as [Hj Hk].
  apply Nat.ltb_lt in Hj. destruct (lookup_lt_is_Some_2 _ _ Hj) as [v Ev]. exists j, v. rewrite Ev. split; [done|]. split; [done|]. intros t Ht. cbn in Ht. rewrite Ht in Hk.
  apply existsb_exists in Hk as (vb & Hin & Et). apply Z.eqb_eq in Et. apply list_elem_of_In, list_elem_of_lookup in Hin as [b Hb].
  apply lookup_take_Some in Hb as [Hb Hl]. exists b, vb. split; [lia | done].
Qed.
Lemma inv_meta dated sized before body s : EditInv s -> pair_ok s (m_modified before, body) ->
  let told := tell dated sized (current_version s) in EditInv (if same_told told before then start (ReloadRead told body) s else offer RetryReload s).
Proof.
  intros H Hp told. destruct (same_told told before) eqn:E; [|by apply inv_offer]. apply inv_start; [done|].
  unfold same_told in E. apply andb_true_iff in E as [E _]. apply bool_decide_eq_true in E. cbn [op_ok]. by rewrite E.
Qed.
Lemma inv_edit_step s e : EditInv s -> EditInv (edit_step s e).
Proof.
  intros H. assert (Hkeep : forall op s, EditInv s -> op_ok s op -> EditInv (keep op s)) by (intros; by apply inv_start).
  destruct e; cbn [edit_step].
  - eapply inv_same; eauto.
  - unfold press_save. destruct (_ && _); [by apply inv_save | done].
  - destruct (e_offers s !! k) as [o|] eqn:E; [|done]. pose proof (v_offers s H) as Ho. rewrite Forall_forall in Ho. specialize (Ho o ltac:(by eapply list_elem_of_lookup_2)).
    destruct o as [force|]; cbn; [apply inv_save; [done|]; by intros -> | by apply inv_start].
  - apply inv_take; [done|]. intros op s' H' Hop. destruct op; auto. destruct c; cbn; [by apply inv_start | | done]. apply inv_save; [|cbn; lia]. eapply inv_same; eauto. cbn. lia.
  - apply inv_write; [done | constructor].
  - apply inv_take; [done|]. intros op s' H' Hop. destruct op; auto. apply inv_start; [done|]. cbn in *. destruct force; [split; auto | apply (v_base s' H')].
  - apply inv_take; [done|]. intros op s' H' Hop. destruct op; auto. by apply inv_arrives.
  - apply inv_take; [done|]. intros op s' H' Hop. destruct op as [| |a sent r force| | | | |]; auto. destruct Hop as [Hf Hr].
    assert (Hfail : EditInv (save_failed force s')) by (apply inv_offer; [by apply inv_saving | destruct force; [by apply Hf | done]]).
    destruct lost; [done|]. destruct r; [|by apply inv_start; [apply inv_saving|] | done]. destruct Hr as (v & Ev & Et). rewrite Ev. apply inv_saving, inv_text; [done|].
    exists version, v. split; [done|]. split; [done|]. intros t. destruct dated; cbn; [intros [= <-]; by exists version, v | done].
  - apply inv_take; [done|]. intros op s' H' Hop. destruct op as [?|? ? force ?|? ? ? ?| | | | |]; auto; try (by apply inv_offer).
    + apply inv_offer; [by apply inv_saving | destruct force; [by apply Hop | done]].
    + destruct offered; [apply inv_offer; [by apply inv_saving | destruct force; [by apply Hop | done]] | by apply inv_saving].
  - apply inv_take; [done|]. intros op s' H' Hop. destruct op; auto; [|by apply inv_meta]. apply inv_start; [done|]. cbn. intros t Ht. exists (current s'), (current_version s').
    split; [by apply current_at|]. destruct dated; [by injection Ht | done].
  - apply inv_take; [done|]. intros op s' H' Hop. destruct op; auto. apply inv_start; [done|]. by apply inv_body.
  - apply inv_take; [done|]. intros op s' H' Hop. destruct op; auto. by apply inv_text.
Qed.
Lemma inv_opened past at_ later j dated : EditInv (opened past at_ later j dated).
Proof.
  split; cbn [opened e_file e_base e_seen e_ops e_offers e_puts]; try done.
  - by destruct past.
  - eexists. by apply list_elem_of_singleton.
  - apply Forall_singleton. set (l := at_ :: later). assert (exists i, default at_ (l !! j) ∈ l /\ l !! i = Some (default at_ (l !! j))) as (i & Hin & Ei).
    { destruct (l !! j) as [v|] eqn:E; [exists j; split; [by eapply list_elem_of_lookup_2 | done] | exists 0%nat; split; [by left | done]]. }
    exists (length past + i)%nat, (default at_ (l !! j)). cbn [e_file opened]. split; [rewrite lookup_app_r by lia; by replace (length past + i - length past)%nat with i by lia|].
    split; [done|]. intros t Ht. exists (length past), at_. split; [lia|]. split; [rewrite lookup_app_r by lia; by rewrite Nat.sub_diag|]. destruct dated; [by injection Ht | done].
Qed.

(** A change made in the second of the version that is edited is replaced unseen. *)
Theorem same_second_change_replaced :
  let v0 := {| v_text := js "a"; v_time := 5 * 10 ^ 9; v_size := 1 |} in
  let v1 := {| v_text := js "x"; v_time := 5 * 10 ^ 9 + 10 ^ 8; v_size := 1 |} in
  let s := edit_run (opened [] v0 [] 0 true) [External v1; Type_ (js "b"); PressSave; GotClient 0; Arrives 0 (9 * 10 ^ 9) 1; Answers 0 false true] in
  e_puts s = [{| put_replaced := 1; put_base := Some (5 * 10 ^ 9); put_forced := false |}] /\ e_overwrites s = 0%nat /\
  v_text <$> e_file s = [js "a"; js "x"; js "b"] /\ (forall m, (m, js "x") ∉ e_seen s).
Proof.
  vm_compute. do 3 (split; [reflexivity|]). intros m H. repeat (apply elem_of_cons in H as [H|H]; [discriminate H|]). by apply not_elem_of_nil in H.
Qed.

(** ** What a clean editor shows *)

(** One thing at a time: nothing is started while a save, a reload or a question is under way. *)
Definition one_at_a_time (s : Edit) (e : EditEvent) : bool := match e with PressSave | Tap _ => bool_decide (length (e_ops s) = 0%nat) | _ => true end.
Fixpoint serial (s : Edit) (es : list EditEvent) : bool := match es with [] => true | e :: r => one_at_a_time s e && serial (edit_step s e) r end.
(** While nothing is typed, the text is the one under way. *)
Definition save_tracks (s : Edit) (op : Op) : Prop :=
  match op with
  | SaveWaits a _ => (a <= e_revision s)%nat
  | SaveSent a sent _ _ | SaveTold a sent _ _ => (a <= e_revision s)%nat /\ (e_revision s = a -> e_text s = sent)
  | _ => True
  end.
(** The text is that of a version of the file. *)
Definition shows_version (s : Edit) : Prop := exists b v, e_file s !! b = Some v /\ v_text v = e_text s.
Record CleanInv (s : Edit) : Prop := {
  c_inv : EditInv s;
  c_ops : exists op, e_ops s = [] \/ e_ops s = [op] /\ save_tracks s op;
  c_clean : e_dirty s = false -> shows_version s }.
Lemma single_take k f s : CleanInv s -> (forall op s', EditInv s' -> op_ok s' op -> save_tracks s' op -> e_ops s' = [] ->
    (e_dirty s' = false -> shows_version s') ->
    (exists op', e_ops (f op s') = [] \/ e_ops (f op s') = [op'] /\ save_tracks (f op s') op') /\
    (e_dirty (f op s') = false -> shows_version (f op s'))) ->
  (exists op', e_ops (take_op k f s) = [] \/ e_ops (take_op k f s) = [op'] /\ save_tracks (take_op k f s) op') /\
  (e_dirty (take_op k f s) = false -> shows_version (take_op k f s)).
Proof.
  intros [Hi (op & Ho) Hc] Hf. unfold take_op. destruct (e_ops s !! k) as [q|] eqn:E; [|split; [by exists op | done]].
  destruct Ho as [Ho|[Ho Ht]]; rewrite Ho in E; [done|]. destruct k as [|k]; [|done]. injection E as <-. rewrite Ho. cbn [delete list_delete].
  apply Hf; [eapply inv_same; eauto; cbn; intros op' Hin; by apply elem_of_nil in Hin | | done | done | done].
  pose proof (v_ops s Hi) as Hops. rewrite Ho in Hops. apply Forall_cons in Hops as [Hops _]. apply (op_grows s); [by apply grows_same | done].
Qed.
Lemma clean_step s e : CleanInv s -> one_at_a_time s e = true -> CleanInv (edit_step s e).
Proof.
  intros H Hone. assert (Hi : EditInv (edit_step s e)) by (apply inv_edit_step, H).
  enough (K : (exists op, e_ops (edit_step s e) = [] \/ e_ops (edit_step s e) = [op] /\ save_tracks (edit_step s e) op) /\
              (e_dirty (edit_step s e) = false -> shows_version (edit_step s e))) by (by destruct K; split).
  assert (Hk : forall op s', e_ops s' = [] -> save_tracks s' op -> (e_dirty s' = false -> shows_version s') ->
    (exists op', e_ops (start op s') = [] \/ e_ops (start op s') = [op'] /\ save_tracks (start op s') op') /\ (e_dirty (start op s') = false -> shows_version (start op s'))).
  { intros op s' Ho Ht Hc. split; [exists op; right; cbn; by rewrite Ho | done]. }
  destruct e; cbn [edit_step one_at_a_time] in *.
  - destruct H as [_ (op & Ho) _]. split; [|done]. exists op. destruct Ho as [Ho|[Ho Ht]]; [by left|right]. split; [done|]. destruct op; cbn in *; try done; [lia | split; [|intros ?]; lia..].
  - destruct H as [_ Hop Hc]. unfold press_save. destruct (_ && _); [|done]. apply bool_decide_eq_true in Hone. apply (Hk _ (with_saving true s)); [by apply nil_length_inv | cbn; lia | done].
  - destruct H as [_ Hop Hc]. destruct (e_offers s !! k) as [[force|]|]; [| |done]; apply bool_decide_eq_true in Hone.
    + apply (Hk _ (with_saving true s)); [by apply nil_length_inv | cbn; lia | done].
    + apply Hk; [by apply nil_length_inv | done | done].
  - apply single_take; [done|]. intros op s' H1 H2 H3 H4 H5. destruct op; try (by apply Hk). destruct c; cbn [resolveStale]; [by apply Hk | | split; [exists StaleAsked; by left | done]].
    apply (Hk _ (with_saving true _)); [done | cbn; lia | done].
  - destruct H as [_ (op & Ho) Hc]. split; [exists op; destruct Ho as [Ho|[Ho Ht]]; [by left | right; by destruct op] |]. intros Hd. destruct (Hc Hd) as (b & v0 & E1 & E2). exists b, v0. split; [cbn; by apply lookup_app_l_Some | done].
  - apply single_take; [done|]. intros op s' H1 H2 H3 H4 H5. destruct op; try (by apply Hk).
  - apply single_take; [done|]. intros op s' H1 H2 H3 H4 H5. destruct op; try (by apply Hk). destruct (accepts base s'); [|by apply Hk].
    apply (Hk _ (write_file _ _ s')); [done | done|]. intros Hd. destruct (H5 Hd) as (b & v0 & E1 & E2). exists b, v0. split; [cbn; by apply lookup_app_l_Some | done].
  - apply single_take; [done|]. intros op s' H1 H2 H3 H4 H5. destruct op as [| |a sent r force| | | | |]; try (by apply Hk). destruct lost; [split; [exists StaleAsked; by left | done]|].
    destruct r as [v| |]; [|by apply (Hk _ (with_saving false s')) | split; [exists StaleAsked; by left | done]].
    split; [exists StaleAsked; by left|]. cbn. intros Hd. apply negb_false_iff, Nat.eqb_eq in Hd. destruct H2 as [_ (v0 & Hv & Ev)]. destruct H3 as [_ Ht]. exists v, v0. split; [done|]. cbn. by rewrite Ht.
  - apply single_take; [done|]. intros op s' H1 H2 H3 H4 H5. destruct op; try (by apply Hk); try (split; [exists StaleAsked; by left | done]). destruct offered; (split; [exists StaleAsked; by left | done]).
  - apply single_take; [done|]. intros op s' H1 H2 H3 H4 H5. destruct op; try (by apply Hk). destruct (same_told _ _); [by apply Hk | split; [exists StaleAsked; by left | done]].
  - apply single_take; [done|]. intros op s' H1 H2 H3 H4 H5. destruct op; try (by apply Hk).
  - apply single_take; [done|]. intros op s' H1 H2 H3 H4 H5. destruct op; try (by apply Hk). split; [exists StaleAsked; by left|]. intros _. destruct H2 as (b & v0 & E1 & E2 & _). by exists b, v0.
Qed.
Lemma clean_opened past at_ later j dated : CleanInv (opened past at_ later j dated).
Proof.
  pose proof (inv_opened past at_ later j dated) as H. split; [done | exists StaleAsked; by left|]. intros _. pose proof (v_seen _ H) as Hs. cbn [opened e_seen] in Hs.
  apply Forall_inv in Hs. destruct Hs as (b & v & E & Et & _). by exists b, v.
Qed.
(** As long as nothing is started while something is under way, an editor without unsaved edits
    shows exactly a version of the file: leaving it loses nothing. *)
Theorem editor_clean_is_saved past at_ later j dated es : serial (opened past at_ later j dated) es = true ->
  let s := edit_run (opened past at_ later j dated) es in
  leaving_asks s = false -> exists b v, e_file s !! b = Some v /\ v_text v = e_text s.
Proof.
  intros Hs s. assert (H : CleanInv s).
  { pose proof (clean_opened past at_ later j dated) as H0. unfold s, edit_run. clear s. revert H0 Hs. generalize (opened past at_ later j dated).
    induction es as [|e es IH]; intros s H Hs; [done|]. cbn in Hs. apply andb_true_iff in Hs as [H1 H2]. cbn. apply IH; [by apply clean_step | done]. }
  intros Hl. unfold leaving_asks in Hl. apply orb_false_iff in Hl as [Hd _]. by apply (c_clean s H).
Qed.
(** The retry of a failed reload, tapped while the chosen overwrite is still being sent, leaves
    the old text in an editor that counts as saved against the new version: the next save
    replaces the text just written. *)
Theorem reload_during_overwrite :
  let v0 := {| v_text := js "a"; v_time := 10 ^ 9; v_size := 1 |} in
  let v1 := {| v_text := js "x"; v_time := 5 * 10 ^ 9; v_size := 1 |} in
  let stale := [Type_ (js "b"); PressSave; GotClient 0; External v1; Arrives 0 0 0; Answers 0 false true] in
  let es := stale ++ [Choose 0 choose_reload; Fails 0 true; PressSave; GotClient 0; Arrives 0 0 0; Answers 0 false true; Choose 0 choose_overwrite; Tap 0;
                      GotClient 0; Meta 0 true true; Body 1 None; Meta 1 true true; Arrives 0 (9 * 10 ^ 9) 1; ReadBytes 0; Answers 0 false true] in
  let s := edit_run (opened [] v0 [] 0 true) es in
  leaving_asks s = false /\ e_base s = Some (9 * 10 ^ 9) /\ v_text <$> e_file s !! 2%nat = Some (js "b") /\ e_text s = js "x".
Proof. vm_compute. auto. Qed.
