(* ===== verification/SettingsScreen.v ===== *)
(** * The settings of a computer, on the phone

    [features/settings/HostSettingsScreen.tsx]: the computer's own switches, shown before it has
    agreed to them, and the grants of its paired devices, whose row is off while a change of it
    is under way.  Requests and answers overlap, a reply can be lost after the computer took the
    change, and a pull to refresh reads the devices anew; the computer is the other half of the state. *)

From Stdlib Require Import ZArith Lia Bool.
From Stdlib Require List.
From S2P Require Import Prelude JsCollections JsString Json Errors Models Features.
Import Features.HostSettings.
Local Open Scope js_scope.

(** ** Grants of the paired devices *)

Inductive Patch := PApps (n : AppCapabilities) | PFiles (g : FileCapability -> bool).
Definition patched (p : Patch) (d : Device) : Device :=
  {| device_id := device_id d; device_label := device_label d; device_created := device_created d; device_lastSeen := device_lastSeen d; device_revoked := device_revoked d;
     device_current := device_current d; device_viaLogin := device_viaLogin d; device_lastAddress := device_lastAddress d; device_lastVersion := device_lastVersion d;
     device_jailRoot := device_jailRoot d;
     device_viewApps := match p with PApps n => Some (cap_viewApps n) | PFiles _ => device_viewApps d end;
     device_launchApps := match p with PApps n => Some (cap_launchApps n) | PFiles _ => device_launchApps d end;
     device_caps := match p with PApps _ => device_caps d | PFiles g => fun c => Some (g c) end |}.
Lemma patched_id p d : device_id (patched p d) = device_id d.
Proof. done. Qed.
(** The computer's part: the grants sent are those of the device from then on, the rest stays. *)
Definition granted (p : Patch) (d : Device) : Device :=
  match p with
  | PApps n =>
      {| device_id := device_id d; device_label := device_label d; device_created := device_created d; device_lastSeen := device_lastSeen d;
         device_revoked := device_revoked d; device_current := device_current d; device_viaLogin := device_viaLogin d;
         device_lastAddress := device_lastAddress d; device_lastVersion := device_lastVersion d; device_jailRoot := device_jailRoot d;
         device_viewApps := Some (cap_viewApps n); device_launchApps := Some (cap_launchApps n); device_caps := device_caps d |}
  | PFiles g =>
      {| device_id := device_id d; device_label := device_label d; device_created := device_created d; device_lastSeen := device_lastSeen d;
         device_revoked := device_revoked d; device_current := device_current d; device_viaLogin := device_viaLogin d;
         device_lastAddress := device_lastAddress d; device_lastVersion := device_lastVersion d; device_jailRoot := device_jailRoot d;
         device_viewApps := device_viewApps d; device_launchApps := device_launchApps d; device_caps := fun c => Some (g c) |}
  end.
Definition host_took (l : list Device) (id : jstr) (p : Patch) : list Device :=
  (fun d => if bool_decide (device_id d = id) then granted p d else d) <$> l.
Lemma patched_granted p d : patched p d = granted p d.
Proof. by destruct p. Qed.
(** A request on its way, and one the computer has taken or refused. *)
Inductive GrantOp := GSent (id : jstr) (p : Patch) | GTold (id : jstr) (p : Patch) (taken : bool).
Definition op_id (o : GrantOp) : jstr := match o with GSent id _ | GTold id _ _ => id end.
(** [gr_reads]: listings asked for; [Some devices]: as the computer had them, on its way. *)
Record Grants := {
  gr_shown : list Device; gr_busy : list jstr; gr_host : list Device; gr_ops : list GrantOp; gr_reads : list (option (list Device)) }.
Definition with_ops (ops : list GrantOp) (s : Grants) : Grants :=
  {| gr_shown := gr_shown s; gr_busy := gr_busy s; gr_host := gr_host s; gr_ops := ops; gr_reads := gr_reads s |}.
Definition with_reads (reads : list (option (list Device))) (s : Grants) : Grants :=
  {| gr_shown := gr_shown s; gr_busy := gr_busy s; gr_host := gr_host s; gr_ops := gr_ops s; gr_reads := reads |}.
Definition ask_grant (id : jstr) (p : Patch) (s : Grants) : Grants :=
  {| gr_shown := gr_shown s; gr_busy := set_add id (gr_busy s); gr_host := gr_host s; gr_ops := gr_ops s ++ [GSent id p]; gr_reads := gr_reads s |}.
(** A row is off while it is busy. *)
Definition row (id : jstr) (f : Device -> Grants -> Grants) (s : Grants) : Grants :=
  match List.find (fun d => bool_decide (device_id d = id)) (gr_shown s) with
  | Some d => if set_has id (gr_busy s) then s else f d s
  | None => s
  end.
Definition updateApps (id : jstr) (view launch : option bool) : Grants -> Grants :=
  row id (fun d s => if hasAppCapabilities d then ask_grant id (PApps (nextAppCapabilities d view launch)) s else s).
Definition updateGrants (id : jstr) (change : FileCapability -> option bool) : Grants -> Grants :=
  row id (fun d s => if hasFileCapabilities d && negb (device_viaLogin d) then ask_grant id (PFiles (nextFileGrants d change)) s else s).
(** The answer: the row shows what the computer took, and is on again. *)
Definition grant_answered (id : jstr) (p : Patch) (taken : bool) (s : Grants) : Grants :=
  {| gr_shown := if taken then patchDevice (gr_shown s) id (patched p) else gr_shown s; gr_busy := set_delete id (gr_busy s); gr_host := gr_host s; gr_ops := gr_ops s;
     gr_reads := gr_reads s |}.
(** The listing of a refresh takes the place of the rows shown. *)
Definition refreshed (devices : list Device) (s : Grants) : Grants :=
  {| gr_shown := devices; gr_busy := gr_busy s; gr_host := gr_host s; gr_ops := gr_ops s; gr_reads := gr_reads s |}.
(** The person flips a switch or pulls to refresh; the computer takes or refuses a change, or reads its
    devices; a reply arrives ([Tells]), is lost though the change was taken ([Loses]), a listing arrives or
    fails. *)
Inductive GrantEvent :=
| Apps (id : jstr) (view launch : option bool) | Files (id : jstr) (change : FileCapability -> option bool) | Refresh
| Takes (k : nat) | Refuses (k : nat) | Tells (k : nat) | Loses (k : nat)
| Lists (j : nat) | Arrives (j : nat) | ListFails (j : nat).
Definition grant_step (s : Grants) (e : GrantEvent) : Grants :=
  match e with
  | Apps id view launch => updateApps id view launch s
  | Files id change => updateGrants id change s
  | Refresh => with_reads (gr_reads s ++ [None]) s
  | Takes k =>
      match gr_ops s !! k with
      | Some (GSent id p) => {| gr_shown := gr_shown s; gr_busy := gr_busy s; gr_host := host_took (gr_host s) id p;
                                gr_ops := <[k := GTold id p true]> (gr_ops s); gr_reads := gr_reads s |}
      | _ => s
      end
  | Refuses k =>
      match gr_ops s !! k with
      | Some (GSent id p) => with_ops (<[k := GTold id p false]> (gr_ops s)) s
      | _ => s
      end
  | Tells k =>
      match gr_ops s !! k with
      | Some (GTold id p taken) => grant_answered id p taken (with_ops (delete k (gr_ops s)) s)
      | _ => s
      end
  | Loses k =>
      match gr_ops s !! k with
      | Some (GTold id p _) => grant_answered id p false (with_ops (delete k (gr_ops s)) s)
      | _ => s
      end
  | Lists j =>
      match gr_reads s !! j with
      | Some None => with_reads (<[j := Some (gr_host s)]> (gr_reads s)) s
      | _ => s
      end
  | Arrives j =>
      match gr_reads s !! j with
      | Some (Some devices) => refreshed devices (with_reads (delete j (gr_reads s)) s)
      | _ => s
      end
  | ListFails j => with_reads (delete j (gr_reads s)) s
  end.
Definition grants_run (s : Grants) (es : list GrantEvent) : Grants := fold_left grant_step es s.
Definition grants_loaded (devices : list Device) : Grants := {| gr_shown := devices; gr_busy := []; gr_host := devices; gr_ops := []; gr_reads := [] |}.
(** No reply is lost, and a listing arrives as the computer still has it. *)
Definition steady (s : Grants) (e : GrantEvent) : Prop :=
  match e with
  | Loses _ => False
  | Arrives j => forall devices, gr_reads s !! j = Some (Some devices) -> devices = gr_host s
  | _ => True
  end.
Fixpoint steady_run (s : Grants) (es : list GrantEvent) : Prop :=
  match es with [] => True | e :: r => steady s e /\ steady_run (grant_step s e) r end.

(** What the computer has taken and the screen has not heard. *)
Fixpoint unheard (ops : list GrantOp) (id : jstr) : option Patch :=
  match ops with
  | [] => None
  | GTold i p true :: r => if bool_decide (i = id) then Some p else unheard r id
  | _ :: r => unheard r id
  end.
Definition row_ok (ops : list GrantOp) (shown host : Device) : Prop := host = match unheard ops (device_id shown) with Some p => granted p shown | None => shown end.
Lemma unheard_none ops id : id ∉ (op_id <$> ops) -> unheard ops id = None.
Proof.
  induction ops as [|o ops IH]; [done|]. rewrite fmap_cons, not_elem_of_cons. intros [Hne Hn]. destruct o as [i p|i p []]; cbn in *; auto. rewrite bool_decide_eq_false_2 by congruence. auto.
Qed.
Lemma unheard_snoc ops id' p id : unheard (ops ++ [GSent id' p]) id = unheard ops id.
Proof. induction ops as [|o ops IH]; [done|]. destruct o as [i q|i q []]; cbn; rewrite ?IH; done. Qed.
(** Only the device an answer is about is affected by it. *)
Lemma unheard_told k ops id p b x : NoDup (op_id <$> ops) -> ops !! k = Some (GSent id p) ->
  unheard (<[k := GTold id p b]> ops) x = if decide (x = id) then (if b then Some p else None) else unheard ops x.
Proof.
  revert k. induction ops as [|o ops IH]; intros k Hn E; [done|]. rewrite fmap_cons in Hn. apply NoDup_cons in Hn as [Ho Hn]. destruct k as [|k]; cbn in E.
  - injection E as ->. change (<[0%nat := GTold id p b]> (GSent id p :: ops)) with (GTold id p b :: ops). cbn in Ho |- *. destruct b; [case_bool_decide; destruct (decide (x = id)); congruence|].
    destruct (decide (x = id)) as [->|]; [by apply unheard_none | done].
  - change (<[S k := GTold id p b]> (o :: ops)) with (o :: <[k := GTold id p b]> ops). specialize (IH k Hn E). assert (Hne : op_id o <> id).
    { intros Eo. apply Ho. rewrite Eo. apply list_elem_of_fmap. exists (GSent id p). split; [done | by eapply list_elem_of_lookup_2]. }
    destruct o as [i q|i q []]; cbn in Hne |- *; try done. case_bool_decide; [|done]. destruct (decide (x = id)); congruence.
Qed.
Lemma unheard_gone k ops id p b x : NoDup (op_id <$> ops) -> ops !! k = Some (GTold id p b) ->
  unheard (delete k ops) x = if decide (x = id) then None else unheard ops x.
Proof.
  revert k. induction ops as [|o ops IH]; intros k Hn E; [done|]. rewrite fmap_cons in Hn. apply NoDup_cons in Hn as [Ho Hn]. destruct k as [|k]; cbn in E.
  - injection E as ->. change (delete 0%nat (GTold id p b :: ops)) with ops. cbn in Ho |- *. destruct (decide (x = id)) as [->|]; [by apply unheard_none|]. destruct b; [|done]. case_bool_decide; congruence.
  - change (delete (S k) (o :: ops)) with (o :: delete k ops). specialize (IH k Hn E). assert (Hne : op_id o <> id).
    { intros Eo. apply Ho. rewrite Eo. apply list_elem_of_fmap. exists (GTold id p b). split; [done | by eapply list_elem_of_lookup_2]. }
    destruct o as [i q|i q []]; cbn in Hne |- *; try done. case_bool_decide; [|done]. destruct (decide (x = id)); congruence.
Qed.
Lemma unheard_is k ops id p b : NoDup (op_id <$> ops) -> ops !! k = Some (GTold id p b) -> unheard ops id = if b then Some p else None.
Proof.
  revert k. induction ops as [|o ops IH]; intros k Hn E; [done|]. rewrite fmap_cons in Hn. apply NoDup_cons in Hn as [Ho Hn]. destruct k as [|k]; cbn in E |- *.
  - injection E as ->. cbn in Ho. destruct b; [by rewrite bool_decide_eq_true_2 | by apply unheard_none].
  - rewrite (IH k Hn E). assert (Hne : op_id o <> id).
    { intros Eo. apply Ho. rewrite Eo. apply list_elem_of_fmap. exists (GTold id p b). split; [done | by eapply list_elem_of_lookup_2]. }
    destruct o as [i q|i q []]; cbn in *; try done. by rewrite bool_decide_eq_false_2.
Qed.
Lemma unheard_sent k ops id p : NoDup (op_id <$> ops) -> ops !! k = Some (GSent id p) -> unheard ops id = None.
Proof.
  revert k. induction ops as [|o ops IH]; intros k Hn E; [done|]. rewrite fmap_cons in Hn. apply NoDup_cons in Hn as [Ho Hn]. destruct k as [|k]; cbn in E.
  - injection E as ->. cbn. by apply unheard_none.
  - specialize (IH k Hn E). assert (Hne : op_id o <> id).
    { intros Eo. apply Ho. rewrite Eo. apply list_elem_of_fmap. exists (GSent id p). split; [done | by eapply list_elem_of_lookup_2]. }
    destruct o as [i q|i q []]; cbn in Hne |- *; try done. by rewrite bool_decide_eq_false_2.
Qed.
Lemma op_ids_told (k : nat) (ops : list GrantOp) id p b : ops !! k = Some (GSent id p) -> op_id <$> <[k := GTold id p b]> ops = op_id <$> ops.
Proof. intros E. rewrite list_fmap_insert. apply list_insert_id. rewrite list_lookup_fmap, E. done. Qed.
Lemma rows_patched (R R' : Device -> Device -> Prop) (f g : Device -> Device) l l' : Forall2 R l l' -> (forall d d', R d d' -> R' (f d) (g d')) -> Forall2 R' (f <$> l) (g <$> l').
Proof. intros H HR. induction H; constructor; auto. Qed.
Lemma patchDevice_id l id p : (forall d, device_id (p d) = device_id d) -> device_id <$> patchDevice l id p = device_id <$> l.
Proof. intros H. unfold patchDevice. rewrite <- list_fmap_compose. apply list_fmap_ext. intros i d _. cbn. by destruct (bool_decide _). Qed.
(** Which rows are busy, whatever is lost or refreshed. *)
Record BusyInv (s : Grants) : Prop := {
  b_ids : NoDup (op_id <$> gr_ops s);
  b_busy : forall id, id ∈ gr_busy s <-> id ∈ (op_id <$> gr_ops s);
  b_nodup : NoDup (gr_busy s) }.
Lemma busy_ask id p s : BusyInv s -> id ∉ gr_busy s -> BusyInv (ask_grant id p s).
Proof.
  intros [H1 H2 H3] Hid. split; cbn [ask_grant gr_ops gr_busy gr_shown gr_host].
  - rewrite fmap_app. apply NoDup_app. split; [done|]. split; [|apply NoDup_singleton]. intros x Hx Hs. apply list_elem_of_singleton in Hs as ->. cbn in Hx. by apply H2 in Hx.
  - intros x. rewrite elem_set_add, fmap_app, elem_of_app, H2. cbn. rewrite list_elem_of_singleton. tauto.
  - by apply NoDup_set_add.
Qed.
Lemma busy_row id f s : BusyInv s -> (forall d s, BusyInv s -> id ∉ gr_busy s -> BusyInv (f d s)) -> BusyInv (row id f s).
Proof. intros H Hf. unfold row. destruct (List.find _ _) as [d|]; [|done]. destruct (set_has id (gr_busy s)) eqn:E; [done|]. apply Hf; [done|]. by apply set_has_false. Qed.
Lemma busy_answered k s id p q taken : BusyInv s -> gr_ops s !! k = Some (GTold id p taken) ->
  BusyInv (grant_answered id p q (with_ops (delete k (gr_ops s)) s)).
Proof.
  intros [H1 H2 H3] E. assert (Ef : op_id <$> delete k (gr_ops s) = delete k (op_id <$> gr_ops s)) by apply list_fmap_delete.
  assert (El : (op_id <$> gr_ops s) !! k = Some id) by (by rewrite list_lookup_fmap, E).
  destruct (elem_delete k id id _ H1 El) as [Hn _]. split; cbn [grant_answered with_ops gr_ops gr_busy].
  - by rewrite Ef.
  - intros x. rewrite elem_set_delete, H2, Ef. destruct (elem_delete k id x _ H1 El) as [_ ->]. tauto.
  - by apply NoDup_set_delete.
Qed.
Lemma busy_step s e : BusyInv s -> BusyInv (grant_step s e).
Proof.
  intros H. destruct e as [id view launch|id change| |k|k|k|k|j|j|j]; cbn [grant_step].
  - apply busy_row; [done|]. intros d s' H' Hid. destruct (hasAppCapabilities d); [by apply busy_ask | done].
  - apply busy_row; [done|]. intros d s' H' Hid. destruct (_ && _); [by apply busy_ask | done].
  - destruct H. by split.
  - destruct (gr_ops s !! k) as [[id p|]|] eqn:E; [|done..]. destruct H as [H1 H2 H3]. by split; cbn; rewrite ?op_ids_told by done.
  - destruct (gr_ops s !! k) as [[id p|]|] eqn:E; [|done..]. destruct H as [H1 H2 H3]. by split; cbn; rewrite ?op_ids_told by done.
  - destruct (gr_ops s !! k) as [[|id p taken]|] eqn:E; [done| |done]. by eapply busy_answered.
  - destruct (gr_ops s !! k) as [[|id p taken]|] eqn:E; [done| |done]. by eapply busy_answered.
  - destruct (gr_reads s !! j) as [[]|]; try done. destruct H. by split.
  - destruct (gr_reads s !! j) as [[]|]; try done. destruct H. by split.
  - destruct H. by split.
Qed.
Lemma busy_run s es : BusyInv s -> BusyInv (grants_run s es).
Proof. revert s. induction es as [|e es IH]; intros s H; [done|]. cbn. by apply IH, busy_step. Qed.

(** The rows, step by step. *)
Lemma granted_twice p d : granted p (granted p d) = granted p d.
Proof. by destruct p. Qed.
Lemma granted_id p d : device_id (granted p d) = device_id d.
Proof. by destruct p. Qed.
Lemma rows_refreshed ops shown host : Forall2 (row_ok ops) shown host -> Forall2 (row_ok ops) host host.
Proof.
  induction 1 as [|d d' shown host Hr _ IH]; constructor; [|done]. unfold row_ok in *. rewrite Hr.
  destruct (unheard ops (device_id d)) as [p|] eqn:E; [rewrite granted_id, E; by rewrite granted_twice | by rewrite E].
Qed.
Lemma rows_answered k s id p taken : NoDup (op_id <$> gr_ops s) -> gr_ops s !! k = Some (GTold id p taken) -> Forall2 (row_ok (gr_ops s)) (gr_shown s) (gr_host s) ->
  Forall2 (row_ok (delete k (gr_ops s))) (if taken then patchDevice (gr_shown s) id (patched p) else gr_shown s) (gr_host s).
Proof.
  intros H1 E H4.
  assert (Hrow : forall d d', row_ok (gr_ops s) d d' -> row_ok (delete k (gr_ops s)) (if bool_decide (device_id d = id) then (if taken then patched p d else d) else d) d').
  { intros d d' Hr. unfold row_ok in *. subst d'. destruct (bool_decide_reflect (device_id d = id)) as [Ed|Ed].
    - assert (Ei : device_id (if taken then patched p d else d) = id) by (by destruct taken). rewrite Ei, Ed, (unheard_is k _ id p taken H1 E), (unheard_gone k _ id p taken id H1 E). destruct (decide (id = id)); [|done]. destruct taken; by rewrite ?patched_granted.
    - rewrite (unheard_gone k _ id p taken (device_id d) H1 E). by destruct (decide (device_id d = id)). }
  destruct taken.
  - rewrite <- (list_fmap_id (gr_host s)). eapply rows_patched; [exact H4|]. intros d d' Hr. by apply Hrow.
  - eapply Forall2_impl; [exact H4|]. intros d d' Hr. specialize (Hrow d d' Hr). by destruct (bool_decide _).
Qed.
Lemma rows_step s e : BusyInv s -> steady s e -> Forall2 (row_ok (gr_ops s)) (gr_shown s) (gr_host s) ->
  Forall2 (row_ok (gr_ops (grant_step s e))) (gr_shown (grant_step s e)) (gr_host (grant_step s e)).
Proof.
  intros [H1 _ _] Hst H4. assert (Hask : forall id p, Forall2 (row_ok (gr_ops s ++ [GSent id p])) (gr_shown s) (gr_host s)).
  { intros id p. eapply Forall2_impl; [exact H4|]. intros d d'. unfold row_ok. by rewrite unheard_snoc. }
  destruct e as [id view launch|id change| |k|k|k|k|j|j|j]; cbn [grant_step].
  - unfold updateApps, row. destruct (List.find _ _) as [d|]; [|done]. destruct (set_has _ _); [done|]. destruct (hasAppCapabilities d); [apply Hask | done].
  - unfold updateGrants, row. destruct (List.find _ _) as [d|]; [|done]. destruct (set_has _ _); [done|]. destruct (_ && _); [apply Hask | done].
  - done.
  - destruct (gr_ops s !! k) as [[id p|]|] eqn:E; [|done..]. cbn.
    rewrite <- (list_fmap_id (gr_shown s)). eapply rows_patched; [exact H4|]. intros d d' Hr. unfold row_ok in *. unfold Datatypes.id. rewrite (unheard_told k _ id p true) by done. subst d'.
    destruct (decide (device_id d = id)) as [Ed|Ed].
    + rewrite Ed, (unheard_sent k _ id p H1 E). by rewrite bool_decide_eq_true_2.
    + assert (Ei : device_id (match unheard (gr_ops s) (device_id d) with Some q => granted q d | None => d end) = device_id d) by (destruct (unheard _ _); by rewrite ?granted_id). rewrite Ei. by rewrite bool_decide_eq_false_2.
  - destruct (gr_ops s !! k) as [[id p|]|] eqn:E; [|done..]. cbn.
    eapply Forall2_impl; [exact H4|]. intros d d'. unfold row_ok. rewrite (unheard_told k _ id p false) by done. destruct (decide (device_id d = id)) as [->|]; [|done]. by rewrite (unheard_sent k _ id p H1 E).
  - destruct (gr_ops s !! k) as [[|id p taken]|] eqn:E; [done| |done].
    cbn [grant_answered with_ops gr_ops gr_shown gr_host]. by apply rows_answered.
  - done.
  - by destruct (gr_reads s !! j) as [[]|].
  - destruct (gr_reads s !! j) as [[devices|]|] eqn:E; try done. cbn. rewrite (Hst devices E). by eapply rows_refreshed.
  - done.
Qed.
Lemma rows_run s es : BusyInv s -> Forall2 (row_ok (gr_ops s)) (gr_shown s) (gr_host s) -> steady_run s es ->
  Forall2 (row_ok (gr_ops (grants_run s es))) (gr_shown (grants_run s es)) (gr_host (grants_run s es)).
Proof.
  revert s. induction es as [|e es IH]; intros s Hb Hr Hst; [done|]. destruct Hst as [H1 H2]. cbn. apply IH; [by apply busy_step | by apply rows_step | done].
Qed.
Lemma loaded_busy devices : BusyInv (grants_loaded devices).
Proof. split; cbn; [constructor | by intros id | constructor]. Qed.

Lemma loaded_rows devices : Forall2 (row_ok []) devices devices.
Proof. induction devices as [|d l IH]; [apply Forall2_nil_2 | apply Forall2_cons_2; [done | exact IH]]. Qed.

(** C23 Whichever switches of whichever devices are flipped, in whatever order the computer takes, refuses
    or answers the changes, and whatever replies are lost and listings refreshed meanwhile, a row is busy
    exactly while one change of its device is under way, never two.  As long as no reply is lost and a
    refreshed listing arrives as the computer still has it (and only this screen changes the grants), a row
    that is not busy shows exactly the grants the computer has for that device.  And from any state at all,
    a refresh asked, read and delivered without another change in between makes every row show what the
    computer has. *)
Theorem grants_in_step devices es : let s := grants_run (grants_loaded devices) es in
  (forall id, id ∈ gr_busy s <-> length (List.filter (fun o => bool_decide (op_id o = id)) (gr_ops s)) = 1%nat) /\
  (forall id, (length (List.filter (fun o => bool_decide (op_id o = id)) (gr_ops s)) <= 1)%nat) /\
  (steady_run (grants_loaded devices) es -> Forall2 (fun shown host => device_id shown ∉ gr_busy s -> shown = host) (gr_shown s) (gr_host s)) /\
  (let s' := grants_run s [Refresh; Lists (length (gr_reads s)); Arrives (length (gr_reads s))] in gr_shown s' = gr_host s /\ gr_host s' = gr_host s).
Proof.
  intros s. assert (Hb : BusyInv s) by (apply busy_run, loaded_busy). pose proof Hb as [H1 H2 _].
  assert (Hc : forall id, length (List.filter (fun o => bool_decide (op_id o = id)) (gr_ops s)) = if decide (id ∈ (op_id <$> gr_ops s)) then 1%nat else 0%nat).
  { intros id. clear -H1. induction (gr_ops s) as [|o l IH]; [done|]. rewrite fmap_cons in H1. apply NoDup_cons in H1 as [Ho Hn]. specialize (IH Hn).
    cbn [List.filter]. destruct (bool_decide_reflect (op_id o = id)) as [E|E]; cbn [length]; rewrite IH.
    - subst id. rewrite decide_False, decide_True by (done || by left). done.
    - rewrite fmap_cons. destruct (decide (id ∈ (op_id <$> l))) as [Hi|Hi]; [rewrite decide_True; [done | by right]|].
      rewrite decide_False; [done|]. apply not_elem_of_cons. split; congruence. }
  split_and!.
  - intros id. rewrite Hc, H2. by destruct (decide (id ∈ (op_id <$> gr_ops s))).
  - intros id. rewrite Hc. destruct (decide _); lia.
  - intros Hst. assert (Hr : Forall2 (row_ok (gr_ops s)) (gr_shown s) (gr_host s)).
    { apply rows_run; [apply loaded_busy | | done]. apply loaded_rows. }
    eapply Forall2_impl; [exact Hr|]. intros d d' Hd Hn. unfold row_ok in Hd. rewrite unheard_none in Hd; [done|]. by rewrite <- H2.
  - cbn [grants_run fold_left grant_step with_reads gr_reads gr_host]. rewrite list_lookup_middle by done. cbn [with_reads gr_reads gr_host].
    rewrite list_lookup_insert_eq by (rewrite length_app; cbn; lia). done.
Qed.
Definition a_device : Device := {|
  device_id := js "d"; device_label := js "phone"; device_created := 0; device_lastSeen := 0; device_revoked := false; device_current := false;
  device_viaLogin := false; device_lastAddress := []; device_lastVersion := []; device_jailRoot := [];
  device_viewApps := Some false; device_launchApps := Some false; device_caps := fun _ => Some false |}.
Definition a_visit : list GrantEvent := [Apps (js "d") (Some true) None; Takes 0; Tells 0; Refresh; Lists 0; Arrives 0].
Lemma grants_in_step_witness : let s := grants_run (grants_loaded [a_device]) a_visit in
  gr_busy s = [] /\ device_viewApps <$> gr_host s = [Some true] /\ gr_shown s = gr_host s.
Proof.
  intros s. destruct (grants_in_step [a_device] a_visit) as (_ & _ & H & _). fold s in H.
  assert (steady_run (grants_loaded [a_device]) a_visit) as Hst by (cbn; repeat split; intros devices [= <-]; reflexivity).
  specialize (H Hst). split; [reflexivity|]. split; [reflexivity|].
  assert (gr_busy s = []) as Eb by reflexivity. rewrite Eb in H. clear -H. induction H as [|x y l l' Hxy _ IH]; [reflexivity|]. rewrite Hxy, IH; [reflexivity | apply not_elem_of_nil].
Defined.
(** A reply lost after the change was taken, or a listing read before a change and delivered after it,
    leaves a row that is not busy showing what the computer no longer has. *)
Theorem grants_out_of_step d :
  hasAppCapabilities d = true -> device_viewApps d = Some false ->
  let lost := grants_run (grants_loaded [d]) [Apps (device_id d) (Some true) None; Takes 0; Loses 0] in
  let late := grants_run (grants_loaded [d]) [Refresh; Lists 0; Apps (device_id d) (Some true) None; Takes 0; Tells 0; Arrives 0] in
  Forall (fun s => gr_busy s = [] /\ gr_shown s = [d] /\ device_viewApps <$> gr_host s = [Some true]) [lost; late].
Proof.
  intros Ha Hv lost late.
  assert (Hask : forall s, gr_shown s = [d] -> gr_busy s = [] -> updateApps (device_id d) (Some true) None s =
    ask_grant (device_id d) (PApps (nextAppCapabilities d (Some true) None)) s).
  { intros s Es Eb. unfold updateApps, row. rewrite Es, Eb. cbn [List.find]. rewrite bool_decide_eq_true_2 by done. cbn. by rewrite Ha. }
  repeat constructor; unfold lost, late, grants_run; cbn -[updateApps]; rewrite !Hask by done; cbn; rewrite ?bool_decide_eq_true_2 by done; cbn; try done;
    (change (set_add (device_id d) []) with [device_id d]; cbn; by rewrite bool_decide_eq_true_2).
Qed.

(** ** The computer's own switches *)

Record Own := { own_readOnly : bool; own_agentName : jstr; own_allowSharing : bool }.
Record Change := { ch_readOnly : option bool; ch_agentName : option jstr; ch_allowSharing : option bool }.
Definition changed (c : Change) (s : Own) : Own :=
  {| own_readOnly := default (own_readOnly s) (ch_readOnly c); own_agentName := default (own_agentName s) (ch_agentName c); own_allowSharing := default (own_allowSharing s) (ch_allowSharing c) |}.
(** [prev] is what the screen showed when the switch was flipped.  The computer answers with all
    its settings. *)
Inductive PatchOp := PSent (prev : Own) (c : Change) | PTold (prev : Own) (updated : option Own).
Record Switches := { sw_shown : Own; sw_host : Own; sw_ops : list PatchOp }.
Definition patch (c : Change) (s : Switches) : Switches :=
  {| sw_shown := changed c (sw_shown s); sw_host := sw_host s; sw_ops := sw_ops s ++ [PSent (sw_shown s) c] |}.
Definition patch_answered (prev : Own) (updated : option Own) (s : Switches) : Switches :=
  {| sw_shown := match updated with Some u => u | None => prev end; sw_host := sw_host s; sw_ops := sw_ops s |}.
Inductive SwitchEvent := Flip (c : Change) | STakes (k : nat) | SRefuses (k : nat) | STells (k : nat).
Definition switch_step (s : Switches) (e : SwitchEvent) : Switches :=
  match e with
  | Flip c => patch c s
  | STakes k =>
      match sw_ops s !! k with
      | Some (PSent prev c) => let h := changed c (sw_host s) in {| sw_shown := sw_shown s; sw_host := h; sw_ops := <[k := PTold prev (Some h)]> (sw_ops s) |}
      | _ => s
      end
  | SRefuses k =>
      match sw_ops s !! k with
      | Some (PSent prev c) => {| sw_shown := sw_shown s; sw_host := sw_host s; sw_ops := <[k := PTold prev None]> (sw_ops s) |}
      | _ => s
      end
  | STells k =>
      match sw_ops s !! k with
      | Some (PTold prev u) => patch_answered prev u {| sw_shown := sw_shown s; sw_host := sw_host s; sw_ops := delete k (sw_ops s) |}
      | _ => s
      end
  end.
Definition switches_run (s : Switches) (es : list SwitchEvent) : Switches := fold_left switch_step es s.
Definition switches_loaded (o : Own) : Switches := {| sw_shown := o; sw_host := o; sw_ops := [] |}.
Definition one_flip (s : Switches) (e : SwitchEvent) : bool := match e with Flip _ => bool_decide (length (sw_ops s) = 0%nat) | _ => true end.
Fixpoint flips_apart (s : Switches) (es : list SwitchEvent) : bool := match es with [] => true | e :: r => one_flip s e && flips_apart (switch_step s e) r end.
Definition switch_inv (s : Switches) : Prop :=
  sw_ops s = [] /\ sw_shown s = sw_host s \/ (exists prev c, sw_ops s = [PSent prev c] /\ prev = sw_host s) \/
  exists prev u, sw_ops s = [PTold prev u] /\ match u with Some h => h = sw_host s | None => prev = sw_host s end.
Lemma switch_step_inv s e : switch_inv s -> one_flip s e = true -> switch_inv (switch_step s e).
Proof.
  intros H Hone. destruct e as [c|k|k|k]; cbn [switch_step one_flip] in *.
  - apply bool_decide_eq_true, nil_length_inv in Hone. destruct H as [[_ Hs]|[(? & ? & E & _)|(? & ? & E & _)]]; [|congruence..]. right. left. exists (sw_shown s), c. unfold patch. cbn. by rewrite Hone.
  - destruct H as [[E Hs]|[(prev & c & E & Hp)|(prev & u & E & Hu)]]; rewrite E.
    + left. done.
    + destruct k; cbn; [|right; left; by exists prev, c]. right. right. by eexists _, _.
    + destruct k; cbn; right; right; by exists prev, u.
  - destruct H as [[E Hs]|[(prev & c & E & Hp)|(prev & u & E & Hu)]]; rewrite E.
    + left. done.
    + destruct k; cbn; [|right; left; by exists prev, c]. right. right. by exists prev, None.
    + destruct k; cbn; right; right; by exists prev, u.
  - destruct H as [[E Hs]|[(prev & c & E & Hp)|(prev & u & E & Hu)]]; rewrite E.
    + left. done.
    + destruct k; cbn; right; left; by exists prev, c.
    + destruct k; cbn; [|right; right; by exists prev, u]. left. split; [done|]. by destruct u.
Qed.
(** Flipped one after the other, the switches show the computer's settings whenever no change is
    under way. *)
Theorem switches_in_step o es : flips_apart (switches_loaded o) es = true -> let s := switches_run (switches_loaded o) es in sw_ops s = [] -> sw_shown s = sw_host s.
Proof.
  intros Hf s. assert (H : switch_inv s).
  { assert (H0 : switch_inv (switches_loaded o)) by (by left). unfold s, switches_run. clear s. revert H0 Hf. generalize (switches_loaded o). induction es as [|e es IH]; intros s H Hf; [done|].
    cbn in Hf. apply andb_true_iff in Hf as [H1 H2]. cbn. apply IH; [by apply switch_step_inv | done]. }
  intros E. destruct H as [[_ ?]|[(? & ? & E2 & _)|(? & ? & E2 & _)]]; [done | congruence..].
Qed.
(** Overlapping, they need not: a change the computer refuses takes another one, which it has
    taken meanwhile, off the screen, so sharing is on while the switch says off. *)
Theorem refused_change_hides_another :
  let o := {| own_readOnly := false; own_agentName := js "pc"; own_allowSharing := false |} in
  let ro := {| ch_readOnly := Some true; ch_agentName := None; ch_allowSharing := None |} in
  let sh := {| ch_readOnly := None; ch_agentName := None; ch_allowSharing := Some true |} in
  let s := switches_run (switches_loaded o) [Flip ro; Flip sh; STakes 1; STells 1; SRefuses 0; STells 0] in
  sw_ops s = [] /\ own_allowSharing (sw_host s) = true /\ own_allowSharing (sw_shown s) = false.
Proof. vm_compute. auto. Qed.

(** ** Leaving the computer *)

Inductive LeaveAct := AskedLeave (yes : bool) | DeletedDevice (id : jstr) (ok : bool) | RemovedHost (ok : bool) | LeftHost | ToldFailure.
(** [answers]: what the person, the computer and the store say. *)
Record LeaveEnv := { lv_confirm : bool; lv_delete : bool; lv_remove : bool }.
Definition remove_and_leave (env : LeaveEnv) : list LeaveAct := if lv_remove env then [RemovedHost true; LeftHost] else [RemovedHost false; ToldFailure].
Definition disconnectThisDevice (env : LeaveEnv) (me : option jstr) : list LeaveAct :=
  match me with
  | None => []
  | Some id =>
      if lv_confirm env then
        AskedLeave true :: (if lv_delete env then DeletedDevice id true :: remove_and_leave env else [DeletedDevice id false; ToldFailure])
      else [AskedLeave false]
  end.
Definition forgetThisDevice (env : LeaveEnv) : list LeaveAct := if lv_confirm env then AskedLeave true :: remove_and_leave env else [AskedLeave false].
(** Nothing is asked of the computer or removed from the phone without a yes; disconnecting keeps
    the credentials until the computer has dropped the device; the screens of the computer are
    left only once it is gone from the phone; and every failure is told. *)
Theorem leaving_in_order env me : let d := disconnectThisDevice env me in let f := forgetThisDevice env in
  (forall b, RemovedHost b ∈ d -> AskedLeave true ∈ d /\ exists id, me = Some id /\ DeletedDevice id true ∈ d) /\
  (forall id b, DeletedDevice id b ∈ d -> AskedLeave true ∈ d /\ me = Some id) /\
  (forall b, RemovedHost b ∈ f -> AskedLeave true ∈ f) /\
  (LeftHost ∈ d <-> RemovedHost true ∈ d) /\ (LeftHost ∈ f <-> RemovedHost true ∈ f) /\
  ((exists id, DeletedDevice id false ∈ d) \/ RemovedHost false ∈ d <-> ToldFailure ∈ d) /\ (RemovedHost false ∈ f <-> ToldFailure ∈ f).
Proof.
  destruct env as [[] [] []], me as [id|]; cbn; rewrite ?elem_of_nil; repeat setoid_rewrite elem_of_cons; repeat setoid_rewrite elem_of_nil; naive_solver.
Qed.
