(* ===== verification/DeskFolders.v ===== *)
(** * The folder cache of the desktop window

    [desktop/ui/engine.js], the folders it has listed: [load] and its pages, the joining of a load
    that runs, [drop], [insert], [takeOut], and the operations on files that keep the cache in
    step.  Records hold their rows in shared arrays, loads are runs that wait for the core, and
    answers arrive in any order. *)

From Stdlib Require Import ZArith Lia Bool String.
From Stdlib Require List.
From stdpp Require Import fin_maps gmap.
From S2P Require Import Prelude JsCollections JsString Errors Paths DeskPaths.
Local Open Scope js_scope.

(** ** Rows *)

(** An entry as the core answers it; [de_modified] is the time [Date.parse] reads, 0 when it reads none. *)
Record DEntry := { de_name : jstr; de_isDir : bool; de_size : Z; de_modified : Z; de_mode : jstr; de_path : jstr; de_childCount : option Z }.
Definition LOCAL : jstr := js "local".
Definition root_path : jstr := [slash].
Definition dir_perm : jstr := js "drwxr-xr-x".
Definition entryNode (e : DEntry) : Node :=
  {| n_name := de_name e; n_dir := de_isDir e; n_bytes := de_size e; n_mod := de_modified e;
     n_perm := match de_mode e with [] => if de_isDir e then dir_perm else js "-rw-r--r--" | m => m end;
     n_path := de_path e; n_cc := de_childCount e; n_kids := None |}.
(** A place of this computer, or a root of a server: a folder row of a label and a path. *)
Record Place := { pl_label : jstr; pl_path : jstr }.
Definition place_row (label path : jstr) : Node :=
  {| n_name := label; n_dir := true; n_bytes := 0; n_mod := 0; n_perm := dir_perm; n_path := path; n_cc := None; n_kids := None |}.
Definition place_node (p : Place) : Node := place_row (pl_label p) (pl_path p).
(** [None]: [baseOf] throws on the path of a root with no label. *)
Definition root_node (p : Place) : option Node :=
  match pl_label p with [] => b ← baseOf (pl_path p); Some (place_row b (pl_path p)) | l => Some (place_row l (pl_path p)) end.

(** ** State *)

(** What the window keeps of a server's places: [roots] and [virtualRoot]. *)
Record Places := { ps_roots : list Place; ps_virtual : option jstr }.
Inductive RState := r_loading | r_loaded | r_error (err : jstr).
(** A record of the cache; [r_items] names its array and [r_p] the load it waits for. *)
Record Rec := { r_items : nat; r_state : RState; r_p : option nat; r_more : bool }.
(** Where a load waits: which call of the core it has made. *)
Inductive Phase :=
| ph_places
| ph_local_root (items : list Node)
| ph_local
| ph_roots (s : nat)
| ph_page (items : list Node) (cursor : jstr) (guard : nat).
(** A load that runs: the directory object and path it will write, the array of its record. *)
Record Run := { run_dirs : nat; run_host : jstr; run_path : jstr; run_items : nat; run_at : Phase }.
(** An operation on files that waits for the core or for a refresh. *)
Inductive Op :=
| op_mkdir (host dir name : jstr)
| op_mkfile (host dir name : jstr)
| op_rename (host dir old new : jstr) (was : option Node)
| op_remove (host dir : jstr) (items : nat) (it : Node) (names : list jstr) (removed : list (option Node))
| op_removed (removed : list (option Node))
| op_restore_bin (host dir : jstr) (nodes : list (option Node))
| op_restore_items (host dir : jstr)
| op_copy (host dir dst : jstr) (move : bool)
| op_copy_source (host dir : jstr) (waits : nat).
(** The commands sent to the core; those of this computer ([local_...]) and of a server differ in
    the host only.  [trash_item] removes for good when the settings say so. *)
Inductive Call :=
| files_list (host path cursor : jstr)
| local_list (path : jstr)
| local_places
| files_roots (s : nat)
| create_folder (host parent name : jstr)
| create_file (host parent name : jstr)
| rename_item (host path new : jstr)
| trash_item (host path : jstr)
| trash_items (host : jstr)
| trash_restore (host : jstr) (ids : list jstr)
| copy_items (host : jstr) (srcs : list jstr) (dst : jstr) (move : bool).
(** [f_hosts] is [FS]: the directory object of a host.  [f_dirs] holds the records of every
    directory object, [f_ended] how each load that ended went. *)
Record Folders := {
  f_hosts : gmap jstr nat; f_dirs : gmap (nat * jstr) Rec; f_arrays : gmap nat (list Node);
  f_runs : gmap nat Run; f_ended : gmap nat bool; f_ops : gmap nat Op;
  f_servers : gmap jstr nat; f_places : gmap nat Places; f_next : nat; f_calls : list Call }.

Definition set_hosts (v : gmap jstr nat) (f : Folders) : Folders :=
  {| f_hosts := v; f_dirs := f_dirs f; f_arrays := f_arrays f; f_runs := f_runs f; f_ended := f_ended f; f_ops := f_ops f; f_servers := f_servers f; f_places := f_places f; f_next := f_next f; f_calls := f_calls f |}.
Definition set_dirs (v : gmap (nat * jstr) Rec) (f : Folders) : Folders :=
  {| f_hosts := f_hosts f; f_dirs := v; f_arrays := f_arrays f; f_runs := f_runs f; f_ended := f_ended f; f_ops := f_ops f; f_servers := f_servers f; f_places := f_places f; f_next := f_next f; f_calls := f_calls f |}.
Definition set_arrays (v : gmap nat (list Node)) (f : Folders) : Folders :=
  {| f_hosts := f_hosts f; f_dirs := f_dirs f; f_arrays := v; f_runs := f_runs f; f_ended := f_ended f; f_ops := f_ops f; f_servers := f_servers f; f_places := f_places f; f_next := f_next f; f_calls := f_calls f |}.
Definition set_runs (v : gmap nat Run) (f : Folders) : Folders :=
  {| f_hosts := f_hosts f; f_dirs := f_dirs f; f_arrays := f_arrays f; f_runs := v; f_ended := f_ended f; f_ops := f_ops f; f_servers := f_servers f; f_places := f_places f; f_next := f_next f; f_calls := f_calls f |}.
Definition set_ended (v : gmap nat bool) (f : Folders) : Folders :=
  {| f_hosts := f_hosts f; f_dirs := f_dirs f; f_arrays := f_arrays f; f_runs := f_runs f; f_ended := v; f_ops := f_ops f; f_servers := f_servers f; f_places := f_places f; f_next := f_next f; f_calls := f_calls f |}.
Definition set_ops (v : gmap nat Op) (f : Folders) : Folders :=
  {| f_hosts := f_hosts f; f_dirs := f_dirs f; f_arrays := f_arrays f; f_runs := f_runs f; f_ended := f_ended f; f_ops := v; f_servers := f_servers f; f_places := f_places f; f_next := f_next f; f_calls := f_calls f |}.
Definition set_servers (v : gmap jstr nat) (f : Folders) : Folders :=
  {| f_hosts := f_hosts f; f_dirs := f_dirs f; f_arrays := f_arrays f; f_runs := f_runs f; f_ended := f_ended f; f_ops := f_ops f; f_servers := v; f_places := f_places f; f_next := f_next f; f_calls := f_calls f |}.
Definition set_places (v : gmap nat Places) (f : Folders) : Folders :=
  {| f_hosts := f_hosts f; f_dirs := f_dirs f; f_arrays := f_arrays f; f_runs := f_runs f; f_ended := f_ended f; f_ops := f_ops f; f_servers := f_servers f; f_places := v; f_next := f_next f; f_calls := f_calls f |}.
Definition tell (c : Call) (f : Folders) : Folders :=
  {| f_hosts := f_hosts f; f_dirs := f_dirs f; f_arrays := f_arrays f; f_runs := f_runs f; f_ended := f_ended f; f_ops := f_ops f; f_servers := f_servers f; f_places := f_places f; f_next := f_next f; f_calls := f_calls f ++ [c] |}.
Definition fresh (f : Folders) : Folders :=
  {| f_hosts := f_hosts f; f_dirs := f_dirs f; f_arrays := f_arrays f; f_runs := f_runs f; f_ended := f_ended f; f_ops := f_ops f; f_servers := f_servers f; f_places := f_places f; f_next := S (f_next f); f_calls := f_calls f |}.

(** ** Reading the cache *)

(** [dirsOf]: the directory object of a host, made when it is not there. *)
Definition dirsOf (host : jstr) (f : Folders) : nat * Folders :=
  match f_hosts f !! host with
  | Some d => (d, f)
  | None => (f_next f, fresh (set_hosts (<[host := f_next f]> (f_hosts f)) f))
  end.
(** [cached]; the outer [None]: [norm] throws.  Reading makes no directory object here: an empty
    one cannot be told from none. *)
Definition cached (host path : jstr) (f : Folders) : option (option Rec) :=
  p ← norm path; Some (d ← f_hosts f !! host; f_dirs f !! (d, p)).
Definition rows_of (f : Folders) (a : nat) : list Node := default [] (f_arrays f !! a).
Definition has_name (name : jstr) (n : Node) : bool := bool_decide (n_name n = name).
Definition find_row (name : jstr) (rows : list Node) : option Node := List.find (has_name name) rows.

(** ** Loading *)

(** What a load does next: wait for a call, or end. *)
Inductive Next := to_wait (ph : Phase) (c : Call) | to_end (items : list Node) (more : bool) | to_fail (err : jstr).
Definition no_places : Places := {| ps_roots := []; ps_virtual := None |}.
Definition places_of (f : Folders) (s : nat) : Places := default no_places (f_places f !! s).
Definition type_error : jstr := js "TypeError".
Definition first_page (host path : jstr) : Next := to_wait (ph_page [] [] 0) (files_list host path []).
(** The listing of a server's folder, once its places were read. *)
Definition listing_next (f : Folders) (s : nat) (host path : jstr) : Next :=
  if bool_decide (ps_virtual (places_of f s) = Some path) then
    match mapM root_node (ps_roots (places_of f s)) with Some items => to_end items false | None => to_fail type_error end
  else first_page host path.
Definition first_next (f : Folders) (host path : jstr) : Next :=
  if bool_decide (host = LOCAL) then
    if bool_decide (path = root_path) then to_wait ph_places local_places else to_wait ph_local (local_list path)
  else match f_servers f !! host with
       | None => first_page host path
       | Some s =>
           if bool_decide (path = root_path) && bool_decide (ps_roots (places_of f s) = []) then to_wait (ph_roots s) (files_roots s)
           else listing_next f s host path
       end.
Definition at_phase (ph : Phase) (r : Run) : Run :=
  {| run_dirs := run_dirs r; run_host := run_host r; run_path := run_path r; run_items := run_items r; run_at := ph |}.
Definition run_key (r : Run) : nat * jstr := (run_dirs r, run_path r).
(** The end of a load: it writes its record into the directory object it started with. *)
Definition end_run (k : nat) (ok : bool) (key : nat * jstr) (rc : Rec) (f : Folders) : Folders :=
  set_ended (<[k := ok]> (f_ended f)) (set_runs (delete k (f_runs f)) (set_dirs (<[key := rc]> (f_dirs f)) f)).
Definition new_array (rows : list Node) (f : Folders) : nat * Folders := (f_next f, fresh (set_arrays (<[f_next f := rows]> (f_arrays f)) f)).
Definition go_on (k : nat) (r : Run) (nx : Next) (f : Folders) : Folders :=
  match nx with
  | to_wait ph c => tell c (set_runs (<[k := at_phase ph r]> (f_runs f)) f)
  | to_end items more =>
      let '(a, f) := new_array items f in
      end_run k true (run_key r) {| r_items := a; r_state := r_loaded; r_p := None; r_more := more |} f
  | to_fail e => end_run k false (run_key r) {| r_items := run_items r; r_state := r_error e; r_p := None; r_more := false |} f
  end.
(** What [load] gives back: the load it joined or started, or the rows that are there. *)
Inductive Got := g_run (k : nat) | g_ready (items : nat).
Definition start_load (d : nat) (host path : jstr) (old : option Rec) (f : Folders) : Got * Folders :=
  let '(a, f) := match old with Some o => (r_items o, f) | None => new_array [] f end in
  let k := f_next f in
  let r := {| run_dirs := d; run_host := host; run_path := path; run_items := a; run_at := ph_local |} in
  let f := fresh (set_dirs (<[(d, path) := {| r_items := a; r_state := r_loading; r_p := Some k; r_more := false |}]> (f_dirs f)) f) in
  (g_run k, go_on k r (first_next f host path) f).
Definition load (host path : jstr) (force : bool) (f : Folders) : option (Got * Folders) :=
  p ← norm path;
  let '(d, f) := dirsOf host f in
  let old := f_dirs f !! (d, p) in
  Some match old with
       | Some {| r_items := a; r_state := r_loaded |} => if force then start_load d host p old f else (g_ready a, f)
       | Some {| r_state := r_loading; r_p := Some k |} => (g_run k, f)
       | _ => start_load d host p old f
       end.
Definition refresh (host path : jstr) (f : Folders) : option (Got * Folders) := load host path true f.
(** [list]: the rows of a loaded folder; asking for one that is not there starts loading it. *)
Definition list_rows (host path : jstr) (f : Folders) : option (option nat * Folders) :=
  c ← cached host path f;
  match c with
  | Some {| r_items := a; r_state := r_loaded |} => Some (Some a, f)
  | Some _ => Some (None, f)
  | None => g ← load host path false f; Some (None, g.2)
  end.
Definition exists_row (host dir name : jstr) (f : Folders) : option (bool * Folders) :=
  l ← list_rows host dir f;
  Some (bool_decide (is_Some (a ← l.1; find_row name (rows_of f a))), l.2).

(** ** Answers of the core to a load *)

Record RootsReply := { rr_locations : list Place; rr_is_roots : bool }.
Inductive Answer := an_places (places : list Place) | an_page (entries : list DEntry) (next : jstr) | an_roots (r : RootsReply) | an_failed (err : jstr).
(** The records of a directory object whose load failed are taken away. *)
Definition is_failed (r : Rec) : bool := match r_state r with r_error _ => true | _ => false end.
Definition clear_failed (host : jstr) (f : Folders) : Folders :=
  match f_hosts f !! host with
  | Some d => set_dirs (filter (fun kr => (bool_decide (kr.1.1 = d) && is_failed kr.2) = false) (f_dirs f)) f
  | None => f
  end.
(** [s.virtualRoot] of [loadRoots]; [None]: [parsePath] throws on the first root. *)
Definition virtual_of (r : RootsReply) : option (option jstr) :=
  match rr_locations r with
  | [] => Some None
  | first :: _ =>
      if rr_is_roots r then Some (Some root_path)
      else
        drive ← (match pl_path first with [] => Some false | q => pr ← parsePath q; Some (pr_sep pr =? backslash) end);
        Some (if drive || ((1 <? length (rr_locations r))%nat && negb (List.existsb (fun x => bool_decide (pl_path x = root_path)) (rr_locations r)))
              then Some root_path else None)
  end.
(** [loadRoots] of the server object [s] of a host, its answer here. *)
Definition loadRoots (host : jstr) (s : nat) (r : RootsReply) (f : Folders) : Folders :=
  match virtual_of r with
  | Some v => clear_failed host (set_places (<[s := {| ps_roots := rr_locations r; ps_virtual := v |}]> (f_places f)) f)
  | None => set_places (<[s := {| ps_roots := rr_locations r; ps_virtual := ps_virtual (places_of f s) |}]> (f_places f)) f
  end.
Definition PAGES : nat := 60.
(** What the load does with an answer to the call it waits for; [None]: not an answer to it. *)
Definition on_page (host path : jstr) (items : list Node) (guard : nat) (es : list DEntry) (next : jstr) : Next :=
  let items := items ++ (entryNode <$> es) in
  if nonempty next && (S guard <? PAGES)%nat then to_wait (ph_page items next (S guard)) (files_list host path next)
  else to_end items (nonempty next).
Definition answer_next (r : Run) (an : Answer) (f : Folders) : option (Next * Folders) :=
  match run_at r, an with
  | ph_places, an_places pl =>
      let items := place_node <$> pl in
      Some (if List.existsb (fun p => bool_decide (pl_path p = root_path)) pl
            then to_wait (ph_local_root (List.filter (fun n => negb (bool_decide (n_path n = root_path))) items)) (local_list root_path)
            else to_end items false, f)
  | ph_local_root items, an_page es _ => Some (to_end (items ++ (entryNode <$> es)) false, f)
  | ph_local_root items, an_failed _ => Some (to_end items false, f)
  | ph_local, an_page es _ => Some (to_end (entryNode <$> es) false, f)
  | ph_roots s, an_roots rr => let f := loadRoots (run_host r) s rr f in Some (listing_next f s (run_host r) (run_path r), f)
  | ph_roots s, an_failed _ => Some (listing_next f s (run_host r) (run_path r), f)
  | ph_page items _ guard, an_page es next => Some (on_page (run_host r) (run_path r) items guard es next, f)
  | ph_places, an_failed e | ph_local, an_failed e | ph_page _ _ _, an_failed e => Some (to_fail e, f)
  | _, _ => None
  end.
Definition answer (k : nat) (an : Answer) (f : Folders) : Folders :=
  match f_runs f !! k with
  | None => f
  | Some r => match answer_next r an f with Some (nx, f) => go_on k r nx f | None => f end
  end.

(** ** Changing the cache *)

Definition drop_dir (host path : jstr) (f : Folders) : option Folders :=
  p ← norm path;
  Some match f_hosts f !! host with Some d => set_dirs (delete (d, p) (f_dirs f)) f | None => f end.
Definition dropHost (host : jstr) (f : Folders) : Folders := set_hosts (delete host (f_hosts f)) f.
Definition set_rows (a : nat) (rows : list Node) (f : Folders) : Folders := set_arrays (<[a := rows]> (f_arrays f)) f.
(** The row takes the place of the first of its name, or comes last. *)
Fixpoint put_row (n : Node) (rows : list Node) : list Node :=
  match rows with [] => [n] | x :: r => if has_name (n_name n) x then n :: r else x :: put_row n r end.
Fixpoint cut_row (name : jstr) (rows : list Node) : list Node :=
  match rows with [] => [] | x :: r => if has_name name x then r else x :: cut_row name r end.
Definition insert_row (host dir : jstr) (n : Node) (f : Folders) : option Folders :=
  c ← cached host dir f;
  Some match c with None => f | Some rc => set_rows (r_items rc) (put_row n (rows_of f (r_items rc))) f end.
Fixpoint take_rows (names : list jstr) (rows : list Node) : list Node * list Node :=
  match names with
  | [] => ([], rows)
  | nm :: rest =>
      match find_row nm rows with
      | Some x => let '(out, kept) := take_rows rest (cut_row nm rows) in (x :: out, kept)
      | None => take_rows rest rows
      end
  end.
Definition takeOut (host dir : jstr) (names : list jstr) (f : Folders) : option (list Node * Folders) :=
  c ← cached host dir f;
  Some match c with
       | None => ([], f)
       | Some rc => let '(out, rest) := take_rows names (rows_of f (r_items rc)) in (out, set_rows (r_items rc) rest f)
       end.

(** ** Operations on files *)

Section Operations.
(** [localeCompare] of two times of deletion. *)
Context (localeCompare : jstr -> jstr -> Z).
Definition add_op (o : Op) (f : Folders) : Folders := fresh (set_ops (<[f_next f := o]> (f_ops f)) f).
Definition set_op (k : nat) (o : Op) (f : Folders) : Folders := set_ops (<[k := o]> (f_ops f)) f.
Definition end_op (k : nat) (f : Folders) : Folders := set_ops (delete k (f_ops f)) f.
(** An operation that throws before its first call leaves what was read on the way. *)
Definition new_name_ok (host dir name : jstr) (f : Folders) : option (bool * Folders) :=
  match invalid_name name with Some _ => Some (false, f) | None => e ← exists_row host dir name f; Some (negb e.1, e.2) end.
Definition mkdir (host dir name : jstr) (f : Folders) : option Folders :=
  ok ← new_name_ok host dir name f;
  Some (if ok.1 : bool then tell (create_folder host dir name) (add_op (op_mkdir host dir name) ok.2) else ok.2).
Definition mkfile (host dir name : jstr) (f : Folders) : option Folders :=
  ok ← new_name_ok host dir name f;
  Some (if (ok.1 : bool) && negb (bool_decide (host = LOCAL)) then tell (create_file host dir name) (add_op (op_mkfile host dir name) ok.2) else ok.2).
(** The path of a row of the folder, or the name joined to the folder. *)
Definition path_in (dir name : jstr) (n : option Node) : option jstr :=
  match n with Some {| n_path := c :: p |} => Some (c :: p) | _ => join_path dir name end.
Definition rename (host dir old new : jstr) (f : Folders) : option Folders :=
  match invalid_name new with
  | Some _ => Some f
  | None =>
      e ← (if bool_decide (new = old) then Some (false, f) else exists_row host dir new f);
      if e.1 : bool then Some e.2
      else
        l ← list_rows host dir e.2;
        let was := a ← l.1; find_row old (rows_of e.2 a) in
        path ← path_in dir old was;
        Some (tell (rename_item host path new) (add_op (op_rename host dir old new was) l.2))
  end.
(** The next of the names that the folder read at the start still has. *)
Fixpoint next_removal (names : list jstr) (rows : list Node) : option (Node * list jstr) :=
  match names with
  | [] => None
  | nm :: rest => match find_row nm rows with Some it => Some (it, rest) | None => next_removal rest rows end
  end.
Definition remove_on (k : nat) (host dir : jstr) (items : nat) (names : list jstr) (removed : list (option Node)) (f : Folders) : Folders :=
  match next_removal names (rows_of f items) with
  | Some (it, more) => tell (trash_item host (n_path it)) (set_op k (op_remove host dir items it more removed) f)
  | None => set_op k (op_removed removed) f
  end.
Definition remove (host dir : jstr) (names : list jstr) (f : Folders) : option Folders :=
  l ← list_rows host dir f;
  let '(a, f) := match l.1 with Some a => (a, l.2) | None => new_array [] l.2 end in
  Some (let k := f_next f in remove_on k host dir a names [] (fresh f)).
Definition restore (host dir : jstr) (nodes : list (option Node)) (f : Folders) : Folders :=
  if bool_decide (host = LOCAL) then f else tell (trash_items host) (add_op (op_restore_bin host dir nodes) f).
Record BinItem := { b_id : jstr; b_originalPath : jstr; b_deletedAt : jstr }.
(** The newest item of the Trash that came from a path. *)
Definition bin_hit (bin : list BinItem) (w : jstr) : option jstr :=
  b_id <$> head (sort_by (fun a b => localeCompare (b_deletedAt b) (b_deletedAt a)) (List.filter (fun b => bool_decide (norm (b_originalPath b) = Some w)) bin)).
Definition wanted (dir : jstr) (n : option Node) : option jstr := x ← n; join_path dir (n_name x).
Definition copy (host dir : jstr) (names : list jstr) (dst : jstr) (move : bool) (f : Folders) : option Folders :=
  l ← list_rows host dir f;
  let rows := match l.1 with Some a => rows_of f a | None => [] end in
  srcs ← mapM (fun nm => path_in dir nm (find_row nm rows)) names;
  Some (tell (copy_items host srcs dst move) (add_op (op_copy host dir dst move) l.2)).

(** Answers to an operation: an entry, the Trash, that it is done, or a failure. *)
Inductive OpAnswer := oa_entry (e : DEntry) | oa_bin (bin : list BinItem) | oa_done | oa_failed.
Definition drop_if (b : bool) (host dir name : jstr) (f : Folders) : option Folders :=
  if b then p ← join_path dir name; drop_dir host p f else Some f.
Definition got_run (g : Got) : nat := match g with g_run k => k | g_ready k => k end.
(** What an operation does with its answer; [None]: it throws.  [op_copy_source] waits for the
    refresh of the folder copied into. *)
Definition is_dir (n : option Node) : bool := match n with Some n => n_dir n | None => false end.
Definition op_next (k : nat) (o : Op) (an : OpAnswer) (f : Folders) : option Folders :=
  match o, an with
  | op_mkdir host dir _, oa_entry e => insert_row host dir (entryNode e) (end_op k f)
  | op_mkfile host dir _, oa_done => snd <$> refresh host dir (end_op k f)
  | op_rename host dir old _ was, oa_entry e =>
      t ← takeOut host dir [old] (end_op k f);
      f ← insert_row host dir (entryNode e) t.2;
      Some (default f (drop_if (is_dir was) host dir old f))
  | op_remove host dir items it names removed, oa_done =>
      t ← takeOut host dir [n_name it] f;
      Some match drop_if (n_dir it) host dir (n_name it) t.2 with
           | Some f => remove_on k host dir items names (removed ++ [head t.1]) f
           | None => end_op k t.2
           end
  | op_restore_bin host dir nodes, oa_bin bin =>
      want ← mapM (wanted dir) nodes;
      match omap (bin_hit bin) want with
      | [] => snd <$> refresh host dir (end_op k f)
      | ids => Some (tell (trash_restore host ids) (set_op k (op_restore_items host dir) f))
      end
  | op_restore_items host dir, oa_done => snd <$> refresh host dir (end_op k f)
  | op_copy host dir dst move, oa_done =>
      g ← refresh host dst f;
      Some (if move : bool then set_op k (op_copy_source host dir (got_run g.1)) g.2 else end_op k g.2)
  | op_copy_source host dir waits, oa_done =>
      match f_ended f !! waits with Some true => snd <$> refresh host dir (end_op k f) | Some false => Some (end_op k f) | None => Some f end
  | op_removed _, _ => Some f
  | _, oa_failed => Some (end_op k f)
  | _, _ => Some f
  end.
Definition op_answer (k : nat) (an : OpAnswer) (f : Folders) : Folders :=
  match f_ops f !! k with
  | None => f
  | Some o => default (end_op k f) (op_next k o an f)
  end.

(** ** Events *)

Inductive FEvent :=
| ev_load (host path : jstr) (force : bool) | ev_list (host path : jstr) | ev_drop (host path : jstr) | ev_dropHost (host : jstr)
| ev_add (host dir : jstr) (n : Node) | ev_back (host : jstr) | ev_server (host : jstr) | ev_roots (host : jstr) (s : nat) (r : RootsReply)
| ev_mkdir (host dir name : jstr) | ev_mkfile (host dir name : jstr) | ev_rename (host dir old new : jstr) | ev_remove (host dir : jstr) (names : list jstr)
| ev_restore (host dir : jstr) (nodes : list (option Node)) | ev_copy (host dir : jstr) (names : list jstr) (dst : jstr) (move : bool)
| ev_answer (k : nat) (an : Answer) | ev_op (k : nat) (an : OpAnswer).
(** [ev_back]: the server is online again; [ev_server]: a server object joins the list. *)
Definition folder_step (f : Folders) (e : FEvent) : Folders :=
  match e with
  | ev_load host path force => default f (snd <$> load host path force f)
  | ev_list host path => default f (snd <$> list_rows host path f)
  | ev_drop host path => default f (drop_dir host path f)
  | ev_dropHost host => dropHost host f
  | ev_add host dir n => default f (insert_row host dir n f)
  | ev_back host => clear_failed host f
  | ev_server host => fresh (set_servers (<[host := f_next f]> (f_servers f)) f)
  | ev_roots host s r => loadRoots host s r f
  | ev_mkdir host dir name => default f (mkdir host dir name f)
  | ev_mkfile host dir name => default f (mkfile host dir name f)
  | ev_rename host dir old new => default f (rename host dir old new f)
  | ev_remove host dir names => default f (remove host dir names f)
  | ev_restore host dir nodes => restore host dir nodes f
  | ev_copy host dir names dst move => default f (copy host dir names dst move f)
  | ev_answer k an => answer k an f
  | ev_op k an => op_answer k an f
  end.
Definition f_init : Folders :=
  {| f_hosts := ∅; f_dirs := ∅; f_arrays := ∅; f_runs := ∅; f_ended := ∅; f_ops := ∅; f_servers := ∅; f_places := ∅; f_next := 0; f_calls := [] |}.
Definition run_folders (es : list FEvent) : Folders := fold_left folder_step es f_init.

(** ** Every load that is shown as running runs *)

Definition is_loading (rc : Rec) : bool := match r_state rc with r_loading => true | _ => false end.
Definition page_ok (r : Run) : Prop := match run_at r with ph_page _ _ guard => (guard < PAGES)%nat | _ => True end.
(** The directory objects in use were made. *)
Record ids_below (f : Folders) : Prop := {
  ib_hosts : forall host d, f_hosts f !! host = Some d -> (d < f_next f)%nat;
  ib_dirs : forall key rc, f_dirs f !! key = Some rc -> (key.1 < f_next f)%nat;
  ib_runs : forall k r, f_runs f !! k = Some r -> (run_dirs r < f_next f)%nat }.
(** A record that is loading waits for a run that will write it. *)
Record LI (f : Folders) : Prop := {
  li_rec : forall key rc, f_dirs f !! key = Some rc -> is_loading rc = true -> exists k r, r_p rc = Some k /\ f_runs f !! k = Some r /\ run_key r = key;
  li_run : forall k r, f_runs f !! k = Some r -> (k < f_next f)%nat /\ page_ok r;
  li_ids : ids_below f }.
(** A step that neither touches the runs nor adds a loading record. *)
Record quiet (f g : Folders) : Prop := {
  qu_runs : f_runs g = f_runs f;
  qu_dirs : forall key rc, f_dirs g !! key = Some rc -> f_dirs f !! key = Some rc;
  qu_next : (f_next f <= f_next g)%nat;
  qu_hosts : forall host d, f_hosts g !! host = Some d -> f_hosts f !! host = Some d \/ (d < f_next g)%nat }.
Lemma quiet_refl f : quiet f f.
Proof. split; auto. Qed.
Lemma quiet_trans f g h : quiet f g -> quiet g h -> quiet f h.
Proof. intros [H1 H2 H3 H4] [K1 K2 K3 K4]. split; [congruence | auto | lia |]. intros host d Hd. destruct (K4 host d Hd) as [Hg|]; [|by right]. destruct (H4 host d Hg); [by left | right; lia]. Qed.
Lemma ids_quiet f g : quiet f g -> ids_below f -> ids_below g.
Proof.
  intros [H1 H2 H3 H4] [I1 I2 I3]. split.
  - intros host d Hd. destruct (H4 host d Hd) as [Hf|]; [|done]. specialize (I1 host d Hf). lia.
  - intros key rc Hd. specialize (I2 key rc (H2 key rc Hd)). lia.
  - intros k r. rewrite H1. intros Hr. specialize (I3 k r Hr). lia.
Qed.
Lemma LI_quiet f g : quiet f g -> LI f -> LI g.
Proof.
  intros Hq [L1 L2 L3]. pose proof (ids_quiet f g Hq L3). destruct Hq as [H1 H2 H3 _]. split; [| |done]; rewrite H1; [eauto|].
  intros k r Hr. destruct (L2 k r Hr). split; [lia | done].
Qed.
(** Every run is the one its folder's record waits for. *)
Definition waited (f : Folders) (k : nat) (r : Run) : Prop := exists rc, f_dirs f !! run_key r = Some rc /\ is_loading rc = true /\ r_p rc = Some k.
Definition JI (f : Folders) : Prop := forall k r, f_runs f !! k = Some r -> waited f k r.
Definition keeps (f g : Folders) : Prop := forall key rc, f_dirs f !! key = Some rc -> is_loading rc = true -> f_dirs g !! key = Some rc.
Lemma keeps_self f : keeps f f.
Proof. unfold keeps. auto. Qed.
Lemma JI_quiet f g : quiet f g -> keeps f g -> JI f -> JI g.
Proof. intros [H1 _ _ _] Hk J k r. rewrite H1. intros Hr. destruct (J k r Hr) as (rc & Hd & Hl & Hp). exists rc. split_and!; eauto. Qed.
(** The state around a run that is about to go on: all is well but for the run itself. *)
Record around (k : nat) (r : Run) (f : Folders) : Prop := {
  ar_next : (k < f_next f)%nat;
  ar_rec : forall key rc, f_dirs f !! key = Some rc -> is_loading rc = true ->
    (r_p rc = Some k /\ key = run_key r) \/ exists k' r', k' <> k /\ r_p rc = Some k' /\ f_runs f !! k' = Some r' /\ run_key r' = key;
  ar_run : forall k' r', k' <> k -> f_runs f !! k' = Some r' -> (k' < f_next f)%nat /\ page_ok r';
  ar_ids : ids_below f;
  ar_dirs : (run_dirs r < f_next f)%nat }.
Definition next_ok (r : Run) (nx : Next) : Prop := match nx with to_wait ph _ => page_ok (at_phase ph r) | _ => True end.
Lemma LI_end k ok r rc f : around k r f -> is_loading rc = false -> LI (end_run k ok (run_key r) rc f).
Proof.
  intros [H1 H2 H3 H4 H5] Hrc. split; [cbn | cbn | split; cbn].
  - intros key rc' [[<- <-]|[Hne Hd]]%lookup_insert_Some Hl; [congruence|].
    destruct (H2 key rc' Hd Hl) as [[_ ->]|(k' & r' & Hk & Hp & Hr & He)]; [done|]. exists k', r'. by rewrite lookup_delete_ne by done.
  - intros k' r' [Hne Hr]%lookup_delete_Some. by apply H3.
  - apply H4.
  - intros key rc' [[<- _]|[_ Hd]]%lookup_insert_Some; [done | by apply (ib_dirs f H4 key rc')].
  - intros k' r' [_ Hr]%lookup_delete_Some. by apply (ib_runs f H4 k').
Qed.
Lemma around_array k r rows f : around k r f -> around k r (new_array rows f).2.
Proof.
  intros [H1 H2 H3 [I1 I2 I3] H5]. split; [cbn; lia | done | | split; cbn | cbn; lia].
  - intros k' r' Hne Hr. destruct (H3 k' r' Hne Hr). split; [cbn; lia | done].
  - intros host d Hd. specialize (I1 host d Hd). lia.
  - intros key rc Hd. specialize (I2 key rc Hd). lia.
  - intros k' r' Hr. specialize (I3 k' r' Hr). lia.
Qed.
Lemma LI_go k r nx f : around k r f -> next_ok r nx -> LI (go_on k r nx f).
Proof.
  intros Ha Hnx. destruct nx as [ph c | items more | e]; cbn [go_on].
  - destruct Ha as [H1 H2 H3 [I1 I2 I3] H5]. split; [cbn | cbn | split; cbn; [done | done |]].
    + intros key rc Hd Hl. destruct (H2 key rc Hd Hl) as [[Hp ->]|(k' & r' & Hk & Hp & Hr & He)].
      * exists k, (at_phase ph r). by rewrite lookup_insert_eq.
      * exists k', r'. by rewrite lookup_insert_ne by done.
    + intros k' r' [[<- <-]|[Hne Hr]]%lookup_insert_Some; [done|]. by apply H3.
    + intros k' r' [[<- <-]|[Hne Hr]]%lookup_insert_Some; [done | by apply (I3 k')].
  - by apply LI_end; [apply around_array|].
  - by apply LI_end.
Qed.
Lemma JI_go k r nx f : (forall k' r', k' <> k -> f_runs f !! k' = Some r' -> waited f k' r') -> waited f k r -> JI (go_on k r nx f).
Proof.
  intros Ho Hk.
  assert (Hend : forall ok rc g, f_runs g = f_runs f -> f_dirs g = f_dirs f -> JI (end_run k ok (run_key r) rc g)).
  { intros ok rc g Er Ed k' r'. cbn. rewrite Er. intros [Hne Hr]%lookup_delete_Some. destruct (Ho k' r' (not_eq_sym Hne) Hr) as (rc' & Hd & Hl & Hp).
    exists rc'. cbn. rewrite Ed. split; [|done]. rewrite lookup_insert_ne; [done|]. intros He. destruct Hk as (rc0 & Hd0 & _ & Hp0). rewrite He in Hd0. congruence. }
  destruct nx as [ph c | items more | e]; cbn [go_on new_array]; [|by apply Hend..].
  intros k' r'. cbn [f_runs tell set_runs]. intros [[<- <-]|[Hne Hr]]%lookup_insert_Some; [exact Hk | by apply (Ho k' r')].
Qed.
(** The first step of a load, and its answers. *)
Lemma first_page_ok r host path : next_ok r (first_page host path).
Proof. cbn. unfold page_ok, PAGES. cbn. lia. Qed.
Lemma listing_next_ok r f s host path : next_ok r (listing_next f s host path).
Proof. unfold listing_next. destruct (bool_decide _); [by destruct (mapM _ _) | apply first_page_ok]. Qed.
Lemma first_next_ok r f host path : next_ok r (first_next f host path).
Proof.
  unfold first_next. destruct (bool_decide (host = LOCAL)); [by destruct (bool_decide _)|].
  destruct (f_servers f !! host) as [s|]; [|apply first_page_ok]. destruct (_ && _); [done | apply listing_next_ok].
Qed.
Lemma clear_failed_quiet host f : quiet f (clear_failed host f) /\ keeps f (clear_failed host f).
Proof.
  unfold clear_failed. destruct (f_hosts f !! host) as [d|]; [|split; [apply quiet_refl | apply keeps_self]].
  split; [split; cbn; [done | | done | by left]|].
  - intros key rc [Hd _]%map_lookup_filter_Some. done.
  - intros key rc Hd Hl. cbn. apply map_lookup_filter_Some. split; [done|]. cbn. unfold is_failed, is_loading in *. destruct (r_state rc); [by rewrite andb_false_r..|done].
Qed.
Lemma loadRoots_quiet host s rr f : quiet f (loadRoots host s rr f) /\ keeps f (loadRoots host s rr f).
Proof.
  unfold loadRoots. destruct (virtual_of rr) as [v|]; [|split; [split; cbn; auto | by unfold keeps]].
  match goal with |- context [clear_failed host ?g] => destruct (clear_failed_quiet host g) as [Hq Hk]; split; [apply (quiet_trans f g); [split; cbn; auto | done] | exact Hk] end.
Qed.
Lemma answer_next_spec r an f nx g : answer_next r an f = Some (nx, g) -> page_ok r -> quiet f g /\ keeps f g /\ next_ok r nx.
Proof.
  unfold answer_next, page_ok. intros E Hp.
  assert (Hself : quiet f f /\ keeps f f) by (split; [apply quiet_refl | apply keeps_self]).
  destruct (run_at r) eqn:Er, an; try discriminate E; injection E as <- <-; (split; [|split]); try apply Hself; try apply loadRoots_quiet; try apply listing_next_ok; try exact I.
  - by case_match.
  - unfold on_page. destruct (nonempty next); [|exact I]. destruct (Nat.ltb_spec (S guard) PAGES); [done | exact I].
Qed.
(** What an event is made of: quiet changes, starts of loads and their answers.  Quiet changes
    drop no record of a load that runs, unless [drops] says so. *)
Inductive moves (drops : bool) : Folders -> Folders -> Prop :=
| mv_quiet f g : quiet f g -> (drops = false -> keeps f g) -> moves drops f g
| mv_start d host path f :
    f_hosts f !! host = Some d ->
    (forall rc, f_dirs f !! (d, path) = Some rc -> is_loading rc = true -> r_p rc = None) ->
    moves drops f (start_load d host path (f_dirs f !! (d, path)) f).2
| mv_answer k an f : moves drops f (answer k an f)
| mv_trans f g h : moves drops f g -> moves drops g h -> moves drops f h.
Definition sound (drops : bool) (f : Folders) : Prop := LI f /\ (drops = false -> JI f).

Lemma around_of k r f : LI f -> f_runs f !! k = Some r -> around k r f.
Proof.
  intros [L1 L2 L3] Hk. split; [by destruct (L2 k r Hk) | | by eauto | done | by apply (ib_runs f L3 k)].
  intros key rc Hd Hl. destruct (L1 key rc Hd Hl) as (k' & r' & Hp & Hr & He). destruct (decide (k' = k)) as [->|Hne]; [|right; by exists k', r'].
  left. split; [done|]. congruence.
Qed.
Lemma sound_answer drops k an f : sound drops f -> sound drops (answer k an f).
Proof.
  intros [L J]. unfold answer. destruct (f_runs f !! k) as [r|] eqn:Hk; [|done].
  destruct (answer_next r an f) as [[nx g]|] eqn:E; [|done].
  destruct (answer_next_spec r an f nx g E) as (Hq & Hp & Hn); [by eapply li_run|].
  assert (Hk' : f_runs g !! k = Some r) by (by rewrite (qu_runs _ _ Hq)).
  split; [apply LI_go; [apply around_of; [by apply (LI_quiet f) | done] | done]|].
  intros Hd. pose proof (JI_quiet f g Hq Hp (J Hd)) as J'. apply JI_go; [intros; by apply J' | by apply J'].
Qed.
Lemma sound_quiet drops f g : quiet f g -> (drops = false -> keeps f g) -> sound drops f -> sound drops g.
Proof. intros Hq Hk [L J]. split; [by apply (LI_quiet f)|]. intros Hd. apply (JI_quiet f); auto. Qed.
Lemma new_array_quiet rows f : quiet f (new_array rows f).2 /\ keeps f (new_array rows f).2.
Proof. split; [split; cbn; auto | by unfold keeps]. Qed.
Lemma sound_start drops d host path f : f_hosts f !! host = Some d ->
  (forall rc, f_dirs f !! (d, path) = Some rc -> is_loading rc = true -> r_p rc = None) ->
  sound drops f -> sound drops (start_load d host path (f_dirs f !! (d, path)) f).2.
Proof.
  intros Hh Hold Hs. unfold start_load.
  assert (exists a g, match f_dirs f !! (d, path) with Some o => (r_items o, f) | None => new_array [] f end = (a, g) /\ sound drops g /\ f_dirs g = f_dirs f /\ f_hosts g = f_hosts f) as (a & g & -> & [L J] & Hg & Hgh).
  { destruct (f_dirs f !! (d, path)) as [o|]; [by exists (r_items o), f|]. exists (f_next f), (new_array [] f).2. split_and!; [done | | done | done].
    destruct (new_array_quiet [] f). by apply (sound_quiet drops f). }
  cbn [snd]. set (r := {| run_dirs := d |}).
  set (f2 := fresh _). assert (Hrun : forall k' r', f_runs f2 !! k' = Some r' -> (k' < f_next g)%nat /\ page_ok r') by (intros k' r' Hr; by apply (li_run g L)).
  split.
  - pose proof (li_ids g L) as [I1 I2 I3]. assert (Hdn : (d < f_next g)%nat) by (apply (I1 host); by rewrite Hgh).
    apply LI_go; [|apply first_next_ok]. split; [cbn; lia | | | | cbn; lia].
    + intros key rc. subst f2. cbn [f_dirs fresh set_dirs]. intros [[<- <-]|[Hne Hd]]%lookup_insert_Some Hl; [by left|]. right.
      destruct (li_rec g L key rc Hd Hl) as (k' & r' & Hp & Hr & He). exists k', r'. split_and!; try done. destruct (Hrun k' r' Hr). lia.
    + intros k' r' _ Hr. destruct (Hrun k' r' Hr). split; [cbn; lia | done].
    + split; cbn.
      * intros h d' Hd'. specialize (I1 h d' Hd'). lia.
      * intros key rc [[<- _]|[_ Hd]]%lookup_insert_Some; [cbn; lia|]. specialize (I2 key rc Hd). lia.
      * intros k' r' Hr. specialize (I3 k' r' Hr). lia.
  - intros Hd. apply JI_go.
    + intros k' r' Hne Hr. destruct (J Hd k' r' Hr) as (rc & H1 & H2 & H3). exists rc. split; [|done]. cbn. rewrite lookup_insert_ne; [done|]. intros He.
      rewrite Hg, <- He in H1. rewrite (Hold rc H1 H2) in H3. discriminate H3.
    + eexists. cbn. by rewrite lookup_insert_eq.
Qed.
Lemma sound_moves drops f g : moves drops f g -> sound drops f -> sound drops g.
Proof. induction 1; [by apply sound_quiet | by apply sound_start | by apply sound_answer | auto]. Qed.
(** *** The events *)
(** A change of arrays, operations, servers and calls only. *)
Definition same_cache (f g : Folders) : Prop := f_hosts g = f_hosts f /\ f_dirs g = f_dirs f /\ f_runs g = f_runs f /\ (f_next f <= f_next g)%nat.
Lemma moves_same drops f g : same_cache f g -> moves drops f g.
Proof. intros (H0 & H1 & H2 & H3). apply mv_quiet; [split; [done | by rewrite H1 | done | rewrite H0; by left]|]. intros _ key rc. by rewrite H1. Qed.
Lemma same_refl f : same_cache f f.
Proof. done. Qed.
Lemma same_trans f g h : same_cache f g -> same_cache g h -> same_cache f h.
Proof. intros (A1 & A2 & A3 & A4) (B1 & B2 & B3 & B4). split_and!; [congruence.. | lia]. Qed.
Lemma moves_refl drops f : moves drops f f.
Proof. apply moves_same, same_refl. Qed.
Lemma cached_same host path f g : same_cache f g -> cached host path g = cached host path f.
Proof. intros (H1 & H2 & _). unfold cached. by rewrite H1, H2. Qed.
Lemma moves_load drops host path force f r : load host path force f = Some r -> moves drops f r.2.
Proof.
  unfold load. destruct (norm path) as [p|]; [|done]. cbn [mbind option_bind]. destruct (dirsOf host f) as [d g] eqn:E.
  assert (moves drops f g /\ f_hosts g !! host = Some d) as [Hg Hh].
  { unfold dirsOf in E. destruct (f_hosts f !! host) eqn:Eh; injection E as <- <-; [split; [apply moves_refl | done]|].
    split; [|apply lookup_insert_eq]. apply mv_quiet; [split; cbn; auto | intros _; by unfold keeps].
    intros h d [[_ <-]|[_ Hd]]%lookup_insert_Some; [right; lia | by left]. }
  assert (Hs : (forall rc, f_dirs g !! (d, p) = Some rc -> is_loading rc = true -> r_p rc = None) -> moves drops f (start_load d host p (f_dirs g !! (d, p)) g).2).
  { intros H. apply (mv_trans _ f g); [done | by apply mv_start]. }
  intros [= <-]. destruct (f_dirs g !! (d, p)) as [[a st q m]|]; [|by apply Hs].
  destruct st as [| | err]; [destruct q; [done|] | destruct force; [|done] |]; apply Hs; intros rc [= <-]; done.
Qed.
Lemma moves_list drops host path f r : list_rows host path f = Some r -> moves drops f r.2.
Proof.
  unfold list_rows. destruct (cached host path f) as [[[a st q m]|]|]; cbn [mbind option_bind]; [| |done].
  - destruct st; intros [= <-]; apply moves_refl.
  - destruct (load host path false f) as [g|] eqn:E; [|done]. intros [= <-]. by apply (moves_load _ _ _ _ _ _ E).
Qed.
Lemma moves_exists drops host dir name f r : exists_row host dir name f = Some r -> moves drops f r.2.
Proof. unfold exists_row. destruct (list_rows host dir f) as [l|] eqn:E; [|done]. intros [= <-]. by apply (moves_list _ _ _ _ _ E). Qed.
Lemma same_insert host dir n f g : insert_row host dir n f = Some g -> same_cache f g.
Proof. unfold insert_row. destruct (cached host dir f) as [[rc|]|]; [| |done]; intros [= <-]; done. Qed.
Lemma same_takeOut host dir names f r : takeOut host dir names f = Some r -> same_cache f r.2.
Proof.
  unfold takeOut. destruct (cached host dir f) as [[rc|]|]; [| |done]; cbn [mbind option_bind]; [|by intros [= <-]].
  destruct (take_rows names (rows_of f (r_items rc))). by intros [= <-].
Qed.
Lemma same_remove_on k host dir items names removed f : same_cache f (remove_on k host dir items names removed f).
Proof. unfold remove_on. destruct (next_removal names (rows_of f items)) as [[it rest]|]; done. Qed.
Definition loading_at (host path : jstr) (f : Folders) : bool := match cached host path f with Some (Some rc) => is_loading rc | _ => false end.
Lemma loading_same host path f g : same_cache f g -> loading_at host path g = loading_at host path f.
Proof. intros H. unfold loading_at. by rewrite (cached_same _ _ f g H). Qed.
Lemma moves_drop drops host path f g : drop_dir host path f = Some g -> (drops = false -> loading_at host path f = false) -> moves drops f g.
Proof.
  unfold drop_dir, loading_at, cached. destruct (norm path) as [p|]; [|done]. cbn [mbind option_bind]. intros [= <-] Hl.
  destruct (f_hosts f !! host) as [d|]; [|apply moves_refl]. apply mv_quiet; [split; cbn; auto; intros key rc Hkr; by apply lookup_delete_Some in Hkr as [_ ?]|].
  intros Hd key rc Hk Hlo. cbn. rewrite lookup_delete_ne; [done|]. intros He. specialize (Hl Hd). cbn in Hl. rewrite He, Hk in Hl. cbn in Hl. congruence.
Qed.
Lemma moves_drop_if drops b host dir name f g : drop_if b host dir name f = Some g ->
  (drops = false -> b = true -> forall p, join_path dir name = Some p -> loading_at host p f = false) -> moves drops f g.
Proof.
  unfold drop_if. destruct b; [|intros [= <-] _; apply moves_refl]. destruct (join_path dir name) as [p|]; [|done]. cbn [mbind option_bind].
  intros E H. apply (moves_drop _ _ _ _ _ E). eauto.
Qed.
(** The folder an event drops, and whether no load of it runs. *)
Definition dropped (f : Folders) (e : FEvent) : option (jstr * jstr) :=
  match e with
  | ev_drop host path => Some (host, path)
  | ev_op k oa_done => match f_ops f !! k with Some (op_remove host dir _ it _ _) => if n_dir it then pair host <$> join_path dir (n_name it) else None | _ => None end
  | ev_op k (oa_entry _) => match f_ops f !! k with Some (op_rename host dir old _ was) => if is_dir was then pair host <$> join_path dir old else None | _ => None end
  | _ => None
  end.
Definition spares (f : Folders) (e : FEvent) : bool := match dropped f e with Some (host, path) => negb (loading_at host path f) | None => true end.
Lemma moves_then drops f g h : moves drops f g -> same_cache g h -> moves drops f h.
Proof. intros H1 H2. apply (mv_trans _ f g); [done | by apply moves_same]. Qed.
Lemma moves_default drops f (o : option Folders) : (forall g, o = Some g -> moves drops f g) -> moves drops f (default f o).
Proof. destruct o; [auto | intros; apply moves_refl]. Qed.
Lemma moves_name_ok drops host dir name f r : new_name_ok host dir name f = Some r -> moves drops f r.2.
Proof.
  unfold new_name_ok. destruct (invalid_name name); [intros [= <-]; apply moves_refl|].
  destruct (exists_row host dir name f) as [e|] eqn:E; [|done]. intros [= <-]. by apply (moves_exists _ _ _ _ _ _ E).
Qed.
Lemma same_told c o f : same_cache f (tell c (add_op o f)).
Proof. split_and!; cbn; auto. Qed.
Lemma moves_mkdir drops host dir name f g : mkdir host dir name f = Some g -> moves drops f g.
Proof.
  unfold mkdir. destruct (new_name_ok host dir name f) as [[[] r]|] eqn:E; [| |done]; intros [= <-]; apply (moves_name_ok drops) in E; [|done].
  apply (moves_then _ f r); [done | apply same_told].
Qed.
Lemma moves_mkfile drops host dir name f g : mkfile host dir name f = Some g -> moves drops f g.
Proof.
  unfold mkfile. destruct (new_name_ok host dir name f) as [[ok r]|] eqn:E; [|done]. cbn [mbind option_bind fst snd]. apply (moves_name_ok drops) in E.
  destruct (_ && _); intros [= <-]; [apply (moves_then _ f r); [done | apply same_told] | done].
Qed.
Lemma moves_rename drops host dir old new f g : rename host dir old new f = Some g -> moves drops f g.
Proof.
  unfold rename. destruct (invalid_name new); [intros [= <-]; apply moves_refl|].
  destruct (if bool_decide (new = old) then _ else _) as [[b r]|] eqn:E; [|done]. cbn [mbind option_bind fst snd].
  assert (Hr : moves drops f r).
  { destruct (bool_decide (new = old)); [injection E as <- <-; apply moves_refl | by apply (moves_exists drops) in E]. }
  destruct b; [by intros [= <-]|]. destruct (list_rows host dir r) as [l|] eqn:El; [|done]. cbn [mbind option_bind].
  destruct (path_in _ _ _) as [p|]; [|done]. intros [= <-]. apply (moves_list drops) in El.
  apply (moves_then _ f l.2); [by apply (mv_trans _ f r) | apply same_told].
Qed.
Lemma same_start_remove k host dir a names f : k = f_next f -> same_cache f (remove_on k host dir a names [] (fresh f)).
Proof. intros ->. apply (same_trans f (fresh f)); [split_and!; cbn; auto | apply same_remove_on]. Qed.
Lemma moves_remove drops host dir names f g : remove host dir names f = Some g -> moves drops f g.
Proof.
  unfold remove. destruct (list_rows host dir f) as [[a r]|] eqn:E; [|done]. cbn [mbind option_bind fst snd]. apply (moves_list drops) in E. cbn [snd] in E.
  destruct a as [a|]; intros [= <-]; (eapply moves_then; [exact E|]); [by apply same_start_remove|].
  apply (same_trans r (new_array [] r).2); [split_and!; cbn; auto | by apply (same_start_remove _ host dir _ names (new_array [] r).2)].
Qed.
Lemma moves_copy drops host dir names dst move f g : copy host dir names dst move f = Some g -> moves drops f g.
Proof.
  unfold copy. destruct (list_rows host dir f) as [[a r]|] eqn:E; [|done]. cbn [mbind option_bind fst snd]. apply (moves_list drops) in E.
  destruct (mapM _ _); [|done]. intros [= <-]. apply (moves_then _ f r); [done | apply same_told].
Qed.
Lemma moves_refresh drops k host dir f g : snd <$> refresh host dir (end_op k f) = Some g -> moves drops f g.
Proof.
  intros H. apply fmap_Some in H as (r & E & ->). apply (mv_trans _ f (end_op k f)); [by apply moves_same | by apply (moves_load _ host dir true _ _ E)].
Qed.
Lemma moves_removed drops k host dir items it names removed f g :
  (drops = false -> n_dir it = true -> forall p, join_path dir (n_name it) = Some p -> loading_at host p f = false) ->
  op_next k (op_remove host dir items it names removed) oa_done f = Some g -> moves drops f g.
Proof.
  intros Hd. cbn [op_next]. destruct (takeOut host dir [n_name it] f) as [t|] eqn:Et; [|done]. cbn [mbind option_bind]. intros [= <-]. apply same_takeOut in Et.
  destruct (drop_if (n_dir it) host dir (n_name it) t.2) as [h|] eqn:E; [|by apply moves_same, (same_trans f t.2)].
  apply (moves_then _ f h); [|apply same_remove_on]. apply (mv_trans _ f t.2); [by apply moves_same|].
  apply (moves_drop_if drops) in E; [done|]. intros Hd' Hb p Hp. rewrite (loading_same _ _ f t.2 Et). by apply Hd.
Qed.
Lemma moves_renamed drops k host dir old new was e f g :
  (drops = false -> is_dir was = true -> forall p, join_path dir old = Some p -> loading_at host p f = false) ->
  op_next k (op_rename host dir old new was) (oa_entry e) f = Some g -> moves drops f g.
Proof.
  intros Hd. cbn [op_next]. destruct (takeOut host dir [old] (end_op k f)) as [t|] eqn:Et; [|done]. cbn [mbind option_bind].
  destruct (insert_row host dir (entryNode e) t.2) as [h|] eqn:Ei; [|done]. intros [= <-]. apply same_takeOut in Et. apply same_insert in Ei.
  assert (Hs : same_cache f h) by (apply (same_trans f t.2); [by apply (same_trans f (end_op k f)) | done]).
  apply (mv_trans _ f h); [by apply moves_same|]. apply moves_default. intros g E. apply (moves_drop_if drops) in E; [done|].
  intros Hd' Hb p Hp. rewrite (loading_same _ _ f h Hs). by apply Hd.
Qed.
Lemma moves_op drops k an f : (drops = false -> spares f (ev_op k an) = true) -> moves drops f (op_answer k an f).
Proof.
  intros Hd. unfold op_answer. destruct (f_ops f !! k) as [o|] eqn:Ho; [|apply moves_refl].
  destruct (op_next k o an f) as [g|] eqn:E; [|by apply moves_same]. cbn [default from_option id]. unfold spares, dropped in Hd. rewrite Ho in Hd.
  destruct o, an; try (injection E as <-; by apply moves_same); try (by apply (moves_refresh drops) in E).
  - cbn [op_next] in E. apply moves_same. apply same_insert in E. by apply (same_trans f (end_op k f)).
  - apply (moves_renamed drops) in E; [done|]. intros Hf Hb p Hp. specialize (Hd Hf). rewrite Hb, Hp in Hd. by apply negb_true_iff.
  - apply (moves_removed drops) in E; [done|]. intros Hf Hb p Hp. specialize (Hd Hf). rewrite Hb, Hp in Hd. by apply negb_true_iff.
  - cbn [op_next] in E. destruct (mapM _ nodes) as [want|]; [|done]. cbn [mbind option_bind] in E.
    destruct (omap _ want); [by apply (moves_refresh drops) in E | injection E as <-; by apply moves_same].
  - cbn [op_next] in E. destruct (refresh host dst f) as [r|] eqn:Er; [|done]. injection E as <-. apply (moves_load drops) in Er.
    destruct move; by apply (moves_then _ f r.2).
  - cbn [op_next] in E. destruct (f_ended f !! waits) as [[]|]; [by apply (moves_refresh drops) in E | injection E as <-; by apply moves_same..].
Qed.
Lemma moves_fst {A} drops f (o : option (A * Folders)) : (forall r, o = Some r -> moves drops f r.2) -> moves drops f (default f (snd <$> o)).
Proof. destruct o; cbn; [auto | intros; apply moves_refl]. Qed.
Lemma moves_step drops f e : (drops = false -> spares f e = true) -> moves drops f (folder_step f e).
Proof.
  intros Hd. destruct e; cbn [folder_step].
  - apply moves_fst. intros r. apply moves_load.
  - apply moves_fst. intros r. apply moves_list.
  - apply moves_default. intros g E. apply (moves_drop _ _ _ _ _ E). intros Hf. specialize (Hd Hf). by apply negb_true_iff in Hd.
  - apply mv_quiet; [split; cbn; auto; intros h d Hh; apply lookup_delete_Some in Hh as [_ Hh]; by left | by unfold keeps].
  - apply moves_default. intros g E. by apply moves_same, (same_insert _ _ _ _ _ E).
  - apply mv_quiet; [|intros _]; apply clear_failed_quiet.
  - apply moves_same. split_and!; cbn; auto.
  - apply mv_quiet; [|intros _]; apply loadRoots_quiet.
  - apply moves_default. intros g. apply moves_mkdir.
  - apply moves_default. intros g. apply moves_mkfile.
  - apply moves_default. intros g. apply moves_rename.
  - apply moves_default. intros g. apply moves_remove.
  - unfold restore. destruct (bool_decide _); [apply moves_refl | apply moves_same, same_told].
  - apply moves_default. intros g. apply moves_copy.
  - apply mv_answer.
  - by apply moves_op.
Qed.

(** ** Loads end *)

(** The answers a call can have. *)
Definition answers_to (ph : Phase) (an : Answer) : bool :=
  match ph, an with
  | _, an_failed _ | ph_places, an_places _ | ph_roots _, an_roots _ => true
  | (ph_local_root _ | ph_local | ph_page _ _ _), an_page _ _ => true
  | _, _ => false
  end.
(** How many calls a load can still make. *)
Definition run_left (r : Run) : nat :=
  match run_at r with ph_places => 2 | ph_local_root _ => 1 | ph_local => 1 | ph_roots _ => 61 | ph_page _ _ guard => PAGES - guard end.
(** Every load that runs has one answer. *)
Definition serve_one (oracle : Run -> Answer) (f : Folders) (k : nat) : Folders :=
  match f_runs f !! k with Some r => answer k (oracle r) f | None => f end.
Definition serve (oracle : Run -> Answer) (f : Folders) : Folders := fold_left (serve_one oracle) (map_to_list (f_runs f)).*1 f.
Lemma go_on_runs k r nx f : f_runs (go_on k r nx f) = match nx with to_wait ph _ => <[k := at_phase ph r]> (f_runs f) | _ => delete k (f_runs f) end.
Proof. by destruct nx. Qed.
Lemma listing_left r s f host path ph c : listing_next f s host path = to_wait ph c -> run_left (at_phase ph r) = PAGES.
Proof. unfold listing_next, first_page. destruct (bool_decide _); [by destruct (mapM _ _)|]. by intros [= <- <-]. Qed.
Lemma answer_left r an f nx g ph c : page_ok r -> answers_to (run_at r) an = true -> answer_next r an f = Some (nx, g) -> nx = to_wait ph c ->
  (run_left (at_phase ph r) < run_left r)%nat.
Proof.
  unfold page_ok, answer_next, run_left at 2. intros Hp Ha E ->. destruct (run_at r), an; try discriminate; injection E as E <-; try discriminate.
  - destruct (List.existsb _ _); [|discriminate]. injection E as <- <-. cbn. lia.
  - rewrite (listing_left _ _ _ _ _ _ _ E). unfold PAGES. lia.
  - rewrite (listing_left _ _ _ _ _ _ _ E). unfold PAGES. lia.
  - unfold on_page in E. destruct (_ && _); [|discriminate]. injection E as <- <-. unfold run_left; cbn [run_at at_phase]. lia.
Qed.
Lemma answers_next r an f : answers_to (run_at r) an = true -> is_Some (answer_next r an f).
Proof. unfold answer_next. destruct (run_at r), an; try discriminate; eauto. Qed.
Lemma serve_one_runs oracle f k j : j <> k -> f_runs (serve_one oracle f k) !! j = f_runs f !! j.
Proof.
  intros Hj. unfold serve_one, answer. destruct (f_runs f !! k) as [r|] eqn:E; [|done]. destruct (answer_next r (oracle r) f) as [[nx g]|] eqn:En; [|done].
  rewrite go_on_runs. assert (f_runs g = f_runs f) as ->; [|destruct nx; by rewrite ?lookup_insert_ne, ?lookup_delete_ne by done].
  unfold answer_next in En. destruct (run_at r), (oracle r); try discriminate; injection En as _ <-; try done. apply (loadRoots_quiet (run_host r) s r0 f).
Qed.
Lemma serve_one_own oracle f k r' : (forall r, answers_to (run_at r) (oracle r) = true) -> LI f -> f_runs (serve_one oracle f k) !! k = Some r' ->
  exists r, f_runs f !! k = Some r /\ (run_left r' < run_left r)%nat.
Proof.
  intros Ho L. unfold serve_one, answer. destruct (f_runs f !! k) as [r|] eqn:E; [|by rewrite E]. intros H. exists r. split; [done|].
  destruct (answers_next r (oracle r) f (Ho r)) as [[nx g] En]. rewrite En, go_on_runs in H.
  destruct nx as [ph c| |]; [|by rewrite lookup_delete_eq in H..]. rewrite lookup_insert_eq in H. injection H as <-.
  by apply (answer_left r (oracle r) f (to_wait ph c) g ph c); [apply (li_run f L k r E)| | |].
Qed.
Lemma serve_left oracle n ks f : (forall r, answers_to (run_at r) (oracle r) = true) -> sound true f -> NoDup ks ->
  (forall k r, f_runs f !! k = Some r -> (run_left r < (if bool_decide (k ∈ ks) then S n else n))%nat) ->
  let g := fold_left (serve_one oracle) ks f in sound true g /\ forall k r, f_runs g !! k = Some r -> (run_left r < n)%nat.
Proof.
  intros Ho. revert f. induction ks as [|k ks IH]; intros f Hs Hnd Hl; cbn [fold_left].
  - split; [done|]. intros k r Hr. specialize (Hl k r Hr). by rewrite bool_decide_false in Hl by apply not_elem_of_nil.
  - apply NoDup_cons in Hnd as [Hk Hnd]. apply IH; [|done|].
    + unfold serve_one. destruct (f_runs f !! k); [by apply sound_answer | done].
    + intros j r Hr. destruct (decide (j = k)) as [->|Hne].
      * rewrite bool_decide_false by done. destruct (serve_one_own oracle f k r Ho (proj1 Hs) Hr) as (r0 & Hr0 & Hlt).
        specialize (Hl k r0 Hr0). rewrite bool_decide_true in Hl by apply list_elem_of_here. lia.
      * rewrite serve_one_runs in Hr by done. specialize (Hl j r Hr). destruct (bool_decide_reflect (j ∈ ks)) as [Hj|Hj].
        -- by rewrite bool_decide_true in Hl by (by apply list_elem_of_further).
        -- rewrite bool_decide_false in Hl; [done|]. intros [|]%elem_of_cons; done.
Qed.
Lemma serve_round oracle n f : (forall r, answers_to (run_at r) (oracle r) = true) -> sound true f ->
  (forall k r, f_runs f !! k = Some r -> (run_left r < S n)%nat) -> sound true (serve oracle f) /\ forall k r, f_runs (serve oracle f) !! k = Some r -> (run_left r < n)%nat.
Proof.
  intros Ho Hs Hl. apply serve_left; [done | done | apply NoDup_fst_map_to_list |].
  intros k r Hr. rewrite bool_decide_true; [by apply (Hl k)|]. apply list_elem_of_fmap. exists (k, r). split; [done | by apply elem_of_map_to_list].
Qed.
Lemma serve_rounds oracle m n f : (forall r, answers_to (run_at r) (oracle r) = true) -> sound true f ->
  (forall k r, f_runs f !! k = Some r -> (run_left r < m + n)%nat) ->
  sound true (Nat.iter m (serve oracle) f) /\ forall k r, f_runs (Nat.iter m (serve oracle) f) !! k = Some r -> (run_left r < n)%nat.
Proof.
  intros Ho Hs. revert n. induction m as [|m IH]; intros n Hl; [done|]. cbn [Nat.iter nat_rect].
  destruct (IH (S n)) as [H1 H2]; [intros k r Hr; specialize (Hl k r Hr); lia|]. by apply serve_round.
Qed.
(** No event drops a folder while a load of it runs. *)
Fixpoint all_spare (f : Folders) (es : list FEvent) : bool := match es with [] => true | e :: es => spares f e && all_spare (folder_step f e) es end.
Lemma sound_run drops es f : sound drops f -> (drops = false -> all_spare f es = true) -> sound drops (fold_left folder_step es f).
Proof.
  revert f. induction es as [|e es IH]; intros f Hs Hd; [done|]. cbn [fold_left all_spare] in *. apply IH.
  - apply (sound_moves drops f); [|done]. apply moves_step. intros H. by destruct (proj1 (andb_true_iff _ _) (Hd H)).
  - intros H. by destruct (proj1 (andb_true_iff _ _) (Hd H)).
Qed.
Lemma sound_init drops : sound drops f_init.
Proof. split; [split; [| | split]; intros ? ? H; discriminate H | intros _ ? ? H; discriminate H]. Qed.
Lemma run_left_max r : (run_left r <= 61)%nat.
Proof. unfold run_left, PAGES. destruct (run_at r); lia. Qed.
(** C37 Whatever the window did, no folder stays on "loading": once every load has had the answers
    of at most 61 calls, whatever they are, no load runs and no record is loading.  It holds
    for an agent whose cursors go round in a circle, since a load reads 60 pages at most. *)
Theorem folder_loads_end oracle es : (forall r, answers_to (run_at r) (oracle r) = true) ->
  let f := Nat.iter 61 (serve oracle) (run_folders es) in f_runs f = ∅ /\ forall key rc, f_dirs f !! key = Some rc -> is_loading rc = false.
Proof.
  intros Ho. destruct (serve_rounds oracle 61 1 (run_folders es) Ho) as [[L _] Hl].
  - apply sound_run; [apply sound_init | done].
  - intros k r _. pose proof (run_left_max r). lia.
  - set (f := Nat.iter 61 (serve oracle) (run_folders es)) in *.
    assert (Hnone : forall k, f_runs f !! k = None).
    { intros k. apply eq_None_not_Some. intros [r Hr]. specialize (Hl k r Hr). destruct (li_run f L k r Hr) as [_ Hp].
      unfold run_left, page_ok in *. destruct (run_at r); lia. }
    split; [by apply map_eq; intros k; rewrite lookup_empty|]. intros key rc Hd. apply not_true_is_false. intros Hlo.
    destruct (li_rec f L key rc Hd Hlo) as (k & r & _ & Hr & _). congruence.
Qed.

(** ** Loads of one folder are in order *)

(** As long as no folder is dropped while a load of it runs, the loads of one folder never
    overlap: every load that runs is the one its folder's record waits for, so a listing that
    lands was asked for after the one it replaces had landed. *)
Theorem folder_loads_in_order es : all_spare f_init es = true ->
  let f := run_folders es in
  (forall k r, f_runs f !! k = Some r -> waited f k r) /\
  (forall k1 k2 r1 r2, f_runs f !! k1 = Some r1 -> f_runs f !! k2 = Some r2 -> run_key r1 = run_key r2 -> k1 = k2).
Proof.
  intros Hs f. destruct (sound_run false es f_init) as [_ J]; [apply sound_init | done |]. specialize (J eq_refl). split; [exact J|].
  intros k1 k2 r1 r2 H1 H2 He. destruct (J k1 r1 H1) as (rc1 & Hd1 & _ & Hp1), (J k2 r2 H2) as (rc2 & Hd2 & _ & Hp2). rewrite He in Hd1. congruence.
Qed.

(** ** A load reads the folder *)

(** An agent that answers a cursor with a page and the next cursor. *)
Definition Pager := jstr -> list DEntry * jstr.
(** The entries of at most [n] pages from a cursor, and the cursor left. *)
Fixpoint read_pages (pager : Pager) (n : nat) (cursor : jstr) : list DEntry * jstr :=
  match n with
  | O => ([], cursor)
  | S n =>
      let '(es, next) := pager cursor in
      if nonempty next then let '(more, rest) := read_pages pager n next in (es ++ more, rest) else (es, next)
  end.
(** The agent answers the calls of the load [k]. *)
Definition page_once (pager : Pager) (k : nat) (f : Folders) : Folders :=
  match f_runs f !! k with
  | Some {| run_at := ph_page _ cursor _ |} => answer k (an_page (pager cursor).1 (pager cursor).2) f
  | _ => f
  end.
Definition lands (f g : Folders) (r : Run) (rows : list Node) (more : bool) : Prop :=
  exists a, f_dirs g !! run_key r = Some {| r_items := a; r_state := r_loaded; r_p := None; r_more := more |} /\ rows_of g a = rows /\ f_hosts g = f_hosts f.
Lemma end_lands k r rows more f : lands f (go_on k r (to_end rows more) f) r rows more.
Proof. exists (f_next f). split_and!; [apply lookup_insert_eq | | done]. unfold rows_of, go_on, end_run, new_array. cbn. by rewrite lookup_insert_eq. Qed.
Lemma page_once_gone pager k f n : f_runs f !! k = None -> Nat.iter n (page_once pager k) f = f.
Proof. intros H. induction n as [|n IH]; [done|]. rewrite Nat.iter_succ, IH. unfold page_once. by rewrite H. Qed.
Lemma pages_land pager k n f r items cursor guard : f_runs f !! k = Some r -> run_at r = ph_page items cursor guard -> (n + guard = PAGES)%nat -> (0 < n)%nat ->
  lands f (Nat.iter n (page_once pager k) f) r (items ++ (entryNode <$> (read_pages pager n cursor).1)) (nonempty (read_pages pager n cursor).2).
Proof.
  revert f r items cursor guard. induction n as [|n IH]; intros f r items cursor guard Hr Hat Hn H0; [lia|].
  rewrite Nat.iter_succ_r. cbn [read_pages]. destruct (pager cursor) as [es next] eqn:Ep.
  assert (Hone : page_once pager k f = go_on k r (on_page (run_host r) (run_path r) items guard es next) f).
  { unfold page_once, answer. rewrite Hr. destruct r as [d h p a at']. cbn in Hat. subst at'. rewrite Ep. reflexivity. }
  rewrite Hone. unfold on_page.
  destruct (nonempty next) eqn:En; cbn [andb fst snd].
  - destruct (Nat.ltb_spec (S guard) PAGES) as [Hlt|Hge].
    + destruct (read_pages pager n next) as [more rest] eqn:Er. cbn [fst snd].
      specialize (IH (go_on k r (to_wait (ph_page (items ++ (entryNode <$> es)) next (S guard)) (files_list (run_host r) (run_path r) next)) f)
        (at_phase (ph_page (items ++ (entryNode <$> es)) next (S guard)) r) _ _ _ (lookup_insert_eq _ _ _) eq_refl ltac:(lia) ltac:(lia)).
      rewrite Er in IH. cbn [fst snd] in IH. rewrite fmap_app, (assoc_L (++)). exact IH.
    + assert (n = 0)%nat as -> by lia. cbn [read_pages fst snd Nat.iter nat_rect]. rewrite En, app_nil_r. apply end_lands.
  - rewrite En, page_once_gone by (cbn; apply lookup_delete_eq). apply end_lands.
Qed.
(** A folder of a server that is read page by page: not its list of places. *)
Definition paged (f : Folders) (host p : jstr) : Prop :=
  first_next f host p = first_page host p.
Lemma paged_same f g host p : f_servers g = f_servers f -> f_places g = f_places f -> first_next g host p = first_next f host p.
Proof. unfold first_next, listing_next, places_of. by intros -> ->. Qed.
Lemma dirsOf_spec host p f d g : ids_below f -> norm p = Some p -> dirsOf host f = (d, g) ->
  f_hosts g !! host = Some d /\ f_dirs g = f_dirs f /\ f_servers g = f_servers f /\ f_places g = f_places f /\
  (loading_at host p f = false -> forall rc, f_dirs g !! (d, p) = Some rc -> is_loading rc = false).
Proof.
  intros I Hp. unfold loading_at, cached, dirsOf. rewrite Hp. cbn [mbind option_bind]. destruct (f_hosts f !! host) as [d'|] eqn:Eh; intros [= <- <-].
  - split_and!; try done. cbn. intros Hl rc Hd. by rewrite Hd in Hl.
  - split_and!; try done; [apply lookup_insert_eq|]. intros _ rc Hd. apply (ib_dirs f I) in Hd. cbn in Hd. lia.
Qed.
(** A load of a folder none of whose loads runs waits for its first page. *)
Lemma start_paged d host p old f : first_next f host p = first_page host p ->
  exists k g r, start_load d host p old f = (g_run k, g) /\ f_runs g !! k = Some r /\ run_at r = ph_page [] [] 0 /\ run_key r = (d, p) /\ f_hosts g = f_hosts f.
Proof.
  intros Hf. unfold start_load. destruct (match old with Some _ => _ | None => _ end) as [a f1] eqn:E.
  assert (f_servers f1 = f_servers f /\ f_places f1 = f_places f /\ f_hosts f1 = f_hosts f) as (H1 & H2 & H3) by (destruct old; injection E as <- <-; done).
  eexists _, _, _. split; [reflexivity|]. rewrite (paged_same f) by done. rewrite Hf. cbn. split_and!; [apply lookup_insert_eq | done | done | done].
Qed.
(** A refresh of a folder read page by page, with no load of it running: after the agent's
    answers to its calls, 60 at most, the folder is loaded with exactly the entries of the pages
    in their order, and [more] says whether the agent had a further page.  The agent is any, and
    so is what the window did before. *)
Theorem load_reads_folder pager es host p : let f := run_folders es in
  norm p = Some p -> paged f host p -> loading_at host p f = false ->
  exists k g, refresh host p f = Some (g_run k, g) /\
    let h := Nat.iter PAGES (page_once pager k) g in
    exists rc, cached host p h = Some (Some rc) /\ r_state rc = r_loaded /\
      rows_of h (r_items rc) = entryNode <$> (read_pages pager PAGES []).1 /\ r_more rc = nonempty (read_pages pager PAGES []).2.
Proof.
  intros f Hp Hpg Hl. unfold refresh, load. rewrite Hp. cbn [mbind option_bind]. destruct (dirsOf host f) as [d f1] eqn:Ed.
  destruct (sound_run true es f_init (sound_init true)) as [L _]; [done|].
  destruct (dirsOf_spec host p f d f1 (li_ids f L) Hp Ed) as (Hh & _ & Hs & Hpl & Hlo). specialize (Hlo Hl).
  destruct (start_paged d host p (f_dirs f1 !! (d, p)) f1) as (k & g & r & Hst & Hr & Hat & Hk & Hg); [by rewrite (paged_same f)|].
  exists k, g. split.
  - destruct (f_dirs f1 !! (d, p)) as [[a st q m]|] eqn:Eo; [|by rewrite Hst]. specialize (Hlo _ eq_refl). destruct st; [discriminate Hlo | by rewrite Hst..].
  - destruct (pages_land pager k PAGES g r [] [] 0 Hr Hat) as (a & H1 & H2 & H3); [done | unfold PAGES; lia |].
    eexists. unfold cached. rewrite Hp, H3, Hg, Hh. cbn [mbind option_bind]. rewrite <- Hk. by rewrite H1.
Qed.

(** ** Removing rows *)

(** The path of a row's folder is not the folder it is in. *)
Definition child_ok (dir : jstr) (n : Node) : bool :=
  negb (n_dir n) || match p ← join_path dir (n_name n); norm p with Some q => negb (bool_decide (norm dir = Some q)) | None => false end.
Lemma find_row_name nm rows x : find_row nm rows = Some x -> n_name x = nm /\ x ∈ rows.
Proof. intros H. apply List.find_some in H as [H1 H2]. split; [by apply bool_decide_eq_true in H2 | by apply list_elem_of_In]. Qed.
Lemma cut_row_subset nm rows x : x ∈ cut_row nm rows -> x ∈ rows.
Proof. induction rows as [|y rows IH]; [done|]. cbn. destruct (has_name nm y); rewrite !elem_of_cons; tauto. Qed.
Lemma drop_child host dir n f rc : child_ok dir n = true -> cached host dir f = Some (Some rc) ->
  exists g, drop_if (n_dir n) host dir (n_name n) f = Some g /\ cached host dir g = Some (Some rc) /\ f_arrays g = f_arrays f /\ f_calls g = f_calls f.
Proof.
  unfold child_ok, drop_if. destruct (n_dir n); [|by exists f]. cbn [negb orb]. destruct (join_path dir (n_name n)) as [p|]; [|done]. cbn [mbind option_bind].
  unfold drop_dir, cached. destruct (norm p) as [q|]; [|done]. intros Hq. apply negb_true_iff, bool_decide_eq_false in Hq.
  destruct (norm dir) as [d|]; [|done]. cbn [mbind option_bind]. intros Hc. eexists. split; [reflexivity|].
  destruct (f_hosts f !! host) as [h|] eqn:Eh; [|by rewrite Eh]. cbn. rewrite Eh. cbn. split; [|done]. rewrite lookup_delete_ne; [done|]. congruence.
Qed.
(** One removal the core confirms: the row leaves the folder, and the next is asked for. *)
Lemma removal_done k host dir rc it names removed f : cached host dir f = Some (Some rc) -> child_ok dir it = true -> find_row (n_name it) (rows_of f (r_items rc)) = Some it ->
  f_ops f !! k = Some (op_remove host dir (r_items rc) it names removed) ->
  exists g, op_answer k oa_done f = remove_on k host dir (r_items rc) names (removed ++ [Some it]) g /\
    cached host dir g = Some (Some rc) /\ rows_of g (r_items rc) = cut_row (n_name it) (rows_of f (r_items rc)) /\ f_calls g = f_calls f.
Proof.
  intros Hc Hk Hf Ho. unfold op_answer. rewrite Ho. cbn [op_next]. unfold takeOut. rewrite Hc. cbn [mbind option_bind take_rows]. rewrite Hf. cbn [take_rows snd fst].
  set (f1 := set_rows _ _ f). destruct (drop_child host dir it f1 rc Hk) as (g & -> & H1 & H2 & H3); [exact Hc|].
  exists g. split_and!; [done | done | | done]. unfold rows_of. rewrite H2. cbn. by rewrite lookup_insert_eq.
Qed.
Lemma removed_stays k out n f : f_ops f !! k = Some (op_removed out) -> Nat.iter n (op_answer k oa_done) f = f.
Proof. intros H. induction n as [|n IH]; [done|]. rewrite Nat.iter_succ, IH. unfold op_answer. rewrite H. reflexivity. Qed.
Lemma remove_runs k host dir rc names : forall f removed rows, cached host dir f = Some (Some rc) -> rows_of f (r_items rc) = rows -> Forall (fun n => child_ok dir n = true) rows ->
  let g := Nat.iter (length names) (op_answer k oa_done) (remove_on k host dir (r_items rc) names removed f) in
  f_ops g !! k = Some (op_removed (removed ++ (Some <$> (take_rows names rows).1))) /\ rows_of g (r_items rc) = (take_rows names rows).2 /\
  cached host dir g = Some (Some rc) /\ f_calls g = f_calls f ++ ((fun n => trash_item host (n_path n)) <$> (take_rows names rows).1).
Proof.
  induction names as [|nm names IH]; intros f removed rows Hc Hr Hch; cbv zeta; cbn [take_rows].
  - cbn. rewrite lookup_insert_eq, !app_nil_r. done.
  - destruct (find_row nm rows) as [it|] eqn:Ef.
    + destruct (find_row_name nm rows it Ef) as [Hn Hin]. cbn [length]. rewrite Nat.iter_succ_r.
      assert (Hon : remove_on k host dir (r_items rc) (nm :: names) removed f = tell (trash_item host (n_path it)) (set_op k (op_remove host dir (r_items rc) it names removed) f)).
      { unfold remove_on. cbn [next_removal]. by rewrite Hr, Ef. }
      rewrite Hon.
      destruct (removal_done k host dir rc it names removed (tell (trash_item host (n_path it)) (set_op k (op_remove host dir (r_items rc) it names removed) f)))
        as (g & Hop & Hc' & Hr' & Hcalls); [exact Hc | by rewrite Forall_forall in Hch; apply Hch | change (find_row (n_name it) (rows_of f (r_items rc)) = Some it); by rewrite Hn, Hr | apply lookup_insert_eq |].
      rewrite Hop. change (rows_of _ (r_items rc)) with (rows_of f (r_items rc)) in Hr' at 2. rewrite Hn, Hr in Hr'.
      destruct (IH g (removed ++ [Some it]) (cut_row nm rows) Hc' Hr') as (A1 & A2 & A3 & A4).
      { rewrite Forall_forall in *. intros x Hx. apply Hch. by apply cut_row_subset in Hx. }
      destruct (take_rows names (cut_row nm rows)) as [out kept]. cbn [fst snd] in *. cbn [fmap list_fmap]. rewrite A1, A4, Hcalls. cbn. rewrite <- !(assoc_L (++)). done.
    + cbn [length]. destruct (IH f removed rows Hc Hr Hch) as (A1 & A2 & A3 & A4).
      assert (Hsame : remove_on k host dir (r_items rc) (nm :: names) removed f = remove_on k host dir (r_items rc) names removed f).
      { unfold remove_on. cbn [next_removal]. by rewrite Hr, Ef. }
      rewrite Hsame, Nat.iter_succ.
      pose proof (removed_stays k _ 1 _ A1) as Hst. cbn [Nat.iter nat_rect] in Hst. rewrite Hst. done.
Qed.
Lemma cut_filter nm rows : NoDup (n_name <$> rows) -> cut_row nm rows = filter (fun n => n_name n ∉ [nm]) rows.
Proof.
  induction rows as [|x rows IH]; [done|]. cbn [fmap list_fmap cut_row]. intros [Hx Hnd]%NoDup_cons. unfold has_name. destruct (bool_decide_reflect (n_name x = nm)) as [<-|Hne].
  - rewrite filter_cons_False by (intros H; apply H, list_elem_of_singleton; done). symmetry. clear IH Hnd.
    induction rows as [|y rows IH]; [done|]. cbn in Hx. apply not_elem_of_cons in Hx as [H1 H2]. rewrite filter_cons_True, IH; [done | done |].
    intros H%list_elem_of_singleton. congruence.
  - rewrite filter_cons_True by (by intros H%list_elem_of_singleton). by rewrite IH.
Qed.
Lemma find_row_cons nm x rows : find_row nm (x :: rows) = if bool_decide (n_name x = nm) then Some x else find_row nm rows.
Proof. done. Qed.
Lemma find_cut nm nm' rows : nm' <> nm -> find_row nm' (cut_row nm rows) = find_row nm' rows.
Proof.
  intros Hne. induction rows as [|x rows IH]; [done|]. cbn [cut_row]. unfold has_name. destruct (bool_decide_reflect (n_name x = nm)) as [Hx|Hx].
  - by rewrite find_row_cons, bool_decide_false by congruence.
  - by rewrite !find_row_cons, IH.
Qed.
Lemma find_none nm rows : find_row nm rows = None -> filter (fun n => n_name n ∉ [nm]) rows = rows.
Proof.
  intros H. induction rows as [|x rows IH]; [done|]. rewrite find_row_cons in H. destruct (bool_decide_reflect (n_name x = nm)) as [E|E]; [done|]. rewrite filter_cons_True by (by intros Hx%list_elem_of_singleton). by rewrite IH.
Qed.
Lemma omap_ext_in {A B} (f g : A -> option B) (l : list A) : (forall x, x ∈ l -> f x = g x) -> omap f l = omap g l.
Proof. induction l as [|x l IH]; intros H; [done|]. cbn. rewrite (H x), IH; [done | intros y Hy; apply H; by right | by left]. Qed.
Lemma take_rows_spec names rows : NoDup names -> NoDup (n_name <$> rows) ->
  take_rows names rows = (omap (fun nm => find_row nm rows) names, filter (fun n => n_name n ∉ names) rows).
Proof.
  revert rows. induction names as [|nm names IH]; intros rows Hn Hr; cbn [take_rows omap list_omap].
  - f_equal. symmetry. induction rows as [|x rows IHr]; [done|]. rewrite filter_cons_True by apply not_elem_of_nil. f_equal. apply IHr. by destruct (proj1 (NoDup_cons _ _) Hr).
  - apply NoDup_cons in Hn as [Hnm Hn].
    assert (Hf : filter (fun n => n_name n ∉ nm :: names) rows = filter (fun n => n_name n ∉ names) (filter (fun n => n_name n ∉ [nm]) rows)).
    { rewrite list_filter_filter. apply list_filter_iff. intros x. rewrite not_elem_of_cons, list_elem_of_singleton. tauto. }
    rewrite Hf. destruct (find_row nm rows) as [it|] eqn:Ef.
    + rewrite IH; [|done|].
      * f_equal; [|by rewrite cut_filter]. f_equal. apply omap_ext_in. intros x Hx. apply find_cut. congruence.
      * rewrite cut_filter by done. apply (sublist_NoDup _ _ Hr), fmap_sublist, sublist_filter.
    + rewrite IH by done. f_equal. by rewrite find_none.
Qed.
(** Removing names of a loaded folder, the core confirming each and nothing else happening: each
    name the folder has is asked for once, in order, by its row's path; its row leaves the
    folder, the others stay as they were, and exactly the rows removed are given back. *)
Theorem remove_takes_out host dir names f rc : cached host dir f = Some (Some rc) -> r_state rc = r_loaded ->
  NoDup names -> NoDup (n_name <$> rows_of f (r_items rc)) -> Forall (fun n => child_ok dir n = true) (rows_of f (r_items rc)) ->
  exists g, remove host dir names f = Some g /\
    let out := omap (fun nm => find_row nm (rows_of f (r_items rc))) names in
    let h := Nat.iter (length names) (op_answer (f_next f) oa_done) g in
    f_ops h !! f_next f = Some (op_removed (Some <$> out)) /\
    cached host dir h = Some (Some rc) /\ rows_of h (r_items rc) = filter (fun n => n_name n ∉ names) (rows_of f (r_items rc)) /\
    f_calls h = f_calls f ++ ((fun n => trash_item host (n_path n)) <$> out).
Proof.
  intros Hc Hst Hn Hr Hch. unfold remove, list_rows. rewrite Hc. cbn [mbind option_bind]. destruct rc as [a st q m]. cbn in Hst. subst st. cbn [mbind option_bind fst snd].
  eexists. split; [reflexivity|]. cbv zeta. cbn [r_items] in *.
  destruct (remove_runs (f_next f) host dir {| r_items := a; r_state := r_loaded; r_p := q; r_more := m |} names (fresh f) [] (rows_of f a) Hc eq_refl Hch) as (A1 & A2 & A3 & A4).
  cbn [r_items app] in *. rewrite (take_rows_spec names (rows_of f a) Hn Hr) in A1, A2, A4. cbn [fst snd] in *. done.
Qed.

(** ** Answers that come late *)

Definition an_entry (name : string) : DEntry :=
  {| de_name := js name; de_isDir := false; de_size := 1; de_modified := 0; de_mode := []; de_path := js "/srv/" ++ js name; de_childCount := None |}.
Definition pc : jstr := js "pc".
Definition srv : jstr := js "/srv".
Definition shown (host path : jstr) (f : Folders) : list jstr := match cached host path f with Some (Some rc) => n_name <$> rows_of f (r_items rc) | _ => [] end.
(** Opening a folder again drops its record and starts a second load beside the first ([Pane.go]);
    when the first answer comes last, the folder shows the older listing, as loaded. *)
Theorem older_listing_lands_last :
  let f := run_folders [ev_server pc; ev_load pc srv false; ev_drop pc srv; ev_load pc srv false] in
  (fst <$> map_to_list (f_runs f)) = [5%nat; 3%nat] /\
  let g := fold_left folder_step [ev_answer 5 (an_page [an_entry "new"] []); ev_answer 3 (an_page [an_entry "old"] [])] f in
  shown pc srv g = [js "old"] /\ loading_at pc srv g = false /\ f_runs g = ∅.
Proof. vm_compute. split_and!; reflexivity. Qed.
(** A refresh after a change joins a load that was asked before it: a file made while its folder
    loads is not in the folder when [mkfile] is done, and nothing reads the folder again. *)
Theorem refresh_joins_older_load :
  let f := run_folders [ev_server pc; ev_load pc srv false; ev_mkfile pc srv (js "new"); ev_op 4 oa_done; ev_answer 3 (an_page [an_entry "old"] [])] in
  f_calls f = [files_list pc srv []; create_file pc srv (js "new")] /\ shown pc srv f = [js "old"] /\ f_runs f = ∅ /\ f_ops f = ∅.
Proof. vm_compute. split_and!; reflexivity. Qed.
(** A folder read again while a removal waits: the row is gone when the core confirms, [remove]
    gives back [undefined] for it, and the Undo of the window throws before it restores. *)
Theorem removal_loses_row bin :
  let f := run_folders [ev_server pc; ev_load pc srv false; ev_answer 3 (an_page [an_entry "a"] []); ev_remove pc srv [js "a"];
                        ev_load pc srv true; ev_answer 6 (an_page [] []); ev_op 5 oa_done] in
  f_ops f !! 5%nat = Some (op_removed [None]) /\
  let g := fold_left folder_step [ev_restore pc srv [None]; ev_op (f_next f) (oa_bin bin)] f in
  f_calls g = f_calls f ++ [trash_items pc] /\ f_ops g = f_ops f.
Proof. vm_compute. split_and!; reflexivity. Qed.
End Operations.

(** ** Witnesses *)

Definition byte_order (a b : jstr) : Z := if bool_decide (a = b) then 0 else 1.
(** An agent whose cursor never ends. *)
Definition endless (r : Run) : Answer :=
  match run_at r with ph_places => an_places [] | ph_roots _ => an_failed [] | _ => an_page [an_entry "again"] (js "c") end.
Definition two_folders : list FEvent := [ev_server pc; ev_load pc srv false; ev_load LOCAL root_path false; ev_load pc srv true].
Lemma folder_loads_end_witness :
  size (f_runs (run_folders byte_order two_folders)) = 2%nat /\ f_runs (Nat.iter 61 (serve endless) (run_folders byte_order two_folders)) = ∅.
Proof.
  split; [vm_compute; reflexivity|]. refine (proj1 (folder_loads_end byte_order endless two_folders _)).
  intros r. unfold endless. destruct (run_at r); reflexivity.
Defined.
Lemma folder_loads_in_order_witness : all_spare byte_order f_init two_folders = true /\
  forall k1 k2 r1 r2, f_runs (run_folders byte_order two_folders) !! k1 = Some r1 -> f_runs (run_folders byte_order two_folders) !! k2 = Some r2 -> run_key r1 = run_key r2 -> k1 = k2.
Proof.
  split; [vm_compute; reflexivity|]. refine (proj2 (folder_loads_in_order byte_order two_folders _)). vm_compute; reflexivity.
Defined.
Definition two_pages : Pager := fun c => match c with [] => ([an_entry "a"], js "c") | _ => ([an_entry "b"], []) end.
Lemma load_reads_folder_witness : exists k g, refresh pc srv (run_folders byte_order [ev_server pc]) = Some (g_run k, g) /\
  exists rc, cached pc srv (Nat.iter PAGES (page_once two_pages k) g) = Some (Some rc) /\
    rows_of (Nat.iter PAGES (page_once two_pages k) g) (r_items rc) = [entryNode (an_entry "a"); entryNode (an_entry "b")] /\ r_more rc = false.
Proof.
  destruct (load_reads_folder byte_order two_pages [ev_server pc] pc srv) as (k & g & H1 & rc & H2 & _ & H3 & H4); [vm_compute; reflexivity..|].
  exists k, g. split; [exact H1|]. exists rc. split; [exact H2|]. split; [exact H3 | exact H4].
Defined.
Definition loaded_three : Folders :=
  run_folders byte_order [ev_server pc; ev_load pc srv false; ev_answer 3 (an_page [an_entry "a"; an_entry "b"; an_entry "c"] [])].
Lemma remove_takes_out_witness : exists g, remove pc srv [js "c"; js "x"; js "a"] loaded_three = Some g /\
  f_ops (Nat.iter 3 (op_answer byte_order (f_next loaded_three) oa_done) g) !! f_next loaded_three = Some (op_removed [Some (entryNode (an_entry "c")); Some (entryNode (an_entry "a"))]).
Proof.
  destruct (cached pc srv loaded_three) as [[rc|]|] eqn:E; [|vm_compute in E; discriminate E..].
  destruct (remove_takes_out byte_order pc srv [js "c"; js "x"; js "a"] loaded_three rc E) as (g & H1 & H2 & _).
  - vm_compute in E. injection E as <-. reflexivity.
  - apply NoDup_ListNoDup. vm_compute. repeat constructor; cbn; intuition discriminate.
  - vm_compute in E. injection E as <-. apply NoDup_ListNoDup. vm_compute. repeat constructor; cbn; intuition discriminate.
  - vm_compute in E. injection E as <-. vm_compute. repeat constructor.
  - exists g. split; [exact H1|]. vm_compute in E. injection E as <-. exact H2.
Defined.
