(* ===== verification/BinScreens.v ===== *)
(** * The duplicate finder and the trash on screen

    [app/dups.tsx] and [app/trash.tsx] of the phone, cut at their [await]s: a press or an answer
    is an event, and what a handler captured when it started waits in a task. *)

From Stdlib Require Import ZArith Lia Bool String.
From Stdlib Require List.
From S2P Require Import Prelude JsCollections JsString Json Errors Models ExplorerLogic DupFinder.
Local Open Scope js_scope.

(** ** Duplicates ([app/dups.tsx]) *)

Local Notation Sizes := (list (jstr * Z)).
Local Notation Hashes := (list (jstr * jstr)).
Inductive Phase := ph_idle | ph_scanning | ph_done.
(** A handler that waits, with the [result] and [toDelete] of the render it was pressed in. *)
Inductive DTask :=
| dt_scan
| dt_confirm (groups : list DupGroup) (sizes : Sizes) (toDelete : list jstr)
| dt_delete (groups : list DupGroup) (sizes : Sizes) (deleted : list jstr).
(** [pg_sent] are the deletions asked of the computer, [pg_told] those the person was told of with
    the bytes freed; [pg_scan] is what the scan on screen walked and hashed. *)
Record Page := {
  pg_phase : Phase; pg_error : option jstr; pg_result : option (list DupGroup * Sizes); pg_toDelete : list jstr; pg_deleting : bool; pg_alive : bool;
  pg_tasks : list DTask; pg_sent : list (list jstr); pg_told : list (nat * Z); pg_scan : option (Hashes * list jstr) }.
Definition page_open : Page :=
  {| pg_phase := ph_idle; pg_error := None; pg_result := None; pg_toDelete := []; pg_deleting := false; pg_alive := true; pg_tasks := []; pg_sent := []; pg_told := []; pg_scan := None |}.
Definition set_tasks (ts : list DTask) (p : Page) : Page :=
  {| pg_phase := pg_phase p; pg_error := pg_error p; pg_result := pg_result p; pg_toDelete := pg_toDelete p; pg_deleting := pg_deleting p; pg_alive := pg_alive p;
     pg_tasks := ts; pg_sent := pg_sent p; pg_told := pg_told p; pg_scan := pg_scan p |}.
Definition wait_for (t : DTask) (p : Page) : Page := set_tasks (pg_tasks p ++ [t]) p.
(** The scan button is there in the idle phase only. *)
Definition scan (p : Page) : Page :=
  match pg_phase p with
  | ph_idle => wait_for dt_scan
      {| pg_phase := ph_scanning; pg_error := None; pg_result := pg_result p; pg_toDelete := pg_toDelete p; pg_deleting := pg_deleting p; pg_alive := pg_alive p;
         pg_tasks := pg_tasks p; pg_sent := pg_sent p; pg_told := pg_told p; pg_scan := pg_scan p |}
  | _ => p
  end.
Definition scan_ok (hashes : Hashes) (sizes : Sizes) (order : list jstr) (p : Page) : Page :=
  if pg_alive p then
    let groups := groupDuplicates hashes sizes order in
    {| pg_phase := ph_done; pg_error := pg_error p; pg_result := Some (groups, sizes); pg_toDelete := defaultDeletions groups; pg_deleting := pg_deleting p; pg_alive := pg_alive p;
       pg_tasks := pg_tasks p; pg_sent := pg_sent p; pg_told := pg_told p; pg_scan := Some (hashes, order) |}
  else p.
Definition scan_failed (e : jstr) (p : Page) : Page :=
  if pg_alive p then
    {| pg_phase := ph_idle; pg_error := Some e; pg_result := pg_result p; pg_toDelete := pg_toDelete p; pg_deleting := pg_deleting p; pg_alive := pg_alive p;
       pg_tasks := pg_tasks p; pg_sent := pg_sent p; pg_told := pg_told p; pg_scan := pg_scan p |}
  else p.
(** [deleteSelected] up to its question; the button is on the page of results. *)
Definition deleteSelected (p : Page) : Page :=
  match pg_phase p, pg_result p, pg_toDelete p, pg_deleting p with
  | ph_done, Some (groups, sizes), _ :: _, false => wait_for (dt_confirm groups sizes (pg_toDelete p)) p
  | _, _, _, _ => p
  end.
Definition set_deleting (b : bool) (p : Page) : Page :=
  {| pg_phase := pg_phase p; pg_error := pg_error p; pg_result := pg_result p; pg_toDelete := pg_toDelete p; pg_deleting := b; pg_alive := pg_alive p;
     pg_tasks := pg_tasks p; pg_sent := pg_sent p; pg_told := pg_told p; pg_scan := pg_scan p |}.
Definition confirmed (groups : list DupGroup) (sizes : Sizes) (marked : list jstr) (yes : bool) (p : Page) : Page :=
  if yes then
    let p := wait_for (dt_delete groups sizes marked) (set_deleting true p) in
    {| pg_phase := pg_phase p; pg_error := pg_error p; pg_result := pg_result p; pg_toDelete := pg_toDelete p; pg_deleting := pg_deleting p; pg_alive := pg_alive p;
       pg_tasks := pg_tasks p; pg_sent := pg_sent p ++ [marked]; pg_told := pg_told p; pg_scan := pg_scan p |}
  else p.
Definition freed_bytes (sizes : Sizes) (deleted : list jstr) : Z := fold_left (fun n q => n + default 0 (map_get q sizes)) deleted 0.
(** The computer answered the deletion: what it answered of each file is not looked at. *)
Definition deleted_ok (groups : list DupGroup) (sizes : Sizes) (deleted : list jstr) (res : BatchResult) (p : Page) : Page :=
  if pg_alive p then
    {| pg_phase := pg_phase p; pg_error := pg_error p; pg_result := Some (withoutPaths groups deleted, sizes); pg_toDelete := []; pg_deleting := false; pg_alive := pg_alive p;
       pg_tasks := pg_tasks p; pg_sent := pg_sent p; pg_told := pg_told p ++ [(length deleted, freed_bytes sizes deleted)]; pg_scan := pg_scan p |}
  else p.
Definition delete_failed (p : Page) : Page := if pg_alive p then set_deleting false p else p.
(** A tap on the row [i] of the group [g]; the first row of a group is not a button. *)
Definition toggle (g i : nat) (p : Page) : Page :=
  match pg_phase p, pg_result p with
  | ph_done, Some (groups, _) =>
      match groups !! g ≫= fun gr => dup_paths gr !! i with
      | Some path =>
          if (i =? 0)%nat then p
          else {| pg_phase := pg_phase p; pg_error := pg_error p; pg_result := pg_result p;
                  pg_toDelete := if set_has path (pg_toDelete p) then set_delete path (pg_toDelete p) else set_add path (pg_toDelete p);
                  pg_deleting := pg_deleting p; pg_alive := pg_alive p;
                  pg_tasks := pg_tasks p; pg_sent := pg_sent p; pg_told := pg_told p; pg_scan := pg_scan p |}
      | None => p
      end
  | _, _ => p
  end.
Definition leave (p : Page) : Page :=
  {| pg_phase := pg_phase p; pg_error := pg_error p; pg_result := pg_result p; pg_toDelete := pg_toDelete p; pg_deleting := pg_deleting p; pg_alive := false;
     pg_tasks := pg_tasks p; pg_sent := pg_sent p; pg_told := pg_told p; pg_scan := pg_scan p |}.
Inductive DAnswer := da_scanned (hashes : Hashes) (sizes : Sizes) (order : list jstr) | da_confirm (yes : bool) | da_deleted (res : BatchResult) | da_failed (e : jstr).
Inductive DEvent := d_scan | d_delete | d_toggle (g i : nat) | d_leave | d_answer (k : nat) (a : DAnswer).
Definition dups_answer (t : DTask) (a : DAnswer) (p : Page) : option Page :=
  match t, a with
  | dt_scan, da_scanned hashes sizes order => Some (scan_ok hashes sizes order p)
  | dt_scan, da_failed e => Some (scan_failed e p)
  | dt_confirm groups sizes marked, da_confirm yes => Some (confirmed groups sizes marked yes p)
  | dt_delete groups sizes deleted, da_deleted res => Some (deleted_ok groups sizes deleted res p)
  | dt_delete _ _ _, da_failed _ => Some (delete_failed p)
  | _, _ => None
  end.
Definition dups_step (p : Page) (e : DEvent) : Page :=
  match e with
  | d_scan => scan p
  | d_delete => deleteSelected p
  | d_toggle g i => toggle g i p
  | d_leave => leave p
  | d_answer k a => match pg_tasks p !! k with Some t => default p (dups_answer t a (set_tasks (delete k (pg_tasks p)) p)) | None => p end
  end.
Definition run_dups (es : list DEvent) : Page := fold_left dups_step es page_open.

(** *** No content is lost *)

(** Groups of a scan: the first path of each is kept, the others are marked by default. *)
Definition group_ok (marked : list jstr) (g : DupGroup) : Prop := exists h rest, dup_paths g = h :: rest /\ h ∉ marked /\ Forall (fun q => q ∈ marked) rest.
Definition marks (marked l : list jstr) : Prop := Forall (fun q => q ∈ marked) l.
Definition task_ok (marked : list jstr) (t : DTask) : Prop :=
  match t with dt_scan => False | dt_confirm groups _ l | dt_delete groups _ l => Forall (group_ok marked) groups /\ marks marked l end.
Record page_ok (p : Page) (hashes : Hashes) (order marked : list jstr) : Prop := {
  po_phase : pg_phase p = ph_done;
  po_marked : exists sizes, marked = defaultDeletions (groupDuplicates hashes sizes order);
  po_result : exists groups sizes, pg_result p = Some (groups, sizes) /\ Forall (group_ok marked) groups;
  po_toDelete : marks marked (pg_toDelete p);
  po_tasks : Forall (task_ok marked) (pg_tasks p);
  po_sent : Forall (marks marked) (pg_sent p) }.
(** Before a scan is shown nothing was deleted, and only the scan can be waited for. *)
Definition before (p : Page) : Prop :=
  pg_result p = None /\ pg_sent p = [] /\ pg_phase p <> ph_done /\ Forall (eq dt_scan) (pg_tasks p) /\
  (pg_phase p = ph_idle -> pg_tasks p = []) /\ (length (pg_tasks p) <= 1)%nat.
Definition distinct_scan (e : DEvent) : Prop := match e with d_answer _ (da_scanned _ _ order) => NoDup order | _ => True end.
Definition dups_inv (p : Page) : Prop :=
  match pg_scan p with
  | None => before p
  | Some (hashes, order) => NoDup order /\ exists marked, page_ok p hashes order marked
  end.
Lemma tail_unmarked hashes sizes order g : NoDup order -> g ∈ groupDuplicates hashes sizes order -> group_ok (defaultDeletions (groupDuplicates hashes sizes order)) g.
Proof.
  intros Hnd Hg. pose proof (proj1 (elem_groups hashes sizes order g) Hg) as [Ep Hl]. destruct (dup_paths g) as [|h rest] eqn:E; [cbn in Hl; lia|].
  exists h, rest. split; [done|]. split.
  - intros (g' & Hg' & Hin)%elem_deletions. apply elem_groups in Hg' as [Ep' _].
    assert (Hh : h ∈ List.filter (hashed hashes (dup_hash g)) order) by (rewrite <- Ep; left).
    assert (Hh' : h ∈ List.filter (hashed hashes (dup_hash g')) order).
    { rewrite <- Ep'. destruct (dup_paths g'); [by apply elem_of_nil in Hin | by right]. }
    apply elem_filter_bool in Hh as [_ Hh]. apply elem_filter_bool in Hh' as [_ Hh']. unfold hashed in *. apply bool_decide_eq_true in Hh, Hh'.
    assert (dup_hash g' = dup_hash g) as Eh by congruence. rewrite Ep', Eh, <- Ep in Hin. cbn in Hin.
    assert (NoDup (h :: rest)) as Hn by (rewrite Ep; by apply NoDup_filter_bool). by apply NoDup_cons in Hn as [? _].
  - apply Forall_forall. intros q Hq. apply elem_deletions. exists g. split; [done|]. by rewrite E.
Qed.
Lemma without_ok marked deleted groups : marks marked deleted -> Forall (group_ok marked) groups -> Forall (group_ok marked) (withoutPaths groups deleted).
Proof.
  intros Hd Hg. rewrite Forall_forall in Hg |- *. intros g [Hin _]%elem_filter_bool. apply list_elem_of_fmap in Hin as (g0 & -> & Hg0).
  destruct (Hg g0 Hg0) as (h & rest & E & Hh & Hr). cbn. rewrite E. cbn [List.filter].
  assert (set_has h deleted = false) as ->.
  { apply set_has_false. intros Hin. apply Hh. unfold marks in Hd. rewrite Forall_forall in Hd. by apply Hd. }
  cbn. eexists _, _. split; [reflexivity|]. split; [done|]. rewrite Forall_forall in Hr |- *. intros q [Hq _]%elem_filter_bool. by apply Hr.
Qed.
Lemma deletions_marks groups : marks (defaultDeletions groups) (defaultDeletions groups).
Proof. unfold marks. by apply Forall_forall. Qed.
Lemma page_scan_ok hashes sizes order p : NoDup order -> before p -> pg_tasks p = [] -> pg_alive p = true -> dups_inv (scan_ok hashes sizes order p).
Proof.
  intros Hnd (H1 & H2 & H3 & H4 & H5 & H6) Ht Ha. unfold scan_ok. rewrite Ha. cbn. split; [done|]. eexists. split; cbn; [done | by eexists | | apply deletions_marks | by rewrite Ht | by rewrite H2].
  eexists _, _. split; [reflexivity|]. apply Forall_forall. intros g Hg. by apply tail_unmarked.
Qed.
Lemma page_set_tasks p hashes order marked ts : page_ok p hashes order marked -> Forall (task_ok marked) ts -> page_ok (set_tasks ts p) hashes order marked.
Proof. intros [H1 H2 H3 H4 H5 H6] Ht. by split. Qed.
Lemma page_toggle g i p hashes order marked : page_ok p hashes order marked -> page_ok (toggle g i p) hashes order marked.
Proof.
  intros H. pose proof H as [H1 H2 (groups & sizes & Hr & Hg) H4 H5 H6]. unfold toggle. rewrite H1, Hr.
  destruct (groups !! g) as [gr|] eqn:Eg; [|done]. cbn. destruct (dup_paths gr !! i) as [path|] eqn:Ei; [|done]. destruct (Nat.eqb_spec i 0) as [|Hi]; [done|].
  split; cbn; try done; [by exists groups, sizes|]. rewrite Forall_forall in Hg. destruct (Hg gr (list_elem_of_lookup_2 _ _ _ Eg)) as (h & rest & E & _ & Hrest).
  unfold marks in *. rewrite Forall_forall in H4, Hrest |- *. destruct (set_has path (pg_toDelete p)).
  - intros q Hq. apply elem_set_delete in Hq as [_ Hq]. by apply H4.
  - intros q [-> |Hq]%elem_set_add; [|by apply H4]. apply Hrest. rewrite E in Ei. destruct i; [done|]. by apply (list_elem_of_lookup_2 rest i path).
Qed.
Lemma page_answer t a p hashes order marked q : page_ok p hashes order marked -> task_ok marked t -> dups_answer t a p = Some q ->
  page_ok q hashes order marked /\ pg_scan q = pg_scan p.
Proof.
  intros H Ht E. pose proof H as [H1 H2 H3 H4 H5 H6]. destruct t as [|groups sizes l|groups sizes l]; [done| |]; destruct Ht as [Hg Hl]; destruct a; try discriminate; injection E as <-.
  - unfold confirmed. destruct yes; [|done]. split; [|done]. split; cbn; try done; apply Forall_app; split; try done; by apply Forall_singleton.
  - unfold deleted_ok. destruct (pg_alive p); [|done]. split; [|done]. split; cbn; try done; [|by apply Forall_nil].
    eexists _, _. split; [reflexivity | by apply without_ok].
  - unfold delete_failed. destruct (pg_alive p); [|done]. split; [|done]. by split.
Qed.
Lemma before_answer k a t p : before p -> distinct_scan (d_answer k a) -> pg_scan p = None -> pg_tasks p !! k = Some t ->
  dups_inv (default p (dups_answer t a (set_tasks (delete k (pg_tasks p)) p))).
Proof.
  intros Hb Hd Hs Hk. pose proof Hb as (H1 & H2 & H3 & H4 & H5 & H6).
  assert (t = dt_scan) as -> by (symmetry; by eapply Forall_lookup_1).
  assert (delete k (pg_tasks p) = []) as Et.
  { destruct (pg_tasks p) as [|x [|y ts]]; [done | | cbn in H6; lia]. by destruct k. }
  rewrite Et. set (p' := set_tasks [] p). assert (Hb' : before p') by (split_and!; cbn; auto; apply Forall_nil_2).
  assert (Hi : dups_inv p) by (unfold dups_inv; by rewrite Hs). assert (Hi' : dups_inv p') by (unfold dups_inv; cbn; by rewrite Hs).
  destruct a; cbn [dups_answer default from_option id]; try done.
  - destruct (pg_alive p') eqn:Ea; [by apply page_scan_ok|]. unfold scan_ok. by rewrite Ea.
  - unfold scan_failed. destruct (pg_alive p'); [|done]. unfold dups_inv. cbn. rewrite Hs. split_and!; cbn; auto.
Qed.
Lemma inv_dups_step p e : dups_inv p -> distinct_scan e -> dups_inv (dups_step p e).
Proof.
  intros Hi Hd. pose proof Hi as Hp. unfold dups_inv in Hp. destruct (pg_scan p) as [[hashes order]|] eqn:Es.
  - destruct Hp as [Hnd (marked & Hok)]. pose proof Hok as [H1 H2 (groups & sizes & Hr & Hg) H4 H5 H6].
    assert (Hdone : forall q, page_ok q hashes order marked -> pg_scan q = pg_scan p -> dups_inv q) by (intros q Hq Hsq; unfold dups_inv; rewrite Hsq, Es; eauto).
    destruct e as [| |g i| |k a]; cbn [dups_step].
    + unfold scan. by rewrite H1.
    + unfold deleteSelected. rewrite H1, Hr. destruct (pg_toDelete p) eqn:Et; [done|]. destruct (pg_deleting p); [done|]. apply Hdone; [|done].
      apply page_set_tasks; [done|]. apply Forall_app. split; [done|]. apply Forall_singleton. split; done.
    + apply Hdone; [by apply page_toggle|]. unfold toggle. rewrite H1, Hr. by repeat case_match.
    + apply Hdone; [|done]. split; cbn; eauto.
    + destruct (pg_tasks p !! k) as [t|] eqn:Ek; [|done]. destruct (dups_answer t a _) as [q|] eqn:Eq; [|done]. cbn [default from_option id].
      destruct (page_answer t a (set_tasks (delete k (pg_tasks p)) p) hashes order marked q) as [Hq Hsq]; [| |done|by apply Hdone].
      * apply page_set_tasks; [done | by apply Forall_delete].
      * by eapply Forall_lookup_1 in H5.
  - pose proof Hp as (H1 & H2 & H3 & H4 & H5 & H6). destruct e as [| |g i| |k a]; cbn [dups_step].
    + unfold scan. destruct (pg_phase p) eqn:Eph; [|done..]. unfold dups_inv. cbn. rewrite Es. rewrite (H5 eq_refl). split_and!; cbn; auto; try done; by apply Forall_singleton.
    + unfold deleteSelected. rewrite H1. by destruct (pg_phase p).
    + unfold toggle. rewrite H1. by destruct (pg_phase p).
    + unfold dups_inv. cbn. rewrite Es. split_and!; cbn; auto.
    + destruct (pg_tasks p !! k) as [t|] eqn:Ek; [|done]. by apply (before_answer k a t).
Qed.
(** C19 Whatever the person ticks and unticks, however the answers come, and however often the
    page deletes: of every content the scan found, a file stays that no deletion of the page ever
    names.  The scan must not have walked a path twice. *)
Theorem dups_page_keeps_one es hashes order : Forall distinct_scan es -> pg_scan (run_dups es) = Some (hashes, order) ->
  forall p h, p ∈ order -> map_get p hashes = Some h ->
  exists q, q ∈ order /\ map_get q hashes = Some h /\ Forall (fun d => q ∉ d) (pg_sent (run_dups es)).
Proof.
  intros Hd Hs p h Hp Hh. assert (Hi : dups_inv (run_dups es)).
  { unfold run_dups. assert (H0 : dups_inv page_open) by (split_and!; cbn; try done; try lia; apply Forall_nil_2). revert H0. generalize page_open. clear Hs. induction Hd as [|e es He Hd IH]; intros s Hs; [done|]. cbn. apply IH. by apply inv_dups_step. }
  unfold dups_inv in Hi. rewrite Hs in Hi. destruct Hi as [Hnd (marked & [_ [sizes ->] _ _ _ H6])].
  destruct (duplicates_keep_one hashes sizes order Hnd) as (_ & _ & _ & H4 & _). destruct (H4 p h Hp Hh) as (q & Hq & Hqh & Hqm & _).
  exists q. split; [done|]. split; [done|]. rewrite Forall_forall in H6 |- *. intros d Hin Hqd. specialize (H6 d Hin). unfold marks in H6. rewrite Forall_forall in H6. by apply Hqm, H6.
Qed.
(** What the computer answered of each file is not looked at: a copy it refused to delete counts as
    deleted, is told as freed and leaves the list. *)
Theorem refused_deletions_count res :
  let p := run_dups [d_scan; d_answer 0 (da_scanned [(js "/a", js "1"); (js "/b", js "1")] [(js "/b", 7)] [js "/a"; js "/b"]); d_delete; d_answer 0 (da_confirm true); d_answer 0 (da_deleted res)] in
  pg_sent p = [[js "/b"]] /\ pg_told p = [(1%nat, 7)] /\ pg_result p = Some ([], [(js "/b", 7)]).
Proof. vm_compute. split_and!; reflexivity. Qed.
Lemma dups_page_keeps_one_witness :
  let hashes := [(js "/a", js "1"); (js "/b", js "2"); (js "/c", js "1")] in let order := [js "/a"; js "/b"; js "/c"] in
  let es := [d_scan; d_answer 0 (da_scanned hashes [] order); d_toggle 0 0; d_delete; d_answer 0 (da_confirm true)] in
  pg_sent (run_dups es) = [[js "/c"]] /\ exists q, q ∈ order /\ map_get q hashes = Some (js "1") /\ Forall (fun d => q ∉ d) (pg_sent (run_dups es)).
Proof.
  intros hashes order es. split; [vm_compute; reflexivity|].
  apply (dups_page_keeps_one es hashes order) with (p := js "/c").
  - repeat (apply Forall_cons_2; [first [exact I | change (NoDup order); apply (bool_decide_unpack _); vm_compute; exact I]|]). apply Forall_nil_2.
  - vm_compute. reflexivity.
  - apply (bool_decide_unpack _). vm_compute. exact I.
  - vm_compute. reflexivity.
Defined.

(** ** The trash ([app/trash.tsx]) *)

(** What was agreed to and asked of the computer; [None]: everything. *)
Inductive TAct := ta_confirmed (what : option jstr) | ta_emptied (what : option jstr) | ta_restored (id : jstr).
#[global] Instance TAct_eq_dec : EqDecision TAct.
Proof. solve_decision. Defined.
(** [tt_client]: the handler waits for the client before its request. *)
Inductive TTask := tt_fetch (first : bool) | tt_restore_client (item : TrashEntry) | tt_restore (item : TrashEntry) | tt_confirm (what : option TrashEntry) | tt_client (what : option jstr) | tt_empty (what : option jstr).
Inductive TToast := told_restored (name : jstr) (renamed : bool) | told_restore_failed | told_deleted | told_emptied | told_delete_failed | told_empty_failed.
Record TrashPage := { tp_items : option (list TrashEntry); tp_error : option jstr; tp_loading : bool; tp_live : bool; tp_tasks : list TTask; tp_log : list TAct; tp_toasts : list TToast; tp_refreshed : nat }.
(** Opening the page starts the first fetch of its effect. *)
Definition trash_open : TrashPage :=
  {| tp_items := None; tp_error := None; tp_loading := true; tp_live := true; tp_tasks := [tt_fetch true]; tp_log := []; tp_toasts := []; tp_refreshed := 0 |}.
Definition trash_wait (t : TTask) (p : TrashPage) : TrashPage :=
  {| tp_items := tp_items p; tp_error := tp_error p; tp_loading := tp_loading p; tp_live := tp_live p; tp_tasks := tp_tasks p ++ [t]; tp_log := tp_log p; tp_toasts := tp_toasts p; tp_refreshed := tp_refreshed p |}.
Definition trash_note (a : TAct) (p : TrashPage) : TrashPage :=
  {| tp_items := tp_items p; tp_error := tp_error p; tp_loading := tp_loading p; tp_live := tp_live p; tp_tasks := tp_tasks p; tp_log := tp_log p ++ [a]; tp_toasts := tp_toasts p; tp_refreshed := tp_refreshed p |}.
Definition trash_say (t : TToast) (p : TrashPage) : TrashPage :=
  {| tp_items := tp_items p; tp_error := tp_error p; tp_loading := tp_loading p; tp_live := tp_live p; tp_tasks := tp_tasks p; tp_log := tp_log p; tp_toasts := tp_toasts p ++ [t]; tp_refreshed := tp_refreshed p |}.
Definition trash_drop_task (k : nat) (p : TrashPage) : TrashPage :=
  {| tp_items := tp_items p; tp_error := tp_error p; tp_loading := tp_loading p; tp_live := tp_live p; tp_tasks := delete k (tp_tasks p); tp_log := tp_log p; tp_toasts := tp_toasts p; tp_refreshed := tp_refreshed p |}.
Definition refreshFolder (p : TrashPage) : TrashPage :=
  {| tp_items := tp_items p; tp_error := tp_error p; tp_loading := tp_loading p; tp_live := tp_live p; tp_tasks := tp_tasks p; tp_log := tp_log p; tp_toasts := tp_toasts p; tp_refreshed := S (tp_refreshed p) |}.
Definition apply_fetch (r : result jstr (list TrashEntry)) (p : TrashPage) : TrashPage :=
  {| tp_items := match r with Ok l => Some l | Err _ => tp_items p end; tp_error := match r with Ok _ => None | Err e => Some e end; tp_loading := false; tp_live := tp_live p;
     tp_tasks := tp_tasks p; tp_log := tp_log p; tp_toasts := tp_toasts p; tp_refreshed := tp_refreshed p |}.
Definition load_trash (p : TrashPage) : TrashPage := trash_wait (tt_fetch false)
  {| tp_items := tp_items p; tp_error := tp_error p; tp_loading := true; tp_live := tp_live p; tp_tasks := tp_tasks p; tp_log := tp_log p; tp_toasts := tp_toasts p; tp_refreshed := tp_refreshed p |}.
(** The rows are there once a list came, and so is the button that empties them. *)
Definition on_row (id : jstr) (p : TrashPage) : option TrashEntry := l ← tp_items p; List.find (fun i => bool_decide (trash_id i = id)) l.
Definition has_rows (p : TrashPage) : bool := match tp_items p with Some (_ :: _) => true | _ => false end.
Inductive TAnswer := tn_items (l : list TrashEntry) | tn_client | tn_batch (res : BatchResult) | tn_confirm (yes : bool) | tn_done | tn_failed (e : jstr).
Definition is_one (what : option jstr) : bool := match what with Some _ => true | None => false end.
Definition trash_answer (t : TTask) (a : TAnswer) (p : TrashPage) : option TrashPage :=
  match t, a with
  | tt_fetch first, tn_items l => Some (if first && negb (tp_live p) then p else apply_fetch (Ok l) p)
  | tt_fetch first, tn_failed e => Some (if first && negb (tp_live p) then p else apply_fetch (Err e) p)
  | tt_restore_client item, tn_client => Some (trash_wait (tt_restore item) (trash_note (ta_restored (trash_id item)) p))
  | tt_restore item, tn_batch res =>
      Some match restoreOutcome (trash_name item) res with
           | restore_failed _ => trash_say told_restore_failed p
           | restored name renamed => load_trash (trash_say (told_restored name renamed) (refreshFolder p))
           end
  | (tt_restore_client _ | tt_restore _), tn_failed _ => Some (trash_say told_restore_failed p)
  | tt_confirm what, tn_confirm yes =>
      let q := trash_id <$> what in Some (if yes then trash_wait (tt_client q) (trash_note (ta_confirmed q) p) else p)
  | tt_client what, tn_client => Some (trash_wait (tt_empty what) (trash_note (ta_emptied what) p))
  | tt_empty what, tn_done => Some (load_trash (trash_say (if is_one what then told_deleted else told_emptied) p))
  | (tt_client what | tt_empty what), tn_failed _ => Some (trash_say (if is_one what then told_delete_failed else told_empty_failed) p)
  | _, _ => None
  end.
Inductive TEvent := tv_restore (id : jstr) | tv_delete (id : jstr) | tv_empty | tv_refresh | tv_leave | tv_answer (k : nat) (a : TAnswer).
Definition trash_step (p : TrashPage) (e : TEvent) : TrashPage :=
  match e with
  | tv_restore id => match on_row id p with Some i => trash_wait (tt_restore_client i) p | None => p end
  | tv_delete id => match on_row id p with Some i => trash_wait (tt_confirm (Some i)) p | None => p end
  | tv_empty => if has_rows p then trash_wait (tt_confirm None) p else p
  | tv_refresh => load_trash p
  | tv_leave => {| tp_items := tp_items p; tp_error := tp_error p; tp_loading := tp_loading p; tp_live := false; tp_tasks := tp_tasks p; tp_log := tp_log p; tp_toasts := tp_toasts p; tp_refreshed := tp_refreshed p |}
  | tv_answer k a => match tp_tasks p !! k with Some t => default p (trash_answer t a (trash_drop_task k p)) | None => p end
  end.
Definition run_trash (es : list TEvent) : TrashPage := fold_left trash_step es trash_open.

Definition count_act (a : TAct) (l : list TAct) : nat := length (List.filter (fun b => bool_decide (b = a)) l).
Definition agreed_task (what : option jstr) (t : TTask) : bool := match t with tt_client q => bool_decide (q = what) | _ => false end.
Definition waiting (what : option jstr) (l : list TTask) : nat := length (List.filter (agreed_task what) l).
Definition each_confirmed (p : TrashPage) : Prop :=
  forall what, (count_act (ta_emptied what) (tp_log p) + waiting what (tp_tasks p) <= count_act (ta_confirmed what) (tp_log p))%nat.
Lemma count_snoc a b l : count_act a (l ++ [b]) = (count_act a l + if bool_decide (b = a) then 1 else 0)%nat.
Proof. unfold count_act. rewrite List.filter_app, length_app. cbn. by destruct (bool_decide (b = a)). Qed.
Lemma waiting_snoc w t l : waiting w (l ++ [t]) = (waiting w l + if agreed_task w t then 1 else 0)%nat.
Proof. unfold waiting. rewrite List.filter_app, length_app. cbn. by destruct (agreed_task w t). Qed.
Lemma waiting_delete w k t l : l !! k = Some t -> waiting w l = (waiting w (delete k l) + if agreed_task w t then 1 else 0)%nat.
Proof.
  revert k. induction l as [|x l IH]; intros [|k] H; try done; cbn in H.
  - injection H as ->. change (delete 0 (t :: l)) with l. unfold waiting. cbn. destruct (agreed_task w t); cbn; lia.
  - change (delete (S k) (x :: l)) with (x :: delete k l). specialize (IH k H). unfold waiting in *. cbn. destruct (agreed_task w x); cbn; lia.
Qed.
Lemma confirmed_answer k t a p q : tp_tasks p !! k = Some t -> each_confirmed p -> trash_answer t a (trash_drop_task k p) = Some q -> each_confirmed q.
Proof.
  intros Hk Hp E w. specialize (Hp w). rewrite (waiting_delete w k t _ Hk) in Hp.
  assert (Hdrop : forall r, tp_log r = tp_log p -> tp_tasks r = delete k (tp_tasks p) \/ tp_tasks r = delete k (tp_tasks p) ++ [tt_fetch false] ->
    (count_act (ta_emptied w) (tp_log r) + waiting w (tp_tasks r) <= count_act (ta_confirmed w) (tp_log r))%nat).
  { intros r -> [-> | ->]; rewrite ?waiting_snoc; cbn [agreed_task]; lia. }
  destruct t, a; try discriminate; injection E as <-; try (apply Hdrop; cbn; auto; fail).
  - destruct (first && _); apply Hdrop; auto.
  - destruct (first && _); apply Hdrop; auto.
  - cbn [tp_log tp_tasks trash_wait trash_note trash_drop_task]. rewrite !count_snoc, waiting_snoc. rewrite !bool_decide_false by done. cbn [agreed_task]. lia.
  - destruct (restoreOutcome _ _); apply Hdrop; auto.
  - destruct yes; [|apply Hdrop; auto]. cbn [tp_log tp_tasks trash_wait trash_note trash_drop_task]. rewrite !count_snoc, waiting_snoc. cbn [agreed_task].
    rewrite (bool_decide_false (ta_confirmed _ = ta_emptied _)) by done. destruct (bool_decide_reflect (trash_id <$> what = w)) as [->|Hw].
    + rewrite bool_decide_true by done. lia.
    + rewrite bool_decide_false by congruence. lia.
  - cbn [tp_log tp_tasks trash_wait trash_note trash_drop_task]. rewrite !count_snoc, waiting_snoc. cbn [agreed_task] in *.
    rewrite (bool_decide_false (ta_emptied _ = ta_confirmed _)) by done. destruct (bool_decide_reflect (what = w)) as [->|Hw].
    + rewrite bool_decide_true by done. lia.
    + rewrite bool_decide_false by congruence. lia.
Qed.
Lemma confirmed_step p e : each_confirmed p -> each_confirmed (trash_step p e).
Proof.
  intros Hp. assert (Hw : forall t, agreed_task None t = false -> (forall w, agreed_task w t = false) -> each_confirmed (trash_wait t p)).
  { intros t _ Ht w. cbn [tp_log tp_tasks trash_wait]. rewrite waiting_snoc, Ht. specialize (Hp w). lia. }
  destruct e as [id|id| | | |k a]; cbn [trash_step].
  - destruct (on_row id p); [by apply Hw | done].
  - destruct (on_row id p); [by apply Hw | done].
  - destruct (has_rows p); [by apply Hw | done].
  - intros w. cbn [tp_log tp_tasks load_trash trash_wait]. rewrite waiting_snoc. cbn [agreed_task]. specialize (Hp w). lia.
  - done.
  - destruct (tp_tasks p !! k) as [t|] eqn:Ek; [|done]. destruct (trash_answer t a (trash_drop_task k p)) as [q|] eqn:E; [|done]. by apply (confirmed_answer k t a p q).
Qed.
(** However its handlers interleave, the page deletes from the trash for good only what the
    person agreed to, once for each time: the deletions asked of one item, or of everything, are
    never more than the confirmations given for exactly that. *)
Theorem trash_page_confirmed es what : (count_act (ta_emptied what) (tp_log (run_trash es)) <= count_act (ta_confirmed what) (tp_log (run_trash es)))%nat.
Proof.
  assert (H : each_confirmed (run_trash es)); [|specialize (H what); lia]. unfold run_trash.
  assert (H0 : each_confirmed trash_open) by (intros w; cbn; lia). revert H0. generalize trash_open. induction es as [|e es IH]; intros p Hp; [done|]. cbn. apply IH. by apply confirmed_step.
Qed.
Definition trashed (id : string) : TrashEntry := {| trash_id := js id; trash_name := js id; trash_originalPath := js id; trash_deletedAt := None; trash_size := None; trash_isDir := false |}.
Definition restored_one (id : string) : BatchResult := mkBatch [{| item_path := js id; item_ok := true; item_errorCode := None; item_errorMessage := None |}].
(** Two reads of the trash may overlap and land in either order: after two items were restored the
    page can show the second again, with nothing left to read. *)
Theorem older_trash_lands_last :
  let p := run_trash [tv_answer 0 (tn_items [trashed "a"; trashed "b"]); tv_restore (js "a"); tv_answer 0 tn_client; tv_answer 0 (tn_batch (restored_one "a"));
                      tv_restore (js "b"); tv_answer 1 tn_client; tv_answer 1 (tn_batch (restored_one "b"));
                      tv_answer 1 (tn_items []); tv_answer 0 (tn_items [trashed "b"])] in
  tp_log p = [ta_restored (js "a"); ta_restored (js "b")] /\ tp_items p = Some [trashed "b"] /\ tp_tasks p = [] /\ tp_loading p = false.
Proof. vm_compute. split_and!; reflexivity. Qed.
