(* ===== verification/MetaSheet.v ===== *)
(** * The details sheet of a file

    [features/explorer/MetaSheet.tsx] and [ChmodDialog.tsx]: which actions the sheet offers, and
    what each of them asks the person and the computer.  The environment answers with the whole
    record before it; every question and every request is on the record.  An action keeps the
    entry and the checksum of the render it was pressed in; while it waits for an answer the
    sheet may be closed and opened on another entry, which seeds it anew.  Texts are their keys. *)

From Stdlib Require Import ZArith Lia Bool String.
From Stdlib Require List.
From S2P Require Import Prelude JsCollections JsString Errors Models Host Paths ExplorerLogic Preview Features.
Local Open Scope js_scope.

(** ** State *)

Inductive DeleteChoice := ch_trash | ch_forever.
#[global] Instance DeleteChoice_eq_dec : EqDecision DeleteChoice.
Proof. solve_decision. Defined.
Inductive MAct :=
| m_favorite (path : jstr)
| m_enqueue (path : jstr)
| m_asked_name (answer : option jstr)
| m_rename (from to : jstr)
| m_copy (path destDir : jstr)
| m_list (dir : jstr) (cursor : option jstr) (names : list jstr) (next : option jstr)
| m_extract (archive dest : jstr)
| m_chose (choice : option DeleteChoice)
| m_delete (path : jstr) (permanent : bool)
| m_asked_expiry (answer : option Z)
| m_mint (path : jstr) (seconds : Z)
| m_asked_hash (answer : option jstr)
| m_checksum (path : jstr) (sum : option jstr)
| m_report (same : bool) (expected actual : jstr)
| m_pin (pin : option jstr)
| m_chmod (path octal : jstr).
Inductive Tone := good | plain | bad.
Record Toast := { ts_tone : Tone; ts_key : jstr; ts_undo : option UndoOp }.
(** [sh_open]: the sheet was not closed; [sh_changed] counts the calls of [onChanged]. *)
Record Sheet := {
  sh_entry : Entry; sh_open : bool; sh_dialog : bool; sh_checksum : option jstr; sh_busy : bool; sh_link : option ShareLink; sh_qr : option (jstr * jstr * jstr);
  sh_changed : nat; sh_log : list MAct; sh_toasts : list Toast }.
Notation Ms := (M Sheet jserror).
Definition with_flags (opened dialog busy : bool) (s : Sheet) : Sheet :=
  {| sh_entry := sh_entry s; sh_open := opened; sh_dialog := dialog; sh_checksum := sh_checksum s; sh_busy := busy; sh_link := sh_link s; sh_qr := sh_qr s;
     sh_changed := sh_changed s; sh_log := sh_log s; sh_toasts := sh_toasts s |}.
Definition with_shown (e : Entry) (sum : option jstr) (link : option ShareLink) (qr : option (jstr * jstr * jstr)) (s : Sheet) : Sheet :=
  {| sh_entry := e; sh_open := sh_open s; sh_dialog := sh_dialog s; sh_checksum := sum; sh_busy := sh_busy s; sh_link := link; sh_qr := qr;
     sh_changed := sh_changed s; sh_log := sh_log s; sh_toasts := sh_toasts s |}.
Definition with_log (changed : nat) (log : list MAct) (toasts : list Toast) (s : Sheet) : Sheet :=
  {| sh_entry := sh_entry s; sh_open := sh_open s; sh_dialog := sh_dialog s; sh_checksum := sh_checksum s; sh_busy := sh_busy s; sh_link := sh_link s; sh_qr := sh_qr s;
     sh_changed := changed; sh_log := log; sh_toasts := toasts |}.
Definition onClose : Ms unit := modify (fun s => with_flags false (sh_dialog s) (sh_busy s) s).
Definition set_dialog (b : bool) : Ms unit := modify (fun s => with_flags (sh_open s) b (sh_busy s) s).
Definition set_busy (b : bool) : Ms unit := modify (fun s => with_flags (sh_open s) (sh_dialog s) b s).
Definition set_checksum (sum : jstr) : Ms unit := modify (fun s => with_shown (sh_entry s) (Some sum) (sh_link s) (sh_qr s) s).
Definition set_entry (e : Entry) : Ms unit := modify (fun s => with_shown e (sh_checksum s) (sh_link s) (sh_qr s) s).
Definition set_link (l : ShareLink) : Ms unit := modify (fun s => with_shown (sh_entry s) (sh_checksum s) (Some l) (sh_qr s) s).
Definition set_qr (q : jstr * jstr * jstr) : Ms unit := modify (fun s => with_shown (sh_entry s) (sh_checksum s) (sh_link s) (Some q) s).
Definition changed : Ms unit := modify (fun s => with_log (S (sh_changed s)) (sh_log s) (sh_toasts s) s).
Definition toast (tone : Tone) (key : string) (undo : option UndoOp) : Ms unit :=
  modify (fun s => with_log (sh_changed s) (sh_log s) (sh_toasts s ++ [{| ts_tone := tone; ts_key := js key; ts_undo := undo |}]) s).
Definition entry : Ms Entry := fun s => (s, Ok (sh_entry s)).
Definition known_sum : Ms (option jstr) := fun s => (s, Ok (sh_checksum s)).

(** ** The environment *)

Record MEnv := {
  me_done : list MAct -> result jserror unit;
  me_updated : list MAct -> result jserror Entry;
  me_batch : list MAct -> result jserror BatchResult;
  me_list : list MAct -> result jserror Listing;
  me_sum : list MAct -> result jserror jstr;
  me_mint : list MAct -> result jserror ShareLink;
  me_pin : list MAct -> result jserror (option jstr);
  me_text : list MAct -> option jstr;
  me_choice : list MAct -> option DeleteChoice;
  me_expiry : list MAct -> option Z;
  me_shown : list MAct -> option Entry   (** another entry the sheet was opened on meanwhile *) }.
Section Sheet.
Context `{U : Unicode} (host : Host) (favorites : jstr -> bool) (env : MEnv).
Definition note (a : MAct) : Ms unit := modify (fun s => with_log (sh_changed s) (sh_log s ++ [a]) (sh_toasts s) s).
(** [setEntry(initial); setChecksum(null)] for an entry not seen yet. *)
Definition reseeded (e : Entry) (s : Sheet) : Sheet := with_shown e None (sh_link s) (sh_qr s) (with_flags true (sh_dialog s) (sh_busy s) s).
(** What happened to the sheet while an answer was awaited. *)
Definition awaits (s : Sheet) : Sheet := match me_shown env (sh_log s) with Some e => reseeded e s | None => s end.
Lemma awaits_log s : sh_log (awaits s) = sh_log s.
Proof. unfold awaits. by destruct (me_shown env (sh_log s)). Qed.
Definition asks {A} (f : list MAct -> A) (n : A -> MAct) : Ms A := fun s => let a := f (sh_log s) in (awaits (note (n a) s).1, Ok a).
Definition requests {A} (a : MAct) (f : list MAct -> result jserror A) : Ms A := fun s => (awaits (note a s).1, f (sh_log s)).
(** [run]: a failure is told, and gives nothing. *)
Definition run {A} (task : Ms A) (fail : string) (closeOnError : bool) : Ms (option A) :=
  catch (a <- task;; ret (Some a)) (fun _ => (if closeOnError then onClose else ret tt);; toast bad fail None;; ret None).

(** ** The actions *)

Definition favorite : Ms unit :=
  e <- entry;; onClose;; requests (m_favorite (entry_path e)) (me_done env);;
  if entry_isDir e && favorites (entry_path e) then toast plain "removedFavorite" None else toast good "addedFavorite" None.
Definition download : Ms unit :=
  e <- entry;; onClose;; catch (requests (m_enqueue (entry_path e)) (me_done env);; toast plain "downloadingFile" None) (fun _ => toast bad "error" None).
Definition rename : Ms unit :=
  e <- entry;; onClose;;
  name <- asks (me_text env) m_asked_name;;
  match name with
  | None | Some [] => ret tt
  | Some name =>
      if bool_decide (name = entry_name e) then ret tt
      else
        let target := renameDestination (entry_path e) name in
        updated <- run (requests (m_rename (entry_path e) target) (me_updated env)) "renameFailed" false;;
        match updated with None => ret tt | Some _ => changed;; toast good "renamedTo" (renameUndo (entry_path e) target) end
  end.
(** The undo of the toast. *)
Definition undo_rename_of (op : UndoOp) : Ms unit :=
  match op with
  | undo_rename from to =>
      undone <- run (requests (m_rename from to) (me_updated env)) "undoFailed" false;;
      match undone with None => ret tt | Some _ => changed;; toast good "undoDone" None end
  | undo_move _ => ret tt
  end.
Definition first_ok (res : BatchResult) : bool := match batch_results res with r :: _ => item_ok r | [] => false end.
Definition duplicate : Ms unit :=
  e <- entry;; onClose;;
  res <- run (requests (m_copy (entry_path e) (parentDirOf (entry_path e))) (me_batch env)) "duplicateFailed" false;;
  match res with
  | None => ret tt
  | Some res => if first_ok res then changed;; toast good "duplicatedFile" None else toast bad "couldNotDuplicate" None
  end.
(** One page of a folder, on the record with its answer. *)
Definition list_page (dir : jstr) (cursor : option jstr) : Ms Listing := fun s =>
  match me_list env (sh_log s) with
  | Err e => (awaits s, Err e)
  | Ok page => (awaits (note (m_list dir cursor (entry_name <$> listing_entries page) (listing_nextCursor page)) s).1, Ok page)
  end.
(** Every page of the folder is read; [None]: more than [fuel] pages. *)
Fixpoint taken_names (fuel : nat) (dir : jstr) (cursor : option jstr) (taken : list jstr) : Ms (option (list jstr)) :=
  match fuel with
  | O => ret None
  | S fuel =>
      page <- list_page dir cursor;;
      let taken := fold_left (fun t n => set_add n t) (entry_name <$> listing_entries page) taken in
      match listing_nextCursor page with
      | Some (c :: cs) => taken_names fuel dir (Some (c :: cs)) taken
      | _ => ret (Some taken)
      end
  end.
Definition extract (fuel : nat) : Ms unit :=
  e <- entry;; onClose;;
  let parent := parentDirOf (entry_path e) in
  out <- run (
    taken <- taken_names fuel parent None [];;
    match taken with
    | None => ret None
    | Some taken =>
        let folder := extractFolderName (entry_name e) taken in
        requests (m_extract (entry_path e) (joinRemotePath parent folder)) (me_done env);; ret (Some folder)
    end) "extractFailed" false;;
  match out with Some (Some (_ :: _)) => changed;; toast good "extractedToFolder" None | _ => ret tt end.
Definition remove : Ms unit :=
  e <- entry;; onClose;;
  choice <- asks (me_choice env) m_chose;;
  match choice with
  | None => ret tt
  | Some ch =>
      let permanent := bool_decide (ch = ch_forever) in
      res <- run (requests (m_delete (entry_path e) permanent) (me_batch env)) "deleteFailed" false;;
      match res with None => ret tt | Some _ => changed;; toast good (if permanent then "deletedName" else "movedToTrashName") None end
  end.
Definition shareLink : Ms unit :=
  e <- entry;; set_dialog true;;
  seconds <- asks (me_expiry env) m_asked_expiry;;
  set_dialog false;;
  match seconds with
  | None => ret tt
  | Some secs =>
      minted <- run (requests (m_mint (entry_path e) secs) (me_mint env)) "shareLinkFailed" true;;
      match minted with Some l => set_link l | None => ret tt end
  end.
(** The checksum of the entry, on the record with its answer. *)
Definition ask_sum (e : Entry) : Ms jstr := fun s =>
  let r := me_sum env (sh_log s) in (awaits (note (m_checksum (entry_path e) (match r with Ok x => Some x | Err _ => None end)) s).1, r).
Definition verifyHash : Ms unit :=
  e <- entry;; known <- known_sum;; set_dialog true;;
  pasted <- asks (me_text env) m_asked_hash;;
  match pasted with
  | None | Some [] => ret tt
  | Some pasted =>
      sum <- match known with Some x => ret (Some x) | None => run (ask_sum e) "checksumFailed" false end;;
      match sum with
      | None | Some [] => ret tt
      | Some sum => set_checksum sum;; note (m_report (hashMatches pasted sum) pasted sum)
      end
  end;;
  set_dialog false.
Definition sendViaQr : Ms unit :=
  e <- entry;;
  pin <- catch (fun s => let r := me_pin env (sh_log s) in (awaits (note (m_pin (match r with Ok x => x | Err _ => None end)) s).1, r)) (fun _ => ret None);;
  match pin with
  | None | Some [] => toast bad "qrHandoffNoFingerprint" None
  | Some p => set_qr (p, entry_path e, entry_name e)
  end.
Definition computeChecksum : Ms unit :=
  e <- entry;; set_busy true;;
  sum <- run (ask_sum e) "checksumFailed" false;;
  match sum with Some (c :: x) => set_checksum (c :: x) | _ => ret tt end;;
  set_busy false.
(** [ChmodDialog]: the bits start as the entry's, a tap flips one, Apply sends them. *)
Definition flip (i : nat) (bits : list bool) : list bool := alter negb i bits.
Definition chmod (taps : list nat) : Ms unit :=
  e <- entry;;
  let bits := fold_left (fun b i => flip i b) taps (parseModeBits (entry_mode e)) in
  catch (updated <- requests (m_chmod (entry_path e) (bitsToOctal bits)) (me_updated env);; set_entry updated;; changed) (fun _ => toast bad "chmodFailed" None).

(** ** What the sheet offers *)

Inductive Key := k_fav | k_preview | k_rename | k_download | k_dup | k_delete | k_openwith | k_share | k_link | k_qr | k_extract | k_details.
#[local] Instance Key_eq_dec : EqDecision Key.
Proof. solve_decision. Defined.
Definition offer (b : bool) (k : Key) : list Key := if b then [k] else [].
Definition quick (caps : option Capabilities) (onPreview : bool) (e : Entry) : list Key :=
  (if entry_isDir e then [k_fav] else offer (negb (entry_isDir e) && isPreviewable e && onPreview) k_preview) ++
  (if entry_isDir e then offer (can caps modify_cap) k_rename else offer (can caps Models.download) k_download) ++
  offer (entry_isDir e && can caps modify_cap) k_dup ++
  offer (can caps delete_cap) k_delete.
Definition more (caps : option Capabilities) (e : Entry) : list Key :=
  let file := negb (entry_isDir e) in
  offer (file && can caps Models.download) k_openwith ++ offer (file && can caps Models.download) k_share ++
  offer (file && can caps Models.share) k_link ++ offer (file && can caps Models.download) k_qr ++
  offer (file && can caps modify_cap && isExtractableArchive (entry_name e)) k_extract ++
  offer (file && can caps modify_cap) k_rename ++ offer (file && can caps modify_cap) k_dup ++ [k_details].
(** What an action needs of the computer, and the entries it is for. *)
Definition needs (k : Key) : option FileCapability :=
  match k with
  | k_rename | k_dup | k_extract => Some modify_cap
  | k_download | k_openwith | k_share | k_qr => Some Models.download
  | k_delete => Some delete_cap
  | k_link => Some Models.share
  | k_fav | k_preview | k_details => None
  end.
Definition suits (onPreview : bool) (e : Entry) (k : Key) : bool :=
  match k with
  | k_fav => entry_isDir e
  | k_preview => isPreviewable e && onPreview
  | k_download | k_openwith | k_share | k_link | k_qr => negb (entry_isDir e)
  | k_extract => negb (entry_isDir e) && isExtractableArchive (entry_name e)
  | k_rename | k_dup | k_delete | k_details => true
  end.
Definition granted (caps : option Capabilities) (k : Key) : bool := match needs k with Some c => can caps c | None => true end.
Lemma elem_offer b k k' : k ∈ offer b k' <-> b = true /\ k = k'.
Proof. unfold offer. destruct b; rewrite ?list_elem_of_singleton, ?elem_of_nil; intuition congruence. Qed.
Lemma NoDup_offer b k l : (b = true -> k ∉ l) -> NoDup l -> NoDup (offer b k ++ l).
Proof. unfold offer. destruct b; [|done]. intros H Hl. apply NoDup_cons. auto. Qed.
Lemma dir_not_previewable e : entry_isDir e = true -> isPreviewable e = false.
Proof. unfold isPreviewable. by intros ->. Qed.
(** The sheet offers an action exactly when it suits the entry and the computer grants what it
    needs, and offers it once. *)
Theorem sheet_offers caps onPreview e k :
  (k ∈ quick caps onPreview e ++ more caps e <-> suits onPreview e k = true /\ granted caps k = true) /\ NoDup (quick caps onPreview e ++ more caps e).
Proof.
  pose proof (dir_not_previewable e) as Hp. unfold quick, more. destruct (entry_isDir e) eqn:Ed; cbn [negb andb].
  - split.
    + rewrite !elem_of_app, !elem_offer, !list_elem_of_singleton. unfold suits, granted, needs. rewrite ?Ed. destruct k; cbn -[can isPreviewable]; rewrite ?(Hp eq_refl); cbn -[can]; try (intuition congruence; fail).
    + rewrite <- !(assoc_L (++)). cbn [app]. apply NoDup_cons. split; [rewrite !elem_of_app, !elem_offer, !list_elem_of_singleton; intuition congruence|].
      repeat (apply NoDup_offer; [intros _; rewrite ?elem_of_app, ?elem_offer, ?list_elem_of_singleton; intuition congruence|]). apply NoDup_singleton.
  - split.
    + rewrite !elem_of_app, !elem_offer, !list_elem_of_singleton. unfold suits, granted, needs. rewrite ?Ed. destruct k; cbn -[can isPreviewable isExtractableArchive]; rewrite ?andb_true_iff; intuition congruence.
    + rewrite <- !(assoc_L (++)). cbn [offer app].
      repeat (apply NoDup_offer; [intros _; rewrite ?elem_of_app, ?elem_offer, ?list_elem_of_singleton; intuition congruence|]). apply NoDup_singleton.
Qed.

(** ** What the sheet asks of the computer *)

(** A listing read page by page: the first asked without a cursor, each other one with the cursor
    of the page before, and the last without a further one. *)
Fixpoint pages_read (cursor : option jstr) (pages : list (option jstr * list jstr * option jstr)) : Prop :=
  match pages with
  | [] => False
  | (asked, _, next) :: rest =>
      asked = cursor /\ match rest with [] => next = None \/ next = Some [] | _ => (exists c cs, next = Some (c :: cs)) /\ pages_read next rest end
  end.
Definition page_act (dir : jstr) (pg : option jstr * list jstr * option jstr) : MAct := m_list dir pg.1.1 pg.1.2 pg.2.
(** The acts of one action on the entry [e] agree with the answers given in it; [known] is the
    checksum the sheet had. *)
Definition agreed (e : Entry) (known : option jstr) (acts : list MAct) (a : MAct) : Prop :=
  match a with
  | m_favorite p | m_enqueue p | m_checksum p _ | m_chmod p _ => p = entry_path e
  | m_copy p dir => p = entry_path e /\ dir = parentDirOf (entry_path e)
  | m_rename from to => from = entry_path e /\ exists name q sep, m_asked_name (Some name) ∈ acts /\ name <> entry_name e /\
      to = q ++ sep :: name /\ (sep = 47 \/ sep = 92) /\ (q <> [] -> exists old, from = q ++ sep :: old) /\ to = renameDestination from name
  | m_list dir _ _ _ => dir = parentDirOf (entry_path e)
  | m_extract archive dest =>
      archive = entry_path e /\ exists folder pages, dest = joinRemotePath (parentDirOf archive) folder /\
        acts = (page_act (parentDirOf archive) <$> pages) ++ [a] /\ pages_read None pages /\
        Forall (fun pg => Forall (fun n => toLowerCase folder <> toLowerCase n) pg.1.2) pages
  | m_delete p permanent => p = entry_path e /\ m_chose (Some (if permanent then ch_forever else ch_trash)) ∈ acts
  | m_mint p secs => p = entry_path e /\ m_asked_expiry (Some secs) ∈ acts
  | m_report same expected actual =>
      m_asked_hash (Some expected) ∈ acts /\ same = hashMatches expected actual /\ (known = Some actual \/ m_checksum (entry_path e) (Some actual) ∈ acts)
  | m_asked_name _ | m_chose _ | m_asked_expiry _ | m_asked_hash _ | m_pin _ => True
  end.
Definition all_agreed (e : Entry) (known : option jstr) (acts : list MAct) : Prop := Forall (agreed e known acts) acts.
Lemma logs_entry s (P : list MAct -> result jserror Entry -> Prop) : P [] (Ok (sh_entry s)) -> logs sh_log entry s P.
Proof. intros H. exists []. by rewrite app_nil_r. Qed.
Lemma logs_known s (P : list MAct -> result jserror (option jstr) -> Prop) : P [] (Ok (sh_checksum s)) -> logs sh_log known_sum s P.
Proof. intros H. exists []. by rewrite app_nil_r. Qed.
Lemma logs_note a s (P : list MAct -> result jserror unit -> Prop) : P [a] (Ok tt) -> logs sh_log (note a) s P.
Proof. intros H. by exists [a]. Qed.
Lemma logs_asks {A} (f : list MAct -> A) n s (P : list MAct -> result jserror A -> Prop) : (forall a, P [n a] (Ok a)) -> logs sh_log (asks f n) s P.
Proof. intros H. exists [n (f (sh_log s))]. split; [apply awaits_log | apply H]. Qed.
Lemma logs_requests {A} a (f : list MAct -> result jserror A) s (P : list MAct -> result jserror A -> Prop) : (forall r, P [a] r) -> logs sh_log (requests a f) s P.
Proof. intros H. exists [a]. split; [apply awaits_log | apply H]. Qed.
Lemma logs_sum e s (P : list MAct -> result jserror jstr -> Prop) :
  (forall x, P [m_checksum (entry_path e) (Some x)] (Ok x)) -> (forall x, P [m_checksum (entry_path e) None] (Err x)) -> logs sh_log (ask_sum e) s P.
Proof. intros H1 H2. unfold logs, ask_sum. cbn -[awaits]. destruct (me_sum env (sh_log s)); eexists; (split; [rewrite awaits_log; reflexivity|]); auto. Qed.
Lemma logs_page dir cursor s (P : list MAct -> result jserror Listing -> Prop) :
  (forall page, P [m_list dir cursor (entry_name <$> listing_entries page) (listing_nextCursor page)] (Ok page)) -> (forall e, P [] (Err e)) ->
  logs sh_log (list_page dir cursor) s P.
Proof.
  intros H1 H2. unfold logs, list_page. destruct (me_list env (sh_log s)) as [page|e]; cbn [fst snd].
  - eexists. split; [rewrite awaits_log; reflexivity | apply H1].
  - exists []. rewrite awaits_log, app_nil_r. auto.
Qed.
(** What a task adds, [run] adds; a failure gives nothing. *)
Lemma logs_run {A} (task : Ms A) fail close s (P : list MAct -> result jserror (option A) -> Prop) :
  logs sh_log task s (fun acts r => match r with Ok a => P acts (Ok (Some a)) | Err _ => P acts (Ok None) end) -> logs sh_log (run task fail close) s P.
Proof.
  intros H. unfold run. apply logs_catch, logs_bind. eapply logs_weaken; [exact H|]. intros acts [a|e] Ha; cbn beta iota.
  - apply logs_ret. by rewrite app_nil_r.
  - apply logs_bind. destruct close; [apply logs_modify; [done|] | apply logs_ret]; apply logs_bind, logs_modify; try done; apply logs_ret; by rewrite !app_nil_r.
Qed.
End Sheet.
Ltac logs_step :=
  repeat match goal with
         | |- logs _ (bind _ _) _ _ => apply logs_bind
         | |- logs _ (catch _ _) _ _ => apply logs_catch
         | |- logs _ (ret _) _ _ => apply logs_ret
         | |- logs _ (run _ _ _) _ _ => apply logs_run
         | |- logs _ entry _ _ => apply logs_entry
         | |- logs _ known_sum _ _ => apply logs_known
         | |- logs _ (note _) _ _ => apply logs_note
         | |- logs _ (asks _ _ _) _ _ => apply logs_asks; intros ?
         | |- logs _ (requests _ _ _) _ _ => apply logs_requests; intros [?|?]
         | |- logs _ (ask_sum _ _) _ _ => apply logs_sum; intros ?
         | |- logs _ _ _ _ => apply logs_modify; [reflexivity|]
         end; cbn [app].
Section Agreement.
Context `{U : Unicode} (favorites : jstr -> bool) (env : MEnv).
Inductive UserAction := u_favorite | u_download | u_rename | u_duplicate | u_extract (fuel : nat) | u_remove | u_share | u_verify | u_qr | u_checksum | u_chmod (taps : list nat).
Definition perform (a : UserAction) : Ms unit :=
  match a with
  | u_favorite => favorite favorites env
  | u_download => download env
  | u_rename => rename env
  | u_duplicate => duplicate env
  | u_extract fuel => extract env fuel
  | u_remove => remove env
  | u_share => shareLink env
  | u_verify => verifyHash env
  | u_qr => sendViaQr env
  | u_checksum => computeChecksum env
  | u_chmod taps => chmod env taps
  end.
Ltac acts_ok := unfold all_agreed; rewrite ?app_nil_r; cbn [app];
  repeat first [apply Forall_nil_2 | apply Forall_cons_2]; cbn [agreed]; try done.
Lemma rename_shape from old name (acts : list MAct) : m_asked_name (Some name) ∈ acts -> name <> old ->
  exists nm q sep, m_asked_name (Some nm) ∈ acts /\ nm <> old /\ renameDestination from name = q ++ sep :: nm /\ (sep = 47 \/ sep = 92) /\
    (q <> [] -> exists old, from = q ++ sep :: old) /\ renameDestination from name = renameDestination from nm.
Proof.
  intros Ha Hn. destruct (renameDestination_shape from name) as (q & Eq & _ & _ & Hq & _). exists name, q, (sep_of from).
  do 3 (split; [done|]). split; [destruct (sep_of_cases from) as [[-> _]|[-> _]]; auto|]. done.
Qed.
Lemma rename_agreed s : logs sh_log (rename env) s (fun acts _ => all_agreed (sh_entry s) (sh_checksum s) acts).
Proof.
  unfold rename. logs_step. destruct a as [[|c name]|]; [logs_step; acts_ok.. | | logs_step; acts_ok].
  set (nm := c :: name). destruct (bool_decide_reflect (nm = entry_name (sh_entry s))) as [|Hn]; logs_step; acts_ok; (split; [done|]); (apply rename_shape; [left | done]).
Qed.
Lemma remove_agreed s : logs sh_log (remove env) s (fun acts _ => all_agreed (sh_entry s) (sh_checksum s) acts).
Proof.
  unfold remove. logs_step. destruct a as [ch|]; logs_step; acts_ok; (split; [done|]); destruct ch; left.
Qed.
Lemma share_agreed s : logs sh_log (shareLink env) s (fun acts _ => all_agreed (sh_entry s) (sh_checksum s) acts).
Proof. unfold shareLink. logs_step. destruct a as [secs|]; logs_step; acts_ok; (split; [done | left]). Qed.
Lemma elem_added_names (n : jstr) names taken : n ∈ fold_left (fun t n => set_add n t) names taken <-> n ∈ names \/ n ∈ taken.
Proof.
  revert taken. induction names as [|x names IH]; intros taken; cbn; [rewrite elem_of_nil; tauto|]. rewrite IH, elem_set_add, elem_of_cons. tauto.
Qed.
Lemma taken_names_spec fuel dir cursor taken s : logs sh_log (taken_names env fuel dir cursor taken) s (fun acts r =>
  exists pages, acts = page_act dir <$> pages /\
  match r with
  | Ok (Some t) => pages_read cursor pages /\ Forall (fun pg => Forall (fun n => n ∈ t) pg.1.2) pages /\ (forall n, n ∈ taken -> n ∈ t)
  | _ => True
  end).
Proof.
  revert cursor taken s. induction fuel as [|fuel IH]; intros cursor taken s; cbn [taken_names]; [logs_step; by exists []|].
  apply logs_bind, logs_page; [|intros e; by exists []]. intros page.
  set (names := entry_name <$> listing_entries page). set (t := fold_left _ names taken).
  assert (Ht : Forall (fun n => n ∈ t) names) by (apply Forall_forall; intros n Hn; apply elem_added_names; by left).
  assert (Hold : forall n, n ∈ taken -> n ∈ t) by (intros n Hn; apply elem_added_names; by right).
  assert (Hend : forall s1 next, next = None \/ next = Some [] -> logs sh_log (ret (Some t) : Ms (option (list jstr))) s1 (fun acts' r' =>
    exists pages, [m_list dir cursor names next] ++ acts' = page_act dir <$> pages /\
    match r' with Ok (Some t') => pages_read cursor pages /\ Forall (fun pg => Forall (fun n => n ∈ t') pg.1.2) pages /\ (forall n, n ∈ taken -> n ∈ t') | _ => True end)).
  { intros s1 next Hnx. apply logs_ret. exists [(cursor, names, next)]. split; [done|]. split; [done|]. split; [by apply Forall_singleton | done]. }
  cbv zeta. fold names t. destruct (listing_nextCursor page) as [[|c cur]|] eqn:En; [apply Hend; by right | | apply Hend; by left].
  eapply logs_weaken; [apply IH|]. intros acts r (pages & -> & Hr). exists ((cursor, names, Some (c :: cur)) :: pages). split; [done|].
  destruct r as [[t'|]|]; try done. destruct Hr as (Hp & Hn & Hall). split; [|split].
  - cbn. split; [done|]. destruct pages; [done|]. split; [by eexists _, _ | done].
  - apply Forall_cons. split; [|done]. cbn. eapply Forall_impl; [exact Ht|]. cbn. auto.
  - auto.
Qed.
Lemma pages_agreed e known dir pages acts' : dir = parentDirOf (entry_path e) -> Forall (agreed e known acts') (page_act dir <$> pages).
Proof. intros ->. apply Forall_fmap, Forall_forall. by intros [[c ns] nx] _. Qed.
Lemma extract_agreed fuel s : logs sh_log (extract env fuel) s (fun acts _ => all_agreed (sh_entry s) (sh_checksum s) acts).
Proof.
  unfold extract. logs_step. eapply logs_weaken; [apply taken_names_spec|]. cbn beta. intros acts r (pages & -> & Hr). set (e := sh_entry s) in *.
  assert (Hacts : forall acts', Forall (agreed e (sh_checksum s) acts') (page_act (parentDirOf (entry_path e)) <$> pages)) by (intros; by apply pages_agreed).
  destruct r as [[taken|]|err]; [|logs_step; acts_ok; by apply Hacts..].
  destruct Hr as (Hp & Hn & _). set (folder := extractFolderName (entry_name e) taken).
  assert (Hall : all_agreed e (sh_checksum s) ((page_act (parentDirOf (entry_path e)) <$> pages) ++ [m_extract (entry_path e) (joinRemotePath (parentDirOf (entry_path e)) folder)])).
  { apply Forall_app. split; [apply Hacts|]. apply Forall_singleton. split; [done|]. exists folder, pages. split; [done|]. split; [done|]. split; [done|].
    eapply Forall_impl; [exact Hn|]. intros pg Hpg. eapply Forall_impl; [exact Hpg|]. intros n Hin. by apply extractFolderName_fresh. }
  logs_step; rewrite ?app_nil_r; [|logs_step; by rewrite ?app_nil_r].
  destruct folder; logs_step; by rewrite ?app_nil_r.
Qed.
Lemma verify_agreed s : logs sh_log (verifyHash env) s (fun acts _ => all_agreed (sh_entry s) (sh_checksum s) acts).
Proof.
  unfold verifyHash. logs_step. destruct a as [[|c pasted]|]; [logs_step; acts_ok.. | | logs_step; acts_ok].
  logs_step. change (sh_checksum (entry s).1) with (sh_checksum s). destruct (sh_checksum s) as [known|] eqn:Ek.
  - logs_step. destruct known; logs_step; acts_ok. split; [left|]. split; [done | by left].
  - logs_step; [destruct x as [|d sum]|]; logs_step; acts_ok. split; [left|]. split; [done|]. right. right. left.
Qed.
End Agreement.

(** ** Two answers the sheet does not look at *)

Definition a_file (path name : string) : Entry :=
  {| entry_name := js name; entry_path := js path; entry_isDir := false; entry_size := None; entry_mimeType := None; entry_mode := None;
     entry_modified := None; entry_created := None; entry_isSymlink := false; entry_symlinkTarget := None; entry_childCount := None |}.
Definition opened (e : Entry) : Sheet :=
  {| sh_entry := e; sh_open := true; sh_dialog := false; sh_checksum := None; sh_busy := false; sh_link := None; sh_qr := None; sh_changed := 0; sh_log := []; sh_toasts := [] |}.
Definition answers (text : string) (batch : BatchResult) : MEnv := {|
  me_done := fun _ => Ok tt; me_updated := fun _ => Ok (a_file "/x" "x"); me_batch := fun _ => Ok batch; me_list := fun _ => Err (PlainError []); me_sum := fun _ => Err (PlainError []);
  me_mint := fun _ => Err (PlainError []); me_pin := fun _ => Ok None; me_text := fun _ => Some (js text); me_choice := fun _ => Some ch_trash; me_expiry := fun _ => None; me_shown := fun _ => None |}.
(** A typed name is not checked as the explorer checks it: one with a slash moves the file. *)
Theorem sheet_rename_moves batch :
  let s := (rename (answers "old/a.txt" batch) (opened (a_file "/docs/a.txt" "a.txt"))).1 in
  is_Some (invalidNameReason (js "old/a.txt")) /\ sh_log s = [m_asked_name (Some (js "old/a.txt")); m_rename (js "/docs/a.txt") (js "/docs/old/a.txt")].
Proof. split; [vm_compute; eauto | vm_compute; reflexivity]. Qed.
(** Whatever the computer says of the file, an answered deletion is told as done. *)
Theorem sheet_refused_delete_told batch :
  let s := (remove (answers "" batch) (opened (a_file "/docs/a.txt" "a.txt"))).1 in
  sh_log s = [m_chose (Some ch_trash); m_delete (js "/docs/a.txt") false] /\ sh_changed s = 1%nat /\ sh_toasts s = [{| ts_tone := good; ts_key := js "movedToTrashName"; ts_undo := None |}].
Proof. vm_compute. split_and!; reflexivity. Qed.

(** ** A checksum that comes late *)

Definition page_of (names : list string) (next : option jstr) : Listing :=
  {| listing_path := []; listing_entries := (fun n => a_file n n) <$> names; listing_nextCursor := next |}.
(** A folder of two pages. *)
Definition two_pages : MEnv := {|
  me_done := fun _ => Ok tt; me_updated := fun _ => Err (PlainError []); me_batch := fun _ => Err (PlainError []);
  me_list := fun log => match log with [] => Ok (page_of ["docs.zip"; "a"] (Some (js "2"))) | _ => Ok (page_of ["DOCS"; "docs (1)"] None) end;
  me_sum := fun _ => Err (PlainError []); me_mint := fun _ => Err (PlainError []); me_pin := fun _ => Ok None; me_text := fun _ => None;
  me_choice := fun _ => None; me_expiry := fun _ => None; me_shown := fun _ => None |}.
(** The sheet is closed and opened on another file while the checksum of the first is computed. *)
Definition moved_on : MEnv := {|
  me_done := fun _ => Ok tt; me_updated := fun _ => Err (PlainError []); me_batch := fun _ => Err (PlainError []); me_list := fun _ => Err (PlainError []);
  me_sum := fun _ => Ok (js "aa11"); me_mint := fun _ => Err (PlainError []); me_pin := fun _ => Ok None; me_text := fun _ => Some (js "aa11");
  me_choice := fun _ => None; me_expiry := fun _ => None;
  me_shown := fun log => if bool_decide (length log = 1%nat) then Some (a_file "/b" "b") else None |}.
(** The late checksum is then shown for the other file, and a pasted hash of the first is told to
    match it, without any question to the computer. *)
Theorem late_checksum_on_other_file :
  let s1 := (computeChecksum moved_on (opened (a_file "/a" "a"))).1 in
  let s2 := (verifyHash (U := ascii_unicode) moved_on s1).1 in
  entry_path (sh_entry s1) = js "/b" /\ sh_checksum s1 = Some (js "aa11") /\
  sh_log s2 = [m_checksum (js "/a") (Some (js "aa11")); m_asked_hash (Some (js "aa11")); m_report true (js "aa11") (js "aa11")].
Proof. vm_compute. auto. Qed.
