(* ===== verification/Pager.v ===== *)
(** * The preview pager

    [app/preview.tsx]: the pages handed over by the explorer, swiping, deleting and editing the
    page shown.  A deletion waits for a choice and for the computer, and works on the pages and
    the index of the render it was pressed in. *)

From Stdlib Require Import ZArith Lia Bool String.
From Stdlib Require List.
From S2P Require Import Prelude JsCollections JsString Errors Models Utf8 Preview.
Local Open Scope js_scope.

Inductive Choice := to_trash | forever.
#[global] Instance Choice_eq_dec : EqDecision Choice.
Proof. solve_decision. Defined.
(** A deletion under way, with what its handler captured. *)
Inductive PTask :=
| pt_choose (entries : list Entry) (index : nat)
| pt_delete (entries : list Entry) (index : nat).
Inductive PAct := pa_chosen (path : jstr) (c : Choice) | pa_delete (path : jstr) (permanent : bool) | pa_edit (path text : jstr).
#[global] Instance PAct_eq_dec : EqDecision PAct.
Proof. solve_decision. Defined.
(** [pr_texts] are the texts the viewers loaded, by path; [pr_gone] the paths whose deletion succeeded. *)
Record Pager := {
  pr_entries : list Entry; pr_index : nat; pr_zoomed : bool; pr_closed : bool; pr_texts : list (jstr * jstr); pr_changed : nat;
  pr_tasks : list PTask; pr_log : list PAct; pr_gone : list jstr }.
Definition clamp_index (i : Z) (n : nat) : nat := Z.to_nat (Z.min (Z.max i 0) (Z.of_nat n - 1)).
(** The pager of a session; with no pages the screen shows nothing instead. *)
Definition pager_open (entries : list Entry) (index : Z) : option Pager :=
  match entries with
  | [] => None
  | _ => Some {| pr_entries := entries; pr_index := clamp_index index (length entries); pr_zoomed := false; pr_closed := false; pr_texts := []; pr_changed := 0;
                 pr_tasks := []; pr_log := []; pr_gone := [] |}
  end.
Definition current (p : Pager) : option Entry := pr_entries p !! pr_index p.
Definition set_pages (es : list Entry) (i : nat) (p : Pager) : Pager :=
  {| pr_entries := es; pr_index := i; pr_zoomed := pr_zoomed p; pr_closed := pr_closed p; pr_texts := pr_texts p; pr_changed := pr_changed p; pr_tasks := pr_tasks p; pr_log := pr_log p; pr_gone := pr_gone p |}.
Definition set_state (zoomed closed : bool) (texts : list (jstr * jstr)) (changed : nat) (p : Pager) : Pager :=
  {| pr_entries := pr_entries p; pr_index := pr_index p; pr_zoomed := zoomed; pr_closed := closed; pr_texts := texts; pr_changed := changed; pr_tasks := pr_tasks p; pr_log := pr_log p; pr_gone := pr_gone p |}.
Definition set_work (tasks : list PTask) (log : list PAct) (gone : list jstr) (p : Pager) : Pager :=
  {| pr_entries := pr_entries p; pr_index := pr_index p; pr_zoomed := pr_zoomed p; pr_closed := pr_closed p; pr_texts := pr_texts p; pr_changed := pr_changed p; pr_tasks := tasks; pr_log := log; pr_gone := gone |}.
Definition onChanged (p : Pager) : Pager := set_state (pr_zoomed p) (pr_closed p) (pr_texts p) (S (pr_changed p)) p.
Definition onClose (p : Pager) : Pager := set_state (pr_zoomed p) true (pr_texts p) (pr_changed p) p.

(** [onMomentumScrollEnd]: the page the list came to rest on. *)
Definition scrolled (i : Z) (p : Pager) : Pager :=
  if negb (i =? Z.of_nat (pr_index p)) && (0 <=? i) && (i <? Z.of_nat (length (pr_entries p)))
  then set_state false (pr_closed p) (pr_texts p) (pr_changed p) (set_pages (pr_entries p) (Z.to_nat i) p) else p.
Definition onText (path : jstr) (text : option jstr) (p : Pager) : Pager :=
  set_state (pr_zoomed p) (pr_closed p) (match text with None => map_delete path (pr_texts p) | Some t => map_set path t (pr_texts p) end) (pr_changed p) p.
Definition replaceCurrent (e : Entry) (p : Pager) : Pager :=
  onChanged (set_pages ((fun x => if bool_decide (entry_path x = entry_path e) then e else x) <$> pr_entries p) (pr_index p) p).
(** [dropCurrent], with the pages and the index its handler captured. *)
Definition dropCurrent (entries : list Entry) (index : nat) (p : Pager) : Pager :=
  let p := onChanged p in
  if (length entries <=? 1)%nat then onClose p
  else let next := delete index entries in set_pages next (Nat.min index (length next - 1)) p.
(** [remove]: pressed, chosen, answered. *)
Definition remove (p : Pager) : Pager :=
  match current p with Some _ => set_work (pr_tasks p ++ [pt_choose (pr_entries p) (pr_index p)]) (pr_log p) (pr_gone p) p | None => p end.
Definition chosen (entries : list Entry) (index : nat) (c : option Choice) (p : Pager) : Pager :=
  match c, entries !! index with
  | Some c, Some e =>
      set_work (pr_tasks p ++ [pt_delete entries index]) (pr_log p ++ [pa_chosen (entry_path e) c; pa_delete (entry_path e) (bool_decide (c = forever))]) (pr_gone p) p
  | _, _ => p
  end.
Definition deleted (entries : list Entry) (index : nat) (ok : bool) (p : Pager) : Pager :=
  match entries !! index with
  | Some e => if ok then dropCurrent entries index (set_work (pr_tasks p) (pr_log p) (pr_gone p ++ [entry_path e]) p) else p
  | None => p
  end.
(** [canEdit] and [edit]. *)
Definition MAX_EDITABLE_BYTES : Z := 5 * 1024 * 1024.
Definition editable_kind (k : PreviewKind) : bool := bool_decide (k = PKtext) || bool_decide (k = PKmarkdown).
Section Pages.
Context `{U : Unicode}.
Definition canEdit (caps : option Capabilities) (p : Pager) : option (Entry * jstr) :=
  e ← current p; text ← map_get (entry_path e) (pr_texts p);
  if can caps modify_cap && editable_kind (entry_kind e) && (default (utf8Length text) (entry_size e) <=? MAX_EDITABLE_BYTES) then Some (e, text) else None.
Definition edit (caps : option Capabilities) (p : Pager) : Pager :=
  match canEdit caps p with Some (e, text) => set_work (pr_tasks p) (pr_log p ++ [pa_edit (entry_path e) text]) (pr_gone p) p | None => p end.
(** The editor saved the entry. *)
Definition onSaved (e : Entry) (p : Pager) : Pager := replaceCurrent e (onText (entry_path e) None p).
Inductive PEvent :=
| p_scroll (i : Z) | p_text (path : jstr) (text : option jstr) | p_remove | p_edit (caps : option Capabilities) | p_saved (e : Entry) | p_zoom (b : bool) | p_close
| p_chosen (k : nat) (c : option Choice) | p_deleted (k : nat) (ok : bool).
Definition pager_step (p : Pager) (ev : PEvent) : Pager :=
  match ev with
  | p_scroll i => scrolled i p
  | p_text path text => onText path text p
  | p_remove => remove p
  | p_edit caps => edit caps p
  | p_saved e => onSaved e p
  | p_zoom b => set_state b (pr_closed p) (pr_texts p) (pr_changed p) p
  | p_close => onClose p
  | p_chosen k c =>
      match pr_tasks p !! k with
      | Some (pt_choose es i) => chosen es i c (set_work (delete k (pr_tasks p)) (pr_log p) (pr_gone p) p)
      | _ => p
      end
  | p_deleted k ok =>
      match pr_tasks p !! k with
      | Some (pt_delete es i) => deleted es i ok (set_work (delete k (pr_tasks p)) (pr_log p) (pr_gone p) p)
      | _ => p
      end
  end.
Definition run_pager (p : Pager) (evs : list PEvent) : Pager := fold_left pager_step evs p.

(** ** There is always a page *)

Definition paths (es : list Entry) : list jstr := entry_path <$> es.
Definition pages_ok (P : list jstr) (es : list Entry) (i : nat) : Prop := (i < length es)%nat /\ Forall (fun q => q ∈ P) (paths es).
Definition task_ok (P : list jstr) (t : PTask) : Prop := match t with pt_choose es i | pt_delete es i => pages_ok P es i end.
Definition asked_first (log : list PAct) : Prop := forall q b, pa_delete q b ∈ log -> pa_chosen q (if b then forever else to_trash) ∈ log.
Record pager_inv (P : list jstr) (p : Pager) : Prop := {
  pi_pages : pages_ok P (pr_entries p) (pr_index p);
  pi_tasks : Forall (task_ok P) (pr_tasks p);
  pi_log : asked_first (pr_log p) }.
Lemma paths_replace e es : paths ((fun x => if bool_decide (entry_path x = entry_path e) then e else x) <$> es) = paths es.
Proof. unfold paths. rewrite <- list_fmap_compose. apply list_fmap_ext. intros ? x _. cbn. by destruct (bool_decide_reflect (entry_path x = entry_path e)). Qed.
Lemma inv_drop P es i p : pages_ok P es i -> pager_inv P p -> pager_inv P (dropCurrent es i p).
Proof.
  intros [Hi Hp] [H1 H2 H3]. unfold dropCurrent. destruct (Nat.leb_spec (length es) 1); [by split|]. split; cbn; try done. split.
  - rewrite length_delete by (by apply lookup_lt_is_Some_2). lia.
  - unfold paths in *. rewrite list_fmap_delete. by apply Forall_delete.
Qed.
Lemma inv_set_work P ts log gone p : pager_inv P p -> Forall (task_ok P) ts -> asked_first log -> pager_inv P (set_work ts log gone p).
Proof. by intros [H1 H2 H3]. Qed.
Lemma asked_snoc log e c : asked_first log -> asked_first (log ++ [pa_chosen e c; pa_delete e (bool_decide (c = forever))]).
Proof.
  intros H q b [Hin|Hin]%elem_of_app; [apply elem_of_app; left; by apply H|]. apply elem_of_app. right.
  apply elem_of_cons in Hin as [Hin|Hin]; [discriminate Hin|]. apply list_elem_of_singleton in Hin. injection Hin as -> ->. destruct c; left.
Qed.
Lemma inv_pager_step P p ev : pager_inv P p -> pager_inv P (pager_step p ev).
Proof.
  intros H. pose proof H as [[H1 H1'] H2 H3]. destruct ev as [i|path text| |caps|e|b| |k c|k ok]; cbn [pager_step]; try by split.
  - unfold scrolled. destruct (_ && _ && _) eqn:E; [|done]. split; cbn; [|done|done]. split; [|done]. lia.
  - unfold remove. destruct (current p); [|done]. apply inv_set_work; [done| |done]. apply Forall_app. split; [done|]. by apply Forall_singleton.
  - unfold edit. destruct (canEdit caps p) as [[e text]|]; [|done]. apply inv_set_work; [done|done|]. intros q b [Hin|Hin]%elem_of_app; [apply elem_of_app; left; by apply H3|]. by apply list_elem_of_singleton in Hin.
  - unfold onSaved, replaceCurrent. split; cbn; [|done|done]. split; [by rewrite length_fmap | by rewrite paths_replace].
  - destruct (pr_tasks p !! k) as [[es i|es i]|] eqn:Ek; [|done..]. pose proof (Forall_lookup_1 _ _ _ _ H2 Ek) as Ht.
    assert (Hp : pager_inv P (set_work (delete k (pr_tasks p)) (pr_log p) (pr_gone p) p)) by (apply inv_set_work; [done | by apply Forall_delete | done]).
    unfold chosen. destruct c as [c|]; [|done]. destruct (es !! i) as [e|]; [|done]. apply inv_set_work; [done| |by apply asked_snoc].
    apply Forall_app. split; [by apply Forall_delete | by apply Forall_singleton].
  - destruct (pr_tasks p !! k) as [[es i|es i]|] eqn:Ek; [done| |done]. pose proof (Forall_lookup_1 _ _ _ _ H2 Ek) as Ht.
    assert (Hp : pager_inv P (set_work (delete k (pr_tasks p)) (pr_log p) (pr_gone p) p)) by (apply inv_set_work; [done | by apply Forall_delete | done]).
    unfold deleted. destruct (es !! i) as [e|]; [|done]. destruct ok; [|done]. apply inv_drop; [done|]. apply inv_set_work; [done | by apply Forall_delete | done].
Qed.
(** Whatever happens while deletions and edits are under way, the pager shows a page, one of
    those it was opened with, and it deletes a file only after a choice for that file, for good
    exactly when that was chosen. *)
Theorem pager_shows_page entries index p evs : pager_open entries index = Some p ->
  let q := run_pager p evs in
  (exists e, current q = Some e /\ entry_path e ∈ paths entries) /\ asked_first (pr_log q).
Proof.
  intros Ho q. assert (Hi : pager_inv (paths entries) q).
  { assert (H0 : pager_inv (paths entries) p).
    { unfold pager_open in Ho. destruct entries as [|e es] eqn:Ee; [done|]. injection Ho as <-. rewrite <- Ee. split; cbn; [split| |]; [unfold clamp_index; subst entries; cbn; lia | by apply Forall_forall | apply Forall_nil_2 | intros a b Hin; by apply elem_of_nil in Hin]. }
    subst q. unfold run_pager. revert H0. generalize p. clear Ho p. induction evs as [|ev evs IH]; intros p H0; [done|]. cbn. apply IH. by apply inv_pager_step. }
  destruct Hi as [[H1 H2] _ H3]. split; [|done]. destruct (lookup_lt_is_Some_2 (pr_entries q) (pr_index q) H1) as [e He]. exists e. split; [done|].
  rewrite Forall_forall in H2. apply H2. apply list_elem_of_fmap. exists e. split; [done | by apply list_elem_of_lookup_2 in He].
Qed.

(** ** One deletion at a time *)

Definition is_remove (ev : PEvent) : bool := match ev with p_remove => true | _ => false end.
Fixpoint one_at_a_time (p : Pager) (evs : list PEvent) : bool :=
  match evs with
  | [] => true
  | ev :: rest => (negb (is_remove ev) || bool_decide (length (pr_tasks p) = 0%nat)) && one_at_a_time (pager_step p ev) rest
  end.
Definition captured (t : PTask) : list Entry * nat := match t with pt_choose es i | pt_delete es i => (es, i) end.
Definition left_over (P gone : list jstr) : list jstr := filter (fun q => q ∉ gone) P.
(** While it is open the pager has the pages that were not deleted, and so has the deletion under way. *)
Record in_step (P : list jstr) (p : Pager) : Prop := {
  is_pages : pr_closed p = false -> paths (pr_entries p) = left_over P (pr_gone p);
  is_tasks : pr_closed p = false -> Forall (fun t => paths (captured t).1 = paths (pr_entries p) /\ ((captured t).2 < length (captured t).1)%nat) (pr_tasks p);
  is_one : (length (pr_tasks p) <= 1)%nat }.
Lemma list_filter_all_in (P : jstr -> Prop) `{!forall x, Decision (P x)} (l : list jstr) : (forall x, x ∈ l -> P x) -> filter P l = l.
Proof. induction l as [|x l IH]; intros Hl; [done|]. rewrite filter_cons_True by (apply Hl; left). rewrite IH; [done|]. intros y Hy. apply Hl. by right. Qed.
Lemma delete_left P gone es i e : NoDup P -> paths es = left_over P gone -> es !! i = Some e -> paths (delete i es) = left_over P (gone ++ [entry_path e]).
Proof.
  intros Hnd Hp He. assert (Hq : paths es !! i = Some (entry_path e)) by (unfold paths; by rewrite list_lookup_fmap, He).
  unfold paths at 1. rewrite list_fmap_delete. fold (paths es). rewrite Hp in Hq |- *.
  assert (Hn : NoDup (left_over P gone)) by (by apply NoDup_filter).
  assert (Hcut : left_over P (gone ++ [entry_path e]) = filter (fun q => q ∉ [entry_path e]) (left_over P gone)).
  { unfold left_over. rewrite list_filter_filter. apply list_filter_iff. intros x. rewrite not_elem_of_app. tauto. }
  rewrite Hcut. clear Hcut Hp He. revert i Hq. induction (left_over P gone) as [|x l IH]; intros i Hq; [done|]. apply NoDup_cons in Hn as [Hx Hn]. destruct i as [|i].
  - injection Hq as ->. change (delete 0%nat (entry_path e :: l)) with l. rewrite filter_cons_False by (intros H; apply H, list_elem_of_singleton; done). symmetry. apply list_filter_all_in.
    intros y Hy H%list_elem_of_singleton. congruence.
  - change (delete (S i) (x :: l)) with (x :: delete i l). rewrite filter_cons_True; [by rewrite IH|]. intros H%list_elem_of_singleton. subst x. apply Hx. by apply (list_elem_of_lookup_2 l i).
Qed.
Lemma in_step_work P ts log p : in_step P p -> (length ts <= 1)%nat ->
  (pr_closed p = false -> Forall (fun t => paths (captured t).1 = paths (pr_entries p) /\ ((captured t).2 < length (captured t).1)%nat) ts) -> in_step P (set_work ts log (pr_gone p) p).
Proof. intros [H1 H2 H3] Hl Ht. by split. Qed.
Lemma one_task {A} k (l : list A) t : (length l <= 1)%nat -> l !! k = Some t -> l = [t] /\ k = 0%nat.
Proof. intros H E. destruct l as [|x [|y l]]; [done | | cbn in H; lia]. destruct k; [by injection E as -> | done]. Qed.
Lemma in_step_deleted P p es i : NoDup P -> in_step P p -> pr_tasks p = [pt_delete es i] -> in_step P (deleted es i true (set_work [] (pr_log p) (pr_gone p) p)).
Proof.
  intros Hnd [H1 H2 H3] Ht. unfold deleted. destruct (es !! i) as [e|] eqn:Ee; [|split; cbn; auto; lia].
  unfold dropCurrent. destruct (Nat.leb_spec (length es) 1); [split; cbn; [discriminate | discriminate | lia]|].
  split; cbn; [|auto|lia]. intros Hc. rewrite (H1 Hc) in *. rewrite Ht in H2. specialize (H2 Hc). apply Forall_singleton in H2 as [Hp _]. cbn in Hp. by apply delete_left.
Qed.
Lemma in_step_step P p ev : NoDup P -> pager_inv P p -> in_step P p -> (is_remove ev = true -> length (pr_tasks p) = 0%nat) -> in_step P (pager_step p ev).
Proof.
  intros Hnd [[Hi _] _ _] H Hr. pose proof H as [H1 H2 H3]. destruct ev as [i|path text| |caps|e|b| |k c|k ok]; cbn [pager_step]; try by split.
  - unfold scrolled. by destruct (_ && _ && _).
  - unfold remove. destruct (current p); [|done]. specialize (Hr eq_refl). destruct (pr_tasks p); [|discriminate Hr]. apply in_step_work; [done | cbn; lia |]. intros _. by apply Forall_singleton.
  - unfold edit. destruct (canEdit caps p) as [[e text]|]; [|done]. by apply in_step_work.
  - unfold onSaved, replaceCurrent. split; cbn; rewrite ?paths_replace; auto.
  - destruct (pr_tasks p !! k) as [[es i|es i]|] eqn:Ek; [|done..]. destruct (one_task k _ _ H3 Ek) as [Et ->]. rewrite Et in *. cbn [delete list_delete].
    unfold chosen. destruct c as [c|]; [|apply in_step_work; [done | cbn; lia | auto]]. destruct (es !! i) as [e|]; [|apply in_step_work; [done | cbn; lia | auto]].
    apply (in_step_work P [pt_delete es i] _ (set_work [] (pr_log p) (pr_gone p) p)); [apply in_step_work; [done | cbn; lia | auto] | cbn; lia |]. intros Hc. specialize (H2 Hc). apply (proj1 (Forall_singleton _ _)) in H2. apply Forall_singleton. exact H2.
  - destruct (pr_tasks p !! k) as [[es i|es i]|] eqn:Ek; [done| |done]. destruct (one_task k _ _ H3 Ek) as [Et ->]. rewrite Et. cbn [delete list_delete].
    destruct ok; [by apply in_step_deleted|]. unfold deleted. destruct (es !! i); (apply in_step_work; [done | cbn; lia | auto]).
Qed.
Lemma in_step_run P evs p : NoDup P -> pager_inv P p -> in_step P p -> one_at_a_time p evs = true -> in_step P (run_pager p evs).
Proof.
  intros Hnd. unfold run_pager. revert p. induction evs as [|ev evs IH]; intros p H0 H1 Hone; [done|]. cbn in Hone |- *. apply andb_true_iff in Hone as [Hr Hone].
  apply IH; [by apply inv_pager_step | | done]. apply in_step_step; [done | done | done |]. intros Hrm. rewrite Hrm in Hr. by apply bool_decide_eq_true in Hr.
Qed.
Lemma pager_open_ok entries index p : pager_open entries index = Some p -> pager_inv (paths entries) p /\ in_step (paths entries) p.
Proof.
  unfold pager_open. destruct entries as [|e es] eqn:Ee; [done|]. intros [= <-]. rewrite <- Ee. split; (split; cbn); try lia.
  - split; [unfold clamp_index; subst entries; cbn; lia | by apply Forall_forall].
  - apply Forall_nil_2.
  - intros a b Hin. by apply elem_of_nil in Hin.
  - intros _. symmetry. apply list_filter_all_in. intros x _. apply not_elem_of_nil.
  - intros _. apply Forall_nil_2.
Qed.
(** As long as no deletion is started while another is under way, the pager has exactly the
    pages it was opened with less those deleted, in their order, until it closes. *)
Theorem pager_pages_in_step entries index p evs : pager_open entries index = Some p -> NoDup (paths entries) -> one_at_a_time p evs = true ->
  let q := run_pager p evs in pr_closed q = false -> paths (pr_entries q) = left_over (paths entries) (pr_gone q).
Proof. intros Ho Hnd Hone q. destruct (pager_open_ok entries index p Ho) as [H0 H1]. by apply (in_step_run (paths entries) evs p). Qed.
End Pages.

Definition page (path : string) : Entry :=
  {| entry_name := js path; entry_path := js path; entry_isDir := false; entry_size := None; entry_mimeType := None; entry_mode := None;
     entry_modified := None; entry_created := None; entry_isSymlink := false; entry_symlinkTarget := None; entry_childCount := None |}.
Definition three_pages : list Entry := [page "/a"; page "/b"; page "/c"].
Definition three_open : Pager :=
  {| pr_entries := three_pages; pr_index := 1; pr_zoomed := false; pr_closed := false; pr_texts := []; pr_changed := 0; pr_tasks := []; pr_log := []; pr_gone := [] |}.
(** Two deletions under way at once: the second puts back the page the first took out. *)
Theorem second_deletion_restores_page `{U : Unicode} :
  let q := run_pager three_open [p_remove; p_chosen 0 (Some to_trash); p_scroll 2; p_remove; p_chosen 1 (Some to_trash); p_deleted 0 true; p_deleted 0 true] in
  pr_gone q = [js "/b"; js "/c"] /\ paths (pr_entries q) = [js "/a"; js "/b"] /\ (entry_path <$> current q) = Some (js "/b").
Proof. vm_compute. split_and!; reflexivity. Qed.
Lemma pager_pages_in_step_witness :
  let q := @run_pager ascii_unicode three_open [p_remove; p_chosen 0 (Some to_trash); p_deleted 0 true] in
  pr_gone q = [js "/b"] /\ paths (pr_entries q) = left_over (paths three_pages) [js "/b"].
Proof.
  split; [vm_compute; reflexivity|].
  refine (@pager_pages_in_step ascii_unicode three_pages 1 three_open [p_remove; p_chosen 0 (Some to_trash); p_deleted 0 true] _ _ _ _); [vm_compute; reflexivity | | vm_compute; reflexivity | vm_compute; reflexivity].
  apply (bool_decide_unpack _). vm_compute. exact I.
Defined.
Lemma pager_shows_page_witness :
  exists e, current (@run_pager ascii_unicode three_open [p_remove; p_chosen 0 (Some to_trash); p_deleted 0 true; p_scroll 9]) = Some e /\ entry_path e ∈ paths three_pages.
Proof. exact (proj1 (@pager_shows_page ascii_unicode three_pages 1 three_open [p_remove; p_chosen 0 (Some to_trash); p_deleted 0 true; p_scroll 9] eq_refl)). Defined.
