(* ===== verification/ExplorerScreen.v ===== *)
(** * The explorer on screen

    [features/explorer/ExplorerScreen.tsx] over the explorer store: which rows are shown, what a
    tap, a long press and the Back key do, selection mode, and the background work of a pin.  The
    store is the state machine of [Explorer]; the screen adds its own state and hands it actions. *)

From Stdlib Require Import ZArith Lia Bool String.
From Stdlib Require List.
From S2P Require Import Prelude JsCollections JsString Json Errors Models Host Paths Entries ExplorerLogic Explorer Preview Collections Transfers.
Local Open Scope js_scope.

Section Screen.
Context `{U : Unicode} `{D : DateParse} (rootPath : jstr) (humanize : jserror -> jstr) (hostId : jstr) (sort : SortOrder) (vis : VisibilityPrefs).

(** ** State *)

(** A pin under way: the pin is saved, then the rest of the folder is listed. *)
Inductive PinTask := pk_saving (path : jstr) | pk_paging (path : jstr) (all : list Entry).
(** [es_opened] are the previews opened, with the page each starts on; [es_precached] what each
    pinned folder hands to the offline copies; [es_pages] the listings a pin asks for. *)
Record ScreenState := {
  es_sys : System; es_selectMode : bool; es_had : bool; es_tag : option (jstr * jstr); es_type : option (jstr * EntryCategory); es_meta : option Entry;
  es_opened : list (list Entry * nat); es_bookmarks : list Bookmark; es_pinned : list Pin; es_pins : list PinTask; es_pages : list (jstr * jstr); es_precached : list (jstr * list Entry) }.
Definition st_of (s : ScreenState) : ExplorerState := st (es_sys s).
Definition path_of (s : ScreenState) : jstr := currentPath (st_of s).
Definition set_sys (y : System) (s : ScreenState) : ScreenState :=
  {| es_sys := y; es_selectMode := es_selectMode s; es_had := es_had s; es_tag := es_tag s; es_type := es_type s; es_meta := es_meta s; es_opened := es_opened s;
     es_bookmarks := es_bookmarks s; es_pinned := es_pinned s; es_pins := es_pins s; es_pages := es_pages s; es_precached := es_precached s |}.
Definition set_mode (mode had : bool) (s : ScreenState) : ScreenState :=
  {| es_sys := es_sys s; es_selectMode := mode; es_had := had; es_tag := es_tag s; es_type := es_type s; es_meta := es_meta s; es_opened := es_opened s;
     es_bookmarks := es_bookmarks s; es_pinned := es_pinned s; es_pins := es_pins s; es_pages := es_pages s; es_precached := es_precached s |}.
Definition set_filters (tag : option (jstr * jstr)) (type : option (jstr * EntryCategory)) (s : ScreenState) : ScreenState :=
  {| es_sys := es_sys s; es_selectMode := es_selectMode s; es_had := es_had s; es_tag := tag; es_type := type; es_meta := es_meta s; es_opened := es_opened s;
     es_bookmarks := es_bookmarks s; es_pinned := es_pinned s; es_pins := es_pins s; es_pages := es_pages s; es_precached := es_precached s |}.
Definition set_shown_sheet (meta : option Entry) (opened : list (list Entry * nat)) (s : ScreenState) : ScreenState :=
  {| es_sys := es_sys s; es_selectMode := es_selectMode s; es_had := es_had s; es_tag := es_tag s; es_type := es_type s; es_meta := meta; es_opened := opened;
     es_bookmarks := es_bookmarks s; es_pinned := es_pinned s; es_pins := es_pins s; es_pages := es_pages s; es_precached := es_precached s |}.
Definition set_pins_work (pinned : list Pin) (pins : list PinTask) (pages : list (jstr * jstr)) (pre : list (jstr * list Entry)) (s : ScreenState) : ScreenState :=
  {| es_sys := es_sys s; es_selectMode := es_selectMode s; es_had := es_had s; es_tag := es_tag s; es_type := es_type s; es_meta := es_meta s; es_opened := es_opened s;
     es_bookmarks := es_bookmarks s; es_pinned := pinned; es_pins := pins; es_pages := pages; es_precached := pre |}.

(** ** Rows *)

Definition display (s : ScreenState) : list Entry := d_display (deriveDisplay (entries (st_of s)) (showHidden (st_of s)) sort vis).
(** A filter applies only to the folder it was picked in. *)
Definition in_folder {A} (path : jstr) (f : option (jstr * A)) : option A := match f with Some (p, x) => if bool_decide (p = path) then Some x else None | None => None end.
Definition activeTag (s : ScreenState) : option jstr := in_folder (path_of s) (es_tag s).
Definition activeType (s : ScreenState) : option EntryCategory := in_folder (path_of s) (es_type s).
Definition taggedPaths (s : ScreenState) : list jstr :=
  match activeTag s with
  | Some (c :: tag) => set_of (bm_remotePath <$> List.filter (fun b => bool_decide (bm_hostId b = hostId) && bool_decide (bm_tag b = Some (c :: tag))) (es_bookmarks s))
  | _ => []
  end.
(** The tags of the rows on display. *)
Definition tags (s : ScreenState) : list jstr :=
  let visible := set_of (entry_path <$> display s) in
  set_of (omap (fun b => if bool_decide (bm_hostId b = hostId) && set_has (bm_remotePath b) visible then match bm_tag b with Some (c :: t) => Some (c :: t) | _ => None end else None) (es_bookmarks s)).
Definition byTag (s : ScreenState) : list Entry := filterByTag (display s) (activeTag s) (taggedPaths s).
Definition chips (s : ScreenState) : list EntryCategory := typeChips (byTag s).
(** The rows of the list. *)
Definition shown (s : ScreenState) : list Entry :=
  filterByType (byTag s) (match activeType s with Some c => if set_has c (chips s) then Some c else None | None => None end).

(** ** Taps, Back and selection *)

Definition do_act (a : Action) (s : ScreenState) : ScreenState := set_sys (act rootPath a (es_sys s)) s.
Definition multi (s : ScreenState) : bool := es_selectMode s || multiSelect (st_of s).
Definition startPreview (e : Entry) (s : ScreenState) : ScreenState :=
  let sib := previewableSiblings (shown s) (entry_path e) in
  set_shown_sheet (es_meta s) (es_opened s ++ [match sib.2 with Some i => (sib.1, i) | None => ([e], 0%nat) end]) s.
Definition openEntry (e : Entry) (s : ScreenState) : ScreenState :=
  if multi s then do_act (a_toggleSelect (entry_path e)) s
  else if entry_isDir e then do_act (a_navigate (entry_path e)) s
  else if isPreviewable e then startPreview e s else set_shown_sheet (Some e) (es_opened s) s.
Definition longPressEntry (e : Entry) (s : ScreenState) : ScreenState :=
  if multiSelect (st_of s) && negb (set_has (entry_path e) (selected (st_of s))) then do_act (a_selectRange (shown s) (entry_path e)) s
  else do_act (a_toggleSelect (entry_path e)) s.
Definition endSelection (s : ScreenState) : ScreenState := do_act a_clearSelection (set_mode false false s).
Definition back (s : ScreenState) : ScreenState := if multi s then endSelection s else do_act a_popDirectory s.
(** The effect that leaves selection mode once the last selected item is gone. *)
Definition settle_mode (s : ScreenState) : ScreenState :=
  if multiSelect (st_of s) then set_mode (es_selectMode s) true s
  else if es_had s then set_mode false false s else s.
Definition detailsOfSelected (s : ScreenState) : ScreenState :=
  match selected (st_of s) with
  | only :: _ =>
      match List.find (fun e => bool_decide (entry_path e = only)) (entries (st_of s)) with
      | Some e => set_shown_sheet (Some e) (es_opened s) (do_act a_clearSelection s)
      | None => s
      end
  | [] => s
  end.
(** [tag]: what the prompt answers; the empty text saves the bookmark without a tag. *)
Definition set_bookmarks (l : list Bookmark) (s : ScreenState) : ScreenState :=
  {| es_sys := es_sys s; es_selectMode := es_selectMode s; es_had := es_had s; es_tag := es_tag s; es_type := es_type s; es_meta := es_meta s; es_opened := es_opened s;
     es_bookmarks := l; es_pinned := es_pinned s; es_pins := es_pins s; es_pages := es_pages s; es_precached := es_precached s |}.
Definition bookmark (e : Entry) (ok : bool) (tag : option jstr) (s : ScreenState) : ScreenState :=
  if existsb (same_bookmark hostId (entry_path e)) (es_bookmarks s) then
    if ok then set_bookmarks (removeBookmark (es_bookmarks s) hostId (entry_path e)) s else s
  else match tag with
       | None => s
       | Some t => set_bookmarks (upsertBookmark (es_bookmarks s) {| bm_hostId := hostId; bm_remotePath := entry_path e; bm_tag := if bool_decide (t = []) then None else Some t; bm_color := None |}) s
       end.
Definition bookmarkSelected (ok : bool) (tag : option jstr) (s : ScreenState) : ScreenState :=
  match selected (st_of s) with
  | only :: _ => match List.find (fun e => bool_decide (entry_path e = only)) (entries (st_of s)) with Some e => bookmark e ok tag (do_act a_clearSelection s) | None => s end
  | [] => s
  end.
(** More rows are asked for at the end of the list, not under a tag. *)
Definition showMore (s : ScreenState) : bool := is_some (nextCursor (st_of s)) && negb (match activeTag s with Some (_ :: _) => true | _ => false end).
Definition end_reached (s : ScreenState) : ScreenState := if showMore s then do_act (a_loadMore false) s else s.
(** A finished upload into the folder on screen refreshes it. *)
Definition upload_done (host remotePath : jstr) (s : ScreenState) : ScreenState :=
  if bool_decide (host = hostId) && bool_decide (parentDirOf remotePath = path_of s) then do_act a_load s else s.

(** ** Pinning *)

Definition togglePin (s : ScreenState) : ScreenState :=
  if isPinned (es_pinned s) hostId (path_of s) then set_pins_work (removePin (es_pinned s) hostId (path_of s)) (es_pins s) (es_pages s) (es_precached s) s
  else set_pins_work (addPin (es_pinned s) {| pin_hostId := hostId; pin_remotePath := path_of s |}) (es_pins s ++ [pk_saving (path_of s)]) (es_pages s) (es_precached s) s.
(** The pages after what is known; [None]: no cursor. *)
Definition pin_next (path : jstr) (all : list Entry) (cursor : option jstr) (s : ScreenState) : ScreenState :=
  match cursor with
  | Some (c :: cur) => set_pins_work (es_pinned s) (es_pins s ++ [pk_paging path all]) (es_pages s ++ [(path, c :: cur)]) (es_precached s) s
  | _ => set_pins_work (es_pinned s) (es_pins s) (es_pages s) (es_precached s ++ [(path, all)]) s
  end.
(** The pin is saved: the rows and the cursor of the store are read now. *)
Definition pin_saved (path : jstr) (s : ScreenState) : ScreenState := pin_next path (entries (st_of s)) (nextCursor (st_of s)) s.
Definition pin_page (path : jstr) (all : list Entry) (r : option Listing) (s : ScreenState) : ScreenState :=
  match r with Some l => pin_next path (all ++ listing_entries l) (listing_nextCursor l) s | None => pin_next path all None s end.
Definition drop_pin (k : nat) (s : ScreenState) : ScreenState := set_pins_work (es_pinned s) (delete k (es_pins s)) (es_pages s) (es_precached s) s.

Inductive SEvent :=
| s_store (ev : Event) | s_tap (e : Entry) | s_long (e : Entry) | s_back | s_select | s_end | s_tag (t : option jstr) | s_type (c : option EntryCategory) | s_details | s_close
| s_all | s_invert | s_bookmark (ok : bool) (tag : option jstr) | s_more
| s_upload (host remotePath : jstr) | s_pin | s_pin_saved (k : nat) | s_pin_page (k : nat) (r : option Listing).
Definition handle (s : ScreenState) (ev : SEvent) : ScreenState :=
  match ev with
  | s_store ev => match step rootPath humanize ev (es_sys s) with Some y => set_sys y s | None => s end
  | s_tap e => openEntry e s
  | s_long e => longPressEntry e s
  | s_back => back s
  | s_select => set_mode true (es_had s) s
  | s_end => endSelection s
  | s_tag t => set_filters (match t with Some (c :: x) => Some (path_of s, c :: x) | _ => None end) (es_type s) s
  | s_type c => set_filters (es_tag s) (pair (path_of s) <$> c) s
  | s_details => detailsOfSelected s
  | s_close => set_shown_sheet None (es_opened s) s
  | s_all => do_act (a_selectAll (shown s)) s
  | s_invert => do_act (a_invertSelection (shown s)) s
  | s_bookmark ok tag => bookmarkSelected ok tag s
  | s_more => end_reached s
  | s_upload host remotePath => upload_done host remotePath s
  | s_pin => togglePin s
  | s_pin_saved k => match es_pins s !! k with Some (pk_saving path) => pin_saved path (drop_pin k s) | _ => s end
  | s_pin_page k r => match es_pins s !! k with Some (pk_paging path all) => pin_page path all r (drop_pin k s) | _ => s end
  end.
Definition screen_step (s : ScreenState) (ev : SEvent) : ScreenState := settle_mode (handle s ev).
Definition run_screen (s : ScreenState) (evs : list SEvent) : ScreenState := fold_left screen_step evs s.
Definition screen_open (y : System) (bookmarks : list Bookmark) (pinned : list Pin) : ScreenState :=
  settle_mode {| es_sys := y; es_selectMode := false; es_had := false; es_tag := None; es_type := None; es_meta := None; es_opened := [];
     es_bookmarks := bookmarks; es_pinned := pinned; es_pins := []; es_pages := []; es_precached := [] |}.

(** ** Selection mode *)

(** What no tap in selection mode may touch: the folder, its rows, the requests and the sheets. *)
Definition browsing (s : ScreenState) :=
  (pathStack (st_of s), entries (st_of s), generation (es_sys s), tasks (es_sys s), sent (es_sys s), es_opened s, es_meta s).
Lemma settle_browsing s : browsing (settle_mode s) = browsing s.
Proof. unfold settle_mode. by repeat case_match. Qed.
Lemma settle_st s : st_of (settle_mode s) = st_of s.
Proof. unfold settle_mode. by repeat case_match. Qed.
Lemma toggle_browsing p s : browsing (do_act (a_toggleSelect p) s) = browsing s.
Proof. unfold browsing, st_of. cbn. by case_match. Qed.
Lemma range_browsing l p s : browsing (do_act (a_selectRange l p) s) = browsing s.
Proof. unfold browsing, st_of. cbn. by case_match. Qed.

(** Every step but one that ends selection mode keeps what the effect remembers. *)
Lemma handle_had s ev : es_had (handle s ev) = es_had s \/ (es_selectMode (handle s ev) = false /\ selected (st_of (handle s ev)) = []).
Proof.
  destruct ev; cbn; try (by left).
  - case_match; by left.
  - unfold openEntry, startPreview. repeat case_match; by left.
  - unfold longPressEntry. case_match; by left.
  - unfold back. case_match; [by right | by left].
  - by right.
  - unfold detailsOfSelected. repeat case_match; by left.
  - unfold bookmarkSelected, bookmark. repeat case_match; by left.
  - unfold end_reached. case_match; by left.
  - unfold upload_done. case_match; by left.
  - unfold togglePin. case_match; by left.
  - unfold pin_saved, pin_next. repeat case_match; by left.
  - unfold pin_page, pin_next. repeat case_match; by left.
Qed.
Lemma multi_of (x : ExplorerState) : multiSelect x = negb (bool_decide (selected x = [])).
Proof. done. Qed.

Definition at_rest (s : ScreenState) : Prop := es_had s = multiSelect (st_of s).
Lemma settle_rest s : at_rest (settle_mode s).
Proof. unfold at_rest. rewrite settle_st. unfold settle_mode. destruct (multiSelect (st_of s)); [done|]. by destruct (es_had s) eqn:E. Qed.
Lemma run_rest evs s : at_rest s -> at_rest (run_screen s evs).
Proof. intros H. unfold run_screen. destruct evs as [|ev evs _] using rev_ind; [done|]. rewrite fold_left_app. apply settle_rest. Qed.

(** Selection mode ends with its last item: after any events from the opening of the screen, a
    step that leaves nothing selected where something was (an item unticked, a finished action, a
    folder opened, the rows reloaded) leaves selection mode too. *)
Theorem selection_ends_with_last y bookmarks pinned evs ev :
  let s := run_screen (screen_open y bookmarks pinned) evs in
  multiSelect (st_of s) = true -> multiSelect (st_of (screen_step s ev)) = false -> multi (screen_step s ev) = false.
Proof.
  cbv zeta. set (s := run_screen _ _). intros H1 H2.
  assert (at_rest s) as Hr by apply run_rest, settle_rest.
  unfold screen_step in *. unfold multi. rewrite H2, orb_false_r. rewrite settle_st in H2.
  unfold settle_mode. rewrite H2. destruct (handle_had s ev) as [E|[E _]].
  - by rewrite E, Hr, H1.
  - by destruct (es_had _).
Qed.

Lemma range_shown l a t x : x ∈ rangePaths (entry_path <$> l) a t -> x ∈ entry_path <$> l.
Proof. intros H. destruct (rangePaths_run (entry_path <$> l) a t) as [(b & f & E) _]. rewrite E, !elem_of_app. auto. Qed.

Lemma toggle_selects q s p :
  p ∈ selected (st_of (do_act (a_toggleSelect q) s)) <-> if decide (p = q) then p ∉ selected (st_of s) else p ∈ selected (st_of s).
Proof.
  unfold st_of. cbn. destruct (set_has q _) eqn:E.
  - apply set_has_spec in E. cbn. rewrite elem_set_delete. destruct (decide (p = q)) as [->|]; tauto.
  - apply set_has_false in E. cbn. rewrite elem_set_add. destruct (decide (p = q)) as [->|]; tauto.
Qed.
Lemma toggle_within q s p : p ∈ selected (st_of (do_act (a_toggleSelect q) s)) -> p ∈ selected (st_of s) \/ p = q.
Proof. rewrite toggle_selects. case_decide; auto. Qed.
Lemma long_within e s p : e ∈ shown s -> p ∈ selected (st_of (longPressEntry e s)) -> p ∈ selected (st_of s) \/ p ∈ entry_path <$> shown s.
Proof.
  intros He. unfold longPressEntry. case_match.
  - unfold st_of. cbn. case_match eqn:R; [auto|]. cbn. rewrite elem_set_of, elem_of_app, <- R. intros [?|?%range_shown]; auto.
  - intros [?| ->]%toggle_within; [by left|]. right. by apply list_elem_of_fmap_2.
Qed.
Lemma long_browsing e s : browsing (longPressEntry e s) = browsing s.
Proof. unfold longPressEntry. case_match; [apply range_browsing | apply toggle_browsing]. Qed.
Lemma invert_selects s p : p ∈ selected (st_of (do_act (a_invertSelection (shown s)) s)) <-> p ∈ entry_path <$> shown s /\ p ∉ selected (st_of s).
Proof.
  unfold st_of at 1. cbn. rewrite elem_set_of, elem_filter_bool, elem_set_of, negb_true_iff, set_has_false. done.
Qed.

(** C18 In selection mode taps, long presses, Back, All and Invert only change the selection: no
    folder is opened, nothing is asked of the computer and no preview or sheet opens.  What they
    add is on screen, Back clears the selection, and a tap turns its own row. *)
Theorem selecting_only_selects s ev :
  multi s = true -> match ev with s_tap e | s_long e => e ∈ shown s | s_back | s_all | s_invert => True | _ => False end ->
  let s' := screen_step s ev in
  browsing s' = browsing s /\
  (forall p, p ∈ selected (st_of s') -> p ∈ selected (st_of s) \/ p ∈ entry_path <$> shown s) /\
  match ev with
  | s_back => selected (st_of s') = [] /\ multi s' = false
  | s_tap e => forall p, p ∈ selected (st_of s') <-> if decide (p = entry_path e) then p ∉ selected (st_of s) else p ∈ selected (st_of s)
  | s_all => forall p, p ∈ selected (st_of s') <-> p ∈ entry_path <$> shown s
  | s_invert => forall p, p ∈ selected (st_of s') <-> p ∈ entry_path <$> shown s /\ p ∉ selected (st_of s)
  | _ => True
  end.
Proof.
  intros Hm Hev s'. unfold s', screen_step. rewrite settle_browsing, !settle_st.
  destruct ev; try done; cbn.
  - unfold openEntry. rewrite Hm. split; [apply toggle_browsing|]. split; [|apply toggle_selects].
    intros p [?| ->]%toggle_within; [by left|]. right. by apply list_elem_of_fmap_2.
  - split; [apply long_browsing|]. split; [|done]. intros p. by apply long_within.
  - unfold back. rewrite Hm. split; [done|]. split; [by intros p Hp%elem_of_nil|]. done.
  - split; [done|]. assert (forall p, p ∈ selected (st_of (do_act (a_selectAll (shown s)) s)) <-> p ∈ entry_path <$> shown s) as E by (intros p; apply elem_set_of). split; [|apply E]. intros p ?%E. by right.
  - split; [done|]. split; [|apply invert_selects]. intros p [? _]%invert_selects. by right.
Qed.

(** ** The rows shown *)

Lemma sublist_filter_bool {A} (P : A -> bool) (l : list A) : List.filter P l `sublist_of` l.
Proof. induction l as [|x l IH]; cbn; [done|]. case_match; by constructor. Qed.
Lemma in_folder_some {A} path (f : option (jstr * A)) x : in_folder path f = Some x -> f = Some (path, x).
Proof. destruct f as [[p a]|]; [|done]. cbn. case_bool_decide; [|done]. intros [= ->]. by subst. Qed.
Lemma chips_present s c : c ∈ chips s -> exists e, e ∈ byTag s /\ categoryOf e = c.
Proof.
  unfold chips, typeChips. case_match; [|by intros ?%elem_of_nil].
  intros [_ Hc]%elem_filter_bool. apply set_has_spec, elem_set_of, list_elem_of_fmap in Hc as (e & -> & He). by exists e.
Qed.
Lemma elem_filter_type l o e : e ∈ filterByType l o <-> e ∈ l /\ forall c, o = Some c -> categoryOf e = c.
Proof.
  destruct o as [c|]; cbn; [|by split; [|intros [? _]]]. rewrite elem_filter_bool, bool_decide_eq_true. split.
  - intros [? <-]. split; [done|]. by intros c' [= ->].
  - intros [? H]. split; [done|]. by apply H.
Qed.
Lemma elem_taggedPaths s p t : activeTag s = Some t -> t <> [] ->
  p ∈ taggedPaths s <-> exists b, b ∈ es_bookmarks s /\ bm_hostId b = hostId /\ bm_tag b = Some t /\ bm_remotePath b = p.
Proof.
  intros E Ht. unfold taggedPaths. rewrite E. destruct t as [|c t]; [done|]. rewrite elem_set_of, list_elem_of_fmap.
  setoid_rewrite elem_filter_bool. setoid_rewrite andb_true_iff. setoid_rewrite bool_decide_eq_true. naive_solver.
Qed.

(** The list shows rows of the folder in their order, those with a bookmark of the tag and of the
    kind picked in this folder.  A filter picked in another folder is not in force, and picking a
    kind never empties a list that has rows. *)
Theorem shown_filtered s :
  shown s `sublist_of` display s /\
  (forall e t, e ∈ shown s -> activeTag s = Some t -> t <> [] ->
     exists b, b ∈ es_bookmarks s /\ bm_hostId b = hostId /\ bm_remotePath b = entry_path e /\ bm_tag b = Some t) /\
  (forall e c, e ∈ shown s -> activeType s = Some c -> c ∈ chips s -> categoryOf e = c) /\
  (byTag s <> [] -> shown s <> []) /\
  ((forall t, es_tag s <> Some (path_of s, t)) -> (forall c, es_type s <> Some (path_of s, c)) -> shown s = display s).
Proof.
  assert (byTag s `sublist_of` display s) as Hs by (unfold byTag, filterByTag; repeat case_match; try done; apply sublist_filter_bool).
  assert (shown s `sublist_of` byTag s) as Hb by (unfold shown, filterByType; case_match; [apply sublist_filter_bool | done]).
  split; [by etrans|]. split_and!.
  - intros e t He Ht Hn. assert (e ∈ byTag s) as H by (by eapply elem_of_sublist). unfold byTag, filterByTag in H. rewrite Ht in H. destruct t; [done|].
    apply elem_filter_bool in H as [_ H%set_has_spec]. apply (elem_taggedPaths _ _ _ Ht Hn) in H. naive_solver.
  - intros e c He Hc Hin. unfold shown in He. rewrite Hc in He. rewrite (proj2 (set_has_spec _ _) Hin) in He. apply elem_filter_type in He as [_ H]. by apply H.
  - intros Hn. unfold shown. destruct (activeType s) as [c|] eqn:Ec; [|done]. destruct (set_has c (chips s)) eqn:E; [|done].
    apply set_has_spec, chips_present in E as (e & He & Hc). intros Hnil. apply (not_elem_of_nil e). rewrite <- Hnil. apply elem_filter_type. split; [done|]. by intros ? [= <-].
  - intros Ht Hc. unfold shown, byTag. destruct (activeTag s) as [t|] eqn:E; [by apply in_folder_some, Ht in E|].
    destruct (activeType s) as [c|] eqn:E'; [by apply in_folder_some, Hc in E'|]. done.
Qed.

(** A tap on a file that can be previewed opens the pager on the row tapped, among the
    previewable rows of the list in their order. *)
Theorem tap_previews_row s e :
  multi s = false -> entry_isDir e = false -> isPreviewable e = true -> e ∈ shown s ->
  exists rows i r, es_opened (screen_step s (s_tap e)) = es_opened s ++ [(rows, i)] /\ rows `sublist_of` shown s /\
    (forall x, x ∈ rows <-> x ∈ shown s /\ isPreviewable x = true) /\ rows !! i = Some r /\ entry_path r = entry_path e.
Proof.
  intros Hm Hd Hp He. assert (es_opened (screen_step s (s_tap e)) = es_opened (startPreview e s)) as ->.
  { unfold screen_step, handle, openEntry. rewrite Hm, Hd, Hp. unfold settle_mode. by repeat case_match. }
  unfold startPreview, set_shown_sheet, es_opened. pose proof (previewableSiblings_correct (shown s) (entry_path e)) as H.
  destruct (previewableSiblings (shown s) (entry_path e)) as [rows [i|]]; cbn [fst snd].
  - destruct H as (Hx & Hsub & r & Hr & Hpath). exists rows, i, r. by split_and!.
  - destruct H as (Hx & _ & Hno). exfalso. apply (Hno e); [|done]. by apply Hx.
Qed.
End Screen.

(** ** Concrete screens *)

#[local] Instance sample_dates : DateParse := fun _ => None.
Definition pc : jstr := js "pc".
Definition row (path name : string) : Entry := sample_entry (js path) (js name).
Definition folder (path : string) (rows : list Entry) (cursor : option jstr) : System :=
  upd (show_listing {| listing_path := js path; listing_entries := rows; listing_nextCursor := cursor |} (set_pathStack [js path] (initial_state (js path)))) (initial (js path) []).
Definition sample_open (bookmarks : list Bookmark) : ScreenState := screen_open (folder "/r" [row "/r" "a.png"; row "/r" "b.txt"] None) bookmarks [].
Definition go := @run_screen ascii_unicode _ (js "/r") errMessage pc defaultSort defaultVisibility.
Definition on_screen := @shown ascii_unicode _ pc defaultSort defaultVisibility.
Definition tagged (name : string) : Bookmark := {| bm_hostId := pc; bm_remotePath := js "/r/" ++ js name; bm_tag := Some (js "work"); bm_color := None |}.

(** A selected row is not let go when a filter takes it off the screen: with [b.txt] selected, the
    tag of [a.png] is picked, and the deletion that follows takes the row that is not shown. *)
Theorem filter_keeps_hidden_selection :
  let s := go (sample_open [tagged "a.png"]) [s_long (row "/r" "b.txt"); s_tag (Some (js "work")); s_store (user (a_deleteSelected false)); s_store (settle 0 O_client)] in
  (entry_name <$> on_screen s) = [js "a.png"] /\ sent (es_sys s) = [R_delete [js "/r/b.txt"] false].
Proof. vm_compute. done. Qed.

(** A tag filter outlives its chip: with the only bookmark of the tag removed the list stays empty,
    though the folder has rows and no chip is left to leave the filter with. *)
Theorem tag_filter_outlives_chip :
  let s := go (sample_open [tagged "a.png"]) [s_tag (Some (js "work")); s_long (row "/r" "a.png"); s_bookmark true None] in
  on_screen s = [] /\ @tags ascii_unicode _ pc defaultSort defaultVisibility s = [] /\
  length (@display ascii_unicode _ defaultSort defaultVisibility s) = 2%nat /\ es_bookmarks s = [].
Proof. vm_compute. done. Qed.

(** The rows a pin hands to the offline copies are read after the pin is saved: where another
    folder was opened meanwhile, its rows and its cursor are taken, and the cursor is sent with
    the path of the pinned folder. *)
Theorem pin_reads_other_folder :
  let other := {| listing_path := js "/r/d"; listing_entries := [row "/r/d" "x"]; listing_nextCursor := Some (js "c1") |} in
  let s := go (sample_open []) [s_pin; s_store (user (a_navigate (js "/r/d"))); s_store (settle 0 O_cached); s_store (settle 0 O_client); s_store (settle 0 (O_listing other)); s_pin_saved 0; s_pin_page 0 None] in
  es_pages s = [(js "/r", js "c1")] /\ es_precached s = [(js "/r", [row "/r/d" "x"])].
Proof. vm_compute. done. Qed.

Lemma selection_ends_with_last_witness :
  let s := go (sample_open []) [s_select; s_tap (row "/r" "a.png")] in
  multi s = true /\ multi (@screen_step ascii_unicode _ (js "/r") errMessage pc defaultSort defaultVisibility s (s_tap (row "/r" "a.png"))) = false.
Proof.
  split; [by vm_compute|].
  apply (@selection_ends_with_last ascii_unicode _ (js "/r") errMessage pc defaultSort defaultVisibility (folder "/r" [row "/r" "a.png"; row "/r" "b.txt"] None) [] [] [s_select; s_tap (row "/r" "a.png")] (s_tap (row "/r" "a.png"))); by vm_compute.
Defined.
Lemma selecting_only_selects_witness :
  let s := go (sample_open []) [s_select] in
  browsing (@screen_step ascii_unicode _ (js "/r") errMessage pc defaultSort defaultVisibility s (s_tap (row "/r" "a.png"))) = browsing s.
Proof.
  apply (@selecting_only_selects ascii_unicode _ (js "/r") errMessage pc defaultSort defaultVisibility (go (sample_open []) [s_select]) (s_tap (row "/r" "a.png"))).
  - by vm_compute.
  - vm_compute. apply list_elem_of_here.
Defined.
Lemma tap_previews_row_witness :
  let s := sample_open [] in
  exists rows i r, es_opened (@screen_step ascii_unicode _ (js "/r") errMessage pc defaultSort defaultVisibility s (s_tap (row "/r" "b.txt"))) = [(rows, i)] /\ rows !! i = Some r /\ entry_path r = js "/r/b.txt".
Proof.
  destruct (@tap_previews_row ascii_unicode _ (js "/r") errMessage pc defaultSort defaultVisibility (sample_open []) (row "/r" "b.txt")) as (rows & i & r & E & _ & _ & Hr & Hp).
  - by vm_compute.
  - by vm_compute.
  - by vm_compute.
  - vm_compute. apply list_elem_of_further, list_elem_of_here.
  - exists rows, i, r. by repeat split.
Defined.
