(* ===== verification/TransfersScreen.v ===== *)
(** * The transfers page

    [features/transfers/TransfersScreen.tsx]: the rows kept from one listing of the native engine
    and the changes it tells, the actions offered on a row, the menu, and forgetting rows. *)

From Stdlib Require Import ZArith Lia Bool Permutation String.
From Stdlib Require List.
From stdpp Require Import gmap.
From S2P Require Import Prelude JsCollections JsString Json Errors Models Entries Paths Host Transfers.
Local Open Scope js_scope.

#[global] Instance TransferState_eq_dec : EqDecision TransferState.
Proof. solve_decision. Defined.

(** ** Rows and their actions *)

Inductive RowKey := rk_pause | rk_resume | rk_retry | rk_open | rk_verify | rk_cancel | rk_remove.
(** What is asked of the engine, with the row as it was on screen. *)
Inductive Call := c_pause (r : TransferRecord) | c_resume (r : TransferRecord) | c_cancel (r : TransferRecord) | c_remove (r : TransferRecord) | c_open (r : TransferRecord) | c_verify (r : TransferRecord).
Definition row_live (r : TransferRecord) : bool := is_state RUNNING r || is_state QUEUED r.
Definition openable (r : TransferRecord) : bool := is_state DONE r && is_some (truthy (tr_publicUri r)).
Definition row_actions (checking : bool) (r : TransferRecord) : list RowKey :=
  (if row_live r then [rk_pause] else []) ++ (if is_state PAUSED r then [rk_resume] else []) ++ (if is_state FAILED r then [rk_retry] else []) ++
  (if openable r then [rk_open] else []) ++ (if is_state DONE r && negb (isUpload r) && negb checking then [rk_verify] else []) ++
  (if row_live r || is_state PAUSED r then [rk_cancel] else []) ++ (if is_state FAILED r || is_state DONE r || is_state CANCELLED r then [rk_remove] else []).

(** ** The page *)

(** One [forget]: its rows, the ids whose removal is not answered yet, those the engine removed,
    and whether one failed. *)
Record Job := { fg_rows : list TransferRecord; fg_left : list jstr; fg_gone : list jstr; fg_failed : bool }.
(** [tp_menus] are the open menus with the groups they were opened on, [tp_forgets] the removals
    that wait for an answer or failed; [tp_checking] the rows whose download is being verified. *)
Record Page := { tp_items : option (list TransferRecord); tp_subscribed : bool; tp_checking : list jstr; tp_menus : list TransferGroups; tp_forgets : list Job; tp_calls : list Call }.
Definition set_items (items : option (list TransferRecord)) (p : Page) : Page :=
  {| tp_items := items; tp_subscribed := tp_subscribed p; tp_checking := tp_checking p; tp_menus := tp_menus p; tp_forgets := tp_forgets p; tp_calls := tp_calls p |}.
Definition set_work (checking : list jstr) (menus : list TransferGroups) (forgets : list Job) (p : Page) : Page :=
  {| tp_items := tp_items p; tp_subscribed := tp_subscribed p; tp_checking := checking; tp_menus := menus; tp_forgets := forgets; tp_calls := tp_calls p |}.
Definition call (cs : list Call) (p : Page) : Page :=
  {| tp_items := tp_items p; tp_subscribed := tp_subscribed p; tp_checking := tp_checking p; tp_menus := tp_menus p; tp_forgets := tp_forgets p; tp_calls := tp_calls p ++ cs |}.
Definition page_open : Page := {| tp_items := None; tp_subscribed := true; tp_checking := []; tp_menus := []; tp_forgets := []; tp_calls := [] |}.
Definition leave (p : Page) : Page :=
  {| tp_items := tp_items p; tp_subscribed := false; tp_checking := tp_checking p; tp_menus := tp_menus p; tp_forgets := tp_forgets p; tp_calls := tp_calls p |}.

Definition listed (l : list TransferRecord) (p : Page) : Page := if tp_subscribed p then set_items (Some l) p else p.
Definition put_row (r : TransferRecord) (l : list TransferRecord) : list TransferRecord := List.filter (fun x => negb (bool_decide (tr_id x = tr_id r))) l ++ [r].
Definition changed (r : TransferRecord) (p : Page) : Page := if tp_subscribed p then set_items (Some (put_row r (default [] (tp_items p)))) p else p.
Definition without (rs l : list TransferRecord) : list TransferRecord := List.filter (fun x => negb (set_has (tr_id x) (set_of (tr_id <$> rs)))) l.
Definition with_forgets (js : list Job) (p : Page) : Page := set_work (tp_checking p) (tp_menus p) js p.
(** The rows of a [forget] leave the page once the engine removed every one of them. *)
Definition settle (k : nat) (p : Page) : Page :=
  match tp_forgets p !! k with
  | Some j => match fg_left j, fg_failed j with
              | [], false => set_items (Some (without (fg_rows j) (default [] (tp_items p)))) (with_forgets (delete k (tp_forgets p)) p)
              | _, _ => p
              end
  | None => p
  end.
(** [forget]: all removals are asked for at once. *)
Definition forget (rs : list TransferRecord) (p : Page) : Page :=
  settle (length (tp_forgets p))
    (call (c_remove <$> rs) (with_forgets (tp_forgets p ++ [{| fg_rows := rs; fg_left := tr_id <$> rs; fg_gone := []; fg_failed := false |}]) p)).
(** The answer to the [i]-th removal a [forget] waits for. *)
Definition answer_job (i : nat) (id : jstr) (ok : bool) (j : Job) : Job :=
  {| fg_rows := fg_rows j; fg_left := delete i (fg_left j); fg_gone := if ok then fg_gone j ++ [id] else fg_gone j; fg_failed := fg_failed j || negb ok |}.
Definition removal_of (k i : nat) (p : Page) : option jstr := j ← tp_forgets p !! k; fg_left j !! i.
Definition removed (k i : nat) (ok : bool) (p : Page) : Page :=
  match removal_of k i p with
  | Some id => settle k (with_forgets (alter (answer_job i id ok) k (tp_forgets p)) p)
  | None => p
  end.
Definition row_of (id : jstr) (p : Page) : option TransferRecord := List.find (fun r => bool_decide (tr_id r = id)) (default [] (tp_items p)).
(** Pressing an action of a row. *)
Definition press (k : RowKey) (r : TransferRecord) (p : Page) : Page :=
  match k with
  | rk_pause => call [c_pause r] p
  | rk_resume | rk_retry => call [c_resume r] p
  | rk_open => call [c_open r] p
  | rk_verify => call [c_verify r] (set_work (set_add (tr_id r) (tp_checking p)) (tp_menus p) (tp_forgets p) p)
  | rk_cancel => call [c_cancel r] p
  | rk_remove => forget [r] p
  end.
Definition checking_row (r : TransferRecord) (p : Page) : bool := set_has (tr_id r) (tp_checking p).
Definition tap (r : TransferRecord) (p : Page) : Page := if is_state PAUSED r then call [c_resume r] p else if openable r then call [c_open r] p else p.

Inductive MenuKey := mk_retryAll | mk_clear | mk_clearFailed | mk_files.
#[global] Instance MenuKey_eq_dec : EqDecision MenuKey.
Proof. solve_decision. Defined.
#[global] Instance RowKey_eq_dec : EqDecision RowKey.
Proof. solve_decision. Defined.
Definition menu_options (g : TransferGroups) : list MenuKey :=
  (match retryableFailures (g_failed g) with [] => [] | _ => [mk_retryAll] end) ++ (match g_finished g with [] => [] | _ => [mk_clear] end) ++
  (match g_failed g with [] => [] | _ => [mk_clearFailed] end) ++ [mk_files].
Definition picked (g : TransferGroups) (k : option MenuKey) (p : Page) : Page :=
  match k with
  | Some mk_retryAll => call (c_resume <$> retryableFailures (g_failed g)) p
  | Some mk_clear => forget (g_finished g) p
  | Some mk_clearFailed => forget (g_failed g) p
  | _ => p
  end.

Section Page.
Context `{C : Collation}.
Definition groups (p : Page) : TransferGroups := groupTransfers (default [] (tp_items p)).
Definition more (p : Page) : Page := set_work (tp_checking p) (tp_menus p ++ [groups p]) (tp_forgets p) p.

Inductive TEvent :=
| te_listed (l : list TransferRecord) | te_event (r : TransferRecord) | te_press (id : jstr) (k : RowKey) | te_tap (id : jstr) | te_verified (id : jstr) | te_clear
| te_more | te_pick (k : nat) (c : option MenuKey) | te_removed (k i : nat) (ok : bool) | te_leave.
Definition page_step (p : Page) (ev : TEvent) : Page :=
  match ev with
  | te_listed l => listed l p
  | te_event r => changed r p
  | te_press id k => match row_of id p with Some r => if bool_decide (k ∈ row_actions (checking_row r p) r) then press k r p else p | None => p end
  | te_tap id => match row_of id p with Some r => tap r p | None => p end
  | te_verified id => set_work (set_delete id (tp_checking p)) (tp_menus p) (tp_forgets p) p
  | te_clear => match g_finished (groups p) with [] => p | rs => forget rs p end
  | te_more => more p
  | te_pick k c =>
      match tp_menus p !! k with
      | Some g => let p := set_work (tp_checking p) (delete k (tp_menus p)) (tp_forgets p) p in
                  match c with Some c => if bool_decide (c ∈ menu_options g) then picked g (Some c) p else p | None => p end
      | None => p
      end
  | te_removed k i ok => removed k i ok p
  | te_leave => leave p
  end.
Definition run_page (p : Page) (evs : list TEvent) : Page := fold_left page_step evs p.

(** ** Calls fit the rows *)

Definition fits (c : Call) : Prop :=
  match c with
  | c_pause r => tr_state r = RUNNING \/ tr_state r = QUEUED
  | c_resume r => tr_state r = PAUSED \/ tr_state r = FAILED
  | c_cancel r => tr_state r = RUNNING \/ tr_state r = QUEUED \/ tr_state r = PAUSED
  | c_remove r => tr_state r = DONE \/ tr_state r = CANCELLED \/ tr_state r = FAILED
  | c_open r => tr_state r = DONE /\ is_some (truthy (tr_publicUri r)) = true
  | c_verify r => tr_state r = DONE /\ isUpload r = false
  end.
Definition key_call (k : RowKey) (r : TransferRecord) : Call :=
  match k with rk_pause => c_pause r | rk_resume | rk_retry => c_resume r | rk_open => c_open r | rk_verify => c_verify r | rk_cancel => c_cancel r | rk_remove => c_remove r end.
Lemma press_calls k r p : tp_calls (press k r p) = tp_calls p ++ [key_call k r] /\ tp_menus (press k r p) = tp_menus p.
Proof. destruct k; try done. cbn [press]. unfold forget, settle. by repeat case_match. Qed.
Lemma elem_if {A} (b : bool) (x y : A) : y ∈ (if b then [x] else []) <-> b = true /\ y = x.
Proof. destruct b; [rewrite list_elem_of_singleton | rewrite elem_of_nil]; naive_solver. Qed.
Lemma elem_row_actions checking r k : k ∈ row_actions checking r <->
  match k with
  | rk_pause => row_live r = true
  | rk_resume => is_state PAUSED r = true
  | rk_retry => is_state FAILED r = true
  | rk_open => openable r = true
  | rk_verify => is_state DONE r && negb (isUpload r) && negb checking = true
  | rk_cancel => row_live r || is_state PAUSED r = true
  | rk_remove => is_state FAILED r || is_state DONE r || is_state CANCELLED r = true
  end.
Proof. unfold row_actions. rewrite !elem_of_app, !elem_if. destruct k; intuition congruence. Qed.
Lemma action_fits checking r k : k ∈ row_actions checking r -> fits (key_call k r).
Proof.
  rewrite elem_row_actions. unfold openable, row_live, is_state.
  destruct k; cbn; rewrite ?andb_true_iff, ?orb_true_iff, ?andb_true_iff, ?negb_true_iff, ?bool_decide_eq_true; tauto.
Qed.
(** Every row can be stopped or forgotten. *)
Lemma row_has_end checking r : rk_cancel ∈ row_actions checking r \/ rk_remove ∈ row_actions checking r.
Proof. rewrite !elem_row_actions. unfold row_live, is_state. destruct (tr_state r); auto. Qed.

Definition calls_fit (p : Page) : Prop := Forall fits (tp_calls p) /\ Forall (fun g => exists l, g = groupTransfers l) (tp_menus p).
Lemma fit_group l r : r ∈ g_failed (groupTransfers l) \/ r ∈ g_finished (groupTransfers l) -> fits (c_remove r).
Proof. cbn. rewrite !elem_filter_bool. unfold is_state, isFinished. intros [[_ H]|[_ H]]; [apply bool_decide_eq_true in H|]; destruct (tr_state r); naive_solver. Qed.
Lemma fit_settle k p : calls_fit p -> calls_fit (settle k p).
Proof. intros H. unfold settle. repeat case_match; done. Qed.
Lemma fit_forget l p : calls_fit p -> Forall (fun r => fits (c_remove r)) l -> calls_fit (forget l p).
Proof. intros [H Hm] Hl. apply fit_settle. split; [|done]. cbn. by rewrite Forall_app, Forall_fmap. Qed.
Lemma fit_call cs p : calls_fit p -> Forall fits cs -> calls_fit (call cs p).
Proof. intros [H Hm] Hl. split; [|done]. cbn. by rewrite Forall_app. Qed.
Lemma fit_picked l k p : calls_fit p -> calls_fit (picked (groupTransfers l) k p).
Proof.
  intros H. destruct k as [[]|]; cbn; try done.
  - apply fit_call; [done|]. rewrite Forall_fmap, Forall_forall. intros r [_ Hr]%elem_filter_bool. cbn. unfold retryable in Hr. destruct (tr_state r); naive_solver.
  - apply fit_forget; [done|]. apply Forall_forall. intros r Hr. apply (fit_group l). by right.
  - apply fit_forget; [done|]. apply Forall_forall. intros r Hr. apply (fit_group l). by left.
Qed.
Lemma fit_step p ev : calls_fit p -> calls_fit (page_step p ev).
Proof.
  intros H. destruct ev as [l|r|id k|id|id| | |k c|k i ok|]; cbn [page_step].
  - unfold listed. by case_match.
  - unfold changed. by case_match.
  - destruct (row_of id p) as [r|]; [|done]. case_bool_decide as Hk; [|done]. apply action_fits in Hk. destruct H as [Hc Hm].
    destruct (press_calls k r p) as [Ec Em]. split; [rewrite Ec, Forall_app; auto|by rewrite Em].
  - destruct (row_of id p) as [r|]; [|done]. unfold tap, openable, is_state. case_bool_decide; [|case_bool_decide; [|done]; destruct (is_some _) eqn:E; [|done]].
    all: apply fit_call; [done|]; apply Forall_singleton; cbn; auto.
  - done.
  - assert (Forall (fun r => fits (c_remove r)) (g_finished (groups p))) as Hf by (apply Forall_forall; intros r Hr; apply (fit_group (default [] (tp_items p))); by right).
    destruct (g_finished (groups p)); [done|]. by apply fit_forget.
  - destruct H as [Hc Hm]. split; [done|]. cbn. rewrite Forall_app, Forall_singleton. split; [done|]. by eexists.
  - destruct (tp_menus p !! k) as [g|] eqn:E; [|done]. assert (exists l, g = groupTransfers l) as [l ->] by (destruct H as [_ Hm]; rewrite Forall_lookup in Hm; eauto).
    assert (calls_fit (set_work (tp_checking p) (delete k (tp_menus p)) (tp_forgets p) p)) as H' by (destruct H as [Hc Hm]; split; [done|]; by apply Forall_delete).
    destruct c as [c|]; [|done]. case_bool_decide; [|done]. by apply fit_picked.
  - unfold removed. case_match; [|done]. by apply fit_settle.
  - done.
Qed.
(** Whatever happens on the page, the engine is asked only for what fits the row pressed: a pause
    for a running or waiting transfer, a cancel for one that has not ended, a removal for one
    that has, a restart for a paused or failed one; and every row can be stopped or removed. *)
Theorem transfer_calls_fit evs :
  Forall fits (tp_calls (run_page page_open evs)) /\
  (forall checking r, rk_cancel ∈ row_actions checking r \/ rk_remove ∈ row_actions checking r).
Proof.
  split; [|intros; apply row_has_end]. assert (calls_fit page_open) as H by (split; constructor).
  unfold run_page. revert H. generalize page_open. induction evs as [|ev evs IH]; intros p H; [apply H|]. cbn. apply IH. by apply fit_step.
Qed.

(** ** The rows are the transfers *)

(** [l] lists the records of the engine, by id. *)
Definition lists (m : gmap jstr TransferRecord) (l : list TransferRecord) : Prop := NoDup (tr_id <$> l) /\ forall r, r ∈ l <-> m !! tr_id r = Some r.
(** The engine: its records by id, and the ids it removed. *)
Record Engine := { en_records : gmap jstr TransferRecord; en_removed : list jstr }.
(** What the engine holds after an event: a change it tells, or one removal that succeeded. *)
Definition engine_step (p : Page) (e : Engine) (ev : TEvent) : Engine :=
  match ev with
  | te_event r => {| en_records := <[tr_id r := r]> (en_records e); en_removed := en_removed e |}
  | te_removed k i true =>
      match removal_of k i p with
      | Some id => {| en_records := delete id (en_records e); en_removed := en_removed e ++ [id] |}
      | None => e
      end
  | _ => e
  end.
Fixpoint run_both (p : Page) (e : Engine) (evs : list TEvent) : Page * Engine :=
  match evs with [] => (p, e) | ev :: evs => run_both (page_step p ev) (engine_step p e ev) evs end.
(** A listing holds the records at the time it lands, the page stays open, and the id of a removed
    transfer is not used again. *)
Fixpoint current_lists (p : Page) (e : Engine) (evs : list TEvent) : Prop :=
  match evs with
  | [] => True
  | ev :: evs => match ev with te_listed l => lists (en_records e) l | te_leave => False | te_event r => tr_id r ∉ en_removed e | _ => True end /\
                 current_lists (page_step p ev) (engine_step p e ev) evs
  end.
(** Removed by the engine in one of these removals. *)
Definition left_over (js : list Job) (r : TransferRecord) : Prop := exists j, j ∈ js /\ tr_id r ∈ fg_gone j.
(** The rows are the records, and rows left over. *)
Definition rows_of (js : list Job) (m : gmap jstr TransferRecord) (l : list TransferRecord) : Prop :=
  NoDup (tr_id <$> l) /\ (forall r, m !! tr_id r = Some r -> r ∈ l) /\ (forall r, r ∈ l -> m !! tr_id r = Some r \/ left_over js r).
Lemma rows_lists js m l : lists m l -> rows_of js m l.
Proof. intros [Hn Hl]. split; [done|]. split; [intros r; apply Hl | intros r Hr; left; by apply Hl]. Qed.
Lemma left_over_more js js' r : (forall j, j ∈ js -> j ∈ js') -> left_over js r -> left_over js' r.
Proof. intros H (j & Hj & Hr). exists j. auto. Qed.
Lemma rows_more js js' m l : (forall j, j ∈ js -> j ∈ js') -> rows_of js m l -> rows_of js' m l.
Proof. intros H (Hn & H1 & H2). split; [done|]. split; [done|]. intros r Hr. destruct (H2 r Hr); eauto using left_over_more. Qed.
Lemma rows_put js m l r : (forall j, j ∈ js -> tr_id r ∉ fg_gone j) -> rows_of js m l -> rows_of js (<[tr_id r := r]> m) (put_row r l).
Proof.
  intros Hg (Hn & H1 & H2). unfold put_row. split; [|split].
  - rewrite fmap_app. apply NoDup_app. split; [by apply NoDup_fmap_filter|]. split; [|apply NoDup_singleton].
    intros x (y & Ey & [_ Hy]%elem_filter_bool)%list_elem_of_fmap Ex%list_elem_of_singleton. rewrite bool_decide_true in Hy; [done | congruence].
  - intros x. rewrite elem_of_app, elem_filter_bool, list_elem_of_singleton, negb_true_iff, bool_decide_eq_false.
    destruct (decide (tr_id x = tr_id r)) as [E|E]; [rewrite E, lookup_insert_eq | rewrite lookup_insert_ne by done]; naive_solver.
  - intros x. rewrite elem_of_app, elem_filter_bool, list_elem_of_singleton, negb_true_iff, bool_decide_eq_false. intros [[Hx Hne]| ->].
    + rewrite lookup_insert_ne by done. by apply H2.
    + left. by rewrite lookup_insert_eq.
Qed.
(** The jobs of the page against the engine. *)
Definition job_ok (e : Engine) (j : Job) : Prop :=
  (forall id, id ∈ fg_gone j -> en_records e !! id = None /\ id ∈ en_removed e) /\
  (fg_failed j = false -> forall r, r ∈ fg_rows j -> tr_id r ∈ fg_left j \/ tr_id r ∈ fg_gone j) /\
  (forall id, id ∈ fg_left j \/ id ∈ fg_gone j -> id ∈ tr_id <$> fg_rows j).
Definition open_job (j : Job) : Prop := fg_left j <> [] \/ fg_failed j = true.
Record tracks (p : Page) (e : Engine) : Prop := {
  t_sub : tp_subscribed p = true;
  t_rows : exists l, tp_items p = Some l /\ rows_of (tp_forgets p) (en_records e) l;
  t_jobs : Forall (job_ok e) (tp_forgets p) }.
Lemma elem_delete_other {A} (x : A) (k : nat) (l : list A) : x ∈ l -> x ∈ delete k l \/ l !! k = Some x.
Proof.
  intros [i Hi]%list_elem_of_lookup. destruct (decide (i = k)) as [->|Hne]; [by right|left]. destruct (decide (i < k)%nat).
  - apply list_elem_of_lookup. exists i. by rewrite list_lookup_delete_lt.
  - apply list_elem_of_lookup. exists (i - 1)%nat. rewrite list_lookup_delete_ge by lia. by replace (S (i - 1)) with i by lia.
Qed.
(** Settling a job whose removals all succeeded keeps the rows. *)
Lemma tracks_settle p e k : tracks p e -> tracks (settle k p) e.
Proof.
  intros Ht. unfold settle. destruct (tp_forgets p !! k) as [j|] eqn:Ek; [|done]. destruct (fg_left j) eqn:El; [|done]. destruct (fg_failed j) eqn:Ef; [done|].
  destruct Ht as [Hs (l & Eil & Hn & H1 & H2) Hj]. pose proof Hj as Hj'. rewrite Forall_lookup in Hj'. destruct (Hj' k j Ek) as (Hg & Hr & Hsub).
  assert (Hgone : forall id, id ∈ tr_id <$> fg_rows j -> id ∈ fg_gone j).
  { intros id (r & -> & Hin)%list_elem_of_fmap. destruct (Hr Ef r Hin) as [Hl|]; [|done]. rewrite El in Hl. by apply not_elem_of_nil in Hl. }
  split; [done | | by apply Forall_delete]. exists (without (fg_rows j) l). cbn. rewrite Eil. split; [done|]. unfold without. split; [|split].
  - by apply NoDup_fmap_filter.
  - intros r Hm. rewrite elem_filter_bool, negb_true_iff, set_has_false, elem_set_of. split; [by apply H1|]. intros Hin%Hgone. destruct (Hg _ Hin) as [Hnone _]. congruence.
  - intros r. rewrite elem_filter_bool, negb_true_iff, set_has_false, elem_set_of. intros [Hin Hno]. destruct (H2 r Hin) as [Hm|(j' & Hj2 & Hgr)]; [by left|].
    destruct (elem_delete_other j' k _ Hj2) as [Hd|Hd]; [right; by exists j'|]. rewrite Ek in Hd. injection Hd as <-. right. exfalso. apply Hno. apply Hsub. by right.
Qed.
Lemma job_put e r j : tr_id r ∉ en_removed e -> job_ok e j -> job_ok {| en_records := <[tr_id r := r]> (en_records e); en_removed := en_removed e |} j.
Proof.
  intros Hno (Hg & Hr & Hsub). split; [|done]. intros id Hid. destruct (Hg id Hid) as [Hn Hin]. split; [|done]. cbn. rewrite lookup_insert_ne; [done|]. intros E. apply Hno. by rewrite E.
Qed.
Lemma job_removed e id j : job_ok e j -> job_ok {| en_records := delete id (en_records e); en_removed := en_removed e ++ [id] |} j.
Proof.
  intros (Hg & Hr & Hsub). split; [|done]. intros id' Hid. destruct (Hg id' Hid) as [Hn Hin]. cbn. split; [|apply elem_of_app; by left].
  destruct (decide (id = id')) as [->|]; [apply lookup_delete_eq | by rewrite lookup_delete_ne].
Qed.
(** A removal is answered: the engine and the job, before the job settles. *)
Lemma tracks_answered p e k i ok id : tracks p e -> removal_of k i p = Some id ->
  tracks (with_forgets (alter (answer_job i id ok) k (tp_forgets p)) p) (engine_step p e (te_removed k i ok)).
Proof.
  intros [Hs (l & El & Hn & H1 & H2) Hj] Hid. pose proof Hid as Hid'. unfold removal_of in Hid'. apply bind_Some in Hid' as (j & Ek & Ei).
  set (e' := engine_step p e (te_removed k i ok)).
  assert (Ee : e' = if ok then {| en_records := delete id (en_records e); en_removed := en_removed e ++ [id] |} else e) by (unfold e'; cbn; rewrite Hid; by destruct ok).
  assert (Hj' : Forall (job_ok e') (tp_forgets p)).
  { rewrite Ee. destruct ok; [|done]. eapply Forall_impl; [exact Hj|]. intros j'. apply job_removed. }
  assert (Hnone : ok = true -> en_records e' !! id = None /\ id ∈ en_removed e').
  { intros ->. rewrite Ee. cbn. split; [apply lookup_delete_eq | apply elem_of_app; right; by apply list_elem_of_singleton]. }
  assert (Hold : forall j', j' ∈ tp_forgets p -> exists j2, j2 ∈ alter (answer_job i id ok) k (tp_forgets p) /\
            forall id', id' ∈ fg_gone j' -> id' ∈ fg_gone j2).
  { intros j' [n En]%list_elem_of_lookup. destruct (decide (k = n)) as [<-|Hne].
    - exists (answer_job i id ok j'). split; [apply list_elem_of_lookup; exists k; by rewrite list_lookup_alter_eq, En|]. intros id' Hin. cbn. destruct ok; [apply elem_of_app; by left | done].
    - exists j'. split; [apply list_elem_of_lookup; exists n; by rewrite list_lookup_alter_ne|]. done. }
  split; [done | |].
  - exists l. split; [done|]. split; [done|]. split.
    + intros r Hm. apply H1. rewrite Ee in Hm. destruct ok; [|done]. cbn in Hm. by apply lookup_delete_Some in Hm as [_ Hm].
    + intros r Hr. destruct (H2 r Hr) as [Hm|(j' & Hj2 & Hgr)].
      * destruct ok; [|left; by rewrite Ee]. destruct (decide (tr_id r = id)) as [E|E].
        -- right. exists (answer_job i id true j). split; [apply list_elem_of_lookup; exists k; cbn; by rewrite list_lookup_alter_eq, Ek|].
           cbn. rewrite E. apply elem_of_app. right. by apply list_elem_of_singleton.
        -- left. rewrite Ee. cbn. by rewrite lookup_delete_ne.
      * destruct (Hold j' Hj2) as (j2 & Hin & Hsub). right. exists j2. auto.
  - cbn. apply Forall_forall. intros x [n En]%list_elem_of_lookup. rewrite Forall_lookup in Hj'. destruct (decide (k = n)) as [<-|Hne].
    2:{ rewrite list_lookup_alter_ne in En by done. by apply (Hj' n). }
    rewrite list_lookup_alter_eq, Ek in En. injection En as <-. destruct (Hj' k j Ek) as (Hg & Hr & Hsub). split; [|split]; cbn.
    + intros id' Hin. destruct ok; [|by apply Hg]. apply elem_of_app in Hin as [Hin|Hin]; [by apply Hg|]. apply list_elem_of_singleton in Hin as ->. by apply Hnone.
    + intros [Hf Hok]%orb_false_iff r Hrow. apply negb_false_iff in Hok as ->. destruct (Hr Hf r Hrow) as [Hl|Hl]; [|right; apply elem_of_app; by left].
      destruct (elem_delete_other _ i _ Hl) as [|E]; [by left|right]. rewrite Ei in E. injection E as <-. apply elem_of_app. right. by apply list_elem_of_singleton.
    + intros id' [Hin|Hin]; apply Hsub; [left; by eapply elem_of_submseteq, submseteq_delete|].
      destruct ok; [|by right]. apply elem_of_app in Hin as [|Hin]; [by right|left]. apply list_elem_of_singleton in Hin as ->. by eapply list_elem_of_lookup_2.
Qed.
(** Every removal kept waits for an answer or failed. *)
Definition all_open (p : Page) : Prop := Forall (fun j => fg_left j <> [] \/ fg_failed j = true) (tp_forgets p).
Lemma open_settle k p : (forall n j, tp_forgets p !! n = Some j -> n <> k -> fg_left j <> [] \/ fg_failed j = true) -> all_open (settle k p).
Proof.
  intros H. unfold all_open, settle. destruct (tp_forgets p !! k) as [j|] eqn:Ek.
  - assert (Hk : forall Q : Prop, (fg_left j = [] -> fg_failed j = false -> Q) -> (fg_left j <> [] \/ fg_failed j = true -> Q) -> Q).
    { intros Q H1 H2. destruct (fg_left j) as [|x l]; [destruct (fg_failed j)|]; auto. }
    apply Hk.
    + intros -> ->. cbn. apply Forall_forall. intros x [n En]%list_elem_of_lookup. destruct (decide (n < k)%nat).
      * rewrite list_lookup_delete_lt in En by done. apply (H n); [done | lia].
      * rewrite list_lookup_delete_ge in En by lia. apply (H (S n)); [done | lia].
    + intros Ho. assert (Forall (fun j => fg_left j <> [] \/ fg_failed j = true) (tp_forgets p)).
      { apply Forall_lookup. intros n x En. destruct (decide (n = k)) as [->|]; [rewrite Ek in En; by injection En as <- | by apply (H n)]. }
      destruct (fg_left j) as [|y l]; [destruct (fg_failed j)|]; try done. by destruct Ho.
  - apply Forall_lookup. intros n x En. apply (H n); [done|]. intros ->. congruence.
Qed.
Lemma open_forget rs p : all_open p -> all_open (forget rs p).
Proof.
  intros H. apply open_settle. cbn. intros n j Hn Hne. unfold all_open in H. rewrite Forall_lookup in H. apply lookup_app_Some in Hn as [Hn|[Hge Hn]]; [by apply (H n)|].
  apply lookup_lt_Some in Hn. cbn in Hn. lia.
Qed.
Lemma open_step p ev : all_open p -> all_open (page_step p ev).
Proof.
  intros H. destruct ev as [l|r|id k|id|id| | |k c|k i ok|]; cbn [page_step]; try done.
  - unfold listed. by case_match.
  - unfold changed. by case_match.
  - destruct (row_of id p) as [r|]; [|done]. case_bool_decide; [|done]. destruct k; try done. by apply open_forget.
  - destruct (row_of id p) as [r|]; [|done]. unfold tap. by repeat case_match.
  - destruct (g_finished (groups p)); [done|]. by apply open_forget.
  - destruct (tp_menus p !! k) as [g|]; [|done]. destruct c as [c|]; [|done]. cbv zeta. case_bool_decide; [|done]. destruct c; try done; by apply open_forget.
  - unfold removed. destruct (removal_of k i p) as [id|]; [|done]. apply open_settle. cbn. intros n j Hn Hne. rewrite list_lookup_alter_ne in Hn by done.
    unfold all_open in H. rewrite Forall_lookup in H. by apply (H n).
Qed.
Lemma tracks_keep p q e : tp_items q = tp_items p -> tp_subscribed q = tp_subscribed p -> tp_forgets q = tp_forgets p -> tracks p e -> tracks q e.
Proof. intros E1 E2 E3 [Hs Hl Hj]. split; [congruence | by rewrite E1, E3 | by rewrite E3]. Qed.
Lemma tracks_forget rs p e : tracks p e -> tracks (forget rs p) e.
Proof.
  intros [Hs (l & El & Hr) Hj]. apply tracks_settle. split; [done | |].
  - exists l. split; [done|]. eapply rows_more; [|exact Hr]. intros j Hin. cbn. apply elem_of_app. by left.
  - cbn. apply Forall_app. split; [done|]. apply Forall_singleton. split; [by intros id ?%not_elem_of_nil|]. split; [|by intros id [?|?%not_elem_of_nil]].
    intros _ r Hin. left. cbn. apply list_elem_of_fmap. by exists r.
Qed.
Lemma tracks_step p e ev evs : tracks p e -> current_lists p e (ev :: evs) -> tracks (page_step p ev) (engine_step p e ev).
Proof.
  intros Ht [Hev _]. pose proof Ht as [Hs (l & El & Hl) Hj].
  destruct ev as [l'|r|id k|id|id| | |k c|k i ok|]; cbn [page_step]; try done.
  - unfold listed. rewrite Hs. split; [done | | done]. exists l'. split; [done|]. by apply rows_lists.
  - unfold changed. rewrite Hs, El. split; [done | |].
    + eexists. split; [done|]. cbn. apply rows_put; [|done]. intros j Hin Hg. rewrite Forall_forall in Hj. destruct (Hj j Hin) as [Hgone _]. by destruct (Hgone _ Hg).
    + cbn. eapply Forall_impl; [exact Hj|]. intros j. by apply job_put.
  - cbn [engine_step]. destruct (row_of id p) as [r|]; [|done]. case_bool_decide; [|done]. destruct k; try (by apply (tracks_keep p)). by apply tracks_forget.
  - cbn [engine_step]. destruct (row_of id p) as [r|]; [|done]. unfold tap. repeat case_match; try done; by apply (tracks_keep p).
  - by apply (tracks_keep p).
  - cbn [engine_step]. destruct (g_finished (groups p)); [done|]. by apply tracks_forget.
  - by apply (tracks_keep p).
  - cbn [engine_step]. destruct (tp_menus p !! k) as [g|]; [|done]. set (p1 := set_work _ _ _ p). assert (H1 : tracks p1 e) by (by apply (tracks_keep p)).
    destruct c as [c|]; [|done]. cbv zeta. case_bool_decide; [|done]. destruct c; try (by apply (tracks_keep p1)); by apply tracks_forget.
  - unfold removed. destruct (removal_of k i p) as [id|] eqn:E; [by apply tracks_settle, tracks_answered|]. cbn. destruct ok; [by rewrite E | done].
Qed.
End Page.

(** ** Concrete pages *)

Definition transfer (id : string) (s : TransferState) : TransferRecord :=
  {| tr_id := js id; tr_hostId := js "h"; tr_address := js "a"; tr_remotePath := js "/f"; tr_destPath := js "/d"; tr_state := s; tr_received := 0; tr_total := 9;
     tr_error := None; tr_direction := None; tr_sessionId := None; tr_sha256 := None; tr_overwrite := None; tr_publicUri := None; tr_updatedAt := None |}.
Definition engine_of (m : gmap jstr TransferRecord) : Engine := {| en_records := m; en_removed := [] |}.
Section Concrete.
Context `{C : Collation}.
(** The listing asked for when the page opens replaces the rows told since: read before a transfer
    ended and delivered after, it shows the ended transfer as running, with Pause and Cancel. *)
Theorem late_listing_undoes_change :
  let '(p, e) := run_both page_open (engine_of {[ js "t1" := transfer "t1" RUNNING ]}) [te_event (transfer "t1" DONE); te_listed [transfer "t1" RUNNING]] in
  en_records e !! js "t1" = Some (transfer "t1" DONE) /\ tp_items p = Some [transfer "t1" RUNNING] /\ rk_pause ∈ row_actions false (transfer "t1" RUNNING).
Proof. split_and!; [vm_compute; done | done | apply list_elem_of_here]. Qed.
(** Of two failed transfers cleared at once one removal fails: the other stays on the page as well,
    though the engine no longer has it. *)
Theorem failed_removal_leaves_row :
  let t1 := transfer "t1" FAILED in let t2 := transfer "t2" FAILED in
  let '(p, e) := run_both page_open (engine_of {[ js "t1" := t1; js "t2" := t2 ]})
    [te_listed [t1; t2]; te_more; te_pick 0 (Some mk_clearFailed); te_removed 0 0 true; te_removed 0 0 false] in
  tp_items p = Some [t1; t2] /\ size (en_records e) = 1%nat.
Proof. vm_compute. done. Qed.
End Concrete.
#[local] Instance plain_collation : Collation := {| localeCompare := str_cmp |}.
