(* ===== verification/SearchScreen.v ===== *)
(** * The search page of a computer

    [features/search/HostSearchScreen.tsx] over the controller of [Search]: the text typed, the
    filters picked, and the delay before a typed text is searched. *)

From Stdlib Require Import ZArith Lia Bool Permutation.
From Stdlib Require List.
From S2P Require Import Prelude JsCollections JsString Json Errors Models Entries Search.
Local Open Scope js_scope.

Section Screen.
Context `{U : Unicode} {Er : Type} (year_start : Z -> Z) (humanize : Er -> jstr) (currentPath : jstr) (vis : VisibilityPrefs).

(** [ss_timer] is the search a pending timer will run. *)
Record SearchPage := { ss_text : jstr; ss_filters : SearchFilters; ss_timer : option (jstr * SearchFilters); ss_ctl : Controller (Er := Er) }.
Definition with_here (here : bool) (f : SearchFilters) : SearchFilters :=
  {| f_categories := f_categories f; f_size := f_size f; f_date := f_date f; f_mode := f_mode f; f_includeHidden := f_includeHidden f; f_fromHere := here |}.
Definition with_categories (l : list EntryCategory) (f : SearchFilters) : SearchFilters :=
  {| f_categories := l; f_size := f_size f; f_date := f_date f; f_mode := f_mode f; f_includeHidden := f_includeHidden f; f_fromHere := f_fromHere f |}.
Definition search_open (onlyEverywhere : bool) : SearchPage :=
  {| ss_text := []; ss_filters := with_here (negb onlyEverywhere) defaultFilters; ss_timer := None; ss_ctl := createSearchController |}.
Definition DEBOUNCE_MS : Z := 450.

Definition search_now (value : jstr) (f : SearchFilters) (s : SearchPage) : SearchPage :=
  {| ss_text := ss_text s; ss_filters := ss_filters s; ss_timer := None; ss_ctl := run value f currentPath (ss_ctl s) |}.
Definition set_text (value : jstr) (s : SearchPage) : SearchPage := {| ss_text := value; ss_filters := ss_filters s; ss_timer := ss_timer s; ss_ctl := ss_ctl s |}.
Definition setFilters (f : SearchFilters) (s : SearchPage) : SearchPage := {| ss_text := ss_text s; ss_filters := f; ss_timer := ss_timer s; ss_ctl := ss_ctl s |}.
Definition onChange (value : jstr) (s : SearchPage) : SearchPage := {| ss_text := value; ss_filters := ss_filters s; ss_timer := Some (value, ss_filters s); ss_ctl := ss_ctl s |}.
Definition apply_filters (f : SearchFilters) (s : SearchPage) : SearchPage :=
  let s' := setFilters f s in if nonempty (trim (ss_text s)) then search_now (ss_text s) f s' else s'.
Definition toggleCategory (cat : EntryCategory) (s : SearchPage) : SearchPage :=
  let l := f_categories (ss_filters s) in
  apply_filters (with_categories (if bool_decide (cat ∈ l) then List.filter (fun x => negb (bool_decide (x = cat))) l else l ++ [cat]) (ss_filters s)) s.
Definition pick (q : jstr) (s : SearchPage) : SearchPage := search_now q (ss_filters s) (set_text q s).
Definition clear_text (s : SearchPage) : SearchPage := search_now [] (ss_filters s) (onChange [] s).
Definition timer_fired (s : SearchPage) : SearchPage := match ss_timer s with Some (v, f) => search_now v f s | None => s end.
Definition results (s : SearchPage) : list Entry := filterSearchResults (s_raw (c_state (ss_ctl s))) vis (f_includeHidden (ss_filters s)).

(** [h_reply]: the controller's awaited calls settle. *)
Inductive HEvent :=
| h_type (v : jstr) | h_submit | h_filters (f : SearchFilters) | h_category (c : EntryCategory) | h_pick (q : jstr) | h_clear | h_timer
| h_client (g : nat) (o : result Er unit) (now : Z) | h_reply (g : nat) (o : result Er SearchResult).
Definition ctl_event (e : CEvent) (s : SearchPage) : SearchPage :=
  {| ss_text := ss_text s; ss_filters := ss_filters s; ss_timer := ss_timer s; ss_ctl := cstep year_start humanize (ss_ctl s) e |}.
Definition search_step (s : SearchPage) (ev : HEvent) : SearchPage :=
  match ev with
  | h_type v => onChange v s
  | h_submit => search_now (ss_text s) (ss_filters s) s
  | h_filters f => apply_filters f s
  | h_category c => toggleCategory c s
  | h_pick q => pick q s
  | h_clear => clear_text s
  | h_timer => timer_fired s
  | h_client g o now => ctl_event (EClient g o now) s
  | h_reply g o => ctl_event (EReply g o) s
  end.
Definition run_search (s : SearchPage) (evs : list HEvent) : SearchPage := fold_left search_step evs s.

(** ** What was asked *)

Definition question_of (r : Run (Er := Er)) : jstr * SearchFilters * jstr := (r_q r, r_filters r, r_path r).
Lemma failed_questions g e c : question_of <$> c_runs (run_failed humanize g e c) = question_of <$> c_runs c.
Proof. unfold run_failed. case_match; by apply fmap_alter_id. Qed.
Lemma step_questions c e : match e with ERun _ _ _ => False | _ => True end -> question_of <$> c_runs (cstep year_start humanize c e) = question_of <$> c_runs c.
Proof.
  intros He. destruct e as [|[|g] o now|[|g] o]; try done; cbn [cstep].
  - destruct (c_runs c !! g) as [r|]; [|done]. destruct (r_stage r); try done. destruct o; [by apply fmap_alter_id | apply failed_questions].
  - destruct (c_runs c !! g) as [r|]; [|done]. destruct (r_stage r); try done. destruct o; [|apply failed_questions]. cbn [on_reply]. case_match; by apply fmap_alter_id.
Qed.

(** Exactly the runs of a blank text are cleared. *)
Definition stage_fits (r : Run (Er := Er)) : Prop := r_q r = [] <-> r_stage r = Cleared.
Lemma fits_alter i x r (l : list (Run (Er := Er))) : l !! i = Some r -> r_stage r <> Cleared -> x <> Cleared -> Forall stage_fits l -> Forall stage_fits (alter (at_stage x) i l).
Proof. intros Hr Hs Hx H. apply Forall_alter; [done|]. intros y Hy Hf. assert (y = r) as -> by congruence. unfold stage_fits in *. cbn. tauto. Qed.
Lemma fits_failed g e r c : c_runs c !! g = Some r -> r_stage r <> Cleared -> Forall stage_fits (c_runs c) -> Forall stage_fits (c_runs (run_failed humanize (S g) e c)).
Proof. intros Hr Hs H. unfold run_failed. case_match; by eapply fits_alter. Qed.
Lemma fits_step c e : Forall stage_fits (c_runs c) -> Forall stage_fits (c_runs (cstep year_start humanize c e)).
Proof.
  intros H. destruct e as [v f p|[|g] o now|[|g] o]; try done; cbn [cstep].
  - cbn. apply Forall_app_2; [done|]. apply Forall_singleton. unfold stage_fits. cbn. by destruct (trim v).
  - destruct (c_runs c !! g) as [r|] eqn:E; [|done]. destruct (r_stage r) eqn:S; try done. destruct o; [eapply fits_alter | eapply fits_failed]; try done; congruence.
  - destruct (c_runs c !! g) as [r|] eqn:E; [|done]. destruct (r_stage r) eqn:S; try done. destruct o; [|eapply fits_failed; try done; congruence].
    cbn [on_reply]. case_match; eapply fits_alter; try done; congruence.
Qed.
Lemma fits_crun es : Forall stage_fits (c_runs (crun year_start humanize es)).
Proof. induction es as [|e es IH] using rev_ind; [constructor|]. unfold crun. rewrite fold_left_app. by apply fits_step. Qed.

(** ** The page answers what is on it *)

(** The search that covers the text and the filters: a blank text is searched with any filters. *)
Definition covers (v : jstr) (f : SearchFilters) (s : SearchPage) : Prop := v = trim (ss_text s) /\ (f = ss_filters s \/ v = []).
Record page_ok (s : SearchPage) : Prop := {
  po_ctl : exists es, ss_ctl s = crun year_start humanize es;
  po_timer : match ss_timer s with
             | Some (v, f) => covers (trim v) f s
             | None => match last (question_of <$> c_runs (ss_ctl s)) with Some (q, f, p) => covers q f s /\ p = currentPath | None => trim (ss_text s) = [] end
             end }.
Lemma crun_snoc es e : crun year_start humanize (es ++ [e]) = cstep year_start humanize (crun year_start humanize es) e.
Proof. unfold crun. by rewrite fold_left_app. Qed.
Lemma ok_search v f s : (exists es, ss_ctl s = crun year_start humanize es) -> covers (trim v) f s -> page_ok (search_now v f s).
Proof.
  intros [es E] Hc. split; cbn [search_now ss_timer ss_ctl run c_runs].
  - exists (es ++ [ERun v f currentPath]). by rewrite crun_snoc, E.
  - rewrite fmap_app, list_fmap_singleton, last_snoc. done.
Qed.
Lemma nonempty_false (l : jstr) : nonempty l = false -> l = [].
Proof. by destruct l. Qed.
Lemma covers_blank v g f s : trim (ss_text s) = [] -> covers v g s -> covers v g (setFilters f s).
Proof. intros E [Hv _]. split; [done|]. right. congruence. Qed.
Lemma ok_filters f s : page_ok s -> page_ok (apply_filters f s).
Proof.
  intros [Hc Ht]. unfold apply_filters. destruct (nonempty (trim (ss_text s))) eqn:E.
  - apply ok_search; [done|]. split; [done|]. by left.
  - apply nonempty_false in E. split; [done|]. cbn [setFilters ss_timer ss_ctl ss_text].
    destruct (ss_timer s) as [[v g]|]; [by apply covers_blank|]. destruct (last _) as [[[q g] p]|]; [|done]. destruct Ht. split; [by apply covers_blank | done].
Qed.
Lemma ok_step s ev : page_ok s -> page_ok (search_step s ev).
Proof.
  intros H. pose proof H as [Hc Ht]. destruct ev as [v| |f|c|q| | |g o now|g o]; cbn [search_step].
  - split; [done|]. split; [done|]. by left.
  - apply ok_search; [done|]. split; [done|]. by left.
  - by apply ok_filters.
  - by apply ok_filters.
  - apply ok_search; [done|]. split; [done|]. by left.
  - apply ok_search; [done|]. split; [done|]. by left.
  - unfold timer_fired. destruct (ss_timer s) as [[v f]|] eqn:E; [|done]. by apply ok_search.
  - destruct Hc as [es E]. split; [exists (es ++ [EClient g o now]); by rewrite crun_snoc, <- E|]. cbn [ctl_event ss_timer ss_ctl]. by rewrite step_questions.
  - destruct Hc as [es E]. split; [exists (es ++ [EReply g o]); by rewrite crun_snoc, <- E|]. cbn [ctl_event ss_timer ss_ctl]. by rewrite step_questions.
Qed.
Lemma ok_run evs s : page_ok s -> page_ok (run_search s evs).
Proof. revert s. induction evs as [|ev evs IH]; intros s H; [done|]. cbn. by apply IH, ok_step. Qed.
Lemma ok_open b : page_ok (search_open b).
Proof. split; [by exists []|]. done. Qed.

(** However typing, submitting, filters and replies interleave: with no timer pending the page
    shows the search of the text in its field under the filters on screen, in the folder it was
    opened for, loading, answered or failed, and nothing for a blank text; a pending timer will
    run that search. *)
Theorem search_page_in_step onlyEverywhere evs :
  let s := run_search (search_open onlyEverywhere) evs in
  let st := c_state (ss_ctl s) in
  match ss_timer s with
  | None =>
      if nonempty (trim (ss_text s))
      then exists stage, shows humanize (Some {| r_q := trim (ss_text s); r_filters := ss_filters s; r_path := currentPath; r_stage := stage |}) st /\ stage <> Cleared
      else st = EMPTY
  | Some (v, f) => trim v = trim (ss_text s) /\ (f = ss_filters s \/ trim v = [])
  end.
Proof.
  cbv zeta. set (s := run_search _ _). assert (page_ok s) as [[es E] Ht] by apply ok_run, ok_open.
  destruct (ss_timer s) as [[v f]|]; [done|]. destruct (CI_crun year_start humanize es) as [_ _ Hs _ _].
  pose proof (fits_crun es) as Hf. rewrite <- E in *. rewrite fmap_last in Ht.
  destruct (last (c_runs (ss_ctl s))) as [r|] eqn:El; cbn in Ht.
  - assert (stage_fits r) as Hr by (rewrite Forall_forall in Hf; apply Hf; apply last_Some_elem_of in El; done). destruct Ht as [[Hq Hflt] Hp]. destruct (nonempty (trim (ss_text s))) eqn:Hn.
    + exists (r_stage r). assert (r_q r <> []) as Hne by (rewrite Hq; by destruct (trim (ss_text s))). destruct Hflt as [<-|]; [|done]. rewrite <- Hq, <- Hp.
      split; [by destruct r|]. unfold stage_fits in Hr. tauto.
    + apply nonempty_false in Hn. assert (r_stage r = Cleared) as Hst by (apply Hr; congruence). cbn in Hs. by rewrite Hst in Hs.
  - rewrite Ht. exact Hs.
Qed.
End Screen.
