(* ===== verification/AppsScreen.v ===== *)
(** * The applications of a computer

    [features/apps/AppsScreen.tsx]: the catalogue read from the computer, its refusals, and
    starting an application, with reads and starts overlapping.  The computer is paired. *)

From Stdlib Require Import ZArith Lia Bool Permutation String.
From Stdlib Require List.
From S2P Require Import Prelude JsCollections JsString Json Errors Models Features.
Local Open Scope js_scope.

Inductive Failure := denied | unsupported | load_failed (e : jserror).
(** Awaited calls: a read of the catalogue (pulled down or not), and a start. *)
Inductive ATask := at_fetch (pulled : bool) | at_launch (app : HostApp).
Inductive AToast := launch_started (app : HostApp) | launch_refused (app : HostApp) (m : Apps.LaunchMessage).
(** [ap_asked] are the starts asked for, each with the catalogue on screen; [ap_read] the catalogues read. *)
Record AppsPage := {
  ap_catalog : option HostAppCatalog; ap_failure : option Failure; ap_query : jstr; ap_launching : list jstr; ap_refreshing : bool;
  ap_tasks : list ATask; ap_toasts : list AToast; ap_asked : list (HostApp * HostAppCatalog); ap_read : list HostAppCatalog }.
Definition set_view (c : option HostAppCatalog) (f : option Failure) (p : AppsPage) : AppsPage :=
  {| ap_catalog := c; ap_failure := f; ap_query := ap_query p; ap_launching := ap_launching p; ap_refreshing := ap_refreshing p;
     ap_tasks := ap_tasks p; ap_toasts := ap_toasts p; ap_asked := ap_asked p; ap_read := ap_read p |}.
Definition set_input (q : jstr) (refreshing : bool) (p : AppsPage) : AppsPage :=
  {| ap_catalog := ap_catalog p; ap_failure := ap_failure p; ap_query := q; ap_launching := ap_launching p; ap_refreshing := refreshing;
     ap_tasks := ap_tasks p; ap_toasts := ap_toasts p; ap_asked := ap_asked p; ap_read := ap_read p |}.
Definition set_tasks (l : list jstr) (ts : list ATask) (p : AppsPage) : AppsPage :=
  {| ap_catalog := ap_catalog p; ap_failure := ap_failure p; ap_query := ap_query p; ap_launching := l; ap_refreshing := ap_refreshing p;
     ap_tasks := ts; ap_toasts := ap_toasts p; ap_asked := ap_asked p; ap_read := ap_read p |}.
Definition set_log (ts : list AToast) (asked : list (HostApp * HostAppCatalog)) (read : list HostAppCatalog) (p : AppsPage) : AppsPage :=
  {| ap_catalog := ap_catalog p; ap_failure := ap_failure p; ap_query := ap_query p; ap_launching := ap_launching p; ap_refreshing := ap_refreshing p;
     ap_tasks := ap_tasks p; ap_toasts := ts; ap_asked := asked; ap_read := read |}.

Definition failure_of (e : jserror) : Failure :=
  match e with
  | AgentApiError status code _ _ => if status =? 403 then denied else if bool_decide (code = js "APP_CATALOG_UNSUPPORTED") then unsupported else load_failed e
  | _ => load_failed e
  end.
Definition fetch (pulled : bool) (p : AppsPage) : AppsPage := set_tasks (ap_launching p) (ap_tasks p ++ [at_fetch pulled]) p.
Definition apply_load (r : result jserror HostAppCatalog) (p : AppsPage) : AppsPage :=
  match r with
  | Ok c => set_log (ap_toasts p) (ap_asked p) (ap_read p ++ [c]) (set_view (Some c) None p)
  | Err e => set_view (ap_catalog p) (Some (failure_of e)) p
  end.
Definition fetched (pulled : bool) (r : result jserror HostAppCatalog) (p : AppsPage) : AppsPage :=
  let p' := apply_load r p in if pulled then set_input (ap_query p') false p' else p'.
Definition reload (p : AppsPage) : AppsPage := fetch false (set_view None None p).
Definition pull (p : AppsPage) : AppsPage := fetch true (set_input (ap_query p) true p).
Definition launch (app : HostApp) (catalog : HostAppCatalog) (p : AppsPage) : AppsPage :=
  if set_has (app_id app) (ap_launching p) then p
  else set_log (ap_toasts p) (ap_asked p ++ [(app, catalog)]) (ap_read p) (set_tasks (set_add (app_id app) (ap_launching p)) (ap_tasks p ++ [at_launch app]) p).
(** The [finally] runs after either end; a refusal may read the catalogue again. *)
Definition launched (app : HostApp) (r : result jserror unit) (p : AppsPage) : AppsPage :=
  let p' := match r with
            | Ok _ => set_log (ap_toasts p ++ [launch_started app]) (ap_asked p) (ap_read p) p
            | Err e => let '(m, refresh) := Apps.launchFailure e in
                       let q := set_log (ap_toasts p ++ [launch_refused app m]) (ap_asked p) (ap_read p) p in if refresh then fetch false q else q
            end in
  set_tasks (set_delete (app_id app) (ap_launching p')) (ap_tasks p') p'.
Definition apps_open : AppsPage :=
  fetch false {| ap_catalog := None; ap_failure := None; ap_query := []; ap_launching := []; ap_refreshing := false; ap_tasks := []; ap_toasts := []; ap_asked := []; ap_read := [] |}.

Section Page.
Context `{U : Unicode}.
(** The cards, and whether the Run button of one is on. *)
Definition cards (p : AppsPage) : list HostApp := match ap_failure p, ap_catalog p with None, Some c => Apps.filterApps (catalog_apps c) (ap_query p) | _, _ => [] end.
Definition canRun (app : HostApp) (c : HostAppCatalog) (p : AppsPage) : bool := catalog_launchAllowed c && app_launchable app && negb (set_has (app_id app) (ap_launching p)).
(** [i]: the card whose button is pressed. *)
Definition press_run (i : nat) (p : AppsPage) : AppsPage :=
  match cards p !! i, ap_catalog p with Some app, Some c => if canRun app c p then launch app c p else p | _, _ => p end.
Inductive AEvent := a_run (i : nat) | a_reload | a_pull | a_query (q : jstr) | a_fetched (k : nat) (r : result jserror HostAppCatalog) | a_launched (k : nat) (r : result jserror unit).
Definition drop_task (k : nat) (p : AppsPage) : AppsPage := set_tasks (ap_launching p) (delete k (ap_tasks p)) p.
Definition apps_step (p : AppsPage) (ev : AEvent) : AppsPage :=
  match ev with
  | a_run i => press_run i p
  | a_reload => reload p
  | a_pull => pull p
  | a_query q => set_input q (ap_refreshing p) p
  | a_fetched k r => match ap_tasks p !! k with Some (at_fetch pulled) => fetched pulled r (drop_task k p) | _ => p end
  | a_launched k r => match ap_tasks p !! k with Some (at_launch app) => launched app r (drop_task k p) | _ => p end
  end.
Definition run_apps (p : AppsPage) (evs : list AEvent) : AppsPage := fold_left apps_step evs p.

(** ** Starts *)

Definition starting (t : ATask) : option jstr := match t with at_launch app => Some (app_id app) | _ => None end.
Definition allowed (x : HostApp * HostAppCatalog) : Prop := x.1 ∈ catalog_apps x.2 /\ catalog_launchAllowed x.2 = true /\ app_launchable x.1 = true.
Record apps_ok (p : AppsPage) : Prop := {
  ao_nodup : NoDup (ap_launching p);
  ao_tasks : Permutation (ap_launching p) (omap starting (ap_tasks p));
  ao_asked : Forall (fun x => allowed x /\ x.2 ∈ ap_read p) (ap_asked p);
  ao_shown : forall c, ap_catalog p = Some c -> c ∈ ap_read p }.
Lemma elem_filterApps a l q : a ∈ Apps.filterApps l q -> a ∈ l.
Proof. unfold Apps.filterApps. case_match; [by intros [? _]%elem_filter_bool | done]. Qed.
Lemma set_add_new {A} `{EqDecision A} (x : A) (s : list A) : x ∉ s -> set_add x s = s ++ [x].
Proof. intros H. unfold set_add. by rewrite decide_False. Qed.
Lemma set_delete_perm (x : jstr) (l rest : list jstr) : NoDup l -> Permutation l (x :: rest) -> Permutation (set_delete x l) rest.
Proof.
  intros Hn HP. assert (NoDup (x :: rest)) as [Hx Hr]%NoDup_cons by (by rewrite <- HP).
  apply NoDup_Permutation; [by apply NoDup_set_delete | done|]. intros y. rewrite elem_set_delete, HP, elem_of_cons. naive_solver.
Qed.
Lemma ok_fetch b p : apps_ok p -> apps_ok (fetch b p).
Proof. intros []. split; try done. cbn. by rewrite omap_app, app_nil_r. Qed.
Lemma ok_drop_fetch k b p : ap_tasks p !! k = Some (at_fetch b) -> apps_ok p -> apps_ok (drop_task k p).
Proof. intros Hk []. split; try done. cbn. etrans; [done|]. apply (omap_delete_perm starting _ _ _ Hk). Qed.
Lemma ok_load r p : apps_ok p -> apps_ok (apply_load r p).
Proof.
  intros []. destruct r as [c|e]; split; try done; cbn.
  - eapply Forall_impl; [done|]. cbn. intros x [? ?]. split; [done|]. apply elem_of_app. by left.
  - intros c' [= <-]. apply elem_of_app. right. by apply list_elem_of_singleton.
Qed.
Lemma ok_launch app c p : app ∈ catalog_apps c -> catalog_launchAllowed c = true -> app_launchable app = true -> ap_catalog p = Some c -> apps_ok p -> apps_ok (launch app c p).
Proof.
  intros Ha Hl Hr Hc []. unfold launch. destruct (set_has _ _) eqn:E; [done|]. apply set_has_false in E. split; cbn.
  - by apply NoDup_set_add.
  - rewrite set_add_new, omap_app by done. by apply Permutation_app.
  - apply Forall_app_2; [done|]. apply Forall_singleton. split; [done|]. by apply ao_shown0.
  - done.
Qed.
Lemma ok_launched k app r p : ap_tasks p !! k = Some (at_launch app) -> apps_ok p -> apps_ok (launched app r (drop_task k p)).
Proof.
  intros Hk []. assert (apps_ok (set_tasks (set_delete (app_id app) (ap_launching p)) (delete k (ap_tasks p)) p)) as H.
  { split; try done; cbn; [by apply NoDup_set_delete|]. apply set_delete_perm; [done|]. etrans; [done|]. apply (omap_delete_perm starting _ _ _ Hk). }
  destruct r as [u|e]; [destruct H; by split|]. unfold launched. destruct (Apps.launchFailure e) as [m [|]]; [|destruct H; by split].
  apply (ok_fetch false) in H. destruct H; by split.
Qed.
Lemma apps_ok_step p ev : apps_ok p -> apps_ok (apps_step p ev).
Proof.
  intros H. destruct ev as [i| | |q|k r|k r]; cbn [apps_step].
  - unfold press_run, cards. destruct (ap_failure p); [done|]. destruct (ap_catalog p) as [c|] eqn:Ec; [|done].
    destruct (_ !! i) as [app|] eqn:E; [|done]. destruct (canRun app c p) eqn:Er; [|done]. apply list_elem_of_lookup_2, elem_filterApps in E.
    unfold canRun in Er. apply andb_true_iff in Er as [[? ?]%andb_true_iff _]. by apply ok_launch.
  - apply ok_fetch. destruct H. by split.
  - apply ok_fetch. destruct H. by split.
  - destruct H. by split.
  - destruct (ap_tasks p !! k) as [[b|]|] eqn:E; [|done..]. apply (ok_drop_fetch _ _ _ E) in H. apply (ok_load r) in H. unfold fetched. destruct b; [|done]. destruct H; by split.
  - destruct (ap_tasks p !! k) as [[|app]|] eqn:E; [done| |done]. by apply ok_launched.
Qed.
Lemma apps_ok_run evs p : apps_ok p -> apps_ok (run_apps p evs).
Proof. revert p. induction evs as [|ev evs IH]; intros p H; [done|]. cbn. by apply IH, apps_ok_step. Qed.

(** However reads and starts overlap, an application has at most one start under way and its card
    says so; every start asked for is of an application the computer itself listed as one that can
    be started, in a catalogue that allows starting. *)
Theorem apps_started_allowed evs :
  let p := run_apps apps_open evs in
  NoDup (omap starting (ap_tasks p)) /\
  (forall id, id ∈ ap_launching p <-> id ∈ omap starting (ap_tasks p)) /\
  Forall (fun x => allowed x /\ x.2 ∈ ap_read p) (ap_asked p).
Proof.
  cbv zeta. assert (apps_ok (run_apps apps_open evs)) as [Hn Ht Ha _].
  { apply apps_ok_run, ok_fetch. split; try constructor. done. }
  split_and!; [by rewrite <- Ht | by intros id; rewrite Ht | done].
Qed.
End Page.

Definition sample_app : HostApp := {| app_id := js "a"; app_name := js "A"; app_launchable := true; app_description := None; app_icon := None; app_category := None |}.
Definition sample_catalog (allowed : bool) : HostAppCatalog := {| catalog_platform := js "linux"; catalog_apps := [sample_app]; catalog_launchAllowed := allowed |}.
(** Reads of the catalogue are not ordered: after the computer withdrew the right to start
    applications, a slow first read lands over the second one and the page offers Run again. *)
Theorem older_catalog_lands_last :
  let p := run_apps (U := ascii_unicode) apps_open [a_reload; a_fetched 1 (Ok (sample_catalog false)); a_fetched 0 (Ok (sample_catalog true))] in
  ap_catalog p = Some (sample_catalog true) /\ canRun sample_app (sample_catalog true) p = true /\ ap_tasks p = [].
Proof. vm_compute. done. Qed.
