(* ===== verification/AuditScreen.v ===== *)
(** * The activity log of a computer

    [app/host/[id]/audit.tsx] over [auditPaging.ts]: the newest page, older pages by cursor, and
    refreshes, against a log that grows while the page is open. *)

From Stdlib Require Import ZArith Lia Bool Sorted.
From Stdlib Require List.
From S2P Require Import Prelude JsCollections JsString Json Errors Models Features.
Import HostSettings.
Local Open Scope js_scope.

(** ** The log of the agent *)

Definition newer (x y : AuditEntry) : Prop := audit_id y < audit_id x.
Definition log_ok (log : list AuditEntry) : Prop := StronglySorted newer log.
(** A page: the newest entries, or the newest below an id. *)
Definition page_of (size : nat) (before : option Z) (log : list AuditEntry) : list AuditEntry :=
  take size (match before with Some b => List.filter (fun e => audit_id e <? b) log | None => log end).
Definition log_add (e : AuditEntry) (log : list AuditEntry) : list AuditEntry := if forallb (fun x => audit_id x <? audit_id e) log then e :: log else log.

(** ** The page *)

Inductive UTask := ut_fetch | ut_older (before : Z).
Record LogError := { le_error : jserror; le_adminOnly : bool }.
Record AuditPage := { au_entries : option (list AuditEntry); au_error : option LogError; au_older : option Z; au_loadingOlder : bool; au_tasks : list UTask; au_log : list AuditEntry }.
Definition set_rows (es : option (list AuditEntry)) (err : option LogError) (older : option Z) (p : AuditPage) : AuditPage :=
  {| au_entries := es; au_error := err; au_older := older; au_loadingOlder := au_loadingOlder p; au_tasks := au_tasks p; au_log := au_log p |}.
Definition set_reads (loading : bool) (ts : list UTask) (p : AuditPage) : AuditPage :=
  {| au_entries := au_entries p; au_error := au_error p; au_older := au_older p; au_loadingOlder := loading; au_tasks := ts; au_log := au_log p |}.
Definition set_log (log : list AuditEntry) (p : AuditPage) : AuditPage :=
  {| au_entries := au_entries p; au_error := au_error p; au_older := au_older p; au_loadingOlder := au_loadingOlder p; au_tasks := au_tasks p; au_log := log |}.

Section Page.
Context (size : nat).
Definition is_forbidden (e : jserror) : bool := match e with AgentApiError s _ _ _ => s =? 403 | _ => false end.
Definition fetchEntries (p : AuditPage) : AuditPage := set_reads (au_loadingOlder p) (au_tasks p ++ [ut_fetch]) p.
(** [apply] *)
Definition apply_page (r : result jserror (list AuditEntry)) (p : AuditPage) : AuditPage :=
  match r with
  | Ok es => set_rows (Some es) None (olderCursor es size) p
  | Err e => set_rows (au_entries p) (Some {| le_error := e; le_adminOnly := is_forbidden e |}) (au_older p) p
  end.
Definition loadOlder (p : AuditPage) : AuditPage :=
  match au_older p with Some b => if au_loadingOlder p then p else set_reads true (au_tasks p ++ [ut_older b]) p | None => p end.
(** [None]: the computer is no longer paired. *)
Definition older_landed (r : option (result jserror (list AuditEntry))) (p : AuditPage) : AuditPage :=
  let p' := match r with
            | Some (Ok page) => set_rows (Some (appendOlder (default [] (au_entries p)) page)) (au_error p) (olderCursor page size) p
            | _ => p
            end in
  set_reads false (au_tasks p') p'.
Definition audit_open (log : list AuditEntry) : AuditPage :=
  fetchEntries {| au_entries := None; au_error := None; au_older := None; au_loadingOlder := false; au_tasks := []; au_log := log |}.

(** A landing read answers with the page of the log ([back] entries newer than what it read), or fails. *)
Inductive UEvent := u_logged (e : AuditEntry) | u_refresh | u_older | u_fetched (k back : nat) (fails : option jserror) | u_older_landed (k : nat) (fails : option (option jserror)).
Definition drop_read (k : nat) (p : AuditPage) : AuditPage := set_reads (au_loadingOlder p) (delete k (au_tasks p)) p.
Definition audit_step (p : AuditPage) (ev : UEvent) : AuditPage :=
  match ev with
  | u_logged e => set_log (log_add e (au_log p)) p
  | u_refresh => fetchEntries p
  | u_older => loadOlder p
  | u_fetched k back fails =>
      match au_tasks p !! k with
      | Some ut_fetch => apply_page (match fails with Some e => Err e | None => Ok (page_of size None (drop back (au_log p))) end) (drop_read k p)
      | _ => p
      end
  | u_older_landed k fails =>
      match au_tasks p !! k with
      | Some (ut_older b) =>
          older_landed (match fails with Some (Some e) => Some (Err e) | Some None => None | None => Some (Ok (page_of size (Some b) (au_log p))) end) (drop_read k p)
      | _ => p
      end
  end.
Definition run_audit (p : AuditPage) (evs : list UEvent) : AuditPage := fold_left audit_step evs p.
(** No newest page lands while an older one is under way. *)
Fixpoint in_turn (p : AuditPage) (evs : list UEvent) : bool :=
  match evs with [] => true | ev :: evs => negb (match ev with u_fetched _ _ None => au_loadingOlder p | _ => false end) && in_turn (audit_step p ev) evs end.

(** ** What is shown *)

(** The rows are a run of the log, the cursor its last id, or nothing is left below. *)
Definition run_of (log es : list AuditEntry) (older : option Z) : Prop :=
  exists above below, log = above ++ es ++ below /\ match older with Some c => exists e, last es = Some e /\ audit_id e = c | None => below = [] end.
Definition older_read (t : UTask) : option Z := match t with ut_older b => Some b | _ => None end.
Record audit_ok (p : AuditPage) : Prop := {
  uo_log : log_ok (au_log p);
  uo_rows : match au_entries p with Some es => run_of (au_log p) es (au_older p) | None => au_older p = None end;
  uo_tasks : if au_loadingOlder p then exists b, au_older p = Some b /\ omap older_read (au_tasks p) = [b] else omap older_read (au_tasks p) = [] }.
Lemma log_app l1 l2 : log_ok (l1 ++ l2) <-> log_ok l1 /\ log_ok l2 /\ forall x y, x ∈ l1 -> y ∈ l2 -> newer x y.
Proof.
  induction l1 as [|x l1 IH]; cbn; [split; [intros H; split_and!; [constructor | done | by intros ? ? ?%elem_of_nil] | by intros (_ & ? & _)]|].
  split.
  - intros H. apply StronglySorted_inv in H as [H Hx]. apply IH in H as (H1 & H2 & H3). apply Forall_app in Hx as [Hx1 Hx2].
    split_and!; [by constructor | done|]. intros a b [->|Ha]%elem_of_cons Hb; [|by apply H3]. rewrite Forall_forall in Hx2. by apply Hx2.
  - intros (H1 & H2 & H3). apply StronglySorted_inv in H1 as [H1 Hx]. constructor.
    + apply IH. split_and!; [done..|]. intros a b Ha Hb. apply H3; [by right | done].
    + apply Forall_app_2; [done|]. apply Forall_forall. intros b Hb. apply H3; [by left | done].
Qed.
(** Below the last row is what is below the run. *)
Lemma below_cursor above es below e : log_ok (above ++ es ++ below) -> last es = Some e -> List.filter (fun x => audit_id x <? audit_id e) (above ++ es ++ below) = below.
Proof.
  intros H [es' ->]%last_Some. rewrite !List.filter_app. apply log_app in H as (_ & H & Ha). apply log_app in H as (Hs & _ & Hb). apply log_app in Hs as (_ & _ & Hs).
  rewrite (filter_none _ above), (filter_none _ es'), (filter_every _ below); cbn.
  - by rewrite Z.ltb_irrefl.
  - intros x Hx. apply Z.ltb_lt, Hb; [|done]. apply elem_of_app. right. by left.
  - apply Forall_forall. intros x Hx. apply Z.ltb_ge, Z.lt_le_incl, Hs; [done | by left].
  - apply Forall_forall. intros x Hx. apply Z.ltb_ge, Z.lt_le_incl, Ha; [done|]. rewrite !elem_of_app. left. right. by left.
Qed.
Lemma newest_run log back : run_of log (page_of size None (drop back log)) (olderCursor (page_of size None (drop back log)) size) \/ size = 0%nat.
Proof.
  destruct (decide (size = 0%nat)) as [?|Hs]; [by right|left]. unfold page_of, olderCursor. exists (take back log), (drop size (drop back log)).
  split; [by rewrite !take_drop|]. destruct (size <=? length (take size (drop back log)))%nat eqn:E; breflect; rewrite length_take in E.
  - destruct (last (take size (drop back log))) as [e|] eqn:El; cbn; [by exists e|]. apply last_None in El. apply (f_equal length) in El. rewrite length_take in El. cbn in El. lia.
  - apply drop_ge. lia.
Qed.
Lemma append_page above es below e : log_ok (above ++ es ++ below) -> last es = Some e -> size <> 0%nat ->
  let page := page_of size (Some (audit_id e)) (above ++ es ++ below) in
  run_of (above ++ es ++ below) (appendOlder es page) (olderCursor page size).
Proof.
  intros H He Hs page. assert (page = take size below) as -> by (unfold page, page_of; by rewrite (below_cursor _ _ _ _ H He)). unfold appendOlder. rewrite filter_every.
  - exists above, (drop size below). split; [by rewrite <- app_assoc, take_drop|]. unfold olderCursor.
    destruct (size <=? length (take size below))%nat eqn:E; breflect; rewrite length_take in E; [|apply drop_ge; lia].
    destruct (last (take size below)) as [x|] eqn:El; cbn; [|apply last_None, (f_equal length) in El; rewrite length_take in El; cbn in El; lia].
    exists x. by rewrite last_app, El.
  - intros x Hx%elem_of_take. destruct Hx as (i & Hx & _). apply list_elem_of_lookup_2 in Hx. rewrite negb_true_iff, set_has_false, elem_set_of.
    intros (y & E & Hy)%list_elem_of_fmap. apply log_app in H as (_ & (_ & _ & H)%log_app & _). specialize (H y x Hy Hx). unfold newer in H. lia.
Qed.
Lemma drop_fetch k (ts : list UTask) : ts !! k = Some ut_fetch -> (length (omap older_read ts) <= 1)%nat -> omap older_read (delete k ts) = omap older_read ts.
Proof.
  intros Hk Hl. pose proof (omap_delete_perm older_read _ _ _ Hk) as HP. cbn in HP. destruct (omap older_read ts) as [|b [|]]; [| |cbn in Hl; lia].
  - by apply Permutation_nil in HP.
  - by apply Permutation_length_1_inv in HP.
Qed.
Lemma drop_older k b b' (ts : list UTask) : ts !! k = Some (ut_older b) -> omap older_read ts = [b'] -> b = b' /\ omap older_read (delete k ts) = [].
Proof. intros Hk Hl. pose proof (omap_delete_perm older_read _ _ _ Hk) as HP. rewrite Hl in HP. apply Permutation_length_1_inv in HP. cbn in HP. by injection HP as -> ->. Qed.
Lemma ok_tasks_len p : audit_ok p -> (length (omap older_read (au_tasks p)) <= 1)%nat.
Proof. intros [_ _ H]. destruct (au_loadingOlder p); [destruct H as (b & _ & ->) | rewrite H]; cbn; lia. Qed.
Lemma ok_drop_newest k p : au_tasks p !! k = Some ut_fetch -> audit_ok p -> audit_ok (drop_read k p).
Proof. intros Hk H. pose proof (ok_tasks_len _ H) as Hl. destruct H. split; try done. cbn. by rewrite (drop_fetch _ _ Hk Hl). Qed.
Lemma ok_logged e p : audit_ok p -> audit_ok (set_log (log_add e (au_log p)) p).
Proof.
  intros [Hl Hr Ht]. unfold log_add. destruct (forallb _ _) eqn:E; [|by split]. split; [|cbn|done].
  - constructor; [done|]. rewrite forallb_forall in E. apply Forall_forall. intros x Hx. apply Z.ltb_lt, E. by apply list_elem_of_In.
  - destruct (au_entries p) as [es|]; [|done]. destruct Hr as (a & b & -> & Hc). by exists (e :: a), b.
Qed.
Lemma ok_older_step p : audit_ok p -> audit_ok (loadOlder p).
Proof.
  intros [Hl Hr Ht]. unfold loadOlder. destruct (au_older p) as [b|] eqn:E; [|by split; rewrite ?E]. destruct (au_loadingOlder p) eqn:El; [by split; rewrite ?E, ?El|].
  split; cbn; [done | by rewrite E|]. exists b. split; [done|]. by rewrite omap_app, Ht.
Qed.
Lemma ok_landed k b r p : size <> 0%nat -> au_tasks p !! k = Some (ut_older b) -> audit_ok p ->
  (forall page, r = Some (Ok page) -> page = page_of size (Some b) (au_log p)) -> audit_ok (older_landed r (drop_read k p)).
Proof.
  intros Hs Hk [Hl Hr Ht] Hpage. destruct (au_loadingOlder p) eqn:El; [|apply (f_equal length) in Ht; rewrite (omap_delete_perm older_read _ _ _ Hk) in Ht; done].
  destruct Ht as (b' & Eo & Ht). destruct (drop_older _ _ _ _ Hk Ht) as [-> Hd].
  destruct r as [[page|e]|]; [|by split..]. specialize (Hpage page eq_refl) as ->. split; [done| |done].
  cbn. destruct (au_entries p) as [es|]; [|congruence]. rewrite Eo in Hr. destruct Hr as (a & c & E & (e & He & <-)). cbn. rewrite E in *. by apply append_page.
Qed.
Lemma audit_ok_step p ev : size <> 0%nat -> audit_ok p -> match ev with u_fetched _ _ None => au_loadingOlder p = false | _ => True end -> audit_ok (audit_step p ev).
Proof.
  intros Hs H Hev. destruct ev as [e| | |k back fails|k fails]; cbn [audit_step].
  - by apply ok_logged.
  - destruct H as [Hl Hr Ht]. split; [done..|]. cbn. by rewrite omap_app, app_nil_r.
  - by apply ok_older_step.
  - destruct (au_tasks p !! k) as [[|]|] eqn:E; [|done..]. apply (ok_drop_newest _ _ E) in H. destruct fails as [e|]; [destruct H; by split|].
    destruct H as [Hl Hr Ht]. split; [done| |]; cbn in *.
    + destruct (newest_run (au_log p) back) as [?|?]; done.
    + by rewrite Hev in *.
  - destruct (au_tasks p !! k) as [[|b]|] eqn:E; [done| |done]. apply (ok_landed k b); [done..|]. destruct fails as [[e|]|]; intros page; [done..|]. by intros [= <-].
Qed.
(** As long as no newest page lands while an older one is under way, the rows are at every moment
    an unbroken run of the log, each entry once, and when no older page is offered they reach its
    end, however the log grows and reads fail. *)
Theorem audit_rows_unbroken log evs :
  size <> 0%nat -> log_ok log -> in_turn (audit_open log) evs = true ->
  let p := run_audit (audit_open log) evs in
  match au_entries p with
  | Some es => exists above below, au_log p = above ++ es ++ below /\ NoDup (audit_id <$> es) /\ (au_older p = None -> below = [])
  | None => True
  end.
Proof.
  intros Hs Hlog Ht p. assert (audit_ok p) as [Hl Hr _].
  { assert (audit_ok (audit_open log)) as H0 by (split; done). unfold p. clear p. revert Ht H0. generalize (audit_open log).
    induction evs as [|ev evs IH]; intros p Ht H0; [done|]. cbn in *. apply andb_true_iff in Ht as [Hev Ht]. apply IH; [done|]. apply audit_ok_step; [done..|].
    destruct ev as [| | |k back [|]|]; try done. by apply negb_true_iff in Hev. }
  destruct (au_entries p) as [es|]; [|done]. destruct Hr as (a & b & E & Hc). exists a, b. split; [done|]. split; [|intros Eo; by rewrite Eo in Hc].
  rewrite E in Hl. apply log_app in Hl as (_ & (Hes & _ & _)%log_app & _). clear -Hes. induction es as [|e es IH]; [constructor|].
  apply StronglySorted_inv in Hes as [H1 H2]. rewrite fmap_cons. apply NoDup_cons. split; [|by apply IH].
  intros (y & Ey & Hy)%list_elem_of_fmap. rewrite Forall_forall in H2. specialize (H2 y Hy). unfold newer in H2. lia.
Qed.
End Page.

(** ** Concrete pages *)

Definition logged (id : Z) : AuditEntry := {| audit_id := id; audit_at := 0; audit_action := []; audit_actor := []; audit_target := []; audit_detail := [] |}.
Definition logged_upto (n : nat) : list AuditEntry := (fun i => logged (Z.of_nat i)) <$> rev (seq 1 n).
(** A refresh that lands while an older page is under way leaves a hole: of pages of two the rows are
    6, 5, 3 and 2, and no later page brings 4 back. *)
Theorem refresh_leaves_hole :
  let p := run_audit 2 (audit_open (logged_upto 5)) [u_fetched 0 0 None; u_older; u_logged (logged 6); u_refresh; u_fetched 1 0 None; u_older_landed 0 None] in
  (audit_id <$> default [] (au_entries p)) = [6; 5; 3; 2] /\ au_older p = Some 2 /\ logged 4 ∈ au_log p.
Proof. split_and!; [vm_compute; done | vm_compute; done|]. vm_compute. do 2 right. left. Qed.
Lemma audit_rows_unbroken_witness :
  let p := run_audit 2 (audit_open (logged_upto 5)) [u_fetched 0 0 None; u_logged (logged 6); u_older; u_older_landed 0 None] in
  (audit_id <$> default [] (au_entries p)) = [5; 4; 3; 2] /\ exists above below, au_log p = above ++ default [] (au_entries p) ++ below.
Proof.
  split; [vm_compute; done|].
  destruct (audit_rows_unbroken 2 (logged_upto 5) [u_fetched 0 0 None; u_logged (logged 6); u_older; u_older_landed 0 None]) as (a & b & E & _).
  - done.
  - vm_compute. repeat constructor.
  - vm_compute. done.
  - by exists a, b.
Defined.
